(* ===== verification/_CoqProject ===== *)
-Q . S2P
Prelude.v
Netip.v
Heap.v
EndpointTracker.v
Float64.v
Knobs.v
Bytes.v
Slices.v
Disco.v
Stun.v
Packet.v
UdpRelay.v
UdpRelayProps.v
Ordering.v
ProbeManager.v
Scorer.v
Flows.v
SourceSockets.v
ActivePaths.v
EndpointState.v
UdpLifetime.v
BetterAddr.v
RelayManager.v
RelayManagerProps.v
EndpointRecord.v
PeerMap.v
Endpoint.v
EndpointSend.v
EndpointFacts.v
Peers.v
EndpointProps.v
PeersProps.v
PeerLife.v
DiscoRx.v
DiscoRxProps.v
Derp.v
DerpProps.v
DiscoTx.v
DiscoTxProps.v
RelaySession.v
DataPath.v
DataPathProps.v
Receive.v
ReceiveProps.v
IPPacket.v
IPPacketProps.v
PacketHeaders.v
IPSet.v
FlowTrack.v
Filter.v
FilterProps.v
Checksum.v
ChecksumProps.v
TSMP.v
Tstun.v
TstunProps.v
TstunFlows.v
