(* ===== verification/Prelude.v ===== *)
(** * Verification of a Tailscale node's packet engine

    The repository is a Tailscale fork whose [wgengine/magicsock] can send to a peer from
    several local UDP sockets. This library models the path of a packet through the node, from
    the TUN device to the sockets and back, with everything that decides where it goes: the
    packet filter, the masquerading of addresses, the peers and their endpoints, the probing of
    paths, relays. Paths below are relative to [src/]; a file without a directory is in
    [src/wgengine/magicsock].

    ** The program and the files that model it

    A packet of the host enters [tstun.Wrapper.Read], passes the filter and source translation
    and is encrypted by WireGuard. The [Conn] of magicsock sends it to the peer: an [endpoint]
    per peer tracks the peer's addresses with disco pings and pongs and chooses the best one,
    the source-path engine probes each address from each auxiliary socket and scores the pairs,
    and the batch is written once or twice, through a peer relay, or handed to DERP. What the
    sockets receive is classified: disco messages are dispatched to the endpoints, the probe
    manager and the relay manager; WireGuard packets come out in [tstun.Wrapper.Write], pass
    destination translation and the filter and go to the host.

    Foundations.
    - [Prelude]: Go integers, [mono.Time], maps ranged over in any order, [slices.SortFunc],
      and the automation of the library.
    - [Netip], [Bytes], [Slices], [Float64], [Ordering]: [net/netip] addresses with their
      textual form and [epAddr]; bytes and big-endian integers; slices written in place and
      parsers that may panic; IEEE binary64 with the conversions and [math.Exp] of Go;
      comparisons built lexicographically.
    - [Heap] (tempfork/heap), [EndpointTracker] (endpoint_tracker.go): the binary heap, and the
      cache of advertised endpoints that uses it.
    - [Knobs] (sourcepath_supported.go, directvsrelay.go, extraendpoints.go): the environment
      knobs as a record, and every effective value.

    Wire formats.
    - [Disco] (disco/disco.go), [Stun] (net/stun), [Packet] (net/packet/geneve.go,
      magicsock.go): the messages with their parsers, the Geneve header, the framing and the
      classification of datagrams.
    - [IPPacket], [IPPacketProps], [PacketHeaders] (net/packet): the decoder of IP packets on a
      [Parsed] that is used again and again, and the headers that marshal themselves.
    - [Checksum], [ChecksumProps] (net/packet/checksum), [TSMP] (net/packet/tsmp.go): rewriting
      an address in place with its checksums; the messages between nodes.

    Sending and receiving.
    - [ProbeManager], [Scorer], [Flows] (sourcepath.go): [sourcePathProbeManager], that is the
      pending probes, the samples, the outcomes, the streaks and demotions, the failover and
      flow tables; the scores; flow identifiers and the flow table.
    - [SourceSockets] (sourcepath_supported.go): the slots of the auxiliary sockets; [sp_op] and
      [sp_run] are the sequences of sizing, binding, rotating and closing.
    - [ActivePaths] (sourcepath.go, endpoint.go): ranked dual-send paths and the policy that
      keeps two of them active.
    - [EndpointState], [UdpLifetime], [BetterAddr] (endpoint.go, directvsrelay.go): the pong
      ring of an address; the lifetime probe; the preference between paths, its hysteresis, and
      the promotion of a pong.
    - [EndpointRecord], [Endpoint], [EndpointSend] (endpoint.go): the [endpoint] struct as a
      record, one definition per handler in a state monad that also collects the actions a
      handler starts (packets, timers, callbacks), and the plan of a send. [ep_op] is every
      event of an endpoint and [ep_run] a sequence of them. [EndpointFacts], [EndpointProps]:
      the invariant and the theorems.
    - [DataPath], [DataPathProps] (endpoint.go, magicsock.go, sourcepath.go): [endpoint.send]
      after its plan, in a state monad over the manager, the sockets and the log of the writes.
    - [PeerMap], [Peers], [PeersProps] (peermap.go, magicsock.go): the four indexes over a store
      of shared peer infos, and the operations that change which peers there are; [devPanicf]
      panics or not by [e_crashOnUnexpected].
    - [DiscoRx], [DiscoRxProps] (magicsock.go): [handleDiscoMessageWithSource] and what it calls.
    - [DiscoTx], [DiscoTxProps] (magicsock.go, sourcepath.go): the sends of disco messages, disco
      pings and source-path probes, on the peers, the manager, the sockets and the DERP
      connections; the loop of a tick ([loopStep]) and the probes it starts ([routineStep]) are
      steps that interleave.
    - [Derp], [DerpProps] (derp.go, magicsock.go): the registry of connections to DERP regions with
      routes, home region, idle cleanup and closing, the goroutines of each connection, and those
      that ask for one, which look at the network before they take the lock; [derpEvent] is
      everything that may happen next and [derpRun] a sequence of it.
    - [Receive], [ReceiveProps], [PeerLife] (magicsock.go, derp.go): the receive functions with
      their address cache, in two parts ([receiveBegin], [receiveFinish]) that others interleave
      with and with what holds at each message, that of DERP, the wrapped endpoints WireGuard gets and what it says of them, [Conn.Send];
      how long an endpoint and its generation live.

    Relays.
    - [RelayManager], [RelayManagerProps] (relaymanager.go): the run loop with its handlers and
      the allocation and handshake goroutines, as steps that interleave ([rmStep]).
    - [UdpRelay], [UdpRelayProps] (net/udprelay): the relay server; packet handling is in steps
      between which endpoints may be allocated, expire or be closed.
    - [RelaySession]: two clients (manager and disco dispatch of each) and a server, composed
      packet by packet.

    The host's side.
    - [IPSet] (net/ipset), [FlowTrack] (net/flowtrack), [Filter], [FilterProps]
      (wgengine/filter): membership in prefix lists, the LRU cache of flows over a store of list
      elements, the compiled rules and the filter with the state it shares.
    - [Tstun], [TstunProps], [TstunFlows] (net/tstun/wrap.go, net/tsaddr): the masquerading
      table, both packet pipelines, [Read], [Write] and injected packets.

    Clients are proved against interfaces: the class [BartTable] (and [BartMap], with values) is
    what the routing table of another repository promises, [FlowCache] what the filter needs of
    the flow cache, discharged by [flowtrack_cache]; [Header] is the interface of the packet
    headers with an instance per type; [CmpOrder] and [LessOrder] are what sorting and heaps
    need of a comparison.

    ** What the theorems show

    - Probing: admission decides exactly by the three budgets and keeps them; expiry is exact;
      a pong is believed once, on the socket and from the peer probed. A probe that is reported
      as sent comes back, through the dispatch of the other node, as a sample of its path with
      the time that passed; a tick, however its probes interleave, keeps the manager well formed
      and within its budgets, and probes only what it found.
    - Scoring: the incremental scorer computes the reference score, which is defined on its own,
      without rounding where the code uses integers; the chosen source is
      optimal; a failed or rotated socket leaves no trace and disturbs no other.
    - Flows and sockets: the mixer is a bijection; the flow table is bounded with oldest-first
      eviction; socket identities are unique and never return.
    - Active paths: two different paths, best first, stable unless a better one is promoted
      within budget and cooldown, and over two addresses where there are two.
    - Endpoint: every run of handlers keeps the invariant and never panics; a ping callback
      runs at most once; the preference is asymmetric (and not transitive); changes between
      direct and relayed paths are spaced by the hold window.
    - Sends: what a result says of the writes and of DERP, for data and for disco messages; the
      fallback of the single-source strategy; the active backup that never takes over.
    - Receives: a receive function reports exactly the WireGuard packets, stripped of their
      Geneve header; each is attributed to a current peer or to nobody, in every interleaving
      with updates of the peers but the one in which the peer is removed between its lookup and
      the reading of its generation; an identified sender is known from then on, except to a
      receive function that has cached another one.
    - DERP: the channel a packet is written to; packets arrive whole, in order and once although
      the reader shares its buffer, and are attributed to the peer the server named; the home
      region stays connected; closing ends every goroutine; and the runs in which a connection
      falls silent, generations overlap, a route or the home connection is lost, or a connection
      opened while the network went down is taken for the home connection.
    - Peers: the indexes agree after every run and refine a table of node keys; the exact cases
      in which an update panics, with and without crashing on unexpected conditions. A received
      disco message does only what its sender may ask for, to the actions and to the state.
    - Formats: parsers return what was marshalled and fail exactly on what they document;
      generated IP packets are decoded to what they were made of and their checksums verify;
      the decoder is total and what it reads does not depend on earlier packets.
    - Relays: a relay forwards only between addresses that proved themselves; the server's
      indexes and gauges stay consistent; the relay manager never blocks and its goroutines
      finish; two clients and a server open a session and carry packets both ways.
    - Filter: a packet is admitted exactly when the rules, a known flow or a hook say so;
      replies are admitted while fewer than [lruMax] other flows are used, and unsolicited
      flows are not; shields up and jailed peers.
    - TUN wrapper: what reaches the host was admitted by its sender's filter; translation keeps
      valid checksums valid and is undone by replies; TSMP pings are answered; what the table of
      a configuration says of every address; which packets make [Write] panic.

    ** Conventions

    A Go [int], [int64] or [time.Duration] is a [Z] reduced by [i64] after arithmetic that can
    overflow, an unsigned one by [uw]. A loop over a map goes through the class [MapRange], so
    that theorems hold for every iteration order; what differs between platforms is the class
    [Platform]. Witnesses use the instances [canonical_range] and [portable_platform]. The
    network, the clock, the DERP servers, fresh transaction ids and random numbers are fields of [Env] and
    [SendEnv] that answer the n-th question; nothing is assumed of them. Sealing and hashing
    are parameters with the laws used, named where they are assumed. Objects shared by pointer
    live in stores (peer infos, relay endpoints, list elements, flow caches). A panic is a
    value: [None], or a constructor of the error type. A handler is one step: it holds the
    mutex of its endpoint or of its connection; a function that reads before it takes the mutex
    or goes on after it is split there, or takes as an argument what others do in between.

    Fuel: [evictLoop] gets one unit more than the flows in the table, and each iteration
    removes one; [fillLoop] of [ActivePaths] gets the two places there are to fill;
    [popExpired] and [popOver] of [EndpointTracker] get one unit per heap entry; [foldCarry]
    gets two passes, which [foldCarry_enough] shows to be enough. The
    theorems about them are stated of the functions that call them, with this fuel. The loops
    of [Heap] are well-founded recursions.

    ** Not modelled

    The client of the DERP protocol, netcheck, system calls on sockets and on the TUN device, generic
    segmentation offload and packets of the user-space network stack, TAP, packet capture, the
    extra-endpoints file watcher, the translation of control-plane rules into filter matches,
    metrics, logs and debug pages. These are input and output or glue to libraries that are not
    part of the repository. The interleaving of two handlers of one endpoint inside their
    critical sections is excluded by their mutex and not represented. *)
From stdpp Require Export base option list gmap strings sorting.
From Stdlib Require Export ZArith Lia.

Global Open Scope Z_scope.

(** ** Go machine integers

    A Go [int], [int64], [time.Duration] or [mono.Time] is a [Z] in
    [-2^63, 2^63); arithmetic is followed by [i64], the two's complement
    wrap-around. Unsigned values of width [w] are reduced with [uw w]. *)
Module Int.
Definition i64 (z : Z) : Z := (z + 2 ^ 63) mod 2 ^ 64 - 2 ^ 63.
Definition uw (w z : Z) : Z := z mod 2 ^ w.
Definition in64 (z : Z) : Prop := - 2 ^ 63 <= z < 2 ^ 63.

Lemma i64_small z : in64 z -> i64 z = z.
Proof. unfold in64, i64. intros. rewrite Z.mod_small; lia. Qed.

Lemma i64_range z : in64 (i64 z).
Proof. unfold in64, i64. pose proof (Z.mod_pos_bound (z + 2 ^ 63) (2 ^ 64)). lia. Qed.

Lemma uw_range w z : 0 <= w -> 0 <= uw w z < 2 ^ w.
Proof. intros. apply Z.mod_pos_bound. lia. Qed.

Lemma uw_small w z : 0 <= z < 2 ^ w -> uw w z = z.
Proof. apply Z.mod_small. Qed.
End Int.
Export Int.

(** ** [time.Duration] constants (nanoseconds) *)
Definition Millisecond : Z := 1000000.
Definition Second : Z := 1000000000.
Definition Minute : Z := 60 * Second.
Definition Hour : Z := 60 * Minute.

(** ** [tstime/mono]: monotonic time, an [int64] of nanoseconds *)
Module Mono.
Definition Sub (t n : Z) : Z := i64 (t - n).
Definition Add (t d : Z) : Z := i64 (t + d).
Definition After (t n : Z) : bool := n <? t.
Definition Before (t n : Z) : bool := t <? n.
Definition IsZero (t : Z) : bool := t =? 0.

(** The instants the clock can return: [mono.Now] starts at [2^55]
    nanoseconds and only grows, and the zero value is [0]. *)
Definition ok (t : Z) : Prop := 0 <= t < 2 ^ 63.

Lemma Sub_ok t n : ok t -> ok n -> Sub t n = t - n.
Proof. unfold ok, Sub. intros. apply i64_small. unfold in64. lia. Qed.

Lemma Add_ok t d : ok t -> 0 <= d -> t + d < 2 ^ 63 -> Add t d = t + d.
Proof. unfold ok, Add. intros. apply i64_small. unfold in64. lia. Qed.
End Mono.

(** ** Automation of the development

    [netdb] holds the arithmetic and list facts that close the routine side
    conditions; [bool_props] turns the boolean tests of the code into the
    propositions they decide. *)
Create HintDb netdb.

Lemma bool_decide_iff_eq (P Q : Prop) `{Decision P, Decision Q} :
  (P <-> Q) -> bool_decide P = bool_decide Q.
Proof. intros ?. by apply bool_decide_ext. Qed.

Ltac bool_props :=
  repeat match goal with
  | H : _ && _ = true |- _ => apply andb_true_iff in H as [? ?]
  | H : _ || _ = false |- _ => apply orb_false_iff in H as [? ?]
  | H : negb _ = true |- _ => apply negb_true_iff in H
  | H : negb _ = false |- _ => apply negb_false_iff in H
  | H : bool_decide _ = true |- _ => apply bool_decide_eq_true in H
  | H : bool_decide _ = false |- _ => apply bool_decide_eq_false in H
  | H : (_ <? _) = true |- _ => apply Z.ltb_lt in H
  | H : (_ <? _) = false |- _ => apply Z.ltb_ge in H
  | H : (_ <=? _) = true |- _ => apply Z.leb_le in H
  | H : (_ <=? _) = false |- _ => apply Z.leb_gt in H
  | H : (_ =? _) = true |- _ => apply Z.eqb_eq in H
  | H : (_ =? _) = false |- _ => apply Z.eqb_neq in H
  end.

Lemma StronglySorted_take {A} (R : relation A) n l : StronglySorted R l -> StronglySorted R (take n l).
Proof.
  intros Hs. revert n. induction Hs as [|x l Hs IH Hx]; intros [|n]; simpl; constructor; auto.
  by apply Forall_take.
Qed.
Lemma Forall_filter_id {A} (P : A -> Prop) `{forall x, Decision (P x)} l :
  Forall P l -> filter P l = l.
Proof. induction 1; [done|]. rewrite filter_cons, decide_True by done. congruence. Qed.
Lemma Forall_filter {A} (P Q : A -> Prop) `{forall x, Decision (Q x)} l : Forall P l -> Forall P (filter Q l).
Proof. rewrite !Forall_forall. intros Hl x [_ Hx]%list_elem_of_filter. by apply Hl. Qed.
Lemma Forall_fmap_id {A} (f : A -> A) l : Forall (fun x => f x = x) l -> f <$> l = l.
Proof. induction 1 as [|x l Hx _ IH]; [done|]. by rewrite fmap_cons, Hx, IH. Qed.
(** Bit operations keep a width. *)
Lemma lxor_range a b n : 0 < n -> 0 <= a < 2 ^ n -> 0 <= b < 2 ^ n -> 0 <= Z.lxor a b < 2 ^ n.
Proof.
  intros Hn Ha Hb. split; [apply Z.lxor_nonneg; lia|].
  destruct (decide (Z.lxor a b = 0)) as [->|Hne]; [lia|].
  assert (0 <= Z.lxor a b) by (apply Z.lxor_nonneg; lia).
  apply Z.log2_lt_pow2; [lia|]. eapply Z.le_lt_trans; [apply Z.log2_lxor; lia|].
  apply Z.max_lub_lt.
  - destruct (decide (a = 0)) as [->|]; [simpl; lia|apply Z.log2_lt_pow2; lia].
  - destruct (decide (b = 0)) as [->|]; [simpl; lia|apply Z.log2_lt_pow2; lia].
Qed.
Lemma shiftr_range a s n : 0 <= s -> 0 <= a < 2 ^ n -> 0 <= Z.shiftr a s < 2 ^ n.
Proof.
  intros Hs Ha. rewrite Z.shiftr_div_pow2 by done.
  pose proof (Z.pow_pos_nonneg 2 s ltac:(lia) Hs).
  split; [apply Z.div_pos; lia|]. apply Z.div_lt_upper_bound; nia.
Qed.
#[export] Hint Resolve i64_range uw_range StronglySorted_take Forall_take Forall_drop : netdb.

(** ** Iterating over a Go map

    The order in which Go ranges over a map is unspecified. Every loop over a
    map in the model goes through [map_range], and theorems hold for every
    instance of the class, that is for every order of the entries. *)
Class MapRange := {
  map_range : forall {K : Type} `{Countable K} {V : Type}, gmap K V -> list (K * V);
  map_range_perm : forall {K : Type} `{Countable K} {V : Type} (m : gmap K V),
    map_range m ≡ₚ map_to_list m
}.

(** The instance used by witnesses. *)
Definition canonical_range : MapRange :=
  {| map_range := fun K _ _ V m => map_to_list m;
     map_range_perm := fun K _ _ V m => reflexivity _ |}.

Section MapRangeFacts.
Context `{MapRange} {K V : Type} `{Countable K}.
Implicit Types m : gmap K V.

Lemma elem_of_map_range m k v : (k, v) ∈ map_range m <-> m !! k = Some v.
Proof. rewrite map_range_perm. apply elem_of_map_to_list. Qed.

Lemma NoDup_map_range m : NoDup (map_range m).*1.
Proof. rewrite map_range_perm. apply NoDup_fst_map_to_list. Qed.

Lemma length_map_range m : length (map_range m) = size m.
Proof. rewrite map_range_perm. apply length_map_to_list. Qed.
End MapRangeFacts.

(** The concatenation of the lists in a map. *)
Lemma elem_of_concat_range `{MapRange} {K A} `{Countable K} (m : gmap K (list A)) (x : A) :
  x ∈ concat ((map_range m).*2) <-> exists k l, m !! k = Some l /\ x ∈ l.
Proof.
  rewrite list_elem_of_In, in_concat. setoid_rewrite <- list_elem_of_In.
  setoid_rewrite list_elem_of_fmap. split.
  - intros (l & ([k l'] & -> & Hin) & Hx). exists k, l'. by rewrite elem_of_map_range in Hin.
  - intros (k & l & Hl & Hx). exists l. split; [|done]. exists (k, l). by rewrite elem_of_map_range.
Qed.

(** ** [slices.SortFunc]

    Go sorts slices of at most twelve elements by the insertion sort below and
    larger ones by pattern-defeating quicksort; the two agree up to the order
    of elements the comparison cannot tell apart. *)
Module Slices.
Section SortFunc.
Context {A : Type} (cmp : A -> A -> Z).

(** Moves [x] left past every element it is strictly below ([rl] is the sorted
    prefix, last element first). *)
Fixpoint insert_left (x : A) (rl : list A) : list A :=
  match rl with
  | [] => [x]
  | y :: rl' => if cmp x y <? 0 then y :: insert_left x rl' else x :: rl
  end.

Definition SortFunc (l : list A) : list A :=
  reverse (foldl (fun acc x => insert_left x acc) [] l).

Lemma insert_left_perm x rl : insert_left x rl ≡ₚ x :: rl.
Proof.
  induction rl as [|y rl IH]; simpl; [done|].
  destruct (_ <? _); [|done]. rewrite IH. constructor.
Qed.

Lemma SortFunc_perm l : SortFunc l ≡ₚ l.
Proof.
  unfold SortFunc. rewrite reverse_Permutation.
  enough (forall acc, foldl (fun acc x => insert_left x acc) acc l ≡ₚ l ++ acc) as ->
    by (by rewrite app_nil_r).
  induction l as [|x l IH]; intros acc; simpl; [done|].
  rewrite IH, insert_left_perm. symmetry. apply Permutation_middle.
Qed.

Lemma length_SortFunc l : length (SortFunc l) = length l.
Proof. by rewrite SortFunc_perm. Qed.

Lemma elem_of_SortFunc x l : x ∈ SortFunc l <-> x ∈ l.
Proof. by rewrite SortFunc_perm. Qed.
End SortFunc.

(** What a comparison must satisfy on the elements in [P] for sorting by it to
    mean anything: antisymmetric signs and transitivity. *)
Class CmpOrder {A} (P : A -> Prop) (cmp : A -> A -> Z) : Prop := {
  cmp_sign : forall a b, P a -> P b -> cmp a b < 0 <-> 0 < cmp b a;
  cmp_trans : forall a b c, P a -> P b -> P c ->
    cmp a b <= 0 -> cmp b c <= 0 -> cmp a c <= 0
}.

Definition cmp_le {A} (cmp : A -> A -> Z) (a b : A) : Prop := cmp a b <= 0.

Section Sorted.
Context {A : Type} (P : A -> Prop) (cmp : A -> A -> Z) `{!CmpOrder P cmp}.

Lemma cmp_le_total a b : P a -> P b -> cmp_le cmp a b \/ cmp_le cmp b a.
Proof.
  unfold cmp_le. intros Ha Hb.
  pose proof (cmp_sign b a Hb Ha). pose proof (cmp_sign a b Ha Hb). lia.
Qed.

Lemma insert_left_sorted x rl :
  P x -> Forall P rl -> StronglySorted (flip (cmp_le cmp)) rl ->
  StronglySorted (flip (cmp_le cmp)) (insert_left cmp x rl).
Proof.
  intros Hx. induction rl as [|y rl IH]; intros HP Hs; simpl.
  { repeat constructor. }
  apply Forall_cons in HP as [Hy HP].
  apply StronglySorted_inv in Hs as [Hs Hall].
  destruct (cmp x y <? 0) eqn:E; bool_props.
  - constructor; [by apply IH|].
    rewrite insert_left_perm. constructor; [unfold flip, cmp_le; lia|done].
  - assert (cmp_le cmp y x) as Hyx.
    { unfold cmp_le. pose proof (cmp_sign x y Hx Hy). lia. }
    constructor; [by constructor|]. constructor; [done|].
    rewrite Forall_forall in Hall |- *. rewrite Forall_forall in HP.
    intros z Hz. unfold flip in *. eapply cmp_trans; eauto.
    all: apply Hall; done.
Qed.

Lemma SortFunc_sorted l : Forall P l -> StronglySorted (cmp_le cmp) (SortFunc cmp l).
Proof.
  intros HP. unfold SortFunc.
  enough (forall acc, Forall P acc -> StronglySorted (flip (cmp_le cmp)) acc ->
    StronglySorted (flip (cmp_le cmp)) (foldl (fun acc x => insert_left cmp x acc) acc l))
    as Hfold.
  { specialize (Hfold [] (Forall_nil_2 _) (SSorted_nil _)).
    induction Hfold as [|x rl Hs IH Hall]; [constructor|].
    rewrite reverse_cons. clear Hs.
    revert IH. assert (Forall (fun y => cmp_le cmp y x) (reverse rl)) as Hall'.
    { by rewrite reverse_Permutation. }
    induction (reverse rl) as [|y l' IHl]; intros Hs; simpl.
    { repeat constructor. }
    apply Forall_cons in Hall' as [? ?].
    apply StronglySorted_inv in Hs as [? ?].
    constructor; [by apply IHl|]. rewrite Forall_app. auto. }
  induction HP as [|x l Hx HP IH]; intros acc Hacc Hs; simpl; [done|].
  apply IH; [|by apply insert_left_sorted].
  rewrite insert_left_perm. by constructor.
Qed.

(** The head of a sorted slice is a minimum. *)
Lemma SortFunc_head l x l' :
  Forall P l -> SortFunc cmp l = x :: l' -> forall y, y ∈ l -> y = x \/ cmp x y <= 0.
Proof.
  intros HP Hs y Hy.
  pose proof (SortFunc_sorted l HP) as Hss. rewrite Hs in Hss.
  apply StronglySorted_inv in Hss as [_ Hall]. rewrite Forall_forall in Hall.
  rewrite <- (elem_of_SortFunc cmp), Hs, elem_of_cons in Hy.
  destruct Hy as [->|Hy]; [by left|right]. by apply Hall.
Qed.
End Sorted.
End Slices.
