(* ===== verification/Netip.v ===== *)
(** * Addresses: the part of [net/netip] the engine uses, [packet.VirtualNetworkID],
    [epAddr] and the identity of a local source socket.

    [Addr] is [netip.Addr]: the zero value, an IPv4 address (32 bits) or an IPv6
    address (128 bits) with a zone. IPv4-mapped IPv6 addresses are [Addr6] values,
    as in Go. *)
From stdpp Require Import pretty.
From S2P Require Import Prelude.

Module Netip.

Inductive Addr :=
  | AddrZero
  | Addr4 (a : Z)
  | Addr6 (a : Z) (zone : string).

Record AddrPort := MkAddrPort { ip : Addr; port : Z }.

#[export] Instance Addr_eq_dec : EqDecision Addr.
Proof. solve_decision. Defined.
#[export] Instance AddrPort_eq_dec : EqDecision AddrPort.
Proof. solve_decision. Defined.

Definition addr_enc (x : Addr) : unit + (Z + Z * string) :=
  match x with
  | AddrZero => inl ()
  | Addr4 a => inr (inl a)
  | Addr6 a z => inr (inr (a, z))
  end.
Definition addr_dec (x : unit + (Z + Z * string)) : Addr :=
  match x with
  | inl _ => AddrZero
  | inr (inl a) => Addr4 a
  | inr (inr (a, z)) => Addr6 a z
  end.
#[export] Instance Addr_countable : Countable Addr.
Proof. apply (inj_countable' addr_enc addr_dec). by intros []. Defined.
#[export] Instance AddrPort_countable : Countable AddrPort.
Proof.
  apply (inj_countable' (fun p => (ip p, port p)) (fun q => MkAddrPort q.1 q.2)).
  by intros [].
Defined.

Definition zeroAddrPort : AddrPort := MkAddrPort AddrZero 0.

(** The [i]-th 16-bit group of a 128-bit address, [Addr.v6u16]. *)
Definition v6u16 (a : Z) (i : Z) : Z := Z.land (Z.shiftr a (112 - 16 * i)) 0xffff.
(** The [i]-th byte of a 32-bit address, [Addr.v4]. *)
Definition v4byte (a : Z) (i : Z) : Z := Z.land (Z.shiftr a (24 - 8 * i)) 0xff.

Definition AddrIsValid (x : Addr) : bool := match x with AddrZero => false | _ => true end.
Definition Is4 (x : Addr) : bool := match x with Addr4 _ => true | _ => false end.
Definition Is6 (x : Addr) : bool := match x with Addr6 _ _ => true | _ => false end.
Definition Is4In6 (x : Addr) : bool :=
  match x with Addr6 a _ => Z.shiftr a 32 =? 0xffff | _ => false end.
Definition Unmap (x : Addr) : Addr :=
  match x with
  | Addr6 a _ => if Is4In6 x then Addr4 (Z.land a 0xffffffff) else x
  | _ => x
  end.

Definition IsLoopback (x : Addr) : bool :=
  match Unmap x with
  | Addr4 a => v4byte a 0 =? 127
  | Addr6 a _ => a =? 1
  | AddrZero => false
  end.
Definition IsLinkLocalUnicast (x : Addr) : bool :=
  match Unmap x with
  | Addr4 a => (v4byte a 0 =? 169) && (v4byte a 1 =? 254)
  | Addr6 a _ => Z.land (v6u16 a 0) 0xffc0 =? 0xfe80
  | AddrZero => false
  end.
Definition IsPrivate (x : Addr) : bool :=
  match Unmap x with
  | Addr4 a =>
      (v4byte a 0 =? 10)
      || ((v4byte a 0 =? 172) && (Z.land (v4byte a 1) 0xf0 =? 16))
      || ((v4byte a 0 =? 192) && (v4byte a 1 =? 168))
  | Addr6 a _ => Z.land (v6u16 a 0) 0xfe00 =? 0xfc00
  | AddrZero => false
  end.

(** [AddrPort.IsValid]: the address is not the zero [Addr]. *)
Definition IsValid (p : AddrPort) : bool := AddrIsValid (ip p).

(** ** [AddrPort.String] *)
Definition decimal (z : Z) : string := pretty (Z.to_N z).

Definition hex_digit (d : Z) : Ascii.ascii :=
  Ascii.ascii_of_N (Z.to_N (if d <? 10 then 48 + d else 87 + d)).
(** [appendHex]: a 16-bit group without leading zeros. *)
Definition hex16 (x : Z) : string :=
  let d i := String (hex_digit (Z.land (Z.shiftr x (4 * i)) 15)) EmptyString in
  (if 0x1000 <=? x then d 3 else "") +:+ (if 0x100 <=? x then d 2 else "")
  +:+ (if 0x10 <=? x then d 1 else "") +:+ d 0.

Definition string4 (a : Z) : string :=
  decimal (v4byte a 0) +:+ "." +:+ decimal (v4byte a 1) +:+ "."
  +:+ decimal (v4byte a 2) +:+ "." +:+ decimal (v4byte a 3).

(** The length of the run of zero groups at the head of [gs]. *)
Fixpoint zero_run (gs : list Z) : nat :=
  match gs with 0 :: gs' => S (zero_run gs') | _ => O end.
(** The first longest run of at least two zero groups: (start, end), or (255, 255). *)
Fixpoint best_zero_run (i : nat) (gs : list Z) (best : nat * nat) : nat * nat :=
  match gs with
  | [] => best
  | _ :: gs' =>
      let l := zero_run gs in
      best_zero_run (S i) gs'
        (if (2 <=? l)%nat && ((best.2 - best.1) <? l)%nat then (i, (i + l)%nat) else best)
  end.
Definition groups (a : Z) : list Z := map (v6u16 a) [0; 1; 2; 3; 4; 5; 6; 7].
Definition colon_join (gs : list Z) : string :=
  match gs with
  | [] => ""
  | g :: gs' => foldl (fun s g => s +:+ ":" +:+ hex16 g) (hex16 g) gs'
  end.
Definition string6 (a : Z) : string :=
  let gs := groups a in
  let '(zs, ze) := best_zero_run 0 gs (255, 255)%nat in
  if (zs =? 255)%nat then colon_join gs
  else colon_join (take zs gs) +:+ "::" +:+ colon_join (drop ze gs).

Definition AddrPort_String (p : AddrPort) : string :=
  match ip p with
  | AddrZero => "invalid AddrPort"
  | Addr4 a => string4 a +:+ ":" +:+ decimal (port p)
  | Addr6 a zone =>
      let z := if decide (zone = EmptyString) then EmptyString else "%" +:+ zone in
      "[" +:+ (if Is4In6 (ip p)
               then "::ffff:" +:+ string4 (Z.land a 0xffffffff)
               else string6 a)
          +:+ z +:+ "]:" +:+ decimal (port p)
  end.

(** Go's [<] and [>] on strings: byte-wise lexicographic. *)
Definition string_lt (s t : string) : bool :=
  match String.compare s t with Lt => true | _ => false end.

Example string4_ex :
  AddrPort_String (MkAddrPort (Addr4 0x7f030328) 1) = "127.3.3.40:1".
Proof. vm_compute. reflexivity. Qed.
Example string6_ex :
  AddrPort_String (MkAddrPort (Addr6 0x20010db8000000000000000000000001 "") 443)
  = "[2001:db8::1]:443".
Proof. vm_compute. reflexivity. Qed.
Example string6_mapped_ex :
  AddrPort_String (MkAddrPort (Addr6 0xffff01020304 "eth0") 9) = "[::ffff:1.2.3.4%eth0]:9".
Proof. vm_compute. reflexivity. Qed.

End Netip.
Export Netip.

(** ** [packet.VirtualNetworkID] *)
Module VNI.
Definition vniSetMask : Z := 0xFF000000.
Definition vniGetMask : Z := 0x00FFFFFF.
Definition IsSet (v : Z) : bool := negb (Z.land v vniSetMask =? 0).
Definition Set_ (vni : Z) : Z := Z.lor vni vniSetMask.
Definition Get (v : Z) : Z := Z.land v vniGetMask.
End VNI.

(** ** [epAddr]: an address with an optional Geneve network identifier *)
Record epAddr := MkEpAddr { ap : AddrPort; vni : Z }.
#[export] Instance epAddr_eq_dec : EqDecision epAddr.
Proof. solve_decision. Defined.
#[export] Instance epAddr_countable : Countable epAddr.
Proof.
  apply (inj_countable' (fun e => (ap e, vni e)) (fun q => MkEpAddr q.1 q.2)). by intros [].
Defined.
Definition zeroEpAddr : epAddr := MkEpAddr Netip.zeroAddrPort 0.
(** [tailcfg.DerpMagicIPAddr], 127.3.3.40. *)
Definition DerpMagicIPAddr : Addr := Addr4 0x7f030328.
Definition isDirect (e : epAddr) : bool :=
  IsValid (ap e) && negb (bool_decide (ip (ap e) = DerpMagicIPAddr)) && negb (VNI.IsSet (vni e)).
Definition epAddr_of (p : AddrPort) : epAddr := MkEpAddr p 0.

(** ** [SourceSocketID], [sourceGeneration] and [sourceRxMeta] *)
Definition primarySourceSocketID : Z := 0.
Definition sourceIPv4SocketID : Z := 1.
Definition sourceIPv6SocketID : Z := 2.
Definition sourceIPv4ExtraSocketIDBase : Z := 100.
Definition sourceIPv6ExtraSocketIDBase : Z := 200.
Record sourceRxMeta := MkRxMeta { socketID : Z; generation : Z }.
#[export] Instance sourceRxMeta_eq_dec : EqDecision sourceRxMeta.
Proof. solve_decision. Defined.
#[export] Instance sourceRxMeta_countable : Countable sourceRxMeta.
Proof.
  apply (inj_countable' (fun e => (socketID e, generation e)) (fun q => MkRxMeta q.1 q.2)).
  by intros [].
Defined.
Definition primarySourceRxMeta : sourceRxMeta := MkRxMeta primarySourceSocketID 0.
Definition isPrimary (m : sourceRxMeta) : bool := socketID m =? primarySourceSocketID.

(** ** Facts *)
Lemma isDirect_epAddr_of p :
  isDirect (epAddr_of p) = IsValid p && negb (bool_decide (ip p = DerpMagicIPAddr)).
Proof. unfold isDirect, epAddr_of, VNI.IsSet. simpl. by rewrite andb_true_r. Qed.

Lemma isDirect_valid e : isDirect e = true -> IsValid (ap e) = true.
Proof. unfold isDirect. intros. bool_props. done. Qed.

Lemma VNI_Set_IsSet v : 0 <= v -> VNI.IsSet (VNI.Set_ v) = true.
Proof.
  intros Hv. unfold VNI.IsSet, VNI.Set_. apply negb_true_iff, Z.eqb_neq. intros E.
  assert (Z.testbit (Z.land (Z.lor v VNI.vniSetMask) VNI.vniSetMask) 31 = false) as F
    by (rewrite E; apply Z.bits_0).
  rewrite Z.land_spec, Z.lor_spec in F. rewrite orb_true_r in F. discriminate.
Qed.

Lemma VNI_Get_Set v : 0 <= v < 2 ^ 24 -> VNI.Get (VNI.Set_ v) = v.
Proof.
  intros Hv. unfold VNI.Get, VNI.Set_.
  rewrite Z.land_lor_distr_l. change (Z.land VNI.vniSetMask VNI.vniGetMask) with 0.
  rewrite Z.lor_0_r. change VNI.vniGetMask with (Z.ones 24).
  rewrite Z.land_ones by lia. apply Z.mod_small. lia.
Qed.
