(* ===== verification/Heap.v ===== *)
(** * The binary heap (tempfork/heap/heap.go)

    [heap.Interface] is a list with an order [less]; [Swap] and [Less] are those of a slice.
    The loops [up] and [down] are well-founded recursions, so every operation terminates on
    every slice. *)
From Equations Require Import Equations.
From S2P Require Import Prelude.

(** [Less] as a strict weak order: what a heap needs of its interface. *)
Class LessOrder {A} (less : A -> A -> bool) : Prop := {
  less_irrefl : forall x, less x x = false;
  less_asym : forall x y, less x y = true -> less y x = false;
  le_trans : forall x y z, less y x = false -> less z y = false -> less z x = false
}.

Definition parent (j : nat) : nat := (j - 1) / 2.

Section Ops.
Context {A : Type} (less : A -> A -> bool).
Implicit Types h : list A.

Definition Less h (i j : nat) : bool :=
  match h !! i, h !! j with Some x, Some y => less x y | _, _ => false end.
Definition Swap h (i j : nat) : list A :=
  match h !! i, h !! j with Some x, Some y => <[i := y]> (<[j := x]> h) | _, _ => h end.

(** Index 0 is its own parent: the loop's exit [i == j]. *)
Equations? up h (j : nat) : list A by wf j lt :=
  up h 0 := h;
  up h (S j') with Less h (S j') (parent (S j')) => {
    | true := up (Swap h (parent (S j')) (S j')) (parent (S j'));
    | false := h }.
Proof. unfold parent. pose proof (Nat.Div0.div_le_upper_bound (S j' - 1) 2 j'). lia. Qed.

(** The smaller child of [i] below [n], given that there is one. *)
Definition child h (i n : nat) : nat :=
  let j1 := (2 * i + 1)%nat in
  if (j1 + 1 <? n)%nat && Less h (j1 + 1) j1 then (j1 + 1)%nat else j1.

(** Returns the slice and the index the element ended at. *)
Equations? down h (i n : nat) : list A * nat by wf (n - i)%nat lt :=
  down h i n with lt_dec (2 * i + 1)%nat n => {
    | right _ := (h, i);
    | left _ with Less h (child h i n) i => {
      | true := down (Swap h i (child h i n)) (child h i n) n;
      | false := (h, i) } }.
Proof. unfold child. destruct (_ && _); lia. Qed.

Definition Push h (x : A) : list A := up (h ++ [x]) (length h).
(** [None] is the panic on an empty heap. *)
Definition Pop h : option (A * list A) :=
  let n := (length h - 1)%nat in
  let h' := (down (Swap h 0 n) 0 n).1 in
  match h' !! n with Some x => Some (x, take n h') | None => None end.
Definition Fix h (i : nat) : list A :=
  let '(h', i') := down h i (length h) in if (i <? i')%nat then h' else up h' i.
Definition Remove h (i : nat) : option (A * list A) :=
  let n := (length h - 1)%nat in
  let h' := if (n =? i)%nat then h
            else let '(h1, i') := down (Swap h i n) i n in if (i <? i')%nat then h1 else up h1 i in
  match h' !! n with Some x => Some (x, take n h') | None => None end.
(** [Init]: the loop from [n/2 - 1] down to 0. *)
Fixpoint initLoop h (k : nat) (n : nat) : list A :=
  match k with O => h | S i => initLoop (down h i n).1 i n end.
Definition Init h : list A := initLoop h (length h / 2) (length h).
End Ops.

(** ** The heap order *)
Definition le_at {A} (less : A -> A -> bool) (h : list A) (i j : nat) : Prop :=
  forall x y, h !! i = Some x -> h !! j = Some y -> less y x = false.
(** The first [n] elements are a heap. *)
Definition is_heap {A} (less : A -> A -> bool) (h : list A) (n : nat) : Prop :=
  forall j, (0 < j < n)%nat -> le_at less h (parent j) j.
(** A heap but for the edges at [i]: they may be broken, but the parent of [i] is not above
    the children of [i]. *)
Definition heap_but {A} (less : A -> A -> bool) (h : list A) (n i : nat) : Prop :=
  (forall j, (0 < j < n)%nat -> j <> i -> parent j <> i -> le_at less h (parent j) j)
  /\ (forall c, (0 < i)%nat -> (0 < c < n)%nat -> parent c = i -> le_at less h (parent i) c).

Lemma parent_lt j : (0 < j)%nat -> (parent j < j)%nat.
Proof. unfold parent. intros. apply Nat.Div0.div_lt_upper_bound. lia. Qed.
Lemma parent_child j i : (0 < j)%nat -> parent j = i <-> j = (2 * i + 1)%nat \/ j = (2 * i + 2)%nat.
Proof. unfold parent. intros. pose proof (Nat.div_mod_eq (j - 1) 2). pose proof (Nat.mod_upper_bound (j - 1) 2). lia. Qed.
Lemma parent_0 : parent 0 = 0%nat.
Proof. done. Qed.

(** Solves goals on indices, with the children of an index written out. *)
Ltac idx :=
  repeat match goal with
  | H : parent ?j = ?i |- _ => apply parent_child in H; [|lia]
  | H : ~ (parent ?j = ?i) |- _ => rewrite parent_child in H by lia
  | |- parent ?j = ?i => apply parent_child; [lia|]
  | |- ~ (parent ?j = ?i) => rewrite parent_child by lia
  end; try lia.

Section Swap.
Context {A : Type} (less : A -> A -> bool).
Implicit Types h : list A.

Lemma lookup_Swap h i j k :
  (i < length h)%nat -> (j < length h)%nat ->
  Swap h i j !! k = if decide (k = i) then h !! j else if decide (k = j) then h !! i else h !! k.
Proof.
  intros Hi Hj. unfold Swap.
  destruct (lookup_lt_is_Some_2 h i Hi) as [x Ex]. destruct (lookup_lt_is_Some_2 h j Hj) as [y Ey].
  rewrite Ex, Ey. destruct (decide (k = i)) as [->|Hki].
  { rewrite list_lookup_insert_eq; [done|]. by rewrite length_insert. }
  rewrite list_lookup_insert_ne by done. destruct (decide (k = j)) as [->|Hkj].
  - by rewrite list_lookup_insert_eq.
  - by rewrite list_lookup_insert_ne.
Qed.

Lemma length_Swap h i j : length (Swap h i j) = length h.
Proof. unfold Swap. destruct (h !! i), (h !! j); by rewrite ?length_insert. Qed.

Lemma Swap_perm h i j : Swap h i j ≡ₚ h.
Proof.
  unfold Swap. destruct (h !! i) as [x|] eqn:Ei; [|done]. destruct (h !! j) as [y|] eqn:Ej; [|done].
  destruct (decide (i = j)) as [->|Hij].
  { simplify_eq. by rewrite list_insert_insert_eq, list_insert_id. }
  apply (Permutation_inj _ _). split; [by rewrite !length_insert|].
  exists (fun k => if decide (k = i) then j else if decide (k = j) then i else k). split.
  - intros a b. repeat case_decide; congruence.
  - intros k. pose proof (lookup_lt_Some _ _ _ Ei). pose proof (lookup_lt_Some _ _ _ Ej).
    pose proof (lookup_Swap h i j k) as E. unfold Swap in E. rewrite Ei, Ej in E.
    rewrite E by done. repeat case_decide; congruence.
Qed.
End Swap.

Section HeapFacts.
Context {A : Type} (less : A -> A -> bool) `{!LessOrder less}.
Implicit Types h : list A.
Notation is_heap := (is_heap less).
Notation heap_but := (heap_but less).
Notation le_at := (le_at less).

Lemma less_le x y : less x y = true -> less y x = false.
Proof. apply less_asym. Qed.

Lemma Less_false h i j : (i < length h)%nat -> (j < length h)%nat -> Less less h j i = false <-> le_at h i j.
Proof.
  intros Hi Hj. unfold Less, le_at.
  destruct (lookup_lt_is_Some_2 h i Hi) as [x ->]. destruct (lookup_lt_is_Some_2 h j Hj) as [y ->].
  naive_solver.
Qed.

Lemma Less_true h i j : Less less h j i = true -> le_at h j i.
Proof.
  unfold Less, le_at. intros HL x y Ex Ey. rewrite Ex, Ey in HL. by apply less_asym.
Qed.

Lemma le_at_trans h i j k : (j < length h)%nat -> le_at h i j -> le_at h j k -> le_at h i k.
Proof.
  intros Hj H1 H2 x z Ex Ez. destruct (lookup_lt_is_Some_2 h j Hj) as [y Ey].
  eapply le_trans; [by apply H1|by apply H2].
Qed.

(** The order between two places of a swapped slice, read in the original one. *)
Definition swapped (i j k : nat) : nat := if decide (k = i) then j else if decide (k = j) then i else k.
Lemma le_at_Swap h i j a b :
  (i < length h)%nat -> (j < length h)%nat ->
  le_at (Swap h i j) a b <-> le_at h (swapped i j a) (swapped i j b).
Proof.
  intros Hi Hj. unfold le_at, swapped. rewrite !lookup_Swap by done.
  repeat case_decide; done.
Qed.
Lemma swapped_l i j : swapped i j i = j.
Proof. unfold swapped. by rewrite decide_True. Qed.
Lemma swapped_r i j : swapped i j j = i.
Proof. unfold swapped. case_decide; [done|]. by rewrite decide_True. Qed.
Lemma swapped_ne i j k : k <> i -> k <> j -> swapped i j k = k.
Proof. intros. unfold swapped. by rewrite !decide_False. Qed.

Lemma child_spec h i n :
  (2 * i + 1 < n)%nat -> (n <= length h)%nat ->
  let c := child less h i n in
  (c < n)%nat /\ (0 < c)%nat /\ parent c = i /\
  forall s, (0 < s < n)%nat -> parent s = i -> le_at h c s.
Proof.
  intros Hn Hlen. unfold child. cbv zeta.
  destruct ((2 * i + 1 + 1 <? n)%nat && _) eqn:E.
  - apply andb_true_iff in E as [E1 E2]. apply Nat.ltb_lt in E1.
    split; [lia|]. split; [lia|]. split; [idx|]. intros s Hs Hp. idx.
    destruct Hp as [->| ->]; [by apply Less_true|].
    intros x y. replace (2 * i + 1 + 1)%nat with (2 * i + 2)%nat by lia. intros -> [= ->]. apply less_irrefl.
  - split; [lia|]. split; [lia|]. split; [idx|]. intros s Hs Hp. idx.
    destruct Hp as [->| ->].
    { intros x y -> [= ->]. apply less_irrefl. }
    apply andb_false_iff in E as [E|E]; [apply Nat.ltb_ge in E; lia|].
    apply Less_false; [lia..|]. by replace (2 * i + 2)%nat with (2 * i + 1 + 1)%nat by lia.
Qed.

(** Moving the smaller child up and the element down keeps a heap but for the lower place,
    whose edge to its parent is then right. *)
Lemma heap_but_down h i n :
  (2 * i + 1 < n)%nat -> (n <= length h)%nat -> heap_but h n i ->
  let c := child less h i n in
  Less less h c i = true ->
  heap_but (Swap h i c) n c /\ le_at (Swap h i c) i c
  /\ ((0 < i)%nat -> le_at (Swap h i c) (parent i) i).
Proof.
  intros Hn Hlen [Hedge Hgrand]. cbv zeta. intros Hless.
  destruct (child_spec h i n Hn Hlen) as (Hc & Hc0 & Hpc & Hmin).
  set (c := child less h i n) in *.
  assert (i < c)%nat by (idx; lia).
  assert ((0 < i)%nat -> le_at (Swap h i c) (parent i) i) as Hup.
  { intros Hi0. pose proof (parent_lt i Hi0). rewrite le_at_Swap by lia.
    rewrite swapped_l, swapped_ne by lia. by apply Hgrand. }
  split_and!; [split| |done].
  - intros j Hj Hjc Hpj. destruct (decide (j = i)) as [->|Hji]; [apply Hup; lia|].
    pose proof (parent_lt j ltac:(lia)). rewrite le_at_Swap by lia.
    rewrite (swapped_ne i c j) by done. destruct (decide (parent j = i)) as [Hpi|Hpi].
    + rewrite Hpi, swapped_l. by apply Hmin.
    + rewrite swapped_ne by done. by apply Hedge.
  - intros d _ Hd Hpd. rewrite Hpc. assert (c < d)%nat by (idx; lia).
    rewrite le_at_Swap by lia. rewrite swapped_l, swapped_ne by lia.
    rewrite <- Hpd. apply Hedge; [done|lia|lia].
  - rewrite le_at_Swap by lia. rewrite swapped_l, swapped_r. by apply Less_true.
Qed.

Lemma heap_but_stop h i n :
  (n <= length h)%nat -> heap_but h n i ->
  (forall s, (0 < s < n)%nat -> parent s = i -> le_at h i s) ->
  ((0 < i)%nat -> le_at h (parent i) i) -> is_heap h n.
Proof.
  intros Hlen [Hedge _] Hdown Hup j Hj. destruct (decide (j = i)) as [->|Hji]; [apply Hup; lia|].
  destruct (decide (parent j = i)) as [Hp|Hp]; [rewrite Hp; by apply Hdown|by apply Hedge].
Qed.

(** What a stopping test of [down] says. *)
Lemma children_le h i n :
  (2 * i + 1 < n)%nat -> (n <= length h)%nat -> Less less h (child less h i n) i = false ->
  forall s, (0 < s < n)%nat -> parent s = i -> le_at h i s.
Proof.
  intros Hn Hlen Hless s Hs Hp. destruct (child_spec h i n Hn Hlen) as (Hc & _ & _ & Hmin).
  apply le_at_trans with (j := child less h i n); [lia| |by apply Hmin].
  apply Less_false in Hless; [done|lia|lia].
Qed.

(** [down] permutes the first [n] places only. *)
Lemma down_frame h i n :
  (n <= length h)%nat ->
  let r := down less h i n in
  r.1 ≡ₚ h /\ length r.1 = length h /\ (i <= r.2)%nat /\ (r.2 = i -> r.1 = h)
  /\ forall k, (n <= k)%nat -> r.1 !! k = h !! k.
Proof.
  funelim (down less h i n); intros Hlen; [done| |done].
  destruct (child_spec h i n) as (Hc & _ & Hp & _); [done..|].
  assert (i < child less h i n)%nat by (unfold child; destruct (_ && _); lia).
  destruct H as (H1 & H2 & H3 & _ & H5); [by rewrite length_Swap|].
  split_and!; [by rewrite H1, Swap_perm|by rewrite H2, length_Swap|lia|lia|].
  intros k Hk. rewrite H5 by done. by rewrite lookup_Swap, !decide_False by lia.
Qed.

Lemma down_heap h i n :
  (n <= length h)%nat -> heap_but h n i -> ((0 < i)%nat -> le_at h (parent i) i) ->
  is_heap (down less h i n).1 n.
Proof.
  funelim (down less h i n); intros Hlen Hbut Hup.
  - apply heap_but_stop with i; [done|done| |done]. intros s Hs Hp. idx.
  - destruct (heap_but_down h i n) as (Hbut' & Hedge & _); [done..|].
    destruct (child_spec h i n) as (_ & _ & Hp & _); [done..|].
    apply H; [by rewrite length_Swap|done|]. intros _. by rewrite Hp.
  - apply heap_but_stop with i; [done|done| |done]. by apply children_le.
Qed.

(** [down] from a place whose edge to the parent may be broken too: it stays with the place, or
    the element moved and all is well. *)
Lemma down_moved h i n :
  (n <= length h)%nat -> heap_but h n i ->
  let r := down less h i n in
  r = (h, i) /\ (forall s, (0 < s < n)%nat -> parent s = i -> le_at h i s)
  \/ (i < r.2)%nat /\ is_heap r.1 n.
Proof.
  intros Hlen Hbut. cbv zeta. simp down.
  destruct (lt_dec (2 * i + 1)%nat n) as [l|l]; simpl; [|left; split; [done|]; intros s Hs Hp; idx].
  destruct (Less less h (child less h i n) i) eqn:E; simpl; [|left; split; [done|by apply children_le]].
  right. destruct (heap_but_down h i n) as (Hbut' & Hedge & _); [done..|].
  destruct (child_spec h i n) as (_ & _ & Hp & _); [done..|].
  assert (i < child less h i n)%nat by (unfold child; destruct (_ && _); lia).
  pose proof (down_frame (Swap h i (child less h i n)) (child less h i n) n) as (_ & _ & Hle & _);
    [by rewrite length_Swap|].
  split; [lia|]. apply down_heap; [by rewrite length_Swap|done|]. intros _. by rewrite Hp.
Qed.

Lemma up_frame h j : (j < length h)%nat -> up less h j ≡ₚ h /\ length (up less h j) = length h.
Proof.
  funelim (up less h j); intros Hj; [done| |done].
  pose proof (parent_lt (S j') ltac:(lia)).
  destruct H as [H1 H2]; [rewrite length_Swap; lia|].
  split; [by rewrite H1, Swap_perm|by rewrite H2, length_Swap].
Qed.

(** Moving an element up keeps a heap but for the upper place, which is below its children. *)
Lemma heap_but_up h j n :
  (0 < j < n)%nat -> (n <= length h)%nat -> heap_but h n j ->
  let i := parent j in
  Less less h j i = true ->
  heap_but (Swap h i j) n i /\ (forall s, (0 < s < n)%nat -> parent s = i -> le_at (Swap h i j) i s).
Proof.
  intros Hj Hlen [Hedge Hgrand]. cbv zeta. intros Hless%Less_true.
  set (i := parent j) in *. assert (i < j)%nat as Hij by (apply parent_lt; lia).
  split; [split|].
  - intros k Hk Hki Hpk. assert (k <> j) by (by intros ->).
    pose proof (parent_lt k ltac:(lia)). rewrite le_at_Swap by lia. rewrite (swapped_ne i j k) by done.
    destruct (decide (parent k = j)) as [E|E].
    + rewrite E, swapped_r. apply Hgrand; [lia|done|done].
    + rewrite swapped_ne by done. by apply Hedge.
  - intros c Hi Hc Hpc. pose proof (parent_lt i Hi). pose proof (parent_lt c ltac:(lia)).
    assert (le_at h (parent i) i) as Hpi by (apply Hedge; lia).
    rewrite le_at_Swap by lia. rewrite (swapped_ne i j (parent i)) by lia.
    destruct (decide (c = j)) as [->|Hcj]; [by rewrite swapped_r|].
    rewrite swapped_ne by lia. apply le_at_trans with i; [lia|done|]. rewrite <- Hpc. apply Hedge; lia.
  - intros s Hs Hps. pose proof (parent_lt s ltac:(lia)). rewrite le_at_Swap by lia. rewrite swapped_l.
    destruct (decide (s = j)) as [->|Hsj]; [by rewrite swapped_r|].
    rewrite swapped_ne by lia. apply le_at_trans with i; [lia|done|]. rewrite <- Hps. apply Hedge; lia.
Qed.

Lemma up_heap h j n :
  (j < n <= length h)%nat -> heap_but h n j ->
  (forall s, (0 < s < n)%nat -> parent s = j -> le_at h j s) -> is_heap (up less h j) n.
Proof.
  intros Hj. revert n Hj. funelim (up less h j); intros n Hj Hbut Hch.
  - apply heap_but_stop with 0%nat; [lia|done|done|lia].
  - pose proof (parent_lt (S j') ltac:(lia)).
    destruct (heap_but_up h (S j') n) as [Hbut' Hch']; [lia|lia|done|done|].
    apply H; [rewrite length_Swap; lia|done|done].
  - apply heap_but_stop with (S j'); [lia|done|done|]. intros _.
    pose proof (parent_lt (S j') ltac:(lia)). apply Less_false; [lia..|done].
Qed.

(** ** The operations of the heap *)
Lemma is_heap_but h n i : (n <= length h)%nat -> (i < n)%nat -> is_heap h n -> heap_but h n i.
Proof.
  intros Hlen Hi Hh. split; [intros j Hj _ _; by apply Hh|].
  intros c Hi0 Hc Hp. apply le_at_trans with i; [lia|apply Hh; lia|]. rewrite <- Hp. by apply Hh.
Qed.

(** Changing an element of a heap leaves a heap but for its place. *)
Lemma insert_heap_but h i x :
  (i < length h)%nat -> is_heap h (length h) -> heap_but (<[i := x]> h) (length h) i.
Proof.
  intros Hi Hh. destruct (is_heap_but h (length h) i) as [Hedge Hgrand]; [done..|].
  assert (forall a b, a <> i -> b <> i -> le_at h a b -> le_at (<[i := x]> h) a b) as Hne.
  { intros a b Ha Hb Hab u v. rewrite !list_lookup_insert_ne by done. apply Hab. }
  split.
  - intros j Hj Hji Hp. apply Hne; [done|done|]. by apply Hedge.
  - intros c Hi0 Hc Hp. pose proof (parent_lt i Hi0). pose proof (parent_lt c ltac:(lia)).
    apply Hne; [lia|lia|]. by apply Hgrand.
Qed.

Lemma Fix_spec h i x :
  (i < length h)%nat -> is_heap h (length h) ->
  let h' := Fix less (<[i := x]> h) i in
  h' ≡ₚ <[i := x]> h /\ is_heap h' (length h').
Proof.
  intros Hi Hh. cbv zeta. unfold Fix. set (g := <[i := x]> h).
  assert (length g = length h) as Hg by apply length_insert.
  pose proof (insert_heap_but h i x Hi Hh) as Hbut. fold g in Hbut. rewrite <- Hg in Hbut.
  pose proof (down_frame g i (length g) ltac:(lia)) as (Hp & Hl & _ & _).
  destruct (down_moved g i (length g)) as [[E Hch]|[Hlt Hheap]]; [lia|done| |].
  - rewrite E, Nat.ltb_irrefl. pose proof (up_frame g i ltac:(lia)) as [Hup Hul].
    split; [done|]. rewrite Hul. apply up_heap; [lia|done|done].
  - destruct (down less g i (length g)) as [h' i']. simpl in *.
    rewrite (proj2 (Nat.ltb_lt _ _) Hlt). split; [done|]. by rewrite Hl.
Qed.

Lemma Push_spec h x :
  is_heap h (length h) -> Push less h x ≡ₚ x :: h /\ is_heap (Push less h x) (length (Push less h x)).
Proof.
  intros Hh. unfold Push. assert (length (h ++ [x]) = S (length h)) as El by (rewrite length_app; simpl; lia).
  pose proof (up_frame (h ++ [x]) (length h) ltac:(lia)) as [Hp Hl].
  split; [rewrite Hp; symmetry; apply Permutation_cons_append|].
  rewrite Hl, El. apply up_heap; [lia| |].
  - split; [|intros c _ Hc Hpc; pose proof (parent_lt c ltac:(lia)); lia].
    intros j Hj Hji Hpj u v. pose proof (parent_lt j ltac:(lia)).
    rewrite !lookup_app_l by lia. apply Hh. lia.
  - intros s Hs Hps. pose proof (parent_lt s ltac:(lia)). lia.
Qed.

(** The root is a minimum. *)
Lemma heap_root h n j x y :
  is_heap h n -> (j < n <= length h)%nat -> h !! 0%nat = Some x -> h !! j = Some y -> less y x = false.
Proof.
  intros Hh. revert y. induction j as [j IH] using lt_wf_ind. intros y Hj Hx Hy.
  destruct j as [|j]; [simplify_eq; apply less_irrefl|].
  pose proof (parent_lt (S j) ltac:(lia)) as Hlt.
  destruct (lookup_lt_is_Some_2 h (parent (S j))) as [z Hz]; [lia|].
  apply le_trans with z; [by apply (IH (parent (S j))); [|lia|..]|].
  eapply Hh; [|done|done]. lia.
Qed.

Lemma Pop_spec h :
  h <> [] -> is_heap h (length h) ->
  exists x h', Pop less h = Some (x, h') /\ h ≡ₚ x :: h' /\ is_heap h' (length h')
    /\ Forall (fun y => less y x = false) h.
Proof.
  intros Hne Hh. assert (0 < length h)%nat by (destruct h; simpl; [done|lia]).
  destruct (lookup_lt_is_Some_2 h 0) as [x Hx]; [done|].
  unfold Pop. set (n := (length h - 1)%nat). set (g := Swap h 0 n).
  assert (length g = length h) as Hg by apply length_Swap.
  pose proof (down_frame g 0 n ltac:(lia)) as (Hp & Hl & _ & _ & Hk).
  assert (heap_but g n 0) as Hbut.
  { split; [|lia]. intros j Hj Hj0 Hp0. pose proof (parent_lt j ltac:(lia)).
    unfold g. rewrite le_at_Swap, !swapped_ne by lia. apply Hh. lia. }
  pose proof (down_heap g 0 n ltac:(lia) Hbut ltac:(lia)) as Hheap.
  destruct (down less g 0 n) as [h' i']. simpl in *.
  assert (h' !! n = Some x) as E.
  { rewrite Hk by done. unfold g. rewrite lookup_Swap by lia. case_decide as E0; [by rewrite E0|].
    by rewrite decide_True. }
  rewrite E. exists x, (take n h'). split; [done|].
  assert (h' = take n h' ++ [x]) as Eh.
  { rewrite <- (take_drop n h') at 1. f_equal. rewrite (drop_S _ x) by done.
    rewrite drop_ge by lia. done. }
  split; [|split].
  - rewrite <- (Swap_perm h 0 n). fold g. rewrite <- Hp, Eh at 1.
    rewrite <- Permutation_cons_append. done.
  - rewrite length_take_le by lia. intros j Hj u v. pose proof (parent_lt j ltac:(lia)).
    rewrite !lookup_take_lt by lia. by apply Hheap.
  - apply Forall_lookup. intros j y Hy. apply lookup_lt_Some in Hy as Hlt.
    by eapply heap_root; [exact Hh|split; [exact Hlt|done]|..].
Qed.
End HeapFacts.
