(* ===== verification/EndpointTracker.v ===== *)
(** * The cache of advertised endpoints (endpoint_tracker.go)

    [endpointTracker] keeps, per IP address, a heap of the endpoints advertised lately, ordered
    by expiry. The [index] field of an entry mirrors its place in the slice and is never read,
    so it has no counterpart here; instants are nanoseconds. *)
From S2P Require Import Prelude Netip Heap.

(** [tailcfg.Endpoint] *)
Record Endpoint := MkTEndpoint { te_Addr : AddrPort; te_Type : Z }.
#[export] Instance Endpoint_eq_dec : EqDecision Endpoint.
Proof. solve_decision. Defined.

Definition endpointTrackerLifetime : Z := 5 * Minute + 10 * Second.
Definition endpointTrackerMaxPerAddr : Z := 6.

Record endpointTrackerEntry := MkTrackerEntry { t_endpoint : Endpoint; t_until : Z }.
#[export] Instance endpointTrackerEntry_eq_dec : EqDecision endpointTrackerEntry.
Proof. solve_decision. Defined.

Notation endpointHeap := (list endpointTrackerEntry).
Definition entryLess (a b : endpointTrackerEntry) : bool := t_until a <? t_until b.
Notation endpointTracker := (gmap Addr endpointHeap).

Definition set_until (u : Z) (e : endpointTrackerEntry) : endpointTrackerEntry :=
  MkTrackerEntry (t_endpoint e) u.

(** The first entry of the exact endpoint is extended and its place restored. *)
Definition extendHeap (ep : Endpoint) (until_ : Z) (h : endpointHeap) : endpointHeap :=
  match list_find (fun e => t_endpoint e = ep) h with
  | Some (i, e) => Fix entryLess (<[i := set_until until_ e]> h) i
  | None => h
  end.
Definition extendLocked (ep : Endpoint) (until_ : Z) (et : endpointTracker) : endpointTracker :=
  alter (extendHeap ep until_) (ip (te_Addr ep)) et.

(** The loop of [removeExpiredLocked] on one heap; one unit of fuel per entry. *)
Fixpoint popExpired (fuel : nat) (now : Z) (h : endpointHeap) : endpointHeap :=
  match fuel, h with
  | S fuel, minElem :: _ =>
      if t_until minElem <? now then
        match Pop entryLess h with Some (_, h') => popExpired fuel now h' | None => h end
      else h
  | _, _ => h
  end.
Definition removeExpiredLocked (now : Z) (et : endpointTracker) : endpointTracker :=
  omap (fun h => match popExpired (length h) now h with [] => None | h' => Some h' end) et.

(** The loop of [addLocked] that pops down to the limit; one unit of fuel per entry. *)
Fixpoint popOver (fuel : nat) (h : endpointHeap) : endpointHeap :=
  match fuel with
  | S fuel =>
      if endpointTrackerMaxPerAddr <? Z.of_nat (length h) then
        match Pop entryLess h with Some (_, h') => popOver fuel h' | None => h end
      else h
  | O => h
  end.
Definition addHeap (ep : Endpoint) (until_ : Z) (h : endpointHeap) : endpointHeap :=
  let h := if existsb (fun v => bool_decide (t_endpoint v = ep)) h then h
           else Push entryLess h (MkTrackerEntry ep until_) in
  popOver (length h) h.
Definition addLocked (ep : Endpoint) (until_ : Z) (et : endpointTracker) : endpointTracker :=
  <[ip (te_Addr ep) := addHeap ep until_ (default [] (et !! ip (te_Addr ep)))]> et.

Section Update.
Context `{MapRange}.
Definition update (now : Z) (eps : list Endpoint) (et : endpointTracker) : endpointTracker * list Endpoint :=
  let until_ := now + endpointTrackerLifetime in
  let et := foldl (fun et ep => extendLocked ep until_ et) et eps in
  let et := removeExpiredLocked now et in
  let et := foldl (fun et ep => addLocked ep until_ et) et eps in
  (et, eps ++
     (t_endpoint <$> filter (fun e => te_Addr (t_endpoint e) ∉ te_Addr <$> eps /\ ~ t_until e < now)
        (concat ((map_range et).*2)))).
End Update.

(** ** The invariant *)

(** What is cached: an endpoint with its expiry. *)
Definition cached (et : endpointTracker) (e : endpointTrackerEntry) : Prop :=
  exists h, et !! ip (te_Addr (t_endpoint e)) = Some h /\ e ∈ h.
(** The cache of an address is full of entries that expire no earlier than [u]. *)
Definition full_of_newer (et : endpointTracker) (a : Addr) (u : Z) : Prop :=
  exists h, et !! a = Some h /\ Z.of_nat (length h) = endpointTrackerMaxPerAddr
            /\ Forall (fun e => u <= t_until e) h.

Record heap_wf (top : Z) (a : Addr) (h : endpointHeap) : Prop := {
  hw_heap : is_heap entryLess h (length h);
  hw_nodup : NoDup (t_endpoint <$> h);
  hw_size : Z.of_nat (length h) <= endpointTrackerMaxPerAddr;
  hw_key : Forall (fun e => ip (te_Addr (t_endpoint e)) = a) h;
  hw_top : Forall (fun e => t_until e <= top) h
}.
(** [top] bounds every expiry. *)
Definition tracker_wf (top : Z) (et : endpointTracker) : Prop :=
  forall a h, et !! a = Some h -> heap_wf top a h.

#[export] Instance entryLess_order : LessOrder entryLess.
Proof. unfold entryLess. split; intros; rewrite ?Z.ltb_lt, ?Z.ltb_ge in *; lia. Qed.

(** ** Lemmas on one heap *)
Lemma popExpired_spec fuel now h :
  (length h <= fuel)%nat -> is_heap entryLess h (length h) ->
  popExpired fuel now h ≡ₚ filter (fun e => ~ t_until e < now) h
  /\ is_heap entryLess (popExpired fuel now h) (length (popExpired fuel now h)).
Proof.
  revert h. induction fuel as [|fuel IH]; intros h Hf Hh.
  { destruct h; [done|simpl in Hf; lia]. }
  destruct h as [|m h]; [done|]. cbn [popExpired]. destruct (t_until m <? now) eqn:E; bool_props.
  - destruct (Pop_spec entryLess (m :: h)) as (x & h' & -> & Hp & Hh' & Hmin); [done..|].
    apply Permutation_length in Hp as Hl. simpl in Hl, Hf.
    destruct (IH h') as [IH1 IH2]; [lia|done|]. split; [|done].
    rewrite Hp, filter_cons_False, IH1; [done|].
    apply Forall_cons in Hmin as [Hm _]. unfold entryLess in Hm. bool_props. lia.
  - split; [|done]. rewrite Forall_filter_id; [done|]. apply Forall_lookup. intros i e He.
    pose proof (heap_root entryLess _ _ i m e Hh) as Hroot.
    unfold entryLess in Hroot. rewrite Z.ltb_ge in Hroot. apply lookup_lt_Some in He as Hi.
    specialize (Hroot (conj Hi (le_n _)) eq_refl He). lia.
Qed.

Lemma extendHeap_spec ep u h :
  is_heap entryLess h (length h) -> NoDup (t_endpoint <$> h) ->
  extendHeap ep u h ≡ₚ (fun e => if decide (t_endpoint e = ep) then set_until u e else e) <$> h
  /\ is_heap entryLess (extendHeap ep u h) (length (extendHeap ep u h)).
Proof.
  intros Hh Hnd. unfold extendHeap. destruct (list_find _ h) as [[i e]|] eqn:E.
  - apply list_find_Some in E as (Hi & Hep & _).
    pose proof (lookup_lt_Some _ _ _ Hi) as Hlt.
    destruct (Fix_spec entryLess h i (set_until u e) Hlt Hh) as [Hp Hheap].
    split; [|done]. rewrite Hp. apply reflexive_eq, list_eq. intros j.
    rewrite list_lookup_fmap. destruct (decide (j = i)) as [->|Hji].
    + rewrite list_lookup_insert_eq, Hi by done. simpl. by rewrite decide_True.
    + rewrite list_lookup_insert_ne by done. destruct (h !! j) as [e'|] eqn:Ej; [|done]. simpl.
      rewrite decide_False; [done|]. intros Hep'. apply Hji.
      apply (NoDup_lookup _ _ _ (t_endpoint e) Hnd); rewrite list_lookup_fmap; [by rewrite Ej, Hep, <- Hep'|by rewrite Hi].
  - apply list_find_None in E. split; [|done]. rewrite Forall_fmap_id; [done|].
    eapply Forall_impl; [exact E|]. intros e He. simpl. by rewrite decide_False.
Qed.

Lemma popOver_spec h :
  is_heap entryLess h (length h) ->
  Z.of_nat (length h) <= endpointTrackerMaxPerAddr + 1 ->
  let h' := popOver (length h) h in
  is_heap entryLess h' (length h')
  /\ (h' = h /\ Z.of_nat (length h) <= endpointTrackerMaxPerAddr
      \/ exists x, h ≡ₚ x :: h' /\ Z.of_nat (length h') = endpointTrackerMaxPerAddr
                   /\ Forall (fun e => t_until x <= t_until e) h').
Proof.
  intros Hh Hsz. cbv zeta. destruct (length h) as [|n] eqn:El; [simpl; rewrite El; auto with lia|].
  cbn [popOver]. rewrite El. destruct (endpointTrackerMaxPerAddr <? Z.of_nat (S n)) eqn:E; bool_props.
  2: { rewrite El. split; [done|]. left. split; [done|lia]. }
  assert (h <> []) as Hne by (by intros ->). rewrite <- El in Hh.
  destruct (Pop_spec entryLess h Hne Hh) as (x & h' & -> & Hp & Hh' & Hmin).
  apply Permutation_length in Hp as Hl. simpl in Hl.
  assert (popOver n h' = h') as ->.
  { destruct n; [done|]. cbn [popOver]. by rewrite (proj2 (Z.ltb_ge _ _)) by lia. }
  split; [done|]. right. exists x. split; [done|]. split; [lia|].
  rewrite Hp in Hmin. apply Forall_cons in Hmin as [_ Hmin].
  eapply Forall_impl; [exact Hmin|]. intros e He. unfold entryLess in He. by apply Z.ltb_ge.
Qed.

Lemma existsb_endpoint ep h :
  existsb (fun v => bool_decide (t_endpoint v = ep)) h = bool_decide (ep ∈ t_endpoint <$> h).
Proof.
  apply eq_true_iff_eq. rewrite existsb_exists, bool_decide_eq_true, list_elem_of_fmap.
  split.
  - intros (v & Hv & Hb). apply bool_decide_eq_true in Hb. exists v. split; [done|]. by apply list_elem_of_In.
  - intros (v & -> & Hv). exists v. rewrite <- list_elem_of_In. split; [done|]. by apply bool_decide_eq_true.
Qed.

(** Adding an endpoint: nothing if it is there; otherwise it goes in, and beyond the limit an
    entry that expires first goes out. *)
Lemma addHeap_spec top a ep u h :
  heap_wf top a h -> ip (te_Addr ep) = a -> u <= top ->
  let h' := addHeap ep u h in
  heap_wf top a h'
  /\ (ep ∈ t_endpoint <$> h /\ h' = h
      \/ ep ∉ t_endpoint <$> h /\ h' ≡ₚ MkTrackerEntry ep u :: h
      \/ ep ∉ t_endpoint <$> h
         /\ exists x, MkTrackerEntry ep u :: h ≡ₚ x :: h'
                      /\ Z.of_nat (length h') = endpointTrackerMaxPerAddr
                      /\ Forall (fun e => t_until x <= t_until e) h').
Proof.
  intros [Hh Hnd Hsz Hk Ht] Ha Hu. cbv zeta. unfold addHeap. rewrite existsb_endpoint.
  case_bool_decide as Hin.
  - destruct (popOver_spec h) as [_ [[-> _]|(x & Hp & Hl & _)]]; [done|lia|by split; [|left]|].
    apply Permutation_length in Hp. simpl in Hp. lia.
  - destruct (Push_spec entryLess h (MkTrackerEntry ep u) Hh) as [Hp Hph].
    set (g := Push entryLess h (MkTrackerEntry ep u)) in *.
    apply Permutation_length in Hp as Hl. simpl in Hl.
    assert (NoDup (t_endpoint <$> g)) as Hndg by (rewrite Hp; by constructor).
    assert (Forall (fun e => ip (te_Addr (t_endpoint e)) = a) g) as Hkg by (rewrite Hp; by constructor).
    assert (Forall (fun e => t_until e <= top) g) as Htg by (rewrite Hp; by constructor).
    destruct (popOver_spec g) as [Hheap [[E Hle]|(x & Hx & Hlx & Hmin)]]; [done|lia| |].
    + rewrite E in Hheap |- *. split; [by constructor|]. right; left. by rewrite Hp.
    + rewrite Hx in Hndg, Hkg, Htg. apply NoDup_cons in Hndg as [_ ?].
      apply Forall_cons in Hkg as [_ ?]. apply Forall_cons in Htg as [_ ?].
      split; [constructor; [done..|lia|done|done]|]. right; right. split; [done|].
      exists x. rewrite <- Hp. done.
Qed.

(** ** The steps of an update *)
Section Steps.
Context (now top until_ : Z).
Hypothesis Huntil : until_ <= top.

(** Extending changes expiries of the named endpoint only. *)
Lemma extendLocked_spec ep et :
  tracker_wf top et ->
  tracker_wf top (extendLocked ep until_ et)
  /\ forall e, cached (extendLocked ep until_ et) e <->
       if decide (t_endpoint e = ep) then t_until e = until_ /\ exists u, cached et (set_until u e)
       else cached et e.
Proof.
  intros Hwf. unfold extendLocked. split.
  - intros a h Hl. apply lookup_alter_Some in Hl as [(<- & h0 & Hl & ->)|[_ Hl]]; [|by apply Hwf].
    destruct (Hwf _ _ Hl) as [Hh Hnd Hsz Hk Ht].
    destruct (extendHeap_spec ep until_ h0 Hh Hnd) as [Hp Hheap].
    constructor; [done|..].
    + rewrite Hp, <- list_fmap_compose.
      rewrite (list_fmap_ext _ t_endpoint); [done|]. intros i e _. simpl. by case_decide.
    + by rewrite Hp, length_fmap.
    + rewrite Hp, Forall_fmap. eapply Forall_impl; [exact Hk|]. intros e He. simpl. by case_decide.
    + rewrite Hp, Forall_fmap. eapply Forall_impl; [exact Ht|]. intros e He. simpl. case_decide; [done|done].
  - intros e. unfold cached. destruct (decide (ip (te_Addr ep) = ip (te_Addr (t_endpoint e)))) as [E|E].
    + rewrite <- E, lookup_alter_eq. destruct (et !! ip (te_Addr ep)) as [h0|] eqn:Hl; simpl.
      2: { split; [by intros (? & ? & _)|]. case_decide as Ee; [|by intros (? & ? & _)].
           intros (_ & u & h & Hh & _). simpl in Hh. congruence. }
      destruct (Hwf _ _ Hl) as [Hh Hnd Hsz Hk Ht].
      destruct (extendHeap_spec ep until_ h0 Hh Hnd) as [Hp _].
      transitivity (e ∈ (fun e => if decide (t_endpoint e = ep) then set_until until_ e else e) <$> h0).
      { split; [intros (h & [= <-] & ?); by rewrite <- Hp|]. intros ?. eexists. split; [done|]. by rewrite Hp. }
      rewrite list_elem_of_fmap. case_decide as Ee.
      * split.
        -- intros (e' & He & He'). destruct (decide (t_endpoint e' = ep)); [|congruence]. subst e.
           split; [done|]. exists (t_until e'), h0. split; [simpl in *; congruence|]. by destruct e'.
        -- intros (Hu & u & h & Hh' & Hin). simpl in Hh'. rewrite <- E, Hl in Hh'. injection Hh' as <-.
           exists (set_until u e). split; [|done]. rewrite decide_True by done. destruct e. simpl in *. by subst.
      * split.
        -- intros (e' & He & He'). exists h0. split; [done|]. case_decide; [by subst|by subst].
        -- intros (h & [= <-] & Hin). exists e. by rewrite decide_False.
    + rewrite lookup_alter_ne by done. case_decide as Ee; [by subst|done].
Qed.

Lemma removeExpiredLocked_spec et :
  tracker_wf top et ->
  tracker_wf top (removeExpiredLocked now et)
  /\ forall e, cached (removeExpiredLocked now et) e <-> cached et e /\ now <= t_until e.
Proof.
  intros Hwf. unfold removeExpiredLocked.
  assert (forall a h, et !! a = Some h ->
    popExpired (length h) now h ≡ₚ filter (fun e => ~ t_until e < now) h
    /\ is_heap entryLess (popExpired (length h) now h) (length (popExpired (length h) now h))) as Hpop.
  { intros a h Hl. apply popExpired_spec; [done|]. by eapply hw_heap, Hwf. }
  split.
  - intros a h' Hl. rewrite lookup_omap_Some in Hl. destruct Hl as (h & Hpo & Hl).
    destruct (Hpop _ _ Hl) as [Hp Hheap]. destruct (Hwf _ _ Hl) as [Hh Hnd Hsz Hk Ht].
    assert (h' = popExpired (length h) now h) as ->.
    { destruct (popExpired (length h) now h); [done|]. by injection Hpo. }
    pose proof (sublist_filter (fun e => ~ t_until e < now) h) as Hsub.
    constructor; [done|rewrite Hp..].
    + eapply sublist_NoDup; [exact Hnd|by apply fmap_sublist].
    + apply sublist_length in Hsub. lia.
    + by apply Forall_filter.
    + by apply Forall_filter.
  - intros e. unfold cached. setoid_rewrite lookup_omap_Some. split.
    + intros (h' & (h & Hpo & Hl) & He). destruct (Hpop _ _ Hl) as [Hp _].
      assert (h' = popExpired (length h) now h) as ->.
      { destruct (popExpired (length h) now h); [done|]. by injection Hpo. }
      rewrite Hp, list_elem_of_filter in He. destruct He as [? ?]. split; [by exists h|lia].
    + intros [(h & Hl & He) Hn]. destruct (Hpop _ _ Hl) as [Hp _].
      assert (e ∈ popExpired (length h) now h) as He'.
      { rewrite Hp, list_elem_of_filter. split; [lia|done]. }
      exists (popExpired (length h) now h). split; [|done]. exists h. split; [|done].
      destruct (popExpired _ _ _); [by apply elem_of_nil in He'|done].
Qed.

(** Nothing is lost but to entries that expire no earlier. *)
Definition kept_or_full (et et' : endpointTracker) : Prop :=
  (forall e, cached et e -> cached et' e \/ full_of_newer et' (ip (te_Addr (t_endpoint e))) (t_until e))
  /\ (forall a w, w <= until_ -> full_of_newer et a w -> full_of_newer et' a w).

Lemma addLocked_spec ep et :
  tracker_wf top et ->
  let et' := addLocked ep until_ et in
  let new := MkTrackerEntry ep until_ in
  tracker_wf top et' /\ kept_or_full et et'
  /\ (forall e, cached et' e -> cached et e \/ e = new)
  /\ ((exists u, cached et (MkTrackerEntry ep u)) \/ cached et' new \/ full_of_newer et' (ip (te_Addr ep)) until_).
Proof.
  intros Hwf. cbv zeta. set (a := ip (te_Addr ep)). set (new := MkTrackerEntry ep until_).
  set (h := default [] (et !! a)).
  assert (heap_wf top a h) as Hh.
  { unfold h. destruct (et !! a) eqn:E; [by apply Hwf|]. constructor; [intros j ?; simpl in *; lia|constructor|done|constructor..]. }
  destruct (addHeap_spec top a ep until_ h Hh eq_refl Huntil) as [Hh' Hcase].
  assert (forall e, ip (te_Addr (t_endpoint e)) = a -> cached et e <-> e ∈ h) as Hin.
  { intros e Ea. unfold cached, h. rewrite Ea. destruct (et !! a); simpl; [naive_solver|].
    split; [naive_solver|by intros ?%elem_of_nil]. }
  set (h' := addHeap ep until_ h) in *. set (et' := addLocked ep until_ et).
  assert (et' !! a = Some h') as Ea' by (by apply lookup_insert_eq).
  assert (forall b, b <> a -> et' !! b = et !! b) as Eb' by (intros; by apply lookup_insert_ne).
  assert (forall e, ip (te_Addr (t_endpoint e)) = a -> cached et' e <-> e ∈ h') as Hin'.
  { intros e Ee. unfold cached. rewrite Ee, Ea'. naive_solver. }
  assert (forall e, ip (te_Addr (t_endpoint e)) <> a -> cached et' e <-> cached et e) as Hout.
  { intros e Ee. unfold cached. by rewrite Eb'. }
  split_and!; [| split | |].
  - intros b g Hg. destruct (decide (b = a)) as [->|Hb]; [by rewrite Ea' in Hg; injection Hg as <-|].
    apply Hwf. by rewrite <- Eb'.
  - intros e He. destruct (decide (ip (te_Addr (t_endpoint e)) = a)) as [Ee|Ee]; [|left; by apply Hout].
    rewrite Hin in He by done. rewrite Hin', Ee by done.
    destruct Hcase as [(_ & ->)|[(_ & ->)|(_ & x & Hp & Hl & Hx)]]; [by left|left; by right|].
    assert (e ∈ x :: h') as [->|?]%elem_of_cons by (rewrite <- Hp; by right); [|by left].
    right. by exists h'.
  - intros b w Hw (g & Hg & Hl & Hall). destruct (decide (b = a)) as [->|Hb].
    2: { exists g. by rewrite Eb'. }
    assert (h = g) as Ehg by (unfold h; by rewrite Hg). exists h'. split; [done|].
    destruct Hcase as [(_ & ->)|[(_ & Hp)|(_ & x & Hp & Hl' & Hx)]]; [by subst| |].
    + apply Permutation_length in Hp. pose proof (hw_size _ _ _ Hh'). simpl in Hp. subst h. rewrite Ehg in Hp. lia.
    + split; [done|]. assert (Forall (fun e => w <= t_until e) (x :: h')) as [_ ?]%Forall_cons; [|done].
      rewrite <- Hp. constructor; [done|]. by rewrite Ehg.
  - intros e He. destruct (decide (ip (te_Addr (t_endpoint e)) = a)) as [Ee|Ee]; [|left; by apply Hout].
    rewrite Hin' in He by done. rewrite Hin by done.
    destruct Hcase as [(_ & E)|[(_ & Hp)|(_ & x & Hp & _)]]; [left; by rewrite <- E|..].
    + rewrite Hp in He. apply elem_of_cons in He as [?|?]; auto.
    + assert (e ∈ new :: h) as [?|?]%elem_of_cons by (unfold new; rewrite Hp; by right); auto.
  - destruct Hcase as [(Hi & _)|[(_ & Hp)|(_ & x & Hp & Hl & Hx)]].
    + left. apply list_elem_of_fmap in Hi as ([ep' u] & -> & Hi). exists u. by apply Hin.
    + right; left. apply Hin'; [done|]. rewrite Hp. by left.
    + assert (new ∈ x :: h') as [<-|?]%elem_of_cons by (rewrite <- Hp; by left).
      * right; right. by exists h'.
      * right; left. by apply Hin'.
Qed.

(** All the input endpoints are extended at once. *)
Lemma extendAll_spec eps et :
  tracker_wf top et ->
  let et' := foldl (fun et ep => extendLocked ep until_ et) et eps in
  tracker_wf top et'
  /\ forall e, cached et' e <->
       if decide (t_endpoint e ∈ eps) then t_until e = until_ /\ exists u, cached et (set_until u e)
       else cached et e.
Proof.
  revert et. induction eps as [|ep eps IH]; intros et Hwf; cbn [foldl].
  { split; [done|]. intros e. rewrite decide_False; [done|apply not_elem_of_nil]. }
  destruct (extendLocked_spec ep et Hwf) as [Hwf1 He1]. destruct (IH _ Hwf1) as [Hwf2 He2].
  split; [done|]. intros e. rewrite He2.
  destruct (decide (t_endpoint e ∈ eps)) as [Hin|Hin].
  - rewrite decide_True by (by right). setoid_rewrite He1. simpl.
    destruct (decide (t_endpoint e = ep)) as [E|Hne]; [|done].
    split; intros [-> [u Hu]]; (split; [done|]).
    + destruct Hu as [_ [v Hv]]. by exists v.
    + exists until_. split; [done|]. by exists u.
  - rewrite He1. destruct (decide (t_endpoint e = ep)) as [E|Hne].
    + rewrite decide_True; [done|rewrite E; by left].
    + rewrite decide_False; [done|]. by rewrite elem_of_cons; intros [|].
Qed.

Lemma kept_or_full_refl et : kept_or_full et et.
Proof. split; auto. Qed.
Lemma kept_or_full_trans et1 et2 et3 :
  (forall e, cached et1 e -> t_until e <= until_) ->
  kept_or_full et1 et2 -> kept_or_full et2 et3 -> kept_or_full et1 et3.
Proof.
  intros Ht [H1 H1'] [H2 H2']. split; [|auto].
  intros e He. destruct (H1 e He) as [|Hf]; [auto|]. right. apply H2'; [by apply Ht|done].
Qed.

(** All the input endpoints are added; those that are there already have the new expiry. *)
Lemma addAll_spec eps et :
  tracker_wf top et -> (forall e, cached et e -> t_until e <= until_) ->
  (forall e, cached et e -> t_endpoint e ∈ eps -> t_until e = until_) ->
  let et' := foldl (fun et ep => addLocked ep until_ et) et eps in
  tracker_wf top et' /\ kept_or_full et et'
  /\ (forall e, cached et' e -> cached et e \/ t_endpoint e ∈ eps /\ t_until e = until_)
  /\ forall ep, ep ∈ eps -> cached et' (MkTrackerEntry ep until_) \/ full_of_newer et' (ip (te_Addr ep)) until_.
Proof.
  revert et. induction eps as [|ep eps IH]; intros et Hwf Ht Hext; cbn [foldl].
  { split_and!; [done|apply kept_or_full_refl|auto|]. intros ep Hep. by apply elem_of_nil in Hep. }
  destruct (addLocked_spec ep et Hwf) as (Hwf1 & Hk1 & Hs1 & Hn1).
  destruct (IH (addLocked ep until_ et)) as (Hwf2 & Hk2 & Hs2 & Hn2); [done|..].
  { intros e [He| ->]%Hs1; [by apply Ht|done]. }
  { intros e [He| ->]%Hs1 Hin; [|done]. apply Hext; [done|by right]. }
  split_and!; [done|by eapply kept_or_full_trans|..].
  - intros e [He|[Hin Hu]]%Hs2; [|by right; split; [right|]].
    apply Hs1 in He as [He| ->]; [by left|]. right. split; [by left|done].
  - intros ep' [->|Hin]%elem_of_cons; [|by apply Hn2].
    destruct Hk2 as [Hk2 Hf2].
    destruct Hn1 as [[u Hu]|[Hnew|Hfull]].
    + assert (u = until_) as -> by (apply (Hext _ Hu); by left).
      destruct Hk1 as [Hk1 Hf1]. destruct (Hk1 _ Hu) as [He|Hf]; [by apply Hk2 in He|].
      right. by apply Hf2.
    + by apply Hk2 in Hnew.
    + right. by apply Hf2.
Qed.
End Steps.

(** An update of the endpoint cache keeps what it should and nothing else. The cache stays
    well formed (a heap of at most six distinct endpoints per IP address). The result is the
    endpoints found now and, after them, exactly the cached ones at other addresses. An entry
    is in the cache afterwards only if it was found now, with the full lifetime ahead, or was
    cached and has not expired; and such an entry is missing only if six entries that expire
    no earlier fill the cache of its IP address. *)
Theorem tracker_update_spec `{MapRange} t now eps et :
  tracker_wf (t + endpointTrackerLifetime) et -> t <= now ->
  let until_ := now + endpointTrackerLifetime in
  let '(et', out) := update now eps et in
  tracker_wf until_ et'
  /\ (exists rest, out = eps ++ rest
       /\ forall x, x ∈ rest <-> te_Addr x ∉ te_Addr <$> eps /\ exists u, cached et' (MkTrackerEntry x u))
  /\ (forall e, cached et' e ->
         t_endpoint e ∈ eps /\ t_until e = until_ \/ t_endpoint e ∉ eps /\ cached et e /\ now <= t_until e)
  /\ (forall e, t_endpoint e ∈ eps /\ t_until e = until_ \/ t_endpoint e ∉ eps /\ cached et e /\ now <= t_until e ->
         cached et' e \/ full_of_newer et' (ip (te_Addr (t_endpoint e))) (t_until e)).
Proof.
  intros Hwf Hnow. cbv zeta. set (until_ := now + endpointTrackerLifetime).
  assert (tracker_wf until_ et) as Hwf0.
  { intros a h Hl. destruct (Hwf a h Hl) as [? ? ? ? Ht]. constructor; [done..|].
    eapply Forall_impl; [exact Ht|]. intros e He. simpl in *. lia. }
  unfold update. fold until_.
  destruct (extendAll_spec until_ until_ ltac:(lia) eps et Hwf0) as [Hwf1 He1].
  set (et1 := foldl (fun et ep => extendLocked ep until_ et) et eps) in *.
  destruct (removeExpiredLocked_spec now until_ et1 Hwf1) as [Hwf2 He2].
  set (et2 := removeExpiredLocked now et1) in *.
  assert (forall e, cached et2 e -> t_until e <= until_) as Htop.
  { intros e (h & Hl & He). destruct (Hwf2 _ _ Hl) as [? ? ? ? Ht]. rewrite Forall_forall in Ht. by apply Ht. }
  assert (forall e, cached et2 e -> t_endpoint e ∈ eps -> t_until e = until_) as Hext.
  { intros e He Hin. apply He2 in He as [He _]. apply He1 in He. rewrite decide_True in He by done. by destruct He. }
  destruct (addAll_spec until_ until_ ltac:(lia) eps et2 Hwf2 Htop Hext) as (Hwf3 & [Hkeep _] & Hs & Hnew).
  set (et3 := foldl (fun et ep => addLocked ep until_ et) et2 eps) in *.
  assert (forall e, cached et3 e ->
    t_endpoint e ∈ eps /\ t_until e = until_ \/ t_endpoint e ∉ eps /\ cached et e /\ now <= t_until e) as Hsound.
  { intros e [He|?]%Hs; [|by left]. destruct (decide (t_endpoint e ∈ eps)) as [Hin|Hin]; [left; auto|].
    right. apply He2 in He as [He ?]. apply He1 in He. by rewrite decide_False in He. }
  split_and!; [done| |done|].
  - eexists. split; [done|]. intros x. rewrite list_elem_of_fmap. setoid_rewrite list_elem_of_filter.
    assert (forall e, e ∈ concat ((map_range et3).*2) <-> cached et3 e) as Hc.
    { intros e. rewrite (elem_of_concat_range et3). split; [|intros (h & ? & ?); eauto].
      intros (a & h & Hl & He). exists h. split; [|done].
      destruct (Hwf3 _ _ Hl) as [_ _ _ Hk _]. rewrite Forall_forall in Hk. by rewrite (Hk _ He). }
    setoid_rewrite Hc. split.
    + intros (e & -> & (? & _) & He). split; [done|]. exists (t_until e). by destruct e.
    + intros (Hx & u & Hu). exists (MkTrackerEntry x u). split_and!; [done|done| |done].
      simpl. apply Hsound in Hu as [[_ Hu]|(_ & _ & Hu)]; simpl in Hu; [|lia].
      assert (0 < endpointTrackerLifetime) by done. unfold until_ in Hu. lia.
  - intros e [[Hin Hu]|(Hin & He & Hn)].
    + destruct e as [ep u]. simpl in *. subst u. by apply Hnew.
    + apply Hkeep, He2. split; [|done]. apply He1. by rewrite decide_False.
Qed.

(** ** Witness *)
Definition ex_tep (n : Z) : Endpoint := MkTEndpoint (MkAddrPort (Addr4 0xcb007107) n) 2.
Definition ex_tracker : endpointTracker := (update (H := canonical_range) 0 (ex_tep <$> [1; 2; 3]) ∅).1.

(** One endpoint is found again a minute later, the other two stay advertised. *)
Lemma tracker_update_spec_witness :
  (update (H := canonical_range) Minute [ex_tep 2] ex_tracker).2 = [ex_tep 2; ex_tep 1; ex_tep 3]
  /\ tracker_wf (Minute + endpointTrackerLifetime)
       (update (H := canonical_range) Minute [ex_tep 2] ex_tracker).1.
Proof.
  split; [vm_compute; reflexivity|].
  assert (tracker_wf endpointTrackerLifetime ex_tracker) as Hwf.
  { pose proof (tracker_update_spec (H := canonical_range) 0 0 (ex_tep <$> [1; 2; 3]) ∅) as Hs.
    unfold ex_tracker. destruct (update _ _ _) as [et out]. apply Hs; [by intros a h|lia]. }
  pose proof (tracker_update_spec (H := canonical_range) 0 Minute [ex_tep 2] ex_tracker Hwf) as Hs.
  destruct (update Minute _ _) as [et out]. apply Hs. done.
Defined.
