(* ===== verification/Float64.v ===== *)
(** * Go [float64]: IEEE 754 binary64 on the executable [spec_float] of the
    standard library (no axioms, no primitive floats).

    Every operation rounds to nearest even, as on the platforms where the Go
    compiler does not fuse a multiplication with an addition. The conversion of an
    out-of-range value to [int64] is implementation-defined in Go; [to_int64] is
    what amd64 does. *)
From Stdlib Require Import SpecFloat.
From S2P Require Import Prelude.

Module F64.
Definition t := spec_float.
Definition prec : Z := 53.
Definition emax : Z := 1024.

Definition of_int (z : Z) : t := binary_normalize prec emax z 0 false.
Definition add : t -> t -> t := SFadd prec emax.
Definition sub : t -> t -> t := SFsub prec emax.
Definition mul : t -> t -> t := SFmul prec emax.
Definition div : t -> t -> t := SFdiv prec emax.
Definition sqrt : t -> t := SFsqrt prec emax.
(** The nearest double to the decimal literal [n / d]. *)
Definition lit (n d : Z) : t := div (of_int n) (of_int d).
Definition zero : t := S754_zero false.
Definition one : t := of_int 1.

Definition ltb (a b : t) : bool := SFltb a b.
Definition leb (a b : t) : bool := SFleb a b.
Definition eqb (a b : t) : bool := SFeqb a b.

(** Truncation towards zero. *)
Definition trunc (x : t) : option Z :=
  match x with
  | S754_zero _ => Some 0
  | S754_finite s m e =>
      let a := if 0 <=? e then Z.pos m * 2 ^ e else Z.pos m / 2 ^ (- e) in
      Some (if s then - a else a)
  | _ => None
  end.
Definition to_int64 (x : t) : Z :=
  match trunc x with
  | Some z => if (- 2 ^ 63 <=? z) && (z <? 2 ^ 63) then z else - 2 ^ 63
  | None => - 2 ^ 63
  end.
(** Conversion to [uint64], on the non-negative in-range values the code converts. *)
Definition to_uint64 (x : t) : Z :=
  match trunc x with Some z => uw 64 z | None => 2 ^ 63 end.

(** [math.Exp] of the Go library, portable version: argument reduction by
    multiples of ln 2 and a degree-five rational kernel. *)
Definition ldexp (x : t) (k : Z) : t :=
  match x with
  | S754_finite s m e => binary_normalize prec emax (if s then Z.neg m else Z.pos m) (e + k) s
  | _ => x
  end.
(** A double given by its mantissa and exponent. *)
Definition dbl (m e : Z) : t := binary_normalize prec emax m e false.
Definition Ln2Hi : t := dbl (6243314766446592) (-53). (* 6.93147180369123816490e-01 *)
Definition Ln2Lo : t := dbl (7382048951581814) (-85). (* 1.90821492927058770002e-10 *)
Definition Log2e : t := dbl (6497320848556798) (-52). (* 1.44269504088896338700e+00 *)
Definition P1 : t := dbl (6004799503160661) (-55). (* 1.66666666666666657415e-01 *)
Definition P2 : t := dbl (-6405119469862291) (-61). (* -2.77777777770155933842e-03 *)
Definition P3 : t := dbl (4880090809097772) (-66). (* 6.61375632143793436117e-05 *)
Definition P4 : t := dbl (-7807914560613361) (-72). (* -1.65339022054652515390e-06 *)
Definition P5 : t := dbl (6253375523824848) (-77). (* 4.13813679705723846039e-08 *)

Definition expmulti (hi lo : t) (k : Z) : t :=
  let r := sub hi lo in
  let tt := mul r r in
  let c := sub r (mul tt (add P1 (mul tt (add P2 (mul tt (add P3 (mul tt
             (add P4 (mul tt P5))))))))) in
  let two := of_int 2 in
  let y := sub one (sub (sub lo (div (mul r c) (sub two c))) hi) in
  ldexp y k.

Definition Exp (x : t) : t :=
  match x with
  | S754_nan => x
  | S754_infinity false => x
  | S754_infinity true => zero
  | _ =>
    let nearZero := dbl 1 (-28) in
    if ltb (dbl (6243314768165359) (-43)) x then S754_infinity false
    else if ltb x (dbl (-6554261109157969) (-43)) then zero
    else if ltb (sub zero nearZero) x && ltb x nearZero then add one x
    else
      let half := lit 1 2 in
      let k := if ltb x zero then to_int64 (sub (mul Log2e x) half)
               else if ltb zero x then to_int64 (add (mul Log2e x) half) else 0 in
      let hi := sub x (mul (of_int k) Ln2Hi) in
      let lo := mul (of_int k) Ln2Lo in
      expmulti hi lo k
  end.

(** ** Order of doubles

    [key] embeds the non-NaN values in lexicographically ordered triples. *)
Definition key (x : t) : option (Z * Z * Z) :=
  match x with
  | S754_nan => None
  | S754_infinity s => Some (if s then -2 else 2, 0, 0)
  | S754_zero _ => Some (0, 0, 0)
  | S754_finite false m e => Some (1, e, Z.pos m)
  | S754_finite true m e => Some (-1, - e, Z.neg m)
  end.
Definition klt (a b : Z * Z * Z) : Prop :=
  a.1.1 < b.1.1 \/ (a.1.1 = b.1.1 /\ (a.1.2 < b.1.2 \/ (a.1.2 = b.1.2 /\ a.2 < b.2))).

Ltac key_case :=
  split; [first [congruence | intros _; do 2 eexists; split_and!; [done|done|simpl; lia]]
         |intros (?&?&?&?&?); simplify_eq; simpl in *; first [done | lia]].

Lemma ltb_key a b :
  ltb a b = true <-> exists ka kb, key a = Some ka /\ key b = Some kb /\ klt ka kb.
Proof.
  unfold ltb, SFltb, klt.
  destruct a as [sa|sa| |sa ma ea], b as [sb|sb| |sb mb eb];
    try destruct sa; try destruct sb; simpl; try key_case.
  all: destruct (Z.compare_spec ea eb) as [->|?|?]; simpl; try key_case.
  all: change (Pos.compare_cont Eq ma mb) with (Pos.compare ma mb);
    destruct (Pos.compare_spec ma mb) as [->|?|?]; simpl; key_case.
Qed.

Lemma ltb_irrefl a : ltb a a = false.
Proof.
  apply not_true_iff_false. rewrite ltb_key. intros (ka&kb&?&?&Hk). simplify_eq.
  unfold klt in Hk. lia.
Qed.

Lemma ltb_trans a b c : ltb a b = true -> ltb b c = true -> ltb a c = true.
Proof.
  rewrite !ltb_key. intros (ka&kb&?&?&H1) (kb'&kc&?&?&H2). simplify_eq.
  exists ka, kc. split_and!; [done..|]. unfold klt in *. lia.
Qed.

Lemma ltb_asym a b : ltb a b = true -> ltb b a = false.
Proof.
  intros H. apply not_true_iff_false. intros H'.
  pose proof (ltb_trans _ _ _ H H') as F. by rewrite ltb_irrefl in F.
Qed.

Lemma eqb_key a b : eqb a b = true <-> exists ka, key a = Some ka /\ key b = Some ka.
Proof.
  unfold eqb, SFeqb.
  destruct a as [sa|sa| |sa ma ea], b as [sb|sb| |sb mb eb];
    try destruct sa; try destruct sb; simpl;
    try (split; [congruence|intros (?&?&?); simplify_eq]);
    try (split; [intros _; eexists; split; done|done]).
  all: destruct (Z.compare_spec ea eb) as [->|?|?]; simpl;
    try (split; [congruence|intros (?&?&?); simplify_eq; lia]).
  all: change (Pos.compare_cont Eq ma mb) with (Pos.compare ma mb);
    destruct (Pos.compare_spec ma mb) as [->|?|?]; simpl;
    try (split; [congruence|intros (?&?&?); simplify_eq; lia]).
  all: split; [intros _; eexists; split; done|done].
Qed.

Lemma leb_key a b :
  leb a b = true <-> exists ka kb, key a = Some ka /\ key b = Some kb /\ (klt ka kb \/ ka = kb).
Proof.
  assert (leb a b = ltb a b || eqb a b) as ->.
  { unfold leb, SFleb, ltb, SFltb, eqb, SFeqb. by destruct (SFcompare a b) as [[]|]. }
  rewrite orb_true_iff, ltb_key, eqb_key. naive_solver.
Qed.

Example exp_ex : trunc (mul (Exp (of_int 4)) (of_int 1000000)) = Some 54598150.
Proof. vm_compute. reflexivity. Qed.
Example lit_ex : lit 5 100 = S754_finite false 7205759403792794 (-57).
Proof. vm_compute. reflexivity. Qed.
End F64.
