(* ===== verification/Knobs.v ===== *)
(** * Operator knobs: [sourcepath_supported.go], [directvsrelay.go], [extraendpoints.go]

    The engine is configured by [TS_EXPERIMENTAL_*] environment knobs. [Knobs] holds
    what the registered [envknob] getters return (an unset integer knob reads 0, an
    unset string knob is empty, the knobs read with [envknob.LookupInt] are optional);
    the functions below are the effective values the code derives from them. Knob
    strings are ASCII. *)
From S2P Require Import Prelude Netip Float64.

(** ** Library functions whose result Go leaves to the platform or to a parser *)
Class Platform := {
  math_Exp : F64.t -> F64.t;                      (* math.Exp *)
  ParseFloat : string -> option F64.t;            (* strconv.ParseFloat, None on error *)
  ParseAddrPort : string -> option AddrPort       (* netip.ParseAddrPort, None on error *)
}.

(** The instance witnesses use: the portable [math.Exp] and parsers that know a
    few literals. *)
Definition portable_platform : Platform := {|
  math_Exp := F64.Exp;
  ParseFloat := fun s =>
    if decide (s = "0.5"%string) then Some (F64.lit 5 10)
    else if decide (s = "1"%string) then Some F64.one
    else if decide (s = "-1"%string) then Some (F64.of_int (-1)) else None;
  ParseAddrPort := fun s =>
    if decide (s = "192.0.2.1:41641"%string) then Some (MkAddrPort (Addr4 0xc0000201) 41641)
    else if decide (s = "192.0.2.2:41641"%string) then Some (MkAddrPort (Addr4 0xc0000202) 41641)
    else if decide (s = "192.0.2.3:41641"%string) then Some (MkAddrPort (Addr4 0xc0000203) 41641)
    else None
|}.

(** ** [strings] on ASCII *)
Module Strings.
Definition lower (c : Ascii.ascii) : Ascii.ascii :=
  let n := Ascii.N_of_ascii c in
  if (65 <=? n)%N && (n <=? 90)%N then Ascii.ascii_of_N (n + 32) else c.
Fixpoint ToLower (s : string) : string :=
  match s with
  | EmptyString => EmptyString
  | String c s' => String (lower c) (ToLower s')
  end.
Definition is_space (c : Ascii.ascii) : bool :=
  let n := Ascii.N_of_ascii c in (n =? 32)%N || ((9 <=? n)%N && (n <=? 13)%N).
Fixpoint TrimLeft (s : string) : string :=
  match s with
  | EmptyString => EmptyString
  | String c s' => if is_space c then TrimLeft s' else s
  end.
Fixpoint TrimRight (s : string) : string :=
  match s with
  | EmptyString => EmptyString
  | String c s' =>
      match TrimRight s' with
      | EmptyString => if is_space c then EmptyString else String c EmptyString
      | t => String c t
      end
  end.
Definition TrimSpace (s : string) : string := TrimRight (TrimLeft s).
(** [strings.Split(s, sep)] for a one-byte separator: at least one field. *)
Fixpoint Split (s : string) (sep : Ascii.ascii) : list string :=
  match s with
  | EmptyString => [EmptyString]
  | String c s' =>
      if decide (c = sep) then EmptyString :: Split s' sep
      else match Split s' sep with
           | f :: fs => String c f :: fs
           | [] => [String c EmptyString]
           end
  end.
(** [strings.Cut(s, sep)] for a one-byte separator. *)
Fixpoint Cut (s : string) (sep : Ascii.ascii) : option (string * string) :=
  match s with
  | EmptyString => None
  | String c s' =>
      if decide (c = sep) then Some (EmptyString, s')
      else match Cut s' sep with
           | Some (a, b) => Some (String c a, b)
           | None => None
           end
  end.

Lemma ToLower_idem s : ToLower (ToLower s) = ToLower s.
Proof.
  induction s as [|c s IH]; simpl; [done|]. f_equal; [|done].
  unfold lower. destruct ((65 <=? Ascii.N_of_ascii c)%N && (Ascii.N_of_ascii c <=? 90)%N) eqn:E;
    [|by rewrite E].
  apply andb_true_iff in E as [E1%N.leb_le E2%N.leb_le].
  rewrite Ascii.N_ascii_embedding by lia.
  replace ((65 <=? Ascii.N_of_ascii c + 32)%N && (Ascii.N_of_ascii c + 32 <=? 90)%N) with false; [done|].
  symmetry. apply andb_false_iff. right. apply N.leb_gt. lia.
Qed.
End Strings.
Import Strings.

Record Knobs := MkKnobs {
  envSrcSelEnable : option bool;
  envSrcSelAuxSockets : option Z;            (* envknob.LookupInt *)
  envSrcSelDataStrategy : string;
  envSrcSelForceDataSource : string;
  envSrcSelAutoDataSource : bool;
  envSrcSelMaxPeers : Z;
  envSrcSelMaxProbeBurst : Z;
  envSrcSelMaxPending : Z;
  envSrcSelMaxSamples : Z;
  envSrcSelMaxOutcomes : Z;
  envSrcSelAuxBeatThresholdPct : Z;
  envSrcSelDualSend : option bool;
  envSrcSelDualSendAuxDrop : Z;
  envSrcSelDualSendAuxProbeDrop : Z;
  envSrcSelDualSendRecoveryS : Z;
  envSrcSelDualSendMaxSkewMS : Z;
  envSrcSelActiveBackup : bool;
  envSrcSelPrimaryFailStreak : Z;
  envSrcSelFailoverHoldS : Z;
  envSrcSelFailoverRecovery : Z;
  envSrcSelMultiMetric : bool;
  envSrcSelProbeIntervalMS : option Z;       (* envknob.LookupInt *)
  envSrcSelLossWindowS : Z;
  envSrcSelScoreWeights : string;
  envSrcSelLatencyMaxMS : Z;
  envSrcSelJitterMaxMS : Z;
  envSrcSelLossMaxPct : Z;
  envSrcSelScoreImprovePct : Z;
  envSrcSelProfile : string;
  envSrcSelSampleTTLS : Z;
  envSrcSelFlowAware : bool;
  envSrcSelBalancePolicy : string;
  envSrcSelFlowIdleS : Z;
  envSrcSelFlowMax : Z;
  envDirectVsRelayCompare : bool;
  envDirectVsRelayCompareInterv : Z;
  envDirectVsRelayHold : Z;
  envDirectVsRelayThresholdPct : Z;
  envExtraEndpointsFile : string;
  envExtraEndpointsMax : Z;
  envExtraEndpointsPollS : Z;
  envOmitEndpoints : string
}.

(** Every knob unset. *)
Definition defaultKnobs : Knobs :=
  MkKnobs None None "" "" false 0 0 0 0 0 0 None 0 0 0 0 false 0 0 0 false None 0 "" 0 0 0 0
          "" 0 false "" 0 0 false 0 0 0 "" 0 0 "".

(** ** Constants of [sourcepath.go] *)
Definition sourcePathDataStrategyDualSend : string := "dual-send".
Definition sourcePathDataStrategyDualEndpoint : string := "dual-endpoint".
Definition sourcePathDataStrategySingleSource : string := "single-source".
Definition sourcePathDataStrategyActiveBackup : string := "active-backup".
Definition sourcePathProbeHistoryLimit : Z := 100000.
Definition sourcePathProbeMaxPeers : Z := 0.
Definition sourcePathProbeMaxBurst : Z := 8.
Definition sourcePathProbeHardPendingCap : Z := 100000.
Definition sourcePathProbeOutcomeLimit : Z := 100000.
Definition sourcePathSampleTTL : Z := 60 * Second.
Definition sourcePathRealtimeSampleTTL : Z := 10 * Second.
Definition sourcePathMinSamplesForUse : Z := 3.
Definition sourcePathAuxBeatThresholdPercent : Z := 10.
Definition sourcePathDualSendAuxDropStreak : Z := 5.
Definition sourcePathDualSendAuxProbeDropStreak : Z := 2.
Definition sourcePathDualSendRecovery : Z := 30 * Second.
Definition sourcePathDualSendMaxSkew : Z := 100 * Millisecond.
Definition sourcePathActiveBackupPrimaryFailStreak : Z := 3.
Definition sourcePathActiveBackupFailoverHold : Z := 30 * Second.
Definition sourcePathActiveBackupRecoveryPongs : Z := 3.
Definition sourcePathProbeIntervalFloor : Z := 200 * Millisecond.
Definition sourcePathRealtimeProbeEvery : Z := Second.
Definition sourcePathLossWindow : Z := 30 * Second.
Definition sourcePathLatencyMax : Z := 300 * Millisecond.
Definition sourcePathJitterMax : Z := 50 * Millisecond.
Definition sourcePathLossMax : F64.t := F64.lit 5 100.
Definition sourcePathScoreImprovePct : Z := 5.
Definition sourcePathFlowIdle : Z := 30 * Second.
Definition sourcePathFlowMaxEntries : Z := 100000.
Definition sourcePathDefaultAuxSockets : Z := 2.
Definition sourcePathMaxAuxSockets : Z := 32.
Definition sourcePathMaxRankedPaths : Z := 32.
Definition sourcePathActiveReplaceCooldown : Z := Minute.
Definition sourcePathStandbyRefreshEvery : Z := Hour.

Section Values.
Context (k : Knobs).

(** [time.Duration(n) * unit] *)
Definition dur (n unit : Z) : Z := i64 (n * unit).

Definition sourcePathOptBoolDefaultTrue (v : option bool) : bool := default true v.
Definition sourcePathEnabled : bool := sourcePathOptBoolDefaultTrue (envSrcSelEnable k).

Definition sourcePathDataStrategyMode : string :=
  let s := ToLower (TrimSpace (envSrcSelDataStrategy k)) in
  if bool_decide (s ∈ [""; "dual"; "dual-send"; "dual_send"; "redundant"]%string)
  then sourcePathDataStrategyDualSend
  else if bool_decide (s ∈ ["dual-endpoint"; "dual_endpoint"; "endpoint"; "endpoints";
                            "redundant-endpoint"; "redundant_endpoint"; "multipath"]%string)
  then sourcePathDataStrategyDualEndpoint
  else if bool_decide (s ∈ ["single"; "single-source"; "single_source"; "auto"; "flow";
                            "flow-aware"; "flow_aware"; "rr"; "round-robin"; "round_robin"]%string)
  then sourcePathDataStrategySingleSource
  else if bool_decide (s ∈ ["active-backup"; "active_backup"; "backup"; "failover"]%string)
  then sourcePathDataStrategyActiveBackup
  else sourcePathDataStrategyDualSend.

Definition sourcePathDualEndpointStrategyEnabled : bool :=
  bool_decide (sourcePathDataStrategyMode = sourcePathDataStrategyDualEndpoint).
Definition sourcePathSingleSourceStrategyEnabled : bool :=
  bool_decide (sourcePathDataStrategyMode = sourcePathDataStrategySingleSource).

Definition sourcePathAuxSocketCount : Z :=
  if negb sourcePathEnabled then 0
  else match envSrcSelAuxSockets k with
       | None => sourcePathDefaultAuxSockets
       | Some n =>
           if n <? 0 then 0
           else if sourcePathMaxAuxSockets <? n then sourcePathMaxAuxSockets
           else n
       end.

Definition sourcePathProbeMaxPeerCount : Z :=
  let n := envSrcSelMaxPeers k in
  if n <? 0 then 0 else if n =? 0 then sourcePathProbeMaxPeers else n.
Definition sourcePathProbeMaxBurstCount : Z :=
  let n := envSrcSelMaxProbeBurst k in
  if n <=? 0 then Z.max sourcePathProbeMaxBurst (sourcePathAuxSocketCount * 2) else n.
Definition sourcePathProbeHardPendingCount : Z :=
  let n := envSrcSelMaxPending k in if n =? 0 then sourcePathProbeHardPendingCap else n.
Definition sourcePathProbeSampleLimitCount : Z :=
  let n := envSrcSelMaxSamples k in if n =? 0 then sourcePathProbeHistoryLimit else n.
Definition sourcePathProbeOutcomeLimitCount : Z :=
  let n := envSrcSelMaxOutcomes k in if n =? 0 then sourcePathProbeOutcomeLimit else n.
Definition sourcePathAuxBeatThresholdPercentValue : Z :=
  let n := envSrcSelAuxBeatThresholdPct k in
  if n <? 0 then 0
  else if n =? 0 then sourcePathAuxBeatThresholdPercent
  else if 100 <? n then 100 else n.

Definition sourcePathProfileMode : string := ToLower (envSrcSelProfile k).
Definition realtimeProfile : bool := bool_decide (sourcePathProfileMode = "realtime"%string).
Definition sourcePathMultiMetricEnabled : bool := envSrcSelMultiMetric k || realtimeProfile.

Definition sourcePathProbeIntervalValue : Z :=
  match envSrcSelProbeIntervalMS k with
  | None => sourcePathRealtimeProbeEvery
  | Some n =>
      if (n =? 0) && realtimeProfile then sourcePathRealtimeProbeEvery
      else if n <=? 0 then 0
      else let d := dur n Millisecond in
           if d <? sourcePathProbeIntervalFloor then sourcePathProbeIntervalFloor else d
  end.
Definition sourcePathSampleTTLValue : Z :=
  let n := envSrcSelSampleTTLS k in
  if 0 <? n then dur n Second
  else if realtimeProfile then sourcePathRealtimeSampleTTL
  else sourcePathSampleTTL.
Definition sourcePathLossWindowValue : Z :=
  let n := envSrcSelLossWindowS k in if n <=? 0 then sourcePathLossWindow else dur n Second.
Definition sourcePathLatencyMaxValue : Z :=
  let n := envSrcSelLatencyMaxMS k in if n <=? 0 then sourcePathLatencyMax else dur n Millisecond.
Definition sourcePathJitterMaxValue : Z :=
  let n := envSrcSelJitterMaxMS k in if n <=? 0 then sourcePathJitterMax else dur n Millisecond.
Definition sourcePathLossMaxValue : F64.t :=
  let n := envSrcSelLossMaxPct k in
  if n <=? 0 then sourcePathLossMax else F64.div (F64.of_int n) (F64.of_int 100).
Definition sourcePathScoreImprovePctValue : Z :=
  let n := envSrcSelScoreImprovePct k in if n <=? 0 then sourcePathScoreImprovePct else n.

Definition sourcePathDualSendEnabled : bool :=
  bool_decide (sourcePathDataStrategyMode = sourcePathDataStrategyDualSend)
  && sourcePathOptBoolDefaultTrue (envSrcSelDualSend k)
  && (0 <? sourcePathAuxSocketCount).
Definition sourcePathDualSendAuxDropStreakValue : Z :=
  let n := envSrcSelDualSendAuxDrop k in if n <=? 0 then sourcePathDualSendAuxDropStreak else n.
Definition sourcePathDualSendAuxProbeDropStreakValue : Z :=
  let n := envSrcSelDualSendAuxProbeDrop k in
  if n <=? 0 then sourcePathDualSendAuxProbeDropStreak else n.
Definition sourcePathDualSendRecoveryValue : Z :=
  let n := envSrcSelDualSendRecoveryS k in
  if n <=? 0 then sourcePathDualSendRecovery else dur n Second.
Definition sourcePathDualSendMaxSkewValue : Z :=
  let n := envSrcSelDualSendMaxSkewMS k in
  if n <=? 0 then sourcePathDualSendMaxSkew else dur n Millisecond.

Definition sourcePathActiveBackupEnabled : bool :=
  bool_decide (sourcePathDataStrategyMode = sourcePathDataStrategyActiveBackup)
  && envSrcSelActiveBackup k && (0 <? sourcePathAuxSocketCount).
Definition sourcePathActiveBackupPrimaryFailStreakValue : Z :=
  let n := envSrcSelPrimaryFailStreak k in
  if n <=? 0 then sourcePathActiveBackupPrimaryFailStreak else n.
Definition sourcePathActiveBackupFailoverHoldValue : Z :=
  let n := envSrcSelFailoverHoldS k in
  if n <? 0 then 0 else if n =? 0 then sourcePathActiveBackupFailoverHold else dur n Second.
Definition sourcePathActiveBackupRecoveryPongsValue : Z :=
  let n := envSrcSelFailoverRecovery k in
  if n <=? 0 then sourcePathActiveBackupRecoveryPongs else n.

Definition sourcePathFlowAwareEnabled : bool :=
  sourcePathSingleSourceStrategyEnabled && envSrcSelFlowAware k && (0 <? sourcePathAuxSocketCount).
Definition sourcePathBalancePolicyValue : string :=
  if bool_decide (ToLower (envSrcSelBalancePolicy k) ∈ ["rr"; "xor"; "aware"]%string)
  then ToLower (envSrcSelBalancePolicy k) else "aware".
Definition sourcePathFlowIdleValue : Z :=
  let n := envSrcSelFlowIdleS k in
  if n <? 0 then 0 else if n =? 0 then sourcePathFlowIdle else dur n Second.
Definition sourcePathFlowMaxEntriesValue : Z :=
  let n := envSrcSelFlowMax k in
  if n <? 0 then 0 else if n =? 0 then sourcePathFlowMaxEntries else n.

Definition sourcePathForcedDataSourceMode : string := ToLower (envSrcSelForceDataSource k).

(** ** [directvsrelay.go] *)
Definition directVsRelayCompareInterval : Z := 5 * Minute.
Definition directVsRelayHoldDuration : Z := 5 * Minute.
Definition directVsRelayThresholdPercent : Z := 10.
Definition directVsRelayCompareEnabled : bool := envDirectVsRelayCompare k.
Definition directVsRelayCompareIntervalValue : Z :=
  let n := envDirectVsRelayCompareInterv k in
  if n <=? 0 then directVsRelayCompareInterval else dur n Second.
Definition directVsRelayHoldDurationValue : Z :=
  let n := envDirectVsRelayHold k in
  if n <=? 0 then directVsRelayHoldDuration else dur n Second.
Definition directVsRelayThresholdValue : Z :=
  let n := envDirectVsRelayThresholdPct k in
  if n <? 0 then 0
  else if n =? 0 then directVsRelayThresholdPercent
  else if 100 <? n then 100 else n.

(** ** [extraendpoints.go] *)
Definition extraEndpointsDefaultMax : Z := 0.
Definition extraEndpointsMaxFromEnv : Z :=
  let n := envExtraEndpointsMax k in if n <=? 0 then extraEndpointsDefaultMax else n.
Definition extraEndpointsPollDuration : Z :=
  let n := envExtraEndpointsPollS k in if n <=? 0 then 0 else dur n Second.
End Values.

(** The forced data source applies to an address of its own family only. *)
Definition sourcePathForcedDataSourceModeAllowsAddr (mode : string) (addr : Addr) : bool :=
  if bool_decide (mode = "aux"%string) then true
  else if bool_decide (mode ∈ ["aux4"; "ipv4"; "v4"]%string) then Is4 addr
  else if bool_decide (mode ∈ ["aux6"; "ipv6"; "v6"]%string) then Is6 addr
  else false.

(** ** Score weights and the list of omitted endpoints *)
Record sourcePathScoreWeights := MkWeights { wLatency : F64.t; wJitter : F64.t; wLoss : F64.t }.
Definition defaultWeights : sourcePathScoreWeights :=
  MkWeights (F64.lit 30 100) (F64.lit 40 100) (F64.lit 30 100).

Definition comma : Ascii.ascii := Ascii.ascii_of_N 44.
Definition equals : Ascii.ascii := Ascii.ascii_of_N 61.

Section Parsed.
Context `{Platform} (k : Knobs).

(** One [key=value] field of the weight list; malformed and negative fields are skipped. *)
Definition apply_weight (w : sourcePathScoreWeights) (field : string) : sourcePathScoreWeights :=
  match Cut (TrimSpace field) equals with
  | None => w
  | Some (key, value) =>
      match ParseFloat (TrimSpace value) with
      | None => w
      | Some f =>
          if F64.ltb f F64.zero then w
          else
            let key := ToLower (TrimSpace key) in
            if bool_decide (key ∈ ["lat"; "latency"]%string)
            then MkWeights f (wJitter w) (wLoss w)
            else if bool_decide (key ∈ ["jit"; "jitter"]%string)
            then MkWeights (wLatency w) f (wLoss w)
            else if bool_decide (key = "loss"%string)
            then MkWeights (wLatency w) (wJitter w) f
            else w
      end
  end.
Definition sourcePathScoreWeightsValue : sourcePathScoreWeights :=
  foldl apply_weight defaultWeights (Split (envSrcSelScoreWeights k) comma).

Definition omitEndpointAddrPort (p : AddrPort) : bool :=
  if negb (IsValid p) then false
  else if bool_decide (envOmitEndpoints k = EmptyString) then false
  else existsb (fun part =>
         let part := TrimSpace part in
         if bool_decide (part = EmptyString) then false
         else match ParseAddrPort part with
              | None => false
              | Some omit => bool_decide (omit = p)
              end) (Split (envOmitEndpoints k) comma).
Definition omitAdvertisedEndpoint (p : AddrPort) : bool := omitEndpointAddrPort p.
End Parsed.

(** ** Facts *)
Ltac knob_cases :=
  repeat match goal with
  | |- context [if ?b then _ else _] => destruct b eqn:?
  | |- context [match ?o with Some _ => _ | None => _ end] => destruct o eqn:?
  end; bool_props; unfold in64 in *; try lia.

Lemma sourcePathDataStrategyMode_cases k :
  sourcePathDataStrategyMode k ∈
    [sourcePathDataStrategyDualSend; sourcePathDataStrategyDualEndpoint;
     sourcePathDataStrategySingleSource; sourcePathDataStrategyActiveBackup].
Proof.
  unfold sourcePathDataStrategyMode.
  repeat case_bool_decide; set_solver.
Qed.

Lemma sourcePathAuxSocketCount_bounds k :
  0 <= sourcePathAuxSocketCount k <= sourcePathMaxAuxSockets.
Proof.
  unfold sourcePathAuxSocketCount, sourcePathDefaultAuxSockets, sourcePathMaxAuxSockets.
  knob_cases.
Qed.

Lemma dur_pos n unit : 0 < n -> 0 < unit -> n * unit < 2 ^ 63 -> 0 < dur n unit.
Proof. intros. unfold dur. rewrite i64_small; unfold in64; nia. Qed.

(** The four data strategies are mutually exclusive: at most one of the feature
    switches derived from the strategy knob is on. *)
Definition strategies_on (k : Knobs) : list bool :=
  [sourcePathDualSendEnabled k; sourcePathDualEndpointStrategyEnabled k;
   sourcePathSingleSourceStrategyEnabled k; sourcePathActiveBackupEnabled k].

Lemma strategy_exclusive k :
  (length (filter Is_true (strategies_on k)) <= 1)%nat.
Proof.
  unfold strategies_on, sourcePathDualSendEnabled, sourcePathDualEndpointStrategyEnabled,
    sourcePathSingleSourceStrategyEnabled, sourcePathActiveBackupEnabled.
  pose proof (sourcePathDataStrategyMode_cases k) as H.
  destruct (sourcePathOptBoolDefaultTrue (envSrcSelDualSend k)),
    (0 <? sourcePathAuxSocketCount k), (envSrcSelActiveBackup k).
  all: repeat (apply elem_of_cons in H as [->|H]); [..|by apply not_elem_of_nil in H].
  all: apply Nat.leb_le; vm_compute; reflexivity.
Qed.

Lemma flow_aware_excludes_active_backup k :
  sourcePathFlowAwareEnabled k = true -> sourcePathActiveBackupEnabled k = false.
Proof.
  unfold sourcePathFlowAwareEnabled, sourcePathSingleSourceStrategyEnabled,
    sourcePathActiveBackupEnabled.
  intros H. bool_props.
  match goal with E : sourcePathDataStrategyMode k = _ |- _ => rewrite E end. done.
Qed.

(** Every effective knob value is usable whatever the operator sets: socket
    counts and percentages are clamped, streak thresholds and the probe burst are
    positive, the data strategy is one of the four known ones, and at most one
    strategy is active. *)
Theorem knob_values_sane k :
  0 <= sourcePathAuxSocketCount k <= 32
  /\ 0 <= sourcePathAuxBeatThresholdPercentValue k <= 100
  /\ 0 <= directVsRelayThresholdValue k <= 100
  /\ 1 <= sourcePathProbeMaxBurstCount k
  /\ 0 <= sourcePathProbeMaxPeerCount k
  /\ sourcePathProbeHardPendingCount k <> 0
  /\ 1 <= sourcePathDualSendAuxDropStreakValue k
  /\ 1 <= sourcePathDualSendAuxProbeDropStreakValue k
  /\ 1 <= sourcePathActiveBackupPrimaryFailStreakValue k
  /\ 1 <= sourcePathActiveBackupRecoveryPongsValue k
  /\ 0 <= sourcePathFlowMaxEntriesValue k
  /\ (sourcePathProbeIntervalValue k <> 0 ->
      sourcePathProbeIntervalFloor <= sourcePathProbeIntervalValue k)
  /\ (length (filter Is_true (strategies_on k)) <= 1)%nat.
Proof.
  pose proof (sourcePathAuxSocketCount_bounds k) as Haux.
  unfold sourcePathMaxAuxSockets in Haux.
  split_and!; try apply strategy_exclusive; try lia.
  all: unfold sourcePathAuxBeatThresholdPercentValue, directVsRelayThresholdValue,
    sourcePathProbeMaxBurstCount, sourcePathProbeMaxPeerCount, sourcePathProbeHardPendingCount,
    sourcePathDualSendAuxDropStreakValue, sourcePathDualSendAuxProbeDropStreakValue,
    sourcePathActiveBackupPrimaryFailStreakValue, sourcePathActiveBackupRecoveryPongsValue,
    sourcePathFlowMaxEntriesValue, sourcePathProbeIntervalValue,
    sourcePathAuxBeatThresholdPercent, directVsRelayThresholdPercent, sourcePathProbeMaxBurst,
    sourcePathProbeMaxPeers, sourcePathProbeHardPendingCap, sourcePathDualSendAuxDropStreak,
    sourcePathDualSendAuxProbeDropStreak, sourcePathActiveBackupPrimaryFailStreak,
    sourcePathActiveBackupRecoveryPongs, sourcePathFlowMaxEntries, sourcePathRealtimeProbeEvery,
    sourcePathProbeIntervalFloor, Second, Millisecond.
  all: knob_cases.
Qed.
