(* ===== verification/Bytes.v ===== *)
(** * Bytes, byte arrays and big-endian integers

    A Go [byte] is [Byte.byte]; a byte array such as a key or a transaction id is a
    [list byte]. [be_put n z] is [binary.BigEndian.PutUint(8n)], [be_get] its inverse. *)
From Stdlib.Strings Require Export Byte.
From S2P Require Import Prelude.

Notation bytes := (list byte).

#[export] Instance byte_eq_dec : EqDecision byte.
Proof. intros x y. destruct (Byte.byte_eq_dec x y); [by left|by right]. Defined.
#[export] Instance byte_countable : Countable byte.
Proof.
  refine (inj_countable Byte.to_N Byte.of_N _). intros b. apply Byte.of_to_N.
Defined.

Definition b2z (b : byte) : Z := Z.of_N (Byte.to_N b).
Definition z2b (z : Z) : byte := default x00 (Byte.of_N (Z.to_N (z mod 256))).

Lemma b2z_range b : 0 <= b2z b < 256.
Proof. unfold b2z. pose proof (Byte.to_N_bounded b). lia. Qed.

Lemma z2b_b2z b : z2b (b2z b) = b.
Proof.
  unfold z2b. rewrite Z.mod_small by apply b2z_range. unfold b2z.
  rewrite N2Z.id. by rewrite Byte.of_to_N.
Qed.

Lemma b2z_z2b z : b2z (z2b z) = z mod 256.
Proof.
  unfold b2z, z2b. pose proof (Z.mod_pos_bound z 256).
  destruct (Byte.of_N (Z.to_N (z mod 256))) as [b|] eqn:E; simpl.
  - apply Byte.to_of_N in E. lia.
  - apply Byte.of_N_None_iff in E. lia.
Qed.

Lemma b2z_inj a b : b2z a = b2z b -> a = b.
Proof. intros E. rewrite <- (z2b_b2z a), <- (z2b_b2z b). by rewrite E. Qed.

(** [bytes.Compare]: lexicographic order. *)
Fixpoint Compare (a b : bytes) : Z :=
  match a, b with
  | [], [] => 0
  | [], _ :: _ => -1
  | _ :: _, [] => 1
  | x :: a', y :: b' =>
      if b2z x <? b2z y then -1 else if b2z y <? b2z x then 1 else Compare a' b'
  end.
Lemma Compare_eq a b : Compare a b = 0 <-> a = b.
Proof.
  revert b. induction a as [|x a IH]; intros [|y b]; simpl; try done.
  destruct (Z.ltb_spec (b2z x) (b2z y)); [split; [done|intros [= -> ->]; lia]|].
  destruct (Z.ltb_spec (b2z y) (b2z x)); [split; [done|intros [= -> ->]; lia]|].
  rewrite IH. split; [intros ->|by intros [= _ ->]]. f_equal. apply b2z_inj. lia.
Qed.

(** ** Big-endian integers of [n] bytes *)
Fixpoint be_put (n : nat) (z : Z) : bytes :=
  match n with
  | O => []
  | S n' => be_put n' (z / 256) ++ [z2b z]
  end.
Definition be_get (bs : bytes) : Z := foldl (fun acc b => acc * 256 + b2z b) 0 bs.

Lemma length_be_put n z : length (be_put n z) = n.
Proof.
  revert z. induction n as [|n IH]; intros z; simpl; [done|].
  rewrite length_app, IH. simpl. lia.
Qed.

Lemma be_get_app bs b : be_get (bs ++ [b]) = be_get bs * 256 + b2z b.
Proof. unfold be_get. by rewrite foldl_app. Qed.

Lemma be_get_concat x y : be_get (x ++ y) = be_get x * 2 ^ (8 * Z.of_nat (length y)) + be_get y.
Proof.
  induction y as [|b y IH] using rev_ind; [rewrite app_nil_r; unfold be_get; simpl; lia|].
  rewrite app_assoc, !be_get_app, IH, length_app.
  replace (8 * Z.of_nat (length y + length [b])) with (8 + 8 * Z.of_nat (length y)) by (simpl; lia).
  rewrite Z.pow_add_r by lia. lia.
Qed.

Lemma be_get_put n z : be_get (be_put n z) = z mod 2 ^ (8 * Z.of_nat n).
Proof.
  revert z. induction n as [|n IH]; intros z; [by rewrite Z.mod_1_r|].
  cbn [be_put]. rewrite be_get_app, IH, b2z_z2b.
  replace (8 * Z.of_nat (S n)) with (8 + 8 * Z.of_nat n) by lia.
  rewrite Z.pow_add_r by lia. change (2 ^ 8) with 256.
  rewrite Z.rem_mul_r by lia. lia.
Qed.

Lemma be_get_put_small n z : 0 <= z < 2 ^ (8 * Z.of_nat n) -> be_get (be_put n z) = z.
Proof. intros. rewrite be_get_put. by apply Z.mod_small. Qed.

Lemma be_get_range bs : 0 <= be_get bs < 2 ^ (8 * Z.of_nat (length bs)).
Proof.
  induction bs as [|b bs IH] using rev_ind; [unfold be_get; simpl; lia|].
  rewrite be_get_app, length_app. pose proof (b2z_range b).
  replace (8 * Z.of_nat (length bs + length [b])) with (8 + 8 * Z.of_nat (length bs)) by (simpl; lia).
  rewrite Z.pow_add_r by lia. lia.
Qed.

Lemma be_put_get n bs : length bs = n -> be_put n (be_get bs) = bs.
Proof.
  revert n. induction bs as [|b bs IH] using rev_ind; intros n <-; [done|].
  rewrite length_app. replace (length bs + length [b])%nat with (S (length bs)) by (simpl; lia).
  cbn [be_put]. rewrite be_get_app. pose proof (b2z_range b). f_equal.
  - rewrite Z.div_add_l by lia. rewrite Z.div_small, Z.add_0_r by lia. by apply IH.
  - f_equal. rewrite <- (z2b_b2z b) at 2. unfold z2b. do 3 f_equal.
    rewrite Z.add_comm, Z.mod_add by lia. done.
Qed.

(** ** [binary.LittleEndian.Uint32] *)
Definition le_get (bs : bytes) : Z := be_get (reverse bs).

(** Length arithmetic: [len] normalises the length of a byte string expression. *)
Create HintDb len.
#[export] Hint Rewrite @length_app @length_drop @length_take @length_fmap @length_replicate
  @length_reverse @length_insert length_be_put @length_cons @length_nil : len.
Ltac len := autorewrite with len; simpl; try lia.
