(* ===== verification/Slices.v ===== *)
(** * Go slices of bytes

    A slice written in place is a list changed by [copyAt]; a parser that walks down its input
    reslices it with [cut], which fails as Go panics when the input is too short. The error
    monad is [sum E], over any error type with a value for the panic. *)
From S2P Require Import Prelude Netip Bytes.

#[export] Instance sum_ret {E} : MRet (sum E) := fun A a => inr a.
#[export] Instance sum_bind {E} : MBind (sum E) :=
  fun A B k x => match x with inl e => inl e | inr a => k a end.
#[export] Instance sum_fmap {E} : FMap (sum E) :=
  fun A B f x => match x with inl e => inl e | inr a => inr (f a) end.
Ltac rstep := cbn [mbind sum_bind mret sum_ret fmap sum_fmap].

(** The value of an error type that records an index or a slice out of range. *)
Class HasPanic (E : Type) := panic : E.

(** [p[:n]] with [p = p[n:]] *)
Definition cut `{HasPanic E} (n : nat) (p : bytes) : E + bytes * bytes :=
  if (n <=? length p)%nat then inr (take n p, drop n p) else inl panic.
(** [binary.BigEndian.Uint(8n)(p)] with [p = p[n:]] *)
Definition cutUint `{HasPanic E} (n : nat) (p : bytes) : E + Z * bytes :=
  '(x, p) ← cut n p; mret (be_get x, p).

(** [copy(b[off:], src)] *)
Definition copyAt (off : nat) (src b : bytes) : bytes :=
  take off b ++ take (length b - off) src ++ drop (off + length src) b.
Definition zeros (n : nat) : bytes := replicate n x00.

(** [Addr.As16] and [netip.AddrFrom16] *)
Definition As16 (a : Addr) : bytes :=
  be_put 16 (match a with AddrZero => 0 | Addr4 a => 0xffff00000000 + a | Addr6 a _ => a end).
Definition AddrFrom16 (b : bytes) : Addr := Addr6 (be_get b) EmptyString.

Definition addr_ok (a : Addr) : Prop :=
  match a with AddrZero => True | Addr4 a => 0 <= a < 2 ^ 32 | Addr6 a _ => 0 <= a < 2 ^ 128 end.
(** The wire keeps 16 bytes of an address: no zone, IPv4 as mapped, the zero address as [::]. *)
Definition norm_addr (a : Addr) : Addr :=
  match a with AddrZero => Addr6 0 EmptyString | Addr4 a => Addr4 a | Addr6 a _ => Unmap (Addr6 a EmptyString) end.

(** ** Facts *)
#[local] Arguments be_put : simpl never.
#[local] Arguments be_get : simpl never.
#[local] Arguments As16 : simpl never.
#[local] Arguments copyAt : simpl never.
#[local] Arguments zeros : simpl never.
#[local] Arguments cut : simpl never.
#[local] Arguments cutUint : simpl never.
#[local] Arguments Unmap : simpl never.

Lemma copyAt_app pre src post off b :
  b = pre ++ zeros (length src + post) -> off = length pre ->
  copyAt off src b = (pre ++ src) ++ zeros post.
Proof.
  intros -> ->. unfold copyAt, zeros. rewrite take_app_length, <- drop_drop, drop_app_length.
  rewrite drop_replicate, (take_ge src) by len. rewrite <- app_assoc. repeat f_equal. lia.
Qed.

Lemma cut_app `{HasPanic E} n x p : length x = n -> cut n (x ++ p) = @inr E _ (x, p).
Proof.
  intros <-. unfold cut. rewrite take_app_length, drop_app_length.
  destruct (Nat.leb_spec (length x) (length (x ++ p))) as [|L]; [done|]. revert L. len.
Qed.
Lemma cut_all `{HasPanic E} n x : length x = n -> cut n x = @inr E _ (x, []).
Proof. intros. rewrite <- (app_nil_r x) at 1. by apply cut_app. Qed.
Lemma cutUint_app `{HasPanic E} n z p : 0 <= z < 2 ^ (8 * Z.of_nat n) -> cutUint n (be_put n z ++ p) = @inr E _ (z, p).
Proof.
  intros. unfold cutUint. rewrite cut_app by apply length_be_put. rstep. by rewrite be_get_put_small.
Qed.
Lemma cut_ok `{HasPanic E} n p : (n <= length p)%nat -> cut n p = @inr E _ (take n p, drop n p).
Proof. intros. unfold cut. by rewrite (proj2 (Nat.leb_le _ _)). Qed.
Lemma cutUint_ok `{HasPanic E} n p : (n <= length p)%nat -> cutUint n p = @inr E _ (be_get (take n p), drop n p).
Proof. intros. unfold cutUint. by rewrite cut_ok. Qed.

(** ** Facts: addresses *)
Lemma length_As16 a : length (As16 a) = 16%nat.
Proof. apply length_be_put. Qed.
#[export] Hint Rewrite length_As16 : len.

Lemma Unmap_mapped a : 0 <= a < 2 ^ 32 -> Unmap (Addr6 (0xffff00000000 + a) EmptyString) = Addr4 a.
Proof.
  intros Ha. unfold Unmap, Is4In6.
  assert ((0xffff00000000 + a) / 2 ^ 32 = 0xffff) as E
    by (symmetry; apply (Z.div_unique _ _ _ a); lia).
  rewrite Z.shiftr_div_pow2, E by lia. simpl. f_equal.
  change 0xffffffff with (Z.ones 32). rewrite Z.land_ones by lia.
  symmetry. apply (Z.mod_unique _ _ 0xffff); lia.
Qed.

Lemma From16_As16 a : addr_ok a -> Unmap (AddrFrom16 (As16 a)) = norm_addr a.
Proof.
  intros Ha. unfold AddrFrom16, As16. destruct a as [|a|a z]; simpl in Ha;
    rewrite be_get_put_small by (simpl Z.of_nat; lia); try done. by apply Unmap_mapped.
Qed.

Lemma copyAt_zeros pre src n off :
  off = length pre -> (length src <= n)%nat ->
  copyAt off src (pre ++ zeros n) = (pre ++ src) ++ zeros (n - length src).
Proof. intros E L. apply copyAt_app; [|done]. do 2 f_equal. lia. Qed.
(** Executes the writes of an encoder from left to right. *)
Ltac put := repeat (rewrite copyAt_zeros by len).
Lemma zeros_0 n : n = 0%nat -> zeros n = [].
Proof. by intros ->. Qed.

