(* ===== verification/Disco.v ===== *)
(** * Discovery messages (disco/disco.go)

    Every message with its marshalled form and its parser. A slice written in place is a list
    changed by [copyAt]; a parser walks down its input by [drop], as the code reslices. A
    message type whose parser ignores unknown versions yields its zero value, as in the code. *)
From Equations Require Import Equations.
From S2P Require Import Prelude Netip Bytes Slices.

(** ** Constants *)
Definition Magic : bytes := [x54; x53; xf0; x9f; x92; xac].
Definition keyLen : nat := 32.
Definition NonceLen : nat := 24.
Definition TypePing : byte := x01.
Definition TypePong : byte := x02.
Definition TypeCallMeMaybe : byte := x03.
Definition TypeBindUDPRelayEndpoint : byte := x04.
Definition TypeBindUDPRelayEndpointChallenge : byte := x05.
Definition TypeBindUDPRelayEndpointAnswer : byte := x06.
Definition TypeCallMeMaybeVia : byte := x07.
Definition TypeAllocateUDPRelayEndpointRequest : byte := x08.
Definition TypeAllocateUDPRelayEndpointResponse : byte := x09.
Definition TypeSourcePathProbe : byte := x0a.
Definition v0 : byte := x00.
Definition NodePublicRawLen : nat := 32.
Definition DiscoPublicRawLen : nat := 32.
Definition epLength : nat := 16 + 2.
Definition PingLen : nat := 12 + NodePublicRawLen.
Definition pongLen : nat := 12 + 16 + 2.
Definition bindUDPRelayEndpointCommonLen : nat := 72.
Definition BindUDPRelayChallengeLen : nat := 32.
Definition allocateUDPRelayEndpointRequestLen : nat := DiscoPublicRawLen * 2 + 4.
Definition udpRelayEndpointLenMinusAddrPorts : nat :=
  DiscoPublicRawLen + DiscoPublicRawLen * 2 + 8 + 4 + 8 + 8.

(** An index out of range panics in Go: [errPanic] records it. *)
Inductive discoErr := errShort | errUnknownType (t : byte) | errPanic.
Notation res := (sum discoErr).
#[export] Instance discoErr_panic : HasPanic discoErr := errPanic.

(** ** Messages *)
Record Ping := MkPing { pi_TxID : bytes; pi_NodeKey : bytes; pi_Padding : Z }.
Record Pong := MkDPong { po_TxID : bytes; po_Src : AddrPort }.
Record BindUDPRelayEndpointCommon := MkBindCommon {
  bc_VNI : Z; bc_Generation : Z; bc_RemoteKey : bytes; bc_Challenge : bytes
}.
Record AllocateUDPRelayEndpointRequest := MkAllocReq {
  ar_ClientDisco : bytes * bytes; ar_Generation : Z
}.
Record UDPRelayEndpoint := MkRelayEndpoint {
  re_ServerDisco : bytes;
  re_ClientDisco : bytes * bytes;
  re_LamportID : Z;
  re_VNI : Z;
  re_BindLifetime : Z;
  re_SteadyStateLifetime : Z;
  re_AddrPorts : list AddrPort
}.
Inductive Message :=
| MPing (m : Ping)
| MSourcePathProbe (m : Ping)
| MPong (m : Pong)
| MCallMeMaybe (MyNumber : list AddrPort)
| MBindUDPRelayEndpoint (m : BindUDPRelayEndpointCommon)
| MBindUDPRelayEndpointChallenge (m : BindUDPRelayEndpointCommon)
| MBindUDPRelayEndpointAnswer (m : BindUDPRelayEndpointCommon)
| MCallMeMaybeVia (m : UDPRelayEndpoint)
| MAllocateUDPRelayEndpointRequest (m : AllocateUDPRelayEndpointRequest)
| MAllocateUDPRelayEndpointResponse (Generation : Z) (m : UDPRelayEndpoint).

Definition zeroKey : bytes := zeros 32.
Definition zeroAllocReq : AllocateUDPRelayEndpointRequest := MkAllocReq (zeroKey, zeroKey) 0.
Definition zeroRelayEndpoint : UDPRelayEndpoint :=
  MkRelayEndpoint zeroKey (zeroKey, zeroKey) 0 0 0 0 [].

(** ** Marshalling *)

(** [fill] is what the caller writes into the [dataLen] bytes it gets. *)
Definition appendMsgHeader (b : bytes) (t ver : byte) (dataLen : Z) (fill : bytes -> bytes) : bytes :=
  b ++ [t; ver] ++ fill (zeros (Z.to_nat dataLen)).

Definition pingAppendMarshal (t : byte) (m : Ping) (b : bytes) : bytes :=
  let hasKey := negb (bool_decide (pi_NodeKey m = zeroKey)) in
  let dataLen := if hasKey then 12 + Z.of_nat NodePublicRawLen else 12 in
  appendMsgHeader b t v0 (dataLen + pi_Padding m) (fun d =>
    let d := copyAt 0 (pi_TxID m) d in
    if hasKey then copyAt (length (pi_TxID m)) (pi_NodeKey m) d else d).

(** The loop that writes addresses from [off] on. *)
Fixpoint putAddrPorts (off : nat) (eps : list AddrPort) (b : bytes) : bytes :=
  match eps with
  | [] => b
  | ipp :: eps' =>
      let b := copyAt off (As16 (ip ipp)) b in
      let b := copyAt (off + 16) (be_put 2 (port ipp)) b in
      putAddrPorts (off + epLength) eps' b
  end.

Definition callMeMaybeAppendMarshal (MyNumber : list AddrPort) (b : bytes) : bytes :=
  appendMsgHeader b TypeCallMeMaybe v0 (Z.of_nat (epLength * length MyNumber)) (putAddrPorts 0 MyNumber).

Definition pongAppendMarshal (m : Pong) (b : bytes) : bytes :=
  appendMsgHeader b TypePong v0 (Z.of_nat pongLen) (fun d =>
    let d := copyAt 0 (po_TxID m) d in
    let d := copyAt 12 (As16 (ip (po_Src m))) d in
    copyAt 28 (be_put 2 (port (po_Src m))) d).

Definition commonEncode (m : BindUDPRelayEndpointCommon) (b : bytes) : bytes :=
  let b := copyAt 0 (be_put 4 (bc_VNI m)) b in
  let b := copyAt 4 (be_put 4 (bc_Generation m)) b in
  let b := copyAt 8 (bc_RemoteKey m) b in
  copyAt 40 (bc_Challenge m) b.
Definition bindAppendMarshal (t : byte) (m : BindUDPRelayEndpointCommon) (b : bytes) : bytes :=
  appendMsgHeader b t v0 (Z.of_nat bindUDPRelayEndpointCommonLen) (commonEncode m).

Definition allocReqAppendMarshal (m : AllocateUDPRelayEndpointRequest) (b : bytes) : bytes :=
  appendMsgHeader b TypeAllocateUDPRelayEndpointRequest v0 (Z.of_nat allocateUDPRelayEndpointRequestLen)
    (fun p =>
      let p := copyAt 0 (ar_ClientDisco m).1 p in
      let p := copyAt 32 (ar_ClientDisco m).2 p in
      copyAt 64 (be_put 4 (ar_Generation m)) p).

(** [UDPRelayEndpoint.encode] into [b[off:]]; [uint64(d)] of a duration is its two's complement. *)
Definition relayEncode (off : nat) (m : UDPRelayEndpoint) (b : bytes) : bytes :=
  let b := copyAt off (re_ServerDisco m) b in
  let b := copyAt (off + 32) (re_ClientDisco m).1 b in
  let b := copyAt (off + 64) (re_ClientDisco m).2 b in
  let b := copyAt (off + 96) (be_put 8 (re_LamportID m)) b in
  let b := copyAt (off + 104) (be_put 4 (re_VNI m)) b in
  let b := copyAt (off + 108) (be_put 8 (uw 64 (re_BindLifetime m))) b in
  let b := copyAt (off + 116) (be_put 8 (uw 64 (re_SteadyStateLifetime m))) b in
  putAddrPorts (off + 124) (re_AddrPorts m) b.
Definition endpointsLen (m : UDPRelayEndpoint) : nat := epLength * length (re_AddrPorts m).
Definition callMeMaybeViaAppendMarshal (m : UDPRelayEndpoint) (b : bytes) : bytes :=
  appendMsgHeader b TypeCallMeMaybeVia v0
    (Z.of_nat (udpRelayEndpointLenMinusAddrPorts + endpointsLen m)) (relayEncode 0 m).
Definition allocRespAppendMarshal (gen : Z) (m : UDPRelayEndpoint) (b : bytes) : bytes :=
  appendMsgHeader b TypeAllocateUDPRelayEndpointResponse v0
    (Z.of_nat (4 + udpRelayEndpointLenMinusAddrPorts + endpointsLen m)) (fun d =>
      relayEncode 4 m (copyAt 0 (be_put 4 gen) d)).

Definition AppendMarshal (m : Message) (b : bytes) : bytes :=
  match m with
  | MPing p => pingAppendMarshal TypePing p b
  | MSourcePathProbe p => pingAppendMarshal TypeSourcePathProbe p b
  | MPong p => pongAppendMarshal p b
  | MCallMeMaybe eps => callMeMaybeAppendMarshal eps b
  | MBindUDPRelayEndpoint c => bindAppendMarshal TypeBindUDPRelayEndpoint c b
  | MBindUDPRelayEndpointChallenge c => bindAppendMarshal TypeBindUDPRelayEndpointChallenge c b
  | MBindUDPRelayEndpointAnswer c => bindAppendMarshal TypeBindUDPRelayEndpointAnswer c b
  | MCallMeMaybeVia r => callMeMaybeViaAppendMarshal r b
  | MAllocateUDPRelayEndpointRequest r => allocReqAppendMarshal r b
  | MAllocateUDPRelayEndpointResponse gen r => allocRespAppendMarshal gen r b
  end.

(** ** Parsing *)
Definition parsePing (p : bytes) : res Ping :=
  if (length p <? 12)%nat then inl errShort
  else
    let padding := Z.of_nat (length p) in
    '(TxID, p) ← cut 12 p;
    let padding := padding - 12 in
    if (NodePublicRawLen <=? length p)%nat
    then '(NodeKey, _) ← cut NodePublicRawLen p;
         mret (MkPing TxID NodeKey (padding - Z.of_nat NodePublicRawLen))
    else mret (MkPing TxID zeroKey padding).

Definition getAddrPort (p : bytes) : res AddrPort :=
  '(a, q) ← cut 16 p;
  '(pt, _) ← cutUint 2 q;
  mret (MkAddrPort (Unmap (AddrFrom16 a)) pt).
(** [for len(p) > 0 { ... p = p[epLength:] }]; a rest shorter than [epLength] is sliced out of
    range. *)
Equations? getAddrPorts (p : bytes) : res (list AddrPort) by wf (length p) lt :=
  getAddrPorts p with decide (p = []) => {
    | left _ => inr []
    | right _ with decide (epLength <= length p)%nat => {
      | right _ => inl errPanic
      | left _ =>
          x ← getAddrPort p;
          l ← getAddrPorts (drop epLength p);
          inr (x :: l) } }.
Proof. rewrite length_drop. unfold epLength in *. lia. Qed.

Definition parseCallMeMaybe (ver : byte) (p : bytes) : res (list AddrPort) :=
  if negb (length p mod epLength =? 0)%nat || negb (bool_decide (ver = v0)) || (length p =? 0)%nat
  then mret [] else getAddrPorts p.

Definition parsePong (p : bytes) : res Pong :=
  if (length p <? pongLen)%nat then inl errShort
  else
    '(TxID, p) ← cut 12 p;
    '(srcIP, p) ← cut 16 p;
    '(pt, _) ← cutUint 2 p;
    mret (MkDPong TxID (MkAddrPort (Unmap (AddrFrom16 srcIP)) pt)).

Definition commonDecode (b : bytes) : res BindUDPRelayEndpointCommon :=
  if (length b <? bindUDPRelayEndpointCommonLen)%nat then inl errShort
  else
    '(VNI, b) ← cutUint 4 b;
    '(Generation, b) ← cutUint 4 b;
    '(RemoteKey, b) ← cut DiscoPublicRawLen b;
    '(Challenge, _) ← cut BindUDPRelayChallengeLen b;
    mret (MkBindCommon VNI Generation RemoteKey Challenge).

Definition parseAllocReq (ver : byte) (p : bytes) : res AllocateUDPRelayEndpointRequest :=
  if negb (bool_decide (ver = v0)) then mret zeroAllocReq
  else if (length p <? allocateUDPRelayEndpointRequestLen)%nat then inl errShort
  else
    '(k0, p) ← cut DiscoPublicRawLen p;
    '(k1, p) ← cut DiscoPublicRawLen p;
    '(Generation, _) ← cutUint 4 p;
    mret (MkAllocReq (k0, k1) Generation).

Definition relayDecode (b : bytes) : res UDPRelayEndpoint :=
  if (length b <? udpRelayEndpointLenMinusAddrPorts + epLength)%nat
     || negb ((length b - udpRelayEndpointLenMinusAddrPorts) mod epLength =? 0)%nat
  then inl errShort
  else
    '(ServerDisco, b) ← cut DiscoPublicRawLen b;
    '(k0, b) ← cut DiscoPublicRawLen b;
    '(k1, b) ← cut DiscoPublicRawLen b;
    '(LamportID, b) ← cutUint 8 b;
    '(VNI, b) ← cutUint 4 b;
    '(BindLifetime, b) ← cutUint 8 b;
    '(SteadyStateLifetime, b) ← cutUint 8 b;
    AddrPorts ← getAddrPorts b;
    mret (MkRelayEndpoint ServerDisco (k0, k1) LamportID VNI (i64 BindLifetime)
            (i64 SteadyStateLifetime) AddrPorts).
Definition parseCallMeMaybeVia (ver : byte) (p : bytes) : res UDPRelayEndpoint :=
  if negb (bool_decide (ver = v0)) then mret zeroRelayEndpoint else relayDecode p.
Definition parseAllocResp (ver : byte) (p : bytes) : res (Z * UDPRelayEndpoint) :=
  if negb (bool_decide (ver = v0)) then mret (0, zeroRelayEndpoint)
  else if (length p <? 4)%nat then inl errShort
  else
    '(Generation, p) ← cutUint 4 p;
    m ← relayDecode p;
    mret (Generation, m).

Definition Parse (p : bytes) : res Message :=
  match p with
  | t :: ver :: p =>
      match t with
      | x01 => MPing <$> parsePing p
      | x02 => MPong <$> parsePong p
      | x03 => MCallMeMaybe <$> parseCallMeMaybe ver p
      | x04 => MBindUDPRelayEndpoint <$> commonDecode p
      | x05 => MBindUDPRelayEndpointChallenge <$> commonDecode p
      | x06 => MBindUDPRelayEndpointAnswer <$> commonDecode p
      | x07 => MCallMeMaybeVia <$> parseCallMeMaybeVia ver p
      | x08 => MAllocateUDPRelayEndpointRequest <$> parseAllocReq ver p
      | x09 => (fun '(g, m) => MAllocateUDPRelayEndpointResponse g m) <$> parseAllocResp ver p
      | x0a => MSourcePathProbe <$> parsePing p
      | _ => inl (errUnknownType t)
      end
  | _ => inl errShort
  end.

(** ** The wrapper *)
Definition LooksLikeDiscoWrapper (p : bytes) : bool :=
  if (length p <? length Magic + keyLen + NonceLen)%nat then false
  else bool_decide (take (length Magic) p = Magic).
Definition Source (p : bytes) : option bytes :=
  if LooksLikeDiscoWrapper p then Some (take keyLen (drop (length Magic) p)) else None.

(** ** What a receiver gets *)

(** The values a Go program can hold. *)
Definition addrport_ok (p : AddrPort) : Prop := addr_ok (ip p) /\ 0 <= port p < 2 ^ 16.
Definition ping_ok (m : Ping) : Prop :=
  length (pi_TxID m) = 12%nat /\ length (pi_NodeKey m) = 32%nat /\ 0 <= pi_Padding m.
Definition pong_ok (m : Pong) : Prop := length (po_TxID m) = 12%nat /\ addrport_ok (po_Src m).
Definition common_ok (m : BindUDPRelayEndpointCommon) : Prop :=
  0 <= bc_VNI m < 2 ^ 32 /\ 0 <= bc_Generation m < 2 ^ 32
  /\ length (bc_RemoteKey m) = 32%nat /\ length (bc_Challenge m) = 32%nat.

Definition relay_ok (m : UDPRelayEndpoint) : Prop :=
  length (re_ServerDisco m) = 32%nat /\ length (re_ClientDisco m).1 = 32%nat
  /\ length (re_ClientDisco m).2 = 32%nat /\ 0 <= re_LamportID m < 2 ^ 64
  /\ 0 <= re_VNI m < 2 ^ 32 /\ in64 (re_BindLifetime m) /\ in64 (re_SteadyStateLifetime m)
  /\ Forall addrport_ok (re_AddrPorts m).
Definition msg_ok (m : Message) : Prop :=
  match m with
  | MPing p | MSourcePathProbe p => ping_ok p
  | MPong p => pong_ok p
  | MCallMeMaybe eps => Forall addrport_ok eps
  | MBindUDPRelayEndpoint c | MBindUDPRelayEndpointChallenge c
  | MBindUDPRelayEndpointAnswer c => common_ok c
  | MCallMeMaybeVia r => relay_ok r
  | MAllocateUDPRelayEndpointRequest r =>
      length (ar_ClientDisco r).1 = 32%nat /\ length (ar_ClientDisco r).2 = 32%nat
      /\ 0 <= ar_Generation r < 2 ^ 32
  | MAllocateUDPRelayEndpointResponse g r => 0 <= g < 2 ^ 32 /\ relay_ok r
  end.

Definition norm_addrport (p : AddrPort) : AddrPort := MkAddrPort (norm_addr (ip p)) (port p).
(** Without a key, padding of 32 bytes or more is read as the (zero) key. *)
Definition norm_ping (m : Ping) : Ping :=
  if bool_decide (pi_NodeKey m = zeroKey) && (32 <=? pi_Padding m)
  then MkPing (pi_TxID m) (pi_NodeKey m) (pi_Padding m - 32) else m.
Definition norm_relay (m : UDPRelayEndpoint) : res UDPRelayEndpoint :=
  if bool_decide (re_AddrPorts m = []) then inl errShort
  else inr (MkRelayEndpoint (re_ServerDisco m) (re_ClientDisco m) (re_LamportID m) (re_VNI m)
              (re_BindLifetime m) (re_SteadyStateLifetime m) (norm_addrport <$> re_AddrPorts m)).
Definition received (m : Message) : res Message :=
  match m with
  | MPing p => inr (MPing (norm_ping p))
  | MSourcePathProbe p => inr (MSourcePathProbe (norm_ping p))
  | MPong p => inr (MPong (MkDPong (po_TxID p) (norm_addrport (po_Src p))))
  | MCallMeMaybe eps => inr (MCallMeMaybe (norm_addrport <$> eps))
  | MCallMeMaybeVia r => MCallMeMaybeVia <$> norm_relay r
  | MAllocateUDPRelayEndpointResponse g r => MAllocateUDPRelayEndpointResponse g <$> norm_relay r
  | _ => inr m
  end.

(** The inputs refused as too short. *)
Definition relay_short (n : nat) : bool :=
  (n <? udpRelayEndpointLenMinusAddrPorts + epLength)%nat
  || negb ((n - udpRelayEndpointLenMinusAddrPorts) mod epLength =? 0)%nat.
Definition too_short (p : bytes) : bool :=
  match p with
  | t :: ver :: p =>
      let n := length p in
      match t with
      | x01 | x0a => (n <? 12)%nat
      | x02 => (n <? pongLen)%nat
      | x04 | x05 | x06 => (n <? bindUDPRelayEndpointCommonLen)%nat
      | x07 => bool_decide (ver = v0) && relay_short n
      | x08 => bool_decide (ver = v0) && (n <? allocateUDPRelayEndpointRequestLen)%nat
      | x09 => bool_decide (ver = v0) && ((n <? 4)%nat || relay_short (n - 4))
      | _ => false
      end
  | _ => true
  end.
Definition known_type (t : byte) : bool := (1 <=? b2z t) && (b2z t <=? 10).

(** ** Facts: addresses *)
#[local] Arguments be_put : simpl never.
#[local] Arguments be_get : simpl never.
#[local] Arguments As16 : simpl never.
#[local] Arguments copyAt : simpl never.
#[local] Arguments zeros : simpl never.
#[local] Arguments cut : simpl never.
#[local] Arguments cutUint : simpl never.
#[local] Arguments Unmap : simpl never.
(** The bytes of a list of addresses. *)
Definition ep_bytes (p : AddrPort) : bytes := As16 (ip p) ++ be_put 2 (port p).
Definition eps_bytes (eps : list AddrPort) : bytes := concat (ep_bytes <$> eps).
Lemma length_ep_bytes p : length (ep_bytes p) = epLength.
Proof. unfold ep_bytes, epLength. rewrite length_app, length_As16, length_be_put. done. Qed.
Lemma length_eps_bytes eps : length (eps_bytes eps) = (epLength * length eps)%nat.
Proof.
  induction eps as [|p eps IH]; [done|]. unfold eps_bytes in *. cbn [fmap list_fmap concat].
  rewrite length_app, IH, length_ep_bytes. simpl length. lia.
Qed.

Lemma putAddrPorts_app eps pre off b :
  b = pre ++ zeros (epLength * length eps) -> off = length pre ->
  putAddrPorts off eps b = pre ++ eps_bytes eps.
Proof.
  revert pre off b. induction eps as [|p eps IH]; intros pre off b -> ->; [done|].
  cbn [putAddrPorts]. rewrite (copyAt_app pre (As16 (ip p)) (2 + epLength * length eps)).
  2: f_equal; f_equal; rewrite length_As16; cbn [length]; unfold epLength; lia. 2: done.
  rewrite (copyAt_app (pre ++ As16 (ip p)) _ (epLength * length eps)).
  2: by rewrite length_be_put. 2: len.
  rewrite (IH ((pre ++ As16 (ip p)) ++ be_put 2 (port p))); [|done|unfold epLength; len].
  unfold eps_bytes, ep_bytes. simpl. by rewrite <- !app_assoc.
Qed.

Lemma getAddrPort_app p rest :
  addrport_ok p -> getAddrPort (ep_bytes p ++ rest) = inr (norm_addrport p).
Proof.
  intros [Ha Hp]. unfold getAddrPort, ep_bytes. rewrite <- app_assoc.
  rewrite cut_app by len. rstep. rewrite cutUint_app by (simpl Z.of_nat; lia). rstep.
  unfold norm_addrport. by rewrite From16_As16.
Qed.
Lemma getAddrPorts_nil : getAddrPorts [] = inr [].
Proof. by simp getAddrPorts. Qed.
Lemma getAddrPorts_step p :
  (epLength <= length p)%nat ->
  getAddrPorts p = (x ← getAddrPort p; l ← getAddrPorts (drop epLength p); inr (x :: l)).
Proof.
  intros L. rewrite getAddrPorts_equation_1.
  destruct (decide (p = [])) as [->|E]; [unfold epLength in L; simpl in L; lia|].
  cbn [getAddrPorts_unfold_clause_1].
  by destruct (decide (epLength <= length p)%nat); [|exfalso].
Qed.

Lemma getAddrPorts_bytes eps :
  Forall addrport_ok eps -> getAddrPorts (eps_bytes eps) = inr (norm_addrport <$> eps).
Proof.
  induction 1 as [|p eps Hp _ IH]; [apply getAddrPorts_nil|].
  change (eps_bytes (p :: eps)) with (ep_bytes p ++ eps_bytes eps).
  rewrite getAddrPorts_step, getAddrPort_app by (done || (rewrite length_app, length_ep_bytes; lia)).
  rstep. rewrite drop_app_length' by by rewrite length_ep_bytes. by rewrite IH.
Qed.
(** On a whole number of records the loop never slices out of range. *)
Lemma getAddrPorts_whole n p :
  length p = (epLength * n)%nat -> exists eps, getAddrPorts p = inr eps /\ length eps = n.
Proof.
  revert p. induction n as [|n IH]; intros p L.
  { assert (p = []) as -> by (apply nil_length_inv; lia). exists []. split; [apply getAddrPorts_nil|done]. }
  destruct (IH (drop epLength p)) as (l & El & Hl); [rewrite length_drop; lia|].
  rewrite getAddrPorts_step by lia. unfold getAddrPort, epLength in *.
  rewrite cut_ok by lia. rstep. rewrite cutUint_ok by (rewrite length_drop; lia). rstep.
  rewrite El. eexists. split; [done|]. simpl. by rewrite Hl.
Qed.

(** ** Facts: layouts *)
(** Parses the header of a marshalled message. *)
Ltac hdr :=
  rewrite ?app_nil_l;
  match goal with
  | |- context [Parse ([?t; ?v] ++ ?d)] =>
      let t' := eval cbv in t in
      change (Parse ([t; v] ++ d)) with (Parse (t' :: v :: d)); cbn [Parse]
  end.
Lemma commonEncode_layout m :
  common_ok m ->
  commonEncode m (zeros bindUDPRelayEndpointCommonLen)
  = be_put 4 (bc_VNI m) ++ be_put 4 (bc_Generation m) ++ bc_RemoteKey m ++ bc_Challenge m.
Proof.
  intros (_ & _ & L1 & L2). unfold commonEncode, bindUDPRelayEndpointCommonLen.
  change (zeros 72) with ([] ++ zeros 72). put.
  rewrite zeros_0, app_nil_r by len. by rewrite app_nil_l, <- !app_assoc.
Qed.
Lemma commonDecode_Encode m :
  common_ok m -> commonDecode (commonEncode m (zeros bindUDPRelayEndpointCommonLen)) = inr m.
Proof.
  intros Hm. rewrite commonEncode_layout by done. destruct Hm as (H1 & H2 & L1 & L2).
  unfold commonDecode, DiscoPublicRawLen, BindUDPRelayChallengeLen.
  rewrite (proj2 (Nat.ltb_ge _ _)) by (unfold bindUDPRelayEndpointCommonLen; len).
  rewrite !cutUint_app by (simpl Z.of_nat; lia). rstep.
  rewrite !cutUint_app by (simpl Z.of_nat; lia). rstep.
  rewrite cut_app by done. rstep. rewrite cut_all by done. by destruct m.
Qed.

Lemma allocReq_roundtrip m :
  msg_ok (MAllocateUDPRelayEndpointRequest m) ->
  Parse (allocReqAppendMarshal m []) = inr (MAllocateUDPRelayEndpointRequest m).
Proof.
  intros (L1 & L2 & Hg). unfold allocReqAppendMarshal, appendMsgHeader.
  rewrite Nat2Z.id. change (zeros allocateUDPRelayEndpointRequestLen) with ([] ++ zeros 68). put.
  rewrite zeros_0, app_nil_r by len. rewrite app_nil_l, <- !app_assoc. hdr.
  unfold parseAllocReq. rewrite bool_decide_true by done. cbn [negb].
  rewrite (proj2 (Nat.ltb_ge _ _)) by (unfold allocateUDPRelayEndpointRequestLen, DiscoPublicRawLen; len).
  unfold DiscoPublicRawLen. rewrite cut_app by done. rstep. rewrite cut_app by done. rstep.
  rewrite <- (app_nil_r (be_put 4 _)), cutUint_app by (simpl Z.of_nat; lia). rstep.
  by destruct m as [[]].
Qed.

Lemma pong_roundtrip m :
  pong_ok m -> Parse (pongAppendMarshal m []) = received (MPong m).
Proof.
  intros (L & Ha & Hp). unfold pongAppendMarshal, appendMsgHeader.
  rewrite Nat2Z.id. change (zeros pongLen) with ([] ++ zeros 30). put.
  rewrite zeros_0, app_nil_r by len. rewrite app_nil_l, <- !app_assoc. hdr.
  unfold parsePong. rewrite (proj2 (Nat.ltb_ge _ _)) by (unfold pongLen; len).
  rewrite cut_app by done. rstep. rewrite cut_app by apply length_As16. rstep.
  rewrite <- (app_nil_r (be_put 2 _)), cutUint_app by (simpl Z.of_nat; lia). rstep.
  by rewrite From16_As16.
Qed.

Lemma ping_body t m :
  ping_ok m ->
  let d := Z.to_nat (pi_Padding m) in
  pingAppendMarshal t m []
  = [t; v0] ++ (pi_TxID m ++ (if bool_decide (pi_NodeKey m = zeroKey) then [] else pi_NodeKey m)) ++ zeros d.
Proof.
  intros (L1 & L2 & Hp) d. unfold pingAppendMarshal, appendMsgHeader.
  rewrite app_nil_l. f_equal. rewrite L1. case_bool_decide as E; cbn [negb].
  - rewrite <- (app_nil_l (zeros _)), copyAt_zeros by (len || (rewrite L1; lia)).
    rewrite app_nil_l, app_nil_r, L1. do 2 f_equal. subst d. lia.
  - rewrite <- (app_nil_l (zeros _)), copyAt_zeros by (len || (rewrite L1; lia)).
    rewrite copyAt_zeros by (rewrite ?app_nil_l, ?L1, ?L2; unfold NodePublicRawLen; lia).
    rewrite app_nil_l, L1, L2. do 2 f_equal. subst d. unfold NodePublicRawLen. lia.
Qed.
Lemma parsePing_body m :
  ping_ok m ->
  parsePing ((pi_TxID m ++ (if bool_decide (pi_NodeKey m = zeroKey) then [] else pi_NodeKey m))
             ++ zeros (Z.to_nat (pi_Padding m))) = inr (norm_ping m).
Proof.
  intros (L1 & L2 & Hp). unfold parsePing, norm_ping, NodePublicRawLen. rewrite <- app_assoc.
  rewrite (proj2 (Nat.ltb_ge _ _)) by (rewrite length_app; lia).
  rewrite cut_app by done. rstep. unfold zeros.
  case_bool_decide as E; rewrite ?app_nil_l, !length_app, ?length_replicate, L1, ?L2; cbn [andb].
  - destruct (Nat.leb_spec 32 (Z.to_nat (pi_Padding m))), (Z.leb_spec 32 (pi_Padding m)); try lia.
    + rewrite cut_ok by (rewrite length_replicate; lia). rstep. rewrite take_replicate, Nat.min_l, E by lia.
      do 2 f_equal. lia.
    + rstep. rewrite <- E. destruct m as [x y z]. cbn in *. do 2 f_equal. lia.
  - rewrite (proj2 (Nat.leb_le _ _)) by lia. rewrite cut_app by done. rstep.
    destruct m as [x y z]. cbn [pi_TxID pi_NodeKey pi_Padding] in *. do 2 f_equal. lia.
Qed.

Lemma callMeMaybe_roundtrip eps :
  Forall addrport_ok eps -> Parse (callMeMaybeAppendMarshal eps []) = received (MCallMeMaybe eps).
Proof.
  intros Hf. unfold callMeMaybeAppendMarshal, appendMsgHeader. rewrite Nat2Z.id.
  rewrite (putAddrPorts_app eps []) by done. hdr. unfold parseCallMeMaybe.
  rewrite length_eps_bytes, bool_decide_true by done.
  rewrite Nat.mul_comm, Nat.Div0.mod_mul. cbn [Nat.eqb negb orb].
  destruct eps as [|p eps]; [done|]. rewrite (proj2 (Nat.eqb_neq _ _)) by (simpl length; unfold epLength; lia).
  by rewrite getAddrPorts_bytes.
Qed.

Definition relay_head (m : UDPRelayEndpoint) : bytes :=
  re_ServerDisco m ++ (re_ClientDisco m).1 ++ (re_ClientDisco m).2 ++ be_put 8 (re_LamportID m)
  ++ be_put 4 (re_VNI m) ++ be_put 8 (uw 64 (re_BindLifetime m))
  ++ be_put 8 (uw 64 (re_SteadyStateLifetime m)).
Lemma length_relay_head m :
  relay_ok m -> length (relay_head m) = udpRelayEndpointLenMinusAddrPorts.
Proof.
  intros (L0 & L1 & L2 & _). unfold relay_head.
  rewrite !length_app, !length_be_put, L0, L1, L2. done.
Qed.

Lemma relayEncode_layout off m pre :
  relay_ok m -> off = length pre ->
  relayEncode off m (pre ++ zeros (udpRelayEndpointLenMinusAddrPorts + endpointsLen m))
  = pre ++ relay_head m ++ eps_bytes (re_AddrPorts m).
Proof.
  intros (L0 & L1 & L2 & _) ->. unfold relayEncode.
  change (udpRelayEndpointLenMinusAddrPorts + endpointsLen m)%nat with (124 + endpointsLen m)%nat.
  put. erewrite putAddrPorts_app; [|do 2 f_equal|].
  - unfold relay_head. by rewrite <- !app_assoc.
  - unfold endpointsLen. rewrite !length_be_put, L0, L1, L2. lia.
  - rewrite !length_app, !length_be_put, L0, L1, L2. lia.
Qed.

Lemma i64_uw d : in64 d -> i64 (uw 64 d) = d.
Proof.
  intros Hd. unfold i64, uw. rewrite Zplus_mod_idemp_l. by apply i64_small.
Qed.

Lemma relayDecode_bytes m :
  relay_ok m -> relayDecode (relay_head m ++ eps_bytes (re_AddrPorts m)) = norm_relay m.
Proof.
  intros Hm. pose proof (length_relay_head m Hm) as LH.
  destruct Hm as (L0 & L1 & L2 & HL & HV & HB & HS & Hf). unfold relayDecode, norm_relay.
  rewrite length_app, LH, length_eps_bytes. case_bool_decide as E.
  { rewrite E. done. }
  rewrite (proj2 (Nat.ltb_ge _ _))
    by (destruct (re_AddrPorts m); [done|simpl length; unfold epLength; lia]).
  rewrite Nat.add_comm, Nat.add_sub, Nat.mul_comm, Nat.Div0.mod_mul. cbn [Nat.eqb negb orb].
  pose proof (uw_range 64 (re_BindLifetime m)). pose proof (uw_range 64 (re_SteadyStateLifetime m)).
  unfold relay_head, DiscoPublicRawLen. rewrite <- !app_assoc.
  do 3 (rewrite cut_app by done; rstep).
  do 4 (rewrite cutUint_app by (simpl Z.of_nat; lia); rstep).
  rewrite getAddrPorts_bytes by done. rstep.
  rewrite !i64_uw by done. by destruct m as [? []].
Qed.

Lemma callMeMaybeVia_roundtrip m :
  relay_ok m -> Parse (callMeMaybeViaAppendMarshal m []) = received (MCallMeMaybeVia m).
Proof.
  intros Hm. unfold callMeMaybeViaAppendMarshal, appendMsgHeader. rewrite Nat2Z.id.
  rewrite <- (app_nil_l (zeros _)), relayEncode_layout by done. hdr.
  unfold parseCallMeMaybeVia. rewrite bool_decide_true by done. cbn [negb].
  by rewrite relayDecode_bytes.
Qed.
Lemma allocResp_roundtrip g m :
  0 <= g < 2 ^ 32 -> relay_ok m ->
  Parse (allocRespAppendMarshal g m []) = received (MAllocateUDPRelayEndpointResponse g m).
Proof.
  intros Hg Hm. unfold allocRespAppendMarshal, appendMsgHeader. rewrite Nat2Z.id.
  rewrite <- (app_nil_l (zeros _)), copyAt_zeros by len. rewrite length_be_put.
  replace (4 + udpRelayEndpointLenMinusAddrPorts + endpointsLen m - 4)%nat
    with (udpRelayEndpointLenMinusAddrPorts + endpointsLen m)%nat by lia.
  rewrite relayEncode_layout by (done || len). hdr.
  unfold parseAllocResp. rewrite bool_decide_true by done. cbn [negb].
  rewrite (proj2 (Nat.ltb_ge _ _)) by len.
  rewrite cutUint_app by (simpl Z.of_nat; lia). rstep. rewrite relayDecode_bytes by done.
  cbn [received]. by destruct (norm_relay m).
Qed.

Lemma bind_roundtrip t m :
  common_ok m ->
  Parse (bindAppendMarshal t m [])
  = Parse (t :: v0 :: commonEncode m (zeros bindUDPRelayEndpointCommonLen)).
Proof. intros. unfold bindAppendMarshal, appendMsgHeader. by rewrite Nat2Z.id. Qed.
Lemma ping_roundtrip m :
  ping_ok m -> Parse (pingAppendMarshal TypePing m []) = received (MPing m)
               /\ Parse (pingAppendMarshal TypeSourcePathProbe m []) = received (MSourcePathProbe m).
Proof. intros Hm. split; rewrite ping_body by done; hdr; by rewrite parsePing_body. Qed.

Lemma AppendMarshal_app m b : AppendMarshal m b = b ++ AppendMarshal m [].
Proof. by destruct m. Qed.
Lemma Parse_AppendMarshal m : msg_ok m -> Parse (AppendMarshal m []) = received m.
Proof.
  intros Hm. destruct m; cbn [AppendMarshal]; cbn [msg_ok] in Hm.
  - by apply ping_roundtrip.
  - by apply ping_roundtrip.
  - by apply pong_roundtrip.
  - by apply callMeMaybe_roundtrip.
  - rewrite bind_roundtrip by done. cbn [Parse TypeBindUDPRelayEndpoint]. by rewrite commonDecode_Encode.
  - rewrite bind_roundtrip by done. cbn [Parse TypeBindUDPRelayEndpointChallenge]. by rewrite commonDecode_Encode.
  - rewrite bind_roundtrip by done. cbn [Parse TypeBindUDPRelayEndpointAnswer]. by rewrite commonDecode_Encode.
  - by apply callMeMaybeVia_roundtrip.
  - by apply allocReq_roundtrip.
  - destruct Hm. by apply allocResp_roundtrip.
Qed.

(** ** Facts: what is refused *)

(** [fails_iff s r]: [r] is [errShort] when [s] holds and a value otherwise. *)
Definition fails_iff {A} (s : bool) (r : res A) : Prop :=
  if s then r = inl errShort else exists a, r = inr a.
Lemma fails_iff_fmap {A B} (f : A -> B) s r : fails_iff s r -> fails_iff s (f <$> r).
Proof. destruct s; [intros ->; done|intros [a ->]; by eexists]. Qed.

Ltac cuts :=
  repeat (first [rewrite cut_ok by len | rewrite cutUint_ok by len]; rstep).
Lemma parsePing_fails p : fails_iff (length p <? 12)%nat (parsePing p).
Proof.
  unfold parsePing. destruct (Nat.ltb_spec (length p) 12); [done|]. cbn [fails_iff]. cuts.
  destruct (Nat.leb_spec NodePublicRawLen (length (drop 12 p))); [|by eexists].
  rewrite cut_ok by done. by eexists.
Qed.
Lemma parsePong_fails p : fails_iff (length p <? pongLen)%nat (parsePong p).
Proof.
  unfold parsePong, pongLen. destruct (Nat.ltb_spec (length p) (12 + 16 + 2)); [done|].
  cbn [fails_iff]. cuts. by eexists.
Qed.
Lemma commonDecode_fails p : fails_iff (length p <? bindUDPRelayEndpointCommonLen)%nat (commonDecode p).
Proof.
  unfold commonDecode, bindUDPRelayEndpointCommonLen, DiscoPublicRawLen, BindUDPRelayChallengeLen.
  destruct (Nat.ltb_spec (length p) 72); [done|]. cbn [fails_iff]. cuts. by eexists.
Qed.
Lemma parseAllocReq_fails ver p :
  fails_iff (bool_decide (ver = v0) && (length p <? allocateUDPRelayEndpointRequestLen)%nat) (parseAllocReq ver p).
Proof.
  unfold parseAllocReq, allocateUDPRelayEndpointRequestLen, DiscoPublicRawLen.
  case_bool_decide; cbn [andb negb]; [|by eexists].
  destruct (Nat.ltb_spec (length p) (32 * 2 + 4)); [done|]. cbn [fails_iff]. cuts. by eexists.
Qed.
Lemma relayDecode_fails p : fails_iff (relay_short (length p)) (relayDecode p).
Proof.
  unfold relayDecode, relay_short. destruct (_ || _) eqn:E; [done|]. cbn [fails_iff].
  apply orb_false_iff in E as [L%Nat.ltb_ge M%negb_false_iff%Nat.eqb_eq].
  change udpRelayEndpointLenMinusAddrPorts with 124%nat in *. unfold DiscoPublicRawLen.
  assert (124 <= length p)%nat by (unfold epLength in L; lia). cuts.
  apply Nat.Div0.mod_divides in M as [n M].
  match goal with |- context [getAddrPorts ?q] => destruct (getAddrPorts_whole n q) as (eps & -> & _) end.
  { rewrite !length_drop. lia. }
  rstep. by eexists.
Qed.
Lemma parseCallMeMaybe_ok ver p : exists eps, parseCallMeMaybe ver p = inr eps.
Proof.
  unfold parseCallMeMaybe. destruct (_ || _) eqn:E; [by eexists|].
  apply orb_false_iff in E as [[M%negb_false_iff%Nat.eqb_eq _]%orb_false_iff _].
  apply Nat.Div0.mod_divides in M as [n M]. destruct (getAddrPorts_whole n p M) as (eps & -> & _). by eexists.
Qed.
Lemma parseCallMeMaybeVia_fails ver p :
  fails_iff (bool_decide (ver = v0) && relay_short (length p)) (parseCallMeMaybeVia ver p).
Proof.
  unfold parseCallMeMaybeVia. case_bool_decide; cbn [andb negb]; [apply relayDecode_fails|by eexists].
Qed.
Lemma parseAllocResp_fails ver p :
  fails_iff (bool_decide (ver = v0) && ((length p <? 4)%nat || relay_short (length p - 4))) (parseAllocResp ver p).
Proof.
  unfold parseAllocResp. case_bool_decide; cbn [andb negb]; [|by eexists].
  destruct (Nat.ltb_spec (length p) 4); [done|]. cbn [orb]. cuts.
  pose proof (relayDecode_fails (drop 4 p)) as F. rewrite length_drop in F. unfold fails_iff in *.
  destruct (relay_short _); [by rewrite F|]. destruct F as [m ->]. rstep. by eexists.
Qed.
#[local] Hint Resolve fails_iff_fmap parsePing_fails parsePong_fails commonDecode_fails
  parseAllocReq_fails parseCallMeMaybeVia_fails parseAllocResp_fails : disco.

Lemma Parse_fails t ver p :
  known_type t = true -> fails_iff (too_short (t :: ver :: p)) (Parse (t :: ver :: p)).
Proof.
  destruct t; intros K; try (vm_compute in K; done); clear K; cbn [too_short Parse]; eauto with disco.
  destruct (parseCallMeMaybe_ok ver p) as [eps ->]. by eexists.
Qed.
Lemma Parse_unknown t ver p :
  known_type t = false -> Parse (t :: ver :: p) = inl (errUnknownType t) /\ too_short (t :: ver :: p) = false.
Proof. destruct t; intros K; first [vm_compute in K; done | done]. Qed.

(** [C32] Marshalling appends to its buffer, and parsing what was marshalled gives the message
    back: an address without its zone, unmapped, the zero address as [::]; a ping without a node
    key loses 32 of its padding once that is at least 32; a relay endpoint without addresses is
    the only message its own parser refuses. *)
Theorem disco_roundtrip m b :
  msg_ok m ->
  AppendMarshal m b = b ++ AppendMarshal m [] /\ Parse (AppendMarshal m []) = received m.
Proof. intros Hm. split; [apply AppendMarshal_app|by apply Parse_AppendMarshal]. Qed.
Definition ex_relayEndpoint : UDPRelayEndpoint :=
  MkRelayEndpoint (replicate 32 x01) (replicate 32 x02, replicate 32 x03) 7 9 (-1) 300
    [MkAddrPort (Addr4 0x01020304) 443; MkAddrPort (Addr6 1 "eth0") 9].
Lemma disco_roundtrip_witness :
  Parse (AppendMarshal (MAllocateUDPRelayEndpointResponse 5 ex_relayEndpoint) [])
  = inr (MAllocateUDPRelayEndpointResponse 5
      (MkRelayEndpoint (replicate 32 x01) (replicate 32 x02, replicate 32 x03) 7 9 (-1) 300
         [MkAddrPort (Addr4 0x01020304) 443; MkAddrPort (Addr6 1 "") 9])).
Proof.
  apply (disco_roundtrip (MAllocateUDPRelayEndpointResponse 5 ex_relayEndpoint) []).
  unfold msg_ok, relay_ok, in64, ex_relayEndpoint, addrport_ok, addr_ok.
  split_and!; try done; try lia. cbn [re_AddrPorts]. rewrite !Forall_cons, Forall_nil.
  cbn [ip port]. lia.
Defined.

(** Parsing is total on every byte string: no slice expression of any parser is out of
    range, the input is refused as short exactly when it is shorter than its type needs (or, for a
    relay endpoint, not a whole number of addresses), and as unknown exactly when its first byte
    names no message type. *)
Theorem parse_errors_exact p :
  Parse p <> inl errPanic
  /\ (Parse p = inl errShort <-> too_short p = true)
  /\ (forall t, Parse p = inl (errUnknownType t)
      <-> (2 <= length p)%nat /\ head p = Some t /\ known_type t = false).
Proof.
  destruct p as [|t [|ver p]].
  1,2: repeat split; try done; intros; simpl in *; destruct_and?; try done; lia.
  destruct (known_type t) eqn:K.
  - pose proof (Parse_fails t ver p K) as F. unfold fails_iff in F.
    destruct (too_short _); [rewrite F|destruct F as [m ->]];
      repeat split; try done; intros (_ & [= <-] & N); congruence.
  - destruct (Parse_unknown t ver p K) as [-> ->]. repeat split; try done.
    + simpl. lia.
    + simpl. congruence.
    + congruence.
    + by intros (_ & [= <-] & _).
Qed.
