(* ===== verification/Stun.v ===== *)
(** * STUN (net/stun/stun.go)

    Binding requests and responses: generation, parsing, and that each parser gives back what
    the generator was given. The closure that [foreachAttr] calls is a function on the variables
    it captures; an error drops them, as its callers do. *)
From Equations Require Import Equations.
From S2P Require Import Prelude Netip Bytes Slices.

Module Stun.

Definition attrNumSoftware : Z := 0x8022.
Definition attrNumFingerprint : Z := 0x8028.
Definition attrMappedAddress : Z := 0x0001.
Definition attrXorMappedAddress : Z := 0x0020.
Definition attrXorMappedAddressAlt : Z := 0x8020.
(** "tailnode" *)
Definition software : bytes := [x74; x61; x69; x6c; x6e; x6f; x64; x65].
Definition bindingRequest : bytes := [x00; x01].
Definition magicCookie : bytes := [x21; x12; xa4; x42].
Definition lenFingerprint : nat := 8.
Definition headerLen : nat := 20.

Inductive stunErr :=
| ErrNotSTUN | ErrNotSuccessResponse | ErrMalformedAttrs | ErrNotBindingRequest
| ErrWrongSoftware | ErrNoFingerprint | ErrWrongFingerprint | stunPanic.
#[export] Instance stunErr_panic : HasPanic stunErr := stunPanic.

(** [b[i]]: read under a guard on the length. *)
Definition byteAt (b : bytes) (i : nat) : byte := default x00 (b !! i).
Definition bxor (a b : byte) : byte := z2b (Z.lxor (b2z a) (b2z b)).

(** ** [crc32.ChecksumIEEE], reflected, one bit at a time *)
Definition crcBit (c : Z) : Z :=
  if Z.testbit c 0 then Z.lxor (Z.shiftr c 1) 0xedb88320 else Z.shiftr c 1.
Definition crcByte (c : Z) (b : byte) : Z := Nat.iter 8 crcBit (Z.lxor c (b2z b)).
Definition ChecksumIEEE (b : bytes) : Z := Z.lxor (foldl crcByte 0xffffffff b) 0xffffffff.
Definition fingerPrint (b : bytes) : Z := Z.lxor (ChecksumIEEE b) 0x5354554e.

Definition appendU16 (b : bytes) (v : Z) : bytes := b ++ [z2b (Z.shiftr v 8); z2b v].
Definition appendU32 (b : bytes) (v : Z) : bytes :=
  b ++ [z2b (Z.shiftr v 24); z2b (Z.shiftr v 16); z2b (Z.shiftr v 8); z2b v].

(** ** [Request] *)
Definition Request (tID : bytes) : bytes :=
  let lenAttrSoftware := 4 + Z.of_nat (length software) in
  let b := [] ++ bindingRequest in
  let b := appendU16 b (lenAttrSoftware + Z.of_nat lenFingerprint) in
  let b := b ++ magicCookie in
  let b := b ++ tID in
  let b := appendU16 b attrNumSoftware in
  let b := appendU16 b (Z.of_nat (length software)) in
  let b := b ++ software in
  let fp := fingerPrint b in
  let b := appendU16 b attrNumFingerprint in
  let b := appendU16 b 4 in
  appendU32 b fp.

Definition Is (b : bytes) : bool :=
  (headerLen <=? length b)%nat && (Z.land (b2z (byteAt b 0)) 0xc0 =? 0)
  && bool_decide (take 4 (drop 4 b) = magicCookie).

(** ** [foreachAttr] *)
Definition attrType (b : bytes) : Z := be_get (take 2 b).
Definition attrLen (b : bytes) : Z := be_get (take 2 (drop 2 b)).
(** [(attrLen + 3) &^ 3] *)
Definition attrLenWithPad (b : bytes) : Z := Z.ldiff (attrLen b + 3) 3.
Equations? foreachAttr {S} (fn : S -> Z -> bytes -> stunErr + S) (b : bytes) (st : S) : stunErr + S
  by wf (length b) lt :=
  foreachAttr fn b st with decide (b = []) => {
    | left _ => inr st
    | right _ with decide (length b < 4)%nat => {
      | left _ => inl ErrMalformedAttrs
      | right _ with decide (attrLenWithPad b > Z.of_nat (length (drop 4 b))) => {
        | left _ => inl ErrMalformedAttrs
        | right _ with fn st (attrType b) (take (Z.to_nat (attrLen b)) (drop 4 b)) => {
          | inl e => inl e
          | inr st' => foreachAttr fn (drop (Z.to_nat (attrLenWithPad b)) (drop 4 b)) st' } } } }.
Proof. rewrite !length_drop. lia. Qed.

(** ** [ParseBindingRequest] *)
Record bindingVars := MkBindingVars { softwareOK : bool; lastAttr : Z; gotFP : Z }.
Definition bindingAttr (v : bindingVars) (attrType : Z) (a : bytes) : stunErr + bindingVars :=
  let v := MkBindingVars (softwareOK v) attrType (gotFP v) in
  let v := if (attrType =? attrNumSoftware) && bool_decide (a = software)
           then MkBindingVars true (lastAttr v) (gotFP v) else v in
  let v := if (attrType =? attrNumFingerprint) && (length a =? 4)%nat
           then MkBindingVars (softwareOK v) (lastAttr v) (be_get a) else v in
  inr v.
Definition ParseBindingRequest (b : bytes) : stunErr + bytes :=
  if negb (Is b) then inl ErrNotSTUN
  else if negb (bool_decide (take (length bindingRequest) b = bindingRequest))
  then inl ErrNotBindingRequest
  else
    let txID := take 12 (drop 8 b) in
    v ← foreachAttr bindingAttr (drop headerLen b) (MkBindingVars false 0 0);
    if negb (softwareOK v) then inl ErrWrongSoftware
    else if negb (lastAttr v =? attrNumFingerprint) then inl ErrNoFingerprint
    else
      if (length b <? lenFingerprint)%nat then inl stunPanic
      else
        let wantFP := fingerPrint (take (length b - lenFingerprint) b) in
        if negb (gotFP v =? wantFP) then inl ErrWrongFingerprint
        else inr txID.

(** ** [Response]: nil for the zero address *)
Definition BitLen (a : Addr) : Z := match a with AddrZero => 0 | Addr4 _ => 32 | Addr6 _ _ => 128 end.
(** The [i]-th byte of the address is xored with the cookie, then with the transaction id. *)
Definition xorAddress (txID a : bytes) : bytes := zip_with bxor a (magicCookie ++ txID).
Definition Response (txID : bytes) (addrPort : AddrPort) : bytes :=
  let addr := ip addrPort in
  let respond (fam : byte) :=
    let attrsLen := 8 + BitLen addr / 8 in
    let b := [] ++ [x01; x01] in
    let b := appendU16 b attrsLen in
    let b := b ++ magicCookie in
    let b := b ++ txID in
    let b := appendU16 b attrXorMappedAddress in
    let b := appendU16 b (4 + BitLen addr / 8) in
    let b := b ++ [x00; fam] in
    let b := appendU16 b (Z.lxor (port addrPort) 0x2112) in
    b ++ xorAddress txID (drop (16 - Z.to_nat (BitLen addr / 8)) (As16 addr)) in
  if Is4 addr then respond x01 else if Is6 addr then respond x02 else [].

(** ** [ParseResponse] *)
Definition familyAddrLen (fam : byte) : nat :=
  match fam with x01 => 4 | x02 => 16 | _ => 0 end%nat.
Definition xorMappedAddress (tID b : bytes) : stunErr + bytes * Z :=
  if (length b <? 4)%nat then inl ErrMalformedAttrs
  else
    let xorPort := be_get (take 2 (drop 2 b)) in
    let addrField := drop 4 b in
    let port := Z.lxor xorPort 0x2112 in
    let addrLen := familyAddrLen (byteAt b 1) in
    if (addrLen =? 0)%nat then inl ErrMalformedAttrs
    else if (length addrField <? addrLen)%nat then inl ErrMalformedAttrs
    else inr (xorAddress tID (take addrLen addrField), port).
Definition mappedAddress (b : bytes) : stunErr + bytes * Z :=
  if (length b <? 4)%nat then inl ErrMalformedAttrs
  else
    let port := Z.lor (Z.shiftl (b2z (byteAt b 2)) 8) (b2z (byteAt b 3)) in
    let addrField := drop 4 b in
    let addrLen := familyAddrLen (byteAt b 1) in
    if (addrLen =? 0)%nat then inl ErrMalformedAttrs
    else if (length addrField <? addrLen)%nat then inl ErrMalformedAttrs
    else inr (take addrLen addrField, port).
(** [netip.AddrFromSlice] *)
Definition AddrFromSlice (b : bytes) : option Addr :=
  match length b with
  | 4%nat => Some (Addr4 (be_get b))
  | 16%nat => Some (AddrFrom16 b)
  | _ => None
  end.

(** The two captured addresses: [addr] and [fallbackAddr]. *)
Definition responseAttr (tID : bytes) (v : AddrPort * AddrPort) (attrType : Z) (attr : bytes)
  : stunErr + AddrPort * AddrPort :=
  let '(addr, fallbackAddr) := v in
  if (attrType =? attrXorMappedAddress) || (attrType =? attrXorMappedAddressAlt) then
    '(ipSlice, pt) ← xorMappedAddress tID attr;
    match AddrFromSlice ipSlice with
    | Some a => inr (MkAddrPort (Unmap a) pt, fallbackAddr)
    | None => inr v
    end
  else if attrType =? attrMappedAddress then
    match mappedAddress attr with
    | inl _ => inl ErrMalformedAttrs
    | inr (ipSlice, pt) =>
        match AddrFromSlice ipSlice with
        | Some a => inr (addr, MkAddrPort (Unmap a) pt)
        | None => inr v
        end
    end
  else inr v.
Definition ParseResponse (b : bytes) : stunErr + bytes * AddrPort :=
  if negb (Is b) then inl ErrNotSTUN
  else
    let tID := take 12 (drop 8 b) in
    if negb (bool_decide (byteAt b 0 = x01)) || negb (bool_decide (byteAt b 1 = x01))
    then inl ErrNotSuccessResponse
    else
      let attrsLen := be_get (take 2 (drop 2 b)) in
      let b := drop headerLen b in
      if attrsLen >? Z.of_nat (length b) then inl ErrMalformedAttrs
      else
        let b := if Z.of_nat (length b) >? attrsLen then take (Z.to_nat attrsLen) b else b in
        '(addr, fallbackAddr) ← foreachAttr (responseAttr tID) b (zeroAddrPort, zeroAddrPort);
        if IsValid addr then inr (tID, addr)
        else if IsValid fallbackAddr then inr (tID, fallbackAddr)
        else inl ErrMalformedAttrs.

(** The check value of CRC-32/ISO-HDLC. *)
Example ChecksumIEEE_check :
  ChecksumIEEE [x31; x32; x33; x34; x35; x36; x37; x38; x39] = 0xcbf43926.
Proof. vm_compute. reflexivity. Qed.

(** ** Facts *)
Lemma b2z_bxor a b : b2z (bxor a b) = Z.lxor (b2z a) (b2z b).
Proof.
  unfold bxor. rewrite b2z_z2b. apply Z.mod_small.
  pose proof (b2z_range a). pose proof (b2z_range b). apply (lxor_range _ _ 8); lia.
Qed.
Lemma bxor_bxor a b : bxor (bxor a b) b = a.
Proof.
  apply b2z_inj. rewrite !b2z_bxor, Z.lxor_assoc, Z.lxor_nilpotent. apply Z.lxor_0_r.
Qed.
Lemma xorAddress_length txID a :
  (length a <= 4 + length txID)%nat -> length (xorAddress txID a) = length a.
Proof. intros. unfold xorAddress. rewrite length_zip_with. simpl. lia. Qed.
Lemma xorAddress_xorAddress txID a :
  (length a <= 4 + length txID)%nat -> xorAddress txID (xorAddress txID a) = a.
Proof.
  intros L. unfold xorAddress. assert (length a <= length (magicCookie ++ txID))%nat as L' by (simpl; lia).
  revert L'. generalize (magicCookie ++ txID). clear L. induction a as [|x a IH]; intros [|y k]; simpl; intros L; try done; [lia|].
  rewrite bxor_bxor. f_equal. apply IH. lia.
Qed.

Lemma crcBit_range c : 0 <= c < 2 ^ 32 -> 0 <= crcBit c < 2 ^ 32.
Proof.
  intros Hc. assert (0 <= Z.shiftr c 1 < 2 ^ 32) by (apply shiftr_range; lia).
  unfold crcBit. destruct (Z.testbit c 0); [|done]. by apply (lxor_range _ _ 32).
Qed.
Lemma crcByte_range c b : 0 <= c < 2 ^ 32 -> 0 <= crcByte c b < 2 ^ 32.
Proof.
  intros Hc. unfold crcByte. pose proof (b2z_range b).
  apply Nat.iter_invariant; [intros; by apply crcBit_range|]. apply (lxor_range _ _ 32); lia.
Qed.
Lemma fingerPrint_range b : 0 <= fingerPrint b < 2 ^ 32.
Proof.
  unfold fingerPrint, ChecksumIEEE. apply (lxor_range _ _ 32); [done| |done]. apply (lxor_range _ _ 32); [done| |done].
  assert (0 <= 0xffffffff < 2 ^ 32) as H by done. revert H. generalize 0xffffffff.
  induction b as [|x b IH]; intros c Hc; simpl; [done|]. by apply IH, crcByte_range.
Qed.

Lemma appendU16_put b v : appendU16 b v = b ++ be_put 2 v.
Proof. unfold appendU16. cbn. by rewrite Z.shiftr_div_pow2. Qed.
Lemma appendU32_put b v : appendU32 b v = b ++ be_put 4 v.
Proof. unfold appendU32. cbn. by rewrite !Z.shiftr_div_pow2, !Z.div_div by lia. Qed.

Lemma pad_whole n : 0 <= n -> n mod 4 = 0 -> Z.ldiff (n + 3) 3 = n.
Proof.
  intros Hn M. change 3 with (Z.ones 2) at 2. rewrite Z.ldiff_ones_r by lia.
  rewrite Z.shiftl_mul_pow2, Z.shiftr_div_pow2 by lia. change (2 ^ 2) with 4.
  pose proof (Z.div_mod n 4). assert ((n + 3) / 4 = n / 4) as ->; [|lia].
  symmetry. apply (Z.div_unique _ _ _ 3); lia.
Qed.
Lemma foreachAttr_nil {S} (fn : S -> Z -> bytes -> stunErr + S) st : foreachAttr fn [] st = inr st.
Proof. by simp foreachAttr. Qed.
(** One attribute whose length is a multiple of four is handed to the closure. *)
Lemma foreachAttr_attr {S} (fn : S -> Z -> bytes -> stunErr + S) t a rest st st' :
  0 <= t < 2 ^ 16 -> Z.of_nat (length a) < 2 ^ 16 -> Z.of_nat (length a) mod 4 = 0 ->
  fn st t a = inr st' ->
  foreachAttr fn (be_put 2 t ++ be_put 2 (Z.of_nat (length a)) ++ a ++ rest) st
  = foreachAttr fn rest st'.
Proof.
  intros Ht La M Hfn. rewrite foreachAttr_equation_1.
  set (b := be_put 2 t ++ be_put 2 (Z.of_nat (length a)) ++ a ++ rest).
  assert (drop 4 b = a ++ rest) as D4.
  { unfold b. rewrite app_assoc. apply drop_app_length'. len. }
  assert (attrType b = t) as ET.
  { unfold attrType, b. rewrite take_app_length' by len. apply be_get_put_small. simpl Z.of_nat. lia. }
  assert (attrLen b = Z.of_nat (length a)) as EL.
  { unfold attrLen, b. rewrite drop_app_length', take_app_length' by len.
    apply be_get_put_small. simpl Z.of_nat. lia. }
  assert (length b = 4 + length (a ++ rest))%nat as LB by (unfold b; len).
  assert (attrLenWithPad b = Z.of_nat (length a)) as EP
    by (unfold attrLenWithPad; rewrite EL; apply pad_whole; lia).
  destruct (decide (b = [])) as [E|E]; [rewrite E in LB; simpl in LB; lia|].
  cbn [foreachAttr_unfold_clause_1].
  destruct (decide (length b < 4)%nat) as [L|L]; [exfalso; lia|]. cbn [foreachAttr_unfold_clause_1_clause_2].
  destruct (decide (attrLenWithPad b > _)) as [P|P].
  { exfalso. rewrite EP, D4, length_app in P. lia. }
  cbn [foreachAttr_unfold_clause_1_clause_2_clause_2]. rewrite ET, EL, D4, Nat2Z.id, take_app_length, Hfn.
  cbn [foreachAttr_unfold_clause_1_clause_2_clause_2_clause_2].
  by rewrite EP, D4, Nat2Z.id, drop_app_length.
Qed.

(** The parts of a packet with a STUN header. *)
Definition packet (a b c d : byte) (tID rest : bytes) : bytes :=
  [a; b; c; d] ++ magicCookie ++ tID ++ rest.
Lemma packet_parts a b c d tID rest :
  length tID = 12%nat ->
  let p := packet a b c d tID rest in
  Is p = (Z.land (b2z a) 0xc0 =? 0) /\ take 12 (drop 8 p) = tID /\ drop headerLen p = rest
  /\ length p = (20 + length rest)%nat.
Proof.
  intros L p. assert (length p = 20 + length rest)%nat as LP by (unfold p, packet; len).
  split_and!.
  - unfold Is. rewrite (proj2 (Nat.leb_le _ _)) by (unfold headerLen; lia).
    rewrite (bool_decide_true (take 4 (drop 4 p) = magicCookie)) by done.
    by rewrite andb_true_r.
  - unfold p, packet. rewrite app_assoc, drop_app_length' by done. by apply take_app_length'.
  - unfold p, packet. rewrite !app_assoc. apply drop_app_length'. rewrite !length_app, L. done.
  - done.
Qed.

Definition softwareAttr : bytes :=
  be_put 2 attrNumSoftware ++ be_put 2 (Z.of_nat (length software)) ++ software.
Lemma Request_layout tID :
  let pre := packet x00 x01 x00 x14 tID softwareAttr in
  Request tID
  = pre ++ be_put 2 attrNumFingerprint ++ be_put 2 4 ++ be_put 4 (fingerPrint pre)
  /\ Request tID = packet x00 x01 x00 x14 tID
       (softwareAttr ++ be_put 2 attrNumFingerprint ++ be_put 2 4 ++ be_put 4 (fingerPrint pre)).
Proof.
  intros pre. assert (Request tID
    = pre ++ be_put 2 attrNumFingerprint ++ be_put 2 4 ++ be_put 4 (fingerPrint pre)) as ->.
  { unfold Request. rewrite appendU32_put, !appendU16_put. unfold pre, packet, softwareAttr.
    by rewrite <- !app_assoc. }
  split; [done|]. unfold pre, packet. by rewrite <- !app_assoc.
Qed.

Lemma ParseBindingRequest_Request tID :
  length tID = 12%nat -> ParseBindingRequest (Request tID) = inr tID.
Proof.
  intros L. set (pre := packet x00 x01 x00 x14 tID softwareAttr).
  destruct (Request_layout tID) as [E1 E2]. fold pre in E1, E2.
  destruct (packet_parts x00 x01 x00 x14 tID
    (softwareAttr ++ be_put 2 attrNumFingerprint ++ be_put 2 4 ++ be_put 4 (fingerPrint pre)) L)
    as (HI & HT & HD & HL). rewrite <- E2 in HI, HT, HD, HL.
  unfold ParseBindingRequest. rewrite HI, HT, HD. cbn [negb Z.land Z.eqb b2z].
  rewrite bool_decide_true by (by rewrite E2). cbn [negb].
  unfold softwareAttr. rewrite <- !app_assoc.
  rewrite (foreachAttr_attr _ _ software _ _ (MkBindingVars true attrNumSoftware 0)) by done.
  rewrite <- (app_nil_r (be_put 4 (fingerPrint pre))).
  change (be_put 2 4) with (be_put 2 (Z.of_nat 4)) at 1.
  rewrite <- (length_be_put 4 (fingerPrint pre)) at 1.
  rewrite (foreachAttr_attr _ _ _ _ _ (MkBindingVars true attrNumFingerprint (fingerPrint pre)));
    [|done|by rewrite length_be_put|by rewrite length_be_put|].
  2: { unfold bindingAttr. by rewrite length_be_put, be_get_put_small by apply fingerPrint_range. }
  rewrite foreachAttr_nil. rstep. cbn [softwareOK lastAttr gotFP negb]. rewrite Z.eqb_refl. cbn [negb].
  rewrite (proj2 (Nat.ltb_ge _ _)) by (rewrite HL; unfold lenFingerprint; lia).
  assert (take (length (Request tID) - lenFingerprint) (Request tID) = pre) as ->.
  { rewrite E1. apply take_app_length'. unfold lenFingerprint. len. }
  cbv zeta. by rewrite !Z.eqb_refl.
Qed.

(** What [ParseResponse] reports of an address: unmapped and without a zone. *)
Definition reported (p : AddrPort) : AddrPort := MkAddrPort (norm_addr (ip p)) (port p).

Lemma reported_valid p : IsValid (reported p) = true.
Proof.
  unfold IsValid, reported, norm_addr, Unmap. cbn [ip].
  destruct (ip p) as [|a|a z]; [done..|]. by destruct (Is4In6 (Addr6 a EmptyString)).
Qed.

(** The address bytes a response carries, by family. *)
Definition family (a : Addr) : byte := if Is4 a then x01 else x02.
Definition addrBytes (a : Addr) : bytes := drop (16 - Z.to_nat (BitLen a / 8)) (As16 a).
Lemma addrBytes_spec a :
  addr_ok a -> AddrIsValid a = true ->
  length (addrBytes a) = familyAddrLen (family a)
  /\ Z.of_nat (length (addrBytes a)) = BitLen a / 8
  /\ Unmap <$> AddrFromSlice (addrBytes a) = Some (norm_addr a).
Proof.
  intros Ha V. destruct a as [|a|a z]; [done| |].
  - change (addrBytes (Addr4 a)) with (drop 12 (As16 (Addr4 a))).
    assert (As16 (Addr4 a) = be_put 12 0xffff ++ be_put 4 a) as E.
    { unfold As16. change 16%nat with (length (be_put 12 0xffff ++ be_put 4 a)).
      rewrite <- (be_put_get _ (be_put 12 0xffff ++ be_put 4 a) eq_refl). f_equal.
      cbn [addr_ok] in Ha. rewrite be_get_concat, !be_get_put_small by (simpl Z.of_nat; lia).
      rewrite length_be_put. done. }
    rewrite E, drop_app_length' by by rewrite length_be_put.
    unfold AddrFromSlice. rewrite length_be_put. cbn [addr_ok] in Ha.
    rewrite be_get_put_small by (simpl Z.of_nat; lia). done.
  - change (addrBytes (Addr6 a z)) with (drop 0 (As16 (Addr6 a z))). rewrite drop_0, length_As16.
    split_and!; [done..|]. unfold AddrFromSlice. rewrite length_As16.
    rewrite <- (From16_As16 (Addr6 a z)) by done. done.
Qed.

Definition addrAttr (txID : bytes) (p : AddrPort) : bytes :=
  [x00; family (ip p)] ++ be_put 2 (Z.lxor (port p) 0x2112) ++ xorAddress txID (addrBytes (ip p)).
Definition attrsLenOf (a : Addr) : Z := 8 + BitLen a / 8.
Lemma addrAttr_length txID p :
  length txID = 12%nat -> addr_ok (ip p) -> IsValid p = true ->
  Z.of_nat (length (addrAttr txID p)) = 4 + BitLen (ip p) / 8.
Proof.
  intros L Ha V. destruct (addrBytes_spec (ip p) Ha V) as (L1 & L2 & _). unfold addrAttr.
  rewrite !length_app, length_be_put, xorAddress_length; [simpl length; lia|].
  rewrite L1, L. unfold family. destruct (Is4 (ip p)); cbn; lia.
Qed.
Lemma Response_layout txID p :
  length txID = 12%nat -> addr_ok (ip p) -> IsValid p = true ->
  Response txID p
  = packet x01 x01 x00 (z2b (attrsLenOf (ip p))) txID
      (be_put 2 attrXorMappedAddress ++ be_put 2 (Z.of_nat (length (addrAttr txID p)))
       ++ addrAttr txID p ++ []).
Proof.
  intros L Ha V. rewrite addrAttr_length, app_nil_r by done.
  unfold Response, addrAttr, addrBytes, attrsLenOf, family.
  assert (appendU16 ([] ++ [x01; x01]) (8 + BitLen (ip p) / 8)
          = [x01; x01; x00; z2b (8 + BitLen (ip p) / 8)]) as ->
    by by destruct (ip p).
  destruct (ip p) as [|a|a z] eqn:E; [by unfold IsValid in V; rewrite E in V| |];
    cbn [Is4 Is6]; rewrite !appendU16_put; unfold packet; by rewrite <- !app_assoc.
Qed.

Lemma xorMappedAddress_addrAttr txID p :
  length txID = 12%nat -> addr_ok (ip p) -> 0 <= port p < 2 ^ 16 -> IsValid p = true ->
  xorMappedAddress txID (addrAttr txID p) = inr (addrBytes (ip p), port p).
Proof.
  intros L Ha Hp V. pose proof (addrAttr_length txID p L Ha V) as LA.
  destruct (addrBytes_spec (ip p) Ha V) as (L1 & L2 & _).
  assert (familyAddrLen (family (ip p)) = 4 \/ familyAddrLen (family (ip p)) = 16)%nat as F
    by (unfold family; destruct (Is4 (ip p)); auto).
  unfold xorMappedAddress.
  rewrite (proj2 (Nat.ltb_ge _ _)) by lia.
  assert (drop 4 (addrAttr txID p) = xorAddress txID (addrBytes (ip p))) as ->.
  { unfold addrAttr. rewrite app_assoc. apply drop_app_length'. len. }
  assert (byteAt (addrAttr txID p) 1 = family (ip p)) as -> by done.
  rewrite (proj2 (Nat.eqb_neq _ _)) by lia.
  rewrite xorAddress_length by lia. rewrite (proj2 (Nat.ltb_ge _ _)) by lia.
  rewrite take_ge by (rewrite xorAddress_length; lia). rewrite xorAddress_xorAddress by lia.
  unfold addrAttr. rewrite drop_app_length', take_app_length' by (done || len).
  rewrite be_get_put_small by (apply (lxor_range _ _ 16); simpl; lia).
  by rewrite Z.lxor_assoc, Z.lxor_nilpotent, Z.lxor_0_r.
Qed.

Lemma ParseResponse_Response txID p :
  length txID = 12%nat -> addr_ok (ip p) -> 0 <= port p < 2 ^ 16 -> IsValid p = true ->
  ParseResponse (Response txID p) = inr (txID, reported p).
Proof.
  intros L Ha Hp V. pose proof (addrAttr_length txID p L Ha V) as LA.
  destruct (addrBytes_spec (ip p) Ha V) as (_ & _ & EU).
  rewrite Response_layout by done.
  set (rest := be_put 2 attrXorMappedAddress ++ _).
  destruct (packet_parts x01 x01 x00 (z2b (attrsLenOf (ip p))) txID rest L) as (HI & HT & HD & HL).
  assert (Z.of_nat (length rest) = attrsLenOf (ip p)) as LR.
  { unfold rest, attrsLenOf. rewrite app_nil_r, !(length_app (be_put 2 _)), !length_be_put. lia. }
  unfold ParseResponse. rewrite HI, HT, HD.
  assert (be_get (take 2 (drop 2 (packet x01 x01 x00 (z2b (attrsLenOf (ip p))) txID rest)))
          = Z.of_nat (length rest)) as ->.
  { rewrite LR. change (take 2 _) with [x00; z2b (attrsLenOf (ip p))]. by destruct (ip p). }
  rewrite !bool_decide_true by done. rewrite Z.gtb_ltb, Z.ltb_irrefl.
  change (negb (Z.land (b2z x01) 192 =? 0)) with false. cbv zeta iota. cbn [negb orb]. cbv iota.
  unfold rest. rewrite (foreachAttr_attr _ _ _ _ _ (reported p, zeroAddrPort)); [|done| | |].
  - rewrite foreachAttr_nil. rstep. by rewrite reported_valid.
  - rewrite LA. by destruct (ip p).
  - rewrite LA. by destruct (ip p).
  - unfold responseAttr. cbn [Z.eqb]. rewrite xorMappedAddress_addrAttr by done. rstep.
    destruct (AddrFromSlice _); [|done]. injection EU as ->. done.
Qed.

(** STUN round trips: the transaction id of a binding request is parsed from it, with the
    software attribute and the fingerprint accepted, and the transaction id and the address of a
    binding response are parsed from it, the address unmapped and without a zone. *)
Theorem stun_roundtrip tID p :
  length tID = 12%nat -> addr_ok (ip p) -> 0 <= port p < 2 ^ 16 -> IsValid p = true ->
  ParseBindingRequest (Request tID) = inr tID
  /\ ParseResponse (Response tID p) = inr (tID, reported p).
Proof. intros. split; [by apply ParseBindingRequest_Request|by apply ParseResponse_Response]. Qed.
Lemma stun_roundtrip_witness :
  ParseBindingRequest (Request (replicate 12 x07)) = inr (replicate 12 x07)
  /\ ParseResponse (Response (replicate 12 x07) (MkAddrPort (Addr6 0xffff01020304 "eth0") 41641))
     = inr (replicate 12 x07, MkAddrPort (Addr4 0x01020304) 41641).
Proof.
  apply (stun_roundtrip (replicate 12 x07) (MkAddrPort (Addr6 0xffff01020304 "eth0") 41641));
    first [done | cbn [ip port addr_ok]; lia].
Defined.

End Stun.
