(* ===== verification/Packet.v ===== *)
(** * Datagrams (net/packet/geneve.go, magicsock.go: packetLooksLike and the framing of disco
    and WireGuard packets)

    The Geneve header, the classifier every receive function starts with, and the bytes the
    senders produce. Sealing is a parameter: it is the nacl box of another library. *)
From S2P Require Import Prelude Netip Bytes Slices Disco Stun.

(** ** The Geneve header *)
Definition GeneveFixedHeaderLength : nat := 8.
Definition GeneveProtocolDisco : Z := 0x7A11.
Definition GeneveProtocolWireGuard : Z := 0x7A12.
Record GeneveHeader := MkGeneve { g_Version : Z; g_Protocol : Z; g_VNI : Z; g_Control : bool }.
Definition zeroGeneve : GeneveHeader := MkGeneve 0 0 0 false.
Inductive geneveErr := ErrShortBuffer | ErrGeneveVNIUnset | ErrGeneveVersion.

Definition Encode (h : GeneveHeader) (b : bytes) : geneveErr + bytes :=
  if (length b <? GeneveFixedHeaderLength)%nat then inl ErrShortBuffer
  else if negb (VNI.IsSet (g_VNI h)) then inl ErrGeneveVNIUnset
  else if 3 <? g_Version h then inl ErrGeneveVersion
  else
    let b0 := z2b (Z.lor 0 (uw 8 (Z.shiftl (g_Version h) 6))) in
    let b1 := if g_Control h then z2b (Z.lor 0 0x80) else x00 in
    let b := copyAt 0 [b0] b in
    let b := copyAt 1 [b1] b in
    let b := copyAt 2 (be_put 2 (g_Protocol h)) b in
    inr (copyAt 4 (be_put 4 (uw 32 (Z.shiftl (VNI.Get (g_VNI h)) 8))) b).

(** [Decode] writes into the header it is called on; it sets [Control] but never clears it. *)
Definition Decode (h : GeneveHeader) (b : bytes) : geneveErr + GeneveHeader :=
  if (length b <? GeneveFixedHeaderLength)%nat then inl ErrShortBuffer
  else
    inr (MkGeneve
      (Z.shiftr (b2z (Stun.byteAt b 0)) 6)
      (be_get (take 2 (drop 2 b)))
      (VNI.Set_ (Z.shiftr (be_get (take 4 (drop 4 b))) 8))
      (if negb (Z.land (b2z (Stun.byteAt b 1)) 0x80 =? 0) then true else g_Control h)).

(** ** [packetLooksLike] *)
Inductive packetLooksLikeType :=
  packetLooksLikeWireGuard | packetLooksLikeSTUNBinding | packetLooksLikeDisco.
Definition discoHeaderLen : nat := length Magic + DiscoPublicRawLen.
Definition looksLikeDisco (msg : bytes) : bool :=
  (discoHeaderLen <=? length msg)%nat && bool_decide (take (length Magic) msg = Magic).
Definition packetLooksLike (msg : bytes) : packetLooksLikeType * bool :=
  let naked :=
    if looksLikeDisco msg then (packetLooksLikeDisco, false) else (packetLooksLikeWireGuard, false) in
  if Stun.Is msg && bool_decide (Stun.byteAt msg 1 = x01) then (packetLooksLikeSTUNBinding, false)
  else if (GeneveFixedHeaderLength <=? length msg)%nat
          && (Z.land (b2z (Stun.byteAt msg 0)) 0xC0 =? 0)
          && (Z.land (b2z (Stun.byteAt msg 1)) 0x3F =? 0)
          && bool_decide (Stun.byteAt msg 7 = x00)
  then
    let proto := be_get (take 2 (drop 2 msg)) in
    if proto =? GeneveProtocolDisco then
      if looksLikeDisco (drop GeneveFixedHeaderLength msg) then (packetLooksLikeDisco, true)
      else (packetLooksLikeWireGuard, false)
    else if proto =? GeneveProtocolWireGuard then (packetLooksLikeWireGuard, true)
    else naked
  else naked.

(** ** What the senders put on the wire *)
Definition isRelayHandshakeMsg (m : Message) : bool :=
  match m with MBindUDPRelayEndpoint _ | MBindUDPRelayEndpointAnswer _ => true | _ => false end.
(** The packet [sendDiscoMessageFromSource] builds; [seal] is [di.sharedKey.Seal]. *)
Definition discoPacket (seal : bytes -> bytes) (self : bytes) (dstVNI : Z) (m : Message)
  : geneveErr + bytes :=
  pkt ← (if VNI.IsSet dstVNI
         then Encode (MkGeneve 0 GeneveProtocolDisco dstVNI (isRelayHandshakeMsg m))
                (zeros GeneveFixedHeaderLength)
         else mret []);
  let pkt := pkt ++ Magic in
  let pkt := pkt ++ self in
  mret (pkt ++ seal (AppendMarshal m [])).
(** One buffer of [WriteWireGuardBatchTo], whose first [offset] bytes are room for the header;
    the error of [Encode] is not looked at. *)
Definition wireguardPacket (vni : Z) (buf : bytes) : bytes :=
  let gh := MkGeneve 0 GeneveProtocolWireGuard vni false in
  if VNI.IsSet (g_VNI gh) then match Encode gh buf with inr b => b | inl _ => buf end
  else drop GeneveFixedHeaderLength buf.

(** ** What [receiveIPWithSource] makes of a datagram *)
Inductive rxPacket :=
| RxDisco (msg : bytes) (src : epAddr) (shouldBeRelayHandshakeMsg : bool)
| RxSTUN (msg : bytes) (src : AddrPort)
| RxWireGuard (b : bytes) (src : epAddr) (isGeneveEncap : bool)
| RxDropped.
Definition classifyRx (havePrivateKey : bool) (b : bytes) (ipp : AddrPort) : rxPacket :=
  let '(pt, isGeneveEncap) := packetLooksLike b in
  let src := epAddr_of ipp in
  match (if isGeneveEncap then Decode zeroGeneve b else inr zeroGeneve) with
  | inl _ => RxDropped
  | inr geneve =>
      let src := if isGeneveEncap then MkEpAddr ipp (g_VNI geneve) else src in
      match pt with
      | packetLooksLikeDisco =>
          RxDisco (if isGeneveEncap then drop GeneveFixedHeaderLength b else b) src (g_Control geneve)
      | packetLooksLikeSTUNBinding => RxSTUN b ipp
      | packetLooksLikeWireGuard =>
          if negb havePrivateKey then RxDropped
          else RxWireGuard (if VNI.IsSet (vni src) then drop GeneveFixedHeaderLength b else b) src isGeneveEncap
      end
  end.

(** The head of [handleDiscoMessageWithSource]: the sender's key, then the opened and parsed
    payload. *)
Definition discoSender (msg : bytes) : bytes := drop (length Magic) (take discoHeaderLen msg).
Definition openDisco (open : bytes -> option bytes) (msg : bytes) : option Message :=
  match open (drop discoHeaderLen msg) with
  | None => None
  | Some payload => match Parse payload with inl _ => None | inr dm => Some dm end
  end.

(** ** Facts: the header *)
#[local] Arguments be_put : simpl never.
#[local] Arguments be_get : simpl never.

Definition geneve_ok (h : GeneveHeader) : Prop :=
  0 <= g_Version h <= 3 /\ 0 <= g_Protocol h < 2 ^ 16 /\ VNI.IsSet (g_VNI h) = true.
Definition geneve_bytes (h : GeneveHeader) : bytes :=
  [z2b (64 * g_Version h); if g_Control h then x80 else x00] ++ be_put 2 (g_Protocol h)
  ++ be_put 4 (256 * VNI.Get (g_VNI h)).
Lemma copyAt_mid pre old src post off :
  off = length pre -> length src = length old ->
  copyAt off src (pre ++ old ++ post) = pre ++ src ++ post.
Proof.
  intros -> L. unfold copyAt. rewrite take_app_length, (take_ge src) by len.
  rewrite (app_assoc pre old), drop_app_length'; [done|]. rewrite length_app. lia.
Qed.
Lemma VNI_Get_range v : 0 <= VNI.Get v < 2 ^ 24.
Proof.
  unfold VNI.Get. change VNI.vniGetMask with (Z.ones 24). rewrite Z.land_ones by lia.
  apply Z.mod_pos_bound. lia.
Qed.

Lemma Encode_spec h b :
  geneve_ok h -> (8 <= length b)%nat -> Encode h b = inr (geneve_bytes h ++ drop 8 b).
Proof.
  intros (Hv & Hp & Hs) L. unfold Encode, GeneveFixedHeaderLength.
  rewrite (proj2 (Nat.ltb_ge _ _)), Hs, (proj2 (Z.ltb_ge _ _)) by lia. cbn [negb]. f_equal.
  pose proof (VNI_Get_range (g_VNI h)). unfold uw. rewrite !Z.shiftl_mul_pow2 by lia.
  rewrite !Z.mod_small by lia.
  do 8 (destruct b as [|? b]; [simpl in L; lia|]). clear L.
  match goal with |- context [copyAt 0 _ (?a :: ?b :: ?c :: ?d :: ?e :: ?f :: ?g :: ?h :: ?r)] =>
    change (a :: b :: c :: d :: e :: f :: g :: h :: r) with ([] ++ [a] ++ [b] ++ [c; d] ++ [e; f; g; h] ++ r) end.
  rewrite (copyAt_mid []) by done. cbn [app].
  match goal with |- context [copyAt 1 _ (?x :: ?a :: ?r)] => change (x :: a :: r) with ([x] ++ [a] ++ r) end.
  rewrite (copyAt_mid [_]) by done. rewrite (app_assoc [_]).
  match goal with |- context [copyAt 2 _ (?x ++ ?a :: ?b :: ?r)] => change (x ++ a :: b :: r) with (x ++ [a; b] ++ r) end.
  rewrite copyAt_mid by (len || done). rewrite (app_assoc ([_] ++ [_])).
  match goal with |- context [copyAt 4 _ (?x ++ ?a :: ?b :: ?c :: ?d :: ?r)] =>
    change (x ++ a :: b :: c :: d :: r) with (x ++ [a; b; c; d] ++ r) end.
  rewrite copyAt_mid by (len || done). unfold geneve_bytes. rewrite <- !app_assoc.
  rewrite (Z.mul_comm (VNI.Get _)), (Z.mul_comm (g_Version h)). by destruct (g_Control h).
Qed.

Lemma length_geneve_bytes h : length (geneve_bytes h) = 8%nat.
Proof. unfold geneve_bytes. len. Qed.
Lemma geneve_proto h rest :
  0 <= g_Protocol h < 2 ^ 16 -> be_get (take 2 (drop 2 (geneve_bytes h ++ rest))) = g_Protocol h.
Proof.
  intros. unfold geneve_bytes. rewrite <- !app_assoc.
  rewrite drop_app_length', take_app_length' by (done || apply length_be_put).
  apply be_get_put_small. simpl Z.of_nat. lia.
Qed.
Lemma Decode_geneve_bytes h0 h rest :
  geneve_ok h ->
  Decode h0 (geneve_bytes h ++ rest)
  = inr (MkGeneve (g_Version h) (g_Protocol h) (VNI.Set_ (VNI.Get (g_VNI h)))
           (g_Control h || g_Control h0)).
Proof.
  intros (Hv & Hp & Hs). unfold Decode, GeneveFixedHeaderLength. pose proof (VNI_Get_range (g_VNI h)).
  rewrite (proj2 (Nat.ltb_ge _ _)) by (rewrite length_app, length_geneve_bytes; lia).
  rewrite geneve_proto by done. f_equal. f_equal.
  - change (Stun.byteAt _ 0) with (z2b (64 * g_Version h)).
    rewrite b2z_z2b, Z.mod_small, Z.shiftr_div_pow2 by lia.
    rewrite Z.mul_comm. by apply Z.div_mul.
  - f_equal. unfold geneve_bytes. rewrite <- !app_assoc, (app_assoc [_; _]).
    rewrite drop_app_length', take_app_length' by len.
    rewrite be_get_put_small, Z.shiftr_div_pow2 by (simpl Z.of_nat; lia).
    rewrite Z.mul_comm. by apply Z.div_mul.
  - change (Stun.byteAt _ 1) with (if g_Control h then x80 else x00). by destruct (g_Control h).
Qed.

(** ** Facts: classification *)
Lemma looksLikeDisco_Magic rest :
  (DiscoPublicRawLen <= length rest)%nat -> looksLikeDisco (Magic ++ rest) = true.
Proof.
  intros. unfold looksLikeDisco. rewrite take_app_length, bool_decide_true, andb_true_r by done.
  apply Nat.leb_le. unfold discoHeaderLen. rewrite length_app. lia.
Qed.
Lemma looks_geneve h rest :
  geneve_ok h -> g_Version h = 0 ->
  packetLooksLike (geneve_bytes h ++ rest)
  = if g_Protocol h =? GeneveProtocolDisco
    then if looksLikeDisco rest then (packetLooksLikeDisco, true) else (packetLooksLikeWireGuard, false)
    else if g_Protocol h =? GeneveProtocolWireGuard then (packetLooksLikeWireGuard, true)
    else if looksLikeDisco (geneve_bytes h ++ rest)
         then (packetLooksLikeDisco, false) else (packetLooksLikeWireGuard, false).
Proof.
  intros (_ & Hp & _) Hv. unfold packetLooksLike, GeneveFixedHeaderLength.
  rewrite geneve_proto by done. rewrite (drop_app_length' _ _ 8) by (by rewrite length_geneve_bytes).
  change (Stun.byteAt (geneve_bytes h ++ rest) 0) with (z2b (64 * g_Version h)). rewrite Hv.
  change (Stun.byteAt (geneve_bytes h ++ rest) 1) with (if g_Control h then x80 else x00).
  assert (Stun.byteAt (geneve_bytes h ++ rest) 7 = x00) as ->.
  { change (Stun.byteAt _ 7) with (z2b (256 * VNI.Get (g_VNI h))).
    unfold z2b. rewrite Z.mul_comm, Z.mod_mul by done. done. }
  rewrite (proj2 (Nat.leb_le _ _)) by (rewrite length_app, length_geneve_bytes; lia).
  destruct (g_Control h); by rewrite bool_decide_false, andb_false_r by done.
Qed.
Lemma looks_magic rest :
  (DiscoPublicRawLen <= length rest)%nat ->
  packetLooksLike (Magic ++ rest) = (packetLooksLikeDisco, false).
Proof.
  intros L. unfold packetLooksLike. rewrite looksLikeDisco_Magic by done.
  change (Stun.byteAt (Magic ++ rest) 1) with x53. change (Stun.byteAt (Magic ++ rest) 0) with x54.
  rewrite bool_decide_false, andb_false_r by done. by rewrite andb_false_r.
Qed.

(** A WireGuard message: its type is a little-endian 32-bit number from 1 to 4. *)
Definition wireguard_msg (b : bytes) : Prop :=
  exists t rest, b = t :: x00 :: x00 :: x00 :: rest /\ 1 <= b2z t <= 4.
Lemma looks_wireguard b :
  wireguard_msg b -> packetLooksLike b = (packetLooksLikeWireGuard, false).
Proof.
  intros (t & rest & -> & Ht). unfold packetLooksLike.
  assert (looksLikeDisco (t :: x00 :: x00 :: x00 :: rest) = false) as ->.
  { unfold looksLikeDisco. rewrite bool_decide_false, andb_false_r; [done|].
    intros E. injection E as ->. vm_compute in Ht. by destruct Ht as [_ []]. }
  change (Stun.byteAt (t :: x00 :: x00 :: x00 :: rest) 1) with x00.
  rewrite bool_decide_false, andb_false_r by done.
  change (be_get _) with 0. by destruct (_ && _).
Qed.
Lemma looks_stun a c d tID rest :
  length tID = 12%nat -> Z.land (b2z a) 0xc0 = 0 ->
  packetLooksLike (Stun.packet a x01 c d tID rest) = (packetLooksLikeSTUNBinding, false).
Proof.
  intros L Ha. destruct (Stun.packet_parts a x01 c d tID rest L) as (HI & _).
  unfold packetLooksLike. by rewrite HI, Ha, bool_decide_true.
Qed.

(** A VNI as the code makes it: unset, or set to 24 bits. *)
Definition vni_ok (v : Z) : Prop := v = 0 \/ exists x, 0 <= x < 2 ^ 24 /\ v = VNI.Set_ x.
Lemma vni_cases v : vni_ok v -> v = 0 \/ VNI.IsSet v = true /\ VNI.Set_ (VNI.Get v) = v.
Proof.
  intros [->|(x & Hx & ->)]; [by left|]. right. rewrite VNI_Set_IsSet, VNI_Get_Set by lia. done.
Qed.

Lemma disco_delivered seal open self v m dm hp from :
  (forall x, open (seal x) = Some x) -> length self = DiscoPublicRawLen -> vni_ok v ->
  msg_ok m -> received m = inr dm ->
  exists pkt msg, discoPacket seal self v m = inr pkt
    /\ classifyRx hp pkt from = RxDisco msg (MkEpAddr from v) (VNI.IsSet v && isRelayHandshakeMsg m)
    /\ discoSender msg = self /\ openDisco open msg = Some dm.
Proof.
  intros Ho Ls Hv Hm Hd. set (msg := (Magic ++ self) ++ seal (AppendMarshal m [])).
  assert (discoSender msg = self /\ openDisco open msg = Some dm) as Hmsg.
  { unfold discoSender, openDisco, discoHeaderLen, msg. rewrite take_app_length', (drop_app_length' _ _ (_ + _)) by len.
    rewrite drop_app_length, Ho, Parse_AppendMarshal, Hd by done. done. }
  unfold discoPacket. destruct (vni_cases v Hv) as [->|[Hs Hg]].
  - cbn [VNI.IsSet]. change (VNI.IsSet 0) with false. exists msg, msg. split; [done|].
    split; [|done]. unfold classifyRx, msg. rewrite <- app_assoc, looks_magic by (len). done.
  - rewrite Hs. set (h := MkGeneve 0 GeneveProtocolDisco v (isRelayHandshakeMsg m)).
    assert (geneve_ok h) as Hh by (repeat split; done || lia).
    rewrite Encode_spec by done. rstep. change (drop 8 (zeros GeneveFixedHeaderLength)) with (@nil byte).
    rewrite app_nil_r, <- app_assoc, <- app_assoc. exists (geneve_bytes h ++ msg), msg.
    unfold msg. rewrite <- !app_assoc. split; [done|]. rewrite app_assoc. split; [|done].
    fold msg. unfold classifyRx. rewrite <- app_assoc. rewrite looks_geneve by done.
    rewrite looksLikeDisco_Magic by len. change (g_Protocol h =? GeneveProtocolDisco) with true.
    rewrite Decode_geneve_bytes by done. cbn [g_VNI g_Control h zeroGeneve].
    rewrite Hg, orb_false_r, drop_app_length' by (by rewrite length_geneve_bytes). done.
Qed.
Lemma wireguard_delivered v head wg from :
  vni_ok v -> length head = GeneveFixedHeaderLength -> wireguard_msg wg ->
  classifyRx true (wireguardPacket v (head ++ wg)) from = RxWireGuard wg (MkEpAddr from v) (VNI.IsSet v).
Proof.
  intros Hv Lh Hw. unfold wireguardPacket. cbn [g_VNI]. destruct (vni_cases v Hv) as [->|[Hs Hg]].
  - change (VNI.IsSet 0) with false. rewrite drop_app_length' by done.
    unfold classifyRx. by rewrite looks_wireguard.
  - rewrite Hs. set (h := MkGeneve 0 GeneveProtocolWireGuard v false).
    assert (geneve_ok h) as Hh by (repeat split; done || lia).
    rewrite Encode_spec by (done || (rewrite length_app, Lh; unfold GeneveFixedHeaderLength; lia)).
    rewrite drop_app_length' by (by rewrite Lh).
    unfold classifyRx. rewrite looks_geneve, Decode_geneve_bytes by done.
    change (g_Protocol h =? GeneveProtocolDisco) with false.
    change (g_Protocol h =? GeneveProtocolWireGuard) with true.
    cbn [g_VNI h negb vni]. by rewrite Hg, Hs, drop_app_length' by (by rewrite length_geneve_bytes).
Qed.
Lemma stun_delivered tID p hp from :
  length tID = 12%nat -> addr_ok (ip p) -> IsValid p = true ->
  classifyRx hp (Stun.Request tID) from = RxSTUN (Stun.Request tID) from
  /\ classifyRx hp (Stun.Response tID p) from = RxSTUN (Stun.Response tID p) from.
Proof.
  intros L Ha V. unfold classifyRx. split.
  - destruct (Stun.Request_layout tID) as [_ E]. rewrite E at 1. by rewrite looks_stun.
  - rewrite Stun.Response_layout at 1 by done. by rewrite looks_stun.
Qed.

(** Datagrams reach the handler they are meant for. A disco message sent to an address with
    or without a VNI is received as disco, from that address and VNI, with the control flag exactly
    for the relay handshake messages a client sends, under the sender's key and with the payload
    the sender marshalled. A WireGuard packet is received byte for byte, with its Geneve header,
    if any, stripped. A STUN request or response goes to the STUN handler. *)
Theorem datagrams_delivered seal open self v m dm head wg tID p hp from :
  (forall x, open (seal x) = Some x) -> length self = DiscoPublicRawLen -> vni_ok v ->
  msg_ok m -> received m = inr dm ->
  length head = GeneveFixedHeaderLength -> wireguard_msg wg ->
  length tID = 12%nat -> addr_ok (ip p) -> IsValid p = true ->
  (exists pkt msg, discoPacket seal self v m = inr pkt
     /\ classifyRx hp pkt from = RxDisco msg (MkEpAddr from v) (VNI.IsSet v && isRelayHandshakeMsg m)
     /\ discoSender msg = self /\ openDisco open msg = Some dm)
  /\ classifyRx true (wireguardPacket v (head ++ wg)) from
     = RxWireGuard wg (MkEpAddr from v) (VNI.IsSet v)
  /\ classifyRx hp (Stun.Request tID) from = RxSTUN (Stun.Request tID) from
  /\ classifyRx hp (Stun.Response tID p) from = RxSTUN (Stun.Response tID p) from.
Proof.
  intros. split; [by eapply disco_delivered|].
  split; [by apply wireguard_delivered|by apply stun_delivered].
Qed.

Definition ex_from : AddrPort := MkAddrPort (Addr4 0x0a000001) 41641.
Definition ex_answer : Message :=
  MBindUDPRelayEndpointAnswer (MkBindCommon 9 1 (replicate 32 x05) (replicate 32 x06)).
Lemma datagrams_delivered_witness :
  (exists pkt msg, discoPacket (cons x00) (replicate 32 x01) (VNI.Set_ 9) ex_answer = inr pkt
     /\ classifyRx true pkt ex_from = RxDisco msg (MkEpAddr ex_from (VNI.Set_ 9)) true
     /\ discoSender msg = replicate 32 x01 /\ openDisco (fun b => Some (tail b)) msg = Some ex_answer)
  /\ classifyRx true (wireguardPacket (VNI.Set_ 9) (zeros 8 ++ [x04; x00; x00; x00; x2a])) ex_from
     = RxWireGuard [x04; x00; x00; x00; x2a] (MkEpAddr ex_from (VNI.Set_ 9)) true.
Proof.
  destruct (datagrams_delivered (cons x00) (fun b => Some (tail b)) (replicate 32 x01) (VNI.Set_ 9)
    ex_answer ex_answer (zeros 8) [x04; x00; x00; x00; x2a] (replicate 12 x07) ex_from true ex_from)
    as (A & B & _); try done.
  - right. exists 9. split; [lia|done].
  - exists x04, [x2a]. split; [done|]. vm_compute. split; discriminate.
Defined.
