(* ===== verification/UdpRelay.v ===== *)
(** * The UDP relay server (net/udprelay/server.go, metrics.go)

    Endpoint objects live in a store and the two indexes hold pointers, because a packet handler
    works on the endpoint it looked up even after the garbage collector removed it. The two
    relay legs are indexed by [bool] ([false] is 0). The nacl box of each client's shared key and
    the keyed BLAKE2s hash are parameters. Sockets, address discovery and logging are left out. *)
From Stdlib Require Import String.
From S2P Require Import Prelude Netip Bytes Slices Disco Stun Packet.

Module UdpRelay.

Definition defaultBindLifetime : Z := 30 * 1000000000.
Definition defaultSteadyStateLifetime : Z := 5 * 60 * 1000000000.
Definition macSecretRotationInterval : Z := 2 * 60 * 1000000000.
Definition minVNI : Z := 1.
Definition maxVNI : Z := Z.shiftl 1 24 - 1.
Definition totalPossibleVNI : positive := Z.to_pos (maxVNI - minVNI + 1).
Definition ServerRetryAfter : Z := 3 * 1000000000.

(** Arrays of length two. *)
Definition at_ {A} (p : A * A) (i : bool) : A := if i then p.2 else p.1.
Definition put_ {A} (p : A * A) (i : bool) (x : A) : A * A := if i then (p.1, x) else (x, p.2).

Record serverEndpoint := MkServerEndpoint {
  discoPubKeys : bytes * bytes;
  se_lamportID : Z;
  se_vni : Z;
  allocatedAt : Z;
  se_closed : bool;
  inProgressGeneration : Z * Z;
  boundAddrPorts : AddrPort * AddrPort;
  lastSeen : Z * Z;
  packetsRx : Z * Z;
  bytesRx : Z * Z
}.
Inductive endpointState := endpointClosed | endpointConnecting | endpointOpen.
#[export] Instance endpointState_eq_dec : EqDecision endpointState.
Proof. solve_decision. Defined.

Definition isBoundLocked (e : serverEndpoint) : bool :=
  IsValid (boundAddrPorts e).1 && IsValid (boundAddrPorts e).2.
Definition stateLocked (e : serverEndpoint) : endpointState :=
  if se_closed e then endpointClosed
  else if IsValid (boundAddrPorts e).1 && IsValid (boundAddrPorts e).2 then endpointOpen
  else endpointConnecting.

(** ** The gauges of metrics.go: the user metric and the client metric of each state *)
Record metrics := MkMetrics { u_connecting : Z; u_open : Z; c_connecting : Z; c_open : Z }.
Definition gaugeAdd (st : endpointState) (d : Z) (m : metrics) : metrics :=
  match st with
  | endpointClosed => m
  | endpointConnecting => MkMetrics (u_connecting m + d) (u_open m) (c_connecting m + d) (c_open m)
  | endpointOpen => MkMetrics (u_connecting m) (u_open m + d) (c_connecting m) (c_open m + d)
  end.
Definition updateEndpoint (before after : endpointState) (m : metrics) : metrics :=
  if bool_decide (before = after) then m else gaugeAdd after 1 (gaugeAdd before (-1) m).
(** The gauges part of [deregisterMetrics]. *)
Definition deregisterMetrics (m : metrics) : metrics := MkMetrics (u_connecting m) (u_open m) 0 0.

(** ** The server *)
Record Server := MkServer {
  macSecrets : list bytes;
  macSecretRotatedAt : Z;
  staticAddrPorts : list AddrPort;
  dynamicAddrPorts : list AddrPort;
  sv_closed : bool;
  lamportID : Z;
  nextVNI : Z;
  serverEndpointByVNI : gmap Z nat;
  serverEndpointByDisco : gmap (bytes * bytes) nat;
  sv_heap : gmap nat serverEndpoint;
  sv_next : nat;
  sv_metrics : metrics
}.
Definition NewServer : Server := MkServer [] 0 [] [] false 0 minVNI ∅ ∅ ∅ 0 (MkMetrics 0 0 0 0).

(** [endpoint.ServerEndpoint] *)
Record ServerEndpoint := MkSE {
  ServerDisco : bytes; ClientDisco : bytes * bytes; LamportID : Z; AddrPorts : list AddrPort;
  VNI_ : Z; BindLifetime : Z; SteadyStateLifetime : Z
}.
Inductive allocErr := ErrServerClosed | ErrServerNotReady (RetryAfter : Z) | errClientIsServer | errVNIExhausted.

Definition with_heap (f : gmap nat serverEndpoint -> gmap nat serverEndpoint) (s : Server) : Server :=
  MkServer (macSecrets s) (macSecretRotatedAt s) (staticAddrPorts s) (dynamicAddrPorts s) (sv_closed s)
    (lamportID s) (nextVNI s) (serverEndpointByVNI s) (serverEndpointByDisco s) (f (sv_heap s)) (sv_next s)
    (sv_metrics s).
Definition with_metrics (m : metrics) (s : Server) : Server :=
  MkServer (macSecrets s) (macSecretRotatedAt s) (staticAddrPorts s) (dynamicAddrPorts s) (sv_closed s)
    (lamportID s) (nextVNI s) (serverEndpointByVNI s) (serverEndpointByDisco s) (sv_heap s) (sv_next s) m.
Definition with_nextVNI (v : Z) (s : Server) : Server :=
  MkServer (macSecrets s) (macSecretRotatedAt s) (staticAddrPorts s) (dynamicAddrPorts s) (sv_closed s)
    (lamportID s) v (serverEndpointByVNI s) (serverEndpointByDisco s) (sv_heap s) (sv_next s) (sv_metrics s).
Definition with_secrets (l : list bytes) (at' : Z) (s : Server) : Server :=
  MkServer l at' (staticAddrPorts s) (dynamicAddrPorts s) (sv_closed s)
    (lamportID s) (nextVNI s) (serverEndpointByVNI s) (serverEndpointByDisco s) (sv_heap s) (sv_next s)
    (sv_metrics s).
Definition with_addrs (st dy : list AddrPort) (s : Server) : Server :=
  MkServer (macSecrets s) (macSecretRotatedAt s) st dy (sv_closed s)
    (lamportID s) (nextVNI s) (serverEndpointByVNI s) (serverEndpointByDisco s) (sv_heap s) (sv_next s)
    (sv_metrics s).

(** ** Secrets: the newest first, at most two *)
Definition maybeRotateMACSecretLocked (now : Z) (rnd : bytes) (s : Server) : Server :=
  if negb (Mono.IsZero (macSecretRotatedAt s))
     && (Mono.Sub now (macSecretRotatedAt s) <? macSecretRotationInterval) then s
  else
    let secrets := match macSecrets s with [] => [rnd] | x :: _ => [rnd; x] end in
    with_secrets secrets now s.
Definition getMACSecrets (now : Z) (rnd : bytes) (s : Server) : Server * list bytes :=
  let s := maybeRotateMACSecretLocked now rnd s in (s, macSecrets s).

(** ** VNIs *)

(** [for range n { ... }] with a body that may return. *)
Fixpoint forRange {S R} (n : positive) (body : S -> S + R) (s : S) : S + R :=
  match n with
  | xH => body s
  | xO n' => match forRange n' body s with inl s => forRange n' body s | inr r => inr r end
  | xI n' =>
      match body s with
      | inl s => match forRange n' body s with inl s => forRange n' body s | inr r => inr r end
      | inr r => inr r
      end
  end.
Definition nextOf (vni : Z) : Z := if vni =? maxVNI then minVNI else vni + 1.
Definition getNextVNILocked (s : Server) : Server * option Z :=
  match forRange totalPossibleVNI
          (fun next : Z =>
             let vni := next in
             match serverEndpointByVNI s !! vni with
             | None => inr (nextOf vni, vni)
             | Some _ => inl (nextOf vni)
             end) (nextVNI s) with
  | inr (next, vni) => (with_nextVNI next s, Some vni)
  | inl next => (with_nextVNI next s, None)
  end.
Definition getAllAddrPortsCopyLocked (s : Server) : list AddrPort :=
  staticAddrPorts s ++ dynamicAddrPorts s.

(** What a handler returns: nothing, or bytes and where to. [macSecrets.At(0)] panics on an empty
    slice. *)
Inductive srvOut := NoWrite | Write (b : bytes) (to : AddrPort) | SrvPanic.

(** [key.NewSortedPairOfDiscoPublic] *)
Definition NewSortedPairOfDiscoPublic (a b : bytes) : bytes * bytes :=
  if Compare a b <? 0 then (a, b) else (b, a).

Section Server.
Context `{MapRange} (discoPublic : bytes) (bindLifetime steadyStateLifetime : Z).
Context (seal : bytes -> bytes -> bytes) (open : bytes -> bytes -> option bytes).
Context (blake2s : bytes -> bytes -> bytes).

(** ** [AllocateEndpoint] *)
Definition AllocateEndpoint (discoA discoB : bytes) (now : Z) (s : Server)
  : Server * (allocErr + ServerEndpoint) :=
  if sv_closed s then (s, inl ErrServerClosed)
  else if (length (staticAddrPorts s) =? 0)%nat && (length (dynamicAddrPorts s) =? 0)%nat
  then (s, inl (ErrServerNotReady ServerRetryAfter))
  else if (Compare discoA discoPublic =? 0) || (Compare discoB discoPublic =? 0) then (s, inl errClientIsServer)
  else
    let pair := NewSortedPairOfDiscoPublic discoA discoB in
    let resp s e := MkSE discoPublic pair (se_lamportID e) (getAllAddrPortsCopyLocked s) (se_vni e)
                         bindLifetime steadyStateLifetime in
    match serverEndpointByDisco s !! pair ≫= fun p => sv_heap s !! p with
    | Some e => (s, inr (resp s e))
    | None =>
        let '(s, vni) := getNextVNILocked s in
        match vni with
        | None => (s, inl errVNIExhausted)
        | Some vni =>
            let lam := uw 64 (lamportID s + 1) in
            let e := MkServerEndpoint pair lam vni now false (0, 0) (zeroAddrPort, zeroAddrPort)
                       (0, 0) (0, 0) (0, 0) in
            let p := sv_next s in
            let s := MkServer (macSecrets s) (macSecretRotatedAt s) (staticAddrPorts s) (dynamicAddrPorts s)
                       (sv_closed s) lam (nextVNI s) (<[vni := p]> (serverEndpointByVNI s))
                       (<[pair := p]> (serverEndpointByDisco s)) (<[p := e]> (sv_heap s)) (S p)
                       (updateEndpoint endpointClosed endpointConnecting (sv_metrics s)) in
            (s, inr (resp s e))
        end
    end.

(** ** The handshake *)

(** [AddrPort.AppendBinary]: the address (with its zone), then the port in little endian. *)
Definition zoneBytes (z : string) : bytes := String.list_byte_of_string z.
Definition AppendBinary (p : AddrPort) : bytes :=
  (match ip p with
   | AddrZero => []
   | Addr4 a => be_put 4 a
   | Addr6 a z => be_put 16 a ++ zoneBytes z
   end) ++ reverse (be_put 2 (port p)).
Definition macInput (src : AddrPort) (msg : BindUDPRelayEndpointCommon) : bytes :=
  be_put 4 (bc_VNI msg) ++ be_put 4 (bc_Generation msg) ++ bc_RemoteKey msg ++ AppendBinary src.
Definition blakeMACFromBindMsg (blakeKey : bytes) (src : AddrPort) (msg : BindUDPRelayEndpointCommon) : bytes :=
  blake2s blakeKey (macInput src msg).

Definition validateVNIAndRemoteKey (e : serverEndpoint) (senderIndex : bool) (c : BindUDPRelayEndpointCommon) : bool :=
  (bc_VNI c =? se_vni e) && (Compare (bc_RemoteKey c) (at_ (discoPubKeys e) (negb senderIndex)) =? 0).

(** The challenge, and the datagram that carries it. *)
Definition challengeFor (e : serverEndpoint) (senderIndex : bool) (secret : bytes) (from : AddrPort) (gen : Z)
  : BindUDPRelayEndpointCommon :=
  let m := MkBindCommon (se_vni e) gen (at_ (discoPubKeys e) (negb senderIndex)) (zeros 32) in
  MkBindCommon (bc_VNI m) (bc_Generation m) (bc_RemoteKey m) (blakeMACFromBindMsg secret from m).
Definition challengeReply (e : serverEndpoint) (senderIndex : bool) (gen : Z) (macSecrets : list bytes)
    (from : AddrPort) : srvOut :=
  match Encode (MkGeneve 0 GeneveProtocolDisco (VNI.Set_ (se_vni e)) true) (zeros GeneveFixedHeaderLength) with
  | inl _ => NoWrite
  | inr reply =>
      let reply := reply ++ Magic in
      let reply := reply ++ discoPublic in
      match macSecrets with
      | [] => SrvPanic
      | secret :: _ =>
          Write (reply ++ seal (at_ (discoPubKeys e) senderIndex)
                   (AppendMarshal (MBindUDPRelayEndpointChallenge (challengeFor e senderIndex secret from gen)) []))
            from
      end
  end.

Definition with_gen (e : serverEndpoint) (g : Z * Z) : serverEndpoint :=
  MkServerEndpoint (discoPubKeys e) (se_lamportID e) (se_vni e) (allocatedAt e) (se_closed e) g
    (boundAddrPorts e) (lastSeen e) (packetsRx e) (bytesRx e).
Definition with_bound (e : serverEndpoint) (b : AddrPort * AddrPort) : serverEndpoint :=
  MkServerEndpoint (discoPubKeys e) (se_lamportID e) (se_vni e) (allocatedAt e) (se_closed e)
    (inProgressGeneration e) b (lastSeen e) (packetsRx e) (bytesRx e).
Definition with_lastSeen (e : serverEndpoint) (l : Z * Z) : serverEndpoint :=
  MkServerEndpoint (discoPubKeys e) (se_lamportID e) (se_vni e) (allocatedAt e) (se_closed e)
    (inProgressGeneration e) (boundAddrPorts e) l (packetsRx e) (bytesRx e).
Definition with_rx (e : serverEndpoint) (p b : Z * Z) : serverEndpoint :=
  MkServerEndpoint (discoPubKeys e) (se_lamportID e) (se_vni e) (allocatedAt e) (se_closed e)
    (inProgressGeneration e) (boundAddrPorts e) (lastSeen e) p b.
Definition with_closed (e : serverEndpoint) : serverEndpoint :=
  MkServerEndpoint (discoPubKeys e) (se_lamportID e) (se_vni e) (allocatedAt e) true
    (inProgressGeneration e) (boundAddrPorts e) (lastSeen e) (packetsRx e) (bytesRx e).

Definition handleDiscoControlMsg (from : AddrPort) (senderIndex : bool) (discoMsg : Message)
    (macSecrets : list bytes) (now : Z) (m : metrics) (e : serverEndpoint)
  : serverEndpoint * metrics * srvOut :=
  let lastState := stateLocked e in
  if bool_decide (lastState = endpointClosed) then (e, m, NoWrite)
  else
    match discoMsg with
    | MBindUDPRelayEndpoint c =>
        if negb (validateVNIAndRemoteKey e senderIndex c) then (e, m, NoWrite)
        else if bc_Generation c =? 0 then (e, m, NoWrite)
        else
          let e := with_gen e (put_ (inProgressGeneration e) senderIndex (bc_Generation c)) in
          (e, m, challengeReply e senderIndex (bc_Generation c) macSecrets from)
    | MBindUDPRelayEndpointAnswer c =>
        if negb (validateVNIAndRemoteKey e senderIndex c) then (e, m, NoWrite)
        else
          let generation := at_ (inProgressGeneration e) senderIndex in
          if (generation =? 0) || negb (generation =? bc_Generation c) then (e, m, NoWrite)
          else if existsb (fun secret => bool_decide (blakeMACFromBindMsg secret from c = bc_Challenge c)) macSecrets
          then
            let e := with_bound e (put_ (boundAddrPorts e) senderIndex from) in
            let m := updateEndpoint lastState (stateLocked e) m in
            let e := with_lastSeen e (put_ (lastSeen e) senderIndex now) in
            (with_gen e (put_ (inProgressGeneration e) senderIndex 0), m, NoWrite)
          else (e, m, NoWrite)
    | _ => (e, m, NoWrite)
    end.

(** The sender's index and message, once opened and parsed. *)
Definition openControlMsg (b : bytes) (e : serverEndpoint) : option (bool * Message) :=
  sender ← Source b;
  senderIndex ← (if Compare sender (discoPubKeys e).1 =? 0 then Some false
                 else if Compare sender (discoPubKeys e).2 =? 0 then Some true else None);
  discoPayload ← open (at_ (discoPubKeys e) senderIndex) (drop (length Magic + DiscoPublicRawLen) b);
  match Parse discoPayload with
  | inl _ => None
  | inr discoMsg => Some (senderIndex, discoMsg)
  end.
Definition handleSealedDiscoControlMsg (from : AddrPort) (b : bytes) (macSecrets : list bytes) (now : Z)
    (m : metrics) (e : serverEndpoint) : serverEndpoint * metrics * srvOut :=
  match openControlMsg b e with
  | None => (e, m, NoWrite)
  | Some (senderIndex, discoMsg) => handleDiscoControlMsg from senderIndex discoMsg macSecrets now m e
  end.

Definition countRx (e : serverEndpoint) (i : bool) (now : Z) (n : nat) : serverEndpoint :=
  let e := with_lastSeen e (put_ (lastSeen e) i now) in
  with_rx e (put_ (packetsRx e) i (uw 64 (at_ (packetsRx e) i + 1)))
            (put_ (bytesRx e) i (uw 64 (at_ (bytesRx e) i + Z.of_nat n))).
Definition handleDataPacket (from : AddrPort) (b : bytes) (now : Z) (e : serverEndpoint)
  : serverEndpoint * srvOut :=
  if negb (isBoundLocked e) then (e, NoWrite)
  else if bool_decide (stateLocked e = endpointClosed) then (e, NoWrite)
  else if bool_decide (from = (boundAddrPorts e).1)
  then (countRx e false now (length b), Write b (boundAddrPorts e).2)
  else if bool_decide (from = (boundAddrPorts e).2)
  then (countRx e true now (length b), Write b (boundAddrPorts e).1)
  else (e, NoWrite).

(** ** Expiry *)
Definition isExpiredLocked (now : Z) (e : serverEndpoint) : bool :=
  if negb (isBoundLocked e) then bindLifetime <? Mono.Sub now (allocatedAt e)
  else (steadyStateLifetime <? Mono.Sub now (lastSeen e).1)
       || (steadyStateLifetime <? Mono.Sub now (lastSeen e).2).
Definition maybeExpire (now : Z) (m : metrics) (e : serverEndpoint) : serverEndpoint * metrics * bool :=
  let before := stateLocked e in
  if isExpiredLocked now e then
    let e := with_closed e in (e, updateEndpoint before (stateLocked e) m, true)
  else (e, m, false).
(** One turn of the loop over [serverEndpointByDisco]. *)
Definition gcStep (now : Z) (s : Server) (x : (bytes * bytes) * nat) : Server :=
  match sv_heap s !! x.2 with
  | None => s
  | Some v =>
      let '(v, m, expired) := maybeExpire now (sv_metrics s) v in
      let s := with_metrics m (with_heap <[x.2 := v]> s) in
      if expired then
        MkServer (macSecrets s) (macSecretRotatedAt s) (staticAddrPorts s) (dynamicAddrPorts s) (sv_closed s)
          (lamportID s) (nextVNI s) (delete (se_vni v) (serverEndpointByVNI s))
          (delete x.1 (serverEndpointByDisco s)) (sv_heap s) (sv_next s) (sv_metrics s)
      else s
  end.
Definition endpointGC (now : Z) (s : Server) : Server :=
  foldl (gcStep now) s (map_range (serverEndpointByDisco s)).

(** ** Packets

    [handlePacket] in its three critical sections: the index lookup, the clock and the secrets,
    the work on the endpoint. Other operations may run between them. *)
Inductive inflight :=
| Loaded (p : nat) (gh : GeneveHeader) (from : AddrPort) (b : bytes)
| ControlMsg (p : nat) (from : AddrPort) (msg : bytes) (secrets : list bytes) (now : Z)
| DataMsg (p : nat) (from : AddrPort) (b : bytes) (now : Z).

Definition rxLookup (from : AddrPort) (b : bytes) (s : Server) : option inflight :=
  if Stun.Is b && bool_decide (Stun.byteAt b 1 = x01) then None
  else match Decode zeroGeneve b with
  | inl _ => None
  | inr gh => (fun p => Loaded p gh from b) <$> serverEndpointByVNI s !! VNI.Get (g_VNI gh)
  end.
Definition rxPrepare (p : nat) (gh : GeneveHeader) (from : AddrPort) (b : bytes) (now : Z) (rnd : bytes) (s : Server)
  : Server * option inflight :=
  if g_Control gh then
    if negb (g_Protocol gh =? GeneveProtocolDisco) then (s, None)
    else
      let msg := drop GeneveFixedHeaderLength b in
      let '(s, secrets) := getMACSecrets now rnd s in
      (s, Some (ControlMsg p from msg secrets now))
  else (s, Some (DataMsg p from b now)).
Definition rxFinish (i : inflight) (s : Server) : Server * srvOut :=
  match i with
  | Loaded _ _ _ _ => (s, NoWrite)
  | ControlMsg p from msg secrets now =>
      match sv_heap s !! p with
      | None => (s, NoWrite)
      | Some e =>
          let '(e, m, out) := handleSealedDiscoControlMsg from msg secrets now (sv_metrics s) e in
          (with_metrics m (with_heap <[p := e]> s), out)
      end
  | DataMsg p from b now =>
      match sv_heap s !! p with
      | None => (s, NoWrite)
      | Some e => let '(e, out) := handleDataPacket from b now e in (with_heap <[p := e]> s, out)
      end
  end.
Definition isData (i : inflight) : bool := match i with DataMsg _ _ _ _ => true | _ => false end.
Definition handlePacket (from : AddrPort) (b : bytes) (now : Z) (rnd : bytes) (s : Server)
  : Server * srvOut * bool :=
  match rxLookup from b s with
  | Some (Loaded p gh from b) =>
      match rxPrepare p gh from b now rnd s with
      | (s, Some i) => (rxFinish i s, isData i)
      | (s, None) => (s, NoWrite, false)
      end
  | _ => (s, NoWrite, false)
  end.

(** ** One batch of [packetReadLoop] *)

(** A write on the socket the batch was read from, or on the other one. *)
Record socketWrite := MkSocketWrite { sw_other : bool; sw_dest : AddrPort; sw_buffs : list bytes }.
Record forwarded := MkForwarded { bytes4 : Z; packets4 : Z; bytes6 : Z; packets6 : Z }.
Notation batchState := (Server * gmap AddrPort (list bytes) * forwarded)%type.
Definition countOut (to : AddrPort) (write : bytes) (f : forwarded) : forwarded :=
  if Is4 (ip to)
  then MkForwarded (i64 (bytes4 f + Z.of_nat (length write))) (i64 (packets4 f + 1)) (bytes6 f) (packets6 f)
  else MkForwarded (bytes4 f) (packets4 f) (i64 (bytes6 f + Z.of_nat (length write))) (i64 (packets6 f + 1)).
(** A message read, with the clock and the random bytes its handling meets. *)
Record rxMsg := MkRxMsg { m_from : AddrPort; m_buf : bytes; m_now : Z; m_rnd : bytes }.
Definition batchMsg (haveOther : bool) (st : option batchState) (msg : rxMsg) : option batchState :=
  '(s, w, f) ← st;
  if (length (m_buf msg) =? 0)%nat then Some (s, w, f)
  else
    match handlePacket (m_from msg) (m_buf msg) (m_now msg) (m_rnd msg) s with
    | (_, SrvPanic, _) => None
    | (s, NoWrite, _) => Some (s, w, f)
    | (s, Write b to, isDataPacket) =>
        if negb (IsValid to) then Some (s, w, f)
        else
          let f := if isDataPacket then countOut to b f else f in
          if Bool.eqb (Is4 (ip (m_from msg))) (Is4 (ip to)) || haveOther
          then Some (s, <[to := default [] (w !! to) ++ [b]]> w, f)
          else Some (s, w, f)
    end.
(** [None] is the panic of a nil [otherSocket] or of an empty secret list. *)
Definition writeOut (is4 haveOther : bool) (w : gmap AddrPort (list bytes)) : option (list socketWrite) :=
  mapM (fun x => if Bool.eqb (Is4 (ip x.1)) is4 then Some (MkSocketWrite false x.1 x.2)
                 else if haveOther then Some (MkSocketWrite true x.1 x.2) else None)
       (map_range w).
Definition readBatch (is4 haveOther : bool) (msgs : list rxMsg) (s : Server)
  : option (Server * list socketWrite * forwarded) :=
  '(s, w, f) ← foldl (batchMsg haveOther) (Some (s, ∅, MkForwarded 0 0 0 0)) msgs;
  ws ← writeOut is4 haveOther w;
  Some (s, ws, f).

Definition Close (s : Server) : Server :=
  if sv_closed s then s
  else MkServer (macSecrets s) (macSecretRotatedAt s) (staticAddrPorts s) (dynamicAddrPorts s) true
    (lamportID s) (nextVNI s) ∅ ∅ (sv_heap s) (sv_next s) (deregisterMetrics (sv_metrics s)).
Definition SetStaticAddrPorts (l : list AddrPort) (s : Server) : Server := with_addrs l (dynamicAddrPorts s) s.
(** The result of a turn of [addrDiscoveryLoop] is stored. *)
Definition setDynamicAddrPorts (l : list AddrPort) (s : Server) : Server := with_addrs (staticAddrPorts s) l s.

(** ** [GetSessions] *)
Record ClientInfo := MkClientInfo { Endpoint : AddrPort; ci_disco : bytes; PacketsTx : Z; BytesTx : Z }.
Record ServerSession := MkServerSession { ss_VNI : Z; Client1 : ClientInfo; Client2 : ClientInfo }.
Definition extractClientInfo (e : serverEndpoint) (i : bool) : ClientInfo :=
  MkClientInfo (at_ (boundAddrPorts e) i) (at_ (discoPubKeys e) i) (at_ (packetsRx e) i) (at_ (bytesRx e) i).
Definition GetSessions (s : Server) : list ServerSession :=
  if sv_closed s then []
  else omap (fun x => e ← sv_heap s !! x.2;
                      Some (MkServerSession (se_vni e) (extractClientInfo e false) (extractClientInfo e true)))
         (map_range (serverEndpointByDisco s)).
End Server.
End UdpRelay.
