(* ===== verification/UdpRelayProps.v ===== *)
(** * Theorems about the UDP relay server

    VNI allocation, the consistency of the two endpoint indexes and the gauges under every
    interleaving of packet handling with allocation and garbage collection, what a bound address
    proves, forwarding, and the three-way handshake end to end with the packets clients send. *)
From Stdlib Require Import String.
From S2P Require Import Prelude Netip Bytes Slices Disco Stun Packet UdpRelay.

Module UdpRelayProps.
Import UdpRelay.

#[local] Arguments be_put : simpl never.
#[local] Arguments be_get : simpl never.

(** ** [for range n] *)
Fixpoint forNat {S R} (n : nat) (body : S -> S + R) (s : S) : S + R :=
  match n with
  | O => inl s
  | S n => match body s with inl s => forNat n body s | inr r => inr r end
  end.
Lemma forNat_add {S R} n m (body : S -> S + R) s :
  forNat (n + m) body s = match forNat n body s with inl s => forNat m body s | inr r => inr r end.
Proof. revert s. induction n as [|n IH]; intros s; simpl; [done|]. destruct (body s); [apply IH|done]. Qed.
Lemma forRange_nat {S R} n (body : S -> S + R) s : forRange n body s = forNat (Pos.to_nat n) body s.
Proof.
  revert s. induction n as [n IH|n IH|]; intros s; cbn [forRange].
  - rewrite Pos2Nat.inj_xI. cbn [forNat Nat.mul]. destruct (body s) as [s'|r]; [|done].
    rewrite Nat.add_0_r, forNat_add, IH. destruct (forNat _ body s'); [apply IH|done].
  - rewrite Pos2Nat.inj_xO. cbn [forNat Nat.mul]. rewrite Nat.add_0_r, forNat_add, IH. destruct (forNat _ body s); [apply IH|done].
  - simpl. by destruct (body s).
Qed.

(** ** VNIs *)

(** The [k]-th VNI tried from [v] on. *)
Definition cyc (v : Z) (k : Z) : Z := minVNI + (v - minVNI + k) mod maxVNI.
Definition vni_range (v : Z) : Prop := minVNI <= v <= maxVNI.
Lemma maxVNI_val : maxVNI = 16777215. Proof. done. Qed.
Lemma minVNI_val : minVNI = 1. Proof. done. Qed.
Lemma total_val : Z.of_nat (Pos.to_nat totalPossibleVNI) = maxVNI.
Proof. rewrite positive_nat_Z. reflexivity. Qed.
Lemma cyc_0 v : vni_range v -> cyc v 0 = v.
Proof.
  unfold vni_range, cyc. rewrite minVNI_val. intros Hv. rewrite Z.add_0_r, Z.mod_small; lia.
Qed.
Lemma cyc_range v k : vni_range (cyc v k).
Proof.
  unfold vni_range, cyc. pose proof maxVNI_val. pose proof (Z.mod_pos_bound (v - minVNI + k) maxVNI).
  rewrite minVNI_val in *. lia.
Qed.
Lemma nextOf_range v : vni_range v -> vni_range (nextOf v).
Proof.
  unfold vni_range, nextOf. intros. pose proof minVNI_val; pose proof maxVNI_val.
  destruct (Z.eqb_spec v maxVNI); lia.
Qed.
Lemma cyc_nextOf v k : vni_range v -> cyc (nextOf v) k = cyc v (k + 1).
Proof.
  unfold vni_range, nextOf, cyc. intros Hv. rewrite minVNI_val, maxVNI_val in *.
  destruct (Z.eqb_spec v 16777215) as [->|].
  - replace (16777215 - 1 + (k + 1)) with (1 - 1 + k + 1 * 16777215) by lia.
    by rewrite Z.mod_add by lia.
  - do 2 f_equal. lia.
Qed.
(** Every VNI is among the candidates. *)
Lemma cyc_onto v w : vni_range v -> vni_range w -> exists k, 0 <= k < maxVNI /\ cyc v k = w.
Proof.
  unfold vni_range, cyc. rewrite minVNI_val, maxVNI_val. intros Hv Hw.
  exists ((w - v) mod 16777215). split; [apply Z.mod_pos_bound; lia|].
  rewrite Z.add_mod_idemp_r by lia. replace (v - 1 + (w - v)) with (w - 1) by lia.
  rewrite Z.mod_small; lia.
Qed.

Definition vniBody (m : gmap Z nat) (next : Z) : Z + Z * Z :=
  match m !! next with None => inr (nextOf next, next) | Some _ => inl (nextOf next) end.
Lemma vniLoop_spec m n v :
  vni_range v ->
  match forNat n (vniBody m) v with
  | inl v' => vni_range v' /\ forall k, 0 <= k < Z.of_nat n -> is_Some (m !! cyc v k)
  | inr (next, w) => next = nextOf w /\ m !! w = None
      /\ exists k, 0 <= k < Z.of_nat n /\ w = cyc v k /\ forall j, 0 <= j < k -> is_Some (m !! cyc v j)
  end.
Proof.
  revert v. induction n as [|n IH]; intros v Hv; simpl; [split; [done|lia]|].
  unfold vniBody at 1. destruct (m !! v) as [p|] eqn:E.
  - specialize (IH _ (nextOf_range _ Hv)).
    assert (forall j, 0 <= j -> is_Some (m !! cyc v (j - 1 + 1)) -> is_Some (m !! cyc v j)) as Hj.
    { intros j _. by replace (j - 1 + 1) with j by lia. }
    assert (is_Some (m !! cyc v 0)) as H0 by (rewrite cyc_0, E by done; eauto).
    destruct (forNat n (vniBody m) (nextOf v)) as [v'|[next w]].
    + destruct IH as [Hr IH]. split; [done|]. intros k Hk. destruct (decide (k = 0)) as [->|]; [done|].
      apply Hj; [lia|]. rewrite <- cyc_nextOf by done. apply IH. lia.
    + destruct IH as (-> & Hw & k & Hk & -> & IH). split; [done|]. split; [done|].
      exists (k + 1). split; [lia|]. split; [by rewrite cyc_nextOf|]. intros j Hj'.
      destruct (decide (j = 0)) as [->|]; [done|]. apply Hj; [lia|].
      rewrite <- cyc_nextOf by done. apply IH. lia.
  - split; [done|]. split; [done|]. exists 0. split; [lia|]. split; [by rewrite cyc_0|lia].
Qed.

Lemma getNextVNI_cases s :
  vni_range (nextVNI s) ->
  match getNextVNILocked s with
  | (s', Some v) => s' = with_nextVNI (nextOf v) s /\ serverEndpointByVNI s !! v = None /\ vni_range v
      /\ exists k, 0 <= k < maxVNI /\ v = cyc (nextVNI s) k
           /\ forall j, 0 <= j < k -> is_Some (serverEndpointByVNI s !! cyc (nextVNI s) j)
  | (s', None) => (exists v', vni_range v' /\ s' = with_nextVNI v' s)
      /\ forall v, vni_range v -> is_Some (serverEndpointByVNI s !! v)
  end.
Proof.
  intros Hv. unfold getNextVNILocked. rewrite forRange_nat. fold (vniBody (serverEndpointByVNI s)).
  pose proof (vniLoop_spec (serverEndpointByVNI s) (Pos.to_nat totalPossibleVNI) _ Hv) as L.
  rewrite total_val in L. destruct (forNat _ _ _) as [v'|[next w]].
  - destruct L as [Hr' L]. split; [eauto|]. intros v Hr.
    destruct (cyc_onto _ _ Hv Hr) as (k & Hk & <-). by apply L.
  - destruct L as (-> & Hw & k & Hk & -> & L). split; [done|]. split; [done|].
    split; [apply cyc_range|]. eauto.
Qed.

(** ** The invariant *)

(** How many endpoints are in a state. *)
Notation in_state st := (fun x : nat * serverEndpoint => stateLocked x.2 = st).
Definition count (st : endpointState) (h : gmap nat serverEndpoint) : Z :=
  Z.of_nat (size (filter (in_state st) h)).
Definition weight (st : endpointState) (e : serverEndpoint) : Z :=
  if decide (stateLocked e = st) then 1 else 0.

Lemma count_insert_new st h p e : h !! p = None -> count st (<[p := e]> h) = weight st e + count st h.
Proof.
  intros Hp. unfold count, weight. rewrite map_filter_insert. simpl. destruct (decide _).
  - rewrite map_size_insert_None; [lia|]. apply map_lookup_filter_None. by left.
  - by rewrite delete_id.
Qed.
Lemma count_insert st h p e e' :
  h !! p = Some e -> count st (<[p := e']> h) = count st h - weight st e + weight st e'.
Proof.
  intros Hp. pose proof (count_insert_new st (delete p h) p e (lookup_delete_eq _ _)) as A.
  pose proof (count_insert_new st (delete p h) p e' (lookup_delete_eq _ _)) as B.
  rewrite insert_delete_id in A by done. rewrite insert_delete_eq in B. lia.
Qed.

(** What the gauges should show. *)
Definition gauges (h : gmap nat serverEndpoint) : Z * Z := (count endpointConnecting h, count endpointOpen h).
Definition user_gauges (m : metrics) : Z * Z := (u_connecting m, u_open m).
Definition client_gauges (m : metrics) : Z * Z := (c_connecting m, c_open m).
Definition gauges_ok (h : gmap nat serverEndpoint) (m : metrics) : Prop :=
  user_gauges m = gauges h /\ client_gauges m = gauges h.
Lemma gauges_insert h m p e e' :
  h !! p = Some e -> gauges_ok h m ->
  gauges_ok (<[p := e']> h) (updateEndpoint (stateLocked e) (stateLocked e') m).
Proof.
  intros Hp [U C]. unfold gauges_ok, gauges, user_gauges, client_gauges in *.
  rewrite !(count_insert _ _ _ e e') by done. unfold weight, updateEndpoint.
  destruct (stateLocked e), (stateLocked e'); simpl in *;
    injection U as -> ->; injection C as -> ->; split; f_equal; lia.
Qed.
Lemma gauges_new h m p e :
  h !! p = None -> stateLocked e = endpointConnecting -> gauges_ok h m ->
  gauges_ok (<[p := e]> h) (updateEndpoint endpointClosed endpointConnecting m).
Proof.
  intros Hp Hs [U C]. unfold gauges_ok, gauges, user_gauges, client_gauges in *.
  rewrite !count_insert_new by done. unfold weight. rewrite Hs. simpl.
  injection U as -> ->; injection C as -> ->; split; f_equal; lia.
Qed.

(** An endpoint at pointer [p]: its Lamport id is [p + 1], its keys are sorted 32-byte keys. *)
Record endpoint_ok (p : nat) (e : serverEndpoint) : Prop := {
  eo_lamport : se_lamportID e = uw 64 (Z.of_nat p + 1);
  eo_vni : vni_range (se_vni e);
  eo_sorted : NewSortedPairOfDiscoPublic (discoPubKeys e).1 (discoPubKeys e).2 = discoPubKeys e;
  eo_len : forall i, length (at_ (discoPubKeys e) i) = DiscoPublicRawLen
}.
Record sv_ok (s : Server) : Prop := {
  so_vni : forall v p, serverEndpointByVNI s !! v = Some p ->
    exists e, sv_heap s !! p = Some e /\ se_vni e = v /\ se_closed e = false;
  so_disco : forall k p, serverEndpointByDisco s !! k = Some p ->
    exists e, sv_heap s !! p = Some e /\ discoPubKeys e = k /\ se_closed e = false;
  so_live : forall p e, sv_heap s !! p = Some e -> se_closed e = false -> sv_closed s = false ->
    serverEndpointByVNI s !! se_vni e = Some p /\ serverEndpointByDisco s !! discoPubKeys e = Some p;
  so_heap : forall p e, sv_heap s !! p = Some e -> (p < sv_next s)%nat /\ endpoint_ok p e;
  so_lamport : lamportID s = uw 64 (Z.of_nat (sv_next s));
  so_next : vni_range (nextVNI s);
  so_gauges : if sv_closed s then client_gauges (sv_metrics s) = (0, 0)
              else gauges_ok (sv_heap s) (sv_metrics s);
  so_secrets : (length (macSecrets s) <= 2)%nat /\ (macSecrets s = [] -> macSecretRotatedAt s = 0);
  so_closed : sv_closed s = true -> serverEndpointByVNI s = ∅ /\ serverEndpointByDisco s = ∅
}.

Lemma NewServer_ok : sv_ok NewServer.
Proof. split; simpl; try done; [..|split; [lia|done]]; intros; by rewrite ?lookup_empty in *. Qed.

(** The endpoint's identity, which no handler changes. *)
Definition identity (e : serverEndpoint) : (bytes * bytes) * Z * Z * Z :=
  (discoPubKeys e, se_lamportID e, se_vni e, allocatedAt e).
Lemma endpoint_ok_identity p e e' : identity e' = identity e -> endpoint_ok p e -> endpoint_ok p e'.
Proof. unfold identity. intros [= E1 E2 E3 E4] [? ? ? ?]. split; rewrite ?E1, ?E2, ?E3; done. Qed.

(** A handler's update of one endpoint and the gauges. *)
Lemma sv_ok_update s p e e' :
  sv_ok s -> sv_closed s = false -> sv_heap s !! p = Some e ->
  identity e' = identity e -> se_closed e' = se_closed e ->
  sv_ok (with_metrics (updateEndpoint (stateLocked e) (stateLocked e') (sv_metrics s)) (with_heap <[p := e']> s)).
Proof.
  intros O Hc Hp Hi Hcl. pose proof Hi as [= I1 _ I3 _].
  assert (forall q x, sv_heap s !! q = Some x -> exists x', <[p := e']> (sv_heap s) !! q = Some x'
            /\ identity x' = identity x /\ se_closed x' = se_closed x) as Hup.
  { intros q x Hq. destruct (decide (q = p)) as [->|]; [|rewrite lookup_insert_ne by done; eauto].
    rewrite lookup_insert_eq. rewrite Hp in Hq. injection Hq as <-. eauto. }
  split; simpl; try apply O.
  - intros v q Hv. destruct (so_vni _ O _ _ Hv) as (x & Hx & <- & Hxc).
    destruct (Hup _ _ Hx) as (x' & ? & [= _ _ ? _] & ?). exists x'. repeat split; congruence.
  - intros v q Hv. destruct (so_disco _ O _ _ Hv) as (x & Hx & <- & Hxc).
    destruct (Hup _ _ Hx) as (x' & ? & [= ? _ _ _] & ?). exists x'. repeat split; congruence.
  - intros q x. rewrite lookup_insert_Some. intros [[<- <-]|[_ Hq]] Hx _.
    + rewrite I1, I3. apply (so_live _ O p e); congruence.
    + by apply (so_live _ O q x).
  - intros q x. rewrite lookup_insert_Some. intros [[<- <-]|[_ Hq]]; [|by apply O].
    destruct (so_heap _ O _ _ Hp). split; [done|]. by eapply endpoint_ok_identity.
  - pose proof (so_gauges _ O) as G. rewrite Hc in *. by apply gauges_insert.
Qed.

Lemma with_secrets_ok x l t s : (length l <= 1)%nat -> sv_ok s -> sv_ok (with_secrets (x :: l) t s).
Proof. intros ? []. split; try done. simpl. split; [lia|done]. Qed.
Lemma with_addrs_ok st dy s : sv_ok s -> sv_ok (with_addrs st dy s).
Proof. intros []. by split. Qed.
Lemma with_nextVNI_ok v s : vni_range v -> sv_ok s -> sv_ok (with_nextVNI v s).
Proof. intros ? []. by split. Qed.
Lemma getMACSecrets_ok now rnd s :
  sv_ok s -> sv_ok (getMACSecrets now rnd s).1 /\ (getMACSecrets now rnd s).2 <> []
    /\ sv_heap (getMACSecrets now rnd s).1 = sv_heap s /\ sv_closed (getMACSecrets now rnd s).1 = sv_closed s.
Proof.
  intros O. unfold getMACSecrets, maybeRotateMACSecretLocked. simpl.
  destruct (_ && _) eqn:E.
  - split; [done|]. split; [|done]. intros N. apply andb_true_iff in E as [E _].
    rewrite (proj2 (so_secrets _ O) N) in E. done.
  - destruct (macSecrets s); (split; [apply with_secrets_ok; simpl; [lia|done]|done]).
Qed.
Lemma Close_ok s : sv_ok s -> sv_ok (Close s).
Proof.
  intros O. unfold Close. destruct (sv_closed s) eqn:E; [done|].
  split; simpl; try done; try apply O; intros; by rewrite ?lookup_empty in *.
Qed.

Lemma Compare_opp a b : Compare b a = - Compare a b.
Proof.
  revert b. induction a as [|x a IH]; intros [|y b]; simpl; try done.
  destruct (Z.ltb_spec (b2z x) (b2z y)), (Z.ltb_spec (b2z y) (b2z x)); try done; lia.
Qed.
Lemma sortedPair_cases a b :
  (NewSortedPairOfDiscoPublic a b = (a, b) \/ NewSortedPairOfDiscoPublic a b = (b, a)).
Proof. unfold NewSortedPairOfDiscoPublic. destruct (_ <? _); eauto. Qed.
(** The pair does not depend on the order of the request, and sorting it again changes nothing. *)
Lemma sortedPair_sym a b : NewSortedPairOfDiscoPublic a b = NewSortedPairOfDiscoPublic b a.
Proof.
  unfold NewSortedPairOfDiscoPublic. rewrite (Compare_opp a b).
  destruct (Z.ltb_spec (Compare a b) 0), (Z.ltb_spec (- Compare a b) 0); try done; try lia.
  assert (Compare a b = 0) as ->%Compare_eq by lia. done.
Qed.
Lemma sortedPair_idem a b :
  let p := NewSortedPairOfDiscoPublic a b in NewSortedPairOfDiscoPublic p.1 p.2 = p.
Proof.
  simpl. destruct (sortedPair_cases a b) as [E|E]; rewrite E; simpl; [done|].
  by rewrite sortedPair_sym.
Qed.

(** ** What the MAC covers *)
Definition from_ok (p : AddrPort) : Prop :=
  match ip p with AddrZero => True | Addr4 a => 0 <= a < 2 ^ 32 | Addr6 a _ => 0 <= a < 2 ^ 128 end
  /\ 0 <= port p < 2 ^ 16.
Lemma be_put_inj n a b : 0 <= a < 2 ^ (8 * Z.of_nat n) -> 0 <= b < 2 ^ (8 * Z.of_nat n) -> be_put n a = be_put n b -> a = b.
Proof. intros Ha Hb E. rewrite <- (be_get_put_small n a), <- (be_get_put_small n b) by done. by rewrite E. Qed.
Lemma zoneBytes_inj z z' : zoneBytes z = zoneBytes z' -> z = z'.
Proof.
  intros E. rewrite <- (String.string_of_list_byte_of_string z), <- (String.string_of_list_byte_of_string z').
  unfold zoneBytes in E. by rewrite E.
Qed.
Lemma AppendBinary_inj p q : from_ok p -> from_ok q -> AppendBinary p = AppendBinary q -> p = q.
Proof.
  destruct p as [a n], q as [b m]. unfold from_ok, AppendBinary. simpl. intros [Ha Hn] [Hb Hm] E.
  apply app_inj_2 in E as [E1 E2]; [|by rewrite !length_reverse, !length_be_put].
  apply (inj reverse), be_put_inj in E2; [|simpl Z.of_nat; lia..]. subst m. f_equal.
  pose proof (f_equal length E1) as L.
  destruct a as [|a|a z], b as [|b|b z']; cbv iota in L, E1;
    rewrite ?length_app, ?length_be_put in L; simpl in L; try done; try lia.
  - f_equal. eapply be_put_inj, E1; simpl Z.of_nat; lia.
  - destruct (app_inj_1 (be_put 16 a) (be_put 16 b) _ _ eq_refl E1) as [E2 ->%zoneBytes_inj]. f_equal.
    eapply be_put_inj, E2; simpl Z.of_nat; lia.
Qed.
Definition bind_ok (c : BindUDPRelayEndpointCommon) : Prop :=
  0 <= bc_VNI c < 2 ^ 32 /\ 0 <= bc_Generation c < 2 ^ 32 /\ length (bc_RemoteKey c) = 32%nat.
Lemma common_bind_ok c : common_ok c -> bind_ok c.
Proof. by intros (A & B & C & _). Qed.
(** The MAC'd bytes determine the VNI, the generation, the remote key and the address. *)
Lemma macInput_inj p q c d :
  from_ok p -> from_ok q -> bind_ok c -> bind_ok d -> macInput p c = macInput q d ->
  p = q /\ bc_VNI c = bc_VNI d /\ bc_Generation c = bc_Generation d /\ bc_RemoteKey c = bc_RemoteKey d.
Proof.
  intros Hp Hq (V & G & L) (V' & G' & L') E. unfold macInput in E.
  apply app_inj_1 in E as [E1 E]; [|by rewrite !length_be_put].
  apply app_inj_1 in E as [E2 E]; [|by rewrite !length_be_put].
  apply app_inj_1 in E as [E3 E]; [|congruence]. apply AppendBinary_inj in E; [|done..].
  apply be_put_inj in E1, E2; try (simpl Z.of_nat; lia). done.
Qed.
Lemma commonDecode_ok b c : commonDecode b = inr c -> common_ok c.
Proof.
  unfold commonDecode. destruct (Nat.ltb_spec (length b) bindUDPRelayEndpointCommonLen) as [|L]; [done|].
  unfold bindUDPRelayEndpointCommonLen, DiscoPublicRawLen, BindUDPRelayChallengeLen in *.
  rewrite cutUint_ok by lia. rstep. rewrite cutUint_ok by (rewrite length_drop; lia). rstep.
  rewrite cut_ok by (rewrite !length_drop; lia). rstep. rewrite cut_ok by (rewrite !length_drop; lia). rstep.
  intros [= <-]. unfold common_ok. simpl. pose proof (be_get_range (take 4 b)) as A.
  pose proof (be_get_range (take 4 (drop 4 b))) as B. rewrite length_take, Nat.min_l in A, B by (rewrite ?length_drop; lia).
  split; [done|]. split; [done|]. split; rewrite length_take, !length_drop; lia.
Qed.
Lemma Parse_bind_ok p c :
  Parse p = inr (MBindUDPRelayEndpoint c) \/ Parse p = inr (MBindUDPRelayEndpointAnswer c) -> common_ok c.
Proof.
  destruct p as [|t [|ver p]]; [by intros []..|]. intros E. apply (commonDecode_ok p).
  destruct (known_type t) eqn:K; [|destruct (Parse_unknown t ver p K) as [U _]; rewrite U in E; by destruct E].
  destruct t; try (vm_compute in K; discriminate K); cbn [Parse] in E; clear K; destruct E as [E|E];
    unfold fmap, sum_fmap in E; match type of E with (match ?x with _ => _ end = _) => destruct x as [|[]] end; congruence.
Qed.

Section Ops.
Context `{MapRange} (discoPublic : bytes) (bindLifetime steadyStateLifetime : Z).
Context (seal : bytes -> bytes -> bytes) (open : bytes -> bytes -> option bytes).
Context (blake2s : bytes -> bytes -> bytes).
Notation AllocateEndpoint := (AllocateEndpoint discoPublic bindLifetime steadyStateLifetime).
Notation gcStep := (gcStep bindLifetime steadyStateLifetime).
Notation endpointGC := (endpointGC bindLifetime steadyStateLifetime).
Notation rxFinish := (rxFinish discoPublic seal open blake2s).
Notation handleDiscoControlMsg := (handleDiscoControlMsg discoPublic seal blake2s).
Notation handleSealedDiscoControlMsg := (handleSealedDiscoControlMsg discoPublic seal open blake2s).

(** ** Allocation *)

(** The server with a new endpoint. *)
Definition allocated (pair : bytes * bytes) (v now : Z) (s : Server) : Server :=
  let lam := uw 64 (lamportID s + 1) in
  MkServer (macSecrets s) (macSecretRotatedAt s) (staticAddrPorts s) (dynamicAddrPorts s) (sv_closed s)
    lam (nextVNI s) (<[v := sv_next s]> (serverEndpointByVNI s)) (<[pair := sv_next s]> (serverEndpointByDisco s))
    (<[sv_next s := MkServerEndpoint pair lam v now false (0, 0) (zeroAddrPort, zeroAddrPort) (0, 0) (0, 0) (0, 0)]>
       (sv_heap s))
    (S (sv_next s)) (updateEndpoint endpointClosed endpointConnecting (sv_metrics s)).
Lemma heap_fresh s : sv_ok s -> sv_heap s !! sv_next s = None.
Proof.
  intros O. destruct (sv_heap s !! sv_next s) eqn:E; [|done]. destruct (so_heap _ O _ _ E). lia.
Qed.
Lemma allocated_ok pair v now s :
  sv_ok s -> sv_closed s = false -> serverEndpointByVNI s !! v = None -> serverEndpointByDisco s !! pair = None ->
  vni_range v -> NewSortedPairOfDiscoPublic pair.1 pair.2 = pair ->
  (forall i, length (at_ pair i) = DiscoPublicRawLen) -> sv_ok (allocated pair v now s).
Proof.
  intros O Hc Hv Hp Rv Hs Hl. pose proof (heap_fresh s O) as F.
  assert (uw 64 (lamportID s + 1) = uw 64 (Z.of_nat (sv_next s) + 1)) as L.
  { rewrite (so_lamport _ O). unfold uw. by rewrite Z.add_mod_idemp_l by lia. }
  split; simpl; try rewrite Hc; try done; try apply O.
  - intros w q. rewrite lookup_insert_Some. intros [[<- <-]|[_ Hw]].
    + rewrite lookup_insert_eq. eauto.
    + destruct (so_vni _ O _ _ Hw) as (x & Hx & Hy). exists x. rewrite lookup_insert_ne by congruence. done.
  - intros w q. rewrite lookup_insert_Some. intros [[<- <-]|[_ Hw]].
    + rewrite lookup_insert_eq. eauto.
    + destruct (so_disco _ O _ _ Hw) as (x & Hx & Hy). exists x. rewrite lookup_insert_ne by congruence. done.
  - intros q x. rewrite lookup_insert_Some. intros [[<- <-]|[_ Hq]] Hx _; simpl; [by rewrite !lookup_insert_eq|].
    destruct (so_live _ O _ _ Hq Hx Hc) as [A B]. rewrite !lookup_insert_ne by congruence. done.
  - intros q x. rewrite lookup_insert_Some. intros [[<- <-]|[_ Hq]].
    + split; [lia|]. by split.
    + destruct (so_heap _ O _ _ Hq). split; [lia|done].
  - rewrite L. f_equal. lia.
  - pose proof (so_gauges _ O) as G. rewrite Hc in G. by apply gauges_new.
Qed.

(** What an allocation request does. *)
Lemma AllocateEndpoint_cases a b now s :
  sv_ok s -> length a = DiscoPublicRawLen -> length b = DiscoPublicRawLen ->
  let pair := NewSortedPairOfDiscoPublic a b in
  let '(s', r) := AllocateEndpoint a b now s in
  sv_ok s' /\ sv_closed s' = sv_closed s /\
  match r with
  | inl ErrServerClosed => sv_closed s = true /\ s' = s
  | inl (ErrServerNotReady _) => sv_closed s = false /\ getAllAddrPortsCopyLocked s = [] /\ s' = s
  | inl errClientIsServer => (a = discoPublic \/ b = discoPublic) /\ s' = s
  | inl errVNIExhausted => sv_heap s' = sv_heap s /\ forall v, vni_range v -> is_Some (serverEndpointByVNI s !! v)
  | inr se => a <> discoPublic /\ b <> discoPublic /\
      ClientDisco se = pair /\ AddrPorts se = getAllAddrPortsCopyLocked s /\ AddrPorts se <> []
      /\ exists p e, sv_heap s' !! p = Some e /\ serverEndpointByDisco s' !! pair = Some p
         /\ serverEndpointByVNI s' !! VNI_ se = Some p /\ se_lamportID e = LamportID se /\ se_vni e = VNI_ se
         /\ ((s' = s /\ serverEndpointByDisco s !! pair = Some p)
             \/ (s' = allocated pair (VNI_ se) now (with_nextVNI (nextOf (VNI_ se)) s) /\ p = sv_next s
                 /\ serverEndpointByVNI s !! VNI_ se = None /\ serverEndpointByDisco s !! pair = None))
  end.
Proof.
  intros O La Lb. simpl. set (pair := NewSortedPairOfDiscoPublic a b). unfold UdpRelay.AllocateEndpoint.
  destruct (sv_closed s) eqn:Ec; [done|].
  destruct (_ && _) eqn:En.
  { apply andb_true_iff in En as [A%Nat.eqb_eq B%Nat.eqb_eq]. apply length_zero_iff_nil in A, B.
    unfold getAllAddrPortsCopyLocked. by rewrite A, B. }
  destruct (_ || _) eqn:Ed.
  { split; [done|]. split; [done|]. split; [|done].
    apply orb_true_iff in Ed as [A%Z.eqb_eq|A%Z.eqb_eq]; rewrite Compare_eq in A; eauto. }
  apply orb_false_iff in Ed as [Da%Z.eqb_neq Db%Z.eqb_neq]. rewrite Compare_eq in Da, Db.
  assert (getAllAddrPortsCopyLocked s <> []) as Hne.
  { unfold getAllAddrPortsCopyLocked. intros [A B]%app_nil. rewrite A, B in En. done. }
  fold pair. destruct (serverEndpointByDisco s !! pair) as [p|] eqn:Ep; simpl.
  - destruct (so_disco _ O _ _ Ep) as (e & He & Hk & Hx). rewrite He. simpl.
    do 7 (split; [done|]). exists p, e. pose proof (so_live _ O _ _ He Hx Ec) as [? ?].
    repeat (split; [done|]). by left.
  - pose proof (getNextVNI_cases s (so_next _ O)) as V. destruct (getNextVNILocked s) as [s1 [v|]].
    + destruct V as (-> & Hv & Rv & _). simpl.
      split; [|split; [done|]; do 5 (split; [done|])].
      * apply (allocated_ok pair v now (with_nextVNI (nextOf v) s)); try done.
        -- apply with_nextVNI_ok; [by apply nextOf_range|done].
        -- apply sortedPair_idem.
        -- intros i. unfold pair. destruct (sortedPair_cases a b) as [-> | ->], i; done.
      * eexists (sv_next s), _. rewrite !lookup_insert_eq. do 5 (split; [done|]). by right.
    + destruct V as ((v' & Hv' & ->) & V). split; [by apply with_nextVNI_ok|]. done.
Qed.

(** ** Garbage collection *)
Lemma expired_ok now s k p e :
  sv_ok s -> sv_closed s = false -> serverEndpointByDisco s !! k = Some p -> sv_heap s !! p = Some e ->
  isExpiredLocked bindLifetime steadyStateLifetime now e = true -> sv_ok (gcStep now s (k, p)).
Proof.
  intros O Hc Hk Hp Ex. unfold UdpRelay.gcStep, maybeExpire. cbn [fst snd]. rewrite Hp, Ex.
  destruct (so_disco _ O _ _ Hk) as (e' & He & Hek & Hec). rewrite Hp in He. injection He as <-.
  destruct (so_live _ O _ _ Hp Hec Hc) as [Lv _].
  split; simpl; try (rewrite Hc; done); try apply O.
  - intros v q. rewrite lookup_delete_Some. intros [Hv Hq].
    destruct (so_vni _ O _ _ Hq) as (x & Hx & Hy). exists x. rewrite lookup_insert_ne; [done|].
    intros ->. rewrite Hp in Hx. injection Hx as <-. destruct Hy as [Hy _]. simpl in Hv. congruence.
  - intros v q. rewrite lookup_delete_Some. intros [Hv Hq].
    destruct (so_disco _ O _ _ Hq) as (x & Hx & Hy). exists x. rewrite lookup_insert_ne; [done|].
    intros ->. rewrite Hp in Hx. injection Hx as <-. destruct Hy as [Hy _]. simpl in Hv. congruence.
  - intros q x. rewrite lookup_insert_Some. intros [[<- <-]|[Hne Hq]] Hx _; [done|].
    destruct (so_live _ O _ _ Hq Hx Hc) as [A B]. rewrite !lookup_delete_ne by congruence. done.
  - intros q x. rewrite lookup_insert_Some. intros [[<- <-]|[_ Hq]]; [|by apply O].
    destruct (so_heap _ O _ _ Hp). split; [done|]. by apply (endpoint_ok_identity p e).
  - pose proof (so_gauges _ O) as G. rewrite Hc in *.
    by apply (gauges_insert _ _ _ e (with_closed e)).
Qed.
Lemma with_heap_id s p e : sv_heap s !! p = Some e -> with_metrics (sv_metrics s) (with_heap <[p := e]> s) = s.
Proof. intros Hp. destruct s. unfold with_metrics, with_heap. simpl in *. by rewrite insert_id. Qed.
Lemma gcStep_cases now s k p e :
  sv_heap s !! p = Some e ->
  if isExpiredLocked bindLifetime steadyStateLifetime now e
  then sv_heap (gcStep now s (k, p)) = <[p := with_closed e]> (sv_heap s)
       /\ serverEndpointByDisco (gcStep now s (k, p)) = delete k (serverEndpointByDisco s)
       /\ serverEndpointByVNI (gcStep now s (k, p)) = delete (se_vni e) (serverEndpointByVNI s)
       /\ sv_closed (gcStep now s (k, p)) = sv_closed s
  else gcStep now s (k, p) = s.
Proof.
  intros Hp. unfold UdpRelay.gcStep, maybeExpire. cbn [fst snd]. rewrite Hp.
  destruct (isExpiredLocked _ _ _ e) eqn:E; [done|]. by rewrite with_heap_id.
Qed.

(** What a collection leaves: exactly the entries whose endpoint has not expired. *)
Lemma gcLoop_spec now l s :
  sv_ok s -> sv_closed s = false -> NoDup l.*1 -> Forall (fun x => serverEndpointByDisco s !! x.1 = Some x.2) l ->
  let s' := foldl (gcStep now) s l in
  sv_ok s' /\ sv_closed s' = false
  /\ (forall k p, serverEndpointByDisco s' !! k = Some p <->
        serverEndpointByDisco s !! k = Some p
        /\ ((k, p) ∈ l -> exists e, sv_heap s !! p = Some e
              /\ isExpiredLocked bindLifetime steadyStateLifetime now e = false))
  /\ (forall k p, serverEndpointByDisco s' !! k = Some p -> sv_heap s' !! p = sv_heap s !! p).
Proof.
  revert s. induction l as [|[k0 p0] l IH]; intros s O Hc Nd Hl; simpl.
  { split; [done|]. split; [done|]. split; [|done]. intros k p. split; [|tauto]. intros; split; [done|]. by intros []%not_elem_of_nil. }
  apply NoDup_cons in Nd as [Nin Nd]. apply Forall_cons in Hl as [Hk Hl]. simpl in Hk, Nin.
  destruct (so_disco _ O _ _ Hk) as (e & He & Hek & Hec).
  assert (forall x, x ∈ l -> x.1 <> k0) as Hne.
  { intros x Hx E. apply Nin, list_elem_of_fmap. by exists x. }
  pose proof (gcStep_cases now s k0 p0 e He) as C.
  destruct (isExpiredLocked bindLifetime steadyStateLifetime now e) eqn:Ex.
  - pose proof (expired_ok now s k0 p0 e O Hc Hk He Ex) as O1.
    set (s1 := gcStep now s (k0, p0)) in *. destruct C as (Ch & Cd & Cv & Cc). rewrite Hc in Cc.
    destruct (IH s1) as (O2 & C2 & D2 & H2); try done.
    { apply Forall_forall. intros x Hx. rewrite Cd, lookup_delete_ne by (by apply not_eq_sym, Hne).
      rewrite Forall_forall in Hl. by apply Hl. }
    assert (forall k p, k <> k0 -> serverEndpointByDisco s !! k = Some p -> p <> p0) as Hpp.
    { intros k p Hkk Hp ->. destruct (so_disco _ O _ _ Hp) as (x & Hx & Hy & _). congruence. }
    split; [done|]. split; [done|]. split.
    + intros k p. rewrite D2, Cd, lookup_delete_Some, Ch. split.
      * intros [[Hk0 Hp] Hin]. split; [done|]. intros [[= -> ->]|Hin']%elem_of_cons; [done|].
        destruct (Hin Hin') as (x & Hx & Hxe). exists x. rewrite lookup_insert_ne in Hx; [done|].
        apply not_eq_sym. eauto.
      * intros [Hp Hin]. assert (k0 <> k) as Hk0.
        { intros ->. destruct Hin as (x & Hx & Hxe); [|congruence]. rewrite Hp in Hk. injection Hk as ->. left. }
        split; [done|]. intros Hin'. destruct Hin as (x & Hx & Hxe); [by right|]. exists x.
        rewrite lookup_insert_ne; [done|]. apply not_eq_sym. eauto.
    + intros k p Hp. rewrite (H2 k p Hp), Ch. apply D2 in Hp as [Hp _].
      rewrite Cd, lookup_delete_Some in Hp. destruct Hp as [Hk0 Hp].
      rewrite lookup_insert_ne; [done|]. apply not_eq_sym. eauto.
  - rewrite C. destruct (IH s) as (O2 & C2 & D2 & H2); try done. split; [done|]. split; [done|]. split; [|done].
    intros k p. rewrite D2. split; intros [Hp Hin]; (split; [done|]).
    + intros [[= -> ->]|Hin']%elem_of_cons; [eauto|by apply Hin].
    + intros Hin'. apply Hin. by right.
Qed.
Lemma endpointGC_spec now s :
  sv_ok s ->
  let s' := endpointGC now s in
  sv_ok s' /\ sv_closed s' = sv_closed s
  /\ (forall k p, serverEndpointByDisco s' !! k = Some p <->
        serverEndpointByDisco s !! k = Some p
        /\ exists e, sv_heap s !! p = Some e /\ isExpiredLocked bindLifetime steadyStateLifetime now e = false)
  /\ (forall k p, serverEndpointByDisco s' !! k = Some p -> sv_heap s' !! p = sv_heap s !! p).
Proof.
  intros O. simpl. unfold UdpRelay.endpointGC. destruct (sv_closed s) eqn:Hc.
  - destruct (so_closed _ O Hc) as [_ Ed]. assert (map_range (serverEndpointByDisco s) = []) as ->.
    { apply length_zero_iff_nil. by rewrite length_map_range, Ed. }
    simpl. rewrite Ed. split; [done|]. split; [done|]. split; [|done]. intros k p. by rewrite lookup_empty; split; [|intros []].
  - destruct (gcLoop_spec now (map_range (serverEndpointByDisco s)) s) as (A & B & C & D); try done.
    + apply NoDup_map_range.
    + apply Forall_forall. intros [k p]. by rewrite elem_of_map_range.
    + do 2 (split; [done|]). split; [|done]. intros k p. rewrite C, elem_of_map_range. naive_solver.
Qed.

(** ** Control messages *)
Lemma updateEndpoint_refl st m : updateEndpoint st st m = m.
Proof. unfold updateEndpoint. by rewrite bool_decide_true. Qed.

(** The challenge is written unless there is no secret. *)
Lemma challengeReply_write e i gen secret secrets from :
  vni_range (se_vni e) ->
  challengeReply discoPublic seal blake2s e i gen (secret :: secrets) from
  = Write ((((geneve_bytes (MkGeneve 0 GeneveProtocolDisco (VNI.Set_ (se_vni e)) true)) ++ Magic) ++ discoPublic)
            ++ seal (at_ (discoPubKeys e) i)
                 (AppendMarshal (MBindUDPRelayEndpointChallenge (challengeFor blake2s e i secret from gen)) []))
          from.
Proof.
  unfold vni_range. rewrite minVNI_val. intros Hv. unfold challengeReply. rewrite Encode_spec; [by rewrite app_nil_r| |done].
  split; [simpl; lia|]. split; [done|]. apply VNI_Set_IsSet. lia.
Qed.

(** What a control message does to its endpoint. *)
Inductive control_effect (from : AddrPort) (i : bool) (msg : Message) (secrets : list bytes) (now : Z)
    (e : serverEndpoint) : serverEndpoint -> srvOut -> Prop :=
| ce_dropped : control_effect from i msg secrets now e e NoWrite
| ce_challenged c : msg = MBindUDPRelayEndpoint c -> se_closed e = false ->
    validateVNIAndRemoteKey e i c = true -> bc_Generation c <> 0 ->
    let e' := with_gen e (put_ (inProgressGeneration e) i (bc_Generation c)) in
    control_effect from i msg secrets now e e' (challengeReply discoPublic seal blake2s e' i (bc_Generation c) secrets from)
| ce_bound c secret : msg = MBindUDPRelayEndpointAnswer c -> se_closed e = false ->
    validateVNIAndRemoteKey e i c = true -> bc_Generation c <> 0 -> at_ (inProgressGeneration e) i = bc_Generation c ->
    secret ∈ secrets -> blakeMACFromBindMsg blake2s secret from c = bc_Challenge c ->
    control_effect from i msg secrets now e
      (with_gen (with_lastSeen (with_bound e (put_ (boundAddrPorts e) i from)) (put_ (lastSeen e) i now))
         (put_ (inProgressGeneration e) i 0)) NoWrite.
Lemma state_open e : stateLocked e <> endpointClosed -> se_closed e = false.
Proof. unfold stateLocked. by destruct (se_closed e). Qed.
Lemma handleDiscoControlMsg_effect from i msg secrets now m e e' m' out :
  handleDiscoControlMsg from i msg secrets now m e = (e', m', out) ->
  control_effect from i msg secrets now e e' out
  /\ identity e' = identity e /\ se_closed e' = se_closed e
  /\ m' = updateEndpoint (stateLocked e) (stateLocked e') m.
Proof.
  unfold UdpRelay.handleDiscoControlMsg.
  assert ((e, m, NoWrite) = (e', m', out) -> control_effect from i msg secrets now e e' out
    /\ identity e' = identity e /\ se_closed e' = se_closed e
    /\ m' = updateEndpoint (stateLocked e) (stateLocked e') m) as Drop.
  { intros [= <- <- <-]. rewrite updateEndpoint_refl. split; [constructor|done]. }
  case_bool_decide as Hs; [done|]. apply state_open in Hs.
  destruct msg as [| | | |c| |c| | |]; try done;
    destruct (validateVNIAndRemoteKey e i c) eqn:V; try done; cbn [negb].
  - destruct (Z.eqb_spec (bc_Generation c) 0) as [|G]; [done|]. intros [= <- <- <-].
    rewrite updateEndpoint_refl. split; [by eapply ce_challenged|done].
  - destruct (_ || _) eqn:G; [done|]. apply orb_false_iff in G as [G1%Z.eqb_neq G2%negb_false_iff%Z.eqb_eq].
    destruct (existsb _ secrets) eqn:X; [|done]. apply existsb_exists in X as (secret & Hin%list_elem_of_In & M%bool_decide_eq_true).
    intros [= <- <- <-]. split; [|done]. eapply ce_bound; try done. congruence.
Qed.
Lemma handleSealed_effect from b secrets now m e e' m' out :
  handleSealedDiscoControlMsg from b secrets now m e = (e', m', out) ->
  ((openControlMsg open b e = None /\ e' = e /\ out = NoWrite)
   \/ exists i msg, openControlMsg open b e = Some (i, msg) /\ control_effect from i msg secrets now e e' out)
  /\ identity e' = identity e /\ se_closed e' = se_closed e
  /\ m' = updateEndpoint (stateLocked e) (stateLocked e') m.
Proof.
  unfold UdpRelay.handleSealedDiscoControlMsg. destruct (openControlMsg open b e) as [[i msg]|].
  - intros (A & B)%handleDiscoControlMsg_effect. split; [right; eauto|done].
  - intros [= <- <- <-]. rewrite updateEndpoint_refl. split; [by left|done].
Qed.
Lemma openControlMsg_ok b e i msg :
  openControlMsg open b e = Some (i, msg) ->
  match msg with MBindUDPRelayEndpoint c | MBindUDPRelayEndpointAnswer c => common_ok c | _ => True end.
Proof.
  unfold openControlMsg. destruct (Source b); [|done]. simpl.
  destruct (if Compare _ _ =? 0 then _ else _) as [j|]; [|done]. simpl.
  destruct (open _ _) as [pl|]; [|done]. simpl. destruct (Parse pl) as [|m'] eqn:P; [done|].
  intros [= _ ->]. destruct msg; try done; eapply Parse_bind_ok; eauto.
Qed.

(** ** Data packets *)
Lemma handleDataPacket_effect from b now e e' out :
  handleDataPacket from b now e = (e', out) ->
  ((e' = e /\ out = NoWrite)
   \/ exists i, se_closed e = false /\ isBoundLocked e = true /\ from = at_ (boundAddrPorts e) i
        /\ e' = countRx e i now (length b) /\ out = Write b (at_ (boundAddrPorts e) (negb i)))
  /\ identity e' = identity e /\ se_closed e' = se_closed e /\ stateLocked e' = stateLocked e.
Proof.
  unfold handleDataPacket. destruct (isBoundLocked e) eqn:B; simpl; [|intros [= <- <-]; split; [by left|done]].
  case_bool_decide as Hs; [intros [= <- <-]; split; [by left|done]|]. apply state_open in Hs.
  repeat case_bool_decide; intros [= <- <-]; (split; [|done]).
  - right. by exists false.
  - right. by exists true.
  - by left.
Qed.

(** ** Runs

    The handling of several packets, allocation, collection and address updates interleave.
    [cf_macs] remembers each challenge written: the secret, where it was sent, its contents. A
    client cannot present a MAC the server did not compute: a control message whose MAC verifies
    under a secret is only handled when the server computed that MAC for the same input before. *)
Record config := MkConfig {
  cf_srv : Server;
  cf_inflight : list inflight;
  cf_macs : list (bytes * AddrPort * BindUDPRelayEndpointCommon)
}.
Definition init : config := MkConfig NewServer [] [].

Definition macked (i : inflight) (s : Server) : list (bytes * AddrPort * BindUDPRelayEndpointCommon) :=
  match i, (rxFinish i s).2 with
  | ControlMsg p from msg (secret :: _) _, Write _ _ =>
      match e ← sv_heap s !! p; '(ix, m) ← openControlMsg open msg e; Some (e, ix, m) with
      | Some (e, ix, MBindUDPRelayEndpoint c) =>
          [(secret, from, challengeFor blake2s e ix secret from (bc_Generation c))]
      | _ => []
      end
  | _, _ => []
  end.
Definition unforgeable (macs : list (bytes * AddrPort * BindUDPRelayEndpointCommon)) (i : inflight) (s : Server) : Prop :=
  forall p from msg secrets now e ix c secret,
    i = ControlMsg p from msg secrets now -> sv_heap s !! p = Some e ->
    openControlMsg open msg e = Some (ix, MBindUDPRelayEndpointAnswer c) ->
    secret ∈ secrets -> blakeMACFromBindMsg blake2s secret from c = bc_Challenge c ->
    exists to c', (secret, to, c') ∈ macs /\ macInput to c' = macInput from c.

Inductive srv_step : config -> config -> Prop :=
| st_alloc s fl ms a b now : length a = DiscoPublicRawLen -> length b = DiscoPublicRawLen ->
    srv_step (MkConfig s fl ms) (MkConfig (AllocateEndpoint a b now s).1 fl ms)
| st_gc s fl ms now : srv_step (MkConfig s fl ms) (MkConfig (endpointGC now s) fl ms)
| st_lookup s fl ms from b i : from_ok from -> rxLookup from b s = Some i ->
    srv_step (MkConfig s fl ms) (MkConfig s (i :: fl) ms)
| st_prepare s fl ms fl' p gh from b now rnd s' oi : fl ≡ₚ Loaded p gh from b :: fl' ->
    rxPrepare p gh from b now rnd s = (s', oi) ->
    srv_step (MkConfig s fl ms) (MkConfig s' (option_list oi ++ fl') ms)
| st_finish s fl ms fl' i s' out : fl ≡ₚ i :: fl' -> unforgeable ms i s -> rxFinish i s = (s', out) ->
    srv_step (MkConfig s fl ms) (MkConfig s' fl' (macked i s ++ ms))
| st_static s fl ms l : srv_step (MkConfig s fl ms) (MkConfig (SetStaticAddrPorts l s) fl ms)
| st_dynamic s fl ms l : srv_step (MkConfig s fl ms) (MkConfig (setDynamicAddrPorts l s) fl ms)
| st_close s ms : srv_step (MkConfig s [] ms) (MkConfig (Close s) [] ms).
Definition reachable (c : config) : Prop := rtc srv_step init c.

(** A challenge for this leg of the endpoint was written to [a]. *)
Definition challenged (macs : list (bytes * AddrPort * BindUDPRelayEndpointCommon)) (e : serverEndpoint) (i : bool)
    (a : AddrPort) : Prop :=
  exists secret c, (secret, a, c) ∈ macs /\ bc_VNI c = se_vni e
    /\ bc_RemoteKey c = at_ (discoPubKeys e) (negb i).
Definition inflight_ok (s : Server) (i : inflight) : Prop :=
  match i with
  | Loaded p _ from _ | DataMsg p from _ _ => is_Some (sv_heap s !! p) /\ from_ok from
  | ControlMsg p from _ secrets _ => is_Some (sv_heap s !! p) /\ from_ok from /\ secrets <> []
  end.
Record cf_ok (c : config) : Prop := {
  co_srv : sv_ok (cf_srv c);
  co_fl : Forall (inflight_ok (cf_srv c)) (cf_inflight c);
  co_closed : sv_closed (cf_srv c) = true -> cf_inflight c = [];
  co_macs : Forall (fun x => from_ok x.1.2 /\ bind_ok x.2) (cf_macs c);
  co_bound : forall p e i, sv_heap (cf_srv c) !! p = Some e -> IsValid (at_ (boundAddrPorts e) i) = true ->
    challenged (cf_macs c) e i (at_ (boundAddrPorts e) i)
}.

(** Steps that only add endpoints, or close them. *)
Definition heap_grows (h h' : gmap nat serverEndpoint) : Prop :=
  (forall p e, h !! p = Some e -> is_Some (h' !! p))
  /\ forall p e', h' !! p = Some e' -> (forall i, IsValid (at_ (boundAddrPorts e') i) = false)
       \/ exists e, h !! p = Some e /\ identity e' = identity e /\ boundAddrPorts e' = boundAddrPorts e.
Lemma heap_grows_refl h : heap_grows h h.
Proof. split; [eauto|]. intros p e' ?. right. eauto. Qed.
Lemma inflight_ok_grows s s' i :
  heap_grows (sv_heap s) (sv_heap s') -> inflight_ok s i -> inflight_ok s' i.
Proof. intros [G _]. destruct i; simpl; intros [[e He] ?]; split; eauto. Qed.
Lemma challenged_identity ms e e' i a : identity e' = identity e -> challenged ms e i a -> challenged ms e' i a.
Proof. unfold challenged. intros [= -> _ -> _]. done. Qed.
Lemma challenged_app ms ms' e i a : challenged ms e i a -> challenged (ms' ++ ms) e i a.
Proof. intros (x & c & Hin & ?). exists x, c. split; [apply elem_of_app; by right|done]. Qed.
Lemma cf_ok_grows s s' fl fl' ms :
  cf_ok (MkConfig s fl ms) -> sv_ok s' -> heap_grows (sv_heap s) (sv_heap s') ->
  (forall i, i ∈ fl' -> i ∈ fl \/ inflight_ok s' i) -> (sv_closed s' = true -> fl' = []) ->
  cf_ok (MkConfig s' fl' ms).
Proof.
  intros C O G F Cl. split; simpl; [done| |done|apply C|].
  - apply Forall_forall. intros i Hi. destruct (F i Hi) as [Hi'|]; [|done].
    eapply inflight_ok_grows, (proj1 (Forall_forall _ _) (co_fl _ C)); done.
  - intros p e' i He V. destruct G as [_ G]. destruct (G _ _ He) as [N|(e & He' & Hi & Hb)]; [by rewrite N in V|].
    rewrite Hb in *. eapply challenged_identity; [done|]. by apply (co_bound _ C p e).
Qed.

(** ** Each step keeps the invariant *)
Lemma alloc_step s fl ms a b now :
  cf_ok (MkConfig s fl ms) -> length a = DiscoPublicRawLen -> length b = DiscoPublicRawLen ->
  cf_ok (MkConfig (AllocateEndpoint a b now s).1 fl ms).
Proof.
  intros C La Lb. pose proof (AllocateEndpoint_cases a b now s (co_srv _ C) La Lb) as A. simpl in A.
  destruct (AllocateEndpoint a b now s) as [s' r]. destruct A as (O & Hc & A). simpl.
  apply (cf_ok_grows s s' fl fl ms); [done|done| |by left|rewrite Hc; apply C].
  assert (s' = s -> heap_grows (sv_heap s) (sv_heap s')) as Same by (intros ->; apply heap_grows_refl).
  destruct r as [[]|se].
  - by apply Same, A.
  - by apply Same, A.
  - by apply Same, A.
  - destruct A as [-> _]. apply heap_grows_refl.
  - destruct A as (_ & _ & _ & _ & _ & p & e & _ & _ & _ & _ & _ & [[-> _]|(-> & -> & _)]); [by apply Same|].
    simpl. split.
    + intros q x Hq. rewrite lookup_insert_ne; [eauto|]. pose proof (heap_fresh s (co_srv _ C)). congruence.
    + intros q x. rewrite lookup_insert_Some. intros [[<- <-]|[_ Hq]]; [left; by intros []|right; eauto].
Qed.
Lemma gcLoop_grows now l s : heap_grows (sv_heap s) (sv_heap (foldl (gcStep now) s l)).
Proof.
  revert s. induction l as [|[k p] l IH]; intros s; simpl; [apply heap_grows_refl|].
  destruct (sv_heap s !! p) as [e|] eqn:E;
    [|replace (gcStep now s (k, p)) with s by (unfold UdpRelay.gcStep; simpl; by rewrite E); done].
  pose proof (gcStep_cases now s k p e E) as C. destruct (isExpiredLocked _ _ now e); [|by rewrite C].
  destruct C as (C & _). destruct (IH (gcStep now s (k, p))) as [I1 I2]. rewrite C in I1, I2. split.
  - intros q x Hq. destruct (decide (q = p)) as [->|]; eapply I1; [apply lookup_insert_eq|by rewrite lookup_insert_ne].
  - intros q x Hq. destruct (I2 q x Hq) as [|(y & Hy & Ii & Ib)]; [by left|right].
    rewrite lookup_insert_Some in Hy. destruct Hy as [[<- <-]|[_ Hy]]; eauto.
Qed.
Lemma rxLookup_ok s from b i :
  sv_ok s -> from_ok from -> rxLookup from b s = Some i -> inflight_ok s i /\ sv_closed s = false.
Proof.
  intros O F. unfold rxLookup. destruct (_ && _); [done|]. destruct (Decode _ _) as [|gh]; [done|].
  destruct (serverEndpointByVNI s !! _) as [p|] eqn:E; [|done]. intros [= <-]. simpl.
  destruct (so_vni _ O _ _ E) as (e & He & _). split; [eauto|].
  destruct (sv_closed s) eqn:Hc; [|done]. destruct (so_closed _ O Hc) as [Em _]. by rewrite Em, lookup_empty in E.
Qed.
Lemma rxPrepare_ok p gh from b now rnd s s' oi :
  sv_ok s -> is_Some (sv_heap s !! p) -> from_ok from -> rxPrepare p gh from b now rnd s = (s', oi) ->
  sv_ok s' /\ sv_heap s' = sv_heap s /\ sv_closed s' = sv_closed s /\ forall i, i ∈ option_list oi -> inflight_ok s' i.
Proof.
  intros O Hp F. unfold rxPrepare. destruct (g_Control gh).
  - destruct (negb _); [intros [= <- <-]; do 3 (split; [done|]); by intros i []%not_elem_of_nil|].
    destruct (getMACSecrets_ok now rnd s O) as (O' & N & Hh & Hc).
    destruct (getMACSecrets now rnd s) as [s1 secrets]. intros [= <- <-]. simpl in *.
    do 3 (split; [done|]). intros i ->%list_elem_of_singleton. simpl. by rewrite Hh.
  - intros [= <- <-]. do 3 (split; [done|]). intros i ->%list_elem_of_singleton. done.
Qed.

Lemma insert_grows h p e e' :
  h !! p = Some e -> identity e' = identity e -> boundAddrPorts e' = boundAddrPorts e -> heap_grows h (<[p := e']> h).
Proof.
  intros Hp Hi Hb. split.
  - intros q x Hq. destruct (decide (q = p)) as [->|]; [rewrite lookup_insert_eq|rewrite lookup_insert_ne by done]; eauto.
  - intros q x. rewrite lookup_insert_Some. intros [[<- <-]|[_ Hq]]; right; eauto.
Qed.
Lemma cf_ok_macs s fl ms ms' :
  cf_ok (MkConfig s fl ms) -> Forall (fun x => from_ok x.1.2 /\ bind_ok x.2) ms' -> cf_ok (MkConfig s fl (ms' ++ ms)).
Proof.
  intros [] F. split; simpl in *; try done; [by apply Forall_app|]. intros p e i Hp V. apply challenged_app. by apply (co_bound0 p).
Qed.
Lemma challengeFor_ok e i secret from gen p :
  endpoint_ok p e -> 0 <= gen < 2 ^ 32 -> bind_ok (challengeFor blake2s e i secret from gen).
Proof.
  intros E G. unfold bind_ok. simpl. pose proof (eo_vni _ _ E) as V. unfold vni_range in V.
  rewrite minVNI_val, maxVNI_val in V. split; [lia|]. split; [done|]. apply (eo_len _ _ E).
Qed.
Lemma macked_ok s i :
  sv_ok s -> inflight_ok s i -> Forall (fun x => from_ok x.1.2 /\ bind_ok x.2) (macked i s).
Proof.
  intros O. destruct i as [|p from msg [|secret secrets] now|]; intros Fi; try done. destruct Fi as (_ & F & _).
  unfold macked. destruct (rxFinish (ControlMsg p from msg (secret :: secrets) now) s).2; try done.
  destruct (sv_heap s !! p) as [e|] eqn:E; [|done]. simpl.
  destruct (openControlMsg open msg e) as [[ix m]|] eqn:M; simpl; [|done].
  destruct m; try done. apply openControlMsg_ok in M as (_ & G & _).
  constructor; [|done]. split; [done|]. eapply challengeFor_ok; [by apply O|done].
Qed.
Lemma put_at {A} (q : A * A) i x j : at_ (put_ q i x) j = if Bool.eqb i j then x else at_ q j.
Proof. by destruct i, j. Qed.

(** The one step that binds an address: the challenge answered was sent there. *)
Lemma bound_challenged ms e i from c secret p :
  endpoint_ok p e -> Forall (fun x => from_ok x.1.2 /\ bind_ok x.2) ms -> from_ok from -> bind_ok c ->
  validateVNIAndRemoteKey e i c = true ->
  (exists to c', (secret, to, c') ∈ ms /\ macInput to c' = macInput from c) ->
  challenged ms e i from.
Proof.
  intros E Fm F B V (to & c' & Hin & M). rewrite Forall_forall in Fm. destruct (Fm _ Hin) as [F' B'].
  apply macInput_inj in M as (-> & Ev & _ & Ek); [|done..]. exists secret, c'. split; [done|].
  unfold validateVNIAndRemoteKey in V. apply andb_true_iff in V as [V1%Z.eqb_eq V2%Z.eqb_eq].
  rewrite Compare_eq in V2. simpl in *. split; congruence.
Qed.

Lemma control_step s fl ms p from msg secrets now s' out :
  cf_ok (MkConfig s fl ms) -> sv_closed s = false -> from_ok from -> secrets <> [] ->
  unforgeable ms (ControlMsg p from msg secrets now) s ->
  rxFinish (ControlMsg p from msg secrets now) s = (s', out) ->
  cf_ok (MkConfig s' fl ms) /\ out <> SrvPanic.
Proof.
  intros C Hc F N U. pose proof (co_srv _ C) as O. simpl in O. simpl.
  destruct (sv_heap s !! p) as [e|] eqn:Hp; [|intros [= <- <-]; done].
  destruct (handleSealedDiscoControlMsg _ _ _ _ _ e) as [[e' m'] o] eqn:R. intros [= <- <-].
  apply handleSealed_effect in R as (Ef & Hi & Hcl & ->).
  pose proof (sv_ok_update s p e e' O Hc Hp Hi Hcl) as O'.
  assert (boundAddrPorts e' = boundAddrPorts e ->
    cf_ok (MkConfig (with_metrics (updateEndpoint (stateLocked e) (stateLocked e') (sv_metrics s)) (with_heap <[p := e']> s)) fl ms)) as Same.
  { intros Hb. apply (cf_ok_grows s _ fl fl); [done|done| |by left|simpl; congruence]. by apply (insert_grows _ _ e). }
  destruct Ef as [(_ & -> & ->)|(i & m & Hm & Ef)]; [split; [by apply Same|done]|].
  destruct Ef as [|c -> Hx V G e'|c secret -> Hx V G Hg Hin M].
  - split; [by apply Same|done].
  - split; [by apply Same|]. destruct secrets as [|secret secrets]; [done|].
    rewrite challengeReply_write; [done|]. apply (so_heap _ O _ _ Hp).
  - split; [|done]. split; simpl; [done| |congruence|apply C|].
    + apply Forall_forall. intros j Hj. pose proof (proj1 (Forall_forall _ _) (co_fl _ C) j Hj) as J.
      assert (forall q, is_Some (sv_heap s !! q) -> is_Some (<[p := with_gen (with_lastSeen (with_bound e
        (put_ (boundAddrPorts e) i from)) (put_ (lastSeen e) i now)) (put_ (inProgressGeneration e) i 0)]> (sv_heap s) !! q)) as Up.
      { intros q Hq. rewrite lookup_insert_is_Some'. by right. }
      destruct j; simpl in *; destruct J; split; eauto.
    + intros q x j. rewrite lookup_insert_Some. intros [[<- <-]|[_ Hq]] Va; [|by apply (co_bound _ C q x)].
      cbn [boundAddrPorts with_gen with_lastSeen with_bound] in *. rewrite put_at in *.
      destruct (Bool.eqb i j) eqn:Ej; [|by apply (co_bound _ C p e)]. apply eqb_prop in Ej as <-.
      eapply (challenged_identity _ e); [done|]. eapply (bound_challenged ms e i from c secret p); try done.
      * apply (so_heap _ O _ _ Hp).
      * apply C.
      * by apply openControlMsg_ok, common_bind_ok in Hm.
      * by eapply U.
Qed.
Lemma finish_step s fl ms i s' out :
  cf_ok (MkConfig s (i :: fl) ms) -> unforgeable ms i s -> rxFinish i s = (s', out) ->
  cf_ok (MkConfig s' fl (macked i s ++ ms)) /\ out <> SrvPanic.
Proof.
  intros C U R. assert (sv_closed s = false) as Hc.
  { destruct (sv_closed s) eqn:E; [|done]. by pose proof (co_closed _ C E). }
  pose proof (co_fl _ C) as Fl. apply Forall_cons in Fl as [Fi Fl]. pose proof (co_srv _ C) as O. simpl in O, Fi, Fl.
  pose proof (macked_ok s i O Fi) as Mk.
  assert (cf_ok (MkConfig s fl ms)) as C'.
  { apply (cf_ok_grows s s (i :: fl)); [done|done|apply heap_grows_refl| |congruence]. intros j Hj. left. by right. }
  enough (cf_ok (MkConfig s' fl ms) /\ out <> SrvPanic) as [? ?]; [split; [by apply cf_ok_macs|done]|].
  destruct i as [p gh from b|p from msg secrets now|p from b now].
  - simpl in R. by injection R as <- <-.
  - destruct Fi as (_ & F & N). by eapply control_step.
  - simpl in R. destruct Fi as [[e Hp] F]. rewrite Hp in R.
    destruct (handleDataPacket from b now e) as [e' o] eqn:D. injection R as <- <-.
    apply handleDataPacket_effect in D as (Ef & Hi & Hcl & Hs).
    pose proof (sv_ok_update s p e e' O Hc Hp Hi Hcl) as O'. rewrite Hs, updateEndpoint_refl in O'. split.
    + apply (cf_ok_grows s _ fl fl); [done|done| |by left|simpl; congruence].
      apply (insert_grows _ _ e); [done..|]. by destruct Ef as [[-> _]|(j & _ & _ & _ & -> & _)].
    + by destruct Ef as [[_ ->]|(j & _ & _ & _ & _ & ->)].
Qed.
Lemma cf_ok_perm s fl fl' ms : fl ≡ₚ fl' -> cf_ok (MkConfig s fl ms) -> cf_ok (MkConfig s fl' ms).
Proof.
  intros P []. split; simpl in *; try done; [by rewrite <- P|]. intros E. specialize (co_closed0 E). subst.
  by apply Permutation_nil_l in P.
Qed.
Lemma step_ok c c' : srv_step c c' -> cf_ok c -> cf_ok c'.
Proof.
  destruct 1 as [s fl ms a b now La Lb|s fl ms now|s fl ms from b i F R|s fl ms fl' p gh from b now rnd s' oi P R
                |s fl ms fl' i s' out P U R|s fl ms l|s fl ms l|s ms]; intros C; pose proof (co_srv _ C) as O; simpl in O.
  - by apply alloc_step.
  - destruct (endpointGC_spec now s O) as (O' & Hc & _). apply (cf_ok_grows s _ fl fl); [done|done| |by left|].
    + apply gcLoop_grows.
    + rewrite Hc. apply C.
  - destruct (rxLookup_ok s from b i O F R) as [Hi Hc].
    apply (cf_ok_grows s s fl (i :: fl)); [done|done|apply heap_grows_refl| |congruence].
    intros j [->|]%elem_of_cons; eauto.
  - eapply cf_ok_perm in C; [|exact P]. pose proof (co_fl _ C) as Fl. apply Forall_cons in Fl as [[Fp F] _].
    destruct (rxPrepare_ok _ _ _ _ _ _ _ _ _ O Fp F R) as (O' & Hh & Hc & Hi).
    apply (cf_ok_grows s s' (Loaded p gh from b :: fl')); [done|done| | |].
    + rewrite Hh. apply heap_grows_refl.
    + intros j [|]%elem_of_app; [right; by apply Hi|left; by right].
    + rewrite Hc. intros E. by pose proof (co_closed _ C E).
  - eapply cf_ok_perm in C; [|exact P]. by eapply finish_step.
  - apply (cf_ok_grows s _ fl fl); [done|by apply with_addrs_ok|apply heap_grows_refl|by left|apply C].
  - apply (cf_ok_grows s _ fl fl); [done|by apply with_addrs_ok|apply heap_grows_refl|by left|apply C].
  - apply (cf_ok_grows s _ [] []); [done|by apply Close_ok| |by left|done].
    unfold Close. destruct (sv_closed s); apply heap_grows_refl.
Qed.
Lemma reachable_cf_ok c : reachable c -> cf_ok c.
Proof.
  apply (rtc_ind_r cf_ok); [|intros; by eapply step_ok].
  split; simpl; [apply NewServer_ok|done..|]. intros p e i. by rewrite lookup_empty.
Qed.

(** ** Facts: packets on the wire *)
Lemma rxLookup_geneve h rest from s p :
  geneve_ok h -> serverEndpointByVNI s !! VNI.Get (g_VNI h) = Some p ->
  rxLookup from (geneve_bytes h ++ rest) s
  = Some (Loaded p (MkGeneve (g_Version h) (g_Protocol h) (VNI.Set_ (VNI.Get (g_VNI h))) (g_Control h)) from
            (geneve_bytes h ++ rest)).
Proof.
  intros Hh Hp. unfold rxLookup.
  change (Stun.byteAt (geneve_bytes h ++ rest) 1) with (if g_Control h then x80 else x00).
  rewrite (bool_decide_false (_ = x01)), andb_false_r by (by destruct (g_Control h)).
  rewrite Decode_geneve_bytes by done. simpl. pose proof (VNI_Get_range (g_VNI h)).
  rewrite VNI_Get_Set, Hp, orb_false_r by done. done.
Qed.
Lemma Source_Magic self box :
  length self = DiscoPublicRawLen -> (NonceLen <= length box)%nat -> Source (Magic ++ self ++ box) = Some self.
Proof.
  intros L B. unfold Source, LooksLikeDiscoWrapper. unfold DiscoPublicRawLen in L.
  rewrite (proj2 (Nat.ltb_ge _ _)) by (rewrite !length_app; unfold keyLen; lia).
  rewrite take_app_length, bool_decide_true by done. rewrite drop_app_length. f_equal. by apply take_app_length'.
Qed.
Lemma openControlMsg_sealed cseal e i m :
  (discoPubKeys e).1 <> (discoPubKeys e).2 -> length (at_ (discoPubKeys e) i) = DiscoPublicRawLen ->
  (forall x, open (at_ (discoPubKeys e) i) (cseal x) = Some x) -> (forall x, (NonceLen <= length (cseal x))%nat) ->
  msg_ok m -> received m = inr m ->
  openControlMsg open (Magic ++ at_ (discoPubKeys e) i ++ cseal (AppendMarshal m [])) e = Some (i, m).
Proof.
  intros Ne L Ho Hn Hm Hr. unfold openControlMsg. rewrite Source_Magic by done. cbn [mbind option_bind].
  rewrite app_assoc, drop_app_length' by (rewrite length_app; lia).
  assert ((if Compare (at_ (discoPubKeys e) i) (discoPubKeys e).1 =? 0 then Some false
           else if Compare (at_ (discoPubKeys e) i) (discoPubKeys e).2 =? 0 then Some true else None) = Some i) as ->.
  { destruct i; simpl.
    - rewrite (proj2 (Z.eqb_neq _ _)) by (rewrite Compare_eq; congruence).
      by rewrite (proj2 (Compare_eq _ _) eq_refl).
    - by rewrite (proj2 (Compare_eq _ _) eq_refl). }
  cbn [mbind option_bind]. rewrite Ho. cbn [mbind option_bind]. by rewrite Parse_AppendMarshal, Hr.
Qed.

(** ** A packet handled at once, as a run *)
Definition mac_known (macs : list (bytes * AddrPort * BindUDPRelayEndpointCommon)) (i : inflight) (s : Server) : bool :=
  match i with
  | ControlMsg p from msg secrets _ =>
      match e ← sv_heap s !! p; openControlMsg open msg e with
      | Some (_, MBindUDPRelayEndpointAnswer c) =>
          forallb (fun secret => existsb (fun x => bool_decide (x.1.1 = secret /\ macInput x.1.2 x.2 = macInput from c)) macs)
            secrets
      | _ => true
      end
  | _ => true
  end.
Lemma mac_known_unforgeable macs i s : mac_known macs i s = true -> unforgeable macs i s.
Proof.
  intros K p from msg secrets now e ix c secret -> Hp Ho Hin _. unfold mac_known in K.
  rewrite Hp in K. simpl in K. rewrite Ho in K. rewrite forallb_forall in K.
  specialize (K secret (proj1 (list_elem_of_In _ _) Hin)). apply existsb_exists in K as ([[k to] c'] & Hx & K).
  apply bool_decide_eq_true in K as [Ek K]. simpl in Ek, K. subst k. exists to, c'. split; [by apply list_elem_of_In|done].
Qed.
Definition doPacket (from : AddrPort) (b : bytes) (now : Z) (rnd : bytes) (c : config) : config :=
  match rxLookup from b (cf_srv c) with
  | Some (Loaded p gh f b') =>
      match rxPrepare p gh f b' now rnd (cf_srv c) with
      | (s, Some i) => if mac_known (cf_macs c) i s
                       then MkConfig (rxFinish i s).1 (cf_inflight c) (macked i s ++ cf_macs c) else c
      | (s, None) => c
      end
  | _ => c
  end.
Lemma reachable_doPacket from b now rnd c : from_ok from -> reachable c -> reachable (doPacket from b now rnd c).
Proof.
  intros F R. unfold doPacket. destruct (rxLookup from b (cf_srv c)) as [[p gh f b'| |]|] eqn:L; try done.
  destruct (rxPrepare p gh f b' now rnd (cf_srv c)) as [s [i|]] eqn:P; [|done].
  destruct (mac_known (cf_macs c) i s) eqn:K; [|done]. destruct c as [s0 fl ms]. simpl in *.
  apply mac_known_unforgeable in K. destruct (rxFinish i s) as [s' out] eqn:Fi. simpl.
  eapply rtc_r; [eapply rtc_r; [eapply rtc_r; [exact R|by eapply st_lookup]|by eapply st_prepare]|].
  simpl. by eapply st_finish.
Qed.

(** ** Theorems about runs *)

(** [C20] The relay server's indexes and gauges. Whatever the interleaving of packet handling,
    allocation, collection and closing: while the server is open, an endpoint is not closed exactly
    when it is the one indexed under its VNI, and exactly when it is the one indexed under its
    disco keys, and the user and client gauges count the endpoints by state; a closed server has
    empty indexes and zero client gauges; both indexes only hold endpoints of that VNI or pair that
    are not closed; endpoints allocated later have larger Lamport ids (before 2^64 of them); no
    packet being handled hits the empty secret list. *)
Theorem relay_server_consistent c :
  reachable c ->
  let s := cf_srv c in
  (if sv_closed s
   then serverEndpointByVNI s = ∅ /\ serverEndpointByDisco s = ∅ /\ client_gauges (sv_metrics s) = (0, 0)
   else (forall p e, sv_heap s !! p = Some e ->
           (se_closed e = false <-> serverEndpointByVNI s !! se_vni e = Some p)
           /\ (se_closed e = false <-> serverEndpointByDisco s !! discoPubKeys e = Some p))
        /\ user_gauges (sv_metrics s) = gauges (sv_heap s) /\ client_gauges (sv_metrics s) = gauges (sv_heap s))
  /\ (forall v p, serverEndpointByVNI s !! v = Some p ->
        vni_range v /\ exists e, sv_heap s !! p = Some e /\ se_vni e = v /\ se_closed e = false)
  /\ (forall k p, serverEndpointByDisco s !! k = Some p ->
        exists e, sv_heap s !! p = Some e /\ discoPubKeys e = k /\ se_closed e = false)
  /\ (forall p q e e', sv_heap s !! p = Some e -> sv_heap s !! q = Some e' -> (p < q)%nat ->
        Z.of_nat (sv_next s) < 2 ^ 64 -> se_lamportID e < se_lamportID e')
  /\ (forall i, i ∈ cf_inflight c -> unforgeable (cf_macs c) i s -> (rxFinish i s).2 <> SrvPanic).
Proof.
  intros R%reachable_cf_ok. pose proof (co_srv _ R) as O. set (s := cf_srv c) in *. cbv zeta.
  split; [|split; [|split; [apply O|split]]].
  - pose proof (so_gauges _ O) as G. destruct (sv_closed s) eqn:Hc.
    + destruct (so_closed _ O Hc). done.
    + destruct G as [Gu Gc]. split; [|done]. intros p e He. split; (split; [intros Hx; by apply (so_live _ O p e)|]).
      * intros Hv. destruct (so_vni _ O _ _ Hv) as (e' & He' & _ & ?). congruence.
      * intros Hv. destruct (so_disco _ O _ _ Hv) as (e' & He' & _ & ?). congruence.
  - intros v p Hv. destruct (so_vni _ O _ _ Hv) as (e & He & <- & Hx). split; [|eauto]. apply (so_heap _ O _ _ He).
  - intros p q e e' Hp Hq Lt B. destruct (so_heap _ O _ _ Hp) as [Lp Ep], (so_heap _ O _ _ Hq) as [Lq Eq].
    rewrite (eo_lamport _ _ Ep), (eo_lamport _ _ Eq), !uw_small by lia. lia.
  - intros i Hi U. destruct (elem_of_Permutation (cf_inflight c) i) as [[fl' P] _]; [done|].
    destruct c as [s0 fl ms]. simpl in *. subst s. eapply cf_ok_perm in R; [|exact P].
    destruct (rxFinish i s0) as [s' out] eqn:E. by destruct (finish_step _ _ _ _ _ _ R U E).
Qed.

(** [C4] What the relay forwards. A data packet is only ever written unchanged, from the address
    bound for one client of an endpoint that is not closed to the address bound for the other
    client; and to both of these addresses the server had written a challenge for that VNI and
    that client. (Assumes a MAC the server did not compute does not verify.) *)
Theorem relay_forwards_proven c p from b now b' to :
  reachable c -> (rxFinish (DataMsg p from b now) (cf_srv c)).2 = Write b' to ->
  b' = b /\ exists e i, sv_heap (cf_srv c) !! p = Some e /\ se_closed e = false
    /\ from = at_ (boundAddrPorts e) i /\ to = at_ (boundAddrPorts e) (negb i)
    /\ challenged (cf_macs c) e i from /\ challenged (cf_macs c) e (negb i) to.
Proof.
  intros R%reachable_cf_ok E. simpl in E. destruct (sv_heap (cf_srv c) !! p) as [e|] eqn:Hp; [|done].
  destruct (handleDataPacket from b now e) as [e' o] eqn:D. simpl in E. subst o.
  apply handleDataPacket_effect in D as ([[_ [=]]|(i & Hx & B & -> & _ & [= -> ->])] & _).
  split; [done|]. exists e, i. do 4 (split; [done|]).
  unfold isBoundLocked in B. apply andb_true_iff in B as [B1 B2].
  split; apply (co_bound _ R p e); try done; by destruct i.
Qed.

(** ** Batches *)
Notation handlePacket := (handlePacket discoPublic seal open blake2s).
Notation batchMsg := (batchMsg discoPublic seal open blake2s).
Notation readBatch := (readBatch discoPublic seal open blake2s).

(** The packets handled one by one: what is to be written, in order. *)
Record packetOut := MkPacketOut { o_from : AddrPort; o_to : AddrPort; o_write : bytes; o_data : bool }.
Fixpoint packetOuts (msgs : list rxMsg) (s : Server) : option (Server * list packetOut) :=
  match msgs with
  | [] => Some (s, [])
  | m :: msgs =>
      if (length (m_buf m) =? 0)%nat then packetOuts msgs s
      else
        match handlePacket (m_from m) (m_buf m) (m_now m) (m_rnd m) s with
        | (_, SrvPanic, _) => None
        | (s, Write b to, d) =>
            '(s, l) ← packetOuts msgs s;
            Some (s, if IsValid to then MkPacketOut (m_from m) to b d :: l else l)
        | (s, NoWrite, _) => packetOuts msgs s
        end
  end.
(** Those for which there is a socket of the right family. *)
Definition writable (haveOther : bool) (o : packetOut) : bool :=
  Bool.eqb (Is4 (ip (o_from o))) (Is4 (ip (o_to o))) || haveOther.
Definition buffsTo (haveOther : bool) (d : AddrPort) (outs : list packetOut) : list bytes :=
  omap (fun o => if writable haveOther o && bool_decide (o_to o = d) then Some (o_write o) else None) outs.
Definition countOuts (outs : list packetOut) (f : forwarded) : forwarded :=
  foldl (fun f o => if o_data o then countOut (o_to o) (o_write o) f else f) f outs.

Lemma batch_None haveOther msgs : foldl (batchMsg haveOther) None msgs = None.
Proof. by induction msgs. Qed.
Lemma batch_fold haveOther msgs s w f :
  match packetOuts msgs s with
  | None => foldl (batchMsg haveOther) (Some (s, w, f)) msgs = None
  | Some (s', outs) => exists w', foldl (batchMsg haveOther) (Some (s, w, f)) msgs = Some (s', w', countOuts outs f)
      /\ (forall d, default [] (w' !! d) = default [] (w !! d) ++ buffsTo haveOther d outs)
      /\ (forall d, is_Some (w' !! d) <-> is_Some (w !! d) \/ buffsTo haveOther d outs <> [])
  end.
Proof.
  revert s w f. induction msgs as [|m msgs IH]; intros s w f.
  { simpl. exists w. split; [done|]. split; [intros d; by rewrite app_nil_r|]. naive_solver. }
  cbn [packetOuts foldl]. remember (batchMsg haveOther (Some (s, w, f)) m) as st1 eqn:E1.
  unfold UdpRelay.batchMsg in E1. cbn [mbind option_bind] in E1.
  destruct (length (m_buf m) =? 0)%nat; [subst; apply IH|].
  destruct (handlePacket _ _ _ _ s) as [[s1 [|b to|]] d1]; [subst; apply IH| |subst; apply batch_None].
  destruct (IsValid to); cbn [negb] in E1; cbn [mbind option_bind].
  2:{ subst. specialize (IH s1 w f). destruct (packetOuts msgs s1) as [[s2 outs]|]; exact IH. }
  set (o := MkPacketOut (m_from m) to b d1). set (f1 := if d1 then countOut to b f else f) in E1.
  change (Bool.eqb (Is4 (ip (m_from m))) (Is4 (ip to)) || haveOther) with (writable haveOther o) in E1.
  assert (forall d l, buffsTo haveOther d (o :: l)
    = (if writable haveOther o && bool_decide (to = d) then [b] else []) ++ buffsTo haveOther d l) as Hb.
  { intros d l. unfold buffsTo. simpl. by destruct (_ && _). }
  destruct (writable haveOther o); subst st1.
  - specialize (IH s1 (<[to := default [] (w !! to) ++ [b]]> w) f1).
    destruct (packetOuts msgs s1) as [[s2 outs]|]; [|exact IH].
    destruct IH as (w' & Ew & I1 & I2). exists w'. split; [exact Ew|]. split; intros d; rewrite Hb, ?I1, ?I2; cbn [andb].
    + case_bool_decide as Hd; [subst d; rewrite lookup_insert_eq; simpl; by rewrite <- app_assoc|by rewrite lookup_insert_ne].
    + case_bool_decide as Hd; [subst d; rewrite lookup_insert_eq; simpl; naive_solver|by rewrite lookup_insert_ne].
  - specialize (IH s1 w f1). destruct (packetOuts msgs s1) as [[s2 outs]|]; [|exact IH].
    destruct IH as (w' & Ew & I1 & I2). exists w'. split; [exact Ew|]. split; intros d; rewrite Hb; [apply I1|apply I2].
Qed.

Lemma writeOut_spec is4 haveOther (w : gmap AddrPort (list bytes)) :
  (forall d, is_Some (w !! d) -> haveOther = true \/ Is4 (ip d) = is4) ->
  exists ws, writeOut is4 haveOther w = Some ws /\ NoDup (sw_dest <$> ws)
    /\ forall x, x ∈ ws <-> w !! sw_dest x = Some (sw_buffs x) /\ sw_other x = negb (Bool.eqb (Is4 (ip (sw_dest x))) is4).
Proof.
  intros Hf. unfold writeOut.
  set (g := fun x : AddrPort * list bytes => MkSocketWrite (negb (Bool.eqb (Is4 (ip x.1)) is4)) x.1 x.2).
  exists (g <$> map_range w). split; [|split].
  - apply mapM_Some_2. apply Forall2_fmap_r, Forall_Forall2_diag, Forall_forall.
    intros [d bs] Hin. apply elem_of_map_range in Hin. simpl. unfold g. simpl.
    destruct (Bool.eqb (Is4 (ip d)) is4) eqn:E; [done|]. destruct (Hf d) as [-> | <-]; [eauto|done|].
    by rewrite eqb_reflx in E.
  - rewrite <- list_fmap_compose. apply NoDup_map_range.
  - intros [o d bs]. rewrite list_elem_of_fmap. simpl. split.
    + intros ([d' bs'] & [= -> -> ->] & Hin). by apply elem_of_map_range in Hin.
    + intros [Hw ->]. exists (d, bs). split; [done|]. by apply elem_of_map_range.
Qed.
Lemma buffsTo_elem haveOther d outs :
  buffsTo haveOther d outs <> [] -> exists o, o ∈ outs /\ writable haveOther o = true /\ o_to o = d.
Proof.
  destruct (buffsTo haveOther d outs) as [|b l] eqn:E; [done|]. intros _.
  assert (b ∈ buffsTo haveOther d outs) as Hin by (rewrite E; left). apply list_elem_of_omap in Hin as (o & Ho & Hx).
  destruct (_ && _) eqn:C; [|done]. apply andb_true_iff in C as [C1 C2%bool_decide_eq_true]. eauto.
Qed.
Lemma packetOuts_from (P : AddrPort -> Prop) msgs s s' outs :
  Forall (fun m => P (m_from m)) msgs -> packetOuts msgs s = Some (s', outs) -> Forall (fun o => P (o_from o)) outs.
Proof.
  intros F. revert s s' outs. induction F as [|m msgs Hm F IH]; intros s s' outs; simpl.
  { intros [= <- <-]. done. }
  destruct (_ =? _)%nat; [apply IH|]. destruct (handlePacket _ _ _ _ s) as [[s1 [|b to|]] d]; [apply IH| |done].
  destruct (packetOuts msgs s1) as [[s2 l]|] eqn:E; [|done]. simpl. intros [= <- <-].
  apply IH in E. destruct (IsValid to); [by constructor|done].
Qed.

(** [C34] A batch is written as if its packets were handled one by one: when no handler panics, the
    server ends in the state of handling them in order, each destination gets one batched write
    with exactly its packets in their order of arrival, on the socket of its family, and the
    forwarding counters are the totals over the data packets. The panic of a missing other socket
    cannot happen: that socket exists, or all packets come from this socket's family. *)
Theorem relay_batch_equivalent is4 haveOther msgs s s' outs :
  (haveOther = true \/ Forall (fun m => Is4 (ip (m_from m)) = is4) msgs) ->
  packetOuts msgs s = Some (s', outs) ->
  exists ws, readBatch is4 haveOther msgs s = Some (s', ws, countOuts outs (MkForwarded 0 0 0 0))
    /\ NoDup (sw_dest <$> ws)
    /\ forall d other buffs, MkSocketWrite other d buffs ∈ ws <->
         buffs = buffsTo haveOther d outs /\ buffs <> [] /\ other = negb (Bool.eqb (Is4 (ip d)) is4).
Proof.
  intros Hf Ho. pose proof (batch_fold haveOther msgs s ∅ (MkForwarded 0 0 0 0)) as B. rewrite Ho in B.
  destruct B as (w & Ew & B1 & B2). unfold UdpRelay.readBatch. rewrite Ew. cbn [mbind option_bind].
  assert (forall d bs, w !! d = Some bs <-> bs = buffsTo haveOther d outs /\ bs <> []) as Hw.
  { intros d bs. specialize (B1 d). specialize (B2 d). rewrite lookup_empty in B1, B2. simpl in B1.
    destruct (w !! d) as [bs'|]; simpl in B1; [subst bs'|].
    - destruct (proj1 B2) as [[? ?]|]; [eauto|done|]. naive_solver.
    - rewrite <- B1. naive_solver. }
  destruct (writeOut_spec is4 haveOther w) as (ws & -> & Nd & Hws).
  - intros d [bs Hd]. apply Hw in Hd as [-> Hne]. destruct haveOther; [by left|]. destruct Hf as [|Hf]; [done|]. right.
    apply buffsTo_elem in Hne as (o & Hin & Hwr & <-).
    pose proof (packetOuts_from (fun p => Is4 (ip p) = is4) _ _ _ _ Hf Ho) as Fo. rewrite Forall_forall in Fo.
    apply orb_true_iff in Hwr as [Hwr%eqb_prop|]; [by rewrite <- Hwr, Fo|done].
  - exists ws. split; [done|]. split; [done|]. intros d other buffs. rewrite Hws. simpl. rewrite Hw. tauto.
Qed.
End Ops.

(** [C36] VNI allocation. When a VNI is free, [getNextVNILocked] returns the first free one in cyclic
    order from [nextVNI], in range, and the next search starts after it; it reports exhaustion
    exactly when every VNI from [minVNI] to [maxVNI] is in use. *)
Theorem vni_allocation s :
  vni_range (nextVNI s) ->
  (forall s' v, getNextVNILocked s = (s', Some v) ->
     serverEndpointByVNI s !! v = None /\ vni_range v /\ nextVNI s' = nextOf v
     /\ exists k, 0 <= k < maxVNI /\ v = cyc (nextVNI s) k
          /\ forall j, 0 <= j < k -> is_Some (serverEndpointByVNI s !! cyc (nextVNI s) j))
  /\ ((getNextVNILocked s).2 = None <-> forall v, vni_range v -> is_Some (serverEndpointByVNI s !! v)).
Proof.
  intros Hv. pose proof (getNextVNI_cases s Hv) as C. destruct (getNextVNILocked s) as [s1 [v|]].
  - destruct C as (-> & Hn & Rv & C). split; [by intros s' w [= <- <-]|]. split; [done|].
    intros A. destruct (A v Rv). congruence.
  - destruct C as [_ C]. done.
Qed.
Lemma vni_allocation_witness :
  vni_range (nextVNI NewServer) /\ (getNextVNILocked NewServer).2 = Some 1
  /\ serverEndpointByVNI NewServer !! 1 = None.
Proof.
  assert (vni_range (nextVNI NewServer)) as Hr by (vm_compute; split; discriminate).
  destruct (vni_allocation NewServer Hr) as [A _].
  assert ((getNextVNILocked NewServer).2 = Some 1) as E by (vm_compute; reflexivity).
  split; [exact Hr|]. split; [exact E|].
  exact (proj1 (A (getNextVNILocked NewServer).1 1 ltac:(rewrite <- E; apply surjective_pairing))).
Defined.

(** ** Example: two clients, A and B, bind and exchange a packet *)
Definition ex_server : bytes := replicate 32 x0c.
Definition ex_keyA : bytes := replicate 32 x0a.
Definition ex_keyB : bytes := replicate 32 x0b.
Definition ex_seal (_ x : bytes) : bytes := zeros 24 ++ x.
Definition ex_open (_ x : bytes) : option bytes := Some (drop 24 x).
Definition ex_blake (k x : bytes) : bytes := take 32 (k ++ x).
Definition ex_secret : bytes := replicate 16 x77.
Definition ex_fromA : AddrPort := MkAddrPort (Addr4 0x0a000001) 41641.
Definition ex_fromB : AddrPort := MkAddrPort (Addr6 0x20010db8000000000000000000000001 EmptyString) 41642.
Definition ex_pkt (self : bytes) (m : Message) : bytes :=
  match discoPacket (ex_seal []) self (VNI.Set_ 1) m with inr b => b | inl _ => [] end.
Definition ex_common (remote challenge : bytes) : BindUDPRelayEndpointCommon := MkBindCommon 1 7 remote challenge.
Definition ex_mac (from : AddrPort) (remote : bytes) : bytes :=
  ex_blake ex_secret (macInput from (ex_common remote (zeros 32))).
Notation ex_do := (doPacket ex_server ex_seal ex_open ex_blake).
Definition ex_c0 : config :=
  MkConfig (AllocateEndpoint ex_server defaultBindLifetime defaultSteadyStateLifetime ex_keyB ex_keyA 5
              (SetStaticAddrPorts [MkAddrPort (Addr4 0x01020304) 7000] NewServer)).1 [] [].
Definition ex_bind (from : AddrPort) (self remote : bytes) (c : config) : config :=
  ex_do from (ex_pkt self (MBindUDPRelayEndpointAnswer (ex_common remote (ex_mac from remote)))) 20 ex_secret
    (ex_do from (ex_pkt self (MBindUDPRelayEndpoint (ex_common remote (zeros 32)))) 10 ex_secret c).
Definition ex_c1 : config := ex_bind ex_fromB ex_keyB ex_keyA (ex_bind ex_fromA ex_keyA ex_keyB ex_c0).
Lemma ex_reachable :
  reachable (H := canonical_range) ex_server defaultBindLifetime defaultSteadyStateLifetime ex_seal ex_open ex_blake ex_c1.
Proof.
  unfold ex_c1, ex_bind.
  assert (from_ok ex_fromA) as FA by (split; simpl; lia). assert (from_ok ex_fromB) as FB by (split; simpl; lia).
  repeat (apply reachable_doPacket; [assumption|]).
  eapply rtc_r; [eapply rtc_r; [apply rtc_refl|apply st_static]|apply st_alloc; reflexivity].
Qed.

Lemma relay_server_consistent_witness :
  user_gauges (sv_metrics (cf_srv ex_c1)) = (0, 1)
  /\ user_gauges (sv_metrics (cf_srv ex_c1)) = gauges (sv_heap (cf_srv ex_c1)).
Proof.
  destruct (relay_server_consistent (H := canonical_range) _ _ _ _ _ _ _ ex_reachable) as (A & _).
  split; [vm_compute; reflexivity|].
  assert (sv_closed (cf_srv ex_c1) = false) as E by (vm_compute; reflexivity).
  rewrite E in A. exact (proj1 (proj2 A)).
Defined.
Lemma relay_forwards_proven_witness :
  exists e i, sv_heap (cf_srv ex_c1) !! 0%nat = Some e /\ ex_fromA = at_ (boundAddrPorts e) i
    /\ ex_fromB = at_ (boundAddrPorts e) (negb i) /\ challenged (cf_macs ex_c1) e (negb i) ex_fromB.
Proof.
  assert ((rxFinish ex_server ex_seal ex_open ex_blake (DataMsg 0 ex_fromA [x04] 30) (cf_srv ex_c1)).2
          = Write [x04] ex_fromB) as E by (vm_compute; reflexivity).
  destruct (relay_forwards_proven (H := canonical_range) _ _ _ _ _ _ _ _ _ _ _ _ _ ex_reachable E)
    as (_ & e & i & Hp & _ & Hf & Ht & _ & Hc).
  exists e, i. auto.
Defined.
Definition ex_data (x : byte) : bytes := wireguardPacket (VNI.Set_ 1) (zeros 8 ++ [x04; x00; x00; x00; x]).
Lemma relay_batch_equivalent_witness :
  exists s' ws f,
    readBatch (H := canonical_range) ex_server ex_seal ex_open ex_blake true true
      [MkRxMsg ex_fromA (ex_data x01) 30 []; MkRxMsg ex_fromA (ex_data x02) 30 []] (cf_srv ex_c1) = Some (s', ws, f)
    /\ MkSocketWrite true ex_fromB [ex_data x01; ex_data x02] ∈ ws.
Proof.
  set (msgs := [MkRxMsg ex_fromA (ex_data x01) 30 []; MkRxMsg ex_fromA (ex_data x02) 30 []]).
  assert (match packetOuts ex_server ex_seal ex_open ex_blake msgs (cf_srv ex_c1) with
          | Some (_, outs) => [ex_data x01; ex_data x02] = buffsTo true ex_fromB outs | None => False end) as C
    by (vm_compute; reflexivity).
  destruct (packetOuts ex_server ex_seal ex_open ex_blake msgs (cf_srv ex_c1)) as [[s' outs]|] eqn:E; [|destruct C].
  destruct (relay_batch_equivalent (H := canonical_range) _ _ _ _ true true msgs _ s' outs (or_introl eq_refl) E)
    as (ws & R & _ & W).
  exists s', ws, (countOuts outs (MkForwarded 0 0 0 0)). split; [exact R|].
  apply W. split; [exact C|]. split; [discriminate|reflexivity].
Defined.
End UdpRelayProps.
