(* ===== verification/Ordering.v ===== *)
(** * Comparison functions built lexicographically

    The three-way comparisons the engine sorts by test one key after the other. [lexc]
    composes comparisons, and the instances below show that every composition of the
    keys in use is an order in the sense [slices.SortFunc] needs ([Slices.CmpOrder]). *)
From S2P Require Import Prelude Netip.

Section Lex.
Context {A : Type}.
Implicit Types (P : A -> Prop) (c : A -> A -> Z).

(** Compare by an integer key, ascending. *)
Definition cmp_on (f : A -> Z) (a b : A) : Z := Z.sgn (f a - f b).
(** Compare by a boolean key, [true] first. *)
Definition cmp_flag (f : A -> bool) : A -> A -> Z := cmp_on (fun a => if f a then 0 else 1).
(** Compare by a string key, ascending. *)
Definition cmp_string (f : A -> string) (a b : A) : Z :=
  if string_lt (f a) (f b) then -1 else if string_lt (f b) (f a) then 1 else 0.
(** Compare by [c1], then by [c2]. *)
Definition lexc (c1 c2 : A -> A -> Z) (a b : A) : Z := if c1 a b =? 0 then c2 a b else c1 a b.
End Lex.

(** [P] holds of the elements that are really compared; equal elements compare equal. *)
Lemma cmp_zero {A} (P : A -> Prop) c `{!Slices.CmpOrder P c} a b :
  P a -> P b -> c a b = 0 <-> c b a = 0.
Proof.
  intros Ha Hb. pose proof (Slices.cmp_sign a b Ha Hb). pose proof (Slices.cmp_sign b a Hb Ha). lia.
Qed.

Lemma cmp_refl {A} (P : A -> Prop) c `{!Slices.CmpOrder P c} a : P a -> c a a = 0.
Proof. intros Ha. pose proof (Slices.cmp_sign a a Ha Ha). lia. Qed.

#[export] Instance cmp_on_order {A} (P : A -> Prop) f : Slices.CmpOrder P (cmp_on f).
Proof. split; unfold cmp_on; intros; lia. Qed.
#[export] Instance cmp_flag_order {A} (P : A -> Prop) f : Slices.CmpOrder P (cmp_flag f).
Proof. apply cmp_on_order. Qed.

Lemma string_lt_irrefl s : string_lt s s = false.
Proof.
  unfold string_lt. pose proof (String.compare_antisym s s) as E.
  by destruct (String.compare s s).
Qed.

Lemma string_compare_cons a s b t :
  String.compare (String a s) (String b t)
  = match N.compare (Ascii.N_of_ascii a) (Ascii.N_of_ascii b) with
    | Eq => String.compare s t | x => x end.
Proof. done. Qed.

Lemma string_compare_trans s t u :
  String.compare s t = Lt -> String.compare t u = Lt -> String.compare s u = Lt.
Proof.
  revert t u. induction s as [|a s IH]; intros [|b t] [|c u]; try done.
  rewrite !string_compare_cons.
  destruct (N.compare_spec (Ascii.N_of_ascii a) (Ascii.N_of_ascii b)) as [E1|E1|E1];
    destruct (N.compare_spec (Ascii.N_of_ascii b) (Ascii.N_of_ascii c)) as [E2|E2|E2];
    destruct (N.compare_spec (Ascii.N_of_ascii a) (Ascii.N_of_ascii c)) as [E3|E3|E3];
    try lia; try done; apply IH.
Qed.

Lemma string_lt_compare s t : string_lt s t = true <-> String.compare s t = Lt.
Proof. unfold string_lt. by destruct (String.compare s t). Qed.

Lemma string_lt_total s t : string_lt s t = false -> string_lt t s = false -> s = t.
Proof.
  unfold string_lt. rewrite (String.compare_antisym t s).
  destruct (String.compare s t) eqn:E; simpl; try done. intros _ _. by apply String.compare_eq_iff.
Qed.

#[export] Instance cmp_string_order {A} (P : A -> Prop) f : Slices.CmpOrder P (cmp_string f).
Proof.
  assert (forall s t, string_lt s t = true -> string_lt t s = false) as Hasym.
  { intros s t. unfold string_lt. rewrite (String.compare_antisym t s).
    by destruct (String.compare s t). }
  split; unfold cmp_string.
  - intros a b _ _. destruct (string_lt (f a) (f b)) eqn:E; [rewrite (Hasym _ _ E); lia|].
    destruct (string_lt (f b) (f a)); lia.
  - intros a b c _ _ _.
    destruct (string_lt (f a) (f b)) eqn:E1; [|destruct (string_lt (f b) (f a)) eqn:E1'; [lia|]];
    (destruct (string_lt (f b) (f c)) eqn:E2; [|destruct (string_lt (f c) (f b)) eqn:E2'; [lia|]]).
    + assert (string_lt (f a) (f c) = true) as ->; [|lia].
      rewrite string_lt_compare in *. by eapply string_compare_trans.
    + rewrite <- (string_lt_total _ _ E2 E2'), E1. lia.
    + rewrite (string_lt_total _ _ E1 E1'), E2. lia.
    + rewrite (string_lt_total _ _ E1 E1'), E2, E2'. lia.
Qed.

#[export] Instance lexc_order {A} (P : A -> Prop) c1 c2 :
  Slices.CmpOrder P c1 -> Slices.CmpOrder P c2 -> Slices.CmpOrder P (lexc c1 c2).
Proof.
  intros H1 H2. split; unfold lexc.
  - intros a b Ha Hb. pose proof (@Slices.cmp_sign _ P c1 H1 a b Ha Hb).
    pose proof (@Slices.cmp_sign _ P c1 H1 b a Hb Ha).
    pose proof (@Slices.cmp_sign _ P c2 H2 a b Ha Hb).
    destruct (Z.eqb_spec (c1 a b) 0), (Z.eqb_spec (c1 b a) 0); lia.
  - intros a b c Ha Hb Hc.
    pose proof (@Slices.cmp_sign _ P c1 H1 a b Ha Hb). pose proof (@Slices.cmp_sign _ P c1 H1 b a Hb Ha).
    pose proof (@Slices.cmp_sign _ P c1 H1 b c Hb Hc). pose proof (@Slices.cmp_sign _ P c1 H1 c b Hc Hb).
    pose proof (@Slices.cmp_sign _ P c1 H1 a c Ha Hc). pose proof (@Slices.cmp_sign _ P c1 H1 c a Hc Ha).
    pose proof (@Slices.cmp_trans _ P c1 H1 a b c Ha Hb Hc).
    pose proof (@Slices.cmp_trans _ P c1 H1 b c a Hb Hc Ha).
    pose proof (@Slices.cmp_trans _ P c1 H1 c a b Hc Ha Hb).
    pose proof (@Slices.cmp_trans _ P c1 H1 c b a Hc Hb Ha).
    pose proof (@Slices.cmp_trans _ P c2 H2 a b c Ha Hb Hc).
    destruct (Z.eqb_spec (c1 a b) 0), (Z.eqb_spec (c1 b c) 0), (Z.eqb_spec (c1 a c) 0); lia.
Qed.

Lemma cmp_order_ext {A} (P : A -> Prop) c c' :
  (forall a b, P a -> P b -> c a b = c' a b) -> Slices.CmpOrder P c' -> Slices.CmpOrder P c.
Proof.
  intros E H. split.
  - intros a b Ha Hb. rewrite !E by done. by apply (@Slices.cmp_sign _ P c' H).
  - intros a b d Ha Hb Hd. rewrite !E by done. by apply (@Slices.cmp_trans _ P c' H).
Qed.
