(* ===== verification/ProbeManager.v ===== *)
(** * The source-path probe manager ([sourcePathProbeManager], sourcepath.go)

    One record holds what the engine knows about its auxiliary sockets: probes in
    flight, round-trip samples, probe outcomes for loss scoring, and the per-path
    state of the data strategies. This file models the record, the probe life cycle
    (budgeted admission, expiry, pong matching, eviction) and the dual-send failure
    streaks, with the invariant that bounds every buffer.

    Metric counters and log lines are left out. A [nil] map reads as the empty map. *)
From S2P Require Import Prelude Netip Bytes Float64 Knobs.

Definition TxID := bytes.
Definition DiscoPublic := bytes.

(** ** Data *)
Record sourcePathDualSendKey := MkDSKey { dk_dst : epAddr; dk_source : sourceRxMeta }.
#[export] Instance DSKey_eq_dec : EqDecision sourcePathDualSendKey.
Proof. solve_decision. Defined.
#[export] Instance DSKey_countable : Countable sourcePathDualSendKey.
Proof.
  apply (inj_countable' (fun e => (dk_dst e, dk_source e)) (fun q => MkDSKey q.1 q.2)).
  by intros [].
Defined.

Record sourcePathFlowKey := MkFlowKey { fk_dst : epAddr; fk_id : Z }.
#[export] Instance FlowKey_eq_dec : EqDecision sourcePathFlowKey.
Proof. solve_decision. Defined.
#[export] Instance FlowKey_countable : Countable sourcePathFlowKey.
Proof.
  apply (inj_countable' (fun e => (fk_dst e, fk_id e)) (fun q => MkFlowKey q.1 q.2)).
  by intros [].
Defined.

Record sourcePathActiveBackupState := MkAB {
  sendFailStreak : Z;
  failoverAt : Z;
  holdUntil : Z;
  ab_source : sourceRxMeta
}.
Definition zeroAB : sourcePathActiveBackupState := MkAB 0 0 0 (MkRxMeta 0 0).

Record sourcePathFlowState := MkFlow { fl_source : sourceRxMeta; lastActivity : Z }.

Record sourcePathProbeTx := MkTx {
  txid : TxID;
  tx_dst : epAddr;
  dstDisco : DiscoPublic;
  tx_source : sourceRxMeta;
  tx_at : Z;
  tx_size : Z
}.

Record sourcePathAuxRotation := MkRotation {
  rot_dst : epAddr;
  rot_source : sourceRxMeta;
  rot_reason : string
}.

Record sourcePathProbeSample := MkSample {
  s_txid : TxID;
  s_dst : epAddr;
  pongFrom : epAddr;
  pongSrc : AddrPort;
  s_source : sourceRxMeta;
  s_latency : Z;
  s_at : Z
}.

Record sourcePathProbeOutcome := MkOutcome {
  o_dst : epAddr;
  o_source : sourceRxMeta;
  o_at : Z;
  lost : bool
}.

Record sourcePathProbeManager := MkPM {
  pending : gmap TxID sourcePathProbeTx;
  samples : list sourcePathProbeSample;
  outcomes : list sourcePathProbeOutcome;
  activeBackup : gmap epAddr sourcePathActiveBackupState;
  dualSendAuxFailStreak : gmap sourcePathDualSendKey Z;
  dualSendAuxProbeLoss : gmap sourcePathDualSendKey Z;
  dualSendDemotedAuxTill : gmap sourcePathDualSendKey Z;
  flowMap : gmap sourcePathFlowKey sourcePathFlowState;
  flowRR : gmap epAddr Z
}.
Definition zeroPM : sourcePathProbeManager := MkPM ∅ [] [] ∅ ∅ ∅ ∅ ∅ ∅.

Definition set_pending pm x :=
  MkPM x (samples pm) (outcomes pm) (activeBackup pm) (dualSendAuxFailStreak pm)
       (dualSendAuxProbeLoss pm) (dualSendDemotedAuxTill pm) (flowMap pm) (flowRR pm).
Definition set_samples pm x :=
  MkPM (pending pm) x (outcomes pm) (activeBackup pm) (dualSendAuxFailStreak pm)
       (dualSendAuxProbeLoss pm) (dualSendDemotedAuxTill pm) (flowMap pm) (flowRR pm).
Definition set_outcomes pm x :=
  MkPM (pending pm) (samples pm) x (activeBackup pm) (dualSendAuxFailStreak pm)
       (dualSendAuxProbeLoss pm) (dualSendDemotedAuxTill pm) (flowMap pm) (flowRR pm).
Definition set_activeBackup pm x :=
  MkPM (pending pm) (samples pm) (outcomes pm) x (dualSendAuxFailStreak pm)
       (dualSendAuxProbeLoss pm) (dualSendDemotedAuxTill pm) (flowMap pm) (flowRR pm).
Definition set_failStreak pm x :=
  MkPM (pending pm) (samples pm) (outcomes pm) (activeBackup pm) x
       (dualSendAuxProbeLoss pm) (dualSendDemotedAuxTill pm) (flowMap pm) (flowRR pm).
Definition set_probeLoss pm x :=
  MkPM (pending pm) (samples pm) (outcomes pm) (activeBackup pm) (dualSendAuxFailStreak pm)
       x (dualSendDemotedAuxTill pm) (flowMap pm) (flowRR pm).
Definition set_demoted pm x :=
  MkPM (pending pm) (samples pm) (outcomes pm) (activeBackup pm) (dualSendAuxFailStreak pm)
       (dualSendAuxProbeLoss pm) x (flowMap pm) (flowRR pm).
Definition set_flowMap pm x :=
  MkPM (pending pm) (samples pm) (outcomes pm) (activeBackup pm) (dualSendAuxFailStreak pm)
       (dualSendAuxProbeLoss pm) (dualSendDemotedAuxTill pm) x (flowRR pm).
Definition set_flowRR pm x :=
  MkPM (pending pm) (samples pm) (outcomes pm) (activeBackup pm) (dualSendAuxFailStreak pm)
       (dualSendAuxProbeLoss pm) (dualSendDemotedAuxTill pm) (flowMap pm) x.

Inductive sourcePathProbeAddResult :=
  | sourcePathProbeAdded
  | sourcePathProbePeerBudgetExceeded
  | sourcePathProbeBurstBudgetExceeded
  | sourcePathProbeHardCapExceeded.
#[export] Instance AddResult_eq_dec : EqDecision sourcePathProbeAddResult.
Proof. solve_decision. Defined.

(** [pingTimeoutDuration] of magicsock.go. *)
Definition pingTimeoutDuration : Z := 5 * Second.

(** ** Outcomes and samples *)
Section Ops.
Context `{MapRange} (k : Knobs).
Implicit Types (pm : sourcePathProbeManager) (now : Z).

(** Keeps the last [hardCap] elements of a slice when the cap is positive. *)
Definition cap_tail {A} (hardCap : Z) (l : list A) : list A :=
  if (0 <? hardCap) && (hardCap <? Z.of_nat (length l))
  then drop (length l - Z.to_nat hardCap) l else l.

Definition pruneExpiredOutcomesLocked pm now : sourcePathProbeManager :=
  if decide (outcomes pm = []) then pm
  else set_outcomes pm
    (filter (fun o => ~ sourcePathLossWindowValue k < Mono.Sub now (o_at o)) (outcomes pm)).

Definition noteOutcomeLocked pm (dst : epAddr) (source : sourceRxMeta) (at_ : Z) (l : bool)
  : sourcePathProbeManager :=
  let pm := set_outcomes pm (outcomes pm ++ [MkOutcome dst source at_ l]) in
  let pm := pruneExpiredOutcomesLocked pm at_ in
  set_outcomes pm (cap_tail (sourcePathProbeOutcomeLimitCount k) (outcomes pm)).

Definition pruneExpiredSamplesLocked pm now : sourcePathProbeManager :=
  if decide (samples pm = []) then pm
  else set_samples pm
    (filter (fun s => ~ sourcePathSampleTTLValue k < Mono.Sub now (s_at s)) (samples pm)).

Definition hasRecentSampleLocked pm (dst : epAddr) (source : sourceRxMeta) now : bool :=
  existsb (fun s => bool_decide (s_dst s = dst) && bool_decide (s_source s = source)
                    && (Mono.Sub now (s_at s) <=? sourcePathSampleTTLValue k)) (samples pm).

(** Drops the samples of one (destination, source) pair. *)
Definition invalidateLocked pm (dst : epAddr) (source : sourceRxMeta)
  : sourcePathProbeManager * Z :=
  let keep := filter (fun s => ~ (s_dst s = dst /\ s_source s = source)) (samples pm) in
  (set_samples pm keep, Z.of_nat (length (samples pm)) - Z.of_nat (length keep)).

(** ** Pending probes *)
Definition txExpired now (tx : sourcePathProbeTx) : bool :=
  pingTimeoutDuration <=? Mono.Sub now (tx_at tx).

Definition pruneStep now (acc : sourcePathProbeManager * list sourcePathProbeTx)
    (e : TxID * sourcePathProbeTx) : sourcePathProbeManager * list sourcePathProbeTx :=
  let '(pm, expired) := acc in
  let '(id, tx) := e in
  if txExpired now tx
  then (noteOutcomeLocked (set_pending pm (delete id (pending pm)))
                          (tx_dst tx) (tx_source tx) now true,
        expired ++ [tx])
  else acc.
Definition pruneExpiredLocked pm now : sourcePathProbeManager * list sourcePathProbeTx :=
  foldl (pruneStep now) (pm, []) (map_range (pending pm)).

(** The counting loops of the admission test: whether this peer has a pending
    probe, how many, the peers seen so far and their number. *)
Record budgetCount := MkCount {
  peerSeen : bool; peerPending : Z; seenPeers : gset DiscoPublic; peerCount : Z
}.
Definition countStep (peer : DiscoPublic) (acc : budgetCount) (e : TxID * sourcePathProbeTx)
  : budgetCount :=
  let d := dstDisco e.2 in
  let acc := if decide (d = peer)
             then MkCount true (peerPending acc + 1) (seenPeers acc) (peerCount acc) else acc in
  if decide (d ∈ seenPeers acc) then acc
  else MkCount (peerSeen acc) (peerPending acc) ({[d]} ∪ seenPeers acc) (peerCount acc + 1).
Definition countPeers (peer : DiscoPublic) (p : gmap TxID sourcePathProbeTx) : budgetCount :=
  foldl (countStep peer) (MkCount false 0 ∅ 0) (map_range p).
Definition countPending (peer : DiscoPublic) (p : gmap TxID sourcePathProbeTx) : Z :=
  foldl (fun n e => if decide (dstDisco e.2 = peer) then n + 1 else n) 0 (map_range p).

Definition addWithBudgetLocked pm (tx : sourcePathProbeTx) (maxPeers maxBurst hardCap : Z)
  : sourcePathProbeManager * sourcePathProbeAddResult :=
  let pm := (pruneExpiredLocked pm (tx_at tx)).1 in
  let maxBurst := if maxBurst <=? 0 then sourcePathProbeMaxBurst else maxBurst in
  if (0 <? hardCap) && (hardCap <=? Z.of_nat (size (pending pm)))
  then (pm, sourcePathProbeHardCapExceeded)
  else
    let c := countPeers (dstDisco tx) (pending pm) in
    if (0 <? maxPeers) && (negb (peerSeen c) && (maxPeers <=? peerCount c))
    then (pm, sourcePathProbePeerBudgetExceeded)
    else
      let n := if 0 <? maxPeers then peerPending c else countPending (dstDisco tx) (pending pm) in
      if maxBurst <=? n then (pm, sourcePathProbeBurstBudgetExceeded)
      else (set_pending pm (<[txid tx := tx]> (pending pm)), sourcePathProbeAdded).

Definition addLocked pm (tx : sourcePathProbeTx) :=
  addWithBudgetLocked pm tx (sourcePathProbeMaxPeerCount k) (sourcePathProbeMaxBurstCount k)
                      (sourcePathProbeHardPendingCount k).

Definition forgetLocked pm (id : TxID) : sourcePathProbeManager :=
  set_pending pm (delete id (pending pm)).
Definition pendingLenLocked pm : Z := Z.of_nat (size (pending pm)).
Definition samplesLenLocked pm : Z := Z.of_nat (length (samples pm)).

Definition clearLocked pm : sourcePathProbeManager := MkPM ∅ [] [] ∅ ∅ ∅ ∅ ∅ ∅.

(** A pong received on an auxiliary socket. [now] is the clock read inside. *)
Definition handlePongLocked pm (pongTxID : TxID) (pongSrc_ : AddrPort) (sender : DiscoPublic)
    (src : epAddr) (rxMeta : sourceRxMeta) now : sourcePathProbeManager * bool :=
  if isPrimary rxMeta then (pm, false)
  else match pending pm !! pongTxID with
  | None => (pm, false)
  | Some tx =>
      if txExpired now tx
      then (noteOutcomeLocked (set_pending pm (delete pongTxID (pending pm)))
                              (tx_dst tx) (tx_source tx) now true, true)
      else if negb (bool_decide (tx_source tx = rxMeta)) || negb (bool_decide (dstDisco tx = sender))
      then (pm, false)
      else
        let pm := set_pending pm (delete pongTxID (pending pm)) in
        let pm := noteOutcomeLocked pm (tx_dst tx) (tx_source tx) now false in
        let pm := set_probeLoss pm (delete (MkDSKey (tx_dst tx) (tx_source tx))
                                           (dualSendAuxProbeLoss pm)) in
        let pm := pruneExpiredSamplesLocked pm now in
        let pm := set_samples pm (samples pm ++
          [MkSample pongTxID (tx_dst tx) src pongSrc_ rxMeta (Mono.Sub now (tx_at tx)) now]) in
        (set_samples pm (cap_tail (sourcePathProbeSampleLimitCount k) (samples pm)), true)
  end.

(** ** Dual-send bookkeeping *)
Definition dualSendDemotedLocked pm (key : sourcePathDualSendKey) now
  : sourcePathProbeManager * bool :=
  match dualSendDemotedAuxTill pm !! key with
  | None => (pm, false)
  | Some until_ =>
      if negb (Mono.Before now until_)
      then (set_demoted pm (delete key (dualSendDemotedAuxTill pm)), false)
      else (pm, true)
  end.

Definition expirationStep now (threshold : Z)
    (acc : sourcePathProbeManager * gset sourceRxMeta * list sourcePathAuxRotation)
    (tx : sourcePathProbeTx)
  : sourcePathProbeManager * gset sourceRxMeta * list sourcePathAuxRotation :=
  let '(pm, seen, rotations) := acc in
  if isPrimary (tx_source tx) || negb (hasRecentSampleLocked pm (tx_dst tx) (tx_source tx) now)
  then acc
  else
    let key := MkDSKey (tx_dst tx) (tx_source tx) in
    let streak := default 0 (dualSendAuxProbeLoss pm !! key) + 1 in
    if streak <? threshold
    then (set_probeLoss pm (<[key := streak]> (dualSendAuxProbeLoss pm)), seen, rotations)
    else
      let pm := set_probeLoss pm (delete key (dualSendAuxProbeLoss pm)) in
      if decide (tx_source tx ∈ seen) then (pm, seen, rotations)
      else (pm, {[tx_source tx]} ∪ seen,
            rotations ++ [MkRotation (tx_dst tx) (tx_source tx) "source-path-probe-timeout"]).
Definition noteProbeExpirationsLocked pm (expired : list sourcePathProbeTx) now
  : sourcePathProbeManager * list sourcePathAuxRotation :=
  if decide (expired = []) then (pm, [])
  else
    let threshold := sourcePathDualSendAuxProbeDropStreakValue k in
    if threshold <=? 0 then (pm, [])
    else let '(pm, _, rotations) := foldl (expirationStep now threshold) (pm, ∅, []) expired in
         (pm, rotations).

(** The bookkeeping half of [noteSourcePathDualSendAuxFailure]: the new state and
    whether the socket is to be rotated. [hasErr] is [sendErr != nil]. *)
Definition dualSendAuxFailureLocked pm (dst : epAddr) (source : sourceRxMeta) now (hasErr : bool)
  : sourcePathProbeManager * bool :=
  let key := MkDSKey dst source in
  let streak := default 0 (dualSendAuxFailStreak pm !! key) + 1 in
  let pm := set_failStreak pm (<[key := streak]> (dualSendAuxFailStreak pm)) in
  if negb (hasErr || (sourcePathDualSendAuxDropStreakValue k <=? streak)) then (pm, false)
  else
    let pm := set_failStreak pm (delete key (dualSendAuxFailStreak pm)) in
    (set_demoted pm (<[key := Mono.Add now (sourcePathDualSendRecoveryValue k)]>
                       (dualSendDemotedAuxTill pm)), true).
Definition dualSendAuxSuccessLocked pm (dst : epAddr) (source : sourceRxMeta)
  : sourcePathProbeManager :=
  let key := MkDSKey dst source in
  let pm := set_failStreak pm (delete key (dualSendAuxFailStreak pm)) in
  set_probeLoss pm (delete key (dualSendAuxProbeLoss pm)).

(** Forgets an auxiliary socket; returns the counts of dropped samples, outcomes,
    probes and flows. *)
Definition dropSourceLocked pm (source : sourceRxMeta)
  : sourcePathProbeManager * (Z * Z * Z * Z) :=
  if isPrimary source then (pm, (0, 0, 0, 0))
  else
    let samples' := filter (fun s => s_source s <> source) (samples pm) in
    let outcomes' := filter (fun o => o_source o <> source) (outcomes pm) in
    let pending' := filter (fun e : TxID * sourcePathProbeTx => tx_source e.2 <> source) (pending pm) in
    let flows' := filter (fun e : sourcePathFlowKey * sourcePathFlowState => fl_source e.2 <> source)
                         (flowMap pm) in
    let keep := filter (fun e : sourcePathDualSendKey * Z => dk_source e.1 <> source) in
    (MkPM pending' samples' outcomes' (activeBackup pm)
          (keep (dualSendAuxFailStreak pm)) (keep (dualSendAuxProbeLoss pm))
          (keep (dualSendDemotedAuxTill pm)) flows' (flowRR pm),
     (Z.of_nat (length (samples pm)) - Z.of_nat (length samples'),
      Z.of_nat (length (outcomes pm)) - Z.of_nat (length outcomes'),
      Z.of_nat (size (pending pm)) - Z.of_nat (size pending'),
      Z.of_nat (size (flowMap pm)) - Z.of_nat (size flows'))).
End Ops.

(** ** Reference notions

    Order-free descriptions of what the loops over the pending table compute. *)
Definition live (now : Z) (p : gmap TxID sourcePathProbeTx) : gmap TxID sourcePathProbeTx :=
  filter (fun e : TxID * sourcePathProbeTx => txExpired now e.2 = false) p.
Definition peers_of (p : gmap TxID sourcePathProbeTx) : gset DiscoPublic :=
  list_to_set (dstDisco <$> (map_to_list p).*2).
Definition pending_of (peer : DiscoPublic) (p : gmap TxID sourcePathProbeTx) : Z :=
  Z.of_nat (length (filter (fun e : TxID * sourcePathProbeTx => dstDisco e.2 = peer)
                           (map_to_list p))).

Definition capped {A} (hardCap : Z) (l : list A) : Prop :=
  0 < hardCap -> Z.of_nat (length l) <= hardCap.

(** The well-formedness of the manager at time [t]: the pending table is indexed by
    transaction id, probes and samples belong to auxiliary sockets and direct
    destinations, every recorded instant is in the past, every round trip is shorter
    than the ping timeout, and every buffer respects its memory cap. *)
Record pm_wf (k : Knobs) (t : Z) (pm : sourcePathProbeManager) : Prop := {
  wf_now : Mono.ok t;
  wf_tx : map_Forall (fun id tx =>
    txid tx = id /\ isPrimary (tx_source tx) = false /\ isDirect (tx_dst tx) = true
    /\ 0 <= tx_at tx <= t) (pending pm);
  wf_samples : Forall (fun s =>
    isPrimary (s_source s) = false /\ isDirect (s_dst s) = true
    /\ 0 <= s_latency s < pingTimeoutDuration /\ 0 <= s_at s <= t) (samples pm);
  wf_outcomes : Forall (fun o => 0 <= o_at o <= t) (outcomes pm);
  wf_flows : map_Forall (fun _ f => 0 <= lastActivity f <= t) (flowMap pm);
  wf_samples_cap : capped (sourcePathProbeSampleLimitCount k) (samples pm);
  wf_outcomes_cap : capped (sourcePathProbeOutcomeLimitCount k) (outcomes pm);
  wf_pending_cap : 0 < sourcePathProbeHardPendingCount k ->
    Z.of_nat (size (pending pm)) <= sourcePathProbeHardPendingCount k;
  wf_flow_cap : 0 < sourcePathFlowMaxEntriesValue k ->
    Z.of_nat (size (flowMap pm)) <= sourcePathFlowMaxEntriesValue k;
  wf_fail_streak : map_Forall (fun _ n => 0 < n < sourcePathDualSendAuxDropStreakValue k)
    (dualSendAuxFailStreak pm);
  wf_loss_streak : map_Forall (fun _ n => 0 < n < sourcePathDualSendAuxProbeDropStreakValue k)
    (dualSendAuxProbeLoss pm)
}.

(** ** Lemmas *)
Lemma cap_tail_capped {A} c (l : list A) : capped c (cap_tail c l).
Proof.
  unfold capped, cap_tail. intros Hc. case_match eqn:E; bool_props.
  - rewrite length_drop. lia.
  - apply andb_false_iff in E as [E|E]; bool_props; lia.
Qed.

Lemma cap_tail_suffix {A} c (l : list A) : cap_tail c l `suffix_of` l.
Proof.
  unfold cap_tail. case_match; [|done].
  eexists. symmetry. apply take_drop.
Qed.

Lemma Forall_suffix {A} (P : A -> Prop) l l' : l' `suffix_of` l -> Forall P l -> Forall P l'.
Proof. intros [l1 ->] [_ ?]%Forall_app. done. Qed.

Lemma Forall_filter_keep {A} (P Q : A -> Prop) `{forall x, Decision (Q x)} l :
  Forall P l -> Forall P (filter Q l).
Proof. rewrite !Forall_forall. intros HP x [_ ?]%list_elem_of_filter. auto. Qed.

Lemma capped_filter {A} (P : A -> Prop) `{forall x, Decision (P x)} c l :
  capped c l -> capped c (filter P l).
Proof. unfold capped. pose proof (length_filter P l). lia. Qed.

Section Facts.
Context `{MapRange} (k : Knobs).
Implicit Types (pm : sourcePathProbeManager) (now : Z).

(** Nothing but the outcomes changes when an outcome is recorded or pruned. *)
Lemma pruneExpiredOutcomesLocked_frame pm now :
  pruneExpiredOutcomesLocked k pm now
  = set_outcomes pm (filter (fun o => ~ sourcePathLossWindowValue k < Mono.Sub now (o_at o))
                            (outcomes pm)).
Proof.
  unfold pruneExpiredOutcomesLocked. destruct (decide _) as [E|]; [|done].
  destruct pm; simpl in *. by subst.
Qed.

Lemma pruneExpiredSamplesLocked_eq pm now :
  pruneExpiredSamplesLocked k pm now
  = set_samples pm (filter (fun s => ~ sourcePathSampleTTLValue k < Mono.Sub now (s_at s))
                           (samples pm)).
Proof.
  unfold pruneExpiredSamplesLocked. destruct (decide _) as [E|]; [|done].
  destruct pm; simpl in *. by subst.
Qed.

Lemma noteOutcomeLocked_frame pm dst src t l :
  noteOutcomeLocked k pm dst src t l
  = set_outcomes pm (outcomes (noteOutcomeLocked k pm dst src t l)).
Proof. unfold noteOutcomeLocked. by rewrite pruneExpiredOutcomesLocked_frame. Qed.

Lemma noteOutcomeLocked_capped pm dst src t l :
  capped (sourcePathProbeOutcomeLimitCount k) (outcomes (noteOutcomeLocked k pm dst src t l)).
Proof. apply cap_tail_capped. Qed.

Lemma noteOutcomeLocked_Forall (P : sourcePathProbeOutcome -> Prop) pm dst src t l :
  Forall P (outcomes pm) -> P (MkOutcome dst src t l) ->
  Forall P (outcomes (noteOutcomeLocked k pm dst src t l)).
Proof.
  intros HP Ho. unfold noteOutcomeLocked. rewrite pruneExpiredOutcomesLocked_frame. simpl.
  eapply Forall_suffix; [apply cap_tail_suffix|]. apply Forall_filter_keep, Forall_app. auto.
Qed.

(** *** Expiry *)
Lemma prune_fold_frame now l pm ex :
  (foldl (pruneStep k now) (pm, ex) l).1
  = set_outcomes (set_pending pm (pending (foldl (pruneStep k now) (pm, ex) l).1))
                 (outcomes (foldl (pruneStep k now) (pm, ex) l).1).
Proof.
  revert pm ex. induction l as [|[id tx] l IH]; intros pm ex; simpl; [by destruct pm|].
  destruct (txExpired now tx); [|apply IH].
  rewrite IH. rewrite noteOutcomeLocked_frame. done.
Qed.

Lemma prune_fold_pending now l pm ex id tx :
  pending (foldl (pruneStep k now) (pm, ex) l).1 !! id = Some tx <->
  pending pm !! id = Some tx /\ (forall tx', (id, tx') ∈ l -> txExpired now tx' = false).
Proof.
  revert pm ex. induction l as [|[id' tx'] l IH]; intros pm ex; simpl.
  { set_solver. }
  destruct (txExpired now tx') eqn:E; rewrite IH.
  - rewrite noteOutcomeLocked_frame. simpl. rewrite lookup_delete_Some.
    split.
    + intros [[Hne ?] Hl]. split; [done|]. intros tx2 [?|?]%elem_of_cons; [congruence|auto].
    + intros [? Hl]. split_and!; [|done|]; [|intros; apply Hl; by right].
      intros ->. specialize (Hl tx' ltac:(by left)). congruence.
  - split; intros [? Hl]; (split; [done|]); intros tx2; [|intros; apply Hl; by right].
    intros [?|?]%elem_of_cons; [by simplify_eq|auto].
Qed.

Lemma prune_fold_expired now l pm ex :
  (foldl (pruneStep k now) (pm, ex) l).2
  = ex ++ filter (fun tx => txExpired now tx = true) l.*2.
Proof.
  revert pm ex. induction l as [|[id tx] l IH]; intros pm ex; simpl; [by rewrite app_nil_r|].
  rewrite filter_cons. destruct (txExpired now tx) eqn:E; rewrite IH.
  - rewrite decide_True by done. by rewrite <- app_assoc.
  - rewrite decide_False by done. done.
Qed.

Lemma pruneExpiredLocked_pending pm now :
  pending (pruneExpiredLocked k pm now).1 = live now (pending pm).
Proof.
  apply map_eq. intros id. apply option_eq. intros tx. unfold pruneExpiredLocked, live.
  rewrite prune_fold_pending, map_lookup_filter_Some. simpl.
  split; intros [Hp Hx]; (split; [done|]).
  - apply Hx. by apply elem_of_map_range.
  - intros tx' Hin%elem_of_map_range. by simplify_eq.
Qed.

Lemma pruneExpiredLocked_frame pm now :
  (pruneExpiredLocked k pm now).1
  = set_outcomes (set_pending pm (live now (pending pm)))
                 (outcomes (pruneExpiredLocked k pm now).1).
Proof.
  rewrite <- pruneExpiredLocked_pending. unfold pruneExpiredLocked. apply prune_fold_frame.
Qed.

Lemma prune_fold_outcomes (P : list sourcePathProbeOutcome -> Prop) now l pm ex :
  P (outcomes pm) ->
  (forall pm dst src, P (outcomes pm) -> P (outcomes (noteOutcomeLocked k pm dst src now true))) ->
  P (outcomes (foldl (pruneStep k now) (pm, ex) l).1).
Proof.
  intros HP Hstep. revert pm ex HP. induction l as [|[id tx] l IH]; intros pm ex HP; simpl; [done|].
  destruct (txExpired now tx); apply IH; [|done]. by apply Hstep.
Qed.
End Facts.

(** *** Counting *)
Section Counting.
Context `{MapRange}.
Implicit Types (p : gmap TxID sourcePathProbeTx) (l : list (TxID * sourcePathProbeTx)).

Lemma countStep_fold peer l c :
  let r := foldl (countStep peer) c l in
  let n := length (filter (fun e : TxID * sourcePathProbeTx => dstDisco e.2 = peer) l) in
  peerPending r = peerPending c + Z.of_nat n
  /\ peerSeen r = peerSeen c || (0 <? Z.of_nat n)
  /\ seenPeers r = seenPeers c ∪ list_to_set (dstDisco <$> l.*2)
  /\ peerCount r - Z.of_nat (size (seenPeers r)) = peerCount c - Z.of_nat (size (seenPeers c)).
Proof.
  revert c. induction l as [|[id tx] l IH]; intros c; simpl.
  { rewrite orb_false_r. split_and!; [lia|done|set_solver|lia]. }
  destruct (IH (countStep peer c (id, tx))) as (-> & -> & -> & ->). clear IH.
  rewrite filter_cons. unfold countStep. simpl.
  destruct (decide (dstDisco tx = peer)) as [E|E]; simpl;
    (destruct (decide (dstDisco tx ∈ seenPeers c)) as [Hin|Hin]; simpl;
     [|rewrite size_union, size_singleton by set_solver]);
    rewrite ?orb_true_r; split_and!; try set_solver; try lia; try done.
Qed.

Lemma elem_of_peers_of peer p :
  peer ∈ peers_of p <-> exists id tx, p !! id = Some tx /\ dstDisco tx = peer.
Proof.
  unfold peers_of. rewrite elem_of_list_to_set, list_elem_of_fmap. split.
  - intros (tx & -> & ([id tx'] & -> & Hin%elem_of_map_to_list)%list_elem_of_fmap). eauto.
  - intros (id & tx & Hp & <-). exists tx. split; [done|]. apply list_elem_of_fmap.
    exists (id, tx). split; [done|]. by apply elem_of_map_to_list.
Qed.

Lemma countPeers_spec peer p :
  let c := countPeers peer p in
  peerSeen c = bool_decide (peer ∈ peers_of p) /\ peerPending c = pending_of peer p
  /\ peerCount c = Z.of_nat (size (peers_of p)).
Proof.
  unfold countPeers. destruct (countStep_fold peer (map_range p) (MkCount false 0 ∅ 0))
    as (Hp & Hs & Hset & Hc).
  cbn [peerPending peerSeen seenPeers peerCount orb] in *.
  assert (length (filter (fun e : TxID * sourcePathProbeTx => dstDisco e.2 = peer) (map_range p))
    = length (filter (fun e : TxID * sourcePathProbeTx => dstDisco e.2 = peer) (map_to_list p)))
    as Hlen by (by rewrite map_range_perm).
  assert (seenPeers (foldl (countStep peer) (MkCount false 0 ∅ 0) (map_range p)) = peers_of p) as Hseen.
  { rewrite Hset. apply leibniz_equiv. unfold peers_of. rewrite left_id by apply _.
    apply list_to_set_perm. by rewrite map_range_perm. }
  rewrite Hseen, size_empty in Hc. rewrite Hp, Hs, Hlen. unfold pending_of. split_and!; [|lia|lia].
  apply eq_bool_prop_intro. rewrite bool_decide_spec, Is_true_true, Z.ltb_lt, elem_of_peers_of.
  split.
  - destruct (filter _ (map_to_list p)) as [|[id tx] fl] eqn:E; simpl; [lia|intros _].
    assert ((id, tx) ∈ filter (fun e : TxID * sourcePathProbeTx => dstDisco e.2 = peer)
      (map_to_list p)) as [? ?%elem_of_map_to_list]%list_elem_of_filter by (rewrite E; by left).
    by exists id, tx.
  - intros (id & tx & Hin & Hd).
    assert ((id, tx) ∈ filter (fun e : TxID * sourcePathProbeTx => dstDisco e.2 = peer)
      (map_to_list p)) as F by (apply list_elem_of_filter; by rewrite elem_of_map_to_list).
    destruct (filter _ (map_to_list p)); [by apply not_elem_of_nil in F|simpl; lia].
Qed.

Lemma countPending_spec peer p : countPending peer p = pending_of peer p.
Proof.
  unfold countPending, pending_of. rewrite <- (map_range_perm p).
  enough (forall n, foldl (fun n (e : TxID * sourcePathProbeTx) =>
      if decide (dstDisco e.2 = peer) then n + 1 else n) n (map_range p)
    = n + Z.of_nat (length (filter (fun e : TxID * sourcePathProbeTx => dstDisco e.2 = peer)
                                   (map_range p)))) as -> by lia.
  induction (map_range p) as [|e l IH]; intros n; simpl; [lia|].
  rewrite IH, filter_cons. destruct (decide _); simpl; lia.
Qed.

Lemma pending_of_subseteq peer p p' : p ⊆ p' -> pending_of peer p <= pending_of peer p'.
Proof.
  intros Hs%map_to_list_submseteq. unfold pending_of.
  apply submseteq_Permutation in Hs as [l ->]. rewrite filter_app, length_app. lia.
Qed.

Lemma pending_of_insert peer id tx p :
  pending_of peer (<[id := tx]> p)
  <= pending_of peer p + (if decide (dstDisco tx = peer) then 1 else 0).
Proof.
  rewrite <- insert_delete_eq.
  transitivity (pending_of peer (delete id p) + (if decide (dstDisco tx = peer) then 1 else 0)).
  - unfold pending_of. rewrite map_to_list_insert by apply lookup_delete_eq.
    rewrite filter_cons. simpl. destruct (decide _); simpl; lia.
  - pose proof (pending_of_subseteq peer (delete id p) p (delete_subseteq _ _)). lia.
Qed.

Lemma peers_of_subseteq p p' : p ⊆ p' -> peers_of p ⊆ peers_of p'.
Proof.
  intros Hs peer. rewrite !elem_of_peers_of. intros (id & tx & Hp & Hd).
  exists id, tx. split; [|done]. by eapply lookup_weaken.
Qed.

Lemma peers_of_insert id tx p : peers_of (<[id := tx]> p) ⊆ {[dstDisco tx]} ∪ peers_of p.
Proof.
  intros peer. rewrite elem_of_union, !elem_of_peers_of.
  intros (id' & tx' & [[-> ->]|[_ Hp]]%lookup_insert_Some & <-); set_solver.
Qed.

Lemma live_subseteq now p : live now p ⊆ p.
Proof. apply map_filter_subseteq. Qed.
End Counting.

(** ** Preservation of well-formedness *)

(** [shrinks pm' pm]: [pm'] only forgets. Every eviction is an instance. *)
Record shrinks (pm' pm : sourcePathProbeManager) : Prop := {
  sh_pending : pending pm' ⊆ pending pm;
  sh_samples : samples pm' `sublist_of` samples pm;
  sh_outcomes : outcomes pm' `sublist_of` outcomes pm;
  sh_flows : flowMap pm' ⊆ flowMap pm;
  sh_fail : dualSendAuxFailStreak pm' ⊆ dualSendAuxFailStreak pm;
  sh_loss : dualSendAuxProbeLoss pm' ⊆ dualSendAuxProbeLoss pm
}.

Lemma sublist_capped {A} c (l l' : list A) : l' `sublist_of` l -> capped c l -> capped c l'.
Proof. unfold capped. intros Hs%sublist_length. lia. Qed.

Lemma Forall_sublist {A} (P : A -> Prop) l l' : l' `sublist_of` l -> Forall P l -> Forall P l'.
Proof. induction 1; intros HP; inversion HP; subst; auto. Qed.

Lemma map_Forall_subseteq {K V} `{Countable K} (P : K -> V -> Prop) (m m' : gmap K V) :
  m' ⊆ m -> map_Forall P m -> map_Forall P m'.
Proof. intros Hs HP i x Hi. apply HP. by eapply lookup_weaken. Qed.

Lemma pm_wf_shrink k t pm pm' : shrinks pm' pm -> pm_wf k t pm -> pm_wf k t pm'.
Proof.
  intros [Hp Hs Ho Hf Hff Hl] [? Htx Hsa Hou Hfl Hsc Hoc Hpc Hfc Hfs Hls].
  pose proof (map_subseteq_size _ _ Hp). pose proof (map_subseteq_size _ _ Hf).
  split; try done.
  all: try (eapply map_Forall_subseteq; done).
  all: try (eapply Forall_sublist; done).
  all: try (eapply sublist_capped; done).
  all: lia.
Qed.

Lemma pm_wf_later k t t' pm : t <= t' -> Mono.ok t' -> pm_wf k t pm -> pm_wf k t' pm.
Proof.
  intros Ht Hok [? Htx Hsa Hou Hfl Hsc Hoc Hpc Hfc Hfs Hls]. split; try done.
  - intros id tx Hid. specialize (Htx id tx Hid) as (?&?&?&?). split_and!; auto; lia.
  - eapply Forall_impl; [exact Hsa|]. simpl. intros s (?&?&?&?). split_and!; auto; lia.
  - eapply Forall_impl; [exact Hou|]. simpl. lia.
  - intros id f Hid. specialize (Hfl id f Hid). simpl in *. lia.
Qed.

Create HintDb shrink.
#[export] Hint Extern 2 (filter _ _ ⊆ _) => apply map_filter_subseteq : shrink.
#[export] Hint Extern 2 (delete _ _ ⊆ _) => apply delete_subseteq : shrink.
#[export] Hint Extern 2 (filter _ _ `sublist_of` _) => apply sublist_filter : shrink.
#[export] Hint Extern 1 (_ ⊆ _) => reflexivity : shrink.
#[export] Hint Extern 1 (_ `sublist_of` _) => reflexivity : shrink.
#[export] Hint Extern 2 (∅ ⊆ _) => apply map_empty_subseteq : shrink.
#[export] Hint Extern 2 ([] `sublist_of` _) => apply sublist_nil_l : shrink.

Section Preserve.
Context `{MapRange} (k : Knobs).
Implicit Types (pm : sourcePathProbeManager) (t : Z).

Lemma forgetLocked_shrinks pm id : shrinks (forgetLocked pm id) pm.
Proof. split; simpl; auto with shrink. Qed.
Lemma clearLocked_shrinks pm : shrinks (clearLocked pm) pm.
Proof. split; simpl; auto with shrink. Qed.
Lemma invalidateLocked_shrinks pm dst src : shrinks (invalidateLocked pm dst src).1 pm.
Proof. split; simpl; auto with shrink. Qed.
Lemma dropSourceLocked_shrinks pm src : shrinks (dropSourceLocked pm src).1 pm.
Proof. unfold dropSourceLocked. case_match; split; simpl; auto with shrink. Qed.
Lemma dualSendDemotedLocked_shrinks pm key now : shrinks (dualSendDemotedLocked pm key now).1 pm.
Proof. unfold dualSendDemotedLocked. repeat case_match; split; simpl; auto with shrink. Qed.
Lemma dualSendAuxSuccessLocked_shrinks pm dst src : shrinks (dualSendAuxSuccessLocked pm dst src) pm.
Proof. split; simpl; auto with shrink. Qed.
Lemma pruneExpiredOutcomesLocked_shrinks pm now : shrinks (pruneExpiredOutcomesLocked k pm now) pm.
Proof. rewrite pruneExpiredOutcomesLocked_frame. split; simpl; auto with shrink. Qed.

Lemma noteOutcomeLocked_wf t pm dst src l :
  pm_wf k t pm -> pm_wf k t (noteOutcomeLocked k pm dst src t l).
Proof.
  intros Hwf. pose proof (noteOutcomeLocked_capped k pm dst src t l) as Hcap.
  pose proof (noteOutcomeLocked_Forall k (fun o => 0 <= o_at o <= t) pm dst src t l
    (wf_outcomes _ _ _ Hwf)) as Hall.
  rewrite noteOutcomeLocked_frame. destruct Hwf as [[]]. split; simpl; try done. by apply Hall.
Qed.

Lemma pruneExpiredLocked_wf t pm : pm_wf k t pm -> pm_wf k t (pruneExpiredLocked k pm t).1.
Proof.
  unfold pruneExpiredLocked. generalize (map_range (pending pm)), (@nil sourcePathProbeTx).
  intros l ex. revert pm ex. induction l as [|[id tx] l IH]; intros pm ex Hwf; simpl; [done|].
  destruct (txExpired t tx); apply IH; [|done]. apply noteOutcomeLocked_wf.
  eapply pm_wf_shrink; [apply forgetLocked_shrinks|done].
Qed.

Lemma addLocked_wf pm tx :
  isPrimary (tx_source tx) = false -> isDirect (tx_dst tx) = true ->
  pm_wf k (tx_at tx) pm -> pm_wf k (tx_at tx) (addLocked k pm tx).1.
Proof.
  intros Hs Hd Hwf. apply pruneExpiredLocked_wf in Hwf. revert Hwf.
  unfold addLocked, addWithBudgetLocked.
  generalize (pruneExpiredLocked k pm (tx_at tx)).1. clear pm. intros pm Hwf.
  cbv zeta. destruct (_ && (_ <=? Z.of_nat _)) eqn:Ecap; [exact Hwf|].
  destruct (_ && (_ && _)); [exact Hwf|].
  match goal with |- context [if ?b <=? (if _ then peerPending _ else _) then _ else _] =>
    destruct (b <=? _); [exact Hwf|] end.
  destruct Hwf as [[] Htx ? ? ? ? ? Hpc]. split; simpl; try done.
  - apply map_Forall_insert_2; [|done]. split_and!; auto; lia.
  - intros Hc. rewrite map_size_insert. destruct (_ !! _); simpl; [auto|].
    apply andb_false_iff in Ecap as [?|?]; bool_props; lia.
Qed.

Lemma handlePongLocked_wf t pm id ps sender src rx :
  pm_wf k t pm -> pm_wf k t (handlePongLocked k pm id ps sender src rx t).1.
Proof.
  intros Hwf. unfold handlePongLocked.
  destruct (isPrimary rx) eqn:Hrx; [done|].
  destruct (pending pm !! id) as [tx|] eqn:Hid; [|done].
  pose proof (wf_tx _ _ _ Hwf id tx Hid) as (_ & _ & Hdir & Hat).
  pose proof (pm_wf_shrink k t _ _ (forgetLocked_shrinks pm id) Hwf) as Hwf1.
  destruct (txExpired t tx) eqn:Hx; simpl; [by apply noteOutcomeLocked_wf|].
  destruct (_ || _); [done|]. simpl.
  apply (noteOutcomeLocked_wf t _ (tx_dst tx) (tx_source tx) false) in Hwf1.
  rewrite pruneExpiredSamplesLocked_eq. simpl in *.
  destruct Hwf1 as [Hok ? Hsa ? ? ? ? ? ? ? Hls]. split; simpl; try done.
  - eapply Forall_suffix; [apply cap_tail_suffix|]. apply Forall_app. split.
    + by apply Forall_filter_keep.
    + constructor; [|done]. simpl. unfold txExpired in Hx. bool_props.
      rewrite Mono.Sub_ok in * by (unfold Mono.ok in *; lia). unfold Mono.ok in *.
      split_and!; auto; lia.
  - apply cap_tail_capped.
  - eapply map_Forall_subseteq; [apply delete_subseteq|done].
Qed.

Lemma dualSendAuxFailureLocked_wf t pm dst src now e :
  pm_wf k t pm -> pm_wf k t (dualSendAuxFailureLocked k pm dst src now e).1.
Proof.
  intros [? ? ? ? ? ? ? ? ? Hfs ?]. unfold dualSendAuxFailureLocked.
  set (key := MkDSKey dst src).
  assert (0 < default 0 (dualSendAuxFailStreak pm !! key) + 1) as Hpos.
  { destruct (_ !! key) eqn:E; simpl; [|lia]. specialize (Hfs _ _ E). simpl in Hfs. lia. }
  case_match eqn:E; simpl; split; simpl; try done.
  - apply map_Forall_insert_2; [|done]. bool_props. lia.
  - rewrite delete_insert_eq. eapply map_Forall_subseteq; [apply delete_subseteq|done].
Qed.

Lemma expirationStep_wf t now acc tx :
  pm_wf k t acc.1.1 ->
  pm_wf k t (expirationStep k now (sourcePathDualSendAuxProbeDropStreakValue k) acc tx).1.1.
Proof.
  destruct acc as [[pm seen] rots]. simpl. intros Hwf. unfold expirationStep.
  destruct (_ || _); [done|]. destruct Hwf as [? ? ? ? ? ? ? ? ? ? Hls].
  set (key := MkDSKey (tx_dst tx) (tx_source tx)).
  assert (0 < default 0 (dualSendAuxProbeLoss pm !! key) + 1) as Hpos.
  { destruct (_ !! key) eqn:E; simpl; [|lia]. specialize (Hls _ _ E). simpl in Hls. lia. }
  repeat case_match; bool_props; split; simpl; try done.
  1: apply map_Forall_insert_2; [lia|done].
  all: eapply map_Forall_subseteq; [apply delete_subseteq|done].
Qed.

Lemma noteProbeExpirationsLocked_wf t pm ex now :
  pm_wf k t pm -> pm_wf k t (noteProbeExpirationsLocked k pm ex now).1.
Proof.
  intros Hwf. unfold noteProbeExpirationsLocked. do 2 (case_match; [done|]).
  match goal with |- context [foldl ?f ?a ex] =>
    enough (pm_wf k t (foldl f a ex).1.1) as Hf;
      [destruct (foldl f a ex) as [[? ?] ?]; done|] end.
  assert (pm_wf k t ((pm, ∅ : gset sourceRxMeta, @nil sourcePathAuxRotation)).1.1) as Hacc by done.
  revert Hacc. generalize (pm, ∅ : gset sourceRxMeta, @nil sourcePathAuxRotation).
  clear. induction ex as [|tx ex IH]; intros acc Hacc; simpl; [done|].
  apply IH. by apply expirationStep_wf.
Qed.
End Preserve.

(** ** Properties *)
Section Properties.
Context `{MapRange} (k : Knobs).
Implicit Types (pm : sourcePathProbeManager).

(** Admission of a probe, on every branch and for every order in which the
    pending table is walked: expired probes are dropped first, then the verdict is
    the hard cap, the number of distinct peers with a pending probe, and this peer's
    pending count, tested in that order; only an admitted probe enters the table, and
    nothing but the table and the loss outcomes changes. *)
Theorem addWithBudgetLocked_spec pm tx maxPeers maxBurst hardCap :
  let res := addWithBudgetLocked k pm tx maxPeers maxBurst hardCap in
  let p := live (tx_at tx) (pending pm) in
  let burst := if maxBurst <=? 0 then 8 else maxBurst in
  res.2 = (if (0 <? hardCap) && (hardCap <=? Z.of_nat (size p))
           then sourcePathProbeHardCapExceeded
           else if (0 <? maxPeers) && (bool_decide (dstDisco tx ∉ peers_of p)
                                       && (maxPeers <=? Z.of_nat (size (peers_of p))))
           then sourcePathProbePeerBudgetExceeded
           else if burst <=? pending_of (dstDisco tx) p
           then sourcePathProbeBurstBudgetExceeded
           else sourcePathProbeAdded)
  /\ res.1 = set_outcomes
       (set_pending pm (if decide (res.2 = sourcePathProbeAdded) then <[txid tx := tx]> p else p))
       (outcomes res.1).
Proof.
  unfold addWithBudgetLocked. cbv zeta.
  pose proof (pruneExpiredLocked_frame k pm (tx_at tx)) as Hfr.
  generalize dependent (pruneExpiredLocked k pm (tx_at tx)).1. intros q Hq.
  assert (pending q = live (tx_at tx) (pending pm)) as Hp by (by rewrite Hq).
  destruct (countPeers_spec (dstDisco tx) (pending q)) as (-> & -> & ->).
  rewrite countPending_spec, <- bool_decide_not, !Hp.
  replace (if 0 <? maxPeers then pending_of (dstDisco tx) (live (tx_at tx) (pending pm))
           else pending_of (dstDisco tx) (live (tx_at tx) (pending pm)))
    with (pending_of (dstDisco tx) (live (tx_at tx) (pending pm))) by (by destruct (0 <? maxPeers)).
  change sourcePathProbeMaxBurst with 8.
  destruct (_ && (_ <=? Z.of_nat (size (live _ _)))); [by split|].
  destruct (_ && (_ && _)); [by split|].
  destruct (_ <=? pending_of _ _); split; try done. simpl. by rewrite Hq.
Qed.

(** What the three budgets promise of the pending table. *)
Definition budgets_ok (maxPeers burst hardCap : Z) (p : gmap TxID sourcePathProbeTx) : Prop :=
  (0 < hardCap -> Z.of_nat (size p) <= hardCap)
  /\ (0 < maxPeers -> Z.of_nat (size (peers_of p)) <= maxPeers)
  /\ (forall peer, pending_of peer p <= burst).

Lemma budgets_ok_subseteq mp b hc p p' : p' ⊆ p -> budgets_ok mp b hc p -> budgets_ok mp b hc p'.
Proof.
  intros Hs (H1 & H2 & H3). split_and!.
  - pose proof (map_subseteq_size _ _ Hs). lia.
  - pose proof (subseteq_size _ _ (peers_of_subseteq _ _ Hs)). lia.
  - intros peer. pose proof (pending_of_subseteq peer _ _ Hs). specialize (H3 peer). lia.
Qed.

(** Probing cannot flood: if the pending table respects the total cap, the cap
    on distinct peers and the per-peer burst, it still does after any probe is
    offered, admitted or not. *)
Theorem admission_keeps_budgets pm tx maxPeers maxBurst hardCap :
  0 < maxBurst -> budgets_ok maxPeers maxBurst hardCap (pending pm) ->
  budgets_ok maxPeers maxBurst hardCap
    (pending (addWithBudgetLocked k pm tx maxPeers maxBurst hardCap).1).
Proof.
  intros Hb Hok. unfold addWithBudgetLocked. cbv zeta.
  pose proof (pruneExpiredLocked_pending k pm (tx_at tx)) as Hq.
  generalize dependent (pruneExpiredLocked k pm (tx_at tx)).1. intros q Hq.
  apply (budgets_ok_subseteq _ _ _ _ (pending q)) in Hok; [|rewrite Hq; apply live_subseteq].
  destruct (countPeers_spec (dstDisco tx) (pending q)) as (-> & -> & ->).
  rewrite countPending_spec. replace (maxBurst <=? 0) with false by (symmetry; apply Z.leb_gt; lia).
  destruct (_ && (_ <=? Z.of_nat (size (pending q)))) eqn:Ec; [exact Hok|].
  destruct (_ && (_ && _)) eqn:Ep; [exact Hok|].
  destruct (maxBurst <=? _) eqn:Eb; [exact Hok|].
  destruct Hok as (H1 & H2 & H3). split_and!; simpl.
  - intros. rewrite map_size_insert. destruct (_ !! _); simpl; [auto|].
    apply andb_false_iff in Ec as [?|?]; bool_props; lia.
  - intros Hm. specialize (H2 Hm). pose proof (peers_of_insert (txid tx) tx (pending q)) as Hs.
    destruct (decide (dstDisco tx ∈ peers_of (pending q))) as [Hin|Hout].
    + assert (peers_of (<[txid tx:=tx]> (pending q)) ⊆ peers_of (pending q)) as Hs'.
      { etrans; [exact Hs|]. apply union_subseteq. split; [by apply singleton_subseteq_l|done]. }
      pose proof (subseteq_size _ _ Hs'). lia.
    + pose proof (subseteq_size _ _ Hs) as Hsz. 
      rewrite size_union, size_singleton in Hsz by (by apply disjoint_singleton_l).
      rewrite bool_decide_false in Ep by done. simpl in Ep.
      apply andb_false_iff in Ep as [?|?]; bool_props; lia.
  - intros peer. pose proof (pending_of_insert peer (txid tx) tx (pending q)) as Hi.
    specialize (H3 peer). destruct (0 <? maxPeers), (decide (dstDisco tx = peer)); subst;
      bool_props; lia.
Qed.

(** A pong is believed only as the answer to a probe in flight. When it is not
    handled, nothing changes. When it is, the probe leaves the table (so the same
    transaction can never be answered twice); an expired probe counts as lost and adds
    no sample, and otherwise the pong came in on the very socket and generation the
    probe left from, signed by the probed peer, and the newest sample records the
    round-trip time. *)
Theorem handlePongLocked_spec pm id ps sender src rx now :
  let res := handlePongLocked k pm id ps sender src rx now in
  (res.2 = false -> res.1 = pm)
  /\ (res.2 = true -> exists tx,
       pending pm !! id = Some tx /\ isPrimary rx = false
       /\ pending res.1 = delete id (pending pm)
       /\ (forall ps' sender' src' rx' now',
             handlePongLocked k res.1 id ps' sender' src' rx' now' = (res.1, false))
       /\ if txExpired now tx then samples res.1 = samples pm
          else tx_source tx = rx /\ dstDisco tx = sender
               /\ last (samples res.1)
                  = Some (MkSample id (tx_dst tx) src ps rx (Mono.Sub now (tx_at tx)) now)).
Proof.
  assert (forall q, pending q !! id = None -> forall ps' sender' src' rx' now',
    handlePongLocked k q id ps' sender' src' rx' now' = (q, false)) as Hnone.
  { intros q Hq ps' sender' src' rx' now'. unfold handlePongLocked. rewrite Hq.
    by destruct (isPrimary rx'). }
  cbv zeta. split.
  { unfold handlePongLocked. intros. repeat case_match; done. }
  unfold handlePongLocked. destruct (isPrimary rx) eqn:Hrx; [done|].
  destruct (pending pm !! id) as [tx|] eqn:Hid; [|done]. intros Hres. exists tx.
  split; [done|]. split; [done|]. destruct (txExpired now tx) eqn:Hx.
  - cbn [fst snd]. rewrite noteOutcomeLocked_frame. split_and!; [reflexivity| |reflexivity].
    intros. apply Hnone. apply lookup_delete_eq.
  - destruct (_ || _) eqn:Em; [discriminate Hres|]. bool_props.
    rewrite pruneExpiredSamplesLocked_eq, noteOutcomeLocked_frame. cbn [fst snd].
    split_and!; [reflexivity| |done|done|].
    + intros. apply Hnone. apply lookup_delete_eq.
    + simpl. unfold cap_tail. case_match; [|apply last_snoc]. bool_props.
      rewrite length_app in *. simpl in *. rewrite drop_app_le by lia. apply last_snoc.
Qed.
End Properties.

(** Addresses, sockets and probes for the witnesses. *)
Definition ex_dst : epAddr := epAddr_of (MkAddrPort (Addr4 0xc0000201) 41641).
Definition ex_aux : sourceRxMeta := MkRxMeta 1 1.
Definition ex_aux2 : sourceRxMeta := MkRxMeta 100 1.
Definition ex_peer : DiscoPublic := replicate 32 x01.
Definition ex_txid (n : Z) : TxID := be_put 12 n.
Definition ex_tx (n at_ : Z) : sourcePathProbeTx :=
  MkTx (ex_txid n) ex_dst ex_peer ex_aux at_ 0.
Definition ex_t0 : Z := 2 ^ 55.

Lemma budgets_ok_empty mp b hc : 0 < b -> budgets_ok mp b hc ∅.
Proof.
  intros. split_and!.
  - rewrite map_size_empty. lia.
  - intros. replace (size (peers_of ∅)) with 0%nat; [lia|]. vm_compute. reflexivity.
  - intros. unfold pending_of. rewrite map_to_list_empty. simpl. lia.
Qed.

Lemma admission_keeps_budgets_witness :
  budgets_ok 2 4 10
    (pending (addWithBudgetLocked (H := canonical_range) defaultKnobs zeroPM
                (ex_tx 1 ex_t0) 2 4 10).1).
Proof.
  apply (admission_keeps_budgets (H := canonical_range) defaultKnobs zeroPM (ex_tx 1 ex_t0) 2 4 10).
  - lia.
  - apply budgets_ok_empty. lia.
Defined.

(** ** Expiry, demotion and rotation *)

(** The outcome a probe that timed out leaves behind. *)
Definition lost_outcome (now : Z) (tx : sourcePathProbeTx) : sourcePathProbeOutcome :=
  MkOutcome (tx_dst tx) (tx_source tx) now true.
Definition fresh_outcomes (k : Knobs) (now : Z) (l : list sourcePathProbeOutcome) :=
  filter (fun o => ~ sourcePathLossWindowValue k < Mono.Sub now (o_at o)) l.

(** A series of dual-send failures without an error value, at the given instants,
    with the verdict of each. *)
Definition auxFailures (k : Knobs) (dst : epAddr) (src : sourceRxMeta)
    (acc : sourcePathProbeManager * list bool) (ts : list Z) : sourcePathProbeManager * list bool :=
  foldl (fun '(pm, rs) t =>
           let r := dualSendAuxFailureLocked k pm dst src t false in (r.1, rs ++ [r.2])) acc ts.

Lemma cap_tail_app {A} c (l l' : list A) : cap_tail c (cap_tail c l ++ l') = cap_tail c (l ++ l').
Proof.
  unfold cap_tail at 2. case_match eqn:E; [|done]. bool_props.
  unfold cap_tail. rewrite !length_app, length_drop.
  replace (0 <? c) with true by (symmetry; by apply Z.ltb_lt). simpl.
  rewrite (proj2 (Z.ltb_lt c (Z.of_nat (length l + length l')))) by lia.
  rewrite <- (drop_app_le l l' (length l - Z.to_nat c)) by lia.
  case_match; bool_props.
  - rewrite drop_drop. f_equal. lia.
  - f_equal. lia.
Qed.

Section Expiry.
Context `{MapRange} (k : Knobs).
Implicit Types (pm : sourcePathProbeManager).

Lemma Sub_self now : Mono.Sub now now = 0.
Proof. unfold Mono.Sub. by rewrite Z.sub_diag. Qed.

Lemma noteOutcomeLocked_outcomes pm dst src now l :
  0 <= sourcePathLossWindowValue k ->
  outcomes (noteOutcomeLocked k pm dst src now l)
  = cap_tail (sourcePathProbeOutcomeLimitCount k)
      (fresh_outcomes k now (outcomes pm) ++ [MkOutcome dst src now l]).
Proof.
  intros Hw. unfold noteOutcomeLocked. rewrite pruneExpiredOutcomesLocked_frame. simpl.
  f_equal. rewrite filter_app. f_equal. apply Forall_filter_id.
  constructor; [|done]. simpl. rewrite Sub_self. lia.
Qed.

Lemma prune_fold_losses now l pm ex xs :
  0 <= sourcePathLossWindowValue k ->
  let r := foldl (pruneStep k now) (pm, ex) l in
  let losses := lost_outcome now <$> filter (fun tx => txExpired now tx = true) l.*2 in
  Forall (fun o => ~ sourcePathLossWindowValue k < Mono.Sub now (o_at o)) xs ->
  outcomes pm = cap_tail (sourcePathProbeOutcomeLimitCount k) xs ->
  outcomes r.1 = cap_tail (sourcePathProbeOutcomeLimitCount k) (xs ++ losses).
Proof.
  intros Hw. revert pm ex xs. induction l as [|[id tx] l IH]; intros pm ex xs; simpl; intros Hx Ho.
  { by rewrite app_nil_r. }
  rewrite filter_cons. destruct (txExpired now tx) eqn:E.
  - rewrite decide_True by done. simpl. rewrite (cons_middle _ xs), (app_assoc xs). apply IH.
    + apply Forall_app. split; [done|]. constructor; [|done]. simpl. rewrite Sub_self. lia.
    + rewrite noteOutcomeLocked_outcomes by done. simpl. rewrite Ho. unfold fresh_outcomes.
      rewrite Forall_filter_id; [apply cap_tail_app|].
      eapply Forall_suffix; [apply cap_tail_suffix|done].
  - rewrite decide_False by done. by apply IH.
Qed.

(** Expiry is exact: the probes that leave the pending table are those at least
    the ping timeout old, each exactly once, and each is recorded as one lost probe
    behind the outcomes that are still inside the loss window (the memory cap keeps
    the newest). If nothing expired nothing changes. *)
Theorem pruneExpiredLocked_records_losses pm now :
  0 <= sourcePathLossWindowValue k ->
  let res := pruneExpiredLocked k pm now in
  res.2 ≡ₚ filter (fun tx => txExpired now tx = true) (map_to_list (pending pm)).*2
  /\ pending res.1 = live now (pending pm)
  /\ (res.2 = [] -> res.1 = pm)
  /\ (Forall (fun o => ~ sourcePathLossWindowValue k < Mono.Sub now (o_at o)) (outcomes pm) ->
      capped (sourcePathProbeOutcomeLimitCount k) (outcomes pm) ->
      outcomes res.1 = cap_tail (sourcePathProbeOutcomeLimitCount k)
        (outcomes pm ++ (lost_outcome now <$> res.2))).
Proof.
  intros Hw. cbv zeta. split_and!.
  - unfold pruneExpiredLocked. rewrite prune_fold_expired. simpl. by rewrite map_range_perm.
  - apply pruneExpiredLocked_pending.
  - unfold pruneExpiredLocked. generalize (map_range (pending pm)). intros l.
    rewrite prune_fold_expired. simpl. induction l as [|[id tx] l IH]; simpl; [done|].
    rewrite filter_cons. destruct (txExpired now tx); [by rewrite decide_True|].
    rewrite decide_False by done. done.
  - intros Hf Hc. unfold pruneExpiredLocked.
    rewrite (prune_fold_losses now (map_range (pending pm)) pm [] (outcomes pm));
      [by rewrite prune_fold_expired|done|done|].
    unfold cap_tail, capped in *. case_match; [|done]. bool_props. lia.
Qed.

Lemma auxFailures_below dst src pm rs ts s :
  default 0 (dualSendAuxFailStreak pm !! MkDSKey dst src) = s ->
  s + Z.of_nat (length ts) < sourcePathDualSendAuxDropStreakValue k ->
  let r := auxFailures k dst src (pm, rs) ts in
  r.2 = rs ++ replicate (length ts) false
  /\ default 0 (dualSendAuxFailStreak r.1 !! MkDSKey dst src) = s + Z.of_nat (length ts)
  /\ dualSendDemotedAuxTill r.1 = dualSendDemotedAuxTill pm.
Proof.
  revert pm rs s. induction ts as [|t ts IH]; intros pm rs s Hs Hlt; simpl.
  { rewrite app_nil_r. split_and!; [done|lia|done]. }
  simpl in Hlt. unfold dualSendAuxFailureLocked. rewrite Hs. simpl.
  rewrite (proj2 (Z.leb_gt _ _)) by lia. simpl.
  destruct (IH (set_failStreak pm (<[MkDSKey dst src := s + 1]> (dualSendAuxFailStreak pm)))
    (rs ++ [false]) (s + 1)) as (H1 & H2 & H3).
  { simpl. by rewrite lookup_insert_eq. }
  { lia. }
  unfold auxFailures in *. rewrite H1, H2, H3. split_and!; [|lia|done].
  by rewrite <- app_assoc.
Qed.

Lemma dualSendAuxFailureLocked_rotates pm dst src now e :
  let key := MkDSKey dst src in
  e = true \/ sourcePathDualSendAuxDropStreakValue k
              <= default 0 (dualSendAuxFailStreak pm !! key) + 1 ->
  let r := dualSendAuxFailureLocked k pm dst src now e in
  r.2 = true /\ dualSendAuxFailStreak r.1 !! key = None
  /\ dualSendDemotedAuxTill r.1 !! key = Some (Mono.Add now (sourcePathDualSendRecoveryValue k)).
Proof.
  cbv zeta. intros He. unfold dualSendAuxFailureLocked.
  assert (e || (sourcePathDualSendAuxDropStreakValue k <=?
    default 0 (dualSendAuxFailStreak pm !! MkDSKey dst src) + 1) = true) as ->.
  { destruct He as [->|He]; [done|]. apply orb_true_iff. right. by apply Z.leb_le. }
  simpl. split_and!; [done| |apply lookup_insert_eq]. apply lookup_delete_eq.
Qed.

Lemma dualSendDemotedLocked_until pm key until_ t :
  dualSendDemotedAuxTill pm !! key = Some until_ ->
  (dualSendDemotedLocked pm key t).2 = (t <? until_).
Proof.
  intros E. unfold dualSendDemotedLocked, Mono.Before. rewrite E.
  by destruct (t <? until_).
Qed.

(** A streak of dual-send failures reported without an error demotes the auxiliary
    socket at exactly the configured number: from a clean state none of the first [n - 1]
    failures rotates the socket and the [n]-th does; it clears the streak, and the pair is
    then refused at every instant before the end of the recovery window and at no later one. *)
Theorem dual_send_demotion pm dst src ts now :
  let n := sourcePathDualSendAuxDropStreakValue k in
  let key := MkDSKey dst src in
  dualSendAuxFailStreak pm !! key = None -> Z.of_nat (length ts) = n - 1 ->
  Mono.ok now -> now + sourcePathDualSendRecoveryValue k < 2 ^ 63 ->
  0 <= sourcePathDualSendRecoveryValue k ->
  let r := auxFailures k dst src (pm, []) (ts ++ [now]) in
  r.2 = replicate (length ts) false ++ [true]
  /\ dualSendAuxFailStreak r.1 !! key = None
  /\ forall t, (dualSendDemotedLocked r.1 key t).2 = (t <? now + sourcePathDualSendRecoveryValue k).
Proof.
  cbv zeta. intros Hc Hlen Hok Hmax Hrec.
  destruct (auxFailures_below dst src pm [] ts 0) as (H1 & H2 & _); [by rewrite Hc|lia|].
  unfold auxFailures in *. rewrite foldl_app.
  destruct (foldl _ (pm, []) ts) as [q rs]. simpl in *. subst rs.
  destruct (dualSendAuxFailureLocked_rotates q dst src now false) as (E1 & E2 & E3); [right; lia|].
  rewrite Mono.Add_ok in E3 by first [done|lia].
  rewrite E1. split_and!; [done|done|]. intros t. by apply dualSendDemotedLocked_until.
Qed.

(** A data send that fails with an error demotes and rotates its auxiliary
    socket at once, whatever the configured failure streak. *)
Theorem dual_send_error_demotes_at_once pm dst src now :
  let r := dualSendAuxFailureLocked k pm dst src now true in
  r.2 = true /\ dualSendAuxFailStreak r.1 !! MkDSKey dst src = None
  /\ forall t, (dualSendDemotedLocked r.1 (MkDSKey dst src) t).2
               = (t <? Mono.Add now (sourcePathDualSendRecoveryValue k)).
Proof.
  cbv zeta. destruct (dualSendAuxFailureLocked_rotates pm dst src now true) as (E1 & E2 & E3);
    [by left|]. split_and!; [done|done|]. intros t. by apply dualSendDemotedLocked_until.
Qed.
End Expiry.

Lemma pruneExpiredLocked_records_losses_witness :
  let pm := set_pending zeroPM {[ex_txid 1 := ex_tx 1 ex_t0]} in
  outcomes (pruneExpiredLocked (H := canonical_range) defaultKnobs pm (ex_t0 + 5 * Second)).1
  = [MkOutcome ex_dst ex_aux (ex_t0 + 5 * Second) true].
Proof.
  intros pm. assert (0 <= sourcePathLossWindowValue defaultKnobs) as Hw by (vm_compute; congruence).
  pose proof (pruneExpiredLocked_records_losses (H := canonical_range) defaultKnobs pm
    (ex_t0 + 5 * Second) Hw) as (_ & _ & _ & E).
  rewrite E; [vm_compute; reflexivity|constructor|].
  vm_compute. congruence.
Defined.

Lemma dual_send_demotion_witness :
  (auxFailures defaultKnobs ex_dst ex_aux (zeroPM, []) ([1; 2; 3; 4] ++ [ex_t0])).2
  = [false; false; false; false; true].
Proof.
  refine (proj1 (dual_send_demotion defaultKnobs zeroPM ex_dst ex_aux [1; 2; 3; 4] ex_t0 _ _ _ _ _)).
  - reflexivity.
  - reflexivity.
  - unfold Mono.ok, ex_t0. lia.
  - vm_compute. reflexivity.
  - vm_compute. congruence.
Defined.
