(* ===== verification/Scorer.v ===== *)
(** * The candidate scorer (sourcepath.go)

    Scores an auxiliary (destination, socket) pair from its fresh probe samples and
    outcomes, and picks the best socket for a destination. Reading the loss ratio
    prunes stale outcomes, so scoring threads the probe manager. *)
From S2P Require Import Prelude Netip Bytes Float64 Knobs ProbeManager.

Record sourcePathCandidateScore := MkScore {
  cs_source : sourceRxMeta;
  cs_latency : Z;
  cs_jitter : Z;
  cs_loss : F64.t;
  cs_score : F64.t;
  cs_samples : Z;
  cs_lastAt : Z
}.
Definition zeroScore : sourcePathCandidateScore :=
  MkScore (MkRxMeta 0 0) 0 0 F64.zero F64.zero 0 0.

Section Scoring.
Context `{Platform} (k : Knobs).
Implicit Types (pm : sourcePathProbeManager) (dst : epAddr) (source : sourceRxMeta) (now : Z).

Definition sourcePathExpNorm (v maxV : F64.t) : F64.t :=
  if F64.leb maxV F64.zero then F64.one
  else
    let x := F64.div v maxV in
    let x := if F64.ltb x F64.zero then F64.zero else x in
    let x := if F64.ltb F64.one x then F64.one else x in
    F64.div F64.one (math_Exp (F64.mul (F64.of_int 4) x)).

Definition sourcePathQualityScore (latency jitter : Z) (loss : F64.t) (w : sourcePathScoreWeights)
  : F64.t :=
  let latNorm := sourcePathExpNorm (F64.of_int latency) (F64.of_int (sourcePathLatencyMaxValue k)) in
  let jitterNorm := sourcePathExpNorm (F64.of_int jitter) (F64.of_int (sourcePathJitterMaxValue k)) in
  let lossNorm := sourcePathExpNorm loss (sourcePathLossMaxValue k) in
  F64.add (F64.add (F64.mul latNorm (wLatency w)) (F64.mul jitterNorm (wJitter w)))
          (F64.mul lossNorm (wLoss w)).

(** The score an auxiliary candidate must exceed for a primary path of this RTT. *)
Definition neededScore (primaryRTT : Z) : F64.t :=
  let primaryScore := sourcePathQualityScore primaryRTT 0 F64.zero (sourcePathScoreWeightsValue k) in
  F64.mul primaryScore
    (F64.add F64.one (F64.div (F64.of_int (sourcePathScoreImprovePctValue k)) (F64.of_int 100))).

(** [applyMultiMetricScore]: the candidate with its score, or [None] if it is refused. *)
Definition applyMultiMetricScore (c : sourcePathCandidateScore) (primaryRTT : Z)
  : option sourcePathCandidateScore :=
  if sourcePathLatencyMaxValue k <? cs_latency c then None
  else if sourcePathJitterMaxValue k <? cs_jitter c then None
  else if F64.ltb (sourcePathLossMaxValue k) (cs_loss c) then None
  else
    let c := MkScore (cs_source c) (cs_latency c) (cs_jitter c) (cs_loss c)
               (sourcePathQualityScore (cs_latency c) (cs_jitter c) (cs_loss c)
                                       (sourcePathScoreWeightsValue k))
               (cs_samples c) (cs_lastAt c) in
    if primaryRTT <=? 0 then Some c
    else if F64.ltb (neededScore primaryRTT) (cs_score c) then Some c else None.

Definition lossRatioLocked pm dst source now : sourcePathProbeManager * F64.t :=
  let pm := pruneExpiredOutcomesLocked k pm now in
  let '(total, lost_) := foldl (fun '(total, lost_) o =>
      if negb (bool_decide (o_dst o = dst)) || negb (bool_decide (o_source o = source))
      then (total, lost_)
      else (total + 1, if lost o then lost_ + 1 else lost_)) (0, 0) (outcomes pm) in
  (pm, if total =? 0 then F64.zero else F64.div (F64.of_int lost_) (F64.of_int total)).

(** The accumulators of the sample loop. *)
Record sampleAcc := MkAcc {
  candidate : option sourcePathCandidateScore;     (* None is [!candidateOK] *)
  sumLatencyNs : F64.t;
  sumSqNs : F64.t
}.
Definition sampleStep dst source now (acc : sampleAcc) (s : sourcePathProbeSample) : sampleAcc :=
  if negb (bool_decide (s_dst s = dst)) || negb (bool_decide (s_source s = source)) then acc
  else if sourcePathSampleTTLValue k <? Mono.Sub now (s_at s) then acc
  else
    let latencyNs := F64.of_int (s_latency s) in
    MkAcc
      (Some match candidate acc with
            | None => MkScore source 0 0 F64.zero F64.zero 1 (s_at s)
            | Some c =>
                MkScore (cs_source c) (cs_latency c) (cs_jitter c) (cs_loss c) (cs_score c)
                  (cs_samples c + 1)
                  (if 0 <? Mono.Sub (s_at s) (cs_lastAt c) then s_at s else cs_lastAt c)
            end)
      (F64.add (sumLatencyNs acc) latencyNs)
      (F64.add (sumSqNs acc) (F64.mul latencyNs latencyNs)).

(** The latency an auxiliary candidate must stay below for a primary path of this RTT. *)
Definition beatCutoff (primaryRTT : Z) : Z :=
  i64 (primaryRTT - Z.quot (i64 (primaryRTT * sourcePathAuxBeatThresholdPercentValue k)) 100).

Definition candidateScoreLocked pm dst source now (primaryRTT : Z)
  : sourcePathProbeManager * option sourcePathCandidateScore :=
  if negb (isDirect dst) then (pm, None)
  else if isPrimary source then (pm, None)
  else
    let acc := foldl (sampleStep dst source now) (MkAcc None F64.zero F64.zero) (samples pm) in
    match candidate acc with
    | None => (pm, None)
    | Some c =>
        if cs_samples c <? sourcePathMinSamplesForUse then (pm, None)
        else
          let n := F64.of_int (cs_samples c) in
          let meanNs := F64.div (sumLatencyNs acc) n in
          let varianceNs := F64.sub (F64.div (sumSqNs acc) n) (F64.mul meanNs meanNs) in
          let varianceNs := if F64.ltb varianceNs F64.zero then F64.zero else varianceNs in
          let '(pm, loss) := lossRatioLocked pm dst source now in
          let c := MkScore (cs_source c) (F64.to_int64 meanNs) (F64.to_int64 (F64.sqrt varianceNs))
                     loss (cs_score c) (cs_samples c) (cs_lastAt c) in
          if sourcePathMultiMetricEnabled k then (pm, applyMultiMetricScore c primaryRTT)
          else if (0 <? primaryRTT) && (0 <? sourcePathAuxBeatThresholdPercentValue k)
                  && (beatCutoff primaryRTT <=? cs_latency c)
          then (pm, None)
          else (pm, Some c)
    end.

Definition betterThan (c best : sourcePathCandidateScore) (multiMetric : bool) : bool :=
  if multiMetric
  then F64.ltb (cs_score best) (cs_score c)
       || (F64.eqb (cs_score c) (cs_score best) && (0 <? Mono.Sub (cs_lastAt c) (cs_lastAt best)))
  else (cs_latency c <? cs_latency best)
       || ((cs_latency c =? cs_latency best) && (0 <? Mono.Sub (cs_lastAt c) (cs_lastAt best))).

Definition bestStep dst now (primaryRTT : Z)
    (acc : sourcePathProbeManager * option sourcePathCandidateScore) (source : sourceRxMeta)
  : sourcePathProbeManager * option sourcePathCandidateScore :=
  let '(pm, best) := acc in
  let '(pm, c) := candidateScoreLocked pm dst source now primaryRTT in
  match c with
  | None => (pm, best)
  | Some c =>
      match best with
      | None => (pm, Some c)
      | Some b => if betterThan c b (sourcePathMultiMetricEnabled k) then (pm, Some c) else (pm, best)
      end
  end.
Definition bestCandidateLocked pm dst (sources : list sourceRxMeta) now (primaryRTT : Z)
  : sourcePathProbeManager * option sourcePathCandidateScore :=
  foldl (bestStep dst now primaryRTT) (pm, None) sources.
End Scoring.

(** ** Reference notions *)
Definition matches (dst : epAddr) (source : sourceRxMeta) (s : sourcePathProbeSample) : Prop :=
  s_dst s = dst /\ s_source s = source.
#[export] Instance matches_dec dst source s : Decision (matches dst source s).
Proof. unfold matches. apply _. Defined.

(** The fresh samples of a pair, oldest first. *)
Definition freshSamples (k : Knobs) (pm : sourcePathProbeManager) (dst : epAddr)
    (source : sourceRxMeta) (now : Z) : list sourcePathProbeSample :=
  filter (fun s => matches dst source s
                   /\ ~ sourcePathSampleTTLValue k < Mono.Sub now (s_at s)) (samples pm).
(** The outcomes of a pair inside the loss window. *)
Definition freshPairOutcomes (k : Knobs) (pm : sourcePathProbeManager) (dst : epAddr)
    (source : sourceRxMeta) (now : Z) : list sourcePathProbeOutcome :=
  filter (fun o => o_dst o = dst /\ o_source o = source) (fresh_outcomes k now (outcomes pm)).

(** ** Lemmas *)
Section Facts.
Context `{Platform} (k : Knobs).
Implicit Types (pm : sourcePathProbeManager) (dst : epAddr) (source : sourceRxMeta) (now : Z).

Lemma sampleStep_skip dst source now acc s :
  ~ (matches dst source s /\ ~ sourcePathSampleTTLValue k < Mono.Sub now (s_at s)) ->
  sampleStep k dst source now acc s = acc.
Proof.
  unfold matches. intros Hs. unfold sampleStep.
  destruct (negb _ || negb _) eqn:E; [done|]. bool_props.
  destruct (_ <? Mono.Sub _ _) eqn:E2; [done|]. bool_props. exfalso. apply Hs. split; [done|lia].
Qed.

Lemma sample_fold_filter dst source now l acc :
  foldl (sampleStep k dst source now) acc l
  = foldl (sampleStep k dst source now) acc
      (filter (fun s => matches dst source s
                        /\ ~ sourcePathSampleTTLValue k < Mono.Sub now (s_at s)) l).
Proof.
  revert acc. induction l as [|s l IH]; intros acc; [done|]. rewrite filter_cons.
  destruct (decide _) as [|Hn]; simpl; [apply IH|]. by rewrite sampleStep_skip.
Qed.

Lemma sampleStep_take dst source now acc s :
  matches dst source s -> ~ sourcePathSampleTTLValue k < Mono.Sub now (s_at s) ->
  exists c, candidate (sampleStep k dst source now acc s) = Some c
    /\ cs_samples c = default 0 (cs_samples <$> candidate acc) + 1
    /\ cs_source c = default source (cs_source <$> candidate acc)
    /\ cs_score c = default F64.zero (cs_score <$> candidate acc).
Proof.
  intros [? ?] Ht. unfold sampleStep. rewrite !bool_decide_true by done. simpl.
  rewrite (proj2 (Z.ltb_ge _ _)) by lia. simpl. eexists. split; [done|].
  by destruct (candidate acc) as [[]|].
Qed.

(** The loop sees exactly the fresh samples of the pair. *)
Lemma sample_fold_candidate dst source now l acc :
  Forall (fun s => matches dst source s
                   /\ ~ sourcePathSampleTTLValue k < Mono.Sub now (s_at s)) l ->
  default source (cs_source <$> candidate acc) = source ->
  default F64.zero (cs_score <$> candidate acc) = F64.zero ->
  match candidate (foldl (sampleStep k dst source now) acc l) with
  | None => l = [] /\ candidate acc = None
  | Some c => cs_samples c = default 0 (cs_samples <$> candidate acc) + Z.of_nat (length l)
              /\ cs_source c = source /\ cs_score c = F64.zero
  end.
Proof.
  intros Hl. revert acc. induction Hl as [|s l [Hm Ht] Hl IH]; intros acc Hs Hz; simpl.
  { destruct (candidate acc); simpl in *; [|done]. split_and!; [lia|done|done]. }
  destruct (sampleStep_take dst source now acc s Hm Ht) as (c & Hc & Hn & Hsrc & Hsc).
  specialize (IH (sampleStep k dst source now acc s)). rewrite Hc in IH. simpl in IH.
  specialize (IH ltac:(congruence) ltac:(congruence)).
  destruct (candidate (foldl _ _ l)); [|by destruct IH]. destruct IH as (-> & ? & ?).
  split_and!; [lia|done|done].
Qed.

Lemma lossRatioLocked_pm pm dst source now :
  (lossRatioLocked k pm dst source now).1 = pruneExpiredOutcomesLocked k pm now.
Proof. unfold lossRatioLocked. by destruct (foldl _ _ _). Qed.

Lemma prune_outcomes_idem pm now :
  pruneExpiredOutcomesLocked k (pruneExpiredOutcomesLocked k pm now) now
  = pruneExpiredOutcomesLocked k pm now.
Proof.
  rewrite !pruneExpiredOutcomesLocked_frame. simpl. unfold set_outcomes. simpl. f_equal.
  apply Forall_filter_id. apply Forall_forall. intros o [? _]%list_elem_of_filter. done.
Qed.

Lemma lossRatioLocked_pruned pm dst source now :
  lossRatioLocked k (pruneExpiredOutcomesLocked k pm now) dst source now
  = lossRatioLocked k pm dst source now.
Proof. unfold lossRatioLocked. by rewrite prune_outcomes_idem. Qed.

Lemma candidateScoreLocked_pm pm dst source now rtt :
  (candidateScoreLocked k pm dst source now rtt).1 = pm
  \/ (candidateScoreLocked k pm dst source now rtt).1 = pruneExpiredOutcomesLocked k pm now.
Proof.
  unfold candidateScoreLocked. do 2 (case_match; [by left|]).
  destruct (candidate _) as [c|]; [|by left]. case_match; [by left|]. right.
  rewrite <- (lossRatioLocked_pm pm dst source now).
  destruct (lossRatioLocked k pm dst source now). repeat case_match; done.
Qed.

(** Pruning stale outcomes does not change a verdict. *)
Lemma candidateScoreLocked_pruned pm dst source now rtt :
  (candidateScoreLocked k (pruneExpiredOutcomesLocked k pm now) dst source now rtt).2
  = (candidateScoreLocked k pm dst source now rtt).2.
Proof.
  unfold candidateScoreLocked. rewrite lossRatioLocked_pruned.
  rewrite pruneExpiredOutcomesLocked_frame. simpl. do 2 (case_match; [done|]).
  destruct (candidate _) as [c|]; [|done]. case_match; [done|].
  destruct (lossRatioLocked k pm dst source now). repeat case_match; done.
Qed.
End Facts.

(** ** The reference scorer

    What a score means, written without accumulators: means over the list of fresh
    samples and ratios over the list of fresh outcomes. *)
Definition meanLatencyNs (fs : list sourcePathProbeSample) : F64.t :=
  F64.div (foldl F64.add F64.zero ((fun s => F64.of_int (s_latency s)) <$> fs))
          (F64.of_int (Z.of_nat (length fs))).
Definition varianceLatencyNs (fs : list sourcePathProbeSample) : F64.t :=
  let m := meanLatencyNs fs in
  F64.sub
    (F64.div (foldl F64.add F64.zero
                ((fun s => F64.mul (F64.of_int (s_latency s)) (F64.of_int (s_latency s))) <$> fs))
             (F64.of_int (Z.of_nat (length fs))))
    (F64.mul m m).
Definition lossRatio (os : list sourcePathProbeOutcome) : F64.t :=
  if decide (os = []) then F64.zero
  else F64.div (F64.of_int (Z.of_nat (length (filter (fun o => lost o = true) os))))
               (F64.of_int (Z.of_nat (length os))).
Definition newestAt (fs : list sourcePathProbeSample) : Z := foldr Z.max 0 (s_at <$> fs).

(** The measurements taken over lists, judged by the code's own gates. *)
Definition listScore `{Platform} (k : Knobs) (pm : sourcePathProbeManager) (dst : epAddr)
    (source : sourceRxMeta) (now primaryRTT : Z) : option sourcePathCandidateScore :=
  let fs := freshSamples k pm dst source now in
  if isDirect dst && negb (isPrimary source) && (3 <=? Z.of_nat (length fs)) then
    let v := varianceLatencyNs fs in
    let c := MkScore source (F64.to_int64 (meanLatencyNs fs))
               (F64.to_int64 (F64.sqrt (if F64.ltb v F64.zero then F64.zero else v)))
               (lossRatio (freshPairOutcomes k pm dst source now)) F64.zero
               (Z.of_nat (length fs)) (newestAt fs) in
    if sourcePathMultiMetricEnabled k then applyMultiMetricScore k c primaryRTT
    else if (0 <? primaryRTT) && (0 <? sourcePathAuxBeatThresholdPercentValue k)
            && (beatCutoff k primaryRTT <=? cs_latency c)
    then None else Some c
  else None.

Section Refine.
Context `{Platform} (k : Knobs).
Implicit Types (pm : sourcePathProbeManager) (dst : epAddr) (source : sourceRxMeta) (now : Z).

Lemma lossRatioLocked_spec pm dst source now :
  (lossRatioLocked k pm dst source now).2 = lossRatio (freshPairOutcomes k pm dst source now).
Proof.
  unfold lossRatioLocked, freshPairOutcomes, fresh_outcomes.
  rewrite pruneExpiredOutcomesLocked_frame. simpl.
  generalize (filter (fun o => ~ sourcePathLossWindowValue k < Mono.Sub now (o_at o)) (outcomes pm)).
  intros l.
  match goal with |- (let '(_, _) := foldl ?f _ _ in _).2 = _ =>
    assert (forall t n, foldl f (t, n) l
      = (t + Z.of_nat (length (filter (fun o => o_dst o = dst /\ o_source o = source) l)),
         n + Z.of_nat (length (filter (fun o => lost o = true)
               (filter (fun o => o_dst o = dst /\ o_source o = source) l))))) as ->
  end.
  { induction l as [|o l IH]; intros t n; simpl; [f_equal; lia|].
    rewrite filter_cons.
    destruct (decide (o_dst o = dst /\ o_source o = source)) as [[-> ->]|Hn].
    - rewrite !bool_decide_true by done. simpl. rewrite IH, filter_cons.
      destruct (lost o); simpl; f_equal; lia.
    - assert (negb (bool_decide (o_dst o = dst)) || negb (bool_decide (o_source o = source)) = true)
        as ->; [|apply IH]. apply orb_true_iff. rewrite !negb_true_iff, !bool_decide_eq_false.
      destruct (decide (o_dst o = dst)); [right|by left]. intros ?. auto. }
  unfold lossRatio. simpl. destruct (filter _ l) as [|o os]; [done|].
  rewrite decide_False by done. simpl length at 1. rewrite (proj2 (Z.eqb_neq _ _)) by lia. done.
Qed.

Lemma applyMultiMetricScore_Some c rtt c' :
  applyMultiMetricScore k c rtt = Some c' ->
  cs_source c' = cs_source c /\ cs_samples c' = cs_samples c
  /\ cs_latency c' <= sourcePathLatencyMaxValue k /\ cs_jitter c' <= sourcePathJitterMaxValue k
  /\ F64.ltb (sourcePathLossMaxValue k) (cs_loss c') = false
  /\ (0 < rtt -> F64.ltb (neededScore k rtt) (cs_score c') = true).
Proof.
  unfold applyMultiMetricScore. intros E. repeat case_match; simplify_eq; bool_props.
  all: simpl in *; split_and!; try done; lia.
Qed.

Lemma sample_fold_sums dst source now l acc :
  Forall (fun s => matches dst source s
                   /\ ~ sourcePathSampleTTLValue k < Mono.Sub now (s_at s)) l ->
  let r := foldl (sampleStep k dst source now) acc l in
  sumLatencyNs r = foldl F64.add (sumLatencyNs acc) ((fun s => F64.of_int (s_latency s)) <$> l)
  /\ sumSqNs r = foldl F64.add (sumSqNs acc)
       ((fun s => F64.mul (F64.of_int (s_latency s)) (F64.of_int (s_latency s))) <$> l).
Proof.
  intros Hl. revert acc. induction Hl as [|s l [[Hd Hs] Ht] Hl IH]; intros acc; simpl; [done|].
  destruct (IH (sampleStep k dst source now acc s)) as [-> ->].
  unfold sampleStep. rewrite !bool_decide_true by done. simpl.
  rewrite (proj2 (Z.ltb_ge _ _)) by lia. done.
Qed.

Lemma newestAt_cons s fs : newestAt (s :: fs) = Z.max (s_at s) (newestAt fs).
Proof. done. Qed.
Lemma newestAt_nonneg fs : 0 <= newestAt fs.
Proof. induction fs; [done|]. rewrite newestAt_cons. lia. Qed.

Lemma sample_fold_lastAt dst source now l acc :
  Forall (fun s => matches dst source s
                   /\ ~ sourcePathSampleTTLValue k < Mono.Sub now (s_at s)) l ->
  Forall (fun s => Mono.ok (s_at s)) l ->
  Mono.ok (default 0 (cs_lastAt <$> candidate acc)) ->
  default 0 (cs_lastAt <$> candidate (foldl (sampleStep k dst source now) acc l))
  = Z.max (default 0 (cs_lastAt <$> candidate acc)) (newestAt l).
Proof.
  intros Hl. revert acc. induction Hl as [|s l [[Hd Hs] Ht] Hl IH]; intros acc Hok Hacc.
  { simpl. unfold newestAt, Mono.ok in *. simpl. lia. }
  apply Forall_cons in Hok as [Hsok Hok]. simpl.
  assert (default 0 (cs_lastAt <$> candidate (sampleStep k dst source now acc s))
    = Z.max (default 0 (cs_lastAt <$> candidate acc)) (s_at s)) as E.
  { unfold sampleStep. rewrite !bool_decide_true by done. simpl.
    rewrite (proj2 (Z.ltb_ge _ _)) by lia. simpl. destruct (candidate acc) as [c|]; simpl in *.
    - rewrite Mono.Sub_ok by done. destruct (Z.ltb_spec 0 (s_at s - cs_lastAt c)); lia.
    - unfold Mono.ok in Hsok. lia. }
  rewrite IH, E; [|done|rewrite E; unfold Mono.ok in *; lia]. rewrite newestAt_cons. lia.
Qed.

Lemma score_lists pm dst source now rtt :
  Forall (fun s => Mono.ok (s_at s)) (samples pm) ->
  (candidateScoreLocked k pm dst source now rtt).2 = listScore k pm dst source now rtt.
Proof.
  intros Hok. unfold candidateScoreLocked, listScore.
  destruct (isDirect dst); simpl; [|done]. destruct (isPrimary source); simpl; [done|].
  rewrite sample_fold_filter. fold (freshSamples k pm dst source now).
  assert (Forall (fun s => matches dst source s
    /\ ~ sourcePathSampleTTLValue k < Mono.Sub now (s_at s)) (freshSamples k pm dst source now)) as Hf.
  { apply Forall_forall. intros s [? _]%list_elem_of_filter. done. }
  assert (Forall (fun s => Mono.ok (s_at s)) (freshSamples k pm dst source now)) as Hfok
    by (by apply Forall_filter_keep).
  generalize dependent (freshSamples k pm dst source now). intros fs Hf Hfok.
  pose proof (sample_fold_candidate k dst source now fs (MkAcc None F64.zero F64.zero) Hf eq_refl eq_refl) as Hc.
  destruct (sample_fold_sums dst source now fs (MkAcc None F64.zero F64.zero) Hf) as [Hs1 Hs2].
  pose proof (sample_fold_lastAt dst source now fs (MkAcc None F64.zero F64.zero) Hf Hfok) as Hl.
  destruct (foldl (sampleStep k dst source now) _ fs) as [c s1 s2]. simpl in *. subst s1 s2.
  destruct c as [[src lat jit loss sc n la]|]; simpl in *; [|by destruct Hc as [-> _]].
  destruct Hc as (-> & -> & ->).
  rewrite Hl by (unfold Mono.ok; lia). unfold sourcePathMinSamplesForUse.
  rewrite Z.add_0_l. replace (Z.max 0 (newestAt fs)) with (newestAt fs).
  2:{ pose proof (newestAt_nonneg fs). lia. }
  destruct (Z.ltb_spec (Z.of_nat (length fs)) 3) as [Hn|Hn].
  { by rewrite (proj2 (Z.leb_gt 3 _) Hn). }
  rewrite (proj2 (Z.leb_le 3 _) Hn).
  rewrite <- lossRatioLocked_spec. destruct (lossRatioLocked k pm dst source now) as [pm' loss'].
  unfold varianceLatencyNs, meanLatencyNs. simpl. repeat case_match; done.
Qed.

(** What a score is meant to be: each metric decays from one as it nears its limit, exponentially,
    and the quality is their weighted sum. *)
Definition decay (v limit : F64.t) : F64.t :=
  let fallen x := F64.div F64.one (math_Exp (F64.mul (F64.of_int 4) x)) in
  if F64.leb limit F64.zero then F64.one
  else if F64.ltb (F64.div v limit) F64.zero then fallen F64.zero
  else if F64.ltb F64.one (F64.div v limit) then fallen F64.one
  else fallen (F64.div v limit).
Definition quality (latency jitter : Z) (loss : F64.t) : F64.t :=
  let w := sourcePathScoreWeightsValue k in
  F64.add (F64.add (F64.mul (decay (F64.of_int latency) (F64.of_int (sourcePathLatencyMaxValue k))) (wLatency w))
                   (F64.mul (decay (F64.of_int jitter) (F64.of_int (sourcePathJitterMaxValue k))) (wJitter w)))
          (F64.mul (decay loss (sourcePathLossMaxValue k)) (wLoss w)).
(** Which measurements are not ruled out, and which are enough better than the primary path. Without
    multi-metric scoring that is an exact comparison of rationals; with it the primary path is
    taken to have neither jitter nor loss. *)
Definition tolerable (latency jitter : Z) (loss : F64.t) : bool :=
  bool_decide (latency <= sourcePathLatencyMaxValue k) && bool_decide (jitter <= sourcePathJitterMaxValue k)
  && negb (F64.ltb (sourcePathLossMaxValue k) loss).
Definition beatsPrimary (primaryRTT latency jitter : Z) (loss : F64.t) : bool :=
  bool_decide (primaryRTT <= 0)
  || if sourcePathMultiMetricEnabled k
     then F64.ltb (F64.mul (quality primaryRTT 0 F64.zero)
                     (F64.add F64.one (F64.div (F64.of_int (sourcePathScoreImprovePctValue k)) (F64.of_int 100))))
            (quality latency jitter loss)
     else let pct := sourcePathAuxBeatThresholdPercentValue k in
          bool_decide (pct = 0) || bool_decide (100 * latency < (100 - pct) * primaryRTT).
Definition referenceScore pm dst source now (primaryRTT : Z) : option sourcePathCandidateScore :=
  let fs := freshSamples k pm dst source now in
  let v := varianceLatencyNs fs in
  let latency := F64.to_int64 (meanLatencyNs fs) in
  let jitter := F64.to_int64 (F64.sqrt (if F64.ltb v F64.zero then F64.zero else v)) in
  let loss := lossRatio (freshPairOutcomes k pm dst source now) in
  if isDirect dst && negb (isPrimary source) && bool_decide (3 <= length fs)%nat
     && (negb (sourcePathMultiMetricEnabled k) || tolerable latency jitter loss)
     && beatsPrimary primaryRTT latency jitter loss
  then Some (MkScore source latency jitter loss
               (if sourcePathMultiMetricEnabled k then quality latency jitter loss else F64.zero)
               (Z.of_nat (length fs)) (newestAt fs))
  else None.

Lemma decay_eq v limit : sourcePathExpNorm v limit = decay v limit.
Proof.
  unfold sourcePathExpNorm, decay. destruct (F64.leb limit F64.zero); [done|].
  destruct (F64.ltb (F64.div v limit) F64.zero); [|by destruct (F64.ltb F64.one (F64.div v limit))].
  by replace (F64.ltb F64.one F64.zero) with false by (vm_compute; reflexivity).
Qed.
Lemma quality_eq latency jitter loss :
  sourcePathQualityScore k latency jitter loss (sourcePathScoreWeightsValue k) = quality latency jitter loss.
Proof. unfold sourcePathQualityScore. by rewrite !decay_eq. Qed.
Lemma beatCutoff_exact rtt latency :
  0 < rtt -> 100 * rtt < 2 ^ 63 ->
  (beatCutoff k rtt <=? latency) = negb (bool_decide (100 * latency < (100 - sourcePathAuxBeatThresholdPercentValue k) * rtt)).
Proof.
  intros R B. unfold beatCutoff. destruct (proj1 (proj2 (knob_values_sane k))) as [P0 P1].
  set (pct := sourcePathAuxBeatThresholdPercentValue k) in *.
  assert (0 <= rtt * pct <= 100 * rtt) by nia. rewrite (i64_small (rtt * pct)) by (unfold in64; lia).
  rewrite Z.quot_div_nonneg by lia. pose proof (Z.div_mod (rtt * pct) 100 ltac:(lia)). pose proof (Z.mod_pos_bound (rtt * pct) 100 ltac:(lia)).
  rewrite i64_small by (unfold in64; lia). apply Bool.eq_true_iff_eq. rewrite Z.leb_le, negb_true_iff, bool_decide_eq_false. nia.
Qed.
Lemma listScore_reference pm dst source now rtt :
  100 * rtt < 2 ^ 63 -> listScore k pm dst source now rtt = referenceScore pm dst source now rtt.
Proof.
  intros B. unfold listScore, referenceScore, beatsPrimary, tolerable, applyMultiMetricScore, neededScore. rewrite !quality_eq.
  set (fs := freshSamples k pm dst source now). set (v := varianceLatencyNs fs).
  replace (3 <=? Z.of_nat (length fs)) with (bool_decide (3 <= length fs)%nat)
    by (case_bool_decide; symmetry; [apply Z.leb_le|apply Z.leb_gt]; lia).
  destruct (isDirect dst && _ && _); [|done]. cbn [andb cs_latency cs_jitter cs_loss cs_source cs_score cs_samples cs_lastAt].
  destruct (sourcePathMultiMetricEnabled k); cbn [negb orb].
  - repeat (destruct (_ <? _) eqn:?; bool_props; [rewrite bool_decide_false by lia; by rewrite ?andb_false_r|rewrite bool_decide_true by lia]).
    cbn [andb]. destruct (F64.ltb (sourcePathLossMaxValue k) _); [done|]. cbn [negb andb].
    destruct (Z.leb_spec rtt 0); [by rewrite bool_decide_true by lia|]. rewrite bool_decide_false by lia. done.
  - destruct (Z.ltb_spec 0 rtt); cbn [andb]; [|by rewrite bool_decide_true by lia]. rewrite bool_decide_false by lia. cbn [orb].
    destruct (proj1 (proj2 (knob_values_sane k))) as [P0 P1]. rewrite beatCutoff_exact by done.
    destruct (Z.ltb_spec 0 (sourcePathAuxBeatThresholdPercentValue k)); cbn [andb]; [|by rewrite (bool_decide_true (_ = 0)) by lia].
    rewrite (bool_decide_false (_ = 0)) by lia. cbn [orb]. by destruct (bool_decide (100 * _ < _)).
Qed.


(** What a returned score certifies. *)
Lemma candidateScoreLocked_Some pm dst source now rtt c :
  Forall (fun s => Mono.ok (s_at s)) (samples pm) ->
  (candidateScoreLocked k pm dst source now rtt).2 = Some c ->
  isDirect dst = true /\ isPrimary source = false /\ cs_source c = source
  /\ cs_samples c = Z.of_nat (length (freshSamples k pm dst source now)) /\ 3 <= cs_samples c
  /\ if sourcePathMultiMetricEnabled k
     then cs_latency c <= sourcePathLatencyMaxValue k
          /\ cs_jitter c <= sourcePathJitterMaxValue k
          /\ F64.ltb (sourcePathLossMaxValue k) (cs_loss c) = false
          /\ (0 < rtt -> F64.ltb (neededScore k rtt) (cs_score c) = true)
     else 0 < rtt -> 0 < sourcePathAuxBeatThresholdPercentValue k ->
          cs_latency c < beatCutoff k rtt.
Proof.
  intros Hok. rewrite score_lists by done. unfold listScore.
  destruct (_ && _ && _) eqn:E; [|done]. bool_props.
  destruct (sourcePathMultiMetricEnabled k).
  - intros (? & ? & ? & ? & ? & ?)%applyMultiMetricScore_Some. simpl in *. split_and!; try done; lia.
  - destruct (_ && _ && _) eqn:E1; [done|]. intros [= <-]. simpl. split_and!; try done.
    intros. apply andb_false_iff in E1 as [E1|E1]; [|by bool_props].
    apply andb_false_iff in E1 as [E1|E1]; bool_props; lia.
Qed.

(** No socket carries data on thin evidence: a scored candidate is the auxiliary
    socket asked about, on a direct destination, with at least three fresh samples of
    exactly that pair; without multi-metric scoring its mean beats the cutoff derived
    from a known primary RTT, and with it the latency, jitter and loss limits hold and
    the score exceeds the primary's by the configured margin. *)
Theorem candidate_is_earned pm dst source now rtt c :
  Forall (fun s => Mono.ok (s_at s)) (samples pm) ->
  (candidateScoreLocked k pm dst source now rtt).2 = Some c ->
  isDirect dst = true /\ isPrimary source = false /\ cs_source c = source
  /\ cs_samples c = Z.of_nat (length (freshSamples k pm dst source now)) /\ 3 <= cs_samples c
  /\ if sourcePathMultiMetricEnabled k
     then cs_latency c <= sourcePathLatencyMaxValue k
          /\ cs_jitter c <= sourcePathJitterMaxValue k
          /\ F64.ltb (sourcePathLossMaxValue k) (cs_loss c) = false
          /\ (0 < rtt -> F64.ltb (neededScore k rtt) (cs_score c) = true)
     else 0 < rtt -> 0 < sourcePathAuxBeatThresholdPercentValue k ->
          cs_latency c < beatCutoff k rtt.
Proof. apply candidateScoreLocked_Some. Qed.
End Refine.

(** ** The best candidate *)
Lemma ltb_eqb_l a b c : F64.eqb a b = true -> F64.ltb b c = true -> F64.ltb a c = true.
Proof.
  rewrite F64.eqb_key, !F64.ltb_key. intros (kb & Ha & Hb) (kb' & kc & Hb' & Hc & Hk).
  simplify_eq. eauto.
Qed.
Lemma ltb_eqb_r a b c : F64.ltb a b = true -> F64.eqb b c = true -> F64.ltb a c = true.
Proof.
  rewrite F64.eqb_key, !F64.ltb_key. intros (ka & kb & Ha & Hb & Hk) (kb' & Hb' & Hc).
  simplify_eq. eauto.
Qed.
Lemma eqb_trans a b c : F64.eqb a b = true -> F64.eqb b c = true -> F64.eqb a c = true.
Proof. rewrite !F64.eqb_key. intros (kb & Ha & Hb) (kb' & Hb' & Hc). simplify_eq. eauto. Qed.
Lemma eqb_sym a b : F64.eqb a b = true -> F64.eqb b a = true.
Proof. rewrite !F64.eqb_key. naive_solver. Qed.

Lemma betterThan_irrefl c m : betterThan c c m = false.
Proof.
  unfold betterThan. rewrite Sub_self, !Z.ltb_irrefl, F64.ltb_irrefl.
  destruct m; simpl; by rewrite ?andb_false_r.
Qed.

Lemma betterThan_trans a b c m :
  Mono.ok (cs_lastAt a) -> Mono.ok (cs_lastAt b) -> Mono.ok (cs_lastAt c) ->
  betterThan a b m = true -> betterThan b c m = true -> betterThan a c m = true.
Proof.
  intros Ha Hb Hc. unfold betterThan. rewrite !Mono.Sub_ok by done.
  destruct m; rewrite !orb_true_iff, !andb_true_iff, ?Z.ltb_lt, ?Z.eqb_eq.
  - intros [H1|[H1 ?]] [H2|[H2 ?]].
    + left. by eapply F64.ltb_trans.
    + left. eapply ltb_eqb_l; [apply eqb_sym, H2|done].
    + left. eapply ltb_eqb_r; [done|by apply eqb_sym].
    + right. split; [by eapply eqb_trans|lia].
  - lia.
Qed.

Section Best.
Context `{Platform} (k : Knobs).
Implicit Types (pm : sourcePathProbeManager) (dst : epAddr) (source : sourceRxMeta) (now : Z).

Lemma newestAt_ok fs : Forall (fun s => Mono.ok (s_at s)) fs -> Mono.ok (newestAt fs).
Proof.
  induction 1 as [|s fs Hs _ IH]; [unfold Mono.ok, newestAt; simpl; lia|].
  rewrite newestAt_cons. unfold Mono.ok in *. lia.
Qed.

Lemma listScore_lastAt pm dst source now rtt c :
  listScore k pm dst source now rtt = Some c ->
  cs_lastAt c = newestAt (freshSamples k pm dst source now).
Proof.
  unfold listScore, applyMultiMetricScore. intros E. by repeat case_match; simplify_eq.
Qed.

Lemma candidate_lastAt_ok pm dst source now rtt c :
  Forall (fun s => Mono.ok (s_at s)) (samples pm) ->
  (candidateScoreLocked k pm dst source now rtt).2 = Some c -> Mono.ok (cs_lastAt c).
Proof.
  intros Hok. rewrite score_lists by done. intros ->%listScore_lastAt.
  apply newestAt_ok. by apply Forall_filter_keep.
Qed.

(** The manager is only ever pruned while the sources are scored. *)
Definition scored_from pm now (pm' : sourcePathProbeManager) : Prop :=
  pm' = pm \/ pm' = pruneExpiredOutcomesLocked k pm now.

Lemma scored_from_step pm now pm' dst source rtt :
  scored_from pm now pm' ->
  scored_from pm now (candidateScoreLocked k pm' dst source now rtt).1
  /\ (candidateScoreLocked k pm' dst source now rtt).2
     = (candidateScoreLocked k pm dst source now rtt).2.
Proof.
  intros [->| ->].
  - split; [apply candidateScoreLocked_pm|done].
  - split; [|apply candidateScoreLocked_pruned]. right.
    destruct (candidateScoreLocked_pm k (pruneExpiredOutcomesLocked k pm now) dst source now rtt)
      as [-> | ->]; [done|apply prune_outcomes_idem].
Qed.

(** What the loop has established after the sources in [done]. *)
Definition best_of pm dst now rtt (done : list sourceRxMeta) (b : option sourcePathCandidateScore)
  : Prop :=
  match b with
  | None => forall s, s ∈ done -> (candidateScoreLocked k pm dst s now rtt).2 = None
  | Some b =>
      (exists s, s ∈ done /\ (candidateScoreLocked k pm dst s now rtt).2 = Some b)
      /\ forall s c, s ∈ done -> (candidateScoreLocked k pm dst s now rtt).2 = Some c ->
         betterThan c b (sourcePathMultiMetricEnabled k) = false
  end.

Lemma bestStep_best pm dst now rtt done acc source :
  Forall (fun s => Mono.ok (s_at s)) (samples pm) ->
  scored_from pm now acc.1 -> best_of pm dst now rtt done acc.2 ->
  scored_from pm now (bestStep k dst now rtt acc source).1
  /\ best_of pm dst now rtt (done ++ [source]) (bestStep k dst now rtt acc source).2.
Proof.
  intros Hok. destruct acc as [pm' b]. simpl. intros Hf Hb.
  destruct (scored_from_step pm now pm' dst source rtt Hf) as [Hf' Hv].
  unfold bestStep. destruct (candidateScoreLocked k pm' dst source now rtt) as [pm'' [c|]];
    simpl in Hf', Hv; symmetry in Hv.
  - destruct b as [b|]; simpl in Hb.
    + destruct Hb as [[s0 [Hs0 Hb0]] Hb].
      destruct (betterThan c b _) eqn:Ebt; simpl; (split; [done|]); split.
      * exists source. split; [set_solver|done].
      * intros s c' [Hs|Hs]%elem_of_app Hc'.
        { apply not_true_iff_false. intros Hbt. specialize (Hb s c' Hs Hc').
          rewrite (betterThan_trans c' c b) in Hb; [done|..|done|done];
            eapply candidate_lastAt_ok; done. }
        { apply list_elem_of_singleton in Hs as ->. simplify_eq. by rewrite betterThan_irrefl in *. }
      * exists s0. split; [set_solver|done].
      * intros s c' [Hs|Hs]%elem_of_app Hc'; [by eapply Hb|].
        apply list_elem_of_singleton in Hs as ->. by simplify_eq.
    + simpl. split; [done|]. split.
      * exists source. split; [set_solver|done].
      * intros s c' [Hs|Hs]%elem_of_app Hc'; [by rewrite Hb in Hc'|].
        apply list_elem_of_singleton in Hs as ->. simplify_eq. apply betterThan_irrefl.
  - destruct b as [b|]; simpl in *; (split; [done|]).
    + destruct Hb as [[s0 [Hs0 Hb0]] Hb]. split.
      * exists s0. split; [set_solver|done].
      * intros s c' [Hs|Hs]%elem_of_app Hc'; [by eapply Hb|].
        apply list_elem_of_singleton in Hs as ->. by simplify_eq.
    + intros s [Hs|Hs]%elem_of_app; [auto|]. by apply list_elem_of_singleton in Hs as ->.
Qed.

Lemma bestCandidateLocked_best pm dst sources now rtt :
  Forall (fun s => Mono.ok (s_at s)) (samples pm) ->
  let r := bestCandidateLocked k pm dst sources now rtt in
  scored_from pm now r.1 /\ best_of pm dst now rtt sources r.2.
Proof.
  intros Hok. unfold bestCandidateLocked.
  enough (forall done acc, scored_from pm now acc.1 -> best_of pm dst now rtt done acc.2 ->
    let r := foldl (bestStep k dst now rtt) acc sources in
    scored_from pm now r.1 /\ best_of pm dst now rtt (done ++ sources) r.2) as Hfold.
  { apply (Hfold []); [by left|]. simpl. set_solver. }
  induction sources as [|s sources IH]; intros done acc Hf Hb; simpl.
  { by rewrite app_nil_r. }
  rewrite cons_middle, app_assoc.
  destruct (bestStep_best pm dst now rtt done acc s Hok Hf Hb). by apply IH.
Qed.

(** The chosen source is the best one: the result is the score of one of the bound
    sources, no other source has a better score (better multi-metric score, or lower
    mean latency, ties going to newer evidence), there is none only if no source passes
    the gates, and choosing changes nothing but the pruning of stale outcomes. This holds
    for NaN scores too. *)
Theorem bestCandidateLocked_optimal t pm dst sources now rtt :
  pm_wf k t pm ->
  let r := bestCandidateLocked k pm dst sources now rtt in
  (r.1 = pm \/ r.1 = pruneExpiredOutcomesLocked k pm now)
  /\ match r.2 with
     | None => forall s, s ∈ sources -> (candidateScoreLocked k pm dst s now rtt).2 = None
     | Some b =>
         (exists s, s ∈ sources /\ (candidateScoreLocked k pm dst s now rtt).2 = Some b)
         /\ forall s c, s ∈ sources -> (candidateScoreLocked k pm dst s now rtt).2 = Some c ->
            betterThan c b (sourcePathMultiMetricEnabled k) = false
     end.
Proof.
  intros [Hok _ Hs _ _ _ _ _ _ _ _]. apply bestCandidateLocked_best.
  eapply Forall_impl; [exact Hs|]. simpl. unfold Mono.ok in *. intros s (_ & _ & _ & ?). lia.
Qed.
End Best.

(** ** Forgetting evidence *)
Section Forget.
Context `{Platform} (k : Knobs).
Implicit Types (pm : sourcePathProbeManager) (dst : epAddr) (source : sourceRxMeta) (now : Z).

(** A verdict depends on the fresh samples and outcomes of its own pair only. *)
Lemma candidateScoreLocked_ext pm pm' dst source now rtt :
  freshSamples k pm' dst source now = freshSamples k pm dst source now ->
  freshPairOutcomes k pm' dst source now = freshPairOutcomes k pm dst source now ->
  (candidateScoreLocked k pm' dst source now rtt).2 = (candidateScoreLocked k pm dst source now rtt).2.
Proof.
  intros Hs Ho. unfold candidateScoreLocked. do 2 (case_match; [done|]).
  rewrite (sample_fold_filter _ _ _ _ (samples pm')), (sample_fold_filter _ _ _ _ (samples pm)).
  fold (freshSamples k pm' dst source now) (freshSamples k pm dst source now). rewrite Hs.
  destruct (candidate _) as [c|]; [|done]. case_match; [done|].
  pose proof (lossRatioLocked_spec k pm' dst source now) as E'.
  pose proof (lossRatioLocked_spec k pm dst source now) as E. rewrite Ho, <- E in E'.
  destruct (lossRatioLocked k pm' dst source now), (lossRatioLocked k pm dst source now).
  simpl in E'. subst. repeat case_match; done.
Qed.

Lemma candidateScoreLocked_no_samples pm dst source now rtt :
  freshSamples k pm dst source now = [] ->
  (candidateScoreLocked k pm dst source now rtt).2 = None.
Proof.
  intros Hs. unfold candidateScoreLocked. do 2 (case_match; [done|]).
  rewrite sample_fold_filter. fold (freshSamples k pm dst source now). by rewrite Hs.
Qed.

Lemma filter_filter_weaker {A} (P Q : A -> Prop) `{forall x, Decision (P x)}
    `{forall x, Decision (Q x)} (l : list A) :
  (forall x, P x -> Q x) -> filter P (filter Q l) = filter P l.
Proof.
  intros HPQ. induction l as [|x l IH]; [done|].
  rewrite !filter_cons. destruct (decide (Q x)); [rewrite filter_cons|].
  - by destruct (decide (P x)); rewrite IH.
  - destruct (decide (P x)); [by exfalso; eauto|done].
Qed.

Lemma filter_filter_disjoint {A} (P Q : A -> Prop) `{forall x, Decision (P x)}
    `{forall x, Decision (Q x)} (l : list A) :
  (forall x, P x -> ~ Q x) -> filter P (filter Q l) = [].
Proof.
  intros HPQ. induction l as [|x l IH]; [done|].
  rewrite filter_cons. destruct (decide (Q x)); [rewrite filter_cons|done].
  destruct (decide (P x)); [by destruct (HPQ x)|done].
Qed.

(** A manager keeps no record of a socket. *)
Definition no_trace (pm : sourcePathProbeManager) (source : sourceRxMeta) : Prop :=
  Forall (fun s => s_source s <> source) (samples pm)
  /\ Forall (fun o => o_source o <> source) (outcomes pm)
  /\ map_Forall (fun _ tx => tx_source tx <> source) (pending pm)
  /\ map_Forall (fun _ f => fl_source f <> source) (flowMap pm)
  /\ map_Forall (fun key _ => dk_source key <> source) (dualSendAuxFailStreak pm)
  /\ map_Forall (fun key _ => dk_source key <> source) (dualSendAuxProbeLoss pm)
  /\ map_Forall (fun key _ => dk_source key <> source) (dualSendDemotedAuxTill pm).

(** Rotating a socket out forgets it completely and nothing else: no sample,
    outcome, probe, flow or dual-send record of the old generation is left, it is no
    candidate for any destination, and every other socket is scored exactly as
    before. *)
Theorem dropSourceLocked_isolated pm source :
  isPrimary source = false ->
  let pm' := (dropSourceLocked pm source).1 in
  no_trace pm' source
  /\ (forall dst now rtt, (candidateScoreLocked k pm' dst source now rtt).2 = None)
  /\ (forall dst other now rtt, other <> source ->
      (candidateScoreLocked k pm' dst other now rtt).2
      = (candidateScoreLocked k pm dst other now rtt).2).
Proof.
  intros Hp. unfold dropSourceLocked. rewrite Hp. cbn [fst]. split_and!.
  - unfold no_trace. simpl.
    split_and!; try (apply Forall_forall; intros ? [? _]%list_elem_of_filter; done);
      intros ? ? [_ ?]%map_lookup_filter_Some; done.
  - intros. apply candidateScoreLocked_no_samples. unfold freshSamples. simpl.
    apply filter_filter_disjoint. unfold matches. naive_solver.
  - intros dst other now rtt Hne.
    apply candidateScoreLocked_ext; unfold freshSamples, freshPairOutcomes, fresh_outcomes; simpl.
    + apply filter_filter_weaker. unfold matches. naive_solver.
    + rewrite !list_filter_filter.
      apply list_filter_iff. naive_solver.
Qed.
End Forget.

(** ** Witnesses *)
Definition ex_sample (src : sourceRxMeta) (n lat at_ : Z) : sourcePathProbeSample :=
  MkSample (ex_txid n) ex_dst ex_dst (ap ex_dst) src lat at_.
(** Three fresh samples on each of two auxiliary sockets, the second being faster. *)
Definition ex_pm : sourcePathProbeManager :=
  set_samples zeroPM
    [ex_sample ex_aux 1 (20 * Millisecond) ex_t0; ex_sample ex_aux 2 (22 * Millisecond) ex_t0;
     ex_sample ex_aux 3 (24 * Millisecond) (ex_t0 + 1);
     ex_sample ex_aux2 4 (10 * Millisecond) ex_t0; ex_sample ex_aux2 5 (11 * Millisecond) ex_t0;
     ex_sample ex_aux2 6 (12 * Millisecond) ex_t0].

Lemma ex_pm_wf : pm_wf defaultKnobs (ex_t0 + 1) ex_pm.
Proof.
  split; match goal with
  | |- map_Forall _ _ => apply map_Forall_empty
  | |- capped _ _ => intros _; vm_compute; congruence
  | |- 0 < _ -> _ => intros _; vm_compute; congruence
  | |- _ => idtac
  end.
  - unfold Mono.ok, ex_t0. lia.
  - repeat constructor; simpl; vm_compute; congruence.
  - constructor.
Qed.


Lemma candidate_is_earned_witness :
  let c := MkScore ex_aux (22 * Millisecond) 1632993 F64.zero F64.zero 3 (ex_t0 + 1) in
  cs_latency c < beatCutoff defaultKnobs (30 * Millisecond).
Proof.
  intros c.
  refine (proj2 (proj2 (proj2 (proj2 (proj2 (candidate_is_earned (H := portable_platform)
    defaultKnobs ex_pm ex_dst ex_aux (ex_t0 + 1) (30 * Millisecond) c _ _))))) _ _).
  - repeat constructor; vm_compute; congruence.
  - vm_compute. reflexivity.
  - vm_compute. reflexivity.
  - vm_compute. reflexivity.
Defined.

Lemma bestCandidateLocked_optimal_witness :
  let r := bestCandidateLocked (H := portable_platform) defaultKnobs ex_pm ex_dst
             [ex_aux; ex_aux2] (ex_t0 + 1) 0 in
  cs_source <$> r.2 = Some ex_aux2
  /\ (r.1 = ex_pm \/ r.1 = pruneExpiredOutcomesLocked defaultKnobs ex_pm (ex_t0 + 1)).
Proof.
  pose proof (bestCandidateLocked_optimal (H := portable_platform) defaultKnobs (ex_t0 + 1) ex_pm
    ex_dst [ex_aux; ex_aux2] (ex_t0 + 1) 0 ex_pm_wf) as Hopt.
  cbv zeta in Hopt |- *. destruct Hopt as [Hpm _]. split; [vm_compute; reflexivity|exact Hpm].
Defined.

Lemma dropSourceLocked_isolated_witness :
  no_trace (dropSourceLocked ex_pm ex_aux).1 ex_aux
  /\ length (samples (dropSourceLocked ex_pm ex_aux).1) = 3%nat.
Proof.
  split; [|vm_compute; reflexivity].
  exact (proj1 (dropSourceLocked_isolated (H := portable_platform) defaultKnobs ex_pm ex_aux eq_refl)).
Defined.
