(* ===== verification/Flows.v ===== *)
(** * Flow-aware source selection (sourcepath.go, sourcepath_supported.go)

    The sticky flow table of the probe manager, the flow identifier derived from a
    packet, the hash that spreads flows over sources, and what a failed data send
    makes the manager forget. *)
From S2P Require Import Prelude Netip Bytes Float64 Knobs ProbeManager Scorer.

(** ** Flow identifiers *)
Module Fnv.
Definition offset64 : Z := 14695981039346656037.
Definition prime64 : Z := 1099511628211.
(** [hash/fnv] New64a, Write, Sum64. *)
Definition Sum64a (b : bytes) : Z :=
  foldl (fun h c => uw 64 (Z.lxor h (b2z c) * prime64)) offset64 b.
End Fnv.

Definition MessageTransportType : Z := 4.

Definition sourcePathFlowIDFromPacket (b : bytes) : option Z :=
  if (length b <? 4)%nat then None
  else
    let msgType := le_get (take 4 b) in
    if (msgType =? MessageTransportType) && (16 <=? length b)%nat
    then Some (Fnv.Sum64a (take 16 b))
    else Some (Fnv.Sum64a (take (min (length b) 32) b)).
Definition sourcePathFlowIDFromBatch (buffs : list bytes) (offset : Z) : option Z :=
  match buffs with
  | [] => None
  | b :: _ =>
      if (offset <? 0) || (Z.of_nat (length b) <=? offset) then None
      else sourcePathFlowIDFromPacket (drop (Z.to_nat offset) b)
  end.

Definition sourcePathMix64 (v : Z) : Z :=
  let v := Z.lxor v (Z.shiftr v 30) in
  let v := uw 64 (v * 0xbf58476d1ce4e5b9) in
  let v := Z.lxor v (Z.shiftr v 27) in
  let v := uw 64 (v * 0x94d049bb133111eb) in
  Z.lxor v (Z.shiftr v 31).

Definition sourcePathFlowChooseAuxByWeight (flowID : Z) (auxWeight primaryWeight : F64.t) : bool :=
  let total := F64.add auxWeight primaryWeight in
  if F64.leb total F64.zero then Z.land (sourcePathMix64 flowID) 1 =? 1
  else
    let cutoff := F64.to_uint64 (F64.mul (F64.div auxWeight total) (F64.of_int 10000)) in
    sourcePathMix64 flowID mod 10000 <? cutoff.

(** ** The flow table *)
Section Ops.
Context `{MapRange} (k : Knobs).
Implicit Types (pm : sourcePathProbeManager) (key : sourcePathFlowKey) (now : Z).

Definition pruneExpiredFlowsLocked pm now : sourcePathProbeManager :=
  if decide (flowMap pm = ∅) then pm
  else
    let idle := sourcePathFlowIdleValue k in
    if idle <=? 0 then pm
    else set_flowMap pm
      (filter (fun e : sourcePathFlowKey * sourcePathFlowState =>
                 ~ idle < Mono.Sub now (lastActivity e.2)) (flowMap pm)).

Definition oldestStep (acc : option (sourcePathFlowKey * Z))
    (e : sourcePathFlowKey * sourcePathFlowState) : option (sourcePathFlowKey * Z) :=
  match acc with
  | None => Some (e.1, lastActivity e.2)
  | Some (_, oldestAt) =>
      if Mono.Sub (lastActivity e.2) oldestAt <? 0 then Some (e.1, lastActivity e.2) else acc
  end.
(** [None] is the result [false]. *)
Definition evictOldestFlowLocked pm : option sourcePathProbeManager :=
  match foldl oldestStep None (map_range (flowMap pm)) with
  | None => None
  | Some (oldestKey, _) => Some (set_flowMap pm (delete oldestKey (flowMap pm)))
  end.

(** The eviction loop of [assignFlowLocked]; one unit of fuel per iteration. *)
Fixpoint evictLoop (fuel : nat) (maxEntries : Z) pm : sourcePathProbeManager :=
  match fuel with
  | O => pm
  | S fuel =>
      if maxEntries <=? Z.of_nat (size (flowMap pm)) then
        match evictOldestFlowLocked pm with
        | None => pm
        | Some pm' => evictLoop fuel maxEntries pm'
        end
      else pm
  end.

Definition assignFlowLocked pm key (source : sourceRxMeta) now : sourcePathProbeManager :=
  let pm := pruneExpiredFlowsLocked pm now in
  let maxEntries := sourcePathFlowMaxEntriesValue k in
  let pm := if 0 <? maxEntries then evictLoop (S (size (flowMap pm))) maxEntries pm else pm in
  set_flowMap pm (<[key := MkFlow source now]> (flowMap pm)).

Definition lookupFlowLocked pm key now : sourcePathProbeManager * option sourcePathFlowState :=
  let pm := pruneExpiredFlowsLocked pm now in
  match flowMap pm !! key with
  | None => (pm, None)
  | Some st =>
      let st := MkFlow (fl_source st) now in
      (set_flowMap pm (<[key := st]> (flowMap pm)), Some st)
  end.

Definition forgetFlowLocked pm key (source : sourceRxMeta) : sourcePathProbeManager :=
  match flowMap pm !! key with
  | Some st => if decide (fl_source st = source)
               then set_flowMap pm (delete key (flowMap pm)) else pm
  | None => pm
  end.

Definition dropFlowsLocked pm (dst : epAddr) (source : sourceRxMeta) : sourcePathProbeManager * Z :=
  let keep := filter (fun e : sourcePathFlowKey * sourcePathFlowState =>
                        ~ (fk_dst e.1 = dst /\ fl_source e.2 = source)) (flowMap pm) in
  (set_flowMap pm keep, Z.of_nat (size (flowMap pm)) - Z.of_nat (size keep)).

Definition nextFlowRRLocked pm (dst : epAddr) : sourcePathProbeManager * Z :=
  let v := default 0 (flowRR pm !! dst) in
  (set_flowRR pm (<[dst := uw 64 (v + 1)]> (flowRR pm)), v).

(** [noteSourcePathSendFailure] on the manager. *)
Definition noteSourcePathSendFailure pm (dst : epAddr) (source : sourceRxMeta)
  : sourcePathProbeManager :=
  if isPrimary source then pm
  else (dropFlowsLocked (invalidateLocked pm dst source).1 dst source).1.
End Ops.

(** [sourcePathNewFlowSource]; [primaryRTT] is what [c.primaryRTTForDst(dst)] returns. *)
Definition sourcePathNewFlowSource `{Platform} (k : Knobs) (pm : sourcePathProbeManager)
    (dst : epAddr) (flowID : Z) (aux : option sourcePathCandidateScore) (primaryRTT : Z)
  : sourcePathProbeManager * sourceRxMeta :=
  match aux with
  | None => (pm, primarySourceRxMeta)
  | Some aux =>
      if bool_decide (sourcePathBalancePolicyValue k = "rr"%string) then
        let '(pm, rr) := nextFlowRRLocked pm dst in
        (pm, if rr mod 2 =? 0 then primarySourceRxMeta else cs_source aux)
      else if bool_decide (sourcePathBalancePolicyValue k = "xor"%string) then
        (pm, if Z.land (sourcePathMix64 flowID) 1 =? 0 then primarySourceRxMeta else cs_source aux)
      else
        let '(auxWeight, primaryWeight) :=
          if sourcePathMultiMetricEnabled k then
            let w := sourcePathScoreWeightsValue k in
            (if F64.leb (cs_score aux) F64.zero
             then sourcePathQualityScore k (cs_latency aux) (cs_jitter aux) (cs_loss aux) w
             else cs_score aux,
             if 0 <? primaryRTT then sourcePathQualityScore k primaryRTT 0 F64.zero w else F64.one)
          else (F64.one, F64.one) in
        (pm, if sourcePathFlowChooseAuxByWeight flowID auxWeight primaryWeight
             then cs_source aux else primarySourceRxMeta)
  end.

(** ** Runs of lookups *)

(** Looks the flows up in turn, at the given instants, with the source each returned. *)
Fixpoint lookups (k : Knobs) (pm : sourcePathProbeManager) (es : list (sourcePathFlowKey * Z))
  : list (sourcePathFlowKey * option sourceRxMeta) :=
  match es with
  | [] => []
  | (key, t) :: es =>
      let r := lookupFlowLocked k pm key t in
      (key, fl_source <$> r.2) :: lookups k r.1 es
  end.
(** The clock moves forward and the flow [key], last used at [last], is never idle for
    longer than [idle] between two events. *)
Fixpoint kept (idle : Z) (key : sourcePathFlowKey) (last : Z)
    (es : list (sourcePathFlowKey * Z)) : Prop :=
  match es with
  | [] => True
  | (key', t) :: es =>
      last <= t < 2 ^ 63 /\ (0 < idle -> t - last <= idle)
      /\ kept idle key (if decide (key' = key) then t else last) es
  end.

(** The inverse of [sourcePathMix64]. *)
Definition unmix64 (v : Z) : Z :=
  let v := Z.lxor v (Z.lxor (Z.shiftr v 31) (Z.shiftr v 62)) in
  let v := uw 64 (v * 0x319642b2d24d8ec3) in
  let v := Z.lxor v (Z.lxor (Z.shiftr v 27) (Z.shiftr v 54)) in
  let v := uw 64 (v * 0x96de1b173f119089) in
  Z.lxor v (Z.lxor (Z.shiftr v 30) (Z.shiftr v 60)).

(** ** The mixing hash is a bijection of the 64-bit words *)
Lemma xorshift_inverse s s2 v :
  s2 = 2 * s -> 0 < s -> 0 <= v < 2 ^ (3 * s) ->
  let w := Z.lxor v (Z.shiftr v s) in
  Z.lxor w (Z.lxor (Z.shiftr w s) (Z.shiftr w s2)) = v.
Proof.
  intros -> Hs Hv w. subst w. rewrite !Z.shiftr_lxor, !Z.shiftr_shiftr by lia.
  replace (s + 2 * s) with (3 * s) by lia. replace (s + s) with (2 * s) by lia.
  replace (Z.shiftr v (3 * s)) with 0.
  - apply Z.bits_inj'. intros n Hn. rewrite !Z.lxor_spec, Z.bits_0.
    by destruct (Z.testbit v n), (Z.testbit (Z.shiftr v s) n), (Z.testbit (Z.shiftr v (2 * s)) n).
  - symmetry. apply Z.shiftr_eq_0_iff. destruct (decide (v = 0)) as [->|]; [by left|].
    right. split; [lia|]. apply Z.log2_lt_pow2; lia.
Qed.

Lemma mul_inverse a b v :
  a * b mod 2 ^ 64 = 1 -> 0 <= v < 2 ^ 64 -> uw 64 (uw 64 (v * a) * b) = v.
Proof.
  intros Hab Hv. unfold uw. rewrite Z.mul_mod_idemp_l by done. rewrite <- Z.mul_assoc.
  rewrite <- Z.mul_mod_idemp_r, Hab, Z.mul_1_r by done. by apply Z.mod_small.
Qed.

Lemma xorshift_range s v : 0 <= s -> 0 <= v < 2 ^ 64 -> 0 <= Z.lxor v (Z.shiftr v s) < 2 ^ 64.
Proof. intros. apply lxor_range; [lia|done|]. by apply shiftr_range. Qed.

(** The hash that spreads flows over sources loses nothing: it has an explicit
    inverse on 64-bit words, so distinct flow identifiers always get distinct hashes. *)
Theorem sourcePathMix64_bijective v :
  0 <= v < 2 ^ 64 -> 0 <= sourcePathMix64 v < 2 ^ 64 /\ unmix64 (sourcePathMix64 v) = v.
Proof.
  intros Hv. unfold sourcePathMix64, unmix64. cbv zeta.
  set (v1 := Z.lxor v (Z.shiftr v 30)).
  assert (0 <= v1 < 2 ^ 64) as H1 by (by apply xorshift_range).
  set (v2 := uw 64 (v1 * 0xbf58476d1ce4e5b9)).
  assert (0 <= v2 < 2 ^ 64) as H2 by (by apply uw_range).
  set (v3 := Z.lxor v2 (Z.shiftr v2 27)).
  assert (0 <= v3 < 2 ^ 64) as H3 by (by apply xorshift_range).
  set (v4 := uw 64 (v3 * 0x94d049bb133111eb)).
  assert (0 <= v4 < 2 ^ 64) as H4 by (by apply uw_range).
  split; [by apply xorshift_range|].
  rewrite (xorshift_inverse 31 62 v4) by lia. unfold v4. rewrite mul_inverse by done.
  unfold v3. rewrite (xorshift_inverse 27 54 v2) by lia. unfold v2. rewrite mul_inverse by done.
  unfold v1. apply (xorshift_inverse 30 60 v); lia.
Qed.

Lemma sourcePathMix64_bijective_witness : unmix64 (sourcePathMix64 0xdeadbeefcafef00d) = 0xdeadbeefcafef00d.
Proof. apply (sourcePathMix64_bijective 0xdeadbeefcafef00d). lia. Defined.

(** ** The flow table *)
Definition liveFlow (k : Knobs) (now : Z) (st : sourcePathFlowState) : Prop :=
  0 < sourcePathFlowIdleValue k -> Mono.Sub now (lastActivity st) <= sourcePathFlowIdleValue k.

Section FlowFacts.
Context `{MapRange} (k : Knobs).
Implicit Types (pm : sourcePathProbeManager) (key : sourcePathFlowKey) (now : Z).

Lemma pruneExpiredFlowsLocked_lookup pm now key st :
  flowMap (pruneExpiredFlowsLocked k pm now) !! key = Some st <->
  flowMap pm !! key = Some st /\ liveFlow k now st.
Proof.
  unfold pruneExpiredFlowsLocked, liveFlow. destruct (decide _) as [->|].
  { rewrite lookup_empty. naive_solver. }
  destruct (Z.leb_spec (sourcePathFlowIdleValue k) 0) as [Hi|Hi]; simpl.
  - split; [intros ?; split; [done|lia]|by intros [? _]].
  - rewrite map_lookup_filter_Some. simpl. split; intros [? Hx]; (split; [done|]); lia.
Qed.

Lemma pruneExpiredFlowsLocked_subseteq pm now :
  flowMap (pruneExpiredFlowsLocked k pm now) ⊆ flowMap pm.
Proof.
  apply map_subseteq_spec. intros key st Hk. by apply pruneExpiredFlowsLocked_lookup in Hk as [? _].
Qed.

Lemma pruneExpiredFlowsLocked_frame pm now :
  pruneExpiredFlowsLocked k pm now
  = set_flowMap pm (flowMap (pruneExpiredFlowsLocked k pm now)).
Proof. unfold pruneExpiredFlowsLocked. repeat case_match; by destruct pm. Qed.

(** *** Eviction *)
Definition flow_ok (f : sourcePathFlowState) : Prop := Mono.ok (lastActivity f).

Lemma oldest_fold l acc :
  Forall (fun e => flow_ok e.2) l ->
  match acc with None => True | Some (_, a) => Mono.ok a end ->
  match foldl oldestStep acc l with
  | None => acc = None /\ l = []
  | Some (key, a) =>
      Mono.ok a
      /\ (acc = Some (key, a) \/ exists st, (key, st) ∈ l /\ lastActivity st = a)
      /\ (forall e, e ∈ l -> a <= lastActivity e.2)
      /\ match acc with None => True | Some (_, a') => a <= a' end
  end.
Proof.
  intros Hl. revert acc. induction Hl as [|[key0 st0] l He Hl IH]; intros acc Hacc; simpl.
  { destruct acc as [[key a]|]; [|done]. split_and!; [done|by left|set_solver|lia]. }
  assert (match oldestStep acc (key0, st0) with
          | None => False
          | Some (key, a) => Mono.ok a /\ a <= lastActivity st0
              /\ ((key = key0 /\ a = lastActivity st0) \/ acc = Some (key, a))
              /\ match acc with None => True | Some (_, a') => a <= a' end
          end) as Hstep.
  { unfold oldestStep, flow_ok in *. simpl in *. destruct acc as [[key a]|]; simpl.
    - rewrite Mono.Sub_ok by done.
      destruct (Z.ltb_spec (lastActivity st0 - a) 0); split_and!; auto; lia.
    - split_and!; auto; lia. }
  destruct (oldestStep acc (key0, st0)) as [[key1 a1]|]; [|done].
  destruct Hstep as (Hok1 & Hle1 & Hor & Hacc1). specialize (IH (Some (key1, a1)) Hok1).
  destruct (foldl oldestStep _ l) as [[key a]|]; [|by destruct IH].
  destruct IH as (Hok & Hex & Hmin & Hle). split_and!; [done| | |].
  - destruct Hex as [E|(st & Hin & Hst)]; [|right; exists st; split; [by right|done]].
    injection E as -> ->. destruct Hor as [[-> ->]|?]; [|by left]. right. exists st0.
    split; [by left|done].
  - intros e [->|Hin]%elem_of_cons; [simpl; lia|auto].
  - destruct acc as [[? ?]|]; [lia|done].
Qed.

Lemma evictOldestFlowLocked_spec pm :
  map_Forall (fun _ f => flow_ok f) (flowMap pm) ->
  match evictOldestFlowLocked pm with
  | None => flowMap pm = ∅
  | Some pm' => exists key st, flowMap pm !! key = Some st
      /\ pm' = set_flowMap pm (delete key (flowMap pm))
      /\ forall key' st', flowMap pm !! key' = Some st' -> lastActivity st <= lastActivity st'
  end.
Proof.
  intros Hok. unfold evictOldestFlowLocked.
  pose proof (oldest_fold (map_range (flowMap pm)) None) as Hf.
  assert (Forall (fun e => flow_ok e.2) (map_range (flowMap pm))) as Hl.
  { apply Forall_forall. intros [key st] Hin%elem_of_map_range. by apply (Hok key). }
  specialize (Hf Hl I). destruct (foldl oldestStep None _) as [[key a]|].
  - destruct Hf as (_ & [?|(st & Hin & <-)] & Hmin & _); [done|].
    exists key, st. apply elem_of_map_range in Hin. split_and!; [done|done|].
    intros key' st' Hin'. apply (Hmin (key', st')). by apply elem_of_map_range.
  - destruct Hf as [_ Hnil]. apply map_size_empty_inv. rewrite <- length_map_range. by rewrite Hnil.
Qed.

Lemma pruned_flows_ok t pm now :
  pm_wf k t pm -> map_Forall (fun _ f => flow_ok f) (flowMap (pruneExpiredFlowsLocked k pm now)).
Proof.
  intros Hwf. eapply map_Forall_subseteq; [apply pruneExpiredFlowsLocked_subseteq|].
  intros i f Hi. pose proof (wf_flows _ _ _ Hwf i f Hi) as Hf. pose proof (wf_now _ _ _ Hwf).
  unfold flow_ok, Mono.ok in *. simpl in Hf. lia.
Qed.

(** What the eviction loop leaves: a sub-table below the cap whose entries are all at
    least as recent as every entry it removed. *)
Definition evicted_from (m m' : gmap sourcePathFlowKey sourcePathFlowState) : Prop :=
  m' ⊆ m /\ forall key st key' st', m !! key = Some st -> m' !! key = None ->
    m' !! key' = Some st' -> lastActivity st <= lastActivity st'.

Lemma evictLoop_spec fuel maxEntries pm :
  0 < maxEntries -> (size (flowMap pm) < fuel)%nat ->
  map_Forall (fun _ f => flow_ok f) (flowMap pm) ->
  let pm' := evictLoop fuel maxEntries pm in
  Z.of_nat (size (flowMap pm')) < maxEntries /\ evicted_from (flowMap pm) (flowMap pm')
  /\ pm' = set_flowMap pm (flowMap pm').
Proof.
  intros Hmax. revert pm. induction fuel as [|fuel IH]; intros pm Hfuel Hok; simpl; [lia|].
  destruct (Z.leb_spec maxEntries (Z.of_nat (size (flowMap pm)))) as [Hge|Hlt].
  2:{ split_and!; [lia|split; [done|]|by destruct pm]. intros; congruence. }
  pose proof (evictOldestFlowLocked_spec pm Hok) as Hev.
  destruct (evictOldestFlowLocked pm) as [pm1|]; [|rewrite Hev, map_size_empty in Hge; lia].
  destruct Hev as (key & st & Hkey & -> & Hmin).
  pose proof (map_size_delete_Some key (flowMap pm) (mk_is_Some _ _ Hkey)) as Hsz.
  destruct (IH (set_flowMap pm (delete key (flowMap pm)))) as (H1 & [Hsub H2] & H3).
  { simpl. lia. }
  { eapply map_Forall_subseteq; [apply delete_subseteq|done]. }
  simpl in Hsub, H2, H3. split_and!; [done| |rewrite H3; done]. split.
  - etrans; [exact Hsub|apply delete_subseteq].
  - intros key1 st1 key2 st2 Hk1 Hk1' Hk2.
    destruct (decide (key1 = key)) as [->|Hne].
    + simplify_eq. eapply Hmin. eapply lookup_weaken; [exact Hk2|].
      etrans; [exact Hsub|apply delete_subseteq].
    + eapply H2; [|exact Hk1'|exact Hk2]. by rewrite lookup_delete_ne.
Qed.

Lemma assignFlowLocked_frame pm key source now :
  assignFlowLocked k pm key source now
  = set_flowMap pm (flowMap (assignFlowLocked k pm key source now)).
Proof.
  unfold assignFlowLocked.
  assert (forall fuel m q, evictLoop fuel m q = set_flowMap q (flowMap (evictLoop fuel m q))) as Hl.
  { induction fuel as [|fuel IH]; intros m q; simpl; [by destruct q|].
    case_match; [|by destruct q]. unfold evictOldestFlowLocked.
    destruct (foldl oldestStep _ _) as [[? ?]|]; [|by destruct q]. rewrite IH. done. }
  case_match; [rewrite Hl|]; rewrite pruneExpiredFlowsLocked_frame; done.
Qed.

(** [C40] Remembering a flow is bounded and fair: the eviction loop always terminates,
    the table never exceeds its configured size, the flow is bound to the chosen source,
    every flow that survives is unchanged and not idle, and a live flow is evicted only
    if no surviving one was used before it. *)
Theorem assignFlowLocked_bounded t pm key source now :
  pm_wf k t pm -> 0 < sourcePathFlowMaxEntriesValue k ->
  let m := flowMap (pruneExpiredFlowsLocked k pm now) in
  let m' := flowMap (assignFlowLocked k pm key source now) in
  Z.of_nat (size m') <= sourcePathFlowMaxEntriesValue k
  /\ m' !! key = Some (MkFlow source now)
  /\ (forall key1 st1, key1 <> key -> m' !! key1 = Some st1 ->
      flowMap pm !! key1 = Some st1 /\ liveFlow k now st1)
  /\ (forall key1 st1 key2 st2, m !! key1 = Some st1 -> m' !! key1 = None ->
      key2 <> key -> m' !! key2 = Some st2 -> lastActivity st1 <= lastActivity st2).
Proof.
  intros Hwf Hmax. cbv zeta. unfold assignFlowLocked.
  rewrite (proj2 (Z.ltb_lt 0 _) Hmax). cbn [flowMap set_flowMap].
  set (q := pruneExpiredFlowsLocked k pm now).
  assert (map_Forall (fun _ f => flow_ok f) (flowMap q)) as Hq
    by (by eapply pruned_flows_ok).
  destruct (evictLoop_spec (S (size (flowMap q))) _ q Hmax ltac:(lia) Hq) as (H1 & [H2 H3] & _).
  set (m1 := flowMap (evictLoop _ _ q)) in *. split_and!.
  - rewrite map_size_insert. destruct (m1 !! key); simpl; lia.
  - apply lookup_insert_eq.
  - intros key1 st1 Hne. rewrite lookup_insert_ne by done. intros Hk.
    apply pruneExpiredFlowsLocked_lookup. by eapply lookup_weaken.
  - intros key1 st1 key2 st2 Hk1 [Hk1' _]%lookup_insert_None Hne.
    rewrite lookup_insert_ne by done. intros Hk2. by eapply H3.
Qed.

Lemma assignFlowLocked_wf t pm key source :
  pm_wf k t pm -> pm_wf k t (assignFlowLocked k pm key source t).
Proof.
  intros Hwf. rewrite assignFlowLocked_frame.
  assert (flowMap (assignFlowLocked k pm key source t)
    = <[key := MkFlow source t]> (flowMap (if 0 <? sourcePathFlowMaxEntriesValue k
        then evictLoop (S (size (flowMap (pruneExpiredFlowsLocked k pm t))))
               (sourcePathFlowMaxEntriesValue k) (pruneExpiredFlowsLocked k pm t)
        else pruneExpiredFlowsLocked k pm t))) as -> by done.
  assert (map_Forall (fun _ f => flow_ok f) (flowMap (pruneExpiredFlowsLocked k pm t))) as Hq
    by (by eapply pruned_flows_ok).
  pose proof (pruneExpiredFlowsLocked_subseteq pm t) as Hsub.
  assert (exists m1, flowMap (if 0 <? sourcePathFlowMaxEntriesValue k
        then evictLoop (S (size (flowMap (pruneExpiredFlowsLocked k pm t))))
               (sourcePathFlowMaxEntriesValue k) (pruneExpiredFlowsLocked k pm t)
        else pruneExpiredFlowsLocked k pm t) = m1 /\ m1 ⊆ flowMap pm
        /\ (0 < sourcePathFlowMaxEntriesValue k ->
            Z.of_nat (size m1) < sourcePathFlowMaxEntriesValue k)) as (m1 & -> & Hm & Hsz).
  { eexists. split; [done|]. destruct (Z.ltb_spec 0 (sourcePathFlowMaxEntriesValue k)); [|split; [done|lia]].
    edestruct evictLoop_spec as (H1 & [H2 _] & _); [done| |exact Hq|]; [|split; [|intros _; exact H1]].
    - lia.
    - etrans; [exact H2|done]. }
  destruct Hwf as [Hok ? ? ? Hfl ? ? ? ? ? ?]. split; cbn [flowMap set_flowMap]; try done.
  - apply map_Forall_insert_2; [simpl; unfold Mono.ok in Hok; lia|].
    eapply map_Forall_subseteq; done.
  - intros Hc. rewrite map_size_insert. specialize (Hsz Hc). destruct (m1 !! key); simpl; lia.
Qed.
End FlowFacts.

Section FlowProps.
Context (k : Knobs).
Implicit Types (pm : sourcePathProbeManager) (key : sourcePathFlowKey) (now : Z).

Lemma lookupFlowLocked_wf t pm key : pm_wf k t pm -> pm_wf k t (lookupFlowLocked k pm key t).1.
Proof.
  intros Hwf. unfold lookupFlowLocked.
  pose proof (pruneExpiredFlowsLocked_subseteq k pm t) as Hsub.
  rewrite pruneExpiredFlowsLocked_frame. cbn [flowMap set_flowMap].
  generalize dependent (flowMap (pruneExpiredFlowsLocked k pm t)). intros m Hm.
  pose proof (map_subseteq_size _ _ Hm).
  destruct Hwf as [Hok ? ? ? Hfl ? ? ? Hfc ? ?].
  destruct (m !! key) as [st|] eqn:E; split; cbn [flowMap set_flowMap fst]; try done.
  - apply map_Forall_insert_2; [simpl; unfold Mono.ok in Hok; lia|].
    by eapply map_Forall_subseteq.
  - rewrite map_size_insert_Some by (by rewrite E). lia.
  - by eapply map_Forall_subseteq.
  - lia.
Qed.

Lemma forgetFlowLocked_shrinks pm key source : shrinks (forgetFlowLocked pm key source) pm.
Proof. unfold forgetFlowLocked. repeat case_match; split; simpl; auto with shrink. Qed.
Lemma dropFlowsLocked_shrinks pm dst source : shrinks (dropFlowsLocked pm dst source).1 pm.
Proof. split; simpl; auto with shrink. Qed.
Lemma nextFlowRRLocked_shrinks pm dst : shrinks (nextFlowRRLocked pm dst).1 pm.
Proof. split; simpl; auto with shrink. Qed.

Lemma lookupFlowLocked_other pm key key' now st :
  key' <> key -> flowMap pm !! key = Some st -> liveFlow k now st ->
  flowMap (lookupFlowLocked k pm key' now).1 !! key = Some st.
Proof.
  intros Hne Hst Hl. unfold lookupFlowLocked.
  assert (flowMap (pruneExpiredFlowsLocked k pm now) !! key = Some st) as E
    by (by apply pruneExpiredFlowsLocked_lookup).
  case_match; simpl; [|done]. by rewrite lookup_insert_ne.
Qed.

Lemma lookupFlowLocked_hit pm key now st :
  flowMap pm !! key = Some st -> liveFlow k now st ->
  (lookupFlowLocked k pm key now).2 = Some (MkFlow (fl_source st) now)
  /\ flowMap (lookupFlowLocked k pm key now).1 !! key = Some (MkFlow (fl_source st) now).
Proof.
  intros Hst Hl. unfold lookupFlowLocked.
  assert (flowMap (pruneExpiredFlowsLocked k pm now) !! key = Some st) as ->
    by (by apply pruneExpiredFlowsLocked_lookup).
  simpl. by rewrite lookup_insert_eq.
Qed.

Lemma lookups_sticky pm key src last es :
  flowMap pm !! key = Some (MkFlow src last) -> 0 <= last ->
  kept (sourcePathFlowIdleValue k) key last es ->
  forall key' r, (key', r) ∈ lookups k pm es -> key' = key -> r = Some src.
Proof.
  revert pm last. induction es as [|[key1 t] es IH]; intros pm last Hst Hlast; simpl; [set_solver|].
  intros (Ht & Hidle & Hkept).
  assert (liveFlow k t (MkFlow src last)) as Hl.
  { intros Hpos. simpl. rewrite Mono.Sub_ok by (unfold Mono.ok; lia). auto. }
  destruct (lookupFlowLocked_hit pm key t _ Hst Hl) as [Hhit Hhit'].
  intros key' r [E|Hin]%elem_of_cons ->.
  - injection E as <- ->. by rewrite Hhit.
  - destruct (decide (key1 = key)) as [->|Hne].
    + eapply (IH _ t); [exact Hhit'|lia|done|exact Hin|done].
    + eapply (IH _ last); [by apply lookupFlowLocked_other|lia|done|exact Hin|done].
Qed.

(** Flows are sticky: once a flow is bound to a source, every later lookup of the
    flow gives the same source, for any sequence of lookups of this and other flows in
    which the flow is never idle longer than the idle limit. *)
Theorem flow_sticky `{MapRange} pm key src now es :
  0 <= now -> kept (sourcePathFlowIdleValue k) key now es ->
  forall key' r, (key', r) ∈ lookups k (assignFlowLocked k pm key src now) es -> key' = key ->
  r = Some src.
Proof.
  intros Hnow Hk. eapply lookups_sticky; [|exact Hnow|exact Hk].
  unfold assignFlowLocked. simpl. apply lookup_insert_eq.
Qed.

(** A failed data send quarantines its pair: the (destination, socket) pair is not
    a candidate again until fresh samples arrive, no flow to that destination stays on
    the socket, and every other pair keeps its score and every other flow its source. *)
Theorem send_failure_quarantines `{Platform} pm dst source :
  isPrimary source = false ->
  let pm' := noteSourcePathSendFailure pm dst source in
  (forall now rtt, (candidateScoreLocked k pm' dst source now rtt).2 = None)
  /\ (forall key st, flowMap pm' !! key = Some st <->
       flowMap pm !! key = Some st /\ ~ (fk_dst key = dst /\ fl_source st = source))
  /\ (forall dst' source' now rtt, (dst', source') <> (dst, source) ->
      (candidateScoreLocked k pm' dst' source' now rtt).2
      = (candidateScoreLocked k pm dst' source' now rtt).2).
Proof.
  intros Hp. unfold noteSourcePathSendFailure. rewrite Hp. split_and!.
  - intros. apply candidateScoreLocked_no_samples. unfold freshSamples. simpl.
    apply filter_filter_disjoint. unfold matches. naive_solver.
  - intros key st. simpl. by rewrite map_lookup_filter_Some.
  - intros dst' source' now rtt Hne. apply candidateScoreLocked_ext; [|done].
    unfold freshSamples. simpl. apply filter_filter_weaker. unfold matches.
    intros s [[<- <-] _] [E1 E2]. by rewrite E1, E2 in Hne.
Qed.
End FlowProps.

(** ** Witnesses *)
Definition ex_flow (n : Z) : sourcePathFlowKey := MkFlowKey ex_dst n.
Definition smallFlowKnobs : Knobs :=
  MkKnobs None None "" "" false 0 0 0 0 0 0 None 0 0 0 0 false 0 0 0 false None 0 "" 0 0 0 0
          "" 0 false "" 0 2 false 0 0 0 "" 0 0 "".
Definition ex_flows : sourcePathProbeManager :=
  set_flowMap zeroPM (<[ex_flow 1 := MkFlow ex_aux ex_t0]>
                      {[ex_flow 2 := MkFlow ex_aux2 (ex_t0 + 1)]}).

Lemma ex_flows_wf : pm_wf smallFlowKnobs (ex_t0 + 2) ex_flows.
Proof.
  split; match goal with
  | |- map_Forall _ (flowMap _) => idtac
  | |- map_Forall _ _ => apply map_Forall_empty
  | |- capped _ _ => intros _; vm_compute; congruence
  | |- 0 < _ -> _ => intros _; vm_compute; congruence
  | |- _ => idtac
  end.
  - unfold Mono.ok, ex_t0. lia.
  - constructor.
  - constructor.
  - apply map_Forall_insert_2; [|apply map_Forall_singleton]; simpl; unfold ex_t0; lia.
Qed.

Lemma assignFlowLocked_bounded_witness :
  flowMap (assignFlowLocked (H := canonical_range) smallFlowKnobs ex_flows (ex_flow 3) ex_aux
             (ex_t0 + 2)) !! ex_flow 3 = Some (MkFlow ex_aux (ex_t0 + 2))
  /\ flowMap (assignFlowLocked (H := canonical_range) smallFlowKnobs ex_flows (ex_flow 3) ex_aux
             (ex_t0 + 2)) !! ex_flow 1 = None.
Proof.
  split; [|vm_compute; reflexivity].
  apply (assignFlowLocked_bounded (H := canonical_range) smallFlowKnobs (ex_t0 + 2) ex_flows
    (ex_flow 3) ex_aux (ex_t0 + 2) ex_flows_wf). vm_compute. reflexivity.
Defined.

Lemma flow_sticky_witness :
  Forall (fun x : sourcePathFlowKey * option sourceRxMeta => x.1 = ex_flow 1 -> x.2 = Some ex_aux)
    (lookups defaultKnobs
      (assignFlowLocked (H := canonical_range) defaultKnobs zeroPM (ex_flow 1) ex_aux ex_t0)
      [(ex_flow 1, ex_t0 + 20 * Second); (ex_flow 2, ex_t0 + 30 * Second);
       (ex_flow 1, ex_t0 + 45 * Second)]).
Proof.
  apply Forall_forall. intros [key' r] Hin Hkey.
  refine (flow_sticky defaultKnobs (H := canonical_range) zeroPM (ex_flow 1) ex_aux ex_t0
            _ _ _ key' r Hin Hkey).
  - unfold ex_t0. lia.
  - vm_compute. repeat split; congruence.
Defined.

Lemma send_failure_quarantines_witness :
  (candidateScoreLocked (H := portable_platform) defaultKnobs
     (noteSourcePathSendFailure ex_pm ex_dst ex_aux) ex_dst ex_aux (ex_t0 + 1) 0).2 = None.
Proof.
  apply (send_failure_quarantines defaultKnobs (H := portable_platform) ex_pm ex_dst ex_aux eq_refl).
Defined.
