(* ===== verification/SourceSockets.v ===== *)
(** * The auxiliary source sockets ([sourcePathState], sourcepath_supported.go)

    Per address family one auxiliary socket plus a pool of extra ones, each with a
    stable identifier and the generation of its last bind. The operating system's
    answer to [listenPacket] is an argument, [listen]: the error for each socket id, if
    any. Closing errors are only logged and are not modelled. *)
From S2P Require Import Prelude Netip Knobs.

Definition error := string.
Definition errSourcePathUnavailable : error := "magicsock: source path unavailable".

(** What a [RebindingUDPConn] currently wraps. *)
Inductive pconn := PNil | PClosed | PBlockForever | PBound (network : string).
#[export] Instance pconn_eq_dec : EqDecision pconn.
Proof. solve_decision. Defined.

Record sourcePathSocket := MkSock { sk_id : Z; sk_generation : Z; sk_pconn : pconn }.
Definition zeroSock : sourcePathSocket := MkSock 0 0 PNil.

Record sourcePathState := MkSP {
  sp_generation : Z;
  aux4 : sourcePathSocket;
  aux6 : sourcePathSocket;
  aux4Bound : bool;
  aux6Bound : bool;
  extraAux4 : list sourcePathSocket;
  extraAux6 : list sourcePathSocket;
  extra4Bound : list bool;
  extra6Bound : list bool
}.
Definition zeroSP : sourcePathState := MkSP 0 zeroSock zeroSock false false [] [] [] [].

Definition setID (s : sourcePathSocket) (id : Z) : sourcePathSocket :=
  MkSock (uw 32 id) (sk_generation s) (sk_pconn s).
Definition rxMeta (s : sourcePathSocket) : sourceRxMeta := MkRxMeta (sk_id s) (sk_generation s).

Definition sourcePathAuxSocketID (is4 : bool) (index : Z) : Z :=
  if index =? 0 then (if is4 then sourceIPv4SocketID else sourceIPv6SocketID)
  else if is4 then uw 32 (sourceIPv4ExtraSocketIDBase + (index - 1))
  else uw 32 (sourceIPv6ExtraSocketIDBase + (index - 1)).

(** ** The slots of a family, in the order of [forEachSourcePathSocketLocked] *)
Definition slots (is4 : bool) (st : sourcePathState) : list (sourcePathSocket * bool) :=
  if is4 then (aux4 st, aux4Bound st) :: zip (extraAux4 st) (extra4Bound st)
  else (aux6 st, aux6Bound st) :: zip (extraAux6 st) (extra6Bound st).
Definition set_slots (is4 : bool) (st : sourcePathState) (l : list (sourcePathSocket * bool))
  : sourcePathState :=
  match l with
  | [] => st
  | (s, b) :: l =>
      if is4 then MkSP (sp_generation st) s (aux6 st) b (aux6Bound st) l.*1 (extraAux6 st)
                       l.*2 (extra6Bound st)
      else MkSP (sp_generation st) (aux4 st) s (aux4Bound st) b (extraAux4 st) l.*1
                (extra4Bound st) l.*2
  end.
(** [forEachSourcePathSocketLocked] with a callback that updates the slot. *)
Definition forEachSourcePathSocketLocked (is4 : bool)
    (fn : nat -> sourcePathSocket * bool -> sourcePathSocket * bool) (st : sourcePathState)
  : sourcePathState := set_slots is4 st (imap fn (slots is4 st)).
Definition set_generation (st : sourcePathState) (g : Z) : sourcePathState :=
  MkSP g (aux4 st) (aux6 st) (aux4Bound st) (aux6Bound st) (extraAux4 st) (extraAux6 st)
       (extra4Bound st) (extra6Bound st).

(** [ruc.Close()] and [ruc.closeLocked()]: a nil connection stays nil. *)
Definition closePConn (p : pconn) : pconn := match p with PNil => PNil | _ => PClosed end.
Definition with_pconn (s : sourcePathSocket) (p : pconn) : sourcePathSocket :=
  MkSock (sk_id s) (sk_generation s) p.

(** ** Sizing the pool *)

(** Truncates or extends the pool to [wantExtra] sockets. Dropped sockets are closed and
    leave the state; new ones are zero. *)
Definition resize {A} (zero : A) (wantExtra : nat) (l : list A) : list A :=
  take wantExtra l ++ replicate (wantExtra - length l) zero.
Definition ensureSourcePathAuxSocketCountLocked (count : Z) (st : sourcePathState)
  : sourcePathState :=
  let count := if count <? 1 then 1 else count in
  let count := if sourcePathMaxAuxSockets <? count then sourcePathMaxAuxSockets else count in
  let wantExtra := Z.to_nat (count - 1) in
  let ids is4 l := imap (fun i s => setID s (sourcePathAuxSocketID is4 (Z.of_nat i + 1))) l in
  MkSP (sp_generation st)
    (setID (aux4 st) (sourcePathAuxSocketID true 0))
    (setID (aux6 st) (sourcePathAuxSocketID false 0))
    (aux4Bound st) (aux6Bound st)
    (ids true (resize zeroSock wantExtra (extraAux4 st)))
    (ids false (resize zeroSock wantExtra (extraAux6 st)))
    (resize false wantExtra (extra4Bound st))
    (resize false wantExtra (extra6Bound st)).

(** ** Binding *)

(** [bindSourcePathSocketLocked]: closes the connection, then listens. *)
Definition bindSourcePathSocketLocked (err : option error) (network : string) (p : pconn)
  : pconn * option error :=
  let p := closePConn p in
  match err with
  | Some e => (p, Some e)
  | None => (PBound network, None)
  end.
Definition setSourcePathBlockForeverLocked (p : pconn) : pconn := PBlockForever.
Definition ensureSourcePathPConnLocked (p : pconn) : pconn :=
  match p with PNil => PBlockForever | _ => p end.
Definition closeSourcePathPConnLocked (p : pconn) : pconn := closePConn p.

(** One socket of a family or the target of a single rebind: takes the generation,
    binds, and falls back to a connection that blocks forever. *)
Definition bindSlot (gen : Z) (listen : Z -> option error) (network : string)
    (s : sourcePathSocket) : sourcePathSocket * bool * option error :=
  let s := MkSock (sk_id s) gen (sk_pconn s) in
  let '(p, err) := bindSourcePathSocketLocked (listen (sk_id s)) network (sk_pconn s) in
  match err with
  | None => (with_pconn s p, true, None)
  | Some e => (with_pconn s (setSourcePathBlockForeverLocked p), false, Some e)
  end.

Definition bindSourcePathSocketFamilyLocked (is4 : bool) (network : string)
    (listen : Z -> option error) (st : sourcePathState) : sourcePathState * option error :=
  let rs := (fun e => bindSlot (sp_generation st) listen network e.1) <$> slots is4 st in
  let st' := forEachSourcePathSocketLocked is4
               (fun _ e => (bindSlot (sp_generation st) listen network e.1).1) st in
  let firstErr := head (omap (fun r => r.2) rs) in
  let anyBound := existsb (fun r => r.1.2) rs in
  (st', if anyBound then None else firstErr).

(** [errors.Join] of two errors; nil if both are. *)
Definition sourcePathBindError (e4 e6 : option error) : list error := omap id [e4; e6].

Definition closeSourcePathSockets (st : sourcePathState) : sourcePathState :=
  let close (_ : nat) (e : sourcePathSocket * bool) :=
    (with_pconn e.1 (closeSourcePathPConnLocked (sk_pconn e.1)), false) in
  forEachSourcePathSocketLocked false close (forEachSourcePathSocketLocked true close st).

(** [rebindSourcePathSockets]; the flag says that the probe manager is cleared. *)
Definition rebindSourcePathSockets (k : Knobs) (listen : Z -> option error) (st : sourcePathState)
  : sourcePathState * bool * list error :=
  let count := sourcePathAuxSocketCount k in
  if count =? 0 then (closeSourcePathSockets st, true, [])
  else
    let st := ensureSourcePathAuxSocketCountLocked count st in
    let st := set_generation st (uw 64 (sp_generation st + 1)) in
    let '(st, err4) := bindSourcePathSocketFamilyLocked true "udp4" listen st in
    let '(st, err6) := bindSourcePathSocketFamilyLocked false "udp6" listen st in
    (st, false, sourcePathBindError err4 err6).

(** ** Finding a socket *)

(** The slot of an identifier: its family and index in [slots]. *)
Definition sourcePathSocketSlotLocked (id : Z) (st : sourcePathState) : option (bool * nat) :=
  let in_pool base l := (base <=? id) && (id <? base + sourcePathMaxAuxSockets)
                        && (Z.to_nat (id - base) <? length l)%nat in
  if id =? sourceIPv4SocketID then Some (true, 0%nat)
  else if id =? sourceIPv6SocketID then Some (false, 0%nat)
  else if in_pool sourceIPv4ExtraSocketIDBase (extraAux4 st)
  then Some (true, S (Z.to_nat (id - sourceIPv4ExtraSocketIDBase)))
  else if in_pool sourceIPv6ExtraSocketIDBase (extraAux6 st)
  then Some (false, S (Z.to_nat (id - sourceIPv6ExtraSocketIDBase)))
  else None.
Definition familyNetwork (is4 : bool) : string := if is4 then "udp4" else "udp6".

Record rebindResult := MkRebind { rb_source : sourceRxMeta; rb_rebound : bool; rb_err : option error }.

Definition rebindSourcePathSocket (k : Knobs) (listen : Z -> option error) (source : sourceRxMeta)
    (st : sourcePathState) : sourcePathState * rebindResult :=
  let unavailable := MkRebind (MkRxMeta 0 0) false (Some errSourcePathUnavailable) in
  if (sourcePathAuxSocketCount k =? 0) || isPrimary source then (st, unavailable)
  else
    match sourcePathSocketSlotLocked (socketID source) st with
    | None => (st, unavailable)
    | Some (is4, i) =>
        match slots is4 st !! i with
        | None => (st, unavailable)
        | Some (target, _) =>
            let current := rxMeta target in
            if negb (bool_decide (source = current)) then (st, MkRebind current false None)
            else
              let st := set_generation st (uw 64 (sp_generation st + 1)) in
              let '(target, bound, err) :=
                bindSlot (sp_generation st) listen (familyNetwork is4) target in
              (set_slots is4 st (<[i := (target, bound)]> (slots is4 st)),
               MkRebind (rxMeta target) true err)
        end
    end.

(** ** Reading the sockets *)
Definition boundMetas (is4 : bool) (st : sourcePathState) : list sourceRxMeta :=
  omap (fun e : sourcePathSocket * bool => if e.2 then Some (rxMeta e.1) else None) (slots is4 st).
Definition sourcePathProbeSources (k : Knobs) (is4 : bool) (st : sourcePathState)
  : list sourceRxMeta :=
  if sourcePathAuxSocketCount k =? 0 then [] else boundMetas is4 st.

Definition sourcePathForcedDataSendSource (dst : epAddr) (st : sourcePathState) : sourceRxMeta :=
  let source := foldl (fun source (e : sourcePathSocket * bool) =>
      if isPrimary source && e.2 then rxMeta e.1 else source)
    (MkRxMeta 0 0) (slots (Is4 (ip (ap dst))) st) in
  if isPrimary source then primarySourceRxMeta else source.

Definition sourcePathSourceAvailable (k : Knobs) (dst : epAddr) (source : sourceRxMeta)
    (st : sourcePathState) : bool :=
  if isPrimary source || negb (isDirect dst) then isPrimary source
  else existsb (fun c => bool_decide (c = source)) (sourcePathProbeSources k (Is4 (ip (ap dst))) st).

(** The socket a write goes out of: the first bound slot of the destination's family
    with this identity ([sourcePathWriteWireGuardBatchTo], [sourcePathWriteTo]). *)
Definition writeSlot (source : sourceRxMeta) (is4 : bool) (st : sourcePathState)
  : option sourcePathSocket :=
  foldl (fun ruc (e : sourcePathSocket * bool) =>
    match ruc with
    | Some _ => ruc
    | None => if e.2 && bool_decide (source = rxMeta e.1) then Some e.1 else None
    end) None (slots is4 st).

(** [sourcePathReceiveFuncs]: sizes the pool and gives every socket a connection; the
    receive functions are represented by the identities of their sockets. *)
Definition sourcePathReceiveFuncs (k : Knobs) (st : sourcePathState)
  : sourcePathState * list sourceRxMeta :=
  let count := sourcePathAuxSocketCount k in
  if count =? 0 then (st, [])
  else
    let st := ensureSourcePathAuxSocketCountLocked count st in
    let ensure (_ : nat) (e : sourcePathSocket * bool) :=
      (with_pconn e.1 (ensureSourcePathPConnLocked (sk_pconn e.1)), e.2) in
    let st := forEachSourcePathSocketLocked true ensure st in
    let st := forEachSourcePathSocketLocked false ensure st in
    (st, (fun e : sourcePathSocket * bool => rxMeta e.1) <$> (slots true st ++ slots false st)).

(** ** Operations as steps *)
Inductive sp_op :=
  | OpReceiveFuncs (k : Knobs)
  | OpRebindAll (k : Knobs) (listen : Z -> option error)
  | OpRebindOne (k : Knobs) (listen : Z -> option error) (source : sourceRxMeta)
  | OpClose.
Definition sp_exec (st : sourcePathState) (op : sp_op) : sourcePathState :=
  match op with
  | OpReceiveFuncs k => (sourcePathReceiveFuncs k st).1
  | OpRebindAll k listen => (rebindSourcePathSockets k listen st).1.1
  | OpRebindOne k listen source => (rebindSourcePathSocket k listen source st).1
  | OpClose => closeSourcePathSockets st
  end.
Definition sp_run (st : sourcePathState) (ops : list sp_op) : sourcePathState :=
  foldl sp_exec st ops.

(** ** Well-formedness *)

(** The [i]-th slot of a family: its identifier is the one of its position (or it was
    never initialised), its generation is one already given out, and it is marked bound
    only while it wraps a socket of its network. *)
Definition slot_ok (is4 : bool) (g : Z) (i : nat) (e : sourcePathSocket * bool) : Prop :=
  (sk_id e.1 = sourcePathAuxSocketID is4 (Z.of_nat i) \/ (sk_id e.1 = 0 /\ e.2 = false))
  /\ 0 <= sk_generation e.1 <= g
  /\ (e.2 = true -> sk_pconn e.1 = PBound (familyNetwork is4) /\ 0 < sk_generation e.1).

Record sp_wf (st : sourcePathState) : Prop := {
  spw_gen : 0 <= sp_generation st;
  spw_len4 : length (extraAux4 st) = length (extra4Bound st);
  spw_len6 : length (extraAux6 st) = length (extra6Bound st);
  spw_max : forall is4, (length (slots is4 st) <= 32)%nat;
  spw_slots : forall is4 i e, slots is4 st !! i = Some e -> slot_ok is4 (sp_generation st) i e
}.

(** ** Slots *)
Lemma slots_nonempty is4 st : slots is4 st <> [].
Proof. by destruct is4. Qed.

Lemma slots_set_same is4 st l : l <> [] -> slots is4 (set_slots is4 st l) = l.
Proof. destruct l as [|[s b] l]; [done|]. intros _. destruct is4; simpl; by rewrite zip_fst_snd. Qed.

Lemma slots_set_other is4 st l : slots (negb is4) (set_slots is4 st l) = slots (negb is4) st.
Proof. destruct l as [|[s b] l]; [done|]. by destruct is4. Qed.

Lemma slots_set_generation is4 st g : slots is4 (set_generation st g) = slots is4 st.
Proof. by destruct is4. Qed.

#[local] Arguments slots : simpl never.

Lemma sp_generation_set is4 st l : sp_generation (set_slots is4 st l) = sp_generation st.
Proof. destruct l as [|[s b] l]; [done|]. by destruct is4. Qed.

Lemma slots_forEach is4 is4' fn st :
  slots is4 (forEachSourcePathSocketLocked is4' fn st)
  = if decide (is4 = is4') then imap fn (slots is4 st) else slots is4 st.
Proof.
  unfold forEachSourcePathSocketLocked. destruct (decide (is4 = is4')) as [->|Hne].
  - apply slots_set_same. pose proof (slots_nonempty is4' st). by destruct (slots is4' st).
  - replace is4 with (negb is4') by (by destruct is4, is4'). apply slots_set_other.
Qed.

Lemma sp_wf_set_slots is4 st l :
  sp_wf st -> l <> [] -> (length l <= 32)%nat ->
  (forall i e, l !! i = Some e -> slot_ok is4 (sp_generation st) i e) ->
  sp_wf (set_slots is4 st l).
Proof.
  intros [Hg H4 H6 Hm Hs] Hl Hlen Hok. split.
  - by rewrite sp_generation_set.
  - destruct l as [|[s b] l]; [done|]. destruct is4; simpl; [by rewrite !length_fmap|done].
  - destruct l as [|[s b] l]; [done|]. destruct is4; simpl; [done|by rewrite !length_fmap].
  - intros b. destruct (decide (b = is4)) as [->|]; [by rewrite slots_set_same|].
    replace b with (negb is4) by (by destruct b, is4). rewrite slots_set_other. apply Hm.
  - intros b. rewrite sp_generation_set.
    destruct (decide (b = is4)) as [->|]; [by rewrite slots_set_same|].
    replace b with (negb is4) by (by destruct b, is4). rewrite slots_set_other. apply Hs.
Qed.

Lemma sp_wf_forEach is4 fn st :
  sp_wf st ->
  (forall i e, slot_ok is4 (sp_generation st) i e -> slot_ok is4 (sp_generation st) i (fn i e)) ->
  sp_wf (forEachSourcePathSocketLocked is4 fn st).
Proof.
  intros Hwf Hfn. apply sp_wf_set_slots; [done|..].
  - pose proof (slots_nonempty is4 st). by destruct (slots is4 st).
  - rewrite length_imap. apply Hwf.
  - intros i e. rewrite list_lookup_imap. intros (e' & He' & ->)%fmap_Some.
    apply Hfn. by apply spw_slots.
Qed.

Lemma sp_wf_set_generation st g : sp_generation st <= g -> sp_wf st -> sp_wf (set_generation st g).
Proof.
  intros Hg [Hg0 H4 H6 Hm Hs]. split; simpl; [lia|done|done|..]; intros is4.
  - rewrite slots_set_generation. apply Hm.
  - intros i e. rewrite slots_set_generation. intros He. destruct (Hs is4 i e He) as (? & ? & ?).
    split_and!; [done|lia|lia|done].
Qed.

(** ** Identifiers *)
Lemma sourcePathAuxSocketID_eq is4 i :
  0 <= i < 32 ->
  sourcePathAuxSocketID is4 i
  = if i =? 0 then (if is4 then 1 else 2) else (if is4 then 99 else 199) + i.
Proof.
  intros Hi. unfold sourcePathAuxSocketID, sourceIPv4SocketID, sourceIPv6SocketID,
    sourceIPv4ExtraSocketIDBase, sourceIPv6ExtraSocketIDBase.
  destruct (i =? 0); [done|]. destruct is4; rewrite uw_small; lia.
Qed.

Lemma sourcePathAuxSocketID_pos is4 i : 0 <= i < 32 -> 0 < sourcePathAuxSocketID is4 i < 2 ^ 32.
Proof. intros. rewrite sourcePathAuxSocketID_eq by done. destruct (Z.eqb_spec i 0), is4; lia. Qed.

Lemma sourcePathAuxSocketID_inj is4 i is4' j :
  0 <= i < 32 -> 0 <= j < 32 ->
  sourcePathAuxSocketID is4 i = sourcePathAuxSocketID is4' j -> is4 = is4' /\ i = j.
Proof.
  intros Hi Hj. rewrite !sourcePathAuxSocketID_eq by done.
  destruct (Z.eqb_spec i 0), (Z.eqb_spec j 0), is4, is4'; intros; split; try done; lia.
Qed.

(** ** Resizing *)
Lemma length_resize {A} (z : A) n l : length (resize z n l) = n.
Proof. unfold resize. rewrite length_app, length_take, length_replicate. lia. Qed.

Lemma lookup_resize {A} (z : A) n l i x :
  resize z n l !! i = Some x -> (i < n)%nat /\ (l !! i = Some x \/ x = z).
Proof.
  intros Hx. pose proof (lookup_lt_Some _ _ _ Hx) as Hi. rewrite length_resize in Hi.
  split; [done|]. unfold resize in Hx. apply lookup_app_Some in Hx as [Hx|[_ Hx]].
  - left. by apply lookup_take_Some in Hx as [? _].
  - right. by apply lookup_replicate in Hx as [-> _].
Qed.

Lemma zip_resize {A B} (a : A) (b : B) n l l' :
  length l = length l' -> zip (resize a n l) (resize b n l') = resize (a, b) n (zip l l').
Proof.
  intros Hl. unfold resize. rewrite zip_with_app by (rewrite !length_take; lia).
  rewrite length_zip_with, <- Hl, Nat.min_id, zip_with_replicate.
  f_equal. symmetry. apply zip_with_take.
Qed.

Lemma zip_imap_l {A B C} (f : nat -> A -> B) (l : list A) (l' : list C) :
  zip (imap f l) l' = imap (fun i e => (f i e.1, e.2)) (zip l l').
Proof.
  revert f l'. induction l as [|x l IH]; intros f [|y l']; simpl; [done..|]. f_equal. apply IH.
Qed.

Definition clampCount (count : Z) : Z :=
  let count := if count <? 1 then 1 else count in
  if sourcePathMaxAuxSockets <? count then sourcePathMaxAuxSockets else count.
Lemma clampCount_range count : 1 <= clampCount count <= 32.
Proof. unfold clampCount, sourcePathMaxAuxSockets. repeat case_match; bool_props; lia. Qed.

(** The slots of a family after sizing. *)
Lemma slots_ensure is4 count st :
  sp_wf st ->
  slots is4 (ensureSourcePathAuxSocketCountLocked count st)
  = imap (fun i e => (setID e.1 (sourcePathAuxSocketID is4 (Z.of_nat i)), e.2))
      (match slots is4 st with
       | [] => []
       | e :: l => e :: resize (zeroSock, false) (Z.to_nat (clampCount count - 1)) l
       end).
Proof.
  intros [_ H4 H6 _ _]. destruct is4; unfold slots; cbn [ensureSourcePathAuxSocketCountLocked aux4 aux6
    aux4Bound aux6Bound extraAux4 extraAux6 extra4Bound extra6Bound imap fst snd];
    fold (clampCount count); f_equal; rewrite zip_imap_l, zip_resize by done;
    apply imap_ext; intros i e _; simpl; do 3 f_equal; lia.
Qed.

(** ** Preservation and freshness *)

(** [fresh_over st st']: a bound socket of [st'] either was bound with the same identity
    in [st] or carries a generation [st] had not given out yet. *)
Definition fresh_over (st st' : sourcePathState) : Prop :=
  sp_generation st <= sp_generation st' <= sp_generation st + 1
  /\ forall is4 m, m ∈ boundMetas is4 st' ->
     m ∈ boundMetas is4 st \/ sp_generation st < generation m.

Lemma elem_of_boundMetas is4 st m :
  m ∈ boundMetas is4 st <-> exists i s, slots is4 st !! i = Some (s, true) /\ rxMeta s = m.
Proof.
  unfold boundMetas. rewrite list_elem_of_omap. split.
  - intros ([s b] & Hin & E). apply list_elem_of_lookup in Hin as [i Hi].
    destruct b; [|done]. injection E as <-. eauto.
  - intros (i & s & Hi & <-). exists (s, true). split; [by eapply list_elem_of_lookup_2|done].
Qed.

(** A step that changes each bound slot of a family in place, keeping the identity of
    those that stay bound. *)
Lemma fresh_over_forEach is4 fn st :
  (forall i e, slots is4 st !! i = Some e -> (fn i e).2 = true ->
     (e.2 = true /\ rxMeta (fn i e).1 = rxMeta e.1)) ->
  fresh_over st (forEachSourcePathSocketLocked is4 fn st).
Proof.
  intros Hfn. split; [unfold forEachSourcePathSocketLocked; rewrite sp_generation_set; lia|].
  intros b m. rewrite !elem_of_boundMetas. intros (i & s & Hi & <-). left.
  rewrite slots_forEach in Hi. destruct (decide (b = is4)) as [->|]; [|eauto].
  rewrite list_lookup_imap in Hi. apply fmap_Some in Hi as ([s0 b0] & Hi & E).
  destruct (Hfn i (s0, b0) Hi) as [Hb Hm]; [by rewrite <- E|]. simpl in *. subst b0.
  exists i, s0. split; [done|]. rewrite <- Hm, <- E. done.
Qed.

Lemma setID_ok is4 g i e :
  (i < 32)%nat -> slot_ok is4 g i e ->
  slot_ok is4 g i (setID e.1 (sourcePathAuxSocketID is4 (Z.of_nat i)), e.2)
  /\ (e.2 = true -> rxMeta (setID e.1 (sourcePathAuxSocketID is4 (Z.of_nat i))) = rxMeta e.1).
Proof.
  intros Hi (Hid & Hgen & Hb). pose proof (sourcePathAuxSocketID_pos is4 (Z.of_nat i) ltac:(lia)).
  unfold slot_ok, setID, rxMeta. simpl. rewrite uw_small by lia. split_and!; try done; [by left|lia|lia|].
  intros Ht. destruct Hid as [->|[_ ?]]; [done|congruence].
Qed.

Lemma ensure_lookup is4 count st i e :
  sp_wf st -> slots is4 (ensureSourcePathAuxSocketCountLocked count st) !! i = Some e ->
  (i < 32)%nat /\ exists e0, (slots is4 st !! i = Some e0 \/ e0 = (zeroSock, false))
    /\ e = (setID e0.1 (sourcePathAuxSocketID is4 (Z.of_nat i)), e0.2).
Proof.
  intros Hwf. rewrite slots_ensure by done. rewrite list_lookup_imap.
  intros (e0 & He0 & ->)%fmap_Some. pose proof (clampCount_range count).
  pose proof (slots_nonempty is4 st). destruct (slots is4 st) as [|e1 l] eqn:E; [done|].
  destruct i as [|i]; simpl in He0.
  - injection He0 as ->. split; [lia|]. exists e0. auto.
  - apply lookup_resize in He0 as [Hi He0]. split; [lia|]. exists e0. auto.
Qed.

Lemma zero_slot_ok is4 g i : 0 <= g -> slot_ok is4 g i (zeroSock, false).
Proof. intros. split_and!; simpl; [by right|lia|lia|done]. Qed.

Lemma ensure_wf count st :
  sp_wf st ->
  sp_wf (ensureSourcePathAuxSocketCountLocked count st)
  /\ fresh_over st (ensureSourcePathAuxSocketCountLocked count st).
Proof.
  intros Hwf. pose proof (clampCount_range count) as Hc. split; [split|split].
  - apply Hwf.
  - simpl. by rewrite length_imap, !length_resize.
  - simpl. by rewrite length_imap, !length_resize.
  - intros is4. rewrite slots_ensure by done. rewrite length_imap.
    destruct (slots is4 st); simpl; [lia|]. rewrite length_resize. lia.
  - intros is4 i e He. apply ensure_lookup in He as (Hi & e0 & He0 & ->); [|done].
    apply setID_ok; [done|].
    destruct He0 as [He0| ->]; [by apply (spw_slots st Hwf)|apply zero_slot_ok, Hwf].
  - simpl. lia.
  - intros is4 m. rewrite !elem_of_boundMetas. intros (i & s & Hi & <-). left.
    apply ensure_lookup in Hi as (Hi & [s0 b0] & He0 & E); [|done]. simpl in E.
    injection E as -> <-. destruct He0 as [He0|?]; [|done]. exists i, s0. split; [done|].
    symmetry. exact (proj2 (setID_ok is4 _ i (s0, true) Hi (spw_slots _ Hwf _ _ _ He0)) eq_refl).
Qed.

Lemma fresh_over_trans_same st st1 st2 :
  fresh_over st st1 -> sp_generation st1 = sp_generation st \/ sp_generation st2 = sp_generation st1 ->
  fresh_over st1 st2 -> fresh_over st st2.
Proof.
  intros [Hg1 H1] Hs [Hg2 H2]. split; [lia|]. intros is4 m Hm.
  destruct (H2 is4 m Hm) as [Hm1|?]; [|right; lia]. destruct (H1 is4 m Hm1); [by left|right; lia].
Qed.

Lemma close_wf st : sp_wf st -> sp_wf (closeSourcePathSockets st).
Proof.
  intros Hwf. unfold closeSourcePathSockets.
  apply sp_wf_forEach; [apply sp_wf_forEach; [done|]|];
    intros i e (Hid & Hgen & _); (split; [|split; [exact Hgen|done]]); simpl;
    destruct Hid as [?|[? _]]; auto.
Qed.

Lemma close_no_sources is4 st : boundMetas is4 (closeSourcePathSockets st) = [].
Proof.
  apply elem_of_nil_inv. intros m. rewrite elem_of_boundMetas. intros (i & s & Hi & _).
  unfold closeSourcePathSockets in Hi. rewrite !slots_forEach in Hi.
  destruct (decide (is4 = false)), (decide (is4 = true)); [congruence|..|by destruct is4];
    rewrite list_lookup_imap in Hi; apply fmap_Some in Hi as (e0 & _ & ?); done.
Qed.

Lemma bindSlot_spec gen listen network s :
  let r := bindSlot gen listen network s in
  sk_id r.1.1 = sk_id s /\ sk_generation r.1.1 = gen
  /\ r.1.2 = bool_decide (listen (sk_id s) = None) /\ r.2 = listen (sk_id s)
  /\ sk_pconn r.1.1 = if decide (listen (sk_id s) = None) then PBound network else PBlockForever.
Proof. unfold bindSlot, bindSourcePathSocketLocked. simpl. by destruct (listen (sk_id s)). Qed.

Lemma bindSlot_ok is4 g listen i s b :
  0 < g -> sk_id s = sourcePathAuxSocketID is4 (Z.of_nat i) \/ sk_id s = 0 ->
  slot_ok is4 g i (s, b) -> sk_id s <> 0 ->
  slot_ok is4 g i (bindSlot g listen (familyNetwork is4) s).1.
Proof.
  intros Hg Hid Hok Hne. destruct (bindSlot_spec g listen (familyNetwork is4) s) as (E1 & E2 & E3 & _ & E4).
  unfold slot_ok. rewrite E1, E2, E3, E4. split_and!; [|lia|lia|].
  - destruct Hid; [by left|done].
  - intros ?%bool_decide_eq_true. rewrite decide_True by done. split; [done|lia].
Qed.

Definition initialised (st : sourcePathState) : Prop :=
  forall is4 i e, slots is4 st !! i = Some e -> sk_id e.1 = sourcePathAuxSocketID is4 (Z.of_nat i).

Lemma ensure_initialised count st :
  sp_wf st -> initialised (ensureSourcePathAuxSocketCountLocked count st).
Proof.
  intros Hwf is4 i e He. apply ensure_lookup in He as (Hi & e0 & _ & ->); [|done]. simpl.
  apply uw_small. pose proof (sourcePathAuxSocketID_pos is4 (Z.of_nat i)). lia.
Qed.

Lemma slots_bindFamily is4 is4' listen st :
  slots is4 (bindSourcePathSocketFamilyLocked is4' (familyNetwork is4') listen st).1
  = if decide (is4 = is4')
    then (fun e => (bindSlot (sp_generation st) listen (familyNetwork is4') e.1).1) <$> slots is4 st
    else slots is4 st.
Proof.
  unfold bindSourcePathSocketFamilyLocked. cbn [fst]. rewrite slots_forEach.
  destruct (decide _); [|done]. apply list_eq. intros i.
  by rewrite list_lookup_imap, list_lookup_fmap.
Qed.

Lemma bindFamily_wf is4 listen st :
  sp_wf st -> initialised st -> 0 < sp_generation st ->
  let st' := (bindSourcePathSocketFamilyLocked is4 (familyNetwork is4) listen st).1 in
  sp_wf st' /\ initialised st' /\ sp_generation st' = sp_generation st.
Proof.
  intros Hwf Hin Hg. cbv zeta.
  assert (forall i e, slots is4 st !! i = Some e ->
    slot_ok is4 (sp_generation st) i
      (bindSlot (sp_generation st) listen (familyNetwork is4) e.1).1) as Hok.
  { intros i [s b] He. pose proof (lookup_lt_Some _ _ _ He).
    pose proof (spw_max _ Hwf is4). pose proof (Hin _ _ _ He) as Hid. simpl in *.
    pose proof (sourcePathAuxSocketID_pos is4 (Z.of_nat i)).
    eapply bindSlot_ok; [done|by left|by apply (spw_slots _ Hwf)|lia]. }
  split_and!.
  - apply sp_wf_set_slots; [done|..].
    + pose proof (slots_nonempty is4 st). by destruct (slots is4 st).
    + rewrite length_imap. apply Hwf.
    + intros i e. rewrite list_lookup_imap. intros (e' & He' & ->)%fmap_Some. by apply Hok.
  - intros b i e. rewrite slots_bindFamily. destruct (decide _) as [->|]; [|apply Hin].
    rewrite list_lookup_fmap. intros (e' & He' & ->)%fmap_Some.
    rewrite (proj1 (bindSlot_spec _ _ _ _)). by apply Hin.
  - unfold bindSourcePathSocketFamilyLocked, forEachSourcePathSocketLocked. simpl.
    apply sp_generation_set.
Qed.

(** The state after a complete rebind, family by family. *)
Lemma rebindAll_slots k listen st :
  sp_wf st -> sourcePathAuxSocketCount k <> 0 -> sp_generation st + 1 < 2 ^ 64 ->
  let st' := (rebindSourcePathSockets k listen st).1.1 in
  sp_wf st' /\ initialised st' /\ sp_generation st' = sp_generation st + 1
  /\ forall is4, slots is4 st'
     = (fun e => (bindSlot (sp_generation st + 1) listen (familyNetwork is4) e.1).1)
       <$> slots is4 (ensureSourcePathAuxSocketCountLocked (sourcePathAuxSocketCount k) st).
Proof.
  intros Hwf Hk Hg. unfold rebindSourcePathSockets. rewrite (proj2 (Z.eqb_neq _ _) Hk).
  destruct (ensure_wf (sourcePathAuxSocketCount k) st Hwf) as [Hwf1 _].
  pose proof (ensure_initialised (sourcePathAuxSocketCount k) st Hwf) as Hin1.
  set (st1 := ensureSourcePathAuxSocketCountLocked (sourcePathAuxSocketCount k) st) in *.
  assert (sp_generation st1 = sp_generation st) as Hg1 by done.
  pose proof (spw_gen _ Hwf) as Hg0. rewrite uw_small by lia. cbv zeta.
  set (st2 := set_generation st1 (sp_generation st1 + 1)).
  assert (sp_wf st2) as Hwf2 by (apply sp_wf_set_generation; [lia|done]).
  assert (initialised st2) as Hin2.
  { intros is4 i e. unfold st2. rewrite slots_set_generation. apply Hin1. }
  destruct (bindFamily_wf true listen st2) as (Hwf3 & Hin3 & Hg3); [done|done|simpl; lia|].
  pose proof (slots_bindFamily true true listen st2) as S4.
  pose proof (slots_bindFamily false true listen st2) as S6.
  change "udp4"%string with (familyNetwork true). change "udp6"%string with (familyNetwork false).
  destruct (bindSourcePathSocketFamilyLocked true _ listen st2) as [st3 err4].
  cbn [fst] in Hwf3, Hin3, Hg3, S4, S6.
  change (sp_generation st2) with (sp_generation st + 1) in *.
  destruct (bindFamily_wf false listen st3) as (Hwf4 & Hin4 & Hg4); [done|done|lia|].
  pose proof (slots_bindFamily true false listen st3) as S4'.
  pose proof (slots_bindFamily false false listen st3) as S6'.
  destruct (bindSourcePathSocketFamilyLocked false _ listen st3) as [st4 err6].
  cbn [fst] in *.
  split_and!; [done|done|lia|]. intros [].
  - rewrite S4', decide_False, S4, decide_True by done. reflexivity.
  - rewrite S6', decide_True, Hg3, S6, decide_False by done. reflexivity.
Qed.

(** A rebind of one socket either leaves the state alone or replaces one slot. *)
Lemma rebindOne_cases k listen source st :
  sp_wf st -> sp_generation st + 1 < 2 ^ 64 ->
  let r := rebindSourcePathSocket k listen source st in
  (r.1 = st /\ rb_rebound r.2 = false)
  \/ exists is4 i s b, slots is4 st !! i = Some (s, b) /\ rxMeta s = source /\ isPrimary source = false
     /\ let bs := bindSlot (sp_generation st + 1) listen (familyNetwork is4) s in
        r = (set_slots is4 (set_generation st (sp_generation st + 1))
               (<[i := bs.1]> (slots is4 st)),
             MkRebind (rxMeta bs.1.1) true bs.2).
Proof.
  intros Hwf Hg. cbv zeta. unfold rebindSourcePathSocket.
  destruct (_ || isPrimary source) eqn:E; [by left|]. bool_props.
  destruct (sourcePathSocketSlotLocked _ st) as [[is4 i]|]; [|by left].
  destruct (slots is4 st !! i) as [[s b]|] eqn:Hi; [|by left].
  destruct (negb _) eqn:Em; [by left|]. bool_props. right.
  exists is4, i, s, b. split_and!; [done|done|done|].
  pose proof (spw_gen _ Hwf). rewrite uw_small by lia.
  change (sp_generation (set_generation st (sp_generation st + 1))) with (sp_generation st + 1).
  destruct (bindSlot _ listen (familyNetwork is4) s) as [[s' b'] err].
  by rewrite slots_set_generation.
Qed.

Lemma rebindOne_wf k listen source st :
  sp_wf st -> sp_generation st + 1 < 2 ^ 64 ->
  sp_wf (rebindSourcePathSocket k listen source st).1
  /\ fresh_over st (rebindSourcePathSocket k listen source st).1.
Proof.
  intros Hwf Hg. destruct (rebindOne_cases k listen source st Hwf Hg) as [[-> _]|Hc].
  { split; [done|]. split; [lia|]. auto. }
  destruct Hc as (is4 & i & s & b & Hi & Hs & Hp & ->). cbn [fst].
  pose proof (spw_gen _ Hwf) as Hg0. pose proof (spw_slots _ Hwf _ _ _ Hi) as Hok.
  assert (sk_id s <> 0) as Hne.
  { rewrite <- Hs in Hp. unfold isPrimary, rxMeta, primarySourceSocketID in Hp. simpl in Hp. bool_props. done. }
  set (st1 := set_generation st (sp_generation st + 1)).
  assert (sp_wf st1) as Hwf1 by (apply sp_wf_set_generation; [lia|done]).
  set (bs := (bindSlot (sp_generation st + 1) listen (familyNetwork is4) s).1).
  assert (<[i := bs]> (slots is4 st) <> []) as Hne'.
  { pose proof (slots_nonempty is4 st). destruct (slots is4 st), i; done. }
  assert (slot_ok is4 (sp_generation st1) i bs) as Hbs.
  { apply (bindSlot_ok is4 _ listen i s b); simpl; [lia| |exact (spw_slots _ Hwf1 _ _ _ Hi)|done].
    destruct Hok as ([?|[? _]] & _); auto. }
  split.
  - apply sp_wf_set_slots; [done|done|rewrite length_insert; apply Hwf|].
    intros j e. rewrite list_lookup_insert_Some. intros [(<- & <- & _)|[_ Hj]]; [done|].
    exact (spw_slots _ Hwf1 _ _ _ Hj).
  - split; [rewrite sp_generation_set; simpl; lia|].
    intros f m. rewrite !elem_of_boundMetas. intros (j & s' & Hj & <-).
    destruct (decide (f = is4)) as [->|Hf].
    + rewrite slots_set_same in Hj by done. apply list_lookup_insert_Some in Hj as [(<- & Hb & _)|[_ Hj]].
      * right. unfold rxMeta. simpl. pose proof (bindSlot_spec (sp_generation st + 1) listen (familyNetwork is4) s)
          as (_ & Hgen & _). fold bs in Hgen. rewrite Hb in Hgen. simpl in Hgen. lia.
      * left. eauto.
    + replace f with (negb is4) in Hj by (by destruct f, is4). rewrite slots_set_other in Hj.
      replace (negb is4) with f in Hj by (by destruct f, is4). unfold st1 in Hj.
      rewrite slots_set_generation in Hj. left. eauto.
Qed.

Lemma receive_wf k st :
  sp_wf st -> sp_wf (sourcePathReceiveFuncs k st).1 /\ fresh_over st (sourcePathReceiveFuncs k st).1.
Proof.
  intros Hwf. unfold sourcePathReceiveFuncs. destruct (_ =? 0).
  { split; [done|]. split; [simpl; lia|]. auto. }
  cbn [fst]. destruct (ensure_wf (sourcePathAuxSocketCount k) st Hwf) as [Hwf1 Hf1].
  set (st1 := ensureSourcePathAuxSocketCountLocked (sourcePathAuxSocketCount k) st) in *.
  set (fn := fun (_ : nat) (e : sourcePathSocket * bool) =>
    (with_pconn e.1 (ensureSourcePathPConnLocked (sk_pconn e.1)), e.2)).
  assert (forall is4 g i e, slot_ok is4 g i e -> slot_ok is4 g i (fn i e)) as Hfn.
  { intros is4 g i [s b] (Hid & Hgen & Hb). split; [done|split; [done|]]. simpl in *.
    intros Ht. destruct (Hb Ht) as [-> ?]. done. }
  assert (forall is4 st0, fresh_over st0 (forEachSourcePathSocketLocked is4 fn st0)) as Hfr.
  { intros. apply fresh_over_forEach. intros i e _ He. done. }
  assert (forall is4 st0, sp_generation (forEachSourcePathSocketLocked is4 fn st0) = sp_generation st0)
    as Hgen by (intros; apply sp_generation_set).
  split.
  - apply sp_wf_forEach; [apply sp_wf_forEach; [done|auto]|auto].
  - eapply fresh_over_trans_same; [|right|apply Hfr]; [|apply Hgen].
    eapply fresh_over_trans_same; [exact Hf1|right|apply Hfr]. apply Hgen.
Qed.

Lemma close_fresh st : fresh_over st (closeSourcePathSockets st).
Proof.
  split; [|intros is4 m; by rewrite close_no_sources, elem_of_nil].
  unfold closeSourcePathSockets, forEachSourcePathSocketLocked. rewrite !sp_generation_set. lia.
Qed.

Lemma rebindAll_wf k listen st :
  sp_wf st -> sp_generation st + 1 < 2 ^ 64 ->
  sp_wf (rebindSourcePathSockets k listen st).1.1
  /\ fresh_over st (rebindSourcePathSockets k listen st).1.1.
Proof.
  intros Hwf Hg. destruct (decide (sourcePathAuxSocketCount k = 0)) as [E|E].
  { unfold rebindSourcePathSockets. rewrite E. simpl. split; [by apply close_wf|apply close_fresh]. }
  destruct (rebindAll_slots k listen st Hwf E Hg) as (Hwf' & _ & Hg' & Hs).
  split; [done|]. split; [lia|]. intros is4 m. rewrite elem_of_boundMetas.
  intros (i & s & Hi & <-). right. rewrite Hs, list_lookup_fmap in Hi.
  apply fmap_Some in Hi as (e & _ & Ee).
  pose proof (bindSlot_spec (sp_generation st + 1) listen (familyNetwork is4) e.1) as (_ & Hgen & _).
  rewrite <- Ee in Hgen. unfold rxMeta. simpl in *. lia.
Qed.

Lemma sp_exec_wf st op :
  sp_wf st -> sp_generation st + 1 < 2 ^ 64 -> sp_wf (sp_exec st op) /\ fresh_over st (sp_exec st op).
Proof.
  intros Hwf Hg. destruct op; simpl.
  - by apply receive_wf.
  - by apply rebindAll_wf.
  - by apply rebindOne_wf.
  - split; [by apply close_wf|apply close_fresh].
Qed.

Lemma sp_run_wf st ops :
  sp_wf st -> sp_generation st + Z.of_nat (length ops) < 2 ^ 64 ->
  sp_wf (sp_run st ops) /\ sp_generation st <= sp_generation (sp_run st ops)
  /\ forall is4 m, m ∈ boundMetas is4 (sp_run st ops) ->
     m ∈ boundMetas is4 st \/ sp_generation st < generation m.
Proof.
  revert st. induction ops as [|op ops IH]; intros st Hwf Hg; simpl in *.
  { split_and!; [done|lia|auto]. }
  destruct (sp_exec_wf st op Hwf ltac:(lia)) as [Hwf1 [Hg1 Hf1]].
  destruct (IH (sp_exec st op) Hwf1 ltac:(lia)) as (Hwf2 & Hg2 & Hf2).
  split_and!; [done|lia|]. intros is4 m Hm.
  destruct (Hf2 is4 m Hm) as [Hm1|?]; [|right; lia]. by apply Hf1.
Qed.

Lemma zeroSP_wf : sp_wf zeroSP.
Proof.
  split; [done|done|done|intros []; unfold slots; simpl; lia|].
  intros is4 i e. unfold slots. destruct is4, i; simpl; intros E; try done;
    injection E as <-; by apply zero_slot_ok.
Qed.

(** ** Properties *)

(** Every socket bound in the state has an identity of its own. *)
Lemma slot_id_unique st is4 i s is4' j s' :
  sp_wf st -> slots is4 st !! i = Some (s, true) -> slots is4' st !! j = Some (s', true) ->
  sk_id s = sk_id s' -> is4 = is4' /\ i = j.
Proof.
  intros Hwf Hi Hj E.
  pose proof (spw_slots _ Hwf _ _ _ Hi) as ([Hid|[_ ?]] & _); [|done].
  pose proof (spw_slots _ Hwf _ _ _ Hj) as ([Hid'|[_ ?]] & _); [|done].
  pose proof (lookup_lt_Some _ _ _ Hi). pose proof (lookup_lt_Some _ _ _ Hj).
  pose proof (spw_max _ Hwf is4). pose proof (spw_max _ Hwf is4'). simpl in *.
  destruct (sourcePathAuxSocketID_inj is4 (Z.of_nat i) is4' (Z.of_nat j)); [lia|lia|congruence|].
  split; [done|lia].
Qed.

Lemma writeSlot_lookup source is4 st s :
  writeSlot source is4 st = Some s <->
  exists l1 l2, slots is4 st = l1 ++ (s, true) :: l2 /\ rxMeta s = source
    /\ Forall (fun e => ~ (e.2 = true /\ rxMeta e.1 = source)) l1.
Proof.
  unfold writeSlot. generalize (slots is4 st). intros l.
  assert (forall l s0, foldl (fun ruc (e : sourcePathSocket * bool) =>
    match ruc with Some _ => ruc
    | None => if e.2 && bool_decide (source = rxMeta e.1) then Some e.1 else None end) (Some s0) l
    = Some s0) as Hsome by (clear; induction l; simpl; auto).
  induction l as [|[s0 b0] l IH]; simpl.
  { split; [done|]. intros (l1 & l2 & E & _). by destruct l1. }
  destruct (b0 && bool_decide (source = rxMeta s0)) eqn:E.
  - rewrite Hsome. bool_props. subst b0. split.
    + intros [= ->]. exists [], l. split_and!; [done|done|constructor].
    + intros ([|e l1] & l2 & El & Hs & Hl1); simpl in El.
      { injection El as -> ->. done. }
      injection El as <- _. apply Forall_cons in Hl1 as [Hn _]. by destruct Hn.
  - rewrite IH. split.
    + intros (l1 & l2 & -> & Hs & Hl1). exists ((s0, b0) :: l1), l2. split_and!; [done|done|].
      constructor; [|done]. simpl. intros [-> <-]. by rewrite bool_decide_true in E.
    + intros ([|e l1] & l2 & El & Hs & Hl1); simpl in El.
      * injection El as -> -> _. by rewrite bool_decide_true in E.
      * injection El as <- ->. exists l1, l2. apply Forall_cons in Hl1 as [_ ?]. done.
Qed.

(** Socket identifiers are sound: within the 32 slots of each family every slot has
    its own identifier, none is the primary's, and in every reachable state looking up the
    identifier of a slot finds exactly that slot. *)
Theorem socket_ids_sound ops is4 i :
  Z.of_nat (length ops) < 2 ^ 64 ->
  (i < length (slots is4 (sp_run zeroSP ops)))%nat ->
  let id := sourcePathAuxSocketID is4 (Z.of_nat i) in
  isPrimary (MkRxMeta id 0) = false
  /\ sourcePathSocketSlotLocked id (sp_run zeroSP ops) = Some (is4, i)
  /\ forall is4' j, (j < length (slots is4' (sp_run zeroSP ops)))%nat ->
     sourcePathAuxSocketID is4' (Z.of_nat j) = id -> is4' = is4 /\ j = i.
Proof.
  intros Hops Hi. cbv zeta.
  destruct (sp_run_wf zeroSP ops zeroSP_wf) as (Hwf & _); [simpl; lia|].
  generalize dependent (sp_run zeroSP ops). intros st Hi Hwf.
  pose proof (spw_max _ Hwf is4) as Hmax. split_and!.
  - pose proof (sourcePathAuxSocketID_pos is4 (Z.of_nat i) ltac:(lia)).
    unfold isPrimary, primarySourceSocketID. simpl. apply Z.eqb_neq. lia.
  - rewrite sourcePathAuxSocketID_eq by lia. unfold sourcePathSocketSlotLocked,
      sourceIPv4SocketID, sourceIPv6SocketID, sourceIPv4ExtraSocketIDBase,
      sourceIPv6ExtraSocketIDBase, sourcePathMaxAuxSockets.
    assert (length (slots is4 st) = S (length (if is4 then extraAux4 st else extraAux6 st))) as Hl.
    { pose proof (spw_len4 _ Hwf). pose proof (spw_len6 _ Hwf).
      destruct is4; unfold slots; simpl; rewrite length_zip_with; lia. }
    destruct i as [|i]; [by destruct is4|].
    rewrite (proj2 (Z.eqb_neq (Z.of_nat (S i)) 0)) by lia.
    destruct is4; rewrite !(proj2 (Z.eqb_neq _ _)) by lia.
    + replace (Z.to_nat (99 + Z.of_nat (S i) - 100)) with i by lia.
      rewrite (proj2 (Z.leb_le 100 _)), (proj2 (Z.ltb_lt _ (100 + 32))), (proj2 (Nat.ltb_lt _ _)) by lia.
      done.
    + replace (Z.to_nat (199 + Z.of_nat (S i) - 200)) with i by lia.
      rewrite (proj2 (Z.ltb_ge _ (100 + 32))), andb_false_r by lia. simpl.
      rewrite (proj2 (Z.leb_le 200 _)), (proj2 (Z.ltb_lt _ (200 + 32))), (proj2 (Nat.ltb_lt _ _)) by lia.
      done.
  - intros is4' j Hj E. pose proof (spw_max _ Hwf is4').
    destruct (sourcePathAuxSocketID_inj is4' (Z.of_nat j) is4 (Z.of_nat i)); [lia|lia|done|].
    split; [done|lia].
Qed.

(** A retired source identity never comes back: once a socket has been rotated to a
    new generation, closed or replaced, no sequence of pool sizing, rebinding, rotation
    and closing (knobs and bind errors free at each step) makes its old identity bound
    again, so a stale pong or a stale flow can never match a live socket. *)
Theorem retired_source_never_returns ops1 ops2 is4 m :
  Z.of_nat (length ops1) + Z.of_nat (length ops2) < 2 ^ 64 ->
  generation m <= sp_generation (sp_run zeroSP ops1) ->
  m ∉ boundMetas is4 (sp_run zeroSP ops1) ->
  m ∉ boundMetas is4 (sp_run (sp_run zeroSP ops1) ops2).
Proof.
  intros Hlen Hg Hm Hin.
  destruct (sp_run_wf zeroSP ops1 zeroSP_wf) as (Hwf & Hg1 & _); [simpl; lia|].
  assert (sp_generation (sp_run zeroSP ops1) <= Z.of_nat (length ops1)) as Hb.
  { clear -Hlen. assert (forall ops st, sp_wf st -> sp_generation st + Z.of_nat (length ops) < 2 ^ 64 ->
      sp_generation (sp_run st ops) <= sp_generation st + Z.of_nat (length ops)) as Hgen.
    { induction ops as [|op ops IH]; intros st Hwf Hl; simpl in *; [lia|].
      destruct (sp_exec_wf st op Hwf ltac:(lia)) as [Hwf1 [Hg1 _]].
      specialize (IH (sp_exec st op) Hwf1 ltac:(lia)). unfold sp_run in *. lia. }
    specialize (Hgen ops1 zeroSP zeroSP_wf). simpl in Hgen. lia. }
  destruct (sp_run_wf (sp_run zeroSP ops1) ops2 Hwf) as (_ & _ & Hf); [lia|].
  destruct (Hf is4 m Hin); [done|lia].
Qed.

Lemma length_slots_ensure is4 count st :
  sp_wf st -> length (slots is4 (ensureSourcePathAuxSocketCountLocked count st))
              = Z.to_nat (clampCount count).
Proof.
  intros Hwf. rewrite slots_ensure by done. rewrite length_imap.
  pose proof (slots_nonempty is4 st). pose proof (clampCount_range count).
  destruct (slots is4 st); [done|]. simpl. rewrite length_resize. lia.
Qed.

(** The identities a family has after a rebind: position by position, those the system
    let us listen on. *)
Definition listenable (is4 : bool) (g : Z) (listen : Z -> option error) (i : nat)
  : option sourceRxMeta :=
  let id := sourcePathAuxSocketID is4 (Z.of_nat i) in
  if decide (listen id = None) then Some (MkRxMeta id g) else None.

Lemma omap_cons_eq {A B} (f : A -> option B) x l :
  omap f (x :: l) = match f x with Some y => y :: omap f l | None => omap f l end.
Proof. done. Qed.

Lemma rebindAll_sources k listen st is4 :
  sp_wf st -> sourcePathAuxSocketCount k <> 0 -> sp_generation st + 1 < 2 ^ 64 ->
  boundMetas is4 (rebindSourcePathSockets k listen st).1.1
  = omap (listenable is4 (sp_generation st + 1) listen) (seq 0 (Z.to_nat (sourcePathAuxSocketCount k))).
Proof.
  intros Hwf Hk Hg. destruct (rebindAll_slots k listen st Hwf Hk Hg) as (_ & _ & _ & Hs).
  unfold boundMetas. rewrite Hs. clear Hs.
  pose proof (length_slots_ensure is4 (sourcePathAuxSocketCount k) st Hwf) as Hlen.
  pose proof (ensure_initialised (sourcePathAuxSocketCount k) st Hwf is4) as Hin.
  pose proof (sourcePathAuxSocketCount_bounds k) as Hb. unfold sourcePathMaxAuxSockets in Hb.
  replace (clampCount (sourcePathAuxSocketCount k)) with (sourcePathAuxSocketCount k) in Hlen.
  2:{ unfold clampCount, sourcePathMaxAuxSockets. repeat case_match; bool_props; lia. }
  rewrite <- Hlen. generalize dependent (slots is4 (ensureSourcePathAuxSocketCountLocked
    (sourcePathAuxSocketCount k) st)). clear. intros l _ Hin.
  assert (forall n (l : list (sourcePathSocket * bool)), (forall i e, l !! i = Some e ->
      sk_id e.1 = sourcePathAuxSocketID is4 (Z.of_nat (n + i))) ->
    omap (fun e : sourcePathSocket * bool => if e.2 then Some (rxMeta e.1) else None)
      ((fun e => (bindSlot (sp_generation st + 1) listen (familyNetwork is4) e.1).1) <$> l)
    = omap (listenable is4 (sp_generation st + 1) listen) (seq n (length l))) as Hgen.
  { clear. intros n l. revert n. induction l as [|e l IH]; intros n Hid; [done|].
    rewrite fmap_cons. cbn [length seq]. rewrite !omap_cons_eq, <- (IH (S n)).
    - pose proof (Hid 0%nat e eq_refl) as He. rewrite Nat.add_0_r in He.
      pose proof (bindSlot_spec (sp_generation st + 1) listen (familyNetwork is4) e.1)
        as (E1 & E2 & E3 & _). unfold rxMeta, listenable at 1. rewrite E1, E2, E3, He.
      by destruct (decide (listen (sourcePathAuxSocketID is4 (Z.of_nat n)) = None));
        [rewrite bool_decide_true|rewrite bool_decide_false].
    - intros i e' Hi. rewrite (Hid (S i) e' Hi). do 2 f_equal. lia. }
  apply Hgen. intros i e Hi. by apply Hin.
Qed.

(** A full rebind gives exactly the sockets the system allows: in each family the
    bound sources are, in slot order and under one new generation, the configured slots
    whose listen succeeded; with no auxiliary sockets configured every socket is closed,
    nothing is bound and the probe manager is to be cleared. *)
Theorem rebind_binds_what_listens k listen st is4 :
  sp_wf st -> sp_generation st + 1 < 2 ^ 64 ->
  let r := rebindSourcePathSockets k listen st in
  sourcePathProbeSources k is4 r.1.1
  = omap (listenable is4 (sp_generation st + 1) listen) (seq 0 (Z.to_nat (sourcePathAuxSocketCount k)))
  /\ r.1.2 = (sourcePathAuxSocketCount k =? 0)
  /\ (sourcePathAuxSocketCount k = 0 -> boundMetas is4 r.1.1 = []).
Proof.
  intros Hwf Hg. cbv zeta. unfold sourcePathProbeSources.
  destruct (Z.eqb_spec (sourcePathAuxSocketCount k) 0) as [E|E].
  - rewrite E. split_and!; [done|unfold rebindSourcePathSockets; by rewrite E|].
    intros _. unfold rebindSourcePathSockets. rewrite E. apply close_no_sources.
  - split_and!; [by apply rebindAll_sources| |done].
    unfold rebindSourcePathSockets. rewrite (proj2 (Z.eqb_neq _ _) E).
    by repeat case_match.
Qed.

(** Data leaves through the socket it names or not at all: in every reachable state
    a write from an identity finds a socket iff that identity is bound in the
    destination's family; the socket then has that very identity, really wraps a socket
    of that family, and is the only bound one with that identifier. *)
Theorem write_uses_named_socket ops source is4 :
  Z.of_nat (length ops) < 2 ^ 64 ->
  let st := sp_run zeroSP ops in
  (writeSlot source is4 st <> None <-> source ∈ boundMetas is4 st)
  /\ forall s, writeSlot source is4 st = Some s ->
     rxMeta s = source /\ sk_pconn s = PBound (familyNetwork is4)
     /\ forall is4' j s', slots is4' st !! j = Some (s', true) -> sk_id s' = sk_id s ->
        is4' = is4 /\ s' = s.
Proof.
  intros Hops. destruct (sp_run_wf zeroSP ops zeroSP_wf) as (Hwf & _); [simpl; lia|].
  generalize dependent (sp_run zeroSP ops). intros st Hwf. cbv zeta.
  assert (forall s, writeSlot source is4 st = Some s ->
    rxMeta s = source /\ exists i, slots is4 st !! i = Some (s, true)) as Hw.
  { intros s (l1 & l2 & E & Hs & _)%writeSlot_lookup. split; [done|]. exists (length l1).
    by rewrite E, list_lookup_middle. }
  split; [split|].
  - destruct (writeSlot source is4 st) as [s|]; [|done]. intros _.
    destruct (Hw s eq_refl) as [Hs [i Hi]]. apply elem_of_boundMetas. eauto.
  - rewrite elem_of_boundMetas. intros (i & s & Hi & Hs) Hnone.
    destruct (list_find (fun e => e.2 = true /\ rxMeta e.1 = source) (slots is4 st)) as [[j [s' b]]|] eqn:F.
    + apply list_find_Some in F as (Hj & [Hb Hs'] & Hmin). simpl in *. subst b.
      assert (writeSlot source is4 st = Some s') as Hx; [|congruence].
      apply writeSlot_lookup. exists (take j (slots is4 st)), (drop (S j) (slots is4 st)).
      split_and!; [by rewrite take_drop_middle|done|]. apply Forall_forall.
      intros e [n Hn]%list_elem_of_lookup. apply lookup_take_Some in Hn as [? ?]. by eapply Hmin.
    + apply list_find_None in F. rewrite Forall_forall in F.
      apply (F (s, true)); [by eapply list_elem_of_lookup_2|done].
  - intros s Hws. destruct (Hw s Hws) as [Hs [i Hi]]. split; [done|].
    pose proof (spw_slots _ Hwf _ _ _ Hi) as (_ & _ & Hb). split; [by apply Hb|].
    intros is4' j s' Hj Hid. destruct (slot_id_unique st is4' j s' is4 i s) as [-> ->]; [done..|].
    rewrite Hi in Hj. by injection Hj.
Qed.

(** ** Witnesses *)
Definition listenOK (_ : Z) : option error := None.
Definition ex_ops : list sp_op :=
  [OpReceiveFuncs defaultKnobs; OpRebindAll defaultKnobs listenOK].

Lemma socket_ids_sound_witness :
  sourcePathSocketSlotLocked 200 (sp_run zeroSP ex_ops) = Some (false, 1%nat).
Proof.
  apply (socket_ids_sound ex_ops false 1); [simpl; lia|]. vm_compute. lia.
Defined.

Lemma retired_source_never_returns_witness :
  MkRxMeta 1 1 ∉ boundMetas true
    (sp_run (sp_run zeroSP (ex_ops ++ [OpRebindOne defaultKnobs listenOK (MkRxMeta 1 1)])) ex_ops).
Proof.
  apply (retired_source_never_returns
    (ex_ops ++ [OpRebindOne defaultKnobs listenOK (MkRxMeta 1 1)]) ex_ops true).
  - simpl. lia.
  - vm_compute. congruence.
  - apply (bool_decide_eq_true_1 _). vm_compute. reflexivity.
Defined.

Lemma rebind_binds_what_listens_witness :
  sourcePathProbeSources defaultKnobs true
    (rebindSourcePathSockets defaultKnobs
       (fun id => if id =? 1 then Some "address in use"%string else None) zeroSP).1.1
  = [MkRxMeta 100 1].
Proof.
  rewrite (proj1 (rebind_binds_what_listens defaultKnobs
    (fun id => if id =? 1 then Some "address in use"%string else None) zeroSP true zeroSP_wf eq_refl)).
  vm_compute. reflexivity.
Defined.

Lemma write_uses_named_socket_witness :
  writeSlot (MkRxMeta 1 1) true (sp_run zeroSP ex_ops) <> None.
Proof.
  apply (write_uses_named_socket ex_ops (MkRxMeta 1 1) true); [simpl; lia|].
  apply (bool_decide_eq_true_1 _). vm_compute. reflexivity.
Defined.
