(* ===== verification/ActivePaths.v ===== *)
(** * Ranked and active send paths (sourcepath.go, endpoint.go)

    Fixed dual-send ranks the (destination, source socket) paths to a peer and keeps two
    of them active. This file models the ranking, its comparison function, and the
    per-peer policy that fills, keeps and promotes active paths. *)
From S2P Require Import Prelude Netip Bytes Float64 Knobs ProbeManager Scorer SourceSockets Ordering.

Record sourcePathDstCandidate := MkDstCand {
  dc_dst : epAddr;
  dc_primaryRTT : Z;
  dc_hasPrimaryRTT : bool;
  dc_allowPrimarySource : bool
}.

Record sourcePathSendPath := MkPath {
  pt_dst : epAddr;
  pt_source : sourceRxMeta;
  pt_latency : Z;
  pt_hasLatency : bool;
  pt_lastAt : Z
}.
Definition zeroPath : sourcePathSendPath := MkPath zeroEpAddr (MkRxMeta 0 0) 0 false 0.

Definition compareSourcePathSendPath (a b : sourcePathSendPath) : Z :=
  if negb (Bool.eqb (pt_hasLatency a) (pt_hasLatency b)) then (if pt_hasLatency a then -1 else 1)
  else if pt_hasLatency a && negb (pt_latency a =? pt_latency b)
  then (if pt_latency a <? pt_latency b then -1 else 1)
  else if negb (pt_lastAt a =? pt_lastAt b)
  then (if 0 <? Mono.Sub (pt_lastAt a) (pt_lastAt b) then -1 else 1)
  else if negb (Bool.eqb (isPrimary (pt_source a)) (isPrimary (pt_source b)))
  then (if isPrimary (pt_source a) then -1 else 1)
  else if socketID (pt_source a) <? socketID (pt_source b) then -1
  else if socketID (pt_source b) <? socketID (pt_source a) then 1
  else if string_lt (AddrPort_String (ap (pt_dst a))) (AddrPort_String (ap (pt_dst b))) then -1
  else if string_lt (AddrPort_String (ap (pt_dst b))) (AddrPort_String (ap (pt_dst a))) then 1
  else 0.

Definition sameSourcePathSendPath (a b : sourcePathSendPath) : bool :=
  bool_decide (pt_dst a = pt_dst b) && bool_decide (pt_source a = pt_source b).

(** [None] stands for the index -1. *)
Definition sourcePathSendPathIndex (paths : list sourcePathSendPath) (want : sourcePathSendPath)
  : option nat := fst <$> list_find (fun p => sameSourcePathSendPath p want = true) paths.

Definition absDuration (d : Z) : Z := if d <? 0 then i64 (- d) else d.

(** ** Ranking *)
Section Rank.
Context `{Platform} (k : Knobs).
Implicit Types (pm : sourcePathProbeManager) (now : Z).

(** One auxiliary source of the candidate destination. *)
Definition rankStep (candidate : sourcePathDstCandidate) now
    (acc : sourcePathProbeManager * list sourcePathSendPath) (source : sourceRxMeta)
  : sourcePathProbeManager * list sourcePathSendPath :=
  let '(pm, paths) := acc in
  let dst := dc_dst candidate in
  let '(pm, demoted) := dualSendDemotedLocked pm (MkDSKey dst source) now in
  if demoted then (pm, paths)
  else
    match candidateScoreLocked k pm dst source now 0 with
    | (pm, None) => (pm, paths)
    | (pm, Some score) =>
        let maxSkew := sourcePathDualSendMaxSkewValue k in
        if (0 <? maxSkew) && (0 <? dc_primaryRTT candidate)
           && (maxSkew <=? absDuration (i64 (cs_latency score - dc_primaryRTT candidate)))
        then (pm, paths)
        else (pm, paths ++ [MkPath dst source (cs_latency score) true (cs_lastAt score)])
    end.

(** [sources] is [c.sourcePathProbeSources] of the destination's family. *)
Definition sourcePathRankedSendPathsForDst pm (sources : list sourceRxMeta)
    (candidate : sourcePathDstCandidate) now (limit : nat)
  : sourcePathProbeManager * list sourcePathSendPath :=
  let dst := dc_dst candidate in
  if negb (isDirect dst) then (pm, [])
  else
    let paths := if dc_allowPrimarySource candidate || dc_hasPrimaryRTT candidate
                 then [MkPath dst primarySourceRxMeta (dc_primaryRTT candidate)
                              (dc_hasPrimaryRTT candidate) 0]
                 else [] in
    let '(pm, paths) := foldl (rankStep candidate now) (pm, paths) sources in
    let paths := Slices.SortFunc compareSourcePathSendPath paths in
    (pm, if (0 <? limit)%nat && (limit <? length paths)%nat then take limit paths else paths).

Definition sourcePathRankedDualSendPaths pm (st : sourcePathState)
    (candidates : list sourcePathDstCandidate) now
  : sourcePathProbeManager * list sourcePathSendPath :=
  let sources c := sourcePathProbeSources k (Is4 (ip (ap (dc_dst c)))) st in
  if negb (sourcePathDualSendEnabled k) then (pm, [])
  else match candidates with
  | [] => (pm, [])
  | [c] => sourcePathRankedSendPathsForDst pm (sources c) c now 3
  | _ =>
      let '(pm, paths) := foldl (fun '(pm, paths) c =>
          let '(pm, ranked) := sourcePathRankedSendPathsForDst pm (sources c) c now 2 in
          (pm, paths ++ ranked)) (pm, []) candidates in
      let paths := Slices.SortFunc compareSourcePathSendPath paths in
      let paths := take (Z.to_nat sourcePathMaxRankedPaths) paths in
      (pm, if (length paths <? 2)%nat then [] else paths)
  end.
End Rank.

(** ** The active path policy *)

(** The policy fields of [endpoint]. *)
Record activeState := MkActive {
  sourcePathActivePaths : sourcePathSendPath * sourcePathSendPath;
  sourcePathActiveCount : Z;
  sourcePathLastReplace : Z;
  sourcePathLastRefresh : Z;
  sourcePathPromoteBudget : Z
}.
Definition zeroActive : activeState := MkActive (zeroPath, zeroPath) 0 0 0 0.

Record sourcePathActivePolicyEvent := MkEvent {
  refreshed : bool;
  replaced : bool;
  oldPath : sourcePathSendPath;
  newPath : sourcePathSendPath;
  standbyCandidates : Z
}.
Definition zeroEvent : sourcePathActivePolicyEvent := MkEvent false false zeroPath zeroPath 0.

Definition sourcePathDistinctDstCount (paths : list sourcePathSendPath) : nat :=
  length (foldl (fun seen p => if decide (pt_dst p ∈ seen) then seen else seen ++ [pt_dst p])
                ([] : list epAddr) paths).

Definition isNone {A} (o : option A) : bool := match o with None => true | Some _ => false end.

Definition eligible (current : list sourcePathSendPath) (requireDistinctDst : bool)
    (candidate : sourcePathSendPath) : bool :=
  isNone (sourcePathSendPathIndex current candidate)
  && negb (requireDistinctDst && existsb (fun a => bool_decide (pt_dst a = pt_dst candidate)) current).
Definition sourcePathFirstEligibleActivePath (current ranked : list sourcePathSendPath)
    (requireDistinctDst : bool) : option (nat * sourcePathSendPath) :=
  list_find (fun c => eligible current requireDistinctDst c = true) ranked.

(** The loop of [sourcePathFillActivePaths]; each iteration adds a path, so two units of
    fuel are enough for any [current]. *)
Fixpoint fillLoop (fuel : nat) (current ranked : list sourcePathSendPath) (preferDistinctDst : bool)
  : list sourcePathSendPath :=
  match fuel with
  | O => current
  | S fuel =>
      if (length current <? 2)%nat then
        let idx := sourcePathFirstEligibleActivePath current ranked preferDistinctDst in
        let idx := match idx with
                   | None => if preferDistinctDst
                             then sourcePathFirstEligibleActivePath current ranked false else None
                   | _ => idx
                   end in
        match idx with
        | None => current
        | Some (_, p) => fillLoop fuel (current ++ [p]) ranked preferDistinctDst
        end
      else current
  end.
Definition sourcePathFillActivePaths (current ranked : list sourcePathSendPath)
  : list sourcePathSendPath :=
  fillLoop 2 current ranked (2 <=? sourcePathDistinctDstCount ranked)%nat.

Definition sourcePathPromotionSlot (current : list sourcePathSendPath)
    (candidate : sourcePathSendPath) (distinctDstAvailable : bool) : option nat :=
  match current with
  | a :: b :: _ =>
      match (if distinctDstAvailable
             then fst <$> list_find (fun x => pt_dst x = pt_dst candidate) current else None) with
      | Some i => Some i
      | None => if 0 <=? compareSourcePathSendPath a b then Some 0%nat else Some 1%nat
      end
  | _ => None
  end.

(** The promoted path with the slot it takes, of the first ranked path that may. *)
Fixpoint bestPromotionFrom (current ranked : list sourcePathSendPath) (distinctDstAvailable : bool)
  : option (sourcePathSendPath * nat) :=
  match ranked with
  | [] => None
  | c :: ranked' =>
      if isNone (sourcePathSendPathIndex current c) then
        match sourcePathPromotionSlot current c distinctDstAvailable with
        | None => bestPromotionFrom current ranked' distinctDstAvailable
        | Some slot =>
            if 0 <=? compareSourcePathSendPath c (nth slot current zeroPath)
            then bestPromotionFrom current ranked' distinctDstAvailable
            else Some (c, slot)
        end
      else bestPromotionFrom current ranked' distinctDstAvailable
  end.
Definition sourcePathBestPromotion (current ranked : list sourcePathSendPath)
  : option (sourcePathSendPath * nat) :=
  bestPromotionFrom current ranked (2 <=? sourcePathDistinctDstCount ranked)%nat.

Definition setSourcePathActivePathsLocked (st : activeState) (paths : list sourcePathSendPath)
  : activeState * list sourcePathSendPath :=
  let paths := Slices.SortFunc compareSourcePathSendPath paths in
  let p0 := nth 0 paths zeroPath in
  let p1 := nth 1 paths zeroPath in
  (MkActive (p0, p1) 2 (sourcePathLastReplace st) (sourcePathLastRefresh st)
            (sourcePathPromoteBudget st), [p0; p1]).

(** The still-ranked active paths, and whether one is missing. *)
Definition keepStep (ranked : list sourcePathSendPath) (acc : list sourcePathSendPath * bool)
    (active : sourcePathSendPath) : list sourcePathSendPath * bool :=
  let '(current, missing) := acc in
  match list_find (fun p => sameSourcePathSendPath p active = true) ranked with
  | None => (current, true)
  | Some (_, r) =>
      (if isNone (sourcePathSendPathIndex current r) then current ++ [r] else current, missing)
  end.
Definition keptActive (st : activeState) (ranked : list sourcePathSendPath)
  : list sourcePathSendPath * bool :=
  let '(p0, p1) := sourcePathActivePaths st in
  foldl (keepStep ranked) ([], sourcePathActiveCount st <? 2)
        (take (Z.to_nat (sourcePathActiveCount st)) [p0; p1]).

Definition refreshDue (st : activeState) (now : Z) (ranked : list sourcePathSendPath) : bool :=
  (2 <? length ranked)%nat
  && (Mono.IsZero (sourcePathLastRefresh st)
      || (sourcePathStandbyRefreshEvery <=? Mono.Sub now (sourcePathLastRefresh st))).
Definition canPromote (st : activeState) (now : Z) : bool :=
  (0 <? sourcePathPromoteBudget st)
  && (Mono.IsZero (sourcePathLastReplace st)
      || (sourcePathActiveReplaceCooldown <=? Mono.Sub now (sourcePathLastReplace st))).

(** The nil result is the empty list. *)
Definition sourcePathApplyActivePathPolicyLocked (st : activeState) (now : Z)
    (ranked : list sourcePathSendPath)
  : activeState * list sourcePathSendPath * sourcePathActivePolicyEvent :=
  if (length ranked <? 2)%nat
  then (MkActive (zeroPath, zeroPath) 0 (sourcePathLastReplace st) (sourcePathLastRefresh st)
                 (sourcePathPromoteBudget st), [], zeroEvent)
  else
    let '(st, ev) :=
      if refreshDue st now ranked
      then (MkActive (sourcePathActivePaths st) (sourcePathActiveCount st)
                     (sourcePathLastReplace st) now 2,
            MkEvent true false zeroPath zeroPath (Z.of_nat (length ranked) - 2))
      else (st, zeroEvent) in
    let '(current, missingActive) := keptActive st ranked in
    if missingActive || (length current <? 2)%nat then
      let current := sourcePathFillActivePaths current ranked in
      if (length current <? 2)%nat
      then (MkActive (zeroPath, zeroPath) 0 (sourcePathLastReplace st) (sourcePathLastRefresh st) 0,
            [], ev)
      else
        let st := MkActive (sourcePathActivePaths st) (sourcePathActiveCount st)
                    (if sourcePathActiveCount st =? 2 then now else sourcePathLastReplace st)
                    (sourcePathLastRefresh st) 0 in
        (setSourcePathActivePathsLocked st current, ev)
    else
      match (if canPromote st now then sourcePathBestPromotion current ranked else None) with
      | Some (p, slot) =>
          let st' := MkActive (sourcePathActivePaths st) (sourcePathActiveCount st) now
                       (sourcePathLastRefresh st) (sourcePathPromoteBudget st - 1) in
          (setSourcePathActivePathsLocked st' (<[slot := p]> current),
           MkEvent (refreshed ev) true (nth slot current zeroPath) p (standbyCandidates ev))
      | None => (setSourcePathActivePathsLocked st current, ev)
      end.

(** ** The comparison is an order *)
Definition path_ok (p : sourcePathSendPath) : Prop := Mono.ok (pt_lastAt p).

(** The keys of the comparison, one after the other. *)
Definition path_cmp : sourcePathSendPath -> sourcePathSendPath -> Z :=
  lexc (cmp_flag pt_hasLatency)
  (lexc (cmp_on (fun p => if pt_hasLatency p then pt_latency p else 0))
  (lexc (cmp_on (fun p => - pt_lastAt p))
  (lexc (cmp_flag (fun p => isPrimary (pt_source p)))
  (lexc (cmp_on (fun p => socketID (pt_source p)))
        (cmp_string (fun p => AddrPort_String (ap (pt_dst p)))))))).

Lemma lexc_nonzero {A} (c1 c2 : A -> A -> Z) a b : c1 a b <> 0 -> lexc c1 c2 a b = c1 a b.
Proof. intros. unfold lexc. by rewrite (proj2 (Z.eqb_neq _ _)). Qed.
Lemma lexc_zero {A} (c1 c2 : A -> A -> Z) a b : c1 a b = 0 -> lexc c1 c2 a b = c2 a b.
Proof. intros E. unfold lexc. by rewrite E. Qed.

Lemma compareSourcePathSendPath_keys a b :
  path_ok a -> path_ok b -> compareSourcePathSendPath a b = path_cmp a b.
Proof.
  unfold path_ok. intros Ha Hb. unfold compareSourcePathSendPath, path_cmp.
  rewrite Mono.Sub_ok by done.
  destruct (pt_hasLatency a) eqn:La, (pt_hasLatency b) eqn:Lb; simpl;
    try (rewrite lexc_nonzero; unfold cmp_flag, cmp_on; rewrite La, Lb; done);
    (rewrite lexc_zero by (unfold cmp_flag, cmp_on; rewrite La, Lb; done)).
  1: destruct (Z.eqb_spec (pt_latency a) (pt_latency b)) as [El|El]; simpl;
    [rewrite lexc_zero by (unfold cmp_on; rewrite La, Lb; lia)
    |rewrite lexc_nonzero; unfold cmp_on; rewrite La, Lb;
     destruct (Z.ltb_spec (pt_latency a) (pt_latency b)); lia].
  2: rewrite lexc_zero by (unfold cmp_on; rewrite La, Lb; lia).
  all: destruct (Z.eqb_spec (pt_lastAt a) (pt_lastAt b)) as [Et|Et]; simpl;
    [rewrite lexc_zero by (unfold cmp_on; lia)
    |rewrite lexc_nonzero; unfold cmp_on;
     destruct (Z.ltb_spec 0 (pt_lastAt a - pt_lastAt b)); lia].
  all: destruct (isPrimary (pt_source a)) eqn:Pa, (isPrimary (pt_source b)) eqn:Pb; simpl;
    try (rewrite lexc_nonzero; unfold cmp_flag, cmp_on; rewrite Pa, Pb; done);
    (rewrite lexc_zero by (unfold cmp_flag, cmp_on; rewrite Pa, Pb; done)).
  all: destruct (Z.ltb_spec (socketID (pt_source a)) (socketID (pt_source b)));
    [rewrite lexc_nonzero; unfold cmp_on; lia|].
  all: destruct (Z.ltb_spec (socketID (pt_source b)) (socketID (pt_source a)));
    [rewrite lexc_nonzero; unfold cmp_on; lia|].
  all: rewrite lexc_zero by (unfold cmp_on; lia); done.
Qed.

#[export] Instance compareSourcePathSendPath_order :
  Slices.CmpOrder path_ok compareSourcePathSendPath.
Proof.
  eapply cmp_order_ext; [apply compareSourcePathSendPath_keys|]. unfold path_cmp. apply _.
Qed.

(** ** Paths by identity *)
Definition ident (p : sourcePathSendPath) : epAddr * sourceRxMeta := (pt_dst p, pt_source p).

Lemma same_ident a b : sameSourcePathSendPath a b = true <-> ident a = ident b.
Proof.
  unfold sameSourcePathSendPath, ident. rewrite andb_true_iff, !bool_decide_eq_true.
  split; [by intros [-> ->]|by intros [=]].
Qed.

Lemma index_none l c : isNone (sourcePathSendPathIndex l c) = true <-> ident c ∉ ident <$> l.
Proof.
  unfold sourcePathSendPathIndex.
  destruct (list_find _ l) as [[i p]|] eqn:E; simpl.
  - apply list_find_Some in E as (Hi & Hs%same_ident & _). split; [done|].
    intros Hn. destruct Hn. rewrite <- Hs. apply list_elem_of_fmap_2. by eapply list_elem_of_lookup_2.
  - apply list_find_None in E. rewrite Forall_forall in E. split; [|done]. intros _.
    intros (p & Hp & Hin)%list_elem_of_fmap. by apply (E p Hin), same_ident.
Qed.

Lemma eligible_spec current d c :
  eligible current d c = true <->
  ident c ∉ ident <$> current /\ (d = true -> pt_dst c ∉ pt_dst <$> current).
Proof.
  unfold eligible. rewrite andb_true_iff, index_none, negb_true_iff, andb_false_iff.
  assert (existsb (fun a => bool_decide (pt_dst a = pt_dst c)) current = false
          <-> pt_dst c ∉ pt_dst <$> current) as ->.
  { rewrite <- not_true_iff_false, existsb_exists. split; intros Hn Hc; apply Hn.
    - apply list_elem_of_fmap in Hc as (a & Ha & Hin). exists a.
      rewrite list_elem_of_In in Hin. split; [done|]. by apply bool_decide_eq_true.
    - destruct Hc as (a & Hin & Hb%bool_decide_eq_true). rewrite <- Hb.
      apply list_elem_of_fmap_2. by apply list_elem_of_In. }
  destruct d; naive_solver.
Qed.

(** A selection of ranked paths without repetition. *)
Definition selection (ranked current : list sourcePathSendPath) : Prop :=
  NoDup (ident <$> current) /\ forall p, p ∈ current -> p ∈ ranked.

Lemma selection_snoc ranked current p :
  selection ranked current -> ident p ∉ ident <$> current -> p ∈ ranked ->
  selection ranked (current ++ [p]).
Proof.
  intros [Hnd Hin] Hp Hr. split.
  - rewrite fmap_app. apply NoDup_app. split_and!; [done| |apply NoDup_singleton].
    intros x Hx Hx'. apply list_elem_of_singleton in Hx' as ->. done.
  - intros q [Hq|Hq]%elem_of_app; [auto|]. by apply list_elem_of_singleton in Hq as ->.
Qed.

Lemma first_eligible_some current ranked d i p :
  sourcePathFirstEligibleActivePath current ranked d = Some (i, p) ->
  p ∈ ranked /\ ident p ∉ ident <$> current /\ (d = true -> pt_dst p ∉ pt_dst <$> current).
Proof.
  intros (Hi & He%eligible_spec & _)%list_find_Some.
  split; [by eapply list_elem_of_lookup_2|done].
Qed.

Lemma first_eligible_none current ranked d p :
  sourcePathFirstEligibleActivePath current ranked d = None -> p ∈ ranked ->
  ident p ∈ ident <$> current \/ (d = true /\ pt_dst p ∈ pt_dst <$> current).
Proof.
  intros Hn%list_find_None Hp. rewrite Forall_forall in Hn. specialize (Hn p Hp).
  rewrite eligible_spec in Hn. destruct (decide (ident p ∈ ident <$> current)); [by left|].
  destruct (decide (pt_dst p ∈ pt_dst <$> current)); [|by destruct Hn].
  destruct d; [by right|]. destruct Hn. split; [done|done].
Qed.

(** One iteration of the fill loop. *)
Lemma fillLoop_selection fuel current ranked d :
  selection ranked current -> (length current <= 2)%nat -> (2 - length current <= fuel)%nat ->
  let r := fillLoop fuel current ranked d in
  selection ranked r /\ (length r <= 2)%nat /\ current `prefix_of` r
  /\ ((length r < 2)%nat -> forall p, p ∈ ranked -> ident p ∈ ident <$> r).
Proof.
  revert current. induction fuel as [|fuel IH]; intros current Hs Hl Hf; simpl.
  { split_and!; [done..|lia]. }
  destruct (Nat.ltb_spec (length current) 2) as [Hlt|]; [|split_and!; [done..|lia]].
  assert (forall p, p ∈ ranked -> ident p ∉ ident <$> current ->
    let r := fillLoop fuel (current ++ [p]) ranked d in
    selection ranked r /\ (length r <= 2)%nat /\ current `prefix_of` r
    /\ ((length r < 2)%nat -> forall p, p ∈ ranked -> ident p ∈ ident <$> r)) as Hnext.
  { intros p Hp Hid. destruct (IH (current ++ [p])) as (H1 & H2 & H3 & H4).
    - by apply selection_snoc.
    - rewrite length_app. simpl. lia.
    - rewrite length_app. simpl. lia.
    - split_and!; [done|done| |done]. etrans; [|exact H3]. by apply prefix_app_r. }
  destruct (sourcePathFirstEligibleActivePath current ranked d) as [[i p]|] eqn:E1.
  { apply first_eligible_some in E1 as (? & ? & _). by apply Hnext. }
  destruct d.
  - destruct (sourcePathFirstEligibleActivePath current ranked false) as [[i p]|] eqn:E2.
    { apply first_eligible_some in E2 as (? & ? & _). by apply Hnext. }
    split_and!; [done..|]. intros _ p Hp.
    by destruct (first_eligible_none _ _ _ p E2 Hp) as [?|[? _]].
  - split_and!; [done..|]. intros _ p Hp.
    by destruct (first_eligible_none _ _ _ p E1 Hp) as [?|[? _]].
Qed.

(** ** What is kept *)
Lemma keepStep_selection ranked acc a :
  selection ranked acc.1 -> selection ranked (keepStep ranked acc a).1
  /\ (length (keepStep ranked acc a).1 <= S (length acc.1))%nat.
Proof.
  destruct acc as [current missing]. simpl. intros Hs.
  destruct (list_find _ ranked) as [[i r]|] eqn:E; simpl; [|split; [done|lia]].
  apply list_find_Some in E as (Hi & _ & _).
  destruct (isNone _) eqn:En; [|split; [done|lia]]. apply index_none in En. split.
  - apply selection_snoc; [done|done|by eapply list_elem_of_lookup_2].
  - rewrite length_app. simpl. lia.
Qed.

Lemma keptActive_selection st ranked :
  selection ranked (keptActive st ranked).1 /\ (length (keptActive st ranked).1 <= 2)%nat.
Proof.
  unfold keptActive. destruct (sourcePathActivePaths st) as [p0 p1].
  assert (forall l acc, selection ranked acc.1 ->
    selection ranked (foldl (keepStep ranked) acc l).1
    /\ (length (foldl (keepStep ranked) acc l).1 <= length acc.1 + length l)%nat) as Hf.
  { induction l as [|a l IH]; intros acc Hs; simpl; [split; [done|lia]|].
    destruct (keepStep_selection ranked acc a Hs) as [Hs1 Hl1].
    destruct (IH _ Hs1) as [? ?]. split; [done|lia]. }
  destruct (Hf (take (Z.to_nat (sourcePathActiveCount st)) [p0; p1])
    ([], sourcePathActiveCount st <? 2)) as [H1 H2].
  - simpl. split; [apply NoDup_nil_2|set_solver].
  - split; [done|]. rewrite length_take in H2. simpl in H2. lia.
Qed.

(** When both active paths are still ranked, exactly they are kept. *)
Lemma keptActive_still_ranked st ranked p0 p1 :
  sourcePathActivePaths st = (p0, p1) -> sourcePathActiveCount st = 2 -> ident p0 <> ident p1 ->
  ident p0 ∈ ident <$> ranked -> ident p1 ∈ ident <$> ranked ->
  exists r0 r1, keptActive st ranked = ([r0; r1], false) /\ ident r0 = ident p0 /\ ident r1 = ident p1
    /\ r0 ∈ ranked /\ r1 ∈ ranked.
Proof.
  intros Ha Hc Hne H0 H1. unfold keptActive. rewrite Ha, Hc.
  assert (forall p, ident p ∈ ident <$> ranked -> exists i r,
    list_find (fun q => sameSourcePathSendPath q p = true) ranked = Some (i, r)
    /\ ident r = ident p /\ r ∈ ranked) as Hfind.
  { intros p (q & Hq & Hin)%list_elem_of_fmap.
    destruct (list_find _ ranked) as [[i r]|] eqn:E.
    - apply list_find_Some in E as (Hi & Hs%same_ident & _). exists i, r.
      split_and!; [done|done|by eapply list_elem_of_lookup_2].
    - apply list_find_None in E. rewrite Forall_forall in E. destruct (E q Hin). by apply same_ident. }
  destruct (Hfind p0 H0) as (i0 & r0 & E0 & Hr0 & Hin0).
  destruct (Hfind p1 H1) as (i1 & r1 & E1 & Hr1 & Hin1).
  change (take (Z.to_nat 2) [p0; p1]) with [p0; p1]. unfold keepStep. cbn [foldl].
  rewrite E0, E1. change (sourcePathSendPathIndex [] r0) with (@None nat). cbn [isNone app].
  assert (isNone (sourcePathSendPathIndex [r0] r1) = true) as ->.
  { apply index_none. simpl. rewrite list_elem_of_singleton. congruence. }
  exists r0, r1. done.
Qed.

(** ** Installing the active paths *)
Lemma sort_two (l : list sourcePathSendPath) :
  length l = 2%nat -> Forall path_ok l ->
  exists p0 p1, Slices.SortFunc compareSourcePathSendPath l = [p0; p1] /\ [p0; p1] ≡ₚ l
    /\ compareSourcePathSendPath p0 p1 <= 0.
Proof.
  intros Hl Hok. pose proof (Slices.SortFunc_perm compareSourcePathSendPath l) as Hp.
  pose proof (Slices.SortFunc_sorted path_ok compareSourcePathSendPath l Hok) as Hs.
  pose proof (Permutation_length Hp) as Hlen. rewrite Hl in Hlen.
  destruct (Slices.SortFunc _ l) as [|p0 [|p1 [|? ?]]]; simplify_eq/=.
  exists p0, p1. split_and!; [done|done|].
  apply StronglySorted_inv in Hs as [_ Hs]. by apply Forall_inv in Hs.
Qed.

Lemma setActive_spec st l :
  length l = 2%nat -> Forall path_ok l ->
  exists p0 p1, [p0; p1] ≡ₚ l /\ compareSourcePathSendPath p0 p1 <= 0
    /\ setSourcePathActivePathsLocked st l
       = (MkActive (p0, p1) 2 (sourcePathLastReplace st) (sourcePathLastRefresh st)
                   (sourcePathPromoteBudget st), [p0; p1]).
Proof.
  intros Hl Hok. destruct (sort_two l Hl Hok) as (p0 & p1 & Hs & Hp & Hc).
  exists p0, p1. split_and!; [done|done|]. unfold setSourcePathActivePathsLocked. by rewrite Hs.
Qed.

Lemma bestPromotion_spec current ranked d p slot :
  bestPromotionFrom current ranked d = Some (p, slot) ->
  p ∈ ranked /\ ident p ∉ ident <$> current
  /\ sourcePathPromotionSlot current p d = Some slot
  /\ compareSourcePathSendPath p (nth slot current zeroPath) < 0.
Proof.
  induction ranked as [|c ranked IH]; simpl; [done|].
  destruct (isNone _) eqn:En; [|intros E; destruct (IH E) as (? & ?); split; [by right|done]].
  destruct (sourcePathPromotionSlot current c d) as [s|] eqn:Es.
  - destruct (Z.leb_spec 0 (compareSourcePathSendPath c (nth s current zeroPath))).
    + intros E. destruct (IH E) as (? & ?). split; [by right|done].
    + intros [= <- <-]. apply index_none in En. split_and!; [by left|done|done|done].
  - intros E. destruct (IH E) as (? & ?). split; [by right|done].
Qed.

Lemma promotionSlot_lt current p d slot :
  sourcePathPromotionSlot current p d = Some slot -> length current = 2%nat -> (slot < 2)%nat.
Proof.
  destruct current as [|a [|b [|? ?]]]; try done. intros Hs _. unfold sourcePathPromotionSlot in Hs.
  destruct d; [destruct (list_find _ _) as [[i x]|] eqn:E|]; simpl in Hs.
  - injection Hs as ->. apply list_find_Some in E as (Hi & _). apply lookup_lt_Some in Hi. done.
  - case_match; simplify_eq; lia.
  - case_match; simplify_eq; lia.
Qed.

(** ** Properties of the policy *)
Record active_wf (st : activeState) : Prop := {
  aw_count : sourcePathActiveCount st = 0 \/ sourcePathActiveCount st = 2;
  aw_distinct : sourcePathActiveCount st = 2 ->
    ident (sourcePathActivePaths st).1 <> ident (sourcePathActivePaths st).2;
  aw_budget : 0 <= sourcePathPromoteBudget st <= 2
}.

(** Two paths, distinct, ranked, in order, recorded as the active ones. *)
Definition active_pair (ranked : list sourcePathSendPath) (st : activeState)
    (paths : list sourcePathSendPath) : Prop :=
  exists p0 p1, paths = [p0; p1] /\ ident p0 <> ident p1 /\ p0 ∈ ranked /\ p1 ∈ ranked
    /\ compareSourcePathSendPath p0 p1 <= 0
    /\ sourcePathActivePaths st = (p0, p1) /\ sourcePathActiveCount st = 2.

Lemma active_pair_of_selection st ranked l :
  Forall path_ok ranked -> selection ranked l -> length l = 2%nat ->
  0 <= sourcePathPromoteBudget st <= 2 ->
  let r := setSourcePathActivePathsLocked st l in
  active_wf r.1 /\ active_pair ranked r.1 r.2 /\ r.2 ≡ₚ l
  /\ sourcePathLastReplace r.1 = sourcePathLastReplace st
  /\ sourcePathPromoteBudget r.1 = sourcePathPromoteBudget st.
Proof.
  intros Hok [Hnd Hin] Hl Hb. cbv zeta.
  assert (Forall path_ok l) as Hlok.
  { rewrite Forall_forall in Hok |- *. auto. }
  destruct (setActive_spec st l Hl Hlok) as (p0 & p1 & Hp & Hc & ->). simpl.
  assert (ident p0 <> ident p1) as Hne.
  { rewrite <- Hp in Hnd. simpl in Hnd. apply NoDup_cons in Hnd as [Hn _].
    rewrite list_elem_of_singleton in Hn. done. }
  assert (p0 ∈ l /\ p1 ∈ l) as [Hp0 Hp1] by (rewrite <- Hp; set_solver).
  split_and!; [|exists p0, p1; split_and!; auto|done|done|done].
  split; simpl; [by right|done|done].
Qed.

Lemma promotion_selection ranked current p slot :
  selection ranked current -> length current = 2%nat -> (slot < 2)%nat ->
  p ∈ ranked -> ident p ∉ ident <$> current ->
  selection ranked (<[slot := p]> current) /\ length (<[slot := p]> current) = 2%nat.
Proof.
  intros [Hnd Hin] Hl Hs Hp Hid. rewrite length_insert. split; [|done].
  destruct current as [|a [|b [|? ?]]]; try done. simpl in *.
  rewrite !not_elem_of_cons in Hid. destruct Hid as (Ha & Hb & _).
  apply NoDup_cons in Hnd as [Hn _]. rewrite list_elem_of_singleton in Hn.
  destruct slot as [|[|?]]; [| |lia]; simpl;
    (split; [|intros q [->|[->|[]%elem_of_nil]%elem_of_cons]%elem_of_cons; auto; apply Hin; set_solver]);
    simpl; repeat constructor; rewrite ?list_elem_of_singleton, ?elem_of_nil; congruence.
Qed.

(** The state as the refresh leaves it. *)
Definition refreshState (st : activeState) (now : Z) (ranked : list sourcePathSendPath) : activeState :=
  if refreshDue st now ranked
  then MkActive (sourcePathActivePaths st) (sourcePathActiveCount st) (sourcePathLastReplace st) now 2
  else st.

Lemma policy_unfold st now ranked :
  (2 <= length ranked)%nat ->
  let st1 := refreshState st now ranked in
  let kept := keptActive st ranked in
  let fill := sourcePathFillActivePaths kept.1 ranked in
  let st2 := MkActive (sourcePathActivePaths st) (sourcePathActiveCount st)
               (if sourcePathActiveCount st =? 2 then now else sourcePathLastReplace st)
               (sourcePathLastRefresh st1) 0 in
  let r := sourcePathApplyActivePathPolicyLocked st now ranked in
  if kept.2 || (length kept.1 <? 2)%nat
  then replaced r.2 = false
       /\ r.1 = (if (length fill <? 2)%nat
                 then (MkActive (zeroPath, zeroPath) 0 (sourcePathLastReplace st)
                                (sourcePathLastRefresh st1) 0, [])
                 else setSourcePathActivePathsLocked st2 fill)
  else match (if canPromote st1 now then sourcePathBestPromotion kept.1 ranked else None) with
       | None => replaced r.2 = false /\ r.1 = setSourcePathActivePathsLocked st1 kept.1
       | Some (p, slot) =>
           replaced r.2 = true /\ newPath r.2 = p /\ oldPath r.2 = nth slot kept.1 zeroPath
           /\ r.1 = setSourcePathActivePathsLocked
                (MkActive (sourcePathActivePaths st) (sourcePathActiveCount st) now
                   (sourcePathLastRefresh st1) (sourcePathPromoteBudget st1 - 1))
                (<[slot := p]> kept.1)
       end.
Proof.
  intros Hl. cbv zeta. unfold sourcePathApplyActivePathPolicyLocked.
  rewrite (proj2 (Nat.ltb_ge _ _) Hl). unfold refreshState.
  destruct (refreshDue st now ranked); unfold keptActive; simpl sourcePathActivePaths;
    simpl sourcePathActiveCount; destruct (sourcePathActivePaths st) as [p0 p1];
    destruct (foldl _ _ _) as [current missing]; cbn [fst snd];
    (destruct (missing || _); [by destruct (_ <? _)%nat|]);
    (destruct (if canPromote _ now then _ else _) as [[p slot]|]; [done|done]).
Qed.

(** The active-path policy picks a proper pair: whenever the ranked pool holds two
    different paths the result is two different ranked paths, best first, recorded as the
    active ones; otherwise there is no result and nothing stays active. The policy state
    stays well formed (at most two promotions per refresh). *)
Theorem active_policy_selects st now ranked :
  active_wf st -> Forall path_ok ranked ->
  let r := sourcePathApplyActivePathPolicyLocked st now ranked in
  active_wf r.1.1
  /\ (active_pair ranked r.1.1 r.1.2
      \/ (r.1.2 = [] /\ sourcePathActiveCount r.1.1 = 0
          /\ forall p q, p ∈ ranked -> q ∈ ranked -> ident p = ident q)).
Proof.
  intros [Hc Hd Hb] Hok. cbv zeta.
  destruct (Nat.ltb_spec (length ranked) 2) as [Hlt|Hge].
  { unfold sourcePathApplyActivePathPolicyLocked. rewrite (proj2 (Nat.ltb_lt _ _) Hlt). simpl.
    split; [split; simpl; [by left|done|done]|]. right. split_and!; [done|done|].
    destruct ranked as [|x [|? ?]]; simpl in Hlt; [set_solver| |lia].
    intros p q ->%list_elem_of_singleton ->%list_elem_of_singleton. done. }
  pose proof (policy_unfold st now ranked Hge) as Hr. cbv zeta in Hr.
  destruct (keptActive_selection st ranked) as [Hsel Hlen].
  destruct (keptActive st ranked) as [current missing]. cbn [fst snd] in *.
  assert (0 <= sourcePathPromoteBudget (refreshState st now ranked) <= 2) as Hb1.
  { unfold refreshState. destruct (refreshDue st now ranked); simpl; lia. }
  destruct (missing || _) eqn:Em.
  - destruct Hr as [_ Hr]. rewrite Hr. clear Hr.
    destruct (fillLoop_selection 2 current ranked (2 <=? sourcePathDistinctDstCount ranked)%nat)
      as (Hs1 & Hl1 & _ & Hnone); [done|done|lia|].
    change (fillLoop 2 current ranked (2 <=? sourcePathDistinctDstCount ranked)%nat)
      with (sourcePathFillActivePaths current ranked) in *.
    destruct (Nat.ltb_spec (length (sourcePathFillActivePaths current ranked)) 2) as [Hlt|Hge2].
    + split; [split; simpl; [by left|done|lia]|]. right. split_and!; [done|done|].
      intros p q Hp Hq. apply (Hnone Hlt) in Hp, Hq.
      destruct (sourcePathFillActivePaths current ranked) as [|x [|? ?]]; simpl in *; [set_solver| |lia].
      apply list_elem_of_singleton in Hp, Hq. congruence.
    + edestruct (active_pair_of_selection) as (H1 & H2 & _); [exact Hok|exact Hs1|lia| |
        split; [exact H1|left; exact H2]]. simpl. lia.
  - apply orb_false_iff in Em as [_ Em%Nat.ltb_ge].
    destruct (if canPromote _ now then _ else _) as [[p slot]|] eqn:Ep.
    + destruct (canPromote _ now) eqn:Ecan; [|done].
      apply bestPromotion_spec in Ep as (Hp & Hid & Hslot & _).
      assert (slot < 2)%nat as Hs2 by (eapply promotionSlot_lt; [exact Hslot|lia]).
      destruct (promotion_selection ranked current p slot) as [Hs3 Hl3]; [done|lia|done|done|done|].
      destruct Hr as (_ & _ & _ & Hr). rewrite Hr.
      edestruct (active_pair_of_selection) as (H1 & H2 & _); [exact Hok|exact Hs3|done| |
        split; [exact H1|left; exact H2]]. simpl.
      unfold canPromote in Ecan. bool_props. lia.
    + destruct Hr as [_ Hr]. rewrite Hr.
      edestruct (active_pair_of_selection) as (H1 & H2 & _); [exact Hok|exact Hsel|lia|exact Hb1|
        split; [exact H1|left; exact H2]].
Qed.

(** Active paths are stable: while both stay ranked, the policy keeps exactly them
    unless it promotes; a promotion needs budget and an elapsed cooldown, puts in one path
    strictly better than the one it takes out, keeps the other, and restarts the
    cooldown. *)
Theorem active_policy_stable st now ranked p0 p1 :
  active_wf st -> Forall path_ok ranked ->
  sourcePathActivePaths st = (p0, p1) -> sourcePathActiveCount st = 2 ->
  ident p0 ∈ ident <$> ranked -> ident p1 ∈ ident <$> ranked ->
  let r := sourcePathApplyActivePathPolicyLocked st now ranked in
  if replaced r.2
  then canPromote (refreshState st now ranked) now = true
       /\ compareSourcePathSendPath (newPath r.2) (oldPath r.2) < 0
       /\ sourcePathLastReplace r.1.1 = now
       /\ exists kept, (ident <$> [oldPath r.2; kept]) ≡ₚ [ident p0; ident p1]
          /\ (ident <$> r.1.2) ≡ₚ [ident (newPath r.2); ident kept]
  else (ident <$> r.1.2) ≡ₚ [ident p0; ident p1]
       /\ sourcePathLastReplace r.1.1 = sourcePathLastReplace st.
Proof.
  intros [Hc Hd Hb] Hok Hact Hcnt H0 H1. cbv zeta.
  assert (ident p0 <> ident p1) as Hne by (specialize (Hd Hcnt); by rewrite Hact in Hd).
  assert (2 <= length ranked)%nat as Hge.
  { destruct ranked as [|x [|? ?]]; simpl in *; [set_solver| |lia].
    apply list_elem_of_singleton in H0, H1. congruence. }
  destruct (keptActive_still_ranked st ranked p0 p1 Hact Hcnt Hne H0 H1)
    as (r0 & r1 & Hk & Hr0 & Hr1 & Hin0 & Hin1).
  pose proof (keptActive_selection st ranked) as [Hsel _].
  pose proof (policy_unfold st now ranked Hge) as Hr. cbv zeta in Hr. rewrite Hk in Hr, Hsel.
  cbn [fst snd orb length Nat.ltb Nat.leb] in Hr, Hsel.
  assert (0 <= sourcePathPromoteBudget (refreshState st now ranked) <= 2) as Hb1.
  { unfold refreshState. destruct (refreshDue st now ranked); simpl; lia. }
  destruct (if canPromote _ now then _ else _) as [[p slot]|] eqn:Ep.
  - destruct (canPromote _ now) eqn:Ecan; [|done].
    apply bestPromotion_spec in Ep as (Hp & Hid & Hslot & Hbetter).
    assert (slot < 2)%nat as Hs2 by (eapply promotionSlot_lt; [exact Hslot|done]).
    destruct (promotion_selection ranked [r0; r1] p slot) as [Hs3 Hl3]; [done..|].
    destruct Hr as (-> & -> & -> & Hr). rewrite Hr.
    edestruct (active_pair_of_selection) as (_ & _ & Hperm & Hrep & _);
      [exact Hok|exact Hs3|done| |rewrite Hrep].
    { simpl. unfold canPromote in Ecan. bool_props. lia. }
    split_and!; [done|done|done|]. destruct slot as [|[|?]]; [| |lia].
    + exists r1. rewrite Hperm. simpl. rewrite Hr0, Hr1. done.
    + exists r0. rewrite Hperm. simpl. rewrite Hr0, Hr1. split; apply Permutation_swap.
  - destruct Hr as [-> Hr]. rewrite Hr.
    edestruct (active_pair_of_selection) as (_ & _ & Hperm & Hrep & _);
      [exact Hok|exact Hsel|done|exact Hb1|rewrite Hperm, Hrep].
    simpl. rewrite Hr0, Hr1. split; [done|]. unfold refreshState. by destruct (refreshDue st now ranked).
Qed.

(** ** Redundancy across destinations *)
Lemma distinct_fold (l : list sourcePathSendPath) seen :
  NoDup seen ->
  let r := foldl (fun seen p => if decide (pt_dst p ∈ seen) then seen else seen ++ [pt_dst p]) seen l in
  NoDup r /\ forall d, d ∈ r <-> d ∈ seen \/ d ∈ pt_dst <$> l.
Proof.
  revert seen. induction l as [|p l IH]; intros seen Hnd; simpl; [set_solver|].
  destruct (IH (if decide (pt_dst p ∈ seen) then seen else seen ++ [pt_dst p])) as [H1 H2].
  { case_decide; [done|]. apply NoDup_app. split_and!; [done|set_solver|apply NoDup_singleton]. }
  split; [done|]. intros d. rewrite H2, elem_of_cons. case_decide as Hin.
  - split; [tauto|]. intros [?|[->|?]]; auto.
  - rewrite elem_of_app, list_elem_of_singleton. tauto.
Qed.

Lemma distinctDstCount_two ranked p q :
  p ∈ ranked -> q ∈ ranked -> pt_dst p <> pt_dst q -> (2 <=? sourcePathDistinctDstCount ranked)%nat = true.
Proof.
  intros Hp Hq Hne. apply Nat.leb_le. unfold sourcePathDistinctDstCount.
  destruct (distinct_fold ranked [] (NoDup_nil_2)) as [_ Hin].
  pose proof (proj2 (Hin (pt_dst p)) (or_intror (list_elem_of_fmap_2 _ _ _ Hp))) as H1.
  pose proof (proj2 (Hin (pt_dst q)) (or_intror (list_elem_of_fmap_2 _ _ _ Hq))) as H2.
  destruct (foldl _ _ _) as [|x [|y l]]; simpl in *; [set_solver| |lia].
  apply list_elem_of_singleton in H1, H2. congruence.
Qed.

Lemma fillLoop_distinct fuel current ranked :
  (forall d, exists p, p ∈ ranked /\ pt_dst p <> d) ->
  NoDup (pt_dst <$> current) -> NoDup (pt_dst <$> fillLoop fuel current ranked true).
Proof.
  intros Hr. revert current. induction fuel as [|fuel IH]; intros current Hnd; simpl; [done|].
  destruct (Nat.ltb_spec (length current) 2) as [Hl|]; [|done].
  destruct (sourcePathFirstEligibleActivePath current ranked true) as [[i p]|] eqn:E.
  - apply first_eligible_some in E as (_ & _ & Hd). apply IH. rewrite fmap_app.
    apply NoDup_app. split_and!; [done| |apply NoDup_singleton].
    intros x Hx Hx'. apply list_elem_of_singleton in Hx' as ->. by apply Hd.
  - exfalso. destruct current as [|a [|? ?]]; [| |simpl in Hl; lia].
    + destruct (Hr (pt_dst zeroPath)) as (p & Hp & _).
      destruct (first_eligible_none _ _ _ p E Hp) as [F|[_ F]]; set_solver.
    + destruct (Hr (pt_dst a)) as (p & Hp & Hne).
      destruct (first_eligible_none _ _ _ p E Hp) as [F|[_ F]]; simpl in F;
        apply list_elem_of_singleton in F; unfold ident in F; congruence.
Qed.

(** Kept paths carry the identity of an active one. *)
Lemma keptActive_ident st ranked p :
  p ∈ (keptActive st ranked).1 -> sourcePathActiveCount st <= 2 ->
  exists a, ident p = ident a /\ a ∈ take (Z.to_nat (sourcePathActiveCount st))
    [(sourcePathActivePaths st).1; (sourcePathActivePaths st).2].
Proof.
  unfold keptActive. destruct (sourcePathActivePaths st) as [p0 p1]. simpl.
  generalize (take (Z.to_nat (sourcePathActiveCount st)) [p0; p1]). intros l.
  generalize (sourcePathActiveCount st <? 2). intros b.
  assert (forall acc l, p ∈ (foldl (keepStep ranked) acc l).1 ->
    p ∈ acc.1 \/ exists a, ident p = ident a /\ a ∈ l) as Hf.
  { intros acc l0. revert acc. induction l0 as [|a l0 IH]; intros [c m] Hp; [by left|].
    destruct (IH _ Hp) as [Hin|(a' & ? & ?)]; [|right; exists a'; split; [done|by right]].
    simpl in Hin. destruct (list_find _ ranked) as [[i r]|] eqn:E; [|by left].
    apply list_find_Some in E as (_ & Hs%same_ident & _). simpl in Hin.
    destruct (isNone _); [|by left]. apply elem_of_app in Hin as [?|Hin]; [by left|].
    apply list_elem_of_singleton in Hin as ->. right. exists a. split; [done|by left]. }
  intros Hp _. destruct (Hf ([], b) l Hp) as [F|?]; [by apply elem_of_nil in F|done].
Qed.

Lemma keptActive_distinct st ranked :
  sourcePathActiveCount st = 0
  \/ (sourcePathActiveCount st = 2
      /\ pt_dst (sourcePathActivePaths st).1 <> pt_dst (sourcePathActivePaths st).2) ->
  NoDup (pt_dst <$> (keptActive st ranked).1).
Proof.
  intros Hst. pose proof (keptActive_selection st ranked) as [[Hnd _] Hl].
  pose proof (keptActive_ident st ranked) as Hid.
  destruct (keptActive st ranked).1 as [|a [|b [|? ?]]]; simpl in *; [constructor|apply NoDup_singleton| |lia].
  destruct Hst as [H0|[H2 Hne]].
  { destruct (Hid a) as (x & _ & Hx); [set_solver|lia|]. rewrite H0 in Hx. by apply elem_of_nil in Hx. }
  destruct (Hid a) as (x & Hax & Hx); [set_solver|lia|]. destruct (Hid b) as (y & Hby & Hy); [set_solver|lia|].
  rewrite H2 in Hx, Hy. simpl in Hx, Hy. apply NoDup_cons in Hnd as [Hab _].
  rewrite list_elem_of_singleton in Hab. unfold ident in *.
  apply NoDup_cons. split; [|apply NoDup_singleton]. rewrite list_elem_of_singleton.
  apply elem_of_cons in Hx as [->|Hx%list_elem_of_singleton];
    apply elem_of_cons in Hy as [->|Hy%list_elem_of_singleton]; subst; congruence.
Qed.

Lemma promotion_distinct current p slot :
  length current = 2%nat -> NoDup (pt_dst <$> current) ->
  sourcePathPromotionSlot current p true = Some slot -> NoDup (pt_dst <$> <[slot := p]> current).
Proof.
  intros Hl Hnd Hs. destruct current as [|a [|b [|? ?]]]; try done.
  unfold sourcePathPromotionSlot in Hs. simpl in Hnd. apply NoDup_cons in Hnd as [Hab _].
  rewrite list_elem_of_singleton in Hab.
  destruct (list_find _ [a; b]) as [[i x]|] eqn:E; simpl in Hs.
  - injection Hs as ->. apply list_find_Some in E as (Hi & Hd & _).
    destruct slot as [|[|?]]; simpl in *; simplify_eq; repeat constructor;
      rewrite ?list_elem_of_singleton, ?elem_of_nil; congruence.
  - apply list_find_None in E. apply Forall_cons in E as [Ha E]. apply Forall_cons in E as [Hb _].
    case_match; simplify_eq; simpl; repeat constructor;
      rewrite ?list_elem_of_singleton, ?elem_of_nil; congruence.
Qed.

(** Dual-send spreads over peer endpoints: if the ranked pool reaches the peer at two
    different addresses, the chosen pair uses two different addresses, starting from no
    active paths or from active paths that already do. *)
Theorem active_policy_spreads st now ranked p q :
  active_wf st -> Forall path_ok ranked ->
  p ∈ ranked -> q ∈ ranked -> pt_dst p <> pt_dst q ->
  sourcePathActiveCount st = 0
  \/ pt_dst (sourcePathActivePaths st).1 <> pt_dst (sourcePathActivePaths st).2 ->
  let r := sourcePathApplyActivePathPolicyLocked st now ranked in
  exists p0 p1, r.1.2 = [p0; p1] /\ pt_dst p0 <> pt_dst p1.
Proof.
  intros [Hc Hd Hb] Hok Hp Hq Hne Hst. cbv zeta.
  assert (2 <= length ranked)%nat as Hge.
  { destruct ranked as [|x [|? ?]]; simpl in *; [set_solver| |lia].
    apply list_elem_of_singleton in Hp, Hq. congruence. }
  assert (forall d, exists p, p ∈ ranked /\ pt_dst p <> d) as Hr2.
  { intros d. destruct (decide (pt_dst p = d)); [exists q|exists p]; split; congruence. }
  assert (forall st' l, selection ranked l -> length l = 2%nat -> NoDup (pt_dst <$> l) ->
    exists p0 p1, (setSourcePathActivePathsLocked st' l).2 = [p0; p1] /\ pt_dst p0 <> pt_dst p1) as Hset.
  { intros st' l [_ Hin] Hl Hnd. destruct (setActive_spec st' l Hl) as (p0 & p1 & Hperm & _ & ->).
    { rewrite Forall_forall in Hok |- *. auto. }
    exists p0, p1. split; [done|]. rewrite <- Hperm in Hnd. simpl in Hnd.
    apply NoDup_cons in Hnd as [Hn _]. by rewrite list_elem_of_singleton in Hn. }
  pose proof (policy_unfold st now ranked Hge) as Hr. cbv zeta in Hr.
  destruct (keptActive_selection st ranked) as [Hsel Hlen].
  assert (NoDup (pt_dst <$> (keptActive st ranked).1)) as Hkd
    by (apply keptActive_distinct; destruct Hc; tauto).
  unfold sourcePathFillActivePaths, sourcePathBestPromotion in Hr.
  rewrite (distinctDstCount_two ranked p q) in Hr by done.
  destruct (keptActive st ranked) as [current missing]. cbn [fst snd] in *.
  destruct (missing || _) eqn:Em.
  - destruct Hr as [_ ->].
    destruct (fillLoop_selection 2 current ranked true) as (Hs1 & Hl1 & _ & Hnone); [done|done|lia|].
    destruct (Nat.ltb_spec (length (fillLoop 2 current ranked true)) 2) as [Hlt|Hge2].
    + apply (Hnone Hlt) in Hp, Hq.
      destruct (fillLoop 2 current ranked true) as [|x [|? ?]]; simpl in *; [set_solver| |lia].
      apply list_elem_of_singleton in Hp, Hq. unfold ident in *. congruence.
    + apply Hset; [done|lia|by apply fillLoop_distinct].
  - apply orb_false_iff in Em as [_ Em%Nat.ltb_ge].
    destruct (if canPromote _ now then _ else _) as [[x slot]|] eqn:Ep.
    + destruct (canPromote _ now); [|done]. destruct Hr as (_ & _ & _ & ->).
      apply bestPromotion_spec in Ep as (Hx & Hid & Hslot & _).
      assert (slot < 2)%nat as Hs2 by (eapply promotionSlot_lt; [exact Hslot|lia]).
      destruct (promotion_selection ranked current x slot) as [Hs3 Hl3]; [done|lia|done|done|done|].
      apply Hset; [done|done|]. apply promotion_distinct; [lia|done|done].
    + destruct Hr as [_ ->]. apply Hset; [done|lia|done].
Qed.

(** ** Properties of the ranking *)
Section RankFacts.
Context `{Platform} (k : Knobs).
Implicit Types (pm : sourcePathProbeManager) (now : Z).

Lemma candidateScoreLocked_frame pm dst source now rtt :
  samples (candidateScoreLocked k pm dst source now rtt).1 = samples pm
  /\ dualSendDemotedAuxTill (candidateScoreLocked k pm dst source now rtt).1
     = dualSendDemotedAuxTill pm.
Proof.
  destruct (candidateScoreLocked_pm k pm dst source now rtt) as [-> | ->]; [done|].
  by rewrite pruneExpiredOutcomesLocked_frame.
Qed.

Definition demotedAt pm (key : sourcePathDualSendKey) now : bool := (dualSendDemotedLocked pm key now).2.

Lemma dualSendDemotedLocked_frame pm key now key' :
  samples (dualSendDemotedLocked pm key now).1 = samples pm
  /\ demotedAt (dualSendDemotedLocked pm key now).1 key' now = demotedAt pm key' now.
Proof.
  unfold demotedAt, dualSendDemotedLocked.
  destruct (dualSendDemotedAuxTill pm !! key) as [u|] eqn:E; [|done].
  destruct (negb (Mono.Before now u)) eqn:Eb; [|done]. simpl. split; [done|].
  destruct (decide (key' = key)) as [->|Hne].
  - rewrite lookup_delete_eq, E, Eb. done.
  - rewrite lookup_delete_ne by done. destruct (_ !! key'); [|done]. by case_match.
Qed.

(** What the ranking loop knows about a path it added. *)
Definition earned_path pm dst (sources : list sourceRxMeta) now (p : sourcePathSendPath) : Prop :=
  pt_dst p = dst /\ pt_hasLatency p = true /\ pt_source p ∈ sources /\ isPrimary (pt_source p) = false
  /\ demotedAt pm (MkDSKey dst (pt_source p)) now = false
  /\ 3 <= Z.of_nat (length (freshSamples k pm dst (pt_source p) now)) /\ Mono.ok (pt_lastAt p).

Lemma rankStep_earned pm candidate now sources acc source :
  Forall (fun s => Mono.ok (s_at s)) (samples pm) -> source ∈ sources ->
  samples acc.1 = samples pm -> (forall key, demotedAt acc.1 key now = demotedAt pm key now) ->
  let r := rankStep k candidate now acc source in
  samples r.1 = samples pm /\ (forall key, demotedAt r.1 key now = demotedAt pm key now)
  /\ (r.2 = acc.2 \/ exists p, r.2 = acc.2 ++ [p] /\ pt_source p = source
      /\ earned_path pm (dc_dst candidate) sources now p).
Proof.
  intros Hok Hsrc Hs Hd. destruct acc as [pm0 paths]. simpl in *. unfold rankStep.
  pose proof (dualSendDemotedLocked_frame pm0 (MkDSKey (dc_dst candidate) source) now) as Hfr.
  pose proof (Hd (MkDSKey (dc_dst candidate) source)) as Hdem. unfold demotedAt at 1 in Hdem.
  destruct (dualSendDemotedLocked pm0 _ now) as [pm1 demoted]. simpl in Hfr, Hdem.
  assert (samples pm1 = samples pm) as Hs1 by (rewrite (proj1 (Hfr (MkDSKey zeroEpAddr (MkRxMeta 0 0)))); done).
  assert (forall key, demotedAt pm1 key now = demotedAt pm key now) as Hd1
    by (intros key; rewrite (proj2 (Hfr key)); auto).
  destruct demoted; [split_and!; auto|].
  pose proof (candidateScoreLocked_frame pm1 (dc_dst candidate) source now 0) as [Hs2 Hd2].
  pose proof (candidateScoreLocked_Some k pm1 (dc_dst candidate) source now 0) as Hearn.
  pose proof (candidate_lastAt_ok k pm1 (dc_dst candidate) source now 0) as Hlast.
  destruct (candidateScoreLocked k pm1 (dc_dst candidate) source now 0) as [pm2 [score|]]; simpl in *.
  2:{ split_and!; [congruence| |by left]. intros key. rewrite <- Hd1. unfold demotedAt,
        dualSendDemotedLocked. rewrite Hd2. repeat case_match; done. }
  assert (samples pm2 = samples pm /\ forall key, demotedAt pm2 key now = demotedAt pm key now) as [Hs3 Hd3].
  { split; [congruence|]. intros key. rewrite <- Hd1. unfold demotedAt, dualSendDemotedLocked.
    rewrite Hd2. repeat case_match; done. }
  rewrite <- Hs1 in Hok. specialize (Hearn score Hok eq_refl) as (_ & Hp & Hsrc' & Hn & H3 & _).
  specialize (Hlast score Hok eq_refl).
  case_match; split_and!; auto; right. eexists. split_and!; [done|done|].
  unfold earned_path. simpl. split_and!; auto.
  rewrite Hn in H3. unfold freshSamples in *. by rewrite Hs1 in H3.
Qed.

Lemma rankFold_earned pm candidate now sources acc :
  Forall (fun s => Mono.ok (s_at s)) (samples pm) ->
  samples acc.1 = samples pm -> (forall key, demotedAt acc.1 key now = demotedAt pm key now) ->
  exists added, (foldl (rankStep k candidate now) acc sources).2 = acc.2 ++ added
    /\ Forall (earned_path pm (dc_dst candidate) sources now) added
    /\ (pt_source <$> added) `sublist_of` sources.
Proof.
  intros Hok. assert (forall l acc, (forall s, s ∈ l -> s ∈ sources) ->
    samples acc.1 = samples pm -> (forall key, demotedAt acc.1 key now = demotedAt pm key now) ->
    exists added, (foldl (rankStep k candidate now) acc l).2 = acc.2 ++ added
    /\ Forall (earned_path pm (dc_dst candidate) sources now) added
    /\ (pt_source <$> added) `sublist_of` l) as Hf.
  { induction l as [|s l IH]; intros acc0 Hin Hs Hd; simpl.
    { exists []. rewrite app_nil_r. split_and!; constructor. }
    destruct (rankStep_earned pm candidate now sources acc0 s Hok) as (Hs1 & Hd1 & Hr);
      [apply Hin; by left|done|done|].
    destruct (IH (rankStep k candidate now acc0 s)) as (added & E & Ha & Hsub);
      [intros; apply Hin; by right|done|done|].
    destruct Hr as [Hr|(p & Hr & Hps & Hp)]; rewrite Hr in E.
    - exists added. split_and!; [done|done|by constructor].
    - exists (p :: added). rewrite <- app_assoc in E. split_and!; [done|by constructor|].
      simpl. rewrite Hps. by constructor. }
  intros. by apply Hf.
Qed.

(** Only deserving paths are ranked, best first: the ranked paths of a destination all
    lead there, in comparison order, within the limit, without repetition; the primary
    socket appears only where it is allowed or measured, and an auxiliary one only if it is
    bound, not demoted at that instant, and backed by three fresh samples. *)
Theorem ranked_paths_sound t pm sources candidate now limit :
  pm_wf k t pm -> (0 < limit)%nat -> NoDup sources -> Forall (fun s => isPrimary s = false) sources ->
  let paths := (sourcePathRankedSendPathsForDst k pm sources candidate now limit).2 in
  (length paths <= limit)%nat
  /\ StronglySorted (Slices.cmp_le compareSourcePathSendPath) paths
  /\ NoDup (ident <$> paths)
  /\ Forall (fun p => pt_dst p = dc_dst candidate
       /\ if isPrimary (pt_source p)
          then dc_allowPrimarySource candidate || dc_hasPrimaryRTT candidate = true
          else earned_path pm (dc_dst candidate) sources now p) paths.
Proof.
  intros Hwf Hlim Hnd Haux. cbv zeta. unfold sourcePathRankedSendPathsForDst.
  destruct (negb (isDirect (dc_dst candidate))).
  { simpl. split_and!; [lia|constructor|constructor|constructor]. }
  assert (Forall (fun s => Mono.ok (s_at s)) (samples pm)) as Hok.
  { eapply Forall_impl; [apply Hwf|]. pose proof (wf_now _ _ _ Hwf). unfold Mono.ok in *.
    simpl. intros s (_ & _ & _ & ?). lia. }
  set (init := if dc_allowPrimarySource candidate || dc_hasPrimaryRTT candidate then _ else _).
  destruct (rankFold_earned pm candidate now sources (pm, init) Hok eq_refl (fun _ => eq_refl))
    as (added & E & Hadd & Hsub).
  destruct (foldl (rankStep k candidate now) (pm, init) sources) as [pm' paths]. simpl in E |- *.
  assert (Forall (fun p => pt_dst p = dc_dst candidate /\ path_ok p
       /\ if isPrimary (pt_source p)
          then dc_allowPrimarySource candidate || dc_hasPrimaryRTT candidate = true
          else earned_path pm (dc_dst candidate) sources now p) paths) as Hall.
  { rewrite E. apply Forall_app. split.
    - unfold init. destruct (_ || _) eqn:Ea; [|constructor]. constructor; [|constructor].
      simpl. split_and!; [done|unfold path_ok, Mono.ok; simpl; lia|done].
    - eapply Forall_impl; [exact Hadd|]. intros p Hp. pose proof Hp as (? & _ & _ & -> & _ & _ & ?). done. }
  assert (NoDup (ident <$> paths)) as Hids.
  { rewrite E, fmap_app. apply NoDup_app. split_and!.
    - unfold init. destruct (_ || _); [apply NoDup_singleton|constructor].
    - intros x Hx (p & -> & Hp)%list_elem_of_fmap. rewrite Forall_forall in Hadd.
      destruct (Hadd p Hp) as (_ & _ & _ & Hprim & _). unfold init in Hx.
      destruct (_ || _); [|by apply elem_of_nil in Hx]. apply list_elem_of_singleton in Hx.
      unfold ident in Hx. simpl in Hx. injection Hx as _ Hx. by rewrite Hx in Hprim.
    - apply (NoDup_fmap_1 snd). rewrite <- list_fmap_compose. by eapply sublist_NoDup. }
  pose proof (Slices.SortFunc_perm compareSourcePathSendPath paths) as Hperm.
  pose proof (Slices.SortFunc_sorted path_ok compareSourcePathSendPath paths) as Hsorted.
  specialize (Hsorted ltac:(eapply Forall_impl; [exact Hall|]; simpl; tauto)).
  rewrite <- Hperm in Hids, Hall.
  assert (Forall (fun p => pt_dst p = dc_dst candidate
       /\ if isPrimary (pt_source p)
          then dc_allowPrimarySource candidate || dc_hasPrimaryRTT candidate = true
          else earned_path pm (dc_dst candidate) sources now p)
       (Slices.SortFunc compareSourcePathSendPath paths)) as Hall'.
  { eapply Forall_impl; [exact Hall|]. simpl. tauto. }
  destruct ((0 <? limit)%nat && (limit <? _)%nat) eqn:Elim.
  - split_and!; [rewrite length_take; lia|auto with netdb| |auto with netdb].
    rewrite fmap_take. eapply sublist_NoDup; [exact Hids|apply sublist_take].
  - split_and!; [|done|done|done]. apply andb_false_iff in Elim as [Elim|Elim];
      apply Nat.ltb_ge in Elim; lia.
Qed.
End RankFacts.

(** ** Witnesses *)
Definition ex_dst2 : epAddr := epAddr_of (MkAddrPort (Addr4 0xc0000202) 41641).
Definition ex_p (dst : epAddr) (src : sourceRxMeta) (lat : Z) : sourcePathSendPath :=
  MkPath dst src lat true ex_t0.
Definition ex_ranked : list sourcePathSendPath :=
  [ex_p ex_dst ex_aux 10; ex_p ex_dst ex_aux2 20; ex_p ex_dst2 ex_aux 30].

Lemma ex_ranked_ok : Forall path_ok ex_ranked.
Proof. repeat constructor; vm_compute; congruence. Qed.
Lemma zeroActive_wf : active_wf zeroActive.
Proof. split; simpl; [by left|done|lia]. Qed.

(** After the first call the pair is (fastest, fastest to the other address). *)
Definition ex_active : activeState :=
  (sourcePathApplyActivePathPolicyLocked zeroActive ex_t0 ex_ranked).1.1.

Lemma ex_active_wf : active_wf ex_active.
Proof. split; [by right|intros _; vm_compute; congruence|vm_compute; split; congruence]. Qed.

Lemma active_policy_selects_witness :
  active_pair ex_ranked (sourcePathApplyActivePathPolicyLocked zeroActive ex_t0 ex_ranked).1.1
    (sourcePathApplyActivePathPolicyLocked zeroActive ex_t0 ex_ranked).1.2.
Proof.
  destruct (active_policy_selects zeroActive ex_t0 ex_ranked zeroActive_wf ex_ranked_ok)
    as [_ [Hp|(E & _)]]; [exact Hp|]. exfalso. revert E. vm_compute. congruence.
Defined.

(** A refresh an hour later promotes a path that became the fastest. *)
Definition ex_ranked' : list sourcePathSendPath :=
  [ex_p ex_dst ex_aux2 5; ex_p ex_dst ex_aux 10; ex_p ex_dst2 ex_aux 30].

Lemma active_policy_stable_witness :
  let r := sourcePathApplyActivePathPolicyLocked ex_active (ex_t0 + 2 * Hour) ex_ranked' in
  replaced r.2 = true /\ sourcePathLastReplace r.1.1 = ex_t0 + 2 * Hour.
Proof.
  assert (Forall path_ok ex_ranked') as Hok by (repeat constructor; vm_compute; congruence).
  pose proof (active_policy_stable ex_active (ex_t0 + 2 * Hour) ex_ranked'
    (ex_p ex_dst ex_aux 10) (ex_p ex_dst2 ex_aux 30) ex_active_wf Hok eq_refl eq_refl) as Hs.
  assert (replaced (sourcePathApplyActivePathPolicyLocked ex_active (ex_t0 + 2 * Hour) ex_ranked').2
    = true) as E by (vm_compute; reflexivity).
  cbv zeta in *. rewrite E in Hs. split; [exact E|].
  apply Hs; apply (bool_decide_eq_true_1 _); vm_compute; reflexivity.
Defined.

Lemma active_policy_spreads_witness :
  exists p0 p1, (sourcePathApplyActivePathPolicyLocked zeroActive ex_t0 ex_ranked).1.2 = [p0; p1]
    /\ pt_dst p0 <> pt_dst p1.
Proof.
  apply (active_policy_spreads zeroActive ex_t0 ex_ranked (ex_p ex_dst ex_aux 10) (ex_p ex_dst2 ex_aux 30)
    zeroActive_wf ex_ranked_ok).
  - by left.
  - right. right. by left.
  - vm_compute. congruence.
  - by left.
Defined.

Lemma ranked_paths_sound_witness :
  let candidate := MkDstCand ex_dst (30 * Millisecond) true true in
  let paths := (sourcePathRankedSendPathsForDst (H := portable_platform) defaultKnobs ex_pm
                  [ex_aux; ex_aux2] candidate (ex_t0 + 1) 3).2 in
  pt_source <$> paths = [ex_aux2; ex_aux; primarySourceRxMeta]
  /\ StronglySorted (Slices.cmp_le compareSourcePathSendPath) paths.
Proof.
  intros candidate. cbv zeta. split; [vm_compute; reflexivity|].
  assert (NoDup [ex_aux; ex_aux2]) as Hnd by (apply (bool_decide_eq_true_1 _); vm_compute; reflexivity).
  assert (Forall (fun s => isPrimary s = false) [ex_aux; ex_aux2]) as Haux by (repeat constructor).
  destruct (ranked_paths_sound (H := portable_platform) defaultKnobs (ex_t0 + 1) ex_pm
    [ex_aux; ex_aux2] candidate (ex_t0 + 1) 3 ex_pm_wf (Nat.lt_0_succ 2) Hnd Haux)
    as (_ & Hsorted & _). exact Hsorted.
Defined.
