(* ===== verification/EndpointState.v ===== *)
(** * Per-address state of a peer ([endpointState], endpoint.go)

    History kept for one address of a peer: pings, the ring of recent pongs, and how the
    address became known. Wall-clock instants ([time.Time]) are [option Z], [None] being
    the zero time; [wallNow] is what [time.Now] returns. *)
From S2P Require Import Prelude Netip Bytes ProbeManager.

Record pongReply := MkPong {
  pr_latency : Z;
  pongAt : Z;
  pr_from : AddrPort;
  pr_pongSrc : AddrPort
}.

Record endpointState := MkES {
  lastPing : Z;
  lastGotPing : option Z;
  lastGotPingTxID : TxID;
  callMeMaybeTime : option Z;
  recentPongs : list pongReply;
  recentPong : Z;
  index : Z
}.
Definition zeroTxID : TxID := replicate 12 x00.
Definition zeroES : endpointState := MkES 0 None zeroTxID None [] 0 0.

Definition pongHistoryCount : Z := 64.
Definition indexSentinelDeleted : Z := -1.
Definition sessionActiveTimeout : Z := 45 * Second.

Definition set_lastPing (st : endpointState) (t : Z) : endpointState :=
  MkES t (lastGotPing st) (lastGotPingTxID st) (callMeMaybeTime st) (recentPongs st)
       (recentPong st) (index st).
Definition set_index (st : endpointState) (i : Z) : endpointState :=
  MkES (lastPing st) (lastGotPing st) (lastGotPingTxID st) (callMeMaybeTime st) (recentPongs st)
       (recentPong st) i.
Definition set_callMeMaybeTime (st : endpointState) (t : option Z) : endpointState :=
  MkES (lastPing st) (lastGotPing st) (lastGotPingTxID st) t (recentPongs st)
       (recentPong st) (index st).
Definition set_gotPing (st : endpointState) (t : option Z) (id : TxID) : endpointState :=
  MkES (lastPing st) t id (callMeMaybeTime st) (recentPongs st) (recentPong st) (index st).

(** [endpointState.clear]: keeps the index and the last incoming ping only. *)
Definition clear (st : endpointState) : endpointState :=
  MkES 0 (lastGotPing st) zeroTxID None [] 0 (index st).

(** [time.Since(t) > d] for a wall-clock instant. *)
Definition shouldDeleteLocked (wallNow : Z) (st : endpointState) : bool :=
  match callMeMaybeTime st, lastGotPing st with
  | Some _, _ => false
  | None, None => index st =? indexSentinelDeleted
  | None, Some t => sessionActiveTimeout <? wallNow - t
  end.

(** An index out of range panics; [pong_wf] rules it out. *)
Definition latencyLocked (st : endpointState) : option Z :=
  match recentPongs st with
  | [] => None
  | _ => pr_latency <$> recentPongs st !! Z.to_nat (recentPong st)
  end.

Definition addPongReplyLocked (st : endpointState) (r : pongReply) : endpointState :=
  let set pongs i := MkES (lastPing st) (lastGotPing st) (lastGotPingTxID st) (callMeMaybeTime st)
                          pongs i (index st) in
  let n := Z.of_nat (length (recentPongs st)) in
  if n <? pongHistoryCount then set (recentPongs st ++ [r]) (uw 16 n)
  else
    let i := uw 16 (recentPong st + 1) in
    let i := if i =? pongHistoryCount then 0 else i in
    set (<[Z.to_nat i := r]> (recentPongs st)) i.

(** The loop of [primaryPongsSinceLocked]. *)
Definition pongsSince (st : endpointState) (since : Z) : Z :=
  Z.of_nat (length (filter (fun p => Mono.IsZero (pongAt p) || Mono.Before (pongAt p) since = false)
                           (recentPongs st))).

(** ** The ring as a queue

    [history st] lists the retained pongs, newest first. *)
Definition history (st : endpointState) : list pongReply :=
  let n := Z.to_nat (recentPong st) in
  reverse (take (S n) (recentPongs st)) ++ reverse (drop (S n) (recentPongs st)).

(** The ring is empty with index 0, growing with the newest last, or full. *)
Definition pong_wf (st : endpointState) : Prop :=
  let n := Z.of_nat (length (recentPongs st)) in
  (n = 0 /\ recentPong st = 0)
  \/ (0 < n <= pongHistoryCount /\ recentPong st = n - 1)
  \/ (n = pongHistoryCount /\ 0 <= recentPong st < n).

Lemma zeroES_pong_wf : pong_wf zeroES.
Proof. by left. Qed.
Lemma clear_pong_wf st : pong_wf (clear st).
Proof. by left. Qed.

Lemma addPong_grow st r :
  pong_wf st -> Z.of_nat (length (recentPongs st)) < pongHistoryCount ->
  pong_wf (addPongReplyLocked st r) /\ history (addPongReplyLocked st r) = r :: history st.
Proof.
  unfold pong_wf, pongHistoryCount. intros Hwf Hn. unfold addPongReplyLocked, pongHistoryCount.
  rewrite (proj2 (Z.ltb_lt _ _) Hn). cbn [recentPongs recentPong].
  rewrite uw_small by lia. split.
  - right. left. rewrite length_app. simpl. lia.
  - unfold history. cbn [recentPongs recentPong]. rewrite Nat2Z.id.
    rewrite take_ge, drop_ge by (rewrite length_app; simpl; lia).
    rewrite reverse_snoc, reverse_nil, app_nil_r. f_equal.
    destruct (decide (recentPongs st = [])) as [E|E]; [rewrite E; by rewrite take_nil, drop_nil|].
    assert (recentPong st = Z.of_nat (length (recentPongs st)) - 1) as Hi.
    { destruct (recentPongs st); [done|]. simpl in *. lia. }
    rewrite take_ge, drop_ge by lia. by rewrite reverse_nil, app_nil_r.
Qed.

Lemma addPong_full st r :
  pong_wf st -> Z.of_nat (length (recentPongs st)) = pongHistoryCount ->
  pong_wf (addPongReplyLocked st r)
  /\ history (addPongReplyLocked st r) = r :: take 63 (history st).
Proof.
  intros Hwf Hn. unfold pong_wf in Hwf. unfold pongHistoryCount in *.
  assert (0 <= recentPong st < 64) as Hi by lia. clear Hwf.
  unfold addPongReplyLocked, pongHistoryCount. rewrite (proj2 (Z.ltb_ge _ _)) by lia.
  rewrite uw_small by lia. set (l := recentPongs st) in *.
  assert (length l = 64%nat) as Hl by lia.
  destruct (Z.eqb_spec (recentPong st + 1) 64) as [E|E]; cbv zeta; cbn [recentPongs recentPong].
  - split; [right; right; cbn [recentPongs recentPong]; rewrite length_insert; unfold pongHistoryCount; lia|].
    unfold history. cbn [recentPongs recentPong]. fold l.
    replace (Z.to_nat (recentPong st)) with 63%nat by lia.
    rewrite (take_ge l), (drop_ge l) by lia. rewrite reverse_nil, app_nil_r.
    destruct l as [|x l]; [done|]. simpl Z.to_nat. cbn [insert list_insert take drop].
    rewrite reverse_cons, take_app_le by (rewrite length_reverse; simpl in Hl; lia).
    rewrite (take_ge (reverse l)) by (rewrite length_reverse; simpl in Hl; lia). done.
  - split; [right; right; cbn [recentPongs recentPong]; rewrite length_insert; unfold pongHistoryCount; lia|].
    unfold history. cbn [recentPongs recentPong]. fold l.
    set (n := Z.to_nat (recentPong st)). replace (Z.to_nat (recentPong st + 1)) with (S n) by lia.
    assert (S n < length l)%nat as Hlt by lia.
    destruct (lookup_lt_is_Some_2 l (S n) Hlt) as [y Hy].
    rewrite (take_S_r _ (S n) r) by (by rewrite list_lookup_insert_eq).
    rewrite reverse_snoc. cbn [app]. f_equal.
    rewrite take_insert_ge by lia. rewrite drop_insert_lt by lia.
    rewrite (drop_S l y (S n) Hy), reverse_cons.
    rewrite app_assoc, take_app_le; [symmetry; apply take_ge|];
      rewrite length_app, !length_reverse, length_take, length_drop; lia.
Qed.

Lemma addPong_queue st r :
  pong_wf st ->
  pong_wf (addPongReplyLocked st r)
  /\ history (addPongReplyLocked st r) = r :: take 63 (history st).
Proof.
  intros Hwf.
  destruct (Z.lt_ge_cases (Z.of_nat (length (recentPongs st))) pongHistoryCount) as [Hlt|Hge].
  - destruct (addPong_grow st r Hwf Hlt) as [H1 H2]. split; [done|]. rewrite H2. f_equal.
    symmetry. apply take_ge. unfold history. rewrite length_app, !length_reverse, length_take, length_drop.
    unfold pongHistoryCount in Hlt. lia.
  - apply addPong_full; [done|]. unfold pong_wf, pongHistoryCount in *. lia.
Qed.
Lemma addPong_history st r :
  pong_wf st -> history (addPongReplyLocked st r) = r :: take 63 (history st).
Proof. apply addPong_queue. Qed.
Lemma addPong_latency st r :
  pong_wf st -> latencyLocked (addPongReplyLocked st r) = Some (pr_latency r).
Proof.
  intros Hwf. destruct (addPong_queue st r Hwf) as [Hwf' Hh].
  unfold latencyLocked. unfold history in Hh.
  destruct (recentPongs (addPongReplyLocked st r)) as [|x l] eqn:E; [by rewrite take_nil, drop_nil in Hh|].
  rewrite <- E in *. set (n := Z.to_nat _) in *.
  assert (n < length (recentPongs (addPongReplyLocked st r)))%nat as Hn.
  { unfold pong_wf in Hwf'. rewrite E in *. simpl in *. lia. }
  destruct (lookup_lt_is_Some_2 _ _ Hn) as [y Hy].
  rewrite (take_S_r _ n y Hy), reverse_snoc in Hh. simpl in Hh. injection Hh as -> _.
  by rewrite Hy.
Qed.

(** The pong ring is a bounded queue: adding a pong to a well-formed ring puts it in
    front of the history, keeps the 63 before it, drops only the oldest beyond 64, and the
    latency the endpoint reports is always the newest pong's. *)
Theorem pong_ring_refines_queue st r :
  pong_wf st ->
  let st' := addPongReplyLocked st r in
  pong_wf st' /\ history st' = r :: take 63 (history st)
  /\ latencyLocked st' = Some (pr_latency r).
Proof.
  intros Hwf. cbv zeta. destruct (addPong_queue st r Hwf). auto using addPong_latency.
Qed.

Lemma pong_ring_refines_queue_witness :
  let p := MkPong 7 (2 ^ 55) zeroAddrPort zeroAddrPort in
  latencyLocked (addPongReplyLocked (addPongReplyLocked zeroES (MkPong 9 1 zeroAddrPort zeroAddrPort)) p)
  = Some 7.
Proof.
  intros p.
  apply (pong_ring_refines_queue (addPongReplyLocked zeroES (MkPong 9 1 zeroAddrPort zeroAddrPort)) p).
  right. left. vm_compute. repeat split; congruence.
Defined.
