(* ===== verification/UdpLifetime.v ===== *)
(** * UDP path lifetime probing: configuration and cycle state (endpoint.go)

    A probing cycle pings the best path after ever longer silences, one per cliff of the
    configuration, to learn how long NATs keep the path open. *)
From S2P Require Import Prelude Netip Bytes ProbeManager EndpointState.

Definition heartbeatInterval : Z := 3 * Second.
Definition udpLifetimeProbeCliffSlack : Z := 2 * Second.
Definition udpLifetimeProbeSchedulingTolerance : Z := Z.quot udpLifetimeProbeCliffSlack 8.

Record ProbeUDPLifetimeConfig := MkLifetimeConfig {
  Cliffs : list Z;
  CycleCanStartEvery : Z
}.
#[export] Instance ProbeUDPLifetimeConfig_eq_dec : EqDecision ProbeUDPLifetimeConfig.
Proof. solve_decision. Defined.

Definition defaultProbeUDPLifetimeConfig : ProbeUDPLifetimeConfig :=
  MkLifetimeConfig [10 * Second; 30 * Second; 60 * Second] (24 * Hour).

Record probeUDPLifetime := MkLifetime {
  config : ProbeUDPLifetimeConfig;
  timer : bool;
  pl_bestAddr : epAddr;
  cycleStartedAt : option Z;
  cycleActive : bool;
  currentCliff : Z;
  lastTxID : TxID
}.
Definition zeroLifetime : probeUDPLifetime :=
  MkLifetime (MkLifetimeConfig [] 0) false zeroEpAddr None false 0 zeroTxID.

Definition set_timer (p : probeUDPLifetime) (b : bool) : probeUDPLifetime :=
  MkLifetime (config p) b (pl_bestAddr p) (cycleStartedAt p) (cycleActive p) (currentCliff p)
             (lastTxID p).
Definition set_lastTxID (p : probeUDPLifetime) (id : TxID) : probeUDPLifetime :=
  MkLifetime (config p) (timer p) (pl_bestAddr p) (cycleStartedAt p) (cycleActive p)
             (currentCliff p) id.
Definition set_config (p : probeUDPLifetime) (c : ProbeUDPLifetimeConfig) : probeUDPLifetime :=
  MkLifetime c (timer p) (pl_bestAddr p) (cycleStartedAt p) (cycleActive p) (currentCliff p)
             (lastTxID p).

(** Indexing past the cliffs panics ([None]); a nil receiver answers 0. *)
Definition currentCliffDurationEndpointLocked (p : option probeUDPLifetime) : option Z :=
  match p with
  | None => Some 0
  | Some p => if currentCliff p <? 0 then None else Cliffs (config p) !! Z.to_nat (currentCliff p)
  end.

Definition resetCycle (p : probeUDPLifetime) : probeUDPLifetime :=
  MkLifetime (config p) false zeroEpAddr (cycleStartedAt p) false 0 (lastTxID p).
Definition resetCycleEndpointLocked (p : option probeUDPLifetime) : option probeUDPLifetime :=
  resetCycle <$> p.

Definition Equals (p b : option ProbeUDPLifetimeConfig) : bool :=
  match p, b with
  | None, None => true
  | None, Some _ | Some _, None => false
  | Some p, Some b => bool_decide (Cliffs p = Cliffs b) && (CycleCanStartEvery p =? CycleCanStartEvery b)
  end.

Fixpoint cliffsOk (prev : option Z) (l : list Z) : bool :=
  match l with
  | [] => true
  | c :: l' =>
      if c <=? Z.max (udpLifetimeProbeCliffSlack * 2) heartbeatInterval then false
      else match prev with
           | Some p => if c <=? p then false else cliffsOk (Some c) l'
           | None => cliffsOk (Some c) l'
           end
  end.
Definition Valid (p : ProbeUDPLifetimeConfig) : bool :=
  if Z.of_nat (length (Cliffs p)) <? 1 then false
  else if CycleCanStartEvery p <? 1 then false
  else cliffsOk None (Cliffs p).

Definition setProbeUDPLifetimeConfigLocked (isWireguardOnly : bool) (cur : option probeUDPLifetime)
    (desired : option ProbeUDPLifetimeConfig) : option probeUDPLifetime :=
  if isWireguardOnly then cur
  else match desired with
  | None => None
  | Some desired =>
      if negb (Valid desired) then cur
      else match cur with
      | Some p =>
          if Equals (Some (config p)) (Some desired) then cur
          else Some (resetCycle (set_config (resetCycle p) desired))
      | None => Some (resetCycle (set_config zeroLifetime desired))
      end
  end.
Definition setProbeUDPLifetimeOn (isWireguardOnly : bool) (cur : option probeUDPLifetime) (v : bool)
  : option probeUDPLifetime :=
  setProbeUDPLifetimeConfigLocked isWireguardOnly cur
    (if v then Some defaultProbeUDPLifetimeConfig else None).

(** ** Well-formed cycles *)
Record lifetime_wf (p : probeUDPLifetime) : Prop := {
  lw_valid : Valid (config p) = true;
  lw_cliff : 0 <= currentCliff p < Z.of_nat (length (Cliffs (config p)));
  lw_idle : cycleActive p = false -> currentCliff p = 0
}.
Definition lifetime_ok (p : option probeUDPLifetime) : Prop := forall q, p = Some q -> lifetime_wf q.

Lemma cliffsOk_inv prev l :
  cliffsOk prev l = true ->
  Forall (fun c => 4 * Second < c) l /\ StronglySorted Z.lt l
  /\ match prev with Some p => Forall (fun c => p < c) l | None => True end.
Proof.
  revert prev. induction l as [|c l IH]; intros prev; simpl.
  { intros _. split_and!; [constructor|constructor|by destruct prev]. }
  change (Z.max _ _) with (4 * Second).
  destruct (c <=? 4 * Second) eqn:E1; [done|]. bool_props.
  assert (cliffsOk (Some c) l = true ->
    Forall (fun x => 4 * Second < x) (c :: l) /\ StronglySorted Z.lt (c :: l)) as Hc.
  { intros (H1 & H2 & H3)%IH. split; constructor; auto. }
  destruct prev as [p|]; [|intros H; destruct (Hc H); auto].
  destruct (c <=? p) eqn:E2; [done|]. bool_props. intros H. destruct (Hc H) as [H1 H2].
  split_and!; [done|done|]. apply StronglySorted_inv in H2 as [_ H2].
  constructor; [done|]. eapply Forall_impl; [exact H2|]. simpl. lia.
Qed.

Lemma Valid_spec c :
  Valid c = true <->
  Cliffs c <> [] /\ 1 <= CycleCanStartEvery c /\ cliffsOk None (Cliffs c) = true.
Proof.
  unfold Valid. destruct (Cliffs c) as [|x l] eqn:E; simpl length.
  { split; [done|]. by intros [? _]. }
  rewrite (proj2 (Z.ltb_ge _ 1)) by lia.
  destruct (Z.ltb_spec (CycleCanStartEvery c) 1); split; try done; naive_solver lia.
Qed.

Lemma resetCycle_wf p : Valid (config p) = true -> lifetime_wf (resetCycle p).
Proof.
  intros Hv. constructor; [done| |done]. simpl.
  apply Valid_spec in Hv as (Hne & _). destruct (Cliffs (config p)); [done|]. simpl. lia.
Qed.
Lemma resetCycleEndpointLocked_ok p : lifetime_ok p -> lifetime_ok (resetCycleEndpointLocked p).
Proof.
  intros Hok q. destruct p as [p|]; [|done]. intros [= <-].
  apply resetCycle_wf. by destruct (Hok p eq_refl).
Qed.
Lemma setProbeUDPLifetimeConfigLocked_ok wg cur desired :
  lifetime_ok cur -> lifetime_ok (setProbeUDPLifetimeConfigLocked wg cur desired).
Proof.
  intros Hok. unfold setProbeUDPLifetimeConfigLocked. destruct wg; [done|].
  destruct desired as [d|]; [|done]. destruct (Valid d) eqn:Hv; [simpl|done].
  destruct cur as [p|]; [destruct (_ && _); [done|]|]; intros q [= <-]; by apply resetCycle_wf.
Qed.
Lemma set_lastTxID_wf p id : lifetime_wf p -> lifetime_wf (set_lastTxID p id).
Proof. by intros []. Qed.
Lemma set_timer_wf p b : lifetime_wf p -> lifetime_wf (set_timer p b).
Proof. by intros []. Qed.

(** A well-formed cycle always has a current cliff, and one beyond the slack. *)
Lemma currentCliff_lookup p :
  lifetime_wf p ->
  exists d, currentCliffDurationEndpointLocked (Some p) = Some d /\ 4 * Second < d
            /\ Cliffs (config p) !! Z.to_nat (currentCliff p) = Some d.
Proof.
  intros [Hv Hc _]. unfold currentCliffDurationEndpointLocked.
  rewrite (proj2 (Z.ltb_ge _ 0)) by lia.
  destruct (lookup_lt_is_Some_2 (Cliffs (config p)) (Z.to_nat (currentCliff p))) as [d Hd]; [lia|].
  exists d. split_and!; [done| |done].
  apply Valid_spec in Hv as (_ & _ & Hk). apply cliffsOk_inv in Hk as (Hall & _).
  rewrite Forall_lookup in Hall. eauto.
Qed.

(** The lifetime configuration that is accepted is usable: its cliffs are non-empty,
    strictly ascending and each above twice the slack and the heartbeat interval; the
    default one is accepted, and installing a configuration never leaves a cycle whose
    cliff index could be out of range. *)
Theorem lifetime_config_sound c wg cur :
  (Valid c = true <->
   Cliffs c <> [] /\ 1 <= CycleCanStartEvery c
   /\ Forall (fun d => Z.max (2 * udpLifetimeProbeCliffSlack) heartbeatInterval < d) (Cliffs c)
   /\ StronglySorted Z.lt (Cliffs c))
  /\ Valid defaultProbeUDPLifetimeConfig = true
  /\ (lifetime_ok cur -> lifetime_ok (setProbeUDPLifetimeConfigLocked wg cur (Some c))).
Proof.
  split_and!; [|done|apply setProbeUDPLifetimeConfigLocked_ok].
  rewrite Valid_spec. change (Z.max _ _) with (4 * Second).
  split; intros (H1 & H2 & H3); split_and!; try done.
  1,2: by apply cliffsOk_inv in H3 as (? & ? & _).
  destruct H3 as [H3 H4]. clear H1.
  assert (forall prev, match prev with Some p => Forall (fun x => p < x) (Cliffs c) | None => True end ->
    cliffsOk prev (Cliffs c) = true) as Hgen; [|by apply (Hgen None)].
  induction H4 as [|x l Hs IH Hx]; intros prev Hprev; [done|].
  apply Forall_cons in H3 as [Hx4 H3]. cbn [cliffsOk]. change (Z.max _ _) with (4 * Second).
  rewrite (proj2 (Z.leb_gt x _)) by lia.
  destruct prev as [p|]; [apply Forall_cons in Hprev as [Hp _]; rewrite (proj2 (Z.leb_gt x p)) by lia|];
    by apply (IH H3 (Some x)).
Qed.
