(* ===== verification/BetterAddr.v ===== *)
(** * Choosing the best path to a peer (endpoint.go, directvsrelay.go, net/tstun/mtu.go)

    [addrQuality] and its comparison, the gate and the hold window for moves between a
    direct path and a peer relay, and the part of an endpoint that records the choice. *)
From S2P Require Import Prelude Netip Bytes Knobs ProbeManager EndpointState UdpLifetime.

(** ** Path MTU *)
Definition safeTUNMTU : Z := 1280.
Definition wgHeaderLen : Z := 40 + 8 + 4 + 4 + 8 + 16.
Definition TUNToWireMTU (t : Z) : Z := uw 32 (t + wgHeaderLen).
Definition WireToTUNMTU (w : Z) : Z := if w <? wgHeaderLen then 0 else w - wgHeaderLen.
Definition SafeWireMTU : Z := TUNToWireMTU safeTUNMTU.
Definition WireMTUsToProbe : list Z := [safeTUNMTU; TUNToWireMTU safeTUNMTU; 1400; 1500; 8000; 9000].

Definition GeneveFixedHeaderLength : Z := 8.
Definition ipHeaderLen (is6 : bool) : Z := if is6 then 40 else 20.

Definition pingSizeToPktLen (size : Z) (udpAddr : epAddr) : Z :=
  if size =? 0 then SafeWireMTU
  else
    let headerLen := ipHeaderLen (Is6 (ip (ap udpAddr))) + 8 in
    let headerLen := if VNI.IsSet (vni udpAddr) then headerLen + GeneveFixedHeaderLength else headerLen in
    uw 32 (size + headerLen).
Definition pktLenToPingSize (mtu : Z) (is6 : bool) : Z :=
  if mtu =? 0 then 0
  else
    let headerLen := ipHeaderLen is6 + 8 in
    if mtu <? headerLen then 0 else mtu - headerLen.
Definition mtuProbePingSizesV4 : list Z := map (fun m => pktLenToPingSize m false) WireMTUsToProbe.
Definition mtuProbePingSizesV6 : list Z := map (fun m => pktLenToPingSize m true) WireMTUsToProbe.

(** ** Comparing two paths *)
Record addrQuality := MkAQ {
  aq_ep : epAddr;
  relayServerDisco : DiscoPublic;
  aq_latency : Z;
  wireMTU : Z
}.
Definition zeroDisco : DiscoPublic := replicate 32 x00.
Definition zeroAQ : addrQuality := MkAQ zeroEpAddr zeroDisco 0 0.

Definition directBeatsRelayByThresholdLocked (directLat relayLat thresholdPct : Z) : bool :=
  if (directLat <=? 0) || (relayLat <=? 0) then false
  else if thresholdPct <=? 0 then false
  else
    let thresholdPct := if 100 <? thresholdPct then 100 else thresholdPct in
    i64 (directLat * 100) <? i64 (relayLat * (100 - thresholdPct)).
Definition relayBeatsDirectByThresholdLocked (directLat relayLat thresholdPct : Z) : bool :=
  directBeatsRelayByThresholdLocked relayLat directLat thresholdPct.

(** Points for being faster than the other path, then for the kind of address. *)
Definition fasterBy (fast slow : Z) : Z := i64 (100 - Z.quot (i64 (fast * 100)) slow).
Definition latencyPoints (aLat bLat : Z) : Z * Z :=
  if (bLat <? aLat) && (0 <? aLat) then (0, fasterBy bLat aLat)
  else if 0 <? bLat then (fasterBy aLat bLat, 0)
  else (0, 0).
Definition localityPoints (a : Addr) : Z :=
  if IsLoopback a then 50 else if IsLinkLocalUnicast a then 30 else if IsPrivate a then 20 else 0.
Definition familyPoints (a : Addr) : Z := if Is6 a then 10 else 0.

Section Better.
Context (k : Knobs).

Definition betterAddr (a b : addrQuality) : bool :=
  if bool_decide (aq_ep a = aq_ep b) then wireMTU b <? wireMTU a
  else if negb (IsValid (ap (aq_ep b))) then true
  else if negb (IsValid (ap (aq_ep a))) then false
  else
    let aRelay := VNI.IsSet (vni (aq_ep a)) in
    let bRelay := VNI.IsSet (vni (aq_ep b)) in
    if negb aRelay && bRelay then
      negb (directVsRelayCompareEnabled k
            && relayBeatsDirectByThresholdLocked (aq_latency a) (aq_latency b) (directVsRelayThresholdValue k))
    else if aRelay && negb bRelay then
      directVsRelayCompareEnabled k
      && relayBeatsDirectByThresholdLocked (aq_latency b) (aq_latency a) (directVsRelayThresholdValue k)
    else
      let '(aPoints, bPoints) := latencyPoints (aq_latency a) (aq_latency b) in
      let aPoints := i64 (aPoints + localityPoints (ip (ap (aq_ep a)))) in
      let bPoints := i64 (bPoints + localityPoints (ip (ap (aq_ep b)))) in
      let aPoints := i64 (aPoints + familyPoints (ip (ap (aq_ep a)))) in
      let bPoints := i64 (bPoints + familyPoints (ip (ap (aq_ep b)))) in
      if (aPoints <=? 1) && (bPoints =? 0) then false else bPoints <? aPoints.

(** ** The chosen path of an endpoint *)
Record bestState := MkBest {
  bestAddr : addrQuality;
  bestAddrAt : Z;
  trustBestAddrUntil : Z;
  lastDirectVsRelaySwap : Z;
  probe : option probeUDPLifetime
}.
Definition zeroBest : bestState := MkBest zeroAQ 0 0 0 None.
Definition trustUDPAddrDuration : Z := 6500 * Millisecond.

Definition set_trust (b : bestState) (t : Z) : bestState :=
  MkBest (bestAddr b) (bestAddrAt b) t (lastDirectVsRelaySwap b) (probe b).
Definition set_probe (b : bestState) (p : option probeUDPLifetime) : bestState :=
  MkBest (bestAddr b) (bestAddrAt b) (trustBestAddrUntil b) (lastDirectVsRelaySwap b) p.

Definition setBestAddrLocked (b : bestState) (v : addrQuality) : bestState :=
  MkBest v (bestAddrAt b) (trustBestAddrUntil b) (lastDirectVsRelaySwap b)
         (if bool_decide (aq_ep v = aq_ep (bestAddr b)) then probe b
          else resetCycleEndpointLocked (probe b)).
Definition clearBestAddrLocked (b : bestState) : bestState :=
  MkBest zeroAQ 0 0 0 (probe (setBestAddrLocked b zeroAQ)).

Definition wouldAllowDirectVsRelaySwapLocked (b : bestState) (cur maybe : addrQuality) (now : Z) : bool :=
  if negb (directVsRelayCompareEnabled k) then true
  else if negb (IsValid (ap (aq_ep cur))) then true
  else
    let curIsDirect := negb (VNI.IsSet (vni (aq_ep cur))) in
    let maybeIsDirect := negb (VNI.IsSet (vni (aq_ep maybe))) in
    if bool_decide (curIsDirect = maybeIsDirect) then true
    else if Mono.IsZero (lastDirectVsRelaySwap b) then true
    else directVsRelayHoldDurationValue k <=? Mono.Sub now (lastDirectVsRelaySwap b).

Definition noteDirectVsRelaySwapLocked (b : bestState) (prev nowAddr : addrQuality) (now : Z) : bestState :=
  if negb (directVsRelayCompareEnabled k) then b
  else if negb (IsValid (ap (aq_ep prev))) then b
  else if bool_decide (VNI.IsSet (vni (aq_ep prev)) = VNI.IsSet (vni (aq_ep nowAddr))) then b
  else MkBest (bestAddr b) (bestAddrAt b) (trustBestAddrUntil b) now (probe b).

(** What lets a relay path in without passing the hold window. *)
Definition relayBypass (b : bestState) (maybeBest : addrQuality) (now : Z) : bool :=
  let curBestAddrTrusted := Mono.Before now (trustBestAddrUntil b) in
  let sameRelayServer :=
    VNI.IsSet (vni (aq_ep (bestAddr b)))
    && (Compare (relayServerDisco maybeBest) (relayServerDisco (bestAddr b)) =? 0) in
  negb curBestAddrTrusted || sameRelayServer.
Definition udpRelayEndpointReady (b : bestState) (maybeBest : addrQuality) (now : Z) : bestState :=
  let bypassHysteresis := relayBypass b maybeBest now in
  if bypassHysteresis || betterAddr maybeBest (bestAddr b) then
    if negb bypassHysteresis && negb (wouldAllowDirectVsRelaySwapLocked b (bestAddr b) maybeBest now)
    then b
    else
      let prev := bestAddr b in
      let b := setBestAddrLocked b maybeBest in
      let b := set_trust b (Mono.Add now trustUDPAddrDuration) in
      noteDirectVsRelaySwapLocked b prev maybeBest now
  else b.

(** The last block of [handlePongConnLocked]: a pong that did not come over DERP. *)
Definition bestUntrusted (b : bestState) (now : Z) : bool := Mono.After now (trustBestAddrUntil b).
Definition promotePong (b : bestState) (to : epAddr) (latency size now : Z) : bestState :=
  let thisPong := MkAQ to zeroDisco latency (pingSizeToPktLen size to) in
  let b :=
    if betterAddr thisPong (bestAddr b) || bestUntrusted b now then
      if negb (bestUntrusted b now)
         && negb (wouldAllowDirectVsRelaySwapLocked b (bestAddr b) thisPong now) then b
      else
        let prev := bestAddr b in
        noteDirectVsRelaySwapLocked (setBestAddrLocked b thisPong) prev thisPong now
    else b in
  if bool_decide (aq_ep (bestAddr b) = to) then
    MkBest (MkAQ (aq_ep (bestAddr b)) (relayServerDisco (bestAddr b)) latency (wireMTU (bestAddr b)))
           now (Mono.Add now trustUDPAddrDuration) (lastDirectVsRelaySwap b) (probe b)
  else b.
End Better.

(** ** Facts *)

(** Latencies for which the products by 100 stay in 64 bits: up to two years. *)
Definition sane_latency (l : Z) : Prop := 0 <= l <= 2 ^ 56.

Lemma latencyPoints_swap la lb :
  sane_latency la -> sane_latency lb ->
  latencyPoints lb la = ((latencyPoints la lb).2, (latencyPoints la lb).1).
Proof.
  unfold sane_latency, latencyPoints. intros Ha Hb.
  destruct (Z.lt_trichotomy la lb) as [Hlt|[->|Hgt]].
  - rewrite (proj2 (Z.ltb_ge lb la)), (proj2 (Z.ltb_lt la lb)), (proj2 (Z.ltb_lt 0 lb)) by lia. done.
  - rewrite Z.ltb_irrefl. simpl. destruct (Z.ltb_spec 0 lb); [|done]. simpl. f_equal.
    all: unfold fasterBy; rewrite (i64_small (lb * 100)) by (unfold in64; lia);
      rewrite Z.mul_comm, Z.quot_mul by lia; done.
  - rewrite (proj2 (Z.ltb_lt lb la)), (proj2 (Z.ltb_ge la lb)), (proj2 (Z.ltb_lt 0 la)) by lia. done.
Qed.

Lemma fasterBy_range fast slow :
  sane_latency fast -> 0 < slow -> fast <= slow -> 0 <= fasterBy fast slow <= 100.
Proof.
  unfold sane_latency, fasterBy. intros Hf Hs Hle.
  rewrite (i64_small (fast * 100)) by (unfold in64; lia).
  assert (0 <= Z.quot (fast * 100) slow <= 100).
  { rewrite Z.quot_div_nonneg by lia. split; [apply Z.div_pos; lia|].
    apply Z.div_le_upper_bound; nia. }
  rewrite i64_small by (unfold in64; lia). lia.
Qed.
Lemma latencyPoints_range la lb :
  sane_latency la -> sane_latency lb ->
  0 <= (latencyPoints la lb).1 <= 100 /\ 0 <= (latencyPoints la lb).2 <= 100.
Proof.
  intros Ha Hb. unfold latencyPoints.
  destruct (_ && _) eqn:E1; [|destruct (0 <? lb) eqn:E2]; bool_props; simpl; try lia.
  - pose proof (fasterBy_range lb la Hb ltac:(lia) ltac:(lia)). lia.
  - apply andb_false_iff in E1 as [E1|E1]; bool_props; unfold sane_latency in *.
    + pose proof (fasterBy_range la lb Ha ltac:(lia) ltac:(lia)). lia.
    + assert (la = 0) as -> by lia.
      pose proof (fasterBy_range 0 lb Ha ltac:(lia) ltac:(lia)). lia.
Qed.

Lemma localityPoints_range a : 0 <= localityPoints a <= 50.
Proof. unfold localityPoints. repeat case_match; lia. Qed.
Lemma familyPoints_range a : 0 <= familyPoints a <= 10.
Proof. unfold familyPoints. case_match; lia. Qed.

(** The points of [a] against [b], without wrap-around. *)
Definition points (a b : addrQuality) : Z :=
  (latencyPoints (aq_latency a) (aq_latency b)).1
  + localityPoints (ip (ap (aq_ep a))) + familyPoints (ip (ap (aq_ep a))).

Definition same_category (a b : addrQuality) : Prop :=
  VNI.IsSet (vni (aq_ep a)) = VNI.IsSet (vni (aq_ep b)).

Section BetterFacts.
Context (k : Knobs).
Implicit Types a b : addrQuality.

(** Between two valid paths of one category only the points decide. *)
Lemma betterAddr_points a b :
  aq_ep a <> aq_ep b -> IsValid (ap (aq_ep a)) = true -> IsValid (ap (aq_ep b)) = true ->
  same_category a b -> sane_latency (aq_latency a) -> sane_latency (aq_latency b) ->
  betterAddr k a b =
    if (points a b <=? 1) && (points b a =? 0) then false else points b a <? points a b.
Proof.
  intros Hne Ha Hb Hcat Hla Hlb. unfold betterAddr.
  rewrite bool_decide_eq_false_2 by done. unfold same_category in Hcat.
  rewrite Ha, Hb, Hcat, andb_negb_r, andb_comm, andb_negb_r. cbn [negb].
  pose proof (latencyPoints_range _ _ Hla Hlb) as Hr.
  unfold points. rewrite (latencyPoints_swap _ _ Hla Hlb).
  destruct (latencyPoints (aq_latency a) (aq_latency b)) as [pa pb]. simpl in *.
  pose proof (localityPoints_range (ip (ap (aq_ep a)))).
  pose proof (localityPoints_range (ip (ap (aq_ep b)))).
  pose proof (familyPoints_range (ip (ap (aq_ep a)))).
  pose proof (familyPoints_range (ip (ap (aq_ep b)))).
  rewrite (i64_small (pa + localityPoints _)), (i64_small (pb + localityPoints _))
    by (unfold in64; lia).
  rewrite !i64_small by (unfold in64; lia). done.
Qed.

(** Across the two categories the gate decides, in both directions alike. *)
Lemma betterAddr_cross a b :
  IsValid (ap (aq_ep a)) = true -> IsValid (ap (aq_ep b)) = true ->
  VNI.IsSet (vni (aq_ep a)) = false -> VNI.IsSet (vni (aq_ep b)) = true ->
  betterAddr k b a = directVsRelayCompareEnabled k
    && relayBeatsDirectByThresholdLocked (aq_latency a) (aq_latency b) (directVsRelayThresholdValue k)
  /\ betterAddr k a b = negb (betterAddr k b a).
Proof.
  intros Ha Hb Hda Hrb.
  assert (aq_ep a <> aq_ep b) as Hne by (intros E; rewrite E in Hda; congruence).
  unfold betterAddr. rewrite !bool_decide_eq_false_2 by congruence.
  rewrite Ha, Hb, Hda, Hrb. done.
Qed.

(** [betterAddr] cannot flap between two paths: when at least one of them is valid and
    the latencies are below two years, if the first is better than the second then the
    second is not better than the first, with or without the direct-versus-relay gate. *)
Theorem betterAddr_asymmetric a b :
  IsValid (ap (aq_ep a)) = true \/ IsValid (ap (aq_ep b)) = true ->
  sane_latency (aq_latency a) -> sane_latency (aq_latency b) ->
  betterAddr k a b = true -> betterAddr k b a = false.
Proof.
  intros Hv Hla Hlb.
  destruct (decide (aq_ep a = aq_ep b)) as [E|Hne].
  { unfold betterAddr. rewrite !bool_decide_eq_true_2 by congruence. intros ?. bool_props.
    apply Z.ltb_ge. lia. }
  destruct (IsValid (ap (aq_ep a))) eqn:Ha, (IsValid (ap (aq_ep b))) eqn:Hb;
    [|by unfold betterAddr; rewrite !bool_decide_eq_false_2, Ha, Hb by congruence..
     |by destruct Hv].
  destruct (VNI.IsSet (vni (aq_ep a))) eqn:Hda, (VNI.IsSet (vni (aq_ep b))) eqn:Hdb.
  2:{ destruct (betterAddr_cross b a Hb Ha Hdb Hda) as [_ ->]. by intros ->. }
  2:{ destruct (betterAddr_cross a b Ha Hb Hda Hdb) as [_ ->]. by intros ?%negb_true_iff. }
  all: rewrite !betterAddr_points by (try done; unfold same_category; congruence).
  all: repeat case_match; bool_props; try done; intros; bool_props; try apply Z.ltb_ge; lia.
Qed.

(** A peer relay replaces a direct path exactly when the comparison is switched on with
    a non-negative threshold and the relay's measured latency is more than the threshold
    percentage below the direct path's; in every other case the direct path is preferred. *)
Theorem betterAddr_relay_gate direct relay :
  isDirect (aq_ep direct) = true -> IsValid (ap (aq_ep relay)) = true ->
  VNI.IsSet (vni (aq_ep relay)) = true ->
  sane_latency (aq_latency direct) -> sane_latency (aq_latency relay) ->
  (betterAddr k relay direct = true <->
   envDirectVsRelayCompare k = true /\ 0 <= envDirectVsRelayThresholdPct k
   /\ 0 < aq_latency direct /\ 0 < aq_latency relay
   /\ aq_latency relay * 100 < aq_latency direct * (100 - directVsRelayThresholdValue k))
  /\ betterAddr k direct relay = negb (betterAddr k relay direct).
Proof.
  intros Hd Hr Hrv Hld Hlr. unfold isDirect in Hd. bool_props.
  destruct (betterAddr_cross direct relay) as [-> Hneg]; [done..|].
  split; [|done]. clear Hneg.
  assert (0 <= directVsRelayThresholdValue k <= 100
    /\ (0 < directVsRelayThresholdValue k <-> 0 <= envDirectVsRelayThresholdPct k)) as [Ht Ht0].
  { unfold directVsRelayThresholdValue, directVsRelayThresholdPercent.
    repeat case_match; bool_props; lia. }
  rewrite <- Ht0. unfold directVsRelayCompareEnabled, relayBeatsDirectByThresholdLocked,
    directBeatsRelayByThresholdLocked, sane_latency in *.
  rewrite (proj2 (Z.ltb_ge 100 _)) by lia.
  rewrite !i64_small by (unfold in64; nia).
  destruct (envDirectVsRelayCompare k); [|split; [done|by intros [? _]]]. simpl.
  destruct (_ || _) eqn:E1.
  { split; [done|]. apply orb_true_iff in E1 as [E1|E1]; bool_props; lia. }
  destruct (directVsRelayThresholdValue k <=? 0) eqn:E2; bool_props; [split; [done|lia]|].
  cbv zeta. rewrite Z.ltb_lt. split; [|naive_solver]. intros. split_and!; try done; lia.
Qed.
End BetterFacts.

Definition ex_path (a : Addr) (v : Z) (lat : Z) : addrQuality :=
  MkAQ (MkEpAddr (MkAddrPort a 41641) v) zeroDisco lat 1360.
Definition ex_public (lat : Z) : addrQuality := ex_path (Addr4 0xcb007107) 0 lat.
Definition ex_relay (lat : Z) : addrQuality := ex_path (Addr4 0xc6336407) (VNI.Set_ 7) lat.
Definition ex_compare : Knobs :=
  MkKnobs None None EmptyString EmptyString false 0 0 0 0 0 0 None 0 0 0 0 false 0 0 0 false None
          0 EmptyString 0 0 0 0 EmptyString 0 false EmptyString 0 0 true 0 0 0 EmptyString 0 0
          EmptyString.

Lemma betterAddr_asymmetric_witness :
  betterAddr defaultKnobs (ex_path (Addr4 0xc0a80105) 0 (20 * Millisecond)) (ex_public (20 * Millisecond)) = true
  /\ betterAddr defaultKnobs (ex_public (20 * Millisecond)) (ex_path (Addr4 0xc0a80105) 0 (20 * Millisecond)) = false.
Proof.
  split; [reflexivity|].
  apply (betterAddr_asymmetric defaultKnobs (ex_path (Addr4 0xc0a80105) 0 (20 * Millisecond))
           (ex_public (20 * Millisecond))); [left; reflexivity|vm_compute; split; congruence..|reflexivity].
Defined.

Lemma betterAddr_relay_gate_witness :
  betterAddr ex_compare (ex_relay (80 * Millisecond)) (ex_public (100 * Millisecond)) = true.
Proof.
  apply (betterAddr_relay_gate ex_compare (ex_public (100 * Millisecond)) (ex_relay (80 * Millisecond)));
    [reflexivity..|vm_compute; split; congruence|vm_compute; split; congruence|].
  split_and!; try reflexivity; vm_compute; congruence.
Defined.

(** The preference is not transitive: a private IPv6 path, a private IPv4 path and a public
    IPv4 path can each be better than the one before in a circle, so three working paths
    with constant latencies can replace each other for ever. *)
Theorem betterAddr_cycle :
  exists a b c,
    sane_latency (aq_latency a) /\ sane_latency (aq_latency b) /\ sane_latency (aq_latency c)
    /\ forall k, betterAddr k b a = true /\ betterAddr k c b = true /\ betterAddr k a c = true.
Proof.
  exists (ex_path (Addr6 0xfd000000000000000000000000000001 EmptyString) 0 100000000),
         (ex_path (Addr4 0xc0a80105) 0 89990000), (ex_public 71980000).
  split_and!; try (vm_compute; split; congruence).
  intros k. split_and!; reflexivity.
Qed.

(** A padded ping and the packet length it proves are inverse to each other: probing an
    MTU of a direct path of the right family yields exactly that MTU, for every size that
    the code probes. *)
Theorem probe_size_roundtrip mtu ep :
  VNI.IsSet (vni ep) = false ->
  ipHeaderLen (Is6 (ip (ap ep))) + 8 < mtu < 2 ^ 32 ->
  pingSizeToPktLen (pktLenToPingSize mtu (Is6 (ip (ap ep)))) ep = mtu
  /\ Forall (fun m => ipHeaderLen (Is6 (ip (ap ep))) + 8 < m < 2 ^ 32) WireMTUsToProbe.
Proof.
  intros Hv Hm. split.
  - unfold pktLenToPingSize. set (h := ipHeaderLen _) in *.
    assert (0 < h) by (unfold h, ipHeaderLen; case_match; lia).
    rewrite (proj2 (Z.eqb_neq mtu 0)), (proj2 (Z.ltb_ge mtu _)) by lia.
    unfold pingSizeToPktLen. fold h. rewrite Hv, (proj2 (Z.eqb_neq _ 0)) by lia.
    rewrite uw_small by lia. lia.
  - destruct (Is6 _); repeat constructor.
Qed.
Lemma probe_size_roundtrip_witness :
  pingSizeToPktLen (pktLenToPingSize 1500 false) (aq_ep (ex_public 1)) = 1500.
Proof.
  apply (probe_size_roundtrip 1500 (aq_ep (ex_public 1))); [reflexivity|].
  vm_compute. split; congruence.
Defined.

(** ** Moves between a direct path and a relay

    The two events that replace a path on measurements, with the instant they happen at. *)
Inductive bestEvent :=
| EvPong (to : epAddr) (latency size : Z)
| EvRelayReady (q : addrQuality).

Section Swaps.
Context (k : Knobs).
Implicit Types b : bestState.

Definition best_exec b (now : Z) (e : bestEvent) : bestState :=
  match e with
  | EvPong to latency size => promotePong k b to latency size now
  | EvRelayReady q => udpRelayEndpointReady k b q now
  end.

(** The event moved a valid path to the other category. *)
Definition crosses b b' : bool :=
  IsValid (ap (aq_ep (bestAddr b)))
  && negb (bool_decide (VNI.IsSet (vni (aq_ep (bestAddr b))) = VNI.IsSet (vni (aq_ep (bestAddr b'))))).

(** The event replaces the path for its latency alone: the current path is trusted and, for a
    relay, it is not the one the current path already goes through. *)
Definition optional b (now : Z) (e : bestEvent) : bool :=
  match e with
  | EvPong _ _ _ => negb (bestUntrusted b now)
  | EvRelayReady q => negb (relayBypass b q now)
  end.

(** The instants of the category changes of a run, and whether they were optional. *)
Fixpoint swaps b (evs : list (Z * bestEvent)) : list (Z * bool) :=
  match evs with
  | [] => []
  | (now, e) :: evs' =>
      let b' := best_exec b now e in
      (if crosses b b' then [(now, optional b now e)] else []) ++ swaps b' evs'
  end.

Lemma setBestAddrLocked_best b v : bestAddr (setBestAddrLocked b v) = v.
Proof. done. Qed.
Lemma note_best b prev v now :
  bestAddr (noteDirectVsRelaySwapLocked k b prev v now) = bestAddr b.
Proof. unfold noteDirectVsRelaySwapLocked. by repeat case_match. Qed.
Lemma note_probe b prev v now : probe (noteDirectVsRelaySwapLocked k b prev v now) = probe b.
Proof. unfold noteDirectVsRelaySwapLocked. by repeat case_match. Qed.
Lemma note_swap b prev v now :
  directVsRelayCompareEnabled k = true ->
  lastDirectVsRelaySwap (noteDirectVsRelaySwapLocked k b prev v now) =
    if IsValid (ap (aq_ep prev))
       && negb (bool_decide (VNI.IsSet (vni (aq_ep prev)) = VNI.IsSet (vni (aq_ep v))))
    then now else lastDirectVsRelaySwap b.
Proof.
  intros Hc. unfold noteDirectVsRelaySwapLocked. rewrite Hc.
  destruct (IsValid _); [|done]. simpl. by destruct (bool_decide _).
Qed.

(** A refused move keeps the category: the hold window only looks at category changes. *)
Lemma wouldAllow_false b cur maybe now :
  wouldAllowDirectVsRelaySwapLocked k b cur maybe now = false ->
  lastDirectVsRelaySwap b <> 0
  /\ Mono.Sub now (lastDirectVsRelaySwap b) < directVsRelayHoldDurationValue k.
Proof.
  unfold wouldAllowDirectVsRelaySwapLocked, Mono.IsZero.
  repeat case_match; intros; bool_props; done.
Qed.
Lemma wouldAllow_true b cur maybe now :
  directVsRelayCompareEnabled k = true -> wouldAllowDirectVsRelaySwapLocked k b cur maybe now = true ->
  IsValid (ap (aq_ep cur))
    && negb (bool_decide (VNI.IsSet (vni (aq_ep cur)) = VNI.IsSet (vni (aq_ep maybe)))) = true ->
  lastDirectVsRelaySwap b = 0
  \/ directVsRelayHoldDurationValue k <= Mono.Sub now (lastDirectVsRelaySwap b).
Proof.
  intros Hc. unfold wouldAllowDirectVsRelaySwapLocked, Mono.IsZero. rewrite Hc. simpl.
  destruct (IsValid _); [|done]. simpl. intros Hw Hx. bool_props.
  rewrite bool_decide_eq_false_2 in Hw by (by destruct (VNI.IsSet _), (VNI.IsSet _)).
  case_match; bool_props; auto.
Qed.

(** One event: the recorded instant changes exactly on a crossing, to the current instant,
    and an optional crossing respects the window since the last one. *)
Lemma best_exec_swap b now e :
  directVsRelayCompareEnabled k = true ->
  let b' := best_exec b now e in
  lastDirectVsRelaySwap b' = (if crosses b b' then now else lastDirectVsRelaySwap b)
  /\ (crosses b b' = true -> optional b now e = true ->
      lastDirectVsRelaySwap b = 0
      \/ directVsRelayHoldDurationValue k <= Mono.Sub now (lastDirectVsRelaySwap b)).
Proof.
  intros Hc. cbv zeta.
  assert (crosses b b = false) as Hself
    by (unfold crosses; rewrite bool_decide_eq_true_2 by done; apply andb_false_r).
  destruct e as [to lat size|q]; cbn [best_exec optional].
  - unfold promotePong. set (this := MkAQ to _ _ _).
    set (b1 := if betterAddr k this (bestAddr b) || bestUntrusted b now then _ else b).
    assert (lastDirectVsRelaySwap b1 = (if crosses b b1 then now else lastDirectVsRelaySwap b)
      /\ (crosses b b1 = true -> negb (bestUntrusted b now) = true -> lastDirectVsRelaySwap b = 0
          \/ directVsRelayHoldDurationValue k <= Mono.Sub now (lastDirectVsRelaySwap b))) as Hb1.
    { unfold b1. destruct (_ || _); [|by rewrite Hself].
      destruct (negb (bestUntrusted b now) && _) eqn:E; [by rewrite Hself|].
      unfold crosses. rewrite note_best, note_swap by done. split; [done|].
      intros Hx Hu. rewrite Hu in E. apply negb_false_iff in E. eauto using wouldAllow_true. }
    clearbody b1. cbv zeta. destruct (bool_decide (aq_ep (bestAddr b1) = to)); exact Hb1.
  - unfold udpRelayEndpointReady. destruct (relayBypass b q now) eqn:Hby; simpl.
    + unfold crosses. rewrite note_best, note_swap by done. split; [done|]. done.
    + destruct (betterAddr k q (bestAddr b)); [|by rewrite Hself].
      destruct (wouldAllowDirectVsRelaySwapLocked k b (bestAddr b) q now) eqn:Hw; simpl; [|by rewrite Hself].
      unfold crosses. rewrite note_best, note_swap by done. split; [done|]. eauto using wouldAllow_true.
Qed.

Lemma swaps_hd b evs t o rest :
  directVsRelayCompareEnabled k = true ->
  swaps b evs = (t, o) :: rest ->
  (o = true -> lastDirectVsRelaySwap b = 0
               \/ directVsRelayHoldDurationValue k <= Mono.Sub t (lastDirectVsRelaySwap b))
  /\ exists b' evs', rest = swaps b' evs' /\ lastDirectVsRelaySwap b' = t.
Proof.
  intros Hc. revert b. induction evs as [|[now e] evs IH]; intros b Hs; [done|].
  cbn [swaps] in Hs. destruct (best_exec_swap b now e Hc) as [Hl Ho].
  destruct (crosses b (best_exec b now e)).
  - injection Hs as <- <- <-. split; [auto|]. eauto.
  - cbn [app] in Hs. destruct (IH _ Hs) as [H1 H2]. split; [|done]. by rewrite <- Hl.
Qed.

(** Direct and relay paths do not flap: with the comparison on, in every run of pongs and
    relay handshakes from any state, an optional change of category comes at least the hold
    window after the change of category before it. *)
Theorem category_swaps_spaced b evs i t1 o t2 :
  directVsRelayCompareEnabled k = true ->
  Forall (fun e => Mono.ok e.1 /\ e.1 <> 0) evs ->
  swaps b evs !! i = Some (t1, o) -> swaps b evs !! S i = Some (t2, true) ->
  directVsRelayHoldDurationValue k <= t2 - t1.
Proof.
  intros Hc Hev H1 H2.
  assert (Hok : forall b evs, Forall (fun e => Mono.ok e.1 /\ e.1 <> 0) evs ->
    Forall (fun s => Mono.ok s.1 /\ s.1 <> 0) (swaps b evs)).
  { clear. intros b evs Hev. revert b. induction Hev as [|[n e] evs He Hev IH]; intros b; [constructor|].
    cbn [swaps]. apply Forall_app. split; [|apply IH].
    destruct (crosses b _); repeat constructor; apply He. }
  pose proof (Hok b evs Hev) as Hsw. clear Hok Hev.
  revert b evs H1 H2 Hsw. induction i as [|i IH]; intros b evs H1 H2 Hsw;
    destruct (swaps b evs) as [|[t o'] rest] eqn:Hs; try done;
    destruct (swaps_hd b evs t o' rest Hc Hs) as (_ & b' & evs' & -> & Hl).
  - injection H1 as -> ->. cbn [lookup list_lookup] in H2.
    apply Forall_cons in Hsw as [[Ht1 Hn1] Hsw].
    destruct (swaps b' evs') as [|[t o''] rest'] eqn:Hs'; [done|]. injection H2 as -> ->.
    destruct (swaps_hd b' evs' t2 true rest' Hc Hs') as ([H|H] & _); [done|simpl in Hn1; congruence|].
    apply Forall_cons in Hsw as [[Ht2 _] _]. rewrite Hl, Mono.Sub_ok in H by done. done.
  - apply Forall_cons in Hsw as [_ Hsw]. by apply (IH b' evs').
Qed.
End Swaps.

Definition ex_minute (n : Z) : Z := 2 ^ 55 + n * Minute.
Definition ex_best : bestState := MkBest (ex_public (100 * Millisecond)) (ex_minute 0) (ex_minute 60) 0 None.
(** A relay handshake, a faster direct pong while the window lasts, a pong that renews the
    trust in the relay, and the direct pong again after the window. *)
Definition ex_events : list (Z * bestEvent) :=
  [(ex_minute 1, EvRelayReady (ex_relay (50 * Millisecond)));
   (ex_minute 1 + Second, EvPong (aq_ep (ex_public 0)) (20 * Millisecond) 0);
   (ex_minute 6 + Second, EvPong (aq_ep (ex_relay 0)) (50 * Millisecond) 0);
   (ex_minute 6 + 2 * Second, EvPong (aq_ep (ex_public 0)) (20 * Millisecond) 0)].

Lemma category_swaps_spaced_witness :
  swaps ex_compare ex_best ex_events = [(ex_minute 1, true); (ex_minute 6 + 2 * Second, true)]
  /\ 5 * Minute <= ex_minute 6 + 2 * Second - ex_minute 1.
Proof.
  split; [vm_compute; reflexivity|].
  apply (category_swaps_spaced ex_compare ex_best ex_events 0 (ex_minute 1) true
           (ex_minute 6 + 2 * Second)); [reflexivity| |vm_compute; reflexivity..].
  repeat constructor; vm_compute; congruence.
Defined.

(** ** What a pong does to the chosen path *)
Section Promote.
Context (k : Knobs).
Implicit Types b : bestState.

(** [b1] of [promotePong]: the state after the possible replacement. *)
Lemma promote_cases b to latency size now :
  let b' := promotePong k b to latency size now in
  (b' = b /\ aq_ep (bestAddr b) <> to /\ bestUntrusted b now = false)
  \/ (aq_ep (bestAddr b') = to /\ aq_latency (bestAddr b') = latency /\ bestAddrAt b' = now
      /\ trustBestAddrUntil b' = Mono.Add now trustUDPAddrDuration
      /\ probe b' = (if bool_decide (aq_ep (bestAddr b) = to) then probe b
                     else resetCycleEndpointLocked (probe b))
      /\ (bestUntrusted b now = true -> relayServerDisco (bestAddr b') = zeroDisco)).
Proof.
  cbv zeta. unfold promotePong. set (this := MkAQ to _ _ _).
  set (b1 := if betterAddr k this (bestAddr b) || bestUntrusted b now then _ else b).
  assert ((b1 = b /\ bestUntrusted b now = false)
    \/ (bestAddr b1 = this /\ probe b1 = probe (setBestAddrLocked b this))) as Hb1.
  { unfold b1. destruct (betterAddr k this (bestAddr b)), (bestUntrusted b now);
      cbn [orb negb andb]; auto; try case_match; auto; right; by rewrite note_best, note_probe. }
  clearbody b1. cbv zeta. destruct Hb1 as [[-> Hu]|[Hb Hp]].
  - destruct (bool_decide (aq_ep (bestAddr b) = to)) eqn:E; bool_props; [|auto].
    right. cbn. rewrite Hu. split_and!; done.
  - rewrite Hb, bool_decide_eq_true_2 by done. right. cbn.
    rewrite Hp. cbn. split_and!; try done.
    erewrite bool_decide_ext; [done|]. split; congruence.
Qed.

(** A pong either leaves the endpoint's chosen path alone, or makes the pinged path the
    chosen one with the measured latency and renews its trust by 6.5 seconds, resetting
    the lifetime probe cycle exactly when the path changed; an untrusted path is always
    replaced. Trust is never renewed for a path that did not answer. *)
Theorem pong_promotes_or_leaves b to latency size now :
  let b' := promotePong k b to latency size now in
  ((b' = b /\ aq_ep (bestAddr b) <> to)
   \/ (aq_ep (bestAddr b') = to /\ aq_latency (bestAddr b') = latency /\ bestAddrAt b' = now
       /\ trustBestAddrUntil b' = Mono.Add now trustUDPAddrDuration
       /\ probe b' = (if bool_decide (aq_ep (bestAddr b) = to) then probe b
                      else resetCycleEndpointLocked (probe b))))
  /\ (bestUntrusted b now = true -> aq_ep (bestAddr b') = to).
Proof.
  cbv zeta. destruct (promote_cases b to latency size now)
    as [(H1 & H2 & H3)|(H1 & H2 & H3 & H4 & H5 & _)]; (split; [|congruence || done]); auto 10.
Qed.

(** A pong that arrives after the trust in a relay path ran out forgets which relay server
    the path goes through: the new entry carries the zero disco key, so the next handshake
    with that same server is no longer recognised as the same relay while the path is
    trusted. *)
Theorem late_pong_forgets_relay b to latency size now :
  bestUntrusted b now = true ->
  let b' := promotePong k b to latency size now in
  aq_ep (bestAddr b') = to /\ relayServerDisco (bestAddr b') = zeroDisco
  /\ forall q now', relayServerDisco q <> zeroDisco ->
       Mono.Before now' (trustBestAddrUntil b') = true -> relayBypass b' q now' = false.
Proof.
  intros Hu. cbv zeta.
  destruct (promote_cases b to latency size now) as [(_ & _ & H)|(H1 & _ & _ & _ & _ & H2)]; [congruence|].
  specialize (H2 Hu). split_and!; [done|done|]. intros q now' Hq Ht.
  unfold relayBypass. rewrite Ht, H2. simpl. apply andb_false_iff. right.
  apply Z.eqb_neq. by rewrite Compare_eq.
Qed.

(** Every operation on the chosen path keeps the lifetime probe well formed. *)
Lemma setBestAddrLocked_ok b v : lifetime_ok (probe b) -> lifetime_ok (probe (setBestAddrLocked b v)).
Proof. intros H. simpl. case_match; [done|]. by apply resetCycleEndpointLocked_ok. Qed.
Lemma clearBestAddrLocked_ok b : lifetime_ok (probe b) -> lifetime_ok (probe (clearBestAddrLocked b)).
Proof. apply setBestAddrLocked_ok. Qed.
Lemma promotePong_ok b to latency size now :
  lifetime_ok (probe b) -> lifetime_ok (probe (promotePong k b to latency size now)).
Proof.
  intros H. destruct (promote_cases b to latency size now) as [(-> & _)|(_ & _ & _ & _ & -> & _)]; [done|].
  case_match; [done|]. by apply resetCycleEndpointLocked_ok.
Qed.
Lemma udpRelayEndpointReady_ok b q now :
  lifetime_ok (probe b) -> lifetime_ok (probe (udpRelayEndpointReady k b q now)).
Proof.
  intros H. unfold udpRelayEndpointReady.
  destruct (_ || _); [|done]. destruct (_ && _); [done|].
  rewrite note_probe. by apply setBestAddrLocked_ok.
Qed.
End Promote.

Lemma late_pong_forgets_relay_witness :
  let b := MkBest (MkAQ (aq_ep (ex_relay 0)) (replicate 32 x01) (50 * Millisecond) 1360)
                  (ex_minute 0) (ex_minute 0 + Second) 0 None in
  relayServerDisco (bestAddr (promotePong defaultKnobs b (aq_ep (ex_relay 0)) (60 * Millisecond) 0 (ex_minute 1)))
  = zeroDisco.
Proof.
  intros b.
  apply (late_pong_forgets_relay defaultKnobs b (aq_ep (ex_relay 0)) (60 * Millisecond) 0 (ex_minute 1)).
  vm_compute. reflexivity.
Defined.
