(* ===== verification/RelayManager.v ===== *)
(** * The relay manager (relaymanager.go)

    The run loop's state and handlers, and the two goroutines it starts for each relay endpoint:
    one that allocates it on a relay server, one that does the handshake. A goroutine's state and
    its channels are part of the manager's state; [None] means the run loop blocks forever. What a
    step reads of the connection and of an endpoint is its environment. *)
From S2P Require Import Prelude Netip Bytes Slices Disco BetterAddr UdpRelay.

Module RelayManager.
Import UdpRelay.

Record candidatePeerRelay := MkCand { nodeKey : bytes; discoKey : bytes; derpHomeRegionID : Z }.
#[export] Instance candidatePeerRelay_eq_dec : EqDecision candidatePeerRelay.
Proof. solve_decision. Defined.
#[export] Instance candidatePeerRelay_countable : Countable candidatePeerRelay.
Proof.
  apply (inj_countable' (fun c => (nodeKey c, discoKey c, derpHomeRegionID c)) (fun '(a, b, c) => MkCand a b c)).
  by intros [].
Defined.
Definition zeroCand : candidatePeerRelay := MkCand (zeros 32) (zeros 32) 0.
Definition isZeroKey (k : bytes) : bool := bool_decide (k = zeros 32).
Definition isValid (c : candidatePeerRelay) : bool := negb (isZeroKey (nodeKey c)) && negb (isZeroKey (discoKey c)).

Record endpointWithLastBest := MkWlb { wl_ep : nat; lastBest : addrQuality; lastBestIsTrusted : bool }.
Record addrPortVNI := MkApv { apv_addrPort : AddrPort; apv_vni : Z }.
#[export] Instance addrPortVNI_eq_dec : EqDecision addrPortVNI.
Proof. solve_decision. Defined.
#[export] Instance addrPortVNI_countable : Countable addrPortVNI.
Proof. apply (inj_countable' (fun c => (apv_addrPort c, apv_vni c)) (fun '(a, b) => MkApv a b)). by intros []. Defined.

(** ** Work and the goroutines that do it *)
Record relayEndpointAllocWork := MkAllocWork {
  aw_wlb : endpointWithLastBest; aw_discoKeys : bytes * bytes; aw_cand : candidatePeerRelay; allocGen : Z }.
Record relayHandshakeWork := MkHsWork {
  hw_wlb : endpointWithLastBest; hw_se : ServerEndpoint; hw_server : candidatePeerRelay; handshakeGen : Z }.

(** The events on the done channels; [hd_pongReceivedFrom] is the zero address unless a pong came
    back, [None] stands for an unsuccessful allocation. *)
Record handshakeDone := MkHsDone { pongReceivedFrom : AddrPort; hd_latency : Z }.
Definition notDone : handshakeDone := MkHsDone zeroAddrPort 0.
Definition allocDone := option ServerEndpoint.

Definition BindSent : Z := 1.
Definition AnswerSent : Z := 3.
Record handshakeLocal := MkHsLocal {
  hl_common : BindUDPRelayEndpointCommon; handshakeState : Z; sentPingAt : gmap bytes Z }.
Definition limitPings : nat := 10.

Inductive phase (L : Type) := Spawned | Running (l : L) | Returned.
Arguments Spawned {L}.
Arguments Running {L}.
Arguments Returned {L}.
(** A goroutine: its work, where it is, its [doneCh] (of capacity one), whether it is offering the
    same event to the run loop, and whether its context is canceled. *)
Record goroutine (W L D : Type) := MkGo {
  g_work : W; g_phase : phase L; doneCh : option D; g_offer : option D; g_canceled : bool }.
Arguments MkGo {W L D}.
Arguments g_work {W L D}.
Arguments g_phase {W L D}.
Arguments doneCh {W L D}.
Arguments g_offer {W L D}.
Arguments g_canceled {W L D}.
Notation hsWorker := (goroutine relayHandshakeWork handshakeLocal handshakeDone).
(** The allocation goroutine's state: whether its retry timer is still to fire. *)
Notation allocWorker := (goroutine relayEndpointAllocWork bool allocDone).
Section Goroutine.
Context {W L D : Type}.
Implicit Types g : goroutine W L D.
Definition spawn (w : W) : goroutine W L D := MkGo w Spawned None None false.
Definition run (l : L) g : goroutine W L D := MkGo (g_work g) (Running l) (doneCh g) (g_offer g) (g_canceled g).
(** The deferred function: the event goes to [doneCh], then to the run loop unless canceled. *)
Definition return_ (d : D) g : goroutine W L D := MkGo (g_work g) Returned (Some d) (Some d) (g_canceled g).
Definition cancel g : goroutine W L D := MkGo (g_work g) (g_phase g) (doneCh g) (g_offer g) true.
Definition drain g : goroutine W L D := MkGo (g_work g) (g_phase g) None (g_offer g) (g_canceled g).
Definition withdraw g : goroutine W L D := MkGo (g_work g) (g_phase g) (doneCh g) None (g_canceled g).
End Goroutine.

(** What the manager makes happen outside of it. *)
Inductive relayOut :=
| SendDisco (dst : epAddr) (dstKey : bytes) (dstDisco : bytes) (m : Message)
| RelayEndpointReady (ep : nat) (q : addrQuality)
| ReplyServers (servers : gset candidatePeerRelay).   (* to the caller of [getServers] *)

Record relayManager := MkRM {
  serversByNodeKey : gmap bytes candidatePeerRelay;
  hasPeerRelayServers : bool;
  allocWorkByCandidatePeerRelayByEndpoint : gmap nat (gmap candidatePeerRelay nat);
  allocWorkByDiscoKeysByServerNodeKey : gmap bytes (gmap (bytes * bytes) nat);
  handshakeWorkByServerDiscoByEndpoint : gmap nat (gmap bytes nat);
  handshakeWorkByServerDiscoVNI : gmap (bytes * Z) nat;
  handshakeWorkAwaitingPong : gmap nat addrPortVNI;
  addrPortVNIToHandshakeWork : gmap addrPortVNI nat;
  handshakeGeneration : Z;
  allocGeneration : Z;
  discoInfoByServerDisco : gmap bytes (gset nat);
  rm_allocs : gmap nat allocWorker;
  rm_handshakes : gmap nat hsWorker;
  rm_next : nat;
  rm_out : list relayOut
}.
Definition zeroRM : relayManager := MkRM ∅ false ∅ ∅ ∅ ∅ ∅ ∅ 0 0 ∅ ∅ ∅ 0 [].

Definition upd_servers (f : gmap bytes candidatePeerRelay -> gmap bytes candidatePeerRelay) (r : relayManager) :=
  MkRM (f (serversByNodeKey r)) (hasPeerRelayServers r) (allocWorkByCandidatePeerRelayByEndpoint r)
    (allocWorkByDiscoKeysByServerNodeKey r) (handshakeWorkByServerDiscoByEndpoint r)
    (handshakeWorkByServerDiscoVNI r) (handshakeWorkAwaitingPong r) (addrPortVNIToHandshakeWork r)
    (handshakeGeneration r) (allocGeneration r) (discoInfoByServerDisco r) (rm_allocs r) (rm_handshakes r)
    (rm_next r) (rm_out r).
Definition set_hasServers (b : bool) (r : relayManager) :=
  MkRM (serversByNodeKey r) b (allocWorkByCandidatePeerRelayByEndpoint r)
    (allocWorkByDiscoKeysByServerNodeKey r) (handshakeWorkByServerDiscoByEndpoint r)
    (handshakeWorkByServerDiscoVNI r) (handshakeWorkAwaitingPong r) (addrPortVNIToHandshakeWork r)
    (handshakeGeneration r) (allocGeneration r) (discoInfoByServerDisco r) (rm_allocs r) (rm_handshakes r)
    (rm_next r) (rm_out r).
Definition upd_allocs (f : gmap nat allocWorker -> gmap nat allocWorker) (r : relayManager) :=
  MkRM (serversByNodeKey r) (hasPeerRelayServers r) (allocWorkByCandidatePeerRelayByEndpoint r)
    (allocWorkByDiscoKeysByServerNodeKey r) (handshakeWorkByServerDiscoByEndpoint r)
    (handshakeWorkByServerDiscoVNI r) (handshakeWorkAwaitingPong r) (addrPortVNIToHandshakeWork r)
    (handshakeGeneration r) (allocGeneration r) (discoInfoByServerDisco r) (f (rm_allocs r)) (rm_handshakes r)
    (rm_next r) (rm_out r).
Definition upd_handshakes (f : gmap nat hsWorker -> gmap nat hsWorker) (r : relayManager) :=
  MkRM (serversByNodeKey r) (hasPeerRelayServers r) (allocWorkByCandidatePeerRelayByEndpoint r)
    (allocWorkByDiscoKeysByServerNodeKey r) (handshakeWorkByServerDiscoByEndpoint r)
    (handshakeWorkByServerDiscoVNI r) (handshakeWorkAwaitingPong r) (addrPortVNIToHandshakeWork r)
    (handshakeGeneration r) (allocGeneration r) (discoInfoByServerDisco r) (rm_allocs r) (f (rm_handshakes r))
    (rm_next r) (rm_out r).
Definition upd_discoInfo (f : gmap bytes (gset nat) -> gmap bytes (gset nat)) (r : relayManager) :=
  MkRM (serversByNodeKey r) (hasPeerRelayServers r) (allocWorkByCandidatePeerRelayByEndpoint r)
    (allocWorkByDiscoKeysByServerNodeKey r) (handshakeWorkByServerDiscoByEndpoint r)
    (handshakeWorkByServerDiscoVNI r) (handshakeWorkAwaitingPong r) (addrPortVNIToHandshakeWork r)
    (handshakeGeneration r) (allocGeneration r) (f (discoInfoByServerDisco r)) (rm_allocs r) (rm_handshakes r)
    (rm_next r) (rm_out r).
Definition emit (l : list relayOut) (r : relayManager) :=
  MkRM (serversByNodeKey r) (hasPeerRelayServers r) (allocWorkByCandidatePeerRelayByEndpoint r)
    (allocWorkByDiscoKeysByServerNodeKey r) (handshakeWorkByServerDiscoByEndpoint r)
    (handshakeWorkByServerDiscoVNI r) (handshakeWorkAwaitingPong r) (addrPortVNIToHandshakeWork r)
    (handshakeGeneration r) (allocGeneration r) (discoInfoByServerDisco r) (rm_allocs r) (rm_handshakes r)
    (rm_next r) (rm_out r ++ l).
Definition set_allocIndex (a : gmap nat (gmap candidatePeerRelay nat)) (b : gmap bytes (gmap (bytes * bytes) nat))
    (r : relayManager) :=
  MkRM (serversByNodeKey r) (hasPeerRelayServers r) a b (handshakeWorkByServerDiscoByEndpoint r)
    (handshakeWorkByServerDiscoVNI r) (handshakeWorkAwaitingPong r) (addrPortVNIToHandshakeWork r)
    (handshakeGeneration r) (allocGeneration r) (discoInfoByServerDisco r) (rm_allocs r) (rm_handshakes r)
    (rm_next r) (rm_out r).
Definition set_hsIndex (a : gmap nat (gmap bytes nat)) (b : gmap (bytes * Z) nat) (r : relayManager) :=
  MkRM (serversByNodeKey r) (hasPeerRelayServers r) (allocWorkByCandidatePeerRelayByEndpoint r)
    (allocWorkByDiscoKeysByServerNodeKey r) a b (handshakeWorkAwaitingPong r) (addrPortVNIToHandshakeWork r)
    (handshakeGeneration r) (allocGeneration r) (discoInfoByServerDisco r) (rm_allocs r) (rm_handshakes r)
    (rm_next r) (rm_out r).
Definition set_awaiting (a : gmap nat addrPortVNI) (b : gmap addrPortVNI nat) (r : relayManager) :=
  MkRM (serversByNodeKey r) (hasPeerRelayServers r) (allocWorkByCandidatePeerRelayByEndpoint r)
    (allocWorkByDiscoKeysByServerNodeKey r) (handshakeWorkByServerDiscoByEndpoint r)
    (handshakeWorkByServerDiscoVNI r) a b
    (handshakeGeneration r) (allocGeneration r) (discoInfoByServerDisco r) (rm_allocs r) (rm_handshakes r)
    (rm_next r) (rm_out r).
(** A new piece of work, under a fresh pointer. *)
Definition new_handshake (gen : Z) (g : hsWorker) (r : relayManager) :=
  MkRM (serversByNodeKey r) (hasPeerRelayServers r) (allocWorkByCandidatePeerRelayByEndpoint r)
    (allocWorkByDiscoKeysByServerNodeKey r) (handshakeWorkByServerDiscoByEndpoint r)
    (handshakeWorkByServerDiscoVNI r) (handshakeWorkAwaitingPong r) (addrPortVNIToHandshakeWork r)
    gen (allocGeneration r) (discoInfoByServerDisco r) (rm_allocs r) (<[rm_next r := g]> (rm_handshakes r))
    (S (rm_next r)) (rm_out r).
Definition new_alloc (gen : Z) (g : allocWorker) (r : relayManager) :=
  MkRM (serversByNodeKey r) (hasPeerRelayServers r) (allocWorkByCandidatePeerRelayByEndpoint r)
    (allocWorkByDiscoKeysByServerNodeKey r) (handshakeWorkByServerDiscoByEndpoint r)
    (handshakeWorkByServerDiscoVNI r) (handshakeWorkAwaitingPong r) (addrPortVNIToHandshakeWork r)
    (handshakeGeneration r) gen (discoInfoByServerDisco r) (<[rm_next r := g]> (rm_allocs r)) (rm_handshakes r)
    (S (rm_next r)) (rm_out r).

(** What a step reads: the connection's keys, and of each endpoint its disco key, DERP address and
    node key; the clock and a fresh transaction id. *)
Record epEnv := MkEpEnv { ee_disco : option bytes; ee_derpAddr : AddrPort; ee_publicKey : bytes }.
Record env := MkEnv { en_ep : nat -> epEnv; en_disco : bytes; en_node : bytes; en_now : Z; en_txid : bytes }.

(** [hasActiveWorkRunLoop], [hasActiveWorkForEndpointRunLoop] *)
Definition hasActiveWorkRunLoop (r : relayManager) : bool :=
  negb (size (allocWorkByCandidatePeerRelayByEndpoint r) =? 0)%nat
  || negb (size (handshakeWorkByServerDiscoByEndpoint r) =? 0)%nat.
Definition hasActiveWorkForEndpointRunLoop (ep : nat) (r : relayManager) : bool :=
  bool_decide (is_Some (handshakeWorkByServerDiscoByEndpoint r !! ep))
  || bool_decide (is_Some (allocWorkByCandidatePeerRelayByEndpoint r !! ep)).

(** ** The server set *)
Definition publishHasServersRunLoop (r : relayManager) : relayManager :=
  set_hasServers (0 <? size (serversByNodeKey r))%nat r.
Definition handleDERPHomeChangeRunLoop (nk : bytes) (regionID : Z) (r : relayManager) : relayManager :=
  match serversByNodeKey r !! nk with
  | Some c => upd_servers <[nk := MkCand (nodeKey c) (discoKey c) regionID]> r
  | None => r
  end.
Definition handleGetServersRunLoop `{MapRange} (r : relayManager) : relayManager :=
  emit [ReplyServers (list_to_set (map_range (serversByNodeKey r)).*2)] r.
Definition handleServersUpdateRunLoop `{MapRange} (update : gset candidatePeerRelay) (slice : list candidatePeerRelay)
    (r : relayManager) : relayManager :=
  let r := foldl (fun r '(_, v) => if bool_decide (v ∈ update) then r else upd_servers (delete (nodeKey v)) r) r
             (map_range (serversByNodeKey r)) in
  let r := foldl (fun r v => upd_servers <[nodeKey v := v]> r) r slice in
  publishHasServersRunLoop r.
Definition handleServerUpsertRunLoop (cp : candidatePeerRelay) (r : relayManager) : relayManager :=
  publishHasServersRunLoop (upd_servers <[nodeKey cp := cp]> r).
Definition handleServerRemoveRunLoop (nk : bytes) (r : relayManager) : relayManager :=
  match serversByNodeKey r !! nk with
  | None => r
  | Some _ => publishHasServersRunLoop (upd_servers (delete nk) r)
  end.

(** ** The handshake goroutine, [handshakeServerEndpoint] *)
Definition ensureDiscoInfoFor (w : nat) (g : hsWorker) (r : relayManager) : relayManager :=
  let k := ServerDisco (hw_se (g_work g)) in
  upd_discoInfo (fun m => <[k := {[w]} ∪ default ∅ (m !! k)]> m) r.
Definition derefDiscoInfoFor (w : nat) (g : hsWorker) (r : relayManager) : relayManager :=
  let k := ServerDisco (hw_se (g_work g)) in
  match discoInfoByServerDisco r !! k with
  | None => r
  | Some work =>
      let work := work ∖ {[w]} in
      if bool_decide (work = ∅) then upd_discoInfo (delete k) r else upd_discoInfo <[k := work]> r
  end.
(** Whether [discoInfo] finds the server. *)
Definition discoInfo (serverDisco : bytes) (r : relayManager) : bool :=
  bool_decide (is_Some (discoInfoByServerDisco r !! serverDisco)).

Definition hsReturn (w : nat) (g : hsWorker) (d : handshakeDone) (r : relayManager) : relayManager :=
  upd_handshakes <[w := return_ d g]> (derefDiscoInfoFor w g r).
(** Up to the loop: the binds are sent. *)
Definition hsStart (ev : env) (w : nat) (g : hsWorker) (r : relayManager) : relayManager :=
  let r := ensureDiscoInfoFor w g r in
  let work := g_work g in
  match ee_disco (en_ep ev (wl_ep (hw_wlb work))) with
  | None => hsReturn w g notDone r
  | Some epDisco =>
      let common := MkBindCommon (VNI_ (hw_se work)) (handshakeGen work) epDisco (zeros 32) in
      let vni := VNI.Set_ (VNI_ (hw_se work)) in
      let tos := filter (fun p => IsValid p = true) (AddrPorts (hw_se work)) in
      if bool_decide (tos = []) then hsReturn w g notDone r
      else
        let r := emit ((fun p => SendDisco (MkEpAddr p vni) (zeros 32) (ServerDisco (hw_se work))
                                   (MBindUDPRelayEndpoint common)) <$> tos) r in
        upd_handshakes <[w := run (MkHsLocal common BindSent ∅) g]> r
  end.

(** [txPing] *)
Definition txPing (ev : env) (work : relayHandshakeWork) (l : handshakeLocal) (to : AddrPort) (withAnswer : option bytes)
  : handshakeLocal * list relayOut :=
  if (size (sentPingAt l) =? limitPings)%nat then (l, [])
  else
    let vni := VNI.Set_ (VNI_ (hw_se work)) in
    let c := hl_common l in
    let ping := MPing (MkPing (en_txid ev) (en_node ev) 0) in
    (MkHsLocal (hl_common l) (handshakeState l) (<[en_txid ev := en_now ev]> (sentPingAt l)),
     (match withAnswer with
      | Some ch => [SendDisco (MkEpAddr to vni) (zeros 32) (ServerDisco (hw_se work))
                      (MBindUDPRelayEndpointAnswer (MkBindCommon (bc_VNI c) (bc_Generation c) (bc_RemoteKey c) ch))]
      | None => []
      end) ++ [SendDisco (MkEpAddr to vni) (zeros 32) (bc_RemoteKey c) ping]).
Definition validateVNIAndRemoteKey (work : relayHandshakeWork) (l : handshakeLocal) (c : BindUDPRelayEndpointCommon) : bool :=
  (bc_VNI c =? VNI_ (hw_se work)) && (Compare (bc_RemoteKey c) (bc_RemoteKey (hl_common l)) =? 0).
(** A message received by the loop: it goes on in a new state, or returns. *)
Definition hsMsg (ev : env) (work : relayHandshakeWork) (l : handshakeLocal) (from : AddrPort) (m : Message)
  : (handshakeLocal + handshakeDone) * list relayOut :=
  match m with
  | MBindUDPRelayEndpointChallenge c =>
      if negb (validateVNIAndRemoteKey work l c) then (inl l, [])
      else if AnswerSent <=? handshakeState l then (inl l, [])
      else
        let '(l, out) := txPing ev work l from (Some (bc_Challenge c)) in
        (inl (MkHsLocal (hl_common l) AnswerSent (sentPingAt l)), out)
  | MPing _ =>
      if handshakeState l <? AnswerSent then (inl l, [])
      else let '(l, out) := txPing ev work l from None in (inl l, out)
  | MPong p =>
      match sentPingAt l !! po_TxID p with
      | None => (inl l, [])
      | Some at' => (inr (MkHsDone from (i64 (en_now ev - at'))), [])
      end
  | _ => (inl l, [])
  end.
Definition hsReceive (ev : env) (w : nat) (g : hsWorker) (l : handshakeLocal) (from : AddrPort) (m : Message)
    (r : relayManager) : relayManager :=
  let '(res, out) := hsMsg ev (g_work g) l from m in
  let r := emit out r in
  match res with
  | inl l => upd_handshakes <[w := run l g]> r
  | inr d => hsReturn w g d r
  end.

(** ** The run loop: handshake work *)

(** Delete a key of an inner map, and the inner map when it gets empty. *)
Definition delete2 {K1 K2} `{Countable K1, Countable K2} (k1 : K1) (k2 : K2) (m : gmap K1 (gmap K2 nat)) :=
  match m !! k1 with
  | None => m
  | Some inner => let inner := delete k2 inner in
                  if (size inner =? 0)%nat then delete k1 m else <[k1 := inner]> m
  end.
Definition insert2 {K1 K2} `{Countable K1, Countable K2} (k1 : K1) (k2 : K2) (w : nat) (m : gmap K1 (gmap K2 nat)) :=
  <[k1 := <[k2 := w]> (default ∅ (m !! k1))]> m.
Definition lookup2 {K1 K2} `{Countable K1, Countable K2} (k1 : K1) (k2 : K2) (m : gmap K1 (gmap K2 nat)) : option nat :=
  inner ← m !! k1; inner !! k2.

Definition handleHandshakeWorkDoneRunLoop (w : nat) (done : handshakeDone) (r : relayManager) : relayManager :=
  match rm_handshakes r !! w with
  | None => r
  | Some g =>
      let se := hw_se (g_work g) in
      let ep := wl_ep (hw_wlb (g_work g)) in
      if negb (bool_decide (lookup2 ep (ServerDisco se) (handshakeWorkByServerDiscoByEndpoint r) = Some w)) then r
      else
        let r := set_hsIndex (delete2 ep (ServerDisco se) (handshakeWorkByServerDiscoByEndpoint r))
                   (delete (ServerDisco se, VNI_ se) (handshakeWorkByServerDiscoVNI r)) r in
        let r := match handshakeWorkAwaitingPong r !! w with
                 | Some apv => set_awaiting (delete w (handshakeWorkAwaitingPong r))
                                 (delete apv (addrPortVNIToHandshakeWork r)) r
                 | None => r
                 end in
        if negb (IsValid (pongReceivedFrom done)) then r
        else
          let addr := MkEpAddr (pongReceivedFrom done) (VNI.Set_ (VNI_ se)) in
          emit [RelayEndpointReady ep (MkAQ addr (ServerDisco se) (hd_latency done) (pingSizeToPktLen 0 addr))] r
  end.

(** The goroutine gets to its loop, or leaves it without a result (timeout or cancelation). *)
Definition hsSettle (ev : env) (w : nat) (r : relayManager) : relayManager :=
  match rm_handshakes r !! w with
  | Some g => match g_phase g with Spawned => hsStart ev w g r | _ => r end
  | None => r
  end.
Definition hsLeave (w : nat) (r : relayManager) : relayManager :=
  match rm_handshakes r !! w with
  | Some g => match g_phase g with Running _ => hsReturn w g notDone r | _ => r end
  | None => r
  end.
(** [w.cancel(); done := <-w.doneCh] *)
Definition hsCancelWait (ev : env) (w : nat) (r : relayManager) : option (handshakeDone * relayManager) :=
  let r := upd_handshakes (alter cancel w) r in
  let r := hsLeave w (hsSettle ev w r) in
  g ← rm_handshakes r !! w;
  d ← doneCh g;
  Some (d, upd_handshakes <[w := drain g]> r).
Definition cancelHandshake (ev : env) (w : nat) (r : relayManager) : option relayManager :=
  '(done, r) ← hsCancelWait ev w r; Some (handleHandshakeWorkDoneRunLoop w done r).

Record newRelayServerEndpointEvent := MkNSE {
  ne_wlb : endpointWithLastBest; ne_se : ServerEndpoint; ne_server : candidatePeerRelay }.
(** [sendCallMeMaybeVia] *)
Definition sendCallMeMaybeVia (ev : env) (ep : nat) (se : ServerEndpoint) (r : relayManager) : relayManager :=
  match ee_disco (en_ep ev ep) with
  | None => r
  | Some epDisco =>
      if negb (IsValid (ee_derpAddr (en_ep ev ep))) then r
      else emit [SendDisco (epAddr_of (ee_derpAddr (en_ep ev ep))) (ee_publicKey (en_ep ev ep)) epDisco
                   (MCallMeMaybeVia (MkRelayEndpoint (ServerDisco se) (ClientDisco se) (LamportID se) (VNI_ se)
                      (BindLifetime se) (SteadyStateLifetime se) (AddrPorts se)))] r
  end.
Definition nextGeneration (g : Z) : Z := let g := uw 32 (g + 1) in if g =? 0 then uw 32 (g + 1) else g.
Definition startHandshake (e : newRelayServerEndpointEvent) (r : relayManager) : relayManager :=
  let w := rm_next r in
  let gen := nextGeneration (handshakeGeneration r) in
  let sd := ServerDisco (ne_se e) in
  let r := set_hsIndex (insert2 (wl_ep (ne_wlb e)) sd w (handshakeWorkByServerDiscoByEndpoint r))
             (<[(sd, VNI_ (ne_se e)) := w]> (handshakeWorkByServerDiscoVNI r)) r in
  new_handshake gen (spawn (MkHsWork (ne_wlb e) (ne_se e) (ne_server e) gen)) r.
(** The work found in an index, with its Lamport id. *)
Definition lamportOf (w : nat) (r : relayManager) : option Z :=
  (fun g : hsWorker => LamportID (hw_se (g_work g))) <$> rm_handshakes r !! w.
(** One of the two checks for older work: [Some None] is the early return. *)
Definition replaceOlder (ev : env) (existing : option nat) (lam : Z) (r : relayManager) : option (option relayManager) :=
  match existing with
  | None => Some (Some r)
  | Some w =>
      l ← lamportOf w r;
      if lam <=? l then Some None
      else r ← cancelHandshake ev w r; Some (Some r)
  end.
Definition handleNewServerEndpointRunLoop (ev : env) (e : newRelayServerEndpointEvent) (r : relayManager)
  : option relayManager :=
  let se := ne_se e in
  let ep := wl_ep (ne_wlb e) in
  o ← replaceOlder ev (handshakeWorkByServerDiscoVNI r !! (ServerDisco se, VNI_ se)) (LamportID se) r;
  match o with
  | None => Some r
  | Some r =>
      o ← replaceOlder ev (lookup2 ep (ServerDisco se) (handshakeWorkByServerDiscoByEndpoint r)) (LamportID se) r;
      match o with
      | None => Some r
      | Some r =>
          let r := if isValid (ne_server e) then sendCallMeMaybeVia ev ep se r else r in
          let lastBestMatchingServer := Compare (ServerDisco se) (relayServerDisco (lastBest (ne_wlb e))) =? 0 in
          if lastBestMatchingServer && lastBestIsTrusted (ne_wlb e) then Some r
          else Some (startHandshake e r)
      end
  end.

(** ** Allocation work *)

(** [allocateServerEndpoint]: the request, sent at the start and once more by the retry timer. *)
Definition allocRequest (work : relayEndpointAllocWork) : relayOut :=
  SendDisco (epAddr_of (MkAddrPort DerpMagicIPAddr (derpHomeRegionID (aw_cand work)))) (nodeKey (aw_cand work))
    (discoKey (aw_cand work)) (MAllocateUDPRelayEndpointRequest (MkAllocReq (aw_discoKeys work) (allocGen work))).
Definition allocStart (w : nat) (g : allocWorker) (r : relayManager) : relayManager :=
  upd_allocs <[w := run true g]> (emit [allocRequest (g_work g)] r).
Definition allocReturn (w : nat) (g : allocWorker) (d : allocDone) (r : relayManager) : relayManager :=
  upd_allocs <[w := return_ d g]> r.
Definition allocReceive (w : nat) (g : allocWorker) (gen : Z) (resp : UDPRelayEndpoint) (r : relayManager) : relayManager :=
  let work := g_work g in
  if negb (gen =? allocGen work)
     || negb (bool_decide (aw_discoKeys work
                = NewSortedPairOfDiscoPublic (re_ClientDisco resp).1 (re_ClientDisco resp).2))
  then r
  else allocReturn w g (Some (MkSE (re_ServerDisco resp) (re_ClientDisco resp) (re_LamportID resp) (re_AddrPorts resp)
                                (re_VNI resp) (re_BindLifetime resp) (re_SteadyStateLifetime resp))) r.
Definition handleAllocWorkDoneRunLoop (ev : env) (w : nat) (done : allocDone) (r : relayManager) : option relayManager :=
  match rm_allocs r !! w with
  | None => Some r
  | Some g =>
      let work := g_work g in
      let ep := wl_ep (aw_wlb work) in
      let nk := nodeKey (aw_cand work) in
      if negb (bool_decide (lookup2 ep (aw_cand work) (allocWorkByCandidatePeerRelayByEndpoint r) = Some w)) then Some r
      else
        let byEp := delete2 ep (aw_cand work) (allocWorkByCandidatePeerRelayByEndpoint r) in
        match allocWorkByDiscoKeysByServerNodeKey r !! nk with
        | None => Some (set_allocIndex byEp (allocWorkByDiscoKeysByServerNodeKey r) r)
        | Some _ =>
            let r := set_allocIndex byEp (delete2 nk (aw_discoKeys work) (allocWorkByDiscoKeysByServerNodeKey r)) r in
            match done with
            | Some se =>
                if negb (isZeroKey (ServerDisco se))
                then handleNewServerEndpointRunLoop ev (MkNSE (aw_wlb work) se (aw_cand work)) r
                else Some r
            | None => Some r
            end
        end
  end.
Definition allocSettle (w : nat) (r : relayManager) : relayManager :=
  match rm_allocs r !! w with
  | Some g => match g_phase g with Spawned => allocStart w g r | _ => r end
  | None => r
  end.
Definition allocLeave (w : nat) (r : relayManager) : relayManager :=
  match rm_allocs r !! w with
  | Some g => match g_phase g with Running _ => allocReturn w g None r | _ => r end
  | None => r
  end.
Definition allocCancelWait (w : nat) (r : relayManager) : option (allocDone * relayManager) :=
  let r := upd_allocs (alter cancel w) r in
  let r := allocLeave w (allocSettle w r) in
  g ← rm_allocs r !! w;
  d ← doneCh g;
  Some (d, upd_allocs <[w := drain g]> r).
Definition cancelAlloc (ev : env) (w : nat) (r : relayManager) : option relayManager :=
  '(done, r) ← allocCancelWait w r; handleAllocWorkDoneRunLoop ev w done r.

Section Loops.
Context `{MapRange}.
Definition stopWorkRunLoop (ev : env) (ep : nat) (r : relayManager) : option relayManager :=
  r ← match allocWorkByCandidatePeerRelayByEndpoint r !! ep with
      | Some inner => foldl (fun o '(_, w) => r ← o; cancelAlloc ev w r) (Some r) (map_range inner)
      | None => Some r
      end;
  match handshakeWorkByServerDiscoByEndpoint r !! ep with
  | Some inner => foldl (fun o '(_, w) => r ← o; cancelHandshake ev w r) (Some r) (map_range inner)
  | None => Some r
  end.
(** One server of [allocateAllServersRunLoop]. *)
Definition allocateOn (wlb : endpointWithLastBest) (discoKeys : bytes * bytes) (r : relayManager)
    (v : candidatePeerRelay) : relayManager :=
  match lookup2 (nodeKey v) discoKeys (allocWorkByDiscoKeysByServerNodeKey r) with
  | Some _ => r
  | None =>
      let w := rm_next r in
      let gen := uw 32 (allocGeneration r + 1) in
      let r := set_allocIndex (insert2 (wl_ep wlb) v w (allocWorkByCandidatePeerRelayByEndpoint r))
                 (insert2 (nodeKey v) discoKeys w (allocWorkByDiscoKeysByServerNodeKey r)) r in
      new_alloc gen (spawn (MkAllocWork wlb discoKeys v gen)) r
  end.
Definition allocateAllServersRunLoop (ev : env) (wlb : endpointWithLastBest) (r : relayManager) : relayManager :=
  if (size (serversByNodeKey r) =? 0)%nat then r
  else match ee_disco (en_ep ev (wl_ep wlb)) with
  | None => r
  | Some remoteDisco =>
      let discoKeys := NewSortedPairOfDiscoPublic (en_disco ev) remoteDisco in
      foldl (allocateOn wlb discoKeys) r (map_range (serversByNodeKey r)).*2
  end.

(** ** Received messages *)
Record relayDiscoMsgEvent := MkDiscoEv {
  de_msg : Message; relayServerNodeKey : bytes; de_disco : bytes; de_from : AddrPort; de_vni : Z }.
(** [select] between the goroutine's [doneCh] and its message channel. *)
Definition toHandshake (ev : env) (w : nat) (e : relayDiscoMsgEvent) (r : relayManager) : option relayManager :=
  let r := hsSettle ev w r in
  g ← rm_handshakes r !! w;
  match g_phase g with
  | Running l => Some (hsReceive ev w g l (de_from e) (de_msg e) r)
  | _ => d ← doneCh g; Some (handleHandshakeWorkDoneRunLoop w d (upd_handshakes <[w := drain g]> r))
  end.
Definition toAlloc (ev : env) (w : nat) (gen : Z) (resp : UDPRelayEndpoint) (r : relayManager) : option relayManager :=
  let r := allocSettle w r in
  g ← rm_allocs r !! w;
  match g_phase g with
  | Running _ => Some (allocReceive w g gen resp r)
  | _ => d ← doneCh g; handleAllocWorkDoneRunLoop ev w d (upd_allocs <[w := drain g]> r)
  end.
Definition handleRxDiscoMsgRunLoop (ev : env) (e : relayDiscoMsgEvent) (r : relayManager) : option relayManager :=
  let apv := MkApv (de_from e) (de_vni e) in
  match de_msg e with
  | MAllocateUDPRelayEndpointResponse gen msg =>
      let sorted := NewSortedPairOfDiscoPublic (re_ClientDisco msg).1 (re_ClientDisco msg).2 in
      match lookup2 (relayServerNodeKey e) sorted (allocWorkByDiscoKeysByServerNodeKey r) with
      | None => Some r
      | Some w => toAlloc ev w gen msg r
      end
  | MBindUDPRelayEndpointChallenge _ =>
      match handshakeWorkByServerDiscoVNI r !! (de_disco e, de_vni e) with
      | None => Some r
      | Some w =>
          if bool_decide (is_Some (handshakeWorkAwaitingPong r !! w)) then Some r
          else if bool_decide (is_Some (addrPortVNIToHandshakeWork r !! apv)) then Some r
          else toHandshake ev w e (set_awaiting (<[w := apv]> (handshakeWorkAwaitingPong r))
                                     (<[apv := w]> (addrPortVNIToHandshakeWork r)) r)
      end
  | MPing p =>
      let r := emit [SendDisco (MkEpAddr (de_from e) (VNI.Set_ (de_vni e))) (zeros 32) (de_disco e)
                       (MPong (MkDPong (pi_TxID p) (de_from e)))] r in
      match addrPortVNIToHandshakeWork r !! apv with
      | None => Some r
      | Some w => toHandshake ev w e r
      end
  | MPong _ =>
      match addrPortVNIToHandshakeWork r !! apv with
      | None => Some r
      | Some w => toHandshake ev w e r
      end
  | _ => Some r
  end.

(** ** Steps: the run loop's events, and what the goroutines do on their own *)
Inductive rmEvent :=
| EvStartDiscovery (wlb : endpointWithLastBest)
| EvAllocDone (w : nat)
| EvCancelWork (ep : nat)
| EvNewServerEndpoint (wlb : endpointWithLastBest) (dm : UDPRelayEndpoint)
| EvHandshakeDone (w : nat)
| EvRxDisco (e : relayDiscoMsgEvent)
| EvServers (update : gset candidatePeerRelay) (slice : list candidatePeerRelay)
| EvServerUpsert (cp : candidatePeerRelay)
| EvServerRemove (nk : bytes)
| EvGetServers
| EvDERPHome (nk : bytes) (regionID : Z)
| GoHandshake (w : nat)
| GoHandshakeTimeout (w : nat)
| GoHandshakeWithdraw (w : nat)
| GoAlloc (w : nat)
| GoAllocRetry (w : nat)
| GoAllocTimeout (w : nat)
| GoAllocWithdraw (w : nat).

(** [handleCallMeMaybeVia] *)
Definition handleCallMeMaybeVia (wlb : endpointWithLastBest) (dm : UDPRelayEndpoint) : newRelayServerEndpointEvent :=
  MkNSE wlb (MkSE (re_ServerDisco dm) (re_ClientDisco dm) (re_LamportID dm) (re_AddrPorts dm) (re_VNI dm)
               (re_BindLifetime dm) (re_SteadyStateLifetime dm)) zeroCand.
Definition onHandshake (w : nat) (f : hsWorker -> relayManager -> relayManager) (r : relayManager) : relayManager :=
  match rm_handshakes r !! w with Some g => f g r | None => r end.
Definition onAlloc (w : nat) (f : allocWorker -> relayManager -> relayManager) (r : relayManager) : relayManager :=
  match rm_allocs r !! w with Some g => f g r | None => r end.
(** A step that does not apply in the state leaves it. *)
Definition rmStep (ev : env) (x : rmEvent) (r : relayManager) : option relayManager :=
  match x with
  | EvStartDiscovery wlb =>
      Some (if negb (hasActiveWorkForEndpointRunLoop (wl_ep wlb) r) then allocateAllServersRunLoop ev wlb r else r)
  | EvAllocDone w =>
      match g ← rm_allocs r !! w; g_offer g with
      | Some d => handleAllocWorkDoneRunLoop ev w d (upd_allocs (alter withdraw w) r)
      | None => Some r
      end
  | EvCancelWork ep => stopWorkRunLoop ev ep r
  | EvNewServerEndpoint wlb dm => handleNewServerEndpointRunLoop ev (handleCallMeMaybeVia wlb dm) r
  | EvHandshakeDone w =>
      match g ← rm_handshakes r !! w; g_offer g with
      | Some d => Some (handleHandshakeWorkDoneRunLoop w d (upd_handshakes (alter withdraw w) r))
      | None => Some r
      end
  | EvRxDisco e => handleRxDiscoMsgRunLoop ev e r
  | EvServers u l => Some (handleServersUpdateRunLoop u l r)
  | EvServerUpsert cp => Some (handleServerUpsertRunLoop cp r)
  | EvServerRemove nk => Some (handleServerRemoveRunLoop nk r)
  | EvGetServers => Some (handleGetServersRunLoop r)
  | EvDERPHome nk id => Some (handleDERPHomeChangeRunLoop nk id r)
  | GoHandshake w => Some (hsSettle ev w r)
  | GoHandshakeTimeout w => Some (hsLeave w r)
  | GoHandshakeWithdraw w =>
      Some (onHandshake w (fun g r => if g_canceled g then upd_handshakes <[w := withdraw g]> r else r) r)
  | GoAlloc w => Some (allocSettle w r)
  | GoAllocRetry w =>
      Some (onAlloc w (fun g r => match g_phase g with
                              | Running true => upd_allocs <[w := run false g]> (emit [allocRequest (g_work g)] r)
                              | _ => r end) r)
  | GoAllocTimeout w => Some (allocLeave w r)
  | GoAllocWithdraw w =>
      Some (onAlloc w (fun g r => if g_canceled g then upd_allocs <[w := withdraw g]> r else r) r)
  end.
End Loops.
End RelayManager.
