(* ===== verification/RelayManagerProps.v ===== *)
(** * Theorems about the relay manager

    The invariant of its indexes and goroutines under every sequence of run-loop events and
    goroutine steps, that the run loop never blocks, and what one handshake does. *)
From S2P Require Import Prelude Netip Bytes Slices Disco BetterAddr UdpRelay RelayManager.

Module RelayManagerProps.
Import UdpRelay RelayManager.

Lemma alter_insert {A} (f : A -> A) (m : gmap nat A) w g : m !! w = Some g -> alter f w m = <[w := f g]> m.
Proof.
  intros Hw. apply map_eq. intros q. destruct (decide (q = w)) as [->|].
  - by rewrite lookup_alter_eq, lookup_insert_eq, Hw.
  - by rewrite lookup_alter_ne, lookup_insert_ne.
Qed.

(** ** Two-level maps *)
Definition inner_ok {K1 K2} `{Countable K1, Countable K2} (m : gmap K1 (gmap K2 nat)) : Prop :=
  forall k i, m !! k = Some i -> i <> ∅.
Section TwoLevel.
Context {K1 K2 : Type} `{Countable K1, Countable K2}.
Implicit Types m : gmap K1 (gmap K2 nat).

Lemma lookup2_empty (k1 : K1) (k2 : K2) : lookup2 k1 k2 ∅ = None.
Proof. unfold lookup2. by rewrite lookup_empty. Qed.
Lemma lookup2_insert2 k1 k2 w m l1 l2 :
  lookup2 l1 l2 (insert2 k1 k2 w m) = if decide (k1 = l1 /\ k2 = l2) then Some w else lookup2 l1 l2 m.
Proof.
  unfold lookup2, insert2. destruct (decide (k1 = l1)) as [->|N1].
  - rewrite lookup_insert_eq. simpl. destruct (decide (k2 = l2)) as [->|N2].
    + rewrite lookup_insert_eq. by rewrite decide_True.
    + rewrite lookup_insert_ne, decide_False by naive_solver. by destruct (m !! l1).
  - rewrite lookup_insert_ne, decide_False by naive_solver. done.
Qed.
Lemma lookup2_delete2 k1 k2 m l1 l2 :
  lookup2 l1 l2 (delete2 k1 k2 m) = if decide (k1 = l1 /\ k2 = l2) then None else lookup2 l1 l2 m.
Proof.
  unfold lookup2, delete2. destruct (m !! k1) as [i|] eqn:E.
  2:{ destruct (decide _) as [[<- <-]|]; [by rewrite E|done]. }
  destruct (size (delete k2 i) =? 0)%nat eqn:Z.
  - apply Nat.eqb_eq, map_size_empty_iff in Z. destruct (decide (k1 = l1)) as [->|N1].
    + rewrite lookup_delete_eq, E. simpl. destruct (decide _) as [|N2]; [done|].
      rewrite <- (lookup_delete_ne i k2 l2) by naive_solver. by rewrite Z, lookup_empty.
    + by rewrite lookup_delete_ne, decide_False by naive_solver.
  - destruct (decide (k1 = l1)) as [->|N1].
    + rewrite lookup_insert_eq, E. simpl. destruct (decide (k2 = l2)) as [->|N2].
      * rewrite lookup_delete_eq. by rewrite decide_True.
      * by rewrite lookup_delete_ne, decide_False by naive_solver.
    + by rewrite lookup_insert_ne, decide_False by naive_solver.
Qed.
Lemma inner_ok_empty : inner_ok (∅ : gmap K1 (gmap K2 nat)).
Proof. intros k i. by rewrite lookup_empty. Qed.
Lemma inner_ok_insert2 k1 k2 w m : inner_ok m -> inner_ok (insert2 k1 k2 w m).
Proof.
  intros I k i. unfold insert2. rewrite lookup_insert_Some. intros [[_ <-]|[_ Hk]]; [apply insert_non_empty|by eapply I].
Qed.
Lemma inner_ok_delete2 k1 k2 m : inner_ok m -> inner_ok (delete2 k1 k2 m).
Proof.
  intros I k i. unfold delete2. destruct (m !! k1) as [j|]; [|apply I].
  destruct (size (delete k2 j) =? 0)%nat eqn:Z.
  - rewrite lookup_delete_Some. intros [_ Hk]. by eapply I.
  - apply Nat.eqb_neq in Z. rewrite lookup_insert_Some. intros [[_ <-]|[_ Hk]]; [|by eapply I].
    intros E. by rewrite E in Z.
Qed.
(** With no empty inner maps, a key of the outer map leads to an entry. *)
Lemma inner_ok_lookup m k1 : inner_ok m -> is_Some (m !! k1) -> exists k2 w, lookup2 k1 k2 m = Some w.
Proof.
  intros I [i Hi]. destruct (map_choose i (I _ _ Hi)) as (k2 & w & Hw). exists k2, w. unfold lookup2. by rewrite Hi.
Qed.
Lemma lookup2_size_0 m k1 k2 : (size m = 0)%nat -> lookup2 k1 k2 m = None.
Proof. intros ->%map_size_empty_iff. apply lookup2_empty. Qed.
End TwoLevel.

(** ** The invariant of handshake work *)
Definition keyA (k : relayHandshakeWork) : nat * bytes := (wl_ep (hw_wlb k), ServerDisco (hw_se k)).
Definition keyB (k : relayHandshakeWork) : bytes * Z := (ServerDisco (hw_se k), VNI_ (hw_se k)).
Notation indexedA byEp w k := (lookup2 (keyA k).1 (keyA k).2 byEp = Some w).

(** A running handshake: what it sends is for its own work; pings follow the answer, at most ten. *)
Record local_ok (k : relayHandshakeWork) (l : handshakeLocal) : Prop := {
  lo_vni : bc_VNI (hl_common l) = VNI_ (hw_se k);
  lo_gen : bc_Generation (hl_common l) = handshakeGen k;
  lo_state : handshakeState l = BindSent /\ sentPingAt l = ∅ \/ handshakeState l = AnswerSent;
  lo_pings : (size (sentPingAt l) <= limitPings)%nat
}.
Definition phase_ok (X : nat -> Prop) (byEp : gmap nat (gmap bytes nat)) (w : nat) (g : hsWorker) : Prop :=
  match g_phase g with
  | Spawned => indexedA byEp w (g_work g) /\ doneCh g = None /\ g_offer g = None
  | Running l => indexedA byEp w (g_work g) /\ doneCh g = None /\ g_offer g = None /\ local_ok (g_work g) l
  | Returned => X w \/ is_Some (doneCh g) \/ lookup2 (keyA (g_work g)).1 (keyA (g_work g)).2 byEp <> Some w
  end.
Definition isRunning (g : hsWorker) : bool := match g_phase g with Running _ => true | _ => false end.

(** [X] holds of the goroutines whose [doneCh] the run loop has just drained. *)
Record hs_inv (X : nat -> Prop) (byEp : gmap nat (gmap bytes nat)) (byVNI : gmap (bytes * Z) nat)
    (aw : gmap nat addrPortVNI) (ap : gmap addrPortVNI nat) (di : gmap bytes (gset nat))
    (hs : gmap nat hsWorker) (gen : Z) (next : nat) : Prop := {
  hi_ep : forall ep sd w, lookup2 ep sd byEp = Some w ->
    exists g, hs !! w = Some g /\ keyA (g_work g) = (ep, sd) /\ byVNI !! keyB (g_work g) = Some w;
  hi_vni : forall k w, byVNI !! k = Some w ->
    exists g, hs !! w = Some g /\ keyB (g_work g) = k /\ indexedA byEp w (g_work g);
  hi_inner : inner_ok byEp;
  hi_aw : forall w apv, aw !! w = Some apv <-> ap !! apv = Some w;
  hi_awi : forall w apv, aw !! w = Some apv -> exists g, hs !! w = Some g /\ indexedA byEp w (g_work g);
  hi_go : forall w g, hs !! w = Some g ->
    (w < next)%nat /\ 0 < handshakeGen (g_work g) < 2 ^ 32 /\ phase_ok X byEp w g;
  hi_dine : forall k S, di !! k = Some S -> S <> ∅;
  hi_di : forall k w, w ∈ default ∅ (di !! k) <->
    exists g, hs !! w = Some g /\ isRunning g = true /\ ServerDisco (hw_se (g_work g)) = k;
  hi_gen : 0 <= gen < 2 ^ 32
}.
Definition hs_ok (X : nat -> Prop) (r : relayManager) : Prop :=
  hs_inv X (handshakeWorkByServerDiscoByEndpoint r) (handshakeWorkByServerDiscoVNI r) (handshakeWorkAwaitingPong r)
    (addrPortVNIToHandshakeWork r) (discoInfoByServerDisco r) (rm_handshakes r) (handshakeGeneration r) (rm_next r).
Notation none := (fun _ : nat => False).

Lemma hs_ok_zero : hs_ok none zeroRM.
Proof.
  split; simpl; intros; rewrite ?lookup2_empty, ?lookup_empty in *; try done; try lia.
  split; [set_solver|]. by intros (g & [=] & _).
Qed.

(** ** The disco info of servers *)
Definition di_add (w : nat) (k : bytes) (di : gmap bytes (gset nat)) := <[k := {[w]} ∪ default ∅ (di !! k)]> di.
Definition di_del (w : nat) (k : bytes) (di : gmap bytes (gset nat)) :=
  match di !! k with
  | None => di
  | Some work => if bool_decide (work ∖ {[w]} = ∅) then delete k di else <[k := work ∖ {[w]}]> di
  end.
Definition di_ne (di : gmap bytes (gset nat)) : Prop := forall k S, di !! k = Some S -> S <> ∅.
Lemma derefDiscoInfoFor_del w g r :
  derefDiscoInfoFor w g r = upd_discoInfo (di_del w (ServerDisco (hw_se (g_work g)))) r.
Proof.
  unfold derefDiscoInfoFor, di_del, upd_discoInfo. destruct r; simpl.
  destruct (_ !! ServerDisco _); [case_bool_decide|]; done.
Qed.
Lemma di_add_ne w k di : di_ne di -> di_ne (di_add w k di).
Proof. intros D k' S'. unfold di_add. rewrite lookup_insert_Some. intros [[_ <-]|[_ Hk]]; [set_solver|by eapply D]. Qed.
Lemma di_del_ne w k di : di_ne di -> di_ne (di_del w k di).
Proof.
  intros D k' S'. unfold di_del. destruct (di !! k) as [S|]; [|apply D]. case_bool_decide.
  - rewrite lookup_delete_Some. intros [_ Hk]. by eapply D.
  - rewrite lookup_insert_Some. intros [[_ <-]|[_ Hk]]; [done|by eapply D].
Qed.
Lemma elem_di_add w k di k' w' :
  w' ∈ default ∅ (di_add w k di !! k') <-> (w' = w /\ k' = k) \/ w' ∈ default ∅ (di !! k').
Proof.
  unfold di_add. destruct (decide (k = k')) as [->|]; [rewrite lookup_insert_eq; simpl; set_solver|].
  rewrite lookup_insert_ne by done. naive_solver.
Qed.
Lemma elem_di_del w k di k' w' :
  w' ∈ default ∅ (di_del w k di !! k') <-> w' ∈ default ∅ (di !! k') /\ ~ (w' = w /\ k' = k).
Proof.
  unfold di_del. destruct (di !! k) as [S|] eqn:E.
  - assert (w' ∈ default ∅ ((if bool_decide (S ∖ {[w]} = ∅) then delete k di else <[k := S ∖ {[w]}]> di) !! k')
      <-> if decide (k = k') then w' ∈ S ∖ {[w]} else w' ∈ default ∅ (di !! k')) as ->.
    { case_bool_decide as Z; destruct (decide (k = k')) as [->|].
      - rewrite lookup_delete_eq. simpl. by rewrite Z.
      - by rewrite lookup_delete_ne.
      - by rewrite lookup_insert_eq.
      - by rewrite lookup_insert_ne. }
    destruct (decide (k = k')) as [->|]; [rewrite E; simpl; set_solver|naive_solver].
  - split; [|tauto]. intros Hw. split; [done|]. intros [-> ->]. rewrite E in Hw. set_solver.
Qed.

(** ** A goroutine moves on *)
Lemma hs_inv_update X byEp byVNI aw ap di di' hs gen next w g g' :
  hs_inv X byEp byVNI aw ap di hs gen next -> hs !! w = Some g -> g_work g' = g_work g ->
  phase_ok X byEp w g' -> di_ne di' ->
  (forall k w', w' ∈ default ∅ (di' !! k) <->
     if decide (w' = w) then isRunning g' = true /\ ServerDisco (hw_se (g_work g)) = k else w' ∈ default ∅ (di !! k)) ->
  hs_inv X byEp byVNI aw ap di' (<[w := g']> hs) gen next.
Proof.
  intros I Hw Hk Hp Hne Hdi.
  assert (forall P : relayHandshakeWork -> Prop, forall q, (exists x, hs !! q = Some x /\ P (g_work x)) ->
    exists x, <[w := g']> hs !! q = Some x /\ P (g_work x)) as Up.
  { intros P q (x & Hx & Px). destruct (decide (q = w)) as [->|]; [|exists x; by rewrite lookup_insert_ne].
    exists g'. rewrite lookup_insert_eq, Hk. split; [done|]. congruence. }
  split; try apply I; try done.
  - intros ep sd q Hq. apply (Up (fun k => keyA k = (ep, sd) /\ byVNI !! keyB k = Some q)). by apply I.
  - intros k q Hq. apply (Up (fun k' => keyB k' = k /\ indexedA byEp q k')). by apply I.
  - intros q apv Hq. apply (Up (fun k' => indexedA byEp q k')). by eapply I.
  - intros q x. rewrite lookup_insert_Some. intros [[<- <-]|[_ Hq]]; [|by apply I].
    rewrite Hk. destruct (hi_go _ _ _ _ _ _ _ _ _ I _ _ Hw) as (? & ? & _). done.
  - intros k q. rewrite Hdi. destruct (decide (q = w)) as [->|].
    + rewrite lookup_insert_eq. split; [intros [? ?]; exists g'; by rewrite Hk|].
      intros (x & [= <-] & ? & <-). by rewrite Hk.
    + rewrite lookup_insert_ne by done. apply I.
Qed.

Lemma not_running_di X byEp byVNI aw ap di hs gen next w g k :
  hs_inv X byEp byVNI aw ap di hs gen next -> hs !! w = Some g -> isRunning g = false -> w ∉ default ∅ (di !! k).
Proof. intros I Hw N. rewrite (hi_di _ _ _ _ _ _ _ _ _ I). intros (x & Hx & R & _). congruence. Qed.
Lemma running_di X byEp byVNI aw ap di hs gen next w g k :
  hs_inv X byEp byVNI aw ap di hs gen next -> hs !! w = Some g -> isRunning g = true ->
  w ∈ default ∅ (di !! k) <-> ServerDisco (hw_se (g_work g)) = k.
Proof. intros I Hw N. rewrite (hi_di _ _ _ _ _ _ _ _ _ I). naive_solver. Qed.

(** What a handshake goroutine's own steps leave alone. *)
Definition frame (r : relayManager) :=
  (serversByNodeKey r, hasPeerRelayServers r, allocWorkByCandidatePeerRelayByEndpoint r,
   allocWorkByDiscoKeysByServerNodeKey r, handshakeWorkByServerDiscoByEndpoint r, handshakeWorkByServerDiscoVNI r,
   handshakeWorkAwaitingPong r, addrPortVNIToHandshakeWork r, handshakeGeneration r, allocGeneration r,
   rm_allocs r, rm_next r).

Lemma hsReturn_ok X r w g d :
  hs_ok X r -> rm_handshakes r !! w = Some g -> isRunning g = true -> hs_ok X (hsReturn w g d r).
Proof.
  intros I Hw R. unfold hsReturn. rewrite derefDiscoInfoFor_del. unfold hs_ok. simpl.
  apply (hs_inv_update X _ _ _ _ (discoInfoByServerDisco r) _ _ _ _ w g); try done.
  - unfold phase_ok. simpl. right. left. eauto.
  - apply di_del_ne. intros k S. apply (hi_dine _ _ _ _ _ _ _ _ _ I).
  - intros k w'. rewrite elem_di_del. destruct (decide (w' = w)) as [->|]; [|naive_solver].
    rewrite (running_di _ _ _ _ _ _ _ _ _ _ _ k I Hw R). naive_solver.
Qed.
Lemma hsReturn_frame w g d r : frame (hsReturn w g d r) = frame r.
Proof. unfold hsReturn. by rewrite derefDiscoInfoFor_del. Qed.
Lemma hsReturn_lookup w g d r : rm_handshakes (hsReturn w g d r) = <[w := return_ d g]> (rm_handshakes r).
Proof. unfold hsReturn. by rewrite derefDiscoInfoFor_del. Qed.

(** Starting: the goroutine runs, or has returned without a result. *)
Definition settled (g g' : hsWorker) : Prop :=
  g_work g' = g_work g /\ g_canceled g' = g_canceled g
  /\ (g' = return_ notDone g \/ exists l, g' = run l g /\ handshakeState l = BindSent /\ local_ok (g_work g) l).
Lemma hsStart_ok X ev r w g :
  hs_ok X r -> rm_handshakes r !! w = Some g -> g_phase g = Spawned ->
  hs_ok X (hsStart ev w g r) /\ frame (hsStart ev w g r) = frame r
  /\ exists g', settled g g' /\ rm_handshakes (hsStart ev w g r) = <[w := g']> (rm_handshakes r).
Proof.
  intros I Hw P. destruct (hi_go _ _ _ _ _ _ _ _ _ I _ _ Hw) as (Hn & Hg & Hp). unfold phase_ok in Hp. rewrite P in Hp.
  destruct Hp as (Hx & Hd & Ho). assert (isRunning g = false) as NR by (unfold isRunning; by rewrite P).
  set (sd := ServerDisco (hw_se (g_work g))).
  assert (hs_ok X (hsReturn w g notDone (ensureDiscoInfoFor w g r))
    /\ frame (hsReturn w g notDone (ensureDiscoInfoFor w g r)) = frame r
    /\ exists g', settled g g' /\ rm_handshakes (hsReturn w g notDone (ensureDiscoInfoFor w g r))
         = <[w := g']> (rm_handshakes r)) as Ret.
  { split; [|split; [by rewrite hsReturn_frame|exists (return_ notDone g); split; [|by rewrite hsReturn_lookup]]].
    - unfold hsReturn. rewrite derefDiscoInfoFor_del. unfold hs_ok. simpl.
      apply (hs_inv_update X _ _ _ _ (discoInfoByServerDisco r) _ _ _ _ w g); try done.
      + unfold phase_ok. simpl. right. left. eauto.
      + apply di_del_ne, di_add_ne. intros k S. apply (hi_dine _ _ _ _ _ _ _ _ _ I).
      + intros k w'. fold sd. change (<[sd := _]> (discoInfoByServerDisco r)) with (di_add w sd (discoInfoByServerDisco r)).
        rewrite elem_di_del, elem_di_add. pose proof (not_running_di _ _ _ _ _ _ _ _ _ _ _ k I Hw NR).
        destruct (decide (w' = w)) as [->|]; [|naive_solver]. simpl. naive_solver.
    - split; [done|]. split; [done|]. by left. }
  unfold hsStart. destruct (ee_disco _) as [epDisco|]; [|done]. case_bool_decide as T; [done|].
  set (l := MkHsLocal _ BindSent ∅).
  assert (local_ok (g_work g) l) as L by (split; simpl; [done|done|by left|rewrite map_size_empty; lia]).
  split; [|split; [done|exists (run l g); split; [|done]; split; [done|]; split; [done|]; right; eauto]].
  unfold hs_ok. simpl. apply (hs_inv_update X _ _ _ _ (discoInfoByServerDisco r) _ _ _ _ w g); try done.
  - apply (di_add_ne w sd). intros k S. apply (hi_dine _ _ _ _ _ _ _ _ _ I).
  - intros k w'. fold sd. change (<[sd := _]> (discoInfoByServerDisco r)) with (di_add w sd (discoInfoByServerDisco r)).
    rewrite elem_di_add. pose proof (not_running_di _ _ _ _ _ _ _ _ _ _ _ k I Hw NR).
    destruct (decide (w' = w)) as [->|]; [|naive_solver]. simpl. naive_solver.
Qed.

(** ** Messages *)
Lemma txPing_local ev k l to a l' out :
  txPing ev k l to a = (l', out) ->
  hl_common l' = hl_common l /\ handshakeState l' = handshakeState l
  /\ ((size (sentPingAt l) <= limitPings)%nat -> (size (sentPingAt l') <= limitPings)%nat).
Proof.
  unfold txPing. destruct (Nat.eqb_spec (size (sentPingAt l)) limitPings) as [|N]; intros [= <- <-]; [done|].
  do 2 (split; [done|]). simpl. intros Hs. destruct (sentPingAt l !! en_txid ev) as [y|] eqn:E.
  - by rewrite map_size_insert_Some.
  - rewrite map_size_insert_None by done. lia.
Qed.
Lemma hsMsg_local ev k l from m l' out :
  local_ok k l -> hsMsg ev k l from m = (inl l', out) -> local_ok k l'.
Proof.
  intros L. unfold hsMsg. destruct m; try (by intros [= <- _]).
  - destruct (Z.ltb_spec (handshakeState l) AnswerSent); [by intros [= <- _]|].
    destruct (txPing ev k l from None) as [l1 o] eqn:T. intros [= <- _].
    apply txPing_local in T as (Ec & Es & Ez). destruct L as [L1 L2 L3 L4]. split; rewrite ?Ec, ?Es; auto.
    right. destruct L3 as [[E _]|]; [|done]. rewrite E in *. done.
  - destruct (sentPingAt l !! _); [done|by intros [= <- _]].
  - destruct (negb _); [by intros [= <- _]|]. destruct (AnswerSent <=? handshakeState l); [by intros [= <- _]|].
    destruct (txPing ev k l from _) as [l1 o] eqn:T. intros [= <- _].
    apply txPing_local in T as (Ec & Es & Ez). destruct L as [L1 L2 L3 L4]. split; simpl; rewrite ?Ec; auto.
Qed.

(** A change that keeps the goroutine running or not. *)
Lemma hs_inv_same X byEp byVNI aw ap di hs gen next w g g' :
  hs_inv X byEp byVNI aw ap di hs gen next -> hs !! w = Some g -> g_work g' = g_work g ->
  phase_ok X byEp w g' -> isRunning g' = isRunning g ->
  hs_inv X byEp byVNI aw ap di (<[w := g']> hs) gen next.
Proof.
  intros I Hw Hk Hp Hr. apply (hs_inv_update X _ _ _ _ di _ _ _ _ w g); try done.
  - intros k S. apply (hi_dine _ _ _ _ _ _ _ _ _ I).
  - intros k w'. destruct (decide (w' = w)) as [->|]; [|done]. rewrite Hr. destruct (isRunning g) eqn:R.
    + rewrite (running_di _ _ _ _ _ _ _ _ _ _ _ k I Hw R). naive_solver.
    + pose proof (not_running_di _ _ _ _ _ _ _ _ _ _ _ k I Hw R). naive_solver.
Qed.
Lemma hsReceive_ok X ev w g l from m r :
  hs_ok X r -> rm_handshakes r !! w = Some g -> g_phase g = Running l ->
  hs_ok X (hsReceive ev w g l from m r) /\ frame (hsReceive ev w g l from m r) = frame r.
Proof.
  intros I Hw P. unfold hsReceive. destruct (hsMsg ev (g_work g) l from m) as [[l'|d] out] eqn:M.
  - split; [|done]. destruct (hi_go _ _ _ _ _ _ _ _ _ I _ _ Hw) as (_ & _ & Hp). unfold phase_ok in Hp. rewrite P in Hp.
    apply (hs_inv_same X _ _ _ _ _ _ _ _ w g); try done.
    + unfold phase_ok. simpl. destruct Hp as (? & ? & ? & L). do 3 (split; [done|]). by eapply hsMsg_local.
    + unfold isRunning. simpl. by rewrite P.
  - split; [|by rewrite hsReturn_frame]. apply hsReturn_ok; [done..|]. unfold isRunning. by rewrite P.
Qed.

(** Getting to the loop and leaving it. *)
Lemma hsSettle_ok X ev w r :
  hs_ok X r ->
  hs_ok X (hsSettle ev w r) /\ frame (hsSettle ev w r) = frame r
  /\ (forall q, q <> w -> rm_handshakes (hsSettle ev w r) !! q = rm_handshakes r !! q)
  /\ (forall g, rm_handshakes r !! w = Some g -> exists g', rm_handshakes (hsSettle ev w r) !! w = Some g'
        /\ g_work g' = g_work g /\ g_phase g' <> Spawned).
Proof.
  intros I. unfold hsSettle. destruct (rm_handshakes r !! w) as [g|] eqn:Hw; [|done].
  assert (g_phase g <> Spawned -> hs_ok X r /\ frame r = frame r
    /\ (forall q, q <> w -> rm_handshakes r !! q = rm_handshakes r !! q)
    /\ forall g0, Some g = Some g0 -> exists g', rm_handshakes r !! w = Some g' /\ g_work g' = g_work g0
        /\ g_phase g' <> Spawned) as Same by (intros P; do 3 (split; [done|]); intros g0 [= <-]; eauto).
  destruct (g_phase g) eqn:P; [|by apply Same..]. clear Same.
  destruct (hsStart_ok X ev r w g I Hw P) as (I' & F & g' & S & Hh). split; [done|]. split; [done|]. rewrite Hh.
  split; [intros q N; by rewrite lookup_insert_ne|]. intros g0 [= <-]. exists g'. rewrite lookup_insert_eq.
  destruct S as (Hk & _ & [-> |(l & -> & _)]); done.
Qed.
Lemma hsLeave_ok X w r :
  hs_ok X r ->
  hs_ok X (hsLeave w r) /\ frame (hsLeave w r) = frame r
  /\ (forall q, q <> w -> rm_handshakes (hsLeave w r) !! q = rm_handshakes r !! q)
  /\ (forall g, rm_handshakes r !! w = Some g -> exists g', rm_handshakes (hsLeave w r) !! w = Some g'
        /\ g_work g' = g_work g /\ (g_phase g <> Spawned -> g_phase g' = Returned)).
Proof.
  intros I. unfold hsLeave. destruct (rm_handshakes r !! w) as [g|] eqn:Hw; [|done].
  destruct (g_phase g) as [|l|] eqn:P.
  - do 3 (split; [done|]). intros g0 [= <-]. exists g. by rewrite P.
  - split; [apply hsReturn_ok; [done..|unfold isRunning; by rewrite P]|]. rewrite hsReturn_frame, hsReturn_lookup.
    split; [done|]. split; [intros q N; by rewrite lookup_insert_ne|]. intros g0 [= <-].
    exists (return_ notDone g). by rewrite lookup_insert_eq.
  - do 3 (split; [done|]). intros g0 [= <-]. exists g. by rewrite P.
Qed.

(** ** Work leaves the indexes *)
Lemma hs_inv_weaken (X Y : nat -> Prop) byEp byVNI aw ap di hs gen next :
  (forall w, X w -> Y w) -> hs_inv X byEp byVNI aw ap di hs gen next -> hs_inv Y byEp byVNI aw ap di hs gen next.
Proof.
  intros XY I. split; try apply I. intros w g Hw. destruct (hi_go _ _ _ _ _ _ _ _ _ I _ _ Hw) as (? & ? & Hp).
  do 2 (split; [done|]). unfold phase_ok in *. destruct (g_phase g); naive_solver.
Qed.
Lemma hs_inv_remove byEp byVNI aw aw' ap ap' di hs gen next w g :
  hs_inv (fun q => q = w) byEp byVNI aw ap di hs gen next -> hs !! w = Some g -> g_phase g = Returned ->
  indexedA byEp w (g_work g) ->
  (forall q a, aw' !! q = Some a <-> q <> w /\ aw !! q = Some a) ->
  (forall a q, ap' !! a = Some q <-> q <> w /\ ap !! a = Some q) ->
  hs_inv none (delete2 (keyA (g_work g)).1 (keyA (g_work g)).2 byEp) (delete (keyB (g_work g)) byVNI) aw' ap' di hs gen next.
Proof.
  intros I Hw P Hx Haw Hap.
  assert (forall q x, hs !! q = Some x -> indexedA byEp q (g_work x) -> q <> w ->
    indexedA (delete2 (keyA (g_work g)).1 (keyA (g_work g)).2 byEp) q (g_work x)) as Keep.
  { intros q x Hq Hi N. rewrite lookup2_delete2, decide_False; [done|]. intros [E1 E2].
    rewrite <- E1, <- E2 in Hi. congruence. }
  split; try apply I.
  - intros ep sd q. rewrite lookup2_delete2. destruct (decide _) as [|N]; [done|]. intros Hq.
    destruct (hi_ep _ _ _ _ _ _ _ _ _ I _ _ _ Hq) as (x & Hx' & Hk & Hv). exists x. do 2 (split; [done|]).
    rewrite lookup_delete_ne; [done|]. intros E. rewrite <- E in Hv.
    destruct (hi_ep _ _ _ _ _ _ _ _ _ I _ _ _ Hx) as (y & Hy & _ & Hv'). rewrite Hw in Hy. injection Hy as <-.
    assert (q = w) as -> by congruence. rewrite Hw in Hx'. injection Hx' as <-. apply N. by rewrite Hk.
  - intros k q. rewrite lookup_delete_Some. intros [N Hq].
    destruct (hi_vni _ _ _ _ _ _ _ _ _ I _ _ Hq) as (x & Hx' & Hk & Hi). exists x. do 2 (split; [done|]).
    apply Keep; [done..|]. intros ->. congruence.
  - apply inner_ok_delete2, I.
  - intros q a. rewrite Haw, Hap, (hi_aw _ _ _ _ _ _ _ _ _ I). done.
  - intros q a [N Hq]%Haw. destruct (hi_awi _ _ _ _ _ _ _ _ _ I _ _ Hq) as (x & Hx' & Hi). eauto.
  - intros q x Hq. destruct (hi_go _ _ _ _ _ _ _ _ _ I _ _ Hq) as (? & ? & Hp). do 2 (split; [done|]).
    unfold phase_ok in *. destruct (decide (q = w)) as [->|N].
    + rewrite Hw in Hq. injection Hq as <-. rewrite P. right. right. rewrite lookup2_delete2, decide_True by done. done.
    + destruct (g_phase x); [naive_solver..|]. right. destruct Hp as [|[|Hp]]; [done|by left|right].
      rewrite lookup2_delete2. by destruct (decide _).
Qed.
Lemma handleHsDone_ok r w g d :
  hs_ok (fun q => q = w) r -> rm_handshakes r !! w = Some g -> g_phase g = Returned ->
  let r' := handleHandshakeWorkDoneRunLoop w d r in
  hs_ok none r' /\ rm_handshakes r' = rm_handshakes r /\ rm_next r' = rm_next r
  /\ lookup2 (keyA (g_work g)).1 (keyA (g_work g)).2 (handshakeWorkByServerDiscoByEndpoint r') <> Some w
  /\ (indexedA (handshakeWorkByServerDiscoByEndpoint r) w (g_work g) ->
       handshakeWorkByServerDiscoByEndpoint r'
         = delete2 (keyA (g_work g)).1 (keyA (g_work g)).2 (handshakeWorkByServerDiscoByEndpoint r)
       /\ handshakeWorkByServerDiscoVNI r' = delete (keyB (g_work g)) (handshakeWorkByServerDiscoVNI r)).
Proof.
  intros I Hw P. cbv zeta. unfold handleHandshakeWorkDoneRunLoop. rewrite Hw.
  case_bool_decide as Hx; cbn [negb].
  2:{ split; [|split; [done|split; [done|split; [done|by intros]]]]. split; try apply I. intros q x Hq.
      destruct (hi_go _ _ _ _ _ _ _ _ _ I _ _ Hq) as (? & ? & Hp). do 2 (split; [done|]). unfold phase_ok in *.
      destruct (g_phase x); [done..|]. right. destruct Hp as [->|]; [|done]. right. rewrite Hw in Hq. injection Hq as <-. exact Hx. }
  set (r1 := set_hsIndex _ _ r).
  assert (hs_ok none (match handshakeWorkAwaitingPong r1 !! w with
    | Some apv => set_awaiting (delete w (handshakeWorkAwaitingPong r1)) (delete apv (addrPortVNIToHandshakeWork r1)) r1
    | None => r1 end)) as I1.
  { change (handshakeWorkAwaitingPong r1) with (handshakeWorkAwaitingPong r).
    destruct (handshakeWorkAwaitingPong r !! w) as [apv|] eqn:A; unfold hs_ok; simpl;
      eapply (hs_inv_remove _ _ _ _ _ _ _ _ _ _ w g I Hw P Hx).
    - intros q a. rewrite lookup_delete_Some. naive_solver.
    - intros a q. rewrite lookup_delete_Some. rewrite <- !(hi_aw _ _ _ _ _ _ _ _ _ I).
      split; intros [N Hq]; (split; [|done]); intros ->; [congruence|].
      apply N. apply (hi_aw _ _ _ _ _ _ _ _ _ I) in Hq, A. congruence.
    - intros q a. naive_solver.
    - intros a q. rewrite <- (hi_aw _ _ _ _ _ _ _ _ _ I). naive_solver. }
  assert (forall r2, r2 = (match handshakeWorkAwaitingPong r1 !! w with
    | Some apv => set_awaiting (delete w (handshakeWorkAwaitingPong r1)) (delete apv (addrPortVNIToHandshakeWork r1)) r1
    | None => r1 end) -> forall r3, r3 = r2 \/ (exists l, r3 = emit l r2) ->
    hs_ok none r3 /\ rm_handshakes r3 = rm_handshakes r /\ rm_next r3 = rm_next r
    /\ handshakeWorkByServerDiscoByEndpoint r3
         = delete2 (keyA (g_work g)).1 (keyA (g_work g)).2 (handshakeWorkByServerDiscoByEndpoint r)
    /\ handshakeWorkByServerDiscoVNI r3 = delete (keyB (g_work g)) (handshakeWorkByServerDiscoVNI r)) as Fin.
  { intros r2 -> r3 [->|[l ->]]; (split; [exact I1|]);
      by destruct (handshakeWorkAwaitingPong r1 !! w). }
  match goal with |- hs_ok none (if ?b then ?x else ?y) /\ _ =>
    destruct (Fin _ eq_refl (if b then x else y)) as (A & B & C & D & E);
      [destruct b; [by left|right; eauto]|] end.
  split; [exact A|]. split; [exact B|]. split; [exact C|]. split; [|intros _; by split].
  rewrite D, lookup2_delete2, decide_True by done. done.
Qed.

(** The part of the state handshake work does not touch. *)
Definition aframe (r : relayManager) :=
  (serversByNodeKey r, hasPeerRelayServers r, allocWorkByCandidatePeerRelayByEndpoint r,
   allocWorkByDiscoKeysByServerNodeKey r, allocGeneration r, rm_allocs r).
Lemma frame_aframe r r' : frame r' = frame r -> aframe r' = aframe r.
Proof. unfold frame, aframe. congruence. Qed.
Lemma handleHsDone_aframe w d r :
  aframe (handleHandshakeWorkDoneRunLoop w d r) = aframe r
  /\ handshakeGeneration (handleHandshakeWorkDoneRunLoop w d r) = handshakeGeneration r.
Proof.
  unfold handleHandshakeWorkDoneRunLoop. destruct (rm_handshakes r !! w) as [g|]; [|done].
  destruct (negb (bool_decide _)); [done|]. set (r1 := set_hsIndex _ _ r).
  destruct (handshakeWorkAwaitingPong r1 !! w), (negb (IsValid (pongReceivedFrom d))); done.
Qed.

(** Draining a goroutine that has returned, then cleaning up. *)
Lemma drain_ok r w g :
  hs_ok none r -> rm_handshakes r !! w = Some g -> g_phase g = Returned ->
  hs_ok (fun q => q = w) (upd_handshakes <[w := drain g]> r).
Proof.
  intros I Hw P. eapply (hs_inv_weaken _ (fun q => q = w)) in I; [|done].
  apply (hs_inv_same _ _ _ _ _ _ _ _ _ w g _ I); try done.
  unfold phase_ok. simpl. rewrite P. by left.
Qed.
(** What cancelling work, or finding it finished, leads to. *)
Definition removed (w : nat) (g : hsWorker) (r r' : relayManager) : Prop :=
  hs_ok none r' /\ aframe r' = aframe r /\ rm_next r' = rm_next r /\ handshakeGeneration r' = handshakeGeneration r
  /\ (forall q, q <> w -> rm_handshakes r' !! q = rm_handshakes r !! q)
  /\ handshakeWorkByServerDiscoByEndpoint r'
       = delete2 (keyA (g_work g)).1 (keyA (g_work g)).2 (handshakeWorkByServerDiscoByEndpoint r)
  /\ handshakeWorkByServerDiscoVNI r' = delete (keyB (g_work g)) (handshakeWorkByServerDiscoVNI r).
Lemma drain_removed r r1 w g g1 d :
  hs_ok none r1 -> frame r1 = frame r -> rm_handshakes r1 !! w = Some g1 -> g_phase g1 = Returned ->
  g_work g1 = g_work g -> (forall q, q <> w -> rm_handshakes r1 !! q = rm_handshakes r !! q) ->
  indexedA (handshakeWorkByServerDiscoByEndpoint r) w (g_work g) ->
  removed w g r (handleHandshakeWorkDoneRunLoop w d (upd_handshakes <[w := drain g1]> r1)).
Proof.
  intros I F Hw P Hk Ho Hx. pose proof F as [= _ _ _ _ Fe Fv _ _ Fg _ _ Fn].
  pose proof (drain_ok r1 w g1 I Hw P) as I1.
  destruct (handleHsDone_ok _ w (drain g1) d I1) as (A & B & C & _ & D); [simpl; by rewrite lookup_insert_eq|done|].
  destruct (handleHsDone_aframe w d (upd_handshakes <[w := drain g1]> r1)) as [Ea Eg].
  cbn [g_work drain] in D. rewrite Hk in D. destruct D as [D1 D2]; [simpl; by rewrite Fe|].
  split; [done|]. split; [rewrite Ea; by apply frame_aframe in F|]. split; [by rewrite C|]. split; [by rewrite Eg|].
  split; [|by rewrite D1, D2; simpl; rewrite Fe, Fv].
  intros q N. rewrite B. simpl. rewrite lookup_insert_ne by done. by apply Ho.
Qed.
Lemma cancelHandshake_ok ev w r g :
  hs_ok none r -> rm_handshakes r !! w = Some g ->
  indexedA (handshakeWorkByServerDiscoByEndpoint r) w (g_work g) ->
  exists r', cancelHandshake ev w r = Some r' /\ removed w g r r'.
Proof.
  intros I Hw Hx. unfold cancelHandshake, hsCancelWait.
  set (r1 := upd_handshakes (alter cancel w) r).
  assert (rm_handshakes r1 = <[w := cancel g]> (rm_handshakes r)) as Hh1 by (by apply alter_insert).
  assert (hs_ok none r1) as I1.
  { unfold hs_ok. rewrite Hh1. apply (hs_inv_same _ _ _ _ _ _ _ _ _ w g _ I); try done.
    by destruct (hi_go _ _ _ _ _ _ _ _ _ I _ _ Hw) as (_ & _ & Hp). }
  assert (frame r1 = frame r) as F1 by done.
  destruct (hsSettle_ok none ev w r1 I1) as (I2 & F2 & H2 & S2).
  destruct (hsLeave_ok none w (hsSettle ev w r1) I2) as (I3 & F3 & H3 & S3).
  set (r3 := hsLeave w (hsSettle ev w r1)) in *.
  assert (rm_handshakes r1 !! w = Some (cancel g)) as E1 by (by rewrite Hh1, lookup_insert_eq).
  destruct (S2 _ E1) as (g2 & E2 & K2 & P2). destruct (S3 _ E2) as (g3 & E3 & K3 & P3).
  assert (frame r3 = frame r) as F by (by rewrite F3, F2).
  assert (g_phase g3 = Returned) as P by (by apply P3).
  destruct (hi_go _ _ _ _ _ _ _ _ _ I3 _ _ E3) as (_ & _ & Hp). unfold phase_ok in Hp. rewrite P in Hp.
  pose proof F as [= _ _ _ _ Fe _ _ _ _ _ _ _].
  assert (g_work g3 = g_work g) as K by (by rewrite K3, K2).
  destruct Hp as [[]|[[d Hd]|Hp]]; [|by rewrite Fe, K in Hp].
  rewrite E3. cbn [mbind option_bind]. rewrite Hd. cbn [mbind option_bind]. eexists. split; [done|].
  apply (drain_removed r r3); try done. intros q N. rewrite H3, H2 by done. by rewrite Hh1, lookup_insert_ne.
Qed.

(** ** New relay endpoints *)
Definition next_frame (r r' : relayManager) : Prop := aframe r' = aframe r /\ (rm_next r <= rm_next r')%nat.
Lemma nextGeneration_range g : 0 < nextGeneration g < 2 ^ 32.
Proof.
  unfold nextGeneration. pose proof (uw_range 32 (g + 1) ltac:(lia)) as U.
  destruct (Z.eqb_spec (uw 32 (g + 1)) 0) as [->|]; [|lia]. by vm_compute.
Qed.
Lemma startHandshake_ok e r :
  hs_ok none r -> lookup2 (wl_ep (ne_wlb e)) (ServerDisco (ne_se e)) (handshakeWorkByServerDiscoByEndpoint r) = None ->
  handshakeWorkByServerDiscoVNI r !! (ServerDisco (ne_se e), VNI_ (ne_se e)) = None ->
  hs_ok none (startHandshake e r) /\ next_frame r (startHandshake e r).
Proof.
  intros I He Hv. split; [|split; [done|simpl; lia]]. set (w := rm_next r).
  set (k := MkHsWork (ne_wlb e) (ne_se e) (ne_server e) (nextGeneration (handshakeGeneration r))).
  assert (rm_handshakes r !! w = None) as Hf.
  { destruct (rm_handshakes r !! w) eqn:E; [|done]. destruct (hi_go _ _ _ _ _ _ _ _ _ I _ _ E) as (? & _). unfold w in *. lia. }
  assert (forall q x, rm_handshakes r !! q = Some x -> q <> w) as Old by congruence.
  assert (forall q x, rm_handshakes r !! q = Some x ->
    lookup2 (keyA (g_work x)).1 (keyA (g_work x)).2 (insert2 (keyA k).1 (keyA k).2 w (handshakeWorkByServerDiscoByEndpoint r))
      = Some q <-> indexedA (handshakeWorkByServerDiscoByEndpoint r) q (g_work x)) as Keep.
  { intros q x Hq. rewrite lookup2_insert2. destruct (decide _) as [[E1 E2]|]; [|done].
    rewrite <- E1, <- E2. simpl in He. simpl. rewrite He. pose proof (Old q x Hq). naive_solver. }
  unfold hs_ok, startHandshake. simpl. split; try apply I.
  - intros ep sd q. rewrite lookup2_insert2. destruct (decide _) as [[<- <-]|N].
    + intros [= <-]. eexists. rewrite lookup_insert_eq. split; [done|]. split; [done|]. simpl. by rewrite lookup_insert_eq.
    + intros Hq. destruct (hi_ep _ _ _ _ _ _ _ _ _ I _ _ _ Hq) as (x & Hx & Hk & Hb). exists x.
      rewrite lookup_insert_ne by (by apply not_eq_sym, (Old q x)). do 2 (split; [done|]).
      rewrite lookup_insert_ne; [done|]. congruence.
  - intros kb q. rewrite lookup_insert_Some. intros [[<- <-]|[N Hq]].
    + eexists. rewrite lookup_insert_eq. split; [done|]. split; [done|]. by rewrite lookup2_insert2, decide_True.
    + destruct (hi_vni _ _ _ _ _ _ _ _ _ I _ _ Hq) as (x & Hx & Hk & Hi). exists x.
      rewrite lookup_insert_ne by (by apply not_eq_sym, (Old q x)). do 2 (split; [done|]). by apply (Keep q x).
  - apply inner_ok_insert2, I.
  - intros q a Hq. destruct (hi_awi _ _ _ _ _ _ _ _ _ I _ _ Hq) as (x & Hx & Hi). exists x.
    rewrite lookup_insert_ne by (by apply not_eq_sym, (Old q x)). split; [done|]. by apply (Keep q x).
  - intros q x. rewrite lookup_insert_Some. intros [[<- <-]|[N Hq]].
    + split; [lia|]. split; [apply nextGeneration_range|]. unfold phase_ok. simpl. by rewrite lookup2_insert2, decide_True.
    + destruct (hi_go _ _ _ _ _ _ _ _ _ I _ _ Hq) as (? & ? & Hp). split; [lia|]. split; [done|].
      unfold phase_ok in *. pose proof (Keep q x Hq) as Kq.
      destruct (g_phase x); [destruct Hp as (? & ? & ?)|destruct Hp as (? & ? & ? & ?)|destruct Hp as [|[|]]]; try naive_solver.
  - intros kd q. rewrite (hi_di _ _ _ _ _ _ _ _ _ I). destruct (decide (q = w)) as [->|N].
    + rewrite lookup_insert_eq, Hf. split; [by intros (? & ? & _)|]. by intros (x & [= <-] & ? & _).
    + by rewrite lookup_insert_ne.
  - pose proof (nextGeneration_range (handshakeGeneration r)). lia.
Qed.

(** The check for older work. *)
Lemma replaceOlder_ok ev existing lam r :
  hs_ok none r ->
  (forall w, existing = Some w -> exists g, rm_handshakes r !! w = Some g
     /\ indexedA (handshakeWorkByServerDiscoByEndpoint r) w (g_work g)) ->
  (exists w g, existing = Some w /\ rm_handshakes r !! w = Some g /\ lam <= LamportID (hw_se (g_work g))
     /\ replaceOlder ev existing lam r = Some None)
  \/ exists r', replaceOlder ev existing lam r = Some (Some r') /\ hs_ok none r' /\ next_frame r r'
       /\ (existing = None -> r' = r)
       /\ forall w g, existing = Some w -> rm_handshakes r !! w = Some g ->
            LamportID (hw_se (g_work g)) < lam /\ removed w g r r'.
Proof.
  intros I He. destruct existing as [w|]; simpl; [|right; exists r; split; [done|]; split; [done|]; split; [done|]; done].
  destruct (He w eq_refl) as (g & Hw & Hx). unfold lamportOf. rewrite Hw. simpl.
  destruct (Z.leb_spec lam (LamportID (hw_se (g_work g)))) as [L|L].
  - left. exists w, g. done.
  - right. destruct (cancelHandshake_ok ev w r g I Hw Hx) as (r' & -> & R). exists r'. split; [done|].
    pose proof R as (? & ? & En & _). split; [done|]. split; [split; [done|lia]|]. split; [done|].
    intros w' g' [= <-] Hw'. rewrite Hw in Hw'. injection Hw' as <-. done.
Qed.
Lemma removed_free w g r r' k :
  removed w g r r' -> handshakeWorkByServerDiscoVNI r !! k = None -> handshakeWorkByServerDiscoVNI r' !! k = None.
Proof. intros (_ & _ & _ & _ & _ & _ & ->) Hk. rewrite lookup_delete_None. by right. Qed.
Lemma sendCallMeMaybeVia_emit ev ep se r :
  sendCallMeMaybeVia ev ep se r = r \/ exists l, sendCallMeMaybeVia ev ep se r = emit l r.
Proof.
  unfold sendCallMeMaybeVia. destruct (ee_disco _); [|by left]. destruct (negb _); [by left|right; eauto].
Qed.
Lemma handleNew_ok ev e r :
  hs_ok none r -> exists r', handleNewServerEndpointRunLoop ev e r = Some r' /\ hs_ok none r' /\ next_frame r r'.
Proof.
  intros I. unfold handleNewServerEndpointRunLoop. set (sd := ServerDisco (ne_se e)). set (ep := wl_ep (ne_wlb e)).
  set (x1 := handshakeWorkByServerDiscoVNI r !! (sd, VNI_ (ne_se e))).
  destruct (replaceOlder_ok ev x1 (LamportID (ne_se e)) r I) as [(w & g & _ & _ & _ & ->)|(r1 & -> & I1 & F1 & N1 & R1)].
  { intros w Hw. destruct (hi_vni _ _ _ _ _ _ _ _ _ I _ _ Hw) as (g & ? & _ & ?). eauto. }
  { exists r. split; [done|]. split; [done|]. by split. }
  cbn [mbind option_bind].
  assert (handshakeWorkByServerDiscoVNI r1 !! (sd, VNI_ (ne_se e)) = None) as V1.
  { destruct x1 as [w|] eqn:X; [|by rewrite (N1 eq_refl)].
    destruct (hi_vni _ _ _ _ _ _ _ _ _ I _ _ X) as (g & Hg & Hk & _).
    destruct (R1 w g eq_refl Hg) as (_ & _ & _ & _ & _ & _ & _ & ->). by rewrite Hk, lookup_delete_eq. }
  set (x2 := lookup2 ep sd (handshakeWorkByServerDiscoByEndpoint r1)).
  destruct (replaceOlder_ok ev x2 (LamportID (ne_se e)) r1 I1) as [(w & g & _ & _ & _ & ->)|(r2 & -> & I2 & F2 & N2 & R2)].
  { intros w Hw. destruct (hi_ep _ _ _ _ _ _ _ _ _ I1 _ _ _ Hw) as (g & ? & Hk & ?). exists g. by rewrite Hk. }
  { by exists r1. }
  cbn [mbind option_bind].
  assert (handshakeWorkByServerDiscoVNI r2 !! (sd, VNI_ (ne_se e)) = None
    /\ lookup2 ep sd (handshakeWorkByServerDiscoByEndpoint r2) = None) as [V2 E2].
  { destruct x2 as [w|] eqn:X; [|by rewrite (N2 eq_refl)].
    destruct (hi_ep _ _ _ _ _ _ _ _ _ I1 _ _ _ X) as (g & Hg & Hk & _). destruct (R2 w g eq_refl Hg) as [_ R].
    split; [by apply (removed_free w g r1)|]. destruct R as (_ & _ & _ & _ & _ & -> & _).
    by rewrite Hk, lookup2_delete2, decide_True. }
  set (r3 := if isValid (ne_server e) then sendCallMeMaybeVia ev ep (ne_se e) r2 else r2).
  assert (r3 = r2 \/ exists l, r3 = emit l r2) as H3.
  { unfold r3. destruct (isValid _); [apply sendCallMeMaybeVia_emit|by left]. }
  assert (next_frame r r2) as F by (destruct F1, F2; split; [congruence|lia]).
  destruct (_ && _).
  - exists r3. split; [done|]. by destruct H3 as [->|[l ->]].
  - exists (startHandshake e r3). split; [done|].
    assert (hs_ok none (startHandshake e r3) /\ next_frame r3 (startHandshake e r3)) as [? F4].
    { by destruct H3 as [->|[l ->]]; apply startHandshake_ok. }
    split; [done|]. assert (next_frame r r3) as F3 by (by destruct H3 as [->|[l ->]]).
    destruct F3, F4; split; [congruence|lia].
Qed.

(** ** The invariant of allocation work *)
Definition keyC (k : relayEndpointAllocWork) : nat * candidatePeerRelay := (wl_ep (aw_wlb k), aw_cand k).
Definition keyD (k : relayEndpointAllocWork) : bytes * (bytes * bytes) := (nodeKey (aw_cand k), aw_discoKeys k).
Notation indexedC byEp w k := (lookup2 (keyC k).1 (keyC k).2 byEp = Some w).
Definition aphase_ok (X : nat -> Prop) (byEp : gmap nat (gmap candidatePeerRelay nat)) (w : nat) (g : allocWorker) : Prop :=
  match g_phase g with
  | Spawned | Running _ => indexedC byEp w (g_work g) /\ doneCh g = None /\ g_offer g = None
  | Returned => X w \/ is_Some (doneCh g) \/ lookup2 (keyC (g_work g)).1 (keyC (g_work g)).2 byEp <> Some w
  end.
Record al_inv (X : nat -> Prop) (byEp : gmap nat (gmap candidatePeerRelay nat))
    (bySrv : gmap bytes (gmap (bytes * bytes) nat)) (al : gmap nat allocWorker) (next : nat) : Prop := {
  ai_ep : forall ep c w, lookup2 ep c byEp = Some w ->
    exists g, al !! w = Some g /\ keyC (g_work g) = (ep, c) /\ lookup2 (keyD (g_work g)).1 (keyD (g_work g)).2 bySrv = Some w;
  ai_srv : forall nk ks w, lookup2 nk ks bySrv = Some w ->
    exists g, al !! w = Some g /\ keyD (g_work g) = (nk, ks) /\ indexedC byEp w (g_work g);
  ai_inner : inner_ok byEp;
  ai_inner' : inner_ok bySrv;
  ai_go : forall w g, al !! w = Some g -> (w < next)%nat /\ aphase_ok X byEp w g
}.
Definition al_ok (X : nat -> Prop) (r : relayManager) : Prop :=
  al_inv X (allocWorkByCandidatePeerRelayByEndpoint r) (allocWorkByDiscoKeysByServerNodeKey r) (rm_allocs r) (rm_next r).
Lemma al_ok_zero : al_ok none zeroRM.
Proof. by split; simpl; intros; rewrite ?lookup2_empty, ?lookup_empty in *. Qed.
Lemma al_ok_next X r r' : al_ok X r -> next_frame r r' -> al_ok X r'.
Proof.
  intros I [[= _ _ E1 E2 _ E3] L]. unfold al_ok. rewrite E1, E2, E3. split; try apply I.
  intros w g Hw. destruct (ai_go _ _ _ _ _ I _ _ Hw). split; [lia|done].
Qed.

Lemma al_inv_update X byEp bySrv al next w g g' :
  al_inv X byEp bySrv al next -> al !! w = Some g -> g_work g' = g_work g -> aphase_ok X byEp w g' ->
  al_inv X byEp bySrv (<[w := g']> al) next.
Proof.
  intros I Hw Hk Hp.
  assert (forall P : relayEndpointAllocWork -> Prop, forall q, (exists x, al !! q = Some x /\ P (g_work x)) ->
    exists x, <[w := g']> al !! q = Some x /\ P (g_work x)) as Up.
  { intros P q (x & Hx & Px). destruct (decide (q = w)) as [->|]; [|exists x; by rewrite lookup_insert_ne].
    exists g'. rewrite lookup_insert_eq, Hk. split; [done|]. congruence. }
  split; try apply I.
  - intros ep c q Hq. apply (Up (fun k => keyC k = (ep, c) /\ lookup2 (keyD k).1 (keyD k).2 bySrv = Some q)). by apply I.
  - intros nk ks q Hq. apply (Up (fun k => keyD k = (nk, ks) /\ indexedC byEp q k)). by apply I.
  - intros q x. rewrite lookup_insert_Some. intros [[<- <-]|[_ Hq]]; [|by apply I].
    split; [|done]. by apply (ai_go _ _ _ _ _ I _ _ Hw).
Qed.
Lemma al_inv_weaken (X Y : nat -> Prop) byEp bySrv al next :
  (forall w, X w -> Y w) -> al_inv X byEp bySrv al next -> al_inv Y byEp bySrv al next.
Proof.
  intros XY I. split; try apply I. intros w g Hw. destruct (ai_go _ _ _ _ _ I _ _ Hw) as [? Hp].
  split; [done|]. unfold aphase_ok in *. destruct (g_phase g); naive_solver.
Qed.
Lemma al_inv_remove byEp bySrv al next w g :
  al_inv (fun q => q = w) byEp bySrv al next -> al !! w = Some g -> g_phase g = Returned -> indexedC byEp w (g_work g) ->
  al_inv none (delete2 (keyC (g_work g)).1 (keyC (g_work g)).2 byEp) (delete2 (keyD (g_work g)).1 (keyD (g_work g)).2 bySrv) al next.
Proof.
  intros I Hw P Hx.
  destruct (ai_ep _ _ _ _ _ I _ _ _ Hx) as (g0 & Hg0 & _ & Hs). rewrite Hw in Hg0. injection Hg0 as <-.
  assert (forall q x, al !! q = Some x -> indexedC byEp q (g_work x) -> q <> w ->
    indexedC (delete2 (keyC (g_work g)).1 (keyC (g_work g)).2 byEp) q (g_work x)) as Keep.
  { intros q x Hq Hi N. rewrite lookup2_delete2, decide_False; [done|]. intros [E1 E2].
    rewrite <- E1, <- E2 in Hi. congruence. }
  split.
  - intros ep c q. rewrite lookup2_delete2. destruct (decide _) as [|N]; [done|]. intros Hq.
    destruct (ai_ep _ _ _ _ _ I _ _ _ Hq) as (x & Hx' & Hk & Hv). exists x. do 2 (split; [done|]).
    rewrite lookup2_delete2, decide_False; [done|]. intros [E1 E2]. rewrite <- E1, <- E2 in Hv.
    assert (q = w) as -> by congruence. rewrite Hw in Hx'. injection Hx' as <-. apply N. by rewrite Hk.
  - intros nk ks q. rewrite lookup2_delete2. destruct (decide _) as [|N]; [done|]. intros Hq.
    destruct (ai_srv _ _ _ _ _ I _ _ _ Hq) as (x & Hx' & Hk & Hv). exists x. do 2 (split; [done|]).
    apply Keep; [done..|]. intros ->. rewrite Hw in Hx'. injection Hx' as <-. apply N. by rewrite Hk.
  - apply inner_ok_delete2, I.
  - apply inner_ok_delete2, I.
  - intros q x Hq. destruct (ai_go _ _ _ _ _ I _ _ Hq) as [? Hp]. split; [done|].
    unfold aphase_ok in *. destruct (decide (q = w)) as [->|N].
    + rewrite Hw in Hq. injection Hq as <-. rewrite P. right. right. rewrite lookup2_delete2, decide_True by done. done.
    + destruct (g_phase x); [naive_solver..|]. right. destruct Hp as [|[|Hp]]; [done|by left|right].
      rewrite lookup2_delete2. by destruct (decide _).
Qed.

(** The part of the state allocation work does not touch. *)
Definition hframe (r : relayManager) :=
  (serversByNodeKey r, hasPeerRelayServers r, handshakeWorkByServerDiscoByEndpoint r, handshakeWorkByServerDiscoVNI r,
   handshakeWorkAwaitingPong r, addrPortVNIToHandshakeWork r, handshakeGeneration r, discoInfoByServerDisco r,
   rm_handshakes r, rm_next r).
Lemma hs_ok_hframe X r r' : hframe r' = hframe r -> hs_ok X r -> hs_ok X r'.
Proof. unfold hs_ok, hframe. intros [= _ _ -> -> -> -> -> -> -> ->]. done. Qed.

(** Finished allocation work leaves the indexes, and its endpoint is handed on. *)
Lemma handleAllocDone_ok ev r w g d :
  hs_ok none r -> al_ok (fun q => q = w) r -> rm_allocs r !! w = Some g -> g_phase g = Returned ->
  exists r', handleAllocWorkDoneRunLoop ev w d r = Some r' /\ hs_ok none r' /\ al_ok none r'
    /\ serversByNodeKey r' = serversByNodeKey r /\ hasPeerRelayServers r' = hasPeerRelayServers r
    /\ rm_allocs r' = rm_allocs r
    /\ (forall ep c q, lookup2 ep c (allocWorkByCandidatePeerRelayByEndpoint r') = Some q <->
          lookup2 ep c (allocWorkByCandidatePeerRelayByEndpoint r) = Some q /\ q <> w).
Proof.
  intros I A Hw P. unfold handleAllocWorkDoneRunLoop. rewrite Hw. case_bool_decide as Hx; cbn [negb].
  2:{ exists r. do 2 (split; [done|]). split; [|do 3 (split; [done|])].
      - split; try apply A. intros q x Hq.
        destruct (ai_go _ _ _ _ _ A _ _ Hq) as [? Hp]. split; [done|]. unfold aphase_ok in *.
        destruct (g_phase x); [done..|]. right. destruct Hp as [->|]; [|done]. right.
        rewrite Hw in Hq. injection Hq as <-. exact Hx.
      - intros ep c q. split; [|tauto]. intros Hq. split; [done|]. intros ->.
        destruct (ai_ep _ _ _ _ _ A _ _ _ Hq) as (x & Hx' & Hk & _). rewrite Hw in Hx'. injection Hx' as <-.
        apply Hx. unfold keyC in Hk. injection Hk as -> ->. exact Hq. }
  destruct (ai_ep _ _ _ _ _ A _ _ _ Hx) as (g0 & Hg0 & _ & Hs). rewrite Hw in Hg0. injection Hg0 as <-.
  unfold lookup2 in Hs. cbn [keyD fst snd] in Hs.
  destruct (allocWorkByDiscoKeysByServerNodeKey r !! nodeKey (aw_cand (g_work g))) as [inner|]; [|done]. clear Hs.
  set (r1 := set_allocIndex _ _ r).
  assert (al_ok none r1) as A1 by (by apply (al_inv_remove _ _ _ _ w g A Hw P)).
  assert (hs_ok none r1) as I1 by done.
  assert (forall ep c q, lookup2 ep c (allocWorkByCandidatePeerRelayByEndpoint r1) = Some q <->
          lookup2 ep c (allocWorkByCandidatePeerRelayByEndpoint r) = Some q /\ q <> w) as D.
  { intros ep c q. simpl. rewrite lookup2_delete2. destruct (decide _) as [[<- <-]|N].
    - simpl in Hx. rewrite Hx. naive_solver.
    - split; [|tauto]. intros Hq. split; [done|]. intros ->. destruct (ai_ep _ _ _ _ _ A _ _ _ Hq) as (x & Hx' & Hk & _).
      rewrite Hw in Hx'. injection Hx' as <-. unfold keyC in Hk. naive_solver. }
  destruct d as [se|]; [|by exists r1]. destruct (negb _); [|by exists r1].
  destruct (handleNew_ok ev (MkNSE (aw_wlb (g_work g)) se (aw_cand (g_work g))) r1 I1) as (r2 & -> & I2 & F2).
  exists r2. do 2 (split; [done|]). split; [by eapply al_ok_next|]. destruct F2 as [[= E1 E2 E3 E4 E5 E6] _].
  rewrite E1, E2, E3, E6. done.
Qed.

Lemma allocSettle_ok X w r :
  al_ok X r -> al_ok X (allocSettle w r) /\ hframe (allocSettle w r) = hframe r
    /\ allocWorkByCandidatePeerRelayByEndpoint (allocSettle w r) = allocWorkByCandidatePeerRelayByEndpoint r
    /\ (forall g, rm_allocs r !! w = Some g -> exists g', rm_allocs (allocSettle w r) !! w = Some g'
          /\ g_work g' = g_work g /\ g_phase g' <> Spawned).
Proof.
  intros A. unfold allocSettle. destruct (rm_allocs r !! w) as [g|] eqn:Hw; [|done].
  destruct (g_phase g) eqn:P; try (do 3 (split; [done|]); intros g0 [= <-]; exists g; by rewrite P).
  split; [|do 2 (split; [done|]); intros g0 [= <-]; exists (run true g); simpl; by rewrite lookup_insert_eq].
  apply (al_inv_update _ _ _ _ _ w g _ A Hw); [done|]. destruct (ai_go _ _ _ _ _ A _ _ Hw) as [_ Hp].
  unfold aphase_ok in *. rewrite P in Hp. exact Hp.
Qed.
Lemma allocReturn_ok X w g d r b :
  al_ok X r -> rm_allocs r !! w = Some g -> g_phase g = Running b -> al_ok X (allocReturn w g d r).
Proof.
  intros A Hw P. apply (al_inv_update _ _ _ _ _ w g _ A Hw); [done|]. unfold aphase_ok. simpl. right. left. eauto.
Qed.
Lemma allocLeave_ok X w r :
  al_ok X r -> al_ok X (allocLeave w r) /\ hframe (allocLeave w r) = hframe r
    /\ allocWorkByCandidatePeerRelayByEndpoint (allocLeave w r) = allocWorkByCandidatePeerRelayByEndpoint r
    /\ (forall g, rm_allocs r !! w = Some g -> exists g', rm_allocs (allocLeave w r) !! w = Some g'
          /\ g_work g' = g_work g /\ (g_phase g <> Spawned -> g_phase g' = Returned)).
Proof.
  intros A. unfold allocLeave. destruct (rm_allocs r !! w) as [g|] eqn:Hw; [|done].
  destruct (g_phase g) eqn:P; try (do 3 (split; [done|]); intros g0 [= <-]; exists g; by rewrite P).
  split; [by eapply allocReturn_ok|]. do 2 (split; [done|]). intros g0 [= <-]. exists (return_ None g).
  simpl. by rewrite lookup_insert_eq.
Qed.
(** Draining a finished allocation and cleaning up. *)
Lemma drainAlloc_ok ev r w g d :
  hs_ok none r -> al_ok none r -> rm_allocs r !! w = Some g -> g_phase g = Returned ->
  exists r', handleAllocWorkDoneRunLoop ev w d (upd_allocs <[w := drain g]> r) = Some r' /\ hs_ok none r' /\ al_ok none r'
    /\ serversByNodeKey r' = serversByNodeKey r /\ hasPeerRelayServers r' = hasPeerRelayServers r
    /\ (forall ep c q, lookup2 ep c (allocWorkByCandidatePeerRelayByEndpoint r') = Some q <->
          lookup2 ep c (allocWorkByCandidatePeerRelayByEndpoint r) = Some q /\ q <> w).
Proof.
  intros I A Hw P. assert (al_ok (fun q => q = w) (upd_allocs <[w := drain g]> r)) as A1.
  { apply (al_inv_update _ _ _ _ _ w g); [by eapply (al_inv_weaken none)|done|done|]. unfold aphase_ok. simpl. rewrite P. by left. }
  destruct (handleAllocDone_ok ev (upd_allocs <[w := drain g]> r) w (drain g) d I A1) as (r' & E & I' & A' & E1 & E2 & _ & D);
    [simpl; by rewrite lookup_insert_eq|done|]. exists r'. done.
Qed.
Lemma cancelAlloc_ok ev w r g :
  hs_ok none r -> al_ok none r -> rm_allocs r !! w = Some g -> indexedC (allocWorkByCandidatePeerRelayByEndpoint r) w (g_work g) ->
  exists r', cancelAlloc ev w r = Some r' /\ hs_ok none r' /\ al_ok none r'
    /\ serversByNodeKey r' = serversByNodeKey r /\ hasPeerRelayServers r' = hasPeerRelayServers r
    /\ (forall ep c q, lookup2 ep c (allocWorkByCandidatePeerRelayByEndpoint r') = Some q <->
          lookup2 ep c (allocWorkByCandidatePeerRelayByEndpoint r) = Some q /\ q <> w).
Proof.
  intros I A Hw Hx. unfold cancelAlloc, allocCancelWait. set (r1 := upd_allocs (alter cancel w) r).
  assert (rm_allocs r1 !! w = Some (cancel g)) as E1 by (simpl; by rewrite lookup_alter_eq, Hw).
  assert (al_ok none r1) as A1.
  { unfold al_ok. simpl. rewrite (alter_insert _ _ _ _ Hw).
    apply (al_inv_update _ _ _ _ _ w g _ A Hw); [done|]. by destruct (ai_go _ _ _ _ _ A _ _ Hw). }
  destruct (allocSettle_ok none w r1 A1) as (A2 & F2 & X2 & S2).
  destruct (allocLeave_ok none w (allocSettle w r1) A2) as (A3 & F3 & X3 & S3).
  set (r3 := allocLeave w (allocSettle w r1)) in *.
  destruct (S2 _ E1) as (g2 & E2 & K2 & P2). destruct (S3 _ E2) as (g3 & E3 & K3 & P3).
  assert (hs_ok none r3) as I3 by (apply (hs_ok_hframe none r); [by rewrite F3, F2|done]).
  assert (g_work g3 = g_work g) as K by (by rewrite K3, K2).
  destruct (ai_go _ _ _ _ _ A3 _ _ E3) as [_ Hp]. unfold aphase_ok in Hp. rewrite (P3 P2), X3, X2, K in Hp.
  destruct Hp as [[]|[[d Hd]|Hp]]; [|done]. rewrite E3. cbn [mbind option_bind]. rewrite Hd. cbn [mbind option_bind].
  destruct (drainAlloc_ok ev r3 w g3 d I3 A3 E3 (P3 P2)) as (r' & E & I' & A' & Es & Eh & D).
  exists r'. do 3 (split; [done|]). pose proof F3 as [= Fa Fb _ _ _ _ _ _ _ _]. pose proof F2 as [= Fc Fd _ _ _ _ _ _ _ _].
  rewrite Es, Eh, Fa, Fb, Fc, Fd. do 2 (split; [done|]). intros ep c q. by rewrite D, X3, X2.
Qed.

Lemma hs_inv_next {X byEp byVNI aw ap di hs gen n} m :
  hs_inv X byEp byVNI aw ap di hs gen n -> (n <= m)%nat -> hs_inv X byEp byVNI aw ap di hs gen m.
Proof.
  intros I L. split; try apply I. intros w g Hw. destruct (hi_go _ _ _ _ _ _ _ _ _ I _ _ Hw) as (? & ? & ?).
  split; [lia|done].
Qed.

(** ** The whole state *)
Definition servers_ok (m : gmap bytes candidatePeerRelay) (has : bool) : Prop :=
  (forall nk c, m !! nk = Some c -> nodeKey c = nk) /\ has = (0 <? size m)%nat.
Definition rm_ok (r : relayManager) : Prop :=
  hs_ok none r /\ al_ok none r /\ servers_ok (serversByNodeKey r) (hasPeerRelayServers r).
Lemma rm_ok_zero : rm_ok zeroRM.
Proof. split; [apply hs_ok_zero|]. split; [apply al_ok_zero|]. split; [|done]. intros nk c. simpl. by rewrite lookup_empty. Qed.
Lemma rm_ok_frame r r' : hs_ok none r' -> aframe r' = aframe r -> (rm_next r <= rm_next r')%nat -> rm_ok r -> rm_ok r'.
Proof.
  intros I F L (_ & A & S). split; [done|]. split; [by eapply al_ok_next|]. by injection F as -> -> _ _ _ _.
Qed.

(** ** Stopping an endpoint's work *)
Lemma stopAllocs_ok ev ep l r :
  rm_ok r -> NoDup l.*1 -> Forall (fun x => lookup2 ep x.1 (allocWorkByCandidatePeerRelayByEndpoint r) = Some x.2) l ->
  exists r', foldl (fun o '(_, w) => r ← o; cancelAlloc ev w r) (Some r) l = Some r' /\ rm_ok r'
    /\ forall e c q, lookup2 e c (allocWorkByCandidatePeerRelayByEndpoint r') = Some q <->
         lookup2 e c (allocWorkByCandidatePeerRelayByEndpoint r) = Some q /\ q ∉ l.*2.
Proof.
  revert r. induction l as [|[c0 w] l IH]; intros r (I & A & S) Nd Hl; simpl.
  { exists r. do 2 (split; [done|]). intros e c q. split; [|tauto]. intros; split; [done|]. apply not_elem_of_nil. }
  apply NoDup_cons in Nd as [Nin Nd]. apply Forall_cons in Hl as [Hc Hl]. simpl in Hc, Nin.
  destruct (ai_ep _ _ _ _ _ A _ _ _ Hc) as (g & Hg & Hk & _).
  destruct (cancelAlloc_ok ev w r g I A Hg) as (r1 & -> & I1 & A1 & Es & Eh & D); [by rewrite Hk|].
  destruct (IH r1) as (r' & E & O' & D'); [split; [done|]; split; [done|by rewrite Es, Eh]|done| |].
  - apply Forall_forall. intros [c w'] Hin. rewrite Forall_forall in Hl. pose proof (Hl _ Hin) as Hc'. simpl in *.
    apply D. split; [done|]. intros ->. destruct (ai_ep _ _ _ _ _ A _ _ _ Hc') as (g' & Hg' & Hk' & _).
    rewrite Hg in Hg'. injection Hg' as <-. rewrite Hk in Hk'. injection Hk' as ->. apply Nin, list_elem_of_fmap. by exists (c, w).
  - exists r'. split; [done|]. split; [done|]. intros e c q. rewrite D', D, not_elem_of_cons. tauto.
Qed.
Lemma removed_lookup w g r r' e sd q :
  hs_ok none r -> rm_handshakes r !! w = Some g -> indexedA (handshakeWorkByServerDiscoByEndpoint r) w (g_work g) ->
  removed w g r r' ->
  lookup2 e sd (handshakeWorkByServerDiscoByEndpoint r') = Some q <->
  lookup2 e sd (handshakeWorkByServerDiscoByEndpoint r) = Some q /\ q <> w.
Proof.
  intros I Hw Hx (_ & _ & _ & _ & _ & -> & _). rewrite lookup2_delete2. destruct (decide _) as [[<- <-]|N].
  - rewrite Hx. naive_solver.
  - split; [|tauto]. intros Hq. split; [done|]. intros ->.
    destruct (hi_ep _ _ _ _ _ _ _ _ _ I _ _ _ Hq) as (x & Hx' & Hk & _). rewrite Hw in Hx'. injection Hx' as <-.
    apply N. by rewrite Hk.
Qed.
Lemma stopHandshakes_ok ev ep l r :
  rm_ok r -> NoDup l.*1 -> Forall (fun x => lookup2 ep x.1 (handshakeWorkByServerDiscoByEndpoint r) = Some x.2) l ->
  exists r', foldl (fun o '(_, w) => r ← o; cancelHandshake ev w r) (Some r) l = Some r' /\ rm_ok r' /\ aframe r' = aframe r
    /\ forall e c q, lookup2 e c (handshakeWorkByServerDiscoByEndpoint r') = Some q <->
         lookup2 e c (handshakeWorkByServerDiscoByEndpoint r) = Some q /\ q ∉ l.*2.
Proof.
  revert r. induction l as [|[c0 w] l IH]; intros r O Nd Hl; simpl.
  { exists r. do 3 (split; [done|]). intros e c q. split; [|tauto]. intros; split; [done|]. apply not_elem_of_nil. }
  pose proof O as (I & A & S).
  apply NoDup_cons in Nd as [Nin Nd]. apply Forall_cons in Hl as [Hc Hl]. simpl in Hc, Nin.
  destruct (hi_ep _ _ _ _ _ _ _ _ _ I _ _ _ Hc) as (g & Hg & Hk & _).
  assert (indexedA (handshakeWorkByServerDiscoByEndpoint r) w (g_work g)) as Hx by (by rewrite Hk).
  destruct (cancelHandshake_ok ev w r g I Hg Hx) as (r1 & -> & R).
  pose proof (fun e c q => removed_lookup w g r r1 e c q I Hg Hx R) as D. pose proof R as (I1 & F1 & N1 & _).
  destruct (IH r1) as (r' & E & O' & F' & D'); [eapply rm_ok_frame; try done; lia|done| |].
  - apply Forall_forall. intros [c w'] Hin. rewrite Forall_forall in Hl. pose proof (Hl _ Hin) as Hc'. simpl in *.
    apply D. split; [done|]. intros ->. destruct (hi_ep _ _ _ _ _ _ _ _ _ I _ _ _ Hc') as (g' & Hg' & Hk' & _).
    rewrite Hg in Hg'. injection Hg' as <-. rewrite Hk in Hk'. injection Hk' as ->. apply Nin, list_elem_of_fmap. by exists (c, w).
  - exists r'. split; [done|]. split; [done|]. split; [congruence|]. intros e c q. rewrite D', D, not_elem_of_cons. tauto.
Qed.
Section Steps.
Context `{MapRange}.
(** The entries of an inner map as the loop sees them. *)
Lemma inner_range {K1 K2} `{Countable K1, Countable K2} (m : gmap K1 (gmap K2 nat)) k1 i :
  m !! k1 = Some i -> NoDup (map_range i).*1 /\ Forall (fun x => lookup2 k1 x.1 m = Some x.2) (map_range i)
    /\ forall k2 w, lookup2 k1 k2 m = Some w -> w ∈ (map_range i).*2.
Proof.
  intros Hi. split; [apply NoDup_map_range|]. split.
  - apply Forall_forall. intros [k2 w] Hin. apply elem_of_map_range in Hin. unfold lookup2. simpl. by rewrite Hi.
  - intros k2 w Hw. unfold lookup2 in Hw. rewrite Hi in Hw. simpl in Hw. apply list_elem_of_fmap. exists (k2, w).
    split; [done|]. by apply elem_of_map_range.
Qed.
Lemma inactive_None {K1 K2} `{Countable K1, Countable K2} (m : gmap K1 (gmap K2 nat)) k1 :
  inner_ok m -> (forall k2 w, lookup2 k1 k2 m <> Some w) -> m !! k1 = None.
Proof.
  intros I N. destruct (m !! k1) as [i|] eqn:E; [|done].
  destruct (inner_ok_lookup m k1 I) as (k2 & w & Hw); [eauto|]. by destruct (N k2 w).
Qed.
Lemma stopWork_ok ev ep r :
  rm_ok r -> exists r', stopWorkRunLoop ev ep r = Some r' /\ rm_ok r' /\ hasActiveWorkForEndpointRunLoop ep r' = false.
Proof.
  intros O. unfold stopWorkRunLoop.
  assert (exists r1, match allocWorkByCandidatePeerRelayByEndpoint r !! ep with
      | Some inner => foldl (fun o '(_, w) => r ← o; cancelAlloc ev w r) (Some r) (map_range inner)
      | None => Some r end = Some r1 /\ rm_ok r1 /\ allocWorkByCandidatePeerRelayByEndpoint r1 !! ep = None)
    as (r1 & -> & O1 & N1).
  { destruct (allocWorkByCandidatePeerRelayByEndpoint r !! ep) as [i|] eqn:E; [|by exists r].
    destruct (inner_range _ _ _ E) as (Nd & Fl & Cov). destruct (stopAllocs_ok ev ep _ r O Nd Fl) as (r1 & E1 & O1 & D1).
    exists r1. do 2 (split; [done|]). apply inactive_None; [apply O1|]. intros c w [Hc Hn]%D1. by apply Hn, (Cov c). }
  cbn [mbind option_bind].
  destruct (handshakeWorkByServerDiscoByEndpoint r1 !! ep) as [i|] eqn:E.
  - destruct (inner_range _ _ _ E) as (Nd & Fl & Cov).
    destruct (stopHandshakes_ok ev ep _ r1 O1 Nd Fl) as (r2 & E2 & O2 & F2 & D2). exists r2. do 2 (split; [done|]).
    unfold hasActiveWorkForEndpointRunLoop. injection F2 as _ _ F2 _ _ _.
    rewrite F2, N1, (inactive_None (handshakeWorkByServerDiscoByEndpoint r2) ep); [done|apply O2|].
    intros c w [Hc Hn]%D2. by apply Hn, (Cov c).
  - exists r1. do 2 (split; [done|]). unfold hasActiveWorkForEndpointRunLoop. by rewrite E, N1.
Qed.

(** ** Received messages *)
Lemma toHandshake_ok ev w e r g :
  rm_ok r -> rm_handshakes r !! w = Some g -> indexedA (handshakeWorkByServerDiscoByEndpoint r) w (g_work g) ->
  exists r', toHandshake ev w e r = Some r' /\ rm_ok r'.
Proof.
  intros O Hw Hx. pose proof O as (I & A & S). unfold toHandshake.
  destruct (hsSettle_ok none ev w r I) as (I1 & F1 & H1 & S1). destruct (S1 g Hw) as (g1 & E1 & K1 & P1).
  set (r1 := hsSettle ev w r) in *. rewrite E1. cbn [mbind option_bind].
  assert (rm_ok r1) as O1.
  { eapply rm_ok_frame; [done|by apply frame_aframe|by injection F1 as _ _ _ _ _ _ _ _ _ _ _ ->|done]. }
  destruct (g_phase g1) as [|l|] eqn:P; [done| |].
  - destruct (hsReceive_ok none ev w g1 l (de_from e) (de_msg e) r1 I1 E1 P) as [I2 F2]. eexists. split; [done|].
    eapply rm_ok_frame; [done|by apply frame_aframe|by injection F2 as _ _ _ _ _ _ _ _ _ _ _ ->|done].
  - destruct (hi_go _ _ _ _ _ _ _ _ _ I1 _ _ E1) as (_ & _ & Hp). unfold phase_ok in Hp. rewrite P, K1 in Hp.
    pose proof F1 as [= _ _ _ _ Fe _ _ _ _ _ _ _]. rewrite Fe in Hp. destruct Hp as [[]|[[d Hd]|Hp]]; [|done].
    rewrite Hd. cbn [mbind option_bind]. eexists. split; [done|].
    destruct (drain_removed r r1 w g g1 d) as (I2 & F2 & N2 & _); try done.
    eapply rm_ok_frame; [done|done|lia|done].
Qed.
Lemma await_ok w apv r g :
  rm_ok r -> rm_handshakes r !! w = Some g -> indexedA (handshakeWorkByServerDiscoByEndpoint r) w (g_work g) ->
  handshakeWorkAwaitingPong r !! w = None -> addrPortVNIToHandshakeWork r !! apv = None ->
  rm_ok (set_awaiting (<[w := apv]> (handshakeWorkAwaitingPong r)) (<[apv := w]> (addrPortVNIToHandshakeWork r)) r).
Proof.
  intros (I & A & S) Hw Hx Na Np. split; [|done]. unfold hs_ok. simpl. split; try apply I.
  - intros q a. pose proof (hi_aw _ _ _ _ _ _ _ _ _ I) as W. rewrite !lookup_insert_Some, (W q a).
    assert (addrPortVNIToHandshakeWork r !! a = Some q -> w <> q /\ apv <> a) by (rewrite <- W; naive_solver congruence).
    naive_solver.
  - intros q a. rewrite lookup_insert_Some. intros [[<- <-]|[_ Hq]]; [eauto|by eapply I].
Qed.
Lemma toAlloc_ok ev w gen resp r g :
  rm_ok r -> rm_allocs r !! w = Some g -> indexedC (allocWorkByCandidatePeerRelayByEndpoint r) w (g_work g) ->
  exists r', toAlloc ev w gen resp r = Some r' /\ rm_ok r'.
Proof.
  intros (I & A & S) Hw Hx. unfold toAlloc.
  destruct (allocSettle_ok none w r A) as (A1 & F1 & X1 & S1). destruct (S1 g Hw) as (g1 & E1 & K1 & P1).
  set (r1 := allocSettle w r) in *. rewrite E1. cbn [mbind option_bind].
  assert (hs_ok none r1) as I1 by (by eapply hs_ok_hframe).
  assert (servers_ok (serversByNodeKey r1) (hasPeerRelayServers r1)) as S'.
  { by injection F1 as -> -> _ _ _ _ _ _ _ _. }
  destruct (g_phase g1) as [|b|] eqn:P; [done| |].
  - eexists. split; [done|]. unfold allocReceive. destruct (_ || _); [done|]. split; [done|]. split; [|done].
    by eapply allocReturn_ok.
  - destruct (ai_go _ _ _ _ _ A1 _ _ E1) as [_ Hp]. unfold aphase_ok in Hp. rewrite P, K1, X1 in Hp.
    destruct Hp as [[]|[[d Hd]|Hp]]; [|done]. rewrite Hd. cbn [mbind option_bind].
    destruct (drainAlloc_ok ev r1 w g1 d I1 A1 E1 P) as (r' & E & I' & A' & Es & Eh & _). exists r'. split; [done|].
    split; [done|]. split; [done|]. by rewrite Es, Eh.
Qed.
Lemma handleRx_ok ev e r : rm_ok r -> exists r', handleRxDiscoMsgRunLoop ev e r = Some r' /\ rm_ok r'.
Proof.
  intros O. pose proof O as (I & A & S). unfold handleRxDiscoMsgRunLoop. set (apv := MkApv (de_from e) (de_vni e)).
  assert (forall l w, addrPortVNIToHandshakeWork r !! apv = Some w ->
    exists r', toHandshake ev w e (emit l r) = Some r' /\ rm_ok r') as Deliver.
  { intros l w Hw. apply (hi_aw _ _ _ _ _ _ _ _ _ I) in Hw.
    destruct (hi_awi _ _ _ _ _ _ _ _ _ I _ _ Hw) as (g & Hg & Hx). by apply (toHandshake_ok ev w e (emit l r) g). }
  destruct (de_msg e); try (by exists r).
  - simpl. destruct (addrPortVNIToHandshakeWork r !! apv) as [w|] eqn:E; [by apply Deliver|].
    eexists. split; [done|]. exact O.
  - destruct (addrPortVNIToHandshakeWork r !! apv) as [w|] eqn:E; [|by exists r].
    apply (hi_aw _ _ _ _ _ _ _ _ _ I) in E. destruct (hi_awi _ _ _ _ _ _ _ _ _ I _ _ E) as (g & Hg & Hx).
    by apply (toHandshake_ok ev w e r g).
  - destruct (handshakeWorkByServerDiscoVNI r !! _) as [w|] eqn:E; [|by exists r].
    destruct (hi_vni _ _ _ _ _ _ _ _ _ I _ _ E) as (g & Hg & _ & Hx).
    case_bool_decide as B1; [by exists r|]. case_bool_decide as B2; [by exists r|].
    apply eq_None_not_Some in B1, B2. eapply toHandshake_ok; [by eapply (await_ok w apv r g)|done|done].
  - destruct (lookup2 _ _ _) as [w|] eqn:E; [|by exists r].
    destruct (ai_srv _ _ _ _ _ A _ _ _ E) as (g & Hg & _ & Hx). by apply (toAlloc_ok ev w _ _ r g).
Qed.

(** ** Discovery *)
Lemma allocateOn_ok wlb keys v r :
  rm_ok r -> lookup2 (wl_ep wlb) v (allocWorkByCandidatePeerRelayByEndpoint r) = None ->
  rm_ok (allocateOn wlb keys r v)
  /\ forall v', v' <> v -> lookup2 (wl_ep wlb) v' (allocWorkByCandidatePeerRelayByEndpoint (allocateOn wlb keys r v))
       = lookup2 (wl_ep wlb) v' (allocWorkByCandidatePeerRelayByEndpoint r).
Proof.
  intros O Hv. pose proof O as (I & A & S). unfold allocateOn.
  destruct (lookup2 (nodeKey v) keys _) as [|] eqn:E; [done|]. set (w := rm_next r). set (gen := uw 32 _).
  set (k := MkAllocWork wlb keys v gen).
  split; [|intros v' N; simpl; rewrite lookup2_insert2, decide_False; [done|naive_solver]].
  assert (rm_allocs r !! w = None) as Hf.
  { destruct (rm_allocs r !! w) eqn:X; [|done]. destruct (ai_go _ _ _ _ _ A _ _ X). unfold w in *. lia. }
  assert (forall q x, rm_allocs r !! q = Some x -> q <> w) as Old by congruence.
  assert (forall q x, rm_allocs r !! q = Some x ->
    lookup2 (keyC (g_work x)).1 (keyC (g_work x)).2 (insert2 (keyC k).1 (keyC k).2 w (allocWorkByCandidatePeerRelayByEndpoint r))
      = Some q <-> indexedC (allocWorkByCandidatePeerRelayByEndpoint r) q (g_work x)) as Keep.
  { intros q x Hq. rewrite lookup2_insert2. destruct (decide _) as [[E1 E2]|]; [|done].
    rewrite <- E1, <- E2. simpl. rewrite Hv. pose proof (Old q x Hq). naive_solver. }
  split; [|split; [|done]].
  - apply (hs_inv_next _ I). simpl. lia.
  - unfold al_ok. simpl. split.
    + intros ep c q. rewrite lookup2_insert2. destruct (decide _) as [[<- <-]|N].
      * intros [= <-]. exists (spawn k). rewrite lookup_insert_eq. do 2 (split; [done|]). by rewrite lookup2_insert2, decide_True.
      * intros Hq. destruct (ai_ep _ _ _ _ _ A _ _ _ Hq) as (x & Hx & Hk & Hb). exists x.
        rewrite lookup_insert_ne by (by apply not_eq_sym, (Old q x)). do 2 (split; [done|]).
        rewrite lookup2_insert2, decide_False; [done|]. intros [E1 E2]. rewrite <- E1, <- E2 in Hb. congruence.
    + intros nk ks q. rewrite lookup2_insert2. destruct (decide _) as [[<- <-]|N].
      * intros [= <-]. exists (spawn k). rewrite lookup_insert_eq. do 2 (split; [done|]). by rewrite lookup2_insert2, decide_True.
      * intros Hq. destruct (ai_srv _ _ _ _ _ A _ _ _ Hq) as (x & Hx & Hk & Hi). exists x.
        rewrite lookup_insert_ne by (by apply not_eq_sym, (Old q x)). do 2 (split; [done|]). by apply (Keep q x).
    + apply inner_ok_insert2, A.
    + apply inner_ok_insert2, A.
    + intros q x. rewrite lookup_insert_Some. intros [[<- <-]|[N Hq]].
      * split; [unfold w; lia|]. unfold aphase_ok. simpl. by rewrite lookup2_insert2, decide_True.
      * destruct (ai_go _ _ _ _ _ A _ _ Hq) as (? & Hp). split; [lia|]. unfold aphase_ok in *.
        pose proof (Keep q x Hq) as Kq. destruct (g_phase x); naive_solver.
Qed.

Lemma allocateLoop_ok wlb keys l r :
  rm_ok r -> NoDup l -> Forall (fun v => lookup2 (wl_ep wlb) v (allocWorkByCandidatePeerRelayByEndpoint r) = None) l ->
  rm_ok (foldl (allocateOn wlb keys) r l).
Proof.
  revert r. induction l as [|v l IH]; intros r O Nd Hl; simpl; [done|].
  apply NoDup_cons in Nd as [Nin Nd]. apply Forall_cons in Hl as [Hv Hl].
  destruct (allocateOn_ok wlb keys v r O Hv) as [O1 D1]. apply IH; [done..|].
  apply Forall_forall. intros v' Hin. rewrite D1 by (intros ->; done). rewrite Forall_forall in Hl. by apply Hl.
Qed.
Lemma servers_NoDup (m : gmap bytes candidatePeerRelay) :
  (forall nk c, m !! nk = Some c -> nodeKey c = nk) -> NoDup (map_range m).*2.
Proof.
  intros Hm. assert (nodeKey <$> (map_range m).*2 = (map_range m).*1) as E.
  { rewrite <- list_fmap_compose. apply list_fmap_ext. intros i [nk c] Hi. apply Hm.
    apply elem_of_map_range. by eapply list_elem_of_lookup_2. }
  apply (NoDup_fmap_1 nodeKey). rewrite E. apply NoDup_map_range.
Qed.
Lemma allocateAll_ok ev wlb r :
  rm_ok r -> hasActiveWorkForEndpointRunLoop (wl_ep wlb) r = false -> rm_ok (allocateAllServersRunLoop ev wlb r).
Proof.
  intros O N. unfold allocateAllServersRunLoop. destruct (_ =? _)%nat; [done|]. destruct (ee_disco _); [|done].
  apply allocateLoop_ok; [done|apply servers_NoDup; apply O|]. apply Forall_forall. intros v _.
  apply orb_false_iff in N as [_ N%bool_decide_eq_false]. apply eq_None_not_Some in N. unfold lookup2. by rewrite N.
Qed.

(** ** Servers *)
Lemma publish_ok r :
  hs_ok none r -> al_ok none r -> (forall nk c, serversByNodeKey r !! nk = Some c -> nodeKey c = nk) ->
  rm_ok (publishHasServersRunLoop r).
Proof. intros I A S. done. Qed.
Lemma fold_servers {A} (f : A -> gmap bytes candidatePeerRelay -> gmap bytes candidatePeerRelay) l r :
  foldl (fun r x => upd_servers (f x) r) r l = upd_servers (fun m => foldl (fun m x => f x m) m l) r.
Proof. revert r. induction l as [|x l IH]; intros r; simpl; [by destruct r|]. rewrite IH. done. Qed.
Lemma serversUpdate_ok u l r : rm_ok r -> rm_ok (handleServersUpdateRunLoop u l r).
Proof.
  intros (I & A & S & _). unfold handleServersUpdateRunLoop.
  assert (forall l r, foldl (fun r '(_, v) => if bool_decide (v ∈ u) then r else upd_servers (delete (nodeKey v)) r) r l
    = upd_servers (fun m => foldl (fun m (x : bytes * candidatePeerRelay) =>
        if bool_decide (x.2 ∈ u) then m else delete (nodeKey x.2) m) m l) r) as E.
  { clear. intros l. induction l as [|[nk v] l IH]; intros r; simpl; [by destruct r|]. rewrite IH.
    case_bool_decide; done. }
  rewrite E, (fold_servers (fun v => <[nodeKey v := v]>)). apply publish_ok; [done..|]. simpl.
  set (m0 := foldl _ (serversByNodeKey r) _).
  assert (forall nk c, m0 !! nk = Some c -> nodeKey c = nk) as S0.
  { unfold m0. generalize (map_range (serversByNodeKey r)). intros l0. revert S. generalize (serversByNodeKey r).
    induction l0 as [|[nk v] l0 IH]; intros m Sm; simpl; [done|]. apply IH. case_bool_decide; [done|].
    intros nk' c. rewrite lookup_delete_Some. intros [_ Hc]. by apply Sm. }
  revert S0. generalize m0. induction l as [|v l IH]; intros m Sm; simpl; [done|]. apply IH.
  intros nk c. rewrite lookup_insert_Some. intros [[<- <-]|[_ Hc]]; [done|by apply Sm].
Qed.

(** ** Every step *)
Lemma allocWithdraw_ok w g r :
  al_ok none r -> rm_allocs r !! w = Some g -> al_ok none (upd_allocs <[w := withdraw g]> r).
Proof.
  intros A Hw. apply (al_inv_update _ _ _ _ _ w g _ A Hw); [done|]. destruct (ai_go _ _ _ _ _ A _ _ Hw) as [_ Hp].
  unfold aphase_ok in *. simpl. destruct (g_phase g); naive_solver.
Qed.
Lemma hsWithdraw_ok w g r :
  hs_ok none r -> rm_handshakes r !! w = Some g -> hs_ok none (upd_handshakes <[w := withdraw g]> r).
Proof.
  intros I Hw. apply (hs_inv_same _ _ _ _ _ _ _ _ _ w g _ I Hw); try done.
  destruct (hi_go _ _ _ _ _ _ _ _ _ I _ _ Hw) as (_ & _ & Hp).
  unfold phase_ok in *. simpl. destruct (g_phase g); naive_solver.
Qed.
Lemma allocDoneEvent_ok ev w g d r :
  rm_ok r -> rm_allocs r !! w = Some g -> g_offer g = Some d ->
  exists r', handleAllocWorkDoneRunLoop ev w d (upd_allocs (alter withdraw w) r) = Some r' /\ rm_ok r'.
Proof.
  intros (I & A & S) Hw Ho. unfold upd_allocs at 1. rewrite (alter_insert _ _ _ _ Hw). fold (upd_allocs <[w := withdraw g]> r).
  destruct (ai_go _ _ _ _ _ A _ _ Hw) as [_ Hp]. unfold aphase_ok in Hp.
  destruct (g_phase g) eqn:P; [naive_solver congruence..|].
  pose proof (allocWithdraw_ok w g r A Hw) as A1. eapply (al_inv_weaken _ (fun q => q = w)) in A1; [|done].
  destruct (handleAllocDone_ok ev (upd_allocs <[w := withdraw g]> r) w (withdraw g) d I A1)
    as (r' & E & I' & A' & E1 & E2 & _); [simpl; by rewrite lookup_insert_eq|done|].
  exists r'. split; [done|]. split; [done|]. split; [done|]. by rewrite E1, E2.
Qed.
Lemma hsDoneEvent_ok w g d r :
  rm_ok r -> rm_handshakes r !! w = Some g -> g_offer g = Some d ->
  rm_ok (handleHandshakeWorkDoneRunLoop w d (upd_handshakes (alter withdraw w) r)).
Proof.
  intros O Hw Ho. pose proof O as (I & _). unfold upd_handshakes at 1. rewrite (alter_insert _ _ _ _ Hw).
  fold (upd_handshakes <[w := withdraw g]> r).
  destruct (hi_go _ _ _ _ _ _ _ _ _ I _ _ Hw) as (_ & _ & Hp). unfold phase_ok in Hp.
  destruct (g_phase g) eqn:P; [naive_solver congruence..|].
  pose proof (hsWithdraw_ok w g r I Hw) as I1. eapply (hs_inv_weaken _ (fun q => q = w)) in I1; [|done].
  destruct (handleHsDone_ok (upd_handshakes <[w := withdraw g]> r) w (withdraw g) d I1) as (I2 & _ & N & _);
    [simpl; by rewrite lookup_insert_eq|done|].
  destruct (handleHsDone_aframe w d (upd_handshakes <[w := withdraw g]> r)) as [F _].
  eapply (rm_ok_frame r); [done|done|rewrite N; simpl; lia|done].
Qed.
Lemma frame_rm_ok r r' : hs_ok none r' -> frame r' = frame r -> rm_ok r -> rm_ok r'.
Proof. intros I F. apply rm_ok_frame; [done|by apply frame_aframe|by injection F as _ _ _ _ _ _ _ _ _ _ _ ->]. Qed.
Lemma rmStep_ok ev x r : rm_ok r -> exists r', rmStep ev x r = Some r' /\ rm_ok r'.
Proof.
  intros O. pose proof O as (I & A & S). destruct x; simpl.
  - eexists. split; [done|]. destruct (hasActiveWorkForEndpointRunLoop _ r) eqn:N; simpl; [done|by apply allocateAll_ok].
  - destruct (rm_allocs r !! w) as [g|] eqn:Hw; simpl; [|by exists r]. destruct (g_offer g) as [d|] eqn:Ho; [|by exists r].
    by eapply allocDoneEvent_ok.
  - destruct (stopWork_ok ev ep r O) as (r' & ? & ? & _). eauto.
  - destruct (handleNew_ok ev (handleCallMeMaybeVia wlb dm) r I) as (r' & E & I' & F). exists r'. split; [done|].
    destruct F. by eapply rm_ok_frame.
  - destruct (rm_handshakes r !! w) as [g|] eqn:Hw; simpl; [|by exists r]. destruct (g_offer g) as [d|] eqn:Ho; [|by exists r].
    eexists. split; [done|]. by eapply hsDoneEvent_ok.
  - by apply handleRx_ok.
  - eexists. split; [done|]. by apply serversUpdate_ok.
  - eexists. split; [done|]. apply publish_ok; [done..|]. simpl. intros nk c. rewrite lookup_insert_Some.
    intros [[<- <-]|[_ Hc]]; [done|by apply S].
  - eexists. split; [done|]. unfold handleServerRemoveRunLoop. destruct (serversByNodeKey r !! nk); [|done].
    apply publish_ok; [done..|]. simpl. intros nk' c'. rewrite lookup_delete_Some. intros [_ Hc]. by apply S.
  - eexists. split; done.
  - eexists. split; [done|]. unfold handleDERPHomeChangeRunLoop. destruct (serversByNodeKey r !! nk) as [c|] eqn:E; [|done].
    split; [done|]. split; [done|]. destruct S as [S1 S2]. split; simpl.
    + intros nk' c'. rewrite lookup_insert_Some. intros [[<- <-]|[_ Hc]]; [simpl; by apply S1|by apply S1].
    + rewrite S2, map_size_insert_Some; [done|eauto].
  - eexists. split; [done|]. destruct (hsSettle_ok none ev w r I) as (I1 & F1 & _). by eapply frame_rm_ok.
  - eexists. split; [done|]. destruct (hsLeave_ok none w r I) as (I1 & F1 & _). by eapply frame_rm_ok.
  - eexists. split; [done|]. unfold onHandshake. destruct (rm_handshakes r !! w) as [g|] eqn:Hw; [|done].
    destruct (g_canceled g); [|done]. split; [by apply hsWithdraw_ok|done].
  - eexists. split; [done|]. destruct (allocSettle_ok none w r A) as (A1 & F1 & _).
    split; [by eapply hs_ok_hframe|]. split; [done|]. by injection F1 as -> -> _ _ _ _ _ _ _ _.
  - eexists. split; [done|]. unfold onAlloc. destruct (rm_allocs r !! w) as [g|] eqn:Hw; [|done].
    destruct (g_phase g) as [|[|]|] eqn:P; try done. split; [done|]. split; [|done].
    apply (al_inv_update _ _ _ _ _ w g _ A Hw); [done|]. destruct (ai_go _ _ _ _ _ A _ _ Hw) as [_ Hp].
    unfold aphase_ok in *. rewrite P in Hp. exact Hp.
  - eexists. split; [done|]. destruct (allocLeave_ok none w r A) as (A1 & F1 & _).
    split; [by eapply hs_ok_hframe|]. split; [done|]. by injection F1 as -> -> _ _ _ _ _ _ _ _.
  - eexists. split; [done|]. unfold onAlloc. destruct (rm_allocs r !! w) as [g|] eqn:Hw; [|done].
    destruct (g_canceled g); [|done]. split; [done|]. split; [by apply allocWithdraw_ok|done].
Qed.

(** ** Runs *)
Definition rm_step (r r' : relayManager) : Prop := exists ev x, rmStep ev x r = Some r'.
Definition reachable (r : relayManager) : Prop := rtc rm_step zeroRM r.
Lemma reachable_rm_ok r : reachable r -> rm_ok r.
Proof.
  apply (rtc_ind_r rm_ok); [apply rm_ok_zero|]. intros r1 r2 _ (ev & x & E) O.
  destruct (rmStep_ok ev x r1 O) as (r' & E' & O'). congruence.
Qed.

Definition finished {W L D} (g : goroutine W L D) : bool := match g_phase g with Returned => true | _ => false end.
Lemma unfinished_hs r w g :
  rm_ok r -> rm_handshakes r !! w = Some g -> finished g = false ->
  indexedA (handshakeWorkByServerDiscoByEndpoint r) w (g_work g).
Proof.
  intros (I & _) Hw F. destruct (hi_go _ _ _ _ _ _ _ _ _ I _ _ Hw) as (_ & _ & Hp). unfold phase_ok, finished in *.
  destruct (g_phase g); [by destruct Hp..|done].
Qed.
Lemma unfinished_alloc r w g :
  rm_ok r -> rm_allocs r !! w = Some g -> finished g = false ->
  indexedC (allocWorkByCandidatePeerRelayByEndpoint r) w (g_work g).
Proof.
  intros (_ & A & _) Hw F. destruct (ai_go _ _ _ _ _ A _ _ Hw) as (_ & Hp). unfold aphase_ok, finished in *.
  destruct (g_phase g); [by destruct Hp..|done].
Qed.
Lemma active_hs r ep sd w : lookup2 ep sd (handshakeWorkByServerDiscoByEndpoint r) = Some w -> hasActiveWorkForEndpointRunLoop ep r = true.
Proof.
  unfold lookup2, hasActiveWorkForEndpointRunLoop. destruct (_ !! ep) eqn:E; [|done]. intros _.
  rewrite bool_decide_eq_true_2; [done|eauto].
Qed.
Lemma active_alloc r ep c w : lookup2 ep c (allocWorkByCandidatePeerRelayByEndpoint r) = Some w -> hasActiveWorkForEndpointRunLoop ep r = true.
Proof.
  unfold lookup2, hasActiveWorkForEndpointRunLoop. destruct (allocWorkByCandidatePeerRelayByEndpoint r !! ep) eqn:E; [|done]. intros _.
  rewrite (bool_decide_eq_true_2 (is_Some (Some _))); [by rewrite orb_true_r|eauto].
Qed.

(** [C10] The run loop never blocks: in every state it can get to, whatever the goroutines are
    doing, every event is handled to its end. In particular the waits on the done channels of
    canceled goroutines return, and stopping the work of an endpoint leaves no work indexed for it
    and no goroutine of it that has not returned. *)
Theorem relay_manager_progress r ev x :
  reachable r ->
  (exists r', rmStep ev x r = Some r')
  /\ forall ep, exists r', rmStep ev (EvCancelWork ep) r = Some r' /\ hasActiveWorkForEndpointRunLoop ep r' = false
       /\ (forall w g, rm_handshakes r' !! w = Some g -> wl_ep (hw_wlb (g_work g)) = ep -> finished g = true)
       /\ (forall w g, rm_allocs r' !! w = Some g -> wl_ep (aw_wlb (g_work g)) = ep -> finished g = true).
Proof.
  intros O%reachable_rm_ok. split; [destruct (rmStep_ok ev x r O) as (r' & ? & _); eauto|].
  intros ep. destruct (stopWork_ok ev ep r O) as (r' & E & O' & N). exists r'. do 2 (split; [done|]). split.
  - intros w g Hw He. destruct (finished g) eqn:F; [done|]. pose proof (unfinished_hs r' w g O' Hw F) as Hx.
    apply active_hs in Hx. simpl in Hx. congruence.
  - intros w g Hw He. destruct (finished g) eqn:F; [done|]. pose proof (unfinished_alloc r' w g O' Hw F) as Hx.
    apply active_alloc in Hx. simpl in Hx. congruence.
Qed.

Lemma idle_empty r : rm_ok r -> hasActiveWorkRunLoop r = false ->
  handshakeWorkByServerDiscoByEndpoint r = ∅ /\ allocWorkByCandidatePeerRelayByEndpoint r = ∅.
Proof.
  unfold hasActiveWorkRunLoop. intros _ [A B]%orb_false_iff. apply negb_false_iff, Nat.eqb_eq, map_size_empty_iff in A, B. done.
Qed.
Lemma discoInfo_running r k : rm_ok r ->
  discoInfo k r = true <-> exists w g, rm_handshakes r !! w = Some g /\ isRunning g = true /\ ServerDisco (hw_se (g_work g)) = k.
Proof.
  intros (I & _). unfold discoInfo. rewrite bool_decide_eq_true. split.
  - intros [S HS]. pose proof (hi_dine _ _ _ _ _ _ _ _ _ I _ _ HS) as Ne. apply set_choose_L in Ne as [w Hw].
    exists w. apply (hi_di _ _ _ _ _ _ _ _ _ I k w). by rewrite HS.
  - intros (w & Hg). apply (hi_di _ _ _ _ _ _ _ _ _ I k w) in Hg.
    destruct (discoInfoByServerDisco r !! k); [eauto|]. simpl in Hg. set_solver.
Qed.

(** The manager's indexes agree with each other and with the goroutines, whatever happened
    before: handshake work is found by endpoint and server iff it is found by server and VNI; work
    that awaits a pong and the address it awaits it from determine each other; the disco info of a
    server is kept exactly while a handshake with it runs; every goroutine that has not returned is
    indexed. When there is no active work left, every goroutine has returned and nothing is left
    over in any map. *)
Theorem relay_manager_indexes r :
  reachable r ->
  (forall ep sd w, lookup2 ep sd (handshakeWorkByServerDiscoByEndpoint r) = Some w <->
     exists g, rm_handshakes r !! w = Some g /\ keyA (g_work g) = (ep, sd)
       /\ handshakeWorkByServerDiscoVNI r !! (sd, VNI_ (hw_se (g_work g))) = Some w)
  /\ (forall w apv, handshakeWorkAwaitingPong r !! w = Some apv <-> addrPortVNIToHandshakeWork r !! apv = Some w)
  /\ (forall k, discoInfo k r = true <->
        exists w g, rm_handshakes r !! w = Some g /\ isRunning g = true /\ ServerDisco (hw_se (g_work g)) = k)
  /\ (forall w g, rm_handshakes r !! w = Some g -> finished g = false ->
        indexedA (handshakeWorkByServerDiscoByEndpoint r) w (g_work g))
  /\ (forall w g, rm_allocs r !! w = Some g -> finished g = false ->
        indexedC (allocWorkByCandidatePeerRelayByEndpoint r) w (g_work g))
  /\ hasPeerRelayServers r = (0 <? size (serversByNodeKey r))%nat
  /\ (hasActiveWorkRunLoop r = false ->
       (forall w g, rm_handshakes r !! w = Some g -> finished g = true)
       /\ (forall w g, rm_allocs r !! w = Some g -> finished g = true)
       /\ handshakeWorkByServerDiscoVNI r = ∅ /\ allocWorkByDiscoKeysByServerNodeKey r = ∅
       /\ handshakeWorkAwaitingPong r = ∅ /\ addrPortVNIToHandshakeWork r = ∅ /\ discoInfoByServerDisco r = ∅).
Proof.
  intros O%reachable_rm_ok. pose proof O as (I & A & S).
  split; [|split; [apply (hi_aw _ _ _ _ _ _ _ _ _ I)|split; [by intros k; apply discoInfo_running|]]].
  { intros ep sd w. split.
    - intros (g & Hg & Hk & Hv)%(hi_ep _ _ _ _ _ _ _ _ _ I). exists g. do 2 (split; [done|]). injection Hk as _ <-. done.
    - intros (g & Hg & Hk & Hv). destruct (hi_vni _ _ _ _ _ _ _ _ _ I _ _ Hv) as (g' & Hg' & _ & Hx).
      replace g' with g in Hx by congruence. by rewrite Hk in Hx. }
  split; [by intros; apply unfinished_hs|]. split; [by intros; apply unfinished_alloc|]. split; [apply S|].
  intros [E1 E2]%idle_empty; [|done].
  assert (forall w g, rm_handshakes r !! w = Some g -> finished g = true) as Fh.
  { intros w g Hw. destruct (finished g) eqn:F; [done|]. apply (unfinished_hs r w g O Hw) in F. by rewrite E1, lookup2_empty in F. }
  split; [done|]. split.
  { intros w g Hw. destruct (finished g) eqn:F; [done|]. apply (unfinished_alloc r w g O Hw) in F. by rewrite E2, lookup2_empty in F. }
  assert (handshakeWorkAwaitingPong r = ∅) as Ea.
  { apply map_empty. intros w. apply eq_None_not_Some. intros [apv Ha].
    destruct (hi_awi _ _ _ _ _ _ _ _ _ I _ _ Ha) as (g & _ & Hx). by rewrite E1, lookup2_empty in Hx. }
  split; [|split; [|split; [done|split]]].
  - apply map_empty. intros k. apply eq_None_not_Some. intros [w Hw].
    destruct (hi_vni _ _ _ _ _ _ _ _ _ I _ _ Hw) as (g & _ & _ & Hx). by rewrite E1, lookup2_empty in Hx.
  - apply map_empty. intros nk. apply eq_None_not_Some. intros Hs.
    destruct (inner_ok_lookup _ nk (ai_inner' _ _ _ _ _ A) Hs) as (ks & w & Hw).
    destruct (ai_srv _ _ _ _ _ A _ _ _ Hw) as (g & _ & _ & Hx). by rewrite E2, lookup2_empty in Hx.
  - apply map_empty. intros apv. apply eq_None_not_Some. intros [w Hw]. apply (hi_aw _ _ _ _ _ _ _ _ _ I) in Hw.
    by rewrite Ea, lookup_empty in Hw.
  - apply map_empty. intros k. apply eq_None_not_Some. intros Hs.
    destruct (proj1 (discoInfo_running r k O)) as (w & g & Hg & R & _); [by apply bool_decide_eq_true|].
    apply Fh in Hg. unfold isRunning, finished in *. by destruct (g_phase g).
Qed.
End Steps.

(** ** The exchange of one handshake *)
Notation rxMsg := (env * AddrPort * Message)%type.
Fixpoint hsRun (work : relayHandshakeWork) (l : handshakeLocal) (msgs : list rxMsg)
  : (handshakeLocal + handshakeDone) * list relayOut :=
  match msgs with
  | [] => (inl l, [])
  | (ev, from, m) :: msgs =>
      match hsMsg ev work l from m with
      | (inr d, out) => (inr d, out)
      | (inl l, out) => let '(res, out') := hsRun work l msgs in (res, out ++ out')
      end
  end.
Definition txids (msgs : list rxMsg) : list bytes := (fun x => en_txid x.1.1) <$> msgs.
Definition pingTo (work : relayHandshakeWork) (remote : bytes) (to : AddrPort) (txid node : bytes) : relayOut :=
  SendDisco (MkEpAddr to (VNI.Set_ (VNI_ (hw_se work)))) (zeros 32) remote (MPing (MkPing txid node 0)).
Definition answerTo (work : relayHandshakeWork) (c : BindUDPRelayEndpointCommon) (to : AddrPort) (ch : bytes) : relayOut :=
  SendDisco (MkEpAddr to (VNI.Set_ (VNI_ (hw_se work)))) (zeros 32) (ServerDisco (hw_se work))
    (MBindUDPRelayEndpointAnswer (MkBindCommon (bc_VNI c) (bc_Generation c) (bc_RemoteKey c) ch)).
Definition isPingTo (work : relayHandshakeWork) (remote : bytes) (o : relayOut) : Prop :=
  exists to txid node, o = pingTo work remote to txid node.
Definition ponged (work : relayHandshakeWork) (remote : bytes) (msgs : list rxMsg) (out : list relayOut) (d : handshakeDone) : Prop :=
  exists ev p to node, (ev, pongReceivedFrom d, MPong p) ∈ msgs /\ pingTo work remote to (po_TxID p) node ∈ out.

(** Once the answer is sent: pings, up to the limit, and the end on a pong for one of them. *)
Lemma hsRun_answered work msgs l res out :
  hsRun work l msgs = (res, out) -> handshakeState l = AnswerSent -> (size (sentPingAt l) <= limitPings)%nat ->
  NoDup (txids msgs) -> (forall x, x ∈ txids msgs -> sentPingAt l !! x = None) ->
  Forall (isPingTo work (bc_RemoteKey (hl_common l))) out
  /\ (size (sentPingAt l) + length out <= limitPings)%nat
  /\ forall d, res = inr d -> ponged work (bc_RemoteKey (hl_common l)) msgs out d
       \/ exists ev p, (ev, pongReceivedFrom d, MPong p) ∈ msgs /\ is_Some (sentPingAt l !! po_TxID p).
Proof.
  revert l res out. induction msgs as [|[[ev from] m] msgs IH]; intros l res out; simpl.
  { intros [= <- <-] _ Hs _ _. split; [done|]. split; [simpl; lia|done]. }
  intros E St Hs [Nx Nd]%NoDup_cons Fr.
  assert (forall res out, hsRun work l msgs = (res, out) ->
    Forall (isPingTo work (bc_RemoteKey (hl_common l))) out /\ (size (sentPingAt l) + length out <= limitPings)%nat
    /\ forall d, res = inr d -> ponged work (bc_RemoteKey (hl_common l)) ((ev, from, m) :: msgs) out d
         \/ exists ev' p, (ev', pongReceivedFrom d, MPong p) ∈ (ev, from, m) :: msgs /\ is_Some (sentPingAt l !! po_TxID p)) as Skip.
  { intros res' out' E'. destruct (IH _ _ _ E' St Hs Nd) as (A & B & C); [intros x Hx; apply Fr; by right|].
    do 2 (split; [done|]). intros d Hd. destruct (C d Hd) as [(e & p & to & node & Hin & Ho)|(e & p & Hin & Ho)].
    - left. exists e, p, to, node. split; [by right|done].
    - right. exists e, p. split; [by right|done]. }
  assert (match hsRun work l msgs with (res0, out') => (res0, [] ++ out') end = (res, out) -> hsRun work l msgs = (res, out)) as Nop
    by (by destruct (hsRun work l msgs)).
  unfold hsMsg in E. rewrite St in E. destruct m; try (apply Skip, Nop; exact E).
  - simpl in E. unfold txPing in E. destruct (Nat.eqb_spec (size (sentPingAt l)) limitPings) as [|Nl]; [apply Skip, Nop; exact E|].
    cbn [app] in E. destruct (hsRun work _ msgs) as [res' out'] eqn:R. injection E as <- <-.
    assert (sentPingAt l !! en_txid ev = None) as Fx by (apply Fr; left).
    destruct (IH _ _ _ R St) as (A & B & C); simpl.
    + rewrite map_size_insert_None by done. lia.
    + done.
    + intros x Hx. rewrite lookup_insert_ne; [apply Fr; by right|]. intros <-. by apply Nx.
    + simpl in A, B, C. split; [constructor; [by exists from, (en_txid ev), (en_node ev)|done]|].
      rewrite map_size_insert_None in B by done. split; [simpl; lia|]. intros d Hd.
      destruct (C d Hd) as [(e & p' & to & node & Hin & Ho)|(e & p' & Hin & Ho)].
      * left. exists e, p', to, node. by split; right.
      * apply lookup_insert_is_Some in Ho as [Ho|[_ Ho]].
        -- left. exists e, p', from, (en_node ev). rewrite <- Ho. split; [by right|left].
        -- right. exists e, p'. split; [by right|done].
  - destruct (sentPingAt l !! _) eqn:Hp; [|apply Skip, Nop; exact E]. injection E as <- <-.
    split; [done|]. split; [simpl; lia|]. intros d [= <-]. right. eexists ev, _. split; [left|by rewrite Hp].
  - rewrite Z.leb_refl in E. destruct (negb _); apply Skip, Nop; exact E.
Qed.

(** One handshake, for any sequence of messages it may receive. It stays silent until a
    challenge for its VNI and remote key arrives; then it sends exactly one answer, which returns
    that challenge to the server at the address the challenge came from, followed by between one
    and ten pings to the remote peer. It ends with a result only on a pong that carries the
    transaction id of one of those pings, and the result names where that pong came from. *)
Theorem handshake_exchange work c msgs res out :
  NoDup (txids msgs) -> hsRun work (MkHsLocal c BindSent ∅) msgs = (res, out) ->
  (out = [] /\ exists l, res = inl l)
  \/ exists ev from ch pings,
       (ev, from, MBindUDPRelayEndpointChallenge ch) ∈ msgs
       /\ bc_VNI ch = VNI_ (hw_se work) /\ bc_RemoteKey ch = bc_RemoteKey c
       /\ out = answerTo work c from (bc_Challenge ch) :: pings
       /\ (1 <= length pings <= limitPings)%nat /\ Forall (isPingTo work (bc_RemoteKey c)) pings
       /\ forall d, res = inr d -> ponged work (bc_RemoteKey c) msgs pings d.
Proof.
  revert res out. induction msgs as [|[[ev from] m] msgs IH]; intros res out; simpl; intros Nd.
  { intros [= <- <-]. eauto. }
  apply NoDup_cons in Nd as [Nx Nd]. intros E.
  assert (forall res out, hsRun work (MkHsLocal c BindSent ∅) msgs = (res, out) -> (out = [] /\ exists l, res = inl l)
    \/ exists ev' from' ch pings, (ev', from', MBindUDPRelayEndpointChallenge ch) ∈ (ev, from, m) :: msgs
       /\ bc_VNI ch = VNI_ (hw_se work) /\ bc_RemoteKey ch = bc_RemoteKey c
       /\ out = answerTo work c from' (bc_Challenge ch) :: pings
       /\ (1 <= length pings <= limitPings)%nat /\ Forall (isPingTo work (bc_RemoteKey c)) pings
       /\ forall d, res = inr d -> ponged work (bc_RemoteKey c) ((ev, from, m) :: msgs) pings d) as Skip.
  { intros res' out' E'. destruct (IH res' out' Nd E') as [?|(e & f & ch & pings & Hin & ? & ? & ? & ? & ? & P)]; [by left|].
    right. exists e, f, ch, pings. split; [by right|]. do 5 (split; [done|]). intros d Hd.
    destruct (P d Hd) as (e' & p & to & node & Hp & Ho). exists e', p, to, node. split; [by right|done]. }
  assert (match hsRun work (MkHsLocal c BindSent ∅) msgs with (res0, out') => (res0, [] ++ out') end = (res, out) ->
    hsRun work (MkHsLocal c BindSent ∅) msgs = (res, out)) as Nop by (by destruct (hsRun work _ msgs)).
  destruct m; try (apply Skip, Nop; exact E). unfold hsMsg in E.
  destruct (validateVNIAndRemoteKey _ _ _) eqn:V; [|apply Skip, Nop; exact E].
  apply andb_true_iff in V as [V1%Z.eqb_eq V2%Z.eqb_eq]. rewrite Compare_eq in V2. simpl in V2.
  clear IH Skip Nop.
  unfold txPing in E. cbn [sentPingAt] in E. rewrite map_size_empty in E. simpl in E.
  destruct (hsRun work _ msgs) as [res' out'] eqn:R. injection E as <- <-.
  apply hsRun_answered in R as (A & B & C); [|done| |done|]; simpl in *.
  - right. eexists ev, from, _, (_ :: out'). split; [left|]. do 2 (split; [done|]). split; [done|].
    rewrite map_size_insert_None, map_size_empty in B by done. split; [simpl; unfold limitPings in *; lia|].
    split; [constructor; [by exists from, (en_txid ev), (en_node ev)|done]|].
    intros d Hd. destruct (C d Hd) as [(e & p' & to & node & Hin & Ho)|(e & p' & Hin & Ho)].
    + exists e, p', to, node. by split; right.
    + apply lookup_insert_is_Some in Ho as [Ho|[_ Ho]]; [|rewrite lookup_empty in Ho; by destruct Ho].
      exists e, p', from, (en_node ev). rewrite <- Ho. split; [by right|left].
  - rewrite map_size_insert_None, map_size_empty by done. unfold limitPings. lia.
  - intros x Hx. rewrite lookup_insert_ne; [apply lookup_empty|]. intros <-. by apply Nx.
Qed.

(** ** Example: discovery through one server, up to the handshake *)
Section Examples.
#[local] Existing Instance canonical_range.
Definition doAll (xs : list (env * rmEvent)) (r : relayManager) : relayManager :=
  foldl (fun r '(ev, x) => default r (rmStep ev x r)) r xs.
Lemma reachable_doAll xs r : reachable r -> reachable (doAll xs r).
Proof.
  revert r. induction xs as [|[ev x] xs IH]; intros r R; simpl; [done|]. apply IH.
  destruct (rmStep ev x r) as [r'|] eqn:E; simpl; [|done]. eapply rtc_r; [exact R|]. by exists ev, x.
Qed.
Definition ex_addr : AddrPort := MkAddrPort (Addr4 0x05060708) 41641.
Definition ex_cand : candidatePeerRelay := MkCand (replicate 32 x51) (replicate 32 x52) 7.
Definition ex_env (tx : Byte.byte) : env :=
  MkEnv (fun _ => MkEpEnv (Some (replicate 32 x0b)) (MkAddrPort DerpMagicIPAddr 3) (replicate 32 x0c))
    (replicate 32 x0a) (replicate 32 x0d) 1000 (replicate 12 tx).
Definition ex_wlb : endpointWithLastBest := MkWlb 0 zeroAQ false.
Definition ex_resp : UDPRelayEndpoint :=
  MkRelayEndpoint (replicate 32 x52) (replicate 32 x0a, replicate 32 x0b) 1 5 1000 1000 [ex_addr].
Definition ex_rm : relayManager :=
  doAll ((fun x => (ex_env x01, x)) <$> [EvServerUpsert ex_cand; EvStartDiscovery ex_wlb; GoAlloc 0;
    EvRxDisco (MkDiscoEv (MAllocateUDPRelayEndpointResponse 1 ex_resp) (replicate 32 x51) (replicate 32 x52) ex_addr 0);
    EvAllocDone 0; GoHandshake 1]) zeroRM.
Lemma ex_rm_reachable : reachable ex_rm.
Proof. apply reachable_doAll. apply rtc_refl. Qed.

Lemma relay_manager_progress_witness :
  hasActiveWorkForEndpointRunLoop 0 ex_rm = true
  /\ exists r', rmStep (ex_env x02) (EvCancelWork 0) ex_rm = Some r' /\ hasActiveWorkForEndpointRunLoop 0 r' = false.
Proof.
  split; [vm_compute; reflexivity|].
  destruct (relay_manager_progress ex_rm (ex_env x02) (EvCancelWork 0) ex_rm_reachable) as [_ P].
  destruct (P 0%nat) as (r' & E & A & _). exists r'. split; [exact E|exact A].
Defined.
Lemma relay_manager_indexes_witness :
  bool_decide (lookup2 0%nat (replicate 32 x52) (handshakeWorkByServerDiscoByEndpoint ex_rm) = Some 1%nat) = true
  /\ exists g, rm_handshakes ex_rm !! 1%nat = Some g
       /\ handshakeWorkByServerDiscoVNI ex_rm !! (replicate 32 x52, VNI_ (hw_se (g_work g))) = Some 1%nat.
Proof.
  assert (bool_decide (lookup2 0%nat (replicate 32 x52) (handshakeWorkByServerDiscoByEndpoint ex_rm) = Some 1%nat) = true) as E
    by (vm_compute; reflexivity).
  split; [exact E|]. apply bool_decide_eq_true in E.
  destruct (relay_manager_indexes ex_rm ex_rm_reachable) as [A _].
  apply A in E as (g & Hg & _ & Hv). exists g. split; [exact Hg|exact Hv].
Defined.
Definition ex_work : relayHandshakeWork := MkHsWork ex_wlb (ne_se (handleCallMeMaybeVia ex_wlb ex_resp)) ex_cand 9.
Definition ex_common : BindUDPRelayEndpointCommon := MkBindCommon 5 9 (replicate 32 x0b) (zeros 32).
Definition ex_msgs : list rxMsg :=
  [(ex_env x01, ex_addr, MBindUDPRelayEndpointChallenge (MkBindCommon 5 9 (replicate 32 x0b) (replicate 32 x77)));
   (ex_env x02, ex_addr, MPing (MkPing (replicate 12 x30) (replicate 32 x0c) 0));
   (ex_env x03, ex_addr, MPong (MkDPong (replicate 12 x02) ex_addr))].
Lemma handshake_exchange_witness :
  (hsRun ex_work (MkHsLocal ex_common BindSent ∅) ex_msgs).1 = inr (MkHsDone ex_addr 0)
  /\ exists pings, (hsRun ex_work (MkHsLocal ex_common BindSent ∅) ex_msgs).2
        = answerTo ex_work ex_common ex_addr (replicate 32 x77) :: pings /\ (1 <= length pings <= limitPings)%nat.
Proof.
  split; [vm_compute; reflexivity|].
  destruct (hsRun ex_work (MkHsLocal ex_common BindSent ∅) ex_msgs) as [res out] eqn:E.
  assert (bool_decide (NoDup (txids ex_msgs)) = true) as Nd by (vm_compute; reflexivity). apply bool_decide_eq_true in Nd.
  destruct (handshake_exchange ex_work ex_common ex_msgs res out Nd E) as [[_ [l Hl]]|H].
  - apply (f_equal fst) in E. vm_compute in E. rewrite Hl in E. discriminate E.
  - destruct H as (ev & from & ch & pings & Hin & _ & _ & Ho & Hl & _). exists pings. split; [|exact Hl].
    unfold ex_msgs in Hin. rewrite !elem_of_cons in Hin. destruct Hin as [Hin|[Hin|[Hin|Hin]]].
    + pose proof (f_equal (fun x : rxMsg => x.1.2) Hin) as Ef. pose proof (f_equal snd Hin) as Em.
      cbn in Ef, Em. injection Em as Ec. rewrite Ef, Ec in Ho. exact Ho.
    + apply (f_equal snd) in Hin. discriminate Hin.
    + apply (f_equal snd) in Hin. discriminate Hin.
    + destruct (not_elem_of_nil _ Hin).
Defined.
End Examples.
End RelayManagerProps.
