(* ===== verification/EndpointRecord.v ===== *)
(** * A peer: the [endpoint] record and the effects of its handlers (endpoint.go)

    The mutable fields of [endpoint], the surroundings a handler reads, and the monad the
    handlers are written in: a handler runs with [endpoint.mu] held, so it is a function
    from the endpoint to the new endpoint, the actions it starts (pings, messages, calls
    into other components, all on other goroutines) and its result. *)
From S2P Require Import Prelude Netip Bytes Knobs ProbeManager SourceSockets ActivePaths.
From S2P Require Import EndpointState UdpLifetime BetterAddr.

Inductive discoPingPurpose :=
| pingDiscovery | pingHeartbeat | pingCLI | pingHeartbeatForUDPLifetime.
Inductive discoPingResult :=
| discoPingResultUnknown | discoPingFailed | discoPingTimedOut | discoPongReceived.
#[export] Instance discoPingPurpose_eq_dec : EqDecision discoPingPurpose.
Proof. solve_decision. Defined.
#[export] Instance discoPingResult_eq_dec : EqDecision discoPingResult.
Proof. solve_decision. Defined.

(** [resCB] is a pointer to an object several pings share; here it is that object's number,
    and [replied] below holds the objects whose [taken] flag is set. *)
Record sentPing := MkSentPing {
  sp_to : epAddr;
  sp_at : Z;
  sp_purpose : discoPingPurpose;
  sp_size : Z;
  sp_resCB : option nat
}.

(** The endpoint's fields; [heartBeatTimer] says whether the timer is set, [remoteSlots]
    pairs the two observed source addresses with the instant they were seen. [replied] and
    [nextID] number the callback objects and transaction ids drawn so far; [sourcePathPeerAware]
    holds the keys of the map, whose values repeat them. *)
Record endpoint := MkEndpoint {
  lastRecvWG : Z;
  lastRecvUDPAny : Z;
  disco : option DiscoPublic;
  heartBeatTimer : bool;
  lastSendExt : Z;
  lastSendAny : Z;
  lastFullPing : Z;
  lastUDPRelayPathDiscovery : Z;
  derpAddr : AddrPort;
  best : bestState;
  remoteSlots : list (epAddr * Z);
  sourcePathSingleSince : Z;
  sourcePathSinglePkts : Z;
  activePaths : activeState;
  sentPings : gmap TxID sentPing;
  endpointStates : gmap AddrPort endpointState;
  isCallMeMaybeEP : gmap AddrPort bool;
  heartbeatDisabled : bool;
  expired : bool;
  isWireguardOnly : bool;
  relayCapable : bool;
  replied : gset nat;
  nextID : nat;
  numStopAndReset : Z;
  sourcePathPeerAware : gset (epAddr * sourceRxMeta)
}.

Definition with_lastRecvWG (v : Z) (e : endpoint) : endpoint :=
  MkEndpoint v (lastRecvUDPAny e) (disco e) (heartBeatTimer e) (lastSendExt e) (lastSendAny e)
    (lastFullPing e) (lastUDPRelayPathDiscovery e) (derpAddr e) (best e) (remoteSlots e)
    (sourcePathSingleSince e) (sourcePathSinglePkts e) (activePaths e) (sentPings e)
    (endpointStates e) (isCallMeMaybeEP e) (heartbeatDisabled e) (expired e) (isWireguardOnly e)
    (relayCapable e) (replied e) (nextID e)
    (numStopAndReset e) (sourcePathPeerAware e).
Definition with_lastRecvUDPAny (v : Z) (e : endpoint) : endpoint :=
  MkEndpoint (lastRecvWG e) v (disco e) (heartBeatTimer e) (lastSendExt e) (lastSendAny e)
    (lastFullPing e) (lastUDPRelayPathDiscovery e) (derpAddr e) (best e) (remoteSlots e)
    (sourcePathSingleSince e) (sourcePathSinglePkts e) (activePaths e) (sentPings e)
    (endpointStates e) (isCallMeMaybeEP e) (heartbeatDisabled e) (expired e) (isWireguardOnly e)
    (relayCapable e) (replied e) (nextID e)
    (numStopAndReset e) (sourcePathPeerAware e).
Definition with_disco (v : option DiscoPublic) (e : endpoint) : endpoint :=
  MkEndpoint (lastRecvWG e) (lastRecvUDPAny e) v (heartBeatTimer e) (lastSendExt e) (lastSendAny
    e) (lastFullPing e) (lastUDPRelayPathDiscovery e) (derpAddr e) (best e) (remoteSlots e)
    (sourcePathSingleSince e) (sourcePathSinglePkts e) (activePaths e) (sentPings e)
    (endpointStates e) (isCallMeMaybeEP e) (heartbeatDisabled e) (expired e) (isWireguardOnly e)
    (relayCapable e) (replied e) (nextID e)
    (numStopAndReset e) (sourcePathPeerAware e).
Definition with_heartBeatTimer (v : bool) (e : endpoint) : endpoint :=
  MkEndpoint (lastRecvWG e) (lastRecvUDPAny e) (disco e) v (lastSendExt e) (lastSendAny e)
    (lastFullPing e) (lastUDPRelayPathDiscovery e) (derpAddr e) (best e) (remoteSlots e)
    (sourcePathSingleSince e) (sourcePathSinglePkts e) (activePaths e) (sentPings e)
    (endpointStates e) (isCallMeMaybeEP e) (heartbeatDisabled e) (expired e) (isWireguardOnly e)
    (relayCapable e) (replied e) (nextID e)
    (numStopAndReset e) (sourcePathPeerAware e).
Definition with_lastSendExt (v : Z) (e : endpoint) : endpoint :=
  MkEndpoint (lastRecvWG e) (lastRecvUDPAny e) (disco e) (heartBeatTimer e) v (lastSendAny e)
    (lastFullPing e) (lastUDPRelayPathDiscovery e) (derpAddr e) (best e) (remoteSlots e)
    (sourcePathSingleSince e) (sourcePathSinglePkts e) (activePaths e) (sentPings e)
    (endpointStates e) (isCallMeMaybeEP e) (heartbeatDisabled e) (expired e) (isWireguardOnly e)
    (relayCapable e) (replied e) (nextID e)
    (numStopAndReset e) (sourcePathPeerAware e).
Definition with_lastSendAny (v : Z) (e : endpoint) : endpoint :=
  MkEndpoint (lastRecvWG e) (lastRecvUDPAny e) (disco e) (heartBeatTimer e) (lastSendExt e) v
    (lastFullPing e) (lastUDPRelayPathDiscovery e) (derpAddr e) (best e) (remoteSlots e)
    (sourcePathSingleSince e) (sourcePathSinglePkts e) (activePaths e) (sentPings e)
    (endpointStates e) (isCallMeMaybeEP e) (heartbeatDisabled e) (expired e) (isWireguardOnly e)
    (relayCapable e) (replied e) (nextID e)
    (numStopAndReset e) (sourcePathPeerAware e).
Definition with_lastFullPing (v : Z) (e : endpoint) : endpoint :=
  MkEndpoint (lastRecvWG e) (lastRecvUDPAny e) (disco e) (heartBeatTimer e) (lastSendExt e)
    (lastSendAny e) v (lastUDPRelayPathDiscovery e) (derpAddr e) (best e) (remoteSlots e)
    (sourcePathSingleSince e) (sourcePathSinglePkts e) (activePaths e) (sentPings e)
    (endpointStates e) (isCallMeMaybeEP e) (heartbeatDisabled e) (expired e) (isWireguardOnly e)
    (relayCapable e) (replied e) (nextID e)
    (numStopAndReset e) (sourcePathPeerAware e).
Definition with_lastUDPRelayPathDiscovery (v : Z) (e : endpoint) : endpoint :=
  MkEndpoint (lastRecvWG e) (lastRecvUDPAny e) (disco e) (heartBeatTimer e) (lastSendExt e)
    (lastSendAny e) (lastFullPing e) v (derpAddr e) (best e) (remoteSlots e)
    (sourcePathSingleSince e) (sourcePathSinglePkts e) (activePaths e) (sentPings e)
    (endpointStates e) (isCallMeMaybeEP e) (heartbeatDisabled e) (expired e) (isWireguardOnly e)
    (relayCapable e) (replied e) (nextID e)
    (numStopAndReset e) (sourcePathPeerAware e).
Definition with_derpAddr (v : AddrPort) (e : endpoint) : endpoint :=
  MkEndpoint (lastRecvWG e) (lastRecvUDPAny e) (disco e) (heartBeatTimer e) (lastSendExt e)
    (lastSendAny e) (lastFullPing e) (lastUDPRelayPathDiscovery e) v (best e) (remoteSlots e)
    (sourcePathSingleSince e) (sourcePathSinglePkts e) (activePaths e) (sentPings e)
    (endpointStates e) (isCallMeMaybeEP e) (heartbeatDisabled e) (expired e) (isWireguardOnly e)
    (relayCapable e) (replied e) (nextID e)
    (numStopAndReset e) (sourcePathPeerAware e).
Definition with_best (v : bestState) (e : endpoint) : endpoint :=
  MkEndpoint (lastRecvWG e) (lastRecvUDPAny e) (disco e) (heartBeatTimer e) (lastSendExt e)
    (lastSendAny e) (lastFullPing e) (lastUDPRelayPathDiscovery e) (derpAddr e) v (remoteSlots
    e) (sourcePathSingleSince e) (sourcePathSinglePkts e) (activePaths e) (sentPings e)
    (endpointStates e) (isCallMeMaybeEP e) (heartbeatDisabled e) (expired e) (isWireguardOnly e)
    (relayCapable e) (replied e) (nextID e)
    (numStopAndReset e) (sourcePathPeerAware e).
Definition with_remoteSlots (v : list (epAddr * Z)) (e : endpoint) : endpoint :=
  MkEndpoint (lastRecvWG e) (lastRecvUDPAny e) (disco e) (heartBeatTimer e) (lastSendExt e)
    (lastSendAny e) (lastFullPing e) (lastUDPRelayPathDiscovery e) (derpAddr e) (best e) v
    (sourcePathSingleSince e) (sourcePathSinglePkts e) (activePaths e) (sentPings e)
    (endpointStates e) (isCallMeMaybeEP e) (heartbeatDisabled e) (expired e) (isWireguardOnly e)
    (relayCapable e) (replied e) (nextID e)
    (numStopAndReset e) (sourcePathPeerAware e).
Definition with_sourcePathSingleSince (v : Z) (e : endpoint) : endpoint :=
  MkEndpoint (lastRecvWG e) (lastRecvUDPAny e) (disco e) (heartBeatTimer e) (lastSendExt e)
    (lastSendAny e) (lastFullPing e) (lastUDPRelayPathDiscovery e) (derpAddr e) (best e)
    (remoteSlots e) v (sourcePathSinglePkts e) (activePaths e) (sentPings e) (endpointStates e)
    (isCallMeMaybeEP e) (heartbeatDisabled e) (expired e) (isWireguardOnly e) (relayCapable e)
    (replied e) (nextID e)
    (numStopAndReset e) (sourcePathPeerAware e).
Definition with_sourcePathSinglePkts (v : Z) (e : endpoint) : endpoint :=
  MkEndpoint (lastRecvWG e) (lastRecvUDPAny e) (disco e) (heartBeatTimer e) (lastSendExt e)
    (lastSendAny e) (lastFullPing e) (lastUDPRelayPathDiscovery e) (derpAddr e) (best e)
    (remoteSlots e) (sourcePathSingleSince e) v (activePaths e) (sentPings e) (endpointStates e)
    (isCallMeMaybeEP e) (heartbeatDisabled e) (expired e) (isWireguardOnly e) (relayCapable e)
    (replied e) (nextID e)
    (numStopAndReset e) (sourcePathPeerAware e).
Definition with_activePaths (v : activeState) (e : endpoint) : endpoint :=
  MkEndpoint (lastRecvWG e) (lastRecvUDPAny e) (disco e) (heartBeatTimer e) (lastSendExt e)
    (lastSendAny e) (lastFullPing e) (lastUDPRelayPathDiscovery e) (derpAddr e) (best e)
    (remoteSlots e) (sourcePathSingleSince e) (sourcePathSinglePkts e) v (sentPings e)
    (endpointStates e) (isCallMeMaybeEP e) (heartbeatDisabled e) (expired e) (isWireguardOnly e)
    (relayCapable e) (replied e) (nextID e)
    (numStopAndReset e) (sourcePathPeerAware e).
Definition with_sentPings (v : gmap TxID sentPing) (e : endpoint) : endpoint :=
  MkEndpoint (lastRecvWG e) (lastRecvUDPAny e) (disco e) (heartBeatTimer e) (lastSendExt e)
    (lastSendAny e) (lastFullPing e) (lastUDPRelayPathDiscovery e) (derpAddr e) (best e)
    (remoteSlots e) (sourcePathSingleSince e) (sourcePathSinglePkts e) (activePaths e) v
    (endpointStates e) (isCallMeMaybeEP e) (heartbeatDisabled e) (expired e) (isWireguardOnly e)
    (relayCapable e) (replied e) (nextID e)
    (numStopAndReset e) (sourcePathPeerAware e).
Definition with_endpointStates (v : gmap AddrPort endpointState) (e : endpoint) : endpoint :=
  MkEndpoint (lastRecvWG e) (lastRecvUDPAny e) (disco e) (heartBeatTimer e) (lastSendExt e)
    (lastSendAny e) (lastFullPing e) (lastUDPRelayPathDiscovery e) (derpAddr e) (best e)
    (remoteSlots e) (sourcePathSingleSince e) (sourcePathSinglePkts e) (activePaths e)
    (sentPings e) v (isCallMeMaybeEP e) (heartbeatDisabled e) (expired e) (isWireguardOnly e)
    (relayCapable e) (replied e) (nextID e)
    (numStopAndReset e) (sourcePathPeerAware e).
Definition with_isCallMeMaybeEP (v : gmap AddrPort bool) (e : endpoint) : endpoint :=
  MkEndpoint (lastRecvWG e) (lastRecvUDPAny e) (disco e) (heartBeatTimer e) (lastSendExt e)
    (lastSendAny e) (lastFullPing e) (lastUDPRelayPathDiscovery e) (derpAddr e) (best e)
    (remoteSlots e) (sourcePathSingleSince e) (sourcePathSinglePkts e) (activePaths e)
    (sentPings e) (endpointStates e) v (heartbeatDisabled e) (expired e) (isWireguardOnly e)
    (relayCapable e) (replied e) (nextID e)
    (numStopAndReset e) (sourcePathPeerAware e).
Definition with_heartbeatDisabled (v : bool) (e : endpoint) : endpoint :=
  MkEndpoint (lastRecvWG e) (lastRecvUDPAny e) (disco e) (heartBeatTimer e) (lastSendExt e)
    (lastSendAny e) (lastFullPing e) (lastUDPRelayPathDiscovery e) (derpAddr e) (best e)
    (remoteSlots e) (sourcePathSingleSince e) (sourcePathSinglePkts e) (activePaths e)
    (sentPings e) (endpointStates e) (isCallMeMaybeEP e) v (expired e) (isWireguardOnly e)
    (relayCapable e) (replied e) (nextID e)
    (numStopAndReset e) (sourcePathPeerAware e).
Definition with_expired (v : bool) (e : endpoint) : endpoint :=
  MkEndpoint (lastRecvWG e) (lastRecvUDPAny e) (disco e) (heartBeatTimer e) (lastSendExt e)
    (lastSendAny e) (lastFullPing e) (lastUDPRelayPathDiscovery e) (derpAddr e) (best e)
    (remoteSlots e) (sourcePathSingleSince e) (sourcePathSinglePkts e) (activePaths e)
    (sentPings e) (endpointStates e) (isCallMeMaybeEP e) (heartbeatDisabled e) v
    (isWireguardOnly e) (relayCapable e) (replied e) (nextID e)
    (numStopAndReset e) (sourcePathPeerAware e).
Definition with_relayCapable (v : bool) (e : endpoint) : endpoint :=
  MkEndpoint (lastRecvWG e) (lastRecvUDPAny e) (disco e) (heartBeatTimer e) (lastSendExt e)
    (lastSendAny e) (lastFullPing e) (lastUDPRelayPathDiscovery e) (derpAddr e) (best e)
    (remoteSlots e) (sourcePathSingleSince e) (sourcePathSinglePkts e) (activePaths e)
    (sentPings e) (endpointStates e) (isCallMeMaybeEP e) (heartbeatDisabled e) (expired e)
    (isWireguardOnly e) v (replied e) (nextID e)
    (numStopAndReset e) (sourcePathPeerAware e).
Definition with_replied (v : gset nat) (e : endpoint) : endpoint :=
  MkEndpoint (lastRecvWG e) (lastRecvUDPAny e) (disco e) (heartBeatTimer e) (lastSendExt e)
    (lastSendAny e) (lastFullPing e) (lastUDPRelayPathDiscovery e) (derpAddr e) (best e)
    (remoteSlots e) (sourcePathSingleSince e) (sourcePathSinglePkts e) (activePaths e)
    (sentPings e) (endpointStates e) (isCallMeMaybeEP e) (heartbeatDisabled e) (expired e)
    (isWireguardOnly e) (relayCapable e) v (nextID e)
    (numStopAndReset e) (sourcePathPeerAware e).
Definition with_nextID (v : nat) (e : endpoint) : endpoint :=
  MkEndpoint (lastRecvWG e) (lastRecvUDPAny e) (disco e) (heartBeatTimer e) (lastSendExt e)
    (lastSendAny e) (lastFullPing e) (lastUDPRelayPathDiscovery e) (derpAddr e) (best e)
    (remoteSlots e) (sourcePathSingleSince e) (sourcePathSinglePkts e) (activePaths e)
    (sentPings e) (endpointStates e) (isCallMeMaybeEP e) (heartbeatDisabled e) (expired e)
    (isWireguardOnly e) (relayCapable e) (replied e) v (numStopAndReset e) (sourcePathPeerAware e).

Definition with_numStopAndReset (v : Z) (e : endpoint) : endpoint :=
  MkEndpoint (lastRecvWG e) (lastRecvUDPAny e) (disco e) (heartBeatTimer e) (lastSendExt e)
    (lastSendAny e) (lastFullPing e) (lastUDPRelayPathDiscovery e) (derpAddr e) (best e)
    (remoteSlots e) (sourcePathSingleSince e) (sourcePathSinglePkts e) (activePaths e)
    (sentPings e) (endpointStates e) (isCallMeMaybeEP e) (heartbeatDisabled e) (expired e)
    (isWireguardOnly e) (relayCapable e) (replied e) (nextID e) v (sourcePathPeerAware e).
Definition with_sourcePathPeerAware (v : gset (epAddr * sourceRxMeta)) (e : endpoint) : endpoint :=
  MkEndpoint (lastRecvWG e) (lastRecvUDPAny e) (disco e) (heartBeatTimer e) (lastSendExt e)
    (lastSendAny e) (lastFullPing e) (lastUDPRelayPathDiscovery e) (derpAddr e) (best e)
    (remoteSlots e) (sourcePathSingleSince e) (sourcePathSinglePkts e) (activePaths e)
    (sentPings e) (endpointStates e) (isCallMeMaybeEP e) (heartbeatDisabled e) (expired e)
    (isWireguardOnly e) (relayCapable e) (replied e) (nextID e) (numStopAndReset e) v.

Inductive pingErr := errExpired | errPingTooBig.

(** What a handler hands to other goroutines and components. *)
Inductive action :=
| ASendDiscoPing (ep : epAddr) (discoKey : DiscoPublic) (txid : TxID) (size : Z)
| ASourcePathPing (source : sourceRxMeta) (ep : epAddr) (discoKey : DiscoPublic) (txid : TxID) (size : Z)
| ACallMeMaybe (derp : AddrPort)
| AWireGuardPing (ipp : AddrPort)
| AStartRelayDiscovery (lastBest : addrQuality) (lastBestIsTrusted : bool)
| AStopRelayWork
| ADERPHomeChange (regionID : Z)
| ASetNodeKeyForEpAddr (src : epAddr)
| APingReply (cb : nat) (latency : Z) (to : epAddr)
| APingError (err : pingErr)
| ANoteRecvActivity
| APanic.

(** What a handler reads around it: knobs, the [Conn]'s flags and sockets, the clocks
    (read once per handler), and a source of transaction ids and of random numbers. *)
Record Env := MkEnv {
  e_knobs : Knobs;
  e_js : bool;                       (* runtime.GOOS == "js" *)
  e_neverDirectUDP : bool;           (* debugNeverDirectUDP *)
  e_peerMTU : bool;                  (* Conn.PeerMTUEnabled *)
  e_noV4 : bool;
  e_noV6 : bool;
  e_hasPeerRelayServers : bool;
  e_selfDisco : DiscoPublic;         (* Conn.discoAtomic.Public *)
  e_noteRecvActivity : bool;         (* Conn.noteRecvActivity is set *)
  e_maxPacketSize : Z;               (* tstun.MaxPacketSize *)
  e_sockets : sourcePathState;
  e_newTxID : nat -> TxID;           (* stun.NewTxID, by the number of ids drawn before *)
  e_rand : nat;                      (* rand.IntN reduces it *)
  e_now : Z;                         (* mono.Now *)
  e_wall : Z;                        (* time.Now *)
  e_crashOnUnexpected : bool         (* testenv.InTest or envknob.CrashOnUnexpected *)
}.

(** ** The handler monad *)
Definition M (A : Type) : Type := endpoint -> endpoint * list action * A.
#[export] Instance M_ret : MRet M := fun A x e => (e, [], x).
#[export] Instance M_bind : MBind M := fun A B f m e =>
  let '(e1, acts1, x) := m e in let '(e2, acts2, y) := f x e1 in (e2, acts1 ++ acts2, y).

Definition gets {A} (f : endpoint -> A) : M A := fun e => (e, [], f e).
Definition modify (f : endpoint -> endpoint) : M unit := fun e => (f e, [], tt).
Definition emit (a : action) : M unit := fun e => (e, [a], tt).
Definition skip : M unit := mret tt.
Definition when (b : bool) (m : M unit) : M unit := if b then m else skip.
Fixpoint forM {A} (l : list A) (f : A -> M unit) : M unit :=
  match l with [] => skip | x :: l' => f x ;; forM l' f end.

(** A fresh number: a callback object or the next transaction id. *)
Definition fresh : M nat := fun e => (with_nextID (S (nextID e)) e, [], nextID e).

(** Running a handler: its final endpoint and its actions. *)
Definition final {A} (m : M A) (e : endpoint) : endpoint := (m e).1.1.
Definition acts {A} (m : M A) (e : endpoint) : list action := (m e).1.2.
Definition result {A} (m : M A) (e : endpoint) : A := (m e).2.

(** ** Reasoning about handlers

    [keeps I ok m]: from an endpoint satisfying [I] the handler ends in one satisfying [I]
    and starts only actions satisfying [ok] of the endpoint. *)
Section Keeps.
Context (I : endpoint -> Prop) (ok : action -> Prop).

Definition keeps {A} (m : M A) : Prop :=
  forall e, I e -> I (final m e) /\ Forall ok (acts m e).

Lemma keeps_ret {A} (x : A) : keeps (mret x).
Proof. intros e He. split; [done|constructor]. Qed.
Lemma keeps_skip : keeps skip.
Proof. apply keeps_ret. Qed.
Lemma keeps_gets {A} (f : endpoint -> A) : keeps (gets f).
Proof. intros e He. split; [done|constructor]. Qed.
Lemma keeps_emit a : ok a -> keeps (emit a).
Proof. intros Ha e He. split; [done|]. by repeat constructor. Qed.
Lemma keeps_modify f : (forall e, I e -> I (f e)) -> keeps (modify f).
Proof. intros Hf e He. split; [by apply Hf|constructor]. Qed.
Lemma keeps_bind {A B} (m : M A) (f : A -> M B) :
  keeps m -> (forall x, keeps (f x)) -> keeps (m ≫= f).
Proof.
  intros Hm Hf e He. destruct (Hm e He) as [H1 H2]. unfold final, acts, mbind, M_bind in *.
  destruct (m e) as [[e1 a1] x]. simpl in *. destruct (Hf x e1 H1) as [H3 H4].
  unfold final, acts in *. destruct (f x e1) as [[e2 a2] y]. simpl in *.
  split; [done|]. by apply Forall_app.
Qed.
(** Reading a field and going on: the continuation may use what is read. *)
Lemma keeps_gets_bind {A B} (g : endpoint -> A) (f : A -> M B) :
  (forall e, I e -> I (final (f (g e)) e) /\ Forall ok (acts (f (g e)) e)) -> keeps (gets g ≫= f).
Proof.
  intros Hf e He. destruct (Hf e He) as [H1 H2]. unfold final, acts, mbind, M_bind, gets in *.
  destruct (f (g e) e) as [[e2 a2] y]. done.
Qed.
Lemma keeps_when b m : keeps m -> keeps (when b m).
Proof. intros Hm. destruct b; [done|]. apply keeps_skip. Qed.
Lemma keeps_if {A} (b : bool) (m1 m2 : M A) : keeps m1 -> keeps m2 -> keeps (if b then m1 else m2).
Proof. by destruct b. Qed.
Lemma keeps_forM {A} (l : list A) f : (forall x, x ∈ l -> keeps (f x)) -> keeps (forM l f).
Proof.
  induction l as [|x l IH]; intros Hf; simpl; [apply keeps_skip|].
  apply keeps_bind; [apply Hf; by left|]. intros _. apply IH. intros y Hy. apply Hf. by right.
Qed.
End Keeps.

Lemma final_bind {A B} (m : M A) (f : A -> M B) e :
  final (m ≫= f) e = final (f (result m e)) (final m e).
Proof.
  unfold final, result, mbind, M_bind. destruct (m e) as [[e1 a1] x]. simpl.
  by destruct (f x e1) as [[e2 a2] y].
Qed.
Lemma acts_bind {A B} (m : M A) (f : A -> M B) e :
  acts (m ≫= f) e = acts m e ++ acts (f (result m e)) (final m e).
Proof.
  unfold final, acts, result, mbind, M_bind. destruct (m e) as [[e1 a1] x]. simpl.
  by destruct (f x e1) as [[e2 a2] y].
Qed.
Lemma result_bind {A B} (m : M A) (f : A -> M B) e :
  result (m ≫= f) e = result (f (result m e)) (final m e).
Proof.
  unfold final, result, mbind, M_bind. destruct (m e) as [[e1 a1] x]. simpl.
  by destruct (f x e1) as [[e2 a2] y].
Qed.

Create HintDb keeps.
#[export] Hint Resolve keeps_ret keeps_skip keeps_gets keeps_emit keeps_when keeps_if : keeps.
