(* ===== verification/PeerMap.v ===== *)
(** * The index of peers (peermap.go)

    [peerInfo] objects are shared between the indexes by pointer: [infos] is their store and a
    pointer is a number. Endpoints live in a store of their own, which the operations read. A
    panic of the code is a value of [peerPanic]. *)
From S2P Require Import Prelude Netip Bytes ProbeManager BetterAddr EndpointRecord.

Notation NodePublic := bytes.
Definition zeroNode : NodePublic := replicate 32 x00.

(** An endpoint object: its identity, and the state [endpoint.mu] guards. *)
Record epObj := MkEpObj { eo_nodeID : Z; eo_publicKey : NodePublic; eo_state : endpoint }.
Notation epHeap := (gmap nat epObj).
Definition eo_disco (e : epObj) : option DiscoPublic := disco (eo_state e).
Definition eo_wgOnly (e : epObj) : bool := isWireguardOnly (eo_state e).

Record peerInfo := MkPeerInfo { pi_ep : nat; pi_epAddrs : gset epAddr }.
Definition newPeerInfo (ep : nat) : peerInfo := MkPeerInfo ep ∅.

Record peerMap := MkPeerMap {
  infos : gmap nat peerInfo;
  nextInfo : nat;
  byNodeKey : gmap NodePublic nat;
  byEpAddr : gmap epAddr nat;
  byNodeID : gmap Z nat;
  relayEpAddrByNodeKey : gmap NodePublic epAddr;
  nodesOfDisco : gmap DiscoPublic (gset NodePublic)
}.
Definition newPeerMap : peerMap := MkPeerMap ∅ 0 ∅ ∅ ∅ ∅ ∅.
Inductive devPanic := devZeroID | devZeroKey | devKeyMoved | devKeyNotByNodeID | devOutOfSync.
Inductive peerPanic := panicZeroNodeID | panicNilDisco | panicDev (why : devPanic).
(** [devPanicf]: [crash] is [testenv.InTest() || envknob.CrashOnUnexpected()], the latter by default
    what [version.IsUnstableBuild] says. *)
Definition devPanicf {A} (crash : bool) (why : devPanic) (x : A) : peerPanic + A :=
  if crash then inl (panicDev why) else inr x.
Lemma devPanicf_inr {A} crash why (x y : A) : devPanicf crash why x = inr y -> y = x.
Proof. unfold devPanicf. intros E. by repeat (case_match || simplify_eq). Qed.

Definition with_infos (f : gmap nat peerInfo -> gmap nat peerInfo) (m : peerMap) : peerMap :=
  MkPeerMap (f (infos m)) (nextInfo m) (byNodeKey m) (byEpAddr m) (byNodeID m)
    (relayEpAddrByNodeKey m) (nodesOfDisco m).
Definition with_byNodeKey (f : gmap NodePublic nat -> gmap NodePublic nat) (m : peerMap) : peerMap :=
  MkPeerMap (infos m) (nextInfo m) (f (byNodeKey m)) (byEpAddr m) (byNodeID m)
    (relayEpAddrByNodeKey m) (nodesOfDisco m).
Definition with_byEpAddr (f : gmap epAddr nat -> gmap epAddr nat) (m : peerMap) : peerMap :=
  MkPeerMap (infos m) (nextInfo m) (byNodeKey m) (f (byEpAddr m)) (byNodeID m)
    (relayEpAddrByNodeKey m) (nodesOfDisco m).
Definition with_byNodeID (f : gmap Z nat -> gmap Z nat) (m : peerMap) : peerMap :=
  MkPeerMap (infos m) (nextInfo m) (byNodeKey m) (byEpAddr m) (f (byNodeID m))
    (relayEpAddrByNodeKey m) (nodesOfDisco m).
Definition with_relay (f : gmap NodePublic epAddr -> gmap NodePublic epAddr) (m : peerMap) : peerMap :=
  MkPeerMap (infos m) (nextInfo m) (byNodeKey m) (byEpAddr m) (byNodeID m)
    (f (relayEpAddrByNodeKey m)) (nodesOfDisco m).
Definition with_nodesOfDisco (f : gmap DiscoPublic (gset NodePublic) -> gmap DiscoPublic (gset NodePublic))
    (m : peerMap) : peerMap :=
  MkPeerMap (infos m) (nextInfo m) (byNodeKey m) (byEpAddr m) (byNodeID m)
    (relayEpAddrByNodeKey m) (f (nodesOfDisco m)).
(** [&peerInfo{...}]: the next pointer. *)
Definition allocInfo (i : peerInfo) (m : peerMap) : peerMap * nat :=
  (MkPeerMap (<[nextInfo m := i]> (infos m)) (S (nextInfo m)) (byNodeKey m) (byEpAddr m)
     (byNodeID m) (relayEpAddrByNodeKey m) (nodesOfDisco m), nextInfo m).

Definition addAddr (a : epAddr) (i : peerInfo) : peerInfo := MkPeerInfo (pi_ep i) ({[a]} ∪ pi_epAddrs i).
Definition delAddr (a : epAddr) (i : peerInfo) : peerInfo := MkPeerInfo (pi_ep i) (pi_epAddrs i ∖ {[a]}).

(** ** Lookups *)
(** Whether [nodeCount] calls [devPanicf]. *)
Definition nodeCountOutOfSync (m : peerMap) : bool :=
  negb (size (byNodeKey m) =? size (byNodeID m))%nat.
Definition nodeCount (crash : bool) (m : peerMap) : peerPanic + Z :=
  let n := Z.of_nat (size (byNodeKey m)) in
  if nodeCountOutOfSync m then devPanicf crash devOutOfSync n else inr n.
Lemma nodeCount_inr crash m n : nodeCount crash m = inr n -> n = Z.of_nat (size (byNodeKey m)).
Proof. unfold nodeCount. destruct (nodeCountOutOfSync m); [apply devPanicf_inr|by intros [= <-]]. Qed.
Definition knownPeerDiscoKey (m : peerMap) (dk : DiscoPublic) : bool :=
  match nodesOfDisco m !! dk with Some _ => true | None => false end.
Definition endpointOf (m : peerMap) (p : option nat) : option nat := p ≫= fun p => pi_ep <$> infos m !! p.
Definition endpointForNodeKey (m : peerMap) (nk : NodePublic) : option nat :=
  if bool_decide (nk = zeroNode) then None else endpointOf m (byNodeKey m !! nk).
Definition endpointForNodeID (m : peerMap) (nodeID : Z) : option nat := endpointOf m (byNodeID m !! nodeID).
Definition endpointForEpAddr (m : peerMap) (a : epAddr) : option nat := endpointOf m (byEpAddr m !! a).

Section Ops.
Context `{MapRange} (h : epHeap).

Definition pubOf (ep : nat) : NodePublic := default zeroNode (eo_publicKey <$> h !! ep).

Definition forEachEndpoint (m : peerMap) : list nat :=
  omap (fun x : NodePublic * nat => pi_ep <$> infos m !! x.2) (map_range (byNodeKey m)).
(** The endpoints [forEachEndpointWithDiscoKey] visits, in an order the map decides; a node
    without an entry is skipped. *)
Definition endpointsWithDiscoKey (m : peerMap) (dk : DiscoPublic) : list nat :=
  let nodes := default ∅ (nodesOfDisco m !! dk) in
  omap (fun x : NodePublic * unit => endpointOf m (byNodeKey m !! x.1))
    (map_range (gset_to_gmap tt nodes)).

(** ** [setNodeKeyForEpAddr] *)
Definition setNodeKeyForEpAddr (addr : epAddr) (nk : NodePublic) (m : peerMap) : peerMap :=
  let m :=
    match byEpAddr m !! addr with
    | None => m
    | Some p =>
        let owner := from_option (fun i => pubOf (pi_ep i)) zeroNode (infos m !! p) in
        let m := with_infos (alter (delAddr addr) p) m in
        let m := with_byEpAddr (delete addr) m in
        if VNI.IsSet (vni addr) then with_relay (delete owner) m else m
    end in
  match byNodeKey m !! nk with
  | None => m
  | Some p =>
      let m :=
        if VNI.IsSet (vni addr) then
          let m :=
            match relayEpAddrByNodeKey m !! nk with
            | Some relay => with_byEpAddr (delete relay) (with_infos (alter (delAddr relay) p) m)
            | None => m
            end in
          with_relay <[nk := addr]> m
        else m in
      let m := with_infos (alter (addAddr addr) p) m in
      with_byEpAddr <[addr := p]> m
  end.

(** ** [upsertEndpoint] *)
Definition upsertEndpoint (ep : nat) (oldDiscoKey : DiscoPublic) (m : peerMap) : peerPanic + peerMap :=
  match h !! ep with
  | None => inl panicNilDisco
  | Some e =>
      if eo_nodeID e =? 0 then inl panicZeroNodeID
      else
        let '(m, p) :=
          match byNodeKey m !! eo_publicKey e with
          | Some p => (m, p)
          | None => let '(m, p) := allocInfo (newPeerInfo ep) m in
                    (with_byNodeKey <[eo_publicKey e := p]> m, p)
          end in
        let m := with_byNodeID <[eo_nodeID e := p]> m in
        let m := if bool_decide (eo_disco e = Some oldDiscoKey) then m
                 else with_nodesOfDisco (alter (fun s => s ∖ {[eo_publicKey e]}) oldDiscoKey) m in
        if eo_wgOnly e then
          inr (foldl (fun m (x : AddrPort * _) => setNodeKeyForEpAddr (epAddr_of x.1) (eo_publicKey e) m)
                 m (map_range (endpointStates (eo_state e))))
        else
          match eo_disco e with
          | None => inl panicNilDisco
          | Some dk =>
              let discoSet := default ∅ (nodesOfDisco m !! dk) in
              inr (with_nodesOfDisco <[dk := {[eo_publicKey e]} ∪ discoSet]> m)
          end
  end.

(** ** [deleteEndpoint], but for [stopAndReset], which only changes the endpoint *)
Definition deleteEndpoint (ep : nat) (m : peerMap) : peerMap :=
  match h !! ep with
  | None => m
  | Some e =>
      let p := byNodeKey m !! eo_publicKey e in
      let m := match eo_disco e with
               | Some dk => with_nodesOfDisco (alter (fun s => s ∖ {[eo_publicKey e]}) dk) m
               | None => m
               end in
      let m := with_byNodeKey (delete (eo_publicKey e)) m in
      let m := if bool_decide (endpointForNodeID m (eo_nodeID e) = Some ep)
               then with_byNodeID (delete (eo_nodeID e)) m else m in
      match p with
      | None => m
      | Some p =>
          let addrs := from_option pi_epAddrs ∅ (infos m !! p) in
          let m := with_byEpAddr (fun x => foldr delete x (elements addrs)) m in
          with_relay (delete (eo_publicKey e)) m
      end
  end.
End Ops.

(** ** The invariant

    [idx_ok]: every index is a function of the peers. *)
Record idx_ok (h : epHeap) (m : peerMap) : Prop := {
  ix_key : forall nk p, byNodeKey m !! nk = Some p ->
    exists i e, infos m !! p = Some i /\ h !! pi_ep i = Some e /\ eo_publicKey e = nk;
  ix_addr : forall a p, byEpAddr m !! a = Some p <->
    exists nk i, byNodeKey m !! nk = Some p /\ infos m !! p = Some i /\ a ∈ pi_epAddrs i;
  ix_relay : forall nk a, relayEpAddrByNodeKey m !! nk = Some a <->
    VNI.IsSet (vni a) = true /\ exists p, byNodeKey m !! nk = Some p /\ byEpAddr m !! a = Some p;
  ix_id : forall id p, byNodeID m !! id = Some p <->
    exists nk i e, byNodeKey m !! nk = Some p /\ infos m !! p = Some i /\ h !! pi_ep i = Some e
      /\ eo_nodeID e = id;
  ix_fresh : forall p i, infos m !! p = Some i -> (p < nextInfo m)%nat
}.
(** [disco_ok]: the disco index names the peers that speak disco, under their current key. *)
Definition disco_ok (h : epHeap) (m : peerMap) : Prop :=
  forall dk nk, (exists s, nodesOfDisco m !! dk = Some s /\ nk ∈ s) <->
    exists p i e, byNodeKey m !! nk = Some p /\ infos m !! p = Some i /\ h !! pi_ep i = Some e
      /\ eo_wgOnly e = false /\ eo_disco e = Some dk.
Record pm_ok (h : epHeap) (m : peerMap) : Prop := {
  pm_idx : idx_ok h m;
  pm_disco : disco_ok h m;
  pm_speaks : forall nk p i e, byNodeKey m !! nk = Some p -> infos m !! p = Some i ->
    h !! pi_ep i = Some e -> eo_wgOnly e = false -> is_Some (eo_disco e)
}.

Lemma newPeerMap_ok h : pm_ok h newPeerMap.
Proof.
  split; [split| |]; unfold disco_ok, newPeerMap; simpl; setoid_rewrite lookup_empty; naive_solver.
Qed.

Lemma ix_inj h m nk nk' p :
  idx_ok h m -> byNodeKey m !! nk = Some p -> byNodeKey m !! nk' = Some p -> nk = nk'.
Proof.
  intros Hm A B. destruct (ix_key _ _ Hm _ _ A) as (i & e & Hi & He & <-).
  destruct (ix_key _ _ Hm _ _ B) as (i' & e' & Hi' & He' & <-). congruence.
Qed.

(** The indexes do not depend on what an endpoint can change. *)
Definition same_peers (h h' : epHeap) : Prop :=
  forall ep e, h !! ep = Some e ->
    exists e', h' !! ep = Some e' /\ eo_publicKey e' = eo_publicKey e /\ eo_nodeID e' = eo_nodeID e.
Lemma idx_ok_heap h h' m : same_peers h h' -> idx_ok h m -> idx_ok h' m.
Proof.
  intros Hs Hm. split.
  - intros nk p Hp. destruct (ix_key _ _ Hm _ _ Hp) as (i & e & Hi & He & Hk).
    destruct (Hs _ _ He) as (e' & He' & Hk' & _). exists i, e'. split_and!; congruence.
  - apply (ix_addr _ _ Hm).
  - apply (ix_relay _ _ Hm).
  - intros id p. rewrite (ix_id _ _ Hm). split.
    + intros (nk & i & e & Hp & Hi & He & <-). destruct (Hs _ _ He) as (e' & He' & _ & Hd).
      exists nk, i, e'. done.
    + intros (nk & i & e' & Hp & Hi & He' & <-). destruct (ix_key _ _ Hm _ _ Hp) as (i0 & e & Hi0 & He & _).
      destruct (Hs _ _ He) as (e'' & He'' & _ & Hd). exists nk, i, e. split_and!; congruence.
  - apply (ix_fresh _ _ Hm).
Qed.

(** What changing address sets leaves alone. *)
Definition same_shape (m m' : peerMap) : Prop :=
  byNodeKey m' = byNodeKey m /\ byNodeID m' = byNodeID m /\ nodesOfDisco m' = nodesOfDisco m
  /\ nextInfo m' = nextInfo m /\ (forall p, pi_ep <$> infos m' !! p = pi_ep <$> infos m !! p).
Lemma same_shape_info m m' p i :
  same_shape m m' -> infos m' !! p = Some i -> exists i0, infos m !! p = Some i0 /\ pi_ep i0 = pi_ep i.
Proof.
  intros (_ & _ & _ & _ & EP) Hi. specialize (EP p). rewrite Hi in EP.
  destruct (infos m !! p) as [i0|]; [|done]. injection EP as EP. eauto.
Qed.
Lemma same_shape_sym m m' : same_shape m m' -> same_shape m' m.
Proof. intros (A & B & C & D & E). by split_and!. Qed.
Lemma same_shape_trans m1 m2 m3 : same_shape m1 m2 -> same_shape m2 m3 -> same_shape m1 m3.
Proof.
  intros (A & B & C & D & E) (A' & B' & C' & D' & E'). split_and!; try congruence.
Qed.
Lemma idx_ok_shape h m m' :
  idx_ok h m -> same_shape m m' ->
  (forall a p, byEpAddr m' !! a = Some p <->
    exists nk i, byNodeKey m' !! nk = Some p /\ infos m' !! p = Some i /\ a ∈ pi_epAddrs i) ->
  (forall nk a, relayEpAddrByNodeKey m' !! nk = Some a <->
    VNI.IsSet (vni a) = true /\ exists p, byNodeKey m' !! nk = Some p /\ byEpAddr m' !! a = Some p) ->
  idx_ok h m'.
Proof.
  intros Hm Hs HA HR. pose proof (same_shape_sym _ _ Hs) as Hs'.
  pose proof Hs as (EK & EI & _ & EN & _). split; [|done|done| |].
  - rewrite EK. intros nk p Hp. destruct (ix_key _ _ Hm _ _ Hp) as (i & e & Hi & He & Hk).
    destruct (same_shape_info _ _ _ _ Hs' Hi) as (i0 & Hi0 & Ei). exists i0, e. rewrite Ei. done.
  - rewrite EK, EI. intros id p. rewrite (ix_id _ _ Hm).
    split; intros (nk & i & e & Hp & Hi & He & Hid).
    + destruct (same_shape_info _ _ _ _ Hs' Hi) as (i0 & Hi0 & Ei). exists nk, i0, e. by rewrite Ei.
    + destruct (same_shape_info _ _ _ _ Hs Hi) as (i0 & Hi0 & Ei). exists nk, i0, e. by rewrite Ei.
  - rewrite EN. intros p i Hi. destruct (same_shape_info _ _ _ _ Hs Hi) as (i0 & Hi0 & _). by eapply ix_fresh.
Qed.

(** ** [setNodeKeyForEpAddr] in two steps: take the address from its owner, then give it *)
Definition dropAddr (h : epHeap) (addr : epAddr) (m : peerMap) : peerMap :=
  match byEpAddr m !! addr with
  | None => m
  | Some p =>
      let owner := from_option (fun i => pubOf h (pi_ep i)) zeroNode (infos m !! p) in
      let m := with_infos (alter (delAddr addr) p) m in
      let m := with_byEpAddr (delete addr) m in
      if VNI.IsSet (vni addr) then with_relay (delete owner) m else m
  end.
Definition giveAddr (addr : epAddr) (nk : NodePublic) (p : nat) (m : peerMap) : peerMap :=
  let m := if VNI.IsSet (vni addr) then with_relay <[nk := addr]> m else m in
  with_byEpAddr <[addr := p]> (with_infos (alter (addAddr addr) p) m).

Section Set_.
Context (h : epHeap).
Lemma dropAddr_frame addr m :
  same_shape m (dropAddr h addr m) /\ byEpAddr (dropAddr h addr m) !! addr = None.
Proof.
  unfold dropAddr, same_shape. destruct (byEpAddr m !! addr) as [p|] eqn:E; [|done].
  destruct (VNI.IsSet (vni addr)); cbn; (split_and!; try done; [|by rewrite lookup_delete_eq]);
    intros q; (destruct (decide (p = q)) as [->|]; [rewrite lookup_alter_eq|by rewrite lookup_alter_ne]);
    by destruct (infos m !! q).
Qed.

Lemma dropAddr_addr addr m :
  idx_ok h m -> forall a p, byEpAddr (dropAddr h addr m) !! a = Some p <->
    exists nk i, byNodeKey m !! nk = Some p /\ infos (dropAddr h addr m) !! p = Some i /\ a ∈ pi_epAddrs i.
Proof.
  intros Hm a q. unfold dropAddr. destruct (byEpAddr m !! addr) as [p|] eqn:E; [|apply (ix_addr _ _ Hm)].
  assert (byEpAddr (if VNI.IsSet (vni addr) then
    with_relay (delete (from_option (fun i => pubOf h (pi_ep i)) zeroNode (infos m !! p)))
      (with_byEpAddr (delete addr) (with_infos (alter (delAddr addr) p) m))
    else with_byEpAddr (delete addr) (with_infos (alter (delAddr addr) p) m)) = delete addr (byEpAddr m)) as ->
    by by destruct (VNI.IsSet _).
  assert (infos (if VNI.IsSet (vni addr) then
    with_relay (delete (from_option (fun i => pubOf h (pi_ep i)) zeroNode (infos m !! p)))
      (with_byEpAddr (delete addr) (with_infos (alter (delAddr addr) p) m))
    else with_byEpAddr (delete addr) (with_infos (alter (delAddr addr) p) m)) = alter (delAddr addr) p (infos m)) as ->
    by by destruct (VNI.IsSet _).
  rewrite lookup_delete_Some, (ix_addr _ _ Hm). setoid_rewrite lookup_alter_Some. split.
  - intros (Na & nk & i & Hk & Hi & Ha). exists nk. destruct (decide (p = q)) as [<-|Nq].
    + exists (delAddr addr i). split; [done|]. split; [left; eauto|]. simpl. set_solver.
    + exists i. eauto.
  - intros (nk & i & Hk & [(<- & i0 & Hi & ->)|(Nq & Hi)] & Ha); simpl in Ha.
    + split; [set_solver|]. exists nk, i0. set_solver.
    + split; [|eauto]. intros <-. assert (byEpAddr m !! addr = Some q) by (apply (ix_addr _ _ Hm); eauto). congruence.
Qed.

Lemma dropAddr_sub r m a p : byEpAddr (dropAddr h r m) !! a = Some p -> byEpAddr m !! a = Some p.
Proof.
  unfold dropAddr. destruct (byEpAddr m !! r); [|done].
  destruct (VNI.IsSet (vni r)); cbn; intros [_ ?]%lookup_delete_Some; done.
Qed.
Lemma dropAddr_relay addr m :
  idx_ok h m -> forall nk a, relayEpAddrByNodeKey (dropAddr h addr m) !! nk = Some a <->
    VNI.IsSet (vni a) = true
    /\ exists p, byNodeKey m !! nk = Some p /\ byEpAddr (dropAddr h addr m) !! a = Some p.
Proof.
  intros Hm nk a. unfold dropAddr. destruct (byEpAddr m !! addr) as [p|] eqn:E; [|apply (ix_relay _ _ Hm)].
  destruct (proj1 (ix_addr _ _ Hm _ _) E) as (nk0 & i & Hk0 & Hi & Ha).
  destruct (ix_key _ _ Hm _ _ Hk0) as (i' & e & Hi' & He & Hpk). rewrite Hi in Hi'. injection Hi' as <-.
  rewrite Hi. cbn [from_option]. unfold pubOf. rewrite He. cbn [fmap option_fmap option_map default from_option id].
  destruct (VNI.IsSet (vni addr)) eqn:V; cbn.
  - rewrite lookup_delete_Some, (ix_relay _ _ Hm). setoid_rewrite lookup_delete_Some. split.
    + intros (Nk & Va & q & Hq & Hb). split; [done|]. exists q. split_and!; try done. intros <-.
      apply Nk. simplify_eq. by eapply ix_inj.
    + intros (Va & q & Hq & Na & Hb). split; [|eauto]. intros Ek. apply Na.
      assert (relayEpAddrByNodeKey m !! nk = Some addr) as R1
        by (apply (ix_relay _ _ Hm); rewrite <- Ek, Hpk; eauto).
      assert (relayEpAddrByNodeKey m !! nk = Some a) as R2 by (apply (ix_relay _ _ Hm); eauto).
      congruence.
  - rewrite (ix_relay _ _ Hm). setoid_rewrite lookup_delete_Some. split.
    + intros (Va & q & Hq & Hb). split; [done|]. exists q. split_and!; try done. intros <-. congruence.
    + intros (Va & q & Hq & Na & Hb). eauto.
Qed.

Lemma dropAddr_ok addr m : idx_ok h m -> idx_ok h (dropAddr h addr m).
Proof.
  intros Hm. destruct (dropAddr_frame addr m) as [Hs _]. pose proof Hs as (EK & _).
  apply (idx_ok_shape h m); [done|done| |]; rewrite EK;
    [by apply dropAddr_addr|by apply dropAddr_relay].
Qed.

Lemma giveAddr_shape addr nk p m : same_shape m (giveAddr addr nk p m).
Proof.
  unfold giveAddr, same_shape. destruct (VNI.IsSet (vni addr)); cbn; split_and!; try done;
    intros q; (destruct (decide (p = q)) as [->|]; [rewrite lookup_alter_eq|by rewrite lookup_alter_ne]);
    by destruct (infos m !! q).
Qed.
Lemma giveAddr_ok addr nk p m :
  idx_ok h m -> byEpAddr m !! addr = None -> byNodeKey m !! nk = Some p ->
  (VNI.IsSet (vni addr) = true -> relayEpAddrByNodeKey m !! nk = None) ->
  idx_ok h (giveAddr addr nk p m).
Proof.
  intros Hm E Hk Hr. apply (idx_ok_shape h m); [done|apply giveAddr_shape| |].
  - intros a q. assert (byNodeKey (giveAddr addr nk p m) = byNodeKey m) as -> by apply giveAddr_shape.
    assert (byEpAddr (giveAddr addr nk p m) = <[addr := p]> (byEpAddr m)) as ->
      by (unfold giveAddr; by destruct (VNI.IsSet _)).
    assert (infos (giveAddr addr nk p m) = alter (addAddr addr) p (infos m)) as ->
      by (unfold giveAddr; by destruct (VNI.IsSet _)).
    rewrite lookup_insert_Some, (ix_addr _ _ Hm). setoid_rewrite lookup_alter_Some. split.
    + intros [[<- <-]|(Na & nk' & i & Hk' & Hi & Ha)].
      * destruct (ix_key _ _ Hm _ _ Hk) as (i & e & Hi & _). exists nk, (addAddr addr i). simpl. set_solver.
      * destruct (decide (p = q)) as [<-|]; [exists nk', (addAddr addr i)|exists nk', i]; simpl; set_solver.
    + intros (nk' & i & Hk' & [(<- & i0 & Hi & ->)|(Nq & Hi)] & Ha); simpl in Ha.
      * apply elem_of_union in Ha as [->%elem_of_singleton|Ha]; [by left|]. right. split; [|eauto].
        intros <-. assert (byEpAddr m !! addr = Some p) by (apply (ix_addr _ _ Hm); eauto). congruence.
      * right. split; [|eauto]. intros <-.
        assert (byEpAddr m !! addr = Some q) by (apply (ix_addr _ _ Hm); eauto). congruence.
  - intros nk' a. assert (byNodeKey (giveAddr addr nk p m) = byNodeKey m) as -> by apply giveAddr_shape.
    unfold giveAddr. destruct (VNI.IsSet (vni addr)) eqn:V; cbn.
    + rewrite lookup_insert_Some, (ix_relay _ _ Hm). setoid_rewrite lookup_insert_Some. split.
      * intros [[<- <-]|(Nk & Va & q & Hq & Hb)]; [eauto 6|]. split; [done|]. exists q. split; [done|].
        right. split; [|done]. intros <-. congruence.
      * intros (Va & q & Hq & [[<- <-]|(Na & Hb)]).
        -- left. split; [|done]. by eapply ix_inj.
        -- right. split; [|eauto]. intros <-.
           assert (relayEpAddrByNodeKey m !! nk = Some a) by (apply (ix_relay _ _ Hm); eauto).
           rewrite Hr in H; done.
    + rewrite (ix_relay _ _ Hm). setoid_rewrite lookup_insert_Some. split.
      * intros (Va & q & Hq & Hb). split; [done|]. exists q. split; [done|]. right. split; [|done]. intros <-. congruence.
      * intros (Va & q & Hq & [[<- <-]|(Na & Hb)]); [congruence|eauto].
Qed.
End Set_.

Section Set_ok.
Context (h : epHeap).
Definition dropRelay (addr : epAddr) (nk : NodePublic) (m : peerMap) : peerMap :=
  match (if VNI.IsSet (vni addr) then relayEpAddrByNodeKey m !! nk else None) with
  | Some relay => dropAddr h relay m
  | None => m
  end.
Lemma setNodeKey_steps addr nk m :
  idx_ok h m ->
  setNodeKeyForEpAddr h addr nk m
  = let m := dropAddr h addr m in
    match byNodeKey m !! nk with
    | None => m
    | Some p => giveAddr addr nk p (dropRelay addr nk m)
    end.
Proof.
  intros Hm. unfold setNodeKeyForEpAddr. fold (dropAddr h addr m).
  pose proof (dropAddr_ok h addr m Hm) as H1. cbv zeta. revert H1. generalize (dropAddr h addr m).
  clear Hm m. intros m Hm. destruct (byNodeKey m !! nk) as [p|] eqn:Hk; [|done].
  unfold dropRelay, giveAddr. destruct (VNI.IsSet (vni addr)) eqn:V; [|done].
  destruct (relayEpAddrByNodeKey m !! nk) as [r|] eqn:Hr; [|done].
  destruct (proj1 (ix_relay _ _ Hm _ _) Hr) as (Vr & p' & Hk' & Hb). simplify_eq.
  destruct (ix_key _ _ Hm _ _ Hk) as (i & e & Hi & He & Hpk).
  unfold dropAddr. rewrite Hb, Hi, Vr. cbn [from_option]. unfold pubOf. rewrite He.
  cbn [fmap option_fmap option_map default from_option id]. rewrite Hpk.
  unfold with_relay, with_byEpAddr, with_infos. cbn. by rewrite insert_delete_eq.
Qed.

Lemma setNodeKey_ok addr nk m :
  idx_ok h m -> idx_ok h (setNodeKeyForEpAddr h addr nk m)
  /\ same_shape m (setNodeKeyForEpAddr h addr nk m).
Proof.
  intros Hm. rewrite setNodeKey_steps by done. cbv zeta.
  destruct (dropAddr_frame h addr m) as [S1 E1]. pose proof (dropAddr_ok h addr m Hm) as H1.
  revert S1 E1 H1. generalize (dropAddr h addr m). intros m1 S1 E1 H1.
  destruct (byNodeKey m1 !! nk) as [p|] eqn:Hk; [|done].
  assert (idx_ok h (dropRelay addr nk m1) /\ same_shape m1 (dropRelay addr nk m1)
    /\ byEpAddr (dropRelay addr nk m1) !! addr = None
    /\ (VNI.IsSet (vni addr) = true -> relayEpAddrByNodeKey (dropRelay addr nk m1) !! nk = None))
    as (H2 & S2 & E2 & R2).
  { unfold dropRelay. destruct (VNI.IsSet (vni addr)); [|done].
    destruct (relayEpAddrByNodeKey m1 !! nk) as [r|] eqn:Hr; [|done].
    destruct (dropAddr_frame h r m1) as [S2 E2]. pose proof (dropAddr_ok h r m1 H1) as H2.
    split_and!; [done|done| |].
    - destruct (byEpAddr (dropAddr h r m1) !! addr) as [q|] eqn:X; [|done].
      apply (dropAddr_sub h r) in X. congruence.
    - intros _. destruct (relayEpAddrByNodeKey (dropAddr h r m1) !! nk) as [a|] eqn:X; [|done].
      apply (ix_relay _ _ H2) in X as (Va & q & Hq & Hb).
      pose proof S2 as (EK & _). rewrite EK in Hq. apply (dropAddr_sub h r) in Hb as Hb1.
      assert (relayEpAddrByNodeKey m1 !! nk = Some a) as Y by (apply (ix_relay _ _ H1); eauto).
      simplify_eq. }
  split.
  - apply giveAddr_ok; try done. pose proof S2 as (EK & _). by rewrite EK.
  - eapply same_shape_trans; [exact S1|]. eapply same_shape_trans; [exact S2|]. apply giveAddr_shape.
Qed.

(** The address now leads to the node, and no other address moved except the relay address it
    replaces. *)
Lemma setNodeKey_lookup addr nk m :
  idx_ok h m -> is_Some (byNodeKey m !! nk) ->
  byEpAddr (setNodeKeyForEpAddr h addr nk m) !! addr = byNodeKey m !! nk.
Proof.
  intros Hm [p Hp]. rewrite setNodeKey_steps by done. cbv zeta.
  destruct (dropAddr_frame h addr m) as [(EK & _) _]. rewrite EK, Hp. unfold giveAddr.
  destruct (VNI.IsSet (vni addr)); cbn; by rewrite lookup_insert_eq.
Qed.
End Set_ok.

(** ** [deleteEndpoint] *)

(** [is_peer h m nk ep e]: the node [nk] is known, by the endpoint [ep], the object [e]. *)
Definition is_peer (h : epHeap) (m : peerMap) (nk : NodePublic) (ep : nat) (e : epObj) : Prop :=
  exists p i, byNodeKey m !! nk = Some p /\ infos m !! p = Some i /\ pi_ep i = ep
    /\ h !! ep = Some e /\ eo_publicKey e = nk.

Lemma lookup_foldr_delete_Some {A} (l : list epAddr) (m : gmap epAddr A) a x :
  foldr delete m l !! a = Some x <-> a ∉ l /\ m !! a = Some x.
Proof.
  induction l as [|b l IH]; simpl; [set_solver|]. rewrite lookup_delete_Some, IH. set_solver.
Qed.

Section Delete.
Context (h : epHeap) (m : peerMap) (nk : NodePublic) (ep : nat) (e : epObj).
Hypotheses (Hm : pm_ok h m) (Hp : is_peer h m nk ep e).

Lemma delete_byNodeID :
  endpointForNodeID (with_byNodeKey (delete nk) m) (eo_nodeID e) = Some ep.
Proof.
  destruct Hp as (p & i & Hk & Hi & Hep & He & Hpk). unfold endpointForNodeID, endpointOf. cbn.
  assert (byNodeID m !! eo_nodeID e = Some p) as ->
    by (apply (ix_id _ _ (pm_idx _ _ Hm)); exists nk, i, e; rewrite Hep; done).
  simpl. rewrite Hi. simpl. by rewrite Hep.
Qed.

(** What [deleteEndpoint] leaves, index by index. *)
Lemma deleteEndpoint_eq :
  exists p i, byNodeKey m !! nk = Some p /\ infos m !! p = Some i /\ pi_ep i = ep /\
  deleteEndpoint h ep m
  = MkPeerMap (infos m) (nextInfo m) (delete nk (byNodeKey m))
      (foldr delete (byEpAddr m) (elements (pi_epAddrs i)))
      (delete (eo_nodeID e) (byNodeID m)) (delete nk (relayEpAddrByNodeKey m))
      (match eo_disco e with
       | Some dk => alter (fun s => s ∖ {[nk]}) dk (nodesOfDisco m)
       | None => nodesOfDisco m
       end).
Proof.
  pose proof delete_byNodeID as Hid. destruct Hp as (p & i & Hk & Hi & Hep & He & Hpk).
  exists p, i. split_and!; try done. unfold deleteEndpoint. rewrite He, Hpk, Hk.
  destruct (eo_disco e); cbn; unfold endpointForNodeID, endpointOf in *; cbn in *;
    rewrite bool_decide_true by done; cbn; by rewrite Hi.
Qed.

Lemma deleteEndpoint_idx : idx_ok h (deleteEndpoint h ep m).
Proof.
  pose proof (pm_idx _ _ Hm) as Hx. destruct Hp as (p & i & Hk & Hi & Hep & He & Hpk).
  destruct deleteEndpoint_eq as (p' & i' & Hk' & Hi' & _ & ->). simplify_eq. split; cbn.
  - intros nk' q [_ Hq]%lookup_delete_Some. by apply (ix_key _ _ Hx).
  - intros a q. rewrite lookup_foldr_delete_Some, (ix_addr _ _ Hx), elem_of_elements.
    setoid_rewrite lookup_delete_Some. split.
    + intros (Na & nk' & j & Hk' & Hj & Ha). exists nk', j. split_and!; try done. intros <-. congruence.
    + intros (nk' & j & (Nk & Hk') & Hj & Ha). split; [|eauto]. intros Ha'.
      assert (byEpAddr m !! a = Some p) as X by (apply (ix_addr _ _ Hx); eauto).
      assert (byEpAddr m !! a = Some q) as Y by (apply (ix_addr _ _ Hx); eauto).
      simplify_eq. apply Nk. by eapply ix_inj.
  - intros nk' a. rewrite lookup_delete_Some, (ix_relay _ _ Hx). setoid_rewrite lookup_delete_Some.
    setoid_rewrite lookup_foldr_delete_Some. setoid_rewrite elem_of_elements. split.
    + intros (Nk & Va & q & Hq & Ha). split; [done|]. exists q. split_and!; try done. intros Ha'.
      assert (byEpAddr m !! a = Some p) as X by (apply (ix_addr _ _ Hx); eauto).
      simplify_eq. apply Nk. by eapply ix_inj.
    + intros (Va & q & [Nk Hq] & _ & Ha). eauto.
  - intros id q. rewrite lookup_delete_Some, (ix_id _ _ Hx). setoid_rewrite lookup_delete_Some. split.
    + intros (Nid & nk' & j & e' & Hk' & Hj & He' & Hid). exists nk', j, e'. split_and!; try done.
      intros <-. simplify_eq.
    + intros (nk' & j & e' & [Nk Hk'] & Hj & He' & <-). split; [|eauto 10]. intros Eid.
      assert (byNodeID m !! eo_nodeID e = Some p) as X by (apply (ix_id _ _ Hx); eauto 10).
      assert (byNodeID m !! eo_nodeID e' = Some q) as Y by (apply (ix_id _ _ Hx); eauto 10).
      rewrite <- Eid in Y. simplify_eq. apply Nk. by eapply ix_inj.
  - apply (ix_fresh _ _ Hx).
Qed.

Lemma deleteEndpoint_disco : disco_ok h (deleteEndpoint h ep m).
Proof.
  pose proof (pm_disco _ _ Hm) as Hd. pose proof (pm_idx _ _ Hm) as Hx.
  destruct Hp as (p & i & Hk & Hi & Hep & He & Hpk).
  destruct deleteEndpoint_eq as (p' & i' & Hk' & Hi' & _ & ->). simplify_eq.
  intros dk nk'. cbn. setoid_rewrite lookup_delete_Some.
  transitivity (eo_publicKey e <> nk' /\ exists s, nodesOfDisco m !! dk = Some s /\ nk' ∈ s).
  - destruct (eo_disco e) as [dk'|] eqn:Ed.
    + setoid_rewrite lookup_alter_Some. split.
      * intros (s & [(<- & s0 & Hs & ->)|(N & Hs)] & Hin).
        -- split; [set_solver|]. exists s0. set_solver.
        -- split; [|eauto]. intros <-. destruct (proj1 (Hd dk (eo_publicKey e))) as (q & j & e' & Hq & Hj & He' & _ & Hdk); [eauto|].
           simplify_eq.
      * intros (Nk & s & Hs & Hin). destruct (decide (dk' = dk)) as [<-|N]; [|eauto].
        exists (s ∖ {[eo_publicKey e]}). split; [left; eauto|set_solver].
    + split; [|naive_solver]. intros (s & Hs & Hin). split; [|eauto]. intros <-.
      destruct (proj1 (Hd dk (eo_publicKey e))) as (q & j & e' & Hq & Hj & He' & _ & Hdk); [eauto|]. simplify_eq.
  - rewrite (Hd dk nk'). naive_solver.
Qed.

Lemma deleteEndpoint_ok :
  pm_ok h (deleteEndpoint h ep m) /\ byNodeKey (deleteEndpoint h ep m) = delete nk (byNodeKey m)
  /\ infos (deleteEndpoint h ep m) = infos m
  /\ byNodeID (deleteEndpoint h ep m) = delete (eo_nodeID e) (byNodeID m).
Proof.
  split; [split; [apply deleteEndpoint_idx|apply deleteEndpoint_disco|]|].
  - destruct deleteEndpoint_eq as (p & i & _ & _ & _ & ->). cbn.
    intros nk' q j e' [_ Hq]%lookup_delete_Some. by apply (pm_speaks _ _ Hm nk').
  - by destruct deleteEndpoint_eq as (p & i & _ & _ & _ & ->).
Qed.
End Delete.

(** ** [upsertEndpoint] *)
Definition in_disco (N : gmap DiscoPublic (gset NodePublic)) (dk : DiscoPublic) (nk : NodePublic) : Prop :=
  exists s, N !! dk = Some s /\ nk ∈ s.
Definition speaks (h : epHeap) (m : peerMap) (nk : NodePublic) (dk : DiscoPublic) : Prop :=
  exists p i e, byNodeKey m !! nk = Some p /\ infos m !! p = Some i /\ h !! pi_ep i = Some e
    /\ eo_wgOnly e = false /\ eo_disco e = Some dk.
Lemma in_disco_remove N dk0 pk dk nk :
  in_disco (alter (fun s => s ∖ {[pk]}) dk0 N) dk nk <-> in_disco N dk nk /\ (nk = pk -> dk <> dk0).
Proof.
  unfold in_disco. setoid_rewrite lookup_alter_Some. split.
  - intros (s & [(<- & s0 & Hs & ->)|(N' & Hs)] & Hin); set_solver.
  - intros ((s & Hs & Hin) & Hn). destruct (decide (dk0 = dk)) as [<-|Nd]; [|eauto].
    exists (s ∖ {[pk]}). split; [eauto|]. set_solver.
Qed.
Lemma in_disco_add N dk0 pk dk nk :
  in_disco (<[dk0 := {[pk]} ∪ default ∅ (N !! dk0)]> N) dk nk <-> in_disco N dk nk \/ nk = pk /\ dk = dk0.
Proof.
  unfold in_disco. setoid_rewrite lookup_insert_Some. split.
  - intros (s & [[<- <-]|[Nd Hs]] & Hin); [|eauto].
    apply elem_of_union in Hin as [->%elem_of_singleton|Hin]; [eauto|].
    destruct (N !! dk0) as [s0|]; simpl in Hin; [eauto|set_solver].
  - intros [(s & Hs & Hin)|[-> ->]].
    + destruct (decide (dk0 = dk)) as [<-|]; [|eauto]. rewrite Hs. simpl. eexists. split; [by left|set_solver].
    + eexists. split; [by left|set_solver].
Qed.

(** A new [peerInfo] for an endpoint no index knows. *)
Definition addPeer (ep : nat) (e : epObj) (m : peerMap) : peerMap :=
  with_byNodeID <[eo_nodeID e := nextInfo m]>
    (with_byNodeKey <[eo_publicKey e := nextInfo m]> (allocInfo (newPeerInfo ep) m).1).
Lemma nextInfo_unused h m :
  idx_ok h m -> (forall nk, byNodeKey m !! nk <> Some (nextInfo m))
                /\ (forall a, byEpAddr m !! a <> Some (nextInfo m)).
Proof.
  intros Hx. assert (forall nk, byNodeKey m !! nk <> Some (nextInfo m)) as Hk.
  { intros nk Hk. destruct (ix_key _ _ Hx _ _ Hk) as (i & ? & Hi & _). apply (ix_fresh _ _ Hx) in Hi. lia. }
  split; [done|]. intros a Ha. apply (ix_addr _ _ Hx) in Ha as (nk & i & Hn & _). by apply Hk in Hn.
Qed.
Lemma addPeer_ok h ep e m :
  idx_ok h m -> h !! ep = Some e -> byNodeKey m !! eo_publicKey e = None ->
  byNodeID m !! eo_nodeID e = None ->
  idx_ok h (addPeer ep e m) /\ is_peer h (addPeer ep e m) (eo_publicKey e) ep e.
Proof.
  intros Hx He Nk Nid. pose proof (ix_fresh _ _ Hx) as Hf. destruct (nextInfo_unused _ _ Hx) as [Hfk Hfa].
  assert (forall nk q, <[eo_publicKey e := nextInfo m]> (byNodeKey m) !! nk = Some q /\ q <> nextInfo m
    <-> byNodeKey m !! nk = Some q) as Hold.
  { intros nk q. rewrite lookup_insert_Some. split; [naive_solver|]. intros Hq.
    split; [right; split; [congruence|done]|]. intros E. apply (Hfk nk). congruence. }
  unfold addPeer, allocInfo. split; [split; cbn|].
  - intros nk q. rewrite lookup_insert_Some. intros [[<- <-]|[Nn Hq]].
    + exists (newPeerInfo ep), e. by rewrite lookup_insert_eq.
    + destruct (ix_key _ _ Hx _ _ Hq) as (i & e' & Hi & He' & Hpk). exists i, e'.
      rewrite (lookup_insert_ne (infos m)); [done|]. intros E. apply (Hfk nk). congruence.
  - intros a q. rewrite (ix_addr _ _ Hx). split.
    + intros (nk & i & Hk & Hi & Ha). exists nk, i. rewrite (lookup_insert_ne (infos m)).
      * by apply Hold in Hk as [? _].
      * intros E. apply (Hfk nk). congruence.
    + intros (nk & i & Hk & Hi & Ha). destruct (decide (q = nextInfo m)) as [->|Nq].
      * rewrite lookup_insert_eq in Hi. simplify_eq. simpl in Ha. set_solver.
      * exists nk, i. rewrite lookup_insert_ne in Hi by done. by rewrite <- Hold.
  - intros nk a. rewrite (ix_relay _ _ Hx). split; intros (Va & q & Hk & Ha); (split; [done|]); exists q.
    + split; [|done]. by apply Hold in Hk as [? _].
    + split; [|done]. apply Hold. split; [done|]. intros ->. by apply Hfa in Ha.
  - intros id q. rewrite lookup_insert_Some, (ix_id _ _ Hx). split.
    + intros [[<- <-]|(Ni & nk & i & e' & Hk & Hi & He' & Hid)].
      * exists (eo_publicKey e), (newPeerInfo ep), e. by rewrite !lookup_insert_eq.
      * exists nk, i, e'. rewrite (lookup_insert_ne (infos m)).
        -- by apply Hold in Hk as [? _].
        -- intros E. apply (Hfk nk). congruence.
    + intros (nk & i & e' & Hk & Hi & He' & Hid). destruct (decide (q = nextInfo m)) as [->|Nq].
      * rewrite lookup_insert_eq in Hi. simplify_eq. simpl in He'. simplify_eq. by left.
      * rewrite lookup_insert_ne in Hi by done.
        assert (byNodeKey m !! nk = Some q) as Hk' by by apply Hold. right. split; [|eauto 10].
        intros <-. assert (byNodeID m !! eo_nodeID e' = Some q) by (apply (ix_id _ _ Hx); eauto 10). congruence.
  - intros q i. rewrite lookup_insert_Some. intros [[<- _]|[_ Hi%Hf]]; lia.
  - exists (nextInfo m), (newPeerInfo ep). cbn. by rewrite !lookup_insert_eq.
Qed.

(** The part of [upsertEndpoint] after the peer is in the key and id indexes. *)
Definition upsertDisco `{MapRange} (h : epHeap) (e : epObj) (oldDiscoKey : DiscoPublic) (m : peerMap)
  : peerPanic + peerMap :=
  let m := if bool_decide (eo_disco e = Some oldDiscoKey) then m
           else with_nodesOfDisco (alter (fun s => s ∖ {[eo_publicKey e]}) oldDiscoKey) m in
  if eo_wgOnly e then
    inr (foldl (fun m (x : AddrPort * _) => setNodeKeyForEpAddr h (epAddr_of x.1) (eo_publicKey e) m)
           m (map_range (endpointStates (eo_state e))))
  else
    match eo_disco e with
    | None => inl panicNilDisco
    | Some dk =>
        let discoSet := default ∅ (nodesOfDisco m !! dk) in
        inr (with_nodesOfDisco <[dk := {[eo_publicKey e]} ∪ discoSet]> m)
    end.

Section UpsertDisco.
Context `{MapRange} (h : epHeap).

Lemma foldl_setNodeKey_ok {A} (l : list (AddrPort * A)) nk m :
  idx_ok h m ->
  let m' := foldl (fun m x => setNodeKeyForEpAddr h (epAddr_of x.1) nk m) m l in
  idx_ok h m' /\ same_shape m m'.
Proof.
  revert m. induction l as [|x l IH]; intros m Hm; simpl; [done|].
  destruct (setNodeKey_ok h (epAddr_of x.1) nk m Hm) as [H1 S1].
  destruct (IH _ H1) as [H2 S2]. split; [done|]. by eapply same_shape_trans.
Qed.

Lemma idx_ok_nodesOfDisco f m : idx_ok h m -> idx_ok h (with_nodesOfDisco f m).
Proof. intros []. by split. Qed.

Lemma speaks_shape m m' nk dk : same_shape m m' -> speaks h m' nk dk <-> speaks h m nk dk.
Proof.
  assert (forall m m', same_shape m m' -> speaks h m' nk dk -> speaks h m nk dk) as Dir.
  { intros m1 m2 Hs (p & i & e & Hp & Hi & He & Hr). pose proof Hs as (EK & _). rewrite EK in Hp.
    destruct (same_shape_info _ _ _ _ Hs Hi) as (i0 & Hi0 & Ei). exists p, i0, e. by rewrite Ei. }
  intros Hs. split; [by apply Dir|]. by apply Dir, same_shape_sym.
Qed.

(** The disco index is right for every other peer, and holds this one at most under [old]. *)
Definition disco_else (e : epObj) (ok : DiscoPublic -> Prop) (m : peerMap) : Prop :=
  (forall dk nk, nk <> eo_publicKey e -> in_disco (nodesOfDisco m) dk nk <-> speaks h m nk dk)
  /\ (forall dk, in_disco (nodesOfDisco m) dk (eo_publicKey e) -> ok dk /\ eo_wgOnly e = false).
Definition removeOld (e : epObj) (old : DiscoPublic) (m : peerMap) : peerMap :=
  if bool_decide (eo_disco e = Some old) then m
  else with_nodesOfDisco (alter (fun s => s ∖ {[eo_publicKey e]}) old) m.
Lemma removeOld_ok e old m :
  idx_ok h m -> disco_else e (fun dk => dk = old) m ->
  idx_ok h (removeOld e old m) /\ same_shape m (with_nodesOfDisco (fun _ => nodesOfDisco m) (removeOld e old m))
  /\ disco_else e (fun dk => eo_disco e = Some dk) (removeOld e old m).
Proof.
  intros Hx [Ho Hs]. unfold removeOld. case_bool_decide as B.
  - split_and!; try done. split; [done|]. intros dk [-> ?]%Hs. done.
  - split_and!; try done; [by apply idx_ok_nodesOfDisco|]. split; cbn.
    + intros dk nk Nk. change (speaks h _ nk dk) with (speaks h m nk dk).
      rewrite <- (Ho dk nk Nk), in_disco_remove. naive_solver.
    + intros dk. rewrite in_disco_remove. intros [[-> ?]%Hs N]. by destruct N.
Qed.

Lemma speaks_self m e ep dk :
  is_peer h m (eo_publicKey e) ep e ->
  speaks h m (eo_publicKey e) dk <-> eo_wgOnly e = false /\ eo_disco e = Some dk.
Proof.
  intros (p & i & Hk & Hi & Hep & He & _). unfold speaks. split; [|naive_solver].
  intros (q & j & e' & Hq & Hj & He' & W & D). simplify_eq. done.
Qed.
(** Once the peer is in no wrong set, it is enough to put it in the right one. *)
Lemma disco_else_ok e ep m :
  is_peer h m (eo_publicKey e) ep e -> disco_else e (fun dk => eo_disco e = Some dk) m ->
  (forall dk, eo_wgOnly e = false -> eo_disco e = Some dk -> in_disco (nodesOfDisco m) dk (eo_publicKey e)) ->
  disco_ok h m.
Proof.
  intros Hp [Ho Hs] Hin dk nk. fold (in_disco (nodesOfDisco m) dk nk) (speaks h m nk dk).
  destruct (decide (nk = eo_publicKey e)) as [->|Nk]; [|by apply Ho].
  rewrite speaks_self by done. naive_solver.
Qed.

Lemma upsertDisco_ok e ep old m m' :
  idx_ok h m -> is_peer h m (eo_publicKey e) ep e -> disco_else e (fun dk => dk = old) m ->
  upsertDisco h e old m = inr m' ->
  idx_ok h m' /\ disco_ok h m' /\ same_shape m (with_nodesOfDisco (fun _ => nodesOfDisco m) m')
  /\ (eo_wgOnly e = false -> is_Some (eo_disco e)).
Proof.
  intros Hx Hp Hd. unfold upsertDisco. fold (removeOld e old m).
  destruct (removeOld_ok e old m Hx Hd) as (Hx1 & Sh1 & Hd1).
  assert (is_peer h (removeOld e old m) (eo_publicKey e) ep e) as Hp1
    by (unfold removeOld; by case_bool_decide).
  revert Hx1 Sh1 Hd1 Hp1. generalize (removeOld e old m). clear Hx Hp Hd old.
  intros m1 Hx1 Sh1 Hd1 Hp1. destruct (eo_wgOnly e) eqn:W.
  - intros [= <-]. set (l := map_range _).
    destruct (foldl_setNodeKey_ok l (eo_publicKey e) m1 Hx1) as [Hx2 Sh2].
    set (m2 := foldl _ _ _) in *. pose proof Sh2 as (EK2 & EI2 & ED2 & EN2 & EP2).
    split_and!; [done| | |done].
    + apply (disco_else_ok e ep); [|destruct Hd1 as [Ho Hs]; split; rewrite ED2|congruence].
      * destruct Hp1 as (p & i & Hk & Hi & Hr).
        destruct (same_shape_info _ _ _ _ (same_shape_sym _ _ Sh2) Hi) as (i0 & Hi0 & Ei).
        exists p, i0. rewrite EK2, Ei. done.
      * intros dk nk Nk. rewrite (speaks_shape m1) by done. by apply Ho.
      * done.
    + destruct Sh1 as (? & ? & _ & ? & E1). split_and!; cbn in *; try congruence.
  - destruct (eo_disco e) as [dk0|] eqn:D; [|done]. intros [= <-]. split_and!; [by apply idx_ok_nodesOfDisco| |exact Sh1|done].
    apply (disco_else_ok e ep); [done|destruct Hd1 as [Ho Hs]; split; cbn|]; rewrite ?D.
    + intros dk nk Nk. rewrite in_disco_add. change (speaks h _ nk dk) with (speaks h m1 nk dk).
      rewrite (Ho dk nk Nk). naive_solver.
    + intros dk. rewrite in_disco_add. intros [?%Hs|[_ ->]]; [naive_solver|done].
    + intros dk _ [= <-]. cbn. rewrite in_disco_add. by right.
Qed.
End UpsertDisco.
