(* ===== verification/Endpoint.v ===== *)
(** * The handlers of a peer's [endpoint] (endpoint.go)

    Discovery pings and their replies, the candidate addresses of the peer and where they
    come from (network map, incoming pings, call-me-maybe messages), heartbeats and the
    lifetime probe, and the resets. Ranging over a Go map while entries are deleted or
    updated visits each key once and every handler touches only the key it visits, so the
    loops run over the entries the map had at the start. *)
From S2P Require Import Prelude Netip Bytes Knobs ProbeManager SourceSockets ActivePaths.
From S2P Require Import EndpointState UdpLifetime BetterAddr EndpointRecord.

Definition discoPingInterval : Z := 5 * Second.
Definition wireguardPingInterval : Z := 5 * Second.
Definition upgradeUDPDirectInterval : Z := Minute.
Definition upgradeUDPRelayInterval : Z := Minute.
Definition discoverUDPRelayPathsInterval : Z := 30 * Second.
Definition goodEnoughLatency : Z := 5 * Millisecond.

Definition upd_state (ep : AddrPort) (f : endpointState -> endpointState) (e : endpoint) : endpoint :=
  with_endpointStates (alter f ep (endpointStates e)) e.
Definition upd_best (f : bestState -> bestState) (e : endpoint) : endpoint := with_best (f (best e)) e.
Definition upd_probe (f : probeUDPLifetime -> probeUDPLifetime) (e : endpoint) : endpoint :=
  upd_best (fun b => set_probe b (f <$> probe b)) e.
Definition bestEp (e : endpoint) : epAddr := aq_ep (bestAddr (best e)).

Definition noteTxActivityExtTriggerLocked (now : Z) (e : endpoint) : endpoint :=
  let e := with_lastSendExt now e in
  if negb (heartBeatTimer e) && negb (heartbeatDisabled e) then with_heartBeatTimer true e else e.

Definition deleteEndpointLocked (ep : AddrPort) (e : endpoint) : endpoint :=
  let e := with_endpointStates (delete ep (endpointStates e)) e in
  let asEpAddr := epAddr_of ep in
  let e := with_remoteSlots
    (map (fun slot : epAddr * Z => if bool_decide (slot.1 = asEpAddr) then (zeroEpAddr, 0) else slot)
         (remoteSlots e)) e in
  if bool_decide (bestEp e = asEpAddr) then upd_best (fun b => setBestAddrLocked b zeroAQ) e else e.

Section Handlers.
Context `{MapRange} `{Platform} (env : Env).
Notation k := (e_knobs env).

(** ** Lifetime probing *)
Definition wallSince (t : option Z) : Z :=
  match t with None => 2 ^ 63 - 1 | Some t => e_wall env - t end.

(** [None]: the cliff index is out of range and the code panics; otherwise how long the
    path must be silent, if it is a candidate for probing at all. *)
Definition maybeProbeUDPLifetimeLocked (e : endpoint) : option (option Z) :=
  match probe (best e) with
  | None => Some None
  | Some p =>
      if negb (IsValid (ap (bestEp e))) then Some None
      else match disco e with
      | None => Some None
      | Some key =>
          if 0 <=? Compare (e_selfDisco env) key then Some None
          else if negb (cycleActive p) && (wallSince (cycleStartedAt p) <? CycleCanStartEvery (config p))
          then Some None
          else match currentCliffDurationEndpointLocked (Some p) with
          | None => None
          | Some d =>
              let afterInactivityFor := i64 (d - udpLifetimeProbeCliffSlack) in
              if afterInactivityFor <? 0 then Some None else Some (Some afterInactivityFor)
          end
      end
  end.

Definition scheduleHeartbeatForLifetimeLocked : M unit :=
  p ← gets (fun e => probe (best e));
  match p with
  | None => skip
  | Some p =>
      match currentCliffDurationEndpointLocked (Some p) with
      | None => emit APanic
      | Some _ =>
          modify (fun e => upd_probe (fun p =>
            MkLifetime (config p) true (bestEp e) (cycleStartedAt p) (cycleActive p)
                       (currentCliff p) (lastTxID p)) e)
      end
  end.

Definition probeUDPLifetimeCliffDoneLocked (result : discoPingResult) (txid : TxID) : M unit :=
  p ← gets (fun e => probe (best e));
  match p with
  | None => skip
  | Some p =>
      if negb (cycleActive p) || timer p || negb (bool_decide (txid = lastTxID p)) then skip
      else if negb (bool_decide (result = discoPongReceived))
              || (Z.of_nat (length (Cliffs (config p))) - 1 <=? currentCliff p) then
        let maxCliffIndex :=
          if bool_decide (result = discoPongReceived) then currentCliff p else currentCliff p - 1 in
        if (0 <=? maxCliffIndex) && isNone (Cliffs (config p) !! Z.to_nat maxCliffIndex) then emit APanic
        else modify (upd_probe resetCycle)
      else
        modify (upd_probe (fun p =>
          MkLifetime (config p) (timer p) (pl_bestAddr p) (cycleStartedAt p) (cycleActive p)
                     (currentCliff p + 1) (lastTxID p))) ;;
        after ← gets maybeProbeUDPLifetimeLocked;
        match after with
        | None => emit APanic
        | Some after => if isNone after then skip else scheduleHeartbeatForLifetimeLocked
        end
  end.

(** ** Sending pings *)
Definition removeSentDiscoPingLocked (txid : TxID) (sp : sentPing) (result : discoPingResult) : M unit :=
  when (bool_decide (sp_purpose sp = pingHeartbeatForUDPLifetime))
       (probeUDPLifetimeCliffDoneLocked result txid) ;;
  modify (fun e => with_sentPings (delete txid (sentPings e)) e).

Definition pingSizes (ep : epAddr) (purpose : discoPingPurpose) (size : Z) : list Z :=
  let isDerp := bool_decide (ip (ap ep) = DerpMagicIPAddr) in
  if e_peerMTU env && negb isDerp
     && (bool_decide (purpose = pingDiscovery)
         || (bool_decide (purpose = pingCLI) && (size =? 0)))
  then (if Is6 (ip (ap ep)) then mtuProbePingSizesV6 else mtuProbePingSizesV4)
  else [size].

(** One round of the loop over the sizes. *)
Definition sendOnePing (ep : epAddr) (key : DiscoPublic) now (purpose : discoPingPurpose)
    (resCB : option nat) (s : Z) : M unit :=
  n ← fresh;
  let txid := e_newTxID env n in
  modify (fun e => with_sentPings (<[txid := MkSentPing ep now purpose s resCB]> (sentPings e)) e) ;;
  when (bool_decide (purpose = pingHeartbeatForUDPLifetime))
       (modify (upd_probe (fun p => set_lastTxID p txid))) ;;
  emit (ASendDiscoPing ep key txid s) ;;
  when (negb (bool_decide (purpose = pingCLI)) && isDirect ep)
       (forM (sourcePathProbeSources k (Is4 (ip (ap ep))) (e_sockets env)) (fun source =>
          n ← fresh; emit (ASourcePathPing source ep key (e_newTxID env n) s))).

Definition startDiscoPingLocked (ep : epAddr) (now : Z) (purpose : discoPingPurpose) (size : Z)
    (resCB : option nat) : M unit :=
  if e_js env then skip
  else if e_neverDirectUDP env && negb (VNI.IsSet (vni ep))
          && negb (bool_decide (ip (ap ep) = DerpMagicIPAddr)) then skip
  else
  d ← gets disco;
  match d with
  | None => skip
  | Some key =>
      let tracked := negb (bool_decide (purpose = pingCLI)) && negb (VNI.IsSet (vni ep)) in
      st ← gets (fun e => endpointStates e !! ap ep);
      if tracked && isNone st then skip
      else
        when tracked (modify (upd_state (ap ep) (fun st => set_lastPing st now))) ;;
        when (bool_decide (purpose = pingCLI)) (modify (noteTxActivityExtTriggerLocked now)) ;;
        modify (with_lastSendAny now) ;;
        forM (pingSizes ep purpose size) (sendOnePing ep key now purpose resCB)
  end.

(** The loop of [sendDiscoPingsLocked]; the result is [sentAny]. *)
Fixpoint pingLoop (now : Z) (l : list (AddrPort * endpointState)) (sentAny : bool) : M bool :=
  match l with
  | [] => mret sentAny
  | (ep, st) :: l' =>
      if shouldDeleteLocked (e_wall env) st then
        modify (deleteEndpointLocked ep) ;; pingLoop now l' sentAny
      else if e_js env then pingLoop now l' sentAny
      else if negb (Mono.IsZero (lastPing st)) && (Mono.Sub now (lastPing st) <? discoPingInterval)
      then pingLoop now l' sentAny
      else startDiscoPingLocked (epAddr_of ep) now pingDiscovery 0 None ;; pingLoop now l' true
  end.
Definition sendDiscoPingsLocked (now : Z) (sendCallMeMaybe : bool) : M unit :=
  modify (with_lastFullPing now) ;;
  l ← gets (fun e => map_range (endpointStates e));
  sentAny ← pingLoop now l false;
  derp ← gets derpAddr;
  when (sentAny && sendCallMeMaybe && IsValid derp) (emit (ACallMeMaybe derp)).

Definition discoPingTimeout (txid : TxID) : M unit :=
  sp ← gets (fun e => sentPings e !! txid);
  match sp with
  | None => skip
  | Some sp =>
      modify (fun e =>
        if bool_decide (sp_to sp = bestEp e) && bestUntrusted (best e) (e_now env)
        then upd_best clearBestAddrLocked e else e) ;;
      removeSentDiscoPingLocked txid sp discoPingTimedOut
  end.
Definition forgetDiscoPing (txid : TxID) : M unit :=
  sp ← gets (fun e => sentPings e !! txid);
  match sp with
  | None => skip
  | Some sp => removeSentDiscoPingLocked txid sp discoPingFailed
  end.

(** ** Where candidate addresses come from *)
(** The loop over the network map's endpoints; [i] is the position. *)
Fixpoint noteNetmapEndpoints (i : Z) (eps : list AddrPort) (m : gmap AddrPort endpointState)
  : gmap AddrPort endpointState :=
  match eps with
  | [] => m
  | ipp :: eps' =>
      if 32767 <? i then m
      else if negb (IsValid ipp) || omitEndpointAddrPort k ipp then noteNetmapEndpoints (i + 1) eps' m
      else noteNetmapEndpoints (i + 1) eps'
             (<[ipp := set_index (default zeroES (m !! ipp)) i]> m)
  end.
(** The loops that delete what [shouldDeleteLocked] picks. *)
Definition deleteStale (e : endpoint) : endpoint :=
  foldl (fun e (x : AddrPort * endpointState) =>
           if shouldDeleteLocked (e_wall env) x.2 then deleteEndpointLocked x.1 e else e)
        e (map_range (endpointStates e)).
Definition setEndpointsLocked (eps : list AddrPort) (e : endpoint) : endpoint :=
  let marked := (fun st => set_index st indexSentinelDeleted) <$> endpointStates e in
  deleteStale (with_endpointStates (noteNetmapEndpoints 0 eps marked) e).

Record NodeView := MkNode {
  n_Expired : bool; n_DiscoKey : DiscoPublic; n_HomeDERP : Z; n_Endpoints : list AddrPort; n_Cap : Z
}.
Definition capVerIsRelayCapable (version : Z) : bool := 121 <=? version.
Definition updateDiscoKey (key : DiscoPublic) (e : endpoint) : endpoint :=
  with_disco (if bool_decide (key = zeroDisco) then None else Some key) e.
Definition updateFromNode (n : NodeView) (heartbeatDisabled_ probeUDPLifetimeEnabled : bool)
    (e : endpoint) : endpoint :=
  let e := with_heartbeatDisabled heartbeatDisabled_ e in
  let e := upd_best (fun b => set_probe b
             (setProbeUDPLifetimeOn (isWireguardOnly e) (probe b) probeUDPLifetimeEnabled)) e in
  let e := with_expired (n_Expired n) e in
  let discoKey := default zeroDisco (disco e) in
  let e := if bool_decide (discoKey = n_DiscoKey n) then e else updateDiscoKey (n_DiscoKey n) e in
  let e := with_derpAddr (if n_HomeDERP n =? 0 then zeroAddrPort
                          else MkAddrPort DerpMagicIPAddr (uw 16 (n_HomeDERP n))) e in
  let e := setEndpointsLocked (n_Endpoints n) e in
  with_relayCapable (capVerIsRelayCapable (n_Cap n)) e.
Definition setDERPHome (regionID : Z) : M unit :=
  modify (with_derpAddr (MkAddrPort DerpMagicIPAddr (uw 16 regionID))) ;;
  when (e_hasPeerRelayServers env) (emit (ADERPHomeChange regionID)).

(** An incoming ping; the result says whether the same ping was seen before. *)
Definition addCandidateEndpoint (ep : AddrPort) (forRxPingTxID : TxID) (e : endpoint) : endpoint * bool :=
  if omitEndpointAddrPort k ep then (e, false)
  else match endpointStates e !! ep with
  | Some st =>
      let duplicatePing := bool_decide (forRxPingTxID = lastGotPingTxID st) in
      let gotPing := match lastGotPing st with None => None | Some _ => Some (e_wall env) end in
      (upd_state ep (fun st => set_gotPing st gotPing
         (if duplicatePing then lastGotPingTxID st else forRxPingTxID)) e, duplicatePing)
  | None =>
      let e := with_endpointStates
        (<[ep := set_gotPing zeroES (Some (e_wall env)) forRxPingTxID]> (endpointStates e)) e in
      (if 100 <? Z.of_nat (size (endpointStates e)) then deleteStale e else e, false)
  end.

Definition noteBadEndpoint (udpAddr : epAddr) (e : endpoint) : endpoint :=
  let e := upd_best clearBestAddrLocked e in
  if VNI.IsSet (vni udpAddr) then e else upd_state (ap udpAddr) clear e.
Definition noteConnectivityChange (e : endpoint) : endpoint :=
  let e := upd_best clearBestAddrLocked e in
  with_endpointStates (clear <$> endpointStates e) e.

(** ** Relay path discovery and full pings *)
Definition discoverUDPRelayPathsLocked (now : Z) : M unit :=
  modify (with_lastUDPRelayPathDiscovery now) ;;
  b ← gets best;
  emit (AStartRelayDiscovery (bestAddr b) (Mono.Before (e_now env) (trustBestAddrUntil b))).
Definition wantUDPRelayPathDiscoveryLocked (now : Z) (e : endpoint) : bool :=
  if e_js env then false
  else if negb (e_hasPeerRelayServers env) then false
  else if negb (relayCapable e) then false
  else
    let last := lastUDPRelayPathDiscovery e in
    if isDirect (bestEp e) && Mono.Before now (trustBestAddrUntil (best e)) then
      if negb (directVsRelayCompareEnabled k) then false
      else
        let effectiveInterval := Z.max (directVsRelayCompareIntervalValue k) discoverUDPRelayPathsInterval in
        negb (negb (Mono.IsZero last) && (Mono.Sub now last <? effectiveInterval))
    else if negb (Mono.IsZero last) && (Mono.Sub now last <? discoverUDPRelayPathsInterval) then false
    else if Mono.After now (trustBestAddrUntil (best e)) then true
    else negb (Mono.IsZero last) && (upgradeUDPRelayInterval <=? Mono.Sub now last).
Definition wantFullPingLocked (now : Z) (e : endpoint) : bool :=
  if e_js env then false
  else if negb (isDirect (bestEp e)) || Mono.IsZero (lastFullPing e) then true
  else if Mono.After now (trustBestAddrUntil (best e)) then true
  else if aq_latency (bestAddr (best e)) <=? goodEnoughLatency then false
  else upgradeUDPDirectInterval <=? Mono.Sub now (lastFullPing e).
Definition maybeDiscoverRelay (now : Z) : M unit :=
  want ← gets (wantUDPRelayPathDiscoveryLocked now);
  when want (discoverUDPRelayPathsLocked now).

(** ** Call-me-maybe *)
Definition acceptCallMeMaybe (ep : AddrPort) : bool :=
  negb (Is6 (ip ep) && IsLinkLocalUnicast (ip ep)) && negb (omitEndpointAddrPort k ep).
Definition noteCallMeMaybe (e : endpoint) (ep : AddrPort) : endpoint :=
  if acceptCallMeMaybe ep then
    let e := with_isCallMeMaybeEP (<[ep := true]> (isCallMeMaybeEP e)) e in
    with_endpointStates
      (<[ep := set_callMeMaybeTime (default zeroES (endpointStates e !! ep)) (Some (e_wall env))]>
         (endpointStates e)) e
  else e.
Definition dropUnwanted (e : endpoint) : endpoint :=
  foldl (fun e (x : AddrPort * bool) =>
           if x.2 then e
           else deleteEndpointLocked x.1 (with_isCallMeMaybeEP (delete x.1 (isCallMeMaybeEP e)) e))
        e (map_range (isCallMeMaybeEP e)).
Definition handleCallMeMaybe (MyNumber : list AddrPort) : M unit :=
  if e_js env then skip
  else
  modify (fun e => with_isCallMeMaybeEP ((fun _ => false) <$> isCallMeMaybeEP e) e) ;;
  modify (fun e => foldl noteCallMeMaybe e MyNumber) ;;
  modify dropUnwanted ;;
  modify (fun e => with_endpointStates ((fun st => set_lastPing st 0) <$> endpointStates e) e) ;;
  sendDiscoPingsLocked (e_now env) false ;;
  maybeDiscoverRelay (e_now env).

(** ** The address for the next packet *)
(** The loop of [addrForWireGuardSendLocked]: oldest ping, lowest latency, its address. *)
Record wgAcc := MkWgAcc { oldestPing : Z; lowestLatency : Z; wgPick : AddrPort }.
Definition wgStep (acc : wgAcc) (x : AddrPort * endpointState) : wgAcc :=
  let '(ipp, st) := x in
  let oldest :=
    if Mono.IsZero (oldestPing acc) then lastPing st
    else if Mono.Before (lastPing st) (oldestPing acc) then lastPing st else oldestPing acc in
  match latencyLocked st with
  | Some latency =>
      if (latency <? lowestLatency acc) || ((latency =? lowestLatency acc) && Is6 (ip ipp))
      then MkWgAcc oldest latency ipp else MkWgAcc oldest (lowestLatency acc) (wgPick acc)
  | None => MkWgAcc oldest (lowestLatency acc) (wgPick acc)
  end.
Definition addrForWireGuardSendLocked (now : Z) (e : endpoint) : endpoint * (epAddr * bool) :=
  let entries := map_range (endpointStates e) in
  if bool_decide (entries = []) then (e, (zeroEpAddr, false))
  else
    let acc := foldl wgStep (MkWgAcc 0 Hour zeroAddrPort) entries in
    let needPing := (1 <? Z.of_nat (length entries))
                    && (wireguardPingInterval <? Mono.Sub now (oldestPing acc)) in
    let pick := if IsValid (wgPick acc) then wgPick acc
                else default zeroAddrPort (entries.*1 !! (e_rand env mod length entries)%nat) in
    let udpAddr := epAddr_of pick in
    (upd_best (fun b =>
       MkBest (MkAQ udpAddr (relayServerDisco (bestAddr b)) (aq_latency (bestAddr b)) (wireMTU (bestAddr b)))
              (bestAddrAt b) (Mono.Add now Second) (lastDirectVsRelaySwap b) (probe b)) e,
     (udpAddr, needPing)).

(** UDP address, DERP address, and whether WireGuard-only pings are due. *)
Definition addrForSendLocked (now : Z) (e : endpoint) : endpoint * (epAddr * AddrPort * bool) :=
  let udpAddr := bestEp e in
  if IsValid (ap udpAddr) && negb (Mono.After now (trustBestAddrUntil (best e)))
  then (e, (udpAddr, zeroAddrPort, false))
  else if isWireguardOnly e then
    let '(e, (udpAddr, shouldPing)) := addrForWireGuardSendLocked now e in
    (e, (udpAddr, zeroAddrPort, shouldPing))
  else (e, (udpAddr, derpAddr e, false)).
Definition addrForPingSizeLocked (now size : Z) (e : endpoint) : endpoint * (epAddr * AddrPort) :=
  if size =? 0 then let '(e, (udpAddr, derp, _)) := addrForSendLocked now e in (e, (udpAddr, derp))
  else
    let udpAddr := bestEp e in
    let mtuOk := pingSizeToPktLen size udpAddr <=? wireMTU (bestAddr (best e)) in
    if IsValid (ap udpAddr) && mtuOk then
      if negb (Mono.After now (trustBestAddrUntil (best e))) then (e, (udpAddr, zeroAddrPort))
      else (e, (udpAddr, derpAddr e))
    else (e, (zeroEpAddr, derpAddr e)).
Definition lift {A} (f : endpoint -> endpoint * A) : M A := fun e => let '(e', x) := f e in (e', [], x).

Definition sendWireGuardOnlyPingsLocked (now : Z) : M unit :=
  if e_js env then skip
  else
  last ← gets lastFullPing;
  if negb (Mono.After now (Mono.Add last (10 * Second))) then skip
  else
    modify (with_lastFullPing now) ;;
    l ← gets (fun e => map_range (endpointStates e));
    forM l (fun x : AddrPort * endpointState =>
      if Is4 (ip x.1) && e_noV4 env then skip
      else if Is6 (ip x.1) && e_noV6 env then skip
      else emit (AWireGuardPing x.1)).
Definition setLastPing (ipp : AddrPort) (now : Z) (e : endpoint) : endpoint :=
  upd_state ipp (fun st => set_lastPing st now) e.
(** The reply part of [sendWireGuardOnlyPing]. *)
Definition sendWireGuardOnlyPing (ipp : AddrPort) (latency now : Z) (e : endpoint) : endpoint :=
  upd_state ipp (fun st => addPongReplyLocked st (MkPong latency now ipp zeroAddrPort)) e.

(** ** Heartbeats *)
Definition inactiveFor (now : Z) (e : endpoint) : Z := Mono.Sub now (Z.max (lastRecvUDPAny e) (lastSendAny e)).
(** [time.Duration.Abs]. *)
Definition Abs (d : Z) : Z := if d <? 0 then (if d =? - 2 ^ 63 then 2 ^ 63 - 1 else - d) else d.
(** The last part of [heartbeatForLifetime], given how long the path must be silent. *)
Definition probeWhenSilent (cur : epAddr) (after : option Z) : M unit :=
  match after with
  | None => modify (upd_probe resetCycle)
  | Some afterInactivityFor =>
      inactive ← gets (inactiveFor (e_now env));
      let delta := i64 (afterInactivityFor - inactive) in
      if udpLifetimeProbeSchedulingTolerance <? Abs delta then
        if delta <? 0 then skip else scheduleHeartbeatForLifetimeLocked
      else
        modify (upd_probe (fun p =>
          if currentCliff p =? 0
          then MkLifetime (config p) (timer p) (pl_bestAddr p) (Some (e_wall env)) true
                          (currentCliff p) (lastTxID p)
          else p)) ;;
        cliff ← gets (fun e => currentCliffDurationEndpointLocked (probe (best e)));
        match cliff with
        | None => emit APanic
        | Some _ => startDiscoPingLocked cur (e_now env) pingHeartbeatForUDPLifetime 0 None
        end
  end.
Definition heartbeatForLifetime : M unit :=
  p ← gets (fun e => probe (best e));
  match p with
  | None => skip
  | Some p =>
      if negb (timer p) then skip
      else
        modify (upd_probe (fun p => set_timer p false)) ;;
        cur ← gets bestEp;
        if negb (IsValid (ap (pl_bestAddr p))) || negb (bool_decide (cur = pl_bestAddr p))
        then modify (upd_probe resetCycle)
        else
          after ← gets maybeProbeUDPLifetimeLocked;
          match after with
          | None => emit APanic
          | Some after => probeWhenSilent cur after
          end
  end.

(** The idle branch of [heartbeat]. *)
Definition scheduleAfterSession (after : option Z) : M unit :=
  match after with
  | None => skip
  | Some afterInactivityFor =>
      inactive ← gets (inactiveFor (e_now env));
      if i64 (afterInactivityFor - inactive) <? 0 then skip else scheduleHeartbeatForLifetimeLocked
  end.
Definition heartbeat : M unit :=
  modify (fun e => with_heartBeatTimer false (upd_probe (fun p => set_timer p false) e)) ;;
  disabled ← gets heartbeatDisabled;
  lastExt ← gets lastSendExt;
  if disabled : bool then skip
  else if Mono.IsZero lastExt then skip
  else
    let now := e_now env in
    if sessionActiveTimeout <? Mono.Sub now lastExt then
      after ← gets maybeProbeUDPLifetimeLocked;
      match after with
      | None => emit APanic
      | Some after => scheduleAfterSession after
      end
    else
      a ← lift (addrForSendLocked now);
      let udpAddr := a.1.1 in
      when (IsValid (ap udpAddr)) (startDiscoPingLocked udpAddr now pingHeartbeat 0 None) ;;
      full ← gets (wantFullPingLocked now);
      when full (sendDiscoPingsLocked now true) ;;
      maybeDiscoverRelay now ;;
      modify (with_heartBeatTimer true).

(** ** Pongs and command-line pings *)
(** [resCB.reply()] and the callback it guards. *)
Definition replyOnce (resCB : option nat) (latency : Z) (to : epAddr) : M unit :=
  match resCB with
  | None => skip
  | Some cb =>
      done_ ← gets replied;
      if bool_decide (cb ∈ (done_ : gset nat)) then skip
      else modify (fun e => with_replied ({[cb]} ∪ replied e) e) ;; emit (APingReply cb latency to)
  end.

Definition handlePongConnLocked (txid : TxID) (pongSrc_ : AddrPort) (src : epAddr) : M bool :=
  let isDerp := bool_decide (ip (ap src) = DerpMagicIPAddr) in
  sp ← gets (fun e => sentPings e !! txid);
  match sp with
  | None => mret false
  | Some sp =>
      removeSentDiscoPingLocked txid sp discoPongReceived ;;
      let now := e_now env in
      let latency := Mono.Sub now (sp_at sp) in
      if negb isDerp && isDirect (sp_to sp) && omitEndpointAddrPort k (ap (sp_to sp)) then
        modify (deleteEndpointLocked (ap (sp_to sp))) ;; mret true
      else
        st ← gets (fun e => endpointStates e !! ap (sp_to sp));
        let direct := negb isDerp && negb (VNI.IsSet (vni src)) in
        if direct && isNone st then mret true
        else
          when direct
            (emit (ASetNodeKeyForEpAddr src) ;;
             modify (upd_state (ap (sp_to sp)) (fun st =>
               addPongReplyLocked st (MkPong latency now (ap src) pongSrc_)))) ;;
          replyOnce (sp_resCB sp) latency (sp_to sp) ;;
          when (negb isDerp)
            (modify (upd_best (fun b => promotePong k b (sp_to sp) latency (sp_size sp) now))) ;;
          mret true
  end.

Definition MaxDiscoPingSize : Z := e_maxPacketSize env - 20 - 8.
Definition discoPing (size : Z) : M unit :=
  isExpired ← gets expired;
  if isExpired : bool then emit (APingError errExpired)
  else if MaxDiscoPingSize <? size then emit (APingError errPingTooBig)
  else
    cb ← fresh;
    let now := e_now env in
    a ← lift (addrForPingSizeLocked now size);
    let '(udpAddr, derp) := a : epAddr * AddrPort in
    when (IsValid derp) (startDiscoPingLocked (epAddr_of derp) now pingCLI size (Some cb)) ;;
    trust ← gets (fun e => trustBestAddrUntil (best e));
    let trusted := IsValid (ap udpAddr) && Mono.Before now trust in
    when trusted (startDiscoPingLocked udpAddr now pingCLI size (Some cb)) ;;
    if trusted && negb (VNI.IsSet (vni udpAddr)) then skip
    else
      l ← gets (fun e => map_range (endpointStates e));
      forM l (fun x : AddrPort * endpointState =>
        startDiscoPingLocked (epAddr_of x.1) now pingCLI size (Some cb)) ;;
      maybeDiscoverRelay now.

(** ** Receive activity, observed source addresses, redundancy bookkeeping *)
Definition noteRecvActivity (src : epAddr) (now : Z) : M bool :=
  modify (fun e =>
    if isWireguardOnly e then
      upd_best (fun b =>
        let a := bestAddr b in
        MkBest (MkAQ (MkEpAddr (ap src) (vni (aq_ep a))) (relayServerDisco a) (aq_latency a) (wireMTU a))
               now (Mono.Add now (5 * Second)) (lastDirectVsRelaySwap b) (probe b)) e
    else if heartbeatDisabled e && bool_decide (bestEp e = src)
    then upd_best (fun b => set_trust b (Mono.Add now trustUDPAddrDuration)) e
    else e) ;;
  last ← gets lastRecvWG;
  if 10 * Second <? Mono.Sub now last then
    modify (with_lastRecvWG now) ;;
    if e_noteRecvActivity env then emit ANoteRecvActivity ;; mret true else mret false
  else mret false.

Inductive sourcePathRemoteSlotKind :=
| sourcePathRemotePathUnknown | sourcePathRemotePath0 | sourcePathRemotePath1 | sourcePathRemotePathOther.
Definition slotKind (i : nat) : sourcePathRemoteSlotKind :=
  match i with O => sourcePathRemotePath0 | _ => sourcePathRemotePath1 end.
(** The position of the first slot a test picks, as the three loops look for it. *)
Definition firstSlot (f : epAddr * Z -> bool) (slots : list (epAddr * Z)) : option nat :=
  fst <$> list_find (fun s => f s = true) slots.
Definition classifySourcePathRemoteSlot (src : epAddr) (e : endpoint)
  : endpoint * sourcePathRemoteSlotKind :=
  if negb (isDirect src) then (e, sourcePathRemotePathUnknown)
  else
    let now := e_now env in
    let take i := (with_remoteSlots (<[i := (src, now)]> (remoteSlots e)) e, slotKind i) in
    match firstSlot (fun s => bool_decide (s.1 = src)) (remoteSlots e) with
    | Some i => take i
    | None =>
      match firstSlot (fun s => negb (IsValid (ap s.1))) (remoteSlots e) with
      | Some i => take i
      | None =>
        match firstSlot (fun s =>
                Mono.IsZero s.2 || (sessionActiveTimeout <? Mono.Sub now s.2)
                || match endpointStates e !! ap s.1 with
                   | Some st => shouldDeleteLocked (e_wall env) st
                   | None => false
                   end) (remoteSlots e) with
        | Some i => take i
        | None => (e, sourcePathRemotePathOther)
        end
      end
    end.
(** [endpoint.sourcePathPeerAwareEndpoint]: at its limit the map loses the first key its iteration
    finds. *)
Definition sourcePathPeerAwareCacheLimit : nat := 32.
Definition evictOne (m : gset (epAddr * sourceRxMeta)) : gset (epAddr * sourceRxMeta) :=
  match map_range (gset_to_gmap tt m) with
  | [] => m
  | (stale, _) :: _ => m ∖ {[stale]}
  end.
Definition sourcePathPeerAwareEndpoint (src : epAddr) (rxMeta : sourceRxMeta) (e : endpoint) : endpoint :=
  let key := (src, rxMeta) in
  let m := sourcePathPeerAware e in
  if bool_decide (key ∈ m) then e
  else with_sourcePathPeerAware
         ({[key]} ∪ if (sourcePathPeerAwareCacheLimit <=? size m)%nat then evictOne m else m) e.
Definition noteSourcePathObservedEndpointFailure (addr : epAddr) (e : endpoint) : endpoint :=
  if negb (isDirect addr) then e
  else match firstSlot (fun s => bool_decide (s.1 = addr)) (remoteSlots e) with
  | Some i => with_remoteSlots (<[i := (zeroEpAddr, 0)]> (remoteSlots e)) e
  | None => e
  end.

(** [single]: a reason was given for sending on one path only; [dual]: a redundant mode. *)
Definition noteSourcePathDualSendAvailability (now : Z) (dual single : bool) (packets : Z)
    (e : endpoint) : endpoint :=
  if packets <=? 0 then e
  else if single then
    if Mono.IsZero (sourcePathSingleSince e)
    then with_sourcePathSinglePkts packets (with_sourcePathSingleSince now e)
    else with_sourcePathSinglePkts (i64 (sourcePathSinglePkts e + packets)) e
  else if dual && negb (Mono.IsZero (sourcePathSingleSince e))
  then with_sourcePathSinglePkts 0 (with_sourcePathSingleSince 0 e)
  else e.

(** ** Reset *)
Definition resetLocked : M unit :=
  modify (fun e =>
    let e := with_lastFullPing 0 (with_lastSendExt 0 e) in
    let e := upd_best clearBestAddrLocked e in
    let e := with_remoteSlots [(zeroEpAddr, 0); (zeroEpAddr, 0)] e in
    let e := with_sourcePathPeerAware ∅ e in
    let e := with_activePaths zeroActive e in
    let e := if Mono.IsZero (sourcePathSingleSince e) then e
             else with_sourcePathSinglePkts 0 (with_sourcePathSingleSince 0 e) in
    with_endpointStates ((fun st => set_lastPing st 0) <$> endpointStates e) e) ;;
  wg ← gets isWireguardOnly;
  l ← gets (fun e => map_range (sentPings e));
  when (negb wg) (forM l (fun x : TxID * sentPing =>
    removeSentDiscoPingLocked x.1 x.2 discoPingResultUnknown)) ;;
  modify (upd_best (fun b => set_probe b (resetCycleEndpointLocked (probe b)))) ;;
  emit AStopRelayWork.
Definition stopAndReset : M unit :=
  modify (fun e => with_numStopAndReset (i64 (numStopAndReset e + 1)) e) ;;
  resetLocked ;; modify (with_heartBeatTimer false).
End Handlers.
