(* ===== verification/EndpointSend.v ===== *)
(** * Where an endpoint sends its packets (endpoint.go)

    The direct candidate addresses of a peer, their ranking, and the part of
    [endpoint.send] that runs under the endpoint's lock and decides where the batch goes. *)
From S2P Require Import Prelude Netip Bytes Knobs ProbeManager Ordering SourceSockets ActivePaths.
From S2P Require Import EndpointState UdpLifetime BetterAddr EndpointRecord Endpoint.

Record dualEndpointCandidate := MkDEC {
  de_addr : epAddr;
  de_latency : Z;
  de_hasLatency : bool;
  de_lastPing : Z;
  de_isBest : bool
}.

Definition compareDualEndpointCandidate (a b : dualEndpointCandidate) : Z :=
  if negb (Bool.eqb (de_hasLatency a) (de_hasLatency b)) then (if de_hasLatency a then -1 else 1)
  else if de_hasLatency a && negb (de_latency a =? de_latency b)
  then (if de_latency a <? de_latency b then -1 else 1)
  else if negb (Bool.eqb (de_isBest a) (de_isBest b)) then (if de_isBest a then -1 else 1)
  else if negb (Bool.eqb (Is6 (ip (ap (de_addr a)))) (Is6 (ip (ap (de_addr b)))))
  then (if Is6 (ip (ap (de_addr a))) then -1 else 1)
  else if string_lt (AddrPort_String (ap (de_addr a))) (AddrPort_String (ap (de_addr b))) then -1
  else if string_lt (AddrPort_String (ap (de_addr b))) (AddrPort_String (ap (de_addr a))) then 1
  else 0.

(** ** RTT of the primary socket to an address *)
Definition primaryRTTForLocked (dst : epAddr) (e : endpoint) : Z :=
  let fromBest :=
    if bool_decide (bestEp e = dst) && (0 <? aq_latency (bestAddr (best e)))
    then aq_latency (bestAddr (best e)) else 0 in
  match endpointStates e !! ap dst with
  | Some st => match latencyLocked st with
               | Some rtt => if 0 <? rtt then rtt else fromBest
               | None => fromBest
               end
  | None => fromBest
  end.
Definition primaryPongsSinceLocked (dst : epAddr) (since : Z) (e : endpoint) : Z :=
  match endpointStates e !! ap dst with
  | None => 0
  | Some st => pongsSince st since
  end.

Section Send.
Context `{MapRange} `{Platform} (env : Env).
Notation k := (e_knobs env).

(** ** Direct candidates: the [add] closure and the two loops that call it *)
Record candAcc := MkCandAcc {
  ca_seen : gset AddrPort; ca_list : list dualEndpointCandidate; ca_oldest : Z
}.
Definition addCandidate (e : endpoint) (now : Z) (acc : candAcc) (addr : epAddr)
    (state : option endpointState) : candAcc :=
  if negb (isDirect addr) || bool_decide (ap addr ∈ ca_seen acc) then acc
  else
    let seen := {[ap addr]} ∪ ca_seen acc in
    let isBest := bool_decide (bestEp e = addr) && negb (Mono.After now (trustBestAddrUntil (best e))) in
    match state with
    | None => MkCandAcc seen (ca_list acc ++ [MkDEC addr 0 false 0 isBest]) (ca_oldest acc)
    | Some st =>
        if shouldDeleteLocked (e_wall env) st then MkCandAcc seen (ca_list acc) (ca_oldest acc)
        else
          let oldest := if Mono.IsZero (ca_oldest acc) || Mono.Before (lastPing st) (ca_oldest acc)
                        then lastPing st else ca_oldest acc in
          let latency := latencyLocked st in
          let hasLatency := match latency with Some l => 0 <? l | None => false end in
          MkCandAcc seen
            (ca_list acc ++ [MkDEC addr (default 0 latency) hasLatency (lastPing st) isBest]) oldest
    end.
Definition slotFresh (now seen : Z) : bool :=
  negb (Mono.IsZero seen || (sessionActiveTimeout <? Mono.Sub now seen)).
Definition collectCandidates (now : Z) (e : endpoint) : candAcc :=
  let acc := foldl (fun acc (x : AddrPort * endpointState) =>
                      addCandidate e now acc (epAddr_of x.1) (Some x.2))
                   (MkCandAcc ∅ [] 0) (map_range (endpointStates e)) in
  foldl (fun acc (slot : epAddr * Z) =>
           if negb (isDirect slot.1) || bool_decide (ap slot.1 ∈ ca_seen acc) then acc
           else if negb (slotFresh now slot.2) then acc
           else addCandidate e now acc slot.1 (endpointStates e !! ap slot.1))
        acc (remoteSlots e).
Definition sourcePathDirectEndpointCandidatesLocked (now : Z) (e : endpoint)
  : list dualEndpointCandidate * Z :=
  let acc := collectCandidates now e in
  (Slices.SortFunc compareDualEndpointCandidate (ca_list acc), ca_oldest acc).

Definition dualEndpointAddrsForSendLocked (now : Z) (e : endpoint) : endpoint * (list epAddr * bool) :=
  let '(candidates, oldest) := sourcePathDirectEndpointCandidatesLocked now e in
  match candidates with
  | [] => (e, ([], false))
  | bestCand :: _ =>
      let needPing := (1 <? Z.of_nat (length candidates))
                      && (Mono.IsZero oldest || (wireguardPingInterval <? Mono.Sub now oldest)) in
      let addrs := map de_addr (take 2 candidates) in
      (upd_best (fun b =>
         let a := bestAddr b in
         MkBest (MkAQ (de_addr bestCand) (relayServerDisco a)
                      (if de_hasLatency bestCand then de_latency bestCand else aq_latency a) (wireMTU a))
                (bestAddrAt b)
                (if Mono.After now (trustBestAddrUntil b) then Mono.Add now Second else trustBestAddrUntil b)
                (lastDirectVsRelaySwap b) (probe b)) e,
       (addrs, needPing))
  end.

Definition sourcePathRemoteSlotFreshLocked (addr : epAddr) (now : Z) (e : endpoint) : bool :=
  match list_find (fun s => s.1 = addr) (remoteSlots e) with
  | Some (_, (_, seen)) => negb (Mono.IsZero seen) && (Mono.Sub now seen <=? sessionActiveTimeout)
  | None => false
  end.
Definition sourcePathDualSendDstCandidatesLocked (now : Z) (primary : epAddr) (e : endpoint)
  : list sourcePathDstCandidate :=
  let candidates := (sourcePathDirectEndpointCandidatesLocked now e).1 in
  let candidates :=
    if isDirect primary && negb (existsb (fun c => bool_decide (de_addr c = primary)) candidates) then
      let rtt := primaryRTTForLocked primary e in
      Slices.SortFunc compareDualEndpointCandidate
        (candidates ++ [MkDEC primary rtt (0 <? rtt) 0
           (bool_decide (bestEp e = primary) && negb (Mono.After now (trustBestAddrUntil (best e))))])
    else candidates in
  map (fun c =>
    let rtt := primaryRTTForLocked (de_addr c) e in
    MkDstCand (de_addr c) rtt (0 <? rtt)
      (bool_decide (de_addr c = primary) || de_isBest c || (0 <? rtt)
       || sourcePathRemoteSlotFreshLocked (de_addr c) now e)) candidates.
Definition sourcePathProbeDstsLocked (e : endpoint) : list epAddr :=
  if negb (sourcePathDualSendEnabled k) && negb (sourcePathDualEndpointStrategyEnabled k)
     && isDirect (bestEp e)
  then [bestEp e]
  else map de_addr (sourcePathDirectEndpointCandidatesLocked (e_now env) e).1.
Definition dualSendObservedEndpointAddrsForSendLocked (primary : epAddr) (now : Z) (e : endpoint)
  : list epAddr :=
  if negb (isDirect primary) then []
  else match list_find (fun s : epAddr * Z =>
           isDirect s.1 && negb (bool_decide (s.1 = primary)) && slotFresh now s.2
           && match endpointStates e !! ap s.1 with
              | Some st => negb (shouldDeleteLocked (e_wall env) st)
              | None => true
              end = true) (remoteSlots e) with
  | Some (_, (slot, _)) => [primary; slot]
  | None => []
  end.

(** ** The locked part of [endpoint.send] *)
Record sendPlan := MkPlan {
  pl_udpAddr : epAddr;
  pl_derpAddr : AddrPort;
  pl_dualEndpointAddrs : list epAddr;
  pl_observed : list epAddr;
  pl_dsts : list sourcePathDstCandidate
}.
(** [useSourcePathDataSend]: the batch consists of WireGuard transport messages. The error
    is [errExpired]. *)
Definition planSend (useSourcePathDataSend : bool) : M (option sendPlan) :=
  isExpired ← gets expired;
  if isExpired : bool then mret None
  else
    let now := e_now env in
    let dualEndpoint := useSourcePathDataSend && sourcePathDualEndpointStrategyEnabled k in
    d ← (if dualEndpoint then lift (dualEndpointAddrsForSendLocked now) else mret ([], false));
    let '(dualAddrs, dualPing) := d : list epAddr * bool in
    a ← (match dualAddrs with
         | addr :: _ => mret (addr, zeroAddrPort, dualPing)
         | [] => lift (addrForSendLocked env now)
         end);
    let '(udpAddr, derp, startWGPing) := a : epAddr * AddrPort * bool in
    let dualSend := negb dualEndpoint && useSourcePathDataSend && sourcePathDualSendEnabled k in
    dsts ← gets (fun e => if dualSend then sourcePathDualSendDstCandidatesLocked now udpAddr e else []);
    observed ← gets (fun e => if dualSend then dualSendObservedEndpointAddrsForSendLocked udpAddr now e else []);
    wg ← gets isWireguardOnly;
    trust ← gets (fun e => trustBestAddrUntil (best e));
    (if wg : bool then when startWGPing (sendWireGuardOnlyPingsLocked env now)
     else if dualEndpoint then
       when startWGPing (sendDiscoPingsLocked env now true ;; maybeDiscoverRelay env now)
     else when (negb (isDirect udpAddr) || Mono.After now trust)
            (sendDiscoPingsLocked env now true ;; maybeDiscoverRelay env now)) ;;
    modify (noteTxActivityExtTriggerLocked now) ;;
    modify (with_lastSendAny now) ;;
    mret (Some (MkPlan udpAddr derp dualAddrs observed dsts)).

(** ** Everything that can happen to an endpoint, one operation at a time *)
Inductive ep_op :=
| OpHeartbeat | OpHeartbeatForLifetime
| OpPong (txid : TxID) (pongSrc_ : AddrPort) (src : epAddr)
| OpPingTimeout (txid : TxID) | OpForgetPing (txid : TxID)
| OpDiscoPing (size : Z)
| OpCallMeMaybe (eps : list AddrPort)
| OpUpdateFromNode (n : NodeView) (heartbeatDisabled_ probeUDPLifetimeEnabled : bool)
| OpSetEndpoints (eps : list AddrPort) | OpSetDERPHome (regionID : Z)
| OpSetProbeUDPLifetimeOn (v : bool) | OpSetHeartbeatDisabled (v : bool)
| OpAddCandidate (ep : AddrPort) (forRxPingTxID : TxID)
| OpBadEndpoint (udpAddr : epAddr) | OpConnectivityChange
| OpRelayReady (maybeBest : addrQuality)
| OpRecvActivity (src : epAddr) | OpRecvUDPAny
| OpClassifyRemote (src : epAddr) | OpObservedFailure (addr : epAddr)
| OpAvailability (dual single : bool) (packets : Z)
| OpSetLastPing (ipp : AddrPort) | OpWireGuardPong (ipp : AddrPort) (latency : Z)
| OpPlanSend (useSourcePathDataSend : bool)
| OpApplyActivePolicy (ranked : list sourcePathSendPath)
| OpPeerAware (src : epAddr) (rxMeta : sourceRxMeta)
| OpStopAndReset.

Definition ep_exec (op : ep_op) : M unit :=
  match op with
  | OpHeartbeat => heartbeat env
  | OpHeartbeatForLifetime => heartbeatForLifetime env
  | OpPong txid pongSrc_ src => handlePongConnLocked env txid pongSrc_ src ;; skip
  | OpPingTimeout txid => discoPingTimeout env txid
  | OpForgetPing txid => forgetDiscoPing env txid
  | OpDiscoPing size => discoPing env size
  | OpCallMeMaybe eps => handleCallMeMaybe env eps
  | OpUpdateFromNode n hb lt => modify (updateFromNode env n hb lt)
  | OpSetEndpoints eps => modify (setEndpointsLocked env eps)
  | OpSetDERPHome r => setDERPHome env r
  | OpSetProbeUDPLifetimeOn v =>
      modify (fun e => upd_best (fun b => set_probe b (setProbeUDPLifetimeOn (isWireguardOnly e) (probe b) v)) e)
  | OpSetHeartbeatDisabled v => modify (with_heartbeatDisabled v)
  | OpAddCandidate ep txid => modify (fun e => (addCandidateEndpoint env ep txid e).1)
  | OpBadEndpoint a => modify (noteBadEndpoint a)
  | OpConnectivityChange => modify noteConnectivityChange
  | OpRelayReady q => modify (upd_best (fun b => udpRelayEndpointReady k b q (e_now env)))
  | OpRecvActivity src => noteRecvActivity env src (e_now env) ;; skip
  | OpRecvUDPAny => modify (with_lastRecvUDPAny (e_now env))
  | OpClassifyRemote src => modify (fun e => (classifySourcePathRemoteSlot env src e).1)
  | OpObservedFailure a => modify (noteSourcePathObservedEndpointFailure a)
  | OpAvailability d s n => modify (noteSourcePathDualSendAvailability (e_now env) d s n)
  | OpSetLastPing ipp => modify (setLastPing ipp (e_now env))
  | OpWireGuardPong ipp lat => modify (sendWireGuardOnlyPing ipp lat (e_now env))
  | OpPlanSend use => planSend use ;; skip
  | OpApplyActivePolicy ranked =>
      modify (fun e => with_activePaths
        (sourcePathApplyActivePathPolicyLocked (activePaths e) (e_now env) ranked).1.1 e)
  | OpPeerAware src rxMeta => modify (sourcePathPeerAwareEndpoint src rxMeta)
  | OpStopAndReset => stopAndReset env
  end.
End Send.

(** A run: each operation with the surroundings it sees. *)
Definition ep_run `{MapRange} `{Platform} (ops : list (Env * ep_op)) : M unit :=
  forM ops (fun x => ep_exec x.1 x.2).
