(* ===== verification/EndpointFacts.v ===== *)
(** * Invariants of a peer's endpoint

    [ep_wf] holds of a fresh endpoint and is kept by every handler, whatever the order in
    which handlers run, what the clocks say and what the network delivers; under it no
    handler panics. *)
From S2P Require Import Prelude Netip Bytes Knobs ProbeManager SourceSockets ActivePaths.
From S2P Require Import EndpointState UdpLifetime BetterAddr EndpointRecord Endpoint EndpointSend.

(** ** Observed source addresses *)
Record slots_ok (l : list (epAddr * Z)) : Prop := {
  so_length : length l = 2%nat;
  so_direct : forall i s, l !! i = Some s -> s = (zeroEpAddr, 0) \/ isDirect s.1 = true;
  so_distinct : forall i j s t, l !! i = Some s -> l !! j = Some t ->
    s.1 = t.1 -> isDirect s.1 = true -> i = j
}.

Lemma firstSlot_Some f l i :
  firstSlot f l = Some i -> exists s, l !! i = Some s /\ f s = true.
Proof.
  unfold firstSlot. destruct (list_find _ l) as [[j s]|] eqn:E; [|done]. intros [= <-].
  apply list_find_Some in E as (? & ? & _). eauto.
Qed.
Lemma firstSlot_None f l i s : firstSlot f l = None -> l !! i = Some s -> f s = false.
Proof.
  unfold firstSlot. destruct (list_find _ l) as [|] eqn:E; [done|]. intros _ Hs.
  apply list_find_None in E. rewrite Forall_lookup in E. specialize (E i s Hs).
  by destruct (f s).
Qed.

Lemma slots_ok_zero : slots_ok [(zeroEpAddr, 0); (zeroEpAddr, 0)].
Proof.
  constructor; [done|intros [|[|]] s; naive_solver|].
  intros [|[|]] [|[|]] s t; simpl; intros; simplify_eq; done.
Qed.
(** Replacing a slot by the zero slot or by an address no other slot holds. *)
Lemma slots_ok_clear l i : slots_ok l -> slots_ok (<[i := (zeroEpAddr, 0)]> l).
Proof.
  intros [Hl Hd Hu]. constructor; [by rewrite length_insert| |].
  - intros j s [(_ & <- & _)|(_ & Hs)]%list_lookup_insert_Some; eauto.
  - intros j j' s t [(_ & <- & _)|(_ & Hs)]%list_lookup_insert_Some
      [(_ & <- & _)|(_ & Ht)]%list_lookup_insert_Some; simpl; intros E Hdir;
      first [discriminate Hdir|rewrite E in Hdir; discriminate Hdir|eauto].
Qed.
Lemma slots_ok_take l i src now :
  slots_ok l -> isDirect src = true ->
  (forall j s, l !! j = Some s -> s.1 = src -> j = i) ->
  slots_ok (<[i := (src, now)]> l).
Proof.
  intros [Hl Hd Hu] Hsrc Hi. constructor; [by rewrite length_insert| |].
  - intros j s [(_ & <- & _)|(_ & Hs)]%list_lookup_insert_Some; eauto.
  - intros j j' s t [(<- & <- & _)|(Hj & Hs)]%list_lookup_insert_Some
      [(<- & <- & _)|(Hj' & Ht)]%list_lookup_insert_Some; simpl; intros E Hdir; eauto.
    symmetry. eauto.
Qed.
Lemma slots_ok_forget l a :
  slots_ok l ->
  slots_ok (map (fun s : epAddr * Z => if bool_decide (s.1 = a) then (zeroEpAddr, 0) else s) l).
Proof.
  intros [Hl Hd Hu]. constructor; [by rewrite length_map| |].
  - intros i s. change (map ?f l) with (f <$> l). rewrite list_lookup_fmap_Some.
    intros (x & -> & Hx). case_bool_decide; eauto.
  - intros i j s t. change (map ?f l) with (f <$> l). rewrite !list_lookup_fmap_Some.
    intros (x & -> & Hx) (y & -> & Hy). repeat case_bool_decide; simpl; intros E Hdir;
      first [discriminate Hdir|rewrite E in Hdir; discriminate Hdir|eauto].
Qed.

(** ** The invariant *)
Record ep_wf (k : Knobs) `{Platform} (e : endpoint) : Prop := {
  w_pongs : map_Forall (fun _ st => pong_wf st) (endpointStates e);
  w_omit : map_Forall (fun a _ => omitEndpointAddrPort k a = false) (endpointStates e);
  w_probe : lifetime_ok (probe (best e));
  w_slots : slots_ok (remoteSlots e)
}.
Definition no_panic (a : action) : Prop := a <> APanic.

(** A new endpoint for a peer ([upsertPeerLocked] allocates it zeroed). *)
Definition newEndpoint (wireguardOnly : bool) : endpoint :=
  MkEndpoint 0 0 None false 0 0 0 0 zeroAddrPort zeroBest [(zeroEpAddr, 0); (zeroEpAddr, 0)] 0 0
             zeroActive ∅ ∅ ∅ false false wireguardOnly false ∅ 0 0 ∅.

Lemma addPong_wf st r : pong_wf st -> pong_wf (addPongReplyLocked st r).
Proof. apply addPong_queue. Qed.

Section Wf.
Context `{MapRange} `{Platform} (env : Env).
Notation k := (e_knobs env).
Notation wf := (ep_wf (e_knobs env)).
Notation keeps_wf := (keeps (ep_wf (e_knobs env)) no_panic).
Implicit Types e : endpoint.

Lemma newEndpoint_wf wg : wf (newEndpoint wg).
Proof. constructor; simpl; [apply map_Forall_empty|apply map_Forall_empty|done|apply slots_ok_zero]. Qed.

(** Fields outside the invariant. *)
Lemma wf_frame e e' :
  endpointStates e' = endpointStates e -> probe (best e') = probe (best e) ->
  remoteSlots e' = remoteSlots e -> wf e -> wf e'.
Proof. intros E1 E2 E3 [? ? ? ?]. constructor; by rewrite ?E1, ?E2, ?E3. Qed.

Lemma wf_upd_state ep f e :
  (forall st, pong_wf st -> pong_wf (f st)) -> wf e -> wf (upd_state ep f e).
Proof.
  intros Hf [Hp Ho ? ?]. constructor; simpl; try done; intros a st.
  - rewrite lookup_alter_Some. intros [(<- & st' & Hst & ->)|[_ Hst]]; eauto.
  - rewrite lookup_alter_Some. intros [(<- & st' & Hst & ->)|[_ Hst]]; eauto.
Qed.
Lemma wf_fmap_states f e :
  (forall st, pong_wf st -> pong_wf (f st)) -> wf e ->
  wf (with_endpointStates (f <$> endpointStates e) e).
Proof.
  intros Hf [Hp Ho ? ?]. constructor; simpl; try done; intros a st;
    rewrite lookup_fmap_Some; intros (st' & <- & Hst); eauto.
Qed.
Lemma wf_insert_state ep st e :
  pong_wf st -> omitEndpointAddrPort k ep = false -> wf e ->
  wf (with_endpointStates (<[ep := st]> (endpointStates e)) e).
Proof.
  intros Hst Hom [Hp Ho ? ?]. constructor; simpl; try done; by apply map_Forall_insert_2.
Qed.
Lemma wf_upd_best f e :
  (lifetime_ok (probe (best e)) -> lifetime_ok (probe (f (best e)))) -> wf e -> wf (upd_best f e).
Proof. intros Hf [? ? ? ?]. constructor; simpl; auto. Qed.
Lemma wf_upd_probe f e :
  (forall p, probe (best e) = Some p -> lifetime_wf p -> lifetime_wf (f p)) -> wf e -> wf (upd_probe f e).
Proof.
  intros Hf Hwf. apply wf_upd_best; [|done]. intros Hok q. simpl.
  destruct (probe (best e)) as [p|] eqn:E; [|done]. intros [= <-]. by apply Hf, Hok.
Qed.
Lemma wf_slots l e : slots_ok l -> wf e -> wf (with_remoteSlots l e).
Proof. intros Hl [? ? ? ?]. by constructor. Qed.

Lemma deleteEndpointLocked_wf ep e : wf e -> wf (deleteEndpointLocked ep e).
Proof.
  intros [Hp Ho Hl Hs]. unfold deleteEndpointLocked.
  set (e1 := with_remoteSlots _ _).
  assert (wf e1).
  { constructor; simpl; [by apply map_Forall_delete|by apply map_Forall_delete|done|].
    by apply slots_ok_forget. }
  case_match; [|done]. apply wf_upd_best; [|done]. apply setBestAddrLocked_ok.
Qed.
Lemma noteTx_wf now e : wf e -> wf (noteTxActivityExtTriggerLocked now e).
Proof.
  unfold noteTxActivityExtTriggerLocked. cbv zeta. case_match; by apply wf_frame.
Qed.

(** ** Lifetime probing never indexes past the cliffs *)
Lemma maybeProbe_total e : lifetime_ok (probe (best e)) -> maybeProbeUDPLifetimeLocked env e <> None.
Proof.
  intros Hok. unfold maybeProbeUDPLifetimeLocked. destruct (probe (best e)) as [p|] eqn:E; [|done].
  destruct (currentCliff_lookup p (Hok p eq_refl)) as (d & -> & _).
  destruct (negb _); [done|]. destruct (disco e); [|done]. destruct (_ <=? _); [done|].
  destruct (_ && _); [done|]. cbv zeta. by destruct (_ <? _).
Qed.

Lemma schedule_wf : keeps_wf scheduleHeartbeatForLifetimeLocked.
Proof.
  unfold scheduleHeartbeatForLifetimeLocked. apply keeps_gets_bind. intros e Hwf.
  destruct (probe (best e)) as [p|] eqn:E; [|by apply keeps_skip].
  destruct (currentCliff_lookup p (w_probe _ _ Hwf p E)) as (d & -> & _).
  revert e Hwf E. intros e Hwf E. split; [|constructor].
  apply wf_upd_probe; [|done]. by intros q _ [].
Qed.

(** Reading the probe result and going on. *)
Lemma maybeProbe_wf (f : option Z -> M unit) :
  (forall o, keeps_wf (f o)) ->
  keeps_wf (after ← gets (maybeProbeUDPLifetimeLocked env);
            match after with None => emit APanic | Some o => f o end).
Proof.
  intros Hf. apply keeps_gets_bind. intros e Hwf.
  destruct (maybeProbeUDPLifetimeLocked env e) as [o|] eqn:E; [by apply Hf|].
  by destruct (maybeProbe_total e (w_probe _ _ Hwf)).
Qed.

Lemma cliffDone_wf result txid : keeps_wf (probeUDPLifetimeCliffDoneLocked env result txid).
Proof.
  unfold probeUDPLifetimeCliffDoneLocked. apply keeps_gets_bind. intros e Hwf.
  destruct (probe (best e)) as [p|] eqn:E; [|by apply keeps_skip].
  pose proof (w_probe _ _ Hwf p E) as Hp. pose proof (lw_cliff p Hp) as Hc.
  destruct (negb (cycleActive p) || timer p || negb (bool_decide (txid = lastTxID p))) eqn:E1;
    [by apply keeps_skip|]. apply orb_false_iff in E1 as [[E1 _]%orb_false_iff _].
  destruct (negb _ || (_ <=? currentCliff p)) eqn:E2.
  - set (i := if bool_decide _ then _ else _).
    assert ((0 <=? i) && isNone (Cliffs (config p) !! Z.to_nat i) = false) as ->.
    { apply andb_false_iff. destruct (Z.leb_spec 0 i); [right|by left].
      destruct (lookup_lt_is_Some_2 (Cliffs (config p)) (Z.to_nat i)) as [d ->]; [|done].
      unfold i in *. case_match; lia. }
    split; [|constructor]. apply wf_upd_probe; [|done]. intros q _ Hq. apply resetCycle_wf. apply Hq.
  - apply orb_false_iff in E2 as [_ E2]. rewrite final_bind, acts_bind.
    eapply (maybeProbe_wf (fun o => if isNone o then skip else scheduleHeartbeatForLifetimeLocked)).
    { intros [|]; [apply schedule_wf|apply keeps_skip]. }
    apply wf_upd_probe; [|done]. intros q Hq [Hv Hcq Hi]. assert (q = p) as -> by congruence.
    bool_props. constructor; simpl; [done|lia|congruence].
Qed.

Lemma currentCliff_wf (m : M unit) :
  keeps_wf m ->
  keeps_wf (cliff ← gets (fun e => currentCliffDurationEndpointLocked (probe (best e)));
            match cliff with None => emit APanic | Some _ => m end).
Proof.
  intros Hm. apply keeps_gets_bind. intros e Hwf.
  destruct (probe (best e)) as [p|] eqn:E; [|by apply Hm].
  destruct (currentCliff_lookup p (w_probe _ _ Hwf p E)) as (d & -> & _). by apply Hm.
Qed.

(** ** Every handler keeps the invariant *)
Lemma keeps_modify_wf f : (forall e, wf e -> wf (f e)) -> keeps_wf (modify f).
Proof. apply keeps_modify. Qed.
Lemma keeps_lift {A} (f : endpoint -> endpoint * A) :
  (forall e, wf e -> wf (f e).1) -> keeps_wf (lift f).
Proof.
  intros Hf e Hwf. specialize (Hf e Hwf). unfold final, acts, lift. destruct (f e). simpl.
  split; [done|constructor].
Qed.
Lemma keeps_fresh : keeps_wf fresh.
Proof. intros e Hwf. split; [|constructor]. by apply (wf_frame e). Qed.

(** Setters of fields the invariant does not mention. *)
Ltac frame := intros ? ?; eapply wf_frame; cycle 3; [eassumption|reflexivity..].
(** Goes through a handler, using what is already known of the handlers it calls. *)
Ltac kp :=
  repeat first
    [ progress cbv zeta
    | assumption
    | solve [auto with keeps]
    | apply keeps_fresh
    | apply keeps_skip | apply keeps_ret | apply keeps_gets
    | apply keeps_emit; discriminate
    | apply maybeProbe_wf; intros ?
    | apply currentCliff_wf
    | apply keeps_bind; [|intros ?]
    | apply keeps_when
    | apply keeps_forM; intros ? _
    | apply keeps_modify_wf; solve [auto with keeps | frame]
    | match goal with |- keeps _ _ (match ?x with _ => _ end) => destruct x end ].

Hint Resolve schedule_wf cliffDone_wf noteTx_wf deleteEndpointLocked_wf keeps_fresh : keeps.

Lemma removeSentDiscoPingLocked_wf txid sp r : keeps_wf (removeSentDiscoPingLocked env txid sp r).
Proof. unfold removeSentDiscoPingLocked. kp. Qed.
Hint Resolve removeSentDiscoPingLocked_wf : keeps.

Lemma upd_probe_timer_wf b e : wf e -> wf (upd_probe (fun p => set_timer p b) e).
Proof. intros. apply wf_upd_probe; [|done]. intros p _. apply set_timer_wf. Qed.
Lemma upd_probe_txid_wf id e : wf e -> wf (upd_probe (fun p => set_lastTxID p id) e).
Proof. intros. apply wf_upd_probe; [|done]. intros p _. apply set_lastTxID_wf. Qed.
Lemma upd_probe_reset_wf e : wf e -> wf (upd_probe resetCycle e).
Proof. intros. apply wf_upd_probe; [|done]. intros p _ Hp. apply resetCycle_wf, Hp. Qed.
Lemma upd_lastPing_wf ep now e : wf e -> wf (upd_state ep (fun st => set_lastPing st now) e).
Proof. by apply wf_upd_state. Qed.
Lemma zero_lastPing_wf e :
  wf e -> wf (with_endpointStates ((fun st => set_lastPing st 0) <$> endpointStates e) e).
Proof. by apply wf_fmap_states. Qed.
Lemma clearBest_wf e : wf e -> wf (upd_best clearBestAddrLocked e).
Proof. apply wf_upd_best, clearBestAddrLocked_ok. Qed.
Hint Resolve upd_probe_timer_wf upd_probe_txid_wf upd_probe_reset_wf upd_lastPing_wf
  zero_lastPing_wf clearBest_wf : keeps.

Lemma sendOnePing_wf ep key now purpose cb s : keeps_wf (sendOnePing env ep key now purpose cb s).
Proof. unfold sendOnePing. kp. Qed.
Hint Resolve sendOnePing_wf : keeps.
Lemma startDiscoPingLocked_wf ep now purpose size cb :
  keeps_wf (startDiscoPingLocked env ep now purpose size cb).
Proof. unfold startDiscoPingLocked. kp. Qed.
Hint Resolve startDiscoPingLocked_wf : keeps.
Lemma pingLoop_wf now l sent : keeps_wf (pingLoop env now l sent).
Proof. revert sent. induction l as [|[ep st] l IH]; intros sent; simpl; kp. Qed.
Hint Resolve pingLoop_wf : keeps.
Lemma sendDiscoPingsLocked_wf now cmm : keeps_wf (sendDiscoPingsLocked env now cmm).
Proof. unfold sendDiscoPingsLocked. kp. Qed.
Lemma maybeDiscoverRelay_wf now : keeps_wf (maybeDiscoverRelay env now).
Proof. unfold maybeDiscoverRelay, discoverUDPRelayPathsLocked. kp. Qed.
Hint Resolve sendDiscoPingsLocked_wf maybeDiscoverRelay_wf : keeps.

Lemma discoPingTimeout_wf txid : keeps_wf (discoPingTimeout env txid).
Proof.
  unfold discoPingTimeout. kp. apply keeps_modify_wf. intros e Hwf. case_match; auto with keeps.
Qed.
Lemma forgetDiscoPing_wf txid : keeps_wf (forgetDiscoPing env txid).
Proof. unfold forgetDiscoPing. kp. Qed.

Lemma wgSend_wf now e : wf e -> wf (addrForWireGuardSendLocked env now e).1.
Proof. unfold addrForWireGuardSendLocked. intros. case_match; [done|]. by apply wf_upd_best. Qed.
Lemma addrForSendLocked_wf now e : wf e -> wf (addrForSendLocked env now e).1.
Proof.
  unfold addrForSendLocked. intros Hwf. case_match; [done|]. case_match; [|done].
  pose proof (wgSend_wf now e Hwf). by destruct (addrForWireGuardSendLocked env now e) as [? [? ?]].
Qed.
Lemma addrForPingSizeLocked_wf now size e : wf e -> wf (addrForPingSizeLocked env now size e).1.
Proof.
  unfold addrForPingSizeLocked. intros Hwf. case_match.
  - pose proof (addrForSendLocked_wf now e Hwf).
    by destruct (addrForSendLocked env now e) as [? [[? ?] ?]].
  - by repeat case_match.
Qed.
Lemma sendWireGuardOnlyPingsLocked_wf now : keeps_wf (sendWireGuardOnlyPingsLocked env now).
Proof. unfold sendWireGuardOnlyPingsLocked. kp. Qed.
Hint Resolve sendWireGuardOnlyPingsLocked_wf : keeps.

Lemma startCycle_wf e :
  wf e ->
  wf (upd_probe (fun p =>
        if currentCliff p =? 0
        then MkLifetime (config p) (timer p) (pl_bestAddr p) (Some (e_wall env)) true
                        (currentCliff p) (lastTxID p)
        else p) e).
Proof.
  intros Hwf. apply wf_upd_probe; [|done]. intros p _ [? ? ?]. by destruct (_ =? _).
Qed.
Hint Resolve startCycle_wf : keeps.
Lemma probeWhenSilent_wf cur after : keeps_wf (probeWhenSilent env cur after).
Proof. unfold probeWhenSilent. kp. Qed.
Hint Resolve probeWhenSilent_wf : keeps.
Lemma heartbeatForLifetime_wf : keeps_wf (heartbeatForLifetime env).
Proof. unfold heartbeatForLifetime. kp. Qed.
Lemma scheduleAfterSession_wf after : keeps_wf (scheduleAfterSession env after).
Proof. unfold scheduleAfterSession. kp. Qed.
Hint Resolve scheduleAfterSession_wf : keeps.
Lemma heartbeat_wf : keeps_wf (heartbeat env).
Proof.
  unfold heartbeat. kp.
  - apply keeps_modify_wf. intros e Hwf. apply (wf_frame (upd_probe (fun p => set_timer p false) e));
      auto with keeps.
  - apply keeps_lift, addrForSendLocked_wf.
Qed.

(** ** Candidate addresses *)
Lemma noteNetmapEndpoints_wf i eps m :
  map_Forall (fun _ st => pong_wf st) m -> map_Forall (fun a _ => omitEndpointAddrPort k a = false) m ->
  map_Forall (fun _ st => pong_wf st) (noteNetmapEndpoints env i eps m)
  /\ map_Forall (fun a _ => omitEndpointAddrPort k a = false) (noteNetmapEndpoints env i eps m).
Proof.
  revert i m. induction eps as [|ep eps IH]; intros i m Hp Ho; simpl; [done|].
  destruct (32767 <? i); [done|]. destruct (_ || _) eqn:E; [by apply IH|]. bool_props.
  apply IH; apply map_Forall_insert_2; try done.
  destruct (m !! ep) as [st|] eqn:Em; [exact (Hp ep st Em)|exact zeroES_pong_wf].
Qed.
Lemma deleteStale_wf e : wf e -> wf (deleteStale env e).
Proof.
  unfold deleteStale. generalize (map_range (endpointStates e)). intros l. revert e.
  induction l as [|[ep st] l IH]; intros e Hwf; simpl; [done|].
  apply IH. case_match; auto with keeps.
Qed.
Lemma setEndpointsLocked_wf eps e : wf e -> wf (setEndpointsLocked env eps e).
Proof.
  intros Hwf. unfold setEndpointsLocked. apply deleteStale_wf.
  destruct (wf_fmap_states (fun st => set_index st indexSentinelDeleted) e) as [Hp Ho ? ?]; [done|done|].
  destruct (noteNetmapEndpoints_wf 0 eps _ Hp Ho). by constructor.
Qed.
Lemma updateFromNode_wf n hb lt e : wf e -> wf (updateFromNode env n hb lt e).
Proof.
  intros Hwf. unfold updateFromNode. cbv zeta.
  set (e2 := setEndpointsLocked env (n_Endpoints n) _).
  apply (wf_frame e2); [reflexivity..|]. apply setEndpointsLocked_wf.
  set (e1 := upd_best _ _).
  assert (wf e1).
  { apply wf_upd_best; [|by apply (wf_frame e)]. apply setProbeUDPLifetimeConfigLocked_ok. }
  apply (wf_frame e1); [..|done]; by destruct (bool_decide _).
Qed.
Lemma addCandidateEndpoint_wf ep id e : wf e -> wf (addCandidateEndpoint env ep id e).1.
Proof.
  intros Hwf. unfold addCandidateEndpoint. destruct (omitEndpointAddrPort k ep) eqn:Eo; [done|].
  destruct (endpointStates e !! ep) as [st|] eqn:Es; simpl; [by apply wf_upd_state|].
  assert (wf (with_endpointStates
    (<[ep := set_gotPing zeroES (Some (e_wall env)) id]> (endpointStates e)) e))
    by (apply wf_insert_state; [exact zeroES_pong_wf|done|done]).
  case_match; [by apply deleteStale_wf|done].
Qed.
Lemma noteBadEndpoint_wf a e : wf e -> wf (noteBadEndpoint a e).
Proof.
  intros Hwf. unfold noteBadEndpoint. case_match; auto with keeps.
  apply wf_upd_state; [intros; apply clear_pong_wf|auto with keeps].
Qed.
Lemma noteConnectivityChange_wf e : wf e -> wf (noteConnectivityChange e).
Proof.
  intros Hwf. unfold noteConnectivityChange.
  apply (wf_fmap_states clear (upd_best clearBestAddrLocked e)); [intros; apply clear_pong_wf|auto with keeps].
Qed.
Lemma noteCallMeMaybe_wf e ep : wf e -> wf (noteCallMeMaybe env e ep).
Proof.
  intros Hwf. unfold noteCallMeMaybe, acceptCallMeMaybe. destruct (_ && _) eqn:E; [|done]. bool_props.
  set (e1 := with_isCallMeMaybeEP _ e). assert (wf e1) as Hwf1 by (by apply (wf_frame e)).
  apply wf_insert_state; [|done|done].
  destruct (endpointStates e1 !! ep) as [st|] eqn:Es; [exact (w_pongs _ _ Hwf1 ep st Es)|exact zeroES_pong_wf].
Qed.
Lemma dropUnwanted_wf e : wf e -> wf (dropUnwanted e).
Proof.
  unfold dropUnwanted. generalize (map_range (isCallMeMaybeEP e)). intros l. revert e.
  induction l as [|[ep b] l IH]; intros e Hwf; simpl; [done|].
  apply IH. destruct b; [done|]. apply deleteEndpointLocked_wf. by apply (wf_frame e).
Qed.
Hint Resolve dropUnwanted_wf : keeps.
Lemma handleCallMeMaybe_wf eps : keeps_wf (handleCallMeMaybe env eps).
Proof.
  unfold handleCallMeMaybe. kp. apply keeps_modify_wf. intros e Hwf. revert e Hwf.
  induction eps as [|ep eps IH]; intros e Hwf; simpl; [done|]. by apply IH, noteCallMeMaybe_wf.
Qed.

(** ** Pongs, pings, activity, resets, sends *)
Lemma replyOnce_wf cb lat to : keeps_wf (replyOnce cb lat to).
Proof. unfold replyOnce. kp. Qed.
Hint Resolve replyOnce_wf : keeps.
Lemma addPong_state_wf ep r e : wf e -> wf (upd_state ep (fun st => addPongReplyLocked st r) e).
Proof. apply wf_upd_state. intros. by apply addPong_wf. Qed.
Lemma promote_wf to lat size now e : wf e -> wf (upd_best (fun b => promotePong k b to lat size now) e).
Proof. apply wf_upd_best, promotePong_ok. Qed.
Hint Resolve addPong_state_wf promote_wf : keeps.
Lemma handlePongConnLocked_wf id pongSrc src : keeps_wf (handlePongConnLocked env id pongSrc src).
Proof. unfold handlePongConnLocked. kp. Qed.
Lemma discoPing_wf size : keeps_wf (discoPing env size).
Proof.
  unfold discoPing. kp. all: apply keeps_lift, addrForPingSizeLocked_wf.
Qed.
Lemma noteRecvActivity_wf src now : keeps_wf (noteRecvActivity env src now).
Proof.
  unfold noteRecvActivity. kp. apply keeps_modify_wf. intros e Hwf.
  case_match; [by apply wf_upd_best|]. case_match; [by apply wf_upd_best|done].
Qed.
Lemma classifySourcePathRemoteSlot_wf src e : wf e -> wf (classifySourcePathRemoteSlot env src e).1.
Proof.
  intros Hwf. unfold classifySourcePathRemoteSlot. destruct (isDirect src) eqn:Hd; [|done]. cbn [negb].
  pose proof (w_slots _ _ Hwf) as Hs.
  assert (Htake : forall i, (forall j s, remoteSlots e !! j = Some s -> s.1 = src -> j = i) ->
    wf (with_remoteSlots (<[i := (src, e_now env)]> (remoteSlots e)) e))
    by (intros i Hi; apply wf_slots; [by apply slots_ok_take|done]).
  destruct (firstSlot (fun s => bool_decide (s.1 = src)) (remoteSlots e)) as [i|] eqn:E1.
  { apply firstSlot_Some in E1 as (s & Hi & Es). bool_props. apply Htake.
    intros j t Hj Et. apply (so_distinct _ Hs j i t s Hj Hi); congruence. }
  assert (forall i j s, remoteSlots e !! j = Some s -> s.1 = src -> j = i) as Hno.
  { intros i j s Hj Es. pose proof (firstSlot_None _ _ _ _ E1 Hj) as Hn. cbv beta in Hn. by bool_props. }
  do 2 (match goal with |- wf (match firstSlot ?f _ with _ => _ end).1 =>
          destruct (firstSlot f (remoteSlots e)) as [i|]; [apply Htake, Hno|] end). done.
Qed.
Lemma observedFailure_wf a e : wf e -> wf (noteSourcePathObservedEndpointFailure a e).
Proof.
  intros Hwf. unfold noteSourcePathObservedEndpointFailure. case_match; [done|].
  destruct (firstSlot _ _) as [i|]; [|done]. apply wf_slots; [|done].
  apply slots_ok_clear, Hwf.
Qed.
Lemma availability_wf now d s n e : wf e -> wf (noteSourcePathDualSendAvailability now d s n e).
Proof.
  intros Hwf. unfold noteSourcePathDualSendAvailability.
  destruct (n <=? 0); [done|]. destruct s, (Mono.IsZero (sourcePathSingleSince e)), d; cbn [andb negb];
    first [done|by apply (wf_frame e)].
Qed.
Lemma resetLocked_wf : keeps_wf (resetLocked env).
Proof.
  unfold resetLocked. kp.
  - apply keeps_modify_wf. intros e Hwf. cbv zeta.
    set (e1 := with_activePaths _ _).
    assert (wf e1) as W1.
    { apply (wf_frame (with_remoteSlots [(zeroEpAddr, 0); (zeroEpAddr, 0)] (upd_best clearBestAddrLocked e)));
        try done. apply wf_slots; [apply slots_ok_zero|auto with keeps]. }
    clearbody e1. destruct (Mono.IsZero _); [by apply (zero_lastPing_wf e1)|].
    apply (zero_lastPing_wf (with_sourcePathSinglePkts 0 (with_sourcePathSingleSince 0 e1))).
    exact (wf_frame e1 (with_sourcePathSinglePkts 0 (with_sourcePathSingleSince 0 e1)) eq_refl eq_refl eq_refl W1).
  - apply keeps_modify_wf. intros e Hwf. by apply wf_upd_best; [apply resetCycleEndpointLocked_ok|].
Qed.
Hint Resolve resetLocked_wf : keeps.
Lemma dualEndpointAddrs_wf now e : wf e -> wf (dualEndpointAddrsForSendLocked env now e).1.
Proof.
  intros Hwf. unfold dualEndpointAddrsForSendLocked.
  destruct (sourcePathDirectEndpointCandidatesLocked env now e) as [[|c cs] o]; [done|].
  by apply wf_upd_best.
Qed.
Lemma planSend_wf use : keeps_wf (planSend env use).
Proof.
  unfold planSend. kp; first [apply keeps_lift, dualEndpointAddrs_wf|apply keeps_lift, addrForSendLocked_wf].
Qed.

Hint Resolve heartbeat_wf heartbeatForLifetime_wf handlePongConnLocked_wf discoPingTimeout_wf
  forgetDiscoPing_wf discoPing_wf handleCallMeMaybe_wf updateFromNode_wf setEndpointsLocked_wf
  addCandidateEndpoint_wf noteBadEndpoint_wf noteConnectivityChange_wf noteRecvActivity_wf
  classifySourcePathRemoteSlot_wf observedFailure_wf availability_wf planSend_wf : keeps.
Lemma ep_exec_wf op : keeps_wf (ep_exec env op).
Proof.
  destruct op; cbn [ep_exec]; unfold setDERPHome, stopAndReset; kp; apply keeps_modify_wf; intros e Hwf.
  - apply wf_upd_best; [apply setProbeUDPLifetimeConfigLocked_ok|done].
  - apply wf_upd_best; [apply udpRelayEndpointReady_ok|done].
  - by apply upd_lastPing_wf.
  - by apply addPong_state_wf.
  - unfold sourcePathPeerAwareEndpoint. destruct (bool_decide _); [done|]. by apply (wf_frame e).
Qed.
End Wf.
