(* ===== verification/Peers.v ===== *)
(** * The peers of a [Conn] (magicsock.go: updateNodes, upsertPeerLocked, UpsertPeer, RemovePeer,
    HandleDiscoKeyAdvertisement and the callers of setNodeKeyForEpAddr)

    The store of endpoints, the peer index of [PeerMap] over it and the network map's nodes,
    with every operation that changes which peers there are. A panic is a [peerPanic]: a nil
    dereference, or [devPanicf] when the build or the environment has it panic. *)
From S2P Require Import Prelude Netip Bytes Knobs ProbeManager SourceSockets ActivePaths BetterAddr EndpointState.
From S2P Require Import EndpointRecord Endpoint EndpointSend EndpointFacts PeerMap.

(** A node of the network map; [nd_rest] stands for the fields only compared as a whole. *)
Record Node := MkPeerNode {
  nd_ID : Z; nd_Key : NodePublic; nd_WGOnly : bool; nd_view : NodeView; nd_rest : Z
}.
#[export] Instance NodeView_eq_dec : EqDecision NodeView.
Proof. solve_decision. Defined.
#[export] Instance Node_eq_dec : EqDecision Node.
Proof. solve_decision. Defined.
Notation nd_DiscoKey n := (n_DiscoKey (nd_view n)).

Record debugFlags := MkFlags { f_heartbeatDisabled : bool; f_probeUDPLifetimeOn : bool }.
#[export] Instance debugFlags_eq_dec : EqDecision debugFlags.
Proof. solve_decision. Defined.

Record peersState := MkPeers {
  ps_eps : epHeap;
  ps_next : nat;
  ps_map : peerMap;
  peersByID : gmap Z Node;
  discoInfo : gset DiscoPublic;
  closed : bool;
  lastFlags : debugFlags
}.
Definition newPeers : peersState := MkPeers ∅ 0 newPeerMap ∅ ∅ false (MkFlags false false).
Definition with_eps (h : epHeap) (s : peersState) : peersState :=
  MkPeers h (ps_next s) (ps_map s) (peersByID s) (discoInfo s) (closed s) (lastFlags s).
Definition with_map (m : peerMap) (s : peersState) : peersState :=
  MkPeers (ps_eps s) (ps_next s) m (peersByID s) (discoInfo s) (closed s) (lastFlags s).
Definition with_peersByID (x : gmap Z Node) (s : peersState) : peersState :=
  MkPeers (ps_eps s) (ps_next s) (ps_map s) x (discoInfo s) (closed s) (lastFlags s).
Definition with_discoInfo (x : gset DiscoPublic) (s : peersState) : peersState :=
  MkPeers (ps_eps s) (ps_next s) (ps_map s) (peersByID s) x (closed s) (lastFlags s).
Definition with_flags (f : debugFlags) (s : peersState) : peersState :=
  MkPeers (ps_eps s) (ps_next s) (ps_map s) (peersByID s) (discoInfo s) (closed s) f.
(** [&endpoint{...}] *)
Definition allocEp (e : epObj) (s : peersState) : peersState * nat :=
  (MkPeers (<[ps_next s := e]> (ps_eps s)) (S (ps_next s)) (ps_map s) (peersByID s) (discoInfo s)
     (closed s) (lastFlags s), ps_next s).

Definition on_state (f : endpoint -> endpoint) (e : epObj) : epObj :=
  MkEpObj (eo_nodeID e) (eo_publicKey e) (f (eo_state e)).
Definition update_ep (ep : nat) (f : endpoint -> endpoint) (s : peersState) : peersState :=
  with_eps (alter (on_state f) ep (ps_eps s)) s.
Definition setMap (r : peerPanic + peerMap) (s : peersState) : peerPanic + peersState :=
  match r with inl x => inl x | inr m => inr (with_map m s) end.

(** What the handlers of an endpoint leave alone. *)
Definition ident (e : endpoint) : option DiscoPublic * bool := (disco e, isWireguardOnly e).
Definition held (e : endpoint) := (ident e, numStopAndReset e).

Definition nodeIDOf (ep : nat) (s : peersState) : Z := default 0 (eo_nodeID <$> ps_eps s !! ep).

Section Peers.
Context `{MapRange} `{Platform} (env : Env).
Notation crash := (e_crashOnUnexpected env).

Definition deletePeer (ep : nat) (s : peersState) : peersState :=
  let s := update_ep ep (final (stopAndReset env)) s in
  with_map (deleteEndpoint (ps_eps s) ep (ps_map s)) s.

Definition upsertPeerLocked (n : Node) (flags : debugFlags) (s : peersState) : peerPanic + peersState :=
  if nd_ID n =? 0 then devPanicf crash devZeroID s
  else if bool_decide (nd_Key n = zeroNode) then devPanicf crash devZeroKey s
  else
    let ep := endpointForNodeID (ps_map s) (nd_ID n) in
    let '(ep, s) :=
      match ep with
      | Some p => if bool_decide (pubOf (ps_eps s) p = nd_Key n) then (Some p, s) else (None, deletePeer p s)
      | None => (None, s)
      end in
    match ep with
    | Some ep =>
        if bool_decide (nd_DiscoKey n = zeroDisco) && negb (nd_WGOnly n) then inr (deletePeer ep s)
        else
          let oldDiscoKey := default zeroDisco (ps_eps s !! ep ≫= eo_disco) in
          let s := update_ep ep (updateFromNode env (nd_view n) (f_heartbeatDisabled flags)
                                   (f_probeUDPLifetimeOn flags)) s in
          setMap (upsertEndpoint (ps_eps s) ep oldDiscoKey (ps_map s)) s
    | None =>
        match endpointForNodeKey (ps_map s) (nd_Key n) with
        | Some ep =>
            devPanicf crash (if nodeIDOf ep s =? nd_ID n then devKeyNotByNodeID else devKeyMoved) s
        | None =>
            if bool_decide (nd_DiscoKey n = zeroDisco) && negb (nd_WGOnly n) then inr s
            else
              let e := with_heartbeatDisabled (f_heartbeatDisabled flags) (newEndpoint (nd_WGOnly n)) in
              let '(s, ep) := allocEp (MkEpObj (nd_ID n) (nd_Key n) e) s in
              let s := update_ep ep (updateDiscoKey (nd_DiscoKey n)) s in
              let s := update_ep ep (updateFromNode env (nd_view n) (f_heartbeatDisabled flags)
                                       (f_probeUDPLifetimeOn flags)) s in
              setMap (upsertEndpoint (ps_eps s) ep zeroDisco (ps_map s)) s
        end
    end.

Fixpoint upsertPeers (peers : list Node) (flags : debugFlags) (s : peersState) : peerPanic + peersState :=
  match peers with
  | [] => inr s
  | n :: peers' =>
      match upsertPeerLocked n flags s with
      | inl x => inl x
      | inr s => upsertPeers peers' flags s
      end
  end.
(** The endpoints are deleted while the map is ranged over: only the current one is removed. *)
Definition deleteStalePeers (keep : gset NodePublic) (s : peersState) : peersState :=
  foldl (fun s ep => if bool_decide (pubOf (ps_eps s) ep ∈ keep) then s else deletePeer ep s)
    s (forEachEndpoint (ps_map s)).
Definition newPeersOf (peers : list Node) : gmap Z Node :=
  foldl (fun x n => <[nd_ID n := n]> x) ∅ peers.
Definition updateNodes (peers : list Node) (flags : debugFlags) (s : peersState)
  : peerPanic + peersState * bool :=
  if closed s then inr (s, false)
  else if bool_decide (lastFlags s = flags) && (length peers =? size (peersByID s))%nat
          && forallb (fun n => bool_decide (peersByID s !! nd_ID n = Some n)) peers
  then inr (s, false)
  else
    match upsertPeers peers flags (with_flags flags s) with
    | inl x => inl x
    | inr s =>
        let newPeers := newPeersOf peers in
        let s := with_peersByID newPeers s in
        match nodeCount crash (ps_map s) with
        | inl x => inl x
        | inr count =>
            let s := if count =? Z.of_nat (size newPeers) then s
                     else deleteStalePeers (list_to_set ((fun x => nd_Key x.2) <$> map_to_list newPeers)) s in
            inr (with_discoInfo (filter (fun dk => knownPeerDiscoKey (ps_map s) dk = true) (discoInfo s)) s, true)
        end
    end.

Definition UpsertPeer (n : Node) (flags : debugFlags) (s : peersState) : peerPanic + peersState :=
  if closed s then inr s
  else if nd_ID n =? 0 then devPanicf crash devZeroID s
  else upsertPeerLocked n flags (with_peersByID (<[nd_ID n := n]> (peersByID s)) s).

Definition RemovePeer (nid : Z) (s : peersState) : peersState :=
  if closed s then s
  else match peersByID s !! nid with
  | None => s
  | Some prev =>
      let s := with_peersByID (delete nid (peersByID s)) s in
      let s := match endpointForNodeID (ps_map s) nid with Some ep => deletePeer ep s | None => s end in
      let dk := nd_DiscoKey prev in
      if negb (bool_decide (dk = zeroDisco)) && negb (knownPeerDiscoKey (ps_map s) dk)
      then with_discoInfo (discoInfo s ∖ {[dk]}) s else s
  end.

Definition HandleDiscoKeyAdvertisement (nodeKey : NodePublic) (discoKey : DiscoPublic) (s : peersState)
  : peerPanic + peersState :=
  match endpointForNodeKey (ps_map s) nodeKey with
  | None => inr s
  | Some ep =>
      let oldDiscoKey := default zeroDisco (ps_eps s !! ep ≫= eo_disco) in
      if bool_decide (oldDiscoKey = discoKey) then inr s
      else
        let s := with_discoInfo ({[discoKey]} ∪ discoInfo s) s in
        let s := update_ep ep (updateDiscoKey discoKey) s in
        setMap (upsertEndpoint (ps_eps s) ep oldDiscoKey (ps_map s)) s
  end.

(** [lazyEndpoint.FromPeer] and [sourcePathPeerAwareEndpoint.FromPeer]: WireGuard identified the
    sender of a packet from [src], which was believed to be from [maybeEP]. *)
Definition FromPeer (maybeEP : option nat) (src : epAddr) (pubKey : NodePublic) (s : peersState) : peersState :=
  if match maybeEP with Some ep => bool_decide (pubOf (ps_eps s) ep = pubKey) | None => false end then s
  else match endpointForNodeKey (ps_map s) pubKey with
  | None => s
  | Some _ => with_map (setNodeKeyForEpAddr (ps_eps s) src pubKey (ps_map s)) s
  end.

(** ** Runs *)
Inductive peer_step : peersState -> peersState -> Prop :=
| st_updateNodes peers flags s s' b :
    updateNodes peers flags s = inr (s', b) -> peer_step s s'
| st_UpsertPeer n flags s s' : UpsertPeer n flags s = inr s' -> peer_step s s'
| st_RemovePeer nid s : peer_step s (RemovePeer nid s)
| st_Advertisement nk dk s s' : HandleDiscoKeyAdvertisement nk dk s = inr s' -> peer_step s s'
| st_FromPeer maybeEP src nk s : peer_step s (FromPeer maybeEP src nk s)
| st_setAddr src nk s :                (* a pong or a ping from [src] *)
    peer_step s (with_map (setNodeKeyForEpAddr (ps_eps s) src nk (ps_map s)) s)
| st_handler ep f s :                  (* a handler of an endpoint *)
    (forall e, held (f e) = held e) -> peer_step s (update_ep ep f s)
| st_reset ep s :                      (* a private key that is taken away *)
    peer_step s (update_ep ep (final (stopAndReset env)) s)
| st_discoInfo dk s :                  (* discoInfoForKnownPeerLocked *)
    knownPeerDiscoKey (ps_map s) dk = true -> peer_step s (with_discoInfo ({[dk]} ∪ discoInfo s) s)
| st_close s : peer_step s (MkPeers (ps_eps s) (ps_next s) (ps_map s) (peersByID s) (discoInfo s)
                              true (lastFlags s)).
Definition reachable (s : peersState) : Prop := rtc peer_step newPeers s.
End Peers.

(** ** Facts: what the handlers keep of an endpoint *)
Definition discoOf (k : DiscoPublic) : option DiscoPublic :=
  if bool_decide (k = zeroDisco) then None else Some k.

Lemma foldl_keeps {A T} (g : endpoint -> T) (f : endpoint -> A -> endpoint) l e :
  (forall e x, g (f e x) = g e) -> g (foldl f e l) = g e.
Proof. intros Hf. revert e. induction l as [|x l IH]; intros e; simpl; [done|]. by rewrite IH. Qed.
Lemma setEndpointsLocked_ident `{MapRange} `{Platform} env eps e :
  ident (setEndpointsLocked env eps e) = ident e.
Proof.
  unfold setEndpointsLocked, deleteStale. cbv zeta. rewrite foldl_keeps; [done|].
  intros e' x. destruct (shouldDeleteLocked _ _); [|done]. unfold deleteEndpointLocked. by case_bool_decide.
Qed.
Lemma updateFromNode_ident `{MapRange} `{Platform} env n hb lt e :
  disco e <> Some zeroDisco ->
  ident (updateFromNode env n hb lt e) = (discoOf (n_DiscoKey n), isWireguardOnly e).
Proof.
  intros Hz. unfold updateFromNode. cbv zeta.
  match goal with |- ident (with_relayCapable _ ?x) = _ => change (ident (with_relayCapable _ x)) with (ident x) end.
  rewrite setEndpointsLocked_ident. unfold discoOf.
  match goal with |- ident (with_derpAddr _ ?x) = _ => change (ident (with_derpAddr _ x)) with (ident x) end.
  cbn. case_bool_decide as E; [|done]. unfold ident. cbn. f_equal. rewrite <- E.
  revert Hz; destruct (disco e) as [d|]; cbn; intros Hz; case_bool_decide; congruence.
Qed.

Lemma stopAndReset_ident `{MapRange} `{Platform} env e : ident (final (stopAndReset env) e) = ident e.
Proof.
  set (I e' := ident e' = ident e). enough (keeps I (fun _ => True) (stopAndReset env)) as K by (by apply K).
  assert (forall f, (forall e, ident (f e) = ident e) -> keeps I (fun _ => True) (modify f)) as Km.
  { intros f Hf. apply keeps_modify. unfold I. intros e' <-. apply Hf. }
  unfold stopAndReset, resetLocked.
  repeat first [ apply keeps_bind; [|intros ?] | apply keeps_gets | apply keeps_when | apply keeps_emit; done
    | apply keeps_forM; intros ? _ | apply keeps_skip | apply keeps_ret
    | apply Km; intros e'; cbv zeta; try destruct (Mono.IsZero _); reflexivity
    | progress unfold removeSentDiscoPingLocked, probeUDPLifetimeCliffDoneLocked
    | match goal with |- keeps _ _ (match ?x with _ => _ end) => destruct x end ].
Qed.

(** ** The invariant *)
Record peers_ok (s : peersState) : Prop := {
  po_map : pm_ok (ps_eps s) (ps_map s);
  po_fresh : forall ep e, ps_eps s !! ep = Some e -> (ep < ps_next s)%nat;
  po_named : forall ep e, ps_eps s !! ep = Some e ->
    eo_disco e <> Some zeroDisco /\ eo_nodeID e <> 0 /\ eo_publicKey e <> zeroNode
}.
Lemma newPeers_ok : peers_ok newPeers.
Proof. split; [apply newPeerMap_ok|set_solver..]. Qed.

(** Heaps that agree on what the index depends on. *)
Definition same_ident (h h' : epHeap) : Prop :=
  forall ep e, h !! ep = Some e -> exists e', h' !! ep = Some e' /\ eo_publicKey e' = eo_publicKey e
    /\ eo_nodeID e' = eo_nodeID e /\ ident (eo_state e') = ident (eo_state e).
Lemma same_ident_peers h h' : same_ident h h' -> same_peers h h'.
Proof. intros Hs ep e He. destruct (Hs _ _ He) as (e' & ? & ? & ? & _). eauto. Qed.

Lemma speaks_heap h h' m nk dk :
  idx_ok h m ->
  (forall p i e, byNodeKey m !! nk = Some p -> infos m !! p = Some i -> h !! pi_ep i = Some e ->
    exists e', h' !! pi_ep i = Some e' /\ ident (eo_state e') = ident (eo_state e)) ->
  speaks h' m nk dk <-> speaks h m nk dk.
Proof.
  intros Hx Hs. unfold speaks, eo_wgOnly, eo_disco. split; intros (p & i & e & Hp & Hi & He & W & D).
  - destruct (ix_key _ _ Hx _ _ Hp) as (i0 & e0 & Hi0 & He0 & _). simplify_eq.
    destruct (Hs p i e0) as (e' & He' & [= Ed Ew]); try done. exists p, i, e0. simplify_eq. split_and!; congruence.
  - destruct (Hs p i e) as (e' & He' & [= Ed Ew]); try done. exists p, i, e'. split_and!; congruence.
Qed.
Lemma pm_ok_ident h h' m : same_ident h h' -> pm_ok h m -> pm_ok h' m.
Proof.
  intros Hs Hm. pose proof (pm_idx _ _ Hm) as Hx. split.
  - eapply idx_ok_heap; [by apply same_ident_peers|done].
  - intros dk nk. fold (speaks h' m nk dk). rewrite (speaks_heap h h') by (try done; intros p i e _ _ He;
      destruct (Hs _ _ He) as (e' & ? & _ & _ & ?); eauto). apply (pm_disco _ _ Hm).
  - intros nk p i e' Hp Hi He' W. destruct (ix_key _ _ Hx _ _ Hp) as (i0 & e & Hi0 & He & _). simplify_eq.
    destruct (Hs _ _ He) as (e1 & He1 & _ & _ & [= Ed Ew]). simplify_eq. unfold eo_disco, eo_wgOnly in *.
    rewrite Ed. apply (pm_speaks _ _ Hm nk p i e); try done. unfold eo_wgOnly. congruence.
Qed.

Lemma alter_same_ident (h : epHeap) ep f :
  (forall e, h !! ep = Some e -> ident (f (eo_state e)) = ident (eo_state e)) ->
  same_ident h (alter (on_state f) ep h).
Proof.
  intros Hf q e He. destruct (decide (ep = q)) as [<-|N].
  - exists (on_state f e). rewrite lookup_alter_eq, He. split; [done|]. cbn. auto.
  - exists e. by rewrite lookup_alter_ne.
Qed.
(** A handler that keeps the key keeps the invariant. *)
Lemma update_ep_ok ep f s :
  peers_ok s -> (forall e, ident (f e) = ident e) -> peers_ok (update_ep ep f s).
Proof.
  intros Hs Hf. split; cbn.
  - apply (pm_ok_ident (ps_eps s)); [|apply (po_map _ Hs)]. apply alter_same_ident. auto.
  - intros q e. rewrite lookup_alter_Some. intros [(<- & e0 & He & ->)|[_ He]]; by eapply po_fresh.
  - intros q e. rewrite lookup_alter_Some. intros [(<- & e0 & He & ->)|[_ He]]; [|by eapply po_named].
    destruct (po_named _ Hs _ _ He) as (A & B & C). split_and!; [|done|done].
    unfold eo_disco in *. cbn. specialize (Hf (eo_state e0)). injection Hf as Hd _. by rewrite Hd.
Qed.

Lemma endpointForNodeID_peer h m id ep :
  idx_ok h m -> endpointForNodeID m id = Some ep ->
  exists nk e, is_peer h m nk ep e /\ eo_nodeID e = id.
Proof.
  intros Hx E. unfold endpointForNodeID, endpointOf in E.
  destruct (byNodeID m !! id) as [p|] eqn:Hp; [|done]. simpl in E.
  destruct (proj1 (ix_id _ _ Hx _ _) Hp) as (nk & i & e & Hk & Hi & He & Hid).
  destruct (ix_key _ _ Hx _ _ Hk) as (i0 & e0 & Hi0 & He0 & Hpk). rewrite Hi in E. simplify_eq/=.
  exists (eo_publicKey e), e. split; [|done]. exists p, i. done.
Qed.
Lemma endpointForNodeKey_peer h m nk ep :
  idx_ok h m -> endpointForNodeKey m nk = Some ep -> exists e, is_peer h m nk ep e.
Proof.
  intros Hx E. unfold endpointForNodeKey, endpointOf in E. case_bool_decide; [done|].
  destruct (byNodeKey m !! nk) as [p|] eqn:Hp; [|done]. simpl in E.
  destruct (ix_key _ _ Hx _ _ Hp) as (i & e & Hi & He & Hpk). rewrite Hi in E. simplify_eq/=.
  exists e, p, i. done.
Qed.
Lemma is_peer_endpointForNodeKey h m nk ep e :
  is_peer h m nk ep e -> nk <> zeroNode -> endpointForNodeKey m nk = Some ep.
Proof.
  intros (p & i & Hk & Hi & Hep & _) N. unfold endpointForNodeKey, endpointOf.
  rewrite bool_decide_false, Hk by done. simpl. rewrite Hi. simpl. by rewrite Hep.
Qed.
Lemma is_peer_endpointForNodeID h m nk ep e :
  idx_ok h m -> is_peer h m nk ep e -> endpointForNodeID m (eo_nodeID e) = Some ep.
Proof.
  intros Hx (p & i & Hk & Hi & Hep & He & Hpk). unfold endpointForNodeID, endpointOf.
  assert (byNodeID m !! eo_nodeID e = Some p) as -> by (apply (ix_id _ _ Hx); exists nk, i, e; by rewrite Hep).
  simpl. rewrite Hi. simpl. by rewrite Hep.
Qed.

(** ** Facts: the operations keep the invariant *)
Section Ok.
Context `{MapRange} `{Platform} (env : Env).

Lemma is_peer_alter (h : epHeap) m nk ep e f q :
  is_peer h m nk ep e -> exists e', is_peer (alter (on_state f) q h) m nk ep e'
    /\ eo_nodeID e' = eo_nodeID e.
Proof.
  intros (p & i & Hk & Hi & Hep & He & Hpk). destruct (decide (q = ep)) as [->|N].
  - exists (on_state f e). split; [|done]. exists p, i. rewrite lookup_alter_eq, He. done.
  - exists e. split; [|done]. exists p, i. by rewrite lookup_alter_ne.
Qed.

Lemma deletePeer_ok ep s nk e :
  peers_ok s -> is_peer (ps_eps s) (ps_map s) nk ep e ->
  peers_ok (deletePeer env ep s)
  /\ byNodeKey (ps_map (deletePeer env ep s)) = delete nk (byNodeKey (ps_map s))
  /\ infos (ps_map (deletePeer env ep s)) = infos (ps_map s)
  /\ byNodeID (ps_map (deletePeer env ep s)) = delete (eo_nodeID e) (byNodeID (ps_map s))
  /\ same_ident (ps_eps s) (ps_eps (deletePeer env ep s)).
Proof.
  intros Hs Hp. unfold deletePeer. set (s1 := update_ep ep _ s).
  assert (peers_ok s1) as H1 by (apply update_ep_ok; [done|intros; apply stopAndReset_ident]).
  destruct (is_peer_alter _ _ _ _ _ (final (stopAndReset env)) ep Hp) as (e' & Hp' & Eid).
  destruct (deleteEndpoint_ok (ps_eps s1) (ps_map s1) nk ep e' (po_map _ H1) Hp') as (Hm & EK & EI & ED).
  rewrite Eid in ED. split_and!; [|done|done|done|].
  - split; [done|apply (po_fresh _ H1)|apply (po_named _ H1)].
  - apply alter_same_ident. intros. apply stopAndReset_ident.
Qed.

End Ok.

(** [upsertEndpoint] of a peer the index knows, after its key may have changed. *)
Section UpsertKnown.
Context `{MapRange} (s : peersState) (nk : NodePublic) (ep : nat) (e : epObj) (f : endpoint -> endpoint).
Hypotheses (Hs : peers_ok s) (Hp : is_peer (ps_eps s) (ps_map s) nk ep e)
  (Hw : isWireguardOnly (f (eo_state e)) = eo_wgOnly e) (Hz : disco (f (eo_state e)) <> Some zeroDisco).
Notation h := (ps_eps s).
Notation m := (ps_map s).
Notation h' := (alter (on_state f) ep (ps_eps s)).
Notation e' := (on_state f e).
Notation old := (default zeroDisco (eo_disco e)).

Lemma known_heap : h' !! ep = Some e' /\ same_peers h h'.
Proof.
  destruct Hp as (p & i & Hk & Hi & Hep & He & Hpk). split; [by rewrite lookup_alter_eq, He|].
  intros q x Hq. destruct (decide (ep = q)) as [<-|]; [|rewrite lookup_alter_ne by done; eauto].
  rewrite lookup_alter_eq, Hq. eexists; done.
Qed.
Lemma known_idx : idx_ok h' m /\ is_peer h' m (eo_publicKey e') ep e'.
Proof.
  destruct known_heap as [He' Sp]. destruct Hp as (p & i & Hk & Hi & Hep & He & Hpk). split.
  - eapply idx_ok_heap; [done|apply pm_idx, po_map, Hs].
  - exists p, i. cbn. by rewrite Hpk.
Qed.
Lemma known_upsert : upsertEndpoint h' ep old m = upsertDisco h' e' old m.
Proof.
  destruct known_heap as [He' _]. destruct known_idx as [Hx' _].
  destruct Hp as (p & i & Hk & Hi & Hep & He & Hpk).
  unfold upsertEndpoint, upsertDisco. rewrite He'. destruct (po_named _ Hs _ _ He) as (_ & Nid & _).
  rewrite (proj2 (Z.eqb_neq _ _)) by done. change (eo_publicKey e') with (eo_publicKey e). rewrite Hpk, Hk.
  assert (with_byNodeID <[eo_nodeID e' := p]> m = m) as ->; [|done].
  unfold with_byNodeID. rewrite insert_id; [by destruct m|]. apply (ix_id _ _ Hx'). exists nk, i, e'.
  by rewrite Hep.
Qed.
(** The other peers' endpoints are other objects. *)
Lemma known_other nk' q j :
  nk' <> nk -> byNodeKey m !! nk' = Some q -> infos m !! q = Some j -> h' !! pi_ep j = h !! pi_ep j.
Proof.
  intros N Hq Hj. destruct Hp as (p & i & Hk & Hi & Hep & He & Hpk). rewrite lookup_alter_ne; [done|].
  intros ->. destruct (ix_key _ _ (pm_idx _ _ (po_map _ Hs)) _ _ Hq) as (j' & x' & ? & ? & ?). simplify_eq.
Qed.
Lemma known_disco : disco_else h' e' (fun dk => dk = old) m.
Proof.
  pose proof (po_map _ Hs) as Hm. pose proof (pm_idx _ _ Hm) as Hx.
  pose proof Hp as (p & i & Hk & Hi & Hep & He & Hpk). split; cbn; rewrite Hpk.
  - intros dk nk' N. rewrite (speaks_heap h h'); [apply (pm_disco _ _ Hm)|done|].
    intros q j x Hq Hj Hx0. exists x. by rewrite (known_other nk' q j).
  - intros dk Hin%(pm_disco _ _ Hm). assert (speaks h m (eo_publicKey e) dk) as Sx by (by rewrite Hpk).
    apply (speaks_self h m e ep) in Sx as [W D]; [|by rewrite Hpk]. rewrite D. split; [done|].
    unfold eo_wgOnly. cbn. by rewrite Hw.
Qed.

Lemma upsert_known m' :
  upsertEndpoint h' ep old m = inr m' ->
  peers_ok (with_map m' (update_ep ep f s)) /\ byNodeKey m' = byNodeKey m
  /\ (forall p, pi_ep <$> infos m' !! p = pi_ep <$> infos m !! p).
Proof.
  rewrite known_upsert. intros Hu. destruct known_idx as [Hx' Hp'].
  destruct (upsertDisco_ok h' e' ep old m m' Hx' Hp' known_disco Hu) as (Hx2 & Hd2 & Sh & Sk).
  destruct known_heap as [He' _]. pose proof Hp as (p & i & Hk & Hi & Hep & He & Hpk).
  pose proof Sh as (EK & _ & _ & _ & EP). cbn in EK, EP. split; [|done]. split; cbn.
  - split; [done|done|]. intros nk' q j x Hq Hj Hx0 W. rewrite EK in Hq.
    specialize (EP q). rewrite Hj in EP. destruct (infos m !! q) as [j0|] eqn:Hj0; [|done].
    injection EP as EP. rewrite EP in Hx0. destruct (decide (nk' = nk)) as [->|N].
    + assert (x = e') as ->; [|by apply Sk]. simplify_eq. congruence.
    + rewrite (known_other nk' q j0) in Hx0 by done. by apply (pm_speaks _ _ (po_map _ Hs) nk' q j0).
  - intros q x. rewrite lookup_alter_Some. intros [(<- & e0 & He0 & ->)|[_ ?]]; by eapply po_fresh.
  - intros q x. rewrite lookup_alter_Some. intros [(<- & e0 & He0 & ->)|[_ ?]]; [|by eapply po_named].
    simplify_eq. destruct (po_named _ Hs _ _ He) as (_ & B & C). done.
Qed.

(** It panics exactly when the peer speaks disco and has lost its key. *)
Lemma upsert_known_panic x :
  upsertEndpoint h' ep old m = inl x <->
  x = panicNilDisco /\ eo_wgOnly e = false /\ disco (f (eo_state e)) = None.
Proof.
  rewrite known_upsert. unfold upsertDisco. change (eo_wgOnly e') with (isWireguardOnly (f (eo_state e))).
  change (eo_disco e') with (disco (f (eo_state e))). rewrite Hw.
  destruct (eo_wgOnly e), (disco (f (eo_state e))); naive_solver.
Qed.
End UpsertKnown.

(** [upsertEndpoint] of an endpoint no index knows. *)
Lemma upsert_new `{MapRange} (s : peersState) e m' :
  peers_ok s -> byNodeKey (ps_map s) !! eo_publicKey e = None ->
  byNodeID (ps_map s) !! eo_nodeID e = None ->
  eo_disco e <> Some zeroDisco -> eo_nodeID e <> 0 -> eo_publicKey e <> zeroNode ->
  upsertEndpoint (<[ps_next s := e]> (ps_eps s)) (ps_next s) zeroDisco (ps_map s) = inr m' ->
  peers_ok (with_map m' (allocEp e s).1)
  /\ (exists p, byNodeKey m' = <[eo_publicKey e := p]> (byNodeKey (ps_map s))
      /\ (forall q, pi_ep <$> infos m' !! q
                    = if bool_decide (q = p) then Some (ps_next s) else pi_ep <$> infos (ps_map s) !! q)
      /\ (forall nk, byNodeKey (ps_map s) !! nk <> Some p)).
Proof.
  intros Hs Nk Nid Nz N0 Nn. pose proof (po_map _ Hs) as Hm. pose proof (pm_idx _ _ Hm) as Hx.
  set (h' := <[ps_next s := e]> (ps_eps s)). set (ep := ps_next s). set (m := ps_map s) in *.
  assert (forall q x, ps_eps s !! q = Some x -> h' !! q = Some x) as Old.
  { intros q x Hq. unfold h'. rewrite lookup_insert_ne; [done|]. intros <-. apply (po_fresh _ Hs) in Hq. lia. }
  assert (idx_ok h' m) as Hx' by (eapply idx_ok_heap; [|done]; intros q x Hq; eauto).
  assert (h' !! ep = Some e) as He by apply lookup_insert_eq.
  destruct (addPeer_ok h' ep e m Hx' He Nk Nid) as [Hx1 Hp1].
  assert (upsertEndpoint h' ep zeroDisco m = upsertDisco h' e zeroDisco (addPeer ep e m)) as ->.
  { unfold upsertEndpoint. rewrite He, (proj2 (Z.eqb_neq _ _)), Nk by done. done. }
  assert (forall nk p, byNodeKey m !! nk = Some p -> nk <> eo_publicKey e /\ p <> nextInfo m) as Frsh.
  { intros nk p Hk. split; [congruence|]. intros ->. by apply (nextInfo_unused _ _ Hx) in Hk. }
  assert (forall nk dk, nk <> eo_publicKey e -> speaks h' (addPeer ep e m) nk dk <-> speaks (ps_eps s) m nk dk) as Sp.
  { intros nk dk N. rewrite <- (speaks_heap (ps_eps s) h') by (try done; eauto). unfold speaks, addPeer, allocInfo.
    cbn. setoid_rewrite lookup_insert_ne at 1; [|done]. split; intros (p & i & x & Hk & Hi & Hr); exists p, i, x.
    - rewrite lookup_insert_ne in Hi; [done|]. by destruct (Frsh _ _ Hk).
    - rewrite lookup_insert_ne; [done|]. by destruct (Frsh _ _ Hk). }
  intros Hu. destruct (upsertDisco_ok h' e ep zeroDisco (addPeer ep e m) m' Hx1 Hp1) as (Hx2 & Hd2 & Sh & Sk); [|done|].
  { split; [intros dk nk N; rewrite Sp by done; apply (pm_disco _ _ Hm)|].
    intros dk (p & i & x & Hk & _)%(pm_disco _ _ Hm). exfalso. by destruct (Frsh _ _ Hk). }
  pose proof Sh as (EK & _ & _ & _ & EP). cbn in EK, EP. split.
  2: { exists (nextInfo m). split; [done|]. split; [|apply (nextInfo_unused _ _ Hx)]. intros q. rewrite EP.
       case_bool_decide; [subst; by rewrite lookup_insert_eq|by rewrite lookup_insert_ne]. }
  split; cbn.
  - split; [done|done|]. intros nk q j x Hq Hj Hx0 W. rewrite EK in Hq. specialize (EP q). rewrite Hj in EP.
    apply lookup_insert_Some in Hq as [[<- <-]|[N Hq]].
    + rewrite lookup_insert_eq in EP. injection EP as EP. change (h' !! pi_ep j = Some x) in Hx0.
      rewrite EP, He in Hx0. simplify_eq. by apply Sk.
    + rewrite lookup_insert_ne in EP by (by destruct (Frsh _ _ Hq)).
      destruct (ix_key _ _ Hx _ _ Hq) as (j0 & x0 & Hj0 & Hx1' & _). rewrite Hj0 in EP. injection EP as EP.
      apply Old in Hx1' as Hx1''. assert (x = x0) as -> by (change (h' !! pi_ep j = Some x) in Hx0; congruence).
      by apply (pm_speaks _ _ Hm nk q j0).
  - intros q x. rewrite lookup_insert_Some. intros [[<- _]|[_ Hq%(po_fresh _ Hs)]]; lia.
  - intros q x. rewrite lookup_insert_Some. intros [[<- <-]|[_ ?]]; [done|by eapply po_named].
Qed.
Lemma upsert_new_panic `{MapRange} (h : epHeap) ep e m x :
  h !! ep = Some e -> eo_nodeID e <> 0 ->
  upsertEndpoint h ep zeroDisco m = inl x <->
  x = panicNilDisco /\ eo_wgOnly e = false /\ eo_disco e = None.
Proof.
  intros He N0. unfold upsertEndpoint. rewrite He, (proj2 (Z.eqb_neq _ _)) by done.
  destruct (byNodeKey m !! eo_publicKey e); cbn; destruct (eo_wgOnly e), (eo_disco e); naive_solver.
Qed.

Section Upsert.
Context `{MapRange} `{Platform} (env : Env).

(** The endpoint [upsertPeerLocked] goes on with: the one under the node's id, unless its key
    changed, in which case it is deleted first. *)
Definition chooseEp (n : Node) (s : peersState) : option nat * peersState :=
  match endpointForNodeID (ps_map s) (nd_ID n) with
  | Some p => if bool_decide (pubOf (ps_eps s) p = nd_Key n) then (Some p, s) else (None, deletePeer env p s)
  | None => (None, s)
  end.
Lemma chooseEp_ok n s ep s1 :
  peers_ok s -> chooseEp n s = (ep, s1) ->
  peers_ok s1 /\ match ep with
  | Some q => s1 = s /\ exists e, is_peer (ps_eps s) (ps_map s) (nd_Key n) q e /\ eo_nodeID e = nd_ID n
  | None => byNodeID (ps_map s1) !! nd_ID n = None
  end.
Proof.
  intros Hs. unfold chooseEp. pose proof (pm_idx _ _ (po_map _ Hs)) as Hx.
  destruct (endpointForNodeID (ps_map s) (nd_ID n)) as [p|] eqn:E.
  - destruct (endpointForNodeID_peer _ _ _ _ Hx E) as (nk & e & Hp & Hid).
    assert (pubOf (ps_eps s) p = nk) as Pub
      by (destruct Hp as (? & ? & ? & ? & ? & He & Hpk); unfold pubOf; by rewrite He).
    case_bool_decide as B; intros [= <- <-].
    + split; [done|]. split; [done|]. exists e. by rewrite <- B, Pub.
    + destruct (deletePeer_ok env p s nk e Hs Hp) as (Hs1 & _ & _ & EI & _). split; [done|].
      rewrite EI, Hid. apply lookup_delete_eq.
  - intros [= <- <-]. split; [done|]. unfold endpointForNodeID, endpointOf in E.
    destruct (byNodeID (ps_map s) !! nd_ID n) as [p|] eqn:Hp; [|done]. simpl in E.
    apply (ix_id _ _ Hx) in Hp as (nk & i & e & Hk & Hi & _). rewrite Hi in E. done.
Qed.

(** The object a new endpoint ends up as. *)
Definition newPeerObj (n : Node) (flags : debugFlags) : epObj :=
  on_state (updateFromNode env (nd_view n) (f_heartbeatDisabled flags) (f_probeUDPLifetimeOn flags))
    (on_state (updateDiscoKey (nd_DiscoKey n))
       (MkEpObj (nd_ID n) (nd_Key n)
          (with_heartbeatDisabled (f_heartbeatDisabled flags) (newEndpoint (nd_WGOnly n))))).
Lemma newPeerObj_ident n flags :
  ident (eo_state (newPeerObj n flags)) = (discoOf (nd_DiscoKey n), nd_WGOnly n).
Proof.
  unfold newPeerObj. cbn [on_state eo_state]. rewrite updateFromNode_ident; [done|].
  cbn. unfold updateDiscoKey. cbn. case_bool_decide; congruence.
Qed.
Definition supported (n : Node) : bool :=
  negb (bool_decide (nd_DiscoKey n = zeroDisco)) || nd_WGOnly n.

Lemma upsertPeerLocked_eq n flags s :
  upsertPeerLocked env n flags s =
  if (nd_ID n =? 0) || bool_decide (nd_Key n = zeroNode)
  then devPanicf (e_crashOnUnexpected env) (if nd_ID n =? 0 then devZeroID else devZeroKey) s
  else
    let '(ep, s) := chooseEp n s in
    match ep with
    | Some ep =>
        if negb (supported n) then inr (deletePeer env ep s)
        else
          let f := updateFromNode env (nd_view n) (f_heartbeatDisabled flags) (f_probeUDPLifetimeOn flags) in
          setMap (upsertEndpoint (alter (on_state f) ep (ps_eps s)) ep
                    (default zeroDisco (ps_eps s !! ep ≫= eo_disco)) (ps_map s)) (update_ep ep f s)
    | None =>
        match endpointForNodeKey (ps_map s) (nd_Key n) with
        | Some ep =>
            devPanicf (e_crashOnUnexpected env) (if nodeIDOf ep s =? nd_ID n then devKeyNotByNodeID else devKeyMoved) s
        | None =>
            if negb (supported n) then inr s
            else
              let e := newPeerObj n flags in
              setMap (upsertEndpoint (<[ps_next s := e]> (ps_eps s)) (ps_next s) zeroDisco (ps_map s))
                (allocEp e s).1
        end
    end.
Proof.
  unfold upsertPeerLocked. fold (chooseEp n s). unfold supported. rewrite negb_orb, negb_involutive.
  destruct (nd_ID n =? 0); [done|]. destruct (bool_decide (nd_Key n = zeroNode)); [done|]. cbn [orb].
  destruct (chooseEp n s) as [[ep|] s1]; [done|].
  destruct (endpointForNodeKey _ _); [done|]. destruct (_ && _); [done|].
  unfold allocEp, update_ep, with_eps. cbn. rewrite !alter_insert_eq. done.
Qed.

Lemma upsert_node_disco n flags e :
  supported n = true -> disco e <> Some zeroDisco ->
  let f := updateFromNode env (nd_view n) (f_heartbeatDisabled flags) (f_probeUDPLifetimeOn flags) in
  isWireguardOnly (f e) = isWireguardOnly e /\ disco (f e) = discoOf (nd_DiscoKey n)
  /\ disco (f e) <> Some zeroDisco.
Proof.
  intros Hsup Hz f. pose proof (updateFromNode_ident env (nd_view n) (f_heartbeatDisabled flags)
    (f_probeUDPLifetimeOn flags) e Hz) as E.
  assert (disco (f e) = discoOf (nd_DiscoKey n)) as -> by exact (f_equal fst E).
  split_and!; [exact (f_equal snd E)|done|]. unfold discoOf. case_bool_decide; congruence.
Qed.

(** ** The table of peers the operations promise: node keys with their node ids *)
Definition table (s : peersState) : gmap NodePublic Z :=
  omap (fun p => infos (ps_map s) !! p ≫= fun i => eo_nodeID <$> ps_eps s !! pi_ep i) (byNodeKey (ps_map s)).
Definition tUpsert (n : Node) (t : gmap NodePublic Z) : gmap NodePublic Z :=
  if (nd_ID n =? 0) || bool_decide (nd_Key n = zeroNode) then t
  else
    let t := filter (fun x : NodePublic * Z => ~ (x.2 = nd_ID n /\ x.1 <> nd_Key n)) t in
    match t !! nd_Key n with
    | Some id => if supported n || negb (id =? nd_ID n) then t else delete (nd_Key n) t
    | None => if supported n then <[nd_Key n := nd_ID n]> t else t
    end.

Lemma table_lookup s nk id :
  peers_ok s -> table s !! nk = Some id <->
  exists ep e, is_peer (ps_eps s) (ps_map s) nk ep e /\ eo_nodeID e = id.
Proof.
  intros Hs. pose proof (pm_idx _ _ (po_map _ Hs)) as Hx. unfold table. rewrite lookup_omap_Some. split.
  - intros (p & E & Hk). destruct (ix_key _ _ Hx _ _ Hk) as (i & e & Hi & He & Hpk).
    rewrite Hi in E. simpl in E. rewrite He in E. injection E as <-. exists (pi_ep i), e. split; [|done]. by exists p, i.
  - intros (ep & e & (p & i & Hk & Hi & Hep & He & Hpk) & <-). exists p. split; [|done].
    rewrite Hi. simpl. by rewrite Hep, He.
Qed.
Lemma table_ids s nk nk' id :
  peers_ok s -> table s !! nk = Some id -> table s !! nk' = Some id -> nk = nk'.
Proof.
  intros Hs A B. pose proof (pm_idx _ _ (po_map _ Hs)) as Hx.
  apply (table_lookup _ _ _ Hs) in A as (ep & e & (p & i & Hk & Hi & Hep & He & Hpk) & Hid).
  apply (table_lookup _ _ _ Hs) in B as (ep' & e' & (p' & i' & Hk' & Hi' & Hep' & He' & Hpk') & Hid').
  assert (byNodeID (ps_map s) !! id = Some p) by (apply (ix_id _ _ Hx); exists nk, i, e; by rewrite Hep).
  assert (byNodeID (ps_map s) !! id = Some p') by (apply (ix_id _ _ Hx); exists nk', i', e'; by rewrite Hep').
  simplify_eq. by eapply ix_inj.
Qed.

(** The table depends on the key index and on what no handler changes. *)
Lemma table_frame s s' :
  peers_ok s -> byNodeKey (ps_map s') = byNodeKey (ps_map s) ->
  (forall p, pi_ep <$> infos (ps_map s') !! p = pi_ep <$> infos (ps_map s) !! p) ->
  same_peers (ps_eps s) (ps_eps s') -> table s' = table s.
Proof.
  intros Hs EK EI Sp. apply map_eq. intros nk. unfold table. rewrite !lookup_omap, EK.
  destruct (byNodeKey (ps_map s) !! nk) as [p|] eqn:Hk; [|done]. simpl.
  destruct (ix_key _ _ (pm_idx _ _ (po_map _ Hs)) _ _ Hk) as (i & e & Hi & He & _).
  specialize (EI p). rewrite Hi in *. simpl in EI.
  destruct (infos (ps_map s') !! p) as [i'|]; [|done]. injection EI as EI. simpl.
  rewrite EI, He. destruct (Sp _ _ He) as (e' & He' & _ & Eid). rewrite He'. simpl. by rewrite Eid.
Qed.
Lemma deletePeer_table ep s nk e :
  peers_ok s -> is_peer (ps_eps s) (ps_map s) nk ep e ->
  table (deletePeer env ep s) = delete nk (table s).
Proof.
  intros Hs Hp. destruct (deletePeer_ok env ep s nk e Hs Hp) as (_ & EK & EI & _ & Si).
  apply map_eq. intros nk'. unfold table. rewrite lookup_omap, EK, EI.
  destruct (decide (nk = nk')) as [<-|N]; [by rewrite !lookup_delete_eq|].
  rewrite !lookup_delete_ne, lookup_omap by done.
  destruct (byNodeKey (ps_map s) !! nk') as [p|] eqn:Hk; [|done]. cbn [mbind option_bind].
  destruct (ix_key _ _ (pm_idx _ _ (po_map _ Hs)) _ _ Hk) as (i & x & Hi & He & _). rewrite Hi. cbn [mbind option_bind].
  destruct (Si _ _ He) as (x' & He' & _ & Eid & _). rewrite He, He'. cbn. by rewrite Eid.
Qed.

Lemma chooseEp_table n s :
  peers_ok s ->
  table (chooseEp n s).2
  = filter (fun x : NodePublic * Z => ~ (x.2 = nd_ID n /\ x.1 <> nd_Key n)) (table s).
Proof.
  intros Hs. unfold chooseEp. pose proof (pm_idx _ _ (po_map _ Hs)) as Hx.
  assert ((forall nk, nk <> nd_Key n -> table s !! nk <> Some (nd_ID n)) -> table s
    = filter (fun x : NodePublic * Z => ~ (x.2 = nd_ID n /\ x.1 <> nd_Key n)) (table s)) as Id.
  { intros Hn. symmetry. apply map_filter_id. intros nk id Ht [E N]. simpl in *. subst id. by apply (Hn nk). }
  destruct (endpointForNodeID (ps_map s) (nd_ID n)) as [p|] eqn:E.
  - destruct (endpointForNodeID_peer _ _ _ _ Hx E) as (nk & e & Hp & Hid).
    assert (table s !! nk = Some (nd_ID n)) as Ht by (apply table_lookup; eauto).
    assert (pubOf (ps_eps s) p = nk) as ->
      by (destruct Hp as (? & ? & ? & ? & ? & He & Hpk); unfold pubOf; by rewrite He).
    case_bool_decide as B; cbn [snd].
    + apply Id. intros nk' N Ht'. apply N. rewrite <- B. by eapply table_ids.
    + rewrite (deletePeer_table _ _ _ _ Hs Hp). apply map_eq. intros nk'. apply option_eq. intros id.
      rewrite lookup_delete_Some, map_lookup_filter_Some. simpl. split.
      * intros [N Ht']. split; [done|]. intros [-> _]. apply N. by eapply table_ids.
      * intros [Ht' N]. split; [|done]. intros <-. apply N. split; [congruence|done].
  - apply Id. intros nk _ Ht. apply (table_lookup _ _ _ Hs) in Ht as (ep & e & Hp & Hid).
    apply (is_peer_endpointForNodeID _ _ _ _ _ Hx) in Hp. congruence.
Qed.

Lemma upsert_new_table s e m' :
  peers_ok s -> byNodeKey (ps_map s) !! eo_publicKey e = None ->
  byNodeID (ps_map s) !! eo_nodeID e = None ->
  eo_disco e <> Some zeroDisco -> eo_nodeID e <> 0 -> eo_publicKey e <> zeroNode ->
  upsertEndpoint (<[ps_next s := e]> (ps_eps s)) (ps_next s) zeroDisco (ps_map s) = inr m' ->
  table (with_map m' (allocEp e s).1) = <[eo_publicKey e := eo_nodeID e]> (table s).
Proof.
  intros Hs Nk Nid Nz N0 Nn Hu. destruct (upsert_new s e m') as (_ & p & EK & EI & Np); try done.
  apply map_eq. intros nk. unfold table. rewrite lookup_omap. cbn [ps_map with_map]. rewrite EK.
  destruct (decide (eo_publicKey e = nk)) as [<-|N].
  - rewrite !lookup_insert_eq. cbn [mbind option_bind]. specialize (EI p). rewrite bool_decide_true in EI by done.
    destruct (infos m' !! p) as [i|]; [|done]. injection EI as EI. cbn. by rewrite EI, lookup_insert_eq.
  - rewrite !lookup_insert_ne, lookup_omap by done. destruct (byNodeKey (ps_map s) !! nk) as [q|] eqn:Hk; [|done].
    cbn [mbind option_bind]. specialize (EI q). rewrite bool_decide_false in EI by (intros ->; by apply (Np nk)).
    destruct (ix_key _ _ (pm_idx _ _ (po_map _ Hs)) _ _ Hk) as (i & x & Hi & He & _). rewrite Hi in *.
    destruct (infos m' !! q) as [i'|]; [|done]. injection EI as EI. cbn. rewrite EI, He.
    rewrite lookup_insert_ne, He; [done|]. intros Eq. apply (po_fresh _ Hs) in He. lia.
Qed.

(** The branch for a node whose endpoint is known under its id and key. *)
Lemma upsertKnown_refines n flags s ep e s' :
  peers_ok s -> is_peer (ps_eps s) (ps_map s) (nd_Key n) ep e -> supported n = true ->
  let f := updateFromNode env (nd_view n) (f_heartbeatDisabled flags) (f_probeUDPLifetimeOn flags) in
  setMap (upsertEndpoint (alter (on_state f) ep (ps_eps s)) ep
            (default zeroDisco (ps_eps s !! ep ≫= eo_disco)) (ps_map s)) (update_ep ep f s) = inr s' ->
  peers_ok s' /\ table s' = table s.
Proof.
  intros Hs Hp Sup f. pose proof Hp as (p & i & _ & _ & _ & He & _). rewrite He. cbn [mbind option_bind].
  destruct (po_named _ Hs _ _ He) as (Nz & _).
  destruct (upsert_node_disco n flags (eo_state e) Sup Nz) as (W & _ & Nz').
  destruct (upsertEndpoint _ _ _ _) as [|m'] eqn:U; [done|]. intros [= <-].
  destruct (upsert_known s (nd_Key n) ep e _ Hs Hp W Nz' m' U) as (Hok & EK & EI). split; [done|].
  apply table_frame; try done. by eapply known_heap.
Qed.

Lemma newPeerObj_disco n flags :
  eo_disco (newPeerObj n flags) = discoOf (nd_DiscoKey n) /\ eo_wgOnly (newPeerObj n flags) = nd_WGOnly n.
Proof.
  pose proof (newPeerObj_ident n flags) as Ei. split; [exact (f_equal fst Ei)|exact (f_equal snd Ei)].
Qed.
Lemma endpointForNodeKey_None s nk :
  peers_ok s -> nk <> zeroNode -> endpointForNodeKey (ps_map s) nk = None ->
  byNodeKey (ps_map s) !! nk = None /\ table s !! nk = None.
Proof.
  intros Hs N Q. assert (byNodeKey (ps_map s) !! nk = None) as Nk.
  { destruct (byNodeKey (ps_map s) !! nk) as [p|] eqn:Hk; [|done].
    destruct (ix_key _ _ (pm_idx _ _ (po_map _ Hs)) _ _ Hk) as (i & e & Hi & _).
    unfold endpointForNodeKey, endpointOf in Q. rewrite bool_decide_false, Hk in Q by done. simpl in Q. by rewrite Hi in Q. }
  split; [done|]. unfold table. by rewrite lookup_omap, Nk.
Qed.
(** The branch for a node no endpoint of which is known under its id. *)
Lemma upsertNew_refines n flags s s' :
  peers_ok s -> nd_ID n <> 0 -> nd_Key n <> zeroNode -> byNodeID (ps_map s) !! nd_ID n = None ->
  endpointForNodeKey (ps_map s) (nd_Key n) = None ->
  let e := newPeerObj n flags in
  setMap (upsertEndpoint (<[ps_next s := e]> (ps_eps s)) (ps_next s) zeroDisco (ps_map s)) (allocEp e s).1
  = inr s' ->
  peers_ok s' /\ table s' = <[nd_Key n := nd_ID n]> (table s).
Proof.
  intros Hs N0 Nn Nid Q e. destruct (upsertEndpoint _ _ _ _) as [|m'] eqn:U; [done|]. intros [= <-].
  destruct (endpointForNodeKey_None _ _ Hs Nn Q) as [Nk _].
  assert (eo_disco e <> Some zeroDisco) as Nz.
  { unfold e. rewrite (proj1 (newPeerObj_disco n flags)). unfold discoOf. case_bool_decide; congruence. }
  split; [by eapply (upsert_new s e)|by apply (upsert_new_table s e)].
Qed.

(** A key that is found although its id is not belongs to another id. *)
Lemma moved_key n s q :
  peers_ok s -> byNodeID (ps_map s) !! nd_ID n = None -> endpointForNodeKey (ps_map s) (nd_Key n) = Some q ->
  table s !! nd_Key n = Some (nodeIDOf q s) /\ nodeIDOf q s <> nd_ID n
  /\ (if nodeIDOf q s =? nd_ID n then devKeyNotByNodeID else devKeyMoved) = devKeyMoved.
Proof.
  intros Hs Nid Q. destruct (endpointForNodeKey_peer _ _ _ _ (pm_idx _ _ (po_map _ Hs)) Q) as (e & Hp).
  pose proof Hp as (? & ? & _ & _ & _ & He & _). assert (nodeIDOf q s = eo_nodeID e) as -> by (unfold nodeIDOf; by rewrite He).
  assert (eo_nodeID e <> nd_ID n) as N.
  { intros Eid. apply (is_peer_endpointForNodeID _ _ _ _ _ (pm_idx _ _ (po_map _ Hs))) in Hp. rewrite Eid in Hp.
    unfold endpointForNodeID, endpointOf in Hp. by rewrite Nid in Hp. }
  split; [apply table_lookup; eauto|]. split; [done|]. by rewrite (proj2 (Z.eqb_neq _ _)).
Qed.
Lemma upsertPeerLocked_refines n flags s s' :
  peers_ok s -> upsertPeerLocked env n flags s = inr s' ->
  peers_ok s' /\ table s' = tUpsert n (table s).
Proof.
  intros Hs. rewrite upsertPeerLocked_eq. unfold tUpsert. destruct (_ || _) eqn:Z; [by intros ->%devPanicf_inr|].
  apply orb_false_iff in Z as [Z0%Z.eqb_neq Zk%bool_decide_eq_false].
  pose proof (chooseEp_table n s Hs) as Ht. destruct (chooseEp n s) as [ep s1] eqn:E. cbn [snd] in Ht.
  destruct (chooseEp_ok n s ep s1 Hs E) as [Hs1 Hep]. cbv zeta. rewrite <- Ht. destruct ep as [ep|].
  - destruct Hep as [-> (e & Hp & Hid)]. assert (table s !! nd_Key n = Some (nd_ID n)) as ->
      by (apply table_lookup; eauto). rewrite Z.eqb_refl, orb_false_r.
    destruct (supported n) eqn:Sup; cbn [negb]; [by eapply upsertKnown_refines|].
    intros [= <-]. split; [by eapply deletePeer_ok|by eapply deletePeer_table].
  - destruct (endpointForNodeKey (ps_map s1) (nd_Key n)) as [q|] eqn:Q.
    + intros ->%devPanicf_inr. split; [done|]. destruct (moved_key n s1 q Hs1 Hep Q) as (T & N & _). rewrite T.
      rewrite (proj2 (Z.eqb_neq _ _)) by done. by rewrite orb_true_r.
    + rewrite (proj2 (endpointForNodeKey_None _ _ Hs1 Zk Q)).
      destruct (supported n); cbn [negb]; [by apply upsertNew_refines|by intros [= <-]].
Qed.

(** How an upsert can panic: the index is asked for the key of an endpoint that has none, or the node
    is not one to expect. *)
Definition lostDisco (s : peersState) (n : Node) : Prop :=
  nd_WGOnly n = true /\ nd_DiscoKey n = zeroDisco
  /\ exists ep e, is_peer (ps_eps s) (ps_map s) (nd_Key n) ep e /\ eo_nodeID e = nd_ID n /\ eo_wgOnly e = false.
Definition unexpected (s : peersState) (n : Node) (why : devPanic) : Prop :=
  match why with
  | devZeroID => nd_ID n = 0
  | devZeroKey => nd_ID n <> 0 /\ nd_Key n = zeroNode
  | devKeyMoved => nd_ID n <> 0 /\ nd_Key n <> zeroNode /\ exists id, table s !! nd_Key n = Some id /\ id <> nd_ID n
  | _ => False
  end.
Definition upsertPanic (s : peersState) (n : Node) (x : peerPanic) : Prop :=
  x = panicNilDisco /\ lostDisco s n
  \/ e_crashOnUnexpected env = true /\ exists why, x = panicDev why /\ unexpected s n why.
Lemma devPanicf_inl {A} crash why (y : A) x : devPanicf crash why y = inl x <-> crash = true /\ x = panicDev why.
Proof. destruct crash; cbn; naive_solver. Qed.
Lemma lostDisco_named s n : peers_ok s -> lostDisco s n -> forall why, ~ unexpected s n why.
Proof.
  intros Hs (_ & _ & ep & e & Hp & Hid & _) why. pose proof Hp as (? & ? & _ & _ & _ & He & Hpk).
  destruct (po_named _ Hs _ _ He) as (_ & N0 & Nn).
  assert (table s !! nd_Key n = Some (nd_ID n)) as T by (apply table_lookup; eauto).
  destruct why; unfold unexpected; [congruence|intros [_ ?]; congruence| |by intros []..]. intros (_ & _ & id & Tid & N). congruence.
Qed.
Lemma upsert_known_panics n flags s x ep e :
  peers_ok s -> is_peer (ps_eps s) (ps_map s) (nd_Key n) ep e -> eo_nodeID e = nd_ID n ->
  let f := updateFromNode env (nd_view n) (f_heartbeatDisabled flags) (f_probeUDPLifetimeOn flags) in
  (if negb (supported n) then inr (deletePeer env ep s)
   else setMap (upsertEndpoint (alter (on_state f) ep (ps_eps s)) ep
                  (default zeroDisco (ps_eps s !! ep ≫= eo_disco)) (ps_map s)) (update_ep ep f s)) = inl x
  <-> x = panicNilDisco /\ lostDisco s n.
Proof.
  intros Hs Hp Hid f. unfold lostDisco. pose proof Hp as (p & i & Hk & Hi & Ep & He & _).
  assert (forall ep' e', is_peer (ps_eps s) (ps_map s) (nd_Key n) ep' e' -> e' = e) as Uniq
    by (intros ep' e' (p' & i' & ? & ? & ? & ? & _); congruence).
  destruct (supported n) eqn:Sup; cbn [negb].
  - rewrite He. cbn [mbind option_bind]. destruct (po_named _ Hs _ _ He) as (Nz & _).
    destruct (upsert_node_disco n flags (eo_state e) Sup Nz) as (W & D & Nz'). cbv zeta.
    pose proof (upsert_known_panic s (nd_Key n) ep e _ Hs Hp W Nz' x) as U. rewrite D in U.
    assert (forall r s0, setMap r s0 = inl x <-> r = inl x) as Sm by (intros [] ?; naive_solver).
    rewrite Sm. unfold f. rewrite U. unfold discoOf. unfold supported in Sup.
    case_bool_decide as B; cbn [negb orb] in Sup; [|naive_solver]. split.
    + intros (-> & W0 & _). eauto 10.
    + intros (-> & _ & _ & ep' & e' & Hp' & _ & W'). rewrite (Uniq _ _ Hp') in W'. done.
  - split; [done|]. unfold supported in Sup. apply orb_false_iff in Sup as [_ Sup]. intros (_ & Wn & _). congruence.
Qed.
Lemma upsertPeerLocked_panics n flags s x :
  peers_ok s -> upsertPeerLocked env n flags s = inl x <-> upsertPanic s n x.
Proof.
  intros Hs. rewrite upsertPeerLocked_eq. unfold upsertPanic. destruct (_ || _) eqn:Z.
  { rewrite devPanicf_inl. assert (unexpected s n (if nd_ID n =? 0 then devZeroID else devZeroKey)) as Un.
    { destruct (Z.eqb_spec (nd_ID n) 0); [done|]. cbn in Z. apply bool_decide_eq_true in Z. done. }
    split; [intros [? ->]; right; eauto|]. intros [[_ L]|(C & why & -> & Uw)]; [by destruct (lostDisco_named s n Hs L _ Un)|].
    split; [done|]. f_equal. destruct (Z.eqb_spec (nd_ID n) 0); destruct why; cbn in *; try done; tauto. }
  apply orb_false_iff in Z as [Z0%Z.eqb_neq Zk%bool_decide_eq_false].
  assert (forall why, unexpected s n why <-> why = devKeyMoved /\ exists id, table s !! nd_Key n = Some id /\ id <> nd_ID n) as Uw.
  { intros []; cbn; (split; [|intros [? ?]; try done]); [done|tauto|tauto|naive_solver|done..]. }
  setoid_rewrite Uw. pose proof (chooseEp_table n s Hs) as Ht.
  destruct (chooseEp n s) as [ep s1] eqn:E. destruct (chooseEp_ok n s ep s1 Hs E) as [Hs1 Hep]. cbn [snd] in Ht. destruct ep as [ep|].
  - destruct Hep as [-> (e & Hp & Hid)]. rewrite (upsert_known_panics n flags s x ep e Hs Hp Hid). split; [by left|].
    intros [?|(_ & why & _ & _ & id & T & N)]; [done|]. assert (table s !! nd_Key n = Some (nd_ID n)) by (apply table_lookup; eauto). congruence.
  - assert (table s1 !! nd_Key n = table s !! nd_Key n) as Tk.
    { rewrite Ht. apply option_eq. intros id. rewrite map_lookup_filter_Some. cbn. naive_solver. }
    assert (~ lostDisco s n) as NL.
    { intros (_ & _ & ep & e & Hp & Hid & _). unfold chooseEp in E.
      rewrite <- Hid, (is_peer_endpointForNodeID _ _ _ _ _ (pm_idx _ _ (po_map _ Hs)) Hp) in E.
      destruct Hp as (? & ? & _ & _ & _ & He & Hpk). unfold pubOf in E. rewrite He in E. simpl in E.
      by rewrite bool_decide_true in E. }
    destruct (endpointForNodeKey _ _) as [q|] eqn:Q.
    + destruct (moved_key n s1 q Hs1 Hep Q) as (T & N & ->). rewrite devPanicf_inl. rewrite <- Tk, T. naive_solver.
    + rewrite <- Tk, (proj2 (endpointForNodeKey_None _ _ Hs1 Zk Q)). split; [|naive_solver].
      destruct (supported n) eqn:Sup; cbn [negb]; [|done].
      destruct (upsertEndpoint _ _ _ _) as [y|] eqn:U; [|done]. intros _. exfalso.
      apply (upsert_new_panic _ _ (newPeerObj n flags)) in U as (_ & W & D); [|by rewrite lookup_insert_eq|done].
      destruct (newPeerObj_disco n flags) as [Ed Ew]. rewrite Ed in D. rewrite Ew in W. unfold discoOf, supported in *.
      rewrite W in Sup. case_bool_decide; done.
Qed.
End Upsert.

Section Runs.
Context `{MapRange} `{Platform} (env : Env).

Lemma peers_ok_frame s s' :
  ps_eps s' = ps_eps s -> ps_next s' = ps_next s -> ps_map s' = ps_map s -> peers_ok s -> peers_ok s'.
Proof. intros E1 E2 E3 []. split; by rewrite ?E1, ?E2, ?E3. Qed.

Lemma upsertPeers_refines peers flags s s' :
  peers_ok s -> upsertPeers env peers flags s = inr s' ->
  peers_ok s' /\ table s' = foldl (fun t n => tUpsert n t) (table s) peers.
Proof.
  revert s. induction peers as [|n peers IH]; intros s Hs; cbn [upsertPeers]; [by intros [= <-]|].
  destruct (upsertPeerLocked env n flags s) as [|s1] eqn:U; [done|]. intros E.
  destruct (upsertPeerLocked_refines env n flags s s1 Hs U) as [Hs1 T1].
  destruct (IH s1 Hs1 E) as [Hs' T']. split; [done|]. cbn. by rewrite T', T1.
Qed.

Lemma deleteLoop_refines (keep : gset NodePublic) l s :
  peers_ok s -> NoDup l.*1 ->
  (forall nk p, (nk, p) ∈ l -> byNodeKey (ps_map s) !! nk = Some p) ->
  let s' := foldl (fun s ep => if bool_decide (pubOf (ps_eps s) ep ∈ keep) then s else deletePeer env ep s)
              s (omap (fun x : NodePublic * nat => pi_ep <$> infos (ps_map s) !! x.2) l) in
  peers_ok s' /\ table s' = filter (fun x : NodePublic * Z => x.1 ∈ keep \/ x.1 ∉ l.*1) (table s).
Proof.
  revert s. induction l as [|[nk p] l IH]; intros s Hs ND Hl.
  { cbn. split; [done|]. symmetry. apply map_filter_id. intros. right. cbn. set_solver. }
  cbn [fmap list_fmap fst] in ND. apply NoDup_cons in ND as [Nl ND].
  assert (byNodeKey (ps_map s) !! nk = Some p) as Hk by (apply Hl; by left).
  destruct (ix_key _ _ (pm_idx _ _ (po_map _ Hs)) _ _ Hk) as (i & e & Hi & He & Hpk).
  assert (is_peer (ps_eps s) (ps_map s) nk (pi_ep i) e) as Hp by (exists p, i; done).
  cbn [omap list_omap snd]. rewrite Hi. cbn [fmap option_fmap option_map foldl].
  assert (pubOf (ps_eps s) (pi_ep i) = nk) as -> by (unfold pubOf; by rewrite He). case_bool_decide as K.
  - destruct (IH s Hs ND) as [Hs' T']; [intros; apply Hl; by right|]. split; [done|]. rewrite T'.
    apply map_filter_ext. intros k id _. cbn. rewrite not_elem_of_cons.
    destruct (decide (k = nk)) as [->|]; [split; by left|tauto].
  - destruct (deletePeer_ok env (pi_ep i) s nk e Hs Hp) as (Hs1 & EK & EI & _ & _).
    destruct (IH (deletePeer env (pi_ep i) s) Hs1 ND) as [Hs' T'].
    { intros nk' q Hq. rewrite EK, lookup_delete_ne; [apply Hl; by right|]. intros <-.
      apply Nl. apply list_elem_of_fmap. by exists (nk, q). }
    rewrite EI in Hs', T'. split; [done|]. rewrite T', (deletePeer_table env _ _ _ _ Hs Hp).
    apply map_eq. intros k. apply option_eq. intros id.
    rewrite !map_lookup_filter_Some, lookup_delete_Some. cbn. rewrite not_elem_of_cons.
    destruct (decide (nk = k)) as [<-|]; [|naive_solver]. split; [naive_solver|].
    intros [_ [?|[? _]]]; done.
Qed.
Lemma deleteStalePeers_refines keep s :
  peers_ok s -> peers_ok (deleteStalePeers env keep s)
  /\ table (deleteStalePeers env keep s) = filter (fun x : NodePublic * Z => x.1 ∈ keep) (table s).
Proof.
  intros Hs. unfold deleteStalePeers, forEachEndpoint.
  destruct (deleteLoop_refines keep (map_range (byNodeKey (ps_map s))) s Hs) as [Hs' T'].
  - apply NoDup_map_range.
  - intros nk p. apply elem_of_map_range.
  - split; [done|]. rewrite T'. apply map_filter_ext. intros k id Hk. cbn.
    split; [|by left]. intros [?|N]; [done|]. exfalso. apply N.
    apply (table_lookup _ _ _ Hs) in Hk as (ep & e & (p & i & Hk & _) & _).
    apply list_elem_of_fmap. exists (k, p). split; [done|]. by apply elem_of_map_range.
Qed.

Definition tUpdate (peers : list Node) (t : gmap NodePublic Z) : gmap NodePublic Z :=
  let t := foldl (fun t n => tUpsert n t) t peers in
  if (size t =? size (newPeersOf peers))%nat then t
  else filter (fun x : NodePublic * Z => x.1 ∈ (list_to_set ((fun x => nd_Key x.2) <$> map_to_list (newPeersOf peers)) : gset NodePublic)) t.
Lemma size_table s : peers_ok s -> size (table s) = size (byNodeKey (ps_map s)).
Proof.
  intros Hs. rewrite <- !size_dom. f_equal.
  apply set_eq. intros nk. rewrite !elem_of_dom. split.
  - intros [id (ep & e & (p & i & Hk & _) & _)%(table_lookup _ _ _ Hs)]. eauto.
  - intros [p Hk]. destruct (ix_key _ _ (pm_idx _ _ (po_map _ Hs)) _ _ Hk) as (i & e & Hi & He & Hpk).
    exists (eo_nodeID e). apply (table_lookup _ _ _ Hs). exists (pi_ep i), e. split; [|done]. by exists p, i.
Qed.

Lemma updateNodes_refines peers flags s s' b :
  peers_ok s -> updateNodes env peers flags s = inr (s', b) ->
  peers_ok s' /\ table s' = if b then tUpdate peers (table s) else table s.
Proof.
  intros Hs. unfold updateNodes. destruct (closed s); [by intros [= <- <-]|].
  destruct (_ && _ && _); [by intros [= <- <-]|].
  destruct (upsertPeers env peers flags (with_flags flags s)) as [|s1] eqn:U; [done|]. cbv zeta.
  destruct (nodeCount _ _) as [|count] eqn:Nc; [done|]. apply nodeCount_inr in Nc as ->. intros [= <- <-].
  assert (peers_ok (with_flags flags s)) as Hs0 by (by apply (peers_ok_frame s)).
  destruct (upsertPeers_refines peers flags _ s1 Hs0 U) as [Hs1 T1].
  change (table (with_flags flags s)) with (table s) in T1. unfold tUpdate. rewrite <- T1.
  rewrite (size_table s1 Hs1). change (ps_map (with_peersByID (newPeersOf peers) s1)) with (ps_map s1).
  assert (peers_ok (with_peersByID (newPeersOf peers) s1)) as Hs2 by (by apply (peers_ok_frame s1)).
  replace (size (byNodeKey (ps_map s1)) =? size (newPeersOf peers))%nat
    with (Z.of_nat (size (byNodeKey (ps_map s1))) =? Z.of_nat (size (newPeersOf peers)))
    by (apply eq_true_iff_eq; rewrite Z.eqb_eq, Nat.eqb_eq; lia).
  destruct (Z.of_nat (size (byNodeKey (ps_map s1))) =? Z.of_nat (size (newPeersOf peers))).
  - split; [by apply (peers_ok_frame s1)|done].
  - destruct (deleteStalePeers_refines (list_to_set ((fun x => nd_Key x.2) <$> map_to_list (newPeersOf peers)))
      (with_peersByID (newPeersOf peers) s1) Hs2) as [Hs3 T3].
    split; [eapply peers_ok_frame; [..|exact Hs3]; done|]. exact T3.
Qed.

Lemma RemovePeer_ok nid s : peers_ok s -> peers_ok (RemovePeer env nid s).
Proof.
  intros Hs. unfold RemovePeer. destruct (closed s); [done|].
  destruct (peersByID s !! nid) as [prev|]; [|done]. cbv zeta. set (s0 := with_peersByID _ s).
  assert (peers_ok s0) as Hs0 by (by apply (peers_ok_frame s)).
  assert (peers_ok (match endpointForNodeID (ps_map s0) nid with Some ep => deletePeer env ep s0 | None => s0 end)) as Hs1.
  { destruct (endpointForNodeID (ps_map s0) nid) as [ep|] eqn:E; [|done].
    destruct (endpointForNodeID_peer _ _ _ _ (pm_idx _ _ (po_map _ Hs0)) E) as (nk & e & Hp & _).
    by eapply deletePeer_ok. }
  destruct (_ && _); [|done]. eapply peers_ok_frame; [..|exact Hs1]; done.
Qed.
Lemma RemovePeer_table nid s :
  peers_ok s ->
  table (RemovePeer env nid s)
  = if negb (closed s) && bool_decide (is_Some (peersByID s !! nid))
    then filter (fun x : NodePublic * Z => x.2 <> nid) (table s) else table s.
Proof.
  intros Hs. unfold RemovePeer. destruct (closed s); [done|]. cbn [negb andb].
  destruct (peersByID s !! nid) as [prev|]; [|done]. rewrite (bool_decide_true (is_Some (Some prev))) by eauto. cbv zeta.
  set (s0 := with_peersByID _ s). assert (peers_ok s0) as Hs0 by (by apply (peers_ok_frame s)).
  transitivity (table (match endpointForNodeID (ps_map s0) nid with Some ep => deletePeer env ep s0 | None => s0 end)).
  { by destruct (_ && _). }
  pose proof (pm_idx _ _ (po_map _ Hs0)) as Hx. change (table s) with (table s0).
  apply map_eq. intros k. apply option_eq. intros id. rewrite map_lookup_filter_Some. cbn [snd].
  destruct (endpointForNodeID (ps_map s0) nid) as [ep|] eqn:E.
  - destruct (endpointForNodeID_peer _ _ _ _ Hx E) as (nk & e & Hp & Hid).
    rewrite (deletePeer_table env _ _ _ _ Hs0 Hp), lookup_delete_Some.
    assert (table s0 !! nk = Some nid) as T by (apply table_lookup; eauto). split.
    + intros [N Tk]. split; [done|]. intros ->. apply N. by eapply table_ids.
    + intros [Tk N]. split; [congruence|done].
  - split; [|naive_solver]. intros Tk. split; [done|]. intros ->.
    apply (table_lookup _ _ _ Hs0) in Tk as (ep & e & Hp & <-).
    apply (is_peer_endpointForNodeID _ _ _ _ _ Hx) in Hp. congruence.
Qed.

Lemma Advertisement_cases nk dk s :
  peers_ok s ->
  (forall s', HandleDiscoKeyAdvertisement nk dk s = inr s' -> peers_ok s' /\ table s' = table s)
  /\ (forall x, HandleDiscoKeyAdvertisement nk dk s = inl x <->
       x = panicNilDisco /\ dk = zeroDisco
       /\ exists ep e, is_peer (ps_eps s) (ps_map s) nk ep e /\ eo_wgOnly e = false).
Proof.
  intros Hs. pose proof (po_map _ Hs) as Hm. pose proof (pm_idx _ _ Hm) as Hx. unfold HandleDiscoKeyAdvertisement.
  destruct (endpointForNodeKey (ps_map s) nk) as [ep|] eqn:Q.
  2: { split; [by intros ? [= <-]|]. intros x. split; [done|]. intros (_ & _ & ep & e & Hp & _).
       pose proof Hp as (? & ? & _ & _ & _ & He & Hpk). destruct (po_named _ Hs _ _ He) as (_ & _ & Nn).
       apply is_peer_endpointForNodeKey in Hp; congruence. }
  destruct (endpointForNodeKey_peer _ _ _ _ Hx Q) as (e & Hp). pose proof Hp as (p & i & Hk & Hi & Hep & He & Hpk).
  assert (forall ep' e', is_peer (ps_eps s) (ps_map s) nk ep' e' -> e' = e) as Uniq
    by (intros ep' e' (p' & i' & ? & ? & ? & ? & _); congruence).
  destruct (po_named _ Hs _ _ He) as (Nz & _). rewrite He. cbn [mbind option_bind]. case_bool_decide as B.
  { split; [by intros ? [= <-]|]. intros x. split; [done|]. intros (_ & -> & ep' & e' & Hp' & W).
    rewrite (Uniq _ _ Hp') in W.
    destruct (pm_speaks _ _ Hm nk p i e) as [d D]; try congruence. rewrite D in B, Nz. simpl in B. congruence. }
  assert (disco (updateDiscoKey dk (eo_state e)) <> Some zeroDisco) as Nz'
    by (unfold updateDiscoKey; cbn; case_bool_decide; congruence).
  cbv zeta. cbn [with_discoInfo ps_eps ps_map update_ep with_eps]. split.
  - intros s'. destruct (upsertEndpoint _ _ _ _) as [|m'] eqn:U; [done|]. intros [= <-].
    destruct (upsert_known s nk ep e (updateDiscoKey dk) Hs Hp eq_refl Nz' m' U) as (Hok & EK & EI). split.
    + eapply peers_ok_frame; [..|exact Hok]; done.
    + apply table_frame; try done. exact (proj2 (known_heap s nk ep e (updateDiscoKey dk) Hp)).
  - intros x. assert (forall r s0, setMap r s0 = inl x <-> r = inl x) as Sm by (intros [] ?; naive_solver).
    rewrite Sm, (upsert_known_panic s nk ep e (updateDiscoKey dk) Hs Hp eq_refl Nz' x).
    assert (disco (updateDiscoKey dk (eo_state e)) = None <-> dk = zeroDisco) as ->
      by (unfold updateDiscoKey; cbn; case_bool_decide; naive_solver).
    split; [naive_solver|]. intros (-> & -> & ep' & e' & Hp' & W). by rewrite (Uniq _ _ Hp') in W.
Qed.

Lemma setAddr_ok src nk s :
  peers_ok s ->
  let s' := with_map (setNodeKeyForEpAddr (ps_eps s) src nk (ps_map s)) s in
  peers_ok s' /\ table s' = table s.
Proof.
  intros Hs s'. pose proof (po_map _ Hs) as Hm.
  destruct (setNodeKey_ok (ps_eps s) src nk (ps_map s) (pm_idx _ _ Hm)) as [Hx Sh].
  pose proof Sh as (EK & _ & ED & _ & EP). assert (peers_ok s') as Hok.
  { split; [|apply (po_fresh _ Hs)|apply (po_named _ Hs)]. split; [done| |].
    - intros dk nk'. unfold s'. cbn [ps_map ps_eps with_map]. rewrite ED.
      fold (speaks (ps_eps s) (setNodeKeyForEpAddr (ps_eps s) src nk (ps_map s)) nk' dk).
      rewrite (speaks_shape _ (ps_map s)) by done. apply (pm_disco _ _ Hm).
    - intros nk' p i e Hk Hi He W. cbn in Hk, Hi. rewrite EK in Hk.
      destruct (same_shape_info _ _ _ _ Sh Hi) as (i0 & Hi0 & Ei). rewrite <- Ei in He.
      by apply (pm_speaks _ _ Hm nk' p i0). }
  split; [done|]. apply table_frame; try done. intros q x Hq. eauto.
Qed.

Lemma peer_step_ok s s' : peers_ok s -> peer_step env s s' -> peers_ok s'.
Proof.
  intros Hs. destruct 1 as [peers flags s s' b U|n flags s s' U|nid s|nk dk s s' U|maybeEP src nk s|src nk s|ep f s Hf|ep s|dk s Hk|s].
  - by eapply updateNodes_refines.
  - unfold UpsertPeer in U. destruct (closed s); [by simplify_eq|]. destruct (nd_ID n =? 0); [by apply devPanicf_inr in U as ->|].
    eapply upsertPeerLocked_refines; [|exact U]. by apply (peers_ok_frame s).
  - by apply RemovePeer_ok.
  - by eapply Advertisement_cases.
  - unfold FromPeer. destruct (match maybeEP with Some _ => _ | None => _ end); [done|].
    destruct (endpointForNodeKey _ _); [by apply setAddr_ok|done].
  - by apply setAddr_ok.
  - apply update_ep_ok; [done|]. intros e. exact (f_equal fst (Hf e)).
  - apply update_ep_ok; [done|]. intros e. apply stopAndReset_ident.
  - by apply (peers_ok_frame s).
  - by apply (peers_ok_frame s).
Qed.
Lemma reachable_ok s : reachable env s -> peers_ok s.
Proof.
  intros R. unfold reachable in R. remember newPeers as s0 eqn:E0.
  assert (peers_ok s0) as H1 by (subst; apply newPeers_ok). clear E0. induction R as [|s s1 s2 St R IH]; [done|].
  apply IH. by eapply peer_step_ok.
Qed.
End Runs.

(** ** Facts: a whole network map *)
Definition valid_node (n : Node) : Prop :=
  nd_ID n <> 0 /\ nd_Key n <> zeroNode /\ supported n = true.
Definition table_of (peers : list Node) : gmap NodePublic Z :=
  list_to_map ((fun n => (nd_Key n, nd_ID n)) <$> peers).

Lemma tUpsert_lookup n t k id :
  valid_node n -> (forall id, t !! nd_Key n = Some id -> id = nd_ID n) ->
  tUpsert n t !! k = Some id <->
  k = nd_Key n /\ id = nd_ID n \/ t !! k = Some id /\ id <> nd_ID n /\ k <> nd_Key n.
Proof.
  intros (N0 & Nn & Sup) Hm. unfold tUpsert. rewrite (proj2 (Z.eqb_neq _ _)), bool_decide_false by done. cbn [orb].
  set (t1 := filter _ t).
  assert (forall k id, t1 !! k = Some id <-> t !! k = Some id /\ (id = nd_ID n -> k = nd_Key n)) as L1.
  { intros k0 id0. unfold t1. rewrite map_lookup_filter_Some. cbn. split; intros [Ht N]; (split; [done|]).
    - intros E. destruct (decide (k0 = nd_Key n)); naive_solver.
    - intros [E1 E2]. auto. }
  destruct (t1 !! nd_Key n) as [id1|] eqn:E1.
  - rewrite Sup. cbn [orb]. rewrite L1. apply L1 in E1 as [E1 _]. rewrite (Hm _ E1) in E1.
    destruct (decide (k = nd_Key n)) as [->|]; naive_solver.
  - rewrite Sup, lookup_insert_Some, L1. destruct (decide (k = nd_Key n)) as [->|]; [|naive_solver]. naive_solver.
Qed.

Lemma tUpserts_lookup peers t k id :
  Forall valid_node peers -> NoDup (nd_ID <$> peers) -> NoDup (nd_Key <$> peers) ->
  (forall n, n ∈ peers -> forall id, t !! nd_Key n = Some id -> id = nd_ID n) ->
  foldl (fun t n => tUpsert n t) t peers !! k = Some id <->
  (exists n, n ∈ peers /\ k = nd_Key n /\ id = nd_ID n)
  \/ t !! k = Some id /\ id ∉ nd_ID <$> peers /\ k ∉ nd_Key <$> peers.
Proof.
  intros Hv. revert t. induction Hv as [|n peers Hn Hv IH]; intros t ND1 ND2 Hm; cbn [foldl fmap list_fmap].
  { split; [intros E; right; split_and!; [done|set_solver..]|intros [(n & Hn & _)|[? _]]; [set_solver|done]]. }
  cbn [fmap list_fmap] in ND1, ND2. apply NoDup_cons in ND1 as [N1 ND1]. apply NoDup_cons in ND2 as [N2 ND2].
  pose proof (fun k id => tUpsert_lookup n t k id Hn (Hm n (list_elem_of_here _ _))) as U.
  rewrite IH; [|done|done|].
  - rewrite U, !not_elem_of_cons. split.
    + intros [(n' & Hn' & E)|[[[-> ->]|(Ht & Ni & Nk)] [Mi Mk]]].
      * left. exists n'. split; [by right|done].
      * left. exists n. split; [by left|done].
      * right. done.
    + intros [(n' & [->|Hn']%elem_of_cons & -> & ->)|(Ht & [Ni Mi] & [Nk Mk])].
      * right. split; [by left|done].
      * left. exists n'. done.
      * right. split; [by right|done].
  - intros n' Hn' id'. rewrite U. intros [[E _]|(Ht & _)].
    + exfalso. apply N2. rewrite <- E. by apply list_elem_of_fmap_2.
    + apply (Hm n'); [by right|done].
Qed.

Lemma NoDup_fmap_inj {A B} (f : A -> B) l x y : NoDup (f <$> l) -> x ∈ l -> y ∈ l -> f x = f y -> x = y.
Proof.
  intros ND Hx Hy E. apply list_elem_of_lookup in Hx as [i Hi]. apply list_elem_of_lookup in Hy as [j Hj].
  assert (i = j) as <-; [|congruence]. apply (NoDup_lookup (f <$> l) i j (f x) ND).
  - by rewrite list_lookup_fmap, Hi.
  - by rewrite list_lookup_fmap, Hj, E.
Qed.
Lemma table_of_lookup peers k id :
  NoDup (nd_Key <$> peers) ->
  table_of peers !! k = Some id <-> exists n, n ∈ peers /\ k = nd_Key n /\ id = nd_ID n.
Proof.
  intros ND. unfold table_of. rewrite <- elem_of_list_to_map.
  - rewrite list_elem_of_fmap. naive_solver.
  - by rewrite <- list_fmap_compose.
Qed.
Lemma newPeersOf_lookup peers id n :
  NoDup (nd_ID <$> peers) -> newPeersOf peers !! id = Some n <-> n ∈ peers /\ nd_ID n = id.
Proof.
  intros ND. unfold newPeersOf. induction peers as [|x peers IH] using rev_ind.
  { cbn. rewrite lookup_empty. set_solver. }
  rewrite fmap_app in ND. apply NoDup_app in ND as (ND & Nx & _).
  rewrite foldl_app. cbn [foldl]. rewrite lookup_insert_Some, IH, elem_of_app, list_elem_of_singleton by done. split.
  - intros [[<- <-]|(N & Hn & E)]; [by split; [right|]|]. split; [by left|done].
  - intros [[Hn| ->] E]; [|by left]. right. split; [|done]. intros Ex. apply (Nx (nd_ID x)); [|set_solver].
    rewrite Ex, <- E. by apply list_elem_of_fmap_2.
Qed.
Lemma size_newPeersOf peers : NoDup (nd_ID <$> peers) -> size (newPeersOf peers) = length peers.
Proof.
  intros ND. unfold newPeersOf. induction peers as [|x peers IH] using rev_ind; [done|].
  pose proof ND as ND'. rewrite fmap_app in ND. apply NoDup_app in ND as (ND & Nx & _).
  rewrite foldl_app. cbn [foldl]. rewrite map_size_insert_None, IH, length_app; [cbn; lia|done|].
  fold (newPeersOf peers). destruct (newPeersOf peers !! nd_ID x) as [y|] eqn:E; [|done]. exfalso.
  apply (newPeersOf_lookup _ _ _ ND) in E as [Hy E]. apply (Nx (nd_ID x)); [|set_solver].
  rewrite <- E. by apply list_elem_of_fmap_2.
Qed.

Lemma tUpdate_exact peers t :
  Forall valid_node peers -> NoDup (nd_ID <$> peers) -> NoDup (nd_Key <$> peers) ->
  (forall n, n ∈ peers -> forall id, t !! nd_Key n = Some id -> id = nd_ID n) ->
  tUpdate peers t = table_of peers.
Proof.
  intros Hv ND1 ND2 Hm. unfold tUpdate. set (t1 := foldl _ t peers).
  assert (table_of peers ⊆ t1) as Sub.
  { apply map_subseteq_spec. intros k id. rewrite table_of_lookup by done. intros Hn.
    unfold t1. rewrite tUpserts_lookup by done. by left. }
  assert (size (table_of peers) = length peers) as Sz.
  { unfold table_of. rewrite <- length_map_to_list, map_to_list_to_map, length_fmap; [done|].
    by rewrite <- list_fmap_compose. }
  rewrite size_newPeersOf by done. destruct (Nat.eqb_spec (size t1) (length peers)) as [E|_].
  { symmetry. apply map_subseteq_size_eq; [done|]. lia. }
  apply map_eq. intros k. apply option_eq. intros id.
  rewrite map_lookup_filter_Some, table_of_lookup, elem_of_list_to_set, list_elem_of_fmap by done. cbn. split.
  - intros [Ht ([id' n] & -> & Hn)]. cbn in *. apply elem_of_map_to_list, newPeersOf_lookup in Hn as [Hn _]; [|done].
    unfold t1 in Ht. rewrite tUpserts_lookup in Ht by done. destruct Ht as [Ht|(_ & _ & Nk)]; [done|].
    exfalso. apply Nk. by apply list_elem_of_fmap_2.
  - intros (n & Hn & -> & ->). split.
    + unfold t1. rewrite tUpserts_lookup by done. left. eauto.
    + exists (nd_ID n, n). split; [done|]. by apply elem_of_map_to_list, newPeersOf_lookup.
Qed.
