(* ===== verification/EndpointProps.v ===== *)
(** * What the endpoint's handlers guarantee

    Safety of whole runs, single replies to command-line pings, replay protection for
    pongs, and the exact effect of network map updates, call-me-maybe messages and
    WireGuard-only path selection. *)
From S2P Require Import Prelude Netip Bytes Knobs ProbeManager SourceSockets ActivePaths.
From S2P Require Import EndpointState UdpLifetime BetterAddr EndpointRecord Endpoint EndpointSend.
From S2P Require Import EndpointFacts.

(** ** Surroundings used by the examples *)
Definition ex_env (now : Z) : Env :=
  MkEnv defaultKnobs false false false false false false (replicate 32 x01) false 65535 zeroSP
        (fun n => be_put 12 (Z.of_nat n)) 0 now 1000000000000 true.
Definition ex_key : DiscoPublic := replicate 32 x02.
Definition ex_ap1 : AddrPort := MkAddrPort (Addr4 0xcb007107) 41641.
Definition ex_ap2 : AddrPort := MkAddrPort (Addr4 0xcb007108) 41642.
Definition ex_ap6 : AddrPort := MkAddrPort (Addr6 0x20010db8000000000000000000000001 EmptyString) 41641.
Definition ex_node (eps : list AddrPort) : NodeView := MkNode false ex_key 1 eps 121.

Section Props.
Context `{MapRange} `{Platform}.

(** [C2] A peer endpoint is safe under every sequence of events: starting from a new endpoint,
    after any run of handlers with any clocks, network input and map iteration order, pong
    rings are well formed, no omitted address is a candidate, the lifetime probe stays
    inside its cliffs, the two observed-source slots are distinct direct addresses, and no
    handler has panicked. *)
Theorem endpoint_run_safe k wg ops :
  Forall (fun x => e_knobs x.1 = k) ops ->
  ep_wf k (final (ep_run ops) (newEndpoint wg))
  /\ ~ APanic ∈ acts (ep_run ops) (newEndpoint wg).
Proof.
  intros Hk.
  assert (keeps (ep_wf k) no_panic (ep_run ops)) as Hkeep.
  { unfold ep_run. apply keeps_forM. intros [env op] Hin.
    rewrite Forall_forall in Hk. specialize (Hk _ Hin). simpl in *. subst k. apply ep_exec_wf. }
  destruct (Hkeep (newEndpoint wg)) as [H1 H2].
  { constructor; simpl; [apply map_Forall_empty|apply map_Forall_empty|done|apply slots_ok_zero]. }
  split; [done|]. rewrite Forall_forall in H2. intros Hp. exact (H2 _ Hp eq_refl).
Qed.

(** ** Handlers that leave the replies, the generation and the peer-aware endpoints alone *)
Create HintDb replies.
(** What only pongs, new peer-aware endpoints and resets change. *)
Definition still (e : endpoint) := (replied e, numStopAndReset e, sourcePathPeerAware e).
Definition changes_still (op : ep_op) : bool :=
  match op with OpPong _ _ _ | OpPeerAware _ _ | OpStopAndReset => true | _ => false end.
Section Replies.
Context (R : gset nat * Z * gset (epAddr * sourceRxMeta)).
Definition no_reply (a : action) : Prop := match a with APingReply _ _ _ => False | _ => True end.
Notation quiet := (keeps (fun e => still e = R) no_reply).

Lemma quiet_modify f : (forall e, still (f e) = still e) -> quiet (modify f).
Proof. intros Hf. apply keeps_modify. intros e <-. apply Hf. Qed.
Lemma quiet_lift {A} (f : endpoint -> endpoint * A) :
  (forall e, still (f e).1 = still e) -> quiet (lift f).
Proof.
  intros Hf e He. specialize (Hf e). unfold final, acts, lift. destruct (f e). simpl in *.
  split; [congruence|constructor].
Qed.
Lemma quiet_fresh : quiet fresh.
Proof. intros e <-. split; [done|constructor]. Qed.

Lemma deleteEndpointLocked_still ep e : still (deleteEndpointLocked ep e) = still e.
Proof. unfold deleteEndpointLocked. cbv zeta. by destruct (bool_decide _). Qed.
Lemma foldl_still {A} (f : endpoint -> A -> endpoint) l e :
  (forall e x, still (f e x) = still e) -> still (foldl f e l) = still e.
Proof. intros Hf. revert e. induction l as [|x l IH]; intros e; simpl; [done|]. by rewrite IH. Qed.
Lemma deleteStale_still env e : still (deleteStale env e) = still e.
Proof.
  apply foldl_still. intros e' x. case_match; [apply deleteEndpointLocked_still|done].
Qed.
Lemma setEndpointsLocked_still env eps e : still (setEndpointsLocked env eps e) = still e.
Proof. unfold setEndpointsLocked. cbv zeta. by rewrite deleteStale_still. Qed.
Lemma updateFromNode_still env n hb lt e : still (updateFromNode env n hb lt e) = still e.
Proof.
  unfold updateFromNode. cbv zeta.
  change (still (with_relayCapable ?x ?y)) with (still y).
  rewrite setEndpointsLocked_still. by destruct (bool_decide _).
Qed.
Lemma addCandidateEndpoint_still env ep id e : still (addCandidateEndpoint env ep id e).1 = still e.
Proof.
  unfold addCandidateEndpoint. destruct (omitEndpointAddrPort _ _); [done|].
  destruct (_ !! ep); [done|]. cbv zeta. destruct (_ <? _); cbn [fst]; [by rewrite deleteStale_still|done].
Qed.
Lemma classify_still env src e : still (classifySourcePathRemoteSlot env src e).1 = still e.
Proof.
  unfold classifySourcePathRemoteSlot. cbv zeta. destruct (negb _); [done|].
  by repeat (match goal with |- context [match firstSlot ?f ?l with _ => _ end] =>
    destruct (firstSlot f l) end).
Qed.
Lemma wgSend_still env now e : still (addrForWireGuardSendLocked env now e).1 = still e.
Proof. unfold addrForWireGuardSendLocked. by destruct (bool_decide _). Qed.
Lemma addrForSend_still env now e : still (addrForSendLocked env now e).1 = still e.
Proof.
  unfold addrForSendLocked. destruct (_ && _); [done|]. destruct (isWireguardOnly e); [|done].
  pose proof (wgSend_still env now e). by destruct (addrForWireGuardSendLocked env now e) as [? [? ?]].
Qed.
Lemma addrForPingSize_still env now size e : still (addrForPingSizeLocked env now size e).1 = still e.
Proof.
  unfold addrForPingSizeLocked. destruct (size =? 0).
  - pose proof (addrForSend_still env now e). by destruct (addrForSendLocked env now e) as [? [[? ?] ?]].
  - cbv zeta. destruct (_ && _); [by destruct (negb _)|done].
Qed.
Lemma dualEndpointAddrs_still env now e : still (dualEndpointAddrsForSendLocked env now e).1 = still e.
Proof.
  unfold dualEndpointAddrsForSendLocked.
  by destruct (sourcePathDirectEndpointCandidatesLocked env now e) as [[|] ?].
Qed.
Hint Resolve deleteEndpointLocked_still deleteStale_still setEndpointsLocked_still
  updateFromNode_still addCandidateEndpoint_still classify_still : replies.
Hint Resolve quiet_fresh : replies.

Ltac qp :=
  repeat first
    [ progress cbv zeta
    | assumption
    | solve [auto with replies]
    | apply keeps_skip | apply keeps_ret | apply keeps_gets
    | apply keeps_emit; exact I
    | apply keeps_bind; [|intros ?]
    | apply keeps_when
    | apply keeps_forM; intros ? _
    | apply quiet_modify; solve [auto with replies | reflexivity]
    | match goal with |- keeps _ _ (match ?x with _ => _ end) => destruct x end ].

Lemma schedule_quiet : quiet scheduleHeartbeatForLifetimeLocked.
Proof. unfold scheduleHeartbeatForLifetimeLocked. qp. Qed.
Hint Resolve schedule_quiet : replies.
Lemma removeSent_quiet env id sp r : quiet (removeSentDiscoPingLocked env id sp r).
Proof. unfold removeSentDiscoPingLocked, probeUDPLifetimeCliffDoneLocked. qp. Qed.
Hint Resolve removeSent_quiet : replies.
Lemma noteTx_still now e : still (noteTxActivityExtTriggerLocked now e) = still e.
Proof. unfold noteTxActivityExtTriggerLocked. cbv zeta. by destruct (_ && _). Qed.
Hint Resolve noteTx_still : replies.
Lemma startPing_quiet env ep now purpose size cb : quiet (startDiscoPingLocked env ep now purpose size cb).
Proof. unfold startDiscoPingLocked, sendOnePing. qp. Qed.
Hint Resolve startPing_quiet : replies.
Lemma pingLoop_quiet env now l sent : quiet (pingLoop env now l sent).
Proof. revert sent. induction l as [|[ep st] l IH]; intros sent; simpl; qp. Qed.
Hint Resolve pingLoop_quiet : replies.
Lemma sendPings_quiet env now cmm : quiet (sendDiscoPingsLocked env now cmm).
Proof. unfold sendDiscoPingsLocked. qp. Qed.
Lemma discoverRelay_quiet env now : quiet (maybeDiscoverRelay env now).
Proof. unfold maybeDiscoverRelay, discoverUDPRelayPathsLocked. qp. Qed.
Lemma wgPings_quiet env now : quiet (sendWireGuardOnlyPingsLocked env now).
Proof. unfold sendWireGuardOnlyPingsLocked. qp. Qed.
Hint Resolve sendPings_quiet discoverRelay_quiet wgPings_quiet : replies.
Lemma probeWhenSilent_quiet env cur after : quiet (probeWhenSilent env cur after).
Proof. unfold probeWhenSilent. qp. Qed.
Hint Resolve probeWhenSilent_quiet : replies.
Lemma dropUnwanted_still e : still (dropUnwanted e) = still e.
Proof.
  apply foldl_still. intros e' x. destruct x.2; [done|]. by rewrite deleteEndpointLocked_still.
Qed.
Lemma noteCallMeMaybes_still env eps e : still (foldl (noteCallMeMaybe env) e eps) = still e.
Proof. apply foldl_still. intros e' ep. unfold noteCallMeMaybe. by destruct (acceptCallMeMaybe env ep). Qed.
Hint Resolve dropUnwanted_still noteCallMeMaybes_still : replies.
Lemma noteBadEndpoint_still a e : still (noteBadEndpoint a e) = still e.
Proof. unfold noteBadEndpoint. cbv zeta. by destruct (VNI.IsSet _). Qed.
Lemma observedFailure_still a e : still (noteSourcePathObservedEndpointFailure a e) = still e.
Proof.
  unfold noteSourcePathObservedEndpointFailure. destruct (negb _); [done|]. by destruct (firstSlot _ _).
Qed.
Lemma availability_still now d s n e : still (noteSourcePathDualSendAvailability now d s n e) = still e.
Proof.
  unfold noteSourcePathDualSendAvailability.
  by destruct (n <=? 0), s, (Mono.IsZero (sourcePathSingleSince e)), d.
Qed.
Hint Resolve noteBadEndpoint_still observedFailure_still availability_still : replies.

Lemma exec_quiet env op : changes_still op = false -> quiet (ep_exec env op).
Proof.
  intros Hop. destruct op; try discriminate Hop; cbn [ep_exec];
    try (unfold heartbeat, heartbeatForLifetime, discoPingTimeout, forgetDiscoPing, handleCallMeMaybe,
           setDERPHome, noteRecvActivity, discoPing, planSend, scheduleAfterSession; qp);
    try (apply quiet_lift; intros; auto using addrForSend_still, addrForPingSize_still,
           dualEndpointAddrs_still);
    try (apply quiet_modify; intros e; cbv beta;
         repeat match goal with |- context [if ?b then _ else _] => destruct b end; done).
Qed.
End Replies.

(** ** Command-line pings *)
Definition replies (l : list action) : list nat :=
  omap (fun a => match a with APingReply cb _ _ => Some cb | _ => None end) l.

Definition once {A} (m : M A) : Prop := forall e,
  NoDup (replies (acts m e))
  /\ (forall cb, cb ∈ replies (acts m e) -> cb ∉ replied e)
  /\ replied (final m e) = replied e ∪ list_to_set (replies (acts m e)).

Lemma quiet_once {A} (m : M A) :
  (forall R, keeps (fun e => still e = R) no_reply m) -> once m.
Proof.
  intros Hm e. destruct (Hm _ e eq_refl) as [H1 H2]. injection H1 as H1 _ _.
  assert (replies (acts m e) = []) as ->.
  { induction H2 as [|a l Ha Hl IH]; [done|]. by destruct a. }
  split_and!; [constructor| |set_solver]. intros cb Hcb. by apply elem_of_nil in Hcb.
Qed.
Lemma once_bind {A B} (m : M A) (f : A -> M B) : once m -> (forall x, once (f x)) -> once (m ≫= f).
Proof.
  intros Hm Hf e. destruct (Hm e) as (H1 & H2 & H3).
  destruct (Hf (result m e) (final m e)) as (H4 & H5 & H6).
  rewrite final_bind, acts_bind. unfold replies in *. rewrite omap_app, list_to_set_app_L.
  split_and!.
  - apply NoDup_app. split_and!; [done| |done]. intros cb Hcb Hcb'. apply (H5 cb Hcb').
    rewrite H3. set_solver.
  - intros cb. rewrite elem_of_app. intros [Hcb|Hcb]; [auto|]. specialize (H5 cb Hcb). set_solver.
  - rewrite H6, H3. set_solver.
Qed.
Lemma replyOnce_once cb lat to : once (replyOnce cb lat to).
Proof.
  intros e. unfold replyOnce. destruct cb as [cb|]; [|].
  2:{ split_and!; [constructor| |simpl; set_solver]. intros ? Hin. by apply elem_of_nil in Hin. }
  rewrite final_bind, acts_bind. cbn [gets result snd fst final acts app].
  case_bool_decide as Hin.
  - split_and!; [constructor| |simpl; set_solver]. intros ? Hc. by apply elem_of_nil in Hc.
  - cbn. split_and!; [apply NoDup_singleton| |set_solver].
    intros ? ->%list_elem_of_singleton. done.
Qed.
Lemma once_modify f : (forall e, replied (f e) = replied e) -> once (modify f).
Proof.
  intros Hf e. cbn. rewrite Hf. split_and!; [constructor| |set_solver]. intros cb Hcb. by apply elem_of_nil in Hcb.
Qed.
Lemma once_gets {A} (f : endpoint -> A) : once (gets f).
Proof. apply quiet_once. intros R. apply keeps_gets. Qed.
Lemma once_ret {A} (x : A) : once (mret x).
Proof. apply quiet_once. intros R. apply keeps_ret. Qed.
Lemma once_forM {A} (l : list A) (f : A -> M unit) : (forall x, once (f x)) -> once (forM l f).
Proof. intros Hf. induction l as [|x l IH]; [apply once_ret|]. apply once_bind; [apply Hf|]. by intros _. Qed.
Lemma once_when b m : once m -> once (when b m).
Proof. intros Hm. destruct b; [done|]. apply once_ret. Qed.

Lemma pong_once env id s src : once (handlePongConnLocked env id s src).
Proof.
  unfold handlePongConnLocked. cbv zeta. apply once_bind; [apply once_gets|]. intros [sp|]; [|apply once_ret].
  apply once_bind; [apply quiet_once; intros; apply removeSent_quiet|]. intros _.
  destruct (_ && _ && _).
  { apply once_bind; [apply quiet_once; intros; apply quiet_modify, deleteEndpointLocked_still|]. intros _. apply once_ret. }
  apply once_bind; [apply once_gets|]. intros st. destruct (_ && isNone st); [apply once_ret|].
  apply once_bind; [|intros _; apply once_bind; [apply replyOnce_once|intros _; apply once_bind]].
  - apply once_when, once_bind; [|intros _; by apply once_modify].
    apply quiet_once. intros R. by apply keeps_emit.
  - apply once_when. by apply once_modify.
  - intros _. apply once_ret.
Qed.

Lemma stopAndReset_once env : once (stopAndReset env).
Proof.
  unfold stopAndReset, resetLocked. apply once_bind; [by apply once_modify|intros _]. apply once_bind; [|by intros _; apply once_modify].
  apply once_bind; [apply once_modify; intros e; cbv zeta; by destruct (Mono.IsZero _)|intros _].
  apply once_bind; [apply once_gets|intros wg]. apply once_bind; [apply once_gets|intros l].
  apply once_bind; [apply once_when, once_forM; intros x; apply quiet_once; intros; apply removeSent_quiet|intros _].
  apply once_bind; [by apply once_modify|intros _]. apply quiet_once. intros R. by apply keeps_emit.
Qed.

(** A command-line ping is answered at most once: over any run of the endpoint's handlers no
    callback is invoked twice, although many pings in flight share it. *)
Theorem ping_callback_at_most_once wg ops :
  NoDup (replies (acts (ep_run ops) (newEndpoint wg))).
Proof.
  assert (once (ep_run ops)) as Ho; [|apply Ho].
  unfold ep_run. induction ops as [|[env op] ops IH]; simpl; [apply once_ret|].
  apply once_bind; [|intros _; exact IH].
  destruct op; try (apply quiet_once; intros R; by apply exec_quiet).
  - apply once_bind; [apply pong_once|]. intros _. apply once_ret.
  - apply once_modify. intros e. unfold sourcePathPeerAwareEndpoint. by destruct (bool_decide _).
  - apply stopAndReset_once.
Qed.

(** ** Pongs *)
(** Cleaning up a ping touches the lifetime probe and the table of pings only. *)
Lemma schedule_frame e :
  exists p, final scheduleHeartbeatForLifetimeLocked e = with_best (set_probe (best e) p) e.
Proof.
  unfold scheduleHeartbeatForLifetimeLocked. rewrite final_bind. cbn [gets result final fst snd].
  destruct (probe (best e)) as [p|] eqn:E; [|exists (probe (best e)); by destruct e as [? ? ? ? ? ? ? ? ? []]].
  destruct (currentCliffDurationEndpointLocked (Some p)); [eexists; reflexivity|].
  exists (probe (best e)). by destruct e as [? ? ? ? ? ? ? ? ? []].
Qed.
Lemma cliffDone_frame env r id e :
  exists p, final (probeUDPLifetimeCliffDoneLocked env r id) e = with_best (set_probe (best e) p) e.
Proof.
  assert (Hid : exists p, e = with_best (set_probe (best e) p) e)
    by (exists (probe (best e)); by destruct e as [? ? ? ? ? ? ? ? ? []]).
  unfold probeUDPLifetimeCliffDoneLocked. rewrite final_bind. cbn [gets result final fst snd].
  destruct (probe (best e)) as [p|]; [|done].
  destruct (_ || _ || _); [done|]. destruct (_ || _).
  - cbv zeta. destruct (_ && _); [done|]. eexists. reflexivity.
  - rewrite !final_bind. cbn [gets modify result final fst snd].
    set (e1 := upd_probe _ e). destruct (maybeProbeUDPLifetimeLocked env e1) as [[|]|];
      [|eexists; reflexivity..]. cbn [isNone].
    destruct (schedule_frame e1) as [q ->]. by exists q.
Qed.
Lemma removeSent_frame env id sp r e :
  exists p, final (removeSentDiscoPingLocked env id sp r) e
            = with_sentPings (delete id (sentPings e)) (with_best (set_probe (best e) p) e).
Proof.
  unfold removeSentDiscoPingLocked. rewrite final_bind. change (final (modify ?f) ?x) with (f x).
  destruct (bool_decide _); cbn [when].
  - destruct (cliffDone_frame env r id e) as [p ->]. by exists p.
  - exists (probe (best e)). by destruct e as [? ? ? ? ? ? ? ? ? []].
Qed.

(** The handler after the ping has been removed from the table. *)
Lemma pong_known env id s src e sp :
  sentPings e !! id = Some sp ->
  result (handlePongConnLocked env id s src) e = true
  /\ sentPings (final (handlePongConnLocked env id s src) e) !! id = None.
Proof.
  intros Hsp.
  assert (forall m : M bool, keeps (fun e => sentPings e !! id = None) (fun _ => True) m ->
    sentPings (final (removeSentDiscoPingLocked env id sp discoPongReceived ;; m) e) !! id = None) as Hk.
  { intros m Hm. rewrite final_bind. apply Hm.
    destruct (removeSent_frame env id sp discoPongReceived e) as [p ->]. simpl. by rewrite lookup_delete_eq. }
  unfold handlePongConnLocked. cbv zeta. rewrite result_bind, final_bind.
  cbn [gets result final fst snd]. rewrite Hsp. split.
  - rewrite result_bind. destruct (_ && _ && _); [by rewrite result_bind|].
    rewrite result_bind. destruct (_ && isNone _); [done|]. by rewrite !result_bind.
  - apply Hk. destruct (_ && _ && _).
    { apply keeps_bind; [|intros _; apply keeps_ret]. apply keeps_modify. intros e' He.
      unfold deleteEndpointLocked. cbv zeta. by destruct (bool_decide _). }
    apply keeps_bind; [apply keeps_gets|]. intros st. destruct (_ && isNone st); [apply keeps_ret|].
    apply keeps_bind; [|intros _; apply keeps_bind; [|intros _; apply keeps_bind; [|intros _; apply keeps_ret]]].
    + apply keeps_when, keeps_bind; [by apply keeps_emit|]. intros _. by apply keeps_modify.
    + unfold replyOnce. destruct (sp_resCB sp); [|apply keeps_skip].
      apply keeps_bind; [apply keeps_gets|]. intros d. case_bool_decide; [apply keeps_skip|].
      apply keeps_bind; [by apply keeps_modify|]. intros _. by apply keeps_emit.
    + apply keeps_when. by apply keeps_modify.
Qed.

(** A pong counts once and only for a ping in flight: an unknown transaction id changes
    nothing and is reported as unknown, a known one is reported as known, and a second pong
    with the same id, from anywhere and at any time, changes nothing. *)
Theorem pong_handled_once env env' id s src s' src' e :
  let m := handlePongConnLocked env id s src in
  (result m e = true <-> is_Some (sentPings e !! id))
  /\ (sentPings e !! id = None -> m e = (e, [], false))
  /\ handlePongConnLocked env' id s' src' (final m e) = (final m e, [], false).
Proof.
  assert (Hunk : forall env s src e, sentPings e !! id = None ->
    handlePongConnLocked env id s src e = (e, [], false)).
  { intros env0 s0 src0 e0 Hn. unfold handlePongConnLocked, mbind, M_bind, gets. by rewrite Hn. }
  cbv zeta. split_and!; [|apply Hunk|].
  - split; [|by intros [sp Hsp]; eapply pong_known].
    destruct (sentPings e !! id) eqn:E; [by eauto|]. unfold result. by rewrite Hunk.
  - apply Hunk. destruct (sentPings e !! id) eqn:E; [by eapply pong_known|].
    unfold final. by rewrite Hunk.
Qed.

(** A pong over a tracked direct path does its work: the measured round trip becomes the
    newest entry of the address's pong ring and the latency the endpoint reports for it, the
    sender's address is attributed to the peer, and the choice of path is updated by
    exactly one [promotePong]. *)
Theorem pong_records_latency env id s src e sp st :
  sentPings e !! id = Some sp -> isDirect (sp_to sp) = true ->
  omitEndpointAddrPort (e_knobs env) (ap (sp_to sp)) = false ->
  isDirect src = true -> endpointStates e !! ap (sp_to sp) = Some st -> pong_wf st ->
  let m := handlePongConnLocked env id s src in
  let lat := Mono.Sub (e_now env) (sp_at sp) in
  (exists st', endpointStates (final m e) !! ap (sp_to sp) = Some st' /\ latencyLocked st' = Some lat
     /\ history st' = MkPong lat (e_now env) (ap src) s :: take 63 (history st))
  /\ ASetNodeKeyForEpAddr src ∈ acts m e
  /\ exists p, best (final m e)
       = promotePong (e_knobs env) (set_probe (best e) p) (sp_to sp) lat (sp_size sp) (e_now env).
Proof.
  intros Hsp Hto Hom Hsrc Hst Hwf. cbv zeta.
  assert (bool_decide (ip (ap src) = DerpMagicIPAddr) = false /\ VNI.IsSet (vni src) = false) as [Hd Hv].
  { unfold isDirect in Hsrc. bool_props. split; [|done]. by apply bool_decide_eq_false_2. }
  unfold handlePongConnLocked. cbv zeta. rewrite final_bind, acts_bind. cbn [gets result final acts fst snd app].
  rewrite Hsp, Hd, Hv, Hto, Hom. cbn [negb andb]. rewrite final_bind, acts_bind.
  destruct (removeSent_frame env id sp discoPongReceived e) as [p ->].
  set (e1 := with_sentPings _ _). rewrite final_bind, acts_bind. cbn [gets result final acts fst snd app].
  change (endpointStates e1) with (endpointStates e). rewrite Hst. cbn [isNone when].
  rewrite !final_bind, !acts_bind. change (final (modify ?f) ?x) with (f x).
  change (final (mret ?v) ?x) with x. change (final (emit ?a) ?x) with x.
  set (lat := Mono.Sub _ _). set (r := MkPong lat (e_now env) (ap src) s).
  assert (forall cb e', endpointStates (final (replyOnce cb lat (sp_to sp)) e') = endpointStates e'
    /\ best (final (replyOnce cb lat (sp_to sp)) e') = best e') as Hr.
  { intros [cb|] e'; [|done]. unfold replyOnce. rewrite final_bind. cbn [gets result final fst snd].
    destruct (bool_decide (cb ∈ replied e')); split; reflexivity. }
  split_and!.
  - exists (addPongReplyLocked st r). split_and!; [|by apply addPong_latency|by apply addPong_history].
    cbn [upd_best with_best endpointStates]. rewrite (proj1 (Hr _ _)).
    change (alter (fun st => addPongReplyLocked st r) (ap (sp_to sp)) (endpointStates e)
              !! ap (sp_to sp) = Some (addPongReplyLocked st r)).
    by rewrite lookup_alter_eq, Hst.
  - apply elem_of_app. right. apply elem_of_app. left. by left.
  - exists p. cbn [upd_best with_best best]. by rewrite (proj2 (Hr _ _)).
Qed.

(** ** Network map updates *)
Lemma deleteEndpointLocked_states ep e :
  endpointStates (deleteEndpointLocked ep e) = delete ep (endpointStates e).
Proof. unfold deleteEndpointLocked. cbv zeta. by destruct (bool_decide _). Qed.

Lemma deleteLoop_lookup (del : endpointState -> bool) l e a :
  endpointStates (foldl (fun e (x : AddrPort * endpointState) =>
      if del x.2 then deleteEndpointLocked x.1 e else e) e l) !! a
  = if existsb (fun x : AddrPort * endpointState => bool_decide (x.1 = a) && del x.2) l
    then None else endpointStates e !! a.
Proof.
  revert e. induction l as [|[b st] l IH]; intros e; simpl; [done|]. rewrite IH.
  destruct (existsb _ l); [by rewrite orb_true_r|]. rewrite orb_false_r.
  destruct (del st); [rewrite andb_true_r, deleteEndpointLocked_states|by rewrite andb_false_r].
  case_bool_decide as E; [by subst; rewrite lookup_delete_eq|by rewrite lookup_delete_ne].
Qed.
Lemma deleteStale_lookup env e a :
  endpointStates (deleteStale env e) !! a =
    match endpointStates e !! a with
    | Some st => if shouldDeleteLocked (e_wall env) st then None else Some st
    | None => None
    end.
Proof.
  unfold deleteStale. rewrite deleteLoop_lookup.
  destruct (existsb _ _) eqn:E.
  - apply existsb_exists in E as ([b st] & Hin%list_elem_of_In & Hb). simpl in Hb. bool_props. subst b.
    apply elem_of_map_range in Hin. rewrite Hin. by case_match.
  - destruct (endpointStates e !! a) as [st|] eqn:Ha; [|done].
    destruct (shouldDeleteLocked _ st) eqn:Hd; [|done]. exfalso.
    apply not_true_iff_false in E. apply E. apply existsb_exists. exists (a, st).
    rewrite <- list_elem_of_In. split; [by apply elem_of_map_range|]. simpl.
    by rewrite bool_decide_eq_true_2, Hd.
Qed.

(** An endpoint the network map contributes. *)
Definition netmapEndpoint (k : Knobs) (eps : list AddrPort) (a : AddrPort) : Prop :=
  a ∈ eps /\ IsValid a = true /\ omitEndpointAddrPort k a = false.

Lemma noteNetmap_lookup env i eps m a :
  0 <= i -> i + Z.of_nat (length eps) <= 32768 ->
  (netmapEndpoint (e_knobs env) eps a /\ exists j, 0 <= j
     /\ noteNetmapEndpoints env i eps m !! a = Some (set_index (default zeroES (m !! a)) j))
  \/ (~ netmapEndpoint (e_knobs env) eps a /\ noteNetmapEndpoints env i eps m !! a = m !! a).
Proof.
  revert i m. induction eps as [|b eps IH]; intros i m Hi Hlen; cbn [noteNetmapEndpoints].
  { right. split; [|done]. intros [Hin _]. by apply elem_of_nil in Hin. }
  cbn [length] in Hlen. rewrite (proj2 (Z.ltb_ge 32767 i)) by lia.
  unfold netmapEndpoint in *. setoid_rewrite elem_of_cons.
  destruct (negb (IsValid b) || omitEndpointAddrPort (e_knobs env) b) eqn:Eb.
  - destruct (IH (i + 1) m) as [(Hn & j & Hj & Hl)|(Hn & Hl)]; [lia|lia|left|right].
    + split; [naive_solver|eauto].
    + split; [|done]. intros ([->|?] & Hv & Ho); [|naive_solver].
      rewrite Hv, Ho in Eb. done.
  - bool_props. destruct (IH (i + 1) (<[b := set_index (default zeroES (m !! b)) i]> m))
      as [(Hn & j & Hj & Hl)|(Hn & Hl)]; [lia|lia| |]; rewrite Hl.
    + left. split; [naive_solver|]. exists j. split; [done|].
      destruct (decide (b = a)) as [->|Hne];
        [by rewrite lookup_insert_eq|by rewrite lookup_insert_ne].
    + destruct (decide (b = a)) as [->|Hne].
      * left. split; [naive_solver|]. exists i. split; [lia|]. by rewrite lookup_insert_eq.
      * right. rewrite lookup_insert_ne by done. naive_solver.
Qed.

(** After a network map update the candidate addresses are exactly: every address a recent
    call-me-maybe advertised, every address learned from an incoming ping less than 45
    seconds ago, and every valid, not omitted address of the map, except that an address
    first learned from an incoming ping and then silent for more than 45 seconds is
    dropped even when the new map lists it. *)
Theorem netmap_update_exact env eps e a :
  Z.of_nat (length eps) <= 32768 ->
  is_Some (endpointStates (setEndpointsLocked env eps e) !! a) <->
  match endpointStates e !! a with
  | None => netmapEndpoint (e_knobs env) eps a
  | Some st =>
      is_Some (callMeMaybeTime st)
      \/ (exists t, lastGotPing st = Some t /\ e_wall env - t <= sessionActiveTimeout)
      \/ (lastGotPing st = None /\ netmapEndpoint (e_knobs env) eps a)
  end.
Proof.
  intros Hlen. unfold setEndpointsLocked. cbv zeta. rewrite deleteStale_lookup.
  cbn [endpointStates with_endpointStates].
  set (marked := (fun st => set_index st indexSentinelDeleted) <$> endpointStates e).
  assert (marked !! a = (fun st => set_index st indexSentinelDeleted) <$> endpointStates e !! a) as Hm
    by apply lookup_fmap.
  destruct (noteNetmap_lookup env 0 eps marked a) as [(Hn & j & Hj & ->)|(Hn & ->)]; [lia|lia| |];
    rewrite Hm; destruct (endpointStates e !! a) as [st|]; simpl;
    unfold shouldDeleteLocked, indexSentinelDeleted; cbn [callMeMaybeTime lastGotPing index set_index zeroES];
    try rewrite (proj2 (Z.eqb_neq j (-1))) by lia;
    try (split; [done|by eauto]); try (by split; [intros [? ?]|]);
    destruct (callMeMaybeTime st); try (split; by eauto);
    destruct (lastGotPing st) as [t|]; try (split; [|by eauto]; by eauto);
    try (destruct (Z.ltb_spec sessionActiveTimeout (e_wall env - t)));
    (split; [try (intros [? ?]; done); try (intros _; right; left; exists t; by split);
             try (intros _; right; right; by split)
            |intros [[? ?]|[(t' & [= <-] & ?)|[? ?]]]; first [done|lia|by eauto]]).
Qed.

(** ** Call-me-maybe *)
Section CallMeMaybe.
Context (env : Env) (eps : list AddrPort).

Definition advertised (a : AddrPort) : Prop := a ∈ eps /\ acceptCallMeMaybe env a = true.

(** What holds from the moment the unwanted addresses are gone: the table of advertised
    addresses is [C], these are candidates, and the addresses [gone] are not. *)
Record cmm_inv (C : gmap AddrPort bool) (gone : AddrPort -> Prop) (e : endpoint) : Prop := {
  ci_table : isCallMeMaybeEP e = C;
  ci_live : forall a, advertised a -> exists st, endpointStates e !! a = Some st /\ is_Some (callMeMaybeTime st);
  ci_gone : forall a, gone a -> endpointStates e !! a = None
}.

Section Keep.
Context (C : gmap AddrPort bool) (gone : AddrPort -> Prop).
Notation ci := (cmm_inv C gone).
Notation keeps_ci := (keeps ci (fun _ => True)).

Lemma ci_frame e e' :
  isCallMeMaybeEP e' = isCallMeMaybeEP e -> endpointStates e' = endpointStates e -> ci e -> ci e'.
Proof. intros E1 E2 [? ? ?]. constructor; by rewrite ?E1, ?E2. Qed.
Lemma ci_upd_state ep f e :
  (forall st, callMeMaybeTime (f st) = callMeMaybeTime st) -> ci e -> ci (upd_state ep f e).
Proof.
  intros Hf [Ht Hl Hg]. constructor; simpl; [done| |].
  - intros a (st & Ha & Hs)%Hl. destruct (decide (ep = a)) as [->|Hne].
    + exists (f st). rewrite lookup_alter_eq, Ha, Hf. done.
    + exists st. by rewrite lookup_alter_ne.
  - intros a Ha%Hg. destruct (decide (ep = a)) as [->|Hne];
      [by rewrite lookup_alter_eq, Ha|by rewrite lookup_alter_ne].
Qed.
Lemma ci_delete ep e : ~ advertised ep -> ci e -> ci (deleteEndpointLocked ep e).
Proof.
  intros Hep [Ht Hl Hg]. constructor.
  - unfold deleteEndpointLocked. cbv zeta. by destruct (bool_decide _).
  - intros a Ha. destruct (Hl a Ha) as (st & Hst). exists st.
    rewrite deleteEndpointLocked_states, lookup_delete_ne by (intros ->; done). done.
  - intros a Ha%Hg. rewrite deleteEndpointLocked_states. destruct (decide (ep = a)) as [->|Hne];
      [by rewrite lookup_delete_eq|by rewrite lookup_delete_ne].
Qed.

Ltac cp :=
  repeat first
    [ progress cbv zeta | assumption
    | apply keeps_skip | apply keeps_ret | apply keeps_gets | by apply keeps_emit
    | apply keeps_bind; [|intros ?] | apply keeps_when | apply keeps_forM; intros ? _
    | apply keeps_modify; let e := fresh "e" in intros e Hci; by apply (ci_frame e)
    | match goal with |- keeps _ _ (match ?x with _ => _ end) => destruct x end ].

Lemma startPing_ci ep now purpose size cb : keeps_ci (startDiscoPingLocked env ep now purpose size cb).
Proof.
  unfold startDiscoPingLocked, sendOnePing, fresh. cp; try (intros e Hci; split; [|constructor];
    by apply (ci_frame e)).
  - apply keeps_modify. intros e. by apply ci_upd_state.
  - apply keeps_modify. intros e Hci. apply (ci_frame e); [..|done];
      unfold noteTxActivityExtTriggerLocked; cbv zeta; by destruct (_ && _).
Qed.
Lemma pingLoop_ci now l sent :
  (forall a st, (a, st) ∈ l -> advertised a -> is_Some (callMeMaybeTime st)) ->
  keeps_ci (pingLoop env now l sent).
Proof.
  revert sent. induction l as [|[ep st] l IH]; intros sent Hl; cbn [pingLoop]; [apply keeps_ret|].
  assert (forall a st, (a, st) ∈ l -> advertised a -> is_Some (callMeMaybeTime st)) as Hl'
    by (intros a st' Hin; apply Hl; by right).
  destruct (shouldDeleteLocked (e_wall env) st) eqn:Ed.
  - apply keeps_bind; [|intros _; by apply IH]. apply keeps_modify. intros e. apply ci_delete.
    intros Ha. destruct (Hl ep st ltac:(by left) Ha) as [t Ht].
    unfold shouldDeleteLocked in Ed. by rewrite Ht in Ed.
  - destruct (e_js env); [by apply IH|]. destruct (_ && _); [by apply IH|].
    apply keeps_bind; [apply startPing_ci|]. intros _. by apply IH.
Qed.
Lemma sendPings_ci now cmm : keeps_ci (sendDiscoPingsLocked env now cmm).
Proof.
  unfold sendDiscoPingsLocked. apply keeps_bind; [|intros _].
  { apply keeps_modify. intros e Hci. by apply (ci_frame e). }
  apply keeps_gets_bind. intros e Hci.
  refine (keeps_bind _ _ _ _ _ _ e Hci); [|intros sent; cp].
  apply pingLoop_ci. intros a st Hin%elem_of_map_range Ha.
  destruct (ci_live _ _ _ Hci a Ha) as (st' & Hst & Hs). naive_solver.
Qed.
Lemma discoverRelay_ci now : keeps_ci (maybeDiscoverRelay env now).
Proof. unfold maybeDiscoverRelay, discoverUDPRelayPathsLocked. cp. Qed.
End Keep.

(** The loop over the advertised addresses. *)
Lemma noteLoop_table l e a :
  isCallMeMaybeEP (foldl (noteCallMeMaybe env) e l) !! a =
    if bool_decide (a ∈ l) && acceptCallMeMaybe env a then Some true else isCallMeMaybeEP e !! a.
Proof.
  revert e. induction l as [|b l IH]; intros e; cbn [foldl]; [done|]. rewrite IH.
  unfold noteCallMeMaybe. destruct (acceptCallMeMaybe env a) eqn:Ea;
    [rewrite !andb_true_r|rewrite !andb_false_r; destruct (acceptCallMeMaybe env b) eqn:Eb; [|done];
     simpl; rewrite lookup_insert_ne by congruence; done].
  destruct (decide (a = b)) as [<-|Hne].
  - rewrite Ea. rewrite (bool_decide_eq_true_2 (a ∈ a :: l)) by (by left).
    simpl. rewrite lookup_insert_eq. by destruct (bool_decide (a ∈ l)).
  - rewrite (bool_decide_iff_eq (a ∈ b :: l) (a ∈ l)) by (rewrite elem_of_cons; naive_solver).
    destruct (acceptCallMeMaybe env b); simpl; [by rewrite lookup_insert_ne by congruence|done].
Qed.
Lemma noteLoop_live l e a :
  acceptCallMeMaybe env a = true ->
  a ∈ l \/ (exists st, endpointStates e !! a = Some st /\ is_Some (callMeMaybeTime st)) ->
  exists st, endpointStates (foldl (noteCallMeMaybe env) e l) !! a = Some st
             /\ is_Some (callMeMaybeTime st).
Proof.
  intros Ha. revert e. induction l as [|b l IH]; intros e Hl; cbn [foldl].
  { destruct Hl as [Hin|]; [by apply elem_of_nil in Hin|done]. }
  apply IH. destruct (decide (a = b)) as [<-|Hne].
  - right. unfold noteCallMeMaybe. rewrite Ha. simpl. rewrite lookup_insert_eq. eauto.
  - destruct Hl as [Hin|(st & Hst)]; [left; rewrite elem_of_cons in Hin; naive_solver|right].
    exists st. unfold noteCallMeMaybe. destruct (acceptCallMeMaybe env b); [|done].
    simpl. by rewrite lookup_insert_ne by congruence.
Qed.

(** The loop that drops what was not advertised again. *)
Definition dropStep (e : endpoint) (x : AddrPort * bool) : endpoint :=
  if x.2 then e else deleteEndpointLocked x.1 (with_isCallMeMaybeEP (delete x.1 (isCallMeMaybeEP e)) e).
Lemma dropLoop_lookup l e a :
  let dropped := existsb (fun x : AddrPort * bool => bool_decide (x.1 = a) && negb x.2) l in
  isCallMeMaybeEP (foldl dropStep e l) !! a = (if dropped then None else isCallMeMaybeEP e !! a)
  /\ endpointStates (foldl dropStep e l) !! a = (if dropped then None else endpointStates e !! a).
Proof.
  cbv zeta. revert e. induction l as [|[b w] l IH]; intros e; cbn [foldl existsb]; [done|].
  destruct (IH (dropStep e (b, w))) as [-> ->]. cbn [fst snd].
  destruct (existsb _ l); [by rewrite orb_true_r|]. rewrite orb_false_r.
  unfold dropStep. destruct w; cbn [fst snd negb]; [by rewrite andb_false_r|]. rewrite andb_true_r.
  rewrite deleteEndpointLocked_states.
  replace (isCallMeMaybeEP (deleteEndpointLocked b _)) with (delete b (isCallMeMaybeEP e))
    by (unfold deleteEndpointLocked; cbv zeta; by destruct (bool_decide _)).
  case_bool_decide as E; [subst; by rewrite !lookup_delete_eq|by rewrite !lookup_delete_ne].
Qed.
Lemma dropUnwanted_lookup e a :
  let dropped := bool_decide (isCallMeMaybeEP e !! a = Some false) in
  isCallMeMaybeEP (dropUnwanted e) !! a = (if dropped then None else isCallMeMaybeEP e !! a)
  /\ endpointStates (dropUnwanted e) !! a = (if dropped then None else endpointStates e !! a).
Proof.
  pose proof (dropLoop_lookup (map_range (isCallMeMaybeEP e)) e a) as Hd. cbv zeta in *.
  replace (bool_decide (isCallMeMaybeEP e !! a = Some false)) with
    (existsb (fun x : AddrPort * bool => bool_decide (x.1 = a) && negb x.2) (map_range (isCallMeMaybeEP e)));
    [exact Hd|].
  symmetry. destruct (existsb _ _) eqn:E.
  - apply existsb_exists in E as ([b w] & Hin%list_elem_of_In%elem_of_map_range & Hb).
    simpl in Hb. bool_props. subst. by apply bool_decide_eq_true_2.
  - apply bool_decide_eq_false_2. intros Ha. apply not_true_iff_false in E. apply E.
    apply existsb_exists. exists (a, false). rewrite <- list_elem_of_In, elem_of_map_range.
    split; [done|]. simpl. by rewrite bool_decide_eq_true_2.
Qed.

(** A call-me-maybe message replaces the previous one: afterwards the advertised table holds
    exactly the accepted addresses of this message, each of them is a candidate address,
    and every address only an earlier message advertised is no longer a candidate. *)
Theorem call_me_maybe_replaces e :
  e_js env = false ->
  let e' := final (handleCallMeMaybe env eps) e in
  (forall a, isCallMeMaybeEP e' !! a = Some true <-> advertised a)
  /\ (forall a, isCallMeMaybeEP e' !! a <> Some false)
  /\ (forall a, advertised a -> is_Some (endpointStates e' !! a))
  /\ (forall a, is_Some (isCallMeMaybeEP e !! a) -> ~ advertised a -> endpointStates e' !! a = None).
Proof.
  intros Hjs. cbv zeta. unfold handleCallMeMaybe. rewrite Hjs.
  do 4 (rewrite final_bind; change (final (modify ?f) ?x) with (f x)). cbv beta.
  set (e1 := with_isCallMeMaybeEP _ e). set (e2 := foldl (noteCallMeMaybe env) e1 eps).
  set (e3 := with_endpointStates ((fun st => set_lastPing st 0) <$> endpointStates (dropUnwanted e2))
               (dropUnwanted e2)).
  assert (forall a, isCallMeMaybeEP e2 !! a =
    if bool_decide (a ∈ eps) && acceptCallMeMaybe env a then Some true
    else (fun _ => false) <$> isCallMeMaybeEP e !! a) as Ht2
    by (intros a; unfold e2; rewrite noteLoop_table; by rewrite <- lookup_fmap).
  assert (forall a, advertised a <-> isCallMeMaybeEP e2 !! a = Some true) as Had.
  { intros a. rewrite Ht2. unfold advertised.
    destruct (acceptCallMeMaybe env a); [rewrite andb_true_r|rewrite andb_false_r; simpl].
    - case_bool_decide; [naive_solver|]. destruct (isCallMeMaybeEP e !! a); naive_solver.
    - destruct (isCallMeMaybeEP e !! a); naive_solver. }
  assert (cmm_inv (isCallMeMaybeEP e3)
    (fun a => is_Some (isCallMeMaybeEP e !! a) /\ ~ advertised a) e3) as Hci.
  { constructor; [done| |]; intros a Ha; cbn [e3 with_endpointStates endpointStates]; rewrite lookup_fmap;
      rewrite (proj2 (dropUnwanted_lookup e2 a)).
    - rewrite bool_decide_eq_false_2 by (rewrite (proj1 (Had a) Ha); done).
      destruct Ha as [Hin Hacc].
      destruct (noteLoop_live eps e1 a Hacc (or_introl Hin)) as (st & Hst & Hs). fold e2 in Hst.
      rewrite Hst. simpl. eauto.
    - destruct Ha as [[w Hw] Hna]. rewrite bool_decide_eq_true_2; [done|].
      rewrite Had, Ht2, Hw in Hna. rewrite Ht2, Hw. by destruct (_ && _). }
  assert (keeps (cmm_inv (isCallMeMaybeEP e3)
    (fun a => is_Some (isCallMeMaybeEP e !! a) /\ ~ advertised a)) (fun _ => True)
    (sendDiscoPingsLocked env (e_now env) false ;; maybeDiscoverRelay env (e_now env))) as Hk
    by (apply keeps_bind; [apply sendPings_ci|intros _; apply discoverRelay_ci]).
  destruct (Hk e3 Hci) as [[Ht Hl Hg] _].
  assert (forall a, isCallMeMaybeEP e3 !! a =
    if bool_decide (isCallMeMaybeEP e2 !! a = Some false) then None else isCallMeMaybeEP e2 !! a) as Ht3
    by (intros a; exact (proj1 (dropUnwanted_lookup e2 a))).
  split_and!; [| | |naive_solver].
  - intros a. rewrite Ht, Ht3, Had. case_bool_decide as E; [rewrite E|]; naive_solver.
  - intros a. rewrite Ht, Ht3. by case_bool_decide.
  - intros a Ha. destruct (Hl a Ha) as (st & Hst & _). eauto.
Qed.
End CallMeMaybe.

(** ** WireGuard-only peers *)
Definition faster (l : Z) (pick : AddrPort) (x : AddrPort * endpointState) : Prop :=
  forall l', latencyLocked x.2 = Some l' ->
    l <= l' /\ (l = l' -> Is6 (ip x.1) = true -> Is6 (ip pick) = true).

Definition wgPicked (acc : wgAcc) (seen : list (AddrPort * endpointState)) : Prop :=
  (wgPick acc = zeroAddrPort /\ lowestLatency acc = Hour /\ Forall (fun x => latencyLocked x.2 = None) seen)
  \/ (exists st, (wgPick acc, st) ∈ seen /\ latencyLocked st = Some (lowestLatency acc)
      /\ Forall (faster (lowestLatency acc) (wgPick acc)) seen).

Lemma wgStep_picked acc seen x :
  (forall l, latencyLocked x.2 = Some l -> l < Hour) ->
  wgPicked acc seen -> wgPicked (wgStep acc x) (seen ++ [x]).
Proof.
  intros Hx Hp. destruct x as [a st]. simpl in Hx. unfold wgStep.
  destruct (latencyLocked st) as [l|] eqn:El; simpl.
  2:{ destruct Hp as [(H1 & H2 & H3)|(st' & Hin & Hl & Hf)]; [left|right; exists st'];
        cbn; rewrite ?Forall_app, ?elem_of_app, ?Forall_singleton; split_and!; auto.
      intros l' Hl'. simpl in Hl'. congruence. }
  specialize (Hx l eq_refl).
  destruct ((l <? lowestLatency acc) || ((l =? lowestLatency acc) && Is6 (ip a))) eqn:Ec; right.
  - exists st. cbn. rewrite elem_of_app, list_elem_of_singleton, Forall_app, Forall_singleton.
    split_and!; [by right|done| |].
    + destruct Hp as [(H1 & H2 & H3)|(st' & Hin & Hl & Hf)].
      * eapply Forall_impl; [exact H3|]. intros y Hy l' Hl'. simpl in Hy. congruence.
      * eapply Forall_impl; [exact Hf|]. intros y Hy l' Hl'. destruct (Hy l' Hl') as [Hle H6].
        apply orb_true_iff in Ec as [Ec|Ec]; bool_props; [lia|]. split; [lia|]. done.
    + intros l' Hl'. simpl in Hl'. assert (l' = l) as -> by congruence. split; [lia|done].
  - apply orb_false_iff in Ec as [Ec1 Ec2]. bool_props.
    destruct Hp as [(H1 & H2 & H3)|(st' & Hin & Hl & Hf)]; [lia|].
    exists st'. cbn. rewrite elem_of_app, Forall_app, Forall_singleton.
    split_and!; [by left|done|done|]. intros l' Hl'. simpl in Hl'. assert (l' = l) as -> by congruence.
    split; [lia|]. intros E H6. rewrite E, Z.eqb_refl in Ec2. simpl in *. congruence.
Qed.

Lemma wgFold_picked l acc seen :
  (forall x lat, x ∈ l -> latencyLocked x.2 = Some lat -> lat < Hour) ->
  wgPicked acc seen -> wgPicked (foldl wgStep acc l) (seen ++ l).
Proof.
  revert acc seen. induction l as [|x l IH]; intros acc seen Hl Hp; simpl; [by rewrite app_nil_r|].
  rewrite cons_middle, app_assoc. apply IH; [intros; apply (Hl x0); [by right|done]|].
  apply wgStep_picked; [|done]. intros lat. apply Hl. by left.
Qed.

(** A WireGuard-only peer is sent to a known address with the lowest measured latency, an
    IPv6 one if the lowest latency is shared, whatever order the map is visited in; without
    any measurement one of the known addresses is picked. The choice is recorded and
    trusted for one second. *)
Theorem wireguard_only_picks_fastest env now e :
  endpointStates e <> ∅ ->
  (forall a st l, endpointStates e !! a = Some st -> latencyLocked st = Some l -> l < Hour) ->
  (forall a st, endpointStates e !! a = Some st -> IsValid a = true) ->
  let '(e', (udpAddr, _)) := addrForWireGuardSendLocked env now e in
  bestEp e' = udpAddr /\ trustBestAddrUntil (best e') = Mono.Add now Second /\ vni udpAddr = 0
  /\ exists st, endpointStates e !! ap udpAddr = Some st
     /\ forall a st' l', endpointStates e !! a = Some st' -> latencyLocked st' = Some l' ->
          exists l, latencyLocked st = Some l /\ l <= l'
                    /\ (l = l' -> Is6 (ip a) = true -> Is6 (ip (ap udpAddr)) = true).
Proof.
  intros Hne Hlat Hval. unfold addrForWireGuardSendLocked.
  set (entries := map_range (endpointStates e)).
  assert (entries <> []) as Hent.
  { intros E. apply Hne. apply map_size_empty_inv. rewrite <- length_map_range. fold entries. by rewrite E. }
  rewrite bool_decide_eq_false_2 by done. cbv zeta. cbn [bestEp upd_best with_best best bestAddr aq_ep].
  pose proof (wgFold_picked entries (MkWgAcc 0 Hour zeroAddrPort) []) as Hp. cbn [app] in Hp.
  specialize (Hp ltac:(intros [a st] l Hin Hl; apply elem_of_map_range in Hin; eauto)
                 ltac:(left; split_and!; [done|done|constructor])).
  set (acc := foldl wgStep _ entries) in *.
  split_and!; [done|done|done|]. cbn [ap epAddr_of].
  destruct Hp as [(-> & _ & Hnone)|(st & Hin & Hl & Hf)]; cbn [IsValid].
  - change (IsValid zeroAddrPort) with false. cbv iota.
    destruct (lookup_lt_is_Some_2 entries.*1 (e_rand env mod length entries)%nat) as [a Ha].
    { rewrite length_fmap. apply Nat.mod_upper_bound. by destruct entries. }
    rewrite Ha. simpl. apply list_elem_of_lookup_2, list_elem_of_fmap in Ha as ([a' st] & -> & Hin).
    exists st. split; [by apply elem_of_map_range in Hin|].
    intros b st' l' Hb Hl'. exfalso. apply elem_of_map_range in Hb.
    rewrite Forall_forall in Hnone. specialize (Hnone _ Hb). simpl in Hnone. congruence.
  - pose proof Hin as Hin'. apply elem_of_map_range in Hin'. rewrite (Hval _ _ Hin').
    exists st. split; [done|]. intros b st' l' Hb Hl'. apply elem_of_map_range in Hb.
    rewrite Forall_forall in Hf. destruct (Hf _ Hb l' Hl') as [H1 H2]. eauto.
Qed.
End Props.

(** ** The theorems at work on a concrete peer *)
Definition ex_start : Z := 2 ^ 55.
(** A network map, a command-line ping to the peer's DERP home and both addresses, a pong from
    the second address, and the same pong again. *)
Definition ex_ops : list (Env * ep_op) :=
  [(ex_env ex_start, OpUpdateFromNode (ex_node [ex_ap1; ex_ap2]) false true);
   (ex_env (ex_start + Second), OpDiscoPing 0);
   (ex_env (ex_start + Second + 20 * Millisecond), OpPong (be_put 12 3) ex_ap1 (epAddr_of ex_ap2));
   (ex_env (ex_start + Second + 30 * Millisecond), OpPong (be_put 12 3) ex_ap1 (epAddr_of ex_ap2));
   (ex_env (ex_start + 2 * Second), OpPlanSend true)].

Lemma endpoint_run_safe_witness :
  Forall (fun x => e_knobs x.1 = defaultKnobs) ex_ops
  /\ ~ APanic ∈ acts (ep_run (H := canonical_range) (H0 := portable_platform) ex_ops) (newEndpoint false).
Proof.
  assert (Forall (fun x => e_knobs x.1 = defaultKnobs) ex_ops) as Hk by (repeat constructor).
  split; [exact Hk|].
  exact (proj2 (endpoint_run_safe (H := canonical_range) (H0 := portable_platform) defaultKnobs false ex_ops Hk)).
Defined.

Definition ex_pinged : endpoint :=
  final (ep_run (H := canonical_range) (H0 := portable_platform) (take 2 ex_ops)) (newEndpoint false).
Lemma pong_records_latency_witness :
  let m := handlePongConnLocked (H0 := portable_platform) (ex_env (ex_start + Second + 20 * Millisecond))
             (be_put 12 3) ex_ap1 (epAddr_of ex_ap2) in
  exists st, endpointStates (final m ex_pinged) !! ex_ap2 = Some st
             /\ latencyLocked st = Some (20 * Millisecond).
Proof.
  intros m.
  destruct (pong_records_latency (H0 := portable_platform) (ex_env (ex_start + Second + 20 * Millisecond))
    (be_put 12 3) ex_ap1 (epAddr_of ex_ap2) ex_pinged
    (MkSentPing (epAddr_of ex_ap2) (ex_start + Second) pingCLI 0 (Some 0%nat))
    (set_index zeroES 1)) as ((st & Hst & Hl & _) & _);
    [vm_compute; reflexivity..|left; split; reflexivity|].
  exists st. split; [exact Hst|]. rewrite Hl. reflexivity.
Defined.

(** A discovered address that is also in the map, silent for too long. *)
Definition ex_discovered (t : Z) : endpoint :=
  with_endpointStates {[ex_ap1 := set_gotPing zeroES (Some t) zeroTxID]} (newEndpoint false).
Lemma netmap_update_exact_witness :
  is_Some (endpointStates (setEndpointsLocked (H := canonical_range) (H0 := portable_platform)
    (ex_env ex_start) [ex_ap1; ex_ap2] (newEndpoint false)) !! ex_ap1)
  /\ ~ is_Some (endpointStates (setEndpointsLocked (H := canonical_range) (H0 := portable_platform)
    (ex_env ex_start) [ex_ap1; ex_ap2] (ex_discovered 0)) !! ex_ap1).
Proof.
  split.
  - apply (netmap_update_exact (H := canonical_range) (H0 := portable_platform) (ex_env ex_start)
      [ex_ap1; ex_ap2] (newEndpoint false) ex_ap1); [simpl; lia|].
    repeat split. by left.
  - rewrite (netmap_update_exact (H := canonical_range) (H0 := portable_platform) (ex_env ex_start)
      [ex_ap1; ex_ap2] (ex_discovered 0) ex_ap1) by (simpl; lia).
    change (endpointStates (ex_discovered 0) !! ex_ap1) with (Some (set_gotPing zeroES (Some 0) zeroTxID)).
    cbn [callMeMaybeTime lastGotPing set_gotPing zeroES].
    intros [[? ?]|[(t & [= <-] & Ht)|[? _]]]; [discriminate|vm_compute in Ht; congruence|discriminate].
Defined.

Lemma call_me_maybe_replaces_witness :
  let m := handleCallMeMaybe (H := canonical_range) (H0 := portable_platform) (ex_env ex_start) in
  endpointStates (final (m [ex_ap2]) (final (m [ex_ap1]) (newEndpoint false))) !! ex_ap1 = None.
Proof.
  intros m.
  apply (call_me_maybe_replaces (H := canonical_range) (H0 := portable_platform) (ex_env ex_start)
    [ex_ap2] (final (m [ex_ap1]) (newEndpoint false)) eq_refl).
  - exists true. vm_compute. reflexivity.
  - intros [Hin _]. apply list_elem_of_singleton in Hin. vm_compute in Hin. congruence.
Defined.

Definition ex_measured : endpoint :=
  with_endpointStates
    (<[ex_ap1 := addPongReplyLocked zeroES (MkPong (10 * Millisecond) ex_start ex_ap1 zeroAddrPort)]>
     {[ex_ap6 := addPongReplyLocked zeroES (MkPong (10 * Millisecond) ex_start ex_ap6 zeroAddrPort)]})
    (newEndpoint true).
Lemma wireguard_only_picks_fastest_witness :
  let r := addrForWireGuardSendLocked (H := canonical_range) (ex_env ex_start) ex_start ex_measured in
  r.2.1 = epAddr_of ex_ap6 /\ bestEp r.1 = r.2.1.
Proof.
  intros r. split; [vm_compute; reflexivity|].
  pose proof (wireguard_only_picks_fastest (H := canonical_range) (ex_env ex_start) ex_start ex_measured) as Hw.
  subst r. revert Hw.
  generalize (addrForWireGuardSendLocked (H := canonical_range) (ex_env ex_start) ex_start ex_measured).
  intros [e' [udp ping]] Hw. cbn [fst snd].
  apply Hw; clear.
  - intros E. apply (f_equal (lookup ex_ap1)) in E. vm_compute in E. congruence.
  - intros a st l. unfold ex_measured. cbn [endpointStates with_endpointStates].
    rewrite lookup_insert_Some, lookup_singleton_Some.
    intros [[_ <-]|[_ [_ <-]]] Hl; vm_compute in Hl; injection Hl as <-; reflexivity.
  - intros a st. unfold ex_measured. cbn [endpointStates with_endpointStates].
    rewrite lookup_insert_Some, lookup_singleton_Some.
    intros [[<- _]|[_ [<- _]]]; reflexivity.
Defined.
