(* ===== verification/PeersProps.v ===== *)
(** * What the peer index promises

    Over every run of the operations of [Peers]: the indexes agree, the peers follow a table of
    node keys and ids, and exactly when the operations panic. *)
From S2P Require Import Prelude Netip Bytes Knobs ProbeManager SourceSockets ActivePaths BetterAddr EndpointState.
From S2P Require Import EndpointRecord Endpoint EndpointSend EndpointFacts EndpointProps PeerMap Peers.

Section PeersProps.
Context `{MapRange} `{Platform} (env : Env).

Lemma endpointForEpAddr_peer h m a ep :
  idx_ok h m -> endpointForEpAddr m a = Some ep ->
  exists nk p i e, is_peer h m nk ep e /\ byNodeKey m !! nk = Some p /\ infos m !! p = Some i
    /\ pi_ep i = ep /\ byEpAddr m !! a = Some p.
Proof.
  intros Hx E. unfold endpointForEpAddr, endpointOf in E.
  destruct (byEpAddr m !! a) as [p|] eqn:Ha; [|done]. cbn [mbind option_bind] in E.
  destruct (proj1 (ix_addr _ _ Hx _ _) Ha) as (nk & i & Hk & Hi & _).
  destruct (ix_key _ _ Hx _ _ Hk) as (i' & e & Hi' & He & Hpk). rewrite Hi in Hi', E. simplify_eq/=.
  exists (eo_publicKey e), p, i', e. split; [|done]. by exists p, i'.
Qed.
Lemma is_peer_inj h m nk nk' ep e e' : is_peer h m nk ep e -> is_peer h m nk' ep e' -> nk = nk' /\ e = e'.
Proof. intros (p & i & _ & _ & _ & He & Hk) (p' & i' & _ & _ & _ & He' & Hk'). split; congruence. Qed.

Lemma nodeCount_in_sync s : peers_ok s -> nodeCountOutOfSync (ps_map s) = false.
Proof.
  intros Hs. pose proof (pm_idx _ _ (po_map _ Hs)) as Hx. unfold nodeCountOutOfSync.
  apply negb_false_iff, Nat.eqb_eq. rewrite <- (size_table s Hs).
  rewrite <- !length_map_to_list, <- (length_fmap snd (map_to_list (table s))), <- (length_fmap fst (map_to_list (byNodeID _))).
  apply Permutation_length, NoDup_Permutation.
  - apply NoDup_fmap_2_strong; [|apply NoDup_map_to_list]. intros [k id] [k' id'] Hk Hk' E. cbn in E. subst id'.
    apply elem_of_map_to_list in Hk, Hk'. f_equal. by eapply table_ids.
  - apply NoDup_fst_map_to_list.
  - intros id. rewrite !list_elem_of_fmap. split.
    + intros ([k id'] & -> & Hk). cbn. apply elem_of_map_to_list in Hk.
      apply (table_lookup _ _ _ Hs) in Hk as (ep & e & (p & i & Hk & Hi & Hep & He & Hpk) & <-).
      exists (eo_nodeID e, p). split; [done|]. apply elem_of_map_to_list, (ix_id _ _ Hx).
      exists k, i, e. by rewrite Hep.
    + intros ([id' p] & -> & Hp). cbn. apply elem_of_map_to_list, (ix_id _ _ Hx) in Hp as (k & i & e & Hk & Hi & He & Hid).
      exists (k, id'). split; [done|]. apply elem_of_map_to_list, (table_lookup _ _ _ Hs). exists (pi_ep i), e.
      destruct (ix_key _ _ Hx _ _ Hk) as (i' & e' & Hi' & He' & Hpk). split; [|done]. exists p, i. split_and!; congruence.
Qed.

(** The endpoints visited for a disco key. *)
Lemma endpointsWithDiscoKey_spec s dk ep :
  peers_ok s ->
  ep ∈ endpointsWithDiscoKey (ps_map s) dk <->
  exists nk e, is_peer (ps_eps s) (ps_map s) nk ep e /\ eo_wgOnly e = false /\ eo_disco e = Some dk.
Proof.
  intros Hs. pose proof (po_map _ Hs) as Hm. pose proof (pm_idx _ _ Hm) as Hx.
  unfold endpointsWithDiscoKey. rewrite list_elem_of_omap. split.
  - intros ([nk []] & Hin & E). apply elem_of_map_range in Hin. apply lookup_gset_to_gmap_Some in Hin as [Hin _].
    cbn in E. assert (speaks (ps_eps s) (ps_map s) nk dk) as (p & i & e & Hk & Hi & He & W & D).
    { apply (pm_disco _ _ Hm). destruct (nodesOfDisco (ps_map s) !! dk) as [t|]; [by exists t|set_solver]. }
    unfold endpointOf in E. rewrite Hk in E. cbn in E. rewrite Hi in E. injection E as <-.
    destruct (ix_key _ _ Hx _ _ Hk) as (i' & e' & Hi' & He' & Hpk). exists nk, e. split; [|done].
    exists p, i. split_and!; congruence.
  - intros (nk & e & (p & i & Hk & Hi & Hep & He & Hpk) & W & D).
    assert (in_disco (nodesOfDisco (ps_map s)) dk nk) as (t & Ht & Hin).
    { apply (pm_disco _ _ Hm). exists p, i, e. by rewrite Hep. }
    exists (nk, tt). rewrite Ht. cbn. split.
    + apply elem_of_map_range. apply lookup_gset_to_gmap_Some. done.
    + unfold endpointOf. rewrite Hk. cbn. rewrite Hi. cbn. by rewrite Hep.
Qed.

(** The indexes of peers agree in every state the operations reach: the two counts
    [nodeCount] compares are equal; a lookup by address, node id or disco key gives the endpoint of
    a current peer, and every current peer is found by its key and id and, unless it is WireGuard
    only, by its current disco key; and no peer has two relay addresses. *)
Theorem peer_index_consistent s :
  reachable env s ->
  nodeCountOutOfSync (ps_map s) = false
  /\ (forall a ep, endpointForEpAddr (ps_map s) a = Some ep ->
        exists nk e, is_peer (ps_eps s) (ps_map s) nk ep e)
  /\ (forall nk ep e, is_peer (ps_eps s) (ps_map s) nk ep e ->
        endpointForNodeKey (ps_map s) nk = Some ep /\ endpointForNodeID (ps_map s) (eo_nodeID e) = Some ep)
  /\ (forall id ep, endpointForNodeID (ps_map s) id = Some ep ->
        exists nk e, is_peer (ps_eps s) (ps_map s) nk ep e /\ eo_nodeID e = id)
  /\ (forall dk ep, ep ∈ endpointsWithDiscoKey (ps_map s) dk <->
        exists nk e, is_peer (ps_eps s) (ps_map s) nk ep e /\ eo_wgOnly e = false /\ eo_disco e = Some dk)
  /\ (forall a a' ep, endpointForEpAddr (ps_map s) a = Some ep -> endpointForEpAddr (ps_map s) a' = Some ep ->
        VNI.IsSet (vni a) = true -> VNI.IsSet (vni a') = true -> a = a').
Proof.
  intros R. pose proof (reachable_ok env s R) as Hs. pose proof (pm_idx _ _ (po_map _ Hs)) as Hx.
  split_and!.
  - by apply nodeCount_in_sync.
  - intros a ep E. destruct (endpointForEpAddr_peer _ _ _ _ Hx E) as (nk & p & i & e & Hp & _). eauto.
  - intros nk ep e Hp. split; [|by eapply is_peer_endpointForNodeID].
    pose proof Hp as (? & ? & _ & _ & _ & He & Hpk). destruct (po_named _ Hs _ _ He) as (_ & _ & Nn).
    apply is_peer_endpointForNodeKey with (ps_eps s) e; [done|congruence].
  - intros id ep. by apply endpointForNodeID_peer.
  - intros dk ep. by apply endpointsWithDiscoKey_spec.
  - intros a a' ep E E' V V'.
    destruct (endpointForEpAddr_peer _ _ _ _ Hx E) as (nk & p & i & e & Hp & Hk & Hi & Hep & Ha).
    destruct (endpointForEpAddr_peer _ _ _ _ Hx E') as (nk' & p' & i' & e' & Hp' & Hk' & Hi' & Hep' & Ha').
    destruct (is_peer_inj _ _ _ _ _ _ _ Hp Hp') as [<- _]. simplify_eq.
    assert (relayEpAddrByNodeKey (ps_map s) !! nk = Some a) by (apply (ix_relay _ _ Hx); eauto).
    assert (relayEpAddrByNodeKey (ps_map s) !! nk = Some a') by (apply (ix_relay _ _ Hx); eauto). congruence.
Qed.

(** [C5] The peers follow a table of node keys and ids. Upserting a node drops another key the id
    had, adds the node if its key is new and it is supported, and deletes it if it no longer is;
    removing an id deletes its key; a new network map upserts its nodes in order and, when the
    counts differ, keeps only its keys; a disco key advertisement or an identified packet changes
    no peer. *)
Theorem peer_updates_refine_table s :
  reachable env s ->
  (forall n flags s', UpsertPeer env n flags s = inr s' ->
     table s' = if closed s then table s else tUpsert n (table s))
  /\ (forall nid, table (RemovePeer env nid s)
       = if negb (closed s) && bool_decide (is_Some (peersByID s !! nid))
         then filter (fun x : NodePublic * Z => x.2 <> nid) (table s) else table s)
  /\ (forall peers flags s' b, updateNodes env peers flags s = inr (s', b) ->
       table s' = if b then tUpdate peers (table s) else table s)
  /\ (forall nk dk s', HandleDiscoKeyAdvertisement nk dk s = inr s' -> table s' = table s)
  /\ (forall maybeEP src nk, table (FromPeer maybeEP src nk s) = table s).
Proof.
  intros R. pose proof (reachable_ok env s R) as Hs. split_and!.
  - intros n flags s' U. unfold UpsertPeer in U. destruct (closed s); [by simplify_eq|].
    destruct (nd_ID n =? 0) eqn:Z; [apply devPanicf_inr in U as ->; unfold tUpsert; by rewrite Z|].
    apply upsertPeerLocked_refines in U as [_ ->]; [done|]. by apply (peers_ok_frame s).
  - intros nid. by apply RemovePeer_table.
  - intros peers flags s' b U. by eapply updateNodes_refines.
  - intros nk dk s'. by apply Advertisement_cases.
  - intros maybeEP src nk. unfold FromPeer. destruct (match maybeEP with Some _ => _ | None => _ end); [done|].
    destruct (endpointForNodeKey _ _); [by apply setAddr_ok|done].
Qed.

Lemma upsertPeers_app pre post flags s :
  upsertPeers env (pre ++ post) flags s
  = match upsertPeers env pre flags s with inl x => inl x | inr s1 => upsertPeers env post flags s1 end.
Proof.
  revert s. induction pre as [|n pre IH]; intros s; cbn [app upsertPeers]; [done|]. destruct (upsertPeerLocked env n flags s); [done|apply IH].
Qed.
Lemma upsertPeers_panics peers flags s x :
  peers_ok s ->
  upsertPeers env peers flags s = inl x <->
  exists pre n post s1, peers = pre ++ n :: post /\ upsertPeers env pre flags s = inr s1 /\ upsertPanic env s1 n x.
Proof.
  intros Hs. split.
  - revert s Hs. induction peers as [|n peers IH]; intros s Hs; cbn [upsertPeers]; [done|].
    destruct (upsertPeerLocked env n flags s) as [y|s1] eqn:U.
    + intros [= ->]. exists [], n, peers, s. split; [done|]. split; [done|]. by apply (upsertPeerLocked_panics env n flags).
    + intros E. destruct (IH s1) as (pre & m & post & s2 & -> & P & Up); [by eapply upsertPeerLocked_refines|done|].
      exists (n :: pre), m, post, s2. split; [done|]. split; [cbn [upsertPeers]; by rewrite U|done].
  - intros (pre & n & post & s1 & -> & P & Up). rewrite upsertPeers_app, P. cbn [upsertPeers].
    apply (upsertPeerLocked_panics env n flags) in Up; [by rewrite Up|]. by eapply upsertPeers_refines.
Qed.
Lemma nodeCount_total s : peers_ok s -> nodeCount (e_crashOnUnexpected env) (ps_map s) = inr (Z.of_nat (size (byNodeKey (ps_map s)))).
Proof. intros Hs. unfold nodeCount. by rewrite nodeCount_in_sync. Qed.
Definition unchanged (peers : list Node) (flags : debugFlags) (s : peersState) : Prop :=
  lastFlags s = flags /\ length peers = size (peersByID s) /\ Forall (fun n => peersByID s !! nd_ID n = Some n) peers.
Lemma updateNodes_eq peers flags s :
  peers_ok s ->
  (closed s = true \/ unchanged peers flags s) /\ updateNodes env peers flags s = inr (s, false)
  \/ closed s = false /\ ~ unchanged peers flags s
     /\ match upsertPeers env peers flags (with_flags flags s) with
        | inl x => updateNodes env peers flags s = inl x
        | inr _ => exists s', updateNodes env peers flags s = inr (s', true)
        end.
Proof.
  intros Hs. unfold updateNodes. destruct (closed s); [auto|].
  assert (bool_decide (lastFlags s = flags) && (length peers =? size (peersByID s))%nat
    && forallb (fun n => bool_decide (peersByID s !! nd_ID n = Some n)) peers = true <-> unchanged peers flags s) as Un.
  { unfold unchanged. rewrite !andb_true_iff, bool_decide_eq_true, Nat.eqb_eq, forallb_forall, Forall_forall.
    setoid_rewrite <- list_elem_of_In. setoid_rewrite bool_decide_eq_true. tauto. }
  destruct (_ && _ && _); [left; split; [right; by apply Un|done]|]. right. split; [done|]. split; [intros X%Un; done|].
  destruct (upsertPeers env peers flags (with_flags flags s)) as [|s1] eqn:U; [done|]. cbv zeta.
  destruct (upsertPeers_refines env peers flags (with_flags flags s) s1) as [Hs1 _]; [by apply (peers_ok_frame s)|done|].
  rewrite (nodeCount_total (with_peersByID (newPeersOf peers) s1)); [eauto|]. by apply (peers_ok_frame s1).
Qed.

(** [C33] The operations panic exactly in the following cases. A disco key advertisement: when it
    advertises the zero key for a peer that is not WireGuard only. The upsert of a node: when the
    network map turns such a peer into a WireGuard-only node without a disco key, whatever the
    settings; and, if unexpected conditions are set to crash, as by default on unstable builds,
    when the node has no id or no key, or when its key is that of a peer with another id. A new
    network map, unless the connection is closed or the map is unchanged: when the upsert of one of its
    nodes panics after those before it; the check of the two counts never fails. *)
Theorem peer_update_panics s :
  reachable env s ->
  (forall nk dk x, HandleDiscoKeyAdvertisement nk dk s = inl x <->
     x = panicNilDisco /\ dk = zeroDisco
     /\ exists ep e, is_peer (ps_eps s) (ps_map s) nk ep e /\ eo_wgOnly e = false)
  /\ (forall n flags x, UpsertPeer env n flags s = inl x <-> closed s = false /\ upsertPanic env s n x)
  /\ (forall peers flags x, updateNodes env peers flags s = inl x <->
       closed s = false /\ ~ unchanged peers flags s
       /\ exists pre n post s1, peers = pre ++ n :: post /\ upsertPeers env pre flags (with_flags flags s) = inr s1
          /\ table s1 = foldl (fun t n => tUpsert n t) (table s) pre /\ upsertPanic env s1 n x).
Proof.
  intros R. pose proof (reachable_ok env s R) as Hs. split; [|split].
  - intros nk dk. by apply Advertisement_cases.
  - intros n flags x. unfold UpsertPeer. destruct (closed s); [naive_solver|]. set (s0 := with_peersByID _ s).
    assert (peers_ok s0) as Hs0 by (by apply (peers_ok_frame s)).
    pose proof (upsertPeerLocked_panics env n flags s0 x Hs0) as P. change (upsertPanic env s0 n x) with (upsertPanic env s n x) in P.
    destruct (nd_ID n =? 0) eqn:Z; [|rewrite P; naive_solver]. rewrite upsertPeerLocked_eq, Z in P. cbn [orb] in P.
    rewrite devPanicf_inl in P |- *. rewrite P. naive_solver.
  - intros peers flags x. assert (peers_ok (with_flags flags s)) as Hs0 by (by apply (peers_ok_frame s)).
    pose proof (upsertPeers_panics peers flags (with_flags flags s) x Hs0) as P.
    assert (forall pre s1, upsertPeers env pre flags (with_flags flags s) = inr s1 -> table s1 = foldl (fun t n => tUpsert n t) (table s) pre) as T
      by (intros pre s1 U; by eapply (upsertPeers_refines env pre flags (with_flags flags s))).
    destruct (updateNodes_eq peers flags s Hs) as [[C ->]|(C & N & E)].
    + split; [done|]. intros (Cl & Nu & _). destruct C as [C|C]; [congruence|done].
    + transitivity (upsertPeers env peers flags (with_flags flags s) = inl x).
      * destruct (upsertPeers env peers flags (with_flags flags s)); [rewrite E; naive_solver|]. destruct E as [s' ->]. done.
      * rewrite P. naive_solver.
Qed.

Definition expected (t : gmap NodePublic Z) (n : Node) : Prop :=
  nd_ID n <> 0 /\ nd_Key n <> zeroNode /\ forall id, t !! nd_Key n = Some id -> id = nd_ID n.
Lemma upsertPeers_total peers flags s :
  peers_ok s -> Forall (fun n => nd_DiscoKey n <> zeroDisco) peers ->
  (forall pre n post, peers = pre ++ n :: post -> expected (foldl (fun t n => tUpsert n t) (table s) pre) n) ->
  exists s', upsertPeers env peers flags s = inr s'.
Proof.
  intros Hs Hf He. destruct (upsertPeers env peers flags s) as [x|s'] eqn:U; [|eauto]. exfalso.
  apply upsertPeers_panics in U as (pre & n & post & s1 & -> & P & Up); [|done].
  destruct (upsertPeers_refines env pre flags s s1 Hs P) as [_ T]. specialize (He pre n post eq_refl) as (E1 & E2 & E3).
  rewrite <- T in E3. destruct Up as [(_ & _ & Dk & _)|(_ & why & _ & Uw)].
  - apply Forall_app in Hf as [_ [Hn _]%Forall_cons]. done.
  - destruct why; cbn in Uw; naive_solver.
Qed.

(** A network map is applied exactly: when its nodes have ids, keys and disco keys (or are
    WireGuard only), no id and no key twice, and no key of a current peer with another id, the peers
    afterwards are its nodes; and if all of them have disco keys the update does not panic. *)
Theorem netmap_peers_exact peers flags s :
  reachable env s -> Forall valid_node peers -> NoDup (nd_ID <$> peers) -> NoDup (nd_Key <$> peers) ->
  (forall n, n ∈ peers -> forall id, table s !! nd_Key n = Some id -> id = nd_ID n) ->
  (forall s', updateNodes env peers flags s = inr (s', true) -> table s' = table_of peers)
  /\ (Forall (fun n => nd_DiscoKey n <> zeroDisco) peers ->
      exists s' b, updateNodes env peers flags s = inr (s', b)).
Proof.
  intros R Hv ND1 ND2 Hm. pose proof (reachable_ok env s R) as Hs. split.
  - intros s' U. apply updateNodes_refines in U as [_ ->]; [|done]. by apply tUpdate_exact.
  - intros Hf. destruct (updateNodes_eq peers flags s Hs) as [[_ ->]|(_ & _ & E)]; [eauto|].
    destruct (upsertPeers_total peers flags (with_flags flags s)) as [s1 Us]; [by apply (peers_ok_frame s)|done| |].
    2: { rewrite Us in E. destruct E as [s' ->]. eauto. }
    intros pre n post ->. apply Forall_app in Hv as [Hv1 [(N0 & Nn & _) _]%Forall_cons].
    rewrite (fmap_app nd_ID) in ND1. rewrite (fmap_app nd_Key) in ND2. apply NoDup_app in ND1 as (ND1 & _). apply NoDup_app in ND2 as (ND2 & Nk & _).
    split; [done|]. split; [done|]. intros id. change (table (with_flags flags s)) with (table s).
    rewrite tUpserts_lookup; [|done..|intros m Hm'; apply Hm, elem_of_app; by left].
    intros [(m & Hm' & E1 & _)|(T & _)]; [|apply (Hm n); [set_solver|done]].
    exfalso. apply (Nk (nd_Key m)); [by apply list_elem_of_fmap_2|]. rewrite <- E1. by left.
Qed.
End PeersProps.

(** ** Witnesses *)
Definition ex_peerNode (id : Z) (key : byte) (dk : DiscoPublic) : Node :=
  MkPeerNode id (replicate 32 key) false (MkNode false dk 1 [ex_ap1] 121) 0.
Definition ex_flags : debugFlags := MkFlags false false.
Definition ex_peersEnv : Env := ex_env 0.
Notation wUpsert := (UpsertPeer (H := canonical_range) (H0 := portable_platform) ex_peersEnv).
Notation wUpdate := (updateNodes (H := canonical_range) (H0 := portable_platform) ex_peersEnv).
Notation wReachable := (reachable (H := canonical_range) (H0 := portable_platform) ex_peersEnv).
Definition orStay (r : peerPanic + peersState) (s : peersState) : peersState :=
  match r with inr s' => s' | inl _ => s end.
Definition ex_peersState : peersState := orStay (wUpsert (ex_peerNode 1 x0a ex_key) ex_flags newPeers) newPeers.
Lemma reachable_upsert n flags s : wReachable s -> wReachable (orStay (wUpsert n flags s) s).
Proof.
  intros R. destruct (wUpsert n flags s) as [|s'] eqn:U; cbn; [done|].
  eapply rtc_r; [exact R|]. by eapply st_UpsertPeer.
Qed.
Lemma reachable_advert nk dk s :
  wReachable s -> wReachable (orStay (HandleDiscoKeyAdvertisement (H := canonical_range) nk dk s) s).
Proof.
  intros R. destruct (HandleDiscoKeyAdvertisement nk dk s) as [|s'] eqn:U; cbn; [done|].
  eapply rtc_r; [exact R|]. by eapply st_Advertisement.
Qed.
Lemma ex_peersState_reachable : wReachable ex_peersState.
Proof. apply reachable_upsert, rtc_refl. Qed.
(** The peer's first disco key is replaced by an advertised one, which the network map confirms. *)
Definition ex_rekeyed : peersState :=
  let s := orStay (wUpsert (ex_peerNode 1 x0a (replicate 32 x06)) ex_flags newPeers) newPeers in
  let s := orStay (HandleDiscoKeyAdvertisement (H := canonical_range) (replicate 32 x0a) ex_key s) s in
  orStay (wUpsert (ex_peerNode 1 x0a ex_key) ex_flags s) s.
Lemma ex_rekeyed_reachable : wReachable ex_rekeyed.
Proof. apply reachable_upsert, reachable_advert, reachable_upsert, rtc_refl. Qed.

Lemma peer_index_consistent_witness :
  nodeCountOutOfSync (ps_map ex_peersState) = false
  /\ (exists nk e, is_peer (ps_eps ex_peersState) (ps_map ex_peersState) nk 0 e /\ eo_nodeID e = 1).
Proof.
  destruct (peer_index_consistent (H := canonical_range) (H0 := portable_platform) ex_peersEnv ex_peersState
    ex_peersState_reachable) as (A & _ & _ & D & _).
  split; [exact A|]. apply D. vm_compute. reflexivity.
Defined.
Lemma peer_updates_refine_table_witness :
  map_to_list (table ex_peersState) = [(replicate 32 x0a, 1)]
  /\ map_to_list (table (RemovePeer (H := canonical_range) ex_peersEnv 1 ex_peersState)) = [].
Proof.
  destruct (peer_updates_refine_table (H := canonical_range) (H0 := portable_platform) ex_peersEnv ex_peersState
    ex_peersState_reachable) as (_ & B & _).
  split; [vm_compute; reflexivity|]. rewrite B. vm_compute. reflexivity.
Defined.
Lemma ex_peersState_key : table ex_peersState !! replicate 32 x0a = Some 1.
Proof. vm_compute. reflexivity. Qed.
Lemma peer_update_panics_witness :
  HandleDiscoKeyAdvertisement (H := canonical_range) (replicate 32 x0a) zeroDisco ex_peersState = inl panicNilDisco
  /\ wUpsert (ex_peerNode 2 x0a ex_key) ex_flags ex_peersState = inl (panicDev devKeyMoved).
Proof.
  destruct (peer_update_panics (H := canonical_range) (H0 := portable_platform) ex_peersEnv ex_peersState
    ex_peersState_reachable) as (A & B & _). split.
  - apply A. split; [reflexivity|]. split; [reflexivity|]. eexists _, _. split; [|shelve].
    eexists _, _. split_and!; vm_compute; reflexivity.
  - apply B. split; [reflexivity|]. right. split; [reflexivity|]. exists devKeyMoved. split; [reflexivity|].
    split; [done|]. split; [done|]. exists 1. split; [exact ex_peersState_key|done].
  Unshelve. vm_compute. reflexivity.
Defined.
Lemma netmap_peers_exact_witness :
  (forall s', wUpdate [ex_peerNode 2 x0b ex_key; ex_peerNode 3 x0c (replicate 32 x05)] ex_flags ex_peersState
     = inr (s', true) -> table s' = table_of [ex_peerNode 2 x0b ex_key; ex_peerNode 3 x0c (replicate 32 x05)])
  /\ exists s' b, wUpdate [ex_peerNode 2 x0b ex_key; ex_peerNode 3 x0c (replicate 32 x05)] ex_flags ex_peersState
     = inr (s', b).
Proof.
  destruct (netmap_peers_exact (H := canonical_range) (H0 := portable_platform) ex_peersEnv
    [ex_peerNode 2 x0b ex_key; ex_peerNode 3 x0c (replicate 32 x05)] ex_flags ex_peersState
    ex_peersState_reachable) as [A B].
  - repeat constructor; done.
  - apply (bool_decide_unpack _). vm_compute. exact I.
  - apply (bool_decide_unpack _). vm_compute. exact I.
  - intros n Hn id E. exfalso. apply elem_of_cons in Hn as [->|[->|[]%not_elem_of_nil]%elem_of_cons];
      vm_compute in E; discriminate E.
  - split; [exact A|]. apply B. repeat constructor; done.
Defined.

(** What removing a peer leaves behind. A network map that replaces the only peer by a node
    without a disco key leaves the removed peer in the index, because only the number of peers is
    compared; and a disco key stays known after the last peer that used it was removed, so the
    state kept for the key is not dropped. *)
Theorem removed_peer_residue :
  (exists s s', wReachable s /\ table s !! replicate 32 x0a = Some 1
     /\ wUpdate [ex_peerNode 2 x0b zeroDisco] ex_flags s = inr (s', true)
     /\ map_to_list (table s') = [(replicate 32 x0a, 1)])
  /\ (exists s, wReachable s /\ elements (discoInfo s) = [ex_key]
     /\ let s' := RemovePeer (H := canonical_range) ex_peersEnv 1 s in
        map_to_list (table s') = [] /\ knownPeerDiscoKey (ps_map s') ex_key = true
        /\ elements (discoInfo s') = [ex_key]).
Proof.
  split.
  - assert (match wUpdate [ex_peerNode 2 x0b zeroDisco] ex_flags ex_peersState with
            | inr (s', b) => b && bool_decide (map_to_list (table s') = [(replicate 32 x0a, 1)])
            | inl _ => false
            end = true) as C by (vm_compute; reflexivity).
    destruct (wUpdate [ex_peerNode 2 x0b zeroDisco] ex_flags ex_peersState) as [|[s' b]] eqn:U; [done|].
    apply andb_true_iff in C as [-> C%bool_decide_eq_true]. exists ex_peersState, s'.
    split; [apply ex_peersState_reachable|]. split; [vm_compute; reflexivity|]. by split.
  - exists ex_rekeyed. split; [apply ex_rekeyed_reachable|]. split; [vm_compute; reflexivity|].
    cbv zeta. split; [vm_compute; reflexivity|]. split; vm_compute; reflexivity.
Qed.
