(* ===== verification/PeerLife.v ===== *)
(** * The life of an endpoint

    An endpoint object becomes a peer once, may cease to be one once, and never returns; its
    generation ([numStopAndReset]) changes when it ceases to be a peer, and otherwise only with
    an explicit reset. This is what the caches of the receive functions rely on. *)
From S2P Require Import Prelude Netip Bytes Knobs ProbeManager SourceSockets ActivePaths BetterAddr EndpointState.
From S2P Require Import EndpointRecord Endpoint EndpointSend EndpointFacts PeerMap Peers EndpointProps.

(** The endpoint is indexed. *)
Definition peer (s : peersState) (ep : nat) : Prop :=
  exists nk p, byNodeKey (ps_map s) !! nk = Some p /\ pi_ep <$> infos (ps_map s) !! p = Some ep.
Notation gen e := (numStopAndReset (eo_state e)).

Lemma is_peer_peer s nk ep e : is_peer (ps_eps s) (ps_map s) nk ep e -> peer s ep.
Proof. intros (p & i & Hk & Hi & <- & _). exists nk, p. by rewrite Hi. Qed.
Lemma peer_is_peer s ep : peers_ok s -> peer s ep -> exists nk e, is_peer (ps_eps s) (ps_map s) nk ep e.
Proof.
  intros Hs (nk & p & Hk & Hi). destruct (ix_key _ _ (pm_idx _ _ (po_map _ Hs)) _ _ Hk) as (i & e & Hi' & He & Hpk).
  rewrite Hi' in Hi. injection Hi as <-. exists nk, e, p, i. done.
Qed.
Lemma is_peer_key s nk nk' ep e e' :
  is_peer (ps_eps s) (ps_map s) nk ep e -> is_peer (ps_eps s) (ps_map s) nk' ep e' -> nk' = nk.
Proof. intros (? & ? & _ & _ & _ & He & <-) (? & ? & _ & _ & _ & He' & <-). congruence. Qed.

(** From [s] to [s'] every endpoint lives on unchanged in this respect, or ceases to be a peer. *)
Definition life (s s' : peersState) : Prop :=
  forall ep e, ps_eps s !! ep = Some e -> exists e', ps_eps s' !! ep = Some e' /\ eo_publicKey e' = eo_publicKey e
    /\ (gen e' = gen e /\ (peer s' ep <-> peer s ep) \/ gen e' = i64 (gen e + 1) /\ peer s ep /\ ~ peer s' ep).

Lemma life_refl s : life s s.
Proof. intros ep e He. exists e. split; [done|]. split; [done|]. by left. Qed.
Lemma life_trans s1 s2 s3 : life s1 s2 -> life s2 s3 -> life s1 s3.
Proof.
  intros A B ep e He. destruct (A ep e He) as (e2 & He2 & K2 & [[G2 P2]|(G2 & P2 & N2)]);
    destruct (B ep e2 He2) as (e3 & He3 & K3 & [[G3 P3]|(G3 & P3 & N3)]); exists e3; (split; [done|]); (split; [congruence|]).
  - left. split; [congruence|tauto].
  - right. split; [congruence|tauto].
  - right. split; [congruence|tauto].
  - tauto.
Qed.
(** Neither who is a peer nor a generation changes. *)
Definition steady (s s' : peersState) : Prop :=
  forall ep e, ps_eps s !! ep = Some e -> exists e', ps_eps s' !! ep = Some e' /\ eo_publicKey e' = eo_publicKey e
    /\ gen e' = gen e /\ (peer s' ep <-> peer s ep).
Lemma steady_life s s' : steady s s' -> life s s'.
Proof. intros St ep e He. destruct (St ep e He) as (e' & ? & ? & ? & ?). exists e'. auto. Qed.
Lemma steady_refl s : steady s s.
Proof. intros ep e He. by exists e. Qed.
Lemma steady_trans s1 s2 s3 : steady s1 s2 -> steady s2 s3 -> steady s1 s3.
Proof.
  intros A B ep e He. destruct (A ep e He) as (e2 & He2 & K2 & G2 & P2). destruct (B ep e2 He2) as (e3 & He3 & K3 & G3 & P3).
  exists e3. split; [done|]. split; [congruence|]. split; [congruence|tauto].
Qed.
Lemma steady_frame s s' :
  byNodeKey (ps_map s') = byNodeKey (ps_map s) ->
  (forall p, pi_ep <$> infos (ps_map s') !! p = pi_ep <$> infos (ps_map s) !! p) ->
  (forall ep e, ps_eps s !! ep = Some e -> exists e', ps_eps s' !! ep = Some e' /\ eo_publicKey e' = eo_publicKey e /\ gen e' = gen e) ->
  steady s s'.
Proof.
  intros EK EI EH ep e He. destruct (EH ep e He) as (e' & He' & K & G). exists e'. split; [done|]. split; [done|].
  split; [done|]. unfold peer. rewrite EK. by setoid_rewrite EI.
Qed.
Lemma alter_gen (h : epHeap) q f :
  (forall e, numStopAndReset (f e) = numStopAndReset e) ->
  forall ep e, h !! ep = Some e -> exists e', alter (on_state f) q h !! ep = Some e' /\ eo_publicKey e' = eo_publicKey e /\ gen e' = gen e.
Proof.
  intros Hf ep e He. destruct (decide (q = ep)) as [->|]; [|rewrite lookup_alter_ne by done; eauto].
  rewrite lookup_alter_eq, He. eexists. split; [reflexivity|]. split; [done|]. apply Hf.
Qed.

Section Life.
Context `{MapRange} `{Platform} (env : Env).

Lemma stopAndReset_gen e : numStopAndReset (final (stopAndReset env) e) = i64 (numStopAndReset e + 1).
Proof.
  unfold stopAndReset. rewrite final_bind. set (e1 := final (modify _) e).
  change (i64 (numStopAndReset e + 1)) with (numStopAndReset e1). clearbody e1. clear e.
  set (I e' := numStopAndReset e' = numStopAndReset e1).
  enough (keeps I (fun _ => True) (resetLocked env ;; modify (with_heartBeatTimer false))) as K by (by apply K).
  assert (forall f, (forall e, numStopAndReset (f e) = numStopAndReset e) -> keeps I (fun _ => True) (modify f)) as Km.
  { intros f Hf. apply keeps_modify. unfold I. intros e' <-. apply Hf. }
  unfold resetLocked.
  repeat first [ apply keeps_bind; [|intros ?] | apply keeps_gets | apply keeps_when | apply keeps_emit; done
    | apply keeps_forM; intros ? _ | apply keeps_skip | apply keeps_ret
    | apply Km; intros e'; cbv zeta; try destruct (Mono.IsZero _); reflexivity
    | progress unfold removeSentDiscoPingLocked, probeUDPLifetimeCliffDoneLocked
    | match goal with |- keeps _ _ (match ?x with _ => _ end) => destruct x end ].
Qed.
Lemma updateFromNode_gen n hb lt e : numStopAndReset (updateFromNode env n hb lt e) = numStopAndReset e.
Proof. exact (f_equal (fun x => x.1.2) (updateFromNode_still env n hb lt e)). Qed.

Lemma deletePeer_life ep s nk e :
  peers_ok s -> is_peer (ps_eps s) (ps_map s) nk ep e -> life s (deletePeer env ep s).
Proof.
  intros Hs Hp. destruct (deletePeer_ok env ep s nk e Hs Hp) as (_ & EK & EI & _).
  assert (forall q, peer (deletePeer env ep s) q <-> peer s q /\ q <> ep) as Pq.
  { intros q. unfold peer. rewrite EK, EI. split.
    - intros (nk' & p & [N Hk]%lookup_delete_Some & Hi). split; [eauto|]. intros ->. apply N. symmetry.
      destruct (ix_key _ _ (pm_idx _ _ (po_map _ Hs)) _ _ Hk) as (i & e' & Hi' & He' & Hpk). rewrite Hi' in Hi. injection Hi as Hi.
      eapply is_peer_key; [exact Hp|]. exists p, i. rewrite <- Hi at 2. done.
    - intros [(nk' & p & Hk & Hi) N]. exists nk', p. split; [|done]. apply lookup_delete_Some. split; [|done].
      intros <-. destruct Hp as (p' & i' & Hk' & Hi' & <- & _). rewrite Hk in Hk'. injection Hk' as ->.
      rewrite Hi' in Hi. by injection Hi. }
  intros q x Hx. unfold deletePeer. cbn [ps_eps with_map update_ep with_eps]. destruct (decide (ep = q)) as [->|N].
  - exists (on_state (final (stopAndReset env)) x). rewrite lookup_alter_eq, Hx. split; [done|]. split; [done|]. right.
    split; [apply stopAndReset_gen|]. split; [by eapply is_peer_peer|]. intros [_ F]%Pq. done.
  - exists x. rewrite lookup_alter_ne by done. split; [done|]. split; [done|]. left. split; [done|].
    split; [intros [? _]%Pq; done|]. intros P. apply Pq. done.
Qed.
Lemma upsert_known_life s nk ep e f m' :
  peers_ok s -> is_peer (ps_eps s) (ps_map s) nk ep e -> isWireguardOnly (f (eo_state e)) = eo_wgOnly e ->
  disco (f (eo_state e)) <> Some zeroDisco -> (forall e, numStopAndReset (f e) = numStopAndReset e) ->
  upsertEndpoint (alter (on_state f) ep (ps_eps s)) ep (default zeroDisco (eo_disco e)) (ps_map s) = inr m' ->
  life s (with_map m' (update_ep ep f s)).
Proof.
  intros Hs Hp W Nz Hf U. destruct (upsert_known s nk ep e f Hs Hp W Nz m' U) as (_ & EK & EI).
  apply steady_life, steady_frame; [done|done|]. by apply alter_gen.
Qed.
Lemma upsert_new_life s e m' :
  peers_ok s -> byNodeKey (ps_map s) !! eo_publicKey e = None -> byNodeID (ps_map s) !! eo_nodeID e = None ->
  eo_disco e <> Some zeroDisco -> eo_nodeID e <> 0 -> eo_publicKey e <> zeroNode ->
  upsertEndpoint (<[ps_next s := e]> (ps_eps s)) (ps_next s) zeroDisco (ps_map s) = inr m' ->
  life s (with_map m' (allocEp e s).1).
Proof.
  intros Hs Nk Nid Nz N0 Nn U. destruct (upsert_new s e m' Hs Nk Nid Nz N0 Nn U) as (_ & p & EK & EI & Np).
  intros q x Hx. assert (q <> ps_next s) as Nq by (apply (po_fresh _ Hs) in Hx; lia).
  exists x. cbn. rewrite lookup_insert_ne by done. split; [done|]. split; [done|]. left. split; [done|].
  unfold peer. cbn [ps_map with_map]. rewrite EK. setoid_rewrite EI. split.
  - intros (nk & p' & [[<- <-]|[N Hk]]%lookup_insert_Some & Hi).
    + rewrite bool_decide_true in Hi by done. injection Hi as <-. done.
    + rewrite bool_decide_false in Hi by (intros ->; by apply (Np nk)). eauto.
  - intros (nk & p' & Hk & Hi). exists nk, p'. split.
    + apply lookup_insert_Some. right. split; [congruence|done].
    + rewrite bool_decide_false by (intros ->; by apply (Np nk)). done.
Qed.
Lemma chooseEp_life n s : peers_ok s -> life s (chooseEp env n s).2.
Proof.
  intros Hs. unfold chooseEp. destruct (endpointForNodeID (ps_map s) (nd_ID n)) as [p|] eqn:E; [|apply life_refl].
  case_bool_decide; [apply life_refl|].
  destruct (endpointForNodeID_peer _ _ _ _ (pm_idx _ _ (po_map _ Hs)) E) as (nk & e & Hp & _). by eapply deletePeer_life.
Qed.
Lemma upsertPeerLocked_life n flags s s' :
  peers_ok s -> upsertPeerLocked env n flags s = inr s' -> life s s'.
Proof.
  intros Hs. rewrite upsertPeerLocked_eq. destruct (_ || _) eqn:Z; [intros ->%devPanicf_inr; apply life_refl|].
  apply orb_false_iff in Z as [Z0%Z.eqb_neq Zk%bool_decide_eq_false].
  pose proof (chooseEp_life n s Hs) as L. destruct (chooseEp env n s) as [ep s1] eqn:E. cbn [snd] in L.
  destruct (chooseEp_ok env n s ep s1 Hs E) as [Hs1 Hep]. intros U. apply (life_trans _ s1); [done|]. clear L. destruct ep as [ep|].
  - destruct Hep as [-> (e & Hp & Hid)]. destruct (supported n) eqn:Sup; cbn [negb] in U.
    2: { injection U as <-. by eapply deletePeer_life. }
    pose proof Hp as (? & ? & _ & _ & _ & He & _). rewrite He in U. cbn [mbind option_bind] in U.
    destruct (po_named _ Hs _ _ He) as (Nz & _). destruct (upsert_node_disco env n flags (eo_state e) Sup Nz) as (W & _ & Nz').
    destruct (upsertEndpoint _ _ _ _) as [|m'] eqn:Ue; [done|]. injection U as <-.
    eapply upsert_known_life; [done|done|exact W|exact Nz'| |exact Ue]. intros. apply updateFromNode_gen.
  - destruct (endpointForNodeKey (ps_map s1) (nd_Key n)) as [q|] eqn:Q; [apply devPanicf_inr in U as ->; apply life_refl|].
    destruct (supported n); cbn [negb] in U; [|injection U as <-; apply life_refl].
    destruct (upsertEndpoint _ _ _ _) as [|m'] eqn:Ue; [done|]. injection U as <-.
    destruct (endpointForNodeKey_None _ _ Hs1 Zk Q) as [Nk _]. apply upsert_new_life; try done.
    rewrite (proj1 (newPeerObj_disco env n flags)). unfold discoOf. case_bool_decide; congruence.
Qed.
Lemma upsertPeers_life peers flags s s' :
  peers_ok s -> upsertPeers env peers flags s = inr s' -> life s s'.
Proof.
  revert s. induction peers as [|n peers IH]; intros s Hs; cbn [upsertPeers]; [intros [= <-]; apply life_refl|].
  destruct (upsertPeerLocked env n flags s) as [|s1] eqn:U; [done|]. intros E.
  apply (life_trans _ s1); [by eapply upsertPeerLocked_life|]. apply IH; [|done]. by eapply upsertPeerLocked_refines.
Qed.
Lemma deleteStalePeers_life keep s : peers_ok s -> life s (deleteStalePeers env keep s).
Proof.
  intros Hs. unfold deleteStalePeers, forEachEndpoint.
  assert (NoDup (map_range (byNodeKey (ps_map s))).*1) as ND by apply NoDup_map_range.
  assert (forall nk p, (nk, p) ∈ map_range (byNodeKey (ps_map s)) -> byNodeKey (ps_map s) !! nk = Some p) as Hl
    by (intros nk p; apply elem_of_map_range).
  revert ND Hl. generalize (map_range (byNodeKey (ps_map s))). intros l. revert s Hs.
  induction l as [|[nk p] l IH]; intros s Hs ND Hl; [apply life_refl|].
  cbn [fmap list_fmap fst] in ND. apply NoDup_cons in ND as [Nl ND].
  assert (byNodeKey (ps_map s) !! nk = Some p) as Hk by (apply Hl; by left).
  destruct (ix_key _ _ (pm_idx _ _ (po_map _ Hs)) _ _ Hk) as (i & e & Hi & He & Hpk).
  assert (is_peer (ps_eps s) (ps_map s) nk (pi_ep i) e) as Hp by (exists p, i; done).
  cbn [omap list_omap snd]. rewrite Hi. cbn [fmap option_fmap option_map foldl].
  case_bool_decide; [apply IH; [done..|]; intros; apply Hl; by right|].
  destruct (deletePeer_ok env (pi_ep i) s nk e Hs Hp) as (Hs1 & EK & EI & _ & _).
  apply (life_trans _ (deletePeer env (pi_ep i) s)); [by eapply deletePeer_life|]. rewrite <- EI. apply IH; [done..|].
  intros nk' q Hq. rewrite EK, lookup_delete_ne; [apply Hl; by right|]. intros <-. apply Nl. apply list_elem_of_fmap. by exists (nk, q).
Qed.
Lemma updateNodes_life peers flags s s' b :
  peers_ok s -> updateNodes env peers flags s = inr (s', b) -> life s s'.
Proof.
  intros Hs. unfold updateNodes. destruct (closed s); [intros [= <- <-]; apply life_refl|].
  destruct (_ && _ && _); [intros [= <- <-]; apply life_refl|].
  destruct (upsertPeers env peers flags (with_flags flags s)) as [|s1] eqn:U; [done|]. cbv zeta.
  destruct (nodeCount _ _) as [|count]; [done|]. intros [= <- <-].
  assert (peers_ok (with_flags flags s)) as Hs0 by (by apply (peers_ok_frame s)).
  pose proof (upsertPeers_life peers flags _ s1 Hs0 U) as L1. destruct (upsertPeers_refines env peers flags _ s1 Hs0 U) as [Hs1 _].
  assert (peers_ok (with_peersByID (newPeersOf peers) s1)) as Hs2 by (by apply (peers_ok_frame s1)).
  destruct (count =? _); [exact L1|]. apply (life_trans _ s1); [exact L1|].
  exact (deleteStalePeers_life (list_to_set ((fun x => nd_Key x.2) <$> map_to_list (newPeersOf peers))) _ Hs2).
Qed.
Lemma RemovePeer_life nid s : peers_ok s -> life s (RemovePeer env nid s).
Proof.
  intros Hs. unfold RemovePeer. destruct (closed s); [apply life_refl|].
  destruct (peersByID s !! nid) as [prev|]; [|apply life_refl]. cbv zeta. set (s0 := with_peersByID _ s).
  assert (peers_ok s0) as Hs0 by (by apply (peers_ok_frame s)).
  assert (life s (match endpointForNodeID (ps_map s0) nid with Some ep => deletePeer env ep s0 | None => s0 end)) as L.
  { destruct (endpointForNodeID (ps_map s0) nid) as [ep|] eqn:E; [|exact (life_refl s)].
    destruct (endpointForNodeID_peer _ _ _ _ (pm_idx _ _ (po_map _ Hs0)) E) as (nk & e & Hp & _).
    exact (deletePeer_life ep s0 nk e Hs0 Hp). }
  by destruct (_ && _).
Qed.
Lemma Advertisement_life nk dk s s' : peers_ok s -> HandleDiscoKeyAdvertisement nk dk s = inr s' -> life s s'.
Proof.
  intros Hs. unfold HandleDiscoKeyAdvertisement.
  destruct (endpointForNodeKey (ps_map s) nk) as [ep|] eqn:Q; [|intros [= <-]; apply life_refl].
  destruct (endpointForNodeKey_peer _ _ _ _ (pm_idx _ _ (po_map _ Hs)) Q) as (e & Hp).
  pose proof Hp as (p & i & Hk & Hi & Hep & He & Hpk). destruct (po_named _ Hs _ _ He) as (Nz & _).
  rewrite He. cbn [mbind option_bind]. case_bool_decide; [intros [= <-]; apply life_refl|].
  assert (disco (updateDiscoKey dk (eo_state e)) <> Some zeroDisco) as Nz'
    by (unfold updateDiscoKey; cbn; case_bool_decide; congruence).
  cbv zeta. cbn [with_discoInfo ps_eps ps_map update_ep with_eps].
  destruct (upsertEndpoint _ _ _ _) as [|m'] eqn:U; [done|]. intros [= <-].
  exact (upsert_known_life s nk ep e (updateDiscoKey dk) m' Hs Hp eq_refl Nz' (fun _ => eq_refl) U).
Qed.
Lemma setAddr_steady src nk s :
  peers_ok s -> steady s (with_map (setNodeKeyForEpAddr (ps_eps s) src nk (ps_map s)) s).
Proof.
  intros Hs. destruct (setNodeKey_ok (ps_eps s) src nk (ps_map s) (pm_idx _ _ (po_map _ Hs))) as [_ (EK & _ & _ & _ & EP)].
  apply steady_frame; [done|done|eauto].
Qed.
Lemma handler_steady ep f s : (forall e, held (f e) = held e) -> steady s (update_ep ep f s).
Proof. intros Hf. apply steady_frame; [done|done|]. apply alter_gen. intros e. exact (f_equal snd (Hf e)). Qed.

(** One step of the peers. *)
Lemma peer_step_gen s s' ep e :
  peers_ok s -> peer_step env s s' -> ps_eps s !! ep = Some e ->
  exists e', ps_eps s' !! ep = Some e' /\ eo_publicKey e' = eo_publicKey e
    /\ (gen e' = gen e /\ (peer s' ep <-> peer s ep) \/ gen e' = i64 (gen e + 1)).
Proof.
  intros Hs St He. assert (life s s' \/ exists q, s' = update_ep q (final (stopAndReset env)) s) as [L|[q ->]].
  { destruct St as [peers flags s s' b U|n flags s s' U|nid s|nk dk s s' U|maybeEP src nk s|src nk s|q f s Hf|q s|dk s Hk|s];
      [left..|right; eauto|left|left].
    - by eapply updateNodes_life.
    - unfold UpsertPeer in U. destruct (closed s); [simplify_eq; apply life_refl|].
      destruct (nd_ID n =? 0); [apply devPanicf_inr in U as ->; apply life_refl|].
      refine (upsertPeerLocked_life n flags (with_peersByID _ s) s' _ U). by apply (peers_ok_frame s).
    - by apply RemovePeer_life.
    - by eapply Advertisement_life.
    - unfold FromPeer. destruct (match maybeEP with Some _ => _ | None => _ end); [apply life_refl|].
      destruct (endpointForNodeKey _ _); [by apply steady_life, setAddr_steady|apply life_refl].
    - by apply steady_life, setAddr_steady.
    - by apply steady_life, handler_steady.
    - apply (life_refl s).
    - apply (life_refl s). }
  - destruct (L ep e He) as (e' & He' & K & [D|(G & _)]); exists e'; auto.
  - cbn. destruct (decide (q = ep)) as [->|N].
    + rewrite lookup_alter_eq, He. eexists. split; [reflexivity|]. split; [done|]. right. apply stopAndReset_gen.
    + rewrite lookup_alter_ne by done. exists e. split; [done|]. split; [done|]. by left.
Qed.
End Life.
