(* ===== verification/DiscoRx.v ===== *)
(** * Received disco messages (magicsock.go: handleDiscoMessageWithSource, handlePingLocked,
    handleSourcePathProbeLocked, unambiguousNodeKeyOfPingLocked)

    The dispatch runs with [Conn.mu] held, on the peers and the source-path probes; what it starts
    elsewhere (messages to send, events for the relay manager, goroutines of endpoints) is its
    list of actions. The nacl box under the local key, whether the packet filter grants a node the
    relay capability, and which relay servers have a handshake going, are parameters. The last
    ping of a disco key only decides what is logged and is left out. *)
From S2P Require Import Prelude Netip Bytes Slices Disco Stun Packet Knobs ProbeManager SourceSockets ActivePaths.
From S2P Require Import BetterAddr EndpointState EndpointRecord Endpoint EndpointSend PeerMap Peers UdpRelay RelayManager.

Module DiscoRx.
Import RelayManager.

Record connState := MkConn { cn_peers : peersState; cn_probes : sourcePathProbeManager }.
Record connEnv := MkConnEnv {
  ce_env : Env;
  ce_privateKeyIsZero : bool;
  ce_relayClientEnabled : bool;
  ce_open : bytes -> bytes -> option bytes;   (* the box shared with a disco key *)
  ce_relayHandshake : bytes -> bool;          (* relayManager.discoInfo *)
  ce_relayCap : Node -> bool                  (* the filter is set and grants PeerCapabilityRelay *)
}.

(** What the dispatch starts. *)
Inductive rxAction :=
| RxSend (dst : epAddr) (dstKey : NodePublic) (dstDisco : DiscoPublic) (m : Message)
| RxRelay (e : relayDiscoMsgEvent)
| RxCallMeMaybe (ep : nat) (MyNumber : list AddrPort)
| RxCallMeMaybeVia (wlb : endpointWithLastBest) (dm : UDPRelayEndpoint)
| RxAllocRequest (sender : DiscoPublic) (nodeKey : NodePublic) (req : AllocateUDPRelayEndpointRequest)
| RxEndpoint (ep : nat) (a : action).

Definition with_peers (p : peersState) (s : connState) : connState := MkConn p (cn_probes s).
Definition with_probes (pm : sourcePathProbeManager) (s : connState) : connState := MkConn (cn_peers s) pm.
Notation cn_map s := (ps_map (cn_peers s)).

Section Rx.
Context `{MapRange} `{Platform} (ce : connEnv).
Notation env := (ce_env ce).
Notation k := (e_knobs (ce_env ce)).

(** The disco key of an endpoint, as [ep.disco.Load()] gives it. *)
Definition discoKeyOf (ep : nat) (s : connState) : option DiscoPublic := ps_eps (cn_peers s) !! ep ≫= eo_disco.
Definition speaksKey (ep : nat) (dk : DiscoPublic) (s : connState) : bool := bool_decide (discoKeyOf ep s = Some dk).
Definition nodeKeyIsZero (nk : NodePublic) : bool := bool_decide (nk = zeroNode).

(** [peerMap.setNodeKeyForEpAddr] *)
Definition setAddr (src : epAddr) (nk : NodePublic) (s : connState) : connState :=
  with_peers (Peers.with_map (setNodeKeyForEpAddr (ps_eps (cn_peers s)) src nk (cn_map s)) (cn_peers s)) s.

Definition toRelay (m : Message) (nk : NodePublic) (dk : DiscoPublic) (src : epAddr) : rxAction :=
  RxRelay (MkDiscoEv m nk dk (ap src) (VNI.Get (vni src))).

(** ** Pings *)
Definition unambiguousNodeKeyOfPingLocked (dm : Ping) (dk : DiscoPublic) (derpNodeSrc : NodePublic) (s : connState)
  : option NodePublic :=
  let claims nk := negb (nodeKeyIsZero nk)
    && match endpointForNodeKey (cn_map s) nk with Some ep => speaksKey ep dk s | None => false end in
  if claims derpNodeSrc then Some derpNodeSrc
  else if claims (pi_NodeKey dm) then Some (pi_NodeKey dm)
  else match elements (default ∅ (nodesOfDisco (cn_map s) !! dk)) with
  | [nk] => Some nk
  | _ => None
  end.

(** The walk over the endpoints of a disco key: it stops at a duplicate ping. The accumulator is
    the number of nodes seen and the destination key. *)
Fixpoint addCandidates (src : AddrPort) (id : TxID) (eps : list nat) (numNodes : nat) (dstKey : NodePublic) (s : connState)
  : connState * bool * nat * NodePublic :=
  match eps with
  | [] => (s, false, numNodes, dstKey)
  | ep :: eps =>
      match ps_eps (cn_peers s) !! ep with
      | None => addCandidates src id eps numNodes dstKey s
      | Some e =>
          let s := with_peers (update_ep ep (fun e => (addCandidateEndpoint env src id e).1) (cn_peers s)) s in
          if (addCandidateEndpoint env src id (eo_state e)).2 then (s, true, numNodes, dstKey)
          else
            let numNodes := S numNodes in
            let dstKey := if (numNodes =? 1)%nat && nodeKeyIsZero dstKey then eo_publicKey e else dstKey in
            addCandidates src id eps numNodes dstKey s
      end
  end.

Definition pongFor (id : TxID) (src : epAddr) (dstKey : NodePublic) (dk : DiscoPublic) : rxAction :=
  RxSend src dstKey dk (MPong (MkDPong id (ap src))).
Definition handlePingLocked (dm : Ping) (src : epAddr) (dk : DiscoPublic) (derpNodeSrc : NodePublic) (s : connState)
  : connState * list rxAction :=
  let isDerp := bool_decide (ip (ap src) = DerpMagicIPAddr) in
  if VNI.IsSet (vni src) then
    if isDerp then (s, []) else (s, [toRelay (MPing dm) zeroNode dk src])
  else if e_neverDirectUDP env && negb isDerp then (s, [])
  else
    let s := match unambiguousNodeKeyOfPingLocked dm dk derpNodeSrc s with
             | Some nk => if isDerp then s else setAddr src nk s
             | None => s
             end in
    let '(s, dup, numNodes, dstKey) :=
      if isDerp
      then (s, false, if bool_decide (is_Some (endpointForNodeKey (cn_map s) derpNodeSrc)) then 1%nat else O, derpNodeSrc)
      else addCandidates (ap src) (pi_TxID dm) (endpointsWithDiscoKey (cn_map s) dk) O derpNodeSrc s in
    if dup then (s, [])
    else
      let dstKey := if negb isDerp && (1 <? numNodes)%nat then zeroNode else dstKey in
      if (numNodes =? 0)%nat then (s, []) else (s, [pongFor (pi_TxID dm) src dstKey dk]).

Definition handleSourcePathProbeLocked (dm : Ping) (src : epAddr) (dk : DiscoPublic) (s : connState) : list rxAction :=
  let isDerp := bool_decide (ip (ap src) = DerpMagicIPAddr) in
  if VNI.IsSet (vni src) || isDerp then []
  else if e_neverDirectUDP env then []
  else
    let claimed := negb (nodeKeyIsZero (pi_NodeKey dm))
      && match endpointForNodeKey (cn_map s) (pi_NodeKey dm) with Some ep => speaksKey ep dk s | None => false end in
    if claimed then [pongFor (pi_TxID dm) src (pi_NodeKey dm) dk]
    else match endpointsWithDiscoKey (cn_map s) dk with
    | [] => []
    | [ep] => [pongFor (pi_TxID dm) src (pubOf (ps_eps (cn_peers s)) ep) dk]
    | _ => [pongFor (pi_TxID dm) src zeroNode dk]
    end.

(** ** Pongs: the endpoints of the sender's key are asked in turn *)
Definition doAction (ep : nat) (s : connState) (a : action) : connState :=
  match a with
  | ASetNodeKeyForEpAddr src => setAddr src (pubOf (ps_eps (cn_peers s)) ep) s
  | _ => s
  end.
Fixpoint askPong (id : TxID) (pongSrc : AddrPort) (src : epAddr) (eps : list nat) (s : connState)
  : connState * list rxAction * bool :=
  match eps with
  | [] => (s, [], false)
  | ep :: eps =>
      match ps_eps (cn_peers s) !! ep with
      | None => askPong id pongSrc src eps s
      | Some e =>
          let m := handlePongConnLocked env id pongSrc src in
          let s := with_peers (update_ep ep (final m) (cn_peers s)) s in
          let s := foldl (doAction ep) s (acts m (eo_state e)) in
          let out := RxEndpoint ep <$> acts m (eo_state e) in
          if result m (eo_state e) then (s, out, true)
          else let '(s, out', known) := askPong id pongSrc src eps s in (s, out ++ out', known)
      end
  end.

(** ** [handleDiscoMessageWithSource] *)
Definition discoInfoForKnownPeerLocked (dk : DiscoPublic) (s : connState) : connState :=
  with_peers (Peers.with_discoInfo ({[dk]} ∪ Peers.discoInfo (cn_peers s)) (cn_peers s)) s.

Definition handlePong (m : Pong) (sender : DiscoPublic) (src : epAddr) (rxMeta : sourceRxMeta) (s : connState)
  : connState * list rxAction :=
  let '(pm, mine) := handlePongLocked k (cn_probes s) (po_TxID m) (po_Src m) sender src rxMeta (e_now env) in
  let s := with_probes pm s in
  if mine then (s, [])
  else
    let '(s, out, knownTxID) := askPong (po_TxID m) (po_Src m) src (endpointsWithDiscoKey (cn_map s) sender) s in
    (s, out ++ if negb knownTxID && VNI.IsSet (vni src) then [toRelay (MPong m) zeroNode sender src] else []).

(** [CallMeMaybe] and [CallMeMaybeVia]; [via] is the latter's endpoint. *)
Definition handleCallMeMaybes (cmm : list AddrPort + UDPRelayEndpoint) (dk : DiscoPublic) (isDERP : bool) (derpNodeSrc : NodePublic)
    (s : connState) : list rxAction :=
  let isVia := match cmm with inr _ => true | inl _ => false end in
  if negb isDERP || nodeKeyIsZero derpNodeSrc then []
  else match endpointForNodeKey (cn_map s) derpNodeSrc with
  | None => []
  | Some ep =>
      if isVia && negb (ce_relayClientEnabled ce) then []
      else match ps_eps (cn_peers s) !! ep with
      | None => []
      | Some e =>
          let lastBest := bestAddr (best (eo_state e)) in
          let lastBestIsTrusted := Mono.Before (e_now env) (trustBestAddrUntil (best (eo_state e))) in
          if isVia && negb (relayCapable (eo_state e)) then []
          else if negb (speaksKey ep dk s) then []
          else match cmm with
          | inr via => [RxCallMeMaybeVia (MkWlb ep lastBest lastBestIsTrusted) via]
          | inl MyNumber => [RxCallMeMaybe ep MyNumber]
          end
      end
  end.
(** [AllocateUDPRelayEndpointRequest] and [AllocateUDPRelayEndpointResponse]. *)
Definition handleAllocs (m : AllocateUDPRelayEndpointRequest + (Z * UDPRelayEndpoint)) (dk : DiscoPublic) (src : epAddr)
    (isDERP : bool) (derpNodeSrc : NodePublic) (s : connState) : list rxAction :=
  if negb isDERP then []
  else match endpointForNodeKey (cn_map s) derpNodeSrc with
  | None => []
  | Some ep =>
      if negb (speaksKey ep dk s) then []
      else match m with
      | inr (gen, resp) => [toRelay (MAllocateUDPRelayEndpointResponse gen resp) derpNodeSrc dk src]
      | inl req =>
          if negb (Compare dk (ar_ClientDisco req).1 =? 0) && negb (Compare dk (ar_ClientDisco req).2 =? 0) then []
          else match e ← ps_eps (cn_peers s) !! ep; peersByID (cn_peers s) !! eo_nodeID e with
          | None => []
          | Some peer => if ce_relayCap ce peer then [RxAllocRequest dk derpNodeSrc req] else []
          end
      end
  end.

Definition dispatch (dm : Message) (sender : DiscoPublic) (src : epAddr) (isDERP : bool) (derpNodeSrc : NodePublic)
    (rxMeta : sourceRxMeta) (s : connState) : connState * list rxAction :=
  match dm with
  | MPing p => handlePingLocked p src sender derpNodeSrc s
  | MSourcePathProbe p => (s, handleSourcePathProbeLocked p src sender s)
  | MPong p => handlePong p sender src rxMeta s
  | MCallMeMaybe eps => (s, handleCallMeMaybes (inl eps) sender isDERP derpNodeSrc s)
  | MCallMeMaybeVia via => (s, handleCallMeMaybes (inr via) sender isDERP derpNodeSrc s)
  | MAllocateUDPRelayEndpointRequest req => (s, handleAllocs (inl req) sender src isDERP derpNodeSrc s)
  | MAllocateUDPRelayEndpointResponse gen resp => (s, handleAllocs (inr (gen, resp)) sender src isDERP derpNodeSrc s)
  | MBindUDPRelayEndpoint _ | MBindUDPRelayEndpointChallenge _ | MBindUDPRelayEndpointAnswer _ => (s, [])
  end.
(** The time of receipt is recorded for the endpoint the address belongs to. *)
Definition noteRecvUDP (src : epAddr) (s : connState) : connState :=
  match endpointForEpAddr (cn_map s) src with
  | Some ep => with_peers (update_ep ep (with_lastRecvUDPAny (e_now env)) (cn_peers s)) s
  | None => s
  end.
Definition handleDiscoMessageWithSource (msg : bytes) (src : epAddr) (shouldBeRelayHandshakeMsg : bool)
    (derpNodeSrc : NodePublic) (rxMeta : sourceRxMeta) (s : connState) : connState * list rxAction :=
  let sender := discoSender msg in
  if Peers.closed (cn_peers s) then (s, [])
  else if ce_privateKeyIsZero ce then (s, [])
  else if (if shouldBeRelayHandshakeMsg then negb (ce_relayHandshake ce sender)
           else negb (knownPeerDiscoKey (cn_map s) sender)) then (s, [])
  else
    let s := if shouldBeRelayHandshakeMsg then s else discoInfoForKnownPeerLocked sender s in
    let isDERP := bool_decide (ip (ap src) = DerpMagicIPAddr) in
    let s := if negb isDERP && negb shouldBeRelayHandshakeMsg then noteRecvUDP src s else s in
    match openDisco (ce_open ce sender) msg with
    | None => (s, [])
    | Some dm =>
        if shouldBeRelayHandshakeMsg then
          match dm with
          | MBindUDPRelayEndpointChallenge _ => (s, [toRelay dm zeroNode sender src])
          | _ => (s, [])
          end
        else dispatch dm sender src isDERP derpNodeSrc rxMeta s
    end.
End Rx.
End DiscoRx.
