(* ===== verification/DiscoRxProps.v ===== *)
(** * Theorems about received disco messages

    What a received message can make the node do, and that handling it keeps the peer index
    consistent. *)
From S2P Require Import Prelude Netip Bytes Slices Disco Stun Packet Knobs ProbeManager SourceSockets ActivePaths.
From S2P Require Import BetterAddr EndpointState EndpointRecord Endpoint EndpointSend PeerMap Peers UdpRelay RelayManager DiscoRx.
From S2P Require Import EndpointProps PeersProps.

Module DiscoRxProps.
Import RelayManager DiscoRx.

(** ** Handlers keep an endpoint's disco key, kind and generation *)
Section Ident.
Context `{MapRange} `{Platform} (env : Env).
Lemma deleteEndpointLocked_held ep e : held (deleteEndpointLocked ep e) = held e.
Proof. unfold deleteEndpointLocked. by case_bool_decide. Qed.
Lemma deleteStale_held e : held (deleteStale env e) = held e.
Proof. apply foldl_keeps. intros e' x. destruct (shouldDeleteLocked _ _); [apply deleteEndpointLocked_held|done]. Qed.
Lemma addCandidateEndpoint_held ep id e : held (addCandidateEndpoint env ep id e).1 = held e.
Proof.
  unfold addCandidateEndpoint. destruct (omitEndpointAddrPort _ _); [done|].
  destruct (endpointStates e !! ep); [done|]. cbn [fst]. destruct (100 <? _); [|done]. by rewrite deleteStale_held.
Qed.
Lemma handlePong_held id ps src e : held (final (handlePongConnLocked env id ps src) e) = held e.
Proof.
  set (I e' := held e' = held e). enough (keeps I (fun _ => True) (handlePongConnLocked env id ps src)) as K by (by apply K).
  assert (forall f, (forall e, held (f e) = held e) -> keeps I (fun _ => True) (modify f)) as Km.
  { intros f Hf. apply keeps_modify. unfold I. intros e' <-. apply Hf. }
  unfold handlePongConnLocked, replyOnce.
  repeat first [ apply keeps_bind; [|intros ?] | apply keeps_gets | apply keeps_when | apply keeps_emit; done
    | apply keeps_skip | apply keeps_ret | apply keeps_if
    | apply Km; intros e'; cbv zeta; first [apply deleteEndpointLocked_held|try destruct (Mono.IsZero _); reflexivity]
    | progress unfold removeSentDiscoPingLocked, probeUDPLifetimeCliffDoneLocked
    | match goal with |- keeps _ _ (match ?x with _ => _ end) => destruct x end ].
Qed.
End Ident.

(** ** The peer index *)
Section Rx.
Context `{MapRange} `{Platform} (ce : connEnv).
Notation env := (ce_env ce).

(** The steps of [Peers] a received message can take. *)
Inductive rx_step : peersState -> peersState -> Prop :=
| rs_setAddr src nk s : rx_step s (Peers.with_map (setNodeKeyForEpAddr (ps_eps s) src nk (ps_map s)) s)
| rs_handler ep f s : (forall e, held (f e) = held e) -> rx_step s (update_ep ep f s)
| rs_discoInfo dk s : knownPeerDiscoKey (ps_map s) dk = true ->
    rx_step s (Peers.with_discoInfo ({[dk]} ∪ Peers.discoInfo s) s).
Notation steps s s' := (rtc rx_step (cn_peers s) (cn_peers s')).
Lemma rx_peer_step s s' : rx_step s s' -> peer_step env s s'.
Proof.
  destruct 1 as [src nk s|ep f s Hf|dk s Hk]; [apply st_setAddr| |by apply st_discoInfo].
  by apply st_handler.
Qed.
Lemma rx_table s s' : peers_ok s -> rx_step s s' -> peers_ok s' /\ table s' = table s.
Proof.
  intros Hs. destruct 1 as [src nk s|ep f s Hf|dk s Hk].
  - by apply setAddr_ok.
  - assert (forall e, ident (f e) = ident e) as Hi by (intros e; exact (f_equal fst (Hf e))).
    split; [by apply update_ep_ok|]. apply table_frame; [done..|]. by apply same_ident_peers, alter_same_ident.
  - split; [by apply (peers_ok_frame s)|done].
Qed.
Lemma addCandidates_steps src id eps n nk s : steps s (addCandidates ce src id eps n nk s).1.1.1.
Proof.
  revert n nk s. induction eps as [|ep eps IH]; intros n nk s; simpl; [done|].
  destruct (ps_eps (cn_peers s) !! ep) as [e|]; [|apply IH].
  assert (rx_step (cn_peers s) (update_ep ep (fun e => (addCandidateEndpoint env src id e).1) (cn_peers s))) as St.
  { apply rs_handler. intros. apply addCandidateEndpoint_held. }
  destruct (_.2); [by apply rtc_once|]. eapply rtc_l; [exact St|]. apply (IH _ _ (with_peers _ s)).
Qed.
Lemma doActions_steps ep l s : steps s (foldl (doAction ep) s l).
Proof.
  revert s. induction l as [|a l IH]; intros s; simpl; [done|]. destruct a; try apply IH.
  eapply rtc_l; [|apply IH]. apply rs_setAddr.
Qed.
Lemma askPong_steps id ps src eps s : steps s (askPong ce id ps src eps s).1.1.
Proof.
  revert s. induction eps as [|ep eps IH]; intros s; simpl; [done|].
  destruct (ps_eps (cn_peers s) !! ep) as [e|]; [|apply IH].
  set (s1 := foldl _ _ _). assert (steps s s1) as St.
  { eapply rtc_l; [|apply (doActions_steps ep _ (with_peers _ s))]. apply rs_handler. intros. apply handlePong_held. }
  destruct (result _ _); [done|]. specialize (IH s1). destruct (askPong ce id ps src eps s1) as [[s2 out] b].
  by etrans.
Qed.
Lemma handlePing_steps dm src dk nk s : steps s (handlePingLocked ce dm src dk nk s).1.
Proof.
  unfold handlePingLocked. destruct (VNI.IsSet _); [by destruct (bool_decide _)|]. destruct (_ && _); [done|].
  set (s1 := match unambiguousNodeKeyOfPingLocked dm dk nk s with
    | Some nk' => if bool_decide (ip (ap src) = DerpMagicIPAddr) then s else setAddr src nk' s | None => s end).
  assert (steps s s1) as S1.
  { unfold s1. destruct (unambiguousNodeKeyOfPingLocked _ _ _ _); [|done]. case_bool_decide; [done|]. apply rtc_once, rs_setAddr. }
  case_bool_decide; cbn [negb andb].
  - destruct (_ =? _)%nat; exact S1.
  - pose proof (addCandidates_steps (ap src) (pi_TxID dm) (endpointsWithDiscoKey (cn_map s1) dk) 0 nk s1) as S2.
    destruct (addCandidates _ _ _ _ _ _ s1) as [[[s2 dup] n] key]. simpl in S2.
    assert (steps s s2) as S3 by (by etrans). destruct dup; [done|]. by destruct (n =? 0)%nat.
Qed.
Lemma handle_steps msg src flag nk rx s :
  steps s (handleDiscoMessageWithSource ce msg src flag nk rx s).1.
Proof.
  unfold handleDiscoMessageWithSource. destruct (Peers.closed _); [done|]. destruct (ce_privateKeyIsZero ce); [done|].
  destruct (if flag then _ else _) eqn:K; [done|].
  set (s1 := if flag then s else _). set (s2 := if _ && _ then _ else s1).
  assert (steps s s1) as S1.
  { unfold s1. destruct flag; [done|]. apply rtc_once, rs_discoInfo. by apply negb_false_iff. }
  assert (steps s s2) as S2.
  { etrans; [exact S1|]. unfold s2. destruct (_ && _); [|done]. unfold noteRecvUDP.
    destruct (endpointForEpAddr _ _); [|done]. by apply rtc_once, rs_handler. }
  destruct (openDisco _ _) as [dm|]; [|done]. destruct flag; [by destruct dm|].
  destruct dm; try done; simpl.
  - etrans; [exact S2|apply handlePing_steps].
  - unfold handlePong. destruct (handlePongLocked _ _ _ _ _ _ _ _) as [pm mine]. destruct mine; [done|].
    set (s3 := with_probes pm s2). pose proof (askPong_steps (po_TxID m) (po_Src m) src (endpointsWithDiscoKey (cn_map s3) (discoSender msg)) s3) as S4.
    destruct (askPong _ _ _ _ _ s3) as [[s4 out] b]. etrans; [exact S2|exact S4].
Qed.

(** Receiving a disco message keeps the peer index consistent: from a state the peer operations
    reach it leads to such a state, with the same peers under the same node ids, whatever the
    message, its source and the endpoints' handlers do. *)
Theorem disco_rx_keeps_peers msg src flag nk rx s :
  Peers.reachable env (cn_peers s) ->
  let s' := (handleDiscoMessageWithSource ce msg src flag nk rx s).1 in
  Peers.reachable env (cn_peers s') /\ table (cn_peers s') = table (cn_peers s).
Proof.
  intros R. cbv zeta. pose proof (handle_steps msg src flag nk rx s) as St. split.
  - unfold Peers.reachable in *. etrans; [exact R|]. revert St. apply rtc_subrel. intros x y. apply rx_peer_step.
  - pose proof (reachable_ok env _ R) as O. revert St O. generalize (cn_peers (handleDiscoMessageWithSource ce msg src flag nk rx s).1).
    intros s' St. clear R. induction St as [x|x y z Sxy Syz IH]; intros O; [done|].
    destruct (rx_table _ _ O Sxy) as [Oy Ty]. by rewrite (IH Oy).
Qed.

(** ** What a message can make the node do *)
Notation isDERP src := (ip (ap src) = DerpMagicIPAddr).
(** The peer with this node key speaks for this disco key. *)
Definition nodeOf (ep : nat) (s : connState) : option Node :=
  e ← ps_eps (cn_peers s) !! ep; peersByID (cn_peers s) !! eo_nodeID e.
Definition speaks_for (s : connState) (nk : NodePublic) (dk : DiscoPublic) (ep : nat) : Prop :=
  endpointForNodeKey (cn_map s) nk = Some ep /\ discoKeyOf ep s = Some dk.
Definition justified (dm : Message) (sender : DiscoPublic) (src : epAddr) (nk : NodePublic) (s : connState) (a : rxAction) : Prop :=
  match a with
  | RxSend dst _ dk m =>
      dst = src /\ dk = sender /\ VNI.IsSet (vni src) = false
      /\ exists p, (dm = MPing p \/ dm = MSourcePathProbe p) /\ m = MPong (MkDPong (pi_TxID p) (ap src))
  | RxRelay e =>
      de_msg e = dm /\ de_disco e = sender /\ de_from e = ap src /\ de_vni e = VNI.Get (vni src)
      /\ (VNI.IsSet (vni src) = true \/ isDERP src /\ relayServerNodeKey e = nk /\ exists ep, speaks_for s nk sender ep)
  | RxCallMeMaybe ep l => dm = MCallMeMaybe l /\ isDERP src /\ speaks_for s nk sender ep
  | RxCallMeMaybeVia wlb via =>
      dm = MCallMeMaybeVia via /\ isDERP src /\ speaks_for s nk sender (wl_ep wlb) /\ ce_relayClientEnabled ce = true
  | RxAllocRequest dk nk' req =>
      dm = MAllocateUDPRelayEndpointRequest req /\ isDERP src /\ dk = sender /\ nk' = nk
      /\ (sender = (ar_ClientDisco req).1 \/ sender = (ar_ClientDisco req).2)
      /\ exists ep peer, speaks_for s nk sender ep /\ nodeOf ep s = Some peer /\ ce_relayCap ce peer = true
  | RxEndpoint ep _ => (exists p, dm = MPong p) /\ ep ∈ endpointsWithDiscoKey (cn_map s) sender
  end.
Definition isSend (a : rxAction) : bool := match a with RxSend _ _ _ _ => true | _ => false end.
Definition sends (l : list rxAction) : nat := length (List.filter isSend l).

Lemma sends_endpoint ep l : sends (RxEndpoint ep <$> l) = 0%nat.
Proof. unfold sends. by induction l. Qed.
Lemma sends_app l l' : sends (l ++ l') = (sends l + sends l')%nat.
Proof. unfold sends. by rewrite List.filter_app, length_app. Qed.
Lemma ping_justified p sender src nk s :
  let out := (handlePingLocked ce p src sender nk s).2 in
  (forall a, a ∈ out -> justified (MPing p) sender src nk s a) /\ (sends out <= 1)%nat.
Proof.
  unfold handlePingLocked. destruct (VNI.IsSet (vni src)) eqn:V.
  { case_bool_decide; simpl; [split; [by intros a []%not_elem_of_nil|unfold sends; simpl; lia]|].
    split; [|unfold sends; simpl; lia]. intros a ->%list_elem_of_singleton. simpl. auto 8. }
  destruct (_ && _); [split; [by intros a []%not_elem_of_nil|unfold sends; simpl; lia]|].
  match goal with |- context [match ?t with (_, _) => _ end] => destruct t as [[[s2 dup] n] key] end.
  destruct dup; [split; [by intros a []%not_elem_of_nil|unfold sends; simpl; lia]|].
  destruct (n =? 0)%nat; [split; [by intros a []%not_elem_of_nil|unfold sends; simpl; lia]|].
  split; [|unfold sends; simpl; lia]. intros a ->%list_elem_of_singleton. simpl. eauto 10.
Qed.
Lemma probe_justified p sender src nk s :
  let out := handleSourcePathProbeLocked ce p src sender s in
  (forall a, a ∈ out -> justified (MSourcePathProbe p) sender src nk s a) /\ (sends out <= 1)%nat.
Proof.
  assert (forall l, (l = [] \/ exists key, l = [pongFor (pi_TxID p) src key sender] /\ VNI.IsSet (vni src) = false) ->
    (forall a, a ∈ l -> justified (MSourcePathProbe p) sender src nk s a) /\ (sends l <= 1)%nat) as J.
  { intros l [->|(key & -> & V)]; [split; [by intros a []%not_elem_of_nil|unfold sends; simpl; lia]|].
    split; [|unfold sends; simpl; lia]. intros a ->%list_elem_of_singleton. simpl. eauto 10. }
  apply J. unfold handleSourcePathProbeLocked. destruct (VNI.IsSet (vni src)); [by left|]. simpl.
  case_bool_decide; [by left|]. destruct (e_neverDirectUDP env); [by left|].
  destruct (_ && _); [right; eauto|]. destruct (endpointsWithDiscoKey _ _) as [|x [|y l]]; [by left|right; eauto..].
Qed.
Lemma askPong_justified id ps src eps s s' out known :
  askPong ce id ps src eps s = (s', out, known) ->
  (forall a, a ∈ out -> exists ep x, a = RxEndpoint ep x /\ ep ∈ eps) /\ sends out = 0%nat.
Proof.
  revert s s' out known. induction eps as [|ep eps IH]; intros s s' out known; simpl.
  { intros [= <- <- <-]. split; [by intros a []%not_elem_of_nil|done]. }
  destruct (ps_eps (cn_peers s) !! ep) as [e|].
  2:{ intros E. destruct (IH _ _ _ _ E) as [A B]. split; [|done]. intros a Ha.
      destruct (A a Ha) as (q & x & -> & Hq). exists q, x. split; [done|by right]. }
  set (l := acts _ _). set (s1 := foldl _ _ _).
  assert (forall a, a ∈ RxEndpoint ep <$> l -> exists q x, a = RxEndpoint q x /\ q ∈ ep :: eps) as A1.
  { intros a (x & -> & _)%list_elem_of_fmap. exists ep, x. split; [done|left]. }
  destruct (result _ _); [intros [= <- <- <-]; split; [done|apply sends_endpoint]|].
  destruct (askPong ce id ps src eps s1) as [[s2 out'] k'] eqn:E. intros [= <- <- <-].
  destruct (IH _ _ _ _ E) as [A B]. split; [|by rewrite sends_app, sends_endpoint, B].
  intros a [Ha|Ha]%elem_of_app; [by apply A1|]. destruct (A a Ha) as (q & x & -> & Hq). exists q, x. split; [done|by right].
Qed.
Lemma dispatch_justified dm sender src nk rx s :
  let out := (dispatch ce dm sender src (bool_decide (isDERP src)) nk rx s).2 in
  (forall a, a ∈ out -> justified dm sender src nk s a) /\ (sends out <= 1)%nat.
Proof.
  assert ((forall a, a ∈ [] -> justified dm sender src nk s a) /\ (sends [] <= 1)%nat) as Nil
    by (split; [by intros a []%not_elem_of_nil|unfold sends; simpl; lia]).
  assert (forall x, justified dm sender src nk s x -> isSend x = false ->
    (forall a, a ∈ [x] -> justified dm sender src nk s a) /\ (sends [x] <= 1)%nat) as One.
  { intros x J N. split; [by intros a ->%list_elem_of_singleton|]. unfold sends. simpl. rewrite N. simpl. lia. }
  assert (forall cmm, (match cmm with inl l => dm = MCallMeMaybe l | inr v => dm = MCallMeMaybeVia v end) ->
    let out := handleCallMeMaybes ce cmm sender (bool_decide (isDERP src)) nk s in
    (forall a, a ∈ out -> justified dm sender src nk s a) /\ (sends out <= 1)%nat) as CMM.
  { intros cmm Hm. simpl. unfold handleCallMeMaybes. case_bool_decide as D; simpl; [|done].
    destruct (nodeKeyIsZero nk); [done|]. destruct (endpointForNodeKey (cn_map s) nk) as [ep|] eqn:E; [|done].
    destruct (match cmm with inr _ => true | inl _ => false end && negb (ce_relayClientEnabled ce)) eqn:R; [done|].
    destruct (ps_eps (cn_peers s) !! ep) as [e|]; [|done]. destruct (_ && negb (relayCapable _)); [done|].
    destruct (speaksKey ep sender s) eqn:K; [|done]. apply bool_decide_eq_true in K. simpl.
    destruct cmm; apply One; try done; simpl.
    split; [done|]. split; [done|]. split; [done|]. simpl in R. by apply negb_false_iff. }
  assert (forall m, (match m with inl r => dm = MAllocateUDPRelayEndpointRequest r | inr (g, r) => dm = MAllocateUDPRelayEndpointResponse g r end) ->
    let out := handleAllocs ce m sender src (bool_decide (isDERP src)) nk s in
    (forall a, a ∈ out -> justified dm sender src nk s a) /\ (sends out <= 1)%nat) as AL.
  { intros m Hm. simpl. unfold handleAllocs. case_bool_decide as D; simpl; [|done].
    destruct (endpointForNodeKey (cn_map s) nk) as [ep|] eqn:E; [|done].
    destruct (speaksKey ep sender s) eqn:K; [|done]. apply bool_decide_eq_true in K. simpl.
    assert (exists ep, speaks_for s nk sender ep) as Sp by (by exists ep).
    destruct m as [req|[gen resp]]; [|apply One; [simpl; naive_solver|done]].
    destruct (_ && _) eqn:Ck; [done|]. destruct (_ ≫= _) as [peer|] eqn:N; [|done].
    destruct (ce_relayCap ce peer) eqn:Cp; [|done]. apply One; [|done]. simpl.
    assert (sender = (ar_ClientDisco req).1 \/ sender = (ar_ClientDisco req).2) as Cl.
    { apply andb_false_iff in Ck as [Ck|Ck]; apply negb_false_iff, Z.eqb_eq in Ck; rewrite Compare_eq in Ck; auto. }
    do 5 (split; [done|]). exists ep, peer. done. }
  destruct dm; try exact Nil; simpl.
  - apply ping_justified.
  - apply probe_justified.
  - unfold handlePong. destruct (handlePongLocked _ _ _ _ _ _ _ _) as [pm mine]. destruct mine; [exact Nil|].
    destruct (askPong _ _ _ _ _ _) as [[s2 out] known] eqn:E. simpl. apply askPong_justified in E as [A B]. split.
    + intros a [Ha|Ha]%elem_of_app.
      * destruct (A a Ha) as (ep & x & -> & Hin). split; [eauto|done].
      * destruct (negb known && VNI.IsSet (vni src)) eqn:C; [|by apply not_elem_of_nil in Ha].
        apply andb_true_iff in C as [_ C]. apply list_elem_of_singleton in Ha as ->. simpl. auto 8.
    + rewrite sends_app, B. destruct (_ && _); unfold sends; simpl; lia.
  - by apply (CMM (inl _)).
  - by apply (CMM (inr _)).
  - by apply (AL (inl _)).
  - by apply (AL (inr (_, _))).
Qed.

(** What [justified] reads of the state. *)
Definition same_peers (s' s : connState) : Prop :=
  cn_map s' = cn_map s /\ (forall ep, discoKeyOf ep s' = discoKeyOf ep s) /\ forall ep, nodeOf ep s' = nodeOf ep s.
Lemma justified_frame dm sender src nk s s' a :
  same_peers s' s -> justified dm sender src nk s' a -> justified dm sender src nk s a.
Proof.
  intros (Em & Ek & En).
  assert (forall ep, speaks_for s' nk sender ep -> speaks_for s nk sender ep) as Sp
    by (intros ep; unfold speaks_for; by rewrite Em, Ek).
  destruct a; unfold justified; rewrite ?Em; [done| | | | |done].
  - naive_solver.
  - naive_solver.
  - naive_solver.
  - intros (? & ? & ? & ? & ? & ep & peer & ? & N & ?). rewrite En in N. eauto 12.
Qed.
Lemma noteRecvUDP_frame src s : same_peers (noteRecvUDP ce src s) s.
Proof.
  unfold noteRecvUDP. destruct (endpointForEpAddr _ _) as [q|]; [|done].
  split; [done|]. split; intros ep; unfold discoKeyOf, nodeOf; simpl.
  all: destruct (decide (q = ep)) as [->|]; [|by rewrite lookup_alter_ne].
  all: rewrite lookup_alter_eq; by destruct (ps_eps (cn_peers s) !! ep).
Qed.

(** What may change before the box is opened: the receive time of the endpoint a UDP source address
    belongs to, and the record of the key shared with the sender. *)
Definition unopened (sender : DiscoPublic) (src : epAddr) (s s' : connState) : Prop :=
  let p := cn_peers s in
  let p' := cn_peers s' in
  let timed ep := ip (ap src) <> DerpMagicIPAddr /\ endpointForEpAddr (cn_map s) src = Some ep in
  cn_probes s' = cn_probes s /\ ps_map p' = ps_map p /\ ps_next p' = ps_next p /\ peersByID p' = peersByID p
  /\ Peers.closed p' = Peers.closed p /\ lastFlags p' = lastFlags p
  /\ Peers.discoInfo p' = {[sender]} ∪ Peers.discoInfo p
  /\ forall ep, (timed ep -> ps_eps p' !! ep = on_state (with_lastRecvUDPAny (e_now env)) <$> ps_eps p !! ep)
              /\ (~ timed ep -> ps_eps p' !! ep = ps_eps p !! ep).
Lemma noteRecvUDP_unopened sender src s :
  let isDERP := bool_decide (ip (ap src) = DerpMagicIPAddr) in
  let s1 := discoInfoForKnownPeerLocked sender s in
  unopened sender src s (if negb isDERP && true then noteRecvUDP ce src s1 else s1).
Proof.
  cbv zeta. unfold unopened, noteRecvUDP. change (cn_map (discoInfoForKnownPeerLocked sender s)) with (cn_map s).
  case_bool_decide as D; cbn [negb andb]; [do 7 (split; [done|]); intros ep; split; [by intros [? _]|done]|].
  destruct (endpointForEpAddr (cn_map s) src) as [q|] eqn:Q; (do 7 (split; [done|])); intros ep; cbn; split.
  - intros [_ [= ->]]. by rewrite lookup_alter_eq.
  - intros N. rewrite lookup_alter_ne; [done|]. intros ->. by apply N.
  - by intros [_ ?].
  - done.
Qed.

Lemma disco_rx_actions msg src flag nk rx s :
  let sender := discoSender msg in
  let out := (handleDiscoMessageWithSource ce msg src flag nk rx s).2 in
  (forall a, a ∈ out -> Peers.closed (cn_peers s) = false /\ ce_privateKeyIsZero ce = false
     /\ exists dm, openDisco (ce_open ce sender) msg = Some dm
          /\ if flag then ce_relayHandshake ce sender = true /\ (exists c, dm = MBindUDPRelayEndpointChallenge c)
                          /\ a = toRelay dm zeroNode sender src
             else knownPeerDiscoKey (cn_map s) sender = true /\ justified dm sender src nk s a)
  /\ (sends out <= 1)%nat.
Proof.
  cbv zeta. set (sender := discoSender msg). unfold handleDiscoMessageWithSource. fold sender.
  assert (forall P : rxAction -> Prop, (forall a, a ∈ [] -> P a) /\ (sends [] <= 1)%nat) as Nil
    by (intros P; split; [by intros a []%not_elem_of_nil|unfold sends; simpl; lia]).
  destruct (Peers.closed _); [apply Nil|]. destruct (ce_privateKeyIsZero ce); [apply Nil|].
  destruct (if flag then _ else _) eqn:K; [apply Nil|].
  set (s1 := if flag then s else _). set (s2 := if _ && _ then _ else s1).
  assert (same_peers s2 s) as Fr.
  { assert (same_peers s1 s) as (E1 & E2 & E3) by (by unfold s1; destruct flag).
    unfold s2. destruct (_ && _); [|done]. destruct (noteRecvUDP_frame src s1) as (E4 & E5 & E6).
    split; [congruence|]. split; intros ep; [by rewrite E5|by rewrite E6]. }
  destruct (openDisco _ msg) as [dm|]; [|apply Nil]. destruct flag; cbn [snd].
  - apply negb_false_iff in K. destruct dm; try apply Nil. split; [|unfold sends; simpl; lia].
    intros a ->%list_elem_of_singleton. eauto 10.
  - apply negb_false_iff in K. destruct (dispatch_justified dm sender src nk rx s2) as [J L]. split; [|exact L].
    intros a Ha. do 2 (split; [done|]). exists dm. split; [done|]. split; [done|].
    apply (justified_frame _ _ _ _ s s2); [done|]. by apply J.
Qed.
Lemma disco_rx_state msg src (flag : bool) nk rx s :
  let sender := discoSender msg in
  let known := if flag then ce_relayHandshake ce sender else knownPeerDiscoKey (cn_map s) sender in
  let s' := (handleDiscoMessageWithSource ce msg src flag nk rx s).1 in
  (Peers.closed (cn_peers s) = true \/ ce_privateKeyIsZero ce = true \/ known = false \/ flag = true -> s' = s)
  /\ (openDisco (ce_open ce sender) msg = None -> s' = s \/ unopened sender src s s').
Proof.
  cbv zeta. unfold handleDiscoMessageWithSource. set (sender := discoSender msg).
  destruct (Peers.closed (cn_peers s)); [auto|]. destruct (ce_privateKeyIsZero ce); [auto|]. destruct flag.
  - destruct (negb (ce_relayHandshake ce sender)); [auto|]. rewrite andb_false_r.
    destruct (openDisco _ msg) as [dm|]; [destruct dm|]; auto.
  - destruct (knownPeerDiscoKey (cn_map s) sender); cbn [negb]; [|auto]. split; [by intros [?|[?|[?|?]]]|].
    intros ->. right. apply noteRecvUDP_unopened.
Qed.

End Rx.

(** ** Example: a ping from a peer *)
Definition ex_connEnv : connEnv :=
  MkConnEnv ex_peersEnv false true (fun _ b => Some (drop 24 b)) (fun _ => false) (fun _ => true).
Definition ex_pingMsg : bytes :=
  (Magic ++ ex_key) ++ zeros 24 ++ AppendMarshal (MPing (MkPing (replicate 12 x07) (replicate 32 x0a) 0)) [].
Definition ex_conn : connState := MkConn ex_peersState (clearLocked (MkPM ∅ [] [] ∅ ∅ ∅ ∅ ∅ ∅)).
Definition ex_src : epAddr := epAddr_of (MkAddrPort (Addr4 0x05060708) 41641).
Lemma disco_rx_keeps_peers_witness :
  let r := handleDiscoMessageWithSource (H := canonical_range) (H0 := portable_platform) ex_connEnv ex_pingMsg ex_src
             false zeroNode primarySourceRxMeta ex_conn in
  r.2 = [RxSend ex_src (replicate 32 x0a) ex_key (MPong (MkDPong (replicate 12 x07) (ap ex_src)))]
  /\ table (cn_peers r.1) = table ex_peersState.
Proof.
  cbv zeta. split; [vm_compute; reflexivity|].
  exact (proj2 (disco_rx_keeps_peers (H := canonical_range) (H0 := portable_platform) ex_connEnv ex_pingMsg ex_src false
    zeroNode primarySourceRxMeta ex_conn ex_peersState_reachable)).
Defined.
End DiscoRxProps.
