(* ===== verification/Derp.v ===== *)
(** * Connections to DERP regions (derp.go, magicsock.go: SetPrivateKey, SetNetworkUp, SetHomeless,
    UpdatePeers)

    The registry of connections under [Conn.mu] and the goroutines of each connection, which
    interleave with it. A connection is a number: it names the client, its write channel and the
    wait group of its reader and writer, which are made together. The network is asked for before
    [Conn.mu] is taken, so whoever wants a channel does so in two steps. The reader's packet is shared with
    the receive function it is handed to. What the region answers is an argument; preferences
    noted to the server, health and logs are left out. *)
From S2P Require Import Prelude Netip Bytes ProbeManager BetterAddr EndpointRecord PeerMap.

Module Derp.

Record derpWriteRequest := MkDerpReq { dr_addr : AddrPort; dr_pubKey : NodePublic; dr_b : bytes; dr_isDisco : bool }.
#[export] Instance derpWriteRequest_eq_dec : EqDecision derpWriteRequest.
Proof. solve_decision. Defined.
Definition derpWriteQueueDepth : nat := 32.
Definition derpInactiveCleanupTime : Z := 60 * Second.

(** The DERP map: the definition of each region and the rest of it, only ever compared *)
Record DERPMap := MkDERPMap { Regions : gmap Z Z; dm_rest : Z }.
#[export] Instance DERPMap_eq_dec : EqDecision DERPMap.
Proof. solve_decision. Defined.
Record activeDerp := MkActive { ad_c : nat; ad_lastWrite : Z; ad_createTime : Z }.
(** What a receive function gets; the data is the reader's packet at the time it is copied. *)
Record derpReadResult := MkRead { rr_region : Z; rr_n : nat; rr_src : NodePublic; rr_client : nat }.

(** When a generation's goroutines may start: at once, after the first connection of all, or when
    both goroutines of an earlier generation have returned. *)
Inductive startGate := GateOpen | GateStarted | GateGen (g : nat).
(** Where the goroutines are: before the gate, in [RecvDetail], backing off after an error, handing
    a packet to the receive function, waiting for it to be copied, returned *)
Inductive readerPos := RWait | RRecv | RBackOff | RSend | RCopy | RDone.
Inductive writerPos := WWait | WRun | WDone.
(** The goroutine that waits for the gate to call [derpActiveFunc] *)
Inductive waiterPos := AWait | ADone.
Record derpGen := MkGen {
  dg_region : Z;
  dg_gate : startGate;
  dg_cancelled : bool;                       (* its context *)
  dg_reader : readerPos;
  dg_writer : writerPos;
  dg_ch : list derpWriteRequest;
  dg_sent : list derpWriteRequest;           (* handed to the client *)
  dg_peerPresent : gset NodePublic;
  dg_lastPacketSrc : NodePublic;
  dg_src : NodePublic;                       (* res.src *)
  dg_pkt : bytes;
  dg_didCopy : bool;
  dg_waiter : waiterPos
}.
#[export] Instance readerPos_eq_dec : EqDecision readerPos.
Proof. solve_decision. Defined.
#[export] Instance writerPos_eq_dec : EqDecision writerPos.
Proof. solve_decision. Defined.
#[export] Instance waiterPos_eq_dec : EqDecision waiterPos.
Proof. solve_decision. Defined.
Definition with_reader (r : readerPos) (g : derpGen) : derpGen :=
  MkGen (dg_region g) (dg_gate g) (dg_cancelled g) r (dg_writer g) (dg_ch g) (dg_sent g) (dg_peerPresent g)
    (dg_lastPacketSrc g) (dg_src g) (dg_pkt g) (dg_didCopy g) (dg_waiter g).
Definition with_writer (w : writerPos) (ch sent : list derpWriteRequest) (g : derpGen) : derpGen :=
  MkGen (dg_region g) (dg_gate g) (dg_cancelled g) (dg_reader g) w ch sent (dg_peerPresent g)
    (dg_lastPacketSrc g) (dg_src g) (dg_pkt g) (dg_didCopy g) (dg_waiter g).
Definition with_ch (ch : list derpWriteRequest) (g : derpGen) : derpGen := with_writer (dg_writer g) ch (dg_sent g) g.
Definition cancel (g : derpGen) : derpGen :=
  MkGen (dg_region g) (dg_gate g) true (dg_reader g) (dg_writer g) (dg_ch g) (dg_sent g) (dg_peerPresent g)
    (dg_lastPacketSrc g) (dg_src g) (dg_pkt g) (dg_didCopy g) (dg_waiter g).
Definition with_present (p : gset NodePublic) (last : NodePublic) (g : derpGen) : derpGen :=
  MkGen (dg_region g) (dg_gate g) (dg_cancelled g) (dg_reader g) (dg_writer g) (dg_ch g) (dg_sent g) p
    last (dg_src g) (dg_pkt g) (dg_didCopy g) (dg_waiter g).
Definition with_pkt (src : NodePublic) (pkt : bytes) (g : derpGen) : derpGen :=
  MkGen (dg_region g) (dg_gate g) (dg_cancelled g) (dg_reader g) (dg_writer g) (dg_ch g) (dg_sent g) (dg_peerPresent g)
    (dg_lastPacketSrc g) src pkt (dg_didCopy g) (dg_waiter g).
Definition with_didCopy (b : bool) (g : derpGen) : derpGen :=
  MkGen (dg_region g) (dg_gate g) (dg_cancelled g) (dg_reader g) (dg_writer g) (dg_ch g) (dg_sent g) (dg_peerPresent g)
    (dg_lastPacketSrc g) (dg_src g) (dg_pkt g) b (dg_waiter g).
Definition with_waiter (w : waiterPos) (g : derpGen) : derpGen :=
  MkGen (dg_region g) (dg_gate g) (dg_cancelled g) (dg_reader g) (dg_writer g) (dg_ch g) (dg_sent g) (dg_peerPresent g)
    (dg_lastPacketSrc g) (dg_src g) (dg_pkt g) (dg_didCopy g) w.

(** What [networkDown] reads besides [networkUp]: the environment knob, and whether a test runs that
    does not ask for the network to be checked *)
Record upKnobs := MkUpKnobs { AssumeNetworkUp : bool; InTest : bool; checkNetworkDownDuringTests : bool }.
Record derpState := MkDerp {
  dp_map : option DERPMap;
  dp_myDerp : Z;
  dp_homeless : bool;
  dp_key : Z;                               (* the private key, 0 when zero *)
  dp_closed : bool;
  dp_up : bool;                             (* networkUp *)
  dp_active : option (gmap Z activeDerp);   (* nil before the first connection *)
  dp_route : gmap NodePublic (Z * nat);     (* derpRoute: region and client *)
  dp_lastDerp : gmap NodePublic Z;          (* peerLastDerp *)
  dp_peerSet : gset NodePublic;
  dp_armed : bool;                          (* derpCleanupTimerArmed *)
  dp_prev : gmap Z nat;                     (* prevDerp: the newest generation of a region *)
  dp_started : bool;                        (* derpStarted is closed *)
  dp_gens : gmap nat derpGen;               (* the goroutines, by client *)
  dp_next : nat;                            (* the next client *)
  dp_recvCh : list (option derpReadResult); (* derpRecvCh; [None] is the empty result *)
  dp_bindClosed : bool;                     (* connBind.closed *)
  dp_unblock : bool;                        (* connBind.Close is about to send its empty result *)
  dp_connects : list Z;                     (* goDerpConnect started, [networkDown] not read yet *)
  dp_restuns : nat;                         (* ReSTUN started *)
  dp_knobs : upKnobs;
  dp_checked : list Z;                      (* goroutines of goDerpConnect that found the network up *)
  dp_sending : list derpWriteRequest;       (* packets whose sender found the network up *)
  dp_starter : bool;                        (* the first connection's goroutine is in Connect *)
  dp_activeCalls : nat                      (* calls of derpActiveFunc *)
}.
Definition set_map (v : option DERPMap) (s : derpState) : derpState :=
  MkDerp v (dp_myDerp s) (dp_homeless s) (dp_key s) (dp_closed s) (dp_up s) (dp_active s) (dp_route s)
    (dp_lastDerp s) (dp_peerSet s) (dp_armed s) (dp_prev s) (dp_started s) (dp_gens s) (dp_next s)
    (dp_recvCh s) (dp_bindClosed s) (dp_unblock s) (dp_connects s) (dp_restuns s) (dp_knobs s)
    (dp_checked s) (dp_sending s) (dp_starter s) (dp_activeCalls s).
Definition set_myDerp (v : Z) (s : derpState) : derpState :=
  MkDerp (dp_map s) v (dp_homeless s) (dp_key s) (dp_closed s) (dp_up s) (dp_active s) (dp_route s)
    (dp_lastDerp s) (dp_peerSet s) (dp_armed s) (dp_prev s) (dp_started s) (dp_gens s) (dp_next s)
    (dp_recvCh s) (dp_bindClosed s) (dp_unblock s) (dp_connects s) (dp_restuns s) (dp_knobs s)
    (dp_checked s) (dp_sending s) (dp_starter s) (dp_activeCalls s).
Definition set_homeless (v : bool) (s : derpState) : derpState :=
  MkDerp (dp_map s) (dp_myDerp s) v (dp_key s) (dp_closed s) (dp_up s) (dp_active s) (dp_route s)
    (dp_lastDerp s) (dp_peerSet s) (dp_armed s) (dp_prev s) (dp_started s) (dp_gens s) (dp_next s)
    (dp_recvCh s) (dp_bindClosed s) (dp_unblock s) (dp_connects s) (dp_restuns s) (dp_knobs s)
    (dp_checked s) (dp_sending s) (dp_starter s) (dp_activeCalls s).
Definition set_key (v : Z) (s : derpState) : derpState :=
  MkDerp (dp_map s) (dp_myDerp s) (dp_homeless s) v (dp_closed s) (dp_up s) (dp_active s) (dp_route s)
    (dp_lastDerp s) (dp_peerSet s) (dp_armed s) (dp_prev s) (dp_started s) (dp_gens s) (dp_next s)
    (dp_recvCh s) (dp_bindClosed s) (dp_unblock s) (dp_connects s) (dp_restuns s) (dp_knobs s)
    (dp_checked s) (dp_sending s) (dp_starter s) (dp_activeCalls s).
Definition set_closed (v : bool) (s : derpState) : derpState :=
  MkDerp (dp_map s) (dp_myDerp s) (dp_homeless s) (dp_key s) v (dp_up s) (dp_active s) (dp_route s)
    (dp_lastDerp s) (dp_peerSet s) (dp_armed s) (dp_prev s) (dp_started s) (dp_gens s) (dp_next s)
    (dp_recvCh s) (dp_bindClosed s) (dp_unblock s) (dp_connects s) (dp_restuns s) (dp_knobs s)
    (dp_checked s) (dp_sending s) (dp_starter s) (dp_activeCalls s).
Definition set_up (v : bool) (s : derpState) : derpState :=
  MkDerp (dp_map s) (dp_myDerp s) (dp_homeless s) (dp_key s) (dp_closed s) v (dp_active s) (dp_route s)
    (dp_lastDerp s) (dp_peerSet s) (dp_armed s) (dp_prev s) (dp_started s) (dp_gens s) (dp_next s)
    (dp_recvCh s) (dp_bindClosed s) (dp_unblock s) (dp_connects s) (dp_restuns s) (dp_knobs s)
    (dp_checked s) (dp_sending s) (dp_starter s) (dp_activeCalls s).
Definition set_active (v : option (gmap Z activeDerp)) (s : derpState) : derpState :=
  MkDerp (dp_map s) (dp_myDerp s) (dp_homeless s) (dp_key s) (dp_closed s) (dp_up s) v (dp_route s)
    (dp_lastDerp s) (dp_peerSet s) (dp_armed s) (dp_prev s) (dp_started s) (dp_gens s) (dp_next s)
    (dp_recvCh s) (dp_bindClosed s) (dp_unblock s) (dp_connects s) (dp_restuns s) (dp_knobs s)
    (dp_checked s) (dp_sending s) (dp_starter s) (dp_activeCalls s).
Definition set_route (v : gmap NodePublic (Z * nat)) (s : derpState) : derpState :=
  MkDerp (dp_map s) (dp_myDerp s) (dp_homeless s) (dp_key s) (dp_closed s) (dp_up s) (dp_active s) v
    (dp_lastDerp s) (dp_peerSet s) (dp_armed s) (dp_prev s) (dp_started s) (dp_gens s) (dp_next s)
    (dp_recvCh s) (dp_bindClosed s) (dp_unblock s) (dp_connects s) (dp_restuns s) (dp_knobs s)
    (dp_checked s) (dp_sending s) (dp_starter s) (dp_activeCalls s).
Definition set_lastDerp (v : gmap NodePublic Z) (s : derpState) : derpState :=
  MkDerp (dp_map s) (dp_myDerp s) (dp_homeless s) (dp_key s) (dp_closed s) (dp_up s) (dp_active s)
    (dp_route s) v (dp_peerSet s) (dp_armed s) (dp_prev s) (dp_started s) (dp_gens s) (dp_next s)
    (dp_recvCh s) (dp_bindClosed s) (dp_unblock s) (dp_connects s) (dp_restuns s) (dp_knobs s)
    (dp_checked s) (dp_sending s) (dp_starter s) (dp_activeCalls s).
Definition set_peerSet (v : gset NodePublic) (s : derpState) : derpState :=
  MkDerp (dp_map s) (dp_myDerp s) (dp_homeless s) (dp_key s) (dp_closed s) (dp_up s) (dp_active s)
    (dp_route s) (dp_lastDerp s) v (dp_armed s) (dp_prev s) (dp_started s) (dp_gens s) (dp_next s)
    (dp_recvCh s) (dp_bindClosed s) (dp_unblock s) (dp_connects s) (dp_restuns s) (dp_knobs s)
    (dp_checked s) (dp_sending s) (dp_starter s) (dp_activeCalls s).
Definition set_armed (v : bool) (s : derpState) : derpState :=
  MkDerp (dp_map s) (dp_myDerp s) (dp_homeless s) (dp_key s) (dp_closed s) (dp_up s) (dp_active s)
    (dp_route s) (dp_lastDerp s) (dp_peerSet s) v (dp_prev s) (dp_started s) (dp_gens s) (dp_next s)
    (dp_recvCh s) (dp_bindClosed s) (dp_unblock s) (dp_connects s) (dp_restuns s) (dp_knobs s)
    (dp_checked s) (dp_sending s) (dp_starter s) (dp_activeCalls s).
Definition set_prev (v : gmap Z nat) (s : derpState) : derpState :=
  MkDerp (dp_map s) (dp_myDerp s) (dp_homeless s) (dp_key s) (dp_closed s) (dp_up s) (dp_active s)
    (dp_route s) (dp_lastDerp s) (dp_peerSet s) (dp_armed s) v (dp_started s) (dp_gens s) (dp_next s)
    (dp_recvCh s) (dp_bindClosed s) (dp_unblock s) (dp_connects s) (dp_restuns s) (dp_knobs s)
    (dp_checked s) (dp_sending s) (dp_starter s) (dp_activeCalls s).
Definition set_started (v : bool) (s : derpState) : derpState :=
  MkDerp (dp_map s) (dp_myDerp s) (dp_homeless s) (dp_key s) (dp_closed s) (dp_up s) (dp_active s)
    (dp_route s) (dp_lastDerp s) (dp_peerSet s) (dp_armed s) (dp_prev s) v (dp_gens s) (dp_next s)
    (dp_recvCh s) (dp_bindClosed s) (dp_unblock s) (dp_connects s) (dp_restuns s) (dp_knobs s)
    (dp_checked s) (dp_sending s) (dp_starter s) (dp_activeCalls s).
Definition set_gens (v : gmap nat derpGen) (s : derpState) : derpState :=
  MkDerp (dp_map s) (dp_myDerp s) (dp_homeless s) (dp_key s) (dp_closed s) (dp_up s) (dp_active s)
    (dp_route s) (dp_lastDerp s) (dp_peerSet s) (dp_armed s) (dp_prev s) (dp_started s) v (dp_next s)
    (dp_recvCh s) (dp_bindClosed s) (dp_unblock s) (dp_connects s) (dp_restuns s) (dp_knobs s)
    (dp_checked s) (dp_sending s) (dp_starter s) (dp_activeCalls s).
Definition set_next (v : nat) (s : derpState) : derpState :=
  MkDerp (dp_map s) (dp_myDerp s) (dp_homeless s) (dp_key s) (dp_closed s) (dp_up s) (dp_active s)
    (dp_route s) (dp_lastDerp s) (dp_peerSet s) (dp_armed s) (dp_prev s) (dp_started s) (dp_gens s) v
    (dp_recvCh s) (dp_bindClosed s) (dp_unblock s) (dp_connects s) (dp_restuns s) (dp_knobs s)
    (dp_checked s) (dp_sending s) (dp_starter s) (dp_activeCalls s).
Definition set_recvCh (v : list (option derpReadResult)) (s : derpState) : derpState :=
  MkDerp (dp_map s) (dp_myDerp s) (dp_homeless s) (dp_key s) (dp_closed s) (dp_up s) (dp_active s)
    (dp_route s) (dp_lastDerp s) (dp_peerSet s) (dp_armed s) (dp_prev s) (dp_started s) (dp_gens s)
    (dp_next s) v (dp_bindClosed s) (dp_unblock s) (dp_connects s) (dp_restuns s) (dp_knobs s)
    (dp_checked s) (dp_sending s) (dp_starter s) (dp_activeCalls s).
Definition set_bindClosed (v : bool) (s : derpState) : derpState :=
  MkDerp (dp_map s) (dp_myDerp s) (dp_homeless s) (dp_key s) (dp_closed s) (dp_up s) (dp_active s)
    (dp_route s) (dp_lastDerp s) (dp_peerSet s) (dp_armed s) (dp_prev s) (dp_started s) (dp_gens s)
    (dp_next s) (dp_recvCh s) v (dp_unblock s) (dp_connects s) (dp_restuns s) (dp_knobs s) (dp_checked s)
    (dp_sending s) (dp_starter s) (dp_activeCalls s).
Definition set_unblock (v : bool) (s : derpState) : derpState :=
  MkDerp (dp_map s) (dp_myDerp s) (dp_homeless s) (dp_key s) (dp_closed s) (dp_up s) (dp_active s)
    (dp_route s) (dp_lastDerp s) (dp_peerSet s) (dp_armed s) (dp_prev s) (dp_started s) (dp_gens s)
    (dp_next s) (dp_recvCh s) (dp_bindClosed s) v (dp_connects s) (dp_restuns s) (dp_knobs s) (dp_checked s)
    (dp_sending s) (dp_starter s) (dp_activeCalls s).
Definition set_connects (v : list Z) (s : derpState) : derpState :=
  MkDerp (dp_map s) (dp_myDerp s) (dp_homeless s) (dp_key s) (dp_closed s) (dp_up s) (dp_active s)
    (dp_route s) (dp_lastDerp s) (dp_peerSet s) (dp_armed s) (dp_prev s) (dp_started s) (dp_gens s)
    (dp_next s) (dp_recvCh s) (dp_bindClosed s) (dp_unblock s) v (dp_restuns s) (dp_knobs s) (dp_checked s)
    (dp_sending s) (dp_starter s) (dp_activeCalls s).
Definition set_restuns (v : nat) (s : derpState) : derpState :=
  MkDerp (dp_map s) (dp_myDerp s) (dp_homeless s) (dp_key s) (dp_closed s) (dp_up s) (dp_active s)
    (dp_route s) (dp_lastDerp s) (dp_peerSet s) (dp_armed s) (dp_prev s) (dp_started s) (dp_gens s)
    (dp_next s) (dp_recvCh s) (dp_bindClosed s) (dp_unblock s) (dp_connects s) v (dp_knobs s) (dp_checked s)
    (dp_sending s) (dp_starter s) (dp_activeCalls s).
Definition set_knobs (v : upKnobs) (s : derpState) : derpState :=
  MkDerp (dp_map s) (dp_myDerp s) (dp_homeless s) (dp_key s) (dp_closed s) (dp_up s) (dp_active s)
    (dp_route s) (dp_lastDerp s) (dp_peerSet s) (dp_armed s) (dp_prev s) (dp_started s) (dp_gens s)
    (dp_next s) (dp_recvCh s) (dp_bindClosed s) (dp_unblock s) (dp_connects s) (dp_restuns s) v
    (dp_checked s) (dp_sending s) (dp_starter s) (dp_activeCalls s).
Definition set_checked (v : list Z) (s : derpState) : derpState :=
  MkDerp (dp_map s) (dp_myDerp s) (dp_homeless s) (dp_key s) (dp_closed s) (dp_up s) (dp_active s)
    (dp_route s) (dp_lastDerp s) (dp_peerSet s) (dp_armed s) (dp_prev s) (dp_started s) (dp_gens s)
    (dp_next s) (dp_recvCh s) (dp_bindClosed s) (dp_unblock s) (dp_connects s) (dp_restuns s) (dp_knobs s) v
    (dp_sending s) (dp_starter s) (dp_activeCalls s).
Definition set_sending (v : list derpWriteRequest) (s : derpState) : derpState :=
  MkDerp (dp_map s) (dp_myDerp s) (dp_homeless s) (dp_key s) (dp_closed s) (dp_up s) (dp_active s)
    (dp_route s) (dp_lastDerp s) (dp_peerSet s) (dp_armed s) (dp_prev s) (dp_started s) (dp_gens s)
    (dp_next s) (dp_recvCh s) (dp_bindClosed s) (dp_unblock s) (dp_connects s) (dp_restuns s) (dp_knobs s)
    (dp_checked s) v (dp_starter s) (dp_activeCalls s).
Definition set_starter (v : bool) (s : derpState) : derpState :=
  MkDerp (dp_map s) (dp_myDerp s) (dp_homeless s) (dp_key s) (dp_closed s) (dp_up s) (dp_active s)
    (dp_route s) (dp_lastDerp s) (dp_peerSet s) (dp_armed s) (dp_prev s) (dp_started s) (dp_gens s)
    (dp_next s) (dp_recvCh s) (dp_bindClosed s) (dp_unblock s) (dp_connects s) (dp_restuns s) (dp_knobs s)
    (dp_checked s) (dp_sending s) v (dp_activeCalls s).
Definition set_activeCalls (v : nat) (s : derpState) : derpState :=
  MkDerp (dp_map s) (dp_myDerp s) (dp_homeless s) (dp_key s) (dp_closed s) (dp_up s) (dp_active s)
    (dp_route s) (dp_lastDerp s) (dp_peerSet s) (dp_armed s) (dp_prev s) (dp_started s) (dp_gens s)
    (dp_next s) (dp_recvCh s) (dp_bindClosed s) (dp_unblock s) (dp_connects s) (dp_restuns s) (dp_knobs s)
    (dp_checked s) (dp_sending s) (dp_starter s) v.
Definition newDerp : derpState := MkDerp None 0 false 0 false true None ∅ ∅ ∅ false ∅ false ∅ 0 [] true false [] 0
  (MkUpKnobs false false false) [] [] false 0.
Notation activeMap s := (default ∅ (dp_active s)).
Definition on_gen (g : nat) (f : derpGen -> derpGen) (s : derpState) : derpState := set_gens (alter f g (dp_gens s)) s.

(** ** Routes *)
Definition removeDerpPeerRoute (peer : NodePublic) (regionID : Z) (dc : nat) (s : derpState) : derpState :=
  match dp_route s !! peer with
  | Some r => if bool_decide (r = (regionID, dc)) then set_route (delete peer (dp_route s)) s else s
  | None => s
  end.
Definition addDerpPeerRoute (peer : NodePublic) (regionID : Z) (dc : nat) (s : derpState) : derpState :=
  set_route (<[peer := (regionID, dc)]> (dp_route s)) s.
Definition fallbackDERPRegionForPeer (peer : NodePublic) (s : derpState) : Z :=
  match dp_route s !! peer with Some r => r.1 | None => 0 end.
Definition setPeerLastDerpLocked (peer : NodePublic) (regionID : Z) (s : derpState) : derpState :=
  if bool_decide (peer = zeroNode) then s
  else if default 0 (dp_lastDerp s !! peer) =? regionID then s
  else set_lastDerp (<[peer := regionID]> (dp_lastDerp s)) s.
Definition UpdatePeers (newPeers : gset NodePublic) (s : derpState) : derpState :=
  let old := dp_peerSet s in
  let s := set_peerSet newPeers s in
  let gone := old ∖ newPeers in
  let s := set_lastDerp (filter (fun x : NodePublic * Z => x.1 ∉ gone) (dp_lastDerp s))
             (set_route (filter (fun x : NodePublic * (Z * nat) => x.1 ∉ gone) (dp_route s)) s) in
  if (size old =? 0)%nat && (0 <? size newPeers)%nat then set_restuns (S (dp_restuns s)) s else s.

(** ** Connections *)
Definition wantDerpLocked (s : derpState) : bool := match dp_map s with Some _ => true | None => false end.
Definition networkDown (s : derpState) : bool :=
  let k := dp_knobs s in
  if AssumeNetworkUp k || (InTest k && negb (checkNetworkDownDuringTests k)) then false else negb (dp_up s).
Definition scheduleCleanStaleDerpLocked (s : derpState) : derpState := if dp_armed s then s else set_armed true s.
Definition goDerpConnect (regionID : Z) (s : derpState) : derpState :=
  if regionID =? 0 then s else set_connects (dp_connects s ++ [regionID]) s.
Definition startDerpHomeConnectLocked (s : derpState) : derpState := goDerpConnect (dp_myDerp s) s.

Definition touch (now : Z) (regionID : Z) (s : derpState) : derpState :=
  set_active (alter (fun ad => MkActive (ad_c ad) now (ad_createTime ad)) regionID <$> dp_active s) s.
(** The part of [derpWriteChanForRegion] that opens a connection. The reader, the writer and the
    goroutine that calls [derpActiveFunc] wait for the gate; the first connection of all has one more
    goroutine, which connects and then opens the gate. *)
Definition newDerpConn (now : Z) (regionID : Z) (peer : NodePublic) (s : derpState) : derpState * nat :=
  let firstDerp := match dp_active s with None => true | Some _ => false end in
  let prev := if firstDerp then ∅ else dp_prev s in
  let dc := dp_next s in
  let s := set_next (S dc) s in
  let s := set_active (Some (<[regionID := MkActive dc now now]> (activeMap s))) s in
  let s := setPeerLastDerpLocked peer regionID s in
  let s := scheduleCleanStaleDerpLocked s in
  let startGate := match prev !! regionID with Some g => GateGen g | None => GateOpen end in
  let s := set_prev (<[regionID := dc]> prev) s in
  let startGate := if firstDerp then GateStarted else startGate in
  let s := if firstDerp then set_starter true s else s in
  (set_gens (<[dc := MkGen regionID startGate false RWait WWait [] [] ∅ zeroNode zeroNode [] false AWait]> (dp_gens s)) s, dc).
(** [derpWriteChanForRegion] under [Conn.mu] *)
Definition derpWriteChanLocked (now : Z) (regionID : Z) (peer : NodePublic) (s : derpState) : derpState * option nat :=
  if negb (wantDerpLocked s) || dp_closed s then (s, None)
  else if negb (bool_decide (is_Some (dp_map s ≫= fun m => Regions m !! regionID))) then (s, None)
  else if dp_key s =? 0 then (s, None)
  else match activeMap s !! regionID with
  | Some ad => (setPeerLastDerpLocked peer regionID (touch now regionID s), Some (ad_c ad))
  | None =>
      let reverse :=
        if bool_decide (peer = zeroNode) then None
        else r ← dp_route s !! peer; ad ← activeMap s !! r.1;
             if (ad_c ad =? r.2)%nat then Some (r.1, ad_c ad) else None in
      match reverse with
      | Some (rid, dc) => (touch now rid (setPeerLastDerpLocked peer rid s), Some dc)
      | None => let '(s, dc) := newDerpConn now regionID peer s in (s, Some dc)
      end
  end.
(** [window]: what happens after the network was found up and before [Conn.mu] is held *)
Definition derpWriteChanForRegion (window : derpState -> derpState) (now : Z) (regionID : Z) (peer : NodePublic) (s : derpState)
  : derpState * option nat :=
  if networkDown s then (s, None) else derpWriteChanLocked now regionID peer (window s).

Definition closeDerpLocked (regionID : Z) (s : derpState) : derpState :=
  match activeMap s !! regionID with
  | None => s
  | Some ad => set_active (delete regionID <$> dp_active s) (on_gen (ad_c ad) cancel s)
  end.
Section Derp.
Context `{MapRange}.
Definition closeAllDerpLocked (s : derpState) : derpState :=
  foldl (fun s (x : Z * activeDerp) => closeDerpLocked x.1 s) s (map_range (activeMap s)).
Definition closeOrReconnectDERPLocked (regionID : Z) (s : derpState) : derpState :=
  let s := closeDerpLocked regionID s in
  if negb (dp_key s =? 0) && (dp_myDerp s =? regionID) then startDerpHomeConnectLocked s else s.
Definition DebugBreakDERPConns (s : derpState) : derpState :=
  if (size (activeMap s) =? 0)%nat then s else startDerpHomeConnectLocked (closeAllDerpLocked s).
(** [localOK]: whether the local address of a client is acceptable, [None] if it has none. Those that
    are kept are pinged; a failed ping calls [closeOrReconnectDERPLocked] later. *)
Definition maybeCloseDERPsOnRebind (localOK : nat -> option bool) (s : derpState) : derpState :=
  foldl (fun s (x : Z * activeDerp) =>
      match localOK (ad_c x.2) with
      | Some true => s
      | _ => closeOrReconnectDERPLocked x.1 s
      end) s (map_range (activeMap s)).

(** ** The home region *)
(** [rnd]: what [rands.IntN] draws *)
Definition pickDERPFallback (rnd : nat -> nat) (s : derpState) : Z :=
  match dp_map s with
  | None => 0
  | Some m =>
      let ids := Slices.SortFunc Z.sub (map_range (Regions m)).*1 in
      if (length ids =? 0)%nat then 0
      else if negb (dp_myDerp s =? 0) then dp_myDerp s
      else nth (rnd (length ids)) ids 0
  end.
Definition setNearestDERP (derpNum : Z) (s : derpState) : derpState * bool :=
  if negb (wantDerpLocked s) then (set_myDerp 0 s, false)
  else if dp_homeless s then (set_myDerp 0 s, false)
  else if derpNum =? dp_myDerp s then (s, true)
  else
    let s := set_myDerp derpNum s in
    if dp_key s =? 0 then (s, true) else (goDerpConnect derpNum s, true).
Definition maybeSetNearestDERP (rnd : nat -> nat) (connectedToControl : bool) (reportPreferred : Z) (s : derpState)
  : derpState * Z :=
  let myDerp := dp_myDerp s in
  if negb connectedToControl && negb (myDerp =? 0) then (s, myDerp)
  else
    let preferredDERP := if reportPreferred =? 0 then pickDERPFallback rnd s else reportPreferred in
    let '(s, ok) := setNearestDERP preferredDERP s in
    (s, if ok : bool then preferredDERP else 0).

(** ** What the rest of the program sets *)
Definition SetDERPMap (dm : option DERPMap) (s : derpState) : derpState :=
  if bool_decide (dm = dp_map s) then s
  else
    let old := dp_map s in
    let s := set_map dm s in
    match dm with
    | None => closeAllDerpLocked s
    | Some m =>
        let s := foldl (fun s (x : Z * Z) =>
            if bool_decide (Regions m !! x.1 = Some x.2) then s
            else closeDerpLocked x.1 (if x.1 =? dp_myDerp s then set_myDerp 0 s else s)) s
          (match old with Some o => map_range (Regions o) | None => [] end) in
        set_restuns (S (dp_restuns s)) s
    end.
(** The DERP side of [SetPrivateKey] *)
Definition SetPrivateKey (newKey : Z) (s : derpState) : derpState :=
  let oldKey := dp_key s in
  if newKey =? oldKey then s
  else
    let s := set_key newKey s in
    let s := if oldKey =? 0 then set_restuns (S (dp_restuns s)) s else closeAllDerpLocked s in
    if negb (dp_myDerp s =? 0) && negb (newKey =? 0) then startDerpHomeConnectLocked s else s.
Definition SetNetworkUp (up : bool) (s : derpState) : derpState :=
  if Bool.eqb (dp_up s) up then s
  else
    let s := set_up up s in
    if up then startDerpHomeConnectLocked s else closeAllDerpLocked s.
Definition SetHomeless (v : bool) (s : derpState) : derpState :=
  let s := set_homeless v s in
  if v && negb (dp_myDerp s =? 0) then closeDerpLocked (dp_myDerp s) (set_myDerp 0 s) else s.
(** The DERP side of [Close]: the context of the connection, the parent of all others, ends too. *)
Definition Close (s : derpState) : derpState :=
  if dp_closed s then s
  else
    let s := set_closed true s in
    closeAllDerpLocked (set_gens (cancel <$> dp_gens s) s).

Definition cleanStaleDerp (now : Z) (s : derpState) : derpState :=
  if dp_closed s then s
  else
    let s := set_armed false s in
    let tooOld := now - derpInactiveCleanupTime in
    let '(s, someNonHomeOpen) :=
      foldl (fun (acc : derpState * bool) (x : Z * activeDerp) =>
          let '(s, someNonHomeOpen) := acc in
          if x.1 =? dp_myDerp s then acc
          else if ad_lastWrite x.2 <? tooOld then (closeDerpLocked x.1 s, someNonHomeOpen)
          else (s, true)) (s, false) (map_range (activeMap s)) in
    if someNonHomeOpen : bool then scheduleCleanStaleDerpLocked s else s.
End Derp.

(** ** The write channel (magicsock.go: sendAddr)
    Three attempts to put a packet on the queue, the oldest packet making room. [others]: what others
    made of the queue before the i-th attempt, [donec]: the i-th attempt sees the connection closed *)
Inductive enqResult := EnqSent | EnqClosed | EnqDropped.
Fixpoint enqueue (others : nat -> list derpWriteRequest -> list derpWriteRequest) (donec : nat -> bool) (tries i : nat)
    (wr : derpWriteRequest) (q : list derpWriteRequest) : list derpWriteRequest * enqResult :=
  match tries with
  | O => (q, EnqDropped)
  | S tries =>
      let q := others i q in
      if donec i then (q, EnqClosed)
      else if (length q <? derpWriteQueueDepth)%nat then (q ++ [wr], EnqSent)
      else enqueue others donec tries (S i) wr (drop 1 q)
  end.
(** What is left of a send when the write channel is known: [None] if there is none *)
Definition putDerp (others : nat -> list derpWriteRequest -> list derpWriteRequest) (donec : nat -> bool) (wr : derpWriteRequest)
    (asked : derpState * option nat) : derpState * option enqResult :=
  let '(s, ch) := asked in
  match ch with
  | None => (s, None)
  | Some g =>
      let '(q, r) := enqueue others donec 3 0 wr (from_option dg_ch [] (dp_gens s !! g)) in
      (on_gen g (with_ch q) s, Some r)
  end.
Definition sendDerp (window : derpState -> derpState) (others : nat -> list derpWriteRequest -> list derpWriteRequest)
    (donec : nat -> bool) (now : Z) (wr : derpWriteRequest) (s : derpState) : derpState * option enqResult :=
  putDerp others donec wr (derpWriteChanForRegion window now (port (dr_addr wr)) (dr_pubKey wr) s).

(** ** The reader of a connection *)
Inductive derpMsg :=
| MPacket (src : NodePublic) (data : bytes)
| MPeerGone (peer : NodePublic)
| MOther.                                    (* server info, pings, health *)
Definition gateOpen (gate : startGate) (s : derpState) : bool :=
  match gate with
  | GateOpen => true
  | GateStarted => dp_started s
  | GateGen g => match dp_gens s !! g with
                 | Some G => bool_decide (dg_reader G = RDone) && bool_decide (dg_writer G = WDone)
                 | None => true
                 end
  end.
Definition readerMsg (g : nat) (G : derpGen) (m : derpMsg) (s : derpState) : derpState :=
  match m with
  | MPacket src data =>
      let s := on_gen g (with_pkt src data) s in
      let s :=
        if bool_decide (src = dg_lastPacketSrc G) then s
        else
          let s := on_gen g (with_present ({[src]} ∪ dg_peerPresent G) src) s in
          if bool_decide (src ∈ dg_peerPresent G) then s else addDerpPeerRoute src (dg_region G) g s in
      on_gen g (with_reader RSend) s
  | MPeerGone peer => removeDerpPeerRoute peer (dg_region G) g s
  | MOther => s
  end.
Definition readerErr (g : nat) (G : derpGen) (clientClosed : bool) (s : derpState) : derpState :=
  let s := foldl (fun s peer => removeDerpPeerRoute peer (dg_region G) g s) s (elements (dg_peerPresent G)) in
  let s := on_gen g (with_present ∅ (dg_lastPacketSrc G)) s in
  if clientClosed || networkDown s || dg_cancelled G then on_gen g (with_reader RDone) s
  else on_gen g (with_reader RBackOff) (set_restuns (S (dp_restuns s)) s).

(** ** The writer of a connection: the next packet of its channel, which the client sends *)
Definition writeNext (g : nat) (G : derpGen) (s : derpState) : derpState :=
  on_gen g (with_writer WRun (drop 1 (dg_ch G)) (dg_sent G ++ take 1 (dg_ch G))) s.

(** ** The receive function's side: [copyBuf], and [receiveDERP] up to [processDERPReadResult] *)
Definition copyBuf (dm : derpReadResult) (bufLen : nat) (s : derpState) : derpState * bytes :=
  (on_gen (rr_client dm) (with_didCopy true) s, take bufLen (from_option dg_pkt [] (dp_gens s !! rr_client dm))).

(** ** Runs: what may happen next, with its condition *)
Inductive derpEvent :=
| DvConnect (now regionID : Z)               (* a goroutine of [goDerpConnect] has the lock *)
| DvStarted                                  (* the first connection of all is up, or given up *)
| DvSend (now : Z) (wr : derpWriteRequest)   (* a sender has the lock *)
| DvCheck (regionID : Z)                     (* a goroutine of [goDerpConnect] asks for the network *)
| DvSendCheck (wr : derpWriteRequest)        (* a sender asks for the network *)
| DvActive (g : nat) | DvQuitA (g : nat)
| DvGate (g : nat) | DvGateW (g : nat)
| DvMsg (g : nat) (m : derpMsg)
| DvErr (g : nat) (clientClosed : bool)
| DvResume (g : nat)                         (* after backing off *)
| DvPush (g : nat) | DvCopied (g : nat)
| DvQuit (g : nat) | DvQuitW (g : nat)
| DvWrite (g : nat)
| DvReceive (bufLen : nat)
| DvBindClose | DvUnblock | DvBindOpen
| DvDERPMap (dm : option DERPMap)
| DvPrivateKey (k : Z)
| DvNetworkUp (up : bool)
| DvKnobs (k : upKnobs)
| DvHomeless (v : bool)
| DvPeers (p : gset NodePublic)
| DvNearest (derpNum : Z)
| DvClean (now : Z)
| DvBreak
| DvRebind (localOK : nat -> option bool)
| DvPingFailed (regionID : Z)
| DvClose.

(** One of several goroutines that do the same *)
Fixpoint take_one {A} `{EqDecision A} (x : A) (l : list A) : option (list A) :=
  match l with [] => None | y :: l => if decide (x = y) then Some l else cons y <$> take_one x l end.
Definition at_gen (g : nat) (P : derpGen -> bool) (f : derpGen -> derpState -> derpState) (s : derpState) : option derpState :=
  match dp_gens s !! g with Some G => if P G then Some (f G s) else None | None => None end.
Definition readerAt (r : readerPos) (G : derpGen) : bool := bool_decide (dg_reader G = r).
Definition writerAt (w : writerPos) (G : derpGen) : bool := bool_decide (dg_writer G = w).
Definition derpStep `{MapRange} (e : derpEvent) (s : derpState) : option derpState :=
  match e with
  | DvConnect now rid =>
      match take_one rid (dp_checked s) with
      | Some rest => Some (derpWriteChanLocked now rid zeroNode (set_checked rest s)).1
      | None => None
      end
  | DvStarted => if dp_starter s then Some (set_started true (set_starter false s)) else None
  | DvSend now wr =>
      match take_one wr (dp_sending s) with
      | Some rest =>
          Some (putDerp (fun _ q => q) (fun _ => dp_closed s) wr
                  (derpWriteChanLocked now (port (dr_addr wr)) (dr_pubKey wr) (set_sending rest s))).1
      | None => None
      end
  | DvCheck rid =>
      match take_one rid (dp_connects s) with
      | Some rest => Some (set_connects rest (if networkDown s then s else set_checked (dp_checked s ++ [rid]) s))
      | None => None
      end
  | DvSendCheck wr => Some (if networkDown s then s else set_sending (dp_sending s ++ [wr]) s)
  | DvActive g =>
      at_gen g (fun G => bool_decide (dg_waiter G = AWait) && gateOpen (dg_gate G) s)
        (fun _ s => on_gen g (with_waiter ADone) (set_activeCalls (S (dp_activeCalls s)) s)) s
  | DvQuitA g =>
      at_gen g (fun G => dg_cancelled G && bool_decide (dg_waiter G = AWait)) (fun _ => on_gen g (with_waiter ADone)) s
  | DvGate g => at_gen g (fun G => readerAt RWait G && gateOpen (dg_gate G) s) (fun _ => on_gen g (with_reader RRecv)) s
  | DvGateW g =>
      at_gen g (fun G => writerAt WWait G && gateOpen (dg_gate G) s) (fun G => on_gen g (with_writer WRun (dg_ch G) (dg_sent G))) s
  | DvMsg g m => at_gen g (readerAt RRecv) (fun G => readerMsg g G m) s
  | DvErr g c => at_gen g (readerAt RRecv) (fun G => readerErr g G c) s
  | DvResume g =>
      at_gen g (readerAt RBackOff) (fun G => on_gen g (with_reader (if dg_cancelled G then RDone else RRecv))) s
  | DvPush g =>
      at_gen g (fun G => readerAt RSend G && (length (dp_recvCh s) =? 0)%nat)
        (fun G s => on_gen g (with_reader RCopy)
                      (set_recvCh [Some (MkRead (dg_region G) (length (dg_pkt G)) (dg_src G) g)] s)) s
  | DvCopied g =>
      at_gen g (fun G => readerAt RCopy G && dg_didCopy G) (fun _ s => on_gen g (with_reader RRecv) (on_gen g (with_didCopy false) s)) s
  | DvQuit g =>
      at_gen g (fun G => dg_cancelled G && (readerAt RWait G || readerAt RSend G || readerAt RCopy G))
        (fun _ => on_gen g (with_reader RDone)) s
  | DvQuitW g =>
      at_gen g (fun G => dg_cancelled G && negb (writerAt WDone G)) (fun G => on_gen g (with_writer WDone (dg_ch G) (dg_sent G))) s
  | DvWrite g =>
      at_gen g (fun G => writerAt WRun G && negb (length (dg_ch G) =? 0)%nat)
        (writeNext g) s
  | DvReceive bufLen =>
      match dp_recvCh s with
      | [] => None
      | dm :: ch =>
          let s := set_recvCh ch s in
          Some (match dm with
                | Some dm => if dp_bindClosed s then s else (copyBuf dm bufLen s).1
                | None => s
                end)
      end
  | DvBindClose => if dp_bindClosed s then Some s else Some (set_unblock true (set_bindClosed true s))
  | DvUnblock => if dp_unblock s && (length (dp_recvCh s) =? 0)%nat then Some (set_recvCh [None] (set_unblock false s)) else None
  | DvBindOpen => if dp_bindClosed s && negb (dp_unblock s) then Some (set_bindClosed false s) else None
  | DvDERPMap dm => Some (SetDERPMap dm s)
  | DvPrivateKey k => Some (SetPrivateKey k s)
  | DvNetworkUp up => Some (SetNetworkUp up s)
  | DvKnobs k => Some (set_knobs k s)
  | DvHomeless v => Some (SetHomeless v s)
  | DvPeers p => Some (UpdatePeers p s)
  | DvNearest n => Some (setNearestDERP n s).1
  | DvClean now => if dp_armed s then Some (cleanStaleDerp now s) else None
  | DvBreak => Some (DebugBreakDERPConns s)
  | DvRebind localOK => Some (maybeCloseDERPsOnRebind localOK s)
  | DvPingFailed rid => Some (closeOrReconnectDERPLocked rid s)
  | DvClose => Some (Close s)
  end.
Fixpoint derpRun `{MapRange} (es : list derpEvent) (s : derpState) : option derpState :=
  match es with [] => Some s | e :: es => s ← derpStep e s; derpRun es s end.
End Derp.
