(* ===== verification/DerpProps.v ===== *)
(** * Theorems about the connections to DERP regions

    What holds in every run of the registry and the goroutines: which connection a packet is
    written to, that received packets reach the receive function whole and in order, that the home
    region stays connected, what idle cleanup and closing do; and the runs in which the code does
    not do what it means to. *)
From S2P Require Import Prelude Netip Bytes ProbeManager BetterAddr EndpointRecord PeerMap Derp.

Module DerpProps.
Import Derp.

Create HintDb derp.

Lemma foldl_inv {A B} (P : A -> Prop) (f : A -> B -> A) l a :
  (forall a b, b ∈ l -> P a -> P (f a b)) -> P a -> P (foldl f a l).
Proof.
  revert a. induction l as [|b l IH]; intros a Hf Ha; [done|]. apply IH.
  - intros a' b' Hb. apply Hf. by right.
  - by apply Hf; [left|].
Qed.
Lemma default_delete {V} (rid : Z) (o : option (gmap Z V)) : default ∅ (delete rid <$> o) = delete rid (default ∅ o).
Proof. destruct o; [done|]. cbn. by rewrite delete_empty. Qed.
Lemma lookup_on_gen g f s g' :
  dp_gens (on_gen g f s) !! g' = (if decide (g = g') then f <$> dp_gens s !! g' else dp_gens s !! g').
Proof. cbn. rewrite lookup_alter. by destruct (decide _) as [<-|]. Qed.
Lemma alter_fuse {V} (f h : V -> V) (i : nat) (m : gmap nat V) : alter f i (alter h i m) = alter (fun x => f (h x)) i m.
Proof. apply map_eq. intros j. rewrite !lookup_alter. case_decide; [subst|done]. rewrite decide_True by done. by destruct (m !! _). Qed.
Lemma at_gen_Some g P f s s' :
  at_gen g P f s = Some s' -> exists G, dp_gens s !! g = Some G /\ P G = true /\ s' = f G s.
Proof.
  unfold at_gen. destruct (dp_gens s !! g) as [G|]; [|done]. destruct (P G) eqn:E; [|done]. intros [= <-]. by exists G.
Qed.

(** ** The registry *)
Record registry (s : derpState) : Prop := {
  rg_dom g : is_Some (dp_gens s !! g) <-> (g < dp_next s)%nat;
  rg_active rid ad : activeMap s !! rid = Some ad ->
    exists G, dp_gens s !! ad_c ad = Some G /\ dg_region G = rid /\ (dg_cancelled G = false \/ dp_closed s = true);
  rg_live g G : dp_gens s !! g = Some G -> dg_cancelled G = false ->
    exists ad, activeMap s !! dg_region G = Some ad /\ ad_c ad = g;
  rg_route p rid g : dp_route s !! p = Some (rid, g) ->
    exists G, dp_gens s !! g = Some G /\ dg_region G = rid /\ p ∈ dg_peerPresent G;
  rg_prev rid g : dp_prev s !! rid = Some g -> exists G, dp_gens s !! g = Some G /\ dg_region G = rid;
  rg_gate g G p : dp_gens s !! g = Some G -> dg_gate G = GateGen p ->
    (p < g)%nat /\ exists P, dp_gens s !! p = Some P /\ dg_region P = dg_region G
}.

Lemma registry_frame s s' :
  dp_gens s' = dp_gens s -> dp_next s' = dp_next s -> dp_active s' = dp_active s -> dp_route s' = dp_route s ->
  dp_prev s' = dp_prev s -> dp_closed s' = dp_closed s -> registry s -> registry s'.
Proof. intros E1 E2 E3 E4 E5 E6 R. split; rewrite ?E1, ?E2, ?E3, ?E4, ?E5, ?E6; apply R. Qed.

(** A change of one generation that keeps what the registry knows of it. *)
Definition same_conn (G G' : derpGen) : Prop :=
  dg_region G' = dg_region G /\ dg_gate G' = dg_gate G /\ dg_cancelled G' = dg_cancelled G.
Lemma registry_gen g f s :
  (forall G, dp_gens s !! g = Some G -> same_conn G (f G)) ->
  (forall G p rid, dp_gens s !! g = Some G -> dp_route s !! p = Some (rid, g) -> p ∈ dg_peerPresent G -> p ∈ dg_peerPresent (f G)) ->
  registry s -> registry (on_gen g f s).
Proof.
  intros Same Keep R.
  assert (forall g' G, dp_gens s !! g' = Some G -> exists G', dp_gens (on_gen g f s) !! g' = Some G' /\ same_conn G G') as Fwd.
  { intros g' G E. rewrite lookup_on_gen, E. destruct (decide (g = g')) as [<-|]; [|by exists G]. eexists; split; [done|]. by apply Same. }
  assert (forall g' G', dp_gens (on_gen g f s) !! g' = Some G' -> exists G, dp_gens s !! g' = Some G /\ same_conn G G') as Bwd.
  { intros g' G'. rewrite lookup_on_gen. destruct (decide (g = g')) as [<-|]; [|by exists G'].
    destruct (dp_gens s !! g) as [G|] eqn:E; [|done]. intros [= <-]. exists G. split; [done|]. by apply Same. }
  split.
  - intros g'. rewrite lookup_on_gen. change (dp_next _) with (dp_next s). rewrite <- (rg_dom s R). destruct (decide _) as [<-|]; [|done].
    by rewrite fmap_is_Some.
  - intros rid ad E. destruct (rg_active s R rid ad E) as (G & EG & Er & Ec). destruct (Fwd _ _ EG) as (G' & EG' & S1 & S2 & S3).
    exists G'. by rewrite S1, S3.
  - intros g' G' E C. destruct (Bwd _ _ E) as (G & EG & S1 & S2 & S3). rewrite S1, S3 in *. by apply (rg_live s R).
  - intros p rid g' E. destruct (rg_route s R p rid g' E) as (G & EG & Er & Ep). rewrite lookup_on_gen, EG.
    destruct (decide (g = g')) as [<-|]; [|by exists G]. exists (f G). destruct (Same _ EG) as (S1 & _). rewrite S1. eauto.
  - intros rid g' E. destruct (rg_prev s R rid g' E) as (G & EG & Er). destruct (Fwd _ _ EG) as (G' & EG' & S1 & _).
    exists G'. by rewrite S1.
  - intros g' G' p E Eg. destruct (Bwd _ _ E) as (G & EG & S1 & S2 & _). rewrite S2 in Eg.
    destruct (rg_gate s R g' G p EG Eg) as (Lt & P & EP & Er). split; [done|]. destruct (Fwd _ _ EP) as (P' & EP' & T1 & _).
    exists P'. by rewrite T1, S1.
Qed.
Lemma registry_reader g r s : registry s -> registry (on_gen g (with_reader r) s).
Proof. by apply registry_gen. Qed.
Lemma registry_writer g w c t s : registry s -> registry (on_gen g (with_writer w c t) s).
Proof. by apply registry_gen. Qed.
Lemma registry_ch g c s : registry s -> registry (on_gen g (with_ch c) s).
Proof. by apply registry_gen. Qed.
Lemma registry_didCopy g b s : registry s -> registry (on_gen g (with_didCopy b) s).
Proof. by apply registry_gen. Qed.
Lemma registry_pkt g src d s : registry s -> registry (on_gen g (with_pkt src d) s).
Proof. by apply registry_gen. Qed.
Lemma registry_waiter g w s : registry s -> registry (on_gen g (with_waiter w) s).
Proof. by apply registry_gen. Qed.
Lemma registry_activeCalls n s : registry s -> registry (set_activeCalls n s).
Proof. by apply registry_frame. Qed.
#[local] Hint Resolve registry_reader registry_writer registry_ch registry_didCopy registry_pkt registry_waiter registry_activeCalls : derp.

Lemma registry_routes m s : m ⊆ dp_route s -> registry s -> registry (set_route m s).
Proof.
  intros Sub R. split; try apply R. intros p rid g E. apply (rg_route s R p rid g). by apply (lookup_weaken m).
Qed.
Lemma registry_removeRoute p rid g s : registry s -> registry (removeDerpPeerRoute p rid g s).
Proof.
  intros R. unfold removeDerpPeerRoute. destruct (dp_route s !! p); [|done]. destruct (bool_decide _); [|done].
  apply registry_routes; [apply delete_subseteq|done].
Qed.
Lemma registry_addRoute p g G s :
  dp_gens s !! g = Some G -> p ∈ dg_peerPresent G -> registry s -> registry (addDerpPeerRoute p (dg_region G) g s).
Proof.
  intros EG Ep R. split; try apply R. intros q rid g'. cbn. destruct (decide (q = p)) as [->|Ne].
  - rewrite lookup_insert_eq. intros [= <- <-]. eauto.
  - rewrite lookup_insert_ne by done. apply (rg_route s R).
Qed.
#[local] Hint Resolve registry_removeRoute : derp.

Lemma closeDerp_active rid s : activeMap (closeDerpLocked rid s) = delete rid (activeMap s).
Proof.
  unfold closeDerpLocked. destruct (activeMap s !! rid) eqn:E; [apply default_delete|]. by rewrite delete_id.
Qed.
Lemma registry_close rid s : registry s -> registry (closeDerpLocked rid s).
Proof.
  intros R. pose proof (closeDerp_active rid s) as A. unfold closeDerpLocked in *.
  destruct (activeMap s !! rid) as [ad|] eqn:E; [|done].
  destruct (rg_active s R rid ad E) as (G & EG & Er & Ec).
  assert (forall g, dp_gens (on_gen (ad_c ad) cancel s) !! g
    = if decide (ad_c ad = g) then cancel <$> dp_gens s !! g else dp_gens s !! g) as L by apply lookup_on_gen.
  set (s' := set_active _ _) in *. change (dp_gens (on_gen (ad_c ad) cancel s)) with (dp_gens s') in L.
  assert (forall g G, dp_gens s !! g = Some G -> exists G', dp_gens s' !! g = Some G' /\ dg_region G' = dg_region G
    /\ dg_peerPresent G' = dg_peerPresent G) as Fwd.
  { intros g Gg Eg. rewrite L, Eg. destruct (decide _); [|by exists Gg]. by eexists. }
  assert (forall g G', dp_gens s' !! g = Some G' -> exists G, dp_gens s !! g = Some G /\ dg_region G' = dg_region G
    /\ dg_gate G' = dg_gate G /\ (dg_cancelled G' = false -> ad_c ad <> g /\ dg_cancelled G = false)) as Bwd.
  { intros g G'. rewrite L. destruct (decide _) as [<-|]; [|by exists G']. destruct (dp_gens s !! _) as [G0|]; [|done].
    intros [= <-]. by exists G0. }
  split.
  - intros g. rewrite L. change (dp_next s') with (dp_next s). rewrite <- (rg_dom s R). destruct (decide _); [|done]. by rewrite fmap_is_Some.
  - intros r a. rewrite A. intros [Ne Ea]%lookup_delete_Some. destruct (rg_active s R r a Ea) as (G1 & E1 & R1 & C1).
    exists G1. rewrite L. rewrite decide_False; [done|]. intros X. rewrite X in EG. simplify_eq.
  - intros g G' E' C. destruct (Bwd _ _ E') as (G0 & E0 & -> & _ & C0). destruct (C0 C) as [Ne C1].
    destruct (rg_live s R g G0 E0 C1) as (a & Ea & Eg). exists a. split; [|done]. rewrite A. rewrite lookup_delete_ne; [done|].
    intros X. rewrite <- X in Ea. by simplify_eq.
  - intros p r g Ep. destruct (rg_route s R p r g Ep) as (G0 & E0 & R0 & P0). destruct (Fwd _ _ E0) as (G' & E' & R' & P').
    exists G'. by rewrite R', P'.
  - intros r g Ep. destruct (rg_prev s R r g Ep) as (G0 & E0 & R0). destruct (Fwd _ _ E0) as (G' & E' & R' & P').
    exists G'. by rewrite R'.
  - intros g G' p E' Eg. destruct (Bwd _ _ E') as (G0 & E0 & R0 & Eg0 & _). rewrite Eg0 in Eg.
    destruct (rg_gate s R g G0 p E0 Eg) as (Lt & P & EP & Rp). split; [done|]. destruct (Fwd _ _ EP) as (P' & EP' & RP' & _).
    exists P'. split; [done|congruence].
Qed.
#[local] Hint Resolve registry_close : derp.
Lemma touch_active now rid s :
  activeMap (touch now rid s) = alter (fun ad => MkActive (ad_c ad) now (ad_createTime ad)) rid (activeMap s).
Proof. cbn. destruct (dp_active s); [done|]. cbn. symmetry. by apply map_eq; intros ?; rewrite lookup_alter, !lookup_empty; case_decide. Qed.
Lemma touch_lookup now rid s r ad' :
  activeMap (touch now rid s) !! r = Some ad' -> exists ad, activeMap s !! r = Some ad /\ ad_c ad = ad_c ad'.
Proof.
  rewrite touch_active, lookup_alter. destruct (decide (rid = r)) as [<-|]; [|by exists ad'].
  destruct (activeMap s !! rid); [|done]. intros [= <-]. by eexists.
Qed.
Lemma touch_lookup_back now rid s r ad :
  activeMap s !! r = Some ad -> exists ad', activeMap (touch now rid s) !! r = Some ad' /\ ad_c ad' = ad_c ad.
Proof.
  rewrite touch_active, lookup_alter. intros E. destruct (decide (rid = r)) as [<-|]; [|by exists ad]. rewrite E. by eexists.
Qed.
Lemma registry_touch now rid s : registry s -> registry (touch now rid s).
Proof.
  intros R. split; try apply R.
  - intros r ad' (ad & E & <-)%touch_lookup. by apply (rg_active s R).
  - intros g G E C. destruct (rg_live s R g G E C) as (ad & Ea & <-). by apply touch_lookup_back.
Qed.
Lemma registry_setLast p rid s : registry s -> registry (setPeerLastDerpLocked p rid s).
Proof. intros R. unfold setPeerLastDerpLocked. destruct (bool_decide _); [done|]. destruct (_ =? _); [done|]. by apply (registry_frame s). Qed.
#[local] Hint Resolve registry_touch registry_setLast : derp.

(** A new connection *)
Definition newGate (rid : Z) (s : derpState) : startGate :=
  match dp_active s with
  | None => GateStarted
  | Some _ => match dp_prev s !! rid with Some g => GateGen g | None => GateOpen end
  end.
Definition freshGen (rid : Z) (gate : startGate) : derpGen := MkGen rid gate false RWait WWait [] [] ∅ zeroNode zeroNode [] false AWait.
Lemma newDerpConn_spec now rid p s :
  let s' := (newDerpConn now rid p s).1 in
  (newDerpConn now rid p s).2 = dp_next s
  /\ dp_gens s' = <[dp_next s := freshGen rid (newGate rid s)]> (dp_gens s)
  /\ dp_next s' = S (dp_next s)
  /\ activeMap s' = <[rid := MkActive (dp_next s) now now]> (activeMap s)
  /\ dp_route s' = dp_route s
  /\ dp_prev s' = <[rid := dp_next s]> (match dp_active s with None => ∅ | Some _ => dp_prev s end)
  /\ dp_closed s' = dp_closed s /\ dp_started s' = dp_started s /\ dp_recvCh s' = dp_recvCh s
  /\ dp_map s' = dp_map s /\ dp_key s' = dp_key s /\ dp_up s' = dp_up s /\ dp_myDerp s' = dp_myDerp s
  /\ dp_connects s' = dp_connects s /\ dp_checked s' = dp_checked s /\ dp_armed s' = true.
Proof.
  unfold newDerpConn, scheduleCleanStaleDerpLocked, setPeerLastDerpLocked, newGate. cbn.
  destruct (dp_active s); destruct (bool_decide _); try destruct (_ =? _); cbn; destruct (dp_armed s) eqn:E; cbn; rewrite ?E; done.
Qed.
Lemma registry_new now rid p s : activeMap s !! rid = None -> registry s -> registry (newDerpConn now rid p s).1.
Proof.
  intros Free R. pose proof (newDerpConn_spec now rid p s) as Sp. cbv zeta in Sp.
  set (s' := (newDerpConn now rid p s).1) in *. clearbody s'. destruct Sp as (_ & Eg & En & Ea & Er & Ep & Ec & _).
  assert (dp_gens s !! dp_next s = None) as Fresh.
  { destruct (dp_gens s !! dp_next s) eqn:E; [|done]. assert (dp_next s < dp_next s)%nat by (apply (rg_dom s R); eauto). lia. }
  assert (forall g G, dp_gens s !! g = Some G -> dp_gens s' !! g = Some G) as Fwd.
  { intros g G E. rewrite Eg, lookup_insert_ne; [done|]. intros <-. congruence. }
  assert (forall r g, dp_prev s !! r = Some g -> exists G, dp_gens s' !! g = Some G /\ dg_region G = r) as Prev.
  { intros r g E. destruct (rg_prev s R r g E) as (G & EG & Hr). eauto. }
  split.
  - intros g. rewrite Eg, En, lookup_insert_is_Some, (rg_dom s R). destruct (decide (dp_next s = g)); lia.
  - intros r ad. rewrite Ea, lookup_insert_Some. intros [[<- <-]|[Ne E]].
    + cbn. rewrite Eg, lookup_insert_eq. eexists. split; [done|]. cbn. auto.
    + destruct (rg_active s R r ad E) as (G & EG & H1 & H2). exists G. rewrite Ec. eauto.
  - intros g G. rewrite Eg, Ea, lookup_insert_Some. intros [[<- <-]|[Ne E]] C.
    + cbn. rewrite lookup_insert_eq. by eexists.
    + destruct (rg_live s R g G E C) as (ad & E1 & E2). exists ad. split; [|done]. rewrite lookup_insert_ne; [done|]. intros ->. congruence.
  - intros q r g. rewrite Er. intros E. destruct (rg_route s R q r g E) as (G & EG & H1 & H2). eauto.
  - intros r g. rewrite Ep, lookup_insert_Some. intros [[<- <-]|[Ne E]].
    + rewrite Eg, lookup_insert_eq. by eexists.
    + apply Prev. by destruct (dp_active s).
  - intros g G q. rewrite Eg at 1. rewrite lookup_insert_Some. intros [[<- <-]|[Ne E]] Gt.
    + cbn in Gt. unfold newGate in Gt. destruct (dp_active s); [|done]. destruct (dp_prev s !! rid) as [g0|] eqn:E0; [|done].
      simplify_eq. destruct (rg_prev s R rid q E0) as (G & EG & Hr). split; [|by eauto]. apply (rg_dom s R). by eexists.
    + destruct (rg_gate s R g G q E Gt) as (Lt & P & EP & Hr). eauto.
Qed.
#[local] Hint Resolve registry_new : derp.

(** The write channel asked for: none, that of an open connection, or that of a new one *)
Definition usable (rid : Z) (s : derpState) : Prop :=
  dp_closed s = false /\ dp_key s <> 0 /\ exists m, dp_map s = Some m /\ is_Some (Regions m !! rid).
Lemma chan_cases now rid p s :
  match derpWriteChanLocked now rid p s with
  | (s', None) => s' = s /\ ~ usable rid s
  | (s', Some g) => usable rid s
      /\ ((exists r ad, activeMap s !! r = Some ad /\ g = ad_c ad /\ s' = touch now r (setPeerLastDerpLocked p r s)
           /\ (r = rid \/ activeMap s !! rid = None /\ p <> zeroNode /\ dp_route s !! p = Some (r, g)))
          \/ activeMap s !! rid = None /\ s' = (newDerpConn now rid p s).1 /\ g = dp_next s
             /\ (p <> zeroNode -> forall r ad, activeMap s !! r = Some ad -> dp_route s !! p <> Some (r, ad_c ad)))
  end.
Proof.
  unfold derpWriteChanLocked, wantDerpLocked, usable.
  destruct (dp_map s) as [m|]; [|split; [done|naive_solver]]. cbn [negb orb].
  destruct (dp_closed s); [split; [done|naive_solver]|].
  destruct (bool_decide_reflect (is_Some (Some m ≫= fun m => Regions m !! rid))) as [Hm|Hm]; cbn [negb]; [|split; [done|naive_solver]].
  destruct (Z.eqb_spec (dp_key s) 0); [split; [done|naive_solver]|].
  assert (false = false /\ dp_key s <> 0 /\ exists m0, Some m = Some m0 /\ is_Some (Regions m0 !! rid)) as U by naive_solver.
  destruct (activeMap s !! rid) as [ad|] eqn:E.
  { split; [done|]. left. exists rid, ad. split; [done|]. split; [done|]. split; [|by left].
    unfold setPeerLastDerpLocked, touch. destruct (bool_decide _); [done|]. cbn. by destruct (_ =? _). }
  destruct (bool_decide_reflect (p = zeroNode)) as [->|Np]; cbn [mbind option_bind].
  { destruct (newDerpConn now rid zeroNode s) as [s' g] eqn:N. pose proof (newDerpConn_spec now rid zeroNode s) as [X _].
    rewrite N in X. cbn in X. split; [done|]. by right. }
  destruct (dp_route s !! p) as [[r c]|] eqn:Er; cbn [mbind option_bind fst snd];
    [destruct (activeMap s !! r) as [ad|] eqn:Ea; cbn [mbind option_bind];
       [destruct (Nat.eqb_spec (ad_c ad) c) as [<-|Nc]|]|].
  { split; [done|]. left. exists r, ad. auto 10. }
  all: destruct (newDerpConn now rid p s) as [s' g] eqn:N; pose proof (newDerpConn_spec now rid p s) as [X _];
    rewrite N in X; cbn in X; split; [done|]; right; repeat split; auto; intros _ r' ad' Ea'; congruence.
Qed.
(** What opening and using connections keep is kept by asking for one. *)
Lemma chan_keeps (P : derpState -> Prop) now rid p s :
  (forall s r, P s -> P (setPeerLastDerpLocked p r s)) -> (forall s r, P s -> P (touch now r s)) ->
  (activeMap s !! rid = None -> usable rid s -> P s -> P (newDerpConn now rid p s).1) ->
  P s -> P (derpWriteChanLocked now rid p s).1.
Proof.
  intros HL HT HN Ps. pose proof (chan_cases now rid p s) as C. destruct (derpWriteChanLocked now rid p s) as [s' [g|]]; cbn.
  - destruct C as (U & [(r & ad & _ & _ & -> & _)|(E & -> & _)]); auto.
  - by destruct C as [-> _].
Qed.
Lemma registry_chan now rid p s : registry s -> registry (derpWriteChanLocked now rid p s).1.
Proof. apply chan_keeps; auto with derp. Qed.
#[local] Hint Resolve registry_chan : derp.

(** ** What the operations on the configuration keep
    Besides the configuration they close connections and drop routes. *)
Definition core (s : derpState) :=
  (dp_gens s, dp_next s, dp_active s, dp_route s, dp_prev s, dp_started s, dp_recvCh s, dp_closed s).
Record keeper (P : derpState -> Prop) : Prop := {
  kp_frame s s' : core s' = core s -> P s -> P s';
  kp_close rid s : P s -> P (closeDerpLocked rid s);
  kp_routes m s : m ⊆ dp_route s -> P s -> P (set_route m s);
  kp_cancel s : P s -> P (set_gens (cancel <$> dp_gens s) (set_closed true s))
}.
Definition isConfig (e : derpEvent) : bool :=
  match e with
  | DvDERPMap _ | DvPrivateKey _ | DvNetworkUp _ | DvHomeless _ | DvPeers _ | DvNearest _ | DvClean _ | DvBreak | DvRebind _
  | DvPingFailed _ | DvClose | DvKnobs _ | DvCheck _ | DvSendCheck _ => true
  | _ => false
  end.
Section Keeper.
Context `{MapRange} (P : derpState -> Prop) (K : keeper P).

Lemma closeAll_keeps s : P s -> P (closeAllDerpLocked s).
Proof. intros Ps. apply (foldl_inv P); [|done]. intros. by apply (kp_close P K). Qed.
Lemma connect_keeps rid s : P s -> P (goDerpConnect rid s).
Proof. intros Ps. unfold goDerpConnect. destruct (rid =? 0); [done|]. by apply (kp_frame P K s). Qed.
Lemma closeOrReconnect_keeps rid s : P s -> P (closeOrReconnectDERPLocked rid s).
Proof.
  intros Ps. unfold closeOrReconnectDERPLocked. destruct (_ && _); try apply connect_keeps; by apply (kp_close P K).
Qed.
Lemma nearest_keeps n s : P s -> P (setNearestDERP n s).1.
Proof.
  intros Ps. unfold setNearestDERP. repeat (case_match; cbn; [by try apply (kp_frame P K s)|]).
  apply connect_keeps. by apply (kp_frame P K s).
Qed.
Lemma config_keeps e s s' : isConfig e = true -> derpStep e s = Some s' -> P s -> P s'.
Proof.
  intros C E Ps. destruct e; try discriminate C; cbn in E; try injection E as <-.
  - destruct (take_one _ _); [|done]. injection E as <-. destruct (networkDown s); by apply (kp_frame P K s).
  - destruct (networkDown s); [done|by apply (kp_frame P K s)].
  - unfold SetDERPMap. destruct (bool_decide _); [done|]. destruct dm as [m|].
    + apply (kp_frame P K (foldl (fun s (x : Z * Z) => if bool_decide (Regions m !! x.1 = Some x.2) then s
         else closeDerpLocked x.1 (if x.1 =? dp_myDerp s then set_myDerp 0 s else s)) (set_map (Some m) s)
         (match dp_map s with Some o => map_range (Regions o) | None => [] end))); [done|].
      apply (foldl_inv P); [|by apply (kp_frame P K s)]. intros a [rid d] _ Pa. cbn. destruct (bool_decide _); [done|].
      apply (kp_close P K). destruct (_ =? _); [by apply (kp_frame P K a)|done].
    + apply closeAll_keeps. by apply (kp_frame P K s).
  - unfold SetPrivateKey. destruct (_ =? _); [done|]. cbv zeta.
    assert (P (if dp_key s =? 0 then set_restuns (S (dp_restuns (set_key k s))) (set_key k s)
               else closeAllDerpLocked (set_key k s))) as X.
    { destruct (_ =? _); [by apply (kp_frame P K s)|]. apply closeAll_keeps. by apply (kp_frame P K s). }
    destruct (_ && _); [by apply connect_keeps|done].
  - unfold SetNetworkUp. destruct (Bool.eqb _ _); [done|]. destruct up; [apply connect_keeps|apply closeAll_keeps];
      by apply (kp_frame P K s).
  - by apply (kp_frame P K s).
  - unfold SetHomeless. destruct (_ && _); [apply (kp_close P K)|]; by apply (kp_frame P K s).
  - unfold UpdatePeers. cbv zeta.
    set (s1 := set_route _ (set_peerSet p s)).
    assert (P s1) as P1. { apply (kp_routes P K); [apply map_filter_subseteq|]. by apply (kp_frame P K s). }
    destruct (_ && _); by apply (kp_frame P K s1).
  - by apply nearest_keeps.
  - destruct (dp_armed s); [|done]. injection E as <-. unfold cleanStaleDerp. destruct (dp_closed s); [done|]. cbv zeta.
    set (f := fun (acc : derpState * bool) (x : Z * activeDerp) => _).
    assert (P (foldl f (set_armed false s, false) (map_range (activeMap (set_armed false s)))).1) as X.
    { apply (foldl_inv (fun a => P a.1)); [|by apply (kp_frame P K s)]. intros [a b] x _ Pa. cbn in *. unfold f.
      destruct (_ =? _); [done|]. destruct (_ <? _); [by apply (kp_close P K)|done]. }
    destruct (foldl f _ _) as [s1 open]. cbn in X. destruct open; [|done]. unfold scheduleCleanStaleDerpLocked.
    destruct (dp_armed s1); [done|]. by apply (kp_frame P K s1).
  - unfold DebugBreakDERPConns. destruct (_ =? _)%nat; [done|]. by apply connect_keeps, closeAll_keeps.
  - apply (foldl_inv P); [|done]. intros a x _ Pa. destruct (localOK _) as [[]|]; [done|by apply closeOrReconnect_keeps..].
  - by apply closeOrReconnect_keeps.
  - unfold Close. destruct (dp_closed s); [done|]. apply closeAll_keeps. exact (kp_cancel P K s Ps).
Qed.
End Keeper.

Lemma registry_keeper : keeper registry.
Proof.
  split.
  - intros s s' E. unfold core in E. simplify_eq. by apply registry_frame.
  - apply registry_close.
  - apply registry_routes.
  - intros s R. split; try apply R; cbn.
    + intros g. rewrite lookup_fmap, fmap_is_Some. apply (rg_dom s R).
    + intros rid ad E. destruct (rg_active s R rid ad E) as (G & EG & Er & _). rewrite lookup_fmap, EG. eexists. split; [done|]. auto.
    + intros g G. rewrite lookup_fmap, fmap_Some. intros (G0 & _ & ->). done.
    + intros p rid g E. destruct (rg_route s R p rid g E) as (G & EG & Er & Ep). rewrite lookup_fmap, EG. by eexists.
    + intros rid g E. destruct (rg_prev s R rid g E) as (G & EG & Er). rewrite lookup_fmap, EG. by eexists.
    + intros g G p. rewrite lookup_fmap, fmap_Some. intros (G0 & E0 & ->) Gt. destruct (rg_gate s R g G0 p E0 Gt) as (Lt & Q & EQ & Er).
      split; [done|]. rewrite lookup_fmap, EQ. by eexists.
Qed.

(** ** The goroutines *)
Lemma removeRoute_eq p rid g s : exists m, removeDerpPeerRoute p rid g s = set_route m s
  /\ forall q r, m !! q = Some r <-> dp_route s !! q = Some r /\ ~ (q = p /\ r = (rid, g)).
Proof.
  assert (s = set_route (dp_route s) s) as Id by by destruct s.
  unfold removeDerpPeerRoute. destruct (dp_route s !! p) as [r|] eqn:E; [destruct (bool_decide_reflect (r = (rid, g))) as [->|Ne]|].
  - exists (delete p (dp_route s)). split; [done|]. intros q r. rewrite lookup_delete_Some. naive_solver.
  - exists (dp_route s). split; [done|]. naive_solver.
  - exists (dp_route s). split; [done|]. naive_solver.
Qed.
Lemma forget_eq rid g l s : exists m, foldl (fun s peer => removeDerpPeerRoute peer rid g s) s l = set_route m s
  /\ forall q r, m !! q = Some r <-> dp_route s !! q = Some r /\ ~ (q ∈ l /\ r = (rid, g)).
Proof.
  revert s. induction l as [|p l IH]; intros s; cbn [foldl].
  - exists (dp_route s). split; [by destruct s|]. intros q r. rewrite elem_of_nil. naive_solver.
  - destruct (removeRoute_eq p rid g s) as (m & -> & Em). destruct (IH (set_route m s)) as (m' & -> & Em'). exists m'. split; [done|].
    intros q r. rewrite Em'. cbn. rewrite Em, elem_of_cons. naive_solver.
Qed.
(** After an error no route leads through the connection. *)
Lemma registry_err g G c s : dp_gens s !! g = Some G -> registry s -> registry (readerErr g G c s).
Proof.
  intros EG R. unfold readerErr. destruct (forget_eq (dg_region G) g (elements (dg_peerPresent G)) s) as (m & -> & Em).
  assert (registry (on_gen g (with_present ∅ (dg_lastPacketSrc G)) (set_route m s))) as R'.
  { apply registry_gen; [done| |].
    - intros G' p rid EG'. cbn in *. simplify_eq. intros [Er Nr]%Em Hp. exfalso. apply Nr. split; [by apply elem_of_elements|].
      destruct (rg_route s R p rid g Er) as (G' & ? & <- & _). by simplify_eq.
    - apply registry_routes; [|done]. apply map_subseteq_spec. intros p r Hp. by apply Em. }
  destruct (_ || _); [by apply registry_reader|]. apply registry_reader. by eapply registry_frame; cycle -1.
Qed.
Lemma registry_msg g G m s : dp_gens s !! g = Some G -> registry s -> registry (readerMsg g G m s).
Proof.
  intros EG R. destruct m as [src d|p|]; cbn [readerMsg]; [|by apply registry_removeRoute|done].
  apply registry_reader. destruct (bool_decide_reflect (src = dg_lastPacketSrc G)) as [|_]; [by apply registry_pkt|].
  set (s1 := on_gen g (with_present _ _) _).
  assert (registry s1) as R1.
  { apply registry_gen; [done| |by apply registry_pkt]. intros G' p rid. rewrite lookup_on_gen, decide_True, EG by done.
    intros [= <-] _ Hp. cbn in *. set_solver. }
  destruct (bool_decide_reflect (src ∈ dg_peerPresent G)); [done|].
  set (G1 := with_present ({[src]} ∪ dg_peerPresent G) src (with_pkt src d G)).
  apply (registry_addRoute src g G1); [|cbn; set_solver|done].
  unfold s1. rewrite !lookup_on_gen, !decide_True, EG by done. done.
Qed.
Lemma registry_put others donec wr r : registry r.1 -> registry (putDerp others donec wr r).1.
Proof. destruct r as [s [g|]]; [|done]. unfold putDerp. destruct (enqueue _ _ _ _ _ _). apply registry_ch. Qed.
Lemma registry_recvCh ch s : registry s -> registry (set_recvCh ch s).
Proof. by apply registry_frame. Qed.
#[local] Hint Resolve registry_recvCh registry_msg registry_err : derp.

Lemma registry_step `{MapRange} e s s' : derpStep e s = Some s' -> registry s -> registry s'.
Proof.
  intros E R. destruct (isConfig e) eqn:C; [by apply (config_keeps registry registry_keeper e s)|].
  destruct e; try discriminate C; cbn in E;
    try unfold writeNext in E; try (apply at_gen_Some in E as (G & EG & _ & ->); solve [auto with derp]).
  - destruct (take_one _ _); [|done]. injection E as <-. apply registry_chan. by apply (registry_frame s).
  - destruct (dp_starter s); [|done]. injection E as <-. by apply (registry_frame s).
  - destruct (take_one _ _) as [l|]; [|done]. injection E as <-. apply registry_put, registry_chan. by apply (registry_frame s).
  - destruct (dp_recvCh s) as [|[dm|] ch]; [done|..]; injection E as <-; [|by apply registry_recvCh].
    destruct (dp_bindClosed _); [by apply registry_recvCh|]. by apply registry_didCopy, registry_recvCh.
  - destruct (dp_bindClosed s); injection E as <-; [done|]. by apply (registry_frame s).
  - destruct (_ && _); [|done]. injection E as <-. by apply (registry_frame s).
  - destruct (_ && _); [|done]. injection E as <-. by apply (registry_frame s).
Qed.
Lemma registry_new_derp : registry newDerp.
Proof. split; cbn; try done. intros g. rewrite lookup_empty. split; [by intros []|lia]. Qed.

(** ** Packets from the server to the receive function
    [arrived]: what an event brings in on a connection; [handed]: what it copies out, with the sender
    named and the length of the buffer *)
Definition arrived (g : nat) (e : derpEvent) : list (NodePublic * bytes) :=
  match e with DvMsg g' (MPacket src d) => if decide (g' = g) then [(src, d)] else [] | _ => [] end.
Definition handed (g : nat) (e : derpEvent) (s : derpState) : list (NodePublic * nat * bytes) :=
  match e, dp_recvCh s with
  | DvReceive n, Some dm :: ch =>
      if dp_bindClosed s then [] else if decide (rr_client dm = g) then [(rr_src dm, n, (copyBuf dm n (set_recvCh ch s)).2)] else []
  | _, _ => []
  end.
Definition arrivals (g : nat) (es : list derpEvent) : list (NodePublic * bytes) := es ≫= arrived g.
Fixpoint handedOver `{MapRange} (g : nat) (es : list derpEvent) (s : derpState) : list (NodePublic * nat * bytes) :=
  match es with
  | [] => []
  | e :: es => handed g e s ++ match derpStep e s with Some s' => handedOver g es s' | None => [] end
  end.
Definition copyOf (o : NodePublic * nat * bytes) (a : NodePublic * bytes) : Prop := o.1.1 = a.1 /\ o.2 = take o.1.2 a.2.

Notation log A := (nat -> list A).
Definition synced (ar : list (NodePublic * bytes)) (ou : list (NodePublic * nat * bytes)) : Prop := Forall2 copyOf ou ar.
Definition waiting (ar : list (NodePublic * bytes)) (ou : list (NodePublic * nat * bytes)) (G : derpGen) : Prop :=
  exists ar0, ar = ar0 ++ [(dg_src G, dg_pkt G)] /\ synced ar0 ou.
Definition gen_log ar ou (G : derpGen) : Prop :=
  match dg_reader G with
  | RWait | RRecv | RBackOff => synced ar ou /\ dg_didCopy G = false
  | RSend => waiting ar ou G /\ dg_didCopy G = false
  | RCopy => if dg_didCopy G then synced ar ou else waiting ar ou G
  | RDone => synced ar ou \/ waiting ar ou G
  end.
Definition item_ok ar ou (dm : derpReadResult) (G : derpGen) : Prop :=
  rr_src dm = dg_src G /\ rr_n dm = length (dg_pkt G) /\ rr_region dm = dg_region G /\ waiting ar ou G
  /\ (dg_reader G = RCopy /\ dg_didCopy G = false \/ dg_reader G = RDone).
(** Only a reader that waits for the copy, or has returned, has a result in the channel. *)
Ltac no_item := intros ? _ _ (_ & _ & _ & _ & [[? ?]|?]); congruence.
Definition present_ok (ar : list (NodePublic * bytes)) (G : derpGen) : Prop :=
  forall p, p ∈ dg_peerPresent G -> exists d, (p, d) ∈ ar.
Record logged (ar : log (NodePublic * bytes)) (ou : log (NodePublic * nat * bytes)) (s : derpState) : Prop := {
  lg_gen g G : dp_gens s !! g = Some G -> gen_log (ar g) (ou g) G /\ present_ok (ar g) G;
  lg_item dm : Some dm ∈ dp_recvCh s -> exists G, dp_gens s !! rr_client dm = Some G /\ item_ok (ar (rr_client dm)) (ou (rr_client dm)) dm G;
  lg_ch : (length (dp_recvCh s) <= 1)%nat;
  lg_fresh g : dp_gens s !! g = None -> ar g = [] /\ ou g = []
}.
Lemma logged_frame ar ou s s' :
  dp_gens s' = dp_gens s -> dp_recvCh s' = dp_recvCh s -> logged ar ou s -> logged ar ou s'.
Proof. intros E1 E2 L. split; rewrite ?E1, ?E2; apply L. Qed.
Lemma logged_gen ar ou ar' ou' g f G s :
  dp_gens s !! g = Some G -> (forall g', g' <> g -> ar' g' = ar g' /\ ou' g' = ou g') ->
  gen_log (ar' g) (ou' g) (f G) -> present_ok (ar' g) (f G) ->
  (forall dm, Some dm ∈ dp_recvCh s -> rr_client dm = g -> item_ok (ar g) (ou g) dm G -> item_ok (ar' g) (ou' g) dm (f G)) ->
  logged ar ou s -> logged ar' ou' (on_gen g f s).
Proof.
  intros EG Eq Hl Hp Hi L. split.
  - intros g' G'. rewrite lookup_on_gen. destruct (decide (g = g')) as [<-|Ne].
    + rewrite EG. by intros [= <-].
    + destruct (Eq g') as [-> ->]; [done|]. apply (lg_gen _ _ _ L).
  - intros dm Hd. destruct (lg_item _ _ _ L dm Hd) as (G' & EG' & Ok). rewrite lookup_on_gen.
    destruct (decide (g = rr_client dm)) as [->|Ne]; [|destruct (Eq (rr_client dm)) as [-> ->]; [done|by exists G']].
    simplify_eq. rewrite EG. exists (f G). split; [done|]. by apply Hi.
  - apply L.
  - intros g'. rewrite lookup_on_gen. destruct (decide (g = g')) as [<-|Ne]; [by rewrite EG|].
    destruct (Eq g') as [-> ->]; [done|]. apply (lg_fresh _ _ _ L).
Qed.
(** A change of a generation that the packets do not depend on *)
Lemma logged_quiet ar ou g f s :
  (forall G, dp_gens s !! g = Some G -> dg_reader (f G) = dg_reader G /\ dg_didCopy (f G) = dg_didCopy G /\ dg_src (f G) = dg_src G
     /\ dg_pkt (f G) = dg_pkt G /\ dg_region (f G) = dg_region G /\ dg_peerPresent (f G) ⊆ dg_peerPresent G) ->
  logged ar ou s -> logged ar ou (on_gen g f s).
Proof.
  intros Hf L. destruct (dp_gens s !! g) as [G|] eqn:EG.
  - destruct (Hf G eq_refl) as (E1 & E2 & E3 & E4 & E5 & E6). destruct (lg_gen _ _ _ L g G EG) as [Lg Lp].
    apply (logged_gen ar ou ar ou g f G); auto.
    + unfold gen_log, waiting in *. by rewrite E1, E2, E3, E4.
    + intros p Hp. apply Lp. set_solver.
    + intros dm _ _. unfold item_ok, waiting. by rewrite E1, E2, E3, E4, E5.
  - apply (logged_frame ar ou s); [|done..]. cbn. apply map_eq. intros g'. rewrite lookup_alter. case_decide; [|done]. subst. by rewrite EG.
Qed.
Lemma logged_close ar ou rid s : logged ar ou s -> logged ar ou (closeDerpLocked rid s).
Proof.
  intros L. unfold closeDerpLocked. destruct (_ !! rid); [|done]. apply (logged_frame ar ou (on_gen (ad_c a) cancel s)); [done..|].
  by apply logged_quiet.
Qed.
Lemma logged_keeper ar ou : keeper (logged ar ou).
Proof.
  split.
  - intros s s' E. unfold core in E. simplify_eq. by apply logged_frame.
  - apply logged_close.
  - intros m s _. by apply logged_frame.
  - intros s L. split; cbn.
    + intros g G. rewrite lookup_fmap, fmap_Some. intros (G0 & E0 & ->). exact (lg_gen _ _ _ L g G0 E0).
    + intros dm Hd. destruct (lg_item _ _ _ L dm Hd) as (G & EG & Ok). rewrite lookup_fmap, EG. exists (cancel G). split; [done|exact Ok].
    + apply L.
    + intros g. rewrite lookup_fmap, fmap_None. apply (lg_fresh _ _ _ L).
Qed.
Lemma logged_ext ar ou ar' ou' s : (forall g, ar' g = ar g /\ ou' g = ou g) -> logged ar ou s -> logged ar' ou' s.
Proof.
  intros Eq L. split.
  - intros g G EG. destruct (Eq g) as [-> ->]. by apply (lg_gen _ _ _ L).
  - intros dm Hd. destruct (Eq (rr_client dm)) as [-> ->]. by apply (lg_item _ _ _ L).
  - apply L.
  - intros g EG. destruct (Eq g) as [-> ->]. by apply (lg_fresh _ _ _ L).
Qed.
(** A reader that moves on without a packet *)
Lemma logged_move ar ou g f G s :
  dp_gens s !! g = Some G -> (gen_log (ar g) (ou g) G -> gen_log (ar g) (ou g) (f G)) -> dg_peerPresent (f G) ⊆ dg_peerPresent G ->
  (forall dm, Some dm ∈ dp_recvCh s -> rr_client dm = g -> item_ok (ar g) (ou g) dm G -> item_ok (ar g) (ou g) dm (f G)) ->
  logged ar ou s -> logged ar ou (on_gen g f s).
Proof.
  intros EG Hg Hp Hi L. destruct (lg_gen _ _ _ L g G EG) as [Lg Lp].
  apply (logged_gen ar ou ar ou g f G); auto. intros p Hin. apply Lp. set_solver.
Qed.
Lemma logged_chan ar ou now rid p s : registry s -> logged ar ou s -> logged ar ou (derpWriteChanLocked now rid p s).1.
Proof.
  intros R. apply chan_keeps.
  - intros s' r L. unfold setPeerLastDerpLocked. destruct (bool_decide _); [done|]. destruct (_ =? _); [done|]. by apply (logged_frame ar ou s').
  - intros s' r L. by apply (logged_frame ar ou s').
  - intros _ _ L. pose proof (newDerpConn_spec now rid p s) as Sp. cbv zeta in Sp.
    set (s' := (newDerpConn now rid p s).1) in *. clearbody s'. destruct Sp as (_ & Eg & _ & _ & _ & _ & _ & _ & Ec & _).
    assert (dp_gens s !! dp_next s = None) as Fresh.
    { destruct (dp_gens s !! dp_next s) eqn:E; [|done]. assert (dp_next s < dp_next s)%nat by (apply (rg_dom s R); eauto). lia. }
    split; rewrite ?Eg, ?Ec.
    + intros g G. rewrite lookup_insert_Some. intros [[<- <-]|[Ne E]]; [|by apply (lg_gen _ _ _ L)].
      destruct (lg_fresh _ _ _ L _ Fresh) as [-> ->]. split; [by split; [constructor|]|]. intros q Hq. cbn in Hq. set_solver.
    + intros dm Hd. destruct (lg_item _ _ _ L dm Hd) as (G & EG & Ok). rewrite lookup_insert_ne; [by exists G|]. intros X. by rewrite <- X, Fresh in EG.
    + apply L.
    + intros g [E _]%lookup_insert_None. by apply (lg_fresh _ _ _ L).
Qed.

Lemma logged_put ar ou others donec wr r : logged ar ou r.1 -> logged ar ou (putDerp others donec wr r).1.
Proof. destruct r as [s [g|]]; [|done]. unfold putDerp. destruct (enqueue _ _ _ _ _ _). by apply logged_quiet. Qed.

Definition arrive (src : NodePublic) (d : bytes) (G : derpGen) : derpGen :=
  with_reader RSend ((if bool_decide (src = dg_lastPacketSrc G) then fun G => G
                      else with_present ({[src]} ∪ dg_peerPresent G) src) (with_pkt src d G)).
Lemma readerMsg_gens g G src d s :
  dp_gens s !! g = Some G ->
  dp_gens (readerMsg g G (MPacket src d) s) = dp_gens (on_gen g (arrive src d) s)
  /\ dp_recvCh (readerMsg g G (MPacket src d) s) = dp_recvCh s.
Proof.
  intros EG. unfold readerMsg, arrive. destruct (bool_decide (src = dg_lastPacketSrc G)) eqn:B; [|destruct (bool_decide (src ∈ _))];
    (split; [|done]); cbn; rewrite ?alter_fuse; (apply alter_ext; intros G' EG'; simplify_eq; cbn; by rewrite B).
Qed.
Lemma logged_arrival ar ou g G src d s :
  dp_gens s !! g = Some G -> dg_reader G = RRecv -> logged ar ou s ->
  logged (fun g' => ar g' ++ arrived g' (DvMsg g (MPacket src d))) ou (readerMsg g G (MPacket src d) s).
Proof.
  intros EG Er L. destruct (readerMsg_gens g G src d s EG) as [Eg Ec].
  apply (logged_frame _ _ (on_gen g (arrive src d) s)); [done..|]. destruct (lg_gen _ _ _ L g G EG) as [Lg Lp].
  unfold gen_log in Lg. rewrite Er in Lg. destruct Lg as [Sy Dc].
  apply (logged_gen ar ou _ ou g _ G); [done| | | | |done].
  - intros g' Ne. cbn. rewrite decide_False by done. by rewrite app_nil_r.
  - unfold gen_log, arrived, arrive. rewrite decide_True by done. cbn. split; [|by destruct (bool_decide _)]. exists (ar g). split; [|done].
    by destruct (bool_decide _).
  - intros p Hp. cbn. rewrite decide_True by done. unfold arrive in Hp. setoid_rewrite elem_of_app.
    destruct (bool_decide _); cbn in Hp.
    + destruct (Lp p Hp) as [d' Hd]. eauto.
    + apply elem_of_union in Hp as [->%elem_of_singleton|Hp]; [exists d; right; by left|]. destruct (Lp p Hp) as [d' Hd]. eauto.
  - no_item.
Qed.
Lemma readerErr_gens g G c s :
  dp_gens s !! g = Some G -> exists r, (r = RDone \/ r = RBackOff) /\
  dp_gens (readerErr g G c s) = dp_gens (on_gen g (fun G => with_reader r (with_present ∅ (dg_lastPacketSrc G) G)) s)
  /\ dp_recvCh (readerErr g G c s) = dp_recvCh s.
Proof.
  intros EG. unfold readerErr. destruct (forget_eq (dg_region G) g (elements (dg_peerPresent G)) s) as (m & -> & _).
  destruct (_ || _); [exists RDone|exists RBackOff]; (split; [auto|]); (split; [|done]); cbn; rewrite alter_fuse;
    (apply alter_ext; intros G' EG'; by simplify_eq).
Qed.
Lemma logged_err ar ou g G c s :
  dp_gens s !! g = Some G -> dg_reader G = RRecv -> logged ar ou s -> logged ar ou (readerErr g G c s).
Proof.
  intros EG Er L. destruct (readerErr_gens g G c s EG) as (r & Hr & Eg & Ec).
  apply (logged_frame _ _ (on_gen g (fun G => with_reader r (with_present ∅ (dg_lastPacketSrc G) G)) s)); [done..|].
  apply (logged_move ar ou g _ G); [done| |cbn; set_solver| |done].
  - unfold gen_log. rewrite Er. destruct Hr as [-> | ->]; cbn; [by left; apply H|done].
  - no_item.
Qed.
Lemma logged_push ar ou g G s :
  dp_gens s !! g = Some G -> dg_reader G = RSend -> dp_recvCh s = [] -> logged ar ou s ->
  logged ar ou (on_gen g (with_reader RCopy) (set_recvCh [Some (MkRead (dg_region G) (length (dg_pkt G)) (dg_src G) g)] s)).
Proof.
  intros EG Er Ec L. destruct (lg_gen _ _ _ L g G EG) as [Lg Lp]. unfold gen_log in Lg. rewrite Er in Lg. destruct Lg as [W Dc].
  assert (logged ar ou (on_gen g (with_reader RCopy) s)) as L1.
  { apply (logged_move ar ou g _ G); [done| |done| |done].
    - intros _. unfold gen_log. cbn. by rewrite Dc.
    - intros dm Hd. rewrite Ec in Hd. by apply elem_of_nil in Hd. }
  split; [apply (lg_gen _ _ _ L1)| |done|apply (lg_fresh _ _ _ L1)].
  intros dm Hd. cbn in Hd. apply list_elem_of_singleton in Hd. injection Hd as ->. cbn [rr_client]. rewrite lookup_on_gen, decide_True by done.
  cbn [dp_gens set_recvCh]. rewrite EG. eexists. split; [done|]. repeat (split; [done|]). by left.
Qed.
Lemma logged_take ar ou dm ch s : dp_recvCh s = dm :: ch -> logged ar ou s -> logged ar ou (set_recvCh ch s).
Proof.
  intros E L. split; try apply L; cbn.
  - intros d Hd. apply (lg_item _ _ _ L). rewrite E. by right.
  - pose proof (lg_ch _ _ _ L) as X. rewrite E in X. cbn in X. lia.
Qed.
Lemma logged_copy ar ou dm ch n s :
  dp_recvCh s = Some dm :: ch -> dp_bindClosed s = false -> logged ar ou s ->
  logged ar (fun g => ou g ++ handed g (DvReceive n) s) (copyBuf dm n (set_recvCh ch s)).1.
Proof.
  intros E B L. destruct (lg_item _ _ _ L dm) as (G & EG & Es & En & Eg & (ar0 & Ea & Sy) & Er); [rewrite E; by left|].
  assert (ch = []) as ->.
  { pose proof (lg_ch _ _ _ L) as X. rewrite E in X. destruct ch; [done|]. cbn in X. lia. }
  destruct (lg_gen _ _ _ L _ G EG) as [_ Lp].
  assert (synced (ar (rr_client dm)) (ou (rr_client dm) ++ handed (rr_client dm) (DvReceive n) s)) as Sy'.
  { unfold handed. rewrite E, B, decide_True by done. rewrite Ea. apply Forall2_app; [done|]. constructor; [|done].
    unfold copyOf. cbn. by rewrite EG. }
  apply (logged_gen ar ou _ _ (rr_client dm) _ G); [done| | |done| |by apply (logged_take ar ou (Some dm))].
  - intros g' Ne. unfold handed. by rewrite E, B, decide_False, app_nil_r by done.
  - unfold gen_log. destruct Er as [[Er _]|Er]; cbn; rewrite Er; [done|by left].
  - intros d Hd. cbn in Hd. by apply elem_of_nil in Hd.
Qed.

Lemma logged_other `{MapRange} ar ou e s s' :
  (forall g, arrived g e = []) -> (forall g, handed g e s = []) -> derpStep e s = Some s' -> registry s -> logged ar ou s ->
  logged ar ou s'.
Proof.
  intros Na Nh E R L. destruct (isConfig e) eqn:C; [by apply (config_keeps _ (logged_keeper ar ou) e s)|].
  destruct e; try discriminate C; cbn in E;
    try unfold writeNext in E; try (apply at_gen_Some in E as (G & EG & EP & ->); try solve [by apply logged_quiet]; unfold readerAt in EP; bool_props).
  - destruct (take_one _ _); [|done]. injection E as <-. apply logged_chan; [by apply (registry_frame s)|by apply (logged_frame ar ou s)].
  - destruct (dp_starter s); [|done]. injection E as <-. by apply (logged_frame ar ou s).
  - destruct (take_one _ _) as [l|]; [|done]. injection E as <-. apply logged_put, logged_chan; [by apply (registry_frame s)|by apply (logged_frame ar ou s)].
  - apply logged_quiet; [done|]. by apply (logged_frame ar ou s).
  - apply (logged_move ar ou g _ G); [done| |done| |done]; [unfold gen_log; by rewrite H0|].
    no_item.
  - destruct m as [src d|p|]; [specialize (Na g); cbn in Na; by rewrite decide_True in Na| |done]. cbn.
    destruct (removeRoute_eq p (dg_region G) g s) as (m & -> & _). by apply (logged_frame ar ou s).
  - by apply logged_err.
  - apply (logged_move ar ou g _ G); [done| |done| |done].
    + unfold gen_log. rewrite EP. destruct (dg_cancelled G); cbn; [intros []; by left|done].
    + no_item.
  - apply logged_push; [done..| |done]. by destruct (dp_recvCh s).
  - change (on_gen g (with_reader RRecv) (on_gen g (with_didCopy false) s)) with
      (set_gens (alter (with_reader RRecv) g (alter (with_didCopy false) g (dp_gens s))) s). rewrite alter_fuse.
    apply (logged_move ar ou g (fun G => with_reader RRecv (with_didCopy false G)) G); [done| |done| |done].
    + unfold gen_log. rewrite H0, H1. cbn. done.
    + no_item.
  - apply (logged_move ar ou g _ G); [done| |done| |done].
    + unfold gen_log. cbn. destruct (dg_reader G), (dg_didCopy G); tauto.
    + intros dm _ _ (? & ? & ? & W & _). repeat (split; [done|]). by right.
  - destruct (dp_recvCh s) as [|[dm|] ch] eqn:Ec; [done|..]; injection E as <-; [|by apply (logged_take ar ou None)].
    destruct (dp_bindClosed _) eqn:B; [by apply (logged_take ar ou (Some dm))|]. specialize (Nh (rr_client dm)). cbn in Nh, B.
    rewrite Ec, B, decide_True in Nh by done. done.
  - destruct (dp_bindClosed s); injection E as <-; [done|]. by apply (logged_frame ar ou s).
  - destruct (_ && _) eqn:B; [|done]. injection E as <-. bool_props. destruct (dp_recvCh s) eqn:Ec; [|done].
    split; try apply L; cbn; [|lia]. intros dm Hd. apply list_elem_of_singleton in Hd. done.
  - destruct (_ && _); [|done]. injection E as <-. by apply (logged_frame ar ou s).
Qed.

Section Runs.
Context `{MapRange}.

Lemma logged_step ar ou e s s' :
  derpStep e s = Some s' -> registry s -> logged ar ou s ->
  logged (fun g => ar g ++ arrived g e) (fun g => ou g ++ handed g e s) s'.
Proof.
  intros E R L.
  assert ((forall g, arrived g e = []) -> (forall g, handed g e s = []) ->
    logged (fun g => ar g ++ arrived g e) (fun g => ou g ++ handed g e s) s') as Other.
  { intros Na Nh. apply (logged_ext ar ou); [|by apply (logged_other ar ou e s)]. intros g. by rewrite Na, Nh, !app_nil_r. }
  destruct e as [| | | | | | | | |g [src d| |]| | | | | | | |n| | | | | | | | | | | | | | |]; try (apply Other; done).
  - cbn in E. apply at_gen_Some in E as (G & EG & EP & ->). unfold readerAt in EP. bool_props.
    apply (logged_ext (fun g' => ar g' ++ arrived g' (DvMsg g (MPacket src d))) ou); [|by apply logged_arrival].
    intros g'. cbn [handed]. by rewrite app_nil_r.
  - destruct (dp_recvCh s) as [|[dm|] ch] eqn:Ec; try (apply Other; [done|]; intros g; unfold handed; by rewrite Ec).
    destruct (dp_bindClosed s) eqn:B; [apply Other; [done|]; intros g; unfold handed; by rewrite Ec, B|].
    apply (logged_ext ar (fun g => ou g ++ handed g (DvReceive n) s)); [intros g; cbn [arrived]; by rewrite app_nil_r|].
    cbn in E. rewrite Ec in E. injection E as <-. cbn [dp_bindClosed set_recvCh]. rewrite B. by apply logged_copy.
Qed.
Lemma run_logged es ar ou s s' :
  derpRun es s = Some s' -> registry s -> logged ar ou s ->
  registry s' /\ logged (fun g => ar g ++ arrivals g es) (fun g => ou g ++ handedOver g es s) s'.
Proof.
  revert ar ou s. induction es as [|e es IH]; intros ar ou s E R L.
  - injection E as <-. split; [done|]. apply (logged_ext ar ou); [|done]. intros g. cbn. by rewrite !app_nil_r.
  - cbn in E. destruct (derpStep e s) as [s1|] eqn:E1; [|done]. cbn in E.
    destruct (IH _ _ _ E (registry_step e s s1 E1 R) (logged_step ar ou e s s1 E1 R L)) as [R' L']. split; [done|].
    eapply logged_ext; [|exact L']. intros g. cbn. rewrite E1. unfold arrivals. cbn. by rewrite !(assoc app).
Qed.
Lemma logged_new : logged (fun _ => []) (fun _ => []) newDerp.
Proof. split; cbn; try done; [|lia]. intros dm Hd. by apply elem_of_nil in Hd. Qed.
Lemma run_start es s :
  derpRun es newDerp = Some s -> registry s /\ logged (fun g => arrivals g es) (fun g => handedOver g es newDerp) s.
Proof. intros E. by apply (run_logged es (fun _ => []) (fun _ => [])); [|apply registry_new_derp|apply logged_new]. Qed.

(** [C17] Packets of a DERP connection reach the receive function whole, in order and once, although
    the reader hands over its own buffer: in every interleaving, what has been copied out of a
    connection, with the senders named, is what arrived on it from the start, each packet up to the
    length of the buffer it was copied to, and at most the last packet has not been copied. *)
Theorem derp_packets_intact es s g :
  derpRun es newDerp = Some s ->
  let ar := arrivals g es in
  let ou := handedOver g es newDerp in
  Forall2 copyOf ou (take (length ou) ar) /\ (length ou <= length ar <= S (length ou))%nat.
Proof.
  intros E ar ou. destruct (run_start es s E) as [_ L].
  assert (synced ar ou \/ exists ar0 x, ar = ar0 ++ [x] /\ synced ar0 ou) as [Sy|(ar0 & x & -> & Sy)].
  - destruct (dp_gens s !! g) as [G|] eqn:EG.
    + destruct (lg_gen _ _ _ L g G EG) as [Lg _]. unfold gen_log, waiting in Lg. fold ar ou in Lg.
      destruct (dg_reader G), (dg_didCopy G); naive_solver.
    + destruct (lg_fresh _ _ _ L g EG) as [Ea Eo]. left. unfold ar, ou. rewrite Ea, Eo. constructor.
  - rewrite (Forall2_length _ _ _ Sy), take_ge by done. split; [done|]. lia.
  - rewrite (Forall2_length _ _ _ Sy), take_app_length, length_app. split; [done|]. cbn. lia.
Qed.

(** The channel given under the lock *)
Lemma chan_sound es s now rid p :
  derpRun es newDerp = Some s ->
  match derpWriteChanLocked now rid p s with
  | (s', None) => s' = s /\ ~ usable rid s
  | (s', Some g) => usable rid s
      /\ exists G ad, dp_gens s' !! g = Some G /\ activeMap s' !! dg_region G = Some ad /\ ad_c ad = g /\ ad_lastWrite ad = now
         /\ (forall g' G', dp_gens s' !! g' = Some G' -> dg_region G' = dg_region G -> dg_cancelled G' = false <-> g' = g)
         /\ (dg_region G = rid \/ activeMap s !! rid = None /\ exists d, (p, d) ∈ arrivals g es)
  end.
Proof.
  intros E. destruct (run_start es s E) as [R L]. pose proof (chan_cases now rid p s) as C. pose proof (registry_chan now rid p s R) as R'.
  destruct (derpWriteChanLocked now rid p s) as [s' [g|]] eqn:Ech; [|done]. destruct C as [U C]. split; [done|]. cbn in R'.
  assert (exists G ad, dp_gens s' !! g = Some G /\ activeMap s' !! dg_region G = Some ad /\ ad_c ad = g /\ ad_lastWrite ad = now
    /\ dp_closed s' = false
    /\ (dg_region G = rid \/ activeMap s !! rid = None /\ exists d, (p, d) ∈ arrivals g es)) as (G & ad & EG & Ea & Ec & Et & Nc & Hr).
  { destruct C as [(r & ad & Ea & -> & -> & Hr)|(Free & -> & -> & _)].
    - destruct (rg_active s R r ad Ea) as (G & EG & <- & _). exists G, (MkActive (ad_c ad) now (ad_createTime ad)).
      assert (forall x, dp_gens (touch now x (setPeerLastDerpLocked p x s)) = dp_gens s
        /\ dp_closed (touch now x (setPeerLastDerpLocked p x s)) = dp_closed s
        /\ activeMap (setPeerLastDerpLocked p x s) = activeMap s) as F.
      { intros x. unfold setPeerLastDerpLocked. destruct (bool_decide _); [done|]. by destruct (_ =? _). }
      destruct (F (dg_region G)) as (-> & -> & Fa). rewrite touch_active, Fa, lookup_alter, decide_True, Ea by done. repeat (split; [done|]).
      split; [apply U|]. destruct Hr as [Hr|(Free & _ & Er)]; [by left|right]. split; [done|].
      destruct (rg_route s R _ _ _ Er) as (G' & EG' & _ & Hp). by apply (lg_gen _ _ _ L _ G').
    - destruct (newDerpConn_spec now rid p s) as (_ & Eg & _ & Ea & _ & _ & Ecl & _). rewrite Eg, Ea, Ecl, !lookup_insert_eq.
      eexists _, _. split; [done|]. cbn [dg_region freshGen]. rewrite lookup_insert_eq. repeat (split; [done|]). split; [apply U|by left]. }
  exists G, ad. repeat (split; [done|]). split; [|done]. intros g' G' EG' Er. split.
  - intros Cn. destruct (rg_live s' R' g' G' EG' Cn) as (ad' & Ea' & <-). rewrite Er in Ea'. congruence.
  - intros ->. simplify_eq. destruct (rg_active s' R' _ _ Ea) as (G1 & EG1 & _ & [Cn|Cn]); congruence.
Qed.
Lemma run_app es1 es2 s : derpRun (es1 ++ es2) s = derpRun es1 s ≫= derpRun es2.
Proof. revert s. induction es1 as [|e es1 IH]; intros s; [done|]. cbn. destruct (derpStep e s); [apply IH|done]. Qed.
(** [C16] A packet for a peer goes to a connection that can carry it: asked for the channel of a
    region, the registry gives one exactly when the network was up (or is assumed to be) when the
    sender looked and, whatever happens until the sender holds the lock, the connection is then open,
    a private key set and the region in the DERP map. The channel belongs to the one connection of
    its region that is not canceled; it is counted as used now; and if its region is another one,
    there was no connection to the region asked for, and a packet of the peer has arrived on this
    very one. *)
Theorem derp_channel_sound es s es' s1 now rid p :
  derpRun es newDerp = Some s -> derpRun es' s = Some s1 ->
  match derpWriteChanForRegion (fun _ => s1) now rid p s with
  | (s', None) => networkDown s = true /\ s' = s \/ s' = s1 /\ ~ usable rid s1
  | (s', Some g) => networkDown s = false /\ usable rid s1
      /\ exists G ad, dp_gens s' !! g = Some G /\ activeMap s' !! dg_region G = Some ad /\ ad_c ad = g /\ ad_lastWrite ad = now
         /\ (forall g' G', dp_gens s' !! g' = Some G' -> dg_region G' = dg_region G -> dg_cancelled G' = false <-> g' = g)
         /\ (dg_region G = rid \/ activeMap s1 !! rid = None /\ exists d, (p, d) ∈ arrivals g (es ++ es'))
  end.
Proof.
  intros E E'. unfold derpWriteChanForRegion. destruct (networkDown s); [by left|].
  pose proof (chan_sound (es ++ es') s1 now rid p) as C. rewrite run_app, E in C. specialize (C E').
  destruct (derpWriteChanLocked now rid p s1) as [s' [g|]]; [|by right]. split; [done|exact C].
Qed.
End Runs.

(** ** The home region *)
Definition conf (s : derpState) := (dp_map s, dp_key s, dp_up s, dp_closed s, dp_myDerp s, dp_connects s, dp_checked s).
Definition homeOpen (s : derpState) : Prop :=
  dp_up s = true -> dp_myDerp s <> 0 -> usable (dp_myDerp s) s ->
  is_Some (activeMap s !! dp_myDerp s) \/ dp_myDerp s ∈ dp_connects s \/ dp_myDerp s ∈ dp_checked s.
Lemma homeOpen_more s s' :
  conf s' = conf s -> (is_Some (activeMap s !! dp_myDerp s) -> is_Some (activeMap s' !! dp_myDerp s)) -> homeOpen s -> homeOpen s'.
Proof.
  unfold conf, homeOpen, usable. intros E A Ho. simplify_eq. repeat match goal with X : _ s' = _ |- _ => rewrite X; clear X end.
  intros Up N U. destruct (Ho Up N U); auto.
Qed.
Lemma close_conf rid s : conf (closeDerpLocked rid s) = conf s.
Proof. unfold closeDerpLocked. by destruct (_ !! rid). Qed.
Lemma chan_conf now rid p s :
  conf (derpWriteChanLocked now rid p s).1 = conf s
  /\ (forall r, is_Some (activeMap s !! r) -> is_Some (activeMap (derpWriteChanLocked now rid p s).1 !! r))
  /\ (p = zeroNode -> usable rid s -> is_Some (activeMap (derpWriteChanLocked now rid p s).1 !! rid)).
Proof.
  assert (forall x s, conf (touch now x (setPeerLastDerpLocked p x s)) = conf s
    /\ activeMap (setPeerLastDerpLocked p x s) = activeMap s) as F.
  { intros x s0. unfold setPeerLastDerpLocked. destruct (bool_decide _); [done|]. by destruct (_ =? _). }
  assert (forall x r s, is_Some (activeMap s !! r) -> is_Some (activeMap (touch now x (setPeerLastDerpLocked p x s)) !! r)) as T.
  { intros x r s0 [ad Ea]. rewrite <- (proj2 (F x s0)) in Ea. destruct (touch_lookup_back now x _ r ad Ea) as (ad' & E' & _). by exists ad'. }
  pose proof (chan_cases now rid p s) as C. destruct (derpWriteChanLocked now rid p s) as [s' [g|]]; cbn.
  - destruct C as (U & [(r & ad & Ea & _ & -> & Hr)|(_ & -> & _)]).
    + split; [apply F|]. split; [intros r'; apply T|]. intros -> _. apply T.
      destruct Hr as [->|(_ & Np & _)]; [by exists ad|done].
    + destruct (newDerpConn_spec now rid p s) as (_ & _ & _ & Ea & _ & _ & E1 & _ & _ & E2 & E3 & E4 & E5 & E6 & E7 & _).
      split; [unfold conf; by rewrite E1, E2, E3, E4, E5, E6, E7|]. rewrite Ea.
      split; [intros r Hr; apply lookup_insert_is_Some; destruct (decide (rid = r)); auto|]. intros _ _. by rewrite lookup_insert_eq.
  - destruct C as [-> Nu]. done.
Qed.
Lemma put_rest others donec wr r : let s' := (putDerp others donec wr r).1 in
  conf s' = conf r.1 /\ dp_active s' = dp_active r.1 /\ dp_next s' = dp_next r.1 /\ (r.2 = None -> s' = r.1).
Proof. destruct r as [s [g|]]; [|done]. unfold putDerp. by destruct (enqueue _ _ _ _ _ _). Qed.
Lemma take_one_spec `{EqDecision A} (x : A) l l' : take_one x l = Some l' -> forall y, y ∈ l <-> y = x \/ y ∈ l'.
Proof.
  revert l'. induction l as [|z l IH]; intros l' E y; [done|]. cbn in E. destruct (decide (x = z)) as [<-|].
  - injection E as <-. apply elem_of_cons.
  - destruct (take_one x l) as [l1|]; [|done]. injection E as <-. rewrite !elem_of_cons, (IH l1 eq_refl). naive_solver.
Qed.

Definition isGoroutine (e : derpEvent) : bool :=
  match e with
  | DvStarted | DvActive _ | DvQuitA _ | DvGate _ | DvGateW _ | DvMsg _ _ | DvErr _ _ | DvResume _ | DvPush _ | DvCopied _ | DvQuit _ | DvQuitW _ | DvWrite _
  | DvReceive _ | DvBindClose | DvUnblock | DvBindOpen => true
  | _ => false
  end.
(** The goroutines leave the registry and the configuration alone. *)
Lemma goroutine_rest `{MapRange} e s s' :
  isGoroutine e = true -> derpStep e s = Some s' ->
  conf s' = conf s /\ dp_active s' = dp_active s /\ dp_next s' = dp_next s /\ dp_armed s' = dp_armed s.
Proof.
  intros C E. destruct e; try discriminate C; cbn in E;
    try unfold writeNext in E; try (apply at_gen_Some in E as (G & EG & _ & ->); try done).
  - destruct (dp_starter s); [|done]. by injection E as <-.
  - unfold readerMsg. destruct m as [src d|p|]; [|by destruct (removeRoute_eq p (dg_region G) g s) as (m & -> & _)|done].
    destruct (bool_decide _); [done|]. by destruct (bool_decide _).
  - unfold readerErr. destruct (forget_eq (dg_region G) g (elements (dg_peerPresent G)) s) as (m & -> & _). by destruct (_ || _).
  - destruct (dp_recvCh s) as [|[dm|] ch]; [done|..]; injection E as <-; [|done]. by destruct (dp_bindClosed _).
  - destruct (dp_bindClosed s); by injection E as <-.
  - destruct (_ && _); [|done]. by injection E as <-.
  - destruct (_ && _); [|done]. by injection E as <-.
Qed.
Lemma closeAll_conf `{MapRange} s : conf (closeAllDerpLocked s) = conf s.
Proof. apply (foldl_inv (fun a => conf a = conf s)); [|done]. intros a x _ Ea. by rewrite close_conf. Qed.
Lemma homeOpen_connect s : homeOpen (startDerpHomeConnectLocked s).
Proof.
  unfold startDerpHomeConnectLocked, goDerpConnect. destruct (Z.eqb_spec (dp_myDerp s) 0) as [E|Ne]; [by intros _ N|].
  intros _ _ _. right. left. cbn. apply elem_of_app. right. by left.
Qed.
Lemma homeOpen_unusable s : ~ usable (dp_myDerp s) s -> homeOpen s.
Proof. by intros Nu _ N U. Qed.
Lemma homeOpen_closeOrReconnect rid s : homeOpen s -> homeOpen (closeOrReconnectDERPLocked rid s).
Proof.
  intros Ho. unfold closeOrReconnectDERPLocked. pose proof (close_conf rid s) as Ec.
  destruct (_ && _) eqn:B; [apply homeOpen_connect|]. unfold conf in Ec. injection Ec as E1 E2 E3 E4 E5 E6 E7. rewrite E2, E5 in B.
  destruct (decide (dp_myDerp s = rid)) as [Eq|Ne].
  - apply homeOpen_unusable. intros (_ & Nk & _). rewrite E2 in Nk. apply andb_false_iff in B as [B|B]; bool_props; congruence.
  - apply (homeOpen_more s); [apply close_conf| |done]. rewrite closeDerp_active, lookup_delete_ne; done.
Qed.

Definition homeKnown (s : derpState) : Prop := dp_myDerp s = 0 \/ exists m, dp_map s = Some m /\ is_Some (Regions m !! dp_myDerp s).
Lemma homeOpen_map `{MapRange} dm s : homeKnown s -> homeOpen s -> homeOpen (SetDERPMap dm s).
Proof.
  intros K Ho. unfold SetDERPMap. destruct (bool_decide _); [done|]. destruct dm as [m|].
  2:{ apply homeOpen_unusable. intros (_ & _ & m & Em & _). pose proof (closeAll_conf (set_map None s)) as Ec.
      unfold conf in Ec. injection Ec as E1 _. rewrite E1 in Em. done. }
  set (f := fun (s : derpState) (x : Z * Z) => _). set (l := match dp_map s with Some _ => _ | None => _ end).
  set (h := dp_myDerp s).
  assert (let a := foldl f (set_map (Some m) s) l in
    dp_myDerp a = 0 \/ dp_myDerp a = h /\ activeMap a !! h = activeMap s !! h /\ dp_connects a = dp_connects s /\ dp_checked a = dp_checked s
      /\ dp_up a = dp_up s /\ dp_closed a = dp_closed s /\ dp_key a = dp_key s) as X.
  { apply (foldl_inv (fun a => dp_myDerp a = 0 \/ dp_myDerp a = h /\ activeMap a !! h = activeMap s !! h /\ dp_connects a = dp_connects s /\ dp_checked a = dp_checked s
      /\ dp_up a = dp_up s /\ dp_closed a = dp_closed s /\ dp_key a = dp_key s)); [|by right].
    intros a [r d] _ Pa. unfold f. cbn [fst snd]. destruct (bool_decide _); [done|].
    pose proof (closeDerp_active r (if r =? dp_myDerp a then set_myDerp 0 a else a)) as A.
    pose proof (close_conf r (if r =? dp_myDerp a then set_myDerp 0 a else a)) as C. unfold conf in C. injection C as _ C2 C3 C4 C5 C6 C7.
    rewrite C5, C6, C7, C2, C3, C4, A. destruct (Z.eqb_spec r (dp_myDerp a)) as [Er|Nr]; [by left|].
    destruct Pa as [Pa|(Ph & Pr & Pc)]; [by left|right]. split; [done|]. split; [|done]. rewrite lookup_delete_ne by congruence. done. }
  cbv zeta in X. set (a := foldl f _ _) in *. clearbody a. intros Up N U. cbn [dp_myDerp dp_up set_restuns] in *.
  destruct X as [X|(Eh & Ea & Ec & Ed & Eu & El & Ek)]; [done|]. cbn. rewrite Eh, Ea, Ec, Ed. rewrite Eh in N. apply Ho; [congruence|done|].
  destruct K as [K|(m0 & Em0 & Hm0)]; [done|]. destruct U as (U2 & U3 & _). cbn in U2, U3. unfold usable. rewrite <- El, <- Ek.
  repeat (split; [done|]). by exists m0.
Qed.

(** ** Idle connections *)
Definition staleAt (now home : Z) (x : Z * activeDerp) : bool :=
  negb (x.1 =? home) && (ad_lastWrite x.2 <? now - derpInactiveCleanupTime).
Lemma clean_loop now l s b :
  NoDup l.*1 -> (forall x, x ∈ l -> activeMap s !! x.1 = Some x.2) ->
  let r := foldl (fun (acc : derpState * bool) (x : Z * activeDerp) =>
          let '(s, someNonHomeOpen) := acc in
          if x.1 =? dp_myDerp s then acc
          else if ad_lastWrite x.2 <? now - derpInactiveCleanupTime then (closeDerpLocked x.1 s, someNonHomeOpen)
          else (s, true)) (s, b) l in
  conf r.1 = conf s /\ dp_armed r.1 = dp_armed s
  /\ (forall x, x ∈ l -> activeMap r.1 !! x.1 = if staleAt now (dp_myDerp s) x then None else Some x.2)
  /\ (forall rid, rid ∉ l.*1 -> activeMap r.1 !! rid = activeMap s !! rid)
  /\ (r.2 = true <-> b = true \/ exists x, x ∈ l /\ x.1 <> dp_myDerp s /\ staleAt now (dp_myDerp s) x = false).
Proof.
  revert s b. induction l as [|x l IH]; intros s b Nd Hl.
  - cbn. repeat (split; [done|]). split; [by intros x Hx%elem_of_nil|]. split; [done|]. split; [by left|].
    intros [?|(x & Hx%elem_of_nil & _)]; done.
  - apply NoDup_cons in Nd as [Nx Nd]. cbn [foldl].
    assert (forall y, y ∈ l -> y.1 <> x.1) as Ne. { intros y Hy Ey. apply Nx. rewrite <- Ey. by apply list_elem_of_fmap_2. }
    set (s1 := if staleAt now (dp_myDerp s) x then closeDerpLocked x.1 s else s).
    set (b1 := b || negb (x.1 =? dp_myDerp s) && negb (staleAt now (dp_myDerp s) x)).
    assert ((if x.1 =? dp_myDerp s then (s, b) else if ad_lastWrite x.2 <? now - derpInactiveCleanupTime
       then (closeDerpLocked x.1 s, b) else (s, true)) = (s1, b1)) as ->.
    { unfold s1, b1, staleAt. destruct (x.1 =? dp_myDerp s); cbn; [by rewrite orb_false_r|]. destruct (_ <? _); cbn; by rewrite ?orb_false_r, ?orb_true_r. }
    assert (conf s1 = conf s) as C1 by (unfold s1; destruct (staleAt _ _ _); [apply close_conf|done]).
    assert (dp_armed s1 = dp_armed s) as A1. { unfold s1. destruct (staleAt _ _ _); [|done]. unfold closeDerpLocked. by destruct (_ !! _). }
    assert (forall rid, activeMap s1 !! rid = if staleAt now (dp_myDerp s) x && (rid =? x.1) then None else activeMap s !! rid) as L1.
    { intros rid. unfold s1. destruct (staleAt _ _ _); [|done]. rewrite closeDerp_active. cbn. destruct (Z.eqb_spec rid x.1) as [->|N].
      - apply lookup_delete_eq. - by rewrite lookup_delete_ne. }
    assert (dp_myDerp s1 = dp_myDerp s) as Eh. { unfold conf in C1. injection C1 as _ _ _ _ E _. done. }
    destruct (IH s1 b1 Nd) as (I1 & I2 & I3 & I4 & I5).
    { intros y Hy. rewrite L1. destruct (Z.eqb_spec y.1 x.1) as [E|_]; [by destruct (Ne y Hy)|]. rewrite andb_false_r. apply Hl. by right. }
    rewrite Eh in *. split; [congruence|]. split; [congruence|]. split; [|split].
    + intros y [->|Hy]%elem_of_cons; [|by apply I3]. rewrite I4 by done. rewrite L1, Z.eqb_refl, andb_true_r.
      destruct (staleAt _ _ _); [done|]. apply Hl. by left.
    + intros rid Hr. rewrite fmap_cons, elem_of_cons in Hr. rewrite I4 by tauto. rewrite L1. destruct (Z.eqb_spec rid x.1); [tauto|].
      by rewrite andb_false_r.
    + rewrite I5. unfold b1. rewrite orb_true_iff, andb_true_iff, !negb_true_iff, Z.eqb_neq. split.
      * intros [[Hb|[N1 N2]]|(y & Hy & Y)]; [by left| |]; right; [exists x|exists y]; (split; [|done]); [by left|by right].
      * intros [Hb|(y & [->|Hy]%elem_of_cons & Y1 & Y2)]; [left; by left|left; by right|right; by exists y].
Qed.
(** Idle cleanup closes exactly the connections other than home that were not written to for a
    minute, and runs again if others than home are left. *)
Lemma cleanStaleDerp_exact `{MapRange} now s :
  dp_closed s = false ->
  let s' := cleanStaleDerp now s in
  conf s' = conf s
  /\ (forall rid, activeMap s' !! rid = ad ← activeMap s !! rid; if staleAt now (dp_myDerp s) (rid, ad) then None else Some ad)
  /\ (dp_armed s' = true <-> exists rid, rid <> dp_myDerp s /\ is_Some (activeMap s' !! rid)).
Proof.
  intros Nc s'. unfold s', cleanStaleDerp. rewrite Nc. cbv zeta.
  destruct (clean_loop now (map_range (activeMap s)) (set_armed false s) false) as (C & A & L & N & O).
  { apply NoDup_map_range. } { intros [k v] Hx. by apply elem_of_map_range. }
  change (activeMap (set_armed false s)) with (activeMap s) in *. destruct (foldl _ _ _) as [s1 b]. cbn [fst snd] in *.
  assert (forall rid, activeMap s1 !! rid = ad ← activeMap s !! rid; if staleAt now (dp_myDerp s) (rid, ad) then None else Some ad) as L'.
  { intros rid. destruct (activeMap s !! rid) as [ad|] eqn:E; cbn; [apply (L (rid, ad)); by apply elem_of_map_range|].
    rewrite N; [done|]. intros ([k v] & -> & Hx)%list_elem_of_fmap. apply elem_of_map_range in Hx. cbn in *. congruence. }
  assert (conf (if b then scheduleCleanStaleDerpLocked s1 else s1) = conf s1
    /\ dp_active (if b then scheduleCleanStaleDerpLocked s1 else s1) = dp_active s1
    /\ dp_armed (if b then scheduleCleanStaleDerpLocked s1 else s1) = b) as (F1 & F2 & F3).
  { unfold scheduleCleanStaleDerpLocked. rewrite A. by destruct b. }
  rewrite F1, F2, F3. split; [exact C|]. split; [exact L'|]. rewrite O. split.
  - intros [?|([rid ad] & Hx & N1 & N2)]; [done|]. exists rid. split; [done|]. apply elem_of_map_range in Hx. cbn in *.
    rewrite L', Hx. cbn. rewrite N2. by eexists.
  - intros (rid & N1 & [ad Ha]). right. rewrite L' in Ha. destruct (activeMap s !! rid) as [ad0|] eqn:E; [|done]. cbn in Ha.
    destruct (staleAt _ _ _) eqn:St; [done|]. simplify_eq. exists (rid, ad). split; [by apply elem_of_map_range|done].
Qed.

Section Home.
Context `{MapRange}.

(** A goroutine that connects: it holds the lock, or asks for the network *)
Lemma homeOpen_chan now rid l s :
  take_one rid (dp_checked s) = Some l -> homeOpen s -> homeOpen (derpWriteChanLocked now rid zeroNode (set_checked l s)).1.
Proof.
  intros T Ho. destruct (chan_conf now rid zeroNode (set_checked l s)) as (C & M & O). unfold conf in C. injection C as C1 C2 C3 C4 C5 C6 C7.
  set (s1 := (derpWriteChanLocked _ _ _ _).1) in *. clearbody s1. cbn in C1, C2, C3, C4, C5, C6, C7. unfold homeOpen.
  rewrite C3, C5, C6, C7. intros Up N U. assert (usable (dp_myDerp s) s) as U' by (unfold usable in *; by rewrite <- C1, <- C2, <- C4).
  destruct (decide (dp_myDerp s = rid)) as [Eq|Ne].
  - left. rewrite Eq in *. by apply O.
  - destruct (Ho Up N U') as [Ha|[Hc|Hc]]; [left; by apply M|right; by left|]. right. right.
    apply (take_one_spec _ _ _ T) in Hc as [Hc|Hc]; [done|exact Hc].
Qed.
Lemma homeOpen_check rid l s :
  take_one rid (dp_connects s) = Some l -> homeOpen s ->
  homeOpen (set_connects l (if networkDown s then s else set_checked (dp_checked s ++ [rid]) s)).
Proof.
  intros T Ho Up N U. pose proof (take_one_spec _ _ _ T) as S. unfold networkDown in *.
  destruct (if AssumeNetworkUp _ || _ then _ else _) eqn:D; cbn in *; [by rewrite Up in D; destruct (_ || _)|].
  destruct (Ho Up N U) as [Ha|[Hc|Hc]]; [by left| |]; rewrite elem_of_app, list_elem_of_singleton; [apply S in Hc|]; tauto.
Qed.
Lemma homeOpen_step e s s' :
  (match e with DvDERPMap _ => homeKnown s | _ => True end) -> derpStep e s = Some s' -> homeOpen s -> homeOpen s'.
Proof.
  intros K E Ho. destruct (isGoroutine e) eqn:G.
  { destruct (goroutine_rest e s s' G E) as (C & A & _). apply (homeOpen_more s); [done| |done]. by rewrite A. }
  destruct e; try discriminate G; cbn in E; try injection E as <-.
  - destruct (take_one regionID (dp_checked s)) as [l|] eqn:T; [|done]. injection E as <-. by apply homeOpen_chan.
  - destruct (take_one _ _) as [l|]; [|done]. injection E as <-.
    destruct (chan_conf now (port (dr_addr wr)) (dr_pubKey wr) (set_sending l s)) as (C & M & _).
    edestruct put_rest as (P1 & P2 & _). apply (homeOpen_more s); [rewrite P1; exact C|rewrite P2; apply M|done].
  - destruct (take_one regionID (dp_connects s)) as [l|] eqn:T; [|done]. injection E as <-. by apply homeOpen_check.
  - destruct (networkDown s); [done|]. by apply (homeOpen_more s).
  - by apply homeOpen_map.
  - unfold SetPrivateKey. destruct (Z.eqb_spec k (dp_key s)) as [|Nk]; [done|]. cbv zeta.
    set (s1 := if dp_key s =? 0 then _ else _).
    assert (dp_myDerp s1 = dp_myDerp s /\ dp_key s1 = k) as [E1 E2].
    { unfold s1. destruct (_ =? _); [done|]. pose proof (closeAll_conf (set_key k s)) as C. unfold conf in C. by injection C. }
    destruct (_ && _) eqn:B; [apply homeOpen_connect|]. intros _ N (_ & U & _). rewrite E1 in *. apply andb_false_iff in B as [B|B]; bool_props; congruence.
  - unfold SetNetworkUp. destruct (Bool.eqb _ _); [done|]. destruct up; [apply homeOpen_connect|]. intros U.
    pose proof (closeAll_conf (set_up false s)) as C. unfold conf in C. injection C as _ _ C _. by rewrite C in U.
  - by apply (homeOpen_more s).
  - unfold SetHomeless. destruct (_ && _); [|by apply (homeOpen_more s)]. intros _ N. pose proof (close_conf (dp_myDerp s) (set_myDerp 0 (set_homeless v s))) as C.
    unfold conf in C. injection C as _ _ _ _ C _. destruct N. exact C.
  - unfold UpdatePeers. cbv zeta. destruct (_ && _); by apply (homeOpen_more s).
  - unfold setNearestDERP. destruct (negb (wantDerpLocked s)); [by intros _ N|]. destruct (dp_homeless s); [by intros _ N|].
    destruct (_ =? _); [done|]. cbn [dp_key set_myDerp]. destruct (Z.eqb_spec (dp_key s) 0) as [Ek|]; cbn; [|exact (homeOpen_connect (set_myDerp derpNum s))].
    apply homeOpen_unusable. intros (_ & U & _). done.
  - destruct (dp_armed s); [|done]. injection E as <-. destruct (dp_closed s) eqn:Nc; [unfold cleanStaleDerp; by rewrite Nc|].
    destruct (cleanStaleDerp_exact now s Nc) as (C & A & _). apply (homeOpen_more s); [done| |done]. rewrite A.
    intros [ad Ea]. rewrite Ea. cbn. unfold staleAt. cbn. by rewrite Z.eqb_refl.
  - unfold DebugBreakDERPConns. destruct (_ =? _)%nat; [done|apply homeOpen_connect].
  - apply (foldl_inv homeOpen); [|done]. intros a x _ Ha. destruct (localOK _) as [[]|]; [done|by apply homeOpen_closeOrReconnect..].
  - by apply homeOpen_closeOrReconnect.
  - unfold Close. destruct (dp_closed s); [done|]. apply homeOpen_unusable. intros (U & _).
    pose proof (closeAll_conf (set_gens (cancel <$> dp_gens (set_closed true s)) (set_closed true s))) as C. unfold conf in C.
    injection C as _ _ _ C _. apply (eq_trans (eq_sym C)) in U. discriminate U.
Qed.
(** The DERP map is replaced only while it has the home region. *)
Fixpoint homeInMap (es : list derpEvent) (s : derpState) : Prop :=
  match es with
  | [] => True
  | e :: es => (match e with DvDERPMap _ => homeKnown s | _ => True end)
               /\ match derpStep e s with Some s' => homeInMap es s' | None => True end
  end.

(** ** Closing *)
Definition allCancelled (s : derpState) : Prop := dp_closed s = true -> forall g G, dp_gens s !! g = Some G -> dg_cancelled G = true.
Lemma cancelled_keeper : keeper allCancelled.
Proof.
  split.
  - intros s s' E. unfold core in E. injection E as E1 _ _ _ _ _ _ E8. unfold allCancelled. by rewrite E1, E8.
  - intros rid s Hs. unfold closeDerpLocked. destruct (_ !! rid) as [ad|]; [|done]. intros C g G. cbn [dp_gens set_active].
    rewrite lookup_on_gen. destruct (decide _); [|by apply Hs]. rewrite fmap_Some. by intros (G0 & _ & ->).
  - done.
  - intros s _ _ g G. cbn. rewrite lookup_fmap, fmap_Some. by intros (G0 & _ & ->).
Qed.

Lemma chan_closed now rid p s : dp_closed s = true -> derpWriteChanLocked now rid p s = (s, None).
Proof.
  intros C. pose proof (chan_cases now rid p s) as X. destruct (derpWriteChanLocked now rid p s) as [s1 [g|]].
  - destruct X as [(X & _) _]. congruence.
  - by destruct X as [-> _].
Qed.
Lemma closed_final e s s' : derpStep e s = Some s' -> dp_closed s = true -> dp_closed s' = true /\ dp_next s' = dp_next s.
Proof.
  intros E C. destruct (isGoroutine e) eqn:G.
  { destruct (goroutine_rest e s s' G E) as (Co & _ & N & _). unfold conf in Co. injection Co as _ _ _ Cl _ _ _. by rewrite Cl. }
  destruct (isConfig e) eqn:Cf.
  - apply (config_keeps (fun a => dp_closed a = true /\ dp_next a = dp_next s)) with (e := e) (s := s); [|done..]. split.
    + intros a a' Ea. unfold core in Ea. injection Ea as _ E2 _ _ _ _ _ E8. by rewrite E2, E8.
    + intros rid a Ha. unfold closeDerpLocked. by destruct (_ !! rid).
    + done.
    + by intros a [_ ?].
  - destruct e; try discriminate G; try discriminate Cf; cbn in E.
    + destruct (take_one _ _) as [l|]; [|done]. injection E as <-. by rewrite chan_closed.
    + destruct (take_one _ _) as [l|]; [|done]. injection E as <-. by rewrite chan_closed.
Qed.
Definition static (G : derpGen) := (dg_region G, dg_gate G, dg_cancelled G).
Lemma static_on_gen g f s g' :
  (forall G, dp_gens s !! g = Some G -> static (f G) = static G) -> static <$> dp_gens (on_gen g f s) !! g' = static <$> dp_gens s !! g'.
Proof.
  intros Hf. rewrite lookup_on_gen. destruct (decide _) as [<-|]; [|done]. destruct (dp_gens s !! g) as [G|] eqn:E; [|done]. cbn. by rewrite Hf.
Qed.
Lemma goroutine_static e s s' g :
  isGoroutine e = true -> derpStep e s = Some s' -> static <$> dp_gens s' !! g = static <$> dp_gens s !! g.
Proof.
  intros C E. destruct e; try discriminate C; cbn in E;
    try unfold writeNext in E; try (apply at_gen_Some in E as (G & EG & _ & ->); try solve [by apply static_on_gen]).
  - destruct (dp_starter s); [|done]. by injection E as <-.
  - by apply (static_on_gen g0 (with_waiter ADone) (set_activeCalls _ s)).
  - destruct m as [src d|p|]; [|by cbn; destruct (removeRoute_eq p (dg_region G) g0 s) as (m & -> & _)|done].
    rewrite (proj1 (readerMsg_gens g0 G src d s EG)). apply static_on_gen. intros G' _. unfold arrive. by destruct (bool_decide _).
  - destruct (readerErr_gens g0 G clientClosed s EG) as (r & _ & -> & _). by apply static_on_gen.
  - by apply (static_on_gen g0 _ (set_recvCh _ s)).
  - unfold on_gen. cbn [set_gens dp_gens]. rewrite alter_fuse. by apply (static_on_gen g0 (fun G => with_reader RRecv (with_didCopy false G))).
  - destruct (dp_recvCh s) as [|[dm|] ch]; [done|..]; injection E as <-; [|done]. destruct (dp_bindClosed _); [done|].
    by apply (static_on_gen _ _ (set_recvCh ch s)).
  - destruct (dp_bindClosed s); by injection E as <-.
  - destruct (_ && _); [|done]. by injection E as <-.
  - destruct (_ && _); [|done]. by injection E as <-.
Qed.
Lemma cancelled_step e s s' : derpStep e s = Some s' -> allCancelled s -> allCancelled s'.
Proof.
  intros E A. destruct (isConfig e) eqn:Cf; [by apply (config_keeps _ cancelled_keeper e s)|].
  destruct (isGoroutine e) eqn:G.
  - destruct (goroutine_rest e s s' G E) as (Co & _ & _). unfold conf in Co. injection Co as _ _ _ Cl _ _ _. intros C g G' EG'. rewrite Cl in C.
    pose proof (goroutine_static e s s' g G E) as X. rewrite EG' in X. destruct (dp_gens s !! g) as [G0|] eqn:E0; [|done].
    cbn in X. unfold static in X. injection X as _ _ X. rewrite X. by apply (A C g).
  - intros C. destruct (dp_closed s) eqn:Cs.
    + assert (dp_gens s' = dp_gens s) as ->; [|by apply A]. destruct e; try discriminate G; try discriminate Cf; cbn in E.
      * destruct (take_one _ _) as [l|]; [|done]. injection E as <-. by rewrite chan_closed.
      * destruct (take_one _ _) as [l|]; [|done]. injection E as <-. by rewrite chan_closed.
    + assert (dp_closed s' = false); [|congruence]. destruct e; try discriminate G; try discriminate Cf; cbn in E.
      * destruct (take_one _ _) as [l|]; [|done]. injection E as <-. destruct (chan_conf now regionID zeroNode (set_checked l s)) as (Co & _).
        unfold conf in Co. injection Co as _ _ _ Cl _ _ _. exact (eq_trans Cl Cs).
      * destruct (take_one _ _) as [l|]; [|done]. injection E as <-. edestruct put_rest as (Co & _).
        destruct (chan_conf now (port (dr_addr wr)) (dr_pubKey wr) (set_sending l s)) as (Co' & _). rewrite Co' in Co.
        unfold conf in Co. injection Co as _ _ _ Cl _ _ _. exact (eq_trans Cl Cs).
Qed.

Definition finished (G : derpGen) : Prop := dg_reader G = RDone /\ dg_writer G = WDone /\ dg_waiter G = ADone.
Definition onlyGen (g : nat) (s s' : derpState) : Prop := forall g', g' <> g -> dp_gens s' !! g' = dp_gens s !! g'.
Lemma run_inv (P : derpState -> Prop) es s s' :
  (forall e s s', derpStep e s = Some s' -> P s -> P s') -> derpRun es s = Some s' -> P s -> P s'.
Proof.
  intros Hs. revert s. induction es as [|e es IH]; intros s E Ps; [by injection E as <-|]. cbn in E.
  destruct (derpStep e s) as [s1|] eqn:E1; [|done]. apply (IH s1); [done|]. by apply (Hs e s).
Qed.
Lemma finish_reader g G s :
  dp_gens s !! g = Some G -> dg_cancelled G = true ->
  exists es s' G', derpRun es s = Some s' /\ (length es <= 1)%nat /\ dp_gens s' !! g = Some G' /\ dg_reader G' = RDone
    /\ dg_cancelled G' = true /\ onlyGen g s s'.
Proof.
  intros EG C.
  assert (forall h s1, dp_gens s1 = dp_gens (on_gen g h s) -> dg_reader (h G) = RDone -> dg_cancelled (h G) = true ->
    exists G', dp_gens s1 !! g = Some G' /\ dg_reader G' = RDone /\ dg_cancelled G' = true /\ onlyGen g s s1) as Fin.
  { intros h s1 E1 Hr Hc. exists (h G). rewrite E1. rewrite lookup_on_gen, decide_True, EG by done. repeat (split; [done|]).
    intros g' Ne. by rewrite E1, lookup_on_gen, decide_False. }
  destruct (dg_reader G) eqn:Er.
  1, 4, 5: destruct (Fin (with_reader RDone) (on_gen g (with_reader RDone) s)) as (G' & F); [done..|];
    exists [DvQuit g], (on_gen g (with_reader RDone) s), G'; (split; [|by split]); cbn; unfold at_gen, readerAt; by rewrite EG, C, Er.
  - destruct (readerErr_gens g G true s EG) as (r & Hr & Eg & _).
    assert (dp_gens (readerErr g G true s) = dp_gens (on_gen g (fun G => with_reader RDone (with_present ∅ (dg_lastPacketSrc G) G)) s)) as Eg'.
    { unfold readerErr. destruct (forget_eq (dg_region G) g (elements (dg_peerPresent G)) s) as (m & -> & _). cbn. rewrite alter_fuse.
      apply alter_ext. intros G' EG'. by simplify_eq. }
    destruct (Fin _ _ Eg') as (G' & F); [done..|]. exists [DvErr g true], (readerErr g G true s), G'. split; [|by split].
    cbn. unfold at_gen, readerAt. by rewrite EG, Er.
  - destruct (Fin (with_reader RDone) (on_gen g (with_reader RDone) s)) as (G' & F); [done..|].
    exists [DvResume g], (on_gen g (with_reader RDone) s), G'. split; [|by split]. cbn. unfold at_gen, readerAt. by rewrite EG, Er, C.
  - exists [], s, G. repeat (split; [done|]). cbn. split; [lia|]. repeat (split; [done|]). done.
Qed.
Lemma finish_writer g G s :
  dp_gens s !! g = Some G -> dg_cancelled G = true ->
  exists es s' G', derpRun es s = Some s' /\ (length es <= 1)%nat /\ dp_gens s' !! g = Some G'
    /\ dg_reader G' = dg_reader G /\ dg_writer G' = WDone /\ dg_cancelled G' = true /\ onlyGen g s s'.
Proof.
  intros EG C. destruct (dg_writer G) eqn:W.
  3: exists [], s, G; split; [done|]; split; [cbn; lia|]; done.
  all: exists [DvQuitW g], (on_gen g (with_writer WDone (dg_ch G) (dg_sent G)) s), (with_writer WDone (dg_ch G) (dg_sent G) G);
    (split; [cbn; unfold at_gen, writerAt; by rewrite EG, C, W|]); (split; [done|]);
    (split; [by rewrite lookup_on_gen, decide_True, EG|]); repeat (split; [done|]); intros g' Ne; by rewrite lookup_on_gen, decide_False.
Qed.
Lemma finish_waiter g G s :
  dp_gens s !! g = Some G -> dg_cancelled G = true ->
  exists es s' G', derpRun es s = Some s' /\ (length es <= 1)%nat /\ dp_gens s' !! g = Some G'
    /\ dg_reader G' = dg_reader G /\ dg_writer G' = dg_writer G /\ dg_waiter G' = ADone /\ onlyGen g s s'.
Proof.
  intros EG C. destruct (dg_waiter G) eqn:W; [|exists [], s, G; split; [done|]; split; [cbn; lia|]; done].
  exists [DvQuitA g], (on_gen g (with_waiter ADone) s), (with_waiter ADone G).
  split; [cbn; unfold at_gen; by rewrite EG, C, W|]. split; [done|]. split; [by rewrite lookup_on_gen, decide_True, EG|].
  repeat (split; [done|]). intros g' Ne. by rewrite lookup_on_gen, decide_False.
Qed.
Lemma finish_one g G s :
  dp_gens s !! g = Some G -> dg_cancelled G = true ->
  exists es s' G', derpRun es s = Some s' /\ (length es <= 3)%nat /\ dp_gens s' !! g = Some G' /\ finished G' /\ onlyGen g s s'.
Proof.
  intros EG C. destruct (finish_reader g G s EG C) as (es1 & s1 & G1 & E1 & L1 & EG1 & R1 & C1 & O1).
  destruct (finish_writer g G1 s1 EG1 C1) as (es2 & s2 & G2 & E2 & L2 & EG2 & R2 & W2 & C2 & O2).
  destruct (finish_waiter g G2 s2 EG2 C2) as (es3 & s3 & G3 & E3 & L3 & EG3 & R3 & W3 & A3 & O3).
  exists (es1 ++ es2 ++ es3), s3, G3. rewrite !run_app, E1. cbn. rewrite run_app, E2. cbn. split; [done|].
  split; [rewrite !length_app; lia|]. split; [done|]. split; [split; [congruence|split; congruence]|].
  intros g' Ne. by rewrite O3, O2, O1.
Qed.
Lemma finish_all n s :
  (forall g G, dp_gens s !! g = Some G -> dg_cancelled G = true) ->
  exists es s', derpRun es s = Some s' /\ (length es <= 3 * n)%nat
    /\ (forall g G, (g < n)%nat -> dp_gens s' !! g = Some G -> finished G)
    /\ (forall g, (n <= g)%nat -> dp_gens s' !! g = dp_gens s !! g).
Proof.
  intros C. induction n as [|n (es & s1 & E1 & L1 & F1 & O1)]; [exists [], s; split; [done|]; split; [cbn; lia|]; split; [intros; lia|done]|].
  destruct (dp_gens s !! n) as [G|] eqn:EG.
  - rewrite <- O1 in EG by done. destruct (finish_one n G s1 EG) as (es2 & s2 & G2 & E2 & L2 & EG2 & F2 & O2).
    { apply (C n). by rewrite <- O1. }
    exists (es ++ es2), s2. split; [by rewrite run_app, E1|]. split; [rewrite length_app; lia|]. split.
    + intros g G' Lt E'. destruct (decide (g = n)) as [->|Ne]; [congruence|]. rewrite O2 in E' by done. apply (F1 g); [lia|done].
    + intros g Le. rewrite O2 by lia. apply O1. lia.
  - exists es, s1. split; [done|]. split; [lia|]. split.
    + intros g G' Lt E'. destruct (decide (g = n)) as [->|Ne]; [rewrite O1 in E' by done; congruence|]. apply (F1 g); [lia|done].
    + intros g Le. apply O1. lia.
Qed.
(** The goroutine of the first connection *)
Lemma finish_starter s : exists es s', derpRun es s = Some s' /\ (length es <= 1)%nat /\ dp_starter s' = false /\ dp_gens s' = dp_gens s.
Proof.
  destruct (dp_starter s) eqn:S; [|exists [], s; split; [done|]; split; [cbn; lia|]; done].
  exists [DvStarted], (set_started true (set_starter false s)). cbn. by rewrite S.
Qed.
(** [C35] Closing is final and leaves nothing running: once the connection is closed no run opens
    another DERP connection, and the goroutines of all there were can return, each in one step of
    its own: at most three steps per connection, for its reader, its writer and the one that reports
    it active, and one for the goroutine that made the first connection end them all. *)
Theorem derp_close_final es s :
  derpRun es newDerp = Some s -> dp_closed s = true ->
  (forall es' s', derpRun es' s = Some s' -> dp_closed s' = true /\ dp_next s' = dp_next s)
  /\ exists es' s', derpRun es' s = Some s' /\ (length es' <= 3 * dp_next s + 1)%nat /\ dp_starter s' = false
     /\ forall g G, dp_gens s' !! g = Some G -> dg_reader G = RDone /\ dg_writer G = WDone /\ dg_waiter G = ADone.
Proof.
  intros E C. destruct (run_start es s E) as [R _]. assert (allCancelled s) as A.
  { apply (run_inv _ _ _ _ cancelled_step E). by intros ?. }
  split.
  - intros es' s' E'. apply (run_inv (fun a => dp_closed a = true /\ dp_next a = dp_next s) es' s s'); [|done..].
    intros e a a' Ea [Ca Na]. destruct (closed_final e a a' Ea Ca) as [? ->]. done.
  - destruct (finish_all (dp_next s) s (A C)) as (es1 & s1 & E1 & L1 & F & O). destruct (finish_starter s1) as (es2 & s2 & E2 & L2 & S2 & G2).
    exists (es1 ++ es2), s2. split; [by rewrite run_app, E1|]. split; [rewrite length_app; lia|]. split; [done|].
    intros g G EG. rewrite G2 in EG. destruct (decide (g < dp_next s)%nat) as [Lt|Ge]; [by apply (F g)|]. rewrite O in EG by lia.
    destruct Ge. apply (rg_dom s R). by exists G.
Qed.

(** ** A reader that is not told *)
Definition deaf (g : nat) (s : derpState) : Prop := exists G, dp_gens s !! g = Some G
  /\ (dg_reader G = RCopy /\ dg_didCopy G = false /\ (forall dm, Some dm ∈ dp_recvCh s -> rr_client dm <> g) \/ dg_reader G = RDone).
Lemma deaf_keeper g : keeper (deaf g).
Proof.
  split.
  - intros s s' E. unfold core in E. injection E as E1 _ _ _ _ _ E7 _. unfold deaf. by rewrite E1, E7.
  - intros rid s D. unfold closeDerpLocked. destruct (_ !! rid) as [ad|]; [|done]. destruct D as (G & EG & D). unfold deaf.
    cbn [dp_gens dp_recvCh set_active]. rewrite lookup_on_gen, EG. destruct (decide _); [by exists (cancel G)|by exists G].
  - done.
  - intros s (G & EG & D). exists (cancel G). cbn. by rewrite lookup_fmap, EG.
Qed.
Lemma deaf_gen g g' f s :
  (forall G, g' = g -> dp_gens s !! g = Some G -> dg_reader (f G) = dg_reader G /\ dg_didCopy (f G) = dg_didCopy G \/ dg_reader (f G) = RDone) ->
  deaf g s -> deaf g (on_gen g' f s).
Proof.
  intros Hf (G & EG & D). unfold deaf. rewrite lookup_on_gen. destruct (decide (g' = g)) as [->|]; [|by exists G]. rewrite EG.
  exists (f G). split; [done|]. destruct (Hf G eq_refl EG) as [[-> ->]|E]; [done|by right].
Qed.
Lemma deaf_frame g s s' : dp_gens s' = dp_gens s -> dp_recvCh s' = dp_recvCh s -> deaf g s -> deaf g s'.
Proof. unfold deaf. by intros -> ->. Qed.
Lemma deaf_put g others donec wr r : deaf g r.1 -> deaf g (putDerp others donec wr r).1.
Proof. destruct r as [s [g'|]]; [|done]. unfold putDerp. destruct (enqueue _ _ _ _ _ _). apply deaf_gen. by left. Qed.
Lemma deaf_chan g now rid p s : registry s -> deaf g s -> deaf g (derpWriteChanLocked now rid p s).1.
Proof.
  intros R. apply chan_keeps.
  - intros s' r. unfold setPeerLastDerpLocked. destruct (bool_decide _); [done|]. by destruct (_ =? _).
  - done.
  - intros _ _ (G & EG & D). destruct (newDerpConn_spec now rid p s) as (_ & Eg & _ & _ & _ & _ & _ & _ & Ec & _). unfold deaf.
    rewrite Eg, Ec. exists G. split; [|done]. rewrite lookup_insert_ne; [done|]. intros <-.
    assert (dp_next s < dp_next s)%nat by (apply (rg_dom s R); by exists G). lia.
Qed.
(** A reader that moves is not a deaf one. *)
Ltac busy D := intros ? -> ?; simplify_eq; destruct D as [(? & ? & _)|?]; congruence.
Lemma deaf_step g e s s' : derpStep e s = Some s' -> registry s -> deaf g s -> arrived g e = [] /\ deaf g s'.
Proof.
  intros E R D. destruct (isConfig e) eqn:Cf.
  { split; [by destruct e|]. by apply (config_keeps _ (deaf_keeper g) e s). }
  destruct D as (G0 & EG0 & D). assert (deaf g s) as Dg by (by exists G0).
  destruct e; try discriminate Cf; cbn in E; try unfold writeNext in E; try (apply at_gen_Some in E as (G & EG & EP & ->); unfold readerAt in EP; bool_props).
  - destruct (take_one _ _); [|done]. injection E as <-. split; [done|]. apply deaf_chan; [by apply (registry_frame s)|done].
  - destruct (dp_starter s); [|done]. by injection E as <-.
  - destruct (take_one _ _) as [l|]; [|done]. injection E as <-. split; [done|].
    apply deaf_put, deaf_chan; [by apply (registry_frame s)|by apply (deaf_frame g s)].
  - split; [done|]. apply deaf_gen; [|by apply (deaf_frame g s)]. by left.
  - split; [done|]. apply deaf_gen; [|done]. by left.
  - split; [done|]. apply deaf_gen; [|done]. busy D.
  - split; [done|]. apply deaf_gen; [|done]. by left.
  - destruct (decide (g0 = g)) as [->|Ne]; [simplify_eq; destruct D as [(Er & _)|Er]; congruence|].
    split; [cbn; destruct m; [by rewrite decide_False|done..]|]. destruct m as [src d|p|]; [| |done].
    + destruct (readerMsg_gens g0 G src d s EG) as [E1 E2]. apply (deaf_frame g (on_gen g0 (arrive src d) s)); [done..|]. by apply deaf_gen.
    + cbn. by destruct (removeRoute_eq p (dg_region G) g0 s) as (m & -> & _).
  - split; [done|]. destruct (readerErr_gens g0 G clientClosed s EG) as (r & _ & E1 & E2).
    apply (deaf_frame g (on_gen g0 (fun G => with_reader r (with_present ∅ (dg_lastPacketSrc G) G)) s)); [done..|].
    apply deaf_gen; [|done]. busy D.
  - split; [done|]. apply deaf_gen; [|done]. busy D.
  - split; [done|]. destruct (decide (g0 = g)) as [->|Ne]; [simplify_eq; destruct D as [(Er & _)|Er]; congruence|].
    apply deaf_gen; [done|]. exists G0. split; [done|]. destruct D as [(D1 & D2 & _)|D]; [left|by right]. repeat (split; [done|]).
    intros dm Hd. cbn in Hd. apply list_elem_of_singleton in Hd. by injection Hd as ->.
  - split; [done|]. change (on_gen g0 (with_reader RRecv) (on_gen g0 (with_didCopy false) s)) with
      (set_gens (alter (with_reader RRecv) g0 (alter (with_didCopy false) g0 (dp_gens s))) s). rewrite alter_fuse.
    apply (deaf_gen g g0 (fun G => with_reader RRecv (with_didCopy false G))); [|done].
    busy D.
  - split; [done|]. apply deaf_gen; [|done]. by right.
  - split; [done|]. apply deaf_gen; [|done]. by left.
  - split; [done|]. apply deaf_gen; [|done]. by left.
  - split; [done|]. destruct (dp_recvCh s) as [|dm ch] eqn:Ec; [done|]. injection E as <-.
    assert (deaf g (set_recvCh ch s)) as D'.
    { exists G0. split; [done|]. destruct D as [(D1 & D2 & D3)|D]; [left|by right]. repeat (split; [done|]).
      intros d Hd. apply D3. rewrite ?Ec. by right. }
    destruct dm as [dm|]; [|done]. destruct (dp_bindClosed _); [done|]. apply deaf_gen; [|done]. intros G' X EG'. cbn in EG'. simplify_eq.
    destruct D as [(_ & _ & D3)|D]; [|by right]. destruct (D3 dm); [rewrite ?Ec; by left|done].
  - destruct (dp_bindClosed s); by injection E as <-.
  - destruct (_ && _) eqn:B; [|done]. injection E as <-. split; [done|]. exists G0. split; [done|].
    destruct D as [(D1 & D2 & D3)|D]; [left|by right]. repeat (split; [done|]). intros d Hd. cbn in Hd. by apply list_elem_of_singleton in Hd.
  - destruct (_ && _); [|done]. by injection E as <-.
Qed.
Lemma deaf_run g es s s' : derpRun es s = Some s' -> registry s -> deaf g s -> registry s' /\ arrivals g es = [] /\ deaf g s'.
Proof.
  revert s. induction es as [|e es IH]; intros s E R D; [by injection E as <-|]. cbn in E.
  destruct (derpStep e s) as [s1|] eqn:E1; [|done]. destruct (deaf_step g e s s1 E1 R D) as [A1 D1].
  destruct (IH s1 E (registry_step e s s1 E1 R) D1) as (R' & A & D'). split; [done|]. split; [|done].
  unfold arrivals in *. cbn. by rewrite A1, A.
Qed.
(** [C38] A connection can fall silent: when a receive function that finds the bind closed has taken a
    packet off the channel, the packet is not copied and its reader is not told. Whatever happens
    then, the bind being opened again included, nothing arrives on that connection any more; and as
    long as nobody closes it, it stays the connection of its region that packets are written to. *)
Theorem derp_reader_stuck es0 s dm ch n es s' :
  derpRun es0 newDerp = Some s -> dp_recvCh s = Some dm :: ch -> dp_bindClosed s = true -> derpRun (DvReceive n :: es) s = Some s' ->
  arrivals (rr_client dm) es = []
  /\ forall G, dp_gens s' !! rr_client dm = Some G -> dg_cancelled G = false ->
       dg_reader G <> RRecv /\ exists ad, activeMap s' !! dg_region G = Some ad /\ ad_c ad = rr_client dm.
Proof.
  intros E0 Ec B E. destruct (run_start es0 s E0) as [R L]. cbn in E. rewrite Ec in E. cbn in E. rewrite B in E.
  assert (ch = []) as ->. { pose proof (lg_ch _ _ _ L) as X. rewrite Ec in X. destruct ch; [done|]. cbn in X. lia. }
  destruct (lg_item _ _ _ L dm) as (G & EG & _ & _ & _ & _ & Er); [rewrite Ec; by left|].
  destruct (deaf_run (rr_client dm) es (set_recvCh [] s) s' E) as (R' & A & G' & EG' & D).
  - by apply (registry_frame s).
  - exists G. split; [done|]. destruct Er as [[Er Ed]|Er]; [left|by right]. repeat (split; [done|]). by intros d Hd%elem_of_nil.
  - split; [done|]. intros G1 EG1 C1. simplify_eq. split; [destruct D as [(D & _)|D]; by rewrite D|]. by apply (rg_live s' R').
Qed.
End Home.

(** ** Examples, and runs in which the code does not do what it means to *)
Section Examples.
#[local] Existing Instance canonical_range.
Definition ex_peer : NodePublic := replicate 32 x07.
Definition ex_map : DERPMap := MkDERPMap {[1 := 100; 2 := 200]} 0.
Definition ex_home : list derpEvent := [DvPrivateKey 5; DvDERPMap (Some ex_map); DvNearest 1; DvCheck 1; DvConnect 10 1; DvStarted; DvGate 0; DvBindOpen].
Definition ex_heard : list derpEvent := ex_home ++ [DvMsg 0 (MPacket ex_peer [x01; x02]); DvPush 0].
Definition ex_at (es : list derpEvent) : derpState := default newDerp (derpRun es newDerp).

Lemma ex_runs es : (if derpRun es newDerp then true else false) = true -> derpRun es newDerp = Some (ex_at es).
Proof. unfold ex_at. by destruct (derpRun es newDerp). Qed.
Lemma ex_runs_on es es' :
  derpRun es newDerp = Some (ex_at es) -> (if derpRun (es ++ es') newDerp then true else false) = true ->
  derpRun es' (ex_at es) = Some (ex_at (es ++ es')).
Proof. intros E E'. apply ex_runs in E'. by rewrite run_app, E in E'. Qed.

(** Three generations of one region: the second is closed before its gate opens, so the third runs
    while the first still does. *)
Definition ex_overlap : list derpEvent :=
  ex_home ++ [DvPingFailed 1; DvCheck 1; DvConnect 20 1; DvPingFailed 1; DvQuit 1; DvQuitW 1; DvCheck 1; DvConnect 30 1; DvGate 2].
Lemma derp_generations_overlap : exists s G1 G3, derpRun ex_overlap newDerp = Some s
  /\ dp_gens s !! 0%nat = Some G1 /\ dp_gens s !! 2%nat = Some G3 /\ dg_region G1 = dg_region G3
  /\ dg_reader G1 = RRecv /\ dg_reader G3 = RRecv.
Proof.
  exists (ex_at ex_overlap), (default (freshGen 0 GateOpen) (dp_gens (ex_at ex_overlap) !! 0%nat)),
    (default (freshGen 0 GateOpen) (dp_gens (ex_at ex_overlap) !! 2%nat)).
  split; [apply ex_runs; vm_compute; reflexivity|]. vm_compute. repeat split.
Qed.
(** A peer that was gone, or whose packet was the last before an error, has no route although its
    packet has just arrived on an open connection. *)
Lemma derp_route_lost m : m = DvMsg 0 (MPeerGone ex_peer) \/ m = DvErr 0 false ->
  exists es s, derpRun (ex_heard ++ [DvReceive 1500; DvCopied 0; m] ++ es ++ [DvMsg 0 (MPacket ex_peer [x03])]) newDerp = Some s
  /\ dp_route s !! ex_peer = None /\ is_Some (activeMap s !! 1).
Proof.
  intros [-> | ->]; [exists []|exists [DvResume 0]]; eexists; (split; [apply ex_runs; vm_compute; reflexivity|]);
    (split; [vm_compute; reflexivity|]); vm_compute; by eexists.
Qed.
(** Switching DERP off and on again leaves the home region without a connection, and choosing it
    again does not open one. *)
Definition ex_off_on : list derpEvent := ex_home ++ [DvDERPMap None; DvDERPMap (Some ex_map)].
Lemma derp_home_lost : exists s, derpRun ex_off_on newDerp = Some s /\ usable (dp_myDerp s) s /\ dp_up s = true /\ dp_myDerp s = 1
  /\ activeMap s !! 1 = None /\ dp_connects s = [] /\ dp_checked s = [] /\ setNearestDERP 1 s = (s, true).
Proof.
  exists (ex_at ex_off_on). split; [apply ex_runs; vm_compute; reflexivity|]. split; [|vm_compute; repeat split].
  split; [reflexivity|]. split; [vm_compute; lia|]. exists ex_map. split; [reflexivity|]. vm_compute. by eexists.
Qed.

(** The network goes down after a goroutine found it up and before it holds the lock: the connection
    is opened all the same, its reader gives up, and when the network is back that connection, on
    which nothing arrives any more, is taken for the home region's. *)
Definition ex_silent : list derpEvent :=
  [DvPrivateKey 5; DvDERPMap (Some ex_map); DvNearest 1; DvCheck 1; DvNetworkUp false; DvConnect 10 1; DvStarted; DvGate 0; DvErr 0 false;
   DvNetworkUp true; DvCheck 1; DvConnect 20 1].
Lemma derp_home_silent : exists s G, derpRun ex_silent newDerp = Some s /\ networkDown s = false /\ dp_myDerp s = 1
  /\ activeMap s !! 1 = Some (MkActive 0 20 10) /\ dp_connects s = [] /\ dp_checked s = [] /\ dp_gens s !! 0%nat = Some G
  /\ dg_cancelled G = false /\ dg_reader G = RDone.
Proof.
  exists (ex_at ex_silent), (default (freshGen 0 GateOpen) (dp_gens (ex_at ex_silent) !! 0%nat)).
  split; [apply ex_runs; vm_compute; reflexivity|]. vm_compute. repeat split.
Qed.

Lemma ex_run_home : derpRun ex_home newDerp = Some (ex_at ex_home).
Proof. apply ex_runs. vm_compute. reflexivity. Qed.
Lemma ex_run_heard : derpRun ex_heard newDerp = Some (ex_at ex_heard).
Proof. apply ex_runs. vm_compute. reflexivity. Qed.
(** The network goes down between the question and the lock: the connection is opened all the same. *)
Lemma ex_run_down : derpRun [DvNetworkUp false] (ex_at ex_heard) = Some (ex_at (ex_heard ++ [DvNetworkUp false])).
Proof. apply ex_runs_on; [exact ex_run_heard|]. vm_compute. reflexivity. Qed.
Definition ex_closing : list derpEvent := ex_heard ++ [DvBindClose].
Lemma ex_run_closing : derpRun ex_closing newDerp = Some (ex_at ex_closing).
Proof. apply ex_runs. vm_compute. reflexivity. Qed.
Definition ex_after : list derpEvent := [DvUnblock; DvReceive 1500; DvBindOpen].
Lemma ex_run_after : derpRun (DvReceive 1500 :: ex_after) (ex_at ex_closing) = Some (ex_at (ex_closing ++ DvReceive 1500 :: ex_after)).
Proof. apply ex_runs_on; [exact ex_run_closing|]. vm_compute. reflexivity. Qed.
Definition ex_closed : list derpEvent := ex_heard ++ [DvClose].
Lemma ex_run_closed : derpRun ex_closed newDerp = Some (ex_at ex_closed).
Proof. apply ex_runs. vm_compute. reflexivity. Qed.
Definition ex_copied : list derpEvent := ex_heard ++ [DvReceive 1500].
Lemma ex_run_copied : derpRun ex_copied newDerp = Some (ex_at ex_copied).
Proof. apply ex_runs. vm_compute. reflexivity. Qed.
Lemma ex_home_in_map : homeInMap ex_home newDerp.
Proof. vm_compute. repeat split. by left. Qed.
Lemma ex_home_usable : usable (dp_myDerp (ex_at ex_home)) (ex_at ex_home).
Proof.
  split; [reflexivity|]. split; [vm_compute; lia|]. exists ex_map. split; [reflexivity|]. vm_compute. by eexists.
Qed.
Lemma ex_home_number : dp_myDerp (ex_at ex_home) <> 0.
Proof. vm_compute. lia. Qed.

Lemma derp_packets_intact_witness :
  let ou := handedOver 0 ex_copied newDerp in
  Forall2 copyOf ou (take (length ou) (arrivals 0 ex_copied)) /\ (length ou <= length (arrivals 0 ex_copied) <= S (length ou))%nat.
Proof. exact (derp_packets_intact ex_copied (ex_at ex_copied) 0 ex_run_copied). Defined.
Lemma derp_channel_sound_witness :
  match derpWriteChanForRegion (fun _ => ex_at (ex_heard ++ [DvNetworkUp false])) 40 2 ex_peer (ex_at ex_heard) with
  | (s', None) => networkDown (ex_at ex_heard) = true /\ s' = ex_at ex_heard
      \/ s' = ex_at (ex_heard ++ [DvNetworkUp false]) /\ ~ usable 2 (ex_at (ex_heard ++ [DvNetworkUp false]))
  | (s', Some g) => networkDown (ex_at ex_heard) = false /\ usable 2 (ex_at (ex_heard ++ [DvNetworkUp false]))
      /\ exists G ad, dp_gens s' !! g = Some G /\ activeMap s' !! dg_region G = Some ad /\ ad_c ad = g /\ ad_lastWrite ad = 40
         /\ (forall g' G', dp_gens s' !! g' = Some G' -> dg_region G' = dg_region G -> dg_cancelled G' = false <-> g' = g)
         /\ (dg_region G = 2 \/ activeMap (ex_at (ex_heard ++ [DvNetworkUp false])) !! 2 = None
             /\ exists d, (ex_peer, d) ∈ arrivals g (ex_heard ++ [DvNetworkUp false]))
  end.
Proof.
  exact (derp_channel_sound ex_heard (ex_at ex_heard) [DvNetworkUp false] (ex_at (ex_heard ++ [DvNetworkUp false])) 40 2 ex_peer
           ex_run_heard ex_run_down).
Defined.
Lemma derp_close_final_witness :
  (forall es' s', derpRun es' (ex_at ex_closed) = Some s' -> dp_closed s' = true /\ dp_next s' = dp_next (ex_at ex_closed))
  /\ exists es' s', derpRun es' (ex_at ex_closed) = Some s' /\ (length es' <= 3 * dp_next (ex_at ex_closed) + 1)%nat /\ dp_starter s' = false
     /\ forall g G, dp_gens s' !! g = Some G -> dg_reader G = RDone /\ dg_writer G = WDone /\ dg_waiter G = ADone.
Proof. exact (derp_close_final ex_closed (ex_at ex_closed) ex_run_closed ltac:(vm_compute; reflexivity)). Defined.
Lemma derp_reader_stuck_witness :
  arrivals 0 ex_after = []
  /\ forall G, dp_gens (ex_at (ex_closing ++ DvReceive 1500 :: ex_after)) !! 0%nat = Some G -> dg_cancelled G = false ->
       dg_reader G <> RRecv /\ exists ad, activeMap (ex_at (ex_closing ++ DvReceive 1500 :: ex_after)) !! dg_region G = Some ad /\ ad_c ad = 0%nat.
Proof.
  exact (derp_reader_stuck ex_closing (ex_at ex_closing) (MkRead 1 2 ex_peer 0) [] 1500 ex_after
           (ex_at (ex_closing ++ DvReceive 1500 :: ex_after)) ex_run_closing ltac:(vm_compute; reflexivity) ltac:(vm_compute; reflexivity) ex_run_after).
Defined.
End Examples.
End DerpProps.
