(* ===== verification/DiscoTx.v ===== *)
(** * Sent disco messages (magicsock.go: sendUDP, sendUDPStd, sendUDPFromSource,
    sendUDPStdFromSource, maybeRebindOnError, sendAddr, sendAddrFromSource,
    sendDiscoMessageFromSource, sendDiscoAllocateUDPRelayEndpointRequest; sourcepath.go:
    sendSourcePathDiscoPing, sendSourcePathProbeTick; endpoint.go: sendDiscoPing)

    One packet on its way to a socket or to DERP. The part under [Conn.mu], the rotation of
    sockets and the write of a probe are one after the other in [sendSourcePathDiscoPing], and
    steps that interleave in a tick of the probe loop; what other goroutines do to the DERP
    connections and a DERP queue meanwhile is an argument. The state is the peers and probes of the connection,
    the auxiliary sockets, the packets written and the DERP connections. The answers of the operating
    system and of the crypto library are arguments. [None] is a panic. *)
From S2P Require Import Prelude Netip Bytes Slices Disco Stun Packet Knobs ProbeManager SourceSockets ActivePaths.
From S2P Require Import BetterAddr EndpointState EndpointRecord Endpoint EndpointSend PeerMap Peers UdpRelay RelayManager DiscoRx Derp.

Module DiscoTx.
Import DiscoRx.

(** What [errors.Is] and [neterror.IsClosedPipeError] say of an error of the system. *)
Record netErr := MkNetErr { ne_eperm : bool; ne_closedPipe : bool; ne_code : Z }.
Inductive txErr :=
| TErrNoUDP | TErrSourcePathUnavailable | TErrConnClosed | TErrDropDerpPacket
| TErrUnknownPeer | TErrUnknownRelayServer | TErrPeerBudget | TErrBurstBudget | TErrShortWrite
| TErrGeneve (e : geneveErr)
| TErrNet (e : netErr).
Record udpWrite := MkUdp { ud_source : sourceRxMeta; ud_dst : AddrPort; ud_pkt : bytes; ud_ok : bool }.

Record txState := MkTxState {
  ts_conn : connState;
  ts_sockets : sourcePathState;
  ts_udp : list udpWrite;
  ts_derp : Derp.derpState;
  ts_lastErrRebind : Z;                       (* wall clock *)
  ts_rebinds : nat;                           (* [Rebind] and [ReSTUN] started *)
  ts_allocs : list AllocateUDPRelayEndpointRequest   (* published to this node's own relay server *)
}.
Record txEnv := MkTxEnv {
  xe_env : Env;
  xe_linux : bool;
  xe_plan9 : bool;
  xe_onlyTCP443 : bool;
  xe_selfNode : NodePublic;                   (* Conn.publicKeyAtomic *)
  xe_seal : DiscoPublic -> bytes -> bytes;    (* the box shared with a disco key *)
  xe_relayInfo : DiscoPublic -> bool;         (* relayManager.discoInfo *)
  xe_write : nat -> nat + netErr;             (* WriteToUDPAddrPort, by the number of writes before *)
  xe_listen : Z -> option error;
  xe_others : nat -> list Derp.derpWriteRequest -> list Derp.derpWriteRequest;  (* a DERP queue at the i-th attempt *)
  xe_done : nat -> bool;                      (* the i-th attempt sees the connection closed *)
  xe_window : Derp.derpState -> Derp.derpState (* between finding the network up and taking the lock *)
}.

Definition set_conn (c : connState) (s : txState) : txState :=
  MkTxState c (ts_sockets s) (ts_udp s) (ts_derp s) (ts_lastErrRebind s) (ts_rebinds s) (ts_allocs s).
Definition set_sockets (st : sourcePathState) (s : txState) : txState :=
  MkTxState (ts_conn s) st (ts_udp s) (ts_derp s) (ts_lastErrRebind s) (ts_rebinds s) (ts_allocs s).
Definition add_udp (w : udpWrite) (s : txState) : txState :=
  MkTxState (ts_conn s) (ts_sockets s) (ts_udp s ++ [w]) (ts_derp s) (ts_lastErrRebind s) (ts_rebinds s) (ts_allocs s).
Definition set_derp (q : Derp.derpState) (s : txState) : txState :=
  MkTxState (ts_conn s) (ts_sockets s) (ts_udp s) q (ts_lastErrRebind s) (ts_rebinds s) (ts_allocs s).
Definition set_rebind (t : Z) (s : txState) : txState :=
  MkTxState (ts_conn s) (ts_sockets s) (ts_udp s) (ts_derp s) t (S (ts_rebinds s)) (ts_allocs s).
Definition add_alloc (r : AllocateUDPRelayEndpointRequest) (s : txState) : txState :=
  MkTxState (ts_conn s) (ts_sockets s) (ts_udp s) (ts_derp s) (ts_lastErrRebind s) (ts_rebinds s) (ts_allocs s ++ [r]).
Definition set_probes (pm : sourcePathProbeManager) (s : txState) : txState := set_conn (with_probes pm (ts_conn s)) s.

(** A send: whether a packet went out, and the error. *)
Notation txResult := (option (txState * (bool * option txErr))).

Section Tx.
Context `{MapRange} `{Platform} (xe : txEnv).
Notation env := (xe_env xe).
Notation k := (e_knobs (xe_env xe)).

(** ** UDP *)
Definition write_ (source : sourceRxMeta) (dst : AddrPort) (pkt : bytes) (s : txState) : txState * (nat + netErr) :=
  let r := xe_write xe (length (ts_udp s)) in
  (add_udp (MkUdp source dst pkt (match r with inl _ => true | inr _ => false end)) s, r).
Definition TreatAsLostUDP (e : netErr) : bool := xe_linux xe && ne_eperm e.
Definition shouldRebind (e : netErr) : bool := negb (xe_plan9 xe) && (ne_closedPipe e || ne_eperm e).
Definition maybeRebindOnError (err : txErr) (s : txState) : txState :=
  match err with
  | TErrNet e =>
      if negb (shouldRebind e) then s
      else if ts_lastErrRebind s <? e_wall env - 5 * Second then set_rebind (e_wall env) s
      else s
  | _ => s
  end.
(** The outcome of a write to an address whose family is [noV]. *)
Definition udpOutcome (noV : bool) (r : nat + netErr) : bool * option txErr :=
  match r with
  | inl _ => (true, None)
  | inr e => if noV || TreatAsLostUDP e then (false, None) else (false, Some (TErrNet e))
  end.
Definition sendUDPStd (addr : AddrPort) (pkt : bytes) (s : txState) : txResult :=
  if xe_onlyTCP443 xe then Some (s, (false, None))
  else if Is4 (ip addr) then
    let '(s, r) := write_ primarySourceRxMeta addr pkt s in Some (s, udpOutcome (e_noV4 env) r)
  else if Is6 (ip addr) then
    let '(s, r) := write_ primarySourceRxMeta addr pkt s in Some (s, udpOutcome (e_noV6 env) r)
  else None.
Definition sendUDP (ipp : AddrPort) (pkt : bytes) (s : txState) : txResult :=
  if e_js env then Some (s, (false, Some TErrNoUDP))
  else
    '(s, (sent, err)) ← sendUDPStd ipp pkt s;
    Some (match err with Some e => maybeRebindOnError e s | None => s end, (sent, err)).

(** [sourcePathWriteTo]: the bytes written, or the error *)
Definition sourcePathWriteTo (source : sourceRxMeta) (dst : AddrPort) (pkt : bytes) (s : txState)
  : txState * (nat + txErr) :=
  match writeSlot source (Is4 (ip dst)) (ts_sockets s) with
  | None => (s, inr TErrSourcePathUnavailable)
  | Some _ =>
      let '(s, r) := write_ source dst pkt s in
      (s, match r with inl n => inl n | inr e => inr (TErrNet e) end)
  end.
Definition sendUDPStdFromSource (source : sourceRxMeta) (addr : AddrPort) (pkt : bytes) (s : txState) : txResult :=
  if isPrimary source then sendUDPStd addr pkt s
  else if xe_onlyTCP443 xe then Some (s, (false, None))
  else
    let '(s, r) := sourcePathWriteTo source addr pkt s in
    match r with
    | inl _ => Some (s, (true, None))
    | inr e =>
        let lost := match e with TErrNet e => TreatAsLostUDP e | _ => false end in
        if Is4 (ip addr) && (e_noV4 env || lost) then Some (s, (false, None))
        else if Is6 (ip addr) && (e_noV6 env || lost) then Some (s, (false, None))
        else Some (s, (false, Some e))
    end.
Definition sendUDPFromSource (source : sourceRxMeta) (ipp : AddrPort) (pkt : bytes) (isGeneveEncap : bool) (s : txState)
  : txResult :=
  if isPrimary source then sendUDP ipp pkt s
  else if e_js env then Some (s, (false, Some TErrNoUDP))
  else if isGeneveEncap then Some (s, (false, Some TErrSourcePathUnavailable))
  else sendUDPStdFromSource source ipp pkt s.

Definition sendAddr (addr : AddrPort) (pubKey : NodePublic) (pkt : bytes) (isDisco : bool) (s : txState) : txResult :=
  if negb (bool_decide (ip addr = DerpMagicIPAddr)) then sendUDP addr pkt s
  else
    let '(d, r) := Derp.sendDerp (xe_window xe) (xe_others xe) (xe_done xe) (e_wall env) (Derp.MkDerpReq addr pubKey pkt isDisco) (ts_derp s) in
    Some (set_derp d s,
          match r with
          | None => (false, None)
          | Some Derp.EnqSent => (true, None)
          | Some Derp.EnqClosed => (false, Some TErrConnClosed)
          | Some Derp.EnqDropped => (false, Some TErrDropDerpPacket)
          end).
Definition sendAddrFromSource (source : sourceRxMeta) (addr : AddrPort) (pubKey : NodePublic) (pkt : bytes)
    (isDisco isGeneveEncap : bool) (s : txState) : txResult :=
  if isPrimary source || bool_decide (ip addr = DerpMagicIPAddr) then sendAddr addr pubKey pkt isDisco s
  else sendUDPFromSource source addr pkt isGeneveEncap s.

(** ** Disco messages *)
(** The part under [Conn.mu]: the error, or the state with the shared key at hand *)
Definition discoKeyAtHand (m : Message) (dstDisco : DiscoPublic) (c : connState) : txErr + connState :=
  if Peers.closed (cn_peers c) then inl TErrConnClosed
  else if isRelayHandshakeMsg m then
    if xe_relayInfo xe dstDisco then inr c else inl TErrUnknownRelayServer
  else if knownPeerDiscoKey (cn_map c) dstDisco then inr (discoInfoForKnownPeerLocked dstDisco c)
  else inl TErrUnknownPeer.
Definition sendDiscoMessageFromSource (source : sourceRxMeta) (dst : epAddr) (dstKey : NodePublic) (dstDisco : DiscoPublic)
    (m : Message) (s : txState) : txResult :=
  if negb (isPrimary source) && negb (isDirect dst) then Some (s, (false, Some TErrSourcePathUnavailable))
  else match discoKeyAtHand m dstDisco (ts_conn s) with
  | inl e => Some (s, (false, Some e))
  | inr c =>
      let s := set_conn c s in
      match discoPacket (xe_seal xe dstDisco) (e_selfDisco env) (vni dst) m with
      | inl e => Some (s, (false, Some (TErrGeneve e)))
      | inr pkt => sendAddrFromSource source (ap dst) dstKey pkt true (VNI.IsSet (vni dst)) s
      end
  end.
Definition sendDiscoMessage := sendDiscoMessageFromSource primarySourceRxMeta.
Definition sendDiscoAllocateUDPRelayEndpointRequest (dst : epAddr) (dstKey : NodePublic) (dstDisco : DiscoPublic)
    (allocReq : AllocateUDPRelayEndpointRequest) (s : txState) : txResult :=
  if bool_decide (ip (ap dst) = DerpMagicIPAddr) && bool_decide (dstKey = xe_selfNode xe)
  then Some (add_alloc allocReq s, (true, None))
  else sendDiscoMessage dst dstKey dstDisco (MAllocateUDPRelayEndpointRequest allocReq) s.

Definition MessageHeaderLen : nat := 2.
Definition discoPingSize : Z :=
  Z.of_nat (length Magic) + Z.of_nat DiscoPublicRawLen + Z.of_nat NonceLen + 16 + Z.of_nat MessageHeaderLen + Z.of_nat PingLen.
Definition pingOf (id : TxID) (size : Z) : Ping :=
  MkPing id (xe_selfNode xe) (Z.max (Z.min size (MaxDiscoPingSize env) - discoPingSize) 0).
(** [endpoint.sendDiscoPing] of the endpoint [ep] *)
Definition sendDiscoPing (ep : nat) (dst : epAddr) (discoKey : DiscoPublic) (id : TxID) (size : Z) (s : txState) : option txState :=
  '(s, (sent, _)) ← sendDiscoMessage dst (pubOf (ps_eps (cn_peers (ts_conn s))) ep) discoKey (MPing (pingOf id size)) s;
  Some (if sent : bool then s
        else set_conn (with_peers (update_ep ep (final (forgetDiscoPing env id)) (cn_peers (ts_conn s))) (ts_conn s)) s).

(** ** Source-path probes *)
Definition forget (id : TxID) (s : txState) : txState := set_probes (forgetLocked (cn_probes (ts_conn s)) id) s.
(** [rotateSourcePathAuxSocket]; the destination, the reason and the cause are only logged. *)
Definition rotate (source : sourceRxMeta) (s : txState) : txState :=
  let '(st, r) := rebindSourcePathSocket k (xe_listen xe) source (ts_sockets s) in
  let s := set_sockets st s in
  if negb (rb_rebound r) then s
  else match rb_err r with
  | Some _ => s
  | None => set_probes (dropSourceLocked (cn_probes (ts_conn s)) source).1 s
  end.
(** The part under [Conn.mu]: the rotations that are due, or the error *)
Definition admitProbe (tx : sourcePathProbeTx) (s : txState) : txState * (txErr + list sourcePathAuxRotation) :=
  let c := ts_conn s in
  if Peers.closed (cn_peers c) then (s, inl TErrConnClosed)
  else if negb (knownPeerDiscoKey (cn_map c) (dstDisco tx)) then (s, inl TErrUnknownPeer)
  else
    let c := discoInfoForKnownPeerLocked (dstDisco tx) c in
    let '(pm, expired) := pruneExpiredLocked k (cn_probes c) (e_now env) in
    let '(pm, rotations) := noteProbeExpirationsLocked k pm expired (e_now env) in
    let '(pm, res) := addLocked k pm tx in
    let s := set_conn (with_probes pm c) s in
    (s, match res with
        | sourcePathProbeAdded => inr rotations
        | sourcePathProbePeerBudgetExceeded => inl TErrPeerBudget
        | sourcePathProbeBurstBudgetExceeded => inl TErrBurstBudget
        | _ => inl TErrSourcePathUnavailable
        end).
Definition probePacket (dstDisco : DiscoPublic) (id : TxID) (size : Z) : bytes :=
  Magic ++ e_selfDisco env ++ xe_seal xe dstDisco (AppendMarshal (MSourcePathProbe (pingOf id size)) []).
Definition writeProbe (source : sourceRxMeta) (dst : epAddr) (dstDisco : DiscoPublic) (id : TxID) (size : Z) (s : txState)
  : txState * (bool * option txErr) :=
  let pkt := probePacket dstDisco id size in
  let '(s, r) := sourcePathWriteTo source (ap dst) pkt s in
  match r with
  | inl n => if (n =? length pkt)%nat then (s, (true, None)) else (forget id s, (false, Some TErrShortWrite))
  | inr e => (forget id s, (false, Some e))
  end.
Definition sendSourcePathDiscoPing (source : sourceRxMeta) (dst : epAddr) (dstDisco : DiscoPublic) (id : TxID) (size : Z)
    (s : txState) : txState * (bool * option txErr) :=
  if isPrimary source || negb (isDirect dst) then (s, (false, Some TErrSourcePathUnavailable))
  else
    let tx := MkTx id dst dstDisco source (e_now env) (Z.min size (MaxDiscoPingSize env)) in
    let '(s, r) := admitProbe tx s in
    match r with
    | inl e => (s, (false, Some e))
    | inr rotations =>
        let s := foldl (fun s r => rotate (rot_source r) s) s rotations in
        if existsb (fun r => bool_decide (rot_source r = source)) rotations
        then (forget id s, (false, Some TErrSourcePathUnavailable))
        else writeProbe source dst dstDisco id size s
    end.

(** *** A tick of the probe loop
    The loop goes over the endpoints it found under [Conn.mu]; it reads the disco key and the
    addresses of each under the endpoint's lock, and the sockets anew for each address; each probe
    is a goroutine, which may run before the loop goes on. *)
Record probeCall := MkCall { pc_source : sourceRxMeta; pc_dst : epAddr; pc_dstDisco : DiscoPublic; pc_txid : TxID }.
(** Where a goroutine in [sendSourcePathDiscoPing] is: it takes [Conn.mu] first, then rotates the
    sockets that are due, one by one, then writes. *)
Inductive probePoint :=
| PgStart
| PgRotate (due all : list sourcePathAuxRotation)
| PgWrite.
Record probeRoutine := MkProbe { pg_call : probeCall; pg_at : probePoint }.
Definition probeStep (g : probeRoutine) (s : txState) : txState * option probeRoutine :=
  let '(MkCall source dst dk id) := pg_call g in
  match pg_at g with
  | PgStart =>
      if isPrimary source || negb (isDirect dst) then (s, None)
      else
        let '(s, r) := admitProbe (MkTx id dst dk source (e_now env) (Z.min 0 (MaxDiscoPingSize env))) s in
        (s, match r with inl _ => None | inr rotations => Some (MkProbe (pg_call g) (PgRotate rotations rotations)) end)
  | PgRotate (r :: due) all => (rotate (rot_source r) s, Some (MkProbe (pg_call g) (PgRotate due all)))
  | PgRotate [] all =>
      if existsb (fun r => bool_decide (rot_source r = source)) all then (forget id s, None)
      else (s, Some (MkProbe (pg_call g) PgWrite))
  | PgWrite => ((writeProbe source dst dk id 0 s).1, None)
  end.
(** The addresses of an endpoint, with its disco key *)
Definition probeDsts (ep : nat) (s : txState) : list (epAddr * DiscoPublic) :=
  match ps_eps (cn_peers (ts_conn s)) !! ep with
  | None => []
  | Some e =>
      match eo_disco e with
      | None => []
      | Some dk => (fun dst => (dst, dk)) <$> sourcePathProbeDstsLocked env (eo_state e)
      end
  end.
(** The endpoints and the addresses of the present one that are left, the goroutines that run, and
    every probe started so far *)
Record tickState := MkTick {
  tk_tx : txState; tk_endpoints : list nat; tk_dsts : list (epAddr * DiscoPublic);
  tk_running : list probeRoutine; tk_started : list probeCall }.
Definition sendSourcePathProbeTick (s : txState) : tickState :=
  MkTick s (if Peers.closed (cn_peers (ts_conn s)) then [] else forEachEndpoint (cn_map (ts_conn s))) [] [] [].
(** One step of the loop; [ids]: what [stun.NewTxID] returns. [None]: it is done. *)
Definition loopStep (ids : nat -> TxID) (t : tickState) : option tickState :=
  match tk_dsts t, tk_endpoints t with
  | (dst, dk) :: dsts, eps =>
      let calls := imap (fun i source => MkCall source dst dk (ids i))
                     (sourcePathProbeSources k (Is4 (ip (ap dst))) (ts_sockets (tk_tx t))) in
      Some (MkTick (tk_tx t) eps dsts (tk_running t ++ ((fun c => MkProbe c PgStart) <$> calls)) (tk_started t ++ calls))
  | [], ep :: eps => Some (MkTick (tk_tx t) eps (probeDsts ep (tk_tx t)) (tk_running t) (tk_started t))
  | [], [] => None
  end.
(** One step of the goroutine at [i] *)
Definition routineStep (i : nat) (t : tickState) : option tickState :=
  g ← tk_running t !! i;
  let '(s, g') := probeStep g (tk_tx t) in
  Some (MkTick s (tk_endpoints t) (tk_dsts t)
          (match g' with Some g' => <[i := g']> (tk_running t) | None => delete i (tk_running t) end) (tk_started t)).

(** ** What the data path asks of the endpoint that owns an address *)
Definition endpointOwning (dst : epAddr) (s : txState) : option endpoint :=
  ep ← endpointForEpAddr (cn_map (ts_conn s)) dst; eo_state <$> ps_eps (cn_peers (ts_conn s)) !! ep.
Definition primaryRTTForDst (dst : epAddr) (s : txState) : Z :=
  match endpointOwning dst s with Some e => primaryRTTForLocked dst e | None => 0 end.
Definition primaryPongsSinceDst (dst : epAddr) (since : Z) (s : txState) : Z :=
  match endpointOwning dst s with Some e => primaryPongsSinceLocked dst since e | None => 0 end.
End Tx.
End DiscoTx.
