(* ===== verification/DiscoTxProps.v ===== *)
(** * Theorems about sent disco messages

    A source-path probe is pending exactly when it was sent; what the result of a disco send says;
    the DERP queue; a probe of one node, the pong of the other and the sample it becomes. *)
From S2P Require Import Prelude Netip Bytes Slices Disco Stun Packet Knobs ProbeManager SourceSockets ActivePaths.
From S2P Require Import BetterAddr EndpointState EndpointRecord Endpoint EndpointSend PeerMap Peers UdpRelay RelayManager.
From S2P Require Import EndpointProps PeersProps DiscoRx Derp DiscoTx.

Module DiscoTxProps.
Import DiscoRx DiscoTx.

Notation probes s := (cn_probes (ts_conn s)).
Notation pendingOf s := (pending (cn_probes (ts_conn s))).

Section Probes.
Context `{MapRange} `{Platform} (xe : txEnv).
Notation env := (xe_env xe).
Notation k := (e_knobs (xe_env xe)).
Notation now := (e_now (xe_env xe)).

(** ** Admission *)
Lemma noteProbeExpirations_pending pm ex t : pending (noteProbeExpirationsLocked k pm ex t).1 = pending pm.
Proof.
  unfold noteProbeExpirationsLocked. destruct (decide (ex = [])) as [|n] eqn:H1; [done|]. case_match; [done|].
  match goal with |- context [foldl ?f ?a ex] =>
    enough (pending (foldl f a ex).1.1 = pending a.1.1) as Hf; [destruct (foldl f a ex) as [[? ?] ?]; done|];
    generalize a end.
  clear n H1. induction ex as [|tx ex IH]; intros [[q seen] rots]; simpl; [done|]. rewrite IH. unfold expirationStep.
  repeat case_match; done.
Qed.
Lemma addLocked_pending pm tx :
  pending (addLocked k pm tx).1
  = if decide ((addLocked k pm tx).2 = sourcePathProbeAdded) then <[txid tx := tx]> (live (tx_at tx) (pending pm))
    else live (tx_at tx) (pending pm).
Proof.
  unfold addLocked, addWithBudgetLocked. cbv zeta.
  pose proof (pruneExpiredLocked_pending k pm (tx_at tx)) as Hq.
  generalize dependent (pruneExpiredLocked k pm (tx_at tx)).1. intros q Hq.
  destruct (_ && (_ <=? Z.of_nat _)); [by rewrite decide_False|].
  destruct (_ && (_ && _)); [by rewrite decide_False|].
  match goal with |- context [if ?b <=? ?n then _ else _] => destruct (b <=? n) end; [by rewrite decide_False|].
  rewrite decide_True by done. cbn [fst pending set_pending]. by rewrite Hq.
Qed.
Lemma live_None (t : Z) (p : gmap TxID sourcePathProbeTx) (id : TxID) : p !! id = None -> live t p !! id = None.
Proof. intros E. unfold live. rewrite map_lookup_filter_None. by left. Qed.
Lemma admitProbe_spec tx s :
  pendingOf s !! txid tx = None ->
  let r := admitProbe xe tx s in
  ts_udp r.1 = ts_udp s /\ ts_sockets r.1 = ts_sockets s
  /\ pendingOf r.1 !! txid tx = match r.2 with inr _ => Some tx | inl _ => None end.
Proof.
  intros Hn. unfold admitProbe. destruct (Peers.closed _); [done|]. destruct (negb _); [done|]. cbn.
  destruct (pruneExpiredLocked k (probes s) now) as [pm ex] eqn:Ep.
  pose proof (pruneExpiredLocked_pending k (probes s) now) as Hp. rewrite Ep in Hp. cbn in Hp.
  pose proof (noteProbeExpirations_pending pm ex now) as Hx.
  destruct (noteProbeExpirationsLocked k pm ex now) as [pm1 rots]. cbn in Hx.
  pose proof (addLocked_pending pm1 tx) as Ha. destruct (addLocked k pm1 tx) as [pm2 res]. cbn in Ha |- *.
  split; [done|]. split; [done|]. rewrite Ha. destruct (decide (res = sourcePathProbeAdded)) as [->|N].
  - by rewrite lookup_insert_eq.
  - rewrite live_None by (rewrite Hx, Hp; by apply live_None). by destruct res.
Qed.

(** ** Rotation *)
Lemma rotate_udp source s : ts_udp (rotate xe source s) = ts_udp s.
Proof. unfold rotate. destruct (rebindSourcePathSocket _ _ _ _) as [st r]. by repeat case_match. Qed.
Lemma rotate_pending source s :
  pendingOf (rotate xe source s) = pendingOf s
  \/ pendingOf (rotate xe source s) = pending (dropSourceLocked (probes s) source).1.
Proof. unfold rotate. destruct (rebindSourcePathSocket _ _ _ _) as [st r]. repeat case_match; auto. Qed.
Lemma dropSource_lookup pm source id tx :
  pending pm !! id = tx -> (forall t, tx = Some t -> tx_source t <> source) -> pending (dropSourceLocked pm source).1 !! id = tx.
Proof.
  intros E N. unfold dropSourceLocked. destruct (isPrimary source); [done|]. cbn [fst pending]. destruct tx as [t|].
  - apply map_lookup_filter_Some. split; [done|]. by apply N.
  - apply map_lookup_filter_None. by left.
Qed.
Lemma rotations_udp rots s : ts_udp (foldl (fun s r => rotate xe (rot_source r) s) s rots) = ts_udp s.
Proof. revert s. induction rots as [|x l IH]; intros z; [done|]. cbn. by rewrite IH, rotate_udp. Qed.
Lemma rotations_spec rots s id tx :
  pendingOf s !! id = tx -> (forall t, tx = Some t -> Forall (fun r => tx_source t <> rot_source r) rots) ->
  let s' := foldl (fun s r => rotate xe (rot_source r) s) s rots in
  ts_udp s' = ts_udp s /\ pendingOf s' !! id = tx.
Proof.
  revert s. induction rots as [|r rots IH]; intros s E N; [done|]. cbn.
  destruct (IH (rotate xe (rot_source r) s)) as [U P].
  - destruct (rotate_pending (rot_source r) s) as [-> | ->]; [done|]. apply dropSource_lookup; [done|].
    intros t Ht. exact (proj1 (proj1 (Forall_cons _ _ _) (N t Ht))).
  - intros t Ht. exact (proj2 (proj1 (Forall_cons _ _ _) (N t Ht))).
  - by rewrite U, rotate_udp.
Qed.

(** ** The write *)
Lemma forget_pending id s : pendingOf (forget id s) !! id = None.
Proof. unfold forget. cbn. apply lookup_delete_eq. Qed.
Definition sentBy (source : sourceRxMeta) (dst : epAddr) (pkt : bytes) (s s' : txState) : Prop :=
  ts_udp s' = ts_udp s ++ [MkUdp source (ap dst) pkt true].
Lemma writeProbe_spec source dst dk id size s :
  let r := writeProbe xe source dst dk id size s in
  let pkt := probePacket xe dk id size in
  if r.2.1 then r.2.2 = None /\ sentBy source dst pkt s r.1 /\ pendingOf r.1 = pendingOf s
  else r.2.2 <> None /\ pendingOf r.1 !! id = None
       /\ (ts_udp r.1 = ts_udp s \/ exists ok, ts_udp r.1 = ts_udp s ++ [MkUdp source (ap dst) pkt ok]).
Proof.
  unfold writeProbe, sourcePathWriteTo. cbv zeta.
  destruct (writeSlot source _ _); [|split; [done|]; split; [apply forget_pending|by left]].
  unfold write_. destruct (xe_write xe _) as [n|e].
  - destruct (n =? _)%nat; [done|]. split; [done|]. split; [apply forget_pending|]. right. by exists true.
  - split; [done|]. split; [apply forget_pending|]. right. by exists false.
Qed.

(** A source-path probe is in flight exactly when it was sent: if [sendSourcePathDiscoPing]
    reports success, one packet was written, from the socket named and to the address named, and
    the probe is pending with what is needed to match its pong; if it reports an error, the probe
    is not pending, and at most one write was made, that failed or came short. *)
Lemma probe_pending_exactly_when_sent source dst dk id size s s' sent err :
  sendSourcePathDiscoPing xe source dst dk id size s = (s', (sent, err)) ->
  pendingOf s !! id = None ->
  (sent = true <-> err = None) /\
  if sent then
    pendingOf s' !! id = Some (MkTx id dst dk source now (Z.min size (MaxDiscoPingSize env)))
    /\ ts_udp s' = ts_udp s ++ [MkUdp source (ap dst) (probePacket xe dk id size) true]
    /\ isPrimary source = false /\ isDirect dst = true
  else
    pendingOf s' !! id = None
    /\ (ts_udp s' = ts_udp s \/ exists ok, ts_udp s' = ts_udp s ++ [MkUdp source (ap dst) (probePacket xe dk id size) ok]).
Proof.
  intros E Hn. unfold sendSourcePathDiscoPing in E.
  destruct (isPrimary source || negb (isDirect dst)) eqn:Eg; [injection E as <- <- <-; split; [done|]; auto|].
  set (tx := MkTx id dst dk source now _) in *. pose proof (admitProbe_spec tx s Hn) as A. cbv zeta in A.
  destruct (admitProbe xe tx s) as [s1 r]. cbn [fst snd] in A. destruct A as (U1 & _ & P1). change (txid tx) with id in P1.
  destruct r as [e|rots]; [injection E as <- <- <-; split; [done|]; split; [done|by left]|].
  assert (forall b, existsb (fun r => bool_decide (rot_source r = source)) rots = b ->
    if b then True else Forall (fun r => source <> rot_source r) rots) as Ex.
  { intros [|] Eb; [done|]. apply Forall_forall. intros r Hr ->.
    assert (existsb (fun r0 => bool_decide (rot_source r0 = rot_source r)) rots = true) as X; [|congruence].
    apply existsb_exists. exists r. split; [by apply list_elem_of_In|by apply bool_decide_eq_true_2]. }
  destruct (existsb _ rots) eqn:Eb; specialize (Ex _ eq_refl); cbn in Ex.
  - injection E as <- <- <-. split; [done|]. split; [apply forget_pending|]. left. cbn. by rewrite rotations_udp.
  - destruct (rotations_spec rots s1 id (Some tx) P1) as [U2 P2]; [intros ? [= <-]; exact Ex|]. cbv zeta in U2, P2.
    set (s2 := foldl _ s1 rots) in *. pose proof (writeProbe_spec source dst dk id size s2) as W. cbv zeta in W.
    rewrite E in W. cbn [fst snd] in W. unfold sentBy in W. rewrite U2, U1 in W. bool_props. destruct sent.
    + destruct W as (-> & W & P). split; [done|]. rewrite P, P2. done.
    + destruct W as (N & P & W). split; [split; [done|by intros ->]|]. done.
Qed.

(** ** Any number of probes *)
Definition within (p : gmap TxID sourcePathProbeTx) : Prop :=
  budgets_ok (sourcePathProbeMaxPeerCount k) (sourcePathProbeMaxBurstCount k) (sourcePathProbeHardPendingCount k) p.
Definition probes_ok (s : txState) : Prop := pm_wf k now (probes s) /\ within (pendingOf s).
Lemma probes_ok_shrinks s s' : shrinks (probes s') (probes s) -> probes_ok s -> probes_ok s'.
Proof.
  intros Sh [W B]. split; [by apply (pm_wf_shrink k now (probes s))|].
  apply (budgets_ok_subseteq _ _ _ (pendingOf s)); [apply Sh|done].
Qed.
Lemma admitProbe_ok tx s :
  isPrimary (tx_source tx) = false -> isDirect (tx_dst tx) = true -> tx_at tx = now -> probes_ok s -> probes_ok (admitProbe xe tx s).1.
Proof.
  intros Hs Hd Ht [W B]. unfold admitProbe. destruct (Peers.closed _); [done|]. destruct (negb _); [done|]. cbn.
  destruct (pruneExpiredLocked k (probes s) now) as [pm ex] eqn:Ep.
  assert (pm_wf k now pm /\ pending pm = live now (pendingOf s)) as [W1 P1].
  { pose proof (pruneExpiredLocked_wf k now (probes s) W) as X. pose proof (pruneExpiredLocked_pending k (probes s) now) as Y.
    rewrite Ep in X, Y. done. }
  pose proof (noteProbeExpirationsLocked_wf k now pm ex now W1) as W2. pose proof (noteProbeExpirations_pending pm ex now) as P2.
  destruct (noteProbeExpirationsLocked k pm ex now) as [pm1 rots]. cbn in W2, P2.
  assert (0 < sourcePathProbeMaxBurstCount k) as Hb by (pose proof (knob_values_sane k) as (_ & _ & _ & ? & _); lia).
  pose proof (addLocked_wf k pm1 tx Hs Hd ltac:(by rewrite Ht)) as W3.
  pose proof (admission_keeps_budgets k pm1 tx (sourcePathProbeMaxPeerCount k) _ (sourcePathProbeHardPendingCount k) Hb) as B3.
  unfold addLocked in *. destruct (addWithBudgetLocked k pm1 tx _ _ _) as [pm2 res]. cbn in *. split; [by rewrite Ht in W3|].
  apply B3. apply (budgets_ok_subseteq _ _ _ (pendingOf s)); [|done]. rewrite P2, P1. apply live_subseteq.
Qed.
Lemma rotate_ok source s : probes_ok s -> probes_ok (rotate xe source s).
Proof.
  intros Ok. unfold rotate. destruct (rebindSourcePathSocket _ _ _ _) as [st r]. destruct (negb _); [done|].
  destruct (rb_err r); [done|]. apply (probes_ok_shrinks s); [|done]. cbn. apply dropSourceLocked_shrinks.
Qed.
Lemma forget_ok id s : probes_ok s -> probes_ok (forget id s).
Proof. intros Ok. apply (probes_ok_shrinks s); [|done]. apply forgetLocked_shrinks. Qed.
Lemma writeProbe_ok source dst dk id size s : probes_ok s -> probes_ok (writeProbe xe source dst dk id size s).1.
Proof.
  intros Ok. unfold writeProbe, sourcePathWriteTo. destruct (writeSlot _ _ _); [|by apply forget_ok].
  unfold write_. destruct (xe_write xe _) as [n|e]; [|by apply forget_ok]. destruct (n =? _)%nat; [done|by apply forget_ok].
Qed.

(** ** A tick of the probe loop *)
(** Other goroutines may change the peers, the sockets and the probes as long as the probe manager keeps
    its invariant and its budgets; what they write is not logged. *)
Inductive tick_step : tickState -> tickState -> Prop :=
| tick_loop ids t t' : loopStep xe ids t = Some t' -> tick_step t t'
| tick_routine i t t' : routineStep xe i t = Some t' -> tick_step t t'
| tick_other s' t : probes_ok s' -> ts_udp s' = ts_udp (tk_tx t) ->
    tick_step t (MkTick s' (tk_endpoints t) (tk_dsts t) (tk_running t) (tk_started t)).
(** The packet of a probe. *)
Definition written (w : udpWrite) (c : probeCall) : Prop :=
  ud_source w = pc_source c /\ ud_dst w = ap (pc_dst c) /\ ud_pkt w = probePacket xe (pc_dstDisco c) (pc_txid c) 0.
Lemma probeStep_spec g s :
  probes_ok s ->
  let '(s', g') := probeStep xe g s in
  probes_ok s' /\ (forall g1, g' = Some g1 -> pg_call g1 = pg_call g)
  /\ (ts_udp s' = ts_udp s \/ g' = None /\ exists w, ts_udp s' = ts_udp s ++ [w] /\ written w (pg_call g)).
Proof.
  intros Ok. unfold probeStep. destruct g as [[source dst dk id] [|[|r due] all|]]; cbn [pg_call pg_at].
  - destruct (isPrimary source || negb (isDirect dst)) eqn:Eg; [split; [done|]; split; [done|by left]|]. bool_props.
    set (tx := MkTx _ _ _ _ _ _). pose proof (admitProbe_ok tx s) as A.
    assert (ts_udp (admitProbe xe tx s).1 = ts_udp s) as U by (unfold admitProbe; do 2 (case_match; [done|]); by repeat case_match).
    destruct (admitProbe xe tx s) as [s1 [e|rots]]; cbn in A, U; (split; [by apply A|]); (split; [|by left]); naive_solver.
  - destruct (existsb _ all); (split; [by try apply forget_ok|]); (split; [naive_solver|by left]).
  - split; [by apply rotate_ok|]. split; [naive_solver|]. left. apply rotate_udp.
  - split; [by apply writeProbe_ok|]. split; [naive_solver|]. pose proof (writeProbe_spec source dst dk id 0 s) as W. cbv zeta in W.
    destruct (writeProbe xe source dst dk id 0 s) as [s3 [sent err]]. cbn [fst snd] in *. unfold sentBy, written in *.
    destruct sent; [right; destruct W as (_ & W & _); eauto 10|]. destruct W as (_ & _ & [W|[ok W]]); [by left|right; eauto 10].
Qed.
(** A goroutine that is not interrupted does what [sendSourcePathDiscoPing] does. *)
Fixpoint probeRun (n : nat) (g : probeRoutine) (s : txState) : txState * option probeRoutine :=
  match n with
  | O => (s, Some g)
  | S n => let '(s', g') := probeStep xe g s in match g' with Some g' => probeRun n g' s' | None => (s', None) end
  end.
Lemma rotate_run c all n due s :
  probeRun (length due + n) (MkProbe c (PgRotate due all)) s
  = probeRun n (MkProbe c (PgRotate [] all)) (foldl (fun s r => rotate xe (rot_source r) s) s due).
Proof.
  revert s. induction due as [|r due IH]; intros s; [done|]. cbn [length Nat.add foldl]. rewrite <- IH. by destruct c.
Qed.
Lemma probeRun_send c s : exists n,
  probeRun n (MkProbe c PgStart) s = ((sendSourcePathDiscoPing xe (pc_source c) (pc_dst c) (pc_dstDisco c) (pc_txid c) 0 s).1, None).
Proof.
  destruct c as [source dst dk id]. unfold sendSourcePathDiscoPing. cbn [pc_source pc_dst pc_dstDisco pc_txid].
  set (tx := MkTx _ _ _ _ _ _). destruct (isPrimary source || negb (isDirect dst)) eqn:Eg; [exists 1%nat; cbn [probeRun probeStep pg_call pg_at]; by rewrite Eg|].
  destruct (admitProbe xe tx s) as [s1 [e|rots]] eqn:Ea; [exists 1%nat; cbn [probeRun probeStep pg_call pg_at]; rewrite Eg; fold tx; by rewrite Ea|].
  exists (S (length rots + 2)). set (m := (length rots + 2)%nat). cbn [probeRun probeStep pg_call pg_at]. rewrite Eg. fold tx. rewrite Ea.
  unfold m. rewrite rotate_run. cbn. by destruct (existsb _ rots).
Qed.
Section Tick.
Context (s : txState) (Ok : probes_ok s).
Notation start := (sendSourcePathProbeTick s).

(** What the loop has read from an endpoint in a state of the tick. *)
Definition readFrom (t : tickState) (dst : epAddr) (dk : DiscoPublic) : Prop :=
  exists ep e, ep ∈ forEachEndpoint (cn_map (ts_conn s)) /\ ps_eps (cn_peers (ts_conn (tk_tx t))) !! ep = Some e
    /\ eo_disco e = Some dk /\ dst ∈ sourcePathProbeDstsLocked env (eo_state e).
Definition boundIn (t : tickState) (c : probeCall) : Prop :=
  pc_source c ∈ boundMetas (Is4 (ip (ap (pc_dst c)))) (ts_sockets (tk_tx t)).
Record tick_inv (t : tickState) : Prop := {
  ti_ok : probes_ok (tk_tx t);
  ti_eps : forall ep, ep ∈ tk_endpoints t -> Peers.closed (cn_peers (ts_conn s)) = false /\ ep ∈ forEachEndpoint (cn_map (ts_conn s));
  ti_dsts : forall dst dk, (dst, dk) ∈ tk_dsts t -> Peers.closed (cn_peers (ts_conn s)) = false
    /\ exists t1, rtc tick_step start t1 /\ rtc tick_step t1 t /\ readFrom t1 dst dk;
  ti_started : forall c, c ∈ tk_started t -> Peers.closed (cn_peers (ts_conn s)) = false
    /\ exists t1 t2, rtc tick_step start t1 /\ rtc tick_step t1 t2 /\ rtc tick_step t2 t
       /\ readFrom t1 (pc_dst c) (pc_dstDisco c) /\ boundIn t2 c;
  ti_udp : exists l cs, ts_udp (tk_tx t) = ts_udp s ++ l /\ Forall2 written l cs
    /\ cs ++ (pg_call <$> tk_running t) ⊆+ tk_started t }.
Lemma tick_start_inv : tick_inv start.
Proof.
  split; [done| |by intros ? ? ?%not_elem_of_nil|by intros ? ?%not_elem_of_nil|].
  - cbn. destruct (Peers.closed _); [by intros ? ?%not_elem_of_nil|done].
  - exists [], []. rewrite app_nil_r. done.
Qed.
(** The part of the invariant about the past carries over when nothing new is read or started. *)
Lemma tick_past t t' :
  tick_inv t -> tick_step t t' -> probes_ok (tk_tx t') -> tk_endpoints t' = tk_endpoints t -> tk_dsts t' = tk_dsts t ->
  tk_started t' = tk_started t ->
  (exists l cs, ts_udp (tk_tx t') = ts_udp s ++ l /\ Forall2 written l cs /\ cs ++ (pg_call <$> tk_running t') ⊆+ tk_started t) -> tick_inv t'.
Proof.
  intros [_ Ie Id Is _] St Ok' Ee Ed Es U. split; rewrite ?Ee, ?Ed, ?Es; [done|done| | |done].
  - intros dst dk [C (t1 & R1 & R2 & F)]%Id. split; [done|]. exists t1. split; [done|]. split; [by eapply rtc_r|done].
  - intros c [C (t1 & t2 & R1 & R2 & R3 & F)]%Is. split; [done|]. exists t1, t2. do 2 (split; [done|]). split; [by eapply rtc_r|done].
Qed.
Lemma loop_inv ids t t' : rtc tick_step start t -> tick_inv t -> loopStep xe ids t = Some t' -> tick_inv t'.
Proof.
  intros R [Io Ie Id Is (l & cs & U & W & P)] E. assert (tick_step t t') as St by (by eapply tick_loop).
  unfold loopStep in E. destruct t as [tx eps dsts running started]. cbn [tk_tx tk_endpoints tk_dsts tk_running tk_started] in *.
  assert (forall c, c ∈ started -> Peers.closed (cn_peers (ts_conn s)) = false
    /\ exists t1 t2, rtc tick_step start t1 /\ rtc tick_step t1 t2 /\ rtc tick_step t2 t' /\ readFrom t1 (pc_dst c) (pc_dstDisco c) /\ boundIn t2 c) as Is'.
  { intros c [C (t1 & t2 & R1 & R2 & R3 & F)]%Is. split; [done|]. exists t1, t2. do 2 (split; [done|]). split; [by eapply rtc_r|done]. }
  destruct dsts as [|[dst dk] dsts]; [destruct eps as [|ep eps]; [done|]|]; injection E as <-.
  - split; cbn; [done| | |done|by exists l, cs].
    + intros ep' Hep. apply Ie. by right.
    + intros dst dk Hd. destruct (Ie ep ltac:(by left)) as [C Hf]. split; [done|]. eexists. split; [exact R|]. split; [by apply rtc_once|].
      unfold probeDsts in Hd. destruct (ps_eps _ !! ep) as [e|] eqn:Ee; [|by apply not_elem_of_nil in Hd].
      destruct (eo_disco e) as [dk'|] eqn:Ed; [|by apply not_elem_of_nil in Hd]. apply list_elem_of_fmap in Hd as (? & [= <- <-] & Hd). by exists ep, e.
  - split; cbn; [done|done| | |].
    + intros dst' dk' Hd. destruct (Id dst' dk' ltac:(by right)) as [C (t1 & R1 & R2 & F)]. split; [done|]. exists t1. split; [done|]. split; [by eapply rtc_r|done].
    + intros c [Hc|Hc]%elem_of_app; [by apply Is'|]. apply list_elem_of_lookup in Hc as [n Hc]. rewrite list_lookup_imap in Hc.
      apply fmap_Some in Hc as (source & Hs & ->). destruct (Id dst dk ltac:(by left)) as [C (t1 & R1 & R2 & F)]. split; [done|].
      eexists t1, _. split; [done|]. split; [exact R2|]. split; [by apply rtc_once|]. split; [done|]. unfold boundIn. cbn.
      unfold sourcePathProbeSources in Hs. destruct (_ =? 0); [done|]. by eapply list_elem_of_lookup_2.
    + exists l, cs. split; [done|]. split; [done|]. rewrite fmap_app, app_assoc, <- list_fmap_compose. cbn.
      rewrite (list_fmap_id (imap _ _)). by apply submseteq_app.
Qed.
Lemma routine_inv i t t' : tick_inv t -> routineStep xe i t = Some t' -> tick_inv t'.
Proof.
  intros I E. assert (tick_step t t') as St by (by eapply tick_routine). unfold routineStep in E.
  destruct (tk_running t !! i) as [g|] eqn:G; [|done]. cbn in E. pose proof (probeStep_spec g (tk_tx t) (ti_ok t I)) as S.
  destruct (probeStep xe g (tk_tx t)) as [s' g']. injection E as <-. destruct S as (Ok' & Ec & U). destruct (ti_udp t I) as (l & cs & Ul & W & P).
  apply (tick_past t); [done..|]. cbn. destruct U as [U|(-> & w & U & Hw)].
  - exists l, cs. rewrite U. split; [done|]. split; [done|]. rewrite <- P. apply submseteq_app; [done|]. destruct g' as [g'|].
    + rewrite list_fmap_insert, (Ec g' eq_refl), list_insert_id; [done|]. by rewrite list_lookup_fmap, G.
    + apply fmap_submseteq, sublist_submseteq, sublist_delete.
  - exists (l ++ [w]), (cs ++ [pg_call g]). rewrite U, Ul, <- app_assoc. split; [done|]. split; [apply Forall2_app; [done|by constructor]|].
    rewrite <- P, <- app_assoc. apply submseteq_app; [done|]. cbn. rewrite <- fmap_cons. by rewrite <- (delete_Permutation _ _ _ G).
Qed.
Lemma tick_run_inv t : rtc tick_step start t -> tick_inv t.
Proof.
  revert t. apply rtc_ind_r; [apply tick_start_inv|]. intros t t' R St IH.
  destruct St as [ids t t' E|i t t' E|s' t Hs Hu]; [by eapply loop_inv|by eapply routine_inv|].
  destruct (ti_udp t IH) as (l & cs & U & W & P). apply (tick_past t); [done|by apply tick_other|done..|].
  cbn. exists l, cs. rewrite Hu. done.
Qed.
End Tick.

End Probes.

(** ** What a send says *)
Section Sends.
Context `{MapRange} `{Platform} (xe : txEnv).
Notation env := (xe_env xe).

(** The identity in the log: every primary socket has that of the primary. *)
Definition logged (source : sourceRxMeta) : sourceRxMeta := if isPrimary source then primarySourceRxMeta else source.
(** Over UDP: a success is one accepted write, anything else none that was accepted. *)
Definition udp_accounts (source : sourceRxMeta) (dst : AddrPort) (pkt : bytes) (s s' : txState) (r : bool * option txErr) : Prop :=
  ts_derp s' = ts_derp s /\ ts_conn s' = ts_conn s
  /\ if r.1 then r.2 = None /\ ts_udp s' = ts_udp s ++ [MkUdp (logged source) dst pkt true]
     else ts_udp s' = ts_udp s \/ ts_udp s' = ts_udp s ++ [MkUdp (logged source) dst pkt false].
Ltac settle := intros [= <- <-]; cbn; repeat split; auto.
Lemma sendUDPStd_accounts source addr pkt s s' r :
  isPrimary source = true -> sendUDPStd xe addr pkt s = Some (s', r) -> udp_accounts source addr pkt s s' r.
Proof.
  intros Pr. unfold sendUDPStd, udp_accounts, logged. rewrite Pr.
  destruct (xe_onlyTCP443 xe); [settle|]. unfold write_, udpOutcome.
  destruct (Is4 (ip addr)); [|destruct (Is6 (ip addr)); [|done]]; destruct (xe_write xe _) as [n|e]; cbn;
    try (destruct (_ || TreatAsLostUDP xe e)); settle.
Qed.
Lemma maybeRebind_keeps e s :
  ts_derp (maybeRebindOnError xe e s) = ts_derp s /\ ts_conn (maybeRebindOnError xe e s) = ts_conn s
  /\ ts_udp (maybeRebindOnError xe e s) = ts_udp s.
Proof. unfold maybeRebindOnError. by repeat case_match. Qed.
Lemma sendUDP_accounts source addr pkt s s' r :
  isPrimary source = true -> sendUDP xe addr pkt s = Some (s', r) -> udp_accounts source addr pkt s s' r.
Proof.
  intros Pr. unfold sendUDP. destruct (e_js env); [unfold udp_accounts; settle|].
  destruct (sendUDPStd xe addr pkt s) as [[s1 [sent err]]|] eqn:E; [|done]. cbn. intros [= <- <-].
  pose proof (sendUDPStd_accounts source addr pkt s s1 (sent, err) Pr E) as A.
  destruct err as [e|]; [|done]. destruct (maybeRebind_keeps e s1) as (D & C & U). unfold udp_accounts in *. by rewrite D, C, U.
Qed.
Lemma sendUDPFromSource_accounts source addr pkt gen s s' r :
  sendUDPFromSource xe source addr pkt gen s = Some (s', r) -> udp_accounts source addr pkt s s' r.
Proof.
  unfold sendUDPFromSource. destruct (isPrimary source) eqn:Pr; [by apply sendUDP_accounts|].
  destruct (e_js env); [unfold udp_accounts; settle|]. destruct gen; [unfold udp_accounts; settle|].
  unfold sendUDPStdFromSource. rewrite Pr. unfold sourcePathWriteTo, udp_accounts, logged. rewrite Pr.
  destruct (xe_onlyTCP443 xe); [settle|]. destruct (writeSlot _ _ _) as [sl|].
  - unfold write_. destruct (xe_write xe _) as [n|e]; cbn; [settle|].
    destruct (Is4 _ && _); [settle|]. destruct (Is6 _ && _); settle.
  - destruct (Is4 _ && _); [settle|]. destruct (Is6 _ && _); settle.
Qed.
Lemma sendUDPFromSource_panics source addr pkt gen s :
  sendUDPFromSource xe source addr pkt gen s = None -> Is4 (ip addr) = false /\ Is6 (ip addr) = false.
Proof.
  unfold sendUDPFromSource, sendUDPStdFromSource, sendUDP, sendUDPStd. destruct (isPrimary source), (e_js env); try done.
  - destruct (xe_onlyTCP443 xe); [done|]. unfold write_. destruct (Is4 _); [by destruct (udpOutcome _ _ _)|].
    destruct (Is6 _); [by destruct (udpOutcome _ _ _)|done].
  - destruct gen; [done|]. destruct (xe_onlyTCP443 xe); [done|]. destruct (sourcePathWriteTo _ _ _ _ _) as [s' [n|e]]; [done|].
    destruct (Is4 _ && _); [done|]. by destruct (Is6 _ && _).
Qed.
Lemma sendAddrFromSource_direct source addr nk pkt d gen s :
  ip addr <> DerpMagicIPAddr -> sendAddrFromSource xe source addr nk pkt d gen s = sendUDPFromSource xe source addr pkt gen s.
Proof.
  intros N. unfold sendAddrFromSource, sendAddr, sendUDPFromSource. rewrite bool_decide_false, orb_false_r by done.
  by destruct (isPrimary source).
Qed.
(** A DERP packet: it is last of a queue within the capacity, or it is not there. *)
Lemma sendDerp_accounts window others donec now wr s :
  match Derp.sendDerp window others donec now wr s with
  | (s', Some Derp.EnqSent) => exists d g q,
      Derp.derpWriteChanForRegion window now (port (Derp.dr_addr wr)) (Derp.dr_pubKey wr) s = (d, Some g)
      /\ s' = Derp.on_gen g (Derp.with_ch (q ++ [wr])) d /\ (length q < Derp.derpWriteQueueDepth)%nat
  | _ => True
  end.
Proof.
  unfold Derp.sendDerp, Derp.putDerp. destruct (Derp.derpWriteChanForRegion _ _ _ _ _) as [d [g|]]; [|done].
  assert (forall n i q, match Derp.enqueue others donec n i wr q with
    | (q', Derp.EnqSent) => exists q0, q' = q0 ++ [wr] /\ (length q0 < Derp.derpWriteQueueDepth)%nat
    | _ => True
    end) as Q.
  { induction n as [|n IH]; intros i q; [done|]. cbn [Derp.enqueue]. cbv zeta. destruct (donec i); [done|].
    destruct (Nat.ltb_spec (length (others i q)) Derp.derpWriteQueueDepth); [by eexists|apply IH]. }
  specialize (Q 3%nat 0%nat (from_option Derp.dg_ch [] (Derp.dp_gens d !! g))). destruct (Derp.enqueue _ _ _ _ _ _) as [q' []]; [|done..].
  destruct Q as (q & -> & L). by exists d, g, q.
Qed.

(** [C29] What a disco send says is what happened: success means that exactly this message, framed
    and sealed for its destination, was accepted by one write of the socket named, or is the last
    packet of the queue the DERP registry gave for its region and peer, which is within its capacity;
    on failure no write was accepted. A send panics only for a destination that is neither an IPv4 nor an IPv6 address. *)
Theorem disco_send_accounts source dst dstKey dstDisco m s :
  match sendDiscoMessageFromSource xe source dst dstKey dstDisco m s with
  | None => Is4 (ip (ap dst)) = false /\ Is6 (ip (ap dst)) = false
  | Some (s', (true, err)) =>
      err = None /\ exists pkt, discoPacket (xe_seal xe dstDisco) (e_selfDisco env) (vni dst) m = inr pkt
      /\ if decide (ip (ap dst) = DerpMagicIPAddr) then
           ts_udp s' = ts_udp s
           /\ exists d g q, Derp.derpWriteChanForRegion (xe_window xe) (e_wall env) (port (ap dst)) dstKey (ts_derp s) = (d, Some g)
                /\ ts_derp s' = Derp.on_gen g (Derp.with_ch (q ++ [Derp.MkDerpReq (ap dst) dstKey pkt true])) d
                /\ (length q < Derp.derpWriteQueueDepth)%nat
         else ts_derp s' = ts_derp s /\ ts_udp s' = ts_udp s ++ [MkUdp (logged source) (ap dst) pkt true]
  | Some (s', (false, _)) =>
      ts_udp s' = ts_udp s \/ exists pkt, ts_udp s' = ts_udp s ++ [MkUdp (logged source) (ap dst) pkt false]
  end.
Proof.
  unfold sendDiscoMessageFromSource. destruct (_ && _); [by left|].
  destruct (discoKeyAtHand xe m dstDisco (ts_conn s)) as [e|c]; [by left|].
  destruct (discoPacket _ _ _ m) as [e|pkt]; [by left|].
  destruct (bool_decide (ip (ap dst) = DerpMagicIPAddr)) eqn:B.
  - apply bool_decide_eq_true in B. unfold sendAddrFromSource, sendAddr. rewrite bool_decide_true, orb_true_r by done. cbn [negb].
    pose proof (sendDerp_accounts (xe_window xe) (xe_others xe) (xe_done xe) (e_wall env) (Derp.MkDerpReq (ap dst) dstKey pkt true) (ts_derp s)) as Q.
    change (ts_derp (set_conn c s)) with (ts_derp s). destruct (Derp.sendDerp _ _ _ _ _ _) as [d [[]|]]; [|by left..].
    split; [done|]. exists pkt. split; [done|]. rewrite decide_True by done. by split.
  - apply bool_decide_eq_false in B. rewrite sendAddrFromSource_direct by done.
    destruct (sendUDPFromSource xe source (ap dst) pkt _ (set_conn c s)) as [[s' [sent err]]|] eqn:E.
    + destruct (sendUDPFromSource_accounts _ _ _ _ _ _ _ E) as (D & _ & U). destruct sent; [|destruct U as [U|U]; eauto].
      destruct U as [U1 U2]. split; [done|]. exists pkt. by rewrite decide_False.
    + by apply sendUDPFromSource_panics in E.
Qed.
End Sends.

(** ** A probe, its pong and the sample *)
Notation cn_pending c := (pending (cn_probes c)).

Section Roundtrip.
Context `{MapRange} `{Platform} (xa xb : txEnv) (ca cb : connEnv).
Notation keyA := (e_selfDisco (xe_env xa)).
Notation keyB := (e_selfDisco (xe_env xb)).

(** A node that can take a disco message of [key]. *)
Definition hears (ce : connEnv) (key : DiscoPublic) (c : connState) : Prop :=
  Peers.closed (cn_peers c) = false /\ ce_privateKeyIsZero ce = false /\ knownPeerDiscoKey (cn_map c) key = true.
Lemma hears_message ce key c msg m src nk rx :
  hears ce key c -> discoSender msg = key -> openDisco (ce_open ce key) msg = Some m ->
  exists c', cn_map c' = cn_map c /\ cn_probes c' = cn_probes c
    /\ handleDiscoMessageWithSource ce msg src false nk rx c
       = dispatch ce m key src (bool_decide (ip (ap src) = DerpMagicIPAddr)) nk rx c'.
Proof.
  intros (C & K & Kn) Es Eo. unfold handleDiscoMessageWithSource. rewrite C, K, Es, Kn, Eo. cbn [negb].
  eexists. split; [|split; [|reflexivity]]; cbn; rewrite andb_true_r;
    (destruct (negb (bool_decide _)); [|done]); unfold noteRecvUDP; by destruct (endpointForEpAddr _ _).
Qed.
Lemma knows_speaker (m : peerMap) dk : endpointsWithDiscoKey m dk <> [] -> knownPeerDiscoKey m dk = true.
Proof.
  unfold endpointsWithDiscoKey, knownPeerDiscoKey. destruct (nodesOfDisco m !! dk); [done|]. cbn.
  intros []. destruct (map_range _) as [|x l] eqn:E; [done|]. exfalso.
  assert (x ∈ map_range (gset_to_gmap tt (∅ : gset NodePublic))) as Hx by (rewrite E; by left).
  rewrite map_range_perm in Hx. destruct x as [a b]. apply elem_of_map_to_list in Hx.
  apply lookup_gset_to_gmap_Some in Hx as [Hx _]. set_solver.
Qed.
Lemma norm_ping_id p : pi_TxID (norm_ping p) = pi_TxID p.
Proof. unfold norm_ping. destruct (_ && _); reflexivity. Qed.
Lemma probe_answered ce dm src dk c :
  isDirect src = true -> e_neverDirectUDP (ce_env ce) = false -> endpointsWithDiscoKey (cn_map c) dk <> [] ->
  exists nk, handleSourcePathProbeLocked ce dm src dk c = [pongFor (pi_TxID dm) src nk dk].
Proof.
  intros D N Sp. unfold isDirect in D. bool_props. unfold handleSourcePathProbeLocked.
  rewrite bool_decide_false by done. rewrite N. replace (VNI.IsSet (vni src)) with false by done. cbn [orb].
  destruct (_ && _); [eauto|]. destruct (endpointsWithDiscoKey _ _) as [|x [|y l]]; [done|eauto..].
Qed.
Lemma pong_sampled ce (id : TxID) ps sender src rx tx c :
  cn_pending c !! id = Some tx -> isPrimary rx = false -> tx_source tx = rx -> dstDisco tx = sender ->
  txExpired (e_now (ce_env ce)) tx = false ->
  exists c', handlePong ce (MkDPong id ps) sender src rx c = (c', []) /\ cn_pending c' = delete (id) (cn_pending c)
    /\ last (samples (cn_probes c'))
       = Some (MkSample (id) (tx_dst tx) src (ps) rx (Mono.Sub (e_now (ce_env ce)) (tx_at tx)) (e_now (ce_env ce))).
Proof.
  intros P Hr Hs Hd Hx. unfold handlePong, handlePongLocked. cbn [po_TxID po_Src]. rewrite Hr, P, Hx, !bool_decide_true by done. cbn [negb orb].
  rewrite pruneExpiredSamplesLocked_eq, noteOutcomeLocked_frame. eexists. split; [reflexivity|]. split; [reflexivity|].
  cbn. unfold cap_tail. case_match; [|apply last_snoc]. bool_props.
  rewrite length_app in *. cbn in *. rewrite drop_app_le by lia. apply last_snoc.
Qed.
Lemma direct_message_sent xe addr nk dk m s s' err :
  ip addr <> DerpMagicIPAddr -> sendDiscoMessage xe (epAddr_of addr) nk dk m s = Some (s', (true, err)) ->
  exists pkt, discoPacket (xe_seal xe dk) (e_selfDisco (xe_env xe)) 0 m = inr pkt
    /\ ts_udp s' = ts_udp s ++ [MkUdp primarySourceRxMeta addr pkt true].
Proof.
  intros N. unfold sendDiscoMessage, sendDiscoMessageFromSource. change (isPrimary primarySourceRxMeta) with true. cbn [negb andb].
  destruct (discoKeyAtHand _ _ _ _) as [e|c]; [done|]. cbn [vni ap epAddr_of].
  destruct (discoPacket _ _ 0 m) as [e|pkt]; [done|]. rewrite sendAddrFromSource_direct by done. intros E.
  destruct (sendUDPFromSource_accounts _ _ _ _ _ _ _ _ E) as (_ & _ & U). exists pkt. split; [done|]. apply U.
Qed.
Hypothesis boxAB : forall x, ce_open cb keyA (xe_seal xa keyB x) = Some x.
Hypothesis boxBA : forall x, ce_open ca keyB (xe_seal xb keyA x) = Some x.
Hypothesis keys : length keyA = DiscoPublicRawLen /\ length keyB = DiscoPublicRawLen /\ length (xe_selfNode xa) = 32%nat.

(** [C11] A source-path probe measures the path it was sent on. A probe that node A reports as sent
    from an auxiliary socket is a packet that node B, wherever it sees it come from, recognizes and
    answers with a pong to that address, if B knows a peer with A's disco key. If B's send
    succeeds, the pong is a packet that A recognizes; arriving on the socket the probe left from
    while the probe is pending and has not expired, it is consumed with nothing further started,
    the probe is no longer pending, and the newest sample is that of the probe's destination and
    socket, with the time that passed as its latency and the address B saw. *)
Theorem source_probe_roundtrip source dst id size sa sa1 fromA fromB rxB nkB hpA hpB cB :
  sendSourcePathDiscoPing xa source dst keyB id size sa = (sa1, (true, None)) ->
  pendingOf sa !! id = None -> length id = 12%nat -> addrport_ok fromA ->
  isDirect (epAddr_of fromA) = true -> e_neverDirectUDP (ce_env cb) = false ->
  Peers.closed (cn_peers cB) = false -> ce_privateKeyIsZero cb = false -> endpointsWithDiscoKey (cn_map cB) keyA <> [] ->
  exists pkt msg cB1 nk, let pong := MPong (MkDPong id fromA) in
    ts_udp sa1 = ts_udp sa ++ [MkUdp source (ap dst) pkt true]
    /\ classifyRx hpB pkt fromA = RxDisco msg (epAddr_of fromA) false
    /\ handleDiscoMessageWithSource cb msg (epAddr_of fromA) false nkB rxB cB = (cB1, [RxSend (epAddr_of fromA) nk keyA pong])
    /\ forall sb sb1 err, sendDiscoMessage xb (epAddr_of fromA) nk keyA pong sb = Some (sb1, (true, err)) ->
       exists pkt' msg',
         ts_udp sb1 = ts_udp sb ++ [MkUdp primarySourceRxMeta fromA pkt' true]
         /\ classifyRx hpA pkt' fromB = RxDisco msg' (epAddr_of fromB) false
         /\ forall cA, hears ca keyB cA -> cn_pending cA !! id = pendingOf sa1 !! id ->
            Mono.Sub (e_now (ce_env ca)) (e_now (xe_env xa)) < pingTimeoutDuration ->
            exists cA1, handleDiscoMessageWithSource ca msg' (epAddr_of fromB) false zeroNode source cA = (cA1, [])
              /\ cn_pending cA1 !! id = None
              /\ last (samples (cn_probes cA1))
                 = Some (MkSample id dst (epAddr_of fromB) (norm_addrport fromA) source
                           (Mono.Sub (e_now (ce_env ca)) (e_now (xe_env xa))) (e_now (ce_env ca))).
Proof.
  intros Send Hn Lid Ok Dir ND Cl Pk Kn. destruct keys as (LA & LB & LN).
  destruct (probe_pending_exactly_when_sent xa _ _ _ _ _ _ _ _ _ Send Hn) as (_ & P1 & U1 & Pr & Dd).
  assert (ip fromA <> DerpMagicIPAddr) as Nd by (unfold isDirect in Dir; cbn in Dir; bool_props; done).
  set (ping := pingOf xa id size). assert (msg_ok (MSourcePathProbe ping)) as Mok.
  { split; [done|]. split; [done|]. unfold ping, pingOf. cbn. lia. }
  destruct (disco_delivered (xe_seal xa keyB) (ce_open cb keyA) keyA 0 (MSourcePathProbe ping) (MSourcePathProbe (norm_ping ping))
    hpB fromA boxAB LA (or_introl eq_refl) Mok eq_refl) as (pkt & msg & Ep & Ec & Es & Eo).
  destruct (hears_message cb keyA cB msg _ (epAddr_of fromA) nkB rxB (conj Cl (conj Pk (knows_speaker _ _ Kn))) Es Eo) as (c1 & M1 & _ & E1).
  destruct (probe_answered cb (norm_ping ping) (epAddr_of fromA) keyA c1 Dir ND ltac:(by rewrite M1)) as (nk & An).
  exists pkt, msg, c1, nk. cbv zeta. split; [|split; [exact Ec|split]].
  - rewrite U1. do 3 f_equal. unfold probePacket. unfold discoPacket in Ep. change (VNI.IsSet 0) with false in Ep. injection Ep as <-. by rewrite app_assoc.
  - rewrite E1. unfold dispatch. rewrite An, norm_ping_id. done.
  - intros sb sb1 err Se. destruct (direct_message_sent xb fromA nk keyA _ sb sb1 err Nd Se) as (pkt' & Ep' & Ub).
    destruct (disco_delivered (xe_seal xb keyA) (ce_open ca keyB) keyB 0 (MPong (MkDPong id fromA))
      (MPong (MkDPong id (norm_addrport fromA))) hpA fromB boxBA LB (or_introl eq_refl) (conj Lid Ok) eq_refl)
      as (pkt'' & msg' & Ep'' & Ec' & Es' & Eo'). rewrite Ep' in Ep''. injection Ep'' as <-.
    exists pkt', msg'. split; [done|]. split; [exact Ec'|]. intros cA He Hp Hx.
    destruct (hears_message ca keyB cA msg' _ (epAddr_of fromB) zeroNode source He Es' Eo') as (c2 & _ & P2 & E2).
    rewrite P1 in Hp. rewrite E2. cbn [dispatch].
    destruct (pong_sampled ca id (norm_addrport fromA) keyB (epAddr_of fromB) source _ c2 ltac:(rewrite P2; exact Hp) Pr eq_refl eq_refl)
      as (c3 & E3 & P3 & S3). { unfold txExpired. apply Z.leb_gt. exact Hx. }
    exists c3. split; [exact E3|]. split; [|exact S3]. rewrite P3. apply lookup_delete_eq.
Qed.
End Roundtrip.

(** ** Example: two nodes that know each other *)
#[local] Existing Instance canonical_range.
#[local] Existing Instance portable_platform.
Definition ex_txEnv (self node : bytes) (now : Z) (n : nat) : txEnv :=
  MkTxEnv (MkEnv defaultKnobs false false false false false false self false 65535 zeroSP
             (fun n => be_put 12 (Z.of_nat n)) 0 now 1000000000000 true)
    true false false node (fun _ b => zeros 24 ++ b) (fun _ => false) (fun _ => inl n) listenOK
    (fun _ q => q) (fun _ => false) (fun d => d).
Definition ex_rxEnv (xe : txEnv) : connEnv :=
  MkConnEnv (xe_env xe) false true (fun _ b => Some (drop 24 b)) (fun _ => false) (fun _ => true).
Definition ex_conn (peer : byte) (dk : DiscoPublic) : connState :=
  MkConn (orStay (wUpsert (ex_peerNode 1 peer dk) ex_flags newPeers) newPeers) zeroPM.
Definition ex_txState (peer : byte) (dk : DiscoPublic) : txState :=
  MkTxState (ex_conn peer dk) (sp_run zeroSP SourceSockets.ex_ops) [] Derp.newDerp 0 0 [].
Definition ex_keyA : DiscoPublic := replicate 32 x01.
Definition ex_nodeA : txEnv := ex_txEnv ex_keyA (replicate 32 x0a) ex_t0 108.
Definition ex_nodeA' : txEnv := ex_txEnv ex_keyA (replicate 32 x0a) (ex_t0 + 5 * Millisecond) 108.
Definition ex_nodeB : txEnv := ex_txEnv ex_key (replicate 32 x0b) ex_t0 94.
Notation wSend := (sendSourcePathDiscoPing ex_nodeA ex_aux ex_dst ex_key (ex_txid 7) 0 (ex_txState x0b ex_key)).
Definition ex_sent : txState := wSend.1.
Lemma ex_send_ok : wSend.2 = (true, None).
Proof. vm_compute. reflexivity. Qed.
Lemma ex_send : wSend = (ex_sent, (true, None)).
Proof. rewrite <- ex_send_ok. apply surjective_pairing. Qed.
Lemma ex_answers (nk : NodePublic) :
  match sendDiscoMessage ex_nodeB (epAddr_of ex_ap1) nk ex_keyA (MPong (MkDPong (ex_txid 7) ex_ap1)) (ex_txState x0a ex_keyA) with
  | Some (_, (sent, _)) => sent = true
  | None => False
  end.
Proof. vm_compute. reflexivity. Qed.
Lemma ex_knows : endpointsWithDiscoKey (cn_map (ex_conn x0a ex_keyA)) ex_keyA <> [].
Proof. by vm_compute. Qed.
Lemma ex_hears : hears (ex_rxEnv ex_nodeA') ex_key (ts_conn ex_sent).
Proof. repeat split; vm_compute; reflexivity. Qed.
Lemma ex_open : Peers.closed (cn_peers (ex_conn x0a ex_keyA)) = false.
Proof. vm_compute. reflexivity. Qed.
Lemma ex_soon : Mono.Sub (e_now (ce_env (ex_rxEnv ex_nodeA'))) (e_now (xe_env ex_nodeA)) < pingTimeoutDuration.
Proof. vm_compute. reflexivity. Qed.
Lemma ex_premises :
  length ex_keyA = DiscoPublicRawLen /\ length ex_key = DiscoPublicRawLen /\ length (xe_selfNode ex_nodeA) = 32%nat
  /\ pendingOf (ex_txState x0b ex_key) !! ex_txid 7 = None /\ length (ex_txid 7) = 12%nat /\ addrport_ok ex_ap1
  /\ isDirect (epAddr_of ex_ap1) = true /\ norm_addrport ex_ap1 = ex_ap1
  /\ Mono.Sub (ex_t0 + 5 * Millisecond) ex_t0 = 5 * Millisecond /\ epAddr_of (ap ex_dst) = ex_dst.
Proof. repeat split; vm_compute; try reflexivity; discriminate. Qed.
Lemma source_probe_roundtrip_witness :
  exists pkt cA,
    ts_udp ex_sent = ts_udp (ex_txState x0b ex_key) ++ [MkUdp ex_aux (ap ex_dst) pkt true]
    /\ pending (cn_probes cA) !! ex_txid 7 = None
    /\ last (samples (cn_probes cA))
       = Some (MkSample (ex_txid 7) ex_dst ex_dst ex_ap1 ex_aux (5 * Millisecond) (ex_t0 + 5 * Millisecond)).
Proof.
  destruct ex_premises as (L1 & L2 & L3 & P0 & L4 & A0 & D0 & N0 & M0 & E0).
  destruct (source_probe_roundtrip ex_nodeA ex_nodeB (ex_rxEnv ex_nodeA') (ex_rxEnv ex_nodeB) (fun _ => eq_refl) (fun _ => eq_refl)
    (conj L1 (conj L2 L3)) ex_aux ex_dst (ex_txid 7) 0 (ex_txState x0b ex_key) ex_sent ex_ap1 (ap ex_dst)
    primarySourceRxMeta zeroNode true true (ex_conn x0a ex_keyA) ex_send P0 L4 A0
    D0 eq_refl ex_open eq_refl ex_knows)
    as (pkt & msg & cB & nk & U & _ & _ & F).
  pose proof (ex_answers nk) as A.
  destruct (sendDiscoMessage ex_nodeB _ nk _ _ (ex_txState x0a ex_keyA)) as [[sb1 [sent err]]|] eqn:E; [|contradiction A].
  rewrite A in E. destruct (F _ _ _ E) as (pkt' & msg' & _ & _ & G).
  destruct (G (ts_conn ex_sent) ex_hears eq_refl ex_soon) as (cA & _ & P & S). exists pkt, cA.
  cbn [ce_env ex_rxEnv xe_env ex_nodeA ex_nodeA' ex_txEnv e_now] in S. rewrite E0, N0, M0 in S. exact (conj U (conj P S)).
Defined.
Lemma ex_probes_ok : probes_ok ex_nodeA (ex_txState x0b ex_key).
Proof.
  split; [|by apply budgets_ok_empty].
  split; try done; try (intros ?; cbn; lia); by intros ? ? [].
Qed.
(** The loop to its end, [n] steps of it at most, and then every goroutine in turn *)
Fixpoint ex_loop (n : nat) (t : tickState) : tickState :=
  match n with
  | O => t
  | S n => match loopStep ex_nodeA (fun i => ex_txid (Z.of_nat i)) t with Some t' => ex_loop n t' | None => t end
  end.
Fixpoint ex_routines (n : nat) (t : tickState) : tickState :=
  match n with O => t | S n => match routineStep ex_nodeA 0 t with Some t' => ex_routines n t' | None => t end end.
Lemma ex_loop_run n t : rtc (tick_step ex_nodeA) t (ex_loop n t).
Proof. revert t. induction n as [|n IH]; intros t; [done|]. cbn. destruct (loopStep _ _ t) eqn:E; [|done]. eapply rtc_l; [by eapply tick_loop|apply IH]. Qed.
Lemma ex_routines_run n t : rtc (tick_step ex_nodeA) t (ex_routines n t).
Proof. revert t. induction n as [|n IH]; intros t; [done|]. cbn. destruct (routineStep _ _ t) eqn:E; [|done]. eapply rtc_l; [by eapply tick_routine|apply IH]. Qed.
Notation wTick := (ex_routines 8 (ex_loop 8 (sendSourcePathProbeTick (ex_txState x0b ex_key)))).
Lemma ex_tick_done : (length (tk_started wTick), length (tk_running wTick), length (ts_udp (tk_tx wTick))) = (2, 0, 2)%nat.
Proof. vm_compute. reflexivity. Qed.
End DiscoTxProps.
