(* ===== verification/RelaySession.v ===== *)
(** * A relay session: two clients and a relay server

    The relay managers of two clients, the disco receive path of each, and the relay server
    between them, composed as they are on the network: what a manager sends is framed and sealed,
    what reaches the server is handled by it, and what the server writes is classified, opened and
    dispatched by the client it is written to. Packets are delivered one at a time, in the order
    they were sent. The nacl box and the keyed hash are parameters. *)
From S2P Require Import Prelude Netip Bytes Slices Disco Stun Packet Knobs ProbeManager SourceSockets ActivePaths.
From S2P Require Import BetterAddr EndpointState EndpointRecord Endpoint EndpointSend PeerMap Peers.
From S2P Require Import EndpointProps PeersProps UdpRelay UdpRelayProps RelayManager RelayManagerProps DiscoRx.

Module RelaySession.
Import UdpRelay RelayManager DiscoRx UdpRelayProps RelayManagerProps.

(** A packet on its way from or to the client of a leg. *)
Inductive packet := ToServer (i : bool) (b : bytes) | ToClient (i : bool) (b : bytes).
(** The server, and the relay manager and connection of each client. *)
Record net := MkNet {
  nt_srv : Server;
  nt_rm : relayManager * relayManager;
  nt_conn : connState * connState;
  nt_queue : list packet;
  nt_n : nat
}.

(** What the parties know. [keys] are the disco keys of the two clients, [from] the addresses the
    server sees them at, [sd] and [srv] the server's key and address. *)
Record world := MkWorld {
  sealB : bytes -> bytes -> bytes -> bytes;          (* own key, other key, payload *)
  openB : bytes -> bytes -> bytes -> option bytes;
  blake : bytes -> bytes -> bytes;
  keys : bytes * bytes;
  sd : bytes;
  srv : AddrPort;
  from : AddrPort * AddrPort;
  clock : nat -> Z;
  rnd : nat -> bytes;
  rmEnv : bool -> nat -> RelayManager.env;
  connEnv_ : bool -> Env
}.

Section Net.
Context `{MapRange} `{Platform} (wd : world).
Notation key i := (at_ (keys wd) i).

(** A client's output that goes to the server's address. *)
Definition wire (i : bool) (o : relayOut) : list packet :=
  match o with
  | SendDisco dst _ dk m =>
      if bool_decide (ap dst = srv wd)
      then match discoPacket (sealB wd (key i) dk) (key i) (vni dst) m with inr b => [ToServer i b] | inl _ => [] end
      else []
  | RelayEndpointReady _ _ | ReplyServers _ => []
  end.
Definition owner (to : AddrPort) : list bool :=
  if bool_decide (to = at_ (from wd) false) then [false] else if bool_decide (to = at_ (from wd) true) then [true] else [].
(** The connection of client [i]; whether a server has a handshake going is asked of its manager. *)
Definition conn (i : bool) (r : relayManager) : connEnv :=
  MkConnEnv (connEnv_ wd i) false true (openB wd (key i)) (fun k => discoInfo k r) (fun _ => false).
Definition feed (i : bool) (n : nat) (acts : list rxAction) (r : relayManager) : option relayManager :=
  foldl (fun o a => r ← o; match a with RxRelay e => rmStep (rmEnv wd i n) (EvRxDisco e) r | _ => Some r end) (Some r) acts.
Definition server (i : bool) (b : bytes) (n : nat) (s : Server) : Server * srvOut * bool :=
  handlePacket (sd wd) (fun k => sealB wd (sd wd) k) (fun k => openB wd (sd wd) k) (blake wd) (at_ (from wd) i) b (clock wd n) (rnd wd n) s.
Definition client (i : bool) (b : bytes) (n : nat) (c : connState) (r : relayManager) : option (connState * relayManager) :=
  match classifyRx true b (srv wd) with
  | RxDisco msg src flag =>
      let '(c, acts) := handleDiscoMessageWithSource (conn i r) msg src flag zeroNode primarySourceRxMeta c in
      r ← feed i n acts r; Some (c, r)
  | _ => Some (c, r)
  end.
(** Deliver the oldest packet; [None] when a run loop blocks or the server panics. *)
Definition netStep (x : net) : option net :=
  match nt_queue x with
  | [] => Some x
  | ToServer i b :: q =>
      match server i b (nt_n x) (nt_srv x) with
      | (_, SrvPanic, _) => None
      | (s, NoWrite, _) => Some (MkNet s (nt_rm x) (nt_conn x) q (S (nt_n x)))
      | (s, Write b to, _) =>
          Some (MkNet s (nt_rm x) (nt_conn x) (q ++ ((fun j => ToClient j b) <$> owner to)) (S (nt_n x)))
      end
  | ToClient i b :: q =>
      let r0 := at_ (nt_rm x) i in
      '(c, r) ← client i b (nt_n x) (at_ (nt_conn x) i) r0;
      Some (MkNet (nt_srv x) (put_ (nt_rm x) i r) (put_ (nt_conn x) i c)
              (q ++ (drop (length (rm_out r0)) (rm_out r) ≫= wire i)) (S (nt_n x)))
  end.
Fixpoint netSteps (k : nat) (x : net) : option net :=
  match k with O => Some x | S k => x ← netStep x; netSteps k x end.
(** The two handshakes start. *)
Definition netStart (w : nat * nat) (x : net) : net :=
  let r i := hsSettle (rmEnv wd i (nt_n x)) (at_ w i) (at_ (nt_rm x) i) in
  let outs i := drop (length (rm_out (at_ (nt_rm x) i))) (rm_out (r i)) in
  MkNet (nt_srv x) (r false, r true) (nt_conn x)
    (nt_queue x ++ (outs false ≫= wire false) ++ (outs true ≫= wire true)) (S (nt_n x)).

(** ** Facts *)
Lemma netSteps_app a b x y z : netSteps a x = Some y -> netSteps b y = Some z -> netSteps (a + b) x = Some z.
Proof.
  revert x. induction a as [|a IH]; intros x; simpl; [by intros [= ->]|].
  destruct (netStep x) as [x1|]; [|done]. simpl. apply IH.
Qed.
Record world_ok (v : Z) : Prop := {
  wo_box : forall a b x, openB wd b a (sealB wd a b x) = Some x;
  wo_nonce : forall a b x, (NonceLen <= length (sealB wd a b x))%nat;
  wo_blake : forall k x, length (blake wd k x) = 32%nat;
  wo_keys : (keys wd).1 <> (keys wd).2;
  wo_klen : forall i, length (key i) = 32%nat;
  wo_sd : length (sd wd) = 32%nat;
  wo_srv : IsValid (srv wd) = true /\ addrport_ok (srv wd) /\ ip (srv wd) <> DerpMagicIPAddr;
  wo_from : (from wd).1 <> (from wd).2 /\ forall i, IsValid (at_ (from wd) i) = true;
  wo_clock : forall n, 0 < clock wd 0 <= clock wd n /\ clock wd n < clock wd 0 + macSecretRotationInterval
               /\ clock wd n < 2 ^ 63;
  wo_tx : forall i n, length (en_txid (rmEnv wd i n)) = 12%nat /\ length (en_node (rmEnv wd i n)) = 32%nat;
  wo_vni : 1 <= v < 2 ^ 24
}.
Section Facts.
Context (v : Z) (W : world_ok v).

Definition chal (i : bool) (secret : bytes) (g : Z) : BindUDPRelayEndpointCommon :=
  let m := MkBindCommon v g (key (negb i)) (zeros 32) in
  MkBindCommon v g (key (negb i)) (blake wd secret (macInput (at_ (from wd) i) m)).
(** A sealed message in its Geneve frame. *)
Definition frameOf (control : bool) (self other : bytes) (m : Message) : bytes :=
  geneve_bytes (MkGeneve 0 GeneveProtocolDisco (VNI.Set_ v) control)
  ++ Magic ++ self ++ sealB wd self other (AppendMarshal m []).
Lemma geneve_disco_ok c : geneve_ok (MkGeneve 0 GeneveProtocolDisco (VNI.Set_ v) c).
Proof. split; [simpl; lia|]. split; [done|]. apply VNI_Set_IsSet. pose proof (wo_vni _ W). lia. Qed.
Lemma Get_v : VNI.Get (VNI.Set_ v) = v.
Proof. apply VNI_Get_Set. pose proof (wo_vni _ W). lia. Qed.
Lemma IsSet_v : VNI.IsSet (VNI.Set_ v) = true.
Proof. apply VNI_Set_IsSet. pose proof (wo_vni _ W). lia. Qed.
Lemma wire_frame i k dk m :
  wire i (SendDisco (MkEpAddr (srv wd) (VNI.Set_ v)) k dk m) = [ToServer i (frameOf (isRelayHandshakeMsg m) (key i) dk m)].
Proof.
  unfold wire. cbn [ap vni]. rewrite bool_decide_eq_true_2 by done. unfold discoPacket. rewrite IsSet_v.
  rewrite Encode_spec by (apply geneve_disco_ok || done). rstep.
  change (drop 8 (zeros Packet.GeneveFixedHeaderLength)) with (@nil byte). unfold frameOf. by rewrite app_nil_r, <- !app_assoc.
Qed.

(** *** The server *)
Definition srvAt (p : nat) (s : Server) (e : serverEndpoint) : Prop :=
  serverEndpointByVNI s !! v = Some p /\ sv_heap s !! p = Some e
  /\ discoPubKeys e = keys wd /\ se_vni e = v /\ se_closed e = false.
(** A secret that is still accepted. *)
Definition kept (secret : bytes) (s : Server) : Prop :=
  (exists l, macSecrets s = secret :: l)
  \/ exists x, macSecrets s = [x; secret] /\ clock wd 0 <= macSecretRotatedAt s < 2 ^ 63.
Lemma rotate_kept secret n s : kept secret s -> kept secret (maybeRotateMACSecretLocked (clock wd n) (rnd wd n) s).
Proof.
  destruct (wo_clock _ W n) as (C1 & C2 & C3). intros [[l E]|(x & E & R)]; unfold maybeRotateMACSecretLocked.
  - destruct (_ && _); [left; eauto|]. rewrite E. right. exists (rnd wd n). simpl. split; [done|lia].
  - unfold Mono.IsZero. rewrite (proj2 (Z.eqb_neq _ _)) by lia.
    rewrite Mono.Sub_ok by (unfold Mono.ok; lia). rewrite (proj2 (Z.ltb_lt _ _)) by lia. right. eauto.
Qed.
Lemma kept_in secret s : kept secret s -> secret ∈ macSecrets s.
Proof. intros [[l ->]|(x & -> & _)]; [left|right; left]. Qed.
Definition haveSecrets (s : Server) : Prop := macSecrets s = [] -> macSecretRotatedAt s = 0.
Lemma rotate_head n s : haveSecrets s -> exists secret l, macSecrets (maybeRotateMACSecretLocked (clock wd n) (rnd wd n) s) = secret :: l.
Proof.
  intros N. unfold maybeRotateMACSecretLocked. destruct (_ && _) eqn:E.
  - apply andb_true_iff in E as [E _]. destruct (macSecrets s) as [|x l] eqn:Es; [|eauto]. by rewrite (N Es) in E.
  - destruct (macSecrets s); simpl; eauto.
Qed.
Lemma rotate_have n s : haveSecrets s -> haveSecrets (maybeRotateMACSecretLocked (clock wd n) (rnd wd n) s).
Proof. intros N. unfold haveSecrets. destruct (rotate_head n s N) as (x & l & ->). done. Qed.
Lemma rotate_same n s :
  let s' := maybeRotateMACSecretLocked (clock wd n) (rnd wd n) s in
  serverEndpointByVNI s' = serverEndpointByVNI s /\ sv_heap s' = sv_heap s /\ sv_metrics s' = sv_metrics s.
Proof. unfold maybeRotateMACSecretLocked. by destruct (_ && _). Qed.

(** A handshake message of client [i], and what the server makes of it. *)
Lemma server_control i m n s p e :
  srvAt p s e -> isRelayHandshakeMsg m = true -> msg_ok m -> received m = inr m ->
  server i (frameOf true (key i) (sd wd) m) n s
  = (let s1 := maybeRotateMACSecretLocked (clock wd n) (rnd wd n) s in
     let '(e', m', out) := handleDiscoControlMsg (sd wd) (fun k => sealB wd (sd wd) k) (blake wd) (at_ (from wd) i) i m
                             (macSecrets s1) (clock wd n) (sv_metrics s1) e in
     (with_metrics m' (with_heap <[p := e']> s1), out, false)).
Proof.
  intros (Hp & He & Hk & Hv & Hc) _ Hm Hr. unfold server, handlePacket, frameOf.
  rewrite rxLookup_geneve with (p := p); [|apply geneve_disco_ok|by cbn [g_VNI]; rewrite Get_v].
  unfold rxPrepare. cbn [g_Control g_Protocol]. change (negb (GeneveProtocolDisco =? GeneveProtocolDisco)) with false. cbv iota.
  unfold getMACSecrets. destruct (rotate_same n s) as (_ & Eh & _). cbv zeta in Eh.
  set (s1 := maybeRotateMACSecretLocked _ _ _) in *. cbn [rxFinish isData].
  rewrite (drop_app_length' _ _ Packet.GeneveFixedHeaderLength) by (by rewrite length_geneve_bytes).
  rewrite Eh, He. unfold handleSealedDiscoControlMsg. rewrite <- Hk.
  rewrite openControlMsg_sealed; try done; rewrite ?Hk.
  - by destruct (handleDiscoControlMsg _ _ _ _ _ _ _ _ _ _) as [[e' m'] out].
  - apply W.
  - apply (wo_klen _ W).
  - intros x. apply (wo_box _ W).
  - intros x. apply (wo_nonce _ W).
Qed.
Definition chalPkt (i : bool) (secret : bytes) (g : Z) : bytes :=
  frameOf true (sd wd) (key i) (MBindUDPRelayEndpointChallenge (chal i secret g)).
Definition bindMsg (i : bool) (g : Z) : BindUDPRelayEndpointCommon := MkBindCommon v g (key (negb i)) (zeros 32).
Definition answerMsg (i : bool) (secret : bytes) (g : Z) : Message := MBindUDPRelayEndpointAnswer (chal i secret g).
Lemma common_ok_bind i g : 0 < g < 2 ^ 32 -> common_ok (bindMsg i g).
Proof. intros G. pose proof (wo_vni _ W). split; [simpl; lia|]. split; [simpl; lia|]. split; [apply (wo_klen _ W)|done]. Qed.
Lemma common_ok_chal i secret g : 0 < g < 2 ^ 32 -> common_ok (chal i secret g).
Proof.
  intros G. pose proof (wo_vni _ W). split; [simpl; lia|]. split; [simpl; lia|].
  split; [apply (wo_klen _ W)|apply (wo_blake _ W)].
Qed.
Lemma srvAt_update p s e e' m n :
  srvAt p s e -> discoPubKeys e' = keys wd -> se_vni e' = v -> se_closed e' = false ->
  srvAt p (with_metrics m (with_heap <[p := e']> (maybeRotateMACSecretLocked (clock wd n) (rnd wd n) s))) e'.
Proof.
  intros (Hp & He & _) ? ? ?. destruct (rotate_same n s) as (E & _). split; [simpl; by rewrite E|].
  split; [simpl; by rewrite lookup_insert_eq|done].
Qed.
Lemma validate_leg e i c :
  discoPubKeys e = keys wd -> se_vni e = v -> bc_VNI c = v -> bc_RemoteKey c = key (negb i) ->
  UdpRelay.validateVNIAndRemoteKey e i c = true.
Proof.
  intros Hk Hv Cv Ck. unfold UdpRelay.validateVNIAndRemoteKey. rewrite Hk, Hv, Cv, Ck, Z.eqb_refl.
  by rewrite (proj2 (Compare_eq _ _) eq_refl).
Qed.
Lemma not_closed e : se_closed e = false -> bool_decide (stateLocked e = endpointClosed) = false.
Proof. intros C. apply bool_decide_eq_false. unfold stateLocked. rewrite C. by destruct (_ && _). Qed.

(** What lasts over a packet. *)
Definition lasts (s s' : Server) : Prop := haveSecrets s' /\ forall secret, kept secret s -> kept secret s'.
Lemma lasts_rotate p e' m n s :
  haveSecrets s -> lasts s (with_metrics m (with_heap <[p := e']> (maybeRotateMACSecretLocked (clock wd n) (rnd wd n) s))).
Proof. intros N. split; [exact (rotate_have n s N)|]. intros secret K. exact (rotate_kept secret n s K). Qed.

Lemma server_bind i g n s p e :
  srvAt p s e -> haveSecrets s -> 0 < g < 2 ^ 32 ->
  exists s' secret, server i (frameOf true (key i) (sd wd) (MBindUDPRelayEndpoint (bindMsg i g))) n s
      = (s', Write (chalPkt i secret g) (at_ (from wd) i), false)
    /\ srvAt p s' (with_gen e (put_ (inProgressGeneration e) i g)) /\ lasts s s' /\ kept secret s'.
Proof.
  intros Hs N G. pose proof Hs as (_ & _ & Hk & Hv & Hc).
  rewrite (server_control _ _ _ _ _ _ Hs); [|done|by apply common_ok_bind|done]. cbv zeta.
  destruct (rotate_head n s N) as (secret & l & El). pose proof (lasts_rotate p (with_gen e (put_ (inProgressGeneration e) i g))
    (sv_metrics (maybeRotateMACSecretLocked (clock wd n) (rnd wd n) s)) n s N) as L.
  unfold handleDiscoControlMsg. rewrite not_closed, validate_leg by done. cbn [negb bindMsg bc_Generation].
  rewrite (proj2 (Z.eqb_neq _ _)) by lia. rewrite El, challengeReply_write.
  2:{ simpl. rewrite Hv. pose proof (wo_vni _ W). unfold vni_range. rewrite minVNI_val, maxVNI_val. lia. }
  eexists _, secret. split; [|split; [by eapply srvAt_update|split; [exact L|left; exists l; exact El]]].
  unfold chalPkt, frameOf, chal, challengeFor, blakeMACFromBindMsg. simpl discoPubKeys. simpl se_vni.
  rewrite Hk, Hv, <- !app_assoc. done.
Qed.

Lemma server_answer i secret g n s p e :
  srvAt p s e -> haveSecrets s -> 0 < g < 2 ^ 32 -> at_ (inProgressGeneration e) i = g -> kept secret s ->
  exists s' e', server i (frameOf true (key i) (sd wd) (answerMsg i secret g)) n s = (s', NoWrite, false)
    /\ srvAt p s' e' /\ lasts s s'
    /\ boundAddrPorts e' = put_ (boundAddrPorts e) i (at_ (from wd) i)
    /\ inProgressGeneration e' = put_ (inProgressGeneration e) i 0.
Proof.
  intros Hs N G Eg K. pose proof Hs as (_ & _ & Hk & Hv & Hc).
  rewrite (server_control _ _ _ _ _ _ Hs); [|done|by apply common_ok_chal|done]. cbv zeta.
  unfold handleDiscoControlMsg, answerMsg. rewrite not_closed, validate_leg by done.
  cbn [negb]. rewrite Eg. change (bc_Generation (chal i secret g)) with g. rewrite Z.eqb_refl.
  rewrite (proj2 (Z.eqb_neq _ _)) by lia. cbn [orb negb].
  assert (existsb (fun x => bool_decide (blakeMACFromBindMsg (blake wd) x (at_ (from wd) i) (chal i secret g) = bc_Challenge (chal i secret g)))
    (macSecrets (maybeRotateMACSecretLocked (clock wd n) (rnd wd n) s)) = true) as ->.
  { apply existsb_exists. exists secret. split; [apply list_elem_of_In, kept_in, rotate_kept, K|]. by apply bool_decide_eq_true. }
  eexists _, _. split; [done|]. split; [by eapply srvAt_update|]. split; [by apply lasts_rotate|]. by destruct i.
Qed.

(** A packet for the other client. *)
Lemma server_data i h rest n s p e :
  srvAt p s e -> geneve_ok h -> g_Control h = false -> g_VNI h = VNI.Set_ v ->
  server i (geneve_bytes h ++ rest) n s
  = (let '(e', out) := handleDataPacket (at_ (from wd) i) (geneve_bytes h ++ rest) (clock wd n) e in
     (with_heap <[p := e']> s, out, true)).
Proof.
  intros (Hp & He & Hk & Hv & Hc) Hh Hc' HV. unfold server, handlePacket.
  rewrite rxLookup_geneve with (p := p); [|done|by rewrite HV, Get_v].
  unfold rxPrepare. cbn [g_Control]. rewrite Hc'. cbn [rxFinish isData]. rewrite He.
  by destruct (handleDataPacket _ _ _ e).
Qed.
Lemma server_drop i h rest n s p e :
  srvAt p s e -> haveSecrets s -> geneve_ok h -> g_Control h = false -> g_VNI h = VNI.Set_ v -> isBoundLocked e = false ->
  exists s', server i (geneve_bytes h ++ rest) n s = (s', NoWrite, true) /\ srvAt p s' e /\ lasts s s'.
Proof.
  intros Hs N Hh Hc HV Hb. rewrite (server_data i h rest n s p e) by done. unfold handleDataPacket. rewrite Hb.
  eexists. split; [done|]. destruct Hs as (? & He & ?). split; [|done]. split; [done|]. split; [simpl; by rewrite lookup_insert_eq|done].
Qed.
Lemma server_forward i h rest n s p e :
  srvAt p s e -> haveSecrets s -> geneve_ok h -> g_Control h = false -> g_VNI h = VNI.Set_ v -> boundAddrPorts e = from wd ->
  exists s' e', server i (geneve_bytes h ++ rest) n s = (s', Write (geneve_bytes h ++ rest) (at_ (from wd) (negb i)), true)
    /\ srvAt p s' e' /\ lasts s s' /\ boundAddrPorts e' = from wd.
Proof.
  intros Hs N Hh Hc HV Hb. rewrite (server_data i h rest n s p e) by done. pose proof Hs as (Hp & He & Hk & Hv & Hcl).
  unfold handleDataPacket, isBoundLocked. rewrite Hb, not_closed by done. destruct (wo_from _ W) as [Ne Va].
  rewrite (Va false : IsValid (from wd).1 = true), (Va true : IsValid (from wd).2 = true). cbn [negb andb].
  assert (forall e', srvAt p (with_heap <[p := countRx e e' (clock wd n) (length (geneve_bytes h ++ rest))]> s)
    (countRx e e' (clock wd n) (length (geneve_bytes h ++ rest)))) as Up.
  { intros e'. split; [done|]. split; [simpl; by rewrite lookup_insert_eq|done]. }
  destruct i; cbn [at_].
  - rewrite bool_decide_eq_false_2, bool_decide_eq_true_2 by congruence. eexists _, _. split; [done|]. split; [apply Up|done].
  - rewrite bool_decide_eq_true_2 by congruence. eexists _, _. split; [done|]. split; [apply Up|done].
Qed.

(** *** The connections *)
Definition unsent (tx : bytes) (c : connState) : Prop :=
  forall ep e, ps_eps (cn_peers c) !! ep = Some e -> sentPings (eo_state e) !! tx = None.
Definition connOk (i : bool) (c : connState) : Prop :=
  Peers.closed (cn_peers c) = false /\ knownPeerDiscoKey (cn_map c) (key (negb i)) = true
  /\ forall n, unsent (en_txid (rmEnv wd i n)) c.
Lemma client_rx i control self other m dm n c r :
  length self = 32%nat -> msg_ok m -> received m = inr dm ->
  exists msg, discoSender msg = self
    /\ (other = key i -> openDisco (openB wd (key i) self) msg = Some dm)
    /\ client i (frameOf control self other m) n c r
       = (let '(c, acts) := handleDiscoMessageWithSource (conn i r) msg (MkEpAddr (srv wd) (VNI.Set_ v)) control zeroNode
                              primarySourceRxMeta c in
          r ← feed i n acts r; Some (c, r)).
Proof.
  intros Ls Hm Hd. exists (Magic ++ self ++ sealB wd self other (AppendMarshal m [])). split; [|split].
  - unfold discoSender, discoHeaderLen. rewrite app_assoc, take_app_length' by (rewrite length_app, Ls; done).
    apply drop_app_length.
  - intros ->. unfold openDisco, discoHeaderLen. rewrite app_assoc, drop_app_length' by (rewrite length_app, Ls; done).
    by rewrite (wo_box _ W), Parse_AppendMarshal, Hd.
  - unfold client, classifyRx, frameOf. rewrite looks_geneve by (apply geneve_disco_ok || done).
    change (g_Protocol _ =? GeneveProtocolDisco) with true. cbv iota.
    rewrite looksLikeDisco_Magic by (rewrite length_app, Ls; unfold DiscoPublicRawLen; lia).
    rewrite Decode_geneve_bytes by apply geneve_disco_ok. cbn [g_VNI g_Control zeroGeneve].
    rewrite Get_v, orb_false_r, drop_app_length' by (by rewrite length_geneve_bytes). done.
Qed.

Definition discoEv (dm : Message) (sender : bytes) : rmEvent := EvRxDisco (MkDiscoEv dm zeroNode sender (srv wd) v).
Lemma client_challenge i secret g n c r :
  connOk i c -> 0 < g < 2 ^ 32 -> discoInfo (sd wd) r = true ->
  client i (chalPkt i secret g) n c r
  = r ← rmStep (rmEnv wd i n) (discoEv (MBindUDPRelayEndpointChallenge (chal i secret g)) (sd wd)) r; Some (c, r).
Proof.
  intros (Hc & _) G Hd. destruct (client_rx i true (sd wd) (key i) (MBindUDPRelayEndpointChallenge (chal i secret g))
    (MBindUDPRelayEndpointChallenge (chal i secret g)) n c r) as (msg & Es & Eo & E);
    [apply W|by apply common_ok_chal|done|]. unfold chalPkt. rewrite E.
  unfold handleDiscoMessageWithSource. cbn [conn ce_privateKeyIsZero ce_relayHandshake ce_open]. rewrite Hc, Es, Hd.
  cbn [negb]. rewrite (bool_decide_eq_false_2 (ip (ap _) = _)) by apply W. cbn [negb andb]. rewrite Eo by done.
  unfold feed, toRelay. cbn [foldl mbind option_bind ap vni]. by rewrite Get_v.
Qed.

(** A peer's message over the relay: the time of receipt is noted, then it is dispatched. *)
Lemma unsent_update tx ep f c :
  (forall e, sentPings (f e) !! tx = sentPings e !! tx) -> unsent tx c ->
  unsent tx (with_peers (update_ep ep f (cn_peers c)) c).
Proof.
  intros F U q e. simpl. destruct (decide (q = ep)) as [->|]; [rewrite lookup_alter_eq|rewrite lookup_alter_ne by done; apply U].
  destruct (ps_eps (cn_peers c) !! ep) as [e0|] eqn:E; [|done]. simpl. intros [= <-]. simpl. rewrite F. by eapply U.
Qed.
Lemma connOk_noted i ce src c : connOk i c -> connOk i (noteRecvUDP ce src (discoInfoForKnownPeerLocked (key (negb i)) c)).
Proof.
  intros (Hc & Hk & U). unfold noteRecvUDP. destruct (endpointForEpAddr _ _) as [ep|].
  - split; [done|]. split; [done|]. intros n. by apply unsent_update, U.
  - done.
Qed.
Lemma client_peer i m dm n c r :
  connOk i c -> msg_ok m -> received m = inr dm ->
  exists c1, connOk i c1
    /\ client i (frameOf false (key (negb i)) (key i) m) n c r
       = (let '(c, acts) := dispatch (conn i r) dm (key (negb i)) (MkEpAddr (srv wd) (VNI.Set_ v)) false zeroNode
                              primarySourceRxMeta c1 in
          r ← feed i n acts r; Some (c, r)).
Proof.
  intros Hc Hm Hd. destruct (client_rx i false (key (negb i)) (key i) m dm n c r) as (msg & Es & Eo & E);
    [apply (wo_klen _ W)|done|done|]. rewrite E. pose proof Hc as (H1 & H2 & _).
  eexists. split; [by apply (connOk_noted i (conn i r) (MkEpAddr (srv wd) (VNI.Set_ v)))|].
  unfold handleDiscoMessageWithSource. cbn [conn ce_privateKeyIsZero ce_open]. rewrite H1, Es, H2. cbn [negb].
  rewrite (bool_decide_eq_false_2 (ip (ap _) = _)) by apply W. cbn [negb andb]. by rewrite Eo.
Qed.
Lemma client_ping i tx node n c r :
  connOk i c -> length tx = 12%nat -> length node = 32%nat ->
  exists c', connOk i c'
    /\ client i (frameOf false (key (negb i)) (key i) (MPing (MkPing tx node 0))) n c r
       = r ← rmStep (rmEnv wd i n) (discoEv (MPing (MkPing tx node 0)) (key (negb i))) r; Some (c', r).
Proof.
  intros Hc L1 L2. destruct (client_peer i (MPing (MkPing tx node 0)) (MPing (MkPing tx node 0)) n c r Hc) as (c1 & H1 & E);
    [done|simpl; unfold norm_ping; by rewrite andb_false_r|].
  exists c1. split; [done|]. rewrite E. cbn [dispatch]. unfold handlePingLocked. cbn [vni ap]. rewrite IsSet_v.
  rewrite bool_decide_eq_false_2 by apply W. unfold feed, toRelay. cbn [foldl mbind option_bind ap vni]. by rewrite Get_v.
Qed.
Lemma handlePong_unknown env tx src ps e :
  sentPings e !! tx = None ->
  let m := handlePongConnLocked env tx ps src in final m e = e /\ acts m e = [] /\ result m e = false.
Proof.
  intros E. unfold handlePongConnLocked, final, acts, result, mbind, M_bind, gets. cbn [fst snd]. by rewrite E.
Qed.
(** A pong no endpoint waits for changes no endpoint. *)
Lemma askPong_unknown ce tx ps src eps c :
  unsent tx c -> exists c', askPong ce tx ps src eps c = (c', [], false)
    /\ Peers.closed (cn_peers c') = Peers.closed (cn_peers c) /\ cn_map c' = cn_map c
    /\ forall tx', unsent tx' c -> unsent tx' c'.
Proof.
  revert c. induction eps as [|ep eps IH]; intros c U; simpl; [by exists c|].
  destruct (ps_eps (cn_peers c) !! ep) as [e|] eqn:He; [|by apply IH].
  destruct (handlePong_unknown (ce_env ce) tx src ps (eo_state e) (U _ _ He)) as (Ef & Ea & Er). rewrite Ea, Er. cbn [foldl fmap list_fmap app].
  set (c1 := with_peers _ c).
  assert (forall q x, ps_eps (cn_peers c1) !! q = Some x -> exists x0, ps_eps (cn_peers c) !! q = Some x0 /\ eo_state x = eo_state x0) as Sm.
  { intros q x. simpl. destruct (decide (q = ep)) as [->|]; [rewrite lookup_alter_eq, He|rewrite lookup_alter_ne by done; eauto].
    simpl. intros [= <-]. exists e. split; [done|exact Ef]. }
  destruct (IH c1) as (c' & -> & E1 & E2 & E3).
  { intros q x (x0 & Hx & ->)%Sm. by eapply U. }
  exists c'. split; [done|]. split; [exact E1|]. split; [exact E2|]. intros tx' U'. apply E3.
  intros q x (x0 & Hx & ->)%Sm. by eapply U'.
Qed.
Lemma client_pong i j n c r :
  connOk i c -> exists c', connOk i c'
    /\ client i (frameOf false (key (negb i)) (key i) (MPong (MkDPong (en_txid (rmEnv wd i j)) (srv wd)))) n c r
       = r ← rmStep (rmEnv wd i n) (discoEv (MPong (MkDPong (en_txid (rmEnv wd i j)) (norm_addrport (srv wd)))) (key (negb i))) r;
         Some (c', r).
Proof.
  intros Hc. destruct (client_peer i (MPong (MkDPong (en_txid (rmEnv wd i j)) (srv wd)))
    (MPong (MkDPong (en_txid (rmEnv wd i j)) (norm_addrport (srv wd)))) n c r Hc) as (c1 & H1 & E).
  { split; [apply (wo_tx _ W)|apply W]. }
  { done. }
  destruct H1 as (A1 & A2 & A3). rewrite E. cbn [dispatch]. unfold handlePong. cbn [po_TxID po_Src].
  unfold handlePongLocked. change (isPrimary primarySourceRxMeta) with true. cbv iota.
  replace (with_probes (cn_probes c1) c1) with c1 by (by destruct c1).
  set (eps := endpointsWithDiscoKey _ _).
  destruct (askPong_unknown (conn i r) (en_txid (rmEnv wd i j)) (norm_addrport (srv wd)) (MkEpAddr (srv wd) (VNI.Set_ v)) eps c1 (A3 j))
    as (c' & Ea & E1 & E2 & E3).
  exists c'. split; [split; [congruence|split; [by rewrite E2|intros m; apply E3, A3]]|].
  rewrite Ea.
  cbn [negb andb vni app]. rewrite IsSet_v. unfold feed, toRelay. cbn [foldl mbind option_bind ap vni]. by rewrite Get_v.
Qed.

(** *** The relay managers *)
Definition workOk (work : relayHandshakeWork) : Prop :=
  ServerDisco (hw_se work) = sd wd /\ VNI_ (hw_se work) = v /\ 0 < handshakeGen work < 2 ^ 32
  /\ filter (fun p => IsValid p = true) (AddrPorts (hw_se work)) = [srv wd].
Definition apvOf : addrPortVNI := MkApv (srv wd) v.
(** Where the work is indexed; [aw] tells whether its challenge has arrived. *)
Record indexed (aw : bool) (w : nat) (work : relayHandshakeWork) (r : relayManager) : Prop := {
  ix_vni : handshakeWorkByServerDiscoVNI r !! (sd wd, v) = Some w;
  ix_ep : lookup2 (wl_ep (hw_wlb work)) (sd wd) (handshakeWorkByServerDiscoByEndpoint r) = Some w;
  ix_aw : handshakeWorkAwaitingPong r !! w = if aw then Some apvOf else None;
  ix_ap : addrPortVNIToHandshakeWork r !! apvOf = if aw then Some w else None
}.
Definition hsRunning (aw : bool) (w : nat) (work : relayHandshakeWork) (l : handshakeLocal) (r : relayManager) : Prop :=
  indexed aw w work r /\ discoInfo (sd wd) r = true
  /\ exists g, rm_handshakes r !! w = Some g /\ g_work g = work /\ g_phase g = Running l.
Definition hsReturned (w : nat) (work : relayHandshakeWork) (d : handshakeDone) (r : relayManager) : Prop :=
  indexed true w work r
  /\ exists g, rm_handshakes r !! w = Some g /\ g_work g = work /\ g_phase g = Returned /\ doneCh g = Some d /\ g_offer g = Some d.
Definition hsCommon (i : bool) (work : relayHandshakeWork) : BindUDPRelayEndpointCommon := bindMsg i (handshakeGen work).
Definition pongTo (i : bool) (tx : bytes) : relayOut :=
  SendDisco (MkEpAddr (srv wd) (VNI.Set_ v)) (zeros 32) (key (negb i)) (MPong (MkDPong tx (srv wd))).
Definition ready (work : relayHandshakeWork) (lat : Z) : relayOut :=
  let addr := MkEpAddr (srv wd) (VNI.Set_ v) in
  RelayEndpointReady (wl_ep (hw_wlb work)) (MkAQ addr (sd wd) lat (pingSizeToPktLen 0 addr)).

Lemma rm_start i n w work r g :
  workOk work -> ee_disco (en_ep (rmEnv wd i n) (wl_ep (hw_wlb work))) = Some (key (negb i)) ->
  rm_handshakes r !! w = Some g -> g_work g = work -> g_phase g = Spawned -> indexed false w work r ->
  let r' := hsSettle (rmEnv wd i n) w r in
  rm_out r' = rm_out r ++ [SendDisco (MkEpAddr (srv wd) (VNI.Set_ v)) (zeros 32) (sd wd) (MBindUDPRelayEndpoint (hsCommon i work))]
  /\ hsRunning false w work (MkHsLocal (hsCommon i work) BindSent ∅) r'.
Proof.
  intros (Wd & Wv & Wg & Wa) Hd Hg Ew Hp [I1 I2 I3 I4]. cbv zeta. unfold hsSettle. rewrite Hg, Hp. unfold hsStart. rewrite Ew, Hd, Wa.
  rewrite bool_decide_eq_false_2 by done. split; [simpl; by rewrite Wd, Wv|].
  split; [split; done|]. split.
  - unfold discoInfo. apply bool_decide_eq_true. simpl. rewrite Ew, Wd, lookup_insert_eq. eauto.
  - eexists. split; [simpl; by rewrite lookup_insert_eq|]. split; [done|]. simpl. by rewrite Wv.
Qed.

Lemma toHandshake_running ev w e r g l :
  rm_handshakes r !! w = Some g -> g_phase g = Running l ->
  toHandshake ev w e r = Some (hsReceive ev w g l (de_from e) (de_msg e) r).
Proof. intros Hg Hp. unfold toHandshake, hsSettle. by rewrite Hg, Hp, Hg; cbn [mbind option_bind]; rewrite Hp. Qed.
Lemma toHandshake_returned ev w e r g d :
  rm_handshakes r !! w = Some g -> g_phase g = Returned -> doneCh g = Some d ->
  toHandshake ev w e r = Some (handleHandshakeWorkDoneRunLoop w d (upd_handshakes <[w := drain g]> r)).
Proof. intros Hg Hp Hd. unfold toHandshake, hsSettle. by rewrite Hg, Hp, Hg; cbn [mbind option_bind]; rewrite Hp, Hd. Qed.
Lemma rm_challenge i n w work secret r :
  workOk work -> hsRunning false w work (MkHsLocal (hsCommon i work) BindSent ∅) r ->
  exists r', rmStep (rmEnv wd i n) (discoEv (MBindUDPRelayEndpointChallenge (chal i secret (handshakeGen work))) (sd wd)) r = Some r'
    /\ rm_out r' = rm_out r ++ [answerTo work (hsCommon i work) (srv wd) (bc_Challenge (chal i secret (handshakeGen work)));
                                pingTo work (key (negb i)) (srv wd) (en_txid (rmEnv wd i n)) (en_node (rmEnv wd i n))]
    /\ hsRunning true w work (MkHsLocal (hsCommon i work) AnswerSent {[en_txid (rmEnv wd i n) := en_now (rmEnv wd i n)]}) r'.
Proof.
  intros (Wd & Wv & Wg & _) ([I1 I2 I3 I4] & Di & g & Hg & Ew & Hp). unfold rmStep, discoEv, handleRxDiscoMsgRunLoop.
  cbn [de_msg de_disco de_vni de_from]. rewrite I1, I3. fold apvOf. rewrite I4.
  rewrite !bool_decide_eq_false_2 by (intros []; done). erewrite toHandshake_running; [|exact Hg|exact Hp].
  unfold hsReceive. rewrite Ew. cbn [de_msg de_from].
  unfold hsMsg, RelayManager.validateVNIAndRemoteKey. cbn [chal bc_VNI bc_RemoteKey hl_common hsCommon bindMsg bc_Challenge].
  rewrite Wv, Z.eqb_refl, (proj2 (Compare_eq _ _) eq_refl). cbn [andb negb handshakeState].
  change (AnswerSent <=? BindSent) with false. cbv iota. unfold txPing. cbn [sentPingAt]. rewrite map_size_empty.
  change (0 =? limitPings)%nat with false. cbv iota. cbn [hl_common bc_VNI bc_Generation bc_RemoteKey app handshakeState sentPingAt].
  eexists. split; [reflexivity|]. split; [reflexivity|].
  split; [split|split]; cbn; rewrite ?lookup_insert_eq; try done. by eexists.
Qed.
Lemma rm_ping i n w work c0 sent tx node r :
  workOk work -> hsRunning true w work (MkHsLocal c0 AnswerSent sent) r -> bc_RemoteKey c0 = key (negb i) -> (size sent < limitPings)%nat ->
  exists r', rmStep (rmEnv wd i n) (discoEv (MPing (MkPing tx node 0)) (key (negb i))) r = Some r'
    /\ rm_out r' = rm_out r ++ [pongTo i tx; pingTo work (key (negb i)) (srv wd) (en_txid (rmEnv wd i n)) (en_node (rmEnv wd i n))]
    /\ hsRunning true w work (MkHsLocal c0 AnswerSent (<[en_txid (rmEnv wd i n) := en_now (rmEnv wd i n)]> sent)) r'.
Proof.
  intros (Wd & Wv & Wg & _) ([I1 I2 I3 I4] & Di & g & Hg & Ew & Hp) Hr Hl. unfold rmStep, discoEv, handleRxDiscoMsgRunLoop.
  cbn [de_msg de_disco de_vni de_from]. fold apvOf. cbn [emit addrPortVNIToHandshakeWork]. rewrite I4.
  erewrite toHandshake_running; [|exact Hg|exact Hp]. unfold hsReceive. rewrite Ew. cbn [de_msg de_from].
  unfold hsMsg. cbn [handshakeState]. change (AnswerSent <? AnswerSent) with false. cbv iota.
  unfold txPing. cbn [sentPingAt hl_common handshakeState]. rewrite (proj2 (Nat.eqb_neq _ _)) by lia.
  eexists. split; [reflexivity|]. split; [simpl; rewrite <- app_assoc; unfold pongTo, pingTo; by rewrite Hr|].
  split; [split|split]; cbn; rewrite ?lookup_insert_eq; try done. by eexists.
Qed.
Lemma rm_pong i n w work l tx at' src r :
  hsRunning true w work l r -> sentPingAt l !! tx = Some at' ->
  exists r', rmStep (rmEnv wd i n) (discoEv (MPong (MkDPong tx src)) (key (negb i))) r = Some r'
    /\ rm_out r' = rm_out r /\ hsReturned w work (MkHsDone (srv wd) (i64 (en_now (rmEnv wd i n) - at'))) r'.
Proof.
  intros ([I1 I2 I3 I4] & Di & g & Hg & Ew & Hp) Hs. unfold rmStep, discoEv, handleRxDiscoMsgRunLoop.
  cbn [de_msg de_disco de_vni de_from]. fold apvOf. rewrite I4.
  erewrite toHandshake_running; [|exact Hg|exact Hp]. unfold hsReceive. rewrite Ew. cbn [de_msg de_from].
  unfold hsMsg. cbn [po_TxID]. rewrite Hs. unfold hsReturn. rewrite derefDiscoInfoFor_del.
  eexists. split; [reflexivity|]. split; [simpl; by rewrite app_nil_r|].
  split; [split; done|]. eexists. split; [cbn; by rewrite lookup_insert_eq|]. by cbn.
Qed.
Lemma done_ready w work d g r :
  workOk work -> lookup2 (wl_ep (hw_wlb work)) (sd wd) (handshakeWorkByServerDiscoByEndpoint r) = Some w ->
  rm_handshakes r !! w = Some g -> g_work g = work -> pongReceivedFrom d = srv wd ->
  rm_out (handleHandshakeWorkDoneRunLoop w d r) = rm_out r ++ [ready work (hd_latency d)].
Proof.
  intros (Wd & Wv & _) Hx Hg Ew Hd. unfold handleHandshakeWorkDoneRunLoop. rewrite Hg, Ew, Wd, Hx, Wv.
  rewrite bool_decide_eq_true_2 by done. cbn [negb]. rewrite Hd, (proj1 (wo_srv _ W)). cbn [negb].
  unfold ready. cbn [emit rm_out]. by destruct (handshakeWorkAwaitingPong _ !! w).
Qed.
Lemma rm_ping_returned i n w work d tx node r :
  workOk work -> hsReturned w work d r -> pongReceivedFrom d = srv wd ->
  exists r', rmStep (rmEnv wd i n) (discoEv (MPing (MkPing tx node 0)) (key (negb i))) r = Some r'
    /\ rm_out r' = rm_out r ++ [pongTo i tx; ready work (hd_latency d)].
Proof.
  intros Wk ([I1 I2 I3 I4] & g & Hg & Ew & Hp & Hd & _) Hf. unfold rmStep, discoEv, handleRxDiscoMsgRunLoop.
  cbn [de_msg de_disco de_vni de_from]. fold apvOf. cbn [emit addrPortVNIToHandshakeWork]. rewrite I4.
  erewrite toHandshake_returned; [|exact Hg|exact Hp|exact Hd]. eexists. split; [reflexivity|].
  erewrite (done_ready w work d (drain g)); [|exact Wk|exact I2|cbn; by rewrite lookup_insert_eq|exact Ew|exact Hf].
  simpl. by rewrite <- app_assoc.
Qed.
Lemma rm_done ev w work d r :
  workOk work -> hsReturned w work d r -> pongReceivedFrom d = srv wd ->
  exists r', rmStep ev (EvHandshakeDone w) r = Some r' /\ rm_out r' = rm_out r ++ [ready work (hd_latency d)].
Proof.
  intros Wk ([I1 I2 I3 I4] & g & Hg & Ew & Hp & Hd & Ho) Hf. unfold rmStep. rewrite Hg. cbn [mbind option_bind]. rewrite Ho.
  eexists. split; [reflexivity|].
  rewrite (done_ready w work d (withdraw g)); [done|exact Wk|exact I2|cbn; by rewrite lookup_alter_eq, Hg|exact Ew|exact Hf].
Qed.

(** *** Steps of the network *)
Lemma owner_from j : owner (at_ (from wd) j) = [j].
Proof.
  unfold owner. destruct (wo_from _ W) as [Ne _]. destruct j; simpl.
  - rewrite bool_decide_eq_false_2, bool_decide_eq_true_2 by congruence. done.
  - by rewrite bool_decide_eq_true_2.
Qed.
Lemma step_write i j b b' f q s s' rs cs n :
  server i b n s = (s', Write b' (at_ (from wd) j), f) ->
  netStep (MkNet s rs cs (ToServer i b :: q) n) = Some (MkNet s' rs cs (q ++ [ToClient j b']) (S n)).
Proof. intros E. unfold netStep. cbn [nt_queue nt_n nt_srv nt_rm nt_conn]. by rewrite E, owner_from. Qed.
Lemma step_none i b f q s s' rs cs n :
  server i b n s = (s', NoWrite, f) ->
  netStep (MkNet s rs cs (ToServer i b :: q) n) = Some (MkNet s' rs cs q (S n)).
Proof. intros E. unfold netStep. cbn [nt_queue nt_n nt_srv nt_rm nt_conn]. by rewrite E. Qed.
Lemma step_client i b q s rs cs n c' r' outs :
  client i b n (at_ cs i) (at_ rs i) = Some (c', r') -> rm_out r' = rm_out (at_ rs i) ++ outs ->
  netStep (MkNet s rs cs (ToClient i b :: q) n) = Some (MkNet s (put_ rs i r') (put_ cs i c') (q ++ (outs ≫= wire i)) (S n)).
Proof.
  intros E Eo. unfold netStep. cbn [nt_queue nt_n nt_srv nt_rm nt_conn]. rewrite E. cbn [mbind option_bind].
  by rewrite Eo, drop_app_length.
Qed.
(** The messages of client [i], as the server gets them. *)
Notation bindOf i work := (ToServer i (frameOf true (key i) (sd wd) (MBindUDPRelayEndpoint (hsCommon i work)))).
Notation answerOf i secret work := (ToServer i (frameOf true (key i) (sd wd) (answerMsg i secret (handshakeGen work)))).
Notation peerMsg i m := (frameOf false (key i) (key (negb i)) m).
Definition pingMsg (i : bool) (n : nat) : Message := MPing (MkPing (en_txid (rmEnv wd i n)) (en_node (rmEnv wd i n)) 0).
Definition pongMsg (i : bool) (n : nat) : Message := MPong (MkDPong (en_txid (rmEnv wd i n)) (srv wd)).
Lemma wire_answer i secret work n :
  workOk work ->
  [answerTo work (hsCommon i work) (srv wd) (bc_Challenge (chal i secret (handshakeGen work)));
   pingTo work (key (negb i)) (srv wd) (en_txid (rmEnv wd i n)) (en_node (rmEnv wd i n))] ≫= wire i
  = [answerOf i secret work; ToServer i (peerMsg i (pingMsg i n))].
Proof.
  intros (Wd & Wv & _). unfold answerTo, pingTo. rewrite Wd, Wv. cbn [mbind list_bind]. by rewrite !wire_frame.
Qed.
Lemma wire_pong_ping i work j n :
  workOk work ->
  [pongTo i (en_txid (rmEnv wd (negb i) j)); pingTo work (key (negb i)) (srv wd) (en_txid (rmEnv wd i n)) (en_node (rmEnv wd i n))]
    ≫= wire i = [ToServer i (peerMsg i (pongMsg (negb i) j)); ToServer i (peerMsg i (pingMsg i n))].
Proof.
  intros (Wd & Wv & _). unfold pongTo, pingTo. rewrite Wv. cbn [mbind list_bind]. by rewrite !wire_frame.
Qed.
Lemma wire_pong_ready i work lat j :
  [pongTo i (en_txid (rmEnv wd (negb i) j)); ready work lat] ≫= wire i = [ToServer i (peerMsg i (pongMsg (negb i) j))].
Proof. unfold pongTo, ready. cbn [mbind list_bind]. rewrite wire_frame. done. Qed.

(** The challenge of client [i] is answered. *)
Lemma client_answers i secret n q s rs cs w work :
  workOk work -> connOk i (at_ cs i) -> hsRunning false w work (MkHsLocal (hsCommon i work) BindSent ∅) (at_ rs i) ->
  exists r', netStep (MkNet s rs cs (ToClient i (chalPkt i secret (handshakeGen work)) :: q) n)
      = Some (MkNet s (put_ rs i r') cs (q ++ [answerOf i secret work; ToServer i (peerMsg i (pingMsg i n))]) (S n))
    /\ hsRunning true w work (MkHsLocal (hsCommon i work) AnswerSent {[en_txid (rmEnv wd i n) := en_now (rmEnv wd i n)]}) r'.
Proof.
  intros Wk Hc Hr. destruct (rm_challenge i n w work secret (at_ rs i) Wk Hr) as (r' & E & Eo & Hr').
  exists r'. split; [|done]. erewrite step_client; [|rewrite client_challenge, E; [reflexivity|done|apply Wk|apply Hr]|exact Eo].
  rewrite wire_answer by done. by destruct i, cs.
Qed.
(** A ping reaches client [i], whose handshake still runs: it answers and pings itself. *)
Lemma client_pings i j n q s rs cs w work c0 sent :
  workOk work -> connOk i (at_ cs i) -> hsRunning true w work (MkHsLocal c0 AnswerSent sent) (at_ rs i) ->
  bc_RemoteKey c0 = key (negb i) -> (size sent < limitPings)%nat ->
  exists c' r', netStep (MkNet s rs cs (ToClient i (frameOf false (key (negb i)) (key i) (pingMsg (negb i) j)) :: q) n)
      = Some (MkNet s (put_ rs i r') (put_ cs i c')
          (q ++ [ToServer i (peerMsg i (pongMsg (negb i) j)); ToServer i (peerMsg i (pingMsg i n))]) (S n))
    /\ connOk i c' /\ hsRunning true w work (MkHsLocal c0 AnswerSent (<[en_txid (rmEnv wd i n) := en_now (rmEnv wd i n)]> sent)) r'.
Proof.
  intros Wk Hc Hr Hk Hl. destruct (wo_tx _ W (negb i) j) as [L1 L2].
  destruct (client_ping i _ _ n (at_ cs i) (at_ rs i) Hc L1 L2) as (c' & Hc' & E).
  destruct (rm_ping i n w work c0 sent (en_txid (rmEnv wd (negb i) j)) (en_node (rmEnv wd (negb i) j)) (at_ rs i) Wk Hr Hk Hl)
    as (r' & E' & Eo & Hr').
  exists c', r'. split; [|done]. erewrite step_client; [|unfold pingMsg; rewrite E, E'; reflexivity|exact Eo].
  by rewrite wire_pong_ping.
Qed.
(** A pong for one of its pings reaches client [i]. *)
Lemma client_returns i j n q s rs cs w work l at' :
  connOk i (at_ cs i) -> hsRunning true w work l (at_ rs i) -> sentPingAt l !! en_txid (rmEnv wd i j) = Some at' ->
  exists c' r', netStep (MkNet s rs cs (ToClient i (frameOf false (key (negb i)) (key i) (pongMsg i j)) :: q) n)
      = Some (MkNet s (put_ rs i r') (put_ cs i c') q (S n))
    /\ connOk i c' /\ hsReturned w work (MkHsDone (srv wd) (i64 (en_now (rmEnv wd i n) - at'))) r'.
Proof.
  intros Hc Hr Hs. destruct (client_pong i j n (at_ cs i) (at_ rs i) Hc) as (c' & Hc' & E).
  destruct (rm_pong i n w work l _ at' (norm_addrport (srv wd)) (at_ rs i) Hr Hs) as (r' & E' & Eo & Hr').
  exists c', r'. split; [|done]. erewrite (step_client _ _ _ _ _ _ _ _ _ []);
    [|unfold pongMsg; rewrite E, E'; reflexivity|by rewrite app_nil_r]. by rewrite app_nil_r.
Qed.
(** A ping reaches client [i] after its handshake returned. *)
Lemma client_finishes i j n q s rs cs w work d :
  workOk work -> connOk i (at_ cs i) -> hsReturned w work d (at_ rs i) -> pongReceivedFrom d = srv wd ->
  exists c' r', netStep (MkNet s rs cs (ToClient i (frameOf false (key (negb i)) (key i) (pingMsg (negb i) j)) :: q) n)
      = Some (MkNet s (put_ rs i r') (put_ cs i c') (q ++ [ToServer i (peerMsg i (pongMsg (negb i) j))]) (S n))
    /\ connOk i c' /\ ready work (hd_latency d) ∈ rm_out r'.
Proof.
  intros Wk Hc Hr Hf. destruct (wo_tx _ W (negb i) j) as [L1 L2].
  destruct (client_ping i _ _ n (at_ cs i) (at_ rs i) Hc L1 L2) as (c' & Hc' & E).
  destruct (rm_ping_returned i n w work d (en_txid (rmEnv wd (negb i) j)) (en_node (rmEnv wd (negb i) j)) (at_ rs i) Wk Hr Hf)
    as (r' & E' & Eo).
  exists c', r'. split; [|split; [done|rewrite Eo, elem_of_app; right; right; left]].
  erewrite step_client; [|unfold pingMsg; rewrite E, E'; reflexivity|exact Eo]. by rewrite wire_pong_ready.
Qed.
(** A message between the clients, before and after both legs are bound. *)
Lemma server_drops i m n s p e q rs cs :
  srvAt p s e -> haveSecrets s -> isBoundLocked e = false ->
  exists s', netStep (MkNet s rs cs (ToServer i (peerMsg i m) :: q) n) = Some (MkNet s' rs cs q (S n)) /\ srvAt p s' e /\ lasts s s'.
Proof.
  intros Hs N Hb. destruct (server_drop i (MkGeneve 0 GeneveProtocolDisco (VNI.Set_ v) false)
    (Magic ++ key i ++ sealB wd (key i) (key (negb i)) (AppendMarshal m [])) n s p e Hs N (geneve_disco_ok _) eq_refl eq_refl Hb) as (s' & E & H').
  exists s'. split; [by eapply step_none|done].
Qed.
Lemma server_forwards i m n s p e q rs cs :
  srvAt p s e -> haveSecrets s -> boundAddrPorts e = from wd ->
  exists s' e', netStep (MkNet s rs cs (ToServer i (peerMsg i m) :: q) n)
      = Some (MkNet s' rs cs (q ++ [ToClient (negb i) (peerMsg i m)]) (S n))
    /\ srvAt p s' e' /\ haveSecrets s' /\ boundAddrPorts e' = from wd.
Proof.
  intros Hs N Hb. destruct (server_forward i (MkGeneve 0 GeneveProtocolDisco (VNI.Set_ v) false)
    (Magic ++ key i ++ sealB wd (key i) (key (negb i)) (AppendMarshal m [])) n s p e Hs N (geneve_disco_ok _) eq_refl eq_refl Hb)
    as (s' & e' & E & H1 & H2 & H3).
  exists s', e'. split; [by eapply step_write|]. split; [done|]. split; [apply H2|done].
Qed.

(** *** The session *)
Ltac step_by E := cbn [negb put_ fst snd] in E |- *; rewrite E; clear E; cbn [mbind option_bind app put_ fst snd].
Context (p wA wB : nat) (workA workB : relayHandshakeWork) (WA : workOk workA) (WB : workOk workB).
Definition sentA (n : nat) : gmap bytes Z := {[en_txid (rmEnv wd false n) := en_now (rmEnv wd false n)]}.
Definition sentB (n : nat) : gmap bytes Z := {[en_txid (rmEnv wd true n) := en_now (rmEnv wd true n)]}.
Definition connsOk (cs : connState * connState) : Prop := forall i, connOk i (at_ cs i).

(** Both clients bind, are challenged and answer: four steps. *)
Lemma session_binds s e rs cs n :
  srvAt p s e -> haveSecrets s -> connsOk cs ->
  hsRunning false wA workA (MkHsLocal (hsCommon false workA) BindSent ∅) rs.1 ->
  hsRunning false wB workB (MkHsLocal (hsCommon true workB) BindSent ∅) rs.2 ->
  exists s' e' sA sB rs', netSteps 4 (MkNet s rs cs [bindOf false workA; bindOf true workB] n)
      = Some (MkNet s' rs' cs [answerOf false sA workA; ToServer false (peerMsg false (pingMsg false (2 + n)));
                               answerOf true sB workB; ToServer true (peerMsg true (pingMsg true (3 + n)))] (4 + n))
    /\ srvAt p s' e' /\ haveSecrets s' /\ kept sA s' /\ kept sB s' /\ boundAddrPorts e' = boundAddrPorts e
    /\ inProgressGeneration e' = (handshakeGen workA, handshakeGen workB)
    /\ hsRunning true wA workA (MkHsLocal (hsCommon false workA) AnswerSent (sentA (2 + n))) rs'.1
    /\ hsRunning true wB workB (MkHsLocal (hsCommon true workB) AnswerSent (sentB (3 + n))) rs'.2.
Proof.
  intros Hs N Hc HA HB. pose proof WA as (_ & _ & GA & _). pose proof WB as (_ & _ & GB & _). cbn [netSteps].
  destruct (server_bind false _ n s p e Hs N GA) as (s1 & sA & E1 & Hs1 & [N1 K1] & KA).
  unfold hsCommon. erewrite step_write by exact E1. cbn [mbind option_bind app].
  destruct (server_bind true _ (S n) s1 p _ Hs1 N1 GB) as (s2 & sB & E2 & Hs2 & [N2 K2] & KB).
  erewrite step_write by exact E2. cbn [mbind option_bind app].
  destruct (client_answers false sA (S (S n)) [ToClient true (chalPkt true sB (handshakeGen workB))] s2 rs cs wA workA WA (Hc false) HA)
    as (rA & -> & HA'). cbn [mbind option_bind app].
  destruct (client_answers true sB (S (S (S n))) [answerOf false sA workA; ToServer false (peerMsg false (pingMsg false (S (S n))))]
    s2 (put_ rs false rA) cs wB workB WB (Hc true) HB) as (rB & -> & HB'). cbn [mbind option_bind app].
  eexists s2, _, sA, sB, _. split; [reflexivity|]. split; [exact Hs2|]. split; [done|]. split; [by apply K2|].
  do 3 (split; [done|]). split; [exact HA'|exact HB'].
Qed.
(** The answers bind both legs; the first ping is dropped, the second goes through: four steps. *)
Lemma session_opens s e rs cs n m1 m2 sA sB :
  srvAt p s e -> haveSecrets s -> kept sA s -> kept sB s -> boundAddrPorts e = (zeroAddrPort, zeroAddrPort) ->
  inProgressGeneration e = (handshakeGen workA, handshakeGen workB) ->
  exists s' e', netSteps 4 (MkNet s rs cs [answerOf false sA workA; ToServer false (peerMsg false m1);
                                           answerOf true sB workB; ToServer true (peerMsg true m2)] n)
      = Some (MkNet s' rs cs [ToClient false (peerMsg true m2)] (4 + n))
    /\ srvAt p s' e' /\ haveSecrets s' /\ boundAddrPorts e' = from wd.
Proof.
  intros Hs N KA KB Hb Hg. pose proof WA as (_ & _ & GA & _). pose proof WB as (_ & _ & GB & _). cbn [netSteps].
  destruct (server_answer false sA _ n s p e Hs N GA) as (s1 & e1 & E1 & Hs1 & [N1 K1] & Eb1 & Eg1); [by rewrite Hg|done|].
  erewrite step_none by exact E1. cbn [mbind option_bind].
  destruct (server_drops false m1 (S n) s1 p e1 [answerOf true sB workB; ToServer true (peerMsg true m2)] rs cs Hs1 N1)
    as (s2 & -> & Hs2 & [N2 K2]); [unfold isBoundLocked; rewrite Eb1, Hb; apply andb_false_r|]. cbn [mbind option_bind].
  destruct (server_answer true sB (handshakeGen workB) (S (S n)) s2 p e1 Hs2 N2 GB) as (s3 & e3 & E3 & Hs3 & [N3 K3] & Eb3 & _);
    [by rewrite Eg1, Hg|by apply K2, K1|].
  erewrite step_none by exact E3. cbn [mbind option_bind].
  destruct (server_forwards true m2 (S (S (S n))) s3 p e3 [] rs cs Hs3 N3) as (s4 & e4 & -> & Hs4 & N4 & Eb4).
  { rewrite Eb3, Eb1, Hb. by destruct (from wd). }
  cbn [mbind option_bind]. by exists s4, e4.
Qed.
(** From the ping that got through to both results: seven steps. *)
Lemma session_pings s e rs cs n k a b :
  srvAt p s e -> haveSecrets s -> boundAddrPorts e = from wd -> connsOk cs -> (size (sentA a) < limitPings)%nat ->
  hsRunning true wA workA (MkHsLocal (hsCommon false workA) AnswerSent (sentA a)) rs.1 ->
  hsRunning true wB workB (MkHsLocal (hsCommon true workB) AnswerSent (sentB b)) rs.2 -> k = b ->
  exists s' e' rs' cs', netSteps 7 (MkNet s rs cs [ToClient false (peerMsg true (pingMsg true k))] n) = Some (MkNet s' rs' cs' [] (7 + n))
    /\ srvAt p s' e' /\ haveSecrets s' /\ boundAddrPorts e' = from wd
    /\ hsReturned wA workA (MkHsDone (srv wd) (i64 (en_now (rmEnv wd false (6 + n)) - en_now (rmEnv wd false n)))) rs'.1
    /\ ready workB (i64 (en_now (rmEnv wd true (3 + n)) - en_now (rmEnv wd true b))) ∈ rm_out rs'.2.
Proof.
  intros Hs N Hb Hc Hl HA HB ->. cbn [netSteps].
  destruct (client_pings false b n [] s rs cs wA workA _ _ WA (Hc false) HA eq_refl Hl) as (c1 & r1 & E1 & Hc1 & HA1).
  step_by E1.
  destruct (server_forwards false (pongMsg true b) (S n) s p e [ToServer false (peerMsg false (pingMsg false n))]
    (put_ rs false r1) (put_ cs false c1) Hs N Hb) as (s2 & e2 & E2 & Hs2 & N2 & Hb2). step_by E2.
  destruct (server_forwards false (pingMsg false n) (S (S n)) s2 p e2 [ToClient true (peerMsg false (pongMsg true b))]
    (put_ rs false r1) (put_ cs false c1) Hs2 N2 Hb2) as (s3 & e3 & E3 & Hs3 & N3 & Hb3). step_by E3.
  destruct (client_returns true b (S (S (S n))) [ToClient true (peerMsg false (pingMsg false n))] s3 (put_ rs false r1) (put_ cs false c1)
    wB workB _ (en_now (rmEnv wd true b)) (Hc true) HB) as (c4 & r4 & E4 & Hc4 & HB4); [by cbn; unfold sentB; rewrite lookup_singleton_eq|].
  step_by E4.
  destruct (client_finishes true n (S (S (S (S n)))) [] s3 (r1, r4) (c1, c4) wB workB _ WB Hc4 HB4 eq_refl) as (c5 & r5 & E5 & Hc5 & HB5).
  step_by E5.
  destruct (server_forwards true (pongMsg false n) (S (S (S (S (S n))))) s3 p e3 [] (r1, r5) (c1, c5) Hs3 N3 Hb3)
    as (s6 & e6 & E6 & Hs6 & N6 & Hb6). step_by E6.
  destruct (client_returns false n (S (S (S (S (S (S n)))))) [] s6 (r1, r5) (c1, c5) wA workA _ (en_now (rmEnv wd false n)) Hc1 HA1)
    as (c7 & r7 & E7 & Hc7 & HA7); [cbn; by rewrite lookup_insert_eq|]. step_by E7.
  exists s6, e6, (r7, r5), (c7, c5). do 4 (split; [done|]). split; [exact HA7|exact HB5].
Qed.
End Facts.

(** A handshake about to start in a manager, for the session's VNI. *)
Definition spawned (v : Z) (w : nat) (work : relayHandshakeWork) (r : relayManager) : Prop :=
  RelayManagerProps.reachable r
  /\ (exists g, rm_handshakes r !! w = Some g /\ g_work g = work /\ g_phase g = Spawned)
  /\ handshakeWorkAwaitingPong r !! w = None /\ addrPortVNIToHandshakeWork r !! apvOf v = None.
Lemma spawned_start v i n w work r :
  world_ok v -> workOk v work -> spawned v w work r ->
  ee_disco (en_ep (rmEnv wd i n) (wl_ep (hw_wlb work))) = Some (key (negb i)) ->
  let r' := hsSettle (rmEnv wd i n) w r in
  drop (length (rm_out r)) (rm_out r') ≫= wire i
    = [ToServer i (frameOf v true (key i) (sd wd) (MBindUDPRelayEndpoint (hsCommon v i work)))]
  /\ hsRunning v false w work (MkHsLocal (hsCommon v i work) BindSent ∅) r'.
Proof.
  intros W Wk (R & (g & Hg & Ew & Hp) & Ha & Hb) Hd. apply reachable_rm_ok in R as (I & _).
  pose proof Wk as (Wd & Wv & _).
  destruct (hi_go _ _ _ _ _ _ _ _ _ I _ _ Hg) as (_ & _ & Ph). unfold phase_ok in Ph. rewrite Hp in Ph. destruct Ph as (Hx & _).
  destruct (hi_ep _ _ _ _ _ _ _ _ _ I _ _ _ Hx) as (g' & Hg' & _ & Hv). rewrite Hg in Hg'. injection Hg' as <-.
  rewrite Ew in Hx, Hv. unfold keyA, keyB in Hx, Hv. rewrite Wd in Hx. rewrite Wd, Wv in Hv.
  destruct (rm_start v i n w work r g Wk Hd Hg Ew Hp) as [Eo Hr]; [by split|]. cbv zeta. split; [|exact Hr].
  rewrite Eo, drop_app_length. cbn [mbind list_bind]. by rewrite (wire_frame v W).
Qed.

(** [C1] A relay session comes up. Two clients whose relay managers have each just started a
    handshake for the same endpoint of a relay server, which knows the endpoint but has neither leg
    bound, need the delivery of fifteen packets, in the order they are sent: the binds, the
    challenges, the answers, and pings and pongs through the server. Then nothing is left in flight,
    both legs are bound to the clients' addresses, each manager has its result, the relay path at
    the server's address and VNI with the round-trip time of its ping, and from then on every
    WireGuard packet one client sends to that path is received by the other. No run loop blocks and
    the server does not panic on the way. *)
Theorem relay_session_opens v x p e w work :
  world_ok v -> nt_queue x = [] ->
  srvAt v p (nt_srv x) e -> haveSecrets (nt_srv x) -> boundAddrPorts e = (zeroAddrPort, zeroAddrPort) ->
  (forall i, connOk i (at_ (nt_conn x) i) /\ spawned v (at_ w i) (at_ work i) (at_ (nt_rm x) i) /\ workOk v (at_ work i)
     /\ ee_disco (en_ep (rmEnv wd i (nt_n x)) (wl_ep (hw_wlb (at_ work i)))) = Some (key (negb i))) ->
  exists x' e', netSteps 15 (netStart w x) = Some x' /\ nt_queue x' = []
    /\ srvAt v p (nt_srv x') e' /\ boundAddrPorts e' = from wd /\ stateLocked e' = endpointOpen
    /\ (forall ev, exists r', rmStep ev (EvHandshakeDone w.1) (nt_rm x').1 = Some r'
          /\ ready v work.1 (i64 (en_now (rmEnv wd false (15 + nt_n x)) - en_now (rmEnv wd false (9 + nt_n x)))) ∈ rm_out r')
    /\ ready v work.2 (i64 (en_now (rmEnv wd true (12 + nt_n x)) - en_now (rmEnv wd true (4 + nt_n x)))) ∈ rm_out (nt_rm x').2
    /\ forall i n head wg, length head = Packet.GeneveFixedHeaderLength -> wireguard_msg wg ->
          exists s', server i (wireguardPacket (VNI.Set_ v) (head ++ wg)) n (nt_srv x')
            = (s', Write (wireguardPacket (VNI.Set_ v) (head ++ wg)) (at_ (from wd) (negb i)), true)
            /\ classifyRx true (wireguardPacket (VNI.Set_ v) (head ++ wg)) (srv wd) = RxWireGuard wg (MkEpAddr (srv wd) (VNI.Set_ v)) true.
Proof.
  intros W Hq Hs N Hb Hi. destruct x as [s rs cs q n], w as [wA wB], work as [kA kB]. cbn [nt_queue nt_srv nt_rm nt_conn nt_n fst snd] in *. subst q.
  destruct (Hi false) as (_ & SA & WA & DA). destruct (Hi true) as (_ & SB & WB & DB).
  assert (connsOk cs) as Hc by (intros i; apply Hi).
  destruct (spawned_start v false n wA kA rs.1 W WA SA DA) as [EA HA].
  destruct (spawned_start v true n wB kB rs.2 W WB SB DB) as [EB HB].
  unfold netStart. cbn [nt_queue nt_srv nt_rm nt_conn nt_n at_ fst snd app]. rewrite EA, EB. cbn [app].
  destruct (session_binds v W p wA wB kA kB WA WB s e (hsSettle (rmEnv wd false n) wA rs.1, hsSettle (rmEnv wd true n) wB rs.2) cs (S n) Hs N Hc HA HB)
    as (s1 & e1 & sA & sB & rs1 & E1 & Hs1 & N1 & KA & KB & Eb & Eg & HA1 & HB1).
  rewrite Hb in Eb.
  destruct (session_opens v W p kA kB WA WB s1 e1 rs1 cs (4 + S n)%nat (pingMsg false (2 + S n)) (pingMsg true (3 + S n)) sA sB
    Hs1 N1 KA KB Eb Eg) as (s2 & e2 & E2 & Hs2 & N2 & Eb2).
  destruct (session_pings v W p wA wB kA kB WA WB s2 e2 rs1 cs (4 + (4 + S n))%nat (3 + S n)%nat (2 + S n)%nat (3 + S n)%nat Hs2 N2 Eb2 Hc)
    as (s3 & e3 & rs3 & cs3 & E3 & Hs3 & N3 & Eb3 & HA3 & HB3); [unfold sentA; rewrite map_size_singleton; unfold limitPings; lia|done|done|done|].
  exists (MkNet s3 rs3 cs3 [] (7 + (4 + (4 + S n)))), e3. cbn [nt_queue nt_srv nt_rm nt_conn nt_n].
  split; [exact (netSteps_app 4 _ _ _ _ E1 (netSteps_app 4 _ _ _ _ E2 E3))|].
  do 3 (split; [done|]). split.
  { unfold stateLocked. destruct Hs3 as (_ & _ & _ & _ & ->). rewrite Eb3. destruct (wo_from _ W) as [_ Va].
    by rewrite (Va false : IsValid (from wd).1 = true), (Va true : IsValid (from wd).2 = true). }
  split; [|split; [exact HB3|]].
  - intros ev. destruct (rm_done v W ev wA kA _ rs3.1 WA HA3 eq_refl) as (r' & E & Eo). exists r'. split; [exact E|].
    rewrite Eo, elem_of_app. right. left.
  - intros i m head wg Lh Hw. pose proof (wireguard_delivered (VNI.Set_ v) head wg (srv wd)) as D.
    rewrite (IsSet_v v W) in D. unfold wireguardPacket in *. cbn [g_VNI] in *. rewrite (IsSet_v v W) in *.
    set (h := MkGeneve 0 GeneveProtocolWireGuard (VNI.Set_ v) false) in *.
    assert (geneve_ok h) as Hh by (split; [simpl; lia|]; split; [done|apply (IsSet_v v W)]).
    rewrite Encode_spec in * by (done || (rewrite length_app, Lh; unfold Packet.GeneveFixedHeaderLength; lia)).
    destruct (server_forward v W i h (drop 8 (head ++ wg)) m s3 p e3 Hs3 N3 Hh eq_refl eq_refl Eb3) as (s' & e' & E & _).
    exists s'. split; [exact E|]. apply D; [|done|done]. right. exists v. pose proof (wo_vni _ W). split; [lia|done].
Qed.
End Net.

(** ** Example *)
Section Examples.
#[local] Existing Instance canonical_range.
#[local] Existing Instance portable_platform.
Definition ex_blake32 (k x : bytes) : bytes := take 32 (k ++ x ++ zeros 32).
Definition ex_hsEnv (i : bool) (n : nat) : RelayManager.env :=
  RelayManager.MkEnv (fun _ => MkEpEnv (Some (at_ (UdpRelayProps.ex_keyA, UdpRelayProps.ex_keyB) (negb i))) (MkAddrPort DerpMagicIPAddr 3) (replicate 32 x0c))
    (at_ (UdpRelayProps.ex_keyA, UdpRelayProps.ex_keyB) i) (replicate 32 x0d) (1000 + Z.of_nat n) (be_put 12 (Z.of_nat n)).
Definition ex_world : world :=
  MkWorld (fun _ _ x => zeros 24 ++ x) (fun _ _ x => Some (drop 24 x)) ex_blake32 (UdpRelayProps.ex_keyA, UdpRelayProps.ex_keyB)
    UdpRelayProps.ex_server (MkAddrPort (Addr4 0x01020304) 7000) (UdpRelayProps.ex_fromA, UdpRelayProps.ex_fromB)
    (fun _ => 10) (fun _ => UdpRelayProps.ex_secret) ex_hsEnv (fun _ => ex_peersEnv).
Definition ex_hsWork : relayHandshakeWork :=
  MkHsWork ex_wlb (MkSE UdpRelayProps.ex_server (UdpRelayProps.ex_keyA, UdpRelayProps.ex_keyB) 1 [MkAddrPort (Addr4 0x01020304) 7000] 1 1000 1000) zeroCand 1.
Definition ex_called : relayManager :=
  doAll [(ex_hsEnv false 0, EvNewServerEndpoint ex_wlb (MkRelayEndpoint UdpRelayProps.ex_server
    (UdpRelayProps.ex_keyA, UdpRelayProps.ex_keyB) 1 1 1000 1000 [MkAddrPort (Addr4 0x01020304) 7000]))] zeroRM.
Definition ex_known (i : bool) : connState :=
  MkConn (orStay (wUpsert (ex_peerNode 1 x0e (at_ (UdpRelayProps.ex_keyA, UdpRelayProps.ex_keyB) (negb i))) ex_flags newPeers) newPeers)
    (clearLocked (MkPM ∅ [] [] ∅ ∅ ∅ ∅ ∅ ∅)).
Definition ex_net : net := MkNet (cf_srv ex_c0) (ex_called, ex_called) (ex_known false, ex_known true) [] 0.

Lemma ex_world_ok : world_ok ex_world 1.
Proof.
  split; cbn [sealB openB blake keys sd srv from clock rnd rmEnv ex_world].
  - intros a b x. by rewrite drop_app_length'.
  - intros a b x. rewrite length_app. change (length (zeros 24)) with 24%nat. unfold NonceLen. lia.
  - intros k x. unfold ex_blake32. rewrite length_take, !length_app.
    change (length (zeros 32)) with 32%nat. lia.
  - discriminate.
  - by intros [].
  - done.
  - split; [done|]. split; [|discriminate]. split; simpl; lia.
  - split; [discriminate|by intros []].
  - intros n. vm_compute. repeat split; discriminate.
  - intros i n. split; [apply length_be_put|done].
  - lia.
Qed.
Lemma ex_known_ok i : connOk ex_world i (ex_known i).
Proof.
  split; [destruct i; vm_compute; reflexivity|]. split; [destruct i; vm_compute; reflexivity|].
  assert (forallb (fun x => bool_decide (sentPings (eo_state x.2) = ∅)) (map_to_list (ps_eps (cn_peers (ex_known i)))) = true) as F
    by (destruct i; vm_compute; reflexivity).
  intros n ep e He. rewrite forallb_forall in F. apply elem_of_map_to_list, list_elem_of_In in He. apply F in He.
  apply bool_decide_eq_true in He. simpl in He. by rewrite He, lookup_empty.
Qed.
Lemma ex_called_spawned : spawned ex_world 1 0 ex_hsWork ex_called.
Proof.
  split; [apply reachable_doAll, rtc_refl|].
  assert (match rm_handshakes ex_called !! 0%nat with
          | Some g => bool_decide (handshakeWorkAwaitingPong ex_called !! 0%nat = None)
                      && bool_decide (addrPortVNIToHandshakeWork ex_called !! apvOf ex_world 1 = None)
          | None => false end = true) as E by (vm_compute; reflexivity).
  destruct (rm_handshakes ex_called !! 0%nat) as [g|] eqn:Hg; [|discriminate E].
  apply andb_true_iff in E as [E1%bool_decide_eq_true E2%bool_decide_eq_true]. split; [|by split].
  exists g. split; [done|]. vm_compute in Hg. injection Hg as <-. split; reflexivity.
Qed.
Lemma ex_srvAt : exists e, srvAt ex_world 1 0 (cf_srv ex_c0) e /\ boundAddrPorts e = (zeroAddrPort, zeroAddrPort).
Proof.
  destruct (sv_heap (cf_srv ex_c0) !! 0%nat) as [e|] eqn:E; [|vm_compute in E; discriminate E].
  assert (bool_decide (serverEndpointByVNI (cf_srv ex_c0) !! 1 = Some 0%nat) = true) as Ev by (vm_compute; reflexivity).
  apply bool_decide_eq_true in Ev. exists e. unfold srvAt. rewrite Ev, E. vm_compute in E. injection E as <-. by repeat split.
Qed.
Lemma relay_session_opens_witness :
  exists x', netSteps ex_world 15 (netStart ex_world (0, 0)%nat ex_net) = Some x' /\ nt_queue x' = []
    /\ ready ex_world 1 ex_hsWork 8 ∈ rm_out (nt_rm x').2.
Proof.
  destruct ex_srvAt as (e & Hs & Hb).
  destruct (relay_session_opens ex_world 1 ex_net 0 e (0, 0)%nat (ex_hsWork, ex_hsWork) ex_world_ok eq_refl Hs)
    as (x' & e' & E & Q & _ & _ & _ & _ & R & _).
  - intros N. vm_compute in N. vm_compute. reflexivity.
  - exact Hb.
  - intros i. split; [destruct i; apply ex_known_ok|]. split; [destruct i; exact ex_called_spawned|].
    split; [|by destruct i]. destruct i; (split; [reflexivity|]; split; [reflexivity|]; split; [simpl; lia|reflexivity]).
  - exists x'. split; [exact E|]. split; [exact Q|]. exact R.
Defined.
End Examples.
End RelaySession.
