(* ===== verification/DataPath.v ===== *)
(** * The data path: choosing sockets for a batch and sending it
      (sourcepath.go, sourcepath_supported.go, magicsock.go, endpoint.go)

    The [Conn]'s side of a send: the probe manager, the auxiliary sockets and the log of the
    writes made. What the operating system answers to the n-th write, to a rebind and to
    DERP is an argument, as are the lookups of a peer by address. *)
From S2P Require Import Prelude Netip Bytes Float64 Knobs ProbeManager Scorer Flows SourceSockets.
From S2P Require Import ActivePaths EndpointState BetterAddr EndpointRecord Endpoint EndpointSend.

(** Errors of a send; [hostUnreachable] is what [errors.Is(err, EHOSTUNREACH)] says. *)
Inductive sendErr :=
| SErrExpired | SErrNoUDPOrDERP | SErrSourcePathUnavailable
| SErrNet (hostUnreachable : bool) (code : Z).
Definition isBadEndpointErr (err : sendErr) : bool :=
  match err with SErrNet b _ => b | _ => false end.

(** The outcome of one [WriteWireGuardBatchTo]; [WGSODisabled] is [ErrUDPGSODisabled] with its
    [RetryErr]. *)
Inductive writeResult := WOk | WErr (e : sendErr) | WGSODisabled (retry : option sendErr).
Definition writeErr (r : writeResult) : option sendErr :=
  match r with WOk => None | WErr e => Some e | WGSODisabled retry => retry end.

Record write := MkWrite { w_source : sourceRxMeta; w_dst : epAddr; w_err : option sendErr }.

(** The part of [Conn] a send works on. *)
Record connState := MkConn {
  c_pm : sourcePathProbeManager;
  c_sockets : sourcePathState;
  c_writes : list write;
  c_derp : list (AddrPort * bool)            (* packets handed to DERP, and whether it took them *)
}.
Definition set_pm (pm : sourcePathProbeManager) (s : connState) : connState :=
  MkConn pm (c_sockets s) (c_writes s) (c_derp s).

(** What a send reads around it. *)
Record SendEnv := MkSendEnv {
  se_env : Env;
  se_clock : nat -> Z;                       (* mono.Now, by the number of writes made before *)
  se_net : nat -> writeResult;               (* by the number of writes made before *)
  se_listen : Z -> option error;             (* listening again for a socket id *)
  se_primaryRTTForDst : epAddr -> Z;
  se_primaryPongsSinceDst : epAddr -> Z -> Z;
  se_fallbackDERPRegion : Z;
  se_derpOK : nat -> bool;                   (* by the number of packets handed over before *)
  se_buffs : list bytes;
  se_offset : Z
}.

Definition N (A : Type) : Type := connState -> connState * A.
#[export] Instance N_ret : MRet N := fun A x s => (s, x).
#[export] Instance N_bind : MBind N := fun A B f m s => let '(s, x) := m s in f x s.
Definition pmOp {A} (f : sourcePathProbeManager -> sourcePathProbeManager * A) : N A :=
  fun s => let '(pm, x) := f (c_pm s) in (set_pm pm s, x).
Definition pmUpd (f : sourcePathProbeManager -> sourcePathProbeManager) : N unit :=
  pmOp (fun pm => (f pm, tt)).
Definition getsC {A} (f : connState -> A) : N A := fun s => (s, f s).

Definition wireGuardBatchIsTransport (buffs : list bytes) (offset : Z) : bool :=
  match buffs with
  | [] => false
  | b :: _ =>
      if (offset <? 0) || (Z.of_nat (length b) - offset <? 4) then false
      else le_get (take 4 (drop (Z.to_nat offset) b)) =? MessageTransportType
  end.

Section DataPath.
Context `{MapRange} `{Platform} (se : SendEnv).
Notation k := (e_knobs (se_env se)).
Notation now_ := (e_now (se_env se)).

Definition clock : N Z := getsC (fun s => se_clock se (length (c_writes s))).

(** ** Candidates *)
Definition probeSources (dst : epAddr) : N (list sourceRxMeta) :=
  getsC (fun s => sourcePathProbeSources k (Is4 (ip (ap dst))) (c_sockets s)).
Definition sourcePathBestCandidate (dst : epAddr) : N (option sourcePathCandidateScore) :=
  if negb (isDirect dst) then mret None
  else
    sources ← probeSources dst;
    if bool_decide (sources = []) then mret None
    else
      now ← clock;
      pmOp (fun pm => bestCandidateLocked k pm dst sources now (se_primaryRTTForDst se dst)).
Definition sourcePathBestFailoverCandidate (dst : epAddr) (now : Z) : N (option sourceRxMeta) :=
  if negb (isDirect dst) then mret None
  else
    sources ← probeSources dst;
    if bool_decide (sources = []) then mret None
    else
      score ← pmOp (fun pm => bestCandidateLocked k pm dst sources now 0);
      mret (cs_source <$> score).

(** ** Active backup *)
Definition noteSourcePathPrimarySendSuccess (dst : epAddr) : N unit :=
  if negb (sourcePathActiveBackupEnabled k) || negb (isDirect dst) then mret tt
  else pmUpd (fun pm => set_activeBackup pm
         (alter (fun st => MkAB 0 (failoverAt st) (holdUntil st) (ab_source st)) dst (activeBackup pm))).

Definition noteSourcePathPrimarySendFailure (dst : epAddr) (now : Z) : N (option sourceRxMeta) :=
  if negb (sourcePathActiveBackupEnabled k) || negb (isDirect dst) || (sourcePathAuxSocketCount k =? 0)
  then mret None
  else
    st ← getsC (fun s => default zeroAB (activeBackup (c_pm s) !! dst));
    let st1 := MkAB (i64 (sendFailStreak st + 1)) (failoverAt st) (holdUntil st) (ab_source st) in
    let store := pmUpd (fun pm => set_activeBackup pm (<[dst := st1]> (activeBackup pm))) in
    if negb (Mono.IsZero (failoverAt st1)) && negb (isPrimary (ab_source st1)) then
      store ;; mret (Some (ab_source st1))
    else if sendFailStreak st1 <? sourcePathActiveBackupPrimaryFailStreakValue k then
      store ;; mret None
    else
      source ← sourcePathBestFailoverCandidate dst now;
      match source with
      | None => mret None
      | Some source =>
          pmUpd (fun pm =>
            let st := default zeroAB (activeBackup pm !! dst) in
            set_activeBackup pm (<[dst := MkAB (sendFailStreak st) now
              (Mono.Add now (sourcePathActiveBackupFailoverHoldValue k)) source]> (activeBackup pm))) ;;
          mret (Some source)
      end.

Definition sourcePathActiveBackupCandidate (dst : epAddr) (now : Z) : N (option sourceRxMeta) :=
  if negb (sourcePathActiveBackupEnabled k) || negb (isDirect dst) then mret None
  else
    ost ← getsC (fun s => activeBackup (c_pm s) !! dst);
    match ost with
    | None => mret None
    | Some st =>
        if Mono.IsZero (failoverAt st) || isPrimary (ab_source st) then mret None
        else
          let pongs := se_primaryPongsSinceDst se dst (failoverAt st) in
          let drop := pmUpd (fun pm => set_activeBackup pm (delete dst (activeBackup pm))) in
          if (sourcePathActiveBackupRecoveryPongsValue k <=? pongs)
             || (Mono.After now (holdUntil st) && (0 <? pongs))
          then drop ;; mret None
          else
            avail ← getsC (fun s => sourcePathSourceAvailable k dst (ab_source st) (c_sockets s));
            if avail : bool then mret (Some (ab_source st))
            else
              source ← sourcePathBestFailoverCandidate dst now;
              match source with
              | Some source =>
                  pmUpd (fun pm => set_activeBackup pm (alter (fun st =>
                    MkAB (sendFailStreak st) (failoverAt st) (holdUntil st) source) dst (activeBackup pm))) ;;
                  mret (Some source)
              | None => drop ;; mret None
              end
    end.

(** ** Dual send from an auxiliary socket *)
Definition sourcePathDualSendCandidate (dst : epAddr) : N (option sourceRxMeta) :=
  if negb (sourcePathDualSendEnabled k) || negb (isDirect dst) then mret None
  else
    sources ← probeSources dst;
    match sources with
    | [] => mret None
    | first :: _ =>
        now ← clock;
        score ← pmOp (fun pm => bestCandidateLocked k pm dst sources now 0);
        let source := match score with Some sc => cs_source sc | None => first end in
        let maxSkew := sourcePathDualSendMaxSkewValue k in
        let primaryRTT := se_primaryRTTForDst se dst in
        let skewed := match score with
                      | Some sc => (0 <? maxSkew) && (0 <? primaryRTT)
                                   && (maxSkew <=? absDuration (i64 (cs_latency sc - primaryRTT)))
                      | None => false
                      end in
        if skewed then mret None
        else
          demoted ← pmOp (fun pm => dualSendDemotedLocked pm (MkDSKey dst source) now);
          mret (if demoted : bool then None else Some source)
    end.

(** ** Single source *)
Definition sourcePathDataSendSource (dst : epAddr) : N sourceRxMeta :=
  if (sourcePathAuxSocketCount k =? 0) || negb (isDirect dst) then mret primarySourceRxMeta
  else if bool_decide (sourcePathDataStrategyMode k = sourcePathDataStrategyActiveBackup) then
    now ← clock;
    source ← sourcePathActiveBackupCandidate dst now;
    mret (default primarySourceRxMeta source)
  else if negb (bool_decide (sourcePathDataStrategyMode k = sourcePathDataStrategySingleSource))
  then mret primarySourceRxMeta
  else
    let forceMode := sourcePathForcedDataSourceMode k in
    if negb (bool_decide (forceMode = EmptyString)) then
      if negb (sourcePathForcedDataSourceModeAllowsAddr forceMode (ip (ap dst)))
      then mret primarySourceRxMeta
      else getsC (fun s => sourcePathForcedDataSendSource dst (c_sockets s))
    else if negb (envSrcSelAutoDataSource k) then mret primarySourceRxMeta
    else
      score ← sourcePathBestCandidate dst;
      mret (match score with Some sc => cs_source sc | None => primarySourceRxMeta end).

Definition sourcePathDataSendSourceForFlow (dst : epAddr) (flowID now : Z) : N sourceRxMeta :=
  if negb (sourcePathFlowAwareEnabled k) || negb (isDirect dst) || (flowID =? 0)
  then sourcePathDataSendSource dst
  else
    backup ← sourcePathActiveBackupCandidate dst now;
    match backup with
    | Some source => mret source
    | None =>
        let forceMode := sourcePathForcedDataSourceMode k in
        if negb (bool_decide (forceMode = EmptyString)) then
          if negb (sourcePathForcedDataSourceModeAllowsAddr forceMode (ip (ap dst)))
          then mret primarySourceRxMeta
          else getsC (fun s => sourcePathForcedDataSendSource dst (c_sockets s))
        else
          let key := MkFlowKey dst flowID in
          let newFlow :=
            score ← sourcePathBestCandidate dst;
            source ← pmOp (fun pm => sourcePathNewFlowSource k pm dst flowID score (se_primaryRTTForDst se dst));
            pmUpd (fun pm => assignFlowLocked k pm key source now) ;;
            mret source in
          st ← pmOp (fun pm => lookupFlowLocked k pm key now);
          match st with
          | None => newFlow
          | Some st =>
              avail ← getsC (fun s => sourcePathSourceAvailable k dst (fl_source st) (c_sockets s));
              if isPrimary (fl_source st) || avail then mret (fl_source st)
              else pmUpd (fun pm => forgetFlowLocked pm key (fl_source st)) ;; newFlow
          end
    end.
Definition sourcePathDataSendSourceForBatch (dst : epAddr) : N sourceRxMeta :=
  if negb (sourcePathFlowAwareEnabled k) then sourcePathDataSendSource dst
  else match sourcePathFlowIDFromBatch (se_buffs se) (se_offset se) with
  | None => sourcePathDataSendSource dst
  | Some flowID => now ← clock; sourcePathDataSendSourceForFlow dst flowID now
  end.

(** ** Writing a batch *)
Definition doWrite (source : sourceRxMeta) (dst : epAddr) : N (option sendErr) := fun s =>
  let err := writeErr (se_net se (length (c_writes s))) in
  (MkConn (c_pm s) (c_sockets s) (c_writes s ++ [MkWrite source dst err]) (c_derp s), err).
(** The primary sockets; the caller has checked that the address is valid. *)
Definition sendUDPBatch (addr : epAddr) : N (option sendErr) := doWrite primarySourceRxMeta addr.
Definition sendUDPBatchFromSource (source : sourceRxMeta) (addr : epAddr) : N (option sendErr) :=
  if isPrimary source then sendUDPBatch addr
  else if negb (isDirect addr) then mret (Some SErrSourcePathUnavailable)
  else
    slot ← getsC (fun s => writeSlot source (Is4 (ip (ap addr))) (c_sockets s));
    match slot with
    | None => mret (Some SErrSourcePathUnavailable)
    | Some _ => doWrite source addr
    end.

Definition rotateSourcePathAuxSocket (source : sourceRxMeta) : N unit := fun s =>
  let '(st, r) := rebindSourcePathSocket k (se_listen se) source (c_sockets s) in
  let s := MkConn (c_pm s) st (c_writes s) (c_derp s) in
  if negb (rb_rebound r) then (s, tt)
  else match rb_err r with
  | Some _ => (s, tt)
  | None => (set_pm (dropSourceLocked (c_pm s) source).1 s, tt)
  end.
Definition noteSourcePathDualSendAuxSuccess (dst : epAddr) (source : sourceRxMeta) : N unit :=
  pmUpd (fun pm => dualSendAuxSuccessLocked pm dst source).
(** Both callers pass a non-nil error. *)
Definition noteSourcePathDualSendAuxFailure (dst : epAddr) (source : sourceRxMeta) (now : Z) : N unit :=
  rotate ← pmOp (fun pm => dualSendAuxFailureLocked k pm dst source now true);
  if rotate : bool then rotateSourcePathAuxSocket source else mret tt.

Definition notePrimary (dst : epAddr) (err : option sendErr) : N unit :=
  match err with
  | Some _ => now ← clock; noteSourcePathPrimarySendFailure dst now ;; mret tt
  | None => noteSourcePathPrimarySendSuccess dst
  end.
Definition noteAux (dst : epAddr) (source : sourceRxMeta) (err : option sendErr) : N unit :=
  match err with
  | Some _ => now ← clock; noteSourcePathDualSendAuxFailure dst source now
  | None => noteSourcePathDualSendAuxSuccess dst source
  end.

(** Two sends of a batch fail together only, with the first error. *)
Definition bothErr (err1 err2 : option sendErr) : option sendErr :=
  match err1, err2 with Some e, Some _ => Some e | _, _ => None end.
(** Result: the error of the send, of the primary and of the auxiliary write. *)
Definition sendUDPBatchDualSource (aux : sourceRxMeta) (addr : epAddr)
  : N (option sendErr * option sendErr * option sendErr) :=
  primaryErr ← sendUDPBatch addr;
  auxErr ← sendUDPBatchFromSource aux addr;
  notePrimary addr primaryErr ;;
  noteAux addr aux auxErr ;;
  mret (bothErr primaryErr auxErr, primaryErr, auxErr).

(** One path of [sendUDPBatchDualSourcePath]. *)
Definition sendPath (path : sourcePathSendPath) : N (option sendErr) :=
  err ← sendUDPBatchFromSource (pt_source path) (pt_dst path);
  (if isPrimary (pt_source path) then notePrimary (pt_dst path) err
   else noteAux (pt_dst path) (pt_source path) err) ;;
  mret err.
Definition sendUDPBatchDualSourcePath (paths : list sourcePathSendPath)
  : N (option sendErr * list (option sendErr)) :=
  match paths with
  | [] => mret (None, [])
  | [path] => err ← sendUDPBatchFromSource (pt_source path) (pt_dst path); mret (err, [err])
  | path0 :: path1 :: _ =>
      err0 ← sendPath path0;
      err1 ← sendPath path1;
      mret (bothErr err0 err1, [err0; err1])
  end.
Definition sendUDPBatchDualEndpoint (addrs : list epAddr)
  : N (option sendErr * option sendErr * option sendErr) :=
  match addrs with
  | [] => mret (None, None, None)
  | [addr] => err ← sendUDPBatch addr; mret (err, err, None)
  | addr0 :: addr1 :: _ =>
      primaryErr ← sendUDPBatch addr0;
      secondaryErr ← sendUDPBatch addr1;
      mret (bothErr primaryErr secondaryErr,
            primaryErr, secondaryErr)
  end.

(** ** [endpoint.send] after the plan *)
Definition badThen (err : option sendErr) (addr : epAddr) (e : endpoint) : endpoint :=
  match err with
  | Some er => if isBadEndpointErr er then noteBadEndpoint addr e else e
  | None => e
  end.
(** The single-source branch; the result is the error and whether the primary sent last. *)
Definition sendSingleSource (udpAddr : epAddr) : N (option sendErr * bool) :=
  source ← sourcePathDataSendSourceForBatch udpAddr;
  err ← sendUDPBatchFromSource source udpAddr;
  if negb (isPrimary source) then
    match err with
    | Some _ =>
        pmUpd (fun pm => noteSourcePathSendFailure pm udpAddr source) ;;
        err ← sendUDPBatch udpAddr;
        mret (err, true)
    | None => mret (None, false)
    end
  else match err with
  | Some er =>
      aux ← noteSourcePathPrimarySendFailure udpAddr now_;
      match aux with
      | None => mret (Some er, true)
      | Some aux =>
          auxErr ← sendUDPBatchFromSource aux udpAddr;
          match auxErr with
          | None => mret (None, false)
          | Some _ => pmUpd (fun pm => noteSourcePathSendFailure pm udpAddr aux) ;; mret (Some er, true)
          end
      end
  | None => noteSourcePathPrimarySendSuccess udpAddr ;; mret (None, true)
  end.

(** What happened to a batch: the error, whether a redundant mode or a single-send reason
    applied, and the endpoint updates to make. *)
Record sent := MkSent {
  st_err : option sendErr; st_dual : bool; st_single : bool; st_update : endpoint -> endpoint
}.
Definition sendUDPAddr (use : bool) (udpAddr : epAddr) : N sent :=
  let degraded := sourcePathDualSendEnabled k && isDirect udpAddr in
  backup ← sourcePathActiveBackupCandidate udpAddr now_;
  match (if use then backup else None) with
  | Some source =>
      err ← sendUDPBatchFromSource source udpAddr;
      match err with
      | Some _ =>
          pmUpd (fun pm => noteSourcePathSendFailure pm udpAddr source) ;;
          mret (MkSent err false degraded id)
      | None => mret (MkSent None false degraded id)
      end
  | None =>
      aux ← sourcePathDualSendCandidate udpAddr;
      match (if use then aux else None) with
      | Some aux =>
          res ← sendUDPBatchDualSource aux udpAddr;
          let '(err, primaryErr, auxErr) := res : option sendErr * option sendErr * option sendErr in
          mret (MkSent err true false
                  (match auxErr with Some _ => badThen primaryErr udpAddr | None => id end))
      | None =>
          if use && sourcePathSingleSourceStrategyEnabled k then
            res ← sendSingleSource udpAddr;
            let '(err, usedPrimarySend) := res : option sendErr * bool in
            mret (MkSent err false degraded (if usedPrimarySend then badThen err udpAddr else id))
          else
            err ← sendUDPBatch udpAddr;
            match err with
            | None => noteSourcePathPrimarySendSuccess udpAddr ;; mret (MkSent None false degraded id)
            | Some _ => mret (MkSent err false degraded (badThen err udpAddr))
            end
      end
  end.

(** The branch on what the plan found: a path pool, several addresses, one address. *)
Definition transmit (use : bool) (paths : list sourcePathSendPath) (dualEndpointAddrs : list epAddr)
    (udpAddr : epAddr) : N sent :=
  if (2 <=? length paths)%nat then
    res ← sendUDPBatchDualSourcePath paths;
    let '(err, errs) := res : option sendErr * list (option sendErr) in
    mret (MkSent err true false (fun e =>
      foldl (fun e (x : sourcePathSendPath * option sendErr) => badThen x.2 (pt_dst x.1) e) e (zip paths errs)))
  else match dualEndpointAddrs with
  | addr0 :: rest =>
      res ← sendUDPBatchDualEndpoint dualEndpointAddrs;
      let '(err, primaryErr, secondaryErr) := res : option sendErr * option sendErr * option sendErr in
      let fail err addr e :=
        match err with
        | Some _ => badThen err addr (noteSourcePathObservedEndpointFailure addr e)
        | None => e
        end in
      mret (MkSent err true false (fun e =>
        let e := fail primaryErr addr0 e in
        match rest with addr1 :: _ => fail secondaryErr addr1 e | [] => e end))
  | [] =>
      if IsValid (ap udpAddr) then sendUDPAddr use udpAddr else mret (MkSent None false false id)
  end.

(** The DERP loop of [endpoint.send]: each packet is tried, and the result is whether all were taken. *)
Definition sendDERP (derp : AddrPort) : N bool := fun s =>
  foldl (fun (acc : connState * bool) (_ : bytes) =>
    let '(s, allOk) := acc in
    let ok := se_derpOK se (length (c_derp s)) in
    (MkConn (c_pm s) (c_sockets s) (c_writes s) (c_derp s ++ [(derp, ok)]), allOk && ok))
    (s, true) (se_buffs se).

(** The path pool of [endpoint.send]: the ranked paths, after the active path policy. *)
Definition sendPool (p : sendPlan) (s : connState) (e : endpoint)
  : connState * endpoint * list sourcePathSendPath :=
  if sourcePathDualSendEnabled k && negb (bool_decide (pl_dsts p = [])) then
    let '(pm, ranked) := sourcePathRankedDualSendPaths k (c_pm s) (c_sockets s) (pl_dsts p) now_ in
    if (2 <=? length ranked)%nat then
      let '(act, paths, _) := sourcePathApplyActivePathPolicyLocked (activePaths e) now_ ranked in
      (set_pm pm s, with_activePaths act e, paths)
    else (set_pm pm s, e, [])
  else (s, e, []).

(** The addresses [endpoint.send] settles on; the last resort is a DERP region known to reach
    the peer. *)
Definition sendRoute (p : sendPlan) (paths : list sourcePathSendPath)
  : epAddr * AddrPort * list epAddr :=
  let '(udpAddr, derp, dualEndpointAddrs) :=
    match paths with
    | path0 :: _ :: _ => (pt_dst path0, zeroAddrPort, pl_dualEndpointAddrs p)
    | _ => (pl_udpAddr p, pl_derpAddr p,
            if sourcePathDualSendEnabled k && negb (bool_decide (pl_dsts p = []))
               && negb (bool_decide (pl_observed p = []))
            then pl_observed p else pl_dualEndpointAddrs p)
    end in
  (udpAddr,
   if negb (IsValid (ap udpAddr)) && negb (IsValid derp) && negb (se_fallbackDERPRegion se =? 0)
   then MkAddrPort DerpMagicIPAddr (uw 16 (se_fallbackDERPRegion se)) else derp,
   dualEndpointAddrs).

(** [endpoint.send]: the state of the connection and of the endpoint, the actions started,
    and the error. *)
Definition send (s : connState) (e : endpoint)
  : connState * endpoint * list action * option sendErr :=
  let use := wireGuardBatchIsTransport (se_buffs se) (se_offset se) in
  let '(e, acts, plan) := planSend (se_env se) use e in
  match plan with
  | None => (s, e, acts, Some SErrExpired)
  | Some p =>
      let '(s, e, paths) := sendPool p s e in
      let '(udpAddr, derp, dualEndpointAddrs) := sendRoute p paths in
      if negb (IsValid (ap udpAddr)) && negb (IsValid derp) then (s, e, acts, Some SErrNoUDPOrDERP)
      else
        let '(s, r) := transmit use paths dualEndpointAddrs udpAddr s in
        let e := st_update r e in
        let e := noteSourcePathDualSendAvailability now_ (st_dual r) (st_single r)
                   (Z.of_nat (length (se_buffs se))) e in
        if IsValid derp then
          let '(s, allOk) := sendDERP derp s in
          (s, e, acts, if allOk : bool then None else st_err r)
        else (s, e, acts, st_err r)
  end.
End DataPath.
