(* ===== verification/DataPathProps.v ===== *)
(** * What a send guarantees

    Rules for reasoning about the send monad (what an operation writes, returns and keeps), and
    the theorems about [endpoint.send]: what its result says about the writes, that the active
    backup never takes over, and where the single-source strategy sends. *)
From S2P Require Import Prelude Netip Bytes Float64 Knobs ProbeManager Scorer Flows SourceSockets.
From S2P Require Import ActivePaths EndpointState BetterAddr EndpointRecord Endpoint EndpointSend.
From S2P Require Import EndpointFacts DataPath.

Notation backups := (gmap epAddr sourcePathActiveBackupState).

(** [triple P m Q]: run where the active-backup table satisfies [P], [m] keeps [P], hands
    nothing to DERP, and appends to the write log some [ws] that [Q] relates to the result. *)
Definition triple (P : backups -> Prop) {A} (m : N A) (Q : list write -> A -> Prop) : Prop :=
  forall s, P (activeBackup (c_pm s)) ->
    P (activeBackup (c_pm (m s).1)) /\ c_derp (m s).1 = c_derp s
    /\ exists ws, c_writes (m s).1 = c_writes s ++ ws /\ Q ws (m s).2.
Definition quiet (P : backups -> Prop) {A} (m : N A) : Prop := triple P m (fun ws _ => ws = []).

(** Predicates of the table that survive the removal and the change of an entry. *)
Class BackupInv (P : backups -> Prop) : Prop := {
  binv_delete : forall m dst, P m -> P (delete dst m);
  binv_alter : forall m f dst, P m -> P (alter f dst m)
}.
#[export] Instance BackupInv_any : BackupInv (fun _ => True).
Proof. by split. Qed.
#[export] Instance BackupInv_empty : BackupInv (fun m => m = ∅).
Proof. split; intros; subst; [apply delete_empty|apply alter_empty]. Qed.

Definition failed (w : write) : Prop := w_err w <> None.

(** What the result of a branch of the send says of its writes, at most [n] of them. *)
Definition honest (n : nat) (ws : list write) (err : option sendErr) : Prop :=
  (length ws <= n)%nat
  /\ match err with
     | None => exists w, w ∈ ws /\ w_err w = None
     | Some _ => Forall failed ws
     end.

(** What the result of a send says: [ws] the writes it made, [ds] the packets it handed to DERP. *)
Definition accounts (packets : nat) (ws : list write) (ds : list (AddrPort * bool)) (r : option sendErr) : Prop :=
  (length ws <= 2)%nat
  /\ (ds = [] \/ length ds = packets /\ exists derp, Forall (fun d => d.1 = derp) ds)
  /\ match r with
     | None => (exists w, w ∈ ws /\ w_err w = None) \/ length ds = packets
     | Some _ => Forall failed ws /\ (ds = [] \/ ~ Forall (fun d => d.2 = true) ds)
     end.

Definition fromPrimary (w : write) : Prop := w_source w = primarySourceRxMeta.

(** The writes of the single-source strategy to [dst], with the error it reports. *)
Inductive singleSourceWrites (dst : epAddr) : list write -> option sendErr -> Prop :=
| SSWPrimary err : singleSourceWrites dst [MkWrite primarySourceRxMeta dst err] err
| SSWAux source : isPrimary source = false ->
    singleSourceWrites dst [MkWrite source dst None] None
| SSWFallback source auxErr err : isPrimary source = false ->
    singleSourceWrites dst [MkWrite source dst (Some auxErr); MkWrite primarySourceRxMeta dst err] err.

(** Consecutive sends to a peer, each in its surroundings. *)
Definition sendAll `{MapRange} `{Platform} (ses : list SendEnv) (s : connState) (e : endpoint)
  : connState * endpoint :=
  foldl (fun '(s, e) se => let '(s, e, _, _) := send se s e in (s, e)) (s, e) ses.

Create HintDb sends.

(** ** Rules *)
Section Rules.
Context (P : backups -> Prop).

Lemma triple_ret {A} (x : A) (Q : list write -> A -> Prop) : Q [] x -> triple P (mret x) Q.
Proof. intros HQ s HP. repeat split; [done|]. exists []. by rewrite app_nil_r. Qed.

Lemma triple_bind {A B} (m : N A) (f : A -> N B) Q1 Q :
  triple P m Q1 -> (forall ws x, Q1 ws x -> triple P (f x) (fun ws' y => Q (ws ++ ws') y)) ->
  triple P (m ≫= f) Q.
Proof.
  intros Hm Hf s HP. destruct (Hm s HP) as (HP1 & Hd1 & ws1 & Hw1 & HQ1).
  unfold mbind, N_bind. destruct (m s) as [s1 x]. simpl in *.
  destruct (Hf ws1 x HQ1 s1 HP1) as (HP2 & Hd2 & ws2 & Hw2 & HQ2).
  split; [done|]. split; [congruence|]. exists (ws1 ++ ws2).
  split; [|done]. rewrite Hw2, Hw1. by rewrite app_assoc.
Qed.

Lemma triple_mono {A} (m : N A) (Q Q' : list write -> A -> Prop) :
  (forall ws x, Q ws x -> Q' ws x) -> triple P m Q -> triple P m Q'.
Proof. intros HQ Hm s HP. destruct (Hm s HP) as (? & ? & ws & ? & ?). eauto 6. Qed.

(** The rule for the operations that write nothing. *)
Lemma triple_quiet {A B} (m : N A) (f : A -> N B) Q :
  quiet P m -> (forall x, triple P (f x) Q) -> triple P (m ≫= f) Q.
Proof. intros Hm Hf. eapply triple_bind; [exact Hm|]. intros ws x ->. apply Hf. Qed.

Lemma quiet_ret {A} (x : A) : quiet P (mret x).
Proof. by apply triple_ret. Qed.

Lemma quiet_gets {A} (f : connState -> A) : quiet P (getsC f).
Proof. intros s HP. repeat split; [done|]. exists []. by rewrite app_nil_r. Qed.

Lemma quiet_pmOp {A} (f : sourcePathProbeManager -> sourcePathProbeManager * A) :
  (forall pm, P (activeBackup pm) -> P (activeBackup (f pm).1)) -> quiet P (pmOp f).
Proof.
  intros Hf s HP. unfold pmOp. specialize (Hf (c_pm s) HP). destruct (f (c_pm s)) as [pm x].
  repeat split; [done|]. exists []. by rewrite app_nil_r.
Qed.

Lemma quiet_pmUpd (f : sourcePathProbeManager -> sourcePathProbeManager) :
  (forall pm, P (activeBackup pm) -> P (activeBackup (f pm))) -> quiet P (pmUpd f).
Proof. intros Hf. by apply quiet_pmOp. Qed.
End Rules.
#[export] Hint Resolve quiet_ret quiet_gets : sends.

(** ** The result and the writes *)
Lemma honest_write source dst err : honest 1 [MkWrite source dst err] err.
Proof.
  split; [done|]. destruct err; [by repeat constructor|]. eexists. split; [by apply list_elem_of_here|done].
Qed.

(** A retry after a failure reports the retry. *)
Lemma honest_retry n1 n2 ws1 ws2 e err :
  honest n1 ws1 (Some e) -> honest n2 ws2 err -> honest (n1 + n2) (ws1 ++ ws2) err.
Proof.
  intros [Hl1 H1] [Hl2 H2]. split; [rewrite length_app; lia|].
  destruct err; [by apply Forall_app|]. destruct H2 as (w & ? & ?).
  exists w. split; [|done]. apply elem_of_app. by right.
Qed.

(** Two sends of the same batch fail together only. *)
Lemma honest_both n1 n2 ws1 ws2 err1 err2 :
  honest n1 ws1 err1 -> honest n2 ws2 err2 -> honest (n1 + n2) (ws1 ++ ws2) (bothErr err1 err2).
Proof.
  intros [Hl1 H1] [Hl2 H2]. split; [rewrite length_app; lia|].
  destruct err1, err2; simpl; [by apply Forall_app| | |].
  all: first [destruct H1 as (w & ? & ?) | destruct H2 as (w & ? & ?)]; exists w;
    (split; [|done]); apply elem_of_app; tauto.
Qed.

Lemma honest_weaken ws err : honest 1 ws err -> honest 2 ws err.
Proof. intros [Hl ?]. split; [by apply Nat.le_le_succ_r|done]. Qed.


(** ** The engine's operations leave the active-backup table alone *)
Section Backup.
Context `{MapRange} `{Platform} (k : Knobs).

Lemma backup_outcomes pm now : activeBackup (pruneExpiredOutcomesLocked k pm now) = activeBackup pm.
Proof. unfold pruneExpiredOutcomesLocked. by repeat case_match. Qed.

Lemma backup_candidate pm dst source now rtt :
  activeBackup (candidateScoreLocked k pm dst source now rtt).1 = activeBackup pm.
Proof.
  unfold candidateScoreLocked, lossRatioLocked.
  destruct (negb (isDirect dst)); [done|]. destruct (isPrimary source); [done|].
  destruct (candidate _); [|done]. destruct (_ <? _); [done|].
  destruct (foldl _ _ _) as [total lost_]. cbn zeta.
  destruct (sourcePathMultiMetricEnabled k); [apply backup_outcomes|].
  destruct (_ && _); apply backup_outcomes.
Qed.

Lemma backup_best pm dst sources now rtt :
  activeBackup (bestCandidateLocked k pm dst sources now rtt).1 = activeBackup pm.
Proof.
  unfold bestCandidateLocked. generalize (@None sourcePathCandidateScore) as best. revert pm.
  induction sources as [|source sources IH]; intros pm best; [done|].
  cbn [foldl]. unfold bestStep at 2.
  pose proof (backup_candidate pm dst source now rtt) as E.
  destruct (candidateScoreLocked k pm dst source now rtt) as [pm' [c|]];
    [destruct best as [b|]; [destruct (betterThan _ _ _)|]|]; by rewrite IH.
Qed.

Lemma backup_demoted pm key now : activeBackup (dualSendDemotedLocked pm key now).1 = activeBackup pm.
Proof. unfold dualSendDemotedLocked. by repeat case_match. Qed.

Lemma backup_newFlow pm dst flowID aux rtt :
  activeBackup (sourcePathNewFlowSource k pm dst flowID aux rtt).1 = activeBackup pm.
Proof. unfold sourcePathNewFlowSource, nextFlowRRLocked. by repeat case_match. Qed.

Lemma backup_pruneFlows pm now : activeBackup (pruneExpiredFlowsLocked k pm now) = activeBackup pm.
Proof. unfold pruneExpiredFlowsLocked. by repeat case_match. Qed.

Lemma backup_evictLoop fuel n pm : activeBackup (evictLoop fuel n pm) = activeBackup pm.
Proof.
  revert pm. induction fuel as [|fuel IH]; intros pm; simpl; [done|].
  destruct (_ <=? _); [|done]. unfold evictOldestFlowLocked.
  destruct (foldl _ _ _) as [[? ?]|]; [|done]. by rewrite IH.
Qed.

Lemma backup_assign pm key source now :
  activeBackup (assignFlowLocked k pm key source now) = activeBackup pm.
Proof.
  unfold assignFlowLocked. cbn [set_flowMap activeBackup]. cbv zeta. destruct (_ <? _); [rewrite backup_evictLoop|]; apply backup_pruneFlows.
Qed.

Lemma backup_lookup pm key now : activeBackup (lookupFlowLocked k pm key now).1 = activeBackup pm.
Proof. unfold lookupFlowLocked. destruct (flowMap _ !! key); apply backup_pruneFlows. Qed.

Lemma backup_forget pm key source : activeBackup (forgetFlowLocked pm key source) = activeBackup pm.
Proof. unfold forgetFlowLocked. by repeat case_match. Qed.

Lemma backup_sendFailure pm dst source :
  activeBackup (noteSourcePathSendFailure pm dst source) = activeBackup pm.
Proof. unfold noteSourcePathSendFailure, invalidateLocked. by repeat case_match. Qed.

Lemma backup_auxFailure pm dst source now b :
  activeBackup (dualSendAuxFailureLocked k pm dst source now b).1 = activeBackup pm.
Proof. unfold dualSendAuxFailureLocked. by repeat case_match. Qed.

Lemma backup_dropSource pm source : activeBackup (dropSourceLocked pm source).1 = activeBackup pm.
Proof. unfold dropSourceLocked. by repeat case_match. Qed.

Lemma backup_rankedForDst pm sources c now limit :
  activeBackup (sourcePathRankedSendPathsForDst k pm sources c now limit).1 = activeBackup pm.
Proof.
  unfold sourcePathRankedSendPathsForDst. destruct (negb _); [done|].
  generalize (if dc_allowPrimarySource c || dc_hasPrimaryRTT c
              then [MkPath (dc_dst c) primarySourceRxMeta (dc_primaryRTT c) (dc_hasPrimaryRTT c) 0]
              else []) as paths.
  enough (forall paths, activeBackup (foldl (rankStep k c now) (pm, paths) sources).1 = activeBackup pm) as E.
  { intros paths. specialize (E paths). by destruct (foldl _ _ _). }
  revert pm. induction sources as [|source sources IH]; intros pm paths; [done|].
  cbn [foldl]. unfold rankStep at 2.
  pose proof (backup_demoted pm (MkDSKey (dc_dst c) source) now) as E.
  destruct (dualSendDemotedLocked _ _ _) as [pm' []]; [by rewrite IH|].
  pose proof (backup_candidate pm' (dc_dst c) source now 0) as E'.
  destruct (candidateScoreLocked _ _ _ _ _ _) as [pm'' [score|]]; [destruct (_ && _)|];
    rewrite IH; simpl in *; congruence.
Qed.

Lemma backup_ranked pm st cands now :
  activeBackup (sourcePathRankedDualSendPaths k pm st cands now).1 = activeBackup pm.
Proof.
  unfold sourcePathRankedDualSendPaths. destruct (negb _); [done|].
  destruct cands as [|c [|c' cands]]; [done|apply backup_rankedForDst|].
  generalize (@nil sourcePathSendPath) as paths. generalize (c :: c' :: cands) as l.
  intros l paths.
  enough (forall paths, activeBackup (foldl (fun '(pm, paths) c =>
      let '(pm, ranked) := sourcePathRankedSendPathsForDst k pm
        (sourcePathProbeSources k (Is4 (ip (ap (dc_dst c)))) st) c now 2 in
      (pm, paths ++ ranked)) (pm, paths) l).1 = activeBackup pm) as E.
  { specialize (E paths). by destruct (foldl _ _ _). }
  clear. revert pm. induction l as [|c l IH]; intros pm paths; [done|]. cbn [foldl].
  pose proof (backup_rankedForDst pm (sourcePathProbeSources k (Is4 (ip (ap (dc_dst c)))) st) c now 2) as E.
  destruct (sourcePathRankedSendPathsForDst _ _ _ _ _ _) as [pm' r]. by rewrite IH.
Qed.
End Backup.
#[export] Hint Rewrite @backup_best @backup_demoted @backup_newFlow @backup_assign @backup_lookup
  @backup_forget @backup_sendFailure @backup_auxFailure @backup_dropSource : backup.

(** Splits a quiet operation into its steps. *)
Ltac qstep :=
  match goal with
  | |- triple ?P ?m (fun ws _ => ws = []) => change (quiet P m)
  | |- quiet _ (_ ≫= _) => apply triple_quiet; [|intros ?]
  | |- quiet _ (mret _) => apply quiet_ret
  | |- quiet _ (getsC _) => apply quiet_gets
  | |- quiet _ (pmUpd _) => apply quiet_pmUpd; intros ? ?; cbn [set_activeBackup activeBackup]
  | |- quiet _ (pmOp _) => apply quiet_pmOp; intros ? ?
  | |- quiet _ (if ?b then _ else _) => destruct b eqn:?
  | |- quiet _ (match ?x with _ => _ end) => destruct x eqn:?
  | |- quiet _ _ => solve [eauto with sends]
  | |- quiet _ _ => progress cbv zeta
  | _ => progress autorewrite with backup
  end.
Ltac quiet := repeat qstep; try solve [eauto | by apply binv_delete | by apply binv_alter].

Section Sends.
Context `{MapRange} `{Platform} (se : SendEnv) (P : backups -> Prop) `{!BackupInv P}.
Notation k := (e_knobs (se_env se)).

Lemma quiet_clock : quiet P (clock se).
Proof. apply quiet_gets. Qed.
Hint Resolve quiet_clock : sends.

Lemma quiet_bestCandidate dst : quiet P (sourcePathBestCandidate se dst).
Proof. unfold sourcePathBestCandidate, probeSources. quiet. Qed.
Lemma quiet_bestFailover dst now : quiet P (sourcePathBestFailoverCandidate se dst now).
Proof. unfold sourcePathBestFailoverCandidate, probeSources. quiet. Qed.
Hint Resolve quiet_bestCandidate quiet_bestFailover : sends.

Lemma quiet_primarySuccess dst : quiet P (noteSourcePathPrimarySendSuccess se dst).
Proof. unfold noteSourcePathPrimarySendSuccess. quiet. Qed.
Lemma quiet_backupCandidate dst now : quiet P (sourcePathActiveBackupCandidate se dst now).
Proof. unfold sourcePathActiveBackupCandidate. quiet. Qed.
Lemma quiet_dualSendCandidate dst : quiet P (sourcePathDualSendCandidate se dst).
Proof. unfold sourcePathDualSendCandidate, probeSources. quiet. Qed.
Lemma quiet_rotate source : quiet P (rotateSourcePathAuxSocket se source).
Proof.
  intros s HP. unfold rotateSourcePathAuxSocket.
  destruct (rebindSourcePathSocket _ _ _ _) as [st r].
  destruct (negb _); [|destruct (rb_err r)]; simpl; rewrite ?backup_dropSource;
    (repeat split; [done|]); exists []; by rewrite app_nil_r.
Qed.
Hint Resolve quiet_primarySuccess quiet_backupCandidate quiet_dualSendCandidate quiet_rotate : sends.

Lemma quiet_dataSendSource dst : quiet P (sourcePathDataSendSource se dst).
Proof. unfold sourcePathDataSendSource. quiet. Qed.
Hint Resolve quiet_dataSendSource : sends.
Lemma quiet_sourceForFlow dst flowID now : quiet P (sourcePathDataSendSourceForFlow se dst flowID now).
Proof. unfold sourcePathDataSendSourceForFlow. quiet. Qed.
Hint Resolve quiet_sourceForFlow : sends.
Lemma quiet_sourceForBatch dst : quiet P (sourcePathDataSendSourceForBatch se dst).
Proof. unfold sourcePathDataSendSourceForBatch. quiet. Qed.
Lemma quiet_noteAux dst source err : quiet P (noteAux se dst source err).
Proof.
  unfold noteAux, noteSourcePathDualSendAuxFailure, noteSourcePathDualSendAuxSuccess. quiet.
Qed.
Hint Resolve quiet_sourceForBatch quiet_noteAux : sends.

(** A failover entry is made only where the active backup is enabled. *)
Hypothesis may_insert : sourcePathActiveBackupEnabled k = false \/ forall m, P m.

Lemma quiet_primaryFailure dst now : quiet P (noteSourcePathPrimarySendFailure se dst now).
Proof.
  unfold noteSourcePathPrimarySendFailure.
  destruct may_insert as [E|Hany]; [rewrite E; apply quiet_ret|]. quiet.
Qed.
Hint Resolve quiet_primaryFailure : sends.
Lemma quiet_notePrimary dst err : quiet P (notePrimary se dst err).
Proof. unfold notePrimary. quiet. Qed.
Hint Resolve quiet_notePrimary : sends.

(** ** Writes *)
Lemma triple_doWrite source dst :
  triple P (doWrite se source dst) (fun ws err => ws = [MkWrite source dst err]).
Proof. intros s HP. split; [done|]. split; [done|]. by eexists. Qed.

(** At most one write, to the address given; the error is its error. *)
Lemma triple_fromSource source dst :
  triple P (sendUDPBatchFromSource se source dst) (fun ws err =>
    if isPrimary source then ws = [MkWrite primarySourceRxMeta dst err]
    else ws = [MkWrite source dst err] \/ ws = [] /\ err = Some SErrSourcePathUnavailable).
Proof.
  unfold sendUDPBatchFromSource. destruct (isPrimary source) eqn:E; [apply triple_doWrite|].
  destruct (negb _); [apply triple_ret; by right|].
  apply triple_quiet; [apply quiet_gets|]. intros [|]; [|apply triple_ret; by right].
  eapply triple_mono; [|apply triple_doWrite]. intros ws x ->. by left.
Qed.

Lemma honest_fromSource source dst : triple P (sendUDPBatchFromSource se source dst) (honest 1).
Proof.
  eapply triple_mono; [|apply triple_fromSource]. cbv beta. intros ws err.
  destruct (isPrimary source); [intros ->; apply honest_write|].
  intros [->|[-> ->]]; [apply honest_write|]. split; [simpl; lia|constructor].
Qed.

Lemma honest_batch dst : triple P (sendUDPBatch se dst) (honest 1).
Proof. apply (honest_fromSource primarySourceRxMeta). Qed.

Lemma quiet_then {A} (m : N A) (Q : list write -> A -> Prop) {B} (f : A -> N B) :
  triple P m Q -> (forall x, quiet P (f x)) -> triple P (x ← m; f x ;; mret x) Q.
Proof.
  intros Hm Hf. eapply triple_bind; [exact Hm|]. intros ws x HQ.
  apply triple_quiet; [apply Hf|]. intros _. apply triple_ret. by rewrite app_nil_r.
Qed.

Lemma honest_sendPath path : triple P (sendPath se path) (honest 1).
Proof.
  unfold sendPath. apply quiet_then; [apply honest_fromSource|].
  intros err. destruct (isPrimary _); eauto with sends.
Qed.

Lemma honest_dualSourcePath paths :
  paths <> [] -> triple P (sendUDPBatchDualSourcePath se paths) (fun ws r => honest 2 ws r.1).
Proof.
  intros Hne. destruct paths as [|p0 [|p1 paths]]; [done| |]; simpl.
  - eapply triple_bind; [apply honest_fromSource|]. intros ws err Hh. apply triple_ret.
    rewrite app_nil_r. by apply honest_weaken.
  - eapply triple_bind; [apply honest_sendPath|]. intros ws1 err1 H1.
    eapply triple_bind; [apply honest_sendPath|]. intros ws2 err2 H2.
    apply triple_ret. rewrite app_nil_r. by apply (honest_both 1 1).
Qed.

Lemma honest_dualEndpoint addrs :
  addrs <> [] -> triple P (sendUDPBatchDualEndpoint se addrs) (fun ws r => honest 2 ws r.1.1).
Proof.
  intros Hne. destruct addrs as [|a0 [|a1 addrs]]; [done| |]; simpl.
  - eapply triple_bind; [apply honest_batch|]. intros ws err Hh. apply triple_ret.
    rewrite app_nil_r. by apply honest_weaken.
  - eapply triple_bind; [apply honest_batch|]. intros ws1 err1 H1.
    eapply triple_bind; [apply honest_batch|]. intros ws2 err2 H2.
    apply triple_ret. rewrite app_nil_r. by apply (honest_both 1 1).
Qed.

Lemma honest_dualSource aux dst :
  triple P (sendUDPBatchDualSource se aux dst) (fun ws r => honest 2 ws r.1.1).
Proof.
  unfold sendUDPBatchDualSource.
  eapply triple_bind; [apply honest_batch|]. intros ws1 err1 H1.
  eapply triple_bind; [apply honest_fromSource|]. intros ws2 err2 H2.
  do 2 (apply triple_quiet; [eauto with sends|intros _]).
  apply triple_ret. rewrite app_nil_r. by apply (honest_both 1 1).
Qed.

Lemma honest_singleSource dst :
  triple P (sendSingleSource se dst) (fun ws r => honest 2 ws r.1).
Proof.
  unfold sendSingleSource. apply triple_quiet; [eauto with sends|]. intros source.
  eapply triple_bind; [apply honest_fromSource|]. intros ws1 [e|] H1.
  2: { destruct (negb _); [|apply triple_quiet; [eauto with sends|intros _]].
       all: apply triple_ret; rewrite app_nil_r; by apply honest_weaken. }
  destruct (negb _).
  - apply triple_quiet; [quiet|intros _].
    eapply triple_bind; [apply honest_batch|]. intros ws2 err2 H2. apply triple_ret.
    rewrite app_nil_r. by eapply (honest_retry 1 1).
  - apply triple_quiet; [eauto with sends|]. intros [aux|].
    2: { apply triple_ret. rewrite app_nil_r. by apply honest_weaken. }
    eapply triple_bind; [apply honest_fromSource|]. intros ws2 [e2|] H2.
    + apply triple_quiet; [quiet|intros _]. apply triple_ret. rewrite app_nil_r.
      by apply (honest_both 1 1 ws1 ws2 (Some e) (Some e2)).
    + apply triple_ret. rewrite app_nil_r. by eapply (honest_retry 1 1).
Qed.
End Sends.

(** Where the other strategies are on, the active backup is off. *)
Lemma other_strategy_no_backup k :
  sourcePathDualSendEnabled k = true \/ sourcePathSingleSourceStrategyEnabled k = true ->
  sourcePathActiveBackupEnabled k = false.
Proof.
  unfold sourcePathDualSendEnabled, sourcePathSingleSourceStrategyEnabled, sourcePathActiveBackupEnabled.
  intros [Hs|Hs]; bool_props;
    match goal with E : sourcePathDataStrategyMode k = _ |- _ => rewrite E end; done.
Qed.

Section Transmit.
Context `{MapRange} `{Platform} (se : SendEnv) (P : backups -> Prop) `{!BackupInv P}.
Notation k := (e_knobs (se_env se)).

Lemma dualSendCandidate_enabled dst :
  triple P (sourcePathDualSendCandidate se dst) (fun ws aux =>
    ws = [] /\ (aux = None \/ sourcePathDualSendEnabled k = true)).
Proof.
  destruct (sourcePathDualSendEnabled k) eqn:E.
  - eapply triple_mono; [|apply quiet_dualSendCandidate; done]. simpl. intros ws x ->. auto.
  - unfold sourcePathDualSendCandidate. rewrite E. apply triple_ret. auto.
Qed.

Lemma honest_udpAddr use dst : triple P (sendUDPAddr se use dst) (fun ws r => honest 2 ws (st_err r)).
Proof.
  unfold sendUDPAddr. cbv zeta.
  apply triple_quiet; [apply quiet_backupCandidate, _|]. intros backup.
  destruct (if use then backup else None) as [source|].
  { eapply triple_bind; [apply honest_fromSource|]. intros ws [e|] Hh.
    - apply triple_quiet; [quiet|intros _]. apply triple_ret. rewrite app_nil_r.
      by apply honest_weaken.
    - apply triple_ret. rewrite app_nil_r. by apply honest_weaken. }
  eapply triple_bind; [apply dualSendCandidate_enabled|]. intros ws0 aux [-> Haux].
  destruct (if use then aux else None) as [aux'|] eqn:Eaux.
  { destruct Haux as [->|Haux]; [by destruct use|].
    eapply triple_bind; [apply honest_dualSource; [done|left; auto using other_strategy_no_backup]|].
    intros ws [[err e1] e2] Hh. apply triple_ret. by rewrite app_nil_r. }
  destruct (use && _) eqn:Esingle.
  { bool_props.
    eapply triple_bind; [apply honest_singleSource; [done|left; auto using other_strategy_no_backup]|].
    intros ws [err b] Hh. apply triple_ret. by rewrite app_nil_r. }
  eapply triple_bind; [apply honest_batch|]. intros ws [e|] Hh.
  - apply triple_ret. rewrite app_nil_r. by apply honest_weaken.
  - apply triple_quiet; [apply quiet_primarySuccess, _|intros _]. apply triple_ret.
    rewrite app_nil_r. by apply honest_weaken.
Qed.

Lemma honest_transmit use paths addrs dst :
  ((2 <= length paths)%nat -> sourcePathDualSendEnabled k = true) ->
  triple P (transmit se use paths addrs dst) (fun ws r =>
    honest 2 ws (st_err r) \/ IsValid (ap dst) = false /\ ws = [] /\ (length paths < 2)%nat).
Proof.
  intros Hpaths. unfold transmit. destruct (2 <=? length paths)%nat eqn:El.
  { apply Nat.leb_le in El.
    eapply triple_bind; [apply honest_dualSourcePath; [done|auto using other_strategy_no_backup|]|].
    { by destruct paths; simpl in El; [lia|]. }
    intros ws [err errs] Hh. apply triple_ret. rewrite app_nil_r. by left. }
  apply Nat.leb_gt in El. destruct addrs as [|a0 rest].
  - destruct (IsValid (ap dst)).
    + eapply triple_mono; [|apply honest_udpAddr]. by left.
    + apply triple_ret. by right.
  - eapply triple_bind; [by apply honest_dualEndpoint|].
    intros ws [[err e1] e2] Hh. apply triple_ret. rewrite app_nil_r. by left.
Qed.
End Transmit.

Section Send.
Context `{MapRange} `{Platform} (se : SendEnv).
Notation k := (e_knobs (se_env se)).
Implicit Types (s : connState) (e : endpoint).

(** The pool writes nothing and is empty unless the dual-send strategy is on. *)
Lemma sendPool_spec p s e :
  let '(s', _, paths) := sendPool se p s e in
  activeBackup (c_pm s') = activeBackup (c_pm s) /\ c_writes s' = c_writes s /\ c_derp s' = c_derp s
  /\ (paths = [] \/ sourcePathDualSendEnabled k = true).
Proof.
  unfold sendPool. destruct (sourcePathDualSendEnabled k) eqn:Ed; [|cbn; by auto].
  destruct (true && _); [|cbn; by auto].
  pose proof (backup_ranked k (c_pm s) (c_sockets s) (pl_dsts p) (e_now (se_env se))) as E.
  destruct (sourcePathRankedDualSendPaths _ _ _ _ _) as [pm ranked]. cbn [fst] in E.
  destruct (2 <=? length ranked)%nat; [|cbn; by auto].
  destruct (sourcePathApplyActivePathPolicyLocked _ _ _) as [[act paths] ev]. cbn; by auto.
Qed.

(** The DERP loop hands over every packet, in order, and reports whether all were taken. *)
Lemma sendDERP_spec derp s :
  exists ds, (sendDERP se derp s).1 = MkConn (c_pm s) (c_sockets s) (c_writes s) (c_derp s ++ ds)
    /\ length ds = length (se_buffs se) /\ Forall (fun d => d.1 = derp) ds
    /\ ((sendDERP se derp s).2 = true <-> Forall (fun d => d.2 = true) ds).
Proof.
  unfold sendDERP.
  enough (forall l s acc, exists ds,
    let r := foldl (fun (acc : connState * bool) (_ : bytes) =>
      let '(s, allOk) := acc in
      let ok := se_derpOK se (length (c_derp s)) in
      (MkConn (c_pm s) (c_sockets s) (c_writes s) (c_derp s ++ [(derp, ok)]), allOk && ok)) (s, acc) l in
    r.1 = MkConn (c_pm s) (c_sockets s) (c_writes s) (c_derp s ++ ds)
    /\ length ds = length l /\ Forall (fun d => d.1 = derp) ds
    /\ (r.2 = true <-> acc = true /\ Forall (fun d => d.2 = true) ds)) as Hloop.
  { destruct (Hloop (se_buffs se) s true) as (ds & ? & ? & ? & ?). exists ds. tauto. }
  clear s. induction l as [|b l IH]; intros s acc.
  { exists []. destruct s. rewrite app_nil_r. repeat split; try done. by intros [? ?]. }
  cbn [foldl]. set (ok := se_derpOK se (length (c_derp s))).
  destruct (IH (MkConn (c_pm s) (c_sockets s) (c_writes s) (c_derp s ++ [(derp, ok)])) (acc && ok))
    as (ds & Hs & Hl & Hd & Hok).
  exists ((derp, ok) :: ds). cbv zeta in *. rewrite Hs, Hok. simpl. rewrite <- app_assoc, Hl.
  split_and!; [done..|by constructor|]. rewrite Forall_cons, andb_true_iff. simpl. tauto.
Qed.

Lemma accounts_nothing n err : accounts n [] [] (Some err).
Proof. unfold accounts. split; [simpl; lia|]. split; [by left|]. split; [constructor|by left]. Qed.

Lemma send_accounts (P : backups -> Prop) `{!BackupInv P} s e :
  P (activeBackup (c_pm s)) ->
  let '(s', _, _, r) := send se s e in
  P (activeBackup (c_pm s'))
  /\ exists ws ds, c_writes s' = c_writes s ++ ws /\ c_derp s' = c_derp s ++ ds /\ accounts (length (se_buffs se)) ws ds r.
Proof.
  intros HP. unfold send. destruct (planSend _ _ _) as [[e1 acts] [p|]].
  2: { split; [done|]. exists [], []. rewrite !app_nil_r. by split_and!; [..|apply accounts_nothing]. }
  pose proof (sendPool_spec p s e1) as Hpool. destruct (sendPool se p s e1) as [[s1 e2] paths].
  destruct Hpool as (Eb & Ew & Ed & Hpaths).
  destruct (sendRoute se p paths) as [[udpAddr derp] addrs].
  destruct (negb (IsValid (ap udpAddr)) && negb (IsValid derp)) eqn:Enone.
  { rewrite Eb. split; [done|]. exists [], []. rewrite !app_nil_r. by split_and!; [..|apply accounts_nothing]. }
  set (use := wireGuardBatchIsTransport _ _).
  destruct (honest_transmit se P use paths addrs udpAddr) with (s := s1) as (HP2 & Hd2 & ws & Hw2 & Hh);
    [by destruct Hpaths as [->|]; [simpl; lia|]|by rewrite Eb|].
  destruct (transmit se use paths addrs udpAddr s1) as [s2 r]. simpl in *.
  destruct (IsValid derp) eqn:Ederp.
  - destruct (sendDERP_spec derp s2) as (ds & Es & Hl & Hall & Hok).
    destruct (sendDERP se derp s2) as [s3 allOk]. simpl in *. subst s3. simpl.
    split; [done|]. exists ws, ds. split; [congruence|]. split; [congruence|].
    unfold accounts. split; [destruct Hh as [[? ?]|(? & -> & ?)]; simpl; lia|].
    split; [right; eauto|]. destruct allOk; [by right|]. destruct (st_err r); [|by right].
    split; [by destruct Hh as [[? ?]|(? & -> & ?)]|]. right. rewrite <- Hok. done.
  - rewrite andb_true_r in Enone. destruct Hh as [[Hl Hh]|(E & _)]; [|by rewrite E in Enone].
    split; [done|]. exists ws, []. rewrite app_nil_r. split; [congruence|]. split; [congruence|].
    unfold accounts. split; [done|]. split; [by left|]. destruct (st_err r); auto.
Qed.
End Send.

(** ** Who writes *)
Section Writers.
Context `{MapRange} `{Platform} (se : SendEnv).
Notation k := (e_knobs (se_env se)).
Implicit Types (s : connState) (e : endpoint).

(** The writes of a send are those of its last stage. *)
Lemma send_writes (P : backups -> Prop) `{!BackupInv P} (Q : list write -> Prop) s e :
  Q [] -> P (activeBackup (c_pm s)) ->
  (forall use paths addrs dst, paths = [] \/ sourcePathDualSendEnabled k = true ->
     triple P (transmit se use paths addrs dst) (fun ws _ => Q ws)) ->
  let '(s', _, _, _) := send se s e in exists ws, c_writes s' = c_writes s ++ ws /\ Q ws.
Proof.
  intros Hnil HP Htr. unfold send. destruct (planSend _ _ _) as [[e1 acts] [p|]].
  2: { exists []. by rewrite app_nil_r. }
  pose proof (sendPool_spec se p s e1) as Hpool. destruct (sendPool se p s e1) as [[s1 e2] paths].
  destruct Hpool as (Eb & Ew & Ed & Hpaths).
  destruct (sendRoute se p paths) as [[udpAddr derp] addrs].
  destruct (negb (IsValid (ap udpAddr)) && negb (IsValid derp)).
  { exists []. by rewrite app_nil_r. }
  set (use := wireGuardBatchIsTransport _ _).
  destruct (Htr use paths addrs udpAddr Hpaths s1) as (_ & _ & ws & Hw & HQ); [by rewrite Eb|].
  destruct (transmit se use paths addrs udpAddr s1) as [s2 r]. simpl in *.
  rewrite <- Ew. destruct (IsValid derp); [|by exists ws].
  destruct (sendDERP_spec se derp s2) as (ds & Es & _).
  destruct (sendDERP se derp s2) as [s3 allOk]. simpl in *. subst s3. by exists ws.
Qed.

(** With an empty table there is no backup to send from. *)
Lemma backupCandidate_empty dst now :
  triple (fun m => m = ∅) (sourcePathActiveBackupCandidate se dst now) (fun ws x => ws = [] /\ x = None).
Proof.
  intros s HP. unfold sourcePathActiveBackupCandidate.
  destruct (_ || _); [|unfold mbind, N_bind, getsC; rewrite HP, lookup_empty];
    (split; [done|]); (split; [done|]); exists []; by rewrite app_nil_r.
Qed.

Lemma primary_batch P dst : triple P (sendUDPBatch se dst) (fun ws _ => Forall fromPrimary ws).
Proof.
  eapply triple_mono; [|apply triple_doWrite]. intros ws x ->. by repeat constructor.
Qed.

Lemma primary_transmit use addrs dst :
  sourcePathDualSendEnabled k = false -> sourcePathSingleSourceStrategyEnabled k = false ->
  triple (fun m => m = ∅) (transmit se use [] addrs dst) (fun ws _ => Forall fromPrimary ws).
Proof.
  intros Hdual Hsingle. unfold transmit. simpl. destruct addrs as [|a0 rest].
  - destruct (IsValid _); [|by apply triple_ret]. unfold sendUDPAddr. cbv zeta.
    eapply triple_bind; [apply backupCandidate_empty|]. intros ws x [-> ->].
    rewrite Hsingle, andb_false_r. replace (if use then None else None) with (@None sourceRxMeta) by by destruct use.
    eapply triple_bind; [apply dualSendCandidate_enabled|]. intros ws x [-> [->|?]]; [|congruence].
    replace (if use then None else None) with (@None sourceRxMeta) by by destruct use.
    eapply triple_bind; [apply primary_batch|]. intros ws [err|] Hws;
      [|apply triple_quiet; [apply quiet_primarySuccess, _|intros _]];
      apply triple_ret; by rewrite app_nil_r.
  - eapply (triple_bind _ _ _ (fun ws _ => Forall fromPrimary ws)).
    2: { intros ws [[err e1] e2] Hws. apply triple_ret. by rewrite app_nil_r. }
    destruct rest as [|a1 rest]; simpl; (eapply triple_bind; [apply primary_batch|]); intros ws1 err1 H1.
    { apply triple_ret. by rewrite app_nil_r. }
    eapply triple_bind; [apply primary_batch|]. intros ws2 err2 H2.
    apply triple_ret. rewrite app_nil_r. by apply Forall_app.
Qed.

Lemma singleSource_shape P `{!BackupInv P} dst :
  sourcePathSingleSourceStrategyEnabled k = true ->
  triple P (sendSingleSource se dst) (fun ws r => singleSourceWrites dst ws r.1).
Proof.
  intros Hk. assert (sourcePathActiveBackupEnabled k = false) as Hab by auto using other_strategy_no_backup.
  unfold sendSingleSource. apply triple_quiet; [apply quiet_sourceForBatch, _|]. intros source.
  eapply triple_bind; [apply triple_fromSource|]. cbv beta. intros ws err.
  destruct (isPrimary source) eqn:Es; cbn [negb].
  - intros ->. destruct err as [err|].
    + eapply (triple_bind _ _ _ (fun ws x => ws = [] /\ x = None)).
      * unfold noteSourcePathPrimarySendFailure. rewrite Hab. by apply triple_ret.
      * intros ws x [-> ->]. apply triple_ret, SSWPrimary.
    + apply triple_quiet; [apply quiet_primarySuccess, _|intros _]. apply triple_ret, SSWPrimary.
  - intros [->|[-> ->]].
    + destruct err as [err|]; [|by apply triple_ret, SSWAux].
      apply triple_quiet; [quiet|intros _].
      eapply triple_bind; [apply triple_doWrite|]. intros ws2 err2 ->. apply triple_ret.
      by apply SSWFallback.
    + apply triple_quiet; [quiet|intros _].
      eapply triple_bind; [apply triple_doWrite|]. intros ws2 err2 ->. apply triple_ret, SSWPrimary.
Qed.
End Writers.

Section Theorems.
Context `{MapRange} `{Platform}.

(** [C3] The result of a send accounts for the packets. A send makes at most two UDP writes. It
    returns an error only if every write it made failed and DERP was not tried or refused a
    packet of the batch; it returns nil only if a write succeeded or the whole batch was
    offered to one DERP region. *)
Theorem send_result_accounts (se : SendEnv) (s : connState) (e : endpoint) :
  let '(s', _, _, r) := send se s e in
  exists ws ds, c_writes s' = c_writes s ++ ws /\ c_derp s' = c_derp s ++ ds
    /\ accounts (length (se_buffs se)) ws ds r.
Proof.
  pose proof (send_accounts se (fun _ => True) s e I) as Hs.
  destruct (send se s e) as [[[s' e'] acts] r]. by destruct Hs.
Qed.

(** [C37] The active backup never takes over. Sends from a table without failover entries leave
    it without, whatever the strategy and however the writes end; under the active-backup
    strategy every batch therefore leaves through the primary sockets. *)
Theorem active_backup_never_engages (ses : list SendEnv) (s : connState) (e : endpoint) :
  activeBackup (c_pm s) = ∅ ->
  let s' := (sendAll ses s e).1 in
  activeBackup (c_pm s') = ∅
  /\ (Forall (fun se => sourcePathDataStrategyMode (e_knobs (se_env se))
                        = sourcePathDataStrategyActiveBackup) ses ->
      exists ws, c_writes s' = c_writes s ++ ws /\ Forall fromPrimary ws).
Proof.
  cbv zeta. revert s e. induction ses as [|se ses IH]; intros s e Hs.
  { split; [done|]. intros _. exists []. by rewrite app_nil_r. }
  unfold sendAll. cbn [foldl].
  pose proof (send_accounts se (fun m => m = ∅) s e Hs) as Hacc.
  pose proof (send_writes se (fun m => m = ∅) (Forall fromPrimary) s e (Forall_nil_2 _) Hs) as Hw.
  destruct (send se s e) as [[[s1 e1] acts] r]. destruct Hacc as [Hs1 _].
  destruct (IH s1 e1 Hs1) as [Hend Hws]. split; [exact Hend|].
  intros [Hmode Hmodes]%Forall_cons. destruct Hws as (ws2 & Ew2 & Hws2); [done|].
  destruct Hw as (ws1 & Ew1 & Hws1).
  { intros use paths addrs dst Hpaths.
    assert (sourcePathDualSendEnabled (e_knobs (se_env se)) = false) as Hdual.
    { unfold sourcePathDualSendEnabled. by rewrite Hmode. }
    destruct Hpaths as [->|?]; [|congruence]. apply primary_transmit; [done|].
    unfold sourcePathSingleSourceStrategyEnabled. by rewrite Hmode. }
  exists (ws1 ++ ws2). split; [|by apply Forall_app].
  unfold sendAll in Ew2. by rewrite Ew2, Ew1, app_assoc.
Qed.

(** The single-source strategy sends a batch once where it can: through the primary
    sockets, or through one auxiliary socket; only when the auxiliary write fails (or its
    socket is gone) does the primary send the batch too, to the same address, and the result
    is then the primary's. *)
Theorem single_source_falls_back (se : SendEnv) (dst : epAddr) (s : connState) :
  sourcePathSingleSourceStrategyEnabled (e_knobs (se_env se)) = true ->
  let '(s', r) := sendUDPAddr se true dst s in
  exists ws, c_writes s' = c_writes s ++ ws /\ singleSourceWrites dst ws (st_err r).
Proof.
  intros Hk. assert (triple (fun _ => True) (sendUDPAddr se true dst)
    (fun ws r => singleSourceWrites dst ws (st_err r))) as Ht.
  { unfold sendUDPAddr. cbv zeta. rewrite Hk. cbn [andb].
    eapply (triple_bind _ _ _ (fun ws x => ws = [] /\ x = None)).
    { unfold sourcePathActiveBackupCandidate.
      rewrite (other_strategy_no_backup _ (or_intror Hk)). by apply triple_ret. }
    intros ws x [-> ->]. eapply triple_bind; [apply dualSendCandidate_enabled|].
    intros ws x [-> Hx].
    assert (x = None) as ->.
    { destruct Hx as [?|Hx]; [done|]. exfalso. revert Hk Hx.
      unfold sourcePathSingleSourceStrategyEnabled, sourcePathDualSendEnabled.
      intros Hk Hx. bool_props.
      match goal with E : _ = sourcePathDataStrategyDualSend |- _ => by rewrite Hk in E end. }
    eapply triple_bind; [by apply singleSource_shape|]. intros ws [err b] Hws.
    apply triple_ret. by rewrite app_nil_r. }
  destruct (Ht s I) as (_ & _ & Hws). by destruct (sendUDPAddr se true dst s).
Qed.
End Theorems.

(** ** Witnesses *)
Definition ex_strategy (strategy force : string) : Knobs :=
  MkKnobs None None strategy force false 0 0 0 0 0 0 None 0 0 0 0 true 1 0 0 false None 0 "" 0 0 0 0
          "" 0 false "" 0 0 false 0 0 0 "" 0 0 "".
(** A batch of one transport packet; every write fails with ENOBUFS. *)
Definition ex_send (k : Knobs) : SendEnv :=
  MkSendEnv
    (MkEnv k false false false false false false (replicate 32 x01) false 65535 zeroSP
           (fun n => be_put 12 (Z.of_nat n)) 0 ex_t0 1000000000000 true)
    (fun n => ex_t0 + Z.of_nat n) (fun _ => WErr (SErrNet false 105)) listenOK (fun _ => 0) (fun _ _ => 0)
    0 (fun _ => true) [[x04; x00; x00; x00] ++ replicate 28 x07] 0.
Definition ex_conn : connState := MkConn zeroPM (sp_run zeroSP ex_ops) [] [].
Definition ex_trusted : endpoint :=
  upd_best (fun _ => MkBest (ex_public (20 * Millisecond)) ex_t0 (ex_t0 + 60 * Second) 0 None)
           (newEndpoint false).

(** Two sends fail on the primary sockets although auxiliary sockets are bound. *)
Lemma active_backup_never_engages_witness :
  let se := ex_send (ex_strategy "active-backup" "") in
  let s' := (sendAll (H := canonical_range) (H0 := portable_platform) [se; se] ex_conn ex_trusted).1 in
  length (c_writes s') = 2%nat /\ activeBackup (c_pm s') = ∅.
Proof.
  cbv zeta. split; [vm_compute; reflexivity|].
  apply (active_backup_never_engages (H := canonical_range) (H0 := portable_platform)
           [ex_send (ex_strategy "active-backup" ""); ex_send (ex_strategy "active-backup" "")]
           ex_conn ex_trusted). reflexivity.
Defined.

(** The forced auxiliary socket fails, and the primary sends. *)
Lemma single_source_falls_back_witness :
  let se := ex_send (ex_strategy "single" "aux") in
  let '(s', r) := sendUDPAddr (H := canonical_range) (H0 := portable_platform) se true
                    (ex_dst) ex_conn in
  exists ws, c_writes s' = [] ++ ws /\ singleSourceWrites (ex_dst) ws (st_err r).
Proof.
  cbv zeta.
  apply (single_source_falls_back (H := canonical_range) (H0 := portable_platform)
           (ex_send (ex_strategy "single" "aux")) (ex_dst) ex_conn).
  vm_compute. reflexivity.
Defined.
