(* ===== verification/Receive.v ===== *)
(** * Received datagrams (magicsock.go: receiveIPWithSource, mkReceiveFuncWithSource, lazyEndpoint,
    sourcePathPeerAwareEndpoint, Conn.Send; derp.go: receiveDERP)

    What a receive function does with the packets of a socket, what WireGuard is told of their
    senders, and what it tells back once it has identified them. A receive function owns a cache
    of the last address; the rest is the state of the connection, which others may change between
    the lookup of an endpoint and the reading of its generation. Buffers keep their length: the
    bytes behind the reported size are what the copy leaves there. Counters are left out, but the
    observed addresses that are updated along with them are not. *)
From S2P Require Import Prelude Netip Bytes Slices Disco Stun Packet Knobs ProbeManager SourceSockets ActivePaths.
From S2P Require Import BetterAddr EndpointState EndpointRecord Endpoint EndpointSend DataPath PeerMap Peers UdpRelay RelayManager.
From S2P Require Import DiscoRx Derp.

Module Receive.
Import DiscoRx.

(** What WireGuard gets as the sender: [*endpoint], [*sourcePathPeerAwareEndpoint] or
    [*lazyEndpoint]. *)
Inductive rxEndpoint :=
| EpPlain (ep : nat)
| EpAware (ep : nat) (src : epAddr) (rxMeta : sourceRxMeta)
| EpLazy (maybeEP : option nat) (src : epAddr) (rxMeta : sourceRxMeta).

Record epAddrEndpointCache := MkCache { ca_epAddr : epAddr; ca_gen : Z; ca_de : option nat }.
Definition zeroCache : epAddrEndpointCache := MkCache zeroEpAddr 0 None.

Inductive recvAction :=
| RxAct (a : rxAction)
| RxStun (b : bytes) (ipp : AddrPort).

Definition MessageInitiationType : Z := 1.
Definition MessageInitiationSize : nat := 148.
Definition looksLikeInitiationMsg (b : bytes) : bool :=
  (length b =? MessageInitiationSize)%nat && (le_get (take 4 b) =? MessageInitiationType).

Section Receive.
Context `{MapRange} `{Platform} (ce : connEnv).
Notation env := (ce_env ce).

Definition genOf (ep : nat) (s : connState) : Z :=
  match ps_eps (cn_peers s) !! ep with Some e => numStopAndReset (eo_state e) | None => 0 end.
Definition on_ep (ep : nat) (f : endpoint -> endpoint) (s : connState) : connState :=
  with_peers (update_ep ep f (cn_peers s)) s.
(** [noteSourcePathRemoteWireGuardRx] and [noteSourcePathRemoteWireGuardAccepted] *)
Definition noteSourcePathRemote (ep : option nat) (src : epAddr) (s : connState) : connState :=
  match ep with
  | None => s
  | Some ep => on_ep ep (fun e => (classifySourcePathRemoteSlot env src e).1) s
  end.

(** [lastRecvUDPAny] and [noteRecvActivity] of an endpoint: whether activity was noted *)
Definition noteRecv (ep : nat) (src : epAddr) (s : connState) : connState * list recvAction * bool :=
  match ps_eps (cn_peers s) !! ep with
  | None => (s, [], false)
  | Some e =>
      let m := modify (with_lastRecvUDPAny (e_now env)) ;; noteRecvActivity env src (e_now env) in
      (on_ep ep (final m) s, (fun a => RxAct (RxEndpoint ep a)) <$> acts m (eo_state e), result m (eo_state e))
  end.

(** The buffer after [copy(b, b[8:])], and its size *)
Definition stripGeneve (b : bytes) : bytes * nat :=
  let tail := drop Packet.GeneveFixedHeaderLength b in (tail ++ drop (length tail) b, length tail).

(** The endpoint the cache of the receive function has for an address *)
Definition cacheHit (src : epAddr) (cache : epAddrEndpointCache) (s : connState) : option nat :=
  match ca_de cache with
  | Some de => if bool_decide (ca_epAddr cache = src) && (ca_gen cache =? genOf de s) then Some de else None
  | None => None
  end.

(** The state, the cache, the buffer, what was started, and for a packet that goes to WireGuard the
    sender, the size and whether it came with a Geneve header *)
Definition rxResult : Type :=
  connState * epAddrEndpointCache * bytes * list recvAction * option (rxEndpoint * nat * bool).
(** A packet whose endpoint was looked up in the peer map: [Conn.mu] is released again, and the
    generation of the endpoint is not read yet. *)
Record rxPending := MkPending {
  pd_b : bytes; pd_size : nat; pd_src : epAddr; pd_isGeneveEncap : bool; pd_rxMeta : sourceRxMeta; pd_de : nat }.
(** The rest of [receiveIPWithSource], once the endpoint is known and cached *)
Definition noteWireGuard (b : bytes) (size : nat) (src : epAddr) (isGeneveEncap : bool) (cache : epAddrEndpointCache)
    (rxMeta : sourceRxMeta) (ep : nat) (s : connState) : rxResult :=
  let s := noteSourcePathRemote (Some ep) src s in
  let s := if isDirect src then on_ep ep (sourcePathPeerAwareEndpoint src rxMeta) s else s in
  let '(s, out, connNoted) := noteRecv ep src s in
  (s, cache, b, out,
   Some (if VNI.IsSet (vni src) && (connNoted || looksLikeInitiationMsg (take size b))
         then EpLazy (Some ep) src rxMeta
         else if isDirect src then EpAware ep src rxMeta else EpPlain ep, size, isGeneveEncap)).
Definition lookupWireGuard (b : bytes) (src : epAddr) (isGeneveEncap : bool) (cache : epAddrEndpointCache)
    (rxMeta : sourceRxMeta) (s : connState) : rxResult + rxPending :=
  let '(b, size) := if VNI.IsSet (vni src) then stripGeneve b else (b, length b) in
  match cacheHit src cache s with
  | Some ep => inl (noteWireGuard b size src isGeneveEncap cache rxMeta ep s)
  | None =>
      match endpointForEpAddr (cn_map s) src with
      | None => inl (s, cache, b, [], Some (EpLazy None src rxMeta, size, isGeneveEncap))
      | Some de => inr (MkPending b size src isGeneveEncap rxMeta de)
      end
  end.
(** [receiveIPWithSource] up to its end or to the release of [Conn.mu] after a lookup that found an
    endpoint, and from the reading of the generation on *)
Definition receiveBegin (b : bytes) (ipp : AddrPort) (cache : epAddrEndpointCache) (rxMeta : sourceRxMeta)
    (s : connState) : rxResult + rxPending :=
  let '(pt, isGeneveEncap) := packetLooksLike b in
  match (if isGeneveEncap then Decode zeroGeneve b else inr zeroGeneve) with
  | inl _ => inl (s, cache, b, [], None)
  | inr geneve =>
      let src := if isGeneveEncap then MkEpAddr ipp (g_VNI geneve) else epAddr_of ipp in
      match pt with
      | packetLooksLikeDisco =>
          let msg := if isGeneveEncap then drop Packet.GeneveFixedHeaderLength b else b in
          let '(s, out) := handleDiscoMessageWithSource ce msg src (g_Control geneve) zeroNode rxMeta s in
          inl (s, cache, b, RxAct <$> out, None)
      | packetLooksLikeSTUNBinding => inl (s, cache, b, [RxStun b ipp], None)
      | packetLooksLikeWireGuard =>
          if ce_privateKeyIsZero ce then inl (s, cache, b, [], None)
          else lookupWireGuard b src isGeneveEncap cache rxMeta s
      end
  end.
Definition receiveFinish (p : rxPending) (s : connState) : rxResult :=
  noteWireGuard (pd_b p) (pd_size p) (pd_src p) (pd_isGeneveEncap p)
    (MkCache (pd_src p) (genOf (pd_de p) s) (Some (pd_de p))) (pd_rxMeta p) (pd_de p) s.
(** The whole function; [window] is what others do between the two parts. *)
Definition receiveIPWithSource (window : connState -> connState) (b : bytes) (ipp : AddrPort)
    (cache : epAddrEndpointCache) (rxMeta : sourceRxMeta) (s : connState) : rxResult :=
  match receiveBegin b ipp cache rxMeta s with
  | inl r => r
  | inr p => receiveFinish p (window s)
  end.

(** ** Packets over DERP (derp.go) *)
(** [b] is what was copied; [onDERPRecv]: the hook, if any. The result is the length and the endpoint,
    [None] for the return of 0. *)
Definition processDERPReadResult (onDERPRecv : Z -> NodePublic -> bytes -> bool) (dm : Derp.derpReadResult) (b : bytes)
    (s : connState) : connState * list recvAction * option (nat * nat) :=
  if negb (length b =? Derp.rr_n dm)%nat then (s, [], None)
  else
    let srcAddr := epAddr_of (MkAddrPort DerpMagicIPAddr (uw 16 (Derp.rr_region dm))) in
    let '(pt, isGeneveEncap) := packetLooksLike b in
    if match pt with packetLooksLikeDisco => negb isGeneveEncap | _ => false end then
      let '(s, out) := handleDiscoMessageWithSource ce b srcAddr false (Derp.rr_src dm) primarySourceRxMeta s in
      (s, RxAct <$> out, None)
    else if onDERPRecv (Derp.rr_region dm) (Derp.rr_src dm) b then (s, [], None)
    else match endpointForNodeKey (cn_map s) (Derp.rr_src dm) with
    | None => (s, [], None)
    | Some ep =>
        match ps_eps (cn_peers s) !! ep with
        | None => (s, [], Some (Derp.rr_n dm, ep))
        | Some e =>
            let m := noteRecvActivity env srcAddr (e_now env) in
            (on_ep ep (final m) s, (fun a => RxAct (RxEndpoint ep a)) <$> acts m (eo_state e), Some (Derp.rr_n dm, ep))
        end
    end.
Inductive derpRecv := DrClosed | DrContinue | DrPacket (n ep : nat).
(** One turn of the loop of [receiveDERP]; [None]: the channel is empty, and it waits. *)
Definition receiveDERP (onDERPRecv : Z -> NodePublic -> bytes -> bool) (bufLen : nat) (d : Derp.derpState) (s : connState)
  : option (Derp.derpState * connState * bytes * list recvAction * derpRecv) :=
  match Derp.dp_recvCh d with
  | [] => None
  | dm :: ch =>
      let d := Derp.set_recvCh ch d in
      if Derp.dp_bindClosed d then Some (d, s, [], [], DrClosed)
      else match dm with
      | None => Some (d, s, [], [], DrContinue)
      | Some dm =>
          let '(d, b) := Derp.copyBuf dm bufLen d in
          let '(s, out, r) := processDERPReadResult onDERPRecv dm b s in
          Some (d, s, b, out,
                match r with Some (n, ep) => if (n =? 0)%nat then DrContinue else DrPacket n ep | None => DrContinue end)
      end
  end.

(** ** What WireGuard says of a sender *)
Definition InitiationMessagePublicKey (rep : rxEndpoint) (pubKey : NodePublic) (s : connState)
  : connState * list recvAction :=
  match rep with
  | EpLazy maybeEP src rxMeta =>
      if match maybeEP with Some ep => bool_decide (pubOf (ps_eps (cn_peers s)) ep = pubKey) | None => false end then (s, [])
      else match endpointForNodeKey (cn_map s) pubKey with
      | None => (s, [])
      | Some ep => let '(s, out, _) := noteRecv ep src s in (s, out)
      end
  | _ => (s, [])
  end.
Definition acceptedFrom (maybeEP : option nat) (src : epAddr) (pubKey : NodePublic) (s : connState) : connState :=
  if match maybeEP with Some ep => bool_decide (pubOf (ps_eps (cn_peers s)) ep = pubKey) | None => false end
  then noteSourcePathRemote maybeEP src s
  else match endpointForNodeKey (cn_map s) pubKey with
  | None => s
  | Some ep => setAddr src pubKey (noteSourcePathRemote (Some ep) src s)
  end.
(** [FromPeer] of both kinds; a plain endpoint is not told. *)
Definition FromPeer (rep : rxEndpoint) (pubKey : NodePublic) (s : connState) : connState :=
  match rep with
  | EpPlain _ => s
  | EpAware ep src _ => acceptedFrom (Some ep) src pubKey s
  | EpLazy maybeEP src _ => acceptedFrom maybeEP src pubKey s
  end.
End Receive.

(** ** Receive functions *)
Section ReceiveFunc.
Context `{MapRange} `{Platform}.

(** A message of a batch, with what holds when it is handled: whether there is a private key and
    what the clock says ([ms_env]), what [rxMeta()] returns, and what others do to the connection
    before it is handled and while its endpoint is looked up. *)
Record rxMsg := MkMsg {
  ms_data : bytes; ms_from : AddrPort; ms_env : connEnv; ms_rxMeta : sourceRxMeta;
  ms_before : connState -> connState; ms_window : connState -> connState }.
(** What [ReadBatch] returns: the messages with their senders, or an error; [truncated] is
    [neterror.PacketWasTruncated]. *)
Inductive readResult :=
| ReadMsgs (msgs : list rxMsg)
| ReadErr (truncated : bool) (code : Z).
(** What WireGuard reads of the first [n] messages: buffer, size and sender of each. The three
    slices are the caller's, used again for every batch read. *)
Record rxSlot := MkSlot { sl_buf : bytes; sl_size : nat; sl_ep : option rxEndpoint }.
Record rxFuncState := MkRxFunc { rf_conn : connState; rf_cache : epAddrEndpointCache; rf_out : list recvAction }.
Definition receiveMsg (m : rxMsg) (old : rxSlot) (s : rxFuncState) : rxFuncState * rxSlot * bool :=
  if (length (ms_data m) =? 0)%nat then (s, MkSlot (ms_data m) 0 (sl_ep old), false)
  else
    let '(c, cache, b, out, r) :=
      receiveIPWithSource (ms_env m) (ms_window m) (ms_data m) (ms_from m) (rf_cache s) (ms_rxMeta m) (ms_before m (rf_conn s)) in
    let s := MkRxFunc c cache (rf_out s ++ out) in
    match r with
    | Some (ep, size, _) => (s, MkSlot b size (Some ep), true)
    | None => (s, MkSlot b 0 (sl_ep old), false)
    end.
Fixpoint receiveMsgs (msgs : list rxMsg) (slots : list rxSlot) (s : rxFuncState) : rxFuncState * list rxSlot * bool :=
  match msgs, slots with
  | m :: msgs, old :: slots =>
      let '(s, slot, report) := receiveMsg m old s in
      let '(s, slots, report') := receiveMsgs msgs slots s in
      (s, slot :: slots, report || report')
  | _, _ => (s, slots, false)
  end.
(** [mkReceiveFuncWithSource], on what the reads return one after the other; [None] when they are
    used up, that is when the next read blocks. *)
Fixpoint receiveFunc (reads : list readResult) (slots : list rxSlot) (s : rxFuncState)
  : rxFuncState * list rxSlot * option (nat + Z) :=
  match reads with
  | [] => (s, slots, None)
  | ReadErr truncated code :: reads =>
      if truncated : bool then receiveFunc reads slots s else (s, slots, Some (inr code))
  | ReadMsgs msgs :: reads =>
      let '(s, slots, report) := receiveMsgs msgs slots s in
      if report : bool then (s, slots, Some (inl (length msgs))) else receiveFunc reads slots s
  end.
End ReceiveFunc.

(** ** [Conn.Send]: by the kind of endpoint WireGuard kept *)
Section Send.
Context `{MapRange} `{Platform} (se : DataPath.SendEnv) (networkDown : bool).

(** [CErrGSODisabled] is [ErrUDPGSODisabled], which a direct write hands on as it is. *)
Inductive connSendErr :=
| CErrNetworkDown
| CErr (e : DataPath.sendErr)
| CErrGSODisabled (retry : option DataPath.sendErr).
Record sendState := MkSendState { sn_conn : DataPath.connState; sn_peers : peersState; sn_acts : list (nat * action) }.
Definition sendEp (ep : nat) (s : sendState) : sendState * option connSendErr :=
  match ps_eps (sn_peers s) !! ep with
  | None => (s, None)
  | Some e =>
      let '(c, e', acts, err) := DataPath.send se (sn_conn s) (eo_state e) in
      (MkSendState c (update_ep ep (fun _ => e') (sn_peers s)) (sn_acts s ++ ((fun a => (ep, a)) <$> acts)), CErr <$> err)
  end.
Definition sendWireGuardBatchDirectTo (dst : epAddr) (s : sendState) : sendState * option connSendErr :=
  let r := DataPath.se_net se (length (DataPath.c_writes (sn_conn s))) in
  let '(c, _) := DataPath.doWrite se primarySourceRxMeta dst (sn_conn s) in
  (MkSendState c (sn_peers s) (sn_acts s),
   match r with
   | DataPath.WOk => None
   | DataPath.WErr e => Some (CErr e)
   | DataPath.WGSODisabled retry => Some (CErrGSODisabled retry)
   end).
Definition Send (ep : rxEndpoint) (s : sendState) : sendState * option connSendErr :=
  if networkDown then (s, Some CErrNetworkDown)
  else match ep with
  | EpPlain ep => sendEp ep s
  | EpAware ep src _ =>
      if negb (DataPath.wireGuardBatchIsTransport (DataPath.se_buffs se) (DataPath.se_offset se)) && isDirect src
      then sendWireGuardBatchDirectTo src s
      else sendEp ep s
  | EpLazy _ src _ => sendWireGuardBatchDirectTo src s
  end.
End Send.
End Receive.
