(* ===== verification/ReceiveProps.v ===== *)
(** * Theorems about received datagrams

    What a receive function reports to WireGuard; that a packet is attributed to a current peer or
    to nobody, in every interleaving with changes of the peers but for one race, which is exhibited;
    that an identified sender is known from then on. *)
From S2P Require Import Prelude Netip Bytes Slices Disco Stun Packet Knobs ProbeManager SourceSockets ActivePaths.
From S2P Require Import BetterAddr EndpointState EndpointRecord Endpoint EndpointSend DataPath PeerMap Peers UdpRelay RelayManager.
From S2P Require Import EndpointProps PeersProps PeerLife DiscoRx DiscoRxProps Derp DerpProps Receive.

Module ReceiveProps.
Import DiscoRx DiscoRxProps Receive.

(** ** Single packets *)
Section Packets.
Context `{MapRange} `{Platform} (ce : connEnv).
Notation env := (ce_env ce).
Notation hasKey := (negb (ce_privateKeyIsZero ce)).

(** The endpoint a packet is believed to come from. *)
Definition believed (rep : rxEndpoint) : option nat :=
  match rep with EpPlain ep | EpAware ep _ _ => Some ep | EpLazy maybeEP _ _ => maybeEP end.

Lemma stripGeneve_spec b : take (stripGeneve b).2 (stripGeneve b).1 = drop Packet.GeneveFixedHeaderLength b
  /\ (stripGeneve b).2 = length (drop Packet.GeneveFixedHeaderLength b).
Proof. unfold stripGeneve. split; [apply take_app_length|done]. Qed.
Lemma noteWireGuard_spec b size src g cache meta ep s :
  let '(s', cache', b', out, r) := noteWireGuard ce b size src g cache meta ep s in
  cache' = cache /\ b' = b /\ exists rep, r = Some (rep, size, g) /\ believed rep = Some ep.
Proof.
  unfold noteWireGuard. destruct (noteRecv _ _ _ _) as [[s' out] noted]. split; [done|]. split; [done|]. eexists. split; [reflexivity|].
  destruct (_ && _); [done|]. by destruct (isDirect src).
Qed.
(** What the first part of [receiveIPWithSource] comes to for a WireGuard packet. *)
Definition begun (p : bytes) (src : epAddr) (g : bool) (cache : epAddrEndpointCache) (meta : sourceRxMeta) (s : connState)
    (r : rxResult + rxPending) : Prop :=
  match r with
  | inl (_, cache', b', _, r) =>
      cache' = cache /\ exists rep, r = Some (rep, length p, g) /\ take (length p) b' = p /\ believed rep = cacheHit src cache s
      /\ (believed rep = None -> rep = EpLazy None src meta /\ endpointForEpAddr (cn_map s) src = None)
  | inr pd =>
      cacheHit src cache s = None /\ endpointForEpAddr (cn_map s) src = Some (pd_de pd) /\ pd_src pd = src
      /\ pd_size pd = length p /\ take (length p) (pd_b pd) = p /\ pd_isGeneveEncap pd = g
  end.
Lemma lookupWireGuard_spec b src g cache meta s :
  begun (if VNI.IsSet (vni src) then drop Packet.GeneveFixedHeaderLength b else b) src g cache meta s
    (lookupWireGuard ce b src g cache meta s).
Proof.
  unfold lookupWireGuard. destruct (stripGeneve_spec b) as [T L].
  set (p := if VNI.IsSet (vni src) then drop _ b else b).
  assert (exists b1 n, (if VNI.IsSet (vni src) then stripGeneve b else (b, length b)) = (b1, n) /\ n = length p /\ take n b1 = p)
    as (b1 & n & -> & -> & Tp).
  { unfold p. destruct (VNI.IsSet _); [|exists b, (length b); rewrite take_ge by lia; done].
    exists (stripGeneve b).1, (stripGeneve b).2. by destruct (stripGeneve b). }
  unfold begun. destruct (cacheHit src cache s) as [ep|].
  - pose proof (noteWireGuard_spec b1 (length p) src g cache meta ep s) as N.
    destruct (noteWireGuard _ _ _ _ _ _ _ _ _) as [[[[? ?] ?] ?] ?]. destruct N as (-> & -> & rep & -> & Eb).
    split; [done|]. exists rep. rewrite Eb. done.
  - destruct (endpointForEpAddr _ src); cbn; [done|]. split; [done|]. by exists (EpLazy None src meta).
Qed.
(** [receiveIPWithSource] sorts packets as [classifyRx] says. *)
Lemma begin_classified b ipp cache meta s :
  match classifyRx hasKey b ipp with
  | RxWireGuard p src g => ap src = ipp /\ begun p src g cache meta s (receiveBegin ce b ipp cache meta s)
  | _ => exists s' b' out, receiveBegin ce b ipp cache meta s = inl (s', cache, b', out, None)
  end.
Proof.
  unfold receiveBegin, classifyRx. destruct (packetLooksLike b) as [pt g].
  destruct (if g then _ else _) as [e|geneve]; [eauto|]. destruct pt; cbn [negb].
  - rewrite negb_involutive. destruct (ce_privateKeyIsZero ce); [eauto|]. split; [by destruct g|]. apply lookupWireGuard_spec.
  - eauto.
  - destruct (handleDiscoMessageWithSource _ _ _ _ _ _ _). eauto.
Qed.
(** The endpoint a WireGuard packet is attributed to, and what is cached then. *)
Definition attributed (src : epAddr) (cache : epAddrEndpointCache) (s : connState) : option nat :=
  match cacheHit src cache s with Some ep => Some ep | None => endpointForEpAddr (cn_map s) src end.
Definition cacheAfter (window : connState -> connState) (src : epAddr) (cache : epAddrEndpointCache) (s : connState)
  : epAddrEndpointCache :=
  match cacheHit src cache s, endpointForEpAddr (cn_map s) src with
  | None, Some de => MkCache src (genOf de (window s)) (Some de)
  | _, _ => cache
  end.
Lemma receive_classified w b ipp cache meta s :
  let '(s', cache', b', out, r) := receiveIPWithSource ce w b ipp cache meta s in
  match classifyRx hasKey b ipp with
  | RxWireGuard p src g =>
      cache' = cacheAfter w src cache s
      /\ exists rep, r = Some (rep, length p, g) /\ take (length p) b' = p /\ believed rep = attributed src cache s
         /\ (believed rep = None -> rep = EpLazy None src meta)
  | _ => r = None /\ cache' = cache
  end.
Proof.
  pose proof (begin_classified b ipp cache meta s) as B. unfold receiveIPWithSource.
  destruct (classifyRx hasKey b ipp) as [| |p src g|]; try (destruct B as (s' & b' & out & ->); done).
  destruct B as [_ B]. unfold begun, attributed, cacheAfter in *. destruct (receiveBegin _ _ _ _ _ _) as [[[[[s' cache'] b'] out] r]|pd].
  - destruct B as (-> & rep & -> & T & Eb & No). rewrite <- Eb. split; [|exists rep].
    + destruct (believed rep) eqn:E; [done|]. destruct (No eq_refl) as [_ ->]. done.
    + destruct (believed rep) eqn:E; [done|]. destruct (No eq_refl) as [-> ->]. done.
  - destruct B as (-> & -> & <- & Es & T & <-). unfold receiveFinish.
    pose proof (noteWireGuard_spec (pd_b pd) (pd_size pd) (pd_src pd) (pd_isGeneveEncap pd)
      (MkCache (pd_src pd) (genOf (pd_de pd) (w s)) (Some (pd_de pd))) (pd_rxMeta pd) (pd_de pd) (w s)) as N.
    destruct (noteWireGuard _ _ _ _ _ _ _ _ _) as [[[[? ?] ?] ?] ?]. destruct N as (-> & -> & rep & -> & Eb).
    split; [done|]. exists rep. rewrite Es, Eb. done.
Qed.
End Packets.

(** ** Batches *)
Section Batches.
Context `{MapRange} `{Platform}.
(** The WireGuard packet a message carries. *)
Definition wgPart (m : rxMsg) : option bytes :=
  if (length (ms_data m) =? 0)%nat then None
  else match classifyRx (negb (ce_privateKeyIsZero (ms_env m))) (ms_data m) (ms_from m) with RxWireGuard p _ _ => Some p | _ => None end.
Definition slotFor (m : rxMsg) (slot : rxSlot) : Prop :=
  match wgPart m with
  | Some p => sl_size slot = length p /\ take (sl_size slot) (sl_buf slot) = p /\ is_Some (sl_ep slot)
  | None => sl_size slot = O
  end.
Definition silent (r : readResult) : Prop :=
  match r with ReadMsgs msgs => Forall (fun m => wgPart m = None) msgs | ReadErr truncated _ => truncated = true end.
Lemma receiveMsg_spec m old s :
  let '(s', slot, report) := receiveMsg m old s in
  slotFor m slot /\ report = bool_decide (is_Some (wgPart m)).
Proof.
  unfold receiveMsg, slotFor, wgPart. destruct (length (ms_data m) =? 0)%nat; [done|].
  pose proof (receive_classified (ms_env m) (ms_window m) (ms_data m) (ms_from m) (rf_cache s) (ms_rxMeta m) (ms_before m (rf_conn s))) as R.
  destruct (receiveIPWithSource _ _ _ _ _ _ _) as [[[[c cache] b] out] r].
  destruct (classifyRx _ _ _); try (destruct R as [-> _]; done).
  destruct R as (_ & rep & -> & T & _). cbn. rewrite T. done.
Qed.
Lemma receiveMsgs_spec msgs slots s :
  (length msgs <= length slots)%nat ->
  let '(s', slots', report) := receiveMsgs msgs slots s in
  Forall2 slotFor msgs (take (length msgs) slots') /\ length slots' = length slots
  /\ (if report : bool then Exists (fun m => is_Some (wgPart m)) msgs else Forall (fun m => wgPart m = None) msgs).
Proof.
  revert slots s. induction msgs as [|m msgs IH]; intros [|old slots] s L; cbn in *; try (split; [constructor|done]); [lia|].
  pose proof (receiveMsg_spec m old s) as M. destruct (receiveMsg m old s) as [[s1 slot] r1]. destruct M as [M1 ->].
  specialize (IH slots s1 ltac:(lia)). destruct (receiveMsgs msgs slots s1) as [[s2 slots2] r2]. destruct IH as (I1 & I2 & I3).
  cbn. split; [by constructor|]. split; [lia|]. case_bool_decide as B; cbn [orb]; [by left|].
  destruct r2; [by right|]. constructor; [|done]. by destruct (wgPart m); [destruct B|].
Qed.

(** What a receive function may return for what it read. *)
Definition outcome (reads : list readResult) (slots : list rxSlot) (res : option (nat + Z)) : Prop :=
  match res with
  | None => Forall silent reads
  | Some (inr code) => exists pre post, reads = pre ++ ReadErr false code :: post /\ Forall silent pre
  | Some (inl n) => exists pre msgs post, reads = pre ++ ReadMsgs msgs :: post /\ Forall silent pre
      /\ n = length msgs /\ Exists (fun m => is_Some (wgPart m)) msgs
      /\ Forall2 slotFor msgs (take n slots)
  end.
Lemma outcome_cons r reads slots res : silent r -> outcome reads slots res -> outcome (r :: reads) slots res.
Proof.
  intros Sr. destruct res as [[n|code]|]; cbn.
  - intros (pre & msgs & post & -> & P & R). exists (r :: pre), msgs, post. split; [done|]. split; [by constructor|done].
  - intros (pre & post & -> & P). exists (r :: pre), post. split; [done|by constructor].
  - intros P. by constructor.
Qed.
(** [C14] A receive function reports exactly the WireGuard packets: it returns with the first batch
    that has one, with one slot per message of that batch, that of a WireGuard packet holding it
    without its Geneve header and with a sender, every other one the size zero; it returns an
    error exactly when a read fails other than by truncation before such a batch; otherwise it
    goes on reading. A packet is one for WireGuard if it looks like one and there is a private key
    when it is handled; the key, the receive metadata and the state of the connection may change
    from message to message. *)
Theorem receive_batch_exact reads slots s :
  Forall (fun r => match r with ReadMsgs msgs => (length msgs <= length slots)%nat | _ => True end) reads ->
  let '(s', slots', res) := receiveFunc reads slots s in outcome reads slots' res.
Proof.
  revert slots s. induction reads as [|r reads IH]; intros slots s F; [constructor|]. apply Forall_cons in F as [F1 F].
  destruct r as [msgs|truncated code]; cbn [receiveFunc].
  - pose proof (receiveMsgs_spec msgs slots s F1) as M. destruct (receiveMsgs msgs slots s) as [[s1 slots1] report].
    destruct M as (M1 & L1 & M2). destruct report; [exists [], msgs, reads; done|]. rewrite <- L1 in F. specialize (IH slots1 s1 F).
    destruct (receiveFunc reads slots1 s1) as [[s' slots'] res]. by apply outcome_cons.
  - destruct truncated; [|exists [], reads; done]. specialize (IH slots s F).
    destruct (receiveFunc reads slots s) as [[s' slots'] res]. by apply outcome_cons.
Qed.
End Batches.

(** ** Attribution *)
Section Attribution.
Context `{MapRange} `{Platform}.

Lemma rx_steady p p' : peers_ok p -> rtc rx_step p p' -> peers_ok p' /\ steady p p'.
Proof.
  intros Hp St. induction St as [p|p1 p2 p3 S12 _ IH]; [split; [done|apply steady_refl]|].
  destruct (IH (proj1 (rx_table _ _ Hp S12))) as [H3 S23]. split; [done|]. apply (steady_trans _ p2); [|done].
  destruct S12 as [src nk p|q f p Hf|dk p Hk]; [by apply setAddr_steady|by apply handler_steady|apply (steady_refl p)].
Qed.
Lemma classify_held env src e : held (classifySourcePathRemoteSlot env src e).1 = held e.
Proof.
  unfold classifySourcePathRemoteSlot. cbv zeta. destruct (negb _); [done|].
  by repeat (match goal with |- context [match firstSlot ?f ?l with _ => _ end] => destruct (firstSlot f l) end).
Qed.
Lemma aware_held src meta e : held (sourcePathPeerAwareEndpoint src meta e) = held e.
Proof. unfold sourcePathPeerAwareEndpoint. by destruct (bool_decide _). Qed.
Lemma noteRecvActivity_held env src now e :
  held (final (modify (with_lastRecvUDPAny now) ;; noteRecvActivity env src now) e) = held e.
Proof.
  set (I e' := held e' = held e). 
  enough (keeps I (fun _ => True) (modify (with_lastRecvUDPAny now) ;; noteRecvActivity env src now)) as K by (by apply K).
  assert (forall f, (forall e, held (f e) = held e) -> keeps I (fun _ => True) (modify f)) as Km.
  { intros f Hf. apply keeps_modify. unfold I. intros e' <-. apply Hf. }
  unfold noteRecvActivity.
  repeat first [ apply keeps_bind; [|intros ?] | apply keeps_gets | apply keeps_emit; done | apply keeps_ret
    | apply Km; intros e'; first [reflexivity|destruct (isWireguardOnly e'); [done|]; by destruct (_ && _)]
    | match goal with |- keeps _ _ (match ?x with _ => _ end) => destruct x end ].
Qed.
Lemma on_ep_steps ep f s : (forall e, held (f e) = held e) -> rtc rx_step (cn_peers s) (cn_peers (on_ep ep f s)).
Proof. intros Hf. by apply rtc_once, rs_handler. Qed.
Lemma noteRemote_steps ce ep src s : rtc rx_step (cn_peers s) (cn_peers (noteSourcePathRemote ce ep src s)).
Proof. destruct ep as [ep|]; [|done]. apply on_ep_steps. intros. apply classify_held. Qed.
Lemma noteRecv_steps ce ep src s : rtc rx_step (cn_peers s) (cn_peers (noteRecv ce ep src s).1.1).
Proof. unfold noteRecv. destruct (_ !! ep); [|done]. apply on_ep_steps. intros. apply noteRecvActivity_held. Qed.
Lemma noteWireGuard_steps ce b size src g cache meta ep s :
  rtc rx_step (cn_peers s) (cn_peers (noteWireGuard ce b size src g cache meta ep s).1.1.1.1).
Proof.
  unfold noteWireGuard. set (s1 := noteSourcePathRemote ce (Some ep) src s). set (s2 := if isDirect src then _ else s1).
  pose proof (noteRecv_steps ce ep src s2) as N. destruct (noteRecv ce ep src s2) as [[s3 out] noted]. cbn in *.
  etrans; [apply (noteRemote_steps ce (Some ep) src s)|]. etrans; [|exact N]. fold s1. unfold s2.
  destruct (isDirect src); [|done]. apply on_ep_steps. intros. apply aware_held.
Qed.
Lemma begin_steps ce b ipp cache meta s :
  match receiveBegin ce b ipp cache meta s with inl r => rtc rx_step (cn_peers s) (cn_peers r.1.1.1.1) | inr _ => True end.
Proof.
  unfold receiveBegin. destruct (packetLooksLike b) as [pt g]. destruct (if g then _ else _) as [e|geneve]; [done|].
  destruct pt; [destruct (ce_privateKeyIsZero ce); [done|]|done|].
  - unfold lookupWireGuard. destruct (if VNI.IsSet _ then _ else _) as [b1 n]. destruct (cacheHit _ _ _); [apply noteWireGuard_steps|].
    by destruct (endpointForEpAddr _ _).
  - pose proof (handle_steps ce (if g then drop Packet.GeneveFixedHeaderLength b else b)
      (if g then MkEpAddr ipp (g_VNI geneve) else epAddr_of ipp) (g_Control geneve) zeroNode meta s) as N.
    by destruct (handleDiscoMessageWithSource _ _ _ _ _ _ _).
Qed.
Lemma receive_steps ce b ipp cache meta s :
  rtc rx_step (cn_peers s) (cn_peers (receiveIPWithSource ce id b ipp cache meta s).1.1.1.1).
Proof.
  unfold receiveIPWithSource. pose proof (begin_steps ce b ipp cache meta s) as B. destruct (receiveBegin _ _ _ _ _ _); [done|].
  apply noteWireGuard_steps.
Qed.
Lemma accepted_steps ce rep nk s : rtc rx_step (cn_peers s) (cn_peers (Receive.FromPeer ce rep nk s)).
Proof.
  assert (forall ep src, rtc rx_step (cn_peers s) (cn_peers (acceptedFrom ce ep src nk s))) as A.
  { intros ep src. unfold acceptedFrom. destruct (match ep with Some _ => _ | None => _ end); [apply noteRemote_steps|].
    destruct (endpointForNodeKey _ _) as [q|]; [|done]. etrans; [apply (noteRemote_steps ce (Some q) src s)|].
    apply rtc_once, rs_setAddr. }
  destruct rep; [done|apply A..].
Qed.
Lemma initiation_steps ce rep nk s : rtc rx_step (cn_peers s) (cn_peers (InitiationMessagePublicKey ce rep nk s).1).
Proof.
  unfold InitiationMessagePublicKey. destruct rep as [| |maybeEP src meta]; [done..|].
  destruct (match maybeEP with Some _ => _ | None => _ end); [done|]. destruct (endpointForNodeKey _ _) as [ep|]; [|done].
  pose proof (noteRecv_steps ce ep src s) as N. by destruct (noteRecv ce ep src s) as [[? ?] ?].
Qed.

(** A connection with the caches of its receive functions, and what can happen to it. A receive
    function handles a packet in one step, or, when it finds the endpoint in the peer map, in two:
    it has released [Conn.mu] by the time it reads the generation, and anything but another packet
    of its own may come in between. [rx_window] has the functions at that point, with the
    generation the endpoint had when it was looked up, and [rx_raced] those that found a different
    one when they last read it: the endpoint was stopped and reset in between. Neither is something
    the code keeps. The generation is an [int64]; runs are those in which none has wrapped around. *)
Record rxState := MkRx {
  rx_conn : connState; rx_caches : gmap nat epAddrEndpointCache;
  rx_window : gmap nat (rxPending * Z); rx_raced : gset nat }.
Definition cacheOf (i : nat) (s : rxState) : epAddrEndpointCache := default zeroCache (rx_caches s !! i).
Definition on_conn (c : connState) (s : rxState) : rxState := MkRx c (rx_caches s) (rx_window s) (rx_raced s).
Definition handled (i : nat) (c : connState) (cache : epAddrEndpointCache) (s : rxState) : rxState :=
  MkRx c (<[i := cache]> (rx_caches s)) (rx_window s) (rx_raced s).
Definition unwrapped (p : peersState) : Prop := forall ep e, ps_eps p !! ep = Some e -> 0 <= gen e < 2 ^ 63 - 1.
Inductive rx_event : rxState -> rxState -> Prop :=
| ev_peers env p' s : unwrapped (cn_peers (rx_conn s)) -> peer_step env (cn_peers (rx_conn s)) p' ->
    rx_event s (on_conn (with_peers p' (rx_conn s)) s)
| ev_probes pm s : rx_event s (on_conn (with_probes pm (rx_conn s)) s)
| ev_receive ce i b ipp meta s c cache b' out r :
    rx_window s !! i = None ->
    receiveBegin ce b ipp (cacheOf i s) meta (rx_conn s) = inl (c, cache, b', out, r) ->
    rx_event s (handled i c cache s)
| ev_lookup ce i b ipp meta s pd :
    rx_window s !! i = None ->
    receiveBegin ce b ipp (cacheOf i s) meta (rx_conn s) = inr pd ->
    rx_event s (MkRx (rx_conn s) (rx_caches s) (<[i := (pd, genOf (pd_de pd) (rx_conn s))]> (rx_window s)) (rx_raced s))
| ev_generation ce i s pd g c cache b' out r :
    rx_window s !! i = Some (pd, g) ->
    receiveFinish ce pd (rx_conn s) = (c, cache, b', out, r) ->
    rx_event s (MkRx c (<[i := cache]> (rx_caches s)) (delete i (rx_window s))
                  (if genOf (pd_de pd) (rx_conn s) =? g then rx_raced s ∖ {[i]} else {[i]} ∪ rx_raced s))
| ev_initiation ce rep nk s :
    rx_event s (on_conn (InitiationMessagePublicKey ce rep nk (rx_conn s)).1 s)
| ev_accepted ce rep nk s :
    rx_event s (on_conn (Receive.FromPeer ce rep nk (rx_conn s)) s).
Definition rx_start (pm : sourcePathProbeManager) : rxState := MkRx (MkConn newPeers pm) ∅ ∅ ∅.

(** An endpoint and a generation it has had; if [fresh], it was a peer when it had it. *)
Definition entry_ok (p : peersState) (fresh : Prop) (g : Z) (de : nat) : Prop :=
  exists e, ps_eps p !! de = Some e /\ g <= gen e /\ (fresh -> g = gen e -> peer p de).
Record rx_inv (s : rxState) : Prop := {
  ri_peers : peers_ok (cn_peers (rx_conn s));
  ri_cache : forall i ca de, rx_caches s !! i = Some ca -> ca_de ca = Some de ->
    entry_ok (cn_peers (rx_conn s)) (i ∉ rx_raced s) (ca_gen ca) de;
  ri_window : forall i pd g, rx_window s !! i = Some (pd, g) -> entry_ok (cn_peers (rx_conn s)) True g (pd_de pd) }.
Lemma entry_steady p p' fresh g de : steady p p' -> entry_ok p fresh g de -> entry_ok p' fresh g de.
Proof.
  intros St (e & He & L & P). destruct (St de e He) as (e' & He' & _ & G & Pe). exists e'. rewrite G, Pe. done.
Qed.
Lemma entry_step env p p' fresh g de :
  peers_ok p -> unwrapped p -> peer_step env p p' -> entry_ok p fresh g de -> entry_ok p' fresh g de.
Proof.
  intros Hp Un St (e & He & L & P). destruct (peer_step_gen env p p' de e Hp St He) as (e' & He' & _ & [[G Pe]|G]); exists e'.
  - rewrite G, Pe. done.
  - pose proof (Un de e He). rewrite G, i64_small by (unfold in64; lia). split; [done|]. split; [lia|]. lia.
Qed.
Lemma addr_peer p src ep : peers_ok p -> endpointForEpAddr (ps_map p) src = Some ep -> peer p ep /\ is_Some (ps_eps p !! ep).
Proof.
  intros Hp. unfold endpointForEpAddr, endpointOf. destruct (byEpAddr (ps_map p) !! src) as [q|] eqn:E; [|done]. cbn. intros Hi.
  apply (ix_addr _ _ (pm_idx _ _ (po_map _ Hp))) in E as (nk & i & Hk & Hi' & _). split; [by exists nk, q|].
  destruct (ix_key _ _ (pm_idx _ _ (po_map _ Hp)) _ _ Hk) as (j & e & Hj & He & _). rewrite Hj in Hi. injection Hi as <-. eauto.
Qed.
Lemma cacheHit_Some src ca s de :
  cacheHit src ca s = Some de -> ca_de ca = Some de /\ ca_epAddr ca = src /\ ca_gen ca = genOf de s.
Proof.
  unfold cacheHit. destruct (ca_de ca) as [de'|]; [|done]. destruct (_ && _) eqn:Hit; [|done]. intros [= <-]. by bool_props.
Qed.
Lemma cacheHit_eq src ca s de : ca_de ca = Some de -> ca_epAddr ca = src -> ca_gen ca = genOf de s -> cacheHit src ca s = Some de.
Proof. intros D A G. unfold cacheHit. rewrite D, A, G, bool_decide_true, Z.eqb_refl by done. done. Qed.
Lemma cacheOf_ok i s de :
  rx_inv s -> ca_de (cacheOf i s) = Some de -> entry_ok (cn_peers (rx_conn s)) (i ∉ rx_raced s) (ca_gen (cacheOf i s)) de.
Proof.
  intros I. unfold cacheOf. destruct (rx_caches s !! i) as [ca|] eqn:E; [|done]. by apply (ri_cache s I).
Qed.
Lemma entry_now p fresh de e : ps_eps p !! de = Some e -> (fresh -> peer p de) -> entry_ok p fresh (gen e) de.
Proof. intros He P. exists e. split; [done|]. split; [lia|]. auto. Qed.
Lemma begin_cache ce b ipp cache meta s r : receiveBegin ce b ipp cache meta s = inl r -> r.1.1.1.2 = cache.
Proof.
  intros E. pose proof (begin_classified ce b ipp cache meta s) as B. rewrite E in B.
  destruct (classifyRx _ _ _); try (destruct B as (? & ? & ? & [= ->]); done). destruct r as [[[[? ?] ?] ?] ?]. by destruct B as [_ [-> _]].
Qed.
Lemma begin_found ce b ipp cache meta s pd :
  receiveBegin ce b ipp cache meta s = inr pd -> endpointForEpAddr (cn_map s) (pd_src pd) = Some (pd_de pd).
Proof.
  intros E. pose proof (begin_classified ce b ipp cache meta s) as B. rewrite E in B.
  destruct (classifyRx _ _ _); try (destruct B as (? & ? & ? & B); discriminate B). by destruct B as (_ & _ & F & -> & _).
Qed.
Lemma rx_event_inv s s' : rx_inv s -> rx_event s s' -> rx_inv s'.
Proof.
  intros I Ev. pose proof (ri_peers s I) as Hp.
  assert (forall c, rtc rx_step (cn_peers (rx_conn s)) (cn_peers c) -> rx_inv (on_conn c s)) as Calm.
  { intros c St. destruct (rx_steady _ _ Hp St) as [Hp' Sd].
    split; [done|intros; eapply entry_steady; [done|by eapply (ri_cache s I)]|intros; eapply entry_steady; [done|by eapply (ri_window s I)]]. }
  destruct Ev as [env p' s Un St|pm s|ce i b ipp meta s c cache b' out r W E|ce i b ipp meta s pd W E|ce i s pd g c cache b' out r W E|ce rep nk s|ce rep nk s].
  - split; [by eapply peer_step_ok|intros; eapply entry_step; [done..|by eapply (ri_cache s I)]|
      intros; eapply entry_step; [done..|by eapply (ri_window s I)]].
  - by apply Calm.
  - pose proof (begin_steps ce b ipp (cacheOf i s) meta (rx_conn s)) as St. rewrite E in St.
    pose proof (begin_cache ce b ipp _ meta _ _ E) as Ec. cbn in St, Ec. subst cache. destruct (Calm c St) as [J1 J2 J3].
    split; [done| |done]. cbn. intros j ca de [[<- <-]|[N Hj]]%lookup_insert_Some D; [|by apply (J2 j ca)].
    apply (entry_steady (cn_peers (rx_conn s))); [by apply rx_steady|by apply cacheOf_ok].
  - destruct (addr_peer _ _ _ Hp (begin_found _ _ _ _ _ _ _ E)) as [P [e He]]. split; [done|exact (ri_cache s I)|]. cbn.
    intros j pd' g [[<- [= <- <-]]|[N Hj]]%lookup_insert_Some; [|by apply (ri_window s I j)].
    unfold genOf. rewrite He. by apply entry_now.
  - pose proof (noteWireGuard_steps ce (pd_b pd) (pd_size pd) (pd_src pd) (pd_isGeneveEncap pd)
      (MkCache (pd_src pd) (genOf (pd_de pd) (rx_conn s)) (Some (pd_de pd))) (pd_rxMeta pd) (pd_de pd) (rx_conn s)) as St.
    pose proof (noteWireGuard_spec ce (pd_b pd) (pd_size pd) (pd_src pd) (pd_isGeneveEncap pd)
      (MkCache (pd_src pd) (genOf (pd_de pd) (rx_conn s)) (Some (pd_de pd))) (pd_rxMeta pd) (pd_de pd) (rx_conn s)) as Sp.
    unfold receiveFinish in E. rewrite E in St, Sp. destruct Sp as [-> _]. destruct (Calm c St) as [J1 J2 J3].
    destruct (ri_window s I i pd g W) as (e & He & L & P).
    split; [done| |cbn; intros j pd' g' [N Hj]%lookup_delete_Some; by apply (J3 j)]. cbn.
    intros j ca de [[<- <-]|[N Hj]]%lookup_insert_Some D.
    + injection D as <-. apply (entry_steady (cn_peers (rx_conn s))); [by apply rx_steady|]. cbn. unfold genOf. rewrite He. apply entry_now; [done|].
      destruct (Z.eqb_spec (gen e) g); [intros _; by apply P|set_solver].
    + destruct (J2 j ca de Hj D) as (x & Hx & Lx & Px). exists x. split; [done|]. split; [done|].
      intros Nr. apply Px. destruct (_ =? g) in Nr; set_solver.
  - apply Calm, initiation_steps.
  - apply Calm, accepted_steps.
Qed.
Lemma rx_run_inv pm s : rtc rx_event (rx_start pm) s -> rx_inv s.
Proof.
  intros R. assert (rx_inv (rx_start pm)) as I0 by (split; [apply newPeers_ok|done..]).
  revert I0. induction R as [|s1 s2 s3 E12 _ IH]; [done|]. intros I1. by apply IH, (rx_event_inv s1).
Qed.
Lemma entry_peer i s de :
  rx_inv s -> i ∉ rx_raced s -> ca_de (cacheOf i s) = Some de -> ca_gen (cacheOf i s) = genOf de (rx_conn s) ->
  exists nk e, is_peer (ps_eps (cn_peers (rx_conn s))) (cn_map (rx_conn s)) nk de e.
Proof.
  intros I N D G. destruct (cacheOf_ok i s de I D) as (e & He & _ & P). apply peer_is_peer; [apply I|]. apply P; [done|].
  rewrite G. unfold genOf. by rewrite He.
Qed.

(** [C13] Whom a WireGuard packet is attributed to, in every interleaving of packets on any number of
    receive functions with changes of the peers, resets, and what WireGuard tells about senders.
    When a receive function finds the endpoint in its cache, that endpoint is a current peer,
    although the cache is used without a lock; when it attributes the packet to nobody, the
    address is not known at that moment; when it has looked the endpoint up, that is a current peer
    at the time its generation is read. All this provided the endpoint was not stopped and reset
    just between that lookup and the reading of the generation, which are not one critical
    section: whatever was cached then is used for the next packet from the address, whether or
    not the endpoint is still a peer. *)
Theorem wireguard_attributed ce pm i s :
  rtc rx_event (rx_start pm) s ->
  (forall b ipp meta c cache b' out rep size g,
     receiveBegin ce b ipp (cacheOf i s) meta (rx_conn s) = inl (c, cache, b', out, Some (rep, size, g)) ->
     match believed rep with
     | Some ep => i ∉ rx_raced s -> exists nk e, is_peer (ps_eps (cn_peers (rx_conn s))) (cn_map (rx_conn s)) nk ep e
     | None => exists src, rep = EpLazy None src meta /\ ap src = ipp /\ endpointForEpAddr (cn_map (rx_conn s)) src = None
     end)
  /\ (forall pd g, rx_window s !! i = Some (pd, g) ->
     let '(c, cache, b', out, r) := receiveFinish ce pd (rx_conn s) in
     (exists rep, r = Some (rep, pd_size pd, pd_isGeneveEncap pd) /\ believed rep = Some (pd_de pd))
     /\ (genOf (pd_de pd) (rx_conn s) = g -> exists nk e, is_peer (ps_eps (cn_peers (rx_conn s))) (cn_map (rx_conn s)) nk (pd_de pd) e)
     /\ forall ce' b2 ipp meta p2 g2, classifyRx (negb (ce_privateKeyIsZero ce')) b2 ipp = RxWireGuard p2 (pd_src pd) g2 ->
          exists c2 b2' out2 rep2, receiveBegin ce' b2 ipp cache meta c = inl (c2, cache, b2', out2, Some (rep2, length p2, g2))
            /\ believed rep2 = Some (pd_de pd)).
Proof.
  intros R. pose proof (rx_run_inv _ _ R) as I. split.
  - intros b ipp meta c cache b' out rep size g E. pose proof (begin_classified ce b ipp (cacheOf i s) meta (rx_conn s)) as B. rewrite E in B.
    destruct (classifyRx _ b ipp) as [| |p src g'|]; try (destruct B as (? & ? & ? & B); discriminate B).
    destruct B as [Ea (_ & rep' & [= <- _ _] & _ & Eb & No)]. destruct (believed rep) as [ep|].
    + intros N. symmetry in Eb. destruct (cacheHit_Some _ _ _ _ Eb) as (D & _ & G). by apply (entry_peer i).
    + destruct (No eq_refl). eauto.
  - intros pd g W. destruct (ri_window s I i pd g W) as (e & He & L & P). unfold receiveFinish.
    set (cache0 := MkCache _ _ _).
    pose proof (noteWireGuard_steps ce (pd_b pd) (pd_size pd) (pd_src pd) (pd_isGeneveEncap pd) cache0 (pd_rxMeta pd) (pd_de pd) (rx_conn s)) as St.
    pose proof (noteWireGuard_spec ce (pd_b pd) (pd_size pd) (pd_src pd) (pd_isGeneveEncap pd) cache0 (pd_rxMeta pd) (pd_de pd) (rx_conn s)) as Sp.
    destruct (noteWireGuard _ _ _ _ _ _ _ _ _) as [[[[c cache] b'] out] r]. destruct Sp as (-> & _ & rep & Er). cbn in St.
    split; [by exists rep|]. split.
    + intros G. apply peer_is_peer; [apply I|]. apply P; [done|]. rewrite <- G. unfold genOf. by rewrite He.
    + intros ce' b2 ipp meta p2 g2 Ec. pose proof (begin_classified ce' b2 ipp cache0 meta c) as B. rewrite Ec in B. destruct B as [_ B].
      assert (cacheHit (pd_src pd) cache0 c = Some (pd_de pd)) as Hit.
      { apply cacheHit_eq; [done..|]. destruct (rx_steady _ _ (ri_peers s I) St) as [_ Sd].
        destruct (Sd _ _ He) as (e' & He' & _ & Ge & _). cbn. unfold genOf. by rewrite He, He', Ge. }
      unfold begun in B. destruct (receiveBegin ce' b2 ipp cache0 meta c) as [[[[[c2 ca2] b2'] out2] r2]|pd2]; [|destruct B; congruence].
      destruct B as (-> & rep2 & -> & _ & Eb & _). rewrite Hit in Eb. by exists c2, b2', out2, rep2.
Qed.

(** A cache that has no current entry for an address. *)
Definition misses (src : epAddr) (ca : epAddrEndpointCache) (s : connState) : Prop :=
  ca_epAddr ca <> src \/ match ca_de ca with Some de => ca_gen ca <> genOf de s | None => True end.
Lemma cache_misses src ca s : misses src ca s <-> cacheHit src ca s = None.
Proof.
  unfold misses, cacheHit. destruct (ca_de ca) as [de|]; [|split; auto]. destruct (_ && _) eqn:Hit; bool_props; [naive_solver|].
  split; [done|]. intros _. apply andb_false_iff in Hit as [Hit|Hit]; bool_props; auto.
Qed.
Lemma miss_steady i src s c :
  rx_inv s -> steady (cn_peers (rx_conn s)) (cn_peers c) -> misses src (cacheOf i s) (rx_conn s) -> misses src (cacheOf i s) c.
Proof.
  intros I Sd [M|M]; [by left|]. right. destruct (ca_de (cacheOf i s)) as [de|] eqn:D; [|done].
  destruct (cacheOf_ok i s de I D) as (e & He & _). destruct (Sd de e He) as (e' & He' & _ & G & _). unfold genOf in *. rewrite He', G. by rewrite He in M.
Qed.
(** A sender that WireGuard names, and that is not the believed one, is found by its address. *)
Lemma accepted_known ce maybeEP src nk c ep :
  peers_ok (cn_peers c) -> endpointForNodeKey (cn_map c) nk = Some ep ->
  match maybeEP with Some q => pubOf (ps_eps (cn_peers c)) q <> nk | None => True end ->
  endpointForEpAddr (cn_map (acceptedFrom ce maybeEP src nk c)) src = Some ep.
Proof.
  intros Hc Hk Nq. unfold acceptedFrom. rewrite Hk.
  replace (match maybeEP with Some _ => _ | None => false end) with false by (destruct maybeEP; [by rewrite bool_decide_false|done]).
  destruct (rx_steady _ _ Hc (noteRemote_steps ce (Some ep) src c)) as [Hn _].
  set (c1 := noteSourcePathRemote ce (Some ep) src c) in *. change (cn_map c) with (cn_map c1) in Hk.
  unfold endpointForNodeKey in Hk. case_bool_decide; [done|]. unfold endpointOf in Hk.
  destruct (byNodeKey (cn_map c1) !! nk) as [p|] eqn:Ep; [|done]. cbn in Hk.
  pose proof (pm_idx _ _ (po_map _ Hn)) as Hx.
  destruct (setNodeKey_ok (ps_eps (cn_peers c1)) src nk (cn_map c1) Hx) as [_ (_ & _ & _ & _ & EP)].
  unfold endpointForEpAddr, endpointOf. cbn [setAddr cn_peers with_peers Peers.with_map ps_map].
  rewrite setNodeKey_lookup by (done || by rewrite Ep). rewrite Ep. cbn. by rewrite EP.
Qed.
(** A packet attributed to nobody changes neither the cache nor, but for the notes, the peers. *)
Lemma receive_unknown ce w i b ipp meta s c cache b' out src size g :
  receiveIPWithSource ce w b ipp (cacheOf i s) meta (rx_conn s) = (c, cache, b', out, Some (EpLazy None src meta, size, g)) ->
  cache = cacheOf i s /\ misses src (cacheOf i s) (rx_conn s) /\ rtc rx_step (cn_peers (rx_conn s)) (cn_peers c).
Proof.
  intros E. pose proof (begin_classified ce b ipp (cacheOf i s) meta (rx_conn s)) as B. pose proof (begin_steps ce b ipp (cacheOf i s) meta (rx_conn s)) as St.
  pose proof (receive_classified ce w b ipp (cacheOf i s) meta (rx_conn s)) as Rc. rewrite E in Rc. unfold receiveIPWithSource in E.
  destruct (classifyRx _ b ipp) as [| |p src' g'|]; try (destruct Rc as [Rc _]; discriminate Rc). clear Rc.
  destruct B as [_ B]. unfold begun in B. destruct (receiveBegin _ _ _ _ _ _) as [r|pd].
  - subst r. destruct B as (-> & rep & [= <- _ _] & _ & Eb & No). destruct (No eq_refl) as [[= <-] _]. split; [done|]. split; [|done].
    by apply cache_misses.
  - pose proof (noteWireGuard_spec ce (pd_b pd) (pd_size pd) (pd_src pd) (pd_isGeneveEncap pd)
      (MkCache (pd_src pd) (genOf (pd_de pd) (w (rx_conn s))) (Some (pd_de pd))) (pd_rxMeta pd) (pd_de pd) (w (rx_conn s))) as Sp.
    unfold receiveFinish in E. rewrite E in Sp. destruct Sp as (_ & _ & rep & [= <- _ _] & Eb). discriminate Eb.
Qed.

(** [C15] An identified sender is known from then on: when WireGuard names the peer that sent a
    packet from an address nobody was known by, the next WireGuard packet from that address is
    attributed to that peer's endpoint, on the receive function it came in on and on any other
    that has nothing cached for the address. *)
Theorem identified_sender_known ce ce' w w2 pm i j b b2 ipp meta meta2 s c cache b' out src size g nk ep p2 g2 :
  rtc rx_event (rx_start pm) s ->
  receiveIPWithSource ce w b ipp (cacheOf i s) meta (rx_conn s) = (c, cache, b', out, Some (EpLazy None src meta, size, g)) ->
  endpointForNodeKey (cn_map c) nk = Some ep ->
  classifyRx (negb (ce_privateKeyIsZero ce')) b2 ipp = RxWireGuard p2 src g2 ->
  j = i \/ ca_epAddr (cacheOf j s) <> src ->
  let s' := handled i (Receive.FromPeer ce (EpLazy None src meta) nk c) cache s in
  match receiveIPWithSource ce' w2 b2 ipp (cacheOf j s') meta2 (rx_conn s') with
  | (_, _, _, _, Some (rep, n, _)) => believed rep = Some ep /\ n = length p2
  | _ => False
  end.
Proof.
  intros R E Hk Ec Hj s'. pose proof (rx_run_inv _ _ R) as I.
  destruct (receive_unknown _ _ _ _ _ _ _ _ _ _ _ _ _ _ E) as (-> & Miss & St).
  destruct (rx_steady _ _ (ri_peers s I) St) as [Hc Sd].
  pose proof (accepted_known ce None src nk c ep Hc Hk Logic.I) as Kn.
  pose proof (proj2 (rx_steady _ _ Hc (accepted_steps ce (EpLazy None src meta) nk c))) as Sd2.
  pose proof (receive_classified ce' w2 b2 ipp (cacheOf j s') meta2 (rx_conn s')) as Rc2. rewrite Ec in Rc2.
  assert (attributed src (cacheOf j s') (rx_conn s') = Some ep) as L2.
  { unfold attributed. rewrite (proj1 (cache_misses src (cacheOf j s') (rx_conn s'))); [exact Kn|]. unfold s', cacheOf at 1. cbn [rx_caches handled].
    destruct (decide (j = i)) as [->|N].
    - rewrite lookup_insert_eq. cbn. eapply miss_steady; [done| |exact Miss]. by eapply steady_trans.
    - rewrite lookup_insert_ne by done. destruct Hj as [|Hj]; [done|]. fold (cacheOf j s). by left. }
  destruct (receiveIPWithSource ce' w2 b2 ipp (cacheOf j s') meta2 (rx_conn s')) as [[[[? ?] ?] ?] r].
  destruct Rc2 as (_ & rep & -> & _ & Eb & _). by rewrite Eb.
Qed.

(** What WireGuard gets as the sender carries the address the packet came from. *)
Definition carries (src : epAddr) (rep : rxEndpoint) : Prop :=
  match rep with EpPlain _ => True | EpAware _ a _ | EpLazy _ a _ => a = src end.
Lemma receive_carries ce w b ipp cache meta s c cache' b' out rep size g p src g' :
  receiveIPWithSource ce w b ipp cache meta s = (c, cache', b', out, Some (rep, size, g)) ->
  classifyRx (negb (ce_privateKeyIsZero ce)) b ipp = RxWireGuard p src g' -> carries src rep.
Proof.
  assert (forall b1 n src ca ep t r, (noteWireGuard ce b1 n src g' ca meta ep t).2 = Some r -> carries src r.1.1) as N.
  { intros b1 n a ca ep t r. unfold noteWireGuard. destruct (noteRecv _ _ _ _) as [[? ?] ?]. intros [= <-]. cbn.
    destruct (_ && _); [done|]. by destruct (isDirect a). }
  unfold receiveIPWithSource, receiveBegin, classifyRx. destruct (packetLooksLike b) as [pt gv].
  destruct (if gv then _ else _) as [|geneve]; [done|]. destruct pt; try done. rewrite negb_involutive.
  destruct (ce_privateKeyIsZero ce); [done|]. intros E [= _ Es ->]. rewrite <- Es. clear Es. set (a := if g' then _ else _) in *. clearbody a.
  unfold lookupWireGuard in E. destruct (if VNI.IsSet _ then _ else _) as [b1 n]. destruct (cacheHit _ _ _) as [ep|].
  - apply (N b1 n a cache ep s (rep, size, g)). by rewrite E.
  - destruct (endpointForEpAddr _ _) as [de|]; [|by injection E as <- <- <- <- <- _ _].
    apply (N b1 n a (MkCache a (genOf de (w s)) (Some de)) de (w s) (rep, size, g)). unfold receiveFinish in E. cbn in E. by rewrite E.
Qed.

(** [C39] A wrong attribution is not corrected where it is made: when a receive function has
    attributed a packet to an endpoint, and WireGuard, which got that endpoint with the address it
    came from, finds that it was sent by another known peer, then the index leads from the address
    to that other peer, and yet the next packet from the address is attributed to the same wrong
    endpoint as before. *)
Theorem correction_not_seen ce ce' w2 pm i b b2 ipp meta meta2 s c cache b' out rep size g nk ep other p p2 src g2 :
  rtc rx_event (rx_start pm) s ->
  classifyRx (negb (ce_privateKeyIsZero ce)) b ipp = RxWireGuard p src g ->
  receiveIPWithSource ce id b ipp (cacheOf i s) meta (rx_conn s) = (c, cache, b', out, Some (rep, size, g)) ->
  believed rep = Some ep -> rep <> EpPlain ep ->
  endpointForNodeKey (cn_map c) nk = Some other -> pubOf (ps_eps (cn_peers c)) ep <> nk ->
  classifyRx (negb (ce_privateKeyIsZero ce')) b2 ipp = RxWireGuard p2 src g2 ->
  other <> ep
  /\ endpointForEpAddr (cn_map (Receive.FromPeer ce rep nk c)) src = Some other
  /\ match receiveIPWithSource ce' w2 b2 ipp cache meta2 (Receive.FromPeer ce rep nk c) with
      | (_, _, _, _, Some (rep', _, _)) => believed rep' = Some ep
      | _ => False
      end.
Proof.
  intros R Ec E Eb Np Hk Nk Ec2. pose proof (rx_run_inv _ _ R) as I.
  pose proof (receive_steps ce b ipp (cacheOf i s) meta (rx_conn s)) as St. rewrite E in St. cbn [fst] in St.
  destruct (rx_steady _ _ (ri_peers s I) St) as [Hc Sd].
  pose proof (proj2 (rx_steady _ _ Hc (accepted_steps ce rep nk c))) as Sd2.
  pose proof (receive_carries _ _ _ _ _ _ _ _ _ _ _ _ _ _ _ _ _ E Ec) as Ca.
  pose proof (receive_classified ce id b ipp (cacheOf i s) meta (rx_conn s)) as Rc. rewrite E, Ec in Rc.
  destruct Rc as (Ecache & rep' & [= <- _] & _ & Eb' & _). rewrite Eb in Eb'. symmetry in Eb'.
  split; [|split].
  - intros ->. destruct (endpointForNodeKey_peer _ _ _ _ (pm_idx _ _ (po_map _ Hc)) Hk) as (e & ? & ? & _ & _ & _ & He & Hpk).
    apply Nk. unfold pubOf. by rewrite He.
  - destruct rep as [ep'|ep' a m|[ep'|] a m]; cbn in Eb; simplify_eq; cbn in Ca; subst a; by apply accepted_known.
  - pose proof (receive_classified ce' w2 b2 ipp cache meta2 (Receive.FromPeer ce rep nk c)) as Rc2.
    rewrite Ec2 in Rc2. destruct (receiveIPWithSource ce' w2 b2 ipp _ meta2 _) as [[[[? ?] ?] ?] r].
    destruct Rc2 as (_ & rep2 & -> & _ & Eb2 & _). rewrite Eb2.
    assert (ca_de cache = Some ep /\ ca_epAddr cache = src /\ ca_gen cache = genOf ep (rx_conn s)
      /\ is_Some (ps_eps (cn_peers (rx_conn s)) !! ep)) as (D & A & G & x & Hx).
    { rewrite Ecache. unfold cacheAfter, attributed in *. destruct (cacheHit src _ _) as [q|] eqn:Hit.
      - injection Eb' as ->. destruct (cacheHit_Some _ _ _ _ Hit) as (D & A & G). destruct (cacheOf_ok i s ep I D) as (x & Hx & _). eauto 10.
      - rewrite Eb'. destruct (addr_peer _ _ _ (ri_peers s I) Eb') as [_ Hx]. eauto 10. }
    destruct (steady_trans _ _ _ Sd Sd2 ep x Hx) as (x' & Hx' & _ & Ge & _).
    unfold attributed. rewrite (cacheHit_eq src cache _ ep); [done..|]. rewrite G. unfold genOf. by rewrite Hx, Hx', Ge.
Qed.
End Attribution.

(** ** Packets over DERP *)
Section Derp.
Context `{MapRange} `{Platform} (ce : connEnv) (onDERPRecv : Z -> NodePublic -> bytes -> bool).

(** A receive function changes the connections as [DvReceive] does. *)
Lemma receiveDERP_step n d c d' c' b out r :
  receiveDERP ce onDERPRecv n d c = Some (d', c', b, out, r) -> Derp.derpStep (Derp.DvReceive n) d = Some d'.
Proof.
  unfold receiveDERP, Derp.derpStep. destruct (Derp.dp_recvCh d) as [|dm ch]; [done|]. cbv zeta.
  destruct (Derp.dp_bindClosed _); [intros [= <-]; by destruct dm|]. destruct dm as [dm|]; [|by intros [= <-]].
  destruct (Derp.copyBuf dm n (Derp.set_recvCh ch d)) as [d1 b1]. cbn [fst].
  destruct (processDERPReadResult _ _ _ _ _) as [[? ?] ?]. by intros [= <-].
Qed.
(** [C18] What WireGuard gets over DERP is a packet that arrived, from the peer that sent it: the
    buffer holds the first packet of its connection not handed over yet, whole, with its length; the
    endpoint is the one the peer map has for the node key the server vouched for; and the packet is
    not a disco message. *)
Theorem derp_packet_attributed es d n c d' c' b out len ep :
  Derp.derpRun es Derp.newDerp = Some d ->
  receiveDERP ce onDERPRecv n d c = Some (d', c', b, out, DrPacket len ep) ->
  exists g src,
    DerpProps.arrivals g es !! length (DerpProps.handedOver g es Derp.newDerp) = Some (src, b)
    /\ len = length b /\ (0 < len <= n)%nat /\ endpointForNodeKey (cn_map c) src = Some ep
    /\ packetLooksLike b <> (packetLooksLikeDisco, false).
Proof.
  intros E. destruct (DerpProps.run_start es d E) as [_ L]. unfold receiveDERP. destruct (Derp.dp_recvCh d) as [|dm ch] eqn:Ec; [done|].
  cbv zeta. destruct (Derp.dp_bindClosed _); [done|]. destruct dm as [dm|]; [|done].
  destruct (DerpProps.lg_item _ _ _ L dm) as (G & EG & Es & En & _ & (ar0 & Ea & Sy) & _); [rewrite Ec; by left|].
  unfold Derp.copyBuf. cbn [Derp.dp_gens Derp.set_recvCh]. rewrite EG. cbn [from_option].
  unfold processDERPReadResult. destruct (Nat.eqb_spec (length (take n (Derp.dg_pkt G))) (Derp.rr_n dm)) as [El|]; [|done]. cbn [negb].
  rewrite En, length_take in El. rewrite (take_ge (Derp.dg_pkt G) n) by lia.
  destruct (packetLooksLike (Derp.dg_pkt G)) as [pt gv] eqn:Ept.
  destruct (match pt with packetLooksLikeDisco => negb gv | _ => false end) eqn:Ed; [by destruct (handleDiscoMessageWithSource _ _ _ _ _ _ _)|].
  destruct (onDERPRecv _ _ _); [done|]. destruct (endpointForNodeKey (cn_map c) (Derp.rr_src dm)) as [ep'|] eqn:Ee; [|done].
  intros X. assert (b = Derp.dg_pkt G /\ len = Derp.rr_n dm /\ ep = ep' /\ len <> 0%nat) as (-> & -> & -> & Nz).
  { destruct (ps_eps (cn_peers c) !! ep'); destruct (Nat.eqb_spec (Derp.rr_n dm) 0); simplify_eq; done. }
  exists (Derp.rr_client dm), (Derp.rr_src dm). split; [|split; [done|split; [lia|split; [done|]]]].
  - rewrite Ea, (Forall2_length _ _ _ Sy), Es. by apply list_lookup_middle.
  - rewrite Ept. intros [= -> ->]. discriminate Ed.
Qed.
End Derp.


(** ** Example: a packet from an unknown address, and two peers *)
#[local] Existing Instance canonical_range.
#[local] Existing Instance portable_platform.
Definition ex_wg (n : byte) : bytes := [x04; x00; x00; x00; n].
Definition ex_from : AddrPort := MkAddrPort (Addr4 0x05060708) 41641.
Definition ex_other : DiscoPublic := replicate 32 x09.
Definition ex_peers : peersState := orStay (wUpsert (ex_peerNode 2 x0b ex_other) ex_flags ex_peersState) ex_peersState.
Definition ex_rx (p : peersState) : rxState := MkRx (MkConn p zeroPM) ∅ ∅ ∅.
Definition isPlain (p : peersState) : bool := bool_decide (map_Forall (fun _ e => gen e = 0) (ps_eps p)).
Lemma isPlain_unwrapped p : isPlain p = true -> unwrapped p.
Proof. intros E ep e He. unfold isPlain in E. bool_props. rewrite (E ep e He). lia. Qed.
Lemma ex_upsert n p :
  isPlain p = true -> rtc rx_event (ex_rx newPeers) (ex_rx p) ->
  rtc rx_event (ex_rx newPeers) (ex_rx (orStay (wUpsert n ex_flags p) p)).
Proof.
  intros Pl R. destruct (wUpsert n ex_flags p) as [|p'] eqn:U; cbn; [done|]. eapply rtc_r; [exact R|].
  apply (ev_peers ex_peersEnv p' (ex_rx p)); [by apply isPlain_unwrapped|]. by eapply st_UpsertPeer.
Qed.
Lemma ex_run : rtc rx_event (rx_start zeroPM) (ex_rx ex_peers).
Proof. apply ex_upsert; [vm_compute; reflexivity|]. apply ex_upsert; [vm_compute; reflexivity|]. apply rtc_refl. Qed.
Notation wReceive b s := (receiveIPWithSource ex_connEnv id b ex_from (cacheOf 0 s) ex_aux (rx_conn s)).
Definition ex_lazy : rxEndpoint := EpLazy None (epAddr_of ex_from) ex_aux.
Definition ex_aware : rxEndpoint := EpAware 0 (epAddr_of ex_from) ex_aux.
Definition ex_first : rxResult := wReceive (ex_wg x01) (ex_rx ex_peers).
Definition ex_learned : rxState :=
  handled 0 (Receive.FromPeer ex_connEnv ex_lazy (replicate 32 x0a) ex_first.1.1.1.1) ex_first.1.1.1.2 (ex_rx ex_peers).
(** The parts of a result, and what was reported. *)
Lemma rx_parts (x : rxResult) rep : x.2 = rep -> x = (x.1.1.1.1, x.1.1.1.2, x.1.1.2, x.1.2, rep).
Proof. destruct x as [[[[? ?] ?] ?] ?]. by intros <-. Qed.
Definition ex_second : rxResult := wReceive (ex_wg x02) ex_learned.
(** The endpoint of the address is looked up, and removed before its generation is read. *)
Definition ex_begun (b : bytes) (s : rxState) : rxResult + rxPending := receiveBegin ex_connEnv b ex_from (cacheOf 0 s) ex_aux (rx_conn s).
Definition ex_pending : rxPending := MkPending (ex_wg x02) 5 (epAddr_of ex_from) false ex_aux 0.
Definition ex_looked : rxState := MkRx (rx_conn ex_learned) (rx_caches ex_learned) {[0%nat := (ex_pending, 0)]} ∅.
Definition ex_removed : rxState := on_conn (with_peers (RemovePeer ex_peersEnv 1 (cn_peers (rx_conn ex_looked))) (rx_conn ex_looked)) ex_looked.
Lemma ex_first_rep : ex_first.2 = Some (ex_lazy, 5%nat, false).
Proof. vm_compute. reflexivity. Qed.
Lemma ex_second_rep : ex_second.2 = Some (ex_aware, 5%nat, false).
Proof. vm_compute. reflexivity. Qed.
Lemma ex_first_key : endpointForNodeKey (cn_map ex_first.1.1.1.1) (replicate 32 x0a) = Some 0%nat.
Proof. vm_compute. reflexivity. Qed.
Lemma ex_first_begun : ex_begun (ex_wg x01) (ex_rx ex_peers) = inl ex_first.
Proof. vm_compute. reflexivity. Qed.
Lemma ex_second_begun : ex_begun (ex_wg x02) ex_learned = inr ex_pending.
Proof. vm_compute. reflexivity. Qed.
Lemma ex_learned_run : rtc rx_event (rx_start zeroPM) ex_learned.
Proof.
  etrans; [exact ex_run|]. eapply rtc_l; [|apply rtc_once].
  - eapply (ev_receive ex_connEnv 0 (ex_wg x01) ex_from ex_aux); [done|]. rewrite <- (rx_parts ex_first _ eq_refl). exact ex_first_begun.
  - exact (ev_accepted ex_connEnv ex_lazy (replicate 32 x0a) (handled 0 ex_first.1.1.1.1 ex_first.1.1.1.2 (ex_rx ex_peers))).
Qed.
Lemma ex_looked_gen : genOf 0 (rx_conn ex_learned) = 0.
Proof. vm_compute. reflexivity. Qed.
Lemma ex_looked_plain : isPlain (cn_peers (rx_conn ex_looked)) = true.
Proof. vm_compute. reflexivity. Qed.
Lemma ex_removed_run : rtc rx_event (rx_start zeroPM) ex_removed.
Proof.
  eapply rtc_r; [eapply rtc_r; [exact ex_learned_run|]|].
  - exact (ev_lookup ex_connEnv 0 (ex_wg x02) ex_from ex_aux ex_learned ex_pending eq_refl ex_second_begun).
  - cbn [pd_de ex_pending]. rewrite ex_looked_gen. apply (ev_peers ex_peersEnv _ ex_looked); [|by apply st_RemovePeer].
    apply isPlain_unwrapped, ex_looked_plain.
Qed.
Lemma ex_removed_gone : byNodeKey (cn_map (rx_conn ex_removed)) !! replicate 32 x0a = None
  /\ endpointForEpAddr (cn_map (rx_conn ex_removed)) (epAddr_of ex_from) = None.
Proof. split; vm_compute; reflexivity. Qed.
Lemma ex_second_key : endpointForNodeKey (cn_map ex_second.1.1.1.1) (replicate 32 x0b) = Some 1%nat.
Proof. vm_compute. reflexivity. Qed.
Lemma ex_second_pub : bool_decide (pubOf (ps_eps (cn_peers ex_second.1.1.1.1)) 0 = replicate 32 x0b) = false.
Proof. vm_compute. reflexivity. Qed.
Lemma ex_classified n :
  classifyRx (negb (ce_privateKeyIsZero ex_connEnv)) (ex_wg n) ex_from = RxWireGuard (ex_wg n) (epAddr_of ex_from) false.
Proof. reflexivity. Qed.
Definition ex_msg : rxMsg := MkMsg (ex_wg x01) ex_from ex_connEnv ex_aux id id.
Lemma receive_batch_exact_witness :
  exists slots, outcome [ReadErr true 0; ReadMsgs [ex_msg]] slots (Some (inl 1%nat)).
Proof.
  pose proof (receive_batch_exact [ReadErr true 0; ReadMsgs [ex_msg]]
    [MkSlot [] 0 None; MkSlot [] 0 None] (MkRxFunc (rx_conn (ex_rx ex_peers)) zeroCache [])) as B.
  destruct (receiveFunc _ _ _) as [[s slots] res] eqn:E.
  assert (res = Some (inl 1%nat)) as Hr by (change res with (s, slots, res).2; rewrite <- E; vm_compute; reflexivity).
  rewrite Hr in B. exists slots. apply B. repeat constructor.
Defined.
Lemma wireguard_attributed_witness :
  let r := receiveFinish ex_connEnv ex_pending (rx_conn ex_removed) in
  (byNodeKey (cn_map (rx_conn ex_removed)) !! replicate 32 x0a = None
   /\ endpointForEpAddr (cn_map (rx_conn ex_removed)) (epAddr_of ex_from) = None)
  /\ exists c2 b2' out2 rep2,
       receiveBegin ex_connEnv (ex_wg x03) ex_from r.1.1.1.2 ex_aux r.1.1.1.1 = inl (c2, r.1.1.1.2, b2', out2, Some (rep2, 5%nat, false))
       /\ believed rep2 = Some 0%nat.
Proof.
  intros r. split; [exact ex_removed_gone|].
  pose proof (proj2 (wireguard_attributed ex_connEnv zeroPM 0 ex_removed ex_removed_run) ex_pending 0 eq_refl) as X.
  fold r in X. clearbody r. destruct r as [[[[c cache] b'] out] rr]. destruct X as (_ & _ & X).
  exact (X ex_connEnv (ex_wg x03) ex_from ex_aux (ex_wg x03) false (ex_classified x03)).
Defined.
Lemma identified_sender_known_witness :
  match receiveIPWithSource ex_connEnv id (ex_wg x02) ex_from (cacheOf 0 ex_learned) ex_aux (rx_conn ex_learned) with
  | (_, _, _, _, Some (rep, n, _)) => believed rep = Some 0%nat /\ n = 5%nat
  | _ => False
  end.
Proof.
  exact (identified_sender_known ex_connEnv ex_connEnv id id zeroPM 0 0 (ex_wg x01) (ex_wg x02) ex_from ex_aux ex_aux (ex_rx ex_peers) _
    _ _ _ (epAddr_of ex_from) 5 false (replicate 32 x0a) 0 (ex_wg x02) false ex_run (rx_parts ex_first _ ex_first_rep) ex_first_key
    (ex_classified x02) (or_introl eq_refl)).
Defined.
Lemma correction_not_seen_witness :
  let c := Receive.FromPeer ex_connEnv ex_aware (replicate 32 x0b) ex_second.1.1.1.1 in
  endpointForEpAddr (cn_map c) (epAddr_of ex_from) = Some 1%nat
  /\ match receiveIPWithSource ex_connEnv id (ex_wg x03) ex_from ex_second.1.1.1.2 ex_aux c with
     | (_, _, _, _, Some (rep', _, _)) => believed rep' = Some 0%nat
     | _ => False
     end.
Proof.
  apply (correction_not_seen ex_connEnv ex_connEnv id zeroPM 0 (ex_wg x02) (ex_wg x03) ex_from ex_aux ex_aux ex_learned
    ex_second.1.1.1.1 ex_second.1.1.1.2 ex_second.1.1.2 ex_second.1.2 ex_aware 5 false (replicate 32 x0b) 0 1 (ex_wg x02) (ex_wg x03)
    (epAddr_of ex_from) false ex_learned_run (ex_classified x02) (rx_parts ex_second _ ex_second_rep) eq_refl ltac:(discriminate) ex_second_key
    (proj1 (bool_decide_eq_false _) ex_second_pub) (ex_classified x03)).
Defined.
Definition ex_derp : list Derp.derpEvent :=
  DerpProps.ex_home ++ [Derp.DvMsg 0 (Derp.MPacket (replicate 32 x0a) (ex_wg x01)); Derp.DvPush 0].
Notation wDerp :=
  (receiveDERP ex_connEnv (fun _ _ _ => false) 16 (DerpProps.ex_at ex_derp) (rx_conn (ex_rx ex_peers))).
Lemma ex_derp_run : Derp.derpRun ex_derp Derp.newDerp = Some (DerpProps.ex_at ex_derp).
Proof. apply DerpProps.ex_runs. vm_compute. reflexivity. Qed.
Lemma ex_derp_got : exists d c out, wDerp = Some (d, c, ex_wg x01, out, DrPacket 5 0).
Proof.
  assert (match wDerp with Some x => (x.2, x.1.1.2) | None => (DrClosed, []) end = (DrPacket 5 0, ex_wg x01)) as X by (vm_compute; reflexivity).
  destruct wDerp as [[[[[d c] b] out] r]|]; [|done]. cbn [fst snd] in X. injection X as -> ->. by exists d, c, out.
Qed.
Lemma derp_packet_attributed_witness : exists g src,
  DerpProps.arrivals g ex_derp !! length (DerpProps.handedOver g ex_derp Derp.newDerp) = Some (src, ex_wg x01)
  /\ 5%nat = length (ex_wg x01) /\ (0 < 5 <= 16)%nat /\ endpointForNodeKey (cn_map (rx_conn (ex_rx ex_peers))) src = Some 0%nat
  /\ packetLooksLike (ex_wg x01) <> (packetLooksLikeDisco, false).
Proof.
  destruct ex_derp_got as (d & c & out & E).
  exact (derp_packet_attributed ex_connEnv (fun _ _ _ => false) ex_derp (DerpProps.ex_at ex_derp) 16 (rx_conn (ex_rx ex_peers))
    d c (ex_wg x01) out 5 0 ex_derp_run E).
Defined.
End ReceiveProps.
