(* ===== verification/IPPacket.v ===== *)
(** * IP packets (net/packet: packet.go, header.go, ip4.go, ip6.go, udp4.go, udp6.go, icmp4.go,
    icmp6.go; types/ipproto)

    [Parsed] and its decoder, the headers that marshal themselves into a buffer, and the
    Internet checksum. An index or a slice out of range is [None] in the decoder and
    [PacketPanic] in the marshallers, so that a theorem can say that Go does not panic. The
    decoder is called again and again on one [Parsed]: a field it does not write keeps the value
    of the packet before. The capacity of a buffer is its length. *)
From S2P Require Import Prelude Netip Bytes Slices.

(** ** types/ipproto *)
Module ipproto.
Definition Unknown : Z := 0x00.
Definition ICMPv4 : Z := 0x01.
Definition IGMP : Z := 0x02.
Definition ICMPv6 : Z := 0x3a.
Definition TCP : Z := 0x06.
Definition UDP : Z := 0x11.
Definition DCCP : Z := 0x21.
Definition GRE : Z := 0x2f.
Definition SCTP : Z := 0x84.
Definition TSMP : Z := 99.
Definition Fragment : Z := 0xFF.
End ipproto.

Module IPPacket.

(** [b[i]], [b[lo:hi]] and [binary.BigEndian.Uint16(b[i:i+2])] *)
Definition idx (b : bytes) (i : nat) : option Z := b2z <$> b !! i.
Definition slice (b : bytes) (lo hi : nat) : option bytes :=
  if (lo <=? hi)%nat && (hi <=? length b)%nat then Some (take (hi - lo) (drop lo b)) else None.
Definition u16 (b : bytes) (i : nat) : option Z := be_get <$> slice b i (i + 2).

Definition ip4HeaderLength : nat := 20.
Definition ip6HeaderLength : nat := 40.
Definition igmpHeaderLength : nat := 8.
Definition tcpHeaderLength : nat := 20.
Definition sctpHeaderLength : nat := 12.
Definition udpHeaderLength : nat := 8.
Definition icmp4HeaderLength : nat := 4.
Definition icmp6HeaderLength : nat := 4.
Definition minTSMPSize : nat := 7.
Definition maxPacketLength : Z := 65535.
Definition minFragBlks : Z := (60 + 20) / 8.

Definition TCPSyn : Z := 0x02.
Definition TCPAck : Z := 0x10.
Definition TCPSynAck : Z := Z.lor TCPSyn TCPAck.

Record CaptureMeta := MkCaptureMeta
  { DidSNAT : bool; OriginalSrc : AddrPort; DidDNAT : bool; OriginalDst : AddrPort }.
Definition zeroCaptureMeta : CaptureMeta := MkCaptureMeta false zeroAddrPort false zeroAddrPort.

Record Parsed := MkParsed {
  b : bytes;
  subofs : nat;
  dataofs : nat;
  length_ : nat;
  IPVersion : Z;
  IPProto : Z;
  Src : AddrPort;
  Dst : AddrPort;
  TCPFlags : Z;
  captureMeta : CaptureMeta }.
Definition zeroParsed : Parsed :=
  MkParsed [] 0 0 0 0 ipproto.Unknown zeroAddrPort zeroAddrPort 0 zeroCaptureMeta.

(** Assignments to the fields *)
Definition set_buf (q : Parsed) (v : bytes) : Parsed :=
  let '(MkParsed _ so d l ve p s t f m) := q in MkParsed v so d l ve p s t f m.
Definition set_subofs (q : Parsed) (v : nat) : Parsed :=
  let '(MkParsed bu _ d l ve p s t f m) := q in MkParsed bu v d l ve p s t f m.
Definition set_dataofs (q : Parsed) (v : nat) : Parsed :=
  let '(MkParsed bu so _ l ve p s t f m) := q in MkParsed bu so v l ve p s t f m.
Definition set_length (q : Parsed) (v : nat) : Parsed :=
  let '(MkParsed bu so d _ ve p s t f m) := q in MkParsed bu so d v ve p s t f m.
Definition set_IPVersion (q : Parsed) (v : Z) : Parsed :=
  let '(MkParsed bu so d l _ p s t f m) := q in MkParsed bu so d l v p s t f m.
Definition set_IPProto (q : Parsed) (v : Z) : Parsed :=
  let '(MkParsed bu so d l ve _ s t f m) := q in MkParsed bu so d l ve v s t f m.
Definition set_Src (q : Parsed) (v : AddrPort) : Parsed :=
  let '(MkParsed bu so d l ve p _ t f m) := q in MkParsed bu so d l ve p v t f m.
Definition set_Dst (q : Parsed) (v : AddrPort) : Parsed :=
  let '(MkParsed bu so d l ve p s _ f m) := q in MkParsed bu so d l ve p s v f m.
Definition set_TCPFlags (q : Parsed) (v : Z) : Parsed :=
  let '(MkParsed bu so d l ve p s t _ m) := q in MkParsed bu so d l ve p s t v m.
Definition set_captureMeta (q : Parsed) (v : CaptureMeta) : Parsed :=
  let '(MkParsed bu so d l ve p s t f _) := q in MkParsed bu so d l ve p s t f v.

Definition withIP (p : AddrPort) (a : Addr) : AddrPort := MkAddrPort a (port p).
Definition withPort (p : AddrPort) (n : Z) : AddrPort := MkAddrPort (ip p) n.

Definition unknown (q : Parsed) : Parsed := set_IPProto q ipproto.Unknown.
(** [q.Src = withPort(q.Src, sub[0:2])], [q.Dst = withPort(q.Dst, sub[2:4])] *)
Definition readPorts (q : Parsed) (sub : bytes) : option Parsed :=
  s ← u16 sub 0;
  let q := set_Src q (withPort (Src q) s) in
  d ← u16 sub 2;
  Some (set_Dst q (withPort (Dst q) d)).
Definition zeroPorts (q : Parsed) : Parsed :=
  let q := set_Src q (withPort (Src q) 0) in set_Dst q (withPort (Dst q) 0).
(** The TCP case of both families, after the length check *)
Definition readTCP (q : Parsed) (sub : bytes) : option Parsed :=
  q ← readPorts q sub;
  f ← idx sub 13;
  let q := set_TCPFlags q f in
  h ← idx sub 12;
  Some (set_dataofs q (subofs q + Z.to_nat (Z.shiftr (Z.land h 0xF0) 2))).

Definition decode4 (q : Parsed) (b : bytes) : option Parsed :=
  if (length b <? ip4HeaderLength)%nat then Some (unknown (set_IPVersion q 0)) else
  proto ← idx b 9;
  let q := set_IPProto q proto in
  l ← u16 b 2;
  let q := set_length q (Z.to_nat l) in
  if (length b <? length_ q)%nat then Some (unknown q) else
  src ← slice b 12 16;
  let q := set_Src q (withIP (Src q) (Addr4 (be_get src))) in
  dst ← slice b 16 20;
  let q := set_Dst q (withIP (Dst q) (Addr4 (be_get dst))) in
  b0 ← idx b 0;
  let q := set_subofs q (Z.to_nat (uw 8 (Z.shiftl (Z.land b0 0x0F) 2))) in
  if (length_ q <? subofs q)%nat then Some (unknown q) else
  sub ← slice b (subofs q) (length b);
  fragFlags ← u16 b 6;
  let moreFrags := negb (Z.land fragFlags 0x2000 =? 0) in
  let fragOfs := Z.land fragFlags 0x1FFF in
  if fragOfs =? 0 then
    if proto =? ipproto.ICMPv4 then
      if (length sub <? icmp4HeaderLength)%nat then Some (unknown q)
      else Some (set_dataofs (zeroPorts q) (subofs q + icmp4HeaderLength))
    else if proto =? ipproto.IGMP then
      if (length sub <? igmpHeaderLength)%nat then Some (unknown q) else Some q
    else if proto =? ipproto.TCP then
      if (length sub <? tcpHeaderLength)%nat then Some (unknown q) else readTCP q sub
    else if proto =? ipproto.UDP then
      if (length sub <? udpHeaderLength)%nat then Some (unknown q)
      else q ← readPorts q sub; Some (set_dataofs q (subofs q + udpHeaderLength))
    else if proto =? ipproto.SCTP then
      if (length sub <? sctpHeaderLength)%nat then Some (unknown q) else readPorts q sub
    else if proto =? ipproto.TSMP then
      if moreFrags then Some (unknown q)
      else if (length sub <? minTSMPSize)%nat then Some (unknown q)
      else Some (set_dataofs q (subofs q))
    else if proto =? ipproto.Fragment then Some (unknown q)
    else Some q
  else if fragOfs <? minFragBlks then Some (unknown q)
  else Some (set_IPProto q ipproto.Fragment).

Definition decode6 (q : Parsed) (b : bytes) : option Parsed :=
  if (length b <? ip6HeaderLength)%nat then Some (unknown (set_IPVersion q 0)) else
  proto ← idx b 6;
  let q := set_IPProto q proto in
  l ← u16 b 4;
  let q := set_length q (Z.to_nat l + ip6HeaderLength) in
  if (length b <? length_ q)%nat then Some (unknown q) else
  src ← slice b 8 24;
  dst ← slice b 24 40;
  let q := set_Src q (withIP (Src q) (AddrFrom16 src)) in
  let q := set_Dst q (withIP (Dst q) (AddrFrom16 dst)) in
  let q := set_subofs q 40 in
  sub ← slice b (subofs q) (length b);
  if proto =? ipproto.ICMPv6 then
    if (length sub <? icmp6HeaderLength)%nat then Some (unknown q)
    else Some (set_dataofs (zeroPorts q) (subofs q + icmp6HeaderLength))
  else if proto =? ipproto.TCP then
    if (length sub <? tcpHeaderLength)%nat then Some (unknown q) else readTCP q sub
  else if proto =? ipproto.UDP then
    if (length sub <? udpHeaderLength)%nat then Some (unknown q)
    else q ← readPorts q sub; Some (set_dataofs q (subofs q + udpHeaderLength))
  else if proto =? ipproto.SCTP then
    if (length sub <? sctpHeaderLength)%nat then Some (unknown q) else readPorts q sub
  else if proto =? ipproto.TSMP then
    if (length sub <? minTSMPSize)%nat then Some (unknown q)
    else Some (set_dataofs q (subofs q))
  else if proto =? ipproto.Fragment then Some (unknown q)
  else Some q.

Definition Decode (q : Parsed) (b : bytes) : option Parsed :=
  let q := set_captureMeta (set_buf q b) zeroCaptureMeta in
  if (length b <? 1)%nat then Some (unknown (set_IPVersion q 0)) else
  b0 ← idx b 0;
  let q := set_IPVersion q (Z.shiftr b0 4) in
  if IPVersion q =? 4 then decode4 q b
  else if IPVersion q =? 6 then decode6 q b
  else Some (unknown (set_IPVersion q 0)).

(** ** Views of a decoded packet *)
(** [None] is a slice out of range. *)
Definition Payload (q : Parsed) : option bytes :=
  if (length (b q) <? length_ q)%nat || (length (b q) <? dataofs q)%nat then Some []
  else slice (b q) (dataofs q) (length_ q).
Definition Transport (q : Parsed) : option bytes := slice (b q) (subofs q) (length (b q)).
Definition IsTCPSyn (q : Parsed) : bool := Z.land (TCPFlags q) TCPSynAck =? TCPSyn.

Definition ICMP4EchoReply : Z := 0x00.
Definition ICMP4EchoRequest : Z := 0x08.
Definition ICMP4Unreachable : Z := 0x03.
Definition ICMP4TimeExceeded : Z := 0x0b.
Definition ICMP4ParamProblem : Z := 0x12.
Definition ICMP4NoCode : Z := 0.
Definition ICMP6Unreachable : Z := 1.
Definition ICMP6PacketTooBig : Z := 2.
Definition ICMP6TimeExceeded : Z := 3.
Definition ICMP6ParamProblem : Z := 4.
Definition ICMP6EchoRequest : Z := 128.
Definition ICMP6EchoReply : Z := 129.
Definition ICMP6NoCode : Z := 0.

(** A byte that the length test before it has put in range *)
Definition byteOf (q : Parsed) (i : nat) : Z := default 0 (idx (b q) i).
Definition icmpRoom (q : Parsed) : bool := (subofs q + 8 <=? length (b q))%nat.
Definition IsError (q : Parsed) : bool :=
  if IPProto q =? ipproto.ICMPv4 then
    if negb (icmpRoom q) then false
    else let t := byteOf q (subofs q) in
         (t =? ICMP4Unreachable) || (t =? ICMP4TimeExceeded) || (t =? ICMP4ParamProblem)
  else if IPProto q =? ipproto.ICMPv6 then
    if negb (icmpRoom q) then false
    else let t := byteOf q (subofs q) in
         (t =? ICMP6Unreachable) || (t =? ICMP6PacketTooBig) || (t =? ICMP6TimeExceeded)
         || (t =? ICMP6ParamProblem)
  else false.
Definition IsEchoRequest (q : Parsed) : bool :=
  if IPProto q =? ipproto.ICMPv4 then
    icmpRoom q && (byteOf q (subofs q) =? ICMP4EchoRequest) && (byteOf q (subofs q + 1) =? ICMP4NoCode)
  else if IPProto q =? ipproto.ICMPv6 then
    icmpRoom q && (byteOf q (subofs q) =? ICMP6EchoRequest) && (byteOf q (subofs q + 1) =? ICMP6NoCode)
  else false.
Definition IsEchoResponse (q : Parsed) : bool :=
  if IPProto q =? ipproto.ICMPv4 then
    icmpRoom q && (byteOf q (subofs q) =? ICMP4EchoReply) && (byteOf q (subofs q + 1) =? ICMP4NoCode)
  else if IPProto q =? ipproto.ICMPv6 then
    icmpRoom q && (byteOf q (subofs q) =? ICMP6EchoReply) && (byteOf q (subofs q + 1) =? ICMP6NoCode)
  else false.
Definition EchoIDSeq (q : Parsed) : Z :=
  let read offset :=
    if (length (b q) <? offset + 4)%nat then 0 else le_get (take 4 (drop offset (b q))) in
  if IPProto q =? ipproto.ICMPv4 then read (ip4HeaderLength + icmp4HeaderLength)%nat
  else if IPProto q =? ipproto.ICMPv6 then read (ip6HeaderLength + icmp6HeaderLength)%nat
  else 0.

(** ** Headers *)
Inductive hdrErr := errSmallBuffer | errLargePacket | errWrongFamily | errBogusSrc | PacketPanic.
#[export] Instance hdrErr_panic : HasPanic hdrErr := PacketPanic.
(** A call whose error result the caller does not look at *)
Definition ignoreErr (r : hdrErr + bytes) (buf : bytes) : hdrErr + bytes :=
  match r with inl PacketPanic => inl PacketPanic | inl _ => inr buf | inr buf' => inr buf' end.

Class Header (A : Type) := {
  Len : A -> nat;
  Marshal : A -> bytes -> hdrErr + bytes;
  (** [Some] for a [HeaderChecksummer] *)
  WriteChecksum : option (A -> bytes -> bytes) }.

Definition Generate `{Header A} (h : A) (payload : bytes) : hdrErr + bytes :=
  let hlen := Len h in
  let buf := zeros (hlen + length payload) in
  let buf := copyAt hlen payload buf in
  buf ← ignoreErr (Marshal h buf) buf;
  mret (match WriteChecksum with Some w => w h buf | None => buf end).

(** The length tests every [Marshal] starts with *)
Definition checkLen (l : nat) (buf : bytes) (k : hdrErr + bytes) : hdrErr + bytes :=
  if (length buf <? l)%nat then inl errSmallBuffer
  else if maxPacketLength <? Z.of_nat (length buf) then inl errLargePacket
  else k.

(** [Addr.As4] *)
Definition As4 (a : Addr) : hdrErr + bytes :=
  match a with
  | Addr4 a => inr (be_put 4 a)
  | Addr6 a _ => if Is4In6 (Addr6 a EmptyString) then inr (be_put 4 (Z.land a 0xffffffff)) else inl panic
  | AddrZero => inl panic
  end.

(** *** [ip4Checksum] *)
Fixpoint sumWords (ac : Z) (b : bytes) : Z :=
  match b with
  | x :: y :: b' => sumWords (uw 32 (ac + be_get [x; y])) b'
  | [x] => uw 32 (ac + Z.shiftl (b2z x) 8)
  | [] => ac
  end.
Fixpoint foldCarry (fuel : nat) (ac : Z) : Z :=
  match fuel with
  | O => ac
  | S fuel =>
      if 0 <? Z.shiftr ac 16 then foldCarry fuel (uw 32 (Z.shiftr ac 16 + Z.land ac 0xffff)) else ac
  end.
(** Two passes end the loop: [foldCarry_enough]. *)
Definition ip4Checksum (b : bytes) : Z := uw 16 (Z.lnot (foldCarry 2 (sumWords 0 b))).

(** *** IPv4 *)
Record IP4Header := MkIP4 { ip4_IPProto : Z; ip4_IPID : Z; ip4_Src : Addr; ip4_Dst : Addr }.
Definition IP4_Marshal (h : IP4Header) (buf : bytes) : hdrErr + bytes :=
  checkLen ip4HeaderLength buf (
  if negb (Is4 (ip4_Src h)) || negb (Is4 (ip4_Dst h)) then inl errWrongFamily else
  let n := length buf in
  let buf := copyAt 0 [z2b (Z.lor 0x40 (Z.shiftr (Z.of_nat ip4HeaderLength) 2))] buf in
  let buf := copyAt 1 [x00] buf in
  let buf := copyAt 2 (be_put 2 (Z.of_nat n)) buf in
  let buf := copyAt 4 (be_put 2 (ip4_IPID h)) buf in
  let buf := copyAt 6 (be_put 2 0) buf in
  let buf := copyAt 8 [z2b 64] buf in
  let buf := copyAt 9 [z2b (ip4_IPProto h)] buf in
  let buf := copyAt 10 (be_put 2 0) buf in
  src ← As4 (ip4_Src h);
  dst ← As4 (ip4_Dst h);
  let buf := copyAt 12 src buf in
  let buf := copyAt 16 dst buf in
  mret (copyAt 10 (be_put 2 (ip4Checksum (take 20 buf))) buf)).
#[export] Instance IP4_Header : Header IP4Header :=
  { Len := fun _ => ip4HeaderLength; Marshal := IP4_Marshal; WriteChecksum := None }.
Definition IP4_ToResponse (h : IP4Header) : IP4Header :=
  MkIP4 (ip4_IPProto h) (uw 16 (Z.lnot (ip4_IPID h))) (ip4_Dst h) (ip4_Src h).
Definition ip4PseudoHeaderOffset : nat := 8.
Definition IP4_marshalPseudo (h : IP4Header) (buf : bytes) : hdrErr + bytes :=
  checkLen ip4HeaderLength buf (
  let l := (length buf - ip4HeaderLength)%nat in
  src ← As4 (ip4_Src h);
  dst ← As4 (ip4_Dst h);
  let buf := copyAt 8 src buf in
  let buf := copyAt 12 dst buf in
  let buf := copyAt 16 [x00] buf in
  let buf := copyAt 17 [z2b (ip4_IPProto h)] buf in
  mret (copyAt 18 (be_put 2 (Z.of_nat l)) buf)).

(** *** IPv6 *)
Record IP6Header := MkIP6 { ip6_IPProto : Z; ip6_IPID : Z; ip6_Src : Addr; ip6_Dst : Addr }.
Definition IP6_Marshal (h : IP6Header) (buf : bytes) : hdrErr + bytes :=
  checkLen ip6HeaderLength buf (
  let n := length buf in
  let buf := copyAt 0 (be_put 4 (Z.land (ip6_IPID h) 0x000FFFFF)) buf in
  let buf := copyAt 0 [x60] buf in
  let buf := copyAt 4 (be_put 2 (Z.of_nat (n - ip6HeaderLength))) buf in
  let buf := copyAt 6 [z2b (ip6_IPProto h)] buf in
  let buf := copyAt 7 [z2b 64] buf in
  let buf := copyAt 8 (As16 (ip6_Src h)) buf in
  mret (copyAt 24 (As16 (ip6_Dst h)) buf)).
#[export] Instance IP6_Header : Header IP6Header :=
  { Len := fun _ => ip6HeaderLength; Marshal := IP6_Marshal; WriteChecksum := None }.
Definition IP6_ToResponse (h : IP6Header) : IP6Header :=
  MkIP6 (ip6_IPProto h) (Z.land (uw 32 (Z.lnot (ip6_IPID h))) 0x000FFFFF) (ip6_Dst h) (ip6_Src h).
Definition IP6_marshalPseudo (h : IP6Header) (buf : bytes) (proto : Z) : hdrErr + bytes :=
  checkLen ip6HeaderLength buf (
  let n := length buf in
  let buf := copyAt 0 (As16 (ip6_Src h)) buf in
  let buf := copyAt 16 (As16 (ip6_Dst h)) buf in
  let buf := copyAt 32 (be_put 4 (Z.of_nat (n - ip6HeaderLength))) buf in
  let buf := copyAt 36 [x00] buf in
  let buf := copyAt 37 [x00] buf in
  let buf := copyAt 38 [x00] buf in
  mret (copyAt 39 [z2b proto] buf)).

(** *** UDP *)
Record UDP4Header := MkUDP4 { udp4_IP : IP4Header; udp4_SrcPort : Z; udp4_DstPort : Z }.
Definition UDP4_Len : nat := ip4HeaderLength + udpHeaderLength.
Definition UDP4_Marshal (h : UDP4Header) (buf : bytes) : hdrErr + bytes :=
  checkLen UDP4_Len buf (
  let i := udp4_IP h in
  let iph := MkIP4 ipproto.UDP (ip4_IPID i) (ip4_Src i) (ip4_Dst i) in
  let l := (length buf - ip4HeaderLength)%nat in
  let buf := copyAt 20 (be_put 2 (udp4_SrcPort h)) buf in
  let buf := copyAt 22 (be_put 2 (udp4_DstPort h)) buf in
  let buf := copyAt 24 (be_put 2 (Z.of_nat l)) buf in
  let buf := copyAt 26 (be_put 2 0) buf in
  buf ← ignoreErr (IP4_marshalPseudo iph buf) buf;
  let buf := copyAt 26 (be_put 2 (ip4Checksum (drop ip4PseudoHeaderOffset buf))) buf in
  ignoreErr (IP4_Marshal iph buf) buf).
#[export] Instance UDP4_Header : Header UDP4Header :=
  { Len := fun _ => UDP4_Len; Marshal := UDP4_Marshal; WriteChecksum := None }.
Definition UDP4_ToResponse (h : UDP4Header) : UDP4Header :=
  MkUDP4 (IP4_ToResponse (udp4_IP h)) (udp4_DstPort h) (udp4_SrcPort h).

Record UDP6Header := MkUDP6 { udp6_IP : IP6Header; udp6_SrcPort : Z; udp6_DstPort : Z }.
Definition UDP6_Len : nat := ip6HeaderLength + udpHeaderLength.
Definition UDP6_Marshal (h : UDP6Header) (buf : bytes) : hdrErr + bytes :=
  checkLen UDP6_Len buf (
  let i := udp6_IP h in
  let iph := MkIP6 ipproto.UDP (ip6_IPID i) (ip6_Src i) (ip6_Dst i) in
  let l := (length buf - ip6HeaderLength)%nat in
  let buf := copyAt 40 (be_put 2 (udp6_SrcPort h)) buf in
  let buf := copyAt 42 (be_put 2 (udp6_DstPort h)) buf in
  let buf := copyAt 44 (be_put 2 (Z.of_nat l)) buf in
  let buf := copyAt 46 (be_put 2 0) buf in
  buf ← ignoreErr (IP6_marshalPseudo iph buf ipproto.UDP) buf;
  let buf := copyAt 46 (be_put 2 (ip4Checksum buf)) buf in
  ignoreErr (IP6_Marshal iph buf) buf).
#[export] Instance UDP6_Header : Header UDP6Header :=
  { Len := fun _ => UDP6_Len; Marshal := UDP6_Marshal; WriteChecksum := None }.
Definition UDP6_ToResponse (h : UDP6Header) : UDP6Header :=
  MkUDP6 (IP6_ToResponse (udp6_IP h)) (udp6_DstPort h) (udp6_SrcPort h).

(** *** ICMP *)
Record ICMP4Header := MkICMP4 { icmp4_IP : IP4Header; icmp4_Type : Z; icmp4_Code : Z }.
Definition ICMP4_Len : nat := ip4HeaderLength + icmp4HeaderLength.
Definition ICMP4_Marshal (h : ICMP4Header) (buf : bytes) : hdrErr + bytes :=
  checkLen ICMP4_Len buf (
  let i := icmp4_IP h in
  let iph := MkIP4 ipproto.ICMPv4 (ip4_IPID i) (ip4_Src i) (ip4_Dst i) in
  let buf := copyAt 20 [z2b (icmp4_Type h)] buf in
  let buf := copyAt 21 [z2b (icmp4_Code h)] buf in
  buf ← ignoreErr (IP4_Marshal iph buf) buf;
  mret (copyAt 22 (be_put 2 (ip4Checksum buf)) buf)).
#[export] Instance ICMP4_Header : Header ICMP4Header :=
  { Len := fun _ => ICMP4_Len; Marshal := ICMP4_Marshal; WriteChecksum := None }.
Definition ICMP4_ToResponse (h : ICMP4Header) : ICMP4Header :=
  MkICMP4 (IP4_ToResponse (icmp4_IP h)) ICMP4EchoReply ICMP4NoCode.

Definition checksumCombine (a c : Z) : Z := let v := uw 32 (a + c) in uw 16 (uw 32 (v + Z.shiftr v 16)).
(** The loop over the pairs of an even number of bytes; [v] is a [uint32]. *)
Fixpoint addPairs (v : Z) (buf : bytes) : Z :=
  match buf with
  | x :: y :: buf' => addPairs (uw 32 (v + uw 32 (Z.shiftl (b2z x) 8 + b2z y))) buf'
  | _ => v
  end.
Definition checksumBytes (buf : bytes) (initial : Z) : Z :=
  let '(v, buf) :=
    match buf with
    | x :: buf' => if (length buf mod 2 =? 1)%nat then (uw 32 (initial + b2z x), buf') else (initial, buf)
    | [] => (initial, buf)
    end in
  let n := length buf in
  let '(v, n) :=
    if (n mod 2 =? 1)%nat
    then (uw 32 (v + Z.shiftl (default 0 (idx buf (n - 1))) 8), (n - 1)%nat) else (v, n) in
  let v := addPairs v (take n buf) in
  checksumCombine (uw 16 v) (uw 16 (Z.shiftr v 16)).
Definition icmp6Checksum (header src dst payload : bytes) : Z :=
  let xsum := checksumBytes src 0 in
  let xsum := checksumBytes dst xsum in
  let xsum := checksumBytes (be_put 4 (Z.of_nat (length header + length payload))) xsum in
  let xsum := checksumBytes [x00; x00; x00; z2b ipproto.ICMPv6] xsum in
  let xsum := checksumBytes payload xsum in
  let hdrz := copyAt 0 header (zeros icmp6HeaderLength) in
  let hdrz := copyAt 2 [x00] hdrz in
  let hdrz := copyAt 3 [x00] hdrz in
  uw 16 (Z.lnot (checksumBytes hdrz xsum)).

Record ICMP6Header := MkICMP6 { icmp6_IP : IP6Header; icmp6_Type : Z; icmp6_Code : Z }.
Definition ICMP6_Len : nat := ip6HeaderLength + icmp6HeaderLength.
Definition ICMP6_Marshal (h : ICMP6Header) (buf : bytes) : hdrErr + bytes :=
  checkLen ICMP6_Len buf (
  let i := icmp6_IP h in
  let iph := MkIP6 ipproto.ICMPv6 (ip6_IPID i) (ip6_Src i) (ip6_Dst i) in
  buf ← ignoreErr (IP6_Marshal iph buf) buf;
  let buf := copyAt 40 [z2b (icmp6_Type h)] buf in
  let buf := copyAt 41 [z2b (icmp6_Code h)] buf in
  let buf := copyAt 42 [x00] buf in
  mret (copyAt 43 [x00] buf)).
Definition ICMP6_WriteChecksum (h : ICMP6Header) (p : bytes) : bytes :=
  let payOff := (ip6HeaderLength + icmp6HeaderLength)%nat in
  let xsum :=
    icmp6Checksum (take icmp6HeaderLength (drop ip6HeaderLength p))
      (As16 (ip6_Src (icmp6_IP h))) (As16 (ip6_Dst (icmp6_IP h))) (drop payOff p) in
  copyAt (ip6HeaderLength + 2) (be_put 2 xsum) p.
#[export] Instance ICMP6_Header : Header ICMP6Header :=
  { Len := fun _ => ICMP6_Len; Marshal := ICMP6_Marshal; WriteChecksum := Some ICMP6_WriteChecksum }.
Definition ICMP6_ToResponse (h : ICMP6Header) : ICMP6Header :=
  MkICMP6 (IP6_ToResponse (icmp6_IP h)) ICMP6EchoReply ICMP6NoCode.

(** ** The headers of a decoded packet; the wrong family panics. *)
Definition toIP4Header (q : Parsed) : option IP4Header :=
  if negb (IPVersion q =? 4) then None else
  ipid ← u16 (b q) 4;
  Some (MkIP4 (IPProto q) ipid (ip (Src q)) (ip (Dst q))).
Definition toIP6Header (q : Parsed) : option IP6Header :=
  if negb (IPVersion q =? 6) then None else
  w ← slice (b q) 0 4;
  let ipid := Z.shiftr (uw 32 (Z.shiftl (be_get w) 12)) 12 in
  Some (MkIP6 (IPProto q) ipid (ip (Src q)) (ip (Dst q))).
Definition toICMP4Header (q : Parsed) : option ICMP4Header :=
  h ← toIP4Header q;
  t ← idx (b q) (subofs q + 0);
  c ← idx (b q) (subofs q + 1);
  Some (MkICMP4 h t c).
Definition toICMP6Header (q : Parsed) : option ICMP6Header :=
  h ← toIP6Header q;
  t ← idx (b q) (subofs q + 0);
  c ← idx (b q) (subofs q + 1);
  Some (MkICMP6 h t c).
Definition toUDP4Header (q : Parsed) : option UDP4Header :=
  h ← toIP4Header q; Some (MkUDP4 h (port (Src q)) (port (Dst q))).

End IPPacket.
