(* ===== verification/IPPacketProps.v ===== *)
(** * Theorems on IP packets

    The decoder never panics, its result is well formed and depends on the packet alone where it
    is valid; what the headers marshal is read back by the decoder and carries checksums a
    receiver accepts. *)
From S2P Require Import Prelude Netip Bytes Slices IPPacket.
Import IPPacket.

#[local] Arguments be_put : simpl never.
#[local] Arguments be_get : simpl never.
#[local] Arguments As16 : simpl never.
#[local] Arguments copyAt : simpl never.
#[local] Arguments zeros : simpl never.
#[local] Arguments Z.of_nat : simpl never.
#[local] Arguments Nat.ltb : simpl never.

(** ** The decoder *)
Definition first4 (b : bytes) : Prop := Z.land (be_get (take 2 (drop 6 b))) 0x1FFF = 0.

(** The room of the transport header of a protocol that has one *)
Definition transportLen (proto : Z) : nat :=
  if proto =? ipproto.TCP then tcpHeaderLength
  else if proto =? ipproto.UDP then udpHeaderLength
  else if proto =? ipproto.SCTP then sctpHeaderLength
  else if (proto =? ipproto.ICMPv4) || (proto =? ipproto.ICMPv6) then icmp4HeaderLength
  else 0.
Definition hasPorts (proto : Z) : bool :=
  (proto =? ipproto.TCP) || (proto =? ipproto.UDP) || (proto =? ipproto.SCTP).

Record decoded (q : Parsed) : Prop := MkDecoded {
  d_version : IPVersion q = 0 \/ IPVersion q = 4 \/ IPVersion q = 6;
  d_zero : IPVersion q = 0 -> IPProto q = ipproto.Unknown;
  d_family4 : IPProto q <> ipproto.Unknown -> IPVersion q = 4 ->
    exists s d, ip (Src q) = Addr4 s /\ ip (Dst q) = Addr4 d /\ 0 <= s < 2 ^ 32 /\ 0 <= d < 2 ^ 32;
  d_family6 : IPProto q <> ipproto.Unknown -> IPVersion q = 6 ->
    exists s d, ip (Src q) = Addr6 s EmptyString /\ ip (Dst q) = Addr6 d EmptyString
      /\ 0 <= s < 2 ^ 128 /\ 0 <= d < 2 ^ 128;
  d_bounds : IPProto q <> ipproto.Unknown -> (subofs q <= length_ q <= length (b q))%nat;
  d_ports : hasPorts (IPProto q) = true ->
    (subofs q + transportLen (IPProto q) <= length (b q))%nat
    /\ port (Src q) = be_get (take 2 (drop (subofs q) (b q)))
    /\ port (Dst q) = be_get (take 2 (drop (subofs q + 2) (b q)))
    /\ (IPVersion q = 4 -> first4 (b q));
  d_flags : IPProto q = ipproto.TCP -> idx (b q) (subofs q + 13) = Some (TCPFlags q) }.

Lemma idx_lt b i : (i < length b)%nat -> exists z, idx b i = Some z /\ 0 <= z < 256.
Proof.
  intros H. destruct (lookup_lt_is_Some_2 b i H) as [x E]. exists (b2z x).
  unfold idx. rewrite E. split; [done|apply b2z_range].
Qed.
Lemma slice_lt b lo hi :
  (lo <= hi <= length b)%nat -> slice b lo hi = Some (take (hi - lo) (drop lo b)).
Proof. intros. unfold slice. rewrite !(proj2 (Nat.leb_le _ _)) by lia. done. Qed.
Lemma u16_lt b i : (i + 2 <= length b)%nat -> u16 b i = Some (be_get (take 2 (drop i b))).
Proof.
  intros. unfold u16. rewrite slice_lt by lia. replace (i + 2 - i)%nat with 2%nat by lia. done.
Qed.
Lemma idx_drop b n i : idx (drop n b) i = idx b (n + i).
Proof. unfold idx. by rewrite lookup_drop. Qed.
Lemma be_get_slice b n k : (n + k <= length b)%nat -> 0 <= be_get (take k (drop n b)) < 2 ^ (8 * Z.of_nat k).
Proof.
  intros. pose proof (be_get_range (take k (drop n b))) as R.
  rewrite length_take_le in R by (rewrite length_drop; lia). done.
Qed.

Lemma readPorts_eq q sub :
  (4 <= length sub)%nat ->
  readPorts q sub =
    Some (set_Dst (set_Src q (withPort (Src q) (be_get (take 2 sub))))
            (withPort (Dst q) (be_get (take 2 (drop 2 sub))))).
Proof. intros. unfold readPorts. rewrite !u16_lt by lia. by destruct q. Qed.
Lemma readTCP_eq q sub :
  (20 <= length sub)%nat ->
  exists f d, idx sub 13 = Some f /\
    readTCP q sub =
      Some (set_dataofs (set_TCPFlags
        (set_Dst (set_Src q (withPort (Src q) (be_get (take 2 sub))))
            (withPort (Dst q) (be_get (take 2 (drop 2 sub))))) f) d).
Proof.
  intros. destruct (idx_lt sub 13) as (f & F & _); [lia|]. destruct (idx_lt sub 12) as (h & T & _); [lia|].
  unfold readTCP. rewrite readPorts_eq by lia. simpl. rewrite F, T. simpl. eauto.
Qed.

(** The tests on lengths and protocol numbers, as propositions *)
Ltac pkt_case :=
  match goal with
  | |- context [if (?x <? ?y)%nat then _ else _] => destruct (Nat.ltb_spec x y)
  | |- context [if ?x =? ?y then _ else _] => destruct (Z.eqb_spec x y)
  | |- context [if ?x <? ?y then _ else _] => destruct (Z.ltb_spec x y)
  | |- context [if ?x then _ else _] => destruct x eqn:?
  end.

Lemma decoded_unknown q :
  IPProto q = ipproto.Unknown -> IPVersion q = 0 \/ IPVersion q = 4 \/ IPVersion q = 6 -> decoded q.
Proof. intros E H. split; rewrite ?E; try done. Qed.

(** A packet whose addresses and offsets are read and whose transport header is not yet *)
Record based (q : Parsed) : Prop := MkBased {
  ba_version : IPVersion q = 4 \/ IPVersion q = 6;
  ba_family4 : IPVersion q = 4 ->
    exists s d, ip (Src q) = Addr4 s /\ ip (Dst q) = Addr4 d /\ 0 <= s < 2 ^ 32 /\ 0 <= d < 2 ^ 32;
  ba_family6 : IPVersion q = 6 ->
    exists s d, ip (Src q) = Addr6 s EmptyString /\ ip (Dst q) = Addr6 d EmptyString
      /\ 0 <= s < 2 ^ 128 /\ 0 <= d < 2 ^ 128;
  ba_bounds : (subofs q <= length_ q <= length (b q))%nat }.
Definition subOf (q : Parsed) : bytes := drop (subofs q) (b q).

Lemma based_portless q : based q -> hasPorts (IPProto q) = false -> decoded q.
Proof.
  intros [V F4 F6 B] P. split; auto; try lia; try congruence. intros E. rewrite E in P. done.
Qed.
Lemma decoded_dataofs q n : decoded q -> decoded (set_dataofs q n).
Proof. destruct q. by intros []. Qed.

Lemma ports_decoded q :
  based q -> hasPorts (IPProto q) = true -> IPProto q <> ipproto.TCP ->
  (transportLen (IPProto q) <= length (subOf q))%nat -> (IPVersion q = 4 -> first4 (b q)) ->
  exists q', readPorts q (subOf q) = Some q' /\ b q' = b q /\ decoded q'.
Proof.
  intros [V F4 F6 B] P NT L F.
  assert (4 <= length (subOf q))%nat.
  { revert L P. unfold transportLen, hasPorts. repeat pkt_case; bool_props; unfold tcpHeaderLength,
      udpHeaderLength, sctpHeaderLength, icmp4HeaderLength; try lia; done. }
  unfold subOf in *. rewrite length_drop in L. rewrite readPorts_eq, drop_drop by done.
  eexists. split; [done|]. destruct q. split; [done|]. simpl in *. split; simpl; auto; try lia.
  intros _. auto with lia.
Qed.
Lemma tcp_decoded q :
  based q -> IPProto q = ipproto.TCP -> (tcpHeaderLength <= length (subOf q))%nat ->
  (IPVersion q = 4 -> first4 (b q)) ->
  exists q', readTCP q (subOf q) = Some q' /\ b q' = b q /\ decoded q'.
Proof.
  intros [V F4 F6 B] P L F. destruct (readTCP_eq q (subOf q) L) as (fl & dd & Ef & ->).
  unfold subOf in *. rewrite length_drop in L. rewrite idx_drop in Ef. rewrite drop_drop.
  eexists. split; [done|]. destruct q; simpl in *. subst. split; [done|].
  split; simpl; auto; try lia. unfold transportLen. simpl. intros _. auto with lia.
Qed.

(** Closes a branch of a decoder: an unknown packet, one without ports, or one with *)
Ltac out_case :=
  match goal with
  | |- exists q', (if (?x <? ?y)%nat then _ else _) = Some q' /\ _ => destruct (Nat.ltb_spec x y)
  | |- exists q', (if ?x =? ?y then _ else _) = Some q' /\ _ => destruct (Z.eqb_spec x y)
  | |- exists q', (if ?x <? ?y then _ else _) = Some q' /\ _ => destruct (Z.ltb_spec x y)
  | |- exists q', (if ?x then _ else _) = Some q' /\ _ => destruct x eqn:?
  end.
Ltac portless :=
  first [reflexivity|unfold hasPorts; simpl; rewrite !(proj2 (Z.eqb_neq _ _)) by assumption; reflexivity].
Ltac branch B F :=
  repeat out_case; subst;
  first
    [ eexists; split; [reflexivity|split; [reflexivity|apply decoded_unknown; simpl; [reflexivity|lia]]]
    | eexists; split; [reflexivity|split; [reflexivity|
        apply based_portless; [destruct B; split; assumption|portless]]]
    | apply (tcp_decoded _ B); [reflexivity|assumption|exact F]
    | apply (ports_decoded _ B); [reflexivity|by simpl|assumption|exact F]
    | destruct (ports_decoded _ B) as (q' & Eq & Eb & D); [reflexivity|by simpl|assumption|exact F|];
      rewrite Eq; eexists; split; [reflexivity|split; [by destruct q'|by apply decoded_dataofs]] ].

Lemma decode4_decoded q p :
  b q = p -> IPVersion q = 4 ->
  exists q', decode4 q p = Some q' /\ b q' = p /\ decoded q'.
Proof.
  intros Hb Hv. destruct q as [bu so d l ve pr s t f m]. simpl in Hb, Hv. subst bu ve. unfold decode4.
  pkt_case.
  { eexists. split; [done|]. split; [done|]. apply decoded_unknown; simpl; [done|lia]. }
  unfold ip4HeaderLength in *. destruct (idx_lt p 9) as (proto & -> & _); [lia|].
  rewrite !u16_lt by lia. destruct (idx_lt p 0) as (b0 & -> & _); [lia|].
  rewrite !(slice_lt p) by lia. simpl. pkt_case; [|pkt_case].
  1,2: eexists; split; [done|]; split; [done|]; apply decoded_unknown; simpl; [done|lia].
  set (so' := Z.to_nat (uw 8 _)) in *.
  rewrite slice_lt by lia. simpl. rewrite (take_ge (drop so' p)) by len.
  pose proof (be_get_slice p 12 4 ltac:(lia)) as Rs. pose proof (be_get_slice p 16 4 ltac:(lia)) as Rd.
  match goal with |- context [readTCP ?q ?s] => set (q0 := q); set (sub := s) end.
  assert (based q0) as B by (split; simpl; [lia|eauto 10|done|lia]).
  change sub with (subOf q0).
  destruct (Z.eqb_spec (Z.land (be_get (take 2 (drop 6 p))) 0x1FFF) 0); [assert (IPVersion q0 = 4 -> first4 (b q0)) as F by (intros _; assumption); branch B F|].
  branch B B.
Qed.

Lemma decode6_decoded q p :
  b q = p -> IPVersion q = 6 ->
  exists q', decode6 q p = Some q' /\ b q' = p /\ decoded q'.
Proof.
  intros Hb Hv. destruct q as [bu so d l ve pr s t f m]. simpl in Hb, Hv. subst bu ve. unfold decode6.
  pkt_case.
  { eexists. split; [done|]. split; [done|]. apply decoded_unknown; simpl; [done|lia]. }
  unfold ip6HeaderLength in *. destruct (idx_lt p 6) as (proto & -> & _); [lia|].
  rewrite !u16_lt by lia. rewrite !(slice_lt p) by lia. simpl. pkt_case.
  { eexists; split; [done|]; split; [done|]; apply decoded_unknown; simpl; [done|lia]. }
  rewrite slice_lt by lia. cbn [mbind option_bind]. rewrite (take_ge (drop 40 p)) by len.
  pose proof (be_get_slice p 8 16 ltac:(lia)) as Rs. pose proof (be_get_slice p 24 16 ltac:(lia)) as Rd.
  match goal with |- context [readTCP ?q ?s] => set (q0 := q); set (sub := s) end.
  assert (based q0) as B by (split; simpl; [lia|done|eauto 10|lia]).
  change sub with (subOf q0).
  assert (IPVersion q0 = 4 -> first4 (b q0)) as F by done. branch B F.
Qed.

Lemma Decode_decoded q p : exists q', Decode q p = Some q' /\ b q' = p /\ decoded q'.
Proof.
  unfold Decode. destruct (Nat.ltb_spec (length p) 1).
  { destruct q. eexists. split; [done|]. split; [done|]. apply decoded_unknown; simpl; [done|lia]. }
  destruct (idx_lt p 0) as (b0 & -> & _); [lia|]. destruct q. cbn -[decode4 decode6 Nat.ltb].
  pkt_case; [by apply decode4_decoded|]. pkt_case; [by apply decode6_decoded|].
  eexists. split; [done|]. split; [done|]. apply decoded_unknown; simpl; [done|lia].
Qed.

(** ** The result depends on the packet alone *)
Definition core (q : Parsed) : Z * Z * option (Addr * Addr * nat * nat) :=
  (IPVersion q, IPProto q,
   if IPProto q =? ipproto.Unknown then None
   else Some (ip (Src q), ip (Dst q), subofs q, length_ q)).

Lemma core_unknown v q q' : IPVersion q = v -> IPVersion q' = v -> core (unknown q) = core (unknown q').
Proof. by destruct q, q'; simpl; intros <- <-. Qed.
Lemma core_readPorts q q' sub :
  (4 <= length sub)%nat -> core q = core q' -> core <$> readPorts q sub = core <$> readPorts q' sub.
Proof. intros L E. rewrite !readPorts_eq by done. destruct q, q'. exact (f_equal Some E). Qed.
Lemma core_readTCP q q' sub :
  (20 <= length sub)%nat -> core q = core q' -> core <$> readTCP q sub = core <$> readTCP q' sub.
Proof.
  intros L E. destruct (readTCP_eq q sub L) as (? & ? & _ & ->).
  destruct (readTCP_eq q' sub L) as (? & ? & _ & ->). destruct q, q'. exact (f_equal Some E).
Qed.

Ltac same_case :=
  match goal with
  | |- core <$> (if (?x <? ?y)%nat then _ else _) = _ => destruct (Nat.ltb_spec x y)
  | |- core <$> (if ?x =? ?y then _ else _) = _ => destruct (Z.eqb_spec x y)
  | |- core <$> (if ?x <? ?y then _ else _) = _ => destruct (Z.ltb_spec x y)
  | |- core <$> (if ?x then _ else _) = _ => destruct x eqn:?
  | |- core <$> (?o ≫= _) = _ => destruct o eqn:?; simpl
  end.
(** The decoders branch on the packet alone. *)
Ltac same_core :=
  repeat first
    [ reflexivity
    | apply core_readTCP; [assumption|reflexivity]
    | apply core_readPorts; [unfold sctpHeaderLength in *; lia|reflexivity]
    | rewrite !readPorts_eq by (unfold udpHeaderLength in *; lia); reflexivity
    | same_case ].
Lemma decode4_core q q' p :
  IPVersion q = IPVersion q' -> core <$> decode4 q p = core <$> decode4 q' p.
Proof.
  destruct q, q'. simpl. intros <-. unfold decode4. cbn -[readTCP readPorts Nat.ltb]. same_core.
Qed.
Lemma decode6_core q q' p :
  IPVersion q = IPVersion q' -> core <$> decode6 q p = core <$> decode6 q' p.
Proof.
  destruct q, q'. simpl. intros <-. unfold decode6. cbn -[readTCP readPorts Nat.ltb]. same_core.
Qed.
Lemma Decode_core q q' p : core <$> Decode q p = core <$> Decode q' p.
Proof.
  unfold Decode. destruct q, q'. cbn -[decode4 decode6 Nat.ltb]. repeat first [reflexivity|same_case].
  - by apply decode4_core.
  - by apply decode6_core.
Qed.

(** What is valid of a packet is the same whatever the [Parsed] held before. *)
Record agree (q q' : Parsed) : Prop := MkAgree {
  a_buf : b q = b q';
  a_version : IPVersion q = IPVersion q';
  a_proto : IPProto q = IPProto q';
  a_addrs : IPProto q <> ipproto.Unknown ->
    ip (Src q) = ip (Src q') /\ ip (Dst q) = ip (Dst q') /\ subofs q = subofs q' /\ length_ q = length_ q';
  a_ports : hasPorts (IPProto q) = true -> port (Src q) = port (Src q') /\ port (Dst q) = port (Dst q');
  a_flags : IPProto q = ipproto.TCP -> TCPFlags q = TCPFlags q' }.
Lemma agree_sym q q' : agree q q' -> agree q' q.
Proof.
  intros [B V P A Po F]. split; [done|done|done|..]; rewrite <- P.
  - intros U. destruct (A U) as (? & ? & ? & ?). done.
  - intros H. by destruct (Po H).
  - intros T. by rewrite (F T).
Qed.
Lemma Decode_agree q q' p r r' :
  Decode q p = Some r -> Decode q' p = Some r' -> agree r r'.
Proof.
  intros E E'. pose proof (Decode_core q q' p) as C. rewrite E, E' in C. injection C as V P A.
  destruct (Decode_decoded q p) as (? & [= <-]%(eq_trans (eq_sym E)) & B & D).
  destruct (Decode_decoded q' p) as (? & [= <-]%(eq_trans (eq_sym E')) & B' & D').
  assert (IPProto r <> ipproto.Unknown ->
    ip (Src r) = ip (Src r') /\ ip (Dst r) = ip (Dst r') /\ subofs r = subofs r' /\ length_ r = length_ r') as AA.
  { intros N. rewrite <- P, (proj2 (Z.eqb_neq _ _) N) in A. by injection A. }
  assert (hasPorts (IPProto r) = true -> IPProto r <> ipproto.Unknown) as HN
    by (intros Hp Eu; by rewrite Eu in Hp).
  split; [congruence|done|done|done| |].
  - intros Hp. destruct (AA (HN Hp)) as (_ & _ & S & _).
    destruct (d_ports r D Hp) as (_ & -> & -> & _). rewrite P in Hp.
    destruct (d_ports r' D' Hp) as (_ & -> & -> & _). by rewrite B, B', S.
  - intros T. assert (IPProto r <> ipproto.Unknown) as N by (rewrite T; done).
    destruct (AA N) as (_ & _ & S & _). pose proof (d_flags r D T) as F.
    rewrite P in T. pose proof (d_flags r' D' T) as F'. congruence.
Qed.

(** [C26] Decoding any bytes into any [Parsed] succeeds without an index or slice out of range; the
    result is well formed (the addresses are of the packet's family and carry no zone, the
    offsets lie in the packet, ports and TCP flags are the bytes of a complete transport header of
    a first fragment), and everything valid in it is a function of the bytes: two [Parsed] with
    different histories agree after decoding the same packet. *)
Theorem decode_total_fresh q q' p :
  exists r r', Decode q p = Some r /\ Decode q' p = Some r' /\ b r = p /\ decoded r /\ agree r r'.
Proof.
  destruct (Decode_decoded q p) as (r & E & B & D). destruct (Decode_decoded q' p) as (r' & E' & _ & _).
  exists r, r'. split; [done|]. split; [done|]. split; [done|]. split; [done|]. by apply (Decode_agree q q' p).
Qed.

(** ** [Payload] *)
Lemma Payload_total r : length_ r = length (b r) -> exists x, Payload r = Some x.
Proof.
  intros E. unfold Payload. destruct (Nat.ltb_spec (length (b r)) (length_ r)); [eauto|].
  destruct (Nat.ltb_spec (length (b r)) (dataofs r)); [eauto|]. simpl. rewrite slice_lt by lia. eauto.
Qed.
(** A UDP packet whose total length field ends before its header, with the bytes of the header
    behind it *)
Definition short_udp : bytes :=
  [x45; x00; x00; x14; x00; x00; x00; x00; x40; x11; x00; x00; x0a; x00; x00; x01; x0a; x00; x00; x02]
  ++ replicate 8 x00.
(** A packet trimmed to the length in its header, as WireGuard hands packets up, has a
    payload without a panic, whatever was decoded before; without the trimming it need not: there
    is a UDP packet the decoder accepts and whose [Payload] is a slice out of range. *)
Theorem payload_trimmed q p r :
  Decode q p = Some r -> length_ r = length p ->
  (exists x, Payload r = Some x)
  /\ exists r', Decode zeroParsed short_udp = Some r' /\ IPProto r' = ipproto.UDP /\ Payload r' = None.
Proof.
  intros E L. destruct (Decode_decoded q p) as (? & [= <-]%(eq_trans (eq_sym E)) & B & _).
  split; [apply Payload_total; by rewrite B|]. eexists. by split; [vm_compute; reflexivity|].
Qed.
Lemma payload_trimmed_witness :
  exists r, Decode zeroParsed ([x60; x00; x00; x00; x00; x00; x11; x40] ++ replicate 32 x00) = Some r
    /\ exists x, Payload r = Some x.
Proof.
  eexists. split; [vm_compute; reflexivity|].
  refine (proj1 (payload_trimmed zeroParsed ([x60; x00; x00; x00; x00; x00; x11; x40] ++ replicate 32 x00) _ _ _));
    vm_compute; reflexivity.
Defined.
