(* ===== verification/PacketHeaders.v ===== *)
(** * Generated packets (net/packet: header.go, ip4.go, ip6.go, udp4.go, udp6.go, icmp4.go, icmp6.go)

    The bytes each header marshals, that the decoder reads them back, and that the checksums in
    them are the ones of RFC 1071. *)
From S2P Require Import Prelude Netip Bytes Slices IPPacket IPPacketProps.
Import IPPacket.

#[local] Arguments be_put : simpl never.
#[local] Arguments be_get : simpl never.
#[local] Arguments As16 : simpl never.
#[local] Arguments copyAt : simpl never.
#[local] Arguments zeros : simpl never.
#[local] Arguments Z.of_nat : simpl never.
#[local] Arguments Nat.ltb : simpl never.
#[local] Arguments Z.mul : simpl never.

(** ** RFC 1071 *)
(** The sum of the 16-bit words of [b], the last one padded with a zero byte. *)
Fixpoint wordSum (b : bytes) : Z :=
  match b with
  | x :: y :: b' => (256 * b2z x + b2z y) + wordSum b'
  | [x] => 256 * b2z x
  | [] => 0
  end.
(** What a receiver tests: the words, checksum included, add up to minus zero. *)
Definition rfc1071_ok (b : bytes) : Prop := 0 < wordSum b /\ wordSum b mod 65535 = 0.

Lemma pair_ind (P : bytes -> Prop) :
  P [] -> (forall x, P [x]) -> (forall x y l, P l -> P (x :: y :: l)) -> forall l, P l.
Proof.
  intros H0 H1 H2. fix IH 1. intros [|x [|y l]]; [done|done|]. apply H2, IH.
Qed.
Lemma be_get_pair x y : be_get [x; y] = 256 * b2z x + b2z y.
Proof. unfold be_get. simpl. lia. Qed.
Lemma wordSum_bounds b : 0 <= wordSum b <= 65535 * Z.of_nat (length b).
Proof.
  induction b as [|x|x y l IH] using pair_ind; simpl; [lia| |]; pose proof (b2z_range x); [lia|].
  pose proof (b2z_range y). lia.
Qed.
Lemma sumWords_eq b ac :
  0 <= ac -> ac + 65535 * Z.of_nat (length b) < 2 ^ 32 -> sumWords ac b = ac + wordSum b.
Proof.
  revert ac. induction b as [|x|x y l IH] using pair_ind; intros ac H0 H1; simpl in *; [lia| |];
    pose proof (b2z_range x).
  - rewrite Z.shiftl_mul_pow2 by lia. rewrite uw_small; lia.
  - pose proof (b2z_range y). rewrite be_get_pair, uw_small, IH by lia. lia.
Qed.

#[local] Ltac Zify.zify_post_hook ::= Z.div_mod_to_equations.
Lemma foldCarry_step ac :
  0 <= ac -> foldCarry 1 ac = if 0 <? ac / 65536 then uw 32 (ac / 65536 + ac mod 65536) else ac.
Proof.
  intros. cbn [foldCarry]. rewrite Z.shiftr_div_pow2 by lia. change 0xffff with (Z.ones 16).
  rewrite Z.land_ones by lia. done.
Qed.
Lemma foldCarry_S n ac : foldCarry (S n) ac = foldCarry n (foldCarry 1 ac) .
Proof.
  cbn [foldCarry]. destruct (0 <? Z.shiftr ac 16) eqn:E; [done|].
  destruct n; cbn [foldCarry]; [done|]. by rewrite E.
Qed.
Lemma foldCarry_spec ac :
  0 <= ac < 2 ^ 32 ->
  0 <= foldCarry 2 ac < 65536 /\ foldCarry 2 ac mod 65535 = ac mod 65535 /\ (foldCarry 2 ac = 0 <-> ac = 0).
Proof.
  intros H. rewrite foldCarry_S, (foldCarry_step ac) by lia.
  set (a1 := if 0 <? ac / 65536 then _ else _). assert (0 <= a1 <= 131070 /\ a1 mod 65535 = ac mod 65535 /\ (a1 = 0 <-> ac = 0)) as (R1 & M1 & Z1).
  { subst a1. destruct (Z.ltb_spec 0 (ac / 65536)); [|lia]. rewrite uw_small by lia.
    split; [lia|]. split; [|lia]. rewrite (Z.div_mod ac 65536) at 3 by lia.
    replace (65536 * (ac / 65536) + ac mod 65536) with
      (ac / 65536 + ac mod 65536 + (ac / 65536) * 65535) by lia. by rewrite Z.mod_add. }
  rewrite foldCarry_step by lia. destruct (Z.ltb_spec 0 (a1 / 65536)); [|lia].
  assert (a1 / 65536 = 1) as E by lia. rewrite E, uw_small by lia.
  assert (1 + a1 mod 65536 = a1 - 65535) as -> by lia.
  split; [lia|]. split; [|lia]. rewrite <- M1. rewrite <- (Z.mod_add (a1 - 65535) 1 65535) by lia.
  f_equal. lia.
Qed.
(** The loop of [ip4Checksum] has ended after two passes. *)
Lemma foldCarry_enough n ac : 0 <= ac < 2 ^ 32 -> foldCarry (2 + n) ac = foldCarry 2 ac.
Proof.
  intros H. replace (2 + n)%nat with (n + 2)%nat by lia.
  assert (forall k a, foldCarry (k + 2) a = foldCarry k (foldCarry 2 a)) as C.
  { clear. intros k a. rewrite !(Nat.add_comm k).
    cbn [Nat.add]. by rewrite (foldCarry_S (S k)), (foldCarry_S k), (foldCarry_S 1). }
  rewrite C. destruct (foldCarry_spec ac H) as (R & _). destruct n; cbn [foldCarry]; [done|].
  rewrite Z.shiftr_div_pow2 by lia. change (2 ^ 16) with 65536. by rewrite Z.div_small.
Qed.

Lemma ip4Checksum_eq b :
  Z.of_nat (length b) <= 65535 -> ip4Checksum b = 65535 - foldCarry 2 (wordSum b).
Proof.
  intros L. unfold ip4Checksum. rewrite sumWords_eq, Z.add_0_l by lia.
  pose proof (wordSum_bounds b). destruct (foldCarry_spec (wordSum b)) as (R & _); [lia|].
  unfold uw, Z.lnot. rewrite <- (Z.mod_add _ 1) by lia. change (2 ^ 16) with 65536.
  rewrite Z.mod_small; lia.
Qed.
Lemma ip4Checksum_range b : 0 <= ip4Checksum b < 2 ^ 16.
Proof. apply uw_range. lia. Qed.
(** The receiver's test with the code's own function *)
Lemma ip4Checksum_zero b : Z.of_nat (length b) <= 65535 -> ip4Checksum b = 0 <-> rfc1071_ok b.
Proof.
  intros L. rewrite ip4Checksum_eq by done. pose proof (wordSum_bounds b).
  destruct (foldCarry_spec (wordSum b)) as (R & M & Z0); [lia|]. unfold rfc1071_ok. lia.
Qed.

Lemma wordSum_app x y : Nat.Even (length x) -> wordSum (x ++ y) = wordSum x + wordSum y.
Proof.
  induction x as [|c|c d l IH] using pair_ind; intros [k E]; cbn [length] in E; [done|lia|].
  cbn [app wordSum]. rewrite IH; [lia|]. exists (k - 1)%nat. lia.
Qed.
Lemma wordSum_be_put2 z : 0 <= z < 2 ^ 16 -> wordSum (be_put 2 z) = z.
Proof.
  intros H. rewrite <- (be_get_put_small 2 z) at 2 by done.
  pose proof (length_be_put 2 z). destruct (be_put 2 z) as [|x [|y [|]]]; try done.
  rewrite be_get_pair. simpl. lia.
Qed.

(** Filling in the checksum field with the complement of the sum, the field being zero. *)
Lemma checksum_fills pre post r :
  Nat.Even (length pre) -> 0 <= r < 65536 ->
  r mod 65535 = wordSum (pre ++ [x00; x00] ++ post) mod 65535 ->
  0 < wordSum (pre ++ [x00; x00] ++ post) -> rfc1071_ok (pre ++ be_put 2 (65535 - r) ++ post).
Proof.
  intros Ev R. rewrite !(wordSum_app pre), !(wordSum_app (_ :: _)) by (done || by exists 1%nat).
  intros M P. unfold rfc1071_ok. rewrite !(wordSum_app pre), (wordSum_app (be_put 2 _)), wordSum_be_put2;
    [|lia|rewrite length_be_put; by exists 1%nat|done].
  change (wordSum [x00; x00]) with 0 in *. split; [lia|].
  set (w := wordSum pre + (0 + wordSum post)) in *.
  replace (wordSum pre + (65535 - r + wordSum post)) with (w - r + 1 * 65535) by lia.
  rewrite Z.mod_add, Zminus_mod, M, Z.sub_diag by lia. done.
Qed.
Lemma ip4Checksum_fills pre post :
  Nat.Even (length pre) -> Z.of_nat (length (pre ++ [x00; x00] ++ post)) <= 65535 ->
  0 < wordSum (pre ++ [x00; x00] ++ post) ->
  rfc1071_ok (pre ++ be_put 2 (ip4Checksum (pre ++ [x00; x00] ++ post)) ++ post).
Proof.
  intros Ev L P. rewrite ip4Checksum_eq by done. pose proof (wordSum_bounds (pre ++ [x00; x00] ++ post)).
  destruct (foldCarry_spec (wordSum (pre ++ [x00; x00] ++ post))) as (R & M & _); [lia|].
  by apply checksum_fills.
Qed.
Lemma rfc1071_app x y :
  Nat.Even (length x) -> rfc1071_ok x -> rfc1071_ok (x ++ y) -> 0 < wordSum y -> rfc1071_ok y.
Proof.
  intros Ev [P M] [P2 M2] Py. rewrite wordSum_app, Zplus_mod, M, Z.add_0_l, Z.mod_mod in M2 by done.
  by split.
Qed.

(** ** What each header marshals *)
(** Writes from left to right: [pre] is written, the rest is as it was. *)
Lemma copyAt_seq pre src buf off :
  off = length pre -> (off + length src <= length buf)%nat ->
  copyAt off src (pre ++ drop off buf) = (pre ++ src) ++ drop (off + length src) buf.
Proof.
  intros -> L. unfold copyAt. rewrite take_app_length, (take_ge src) by len.
  by rewrite <- drop_drop, drop_app_length, drop_drop, app_assoc.
Qed.
Lemma copyAt_start src buf :
  (length src <= length buf)%nat -> copyAt 0 src buf = src ++ drop (length src) buf.
Proof. intros L. unfold copyAt. by rewrite take_0, (take_ge src) by lia. Qed.
Ltac seq_put :=
  repeat (first [rewrite copyAt_seq by len|rewrite copyAt_start by len];
          rewrite ?length_be_put, ?length_As16; cbn [Nat.add length]).
Lemma copyAt_over pre old src post off :
  off = length pre -> length src = length old -> copyAt off src (pre ++ old ++ post) = pre ++ src ++ post.
Proof.
  intros -> L. unfold copyAt. rewrite take_app_length, (take_ge src) by len.
  rewrite (app_assoc pre old), drop_app_length'; [done|]. rewrite length_app. lia.
Qed.
Lemma length_copyAt off src buf : length (copyAt off src buf) = length buf.
Proof. unfold copyAt. rewrite !length_app, !length_take, length_drop. lia. Qed.
#[local] Hint Rewrite length_copyAt : len.
Lemma copyAt_fit off src buf :
  (off + length src <= length buf)%nat ->
  copyAt off src buf = take off buf ++ src ++ drop (off + length src) buf.
Proof. intros L. unfold copyAt. by rewrite (take_ge src) by lia. Qed.
Ltac plen :=
  unfold zeros, UDP4_Len, UDP6_Len, ICMP4_Len, ICMP6_Len, ip4HeaderLength, ip6HeaderLength,
    udpHeaderLength, icmp4HeaderLength, icmp6HeaderLength; len.
(** Performs the writes into a buffer that has room for them. *)
Ltac put_all := rewrite !copyAt_fit by plen.
Lemma checkLen_ok l buf k :
  (l <= length buf)%nat -> Z.of_nat (length buf) <= 65535 -> checkLen l buf k = k.
Proof.
  intros. unfold checkLen, maxPacketLength.
  by rewrite (proj2 (Nat.ltb_ge _ _)), (proj2 (Z.ltb_ge _ _)) by lia.
Qed.

Definition ip4_head (proto id : Z) (n : nat) : bytes :=
  [x45; x00] ++ be_put 2 (Z.of_nat n) ++ be_put 2 id ++ [x00; x00; x40; z2b proto].
Definition ip4_addrs (s d : Z) : bytes := be_put 4 s ++ be_put 4 d.
Definition ip4_wire (proto id : Z) (n : nat) (s d : Z) : bytes :=
  ip4_head proto id n
  ++ be_put 2 (ip4Checksum (ip4_head proto id n ++ [x00; x00] ++ ip4_addrs s d))
  ++ ip4_addrs s d.
Lemma length_ip4_head proto id n : length (ip4_head proto id n) = 10%nat.
Proof. unfold ip4_head. len. Qed.
Lemma length_ip4_addrs s d : length (ip4_addrs s d) = 8%nat.
Proof. unfold ip4_addrs. len. Qed.
#[local] Hint Rewrite length_ip4_head length_ip4_addrs : len.
Lemma length_ip4_wire proto id n s d : length (ip4_wire proto id n s d) = 20%nat.
Proof. unfold ip4_wire. len. Qed.
#[local] Hint Rewrite length_ip4_wire : len.

Lemma IP4_Marshal_eq h buf s d :
  ip4_Src h = Addr4 s -> ip4_Dst h = Addr4 d -> (20 <= length buf)%nat -> Z.of_nat (length buf) <= 65535 ->
  IP4_Marshal h buf
  = inr (ip4_wire (ip4_IPProto h) (ip4_IPID h) (length buf) s d ++ drop 20 buf).
Proof.
  intros Es Ed L1 L2. unfold IP4_Marshal. rewrite checkLen_ok, Es, Ed by done. cbn [Is4 negb orb As4]. rstep.
  change (z2b (Z.lor 64 _)) with x45. change (z2b 64) with x40. change (be_put 2 0) with [x00; x00].
  seq_put. reflexivity.
Qed.

Lemma generate_buf n payload :
  copyAt n payload (zeros (n + length payload)) = zeros n ++ payload.
Proof.
  unfold copyAt, zeros. rewrite take_replicate, drop_replicate, length_replicate, (take_ge payload) by lia.
  replace (n + length payload - (n + length payload))%nat with 0%nat by lia.
  rewrite app_nil_r. do 2 f_equal. lia.
Qed.

(** *** UDP over IPv4 *)
Definition udp_head (sp dp : Z) (n : nat) : bytes :=
  be_put 2 sp ++ be_put 2 dp ++ be_put 2 (Z.of_nat n).
Definition pseudo4 (s d proto : Z) (n : nat) : bytes :=
  ip4_addrs s d ++ [x00; z2b proto] ++ be_put 2 (Z.of_nat n).
Definition udp_wire (pseudo : bytes) (sp dp : Z) (payload : bytes) : bytes :=
  let n := (8 + length payload)%nat in
  udp_head sp dp n
  ++ be_put 2 (ip4Checksum (pseudo ++ udp_head sp dp n ++ [x00; x00] ++ payload)) ++ payload.

Lemma UDP4_Generate h s d payload :
  ip4_Src (udp4_IP h) = Addr4 s -> ip4_Dst (udp4_IP h) = Addr4 d -> Z.of_nat (28 + length payload) <= 65535 ->
  Generate h payload
  = inr (ip4_wire ipproto.UDP (ip4_IPID (udp4_IP h)) (28 + length payload) s d
         ++ udp_wire (pseudo4 s d ipproto.UDP (8 + length payload)) (udp4_SrcPort h) (udp4_DstPort h) payload).
Proof.
  intros Es Ed L. destruct h as [[pr id a1 a2] sp dp]. simpl in Es, Ed. subst a1 a2.
  unfold Generate. cbn [Len UDP4_Header WriteChecksum Marshal]. rewrite generate_buf.
  unfold UDP4_Marshal. cbv zeta. rewrite checkLen_ok by plen.
  unfold IP4_marshalPseudo. cbv zeta. rewrite checkLen_ok by plen.
  cbn [ip4_Src ip4_Dst ip4_IPID udp4_IP As4].
  unfold mret, sum_ret, mbind, sum_bind. cbn [ignoreErr].
  rewrite (IP4_Marshal_eq _ _ s d); [|done|done|plen..].
  put_all. reflexivity.
Qed.

(** *** IPv6 *)
Definition ip6_wire (proto id : Z) (n : nat) (s d : Addr) : bytes :=
  ([x60] ++ drop 1 (be_put 4 (Z.land id 0x000FFFFF)))
  ++ be_put 2 (Z.of_nat n) ++ [z2b proto; x40] ++ As16 s ++ As16 d.
Definition pseudo6 (s d : Addr) (proto : Z) (n : nat) : bytes :=
  As16 s ++ As16 d ++ be_put 4 (Z.of_nat n) ++ [x00; x00; x00; z2b proto].
Lemma length_ip6_wire proto id n s d : length (ip6_wire proto id n s d) = 40%nat.
Proof. unfold ip6_wire. len. Qed.
Lemma length_pseudo6 s d proto n : length (pseudo6 s d proto n) = 40%nat.
Proof. unfold pseudo6. len. Qed.
Lemma length_pseudo4 s d proto n : length (pseudo4 s d proto n) = 12%nat.
Proof. unfold pseudo4. len. Qed.
#[local] Hint Rewrite length_ip6_wire length_pseudo6 length_pseudo4 : len.

Lemma IP6_Marshal_eq h buf :
  (40 <= length buf)%nat -> Z.of_nat (length buf) <= 65535 ->
  IP6_Marshal h buf
  = inr (ip6_wire (ip6_IPProto h) (ip6_IPID h) (length buf - 40) (ip6_Src h) (ip6_Dst h) ++ drop 40 buf).
Proof.
  intros L1 L2. unfold IP6_Marshal. cbv zeta. rewrite checkLen_ok by done. unfold mret, sum_ret.
  rewrite (copyAt_start (be_put 4 _)) by plen. rewrite length_be_put.
  change (be_put 4 (Z.land (ip6_IPID h) 1048575)) with
    ([] ++ take 1 (be_put 4 (Z.land (ip6_IPID h) 1048575)) ++ drop 1 (be_put 4 (Z.land (ip6_IPID h) 1048575))).
  rewrite <- (app_assoc [] _ (drop 4 buf)), <- app_assoc, copyAt_over by plen. rewrite app_nil_l, app_assoc. seq_put.
  reflexivity.
Qed.
Lemma IP6_marshalPseudo_eq h buf proto :
  (40 <= length buf)%nat -> Z.of_nat (length buf) <= 65535 ->
  IP6_marshalPseudo h buf proto
  = inr (pseudo6 (ip6_Src h) (ip6_Dst h) proto (length buf - 40) ++ drop 40 buf).
Proof.
  intros L1 L2. unfold IP6_marshalPseudo. cbv zeta. rewrite checkLen_ok by done. unfold mret, sum_ret.
  seq_put. reflexivity.
Qed.

Lemma UDP6_Generate h payload :
  Z.of_nat (48 + length payload) <= 65535 ->
  Generate h payload
  = inr (ip6_wire ipproto.UDP (ip6_IPID (udp6_IP h)) (8 + length payload) (ip6_Src (udp6_IP h)) (ip6_Dst (udp6_IP h))
         ++ udp_wire (pseudo6 (ip6_Src (udp6_IP h)) (ip6_Dst (udp6_IP h)) ipproto.UDP (8 + length payload))
              (udp6_SrcPort h) (udp6_DstPort h) payload).
Proof.
  intros L. destruct h as [[pr id s d] sp dp].
  unfold Generate. cbn [Len UDP6_Header WriteChecksum Marshal]. rewrite generate_buf.
  unfold UDP6_Marshal. cbv zeta. rewrite checkLen_ok by plen.
  rewrite IP6_marshalPseudo_eq by plen. unfold mret, sum_ret, mbind, sum_bind. cbn [ignoreErr].
  rewrite IP6_Marshal_eq by plen. cbn [ignoreErr]. put_all. reflexivity.
Qed.

(** *** ICMP *)
(** The whole packet is summed, header included, into a checksum field that is zero. *)
Definition icmp4_wire (ip : bytes) (t c : Z) (payload : bytes) : bytes :=
  [z2b t; z2b c] ++ be_put 2 (ip4Checksum (ip ++ [z2b t; z2b c] ++ [x00; x00] ++ payload)) ++ payload.
Lemma ICMP4_Generate h s d payload :
  ip4_Src (icmp4_IP h) = Addr4 s -> ip4_Dst (icmp4_IP h) = Addr4 d -> Z.of_nat (24 + length payload) <= 65535 ->
  Generate h payload
  = inr (let ip := ip4_wire ipproto.ICMPv4 (ip4_IPID (icmp4_IP h)) (24 + length payload) s d in
         ip ++ icmp4_wire ip (icmp4_Type h) (icmp4_Code h) payload).
Proof.
  intros Es Ed L. destruct h as [[pr id a1 a2] t c]. simpl in Es, Ed. subst a1 a2.
  unfold Generate. cbn [Len ICMP4_Header WriteChecksum Marshal]. rewrite generate_buf.
  unfold ICMP4_Marshal. cbv zeta. rewrite checkLen_ok by plen.
  rewrite (IP4_Marshal_eq _ _ s d); [|done|done|plen..]. unfold mret, sum_ret, mbind, sum_bind. cbn [ignoreErr].
  put_all. reflexivity.
Qed.

Definition icmp6_wire (s d : Addr) (t c : Z) (payload : bytes) : bytes :=
  [z2b t; z2b c] ++ be_put 2 (icmp6Checksum [z2b t; z2b c; x00; x00] (As16 s) (As16 d) payload) ++ payload.
Lemma ICMP6_Generate h payload :
  Z.of_nat (44 + length payload) <= 65535 ->
  Generate h payload
  = inr (ip6_wire ipproto.ICMPv6 (ip6_IPID (icmp6_IP h)) (4 + length payload) (ip6_Src (icmp6_IP h)) (ip6_Dst (icmp6_IP h))
         ++ icmp6_wire (ip6_Src (icmp6_IP h)) (ip6_Dst (icmp6_IP h)) (icmp6_Type h) (icmp6_Code h) payload).
Proof.
  intros L. destruct h as [[pr id s d] t c].
  unfold Generate. cbn [Len ICMP6_Header WriteChecksum Marshal]. rewrite generate_buf.
  unfold ICMP6_Marshal. cbv zeta. rewrite checkLen_ok by plen.
  rewrite IP6_Marshal_eq by plen. unfold mret, sum_ret, mbind, sum_bind, ICMP6_WriteChecksum. cbn [ignoreErr].
  cbv zeta. put_all. reflexivity.
Qed.

(** ** The checksums *)
Lemma ip4_wire_ok proto id n s d : rfc1071_ok (ip4_wire proto id n s d).
Proof.
  unfold ip4_wire. apply ip4Checksum_fills; [rewrite length_ip4_head; by exists 5%nat|len|].
  rewrite wordSum_app by (rewrite length_ip4_head; by exists 5%nat). unfold ip4_head.
  pose proof (wordSum_bounds ([x00; x00] ++ ip4_addrs s d)).
  pose proof (wordSum_bounds (be_put 2 (Z.of_nat n) ++ be_put 2 id ++ [x00; x00; x40; z2b proto])).
  rewrite (wordSum_app [x45; x00]) by (by exists 1%nat). change (wordSum [x45; x00]) with 17664. lia.
Qed.
Lemma even_len (l : bytes) k : length l = (2 * k)%nat -> Nat.Even (length l).
Proof. intros ->. by exists k. Qed.
Ltac evenlen := first [apply (even_len _ 1); solve [len]|apply (even_len _ 2); solve [len]
  |apply (even_len _ 8); solve [len]|apply (even_len _ 20); solve [len]].
(** A UDP segment is checked with a pseudo header that has a protocol in it. *)
Lemma udp_wire_ok pseudo k sp dp payload :
  length pseudo = (2 * k)%nat -> 0 < wordSum pseudo ->
  Z.of_nat (length pseudo + 8 + length payload) <= 65535 ->
  rfc1071_ok (pseudo ++ udp_wire pseudo sp dp payload).
Proof.
  intros E P L. unfold udp_wire. cbv zeta.
  rewrite (app_assoc pseudo (udp_head _ _ _) (be_put 2 _ ++ payload)).
  rewrite (app_assoc pseudo (udp_head _ _ _) ([x00; x00] ++ payload)).
  apply ip4Checksum_fills.
  - apply (even_len _ (k + 3)). unfold udp_head. len.
  - revert L. unfold udp_head. len.
  - rewrite <- app_assoc, wordSum_app by by apply (even_len _ k).
    match goal with |- 0 < _ + wordSum ?x => pose proof (wordSum_bounds x) end. lia.
Qed.
Lemma icmp4_wire_ok w t c payload :
  length w = 20%nat -> rfc1071_ok w -> Z.of_nat (24 + length payload) <= 65535 ->
  rfc1071_ok (w ++ icmp4_wire w t c payload).
Proof.
  intros Lw [P _] L. unfold icmp4_wire.
  rewrite (app_assoc w [z2b t; z2b c] (be_put 2 _ ++ payload)), (app_assoc w [z2b t; z2b c] ([x00; x00] ++ payload)).
  apply ip4Checksum_fills.
  - rewrite length_app, Lw. by exists 11%nat.
  - rewrite !length_app, Lw. cbn [length]. lia.
  - rewrite <- app_assoc, wordSum_app by (rewrite Lw; by exists 10%nat).
    match goal with |- 0 < _ + wordSum ?x => pose proof (wordSum_bounds x) end. lia.
Qed.
Lemma pseudo_pos x y : Nat.Even (length x) -> 0 < wordSum y -> 0 < wordSum (x ++ y).
Proof. intros. rewrite wordSum_app by done. pose proof (wordSum_bounds x). lia. Qed.
Lemma pseudo4_pos s d n : 0 < wordSum (pseudo4 s d ipproto.UDP n).
Proof.
  unfold pseudo4. apply pseudo_pos; [apply (even_len _ 4); len|].
  rewrite wordSum_app by by exists 1%nat. pose proof (wordSum_bounds (be_put 2 (Z.of_nat n))).
  change (wordSum [x00; z2b ipproto.UDP]) with 17. lia.
Qed.
Lemma pseudo6_pos s d proto n : 0 < proto < 256 -> 0 < wordSum (pseudo6 s d proto n).
Proof.
  intros H. unfold pseudo6. rewrite !app_assoc. apply pseudo_pos; [apply (even_len _ 18); len|].
  simpl. rewrite b2z_z2b, Z.mod_small by lia. change (b2z x00) with 0. lia.
Qed.

(** *** The checksum of ICMPv6 *)
(** The sum [checksumBytes] adds: the first byte of an odd number of bytes is taken as the low
    byte of a word of its own. *)
Definition alignedSum (buf : bytes) : Z :=
  match buf with
  | x :: buf' => if (length buf mod 2 =? 1)%nat then b2z x + wordSum buf' else wordSum buf
  | [] => 0
  end.
Lemma combine_eq v :
  0 <= v < 2 ^ 32 -> checksumCombine (uw 16 v) (uw 16 (Z.shiftr v 16)) = foldCarry 2 v.
Proof.
  intros H. change (2 ^ 32) with 4294967296 in H. unfold checksumCombine, uw.
  rewrite !Z.shiftr_div_pow2 by lia. change (2 ^ 16) with 65536. change (2 ^ 32) with 4294967296.
  rewrite (Z.mod_small (v / 65536) 65536) by lia.
  rewrite (Z.mod_small (v mod 65536 + v / 65536)) by lia.
  rewrite (Z.mod_small (v mod 65536 + v / 65536 + _)) by lia.
  rewrite foldCarry_S, (foldCarry_step v) by lia. rewrite foldCarry_step by (destruct (0 <? _); unfold uw; lia).
  unfold uw. change (2 ^ 32) with 4294967296.
  destruct (Z.ltb_spec 0 (v / 65536)); [rewrite (Z.mod_small (v / 65536 + v mod 65536)) by lia|];
    match goal with |- context [0 <? ?x] => destruct (Z.ltb_spec 0 x) end; lia.
Qed.
Lemma addPairs_eq buf v :
  Nat.Even (length buf) -> 0 <= v -> v + 65535 * Z.of_nat (length buf) < 2 ^ 32 ->
  addPairs v buf = v + wordSum buf.
Proof.
  revert v. induction buf as [|x|x y l IH] using pair_ind; intros v [k E] H0 H1; cbn [length] in *; [simpl; lia|lia|].
  pose proof (b2z_range x). pose proof (b2z_range y). cbn [addPairs wordSum].
  rewrite Z.shiftl_mul_pow2, (uw_small 32 (_ + b2z y)), uw_small, IH; try lia. exists (k - 1)%nat. lia.
Qed.
Lemma mod2_even n : (n mod 2)%nat <> 1%nat -> Nat.Even n.
Proof. intros H. exists (n / 2)%nat. pose proof (Nat.div_mod_eq n 2).
  pose proof (Nat.mod_upper_bound n 2). lia. Qed.
Lemma checksumBytes_eq buf v :
  0 <= v < 65536 -> Z.of_nat (length buf) <= 65535 ->
  checksumBytes buf v = foldCarry 2 (v + alignedSum buf).
Proof.
  intros Hv L. unfold checksumBytes, alignedSum. destruct buf as [|x buf'].
  { cbn. rewrite Z.add_0_r. apply combine_eq. lia. }
  pose proof (b2z_range x).
  destruct (Nat.eqb_spec (length (x :: buf') mod 2) 1) as [O|O].
  - cbn [length] in O, L. pose proof (wordSum_bounds buf'). rewrite (uw_small 32 (v + b2z x)) by lia.
    pose proof (Nat.div_mod_eq (S (length buf')) 2). pose proof (Nat.div_mod_eq (length buf') 2).
    destruct (Nat.eqb_spec (length buf' mod 2) 1) as [O'|O']; [lia|].
    rewrite take_ge, addPairs_eq by (lia || by apply mod2_even).
    rewrite combine_eq by lia. f_equal. lia.
  - rewrite (proj2 (Nat.eqb_neq _ _)) by done. pose proof (wordSum_bounds (x :: buf')).
    rewrite take_ge, addPairs_eq by (lia || by apply mod2_even). by rewrite combine_eq by lia.
Qed.

(** [x] is a folded sum congruent to [X]. *)
Definition sums (x X : Z) : Prop := 0 <= x < 65536 /\ x mod 65535 = X mod 65535.
Lemma sums_step x X buf :
  sums x X -> Z.of_nat (length buf) <= 65535 -> sums (checksumBytes buf x) (X + alignedSum buf).
Proof.
  intros [R M] L. rewrite checksumBytes_eq by done.
  assert (0 <= alignedSum buf <= 65535 * Z.of_nat (length buf)) as B.
  { unfold alignedSum. destruct buf as [|y l]; [simpl; lia|]. pose proof (wordSum_bounds (y :: l)).
    pose proof (wordSum_bounds l). pose proof (b2z_range y). cbn [length] in *. destruct (_ =? _)%nat; lia. }
  destruct (foldCarry_spec (x + alignedSum buf)) as (R' & M' & _); [lia|]. split; [lia|].
  rewrite M', Zplus_mod, M, <- Zplus_mod. done.
Qed.
Lemma alignedSum_even buf k : length buf = (2 * k)%nat -> alignedSum buf = wordSum buf.
Proof.
  intros E. unfold alignedSum. destruct buf as [|x l]; [done|].
  rewrite E, (Nat.mul_comm 2 k), Nat.Div0.mod_mul. done.
Qed.
Lemma uw_lnot x : 0 <= x < 65536 -> uw 16 (Z.lnot x) = 65535 - x.
Proof.
  intros H. unfold uw, Z.lnot. rewrite <- (Z.mod_add _ 1) by lia. change (2 ^ 16) with 65536.
  rewrite Z.mod_small; lia.
Qed.
Lemma icmp6Checksum_eq s d t c payload :
  Z.of_nat (44 + length payload) <= 65535 ->
  exists r, icmp6Checksum [t; c; x00; x00] (As16 s) (As16 d) payload = 65535 - r
    /\ sums r (wordSum (pseudo6 s d ipproto.ICMPv6 (4 + length payload)) + wordSum [t; c] + alignedSum payload).
Proof.
  intros L. unfold icmp6Checksum. cbv zeta. change (copyAt 3 [x00] _) with [t; c; x00; x00].
  change (length [t; c; x00; x00] + length payload)%nat with (4 + length payload)%nat.
  assert (sums 0 0) as H by (split; [lia|done]).
  apply (sums_step _ _ (As16 s)) in H; [|len].
  apply (sums_step _ _ (As16 d)) in H; [|len].
  apply (sums_step _ _ (be_put 4 (Z.of_nat (4 + length payload)))) in H; [|len].
  apply (sums_step _ _ [x00; x00; x00; z2b ipproto.ICMPv6]) in H; [|len].
  apply (sums_step _ _ payload) in H; [|lia].
  apply (sums_step _ _ [t; c; x00; x00]) in H; [|len].
  eexists. split.
  - apply uw_lnot, H.
  - destruct H as [R M]. split; [exact R|]. rewrite M. f_equal.
    rewrite (alignedSum_even (As16 s) 8), (alignedSum_even (As16 d) 8), (alignedSum_even (be_put 4 _) 2),
      (alignedSum_even [_; _; _; _] 2), (alignedSum_even [t; c; x00; x00] 2) by len.
    unfold pseudo6. rewrite (wordSum_app (As16 s)), (wordSum_app (As16 d)), (wordSum_app (be_put 4 _))
      by evenlen.
    cbn [wordSum]. change (b2z x00) with 0. lia.
Qed.
(** Exactly when the checksum of an ICMPv6 packet is right: for an odd payload the two ways to
    align its bytes have to give the same sum. *)
Lemma icmp6_wire_ok s d t c payload :
  Z.of_nat (44 + length payload) <= 65535 ->
  rfc1071_ok (pseudo6 s d ipproto.ICMPv6 (4 + length payload) ++ icmp6_wire s d t c payload)
  <-> alignedSum payload mod 65535 = wordSum payload mod 65535.
Proof.
  intros L. unfold icmp6_wire. destruct (icmp6Checksum_eq s d (z2b t) (z2b c) payload L) as (r & -> & R & M).
  pose proof (pseudo6_pos s d ipproto.ICMPv6 (4 + length payload) ltac:(done)) as P.
  unfold rfc1071_ok. rewrite (wordSum_app (pseudo6 _ _ _ _)), (wordSum_app [_; _]), (wordSum_app (be_put 2 _))
    by evenlen.
  rewrite wordSum_be_put2 by lia. pose proof (wordSum_bounds payload). pose proof (wordSum_bounds [z2b t; z2b c]).
  set (w := wordSum (pseudo6 _ _ _ _)) in *. set (tc := wordSum [_; _]) in *. lia.
Qed.

(** ** Round trips *)
Lemma be_put2_split z : 0 <= z < 2 ^ 16 -> exists x y, be_put 2 z = [x; y] /\ be_get [x; y] = z.
Proof.
  intros H. pose proof (length_be_put 2 z) as L. pose proof (be_get_put_small 2 z H) as G.
  destruct (be_put 2 z) as [|x [|y [|]]]; try done. by exists x, y.
Qed.
Lemma be_put4_split z :
  0 <= z < 2 ^ 32 -> exists x y u v, be_put 4 z = [x; y; u; v] /\ be_get [x; y; u; v] = z.
Proof.
  intros H. pose proof (length_be_put 4 z) as L. pose proof (be_get_put_small 4 z H) as G.
  destruct (be_put 4 z) as [|x [|y [|u [|v [|]]]]]; try done. by exists x, y, u, v.
Qed.
Ltac split2 z x y E := let H := fresh in destruct (be_put2_split z) as (x & y & H & E); [lia|rewrite ?H in *; clear H].
Ltac split4 z x y u v E := let H := fresh in destruct (be_put4_split z) as (x & y & u & v & H & E); [lia|rewrite ?H in *; clear H].

(** What the decoder has read when it comes to the transport header of an IPv4 packet with
    no options and no fragmentation. *)
Lemma Decode_ip4_wire q proto id s d seg :
  0 <= proto < 256 -> 0 <= id < 2 ^ 16 -> 0 <= s < 2 ^ 32 -> 0 <= d < 2 ^ 32 ->
  Z.of_nat (20 + length seg) <= 65535 ->
  let p := ip4_wire proto id (20 + length seg) s d ++ seg in
  let q0 := MkParsed p 20 (dataofs q) (20 + length seg) 4 proto
    (MkAddrPort (Addr4 s) (port (Src q))) (MkAddrPort (Addr4 d) (port (Dst q))) (TCPFlags q) zeroCaptureMeta in
  Decode q p =
    (if proto =? ipproto.ICMPv4 then
       if (length seg <? icmp4HeaderLength)%nat then Some (unknown q0)
       else Some (set_dataofs (zeroPorts q0) 24)
     else if proto =? ipproto.IGMP then
       if (length seg <? igmpHeaderLength)%nat then Some (unknown q0) else Some q0
     else if proto =? ipproto.TCP then
       if (length seg <? tcpHeaderLength)%nat then Some (unknown q0) else readTCP q0 seg
     else if proto =? ipproto.UDP then
       if (length seg <? udpHeaderLength)%nat then Some (unknown q0)
       else q ← readPorts q0 seg; Some (set_dataofs q (subofs q + udpHeaderLength))
     else if proto =? ipproto.SCTP then
       if (length seg <? sctpHeaderLength)%nat then Some (unknown q0) else readPorts q0 seg
     else if proto =? ipproto.TSMP then
       if (length seg <? minTSMPSize)%nat then Some (unknown q0)
       else Some (set_dataofs q0 20)
     else if proto =? ipproto.Fragment then Some (unknown q0)
     else Some q0)
  /\ toIP4Header q0 = Some (MkIP4 proto id (Addr4 s) (Addr4 d)).
Proof.
  intros Hp Hi Hs Hd L p q0.
  assert (length p = (20 + length seg)%nat) as Lp by (unfold p; rewrite length_app, length_ip4_wire; done).
  assert (idx p 0 = Some 69 /\ idx p 9 = Some proto /\ u16 p 2 = Some (Z.of_nat (20 + length seg))
    /\ slice p 12 16 = Some (be_put 4 s) /\ slice p 16 20 = Some (be_put 4 d) /\ u16 p 6 = Some 0
    /\ drop 20 p = seg /\ u16 p 4 = Some id) as (F0 & F9 & U2 & S12 & S16 & U6 & Sub & U4).
  { clear q0. unfold p, ip4_wire. pose proof (ip4Checksum_range (ip4_head proto id (20 + length seg) ++ [x00; x00] ++ ip4_addrs s d)) as Rc.
    set (ck := ip4Checksum _) in *. clearbody ck. unfold ip4_head, ip4_addrs.
    split2 ck c1 c2 Ec. split2 (Z.of_nat (20 + length seg)) n1 n2 En. split2 id i1 i2 Ei.
    split4 s s1 s2 s3 s4 Es. split4 d d1 d2 d3 d4 Ed.
    repeat split; cbn; rewrite ?En, ?Ei; try done. by rewrite b2z_z2b, Z.mod_small. }
  clearbody p. split; [|unfold toIP4Header; change (b q0) with p; by rewrite U4]. destruct q as [bu so da l ve pr sr ds fl m]. unfold Decode. cbn [set_captureMeta set_buf].
  rewrite Lp. destruct (Nat.ltb_spec (20 + length seg) 1); [lia|]. rewrite F0. cbn [mbind option_bind].
  change (Z.shiftr 69 4) with 4. cbn [set_IPVersion IPVersion]. change (4 =? 4) with true. cbv iota.
  unfold decode4. rewrite Lp. destruct (Nat.ltb_spec (20 + length seg) ip4HeaderLength); [unfold ip4HeaderLength in *; lia|].
  rewrite F9, U2, S12, S16, F0, U6. cbn [mbind option_bind set_IPProto set_length length_].
  rewrite Nat2Z.id, Nat.ltb_irrefl.
  cbn [set_Src set_Dst Src Dst set_subofs subofs length_ set_IPProto withIP ip port].
  rewrite !be_get_put_small by done.
  change (Z.to_nat (uw 8 (Z.shiftl (Z.land 69 15) 2))) with 20%nat.
  destruct (Nat.ltb_spec (20 + length seg) 20); [lia|].
  rewrite slice_lt, Sub, take_ge by (rewrite ?Sub; lia). reflexivity.
Qed.

Lemma ip6_flow z :
  0 <= z < 2 ^ 20 ->
  Z.shiftr (uw 32 (Z.shiftl (be_get ([x60] ++ drop 1 (be_put 4 z))) 12)) 12 = z.
Proof.
  intros H. split4 z x y u v E. cbn [drop app]. revert E. unfold be_get. cbn [foldl].
  change (b2z x60) with 96. pose proof (b2z_range x). pose proof (b2z_range y). pose proof (b2z_range u).
  pose proof (b2z_range v). intros E. assert (b2z x = 0) as X by lia. rewrite X in E.
  rewrite Z.shiftl_mul_pow2, Z.shiftr_div_pow2 by lia. unfold uw.
  replace ((((0 * 256 + 96) * 256 + b2z y) * 256 + b2z u) * 256 + b2z v) with (96 * 2 ^ 24 + z) by lia.
  replace ((96 * 2 ^ 24 + z) * 2 ^ 12) with (z * 2 ^ 12 + (96 * 2 ^ 4) * 2 ^ 32) by lia.
  rewrite Z.mod_add, Z.mod_small, Z.div_mul by lia. done.
Qed.

Lemma Decode_ip6_wire q proto id s d seg :
  0 <= proto < 256 -> addr_ok s -> addr_ok d -> Z.of_nat (40 + length seg) <= 65535 ->
  let p := ip6_wire proto id (length seg) s d ++ seg in
  let q0 := MkParsed p 40 (dataofs q) (40 + length seg) 6 proto
    (MkAddrPort (AddrFrom16 (As16 s)) (port (Src q))) (MkAddrPort (AddrFrom16 (As16 d)) (port (Dst q)))
    (TCPFlags q) zeroCaptureMeta in
  Decode q p =
    (if proto =? ipproto.ICMPv6 then
       if (length seg <? icmp6HeaderLength)%nat then Some (unknown q0)
       else Some (set_dataofs (zeroPorts q0) 44)
     else if proto =? ipproto.TCP then
       if (length seg <? tcpHeaderLength)%nat then Some (unknown q0) else readTCP q0 seg
     else if proto =? ipproto.UDP then
       if (length seg <? udpHeaderLength)%nat then Some (unknown q0)
       else q ← readPorts q0 seg; Some (set_dataofs q (subofs q + udpHeaderLength))
     else if proto =? ipproto.SCTP then
       if (length seg <? sctpHeaderLength)%nat then Some (unknown q0) else readPorts q0 seg
     else if proto =? ipproto.TSMP then
       if (length seg <? minTSMPSize)%nat then Some (unknown q0)
       else Some (set_dataofs q0 40)
     else if proto =? ipproto.Fragment then Some (unknown q0)
     else Some q0)
  /\ toIP6Header q0 = Some (MkIP6 proto (Z.land id 0xFFFFF) (AddrFrom16 (As16 s)) (AddrFrom16 (As16 d))).
Proof.
  intros Hp Hs Hd L p q0.
  assert (length p = (40 + length seg)%nat) as Lp by (unfold p; rewrite length_app, length_ip6_wire; done).
  assert (0 <= Z.land id 0xFFFFF < 2 ^ 20) as Rf.
  { change 0xFFFFF with (Z.ones 20). rewrite Z.land_ones by lia. apply Z.mod_pos_bound. lia. }
  pose proof (ip6_flow _ Rf) as Fl. set (fl := Z.land id 0xFFFFF) in *.
  assert (idx p 0 = Some 96 /\ idx p 6 = Some proto /\ u16 p 4 = Some (Z.of_nat (length seg))
    /\ slice p 8 24 = Some (As16 s) /\ slice p 24 40 = Some (As16 d)
    /\ drop 40 p = seg /\ slice p 0 4 = Some ([x60] ++ drop 1 (be_put 4 fl)))
    as (F0 & F6 & U4 & S8 & S24 & Sub & W).
  { clear q0 Fl. unfold p, ip6_wire. fold fl.
    split2 (Z.of_nat (length seg)) n1 n2 En. split4 fl f1 f2 f3 f4 Ef. split; [done|].
    split; [cbn; by rewrite b2z_z2b, Z.mod_small|]. split; [cbn; by rewrite En|].
    repeat split; reflexivity. }
  clearbody p. split; [|unfold toIP6Header; change (b q0) with p; rewrite W; cbn [mbind option_bind]; by rewrite Fl].
  destruct q as [bu so da l ve pr sr ds tf m]. unfold Decode. cbn [set_captureMeta set_buf].
  rewrite Lp. destruct (Nat.ltb_spec (40 + length seg) 1); [lia|]. rewrite F0. cbn [mbind option_bind].
  change (Z.shiftr 96 4) with 6. cbn [set_IPVersion IPVersion]. change (6 =? 4) with false. change (6 =? 6) with true.
  cbv iota. unfold decode6. rewrite Lp.
  destruct (Nat.ltb_spec (40 + length seg) ip6HeaderLength); [unfold ip6HeaderLength in *; lia|].
  rewrite F6, U4, S8, S24. cbn [mbind option_bind set_IPProto set_length length_].
  rewrite Nat2Z.id, (Nat.add_comm (length seg)). change (ip6HeaderLength + length seg)%nat with (40 + length seg)%nat.
  rewrite Nat.ltb_irrefl. cbn [set_Src set_Dst Src Dst set_subofs subofs length_ set_IPProto withIP ip port].
  rewrite slice_lt, Sub, take_ge by (rewrite ?Sub; lia). reflexivity.
Qed.

(** Values of the Go types, in the family of the header *)
Definition ip4_ok (h : IP4Header) : Prop :=
  (exists s d, ip4_Src h = Addr4 s /\ ip4_Dst h = Addr4 d /\ 0 <= s < 2 ^ 32 /\ 0 <= d < 2 ^ 32)
  /\ 0 <= ip4_IPID h < 2 ^ 16.
Definition ip6_ok (h : IP6Header) : Prop :=
  (exists s d, ip6_Src h = Addr6 s EmptyString /\ ip6_Dst h = Addr6 d EmptyString
    /\ 0 <= s < 2 ^ 128 /\ 0 <= d < 2 ^ 128)
  /\ 0 <= ip6_IPID h < 2 ^ 20.
Definition port_ok (z : Z) : Prop := 0 <= z < 2 ^ 16.
Definition byte_ok (z : Z) : Prop := 0 <= z < 2 ^ 8.
Definition fits (n : nat) (payload : bytes) : Prop := Z.of_nat (n + length payload) <= 65535.

Lemma Payload_eq r pre payload :
  b r = pre ++ payload -> dataofs r = length pre -> length_ r = (length pre + length payload)%nat ->
  Payload r = Some payload.
Proof.
  intros B D L. unfold Payload. rewrite B, D, L, length_app.
  rewrite !(proj2 (Nat.ltb_ge _ _)) by lia. cbn [orb]. rewrite slice_lt, drop_app_length by len.
  rewrite take_ge by lia. done.
Qed.
Lemma readPorts_udp q pseudo sp dp payload :
  port_ok sp -> port_ok dp ->
  readPorts q (udp_wire pseudo sp dp payload)
  = Some (set_Dst (set_Src q (withPort (Src q) sp)) (withPort (Dst q) dp)).
Proof.
  intros Hs Hd. unfold port_ok in *. unfold udp_wire, udp_head. rewrite readPorts_eq by len.
  split2 sp s1 s2 Es. split2 dp d1 d2 Ed. cbn [take drop app]. by rewrite !take_0, Es, Ed.
Qed.
Lemma length_udp_wire pseudo sp dp payload : length (udp_wire pseudo sp dp payload) = (8 + length payload)%nat.
Proof. unfold udp_wire, udp_head. len. Qed.
Lemma addr16_id a : 0 <= a < 2 ^ 128 -> AddrFrom16 (As16 (Addr6 a EmptyString)) = Addr6 a EmptyString.
Proof. intros H. unfold AddrFrom16, As16. by rewrite be_get_put_small. Qed.

Lemma udp4_decodes q h payload :
  ip4_ok (udp4_IP h) -> port_ok (udp4_SrcPort h) -> port_ok (udp4_DstPort h) -> fits 28 payload ->
  exists p r, Generate h payload = inr p /\ Decode q p = Some r /\ Payload r = Some payload
    /\ toUDP4Header r
       = Some (MkUDP4 (MkIP4 ipproto.UDP (ip4_IPID (udp4_IP h)) (ip4_Src (udp4_IP h)) (ip4_Dst (udp4_IP h)))
                 (udp4_SrcPort h) (udp4_DstPort h)).
Proof.
  intros [(s & d & Es & Ed & Rs & Rd) Ri] Hsp Hdp F. rewrite (UDP4_Generate h s d) by done.
  set (seg := udp_wire _ _ _ payload). assert (length seg = (8 + length payload)%nat) as Ls by apply length_udp_wire.
  unfold fits in F.
  destruct (Decode_ip4_wire q ipproto.UDP (ip4_IPID (udp4_IP h)) s d seg) as [D H]; [done|done|done|done|lia|].
  replace (28 + length payload)%nat with (20 + length seg)%nat by lia.
  cbv zeta in D, H. set (p := ip4_wire _ _ _ _ _ ++ seg) in *.
  match type of H with toIP4Header ?q = _ => set (q0 := q) in * end.
  eexists p, _. split; [done|]. rewrite D. clear D.
  change (ipproto.UDP =? ipproto.UDP) with true. change (ipproto.UDP =? _) with false. cbv iota.
  rewrite (proj2 (Nat.ltb_ge _ _)) by (unfold udpHeaderLength; lia). unfold seg at 1.
  rewrite readPorts_udp by done. split; [reflexivity|]. split.
  - apply (Payload_eq _ (ip4_wire ipproto.UDP (ip4_IPID (udp4_IP h)) (20 + length seg) s d ++ take 8 seg)); reflexivity.
  - unfold toUDP4Header. change (toIP4Header _) with (toIP4Header q0). by rewrite H, Es, Ed.
Qed.
Lemma icmp4_decodes q h payload :
  ip4_ok (icmp4_IP h) -> byte_ok (icmp4_Type h) -> byte_ok (icmp4_Code h) -> fits 24 payload ->
  exists p r, Generate h payload = inr p /\ Decode q p = Some r /\ Payload r = Some payload
    /\ toICMP4Header r
       = Some (MkICMP4 (MkIP4 ipproto.ICMPv4 (ip4_IPID (icmp4_IP h)) (ip4_Src (icmp4_IP h)) (ip4_Dst (icmp4_IP h)))
                 (icmp4_Type h) (icmp4_Code h)).
Proof.
  intros [(s & d & Es & Ed & Rs & Rd) Ri] Ht Hc F. rewrite (ICMP4_Generate h s d) by done. cbv zeta.
  set (ip := ip4_wire _ _ _ _ _). set (seg := icmp4_wire ip _ _ payload).
  assert (length seg = (4 + length payload)%nat) as Ls by (unfold seg, icmp4_wire; len). unfold fits in F.
  destruct (Decode_ip4_wire q ipproto.ICMPv4 (ip4_IPID (icmp4_IP h)) s d seg) as [D H]; [done|done|done|done|lia|].
  cbv zeta in D, H. replace (20 + length seg)%nat with (24 + length payload)%nat in D, H by lia. fold ip in D, H.
  match type of H with toIP4Header ?q = _ => set (q0 := q) in * end.
  eexists (ip ++ seg), _. split; [done|]. rewrite D. clear D.
  change (ipproto.ICMPv4 =? ipproto.ICMPv4) with true. cbv iota.
  rewrite (proj2 (Nat.ltb_ge _ _)) by (unfold icmp4HeaderLength; lia). split; [reflexivity|]. split.
  - apply (Payload_eq _ (ip ++ take 4 seg)); reflexivity.
  - unfold toICMP4Header. change (toIP4Header _) with (toIP4Header q0). rewrite H, Es, Ed.
    transitivity (Some (MkICMP4 (MkIP4 ipproto.ICMPv4 (ip4_IPID (icmp4_IP h)) (Addr4 s) (Addr4 d))
      (b2z (z2b (icmp4_Type h))) (b2z (z2b (icmp4_Code h))))); [reflexivity|].
    by rewrite !b2z_z2b, !Z.mod_small.
Qed.

Lemma udp6_decodes q h payload :
  ip6_ok (udp6_IP h) -> port_ok (udp6_SrcPort h) -> port_ok (udp6_DstPort h) -> fits 48 payload ->
  exists p r, Generate h payload = inr p /\ Decode q p = Some r /\ Payload r = Some payload
    /\ toIP6Header r
       = Some (MkIP6 ipproto.UDP (ip6_IPID (udp6_IP h)) (ip6_Src (udp6_IP h)) (ip6_Dst (udp6_IP h)))
    /\ port (Src r) = udp6_SrcPort h /\ port (Dst r) = udp6_DstPort h.
Proof.
  intros [(s & d & Es & Ed & Rs & Rd) Ri] Hsp Hdp F. rewrite UDP6_Generate, Es, Ed by done.
  set (seg := udp_wire _ _ _ payload). assert (length seg = (8 + length payload)%nat) as Ls by apply length_udp_wire.
  unfold fits in F.
  destruct (Decode_ip6_wire q ipproto.UDP (ip6_IPID (udp6_IP h)) (Addr6 s EmptyString) (Addr6 d EmptyString) seg) as [D H];
    [done|done|done|lia|].
  rewrite <- Ls. cbv zeta in D, H. set (p := ip6_wire _ _ _ _ _ ++ seg) in *.
  match type of H with toIP6Header ?q = _ => set (q0 := q) in * end.
  eexists p, _. split; [done|]. rewrite D. clear D.
  change (ipproto.UDP =? ipproto.UDP) with true. change (ipproto.UDP =? _) with false. cbv iota.
  rewrite (proj2 (Nat.ltb_ge _ _)) by (unfold udpHeaderLength; lia). unfold seg at 1.
  rewrite readPorts_udp by done. split; [reflexivity|]. split; [|split; [|done]].
  - apply (Payload_eq _ (take 48 p)); reflexivity.
  - change (toIP6Header _) with (toIP6Header q0). rewrite H, !addr16_id by done.
    change 0xFFFFF with (Z.ones 20). by rewrite Z.land_ones, Z.mod_small by lia.
Qed.

Lemma icmp6_decodes q h payload :
  ip6_ok (icmp6_IP h) -> byte_ok (icmp6_Type h) -> byte_ok (icmp6_Code h) -> fits 44 payload ->
  exists p r, Generate h payload = inr p /\ Decode q p = Some r /\ Payload r = Some payload
    /\ toICMP6Header r
       = Some (MkICMP6 (MkIP6 ipproto.ICMPv6 (ip6_IPID (icmp6_IP h)) (ip6_Src (icmp6_IP h)) (ip6_Dst (icmp6_IP h)))
                 (icmp6_Type h) (icmp6_Code h)).
Proof.
  intros [(s & d & Es & Ed & Rs & Rd) Ri] Ht Hc F. rewrite ICMP6_Generate, Es, Ed by done.
  set (seg := icmp6_wire _ _ _ _ payload).
  assert (length seg = (4 + length payload)%nat) as Ls by (unfold seg, icmp6_wire; len). unfold fits in F.
  destruct (Decode_ip6_wire q ipproto.ICMPv6 (ip6_IPID (icmp6_IP h)) (Addr6 s EmptyString) (Addr6 d EmptyString) seg) as [D H];
    [done|done|done|lia|].
  rewrite <- Ls. cbv zeta in D, H. set (p := ip6_wire _ _ _ _ _ ++ seg) in *.
  match type of H with toIP6Header ?q = _ => set (q0 := q) in * end.
  eexists p, _. split; [done|]. rewrite D. clear D.
  change (ipproto.ICMPv6 =? ipproto.ICMPv6) with true. cbv iota.
  rewrite (proj2 (Nat.ltb_ge _ _)) by (unfold icmp6HeaderLength; lia). split; [reflexivity|]. split.
  - apply (Payload_eq _ (take 44 p)); reflexivity.
  - unfold toICMP6Header. change (toIP6Header _) with (toIP6Header q0). rewrite H, !addr16_id by done.
    change 0xFFFFF with (Z.ones 20). rewrite Z.land_ones, (Z.mod_small (ip6_IPID _)) by lia.
    transitivity (Some (MkICMP6 (MkIP6 ipproto.ICMPv6 (ip6_IPID (icmp6_IP h)) (Addr6 s EmptyString) (Addr6 d EmptyString))
      (b2z (z2b (icmp6_Type h))) (b2z (z2b (icmp6_Code h))))); [reflexivity|].
    by rewrite !b2z_z2b, !Z.mod_small.
Qed.

(** [C23] What [Generate] makes of a UDP or ICMP header of either family and a payload that fits is
    decoded, by a [Parsed] of any history, back to that header (with the protocol number filled
    in) and that payload. *)
Theorem generated_packets_decode q payload :
  (forall h, ip4_ok (udp4_IP h) -> port_ok (udp4_SrcPort h) -> port_ok (udp4_DstPort h) -> fits 28 payload ->
     exists p r, Generate h payload = inr p /\ Decode q p = Some r /\ Payload r = Some payload
       /\ toUDP4Header r
          = Some (MkUDP4 (MkIP4 ipproto.UDP (ip4_IPID (udp4_IP h)) (ip4_Src (udp4_IP h)) (ip4_Dst (udp4_IP h)))
                    (udp4_SrcPort h) (udp4_DstPort h)))
  /\ (forall h, ip4_ok (icmp4_IP h) -> byte_ok (icmp4_Type h) -> byte_ok (icmp4_Code h) -> fits 24 payload ->
     exists p r, Generate h payload = inr p /\ Decode q p = Some r /\ Payload r = Some payload
       /\ toICMP4Header r
          = Some (MkICMP4 (MkIP4 ipproto.ICMPv4 (ip4_IPID (icmp4_IP h)) (ip4_Src (icmp4_IP h)) (ip4_Dst (icmp4_IP h)))
                    (icmp4_Type h) (icmp4_Code h)))
  /\ (forall h, ip6_ok (udp6_IP h) -> port_ok (udp6_SrcPort h) -> port_ok (udp6_DstPort h) -> fits 48 payload ->
     exists p r, Generate h payload = inr p /\ Decode q p = Some r /\ Payload r = Some payload
       /\ toIP6Header r
          = Some (MkIP6 ipproto.UDP (ip6_IPID (udp6_IP h)) (ip6_Src (udp6_IP h)) (ip6_Dst (udp6_IP h)))
       /\ port (Src r) = udp6_SrcPort h /\ port (Dst r) = udp6_DstPort h)
  /\ (forall h, ip6_ok (icmp6_IP h) -> byte_ok (icmp6_Type h) -> byte_ok (icmp6_Code h) -> fits 44 payload ->
     exists p r, Generate h payload = inr p /\ Decode q p = Some r /\ Payload r = Some payload
       /\ toICMP6Header r
          = Some (MkICMP6 (MkIP6 ipproto.ICMPv6 (ip6_IPID (icmp6_IP h)) (ip6_Src (icmp6_IP h)) (ip6_Dst (icmp6_IP h)))
                    (icmp6_Type h) (icmp6_Code h))).
Proof.
  split; [|split; [|split]]; intros h; [apply udp4_decodes|apply icmp4_decodes|apply udp6_decodes|apply icmp6_decodes].
Qed.
Definition ex_ip4 : IP4Header := MkIP4 0 7 (Addr4 0x64400001) (Addr4 0x64400002).
Lemma generated_packets_decode_witness :
  exists p r, Generate (MkUDP4 ex_ip4 53 4242) [x01; x02; x03] = inr p /\ Decode zeroParsed p = Some r
    /\ Payload r = Some [x01; x02; x03] /\ port (Src r) = 53.
Proof.
  destruct (proj1 (generated_packets_decode zeroParsed [x01; x02; x03]) (MkUDP4 ex_ip4 53 4242))
    as (p & r & G & D & P & H).
  - split; [exists 0x64400001, 0x64400002; repeat split; cbn; lia|cbn; lia].
  - unfold port_ok. cbn. lia.
  - unfold port_ok. cbn. lia.
  - unfold fits. cbn. lia.
  - exists p, r. split; [exact G|]. split; [exact D|]. split; [exact P|].
    unfold toUDP4Header in H. destruct (toIP4Header r); [|discriminate H].
    injection H as _ E _. exact E.
Defined.

(** [C24] The checksums of a generated packet are those of RFC 1071: a receiver that adds up the
    words of the IPv4 header, of the UDP segment under its pseudo header, or of an ICMPv4 message
    that is not all zero, checksum included, gets minus zero. For ICMPv6 that is so exactly when
    the payload adds up to the same with its first byte on either side of a word: always for an
    even length, and for an odd one in general not. *)
Theorem generated_checksums_verify payload :
  (forall h p, ip4_ok (udp4_IP h) -> fits 40 payload -> Generate h payload = inr p ->
     exists s d, ip4_Src (udp4_IP h) = Addr4 s /\ ip4_Dst (udp4_IP h) = Addr4 d /\ rfc1071_ok (take 20 p)
       /\ rfc1071_ok (pseudo4 s d ipproto.UDP (8 + length payload) ++ drop 20 p))
  /\ (forall h p, fits 88 payload -> Generate h payload = inr p ->
     rfc1071_ok (pseudo6 (ip6_Src (udp6_IP h)) (ip6_Dst (udp6_IP h)) ipproto.UDP (8 + length payload) ++ drop 40 p))
  /\ (forall h p, ip4_ok (icmp4_IP h) -> fits 24 payload -> Generate h payload = inr p ->
     rfc1071_ok (take 20 p) /\ (0 < wordSum (drop 20 p) -> rfc1071_ok (drop 20 p)))
  /\ (forall h p, fits 44 payload -> Generate h payload = inr p ->
     rfc1071_ok (pseudo6 (ip6_Src (icmp6_IP h)) (ip6_Dst (icmp6_IP h)) ipproto.ICMPv6 (4 + length payload) ++ drop 40 p)
     <-> alignedSum payload mod 65535 = wordSum payload mod 65535)
  /\ (Nat.Even (length payload) -> alignedSum payload = wordSum payload)
  /\ alignedSum [x01] mod 65535 <> wordSum [x01] mod 65535.
Proof.
  unfold fits. split; [|split; [|split; [|split; [|split]]]].
  - intros h p [(s & d & Es & Ed & Rs & Rd) Ri] F. rewrite (UDP4_Generate h s d) by (done || lia). intros <-%(inj inr).
    exists s, d. split; [done|]. split; [done|]. rewrite take_app_length', drop_app_length' by len.
    split; [apply ip4_wire_ok|]. apply (udp_wire_ok _ 6); [by rewrite length_pseudo4|apply pseudo4_pos|rewrite length_pseudo4; lia].
  - intros h p F. rewrite UDP6_Generate by lia. intros <-%(inj inr). rewrite drop_app_length' by len.
    apply (udp_wire_ok _ 20); [by rewrite length_pseudo6|by apply pseudo6_pos|rewrite length_pseudo6; lia].
  - intros h p [(s & d & Es & Ed & Rs & Rd) Ri] F. rewrite (ICMP4_Generate h s d) by (done || lia). intros <-%(inj inr).
    rewrite take_app_length', drop_app_length' by len. split; [apply ip4_wire_ok|].
    eapply rfc1071_app; [|apply ip4_wire_ok|]; [rewrite length_ip4_wire; by exists 10%nat|].
    apply icmp4_wire_ok; [apply length_ip4_wire|apply ip4_wire_ok|lia].
  - intros h p F. rewrite ICMP6_Generate by lia. intros <-%(inj inr). rewrite drop_app_length' by len.
    by apply icmp6_wire_ok.
  - intros [k E]. by apply (alignedSum_even _ k).
  - done.
Qed.
Lemma generated_checksums_verify_witness :
  exists p, Generate (MkICMP6 (MkIP6 0 0 (Addr6 1 EmptyString) (Addr6 2 EmptyString)) 128 0) [x01] = inr p
    /\ ~ rfc1071_ok (pseudo6 (Addr6 1 EmptyString) (Addr6 2 EmptyString) ipproto.ICMPv6 5 ++ drop 40 p).
Proof.
  eexists. split; [vm_compute; reflexivity|]. intros H.
  destruct (generated_checksums_verify [x01]) as (_ & _ & _ & X & _ & N).
  apply N. refine (proj1 (X (MkICMP6 (MkIP6 0 0 (Addr6 1 EmptyString) (Addr6 2 EmptyString)) 128 0) _ _ _) H);
    [unfold fits; cbn; lia|vm_compute; reflexivity].
Defined.
