(* ===== verification/IPSet.v ===== *)
(** * Address prefixes and sets of them (net/netip: Prefix; net/ipset)

    [NewContainsIPFunc] picks one of six membership tests by the number and the kind of the
    prefixes; each of them is the membership test of the list. The table of [gaissmai/bart],
    used for many prefixes, is a class: what it promises is longest-prefix lookup over what was
    inserted, of which the caller only looks at whether anything matched. *)
From S2P Require Import Prelude Netip.

(** ** [netip.Prefix]; the length is -1 in an invalid prefix *)
Record Prefix := MkPrefix { pfxAddr : Addr; pfxBits : Z }.
#[export] Instance Prefix_eq_dec : EqDecision Prefix.
Proof. solve_decision. Defined.

Definition BitLen (a : Addr) : Z := match a with AddrZero => 0 | Addr4 _ => 32 | Addr6 _ _ => 128 end.
Definition hasZone (a : Addr) : bool :=
  match a with Addr6 _ z => negb (bool_decide (z = EmptyString)) | _ => false end.
Definition withoutZone (a : Addr) : Addr := match a with Addr6 a _ => Addr6 a EmptyString | _ => a end.
Definition PrefixFrom (a : Addr) (bits : Z) : Prefix :=
  MkPrefix (withoutZone a)
    (if negb (AddrIsValid a) || (bits <? 0) || (BitLen a <? bits) then -1 else bits).
Definition pfxIsValid (p : Prefix) : bool := 0 <=? pfxBits p.
Definition IsSingleIP (p : Prefix) : bool := pfxIsValid p && (pfxBits p =? BitLen (pfxAddr p)).
Definition Contains (p : Prefix) (a : Addr) : bool :=
  if negb (pfxIsValid p) || hasZone a then false
  else
    match pfxAddr p, a with
    | Addr4 x, Addr4 y => Z.shiftr (Z.lxor y x) (32 - pfxBits p) =? 0
    | Addr6 x _, Addr6 y _ => Z.shiftr (Z.lxor y x) (128 - pfxBits p) =? 0
    | _, _ => false
    end.

(** What [PrefixFrom], [ParsePrefix] and the zero [Prefix] are *)
Definition prefix_ok (p : Prefix) : Prop :=
  hasZone (pfxAddr p) = false /\ pfxBits p <= BitLen (pfxAddr p)
  /\ (pfxIsValid p = true -> AddrIsValid (pfxAddr p) = true).

(** ** The routing table of [bart] *)
Class BartTable := {
  (** [Lite.Contains] after [Lite.Insert] of the prefixes *)
  bartContains : list Prefix -> Addr -> bool;
  bartContains_spec ps a :
    hasZone a = false -> bartContains ps a = existsb (fun p => Contains p a) ps }.
Definition list_bart : BartTable :=
  {| bartContains ps a := existsb (fun p => Contains p a) ps; bartContains_spec _ _ _ := eq_refl |}.

(** ** net/ipset *)
Section ipset.
Context `{BartTable}.

Definition emptySet (a : Addr) : bool := false.
Fixpoint prefixContainsLoop (addrs : list Prefix) (a : Addr) : bool :=
  match addrs with
  | [] => false
  | p :: addrs => if Contains p a then true else prefixContainsLoop addrs a
  end.
Definition oneIP (ip1 : Addr) (a : Addr) : bool := bool_decide (a = ip1).
Definition twoIP (ip1 ip2 : Addr) (a : Addr) : bool := bool_decide (a = ip1) || bool_decide (a = ip2).
Definition ipInMap (m : gset Addr) (a : Addr) : bool := bool_decide (a ∈ m).

Definition NewContainsIPFunc (addrs : list Prefix) : Addr -> bool :=
  match addrs with
  | [] => emptySet
  | p0 :: rest =>
      if existsb (fun p => negb (IsSingleIP p)) addrs then
        if (length addrs =? 1)%nat then Contains p0
        else if (length addrs <=? 6)%nat then prefixContainsLoop addrs
        else bartContains addrs
      else
        match rest with
        | [] => oneIP (pfxAddr p0)
        | [p1] => twoIP (pfxAddr p0) (pfxAddr p1)
        | _ => ipInMap (foldl (fun m p => {[pfxAddr p]} ∪ m) ∅ addrs)
        end
  end.

(** ** Membership *)
Lemma Contains_single p a : prefix_ok p -> IsSingleIP p = true -> Contains p a = oneIP (pfxAddr p) a.
Proof.
  intros (Zn & _ & V) S. unfold IsSingleIP in S. bool_props. unfold Contains, oneIP. rewrite H0.
  destruct (hasZone a) eqn:Za; cbn [negb orb].
  { symmetry. apply bool_decide_eq_false. intros ->. congruence. }
  assert (forall x y, (Z.lxor x y =? 0) = bool_decide (x = y)) as X.
  { intros x y. apply Bool.eq_iff_eq_true. rewrite Z.eqb_eq, bool_decide_eq_true. apply Z.lxor_eq_0_iff. }
  destruct p as [pa bits]. cbn [pfxAddr pfxBits] in *. subst bits.
  destruct pa as [|x|x z], a as [|y|y z']; cbn [BitLen] in *; try (symmetry; by apply bool_decide_eq_false);
    [by specialize (V H0)|..]; rewrite Z.sub_diag, Z.shiftr_0_r, X; apply bool_decide_ext;
    [split; [by intros ->|by intros [= ->]]|].
  unfold hasZone in *. bool_props. subst. split; [by intros ->|by intros [= ->]].
Qed.
Lemma prefixContainsLoop_eq addrs a : prefixContainsLoop addrs a = existsb (fun p => Contains p a) addrs.
Proof. induction addrs as [|p l IH]; [done|]. simpl. rewrite IH. by destruct (Contains p a). Qed.
Lemma foldl_addrs addrs (m : gset Addr) a :
  a ∈ foldl (fun m p => {[pfxAddr p]} ∪ m) m addrs <-> a ∈ m \/ Exists (fun p => a = pfxAddr p) addrs.
Proof.
  revert m. induction addrs as [|p l IH]; intros m; simpl.
  - rewrite Exists_nil. tauto.
  - rewrite IH, Exists_cons. set_solver.
Qed.

Lemma NewContainsIPFunc_eq addrs a :
  Forall prefix_ok addrs -> hasZone a = false ->
  NewContainsIPFunc addrs a = existsb (fun p => Contains p a) addrs.
Proof.
  intros OK Za. unfold NewContainsIPFunc. destruct addrs as [|p0 rest]; [done|].
  destruct (existsb (fun p => negb (IsSingleIP p)) (p0 :: rest)) eqn:E.
  { destruct (Nat.eqb_spec (length (p0 :: rest)) 1) as [L|].
    - destruct rest; [simpl; by rewrite orb_false_r|discriminate L].
    - destruct (length (p0 :: rest) <=? 6)%nat; [apply prefixContainsLoop_eq|by apply bartContains_spec]. }
  assert (forall p, p ∈ p0 :: rest -> Contains p a = bool_decide (a = pfxAddr p)) as S.
  { intros p Hp. apply Contains_single; [rewrite Forall_forall in OK; by apply OK|].
    destruct (IsSingleIP p) eqn:Es; [done|]. exfalso.
    apply Bool.not_true_iff_false in E. apply E, existsb_exists. exists p. split; [by apply list_elem_of_In|by rewrite Es]. }
  assert (forall l, (forall p, p ∈ l -> p ∈ p0 :: rest) ->
    existsb (fun p => Contains p a) l = bool_decide (Exists (fun p => a = pfxAddr p) l)) as X.
  { induction l as [|p l IH]; intros Hl; [done|]. simpl. rewrite S, IH by set_solver.
    rewrite <- bool_decide_or. apply bool_decide_ext. by rewrite Exists_cons. }
  destruct rest as [|p1 [|p2 rest]].
  - rewrite X by done. unfold oneIP. apply bool_decide_ext. rewrite Exists_cons, Exists_nil. tauto.
  - rewrite X by done. unfold twoIP. rewrite <- bool_decide_or. apply bool_decide_ext.
    rewrite !Exists_cons, Exists_nil. tauto.
  - rewrite X by done. unfold ipInMap. apply bool_decide_ext. rewrite foldl_addrs. set_solver.
Qed.
End ipset.
