(* ===== verification/FlowTrack.v ===== *)
(** * Flow tracking (net/flowtrack)

    [Tuple] and the LRU cache keyed by it. The cache is a [container/list] of pointers to
    entries and a map from keys to list elements, as in the source; elements live in a store, the
    list is the sequence of their identities from front to back. A nil map or list is the empty
    one: reading either gives the same. What a client relies on is the class [FlowCache], over a
    list of keys ordered by use; [flowtrack_cache] is the instance that discharges it. *)
From S2P Require Import Prelude Netip Bytes Slices.

Module FlowTrack.

Record Tuple := MkTuple { t_src : bytes; t_dst : bytes; srcPort : Z; dstPort : Z; t_proto : Z }.
#[export] Instance Tuple_eq_dec : EqDecision Tuple.
Proof. solve_decision. Defined.
#[export] Instance Tuple_countable : Countable Tuple.
Proof.
  apply (inj_countable' (fun t => (t_src t, t_dst t, srcPort t, dstPort t, t_proto t))
    (fun '(a, b, c, d, e) => MkTuple a b c d e)). by intros [].
Defined.
Definition MakeTuple (proto : Z) (src dst : AddrPort) : Tuple :=
  MkTuple (As16 (ip src)) (As16 (ip dst)) (port src) (port dst) proto.
Definition SrcAddr (t : Tuple) : Addr := Unmap (AddrFrom16 (t_src t)).
Definition DstAddr (t : Tuple) : Addr := Unmap (AddrFrom16 (t_dst t)).

(** ** The cache *)
Section cache.
Context {V : Type}.

Record entry := MkEntry { key : Tuple; value : V }.
Record Cache := MkCache {
  MaxEntries : Z;
  ll : list nat;
  m : gmap Tuple nat;
  elems : gmap nat entry;  (* the store of list elements *)
  fresh : nat }.
Definition newCache (max : Z) : Cache := MkCache max [] ∅ ∅ 0.

(** [list.Remove] and [list.MoveToFront] of an element, which do nothing to a list it is not in *)
Definition listRemove (e : nat) (l : list nat) : list nat := filter (fun x => x <> e) l.
Definition listMoveToFront (e : nat) (l : list nat) : list nat :=
  if decide (e ∈ l) then e :: listRemove e l else l.

Definition Len (c : Cache) : Z := Z.of_nat (size (m c)).
Definition removeElement (c : Cache) (e : nat) : Cache :=
  match elems c !! e with
  | Some en => MkCache (MaxEntries c) (listRemove e (ll c)) (delete (key en) (m c)) (elems c) (fresh c)
  | None => c
  end.
Definition RemoveOldest (c : Cache) : Cache :=
  match last (ll c) with Some e => removeElement c e | None => c end.
Definition Remove (c : Cache) (k : Tuple) : Cache :=
  match m c !! k with Some e => removeElement c e | None => c end.
Definition Add (c : Cache) (k : Tuple) (v : V) : Cache :=
  match m c !! k with
  | Some ee =>
      MkCache (MaxEntries c) (listMoveToFront ee (ll c)) (m c)
        (alter (fun en => MkEntry (key en) v) ee (elems c)) (fresh c)
  | None =>
      let ele := fresh c in
      let c := MkCache (MaxEntries c) (ele :: ll c) (<[k := ele]> (m c))
                 (<[ele := MkEntry k v]> (elems c)) (S (fresh c)) in
      if negb (MaxEntries c =? 0) && (MaxEntries c <? Len c) then RemoveOldest c else c
  end.
Definition Get (c : Cache) (k : Tuple) : option V * Cache :=
  match m c !! k with
  | Some ele =>
      (value <$> elems c !! ele,
       MkCache (MaxEntries c) (listMoveToFront ele (ll c)) (m c) (elems c) (fresh c))
  | None => (None, c)
  end.

(** ** The invariant *)
Record cache_wf (c : Cache) : Prop := MkWf {
  w_max : 0 <= MaxEntries c;
  w_nodup : NoDup (ll c);
  w_elem e : e ∈ ll c -> exists en, elems c !! e = Some en /\ m c !! key en = Some e;
  w_map k e : m c !! k = Some e -> e ∈ ll c /\ exists en, elems c !! e = Some en /\ key en = k;
  w_fresh e : e ∈ ll c -> (e < fresh c)%nat }.
Definition cache_inv (c : Cache) : Prop :=
  cache_wf c /\ (MaxEntries c <> 0 -> Z.of_nat (length (ll c)) <= MaxEntries c).

(** The keys, most recently used first *)
Definition keyAt (c : Cache) (e : nat) : option Tuple := key <$> elems c !! e.
Definition keys (c : Cache) : list Tuple := omap (keyAt c) (ll c).
End cache.
#[global] Arguments entry : clear implicits.
#[global] Arguments Cache : clear implicits.

(** ** What a client relies on: keys ordered by use, at most [cacheMax] of them *)
Definition touch (k : Tuple) (l : list Tuple) : list Tuple := k :: filter (fun x => x <> k) l.

Class FlowCache (cacheMax : nat) := {
  cache : Type;
  cacheNew : cache;
  cacheAdd : cache -> Tuple -> cache;
  cacheGet : cache -> Tuple -> bool * cache;
  cacheKeys : cache -> list Tuple;
  cacheInv : cache -> Prop;
  cacheInv_new : cacheInv cacheNew /\ cacheKeys cacheNew = [];
  cacheInv_keys c : cacheInv c -> NoDup (cacheKeys c) /\ (length (cacheKeys c) <= cacheMax)%nat;
  cacheAdd_spec c k :
    cacheInv c -> cacheInv (cacheAdd c k) /\ cacheKeys (cacheAdd c k) = take cacheMax (touch k (cacheKeys c));
  cacheGet_spec c k :
    cacheInv c ->
    cacheInv (cacheGet c k).2 /\ (cacheGet c k).1 = bool_decide (k ∈ cacheKeys c)
    /\ cacheKeys (cacheGet c k).2 = if decide (k ∈ cacheKeys c) then touch k (cacheKeys c) else cacheKeys c }.

(** ** Facts *)
Section facts.
Context {V : Type}.
Implicit Types c : Cache V.

Lemma filter_ne_id `{EqDecision A} (x : A) (l : list A) : x ∉ l -> filter (fun y => y <> x) l = l.
Proof. intros N. apply Forall_filter_id, Forall_forall. by intros y Hy ->. Qed.
Lemma listRemove_elem e l x : x ∈ listRemove e l <-> x <> e /\ x ∈ l.
Proof. unfold listRemove. by rewrite list_elem_of_filter. Qed.
Lemma moveToFront_elem e l x : e ∈ l -> x ∈ listMoveToFront e l <-> x ∈ l.
Proof.
  intros H. unfold listMoveToFront. rewrite decide_True, elem_of_cons, listRemove_elem by done.
  destruct (decide (x = e)) as [->|]; naive_solver.
Qed.
Lemma length_listRemove e l : NoDup l -> e ∈ l -> S (length (listRemove e l)) = length l.
Proof.
  induction l as [|x l IH]; intros Hn He; [by apply not_elem_of_nil in He|].
  apply NoDup_cons in Hn as [Nx Hn]. unfold listRemove. rewrite filter_cons.
  destruct (decide (x <> e)) as [N|N%dec_stable]; simpl.
  - f_equal. apply IH; [done|]. by apply elem_of_cons in He as [->|].
  - subst. f_equal. by rewrite filter_ne_id.
Qed.

(** Elements and keys correspond one to one. *)
Lemma keyAt_inj c e e' k :
  cache_wf c -> e ∈ ll c -> e' ∈ ll c -> keyAt c e = Some k -> keyAt c e' = Some k -> e = e'.
Proof.
  intros W He He' K K'. destruct (w_elem c W e He) as (en & E & M). destruct (w_elem c W e' He') as (en' & E' & M').
  unfold keyAt in *. rewrite E in K. rewrite E' in K'. simplify_eq/=. congruence.
Qed.
Lemma keys_elem c k : cache_wf c -> k ∈ keys c <-> exists e, m c !! k = Some e.
Proof.
  intros W. unfold keys. rewrite list_elem_of_omap. split.
  - intros (e & He & K). destruct (w_elem c W e He) as (en & E & M). unfold keyAt in K. rewrite E in K.
    simplify_eq/=. eauto.
  - intros (e & M). destruct (w_map c W k e M) as (He & en & E & <-). exists e. split; [done|]. unfold keyAt.
    by rewrite E.
Qed.
Lemma keyAt_map c k e : cache_wf c -> m c !! k = Some e -> e ∈ ll c /\ keyAt c e = Some k.
Proof. intros W M. destruct (w_map c W k e M) as (He & en & E & <-). unfold keyAt. by rewrite E. Qed.

Lemma omap_remove (f : nat -> option Tuple) l e k :
  f e = Some k -> (forall x, x ∈ l -> f x = Some k -> x = e) ->
  omap f (listRemove e l) = filter (fun x => x <> k) (omap f l).
Proof.
  intros Fe Inj. induction l as [|x l IH]; [done|]. unfold listRemove in *. rewrite filter_cons. csimpl.
  assert (forall y, y ∈ l -> f y = Some k -> y = e) as Inj' by (intros; apply Inj; [by right|done]).
  destruct (decide (x <> e)) as [N|N%dec_stable].
  - csimpl. destruct (f x) as [kx|] eqn:Fx; [|by apply IH]. rewrite filter_cons, decide_True; [by rewrite IH|].
    intros ->. apply N, Inj; [by left|done].
  - subst x. rewrite Fe, filter_cons, decide_False by naive_solver. by apply IH.
Qed.
Lemma omap_length (f : nat -> option Tuple) l :
  (forall x, x ∈ l -> is_Some (f x)) -> length (omap f l) = length l.
Proof.
  induction l as [|x l IH]; intros H; [done|]. csimpl. destruct (H x) as [k ->]; [by left|]. csimpl.
  f_equal. apply IH. intros y Hy. apply H. by right.
Qed.
Lemma keyAt_some c e : cache_wf c -> e ∈ ll c -> is_Some (keyAt c e).
Proof. intros W He. destruct (w_elem c W e He) as (en & E & _). unfold keyAt. rewrite E. eauto. Qed.
Lemma length_keys c : cache_wf c -> length (keys c) = length (ll c).
Proof. intros W. apply omap_length. intros. by apply keyAt_some. Qed.
Lemma keys_nodup c : cache_wf c -> NoDup (keys c).
Proof.
  intros W. unfold keys. pose proof (w_nodup c W) as N. pose proof (fun e e' k => keyAt_inj c e e' k W) as Inj.
  induction N as [|e l He N IH]; [by constructor|]. csimpl.
  destruct (keyAt c e) as [k|] eqn:K; [|apply IH; intros; eapply Inj; eauto; by right].
  constructor; [|apply IH; intros; eapply Inj; eauto; by right].
  intros (e' & He' & K')%list_elem_of_omap. apply He.
  rewrite (Inj e e' k); [done|by left|by right|done|done].
Qed.
Lemma Len_eq c : cache_wf c -> Len c = Z.of_nat (length (ll c)).
Proof.
  intros W. unfold Len. f_equal. rewrite <- (size_dom (D := gset Tuple)), <- length_keys by done.
  rewrite <- (size_list_to_set (C := gset Tuple)) by by apply keys_nodup. f_equal.
  apply set_eq. intros k. rewrite elem_of_list_to_set, keys_elem, elem_of_dom by done. done.
Qed.

Lemma removeElement_spec c e k :
  cache_wf c -> e ∈ ll c -> keyAt c e = Some k ->
  cache_wf (removeElement c e) /\ keys (removeElement c e) = filter (fun x => x <> k) (keys c)
  /\ length (ll c) = S (length (ll (removeElement c e)))
  /\ MaxEntries (removeElement c e) = MaxEntries c.
Proof.
  intros W He K. destruct (w_elem c W e He) as (en & E & M).
  assert (key en = k) as <- by (unfold keyAt in K; rewrite E in K; by simplify_eq/=).
  unfold removeElement. rewrite E. split; [|split; [|split; [|done]]].
  - split; cbn [MaxEntries ll m elems fresh].
    + apply W.
    + apply NoDup_filter, W.
    + intros x [Nx Hx]%listRemove_elem. destruct (w_elem c W x Hx) as (en' & E' & M'). exists en'.
      split; [done|]. rewrite lookup_delete_ne; [done|]. intros Ek. rewrite Ek in M. congruence.
    + intros k' x [Nk Mx]%lookup_delete_Some. destruct (w_map c W k' x Mx) as (Hx & en' & E' & <-).
      split; [|eauto]. apply listRemove_elem. split; [|done]. intros ->. congruence.
    + intros x [_ Hx]%listRemove_elem. by apply W.
  - apply omap_remove; [exact K|]. intros x Hx Kx. by apply (keyAt_inj c x e (key en) W).
  - symmetry. apply length_listRemove; [apply W|done].
Qed.

Lemma omap_eq {A B} (f g : A -> option B) (l : list A) : (forall x, x ∈ l -> f x = g x) -> omap f l = omap g l.
Proof.
  induction l as [|x l IH]; intros E; [done|]. csimpl. rewrite E by by left. rewrite IH; [done|].
  intros y Hy. apply E. by right.
Qed.

(** Moving an element to the front touches its key; a value may change on the way. *)
Lemma moveToFront_spec c e k (el : gmap nat (entry V)) :
  cache_wf c -> m c !! k = Some e -> (forall x, key <$> el !! x = keyAt c x) ->
  let c' := MkCache (MaxEntries c) (listMoveToFront e (ll c)) (m c) el (fresh c) in
  cache_wf c' /\ keys c' = touch k (keys c) /\ length (ll c') = length (ll c).
Proof.
  intros W M El c'. destruct (keyAt_map c k e W M) as [He K].
  assert (forall x k', keyAt c x = Some k' -> exists en, el !! x = Some en /\ key en = k') as Ek.
  { intros x k' Hk. rewrite <- El in Hk. apply fmap_Some in Hk as (en & E & ->). eauto. }
  split; [|split].
  - split; cbn [MaxEntries ll m elems fresh c'].
    + apply W.
    + unfold listMoveToFront. rewrite decide_True by done. constructor; [|apply NoDup_filter, W].
      by intros [? _]%listRemove_elem.
    + intros x Hx%moveToFront_elem; [|done]. destruct (w_elem c W x Hx) as (en & E & Mx).
      destruct (Ek x (key en)) as (en' & E' & Ek'); [unfold keyAt; by rewrite E|]. exists en'. by rewrite Ek'.
    + intros k' x Mx. destruct (keyAt_map c k' x W Mx) as [Hx Kx]. rewrite moveToFront_elem by done.
      split; [done|]. by apply Ek.
    + intros x Hx%moveToFront_elem; [|done]. by apply W.
  - unfold keys, touch. change (ll c') with (listMoveToFront e (ll c)).
    unfold listMoveToFront. rewrite decide_True by done. rewrite (omap_eq _ (keyAt c)) by (intros; apply El). csimpl. rewrite K. f_equal.
    apply omap_remove; [exact K|]. intros x Hx Kx. by apply (keyAt_inj c x e k W).
  - change (ll c') with (listMoveToFront e (ll c)). unfold listMoveToFront. rewrite decide_True by done. simpl.
    apply length_listRemove; [apply W|done].
Qed.

Lemma Get_spec c k :
  cache_inv c ->
  cache_inv (Get c k).2
  /\ (is_Some (Get c k).1 <-> k ∈ keys c)
  /\ keys (Get c k).2 = if decide (k ∈ keys c) then touch k (keys c) else keys c.
Proof.
  intros [W L]. unfold Get. destruct (m c !! k) as [e|] eqn:M; simpl.
  - destruct (moveToFront_spec c e k (elems c) W M) as (W' & K' & L'); [done|].
    assert (k ∈ keys c) as Hk by (apply keys_elem; eauto).
    split; [split; [done|by rewrite L']|]. rewrite decide_True by done. split; [|done]. split; [done|].
    intros _. destruct (w_map c W k e M) as (_ & en & -> & _). eauto.
  - assert (k ∉ keys c) as Hk by (intros [e M']%keys_elem; [congruence|done]).
    rewrite decide_False by done. split; [done|]. split; [|done]. split; [by intros []|done].
Qed.

Lemma alter_key c e v x : key <$> alter (fun en => MkEntry (key en) v) e (elems c) !! x = keyAt c x.
Proof.
  unfold keyAt. destruct (decide (x = e)) as [->|N]; [|by rewrite lookup_alter_ne].
  rewrite lookup_alter_eq. by destruct (elems c !! e).
Qed.
Lemma push_spec c k v :
  cache_wf c -> m c !! k = None ->
  let c' := MkCache (MaxEntries c) (fresh c :: ll c) (<[k := fresh c]> (m c))
              (<[fresh c := MkEntry k v]> (elems c)) (S (fresh c)) in
  cache_wf c' /\ keys c' = k :: keys c.
Proof.
  intros W M c'. assert (fresh c ∉ ll c) as NF by (intros H%(w_fresh c W); lia).
  assert (forall x, x ∈ ll c -> keyAt c' x = keyAt c x) as KE.
  { intros x Hx. unfold keyAt. cbn [elems c']. rewrite lookup_insert_ne; [done|]. by intros <-. }
  split.
  - split; cbn [MaxEntries ll m elems fresh c'].
    + apply W.
    + constructor; [done|apply W].
    + intros x [->|Hx]%elem_of_cons.
      { exists (MkEntry k v). by rewrite !lookup_insert_eq. }
      destruct (w_elem c W x Hx) as (en & E & Mx). exists en.
      rewrite !lookup_insert_ne; [done|by intros E'; congruence|by intros <-].
    + intros k' x [[<- <-]|[Nk Mx]]%lookup_insert_Some.
      { split; [by left|]. exists (MkEntry k v). by rewrite lookup_insert_eq. }
      destruct (w_map c W k' x Mx) as (Hx & en & E & <-). split; [by right|]. exists en.
      rewrite lookup_insert_ne; [done|]. by intros <-.
    + intros x [->|Hx%(w_fresh c W)]%elem_of_cons; lia.
  - unfold keys. change (ll c') with (fresh c :: ll c). csimpl. unfold keyAt at 1. cbn [elems c']. rewrite lookup_insert_eq. csimpl. f_equal.
    by apply omap_eq.
Qed.

Lemma filter_last (l : list Tuple) k : NoDup (l ++ [k]) -> filter (fun x => x <> k) (l ++ [k]) = l.
Proof.
  intros (_ & D & _)%NoDup_app. rewrite filter_app, filter_singleton_False, app_nil_r by naive_solver.
  apply filter_ne_id. intros H. apply (D k H). by left.
Qed.
Lemma RemoveOldest_spec c :
  cache_wf c -> ll c <> [] ->
  cache_wf (RemoveOldest c) /\ keys (RemoveOldest c) = take (length (keys c) - 1) (keys c)
  /\ length (ll c) = S (length (ll (RemoveOldest c))) /\ MaxEntries (RemoveOldest c) = MaxEntries c.
Proof.
  intros W N. unfold RemoveOldest. destruct (exists_last N) as (l & e & El). rewrite El, last_snoc.
  assert (e ∈ ll c) as He by (rewrite El; set_solver). destruct (keyAt_some c e W He) as [k K].
  destruct (removeElement_spec c e k W He K) as (W' & -> & L & M). split; [done|]. split; [|by rewrite <- El].
  pose proof (keys_nodup c W) as ND. unfold keys in *. rewrite El, omap_app in *.
  assert (omap (keyAt c) [e] = [k]) as Ek by (csimpl; by rewrite K). rewrite Ek in *.
  rewrite filter_last by done. rewrite length_app. simpl. by rewrite Nat.add_sub, take_app_length.
Qed.

Lemma Add_spec c k v :
  cache_inv c -> 0 < MaxEntries c ->
  cache_inv (Add c k v) /\ keys (Add c k v) = take (Z.to_nat (MaxEntries c)) (touch k (keys c))
  /\ MaxEntries (Add c k v) = MaxEntries c.
Proof.
  intros [W L] Hm. specialize (L ltac:(lia)). pose proof (length_keys c W) as LK. unfold Add.
  destruct (m c !! k) as [e|] eqn:M.
  - destruct (moveToFront_spec c e k _ W M (alter_key c e v)) as (W' & K' & L').
    split; [split; [done|intros _; by rewrite L']|]. split; [|done]. rewrite K', take_ge; [done|].
    rewrite <- K', length_keys, L' by done. lia.
  - destruct (push_spec c k v W M) as (W' & K').
    assert (k ∉ keys c) as Hk by (intros [e M']%keys_elem; [congruence|done]).
    set (c' := MkCache _ _ _ _ _) in *. cbv zeta. fold c'. rewrite (Len_eq c' W').
    assert (touch k (keys c) = keys c') as T by (unfold touch; by rewrite filter_ne_id).
    assert (length (ll c') = S (length (ll c))) as LL by done.
    change (MaxEntries c') with (MaxEntries c). rewrite (proj2 (Z.eqb_neq _ _)) by lia. cbn [negb andb]. rewrite T.
    destruct (Z.ltb_spec (MaxEntries c) (Z.of_nat (length (ll c')))) as [Lt|Ge].
    + destruct (RemoveOldest_spec c' W') as (W2 & K2 & L2 & M2); [done|].
      split; [split; [done|intros _; rewrite M2; change (MaxEntries c') with (MaxEntries c); lia]|].
      split; [|done]. rewrite K2. f_equal. rewrite length_keys by done. lia.
    + split; [split; [done|done]|]. split; [|done]. rewrite take_ge; [done|]. rewrite length_keys by done. lia.
Qed.
End facts.

(** The cache of the source discharges the interface. *)
#[export,refine] Instance flowtrack_cache (n : nat) : FlowCache (S n) := {
  cache := Cache unit;
  cacheNew := newCache (Z.of_nat (S n));
  cacheAdd c k := Add c k tt;
  cacheGet c k := let '(v, c) := Get c k in (bool_decide (is_Some v), c);
  cacheKeys := keys;
  cacheInv c := cache_inv c /\ MaxEntries c = Z.of_nat (S n) }.
Proof.
  - split; [|done]. split; [|done]. split; [|simpl; lia].
    split; simpl; [lia|constructor|by intros e ?%not_elem_of_nil|done|by intros e ?%not_elem_of_nil].
  - intros c [[W L] E]. split; [by apply keys_nodup|]. rewrite length_keys by done. lia.
  - intros c k [I E]. destruct (Add_spec c k tt I) as (I' & K & M); [lia|].
    split; [split; [done|by rewrite M]|]. by rewrite K, E, Nat2Z.id.
  - intros c k [I E]. destruct (Get_spec c k I) as (I' & S & K).
    assert (MaxEntries (Get c k).2 = MaxEntries c) as M by (unfold Get; by destruct (m c !! k)).
    destruct (Get c k) as [v c']. simpl in *. split; [split; [done|congruence]|]. split; [|done].
    by apply bool_decide_ext.
Defined.

(** ** How long a flow is remembered *)
(** [t] is in the list, and whatever was used after it is in [S]. *)
Definition remembered (t : Tuple) (S : gset Tuple) (l : list Tuple) : Prop :=
  exists l1 l2, l = l1 ++ t :: l2 /\ NoDup l /\ (forall x, x ∈ l1 -> x ∈ S).

Lemma remembered_elem t S l : remembered t S l -> t ∈ l.
Proof. intros (l1 & l2 & -> & _). set_solver. Qed.
Lemma remembered_weaken t S S' l : S ⊆ S' -> remembered t S l -> remembered t S' l.
Proof. intros HS (l1 & l2 & E & N & H). exists l1, l2. split; [done|]. split; [done|]. set_solver. Qed.
Lemma touch_nodup k l : NoDup l -> NoDup (touch k l).
Proof. intros N. constructor; [|by apply NoDup_filter]. rewrite list_elem_of_filter. naive_solver. Qed.
Lemma touch_remembered t k S l : remembered t S l -> remembered t ({[k]} ∪ S) (touch k l).
Proof.
  intros (l1 & l2 & -> & N & H). destruct (decide (k = t)) as [->|Nk].
  - exists [], (filter (fun x => x <> t) (l1 ++ t :: l2)). split; [done|]. split; [by apply touch_nodup|set_solver].
  - exists (k :: filter (fun x => x <> k) l1), (filter (fun x => x <> k) l2).
    split; [unfold touch; by rewrite filter_app, filter_cons_True|]. split; [by apply touch_nodup|].
    intros x [->|[_ Hx]%list_elem_of_filter]%elem_of_cons; [set_solver|]. apply H in Hx. set_solver.
Qed.
(** Cutting the list at [n] forgets [t] only after [n] other flows. *)
Lemma take_remembered t S l n : remembered t S l -> (size S < n)%nat -> remembered t S (take n l).
Proof.
  intros (l1 & l2 & -> & N & H) L.
  assert (length l1 <= size S)%nat as L1.
  { apply NoDup_app in N as (N1 & _). rewrite <- (size_list_to_set (C := gset Tuple) l1) by done.
    apply subseteq_size. intros x. rewrite elem_of_list_to_set. apply H. }
  exists l1, (take (n - Datatypes.S (length l1)) l2). split; [|split; [|done]].
  - rewrite take_app, (take_ge l1) by lia. f_equal.
    destruct (n - length l1)%nat as [|j] eqn:E; [lia|]. simpl. do 2 f_equal. lia.
  - eapply sublist_NoDup; [exact N|apply sublist_take].
Qed.
End FlowTrack.
