(* ===== verification/Filter.v ===== *)
(** * The packet filter (wgengine/filter: filter.go, match.go; filter/filtertype; net/ipset)

    [New] compiles the rules of a network map into per-family lists with membership functions;
    [RunIn] and [RunOut] decide packets, with the flows seen going out as state. The state is
    shared by pointer between a filter and the ones that replace it: filters hold an index into a
    store of caches. Logging is left out: it decides nothing. The [IPSet] arguments of [New] are
    the prefixes [netipx] makes of them; nil is [None]. *)
From S2P Require Import Prelude Netip Bytes Slices IPPacket IPSet FlowTrack.
Import IPPacket FlowTrack.

(** ** filter/filtertype *)
Record PortRange := MkPortRange { First : Z; Last : Z }.
#[export] Instance PortRange_eq_dec : EqDecision PortRange.
Proof. solve_decision. Defined.
Definition AllPorts : PortRange := MkPortRange 0 0xffff.
Definition portContains (pr : PortRange) (p : Z) : bool := (First pr <=? p) && (p <=? Last pr).
Record NetPortRange := MkNetPortRange { Net : Prefix; Ports : PortRange }.
Record CapMatch := MkCapMatch { cm_Dst : Prefix; cm_Cap : string; cm_Values : list string }.
Record Match := MkMatch {
  m_IPProto : list Z;
  Srcs : list Prefix;
  SrcsContains : Addr -> bool;
  SrcCaps : list string;
  Dsts : list NetPortRange;
  Caps : list CapMatch }.

Module Filter.

Definition lruMax : nat := 512.
Inductive Response := Drop | DropSilently | Accept | noVerdict.
#[export] Instance Response_eq_dec : EqDecision Response.
Proof. solve_decision. Defined.
Definition IsDrop (r : Response) : bool := bool_decide (r = Drop) || bool_decide (r = DropSilently).
Inductive DropReason :=
  NoReason | ReasonTooShort | ReasonUnknownProtocol | ReasonMulticast | ReasonLinkLocalUnicast.

Definition CapTestFunc : Type := Addr -> string -> bool.
Definition PacketMatch : Type := Parsed -> bool * string.

(** [Addr.IsMulticast] *)
Definition IsMulticast (x : Addr) : bool :=
  match Unmap x with
  | Addr4 a => Z.land (v4byte a 0) 0xf0 =? 0xe0
  | Addr6 a _ => Z.shiftr a 120 =? 0xff
  | AddrZero => false
  end.

(** ** match.go *)
Definition SliceContains (l : list Z) (x : Z) : bool := existsb (Z.eqb x) l.
Fixpoint hasAnyCap (hasCap : CapTestFunc) (a : Addr) (caps : list string) : bool :=
  match caps with
  | [] => false
  | c :: caps => if hasCap a c then true else hasAnyCap hasCap a caps
  end.
Definition srcMatches (mt : Match) (srcAddr : Addr) (hasCap : option CapTestFunc) : bool :=
  if SrcsContains mt srcAddr then true
  else match hasCap with Some hasCap => hasAnyCap hasCap srcAddr (SrcCaps mt) | None => false end.
(** The inner loop of [match], over the destinations of one rule *)
Fixpoint dstMatches (dsts : list NetPortRange) (dst : AddrPort) : bool :=
  match dsts with
  | [] => false
  | d :: dsts =>
      if negb (Contains (Net d) (ip dst)) then dstMatches dsts dst
      else if negb (portContains (Ports d) (port dst)) then dstMatches dsts dst
      else true
  end.
Fixpoint match_ (ms : list Match) (q : Parsed) (hasCap : option CapTestFunc) : bool :=
  match ms with
  | [] => false
  | mt :: ms =>
      if negb (SliceContains (m_IPProto mt) (IPProto q)) then match_ ms q hasCap
      else if negb (srcMatches mt (ip (Src q)) hasCap) then match_ ms q hasCap
      else if dstMatches (Dsts mt) (Dst q) then true
      else match_ ms q hasCap
  end.
Fixpoint dstIPMatches (dsts : list NetPortRange) (dst : Addr) : bool :=
  match dsts with
  | [] => false
  | d :: dsts => if Contains (Net d) dst then true else dstIPMatches dsts dst
  end.
(** The two loops of [matchIPsOnly] *)
Fixpoint anySrcDst (ms : list Match) (src dst : Addr) : bool :=
  match ms with
  | [] => false
  | mt :: ms =>
      if negb (SrcsContains mt src) then anySrcDst ms src dst
      else if dstIPMatches (Dsts mt) dst then true
      else anySrcDst ms src dst
  end.
Fixpoint anySrcCap (ms : list Match) (src : Addr) (hasCap : CapTestFunc) : bool :=
  match ms with
  | [] => false
  | mt :: ms => if hasAnyCap hasCap src (SrcCaps mt) then true else anySrcCap ms src hasCap
  end.
Definition matchIPsOnly (ms : list Match) (q : Parsed) (hasCap : option CapTestFunc) : bool :=
  if anySrcDst ms (ip (Src q)) (ip (Dst q)) then true
  else match hasCap with Some hasCap => anySrcCap ms (ip (Src q)) hasCap | None => false end.
Fixpoint dstAllPorts (dsts : list NetPortRange) (dst : Addr) : bool :=
  match dsts with
  | [] => false
  | d :: dsts =>
      if negb (bool_decide (Ports d = AllPorts)) then dstAllPorts dsts dst
      else if Contains (Net d) dst then true
      else dstAllPorts dsts dst
  end.
Fixpoint matchProtoAndIPsOnlyIfAllPorts (ms : list Match) (q : Parsed) : bool :=
  match ms with
  | [] => false
  | mt :: ms =>
      if negb (SliceContains (m_IPProto mt) (IPProto q)) then matchProtoAndIPsOnlyIfAllPorts ms q
      else if negb (SrcsContains mt (ip (Src q))) then matchProtoAndIPsOnlyIfAllPorts ms q
      else if dstAllPorts (Dsts mt) (ip (Dst q)) then true
      else matchProtoAndIPsOnlyIfAllPorts ms q
  end.

(** ** The filter *)
Record t := MkFilter {
  local4 : Addr -> bool;
  local6 : Addr -> bool;
  logIPs4 : Addr -> bool;
  logIPs6 : Addr -> bool;
  srcIPHasCap : option CapTestFunc;
  matches4 : list Match;
  matches6 : list Match;
  cap4 : list Match;
  cap6 : list Match;
  state : nat;  (* index into the store of flow caches *)
  shieldsUp : bool;
  IngressAllowHooks : list PacketMatch;
  LinkLocalAllowHooks : list PacketMatch }.

Section filter.
Context `{BartTable} {FC : FlowCache lruMax}.

(** The store that [state] points into *)
Definition store : Type := list cache.
Definition stateOf (f : t) (w : store) : cache := default cacheNew (w !! state f).
Definition setState (f : t) (w : store) (c : cache) : store := <[state f := c]> w.

Definition matchesFamily (ms : list Match) (keep : Addr -> bool) : list Match :=
  omap (fun mt =>
    let srcs := List.filter (fun s => keep (pfxAddr s)) (Srcs mt) in
    let dsts := List.filter (fun d => keep (pfxAddr (Net d))) (Dsts mt) in
    if ((0 <? length srcs)%nat || (0 <? length (SrcCaps mt))%nat) && (0 <? length dsts)%nat
    then Some (MkMatch (m_IPProto mt) srcs (NewContainsIPFunc srcs) (SrcCaps mt) dsts [])
    else None) ms.
Definition capMatchesFunc (ms : list Match) (keep : Addr -> bool) : list Match :=
  omap (fun mt =>
    if (length (Caps mt) =? 0)%nat then None
    else
      let srcs := List.filter (fun s => keep (pfxAddr s)) (Srcs mt) in
      if (0 <? length srcs)%nat
      then Some (MkMatch [] srcs (NewContainsIPFunc srcs) [] [] (Caps mt))
      else None) ms.

(** [slicesx.Partition] of an [IPSet]'s prefixes by family, each side as a membership function *)
Definition familyFuncs (nets : option (list Prefix)) : (Addr -> bool) * (Addr -> bool) :=
  match nets with
  | None => (emptySet, emptySet)
  | Some p =>
      let p4 := List.filter (fun x => Is4 (pfxAddr x)) p in
      let p6 := List.filter (fun x => negb (Is4 (pfxAddr x))) p in
      (NewContainsIPFunc p4, NewContainsIPFunc p6)
  end.

Definition New (ms : list Match) (capTest : option CapTestFunc) (localNets logIPs : option (list Prefix))
    (shareStateWith : option t) (w : store) : t * store :=
  let '(st, w) :=
    match shareStateWith with
    | Some f => (state f, w)
    | None => (length w, w ++ [cacheNew])
    end in
  let '(l4, l6) := familyFuncs localNets in
  let '(g4, g6) := familyFuncs logIPs in
  (MkFilter l4 l6 g4 g6 capTest (matchesFamily ms Is4) (matchesFamily ms Is6)
     (capMatchesFunc ms Is4) (capMatchesFunc ms Is6) st false [] [], w).
Definition NewAllowNone (logIPs : option (list Prefix)) (w : store) : t * store :=
  New [] None (Some []) logIPs None w.
Definition setShieldsUp (f : t) : t :=
  MkFilter (local4 f) (local6 f) (logIPs4 f) (logIPs6 f) (srcIPHasCap f) (matches4 f) (matches6 f)
    (cap4 f) (cap6 f) (state f) true (IngressAllowHooks f) (LinkLocalAllowHooks f).
Definition NewShieldsUpFilter (localNets logIPs : option (list Prefix)) (shareStateWith : option t) (w : store)
  : t * store :=
  let shareStateWith :=
    match shareStateWith with
    | Some f => if negb (shieldsUp f) then None else Some f
    | None => None
    end in
  let '(f, w) := New [] None localNets logIPs shareStateWith w in
  (setShieldsUp f, w).

Definition gcpDNSAddr : Addr := Addr4 0xa9fea9fe.
Fixpoint anyHook (hooks : list PacketMatch) (q : Parsed) : option string :=
  match hooks with
  | [] => None
  | pm :: hooks => let '(mt, why) := pm q in if mt : bool then Some why else anyHook hooks q
  end.
Definition isAllowedLinkLocal (f : t) (q : Parsed) : bool :=
  if bool_decide (ip (Dst q) = gcpDNSAddr) then true
  else match anyHook (LinkLocalAllowHooks f) q with Some _ => true | None => false end.
Definition pre (f : t) (q : Parsed) : Response * DropReason :=
  if (length (b q) =? 0)%nat then (Accept, NoReason)
  else if (length (b q) <? 20)%nat then (Drop, ReasonTooShort)
  else if IPProto q =? ipproto.Unknown then (Drop, ReasonUnknownProtocol)
  else if IsMulticast (ip (Dst q)) then (Drop, ReasonMulticast)
  else if IsLinkLocalUnicast (ip (Dst q)) && negb (isAllowedLinkLocal f q) then (Drop, ReasonLinkLocalUnicast)
  else if IPProto q =? ipproto.Fragment then (Accept, NoReason)
  else (noVerdict, NoReason).

Definition unknownProtoString (proto : Z) : string := "unknown-protocol-" +:+ decimal proto.
Definition runIn4 (f : t) (q : Parsed) (w : store) : Response * string * store :=
  if negb (local4 f (ip (Dst q))) then (noVerdict, "destination not allowed", w) else
  let noRules := (noVerdict, "no rules matched", w) in
  let proto := IPProto q in
  if proto =? ipproto.ICMPv4 then
    if IsEchoResponse q || IsError q then (Accept, "icmp response ok", w)
    else if matchIPsOnly (matches4 f) q (srcIPHasCap f) then (Accept, "icmp ok", w)
    else noRules
  else if proto =? ipproto.TCP then
    if negb (IsTCPSyn q) then (Accept, "tcp non-syn", w)
    else if match_ (matches4 f) q (srcIPHasCap f) then (Accept, "tcp ok", w)
    else noRules
  else if (proto =? ipproto.UDP) || (proto =? ipproto.SCTP) then
    let tu := MakeTuple proto (Src q) (Dst q) in
    let '(ok, c) := cacheGet (stateOf f w) tu in
    let w := setState f w c in
    if ok : bool then (Accept, "cached", w)
    else if match_ (matches4 f) q (srcIPHasCap f) then (Accept, "ok", w)
    else (noVerdict, "no rules matched", w)
  else if proto =? ipproto.TSMP then (Accept, "tsmp ok", w)
  else if matchProtoAndIPsOnlyIfAllPorts (matches4 f) q then (Accept, "other-portless ok", w)
  else (noVerdict, unknownProtoString proto, w).
Definition runIn6 (f : t) (q : Parsed) (w : store) : Response * string * store :=
  if negb (local6 f (ip (Dst q))) then (noVerdict, "destination not allowed", w) else
  let noRules := (noVerdict, "no rules matched", w) in
  let proto := IPProto q in
  if proto =? ipproto.ICMPv6 then
    if IsEchoResponse q || IsError q then (Accept, "icmp response ok", w)
    else if matchIPsOnly (matches6 f) q (srcIPHasCap f) then (Accept, "icmp ok", w)
    else noRules
  else if proto =? ipproto.TCP then
    if (proto =? ipproto.TCP) && negb (IsTCPSyn q) then (Accept, "tcp non-syn", w)
    else if match_ (matches6 f) q (srcIPHasCap f) then (Accept, "tcp ok", w)
    else noRules
  else if (proto =? ipproto.UDP) || (proto =? ipproto.SCTP) then
    let tu := MakeTuple proto (Src q) (Dst q) in
    let '(ok, c) := cacheGet (stateOf f w) tu in
    let w := setState f w c in
    if ok : bool then (Accept, "cached", w)
    else if match_ (matches6 f) q (srcIPHasCap f) then (Accept, "ok", w)
    else (noVerdict, "no rules matched", w)
  else if proto =? ipproto.TSMP then (Accept, "tsmp ok", w)
  else if matchProtoAndIPsOnlyIfAllPorts (matches6 f) q then (Accept, "other-portless ok", w)
  else (noVerdict, unknownProtoString proto, w).

Definition RunIn (f : t) (q : Parsed) (w : store) : Response * store :=
  let '(r, _) := pre f q in
  if bool_decide (r = Accept) || bool_decide (r = Drop) then (r, w) else
  let '(r, _, w) :=
    if IPVersion q =? 4 then runIn4 f q w
    else if IPVersion q =? 6 then runIn6 f q w
    else (Drop, "not-ip", w) in
  if bool_decide (r = noVerdict) then
    match anyHook (IngressAllowHooks f) q with Some _ => (Accept, w) | None => (Drop, w) end
  else (r, w).

Definition runOut (f : t) (q : Parsed) (w : store) : Response * string * store :=
  let proto := IPProto q in
  let w :=
    if (proto =? ipproto.UDP) || (proto =? ipproto.SCTP) then
      setState f w (cacheAdd (stateOf f w) (MakeTuple proto (Dst q) (Src q)))
    else w in
  (Accept, "ok out", w).
Definition RunOut (f : t) (q : Parsed) (w : store) : Response * DropReason * store :=
  let '(r, reason) := pre f q in
  if bool_decide (r = Accept) || bool_decide (r = Drop) then (r, reason, w) else
  let '(r, _, w) := runOut f q w in (r, NoReason, w).

(** [Check]: the verdict on a packet made up for the purpose; [None] is the panic on an invalid
    source address. *)
Definition dummyPacket : bytes := replicate 20 xff.
Definition Check_ (f : t) (srcIP dstIP : Addr) (dstPort proto : Z) (w : store) : option (Response * store) :=
  pkt ← Decode zeroParsed dummyPacket;
  if (Is4 srcIP && Is6 dstIP) || (Is6 srcIP && Is4 srcIP) then Some (Drop, w) else
  v ← (if Is4 srcIP then Some 4 else if Is6 srcIP then Some 6 else None);
  let pkt := set_IPVersion pkt v in
  let pkt := set_Src pkt (MkAddrPort srcIP 0) in
  let pkt := set_Dst pkt (MkAddrPort dstIP dstPort) in
  let pkt := set_IPProto pkt proto in
  let pkt := if proto =? ipproto.TCP then set_TCPFlags pkt TCPSyn else pkt in
  Some (RunIn f pkt w).
Definition CheckTCP (f : t) (srcIP dstIP : Addr) (dstPort : Z) (w : store) : option (Response * store) :=
  Check_ f srcIP dstIP dstPort ipproto.TCP w.

(** The capabilities a source has when talking to a destination *)
Definition addCap (dstIP : Addr) (out : gmap string (list string)) (cm : CapMatch) : gmap string (list string) :=
  if negb (bool_decide (cm_Cap cm = EmptyString)) && Contains (cm_Dst cm) dstIP then
    match out !! cm_Cap cm with
    | None => <[cm_Cap cm := cm_Values cm]> out
    | Some prev => <[cm_Cap cm := prev ++ cm_Values cm]> out
    end
  else out.
Definition CapsWithValues (f : t) (srcIP dstIP : Addr) : gmap string (list string) :=
  let mm := if Is4 srcIP then cap4 f else if Is6 srcIP then cap6 f else [] in
  foldl (fun out mt => if negb (SrcsContains mt srcIP) then out else foldl (addCap dstIP) out (Caps mt)) ∅ mm.

(** [loggingAllowed] and [omitDropLogging] *)
Definition loggingAllowed (f : t) (p : Parsed) : bool :=
  if IPVersion p =? 4 then logIPs4 f (ip (Src p)) && logIPs4 f (ip (Dst p))
  else if IPVersion p =? 6 then logIPs6 f (ip (Src p)) && logIPs6 f (ip (Dst p))
  else false.
Definition omitDropLogging (p : Parsed) (dirOut : bool) : bool :=
  if negb dirOut then false
  else IsMulticast (ip (Dst p))
       || (IsLinkLocalUnicast (ip (Dst p)) && negb (bool_decide (ip (Dst p) = gcpDNSAddr)))
       || (IPProto p =? ipproto.IGMP).
End filter.
End Filter.
