(* ===== verification/FilterProps.v ===== *)
(** * Theorems on the packet filter

    The compiled filter decides as the rules say; outbound flows open the way back for as long as
    fewer than [lruMax] other flows are used, and nothing else does. *)
From S2P Require Import Prelude Netip Bytes Slices IPPacket IPPacketProps IPSet FlowTrack Filter.
Import IPPacket FlowTrack Filter.

(** ** What the rules say *)
Section spec.
Variable ms : list Match.
Variable hasCap : option CapTestFunc.

(** The source of a rule: one of its prefixes, or a capability of the source *)
Definition by_prefix (mt : Match) (a : Addr) : Prop := exists p, p ∈ Srcs mt /\ Contains p a = true.
Definition by_cap (mt : Match) (a : Addr) : Prop :=
  exists h c, hasCap = Some h /\ c ∈ SrcCaps mt /\ h a c = true.
Definition to_port (mt : Match) (p : AddrPort) : Prop :=
  exists d, d ∈ Dsts mt /\ Contains (Net d) (ip p) = true /\ First (Ports d) <= port p <= Last (Ports d).
Definition to_addr (mt : Match) (a : Addr) : Prop := exists d, d ∈ Dsts mt /\ Contains (Net d) a = true.
Definition to_all_ports (mt : Match) (a : Addr) : Prop :=
  exists d, d ∈ Dsts mt /\ Contains (Net d) a = true /\ Ports d = AllPorts.
Definition to_family (mt : Match) (keep : Addr -> bool) : Prop :=
  exists d, d ∈ Dsts mt /\ keep (pfxAddr (Net d)) = true.

Definition port_rule (q : Parsed) : Prop :=
  exists mt, mt ∈ ms /\ IPProto q ∈ m_IPProto mt
    /\ (by_prefix mt (ip (Src q)) \/ by_cap mt (ip (Src q))) /\ to_port mt (Dst q).
(** A source admitted by a capability may send ICMP to any local address, once the rule has a
    destination of the packet's family at all. *)
Definition icmp_rule (keep : Addr -> bool) (q : Parsed) : Prop :=
  exists mt, mt ∈ ms
    /\ (by_prefix mt (ip (Src q)) /\ to_addr mt (ip (Dst q)) \/ by_cap mt (ip (Src q)) /\ to_family mt keep).
Definition portless_rule (q : Parsed) : Prop :=
  exists mt, mt ∈ ms /\ IPProto q ∈ m_IPProto mt /\ by_prefix mt (ip (Src q)) /\ to_all_ports mt (ip (Dst q)).
End spec.

(** ** The loops of match.go *)
Lemma SliceContains_spec l x : SliceContains l x = true <-> x ∈ l.
Proof.
  unfold SliceContains. rewrite existsb_exists, list_elem_of_In. split.
  - intros (y & Hy & E%Z.eqb_eq). by subst.
  - intros Hx. exists x. split; [done|apply Z.eqb_refl].
Qed.
Lemma exists_cons {A} (P : A -> Prop) x l : (exists y, y ∈ x :: l /\ P y) <-> P x \/ exists y, y ∈ l /\ P y.
Proof.
  split.
  - intros (y & [->|Hy]%elem_of_cons & Py); eauto.
  - intros [Px|(y & Hy & Py)]; [exists x|exists y]; (split; [set_solver|done]).
Qed.
Lemma exists_nil {A} (P : A -> Prop) : (exists y, y ∈ @nil A /\ P y) <-> False.
Proof. split; [intros (y & Hy%not_elem_of_nil & _); done|done]. Qed.
(** A loop with [continue] and [return true] is an existential. *)
Ltac loop IH :=
  intros; simpl; rewrite ?exists_cons, ?exists_nil;
  repeat (match goal with |- context [if ?c then _ else _] => destruct c eqn:? end; simpl; bool_props);
  rewrite ?IH.

Lemma hasAnyCap_spec h a caps : hasAnyCap h a caps = true <-> exists c, c ∈ caps /\ h a c = true.
Proof. induction caps as [|c l IH]; loop IH; [naive_solver|tauto|naive_solver]. Qed.
Lemma dstMatches_spec dsts p :
  dstMatches dsts p = true
  <-> exists d, d ∈ dsts /\ (Contains (Net d) (ip p) = true /\ First (Ports d) <= port p <= Last (Ports d)).
Proof.
  induction dsts as [|d l IH]; [loop I; naive_solver|]. simpl. rewrite exists_cons.
  destruct (Contains (Net d) (ip p)) eqn:E; simpl; [|rewrite IH; split; [by right|by intros [[]|]]].
  unfold portContains. destruct ((First (Ports d) <=? port p) && (port p <=? Last (Ports d))) eqn:P; simpl.
  - bool_props. naive_solver.
  - rewrite IH. apply andb_false_iff in P as [P|P]; bool_props; split; [by right|intros [?|?]; [lia|done]|by right|intros [?|?]; [lia|done]].
Qed.
Lemma dstIPMatches_spec dsts a : dstIPMatches dsts a = true <-> exists d, d ∈ dsts /\ Contains (Net d) a = true.
Proof. induction dsts as [|d l IH]; loop IH; [naive_solver|tauto|naive_solver]. Qed.
Lemma dstAllPorts_spec dsts a :
  dstAllPorts dsts a = true <-> exists d, d ∈ dsts /\ (Contains (Net d) a = true /\ Ports d = AllPorts).
Proof. induction dsts as [|d l IH]; loop IH; naive_solver. Qed.

Lemma match_loop l q cap :
  match_ l q cap = true <->
  exists mt, mt ∈ l /\ (IPProto q ∈ m_IPProto mt /\ srcMatches mt (ip (Src q)) cap = true
    /\ dstMatches (Dsts mt) (Dst q) = true).
Proof.
  induction l as [|mt l IH]; [loop I; naive_solver|]. simpl. rewrite exists_cons, <- SliceContains_spec, <- IH.
  destruct (SliceContains _ _), (srcMatches _ _ _), (dstMatches _ _); simpl; naive_solver.
Qed.
Lemma anySrcDst_loop l s d :
  anySrcDst l s d = true <-> exists mt, mt ∈ l /\ (SrcsContains mt s = true /\ dstIPMatches (Dsts mt) d = true).
Proof.
  induction l as [|mt l IH]; [loop I; naive_solver|]. simpl. rewrite exists_cons, <- IH.
  destruct (SrcsContains _ _), (dstIPMatches _ _); simpl; naive_solver.
Qed.
Lemma anySrcCap_loop l s h :
  anySrcCap l s h = true <-> exists mt, mt ∈ l /\ hasAnyCap h s (SrcCaps mt) = true.
Proof.
  induction l as [|mt l IH]; [loop I; naive_solver|]. simpl. rewrite exists_cons, <- IH.
  destruct (hasAnyCap _ _ _); simpl; naive_solver.
Qed.
Lemma portless_loop l q :
  matchProtoAndIPsOnlyIfAllPorts l q = true <->
  exists mt, mt ∈ l /\ (IPProto q ∈ m_IPProto mt /\ SrcsContains mt (ip (Src q)) = true
    /\ dstAllPorts (Dsts mt) (ip (Dst q)) = true).
Proof.
  induction l as [|mt l IH]; [loop I; naive_solver|]. simpl. rewrite exists_cons, <- SliceContains_spec, <- IH.
  destruct (SliceContains _ _), (SrcsContains _ _), (dstAllPorts _ _); simpl; naive_solver.
Qed.

(** ** Compilation *)
Section compiled.
Context `{BartTable}.
Variable ms : list Match.
Hypothesis ms_ok : Forall (fun mt => Forall prefix_ok (Srcs mt)) ms.

(** [keep] is the family of [a]. *)
Definition family (keep : Addr -> bool) (a : Addr) : Prop :=
  hasZone a = false /\ forall p, Contains p a = true -> keep (pfxAddr p) = true.
Lemma family4 a : family Is4 (Addr4 a).
Proof. split; [done|]. intros [[|x|x z] bits]; unfold Contains; simpl; [|done|]; by destruct (_ || _). Qed.
Lemma family6 a : family Is6 (Addr6 a EmptyString).
Proof. split; [done|]. intros [[|x|x z] bits]; unfold Contains; simpl; [| |done]; by destruct (_ || _). Qed.

Definition compile (keep : Addr -> bool) (mt : Match) : Match :=
  let srcs := List.filter (fun s => keep (pfxAddr s)) (Srcs mt) in
  MkMatch (m_IPProto mt) srcs (NewContainsIPFunc srcs) (SrcCaps mt)
    (List.filter (fun d => keep (pfxAddr (Net d))) (Dsts mt)) [].
Lemma compiled_dsts keep mt d : d ∈ Dsts (compile keep mt) <-> d ∈ Dsts mt /\ keep (pfxAddr (Net d)) = true.
Proof. simpl. rewrite !list_elem_of_In. apply filter_In. Qed.
Lemma compiled_srcs keep mt a :
  mt ∈ ms -> family keep a -> SrcsContains (compile keep mt) a = true <-> by_prefix mt a.
Proof.
  intros Hm [Z F]. cbn [compile SrcsContains]. rewrite NewContainsIPFunc_eq; [|..|done].
  - rewrite existsb_exists. unfold by_prefix. setoid_rewrite <- list_elem_of_In.
    setoid_rewrite list_elem_of_In at 1. setoid_rewrite filter_In. setoid_rewrite <- list_elem_of_In.
    split; [naive_solver|]. intros (p & Hp & C). exists p. split; [|done]. split; [done|by apply F].
  - pose proof (proj1 (Forall_forall _ _) ms_ok mt Hm) as Hs. apply Forall_forall.
    intros p Hp%list_elem_of_In%filter_In. destruct Hp as [Hp%list_elem_of_In _].
    exact (proj1 (Forall_forall _ _) Hs p Hp).
Qed.
Lemma matchesFamily_elem keep mt' :
  mt' ∈ matchesFamily ms keep <->
  exists mt, mt ∈ ms /\ mt' = compile keep mt /\ (Srcs mt' <> [] \/ SrcCaps mt <> []) /\ Dsts mt' <> [].
Proof.
  unfold matchesFamily. rewrite list_elem_of_omap.
  assert (forall A (l : list A), (0 <? length l)%nat = true <-> l <> []) as NE.
  { intros A [|]; simpl; split; try done; intros; discriminate. }
  split; intros (mt & Hm & E); exists mt; (split; [done|]).
  - destruct (_ && _) eqn:C; [|done]. apply andb_prop in C as [C D%NE]. injection E as <-. split; [done|].
    split; [|done]. apply orb_prop in C as [C%NE|C%NE]; auto.
  - destruct E as (-> & S & D). cbn [compile Srcs Dsts] in *. rewrite (proj2 (NE _ _) D), andb_true_r.
    destruct S as [S|S]; rewrite (proj2 (NE _ _) S), ?orb_true_r; done.
Qed.
Lemma exists_family keep (P : Match -> Prop) :
  (forall mt, P (compile keep mt) -> mt ∈ ms ->
     (Srcs (compile keep mt) <> [] \/ SrcCaps mt <> []) /\ Dsts (compile keep mt) <> []) ->
  (exists mt', mt' ∈ matchesFamily ms keep /\ P mt') <-> exists mt, mt ∈ ms /\ P (compile keep mt).
Proof.
  intros NE. split.
  - intros (mt' & (mt & Hm & -> & _)%matchesFamily_elem & HP). eauto.
  - intros (mt & Hm & HP). exists (compile keep mt). split; [|done]. apply matchesFamily_elem.
    exists mt. destruct (NE mt HP Hm). auto.
Qed.
Lemma compiled_src keep mt a cap :
  mt ∈ ms -> family keep a ->
  srcMatches (compile keep mt) a cap = true <-> by_prefix mt a \/ by_cap cap mt a.
Proof.
  intros Hm F. unfold srcMatches. rewrite <- (compiled_srcs keep mt a Hm F). unfold by_cap.
  destruct (SrcsContains _ a); [naive_solver|]. destruct cap as [h|]; [|naive_solver].
  rewrite hasAnyCap_spec. cbn [compile SrcCaps]. naive_solver.
Qed.
Lemma compiled_nonempty keep mt a :
  family keep a -> by_prefix mt a -> Srcs (compile keep mt) <> [].
Proof.
  intros [_ F] (p & Hp & C) E. apply (not_elem_of_nil p). rewrite <- E. cbn [compile Srcs].
  apply list_elem_of_In, filter_In. split; [by apply list_elem_of_In|by apply F].
Qed.
Lemma elem_nonempty {A} (x : A) l : x ∈ l -> l <> [].
Proof. intros Hx ->. by apply not_elem_of_nil in Hx. Qed.
Lemma compiled_to keep mt a (P : NetPortRange -> Prop) :
  family keep a ->
  (exists d, d ∈ Dsts (compile keep mt) /\ (Contains (Net d) a = true /\ P d))
  <-> exists d, d ∈ Dsts mt /\ Contains (Net d) a = true /\ P d.
Proof.
  intros [_ F]. setoid_rewrite compiled_dsts. split; [naive_solver|]. intros (d & Hd & C & HP).
  exists d. split; [|done]. split; [done|by apply F].
Qed.

Lemma match_rules keep q cap :
  family keep (ip (Src q)) -> family keep (ip (Dst q)) ->
  match_ (matchesFamily ms keep) q cap = true <-> port_rule ms cap q.
Proof.
  intros Fs Fd. rewrite match_loop. unfold port_rule, to_port. rewrite exists_family.
  - split; intros (mt & Hm & P & S & D); exists mt; (split; [done|]); (split; [done|]).
    + rewrite compiled_src in S by done. rewrite dstMatches_spec, compiled_to in D by done. done.
    + rewrite compiled_src, dstMatches_spec, compiled_to by done. done.
  - intros mt (_ & S & (d & Hd & _)%dstMatches_spec) Hm. rewrite compiled_src in S by done.
    split; [|eapply elem_nonempty; eassumption].
    destruct S as [S|(h & c & _ & Hc & _)]; [left; exact (compiled_nonempty _ _ _ Fs S)|right; eapply elem_nonempty; eassumption].
Qed.
Lemma icmp_rules keep q cap :
  family keep (ip (Src q)) -> family keep (ip (Dst q)) ->
  matchIPsOnly (matchesFamily ms keep) q cap = true <-> icmp_rule ms cap keep q.
Proof.
  intros Fs Fd. unfold matchIPsOnly, icmp_rule.
  assert (anySrcDst (matchesFamily ms keep) (ip (Src q)) (ip (Dst q)) = true <->
    exists mt, mt ∈ ms /\ (by_prefix mt (ip (Src q)) /\ to_addr mt (ip (Dst q)))) as A.
  { rewrite anySrcDst_loop, exists_family.
    - split; intros (mt & Hm & S & D); exists mt; (split; [done|]).
      + rewrite compiled_srcs in S by done. apply dstIPMatches_spec in D as (d & Hd & C).
        apply compiled_dsts in Hd as [Hd _]. unfold to_addr. eauto.
      + rewrite compiled_srcs by done. split; [done|]. apply dstIPMatches_spec. destruct D as (d & Hd & C).
        exists d. split; [|done]. apply compiled_dsts. split; [done|by apply Fd].
    - intros mt (S & (d & Hd & _)%dstIPMatches_spec) Hm. rewrite compiled_srcs in S by done.
      split; [left; exact (compiled_nonempty _ _ _ Fs S)|eapply elem_nonempty; eassumption]. }
  assert (forall h, cap = Some h -> anySrcCap (matchesFamily ms keep) (ip (Src q)) h = true <->
    exists mt, mt ∈ ms /\ (by_cap cap mt (ip (Src q)) /\ to_family mt keep)) as B.
  { intros h ->. rewrite anySrcCap_loop. split.
    - intros (mt' & (mt & Hm & -> & _ & D)%matchesFamily_elem & (c & Hc & C)%hasAnyCap_spec).
      exists mt. split; [done|]. split; [exists h, c; done|].
      destruct (Dsts (compile keep mt)) as [|d l] eqn:E; [done|]. exists d. apply compiled_dsts. rewrite E. by left.
    - intros (mt & Hm & (h' & c & [= <-] & Hc & C) & (d & Hd & K)). exists (compile keep mt).
      split; [|apply hasAnyCap_spec; by exists c]. apply matchesFamily_elem. exists mt. split; [done|]. split; [done|].
      split; [right; eapply elem_nonempty; eassumption|]. apply (elem_nonempty d). by apply compiled_dsts. }
  destruct (anySrcDst _ _ _).
  { split; [intros _|done]. destruct (proj1 A eq_refl) as (mt & Hm & P). eauto. }
  assert (~ exists mt, mt ∈ ms /\ (by_prefix mt (ip (Src q)) /\ to_addr mt (ip (Dst q)))) as NA
    by (intros N%A; done).
  destruct cap as [h|].
  - rewrite (B h eq_refl). clear A B. split; [naive_solver|]. intros (mt & Hm & [P|P]); [|eauto]. exfalso. apply NA. eauto.
  - split; [done|]. intros (mt & Hm & [P|((h & c & ? & _) & _)]); [|done]. exfalso. apply NA. eauto.
Qed.
Lemma portless_rules keep q :
  family keep (ip (Src q)) -> family keep (ip (Dst q)) ->
  matchProtoAndIPsOnlyIfAllPorts (matchesFamily ms keep) q = true <-> portless_rule ms q.
Proof.
  intros Fs Fd. rewrite portless_loop. unfold portless_rule, to_all_ports. rewrite exists_family.
  - split; intros (mt & Hm & P & S & D); exists mt; (split; [done|]); (split; [done|]).
    + rewrite compiled_srcs in S by done. rewrite dstAllPorts_spec, compiled_to in D by done. done.
    + rewrite compiled_srcs, dstAllPorts_spec, compiled_to by done. done.
  - intros mt (_ & S & (d & Hd & _)%dstAllPorts_spec) Hm. rewrite compiled_srcs in S by done.
    split; [left; exact (compiled_nonempty _ _ _ Fs S)|eapply elem_nonempty; eassumption].
Qed.
End compiled.

(** ** The inbound decision *)
Definition icmpProto (q : Parsed) : Z := if IPVersion q =? 4 then ipproto.ICMPv4 else ipproto.ICMPv6.
Definition famOf (q : Parsed) : Addr -> bool := if IPVersion q =? 4 then Is4 else Is6.
Definition isFlow (q : Parsed) : bool := (IPProto q =? ipproto.UDP) || (IPProto q =? ipproto.SCTP).
Definition inTuple (q : Parsed) : Tuple := MakeTuple (IPProto q) (Src q) (Dst q).
Definition outTuple (q : Parsed) : Tuple := MakeTuple (IPProto q) (Dst q) (Src q).
Definition hooked (hooks : list PacketMatch) (q : Parsed) : Prop := exists h, h ∈ hooks /\ (h q).1 = true.

(** What a packet for a local address has to satisfy, [known] being the flows that may answer *)
Definition permitted (ms : list Match) (cap : option CapTestFunc) (known : list Tuple) (q : Parsed) : Prop :=
  if IPProto q =? icmpProto q then
    IsEchoResponse q = true \/ IsError q = true \/ icmp_rule ms cap (famOf q) q
  else if IPProto q =? ipproto.TCP then IsTCPSyn q = false \/ port_rule ms cap q
  else if isFlow q then inTuple q ∈ known \/ port_rule ms cap q
  else if IPProto q =? ipproto.TSMP then True
  else portless_rule ms q.
(** The tests that do not depend on the direction *)
Definition passable (f : t) (q : Parsed) : Prop :=
  (20 <= length (b q))%nat /\ IPProto q <> ipproto.Unknown /\ IsMulticast (ip (Dst q)) = false
  /\ (IsLinkLocalUnicast (ip (Dst q)) = true -> ip (Dst q) = gcpDNSAddr \/ hooked (LinkLocalAllowHooks f) q).
Definition admits (f : t) (ms : list Match) (locals : list Prefix) (known : list Tuple) (q : Parsed) : Prop :=
  b q = []
  \/ passable f q
     /\ (IPProto q = ipproto.Fragment
         \/ (exists p, p ∈ locals /\ Contains p (ip (Dst q)) = true) /\ permitted ms (srcIPHasCap f) known q
         \/ hooked (IngressAllowHooks f) q).

Lemma anyHook_spec hooks q : (exists why, anyHook hooks q = Some why) <-> hooked hooks q.
Proof.
  unfold hooked. induction hooks as [|h l IH]; simpl; rewrite ?exists_cons, ?exists_nil; [naive_solver|].
  destruct (h q) as [[] why]; simpl; [naive_solver|]. rewrite IH. naive_solver.
Qed.
Lemma anyHook_none hooks q : anyHook hooks q = None <-> ~ hooked hooks q.
Proof. rewrite <- anyHook_spec. destruct (anyHook hooks q); naive_solver. Qed.

#[export] Instance hooked_dec hooks q : Decision (hooked hooks q).
Proof.
  destruct (anyHook hooks q) eqn:E; [left; apply anyHook_spec; eauto|right; by apply anyHook_none].
Defined.
#[export] Instance passable_dec f q : Decision (passable f q).
Proof. unfold passable. apply _. Defined.

Lemma pre_spec f q :
  (b q = [] -> (pre f q).1 = Accept)
  /\ (b q <> [] -> ~ passable f q -> (pre f q).1 = Drop)
  /\ (passable f q -> (pre f q).1 = if IPProto q =? ipproto.Fragment then Accept else noVerdict).
Proof.
  unfold pre, passable. split; [by intros ->|].
  assert (b q <> [] -> (length (b q) =? 0)%nat = false) as NZ by (destruct (b q); done).
  assert (isAllowedLinkLocal f q = true <-> ip (Dst q) = gcpDNSAddr \/ hooked (LinkLocalAllowHooks f) q) as LL.
  { unfold isAllowedLinkLocal. rewrite <- anyHook_spec. case_bool_decide as E; [naive_solver|].
    destruct (anyHook (LinkLocalAllowHooks f) q); naive_solver. }
  split.
  - intros N NP. rewrite (NZ N). destruct (Nat.ltb_spec (length (b q)) 20); [done|].
    destruct (Z.eqb_spec (IPProto q) ipproto.Unknown); [done|].
    destruct (IsMulticast _) eqn:M; [done|]. destruct (IsLinkLocalUnicast _) eqn:L; simpl.
    + destruct (isAllowedLinkLocal f q) eqn:A; [|done]. exfalso. apply NP. naive_solver.
    + exfalso. apply NP. naive_solver.
  - intros (Ln & U & M & L). rewrite NZ by (intros E; rewrite E in Ln; simpl in Ln; lia).
    rewrite (proj2 (Nat.ltb_ge _ _)), (proj2 (Z.eqb_neq _ _) U), M by done.
    destruct (IsLinkLocalUnicast _); simpl; [rewrite (proj2 LL) by by apply L; simpl|]; by destruct (_ =? _).
Qed.

(** A packet of known protocol has both addresses of its version's family. *)
Record familied (q : Parsed) : Prop := MkFamilied {
  fa_version : IPVersion q = 0 \/ IPVersion q = 4 \/ IPVersion q = 6;
  fa_zero : IPVersion q = 0 -> IPProto q = ipproto.Unknown;
  fa_4 : IPProto q <> ipproto.Unknown -> IPVersion q = 4 ->
    exists s d, ip (Src q) = Addr4 s /\ ip (Dst q) = Addr4 d;
  fa_6 : IPProto q <> ipproto.Unknown -> IPVersion q = 6 ->
    exists s d, ip (Src q) = Addr6 s EmptyString /\ ip (Dst q) = Addr6 d EmptyString }.
Lemma decoded_familied q : decoded q -> familied q.
Proof.
  intros D. split; [apply D|apply D| |]; intros U V.
  - destruct (d_family4 q D U V) as (s & d & ? & ? & _). eauto.
  - destruct (d_family6 q D U V) as (s & d & ? & ? & _). eauto.
Qed.

Section decision.
Context `{BartTable} {FC : FlowCache lruMax}.
Variables (ms : list Match) (locals : list Prefix).
Hypothesis ms_ok : Forall (fun mt => Forall prefix_ok (Srcs mt)) ms.
Hypothesis locals_ok : Forall prefix_ok locals.

(** The parts of a filter that [New] makes of the rules *)
Definition compiled_from (f : t) : Prop :=
  (local4 f, local6 f) = familyFuncs (Some locals)
  /\ matches4 f = matchesFamily ms Is4 /\ matches6 f = matchesFamily ms Is6.

Lemma local_spec keep a :
  family keep a ->
  NewContainsIPFunc (List.filter (fun x => keep (pfxAddr x)) locals) a = true
  <-> exists p, p ∈ locals /\ Contains p a = true.
Proof.
  intros [Zn F]. rewrite NewContainsIPFunc_eq; [| |done].
  - rewrite existsb_exists. setoid_rewrite filter_In. setoid_rewrite <- list_elem_of_In. naive_solver.
  - apply Forall_forall. intros p Hp%list_elem_of_In%filter_In. destruct Hp as [Hp%list_elem_of_In _].
    exact (proj1 (Forall_forall _ _) locals_ok p Hp).
Qed.

(** [runIn4] and [runIn6] are one procedure. *)
Definition runInFam (loc : Addr -> bool) (l : list Match) (icmp : Z) (f : t) (q : Parsed) (w : store)
  : Response * string * store :=
  if negb (loc (ip (Dst q))) then (noVerdict, "destination not allowed", w) else
  let noRules := (noVerdict, "no rules matched", w) in
  let proto := IPProto q in
  if proto =? icmp then
    if IsEchoResponse q || IsError q then (Accept, "icmp response ok", w)
    else if matchIPsOnly l q (srcIPHasCap f) then (Accept, "icmp ok", w)
    else noRules
  else if proto =? ipproto.TCP then
    if negb (IsTCPSyn q) then (Accept, "tcp non-syn", w)
    else if match_ l q (srcIPHasCap f) then (Accept, "tcp ok", w)
    else noRules
  else if isFlow q then
    let '(ok, c) := cacheGet (stateOf f w) (inTuple q) in
    let w := setState f w c in
    if ok : bool then (Accept, "cached", w)
    else if match_ l q (srcIPHasCap f) then (Accept, "ok", w)
    else (noVerdict, "no rules matched", w)
  else if proto =? ipproto.TSMP then (Accept, "tsmp ok", w)
  else if matchProtoAndIPsOnlyIfAllPorts l q then (Accept, "other-portless ok", w)
  else (noVerdict, unknownProtoString proto, w).
Lemma runIn4_fam f q w : runIn4 f q w = runInFam (local4 f) (matches4 f) ipproto.ICMPv4 f q w.
Proof. done. Qed.
Lemma runIn6_fam f q w : runIn6 f q w = runInFam (local6 f) (matches6 f) ipproto.ICMPv6 f q w.
Proof.
  unfold runIn6, runInFam. destruct (negb _); [done|]. destruct (_ =? ipproto.ICMPv6); [done|].
  destruct (_ =? ipproto.TCP); done.
Qed.
(** The cache after a packet *)
Definition afterGet (f : t) (q : Parsed) (w : store) : store := setState f w (cacheGet (stateOf f w) (inTuple q)).2.

Lemma runInFam_spec keep f q w :
  cacheInv (stateOf f w) -> family keep (ip (Src q)) -> family keep (ip (Dst q)) -> keep = famOf q ->
  forall loc, (loc (ip (Dst q)) = true <-> exists p, p ∈ locals /\ Contains p (ip (Dst q)) = true) ->
  let '(r, _, w') := runInFam loc (matchesFamily ms keep) (icmpProto q) f q w in
  (r = Accept \/ r = noVerdict)
  /\ (r = Accept <-> (exists p, p ∈ locals /\ Contains p (ip (Dst q)) = true)
        /\ permitted ms (srcIPHasCap f) (cacheKeys (stateOf f w)) q)
  /\ w' = (if loc (ip (Dst q)) && negb (IPProto q =? icmpProto q) && isFlow q then afterGet f q w else w).
Proof.
  intros I Fs Fd Ek loc Hl. unfold runInFam, permitted. set (L := exists p, _) in *. destruct (loc (ip (Dst q))); simpl.
  2: { split; [by right|]. split; [|done]. split; [done|]. by intros [?%Hl _]. }
  assert L as HL by by apply Hl. clearbody L.
  destruct (IPProto q =? icmpProto q) eqn:Ei.
  { destruct (IsEchoResponse q), (IsError q); simpl; try (split; [by left|split; [|done]]; naive_solver).
    rewrite <- Ek. pose proof (icmp_rules ms ms_ok keep q (srcIPHasCap f) Fs Fd) as R.
    destruct (matchIPsOnly _ _ _); (split; [auto|]); (split; [|done]); naive_solver. }
  assert (isFlow q = true -> (IPProto q =? ipproto.TCP) = false) as NF.
  { unfold isFlow. intros [E%Z.eqb_eq|E%Z.eqb_eq]%orb_prop; by rewrite E. }
  destruct (IPProto q =? ipproto.TCP) eqn:Et.
  { assert (isFlow q = false) as -> by (destruct (isFlow q); [by specialize (NF eq_refl)|done]).
    pose proof (match_rules ms ms_ok keep q (srcIPHasCap f) Fs Fd) as R.
    destruct (IsTCPSyn q); simpl; [destruct (match_ _ _ _)|]; (split; [auto|]); (split; [|done]); naive_solver. }
  destruct (isFlow q); simpl.
  { destruct (cacheGet_spec (stateOf f w) (inTuple q) I) as (_ & G & _). unfold afterGet.
    destruct (cacheGet (stateOf f w) (inTuple q)) as [ok c]. simpl in *.
    pose proof (match_rules ms ms_ok keep q (srcIPHasCap f) Fs Fd) as R.
    assert (ok = true <-> inTuple q ∈ cacheKeys (stateOf f w)) as Ok by (rewrite G; apply bool_decide_eq_true).
    clear G.
    destruct ok; [|destruct (match_ _ _ _)]; (split; [auto|]); (split; [|done]); naive_solver. }
  destruct (IPProto q =? ipproto.TSMP); [split; [by left|split; [|done]]; naive_solver|].
  pose proof (portless_rules ms ms_ok keep q Fs Fd) as R.
  destruct (matchProtoAndIPsOnlyIfAllPorts _ _); (split; [auto|]); (split; [|done]); naive_solver.
Qed.
Definition runInVer (f : t) (q : Parsed) (w : store) : Response * string * store :=
  if IPVersion q =? 4 then runIn4 f q w
  else if IPVersion q =? 6 then runIn6 f q w
  else (Drop, "not-ip", w).
Lemma runInVer_spec f q w :
  compiled_from f -> familied q -> IPProto q <> ipproto.Unknown -> cacheInv (stateOf f w) ->
  let '(r, _, w') := runInVer f q w in
  (r = Accept \/ r = noVerdict)
  /\ (r = Accept <-> (exists p, p ∈ locals /\ Contains p (ip (Dst q)) = true)
        /\ permitted ms (srcIPHasCap f) (cacheKeys (stateOf f w)) q)
  /\ (w' = w \/ isFlow q = true /\ w' = afterGet f q w).
Proof.
  intros (EL & E4 & E6) D U I. injection EL as L4 L6. unfold runInVer.
  destruct (fa_version q D) as [V|[V|V]].
  { by pose proof (fa_zero q D V). }
  - destruct (fa_4 q D U V) as (s & d & Es & Ed).
    assert (keep : Is4 = famOf q) by (unfold famOf; by rewrite V).
    rewrite V, runIn4_fam, E4. simpl.
    pose proof (runInFam_spec Is4 f q w I) as R. rewrite Es, Ed in R.
    specialize (R (family4 s) (family4 d) keep (local4 f)).
    unfold icmpProto in R. rewrite V in R. simpl in R.
    destruct (runInFam _ _ _ _ _ _) as [[r why] w'].
    destruct R as (R1 & R2 & R3). { rewrite L4. apply local_spec, family4. }
    rewrite Ed. split; [done|]. split; [done|]. rewrite R3. destruct (_ && _) eqn:C; [|by left].
    right. bool_props. done.
  - destruct (fa_6 q D U V) as (s & d & Es & Ed).
    assert (keep : Is6 = famOf q) by (unfold famOf; by rewrite V).
    rewrite V, runIn6_fam, E6. simpl.
    pose proof (runInFam_spec Is6 f q w I) as R. rewrite Es, Ed in R.
    specialize (R (family6 s) (family6 d) keep (local6 f)).
    unfold icmpProto in R. rewrite V in R. simpl in R.
    destruct (runInFam _ _ _ _ _ _) as [[r why] w'].
    destruct R as (R1 & R2 & R3).
    { rewrite L6. apply (local_spec (fun a => negb (Is4 a))). split; [done|]. intros p C.
      pose proof (proj2 (family6 d) p C). by destruct (pfxAddr p). }
    rewrite Ed. split; [done|]. split; [done|]. rewrite R3. destruct (_ && _) eqn:C; [|by left].
    right. bool_props. done.
Qed.

Lemma RunIn_spec f q w :
  compiled_from f -> familied q -> cacheInv (stateOf f w) ->
  ((RunIn f q w).1 = Accept <-> admits f ms locals (cacheKeys (stateOf f w)) q)
  /\ ((RunIn f q w).1 = Accept \/ (RunIn f q w).1 = Drop)
  /\ ((RunIn f q w).2 = w
      \/ passable f q /\ isFlow q = true /\ (RunIn f q w).2 = afterGet f q w).
Proof.
  intros C D I. destruct (pre_spec f q) as (P0 & P1 & P2). unfold RunIn, admits.
  destruct (decide (b q = [])) as [E|N].
  { specialize (P0 E). destruct (pre f q) as [r x]. simpl in P0. subst r. simpl. split; [naive_solver|]. auto. }
  destruct (decide (passable f q)) as [Pa|NP].
  2: { specialize (P1 N NP). destruct (pre f q) as [r x]. simpl in P1. subst r. simpl. split; [naive_solver|]. auto. }
  specialize (P2 Pa). destruct (pre f q) as [r x]. simpl in P2. subst r. clear P0 P1.
  destruct (Z.eqb_spec (IPProto q) ipproto.Fragment) as [F|F]; simpl; [split; [naive_solver|]; auto|].
  pose proof (runInVer_spec f q w C D (proj1 (proj2 Pa)) I) as R. fold (runInVer f q w).
  destruct (runInVer f q w) as [[r why] w']. destruct R as ([->| ->] & R2 & R3); simpl.
  { split; [|split; [by left|naive_solver]]. split; [|done]. intros _. right. split; [done|]. right. left. by apply R2. }
  pose proof (anyHook_spec (IngressAllowHooks f) q) as A.
  destruct (anyHook (IngressAllowHooks f) q) eqn:EA; simpl.
  - split; [|split; [by left|naive_solver]]. split; [|done]. intros _. right. split; [done|]. right. right. apply A. eauto.
  - apply anyHook_none in EA. split; [|split; [by right|naive_solver]]. split; [done|].
    intros [?|(_ & [?|[X|?]])]; [done|done| |done]. by apply R2 in X.
Qed.
End decision.

(** ** Histories of one filter *)
Definition withHooks (f : t) (ingress linkLocal : list PacketMatch) : t :=
  MkFilter (local4 f) (local6 f) (logIPs4 f) (logIPs6 f) (srcIPHasCap f) (matches4 f) (matches6 f)
    (cap4 f) (cap6 f) (state f) (shieldsUp f) ingress linkLocal.

(** The bytes of a packet, decoded without a history *)
Definition parse (p : bytes) : Parsed := default zeroParsed (Decode zeroParsed p).
Lemma Decode_parse q p : exists r, Decode q p = Some r /\ decoded r /\ b r = p /\ agree r (parse p).
Proof.
  destruct (Decode_decoded q p) as (r & E & B & D). destruct (Decode_decoded zeroParsed p) as (r' & E' & _).
  exists r. split; [done|]. split; [done|]. split; [done|]. unfold parse. rewrite E'. by apply (Decode_agree q zeroParsed p).
Qed.
Lemma agree_flow q q' :
  agree q q' -> isFlow q = true -> isFlow q' = true /\ inTuple q = inTuple q' /\ outTuple q = outTuple q'.
Proof.
  intros A F. unfold isFlow in *. rewrite <- (a_proto q q' A). split; [done|].
  assert (IPProto q <> ipproto.Unknown /\ hasPorts (IPProto q) = true) as [U P].
  { unfold hasPorts. apply orb_prop in F as [F%Z.eqb_eq|F%Z.eqb_eq]; by rewrite F. }
  destruct (a_addrs q q' A U) as (Es & Ed & _). destruct (a_ports q q' A P) as (Ps & Pd).
  unfold inTuple, outTuple, MakeTuple. by rewrite <- (a_proto q q' A), Es, Ed, Ps, Pd.
Qed.

Inductive event := EvIn (p : bytes) | EvOut (p : bytes).

(** The flows opened from the inside, and those a history uses *)
Definition opened (evs : list event) : gset Tuple :=
  ⋃ (map (fun e => match e with EvOut p => if isFlow (parse p) then {[outTuple (parse p)]} else ∅ | EvIn _ => ∅ end) evs).
Definition used (known : gset Tuple) (e : event) : gset Tuple :=
  match e with
  | EvOut p => if isFlow (parse p) then {[outTuple (parse p)]} else ∅
  | EvIn p => if isFlow (parse p) then {[inTuple (parse p)]} ∩ known else ∅
  end.
Definition usedBy (known : gset Tuple) (evs : list event) : gset Tuple := ⋃ (map (used known) evs).
Lemma opened_app h1 h2 : opened (h1 ++ h2) = opened h1 ∪ opened h2.
Proof. unfold opened. rewrite map_app, union_list_app_L. done. Qed.
Lemma opened_cons e evs : opened (e :: evs) = opened [e] ∪ opened evs.
Proof. unfold opened. simpl. set_solver. Qed.

Section history.
Context `{BartTable} {FC : FlowCache lruMax}.
Variable f : t.

(** One [Parsed] decodes all the packets. *)
Definition handle (s : Parsed * store) (e : event) : Response * (Parsed * store) :=
  let '(q, w) := s in
  match e with
  | EvIn p =>
      match Decode q p with
      | Some q => let '(r, w) := RunIn f q w in (r, (q, w))
      | None => (Drop, (q, w))
      end
  | EvOut p =>
      match Decode q p with
      | Some q => let '(r, _, w) := RunOut f q w in (r, (q, w))
      | None => (Drop, (q, w))
      end
  end.
Definition after (s : Parsed * store) (evs : list event) : Parsed * store :=
  foldl (fun s e => (handle s e).2) s evs.

Lemma stateOf_setState w c : (state f < length w)%nat -> stateOf f (setState f w c) = c.
Proof.
  intros L. unfold stateOf, setState. pose proof (list_lookup_insert_eq w (state f) c L) as E.
  exact (f_equal (default cacheNew) E).
Qed.

(** The state of the filter is a cache, its flows are in [K]. *)
Definition flows_in (w : store) (K : gset Tuple) : Prop :=
  (state f < length w)%nat /\ cacheInv (stateOf f w) /\ forall k, k ∈ cacheKeys (stateOf f w) -> k ∈ K.

Lemma RunOut_store q w :
  (RunOut f q w).2 = w
  \/ passable f q /\ isFlow q = true /\ (RunOut f q w).2 = setState f w (cacheAdd (stateOf f w) (outTuple q)).
Proof.
  destruct (pre_spec f q) as (P0 & P1 & P2). unfold RunOut.
  destruct (decide (b q = [])) as [E|N].
  { specialize (P0 E). destruct (pre f q) as [r x]. simpl in P0. subst r. by left. }
  destruct (decide (passable f q)) as [Pa|NP].
  2: { specialize (P1 N NP). destruct (pre f q) as [r x]. simpl in P1. subst r. by left. }
  specialize (P2 Pa). destruct (pre f q) as [r x]. simpl in P2. subst r.
  destruct (_ =? ipproto.Fragment); [by left|]. simpl. fold (isFlow q). destruct (isFlow q); [|by left]. by right.
Qed.
Lemma RunOut_flow q w :
  passable f q -> isFlow q = true -> RunOut f q w = (Accept, NoReason, setState f w (cacheAdd (stateOf f w) (outTuple q))).
Proof.
  intros Pa F. destruct (pre_spec f q) as (_ & _ & P2). specialize (P2 Pa). unfold RunOut, runOut.
  destruct (pre f q) as [r x]. simpl in P2. subst r.
  assert ((IPProto q =? ipproto.Fragment) = false) as ->.
  { unfold isFlow in F. apply orb_prop in F as [F%Z.eqb_eq|F%Z.eqb_eq]; by rewrite F. }
  simpl. fold (isFlow q). by rewrite F.
Qed.

Variables (ms : list Match) (locals : list Prefix).
Hypothesis ms_ok : Forall (fun mt => Forall prefix_ok (Srcs mt)) ms.
Hypothesis locals_ok : Forall prefix_ok locals.
Hypothesis f_compiled : compiled_from ms locals f.

(** What one packet does to the cache *)
Definition storeAfter (q : Parsed) (w : store) (e : event) : store := (handle (q, w) e).2.2.
Lemma handle_keys q w e w' :
  w' = storeAfter q w e -> (state f < length w)%nat -> cacheInv (stateOf f w) ->
  (state f < length w')%nat /\ cacheInv (stateOf f w')
  /\ (cacheKeys (stateOf f w') = cacheKeys (stateOf f w)
      \/ match e with
         | EvOut p => isFlow (parse p) = true
             /\ cacheKeys (stateOf f w') = take lruMax (touch (outTuple (parse p)) (cacheKeys (stateOf f w)))
         | EvIn p => isFlow (parse p) = true /\ inTuple (parse p) ∈ cacheKeys (stateOf f w)
             /\ cacheKeys (stateOf f w') = touch (inTuple (parse p)) (cacheKeys (stateOf f w))
         end).
Proof.
  intros -> L I. unfold storeAfter. destruct e as [p|p]; simpl; destruct (Decode_parse q p) as (r & -> & D & B & A).
  - destruct (RunIn_spec ms locals ms_ok locals_ok f r w f_compiled (decoded_familied r D) I) as (_ & _ & S).
    destruct (RunIn f r w) as [v w']. simpl in S |- *. destruct S as [->|(_ & F & ->)]; [by auto|].
    destruct (agree_flow r (parse p) A F) as (F' & T & _). unfold afterGet.
    assert (length (setState f w (cacheGet (stateOf f w) (inTuple r)).2) = length w) as EL by apply length_insert.
    rewrite EL, stateOf_setState by done. destruct (cacheGet_spec (stateOf f w) (inTuple r) I) as (I' & _ & K).
    split; [done|]. split; [done|]. rewrite K. rewrite <- T. destruct (decide _); [right|by left]. done.
  - pose proof (RunOut_store r w) as S. destruct (RunOut f r w) as [[v rs] w']. simpl in S |- *.
    destruct S as [->|(_ & F & ->)]; [by auto|].
    destruct (agree_flow r (parse p) A F) as (F' & _ & T).
    assert (length (setState f w (cacheAdd (stateOf f w) (outTuple r))) = length w) as EL by apply length_insert.
    rewrite EL, stateOf_setState by done. destruct (cacheAdd_spec (stateOf f w) (outTuple r) I) as (I' & K).
    split; [done|]. split; [done|]. right. split; [done|]. by rewrite <- T.
Qed.
Lemma after_cons s e evs : after s (e :: evs) = after (handle s e).2 evs.
Proof. done. Qed.
Lemma after_app s h1 h2 : after s (h1 ++ h2) = after (after s h1) h2.
Proof. apply foldl_app. Qed.
Lemma touch_elem k l x : x ∈ touch k l -> x = k \/ x ∈ l.
Proof. intros [->|[_ Hx]%list_elem_of_filter]%elem_of_cons; auto. Qed.

Lemma handle_flows q w K e :
  flows_in w K -> flows_in (storeAfter q w e) (K ∪ opened [e]).
Proof.
  intros (L & I & Hk). destruct (handle_keys q w e _ eq_refl L I) as (L' & I' & S). split; [done|]. split; [done|]. intros k Hx. apply elem_of_union.
  destruct S as [E|S]; [rewrite E in Hx; auto|]. destruct e as [p|p].
  - destruct S as (_ & Hin & E). rewrite E in Hx. apply touch_elem in Hx as [->|Hx]; auto.
  - destruct S as (F & E). rewrite E in Hx. apply subseteq_take in Hx. apply touch_elem in Hx as [->|Hx]; [right|auto].
    unfold opened. simpl. rewrite F. set_solver.
Qed.
Lemma after_flows evs q w K :
  flows_in w K -> flows_in (after (q, w) evs).2 (K ∪ opened evs).
Proof.
  revert q w K. induction evs as [|e evs IH]; intros q w K HF.
  { unfold opened. simpl. by rewrite union_empty_r_L. }
  pose proof (handle_flows q w K e HF) as HF'. unfold storeAfter in HF'. rewrite after_cons.
  destruct (handle (q, w) e) as [r [q' w']]. cbn [snd] in *.
  rewrite opened_cons, assoc_L by apply _. by apply IH.
Qed.

(** A flow stays while fewer than [lruMax] others are used. *)
Lemma handle_remembered t' S K q w e :
  flows_in w K -> remembered t' S (cacheKeys (stateOf f w)) -> (size (S ∪ used K e) < lruMax)%nat ->
  remembered t' (S ∪ used K e) (cacheKeys (stateOf f (storeAfter q w e))).
Proof.
  intros (L & I & Hk) R Sz. destruct (handle_keys q w e _ eq_refl L I) as (_ & _ & St). destruct St as [->|St]; [revert R; apply remembered_weaken; set_solver|].
  destruct e as [p|p]; cbn [used] in *; destruct St as (F & St); rewrite F in *.
  - destruct St as (Hin & ->). specialize (Hk _ Hin). apply (touch_remembered t' (inTuple (parse p))) in R.
    revert R. apply remembered_weaken. set_solver.
  - rewrite St. apply take_remembered; [|done]. apply (touch_remembered t' (outTuple (parse p))) in R.
    revert R. apply remembered_weaken. set_solver.
Qed.
Lemma used_mono K K' e : K ⊆ K' -> used K e ⊆ used K' e.
Proof. intros HK. destruct e as [p|p]; simpl; destruct (isFlow (parse p)); set_solver. Qed.
Lemma after_remembered t' evs q w K0 K S :
  flows_in w K0 -> K0 ∪ opened evs ⊆ K -> remembered t' S (cacheKeys (stateOf f w)) ->
  (size (S ∪ usedBy K evs) < lruMax)%nat ->
  t' ∈ cacheKeys (stateOf f (after (q, w) evs).2).
Proof.
  revert q w K0 S. induction evs as [|e evs IH]; intros q w K0 S HF HK R Sz; [by apply (remembered_elem _ S)|].
  rewrite opened_cons in HK.
  assert (flows_in w K) as HFK by (destruct HF as (? & ? & ?); split; [done|split; [done|set_solver]]).
  assert (usedBy K (e :: evs) = used K e ∪ usedBy K evs) as EU by done. rewrite EU in Sz.
  assert (size (S ∪ used K e) < lruMax)%nat as Sz1.
  { eapply Nat.le_lt_trans; [|exact Sz]. apply subseteq_size. set_solver. }
  pose proof (handle_remembered t' S K q w e HFK R Sz1) as R'. pose proof (handle_flows q w K0 e HF) as HF'.
  unfold storeAfter in *. rewrite after_cons. destruct (handle (q, w) e) as [r [q' w']]. cbn [snd] in *.
  apply (IH q' w' (K0 ∪ opened [e]) (S ∪ used K e)); [done|set_solver|done|].
  rewrite <- assoc_L by apply _. done.
Qed.
End history.

Lemma handle_out `{BartTable} {FC : FlowCache lruMax} f q w p :
  (forall q, agree q (parse p) -> passable f q) -> isFlow (parse p) = true ->
  (state f < length w)%nat -> cacheInv (stateOf f w) ->
  remembered (outTuple (parse p)) ∅ (cacheKeys (stateOf f (storeAfter f q w (EvOut p)))).
Proof.
  intros P F L I. unfold storeAfter, handle. destruct (Decode_parse q p) as (r & -> & D & B & A).
  destruct (agree_flow (parse p) r (agree_sym _ _ A) F) as (Fr & _ & T).
  rewrite (RunOut_flow f r w (P r A) Fr). cbn [snd]. rewrite stateOf_setState by done. rewrite <- T.
  destruct (cacheAdd_spec (stateOf f w) (outTuple (parse p)) I) as (I' & K).
  destruct (cacheInv_keys _ I') as [N _]. rewrite K in N |- *. exists [].
  eexists. split; [reflexivity|]. split; [done|]. by intros x ?%not_elem_of_nil.
Qed.
Lemma elem_of_opened t' evs :
  t' ∈ opened evs <-> exists p, EvOut p ∈ evs /\ isFlow (parse p) = true /\ outTuple (parse p) = t'.
Proof.
  unfold opened. rewrite elem_of_union_list. setoid_rewrite list_elem_of_fmap. split.
  - intros (X & (e & -> & He) & Ht). destruct e as [p|p]; [set_solver|]. exists p.
    destruct (isFlow (parse p)); set_solver.
  - intros (p & He & F & <-). eexists. split; [exists (EvOut p); done|]. simpl. rewrite F. set_solver.
Qed.
Lemma flow_proto q : isFlow q = true -> IPProto q = ipproto.UDP \/ IPProto q = ipproto.SCTP.
Proof. intros [F%Z.eqb_eq|F%Z.eqb_eq]%orb_prop; auto. Qed.
Lemma flow_nonempty q : decoded q -> isFlow q = true -> b q <> [].
Proof.
  intros D F E. assert (hasPorts (IPProto q) = true) as P by (destruct (flow_proto q F) as [->| ->]; done).
  destruct (d_ports q D P) as (L & _). rewrite E in L. simpl in L.
  destruct (flow_proto q F) as [Ep|Ep]; rewrite Ep in L; unfold transportLen in L; simpl in L;
    unfold udpHeaderLength, sctpHeaderLength in L; lia.
Qed.
Lemma agree_rule ms cap q q' : agree q q' -> isFlow q = true -> port_rule ms cap q -> port_rule ms cap q'.
Proof.
  intros A F. assert (IPProto q <> ipproto.Unknown /\ hasPorts (IPProto q) = true) as [U P]
    by (destruct (flow_proto q F) as [->| ->]; done).
  destruct (a_addrs q q' A U) as (Es & Ed & _). destruct (a_ports q q' A P) as (_ & Pd).
  unfold port_rule, to_port. rewrite <- (a_proto q q' A), <- Es, <- Ed, <- Pd. done.
Qed.
(** Of a flow packet that passes the tests, the verdict is about its flow and the rules. *)
Lemma flow_permitted ms cap known q :
  isFlow q = true -> permitted ms cap known q <-> inTuple q ∈ known \/ port_rule ms cap q.
Proof.
  intros F. unfold permitted. rewrite F. unfold icmpProto.
  destruct (flow_proto q F) as [->| ->]; destruct (IPVersion q =? 4); done.
Qed.

(** ** The properties *)
Lemma New_compiled `{BartTable} {FC : FlowCache lruMax} ms cap locals logs share w ing ll :
  compiled_from ms locals (withHooks (New ms cap (Some locals) logs share w).1 ing ll).
Proof. unfold New. destruct share; destruct (familyFuncs logs) as [g4 g6]; done. Qed.
Lemma New_hooks `{BartTable} {FC : FlowCache lruMax} ms cap locals logs share w ing ll :
  let f := withHooks (New ms cap locals logs share w).1 ing ll in
  IngressAllowHooks f = ing /\ LinkLocalAllowHooks f = ll /\ srcIPHasCap f = cap.
Proof. unfold New. destruct share; destruct (familyFuncs locals) as [l4 l6], (familyFuncs logs) as [g4 g6]; done. Qed.
Lemma New_state `{BartTable} {FC : FlowCache lruMax} ms cap locals logs w ing ll :
  let f := withHooks (New ms cap locals logs None w).1 ing ll in
  flows_in f (New ms cap locals logs None w).2 ∅ /\ cacheKeys (stateOf f (New ms cap locals logs None w).2) = [].
Proof.
  intros f. assert (state f = length w /\ (New ms cap locals logs None w).2 = w ++ [cacheNew]) as [S E].
  { unfold f, New. destruct (familyFuncs locals), (familyFuncs logs). done. }
  destruct cacheInv_new as [I K].
  assert (stateOf f (New ms cap locals logs None w).2 = cacheNew) as St.
  { rewrite E. unfold stateOf. rewrite S. pose proof (list_lookup_middle w [] cacheNew (length w) eq_refl) as M.
    exact (f_equal (default cacheNew) M). }
  split; [|by rewrite St]. split; [rewrite E, S; apply Nat.lt_le_trans with (length w + 1)%nat; [lia|]; rewrite length_app; simpl; lia|].
  rewrite St. split; [done|]. rewrite K. by intros k ?%not_elem_of_nil.
Qed.

(** [C6] The compiled filter accepts exactly the following decoded inbound packets and drops every
    other: an empty one; or one of at least 20 bytes and of a known protocol, whose destination is
    not multicast, nor link-local unless it is the address of the cloud's DNS server or a hook
    allows it, and that is a later fragment, or is let in by an ingress hook, or goes to a local
    address and satisfies what is asked of its protocol. An ICMP packet must be an echo response,
    an error, or match a rule that has its source among its prefixes and its destination among
    its destinations whatever the port, or that admits its source by capability and has any
    destination at all of the address family; a TCP packet must not be a SYN, or match a rule in
    protocol, source (by prefix or capability) and destination prefix and port; a UDP or SCTP
    packet must belong to a known flow or match such a rule; a TSMP packet is always accepted; one
    of any other protocol must match a rule in protocol, source prefix and a destination that is
    open on all ports. *)
Theorem filter_admits_exactly `{BartTable} {FC : FlowCache lruMax}
    ms cap locals logs share w ing ll q st :
  Forall (fun mt => Forall prefix_ok (Srcs mt)) ms -> Forall prefix_ok locals -> decoded q ->
  let f := withHooks (New ms cap (Some locals) logs share w).1 ing ll in
  cacheInv (stateOf f st) ->
  ((RunIn f q st).1 = Accept <-> admits f ms locals (cacheKeys (stateOf f st)) q)
  /\ ((RunIn f q st).1 = Accept \/ (RunIn f q st).1 = Drop).
Proof.
  intros Hm Hl D f I.
  destruct (RunIn_spec ms locals Hm Hl f q st (New_compiled _ _ _ _ _ _ _ _) (decoded_familied q D) I) as (A & B & _).
  done.
Qed.

(** [C21] No way in from the outside alone: after any history of packets in and out through a new
    filter, an inbound UDP or SCTP packet that no rule and no hook admits is accepted only if a
    packet of the reversed flow went out before. *)
Theorem unsolicited_flow_dropped `{BartTable} {FC : FlowCache lruMax}
    ms cap locals logs w ing ll q0 evs p :
  Forall (fun mt => Forall prefix_ok (Srcs mt)) ms -> Forall prefix_ok locals ->
  let f := withHooks (New ms cap (Some locals) logs None w).1 ing ll in
  let s := after f (q0, (New ms cap (Some locals) logs None w).2) evs in
  isFlow (parse p) = true -> ~ port_rule ms cap (parse p) ->
  (forall q, agree q (parse p) -> ~ hooked ing q) ->
  (handle f s (EvIn p)).1 = Accept ->
  exists p', EvOut p' ∈ evs /\ isFlow (parse p') = true /\ outTuple (parse p') = inTuple (parse p).
Proof.
  intros Hm Hl f s F NR NH V. subst s. set (w0 := (New ms cap (Some locals) logs None w).2) in *.
  destruct (New_state ms cap (Some locals) logs w ing ll) as [F0 _]. fold f w0 in F0.
  pose proof (New_compiled ms cap locals logs None w ing ll) as C. fold f in C.
  destruct (New_hooks ms cap (Some locals) logs None w ing ll) as (Ei & _ & Ec). fold f in Ei, Ec.
  clearbody w0. clearbody f.
  pose proof (after_flows f ms locals Hm Hl C evs q0 w0 ∅ F0) as (_ & I & Hk).
  destruct (after f (q0, w0) evs) as [q1 w1]. simpl in *.
  destruct (Decode_parse q1 p) as (r & E & D & B & A). rewrite E in V.
  pose proof (agree_sym _ _ A) as A'.
  destruct (agree_flow (parse p) r A' F) as (Fr & Ti & _).
  destruct (RunIn_spec ms locals Hm Hl f r w1 C (decoded_familied r D) I) as (S & _ & _).
  destruct (RunIn f r w1) as [v w2]. simpl in V, S. apply S in V as [V|(_ & [V|[(_ & V)|V]])].
  - by apply (flow_nonempty r) in V.
  - by destruct (flow_proto r Fr) as [X|X]; rewrite X in V.
  - rewrite Ec in V. rewrite flow_permitted in V by done. destruct V as [V|V].
    + rewrite Ti. apply elem_of_opened. apply Hk in V. by rewrite union_empty_l_L in V.
    + destruct NR. by apply (agree_rule ms cap r).
  - rewrite Ei in V. by destruct (NH r).
Qed.

(** [C7] Replies come back: once a UDP or SCTP packet has gone out, an inbound packet of the
    reversed flow to a local address is accepted, whatever was decoded and decided in between, as
    long as fewer than [lruMax] (512) flows were used since. Used are the flows of outbound packets
    and of inbound packets that were let in by one; inbound packets of other flows do not count,
    so a flood from outside cannot push a flow out. *)
Theorem replies_admitted `{BartTable} {FC : FlowCache lruMax}
    ms cap locals logs w ing ll q0 h1 p0 h2 p :
  Forall (fun mt => Forall prefix_ok (Srcs mt)) ms -> Forall prefix_ok locals ->
  let f := withHooks (New ms cap (Some locals) logs None w).1 ing ll in
  let s := after f (q0, (New ms cap (Some locals) logs None w).2) (h1 ++ EvOut p0 :: h2) in
  (forall q, agree q (parse p0) -> passable f q) -> isFlow (parse p0) = true ->
  (forall q, agree q (parse p) -> passable f q) -> isFlow (parse p) = true ->
  inTuple (parse p) = outTuple (parse p0) ->
  (exists x, x ∈ locals /\ Contains x (ip (Dst (parse p))) = true) ->
  (size (usedBy (opened (h1 ++ EvOut p0 :: h2)) h2) < lruMax)%nat ->
  (handle f s (EvIn p)).1 = Accept.
Proof.
  intros Hm Hl f s P0 F0 P F T Lo Sz. subst s. set (w0 := (New ms cap (Some locals) logs None w).2) in *.
  destruct (New_state ms cap (Some locals) logs w ing ll) as [N0 _]. fold f w0 in N0.
  pose proof (New_compiled ms cap locals logs None w ing ll) as C. fold f in C.
  destruct (New_hooks ms cap (Some locals) logs None w ing ll) as (_ & _ & Ec). fold f in Ec. clearbody w0. clearbody f.
  pose proof (after_flows f ms locals Hm Hl C h1 q0 w0 ∅ N0) as Fl1.
  rewrite after_app, after_cons. destruct (after f (q0, w0) h1) as [q1 w1].
  pose proof (handle_flows f ms locals Hm Hl C q1 w1 _ (EvOut p0) Fl1) as Fl2.
  pose proof (handle_out f q1 w1 p0 P0 F0 (proj1 Fl1) (proj1 (proj2 Fl1))) as R. rewrite <- T in R.
  unfold storeAfter in *. destruct (handle f (q1, w1) (EvOut p0)) as [r2 [q2 w2]]. cbn [snd] in *.
  pose proof (after_flows f ms locals Hm Hl C h2 q2 w2 _ Fl2) as (_ & I3 & _).
  assert (inTuple (parse p) ∈ cacheKeys (stateOf f (after f (q2, w2) h2).2)) as Kn.
  { apply (after_remembered f ms locals Hm Hl C _ h2 q2 w2 _ (opened (h1 ++ EvOut p0 :: h2)) ∅ Fl2); [|exact R|].
    - rewrite opened_app, (opened_cons (EvOut p0) h2), union_empty_l_L, (assoc_L (∪)). reflexivity.
    - by rewrite union_empty_l_L. }
  destruct (after f (q2, w2) h2) as [q3 w3]. cbn [snd] in *. unfold handle.
  destruct (Decode_parse q3 p) as (r & -> & D & B & A). pose proof (agree_sym _ _ A) as A'.
  destruct (agree_flow (parse p) r A' F) as (Fr & Ti & _).
  destruct (RunIn_spec ms locals Hm Hl f r w3 C (decoded_familied r D) I3) as (V & _ & _).
  destruct (RunIn f r w3) as [v w4]. cbn [fst] in *. apply V. right. split; [by apply P|]. right. left.
  rewrite flow_permitted by done. rewrite <- Ti. split; [|by left].
  destruct (a_addrs r (parse p) A) as (_ & -> & _); [|done]. destruct (flow_proto r Fr) as [-> | ->]; done.
Qed.

(** ** Shields up *)
Lemma no_rules cap q : ~ port_rule [] cap q /\ ~ portless_rule [] q.
Proof. split; intros (mt & Hm%not_elem_of_nil & _); done. Qed.
(** With shields up nothing can be started from outside: a TCP SYN, a UDP or SCTP packet of a
    flow that did not go out, and a packet of any other protocol but ICMP and TSMP are dropped.
    The flows are those of shields-up filters only: the state of a filter that was not one is
    not taken over, the state of one that was is. *)
Theorem shields_up_closed `{BartTable} {FC : FlowCache lruMax} locals logs share w q st :
  let f := (NewShieldsUpFilter (Some locals) logs share w).1 in
  let w' := (NewShieldsUpFilter (Some locals) logs share w).2 in
  Forall prefix_ok locals -> decoded q -> cacheInv (stateOf f st) -> b q <> [] ->
  IPProto q <> ipproto.Fragment -> IPProto q <> icmpProto q -> IPProto q <> ipproto.TSMP ->
  (IPProto q = ipproto.TCP -> IsTCPSyn q = true) -> (isFlow q = true -> inTuple q ∉ cacheKeys (stateOf f st)) ->
  (RunIn f q st).1 = Drop
  /\ match share with
     | Some g => if shieldsUp g then state f = state g /\ w' = w else cacheKeys (stateOf f w') = []
     | None => cacheKeys (stateOf f w') = []
     end.
Proof.
  intros f w' Hl D I NE NF NI NT HT HF.
  set (sh := match share with Some g => if negb (shieldsUp g) then None else Some g | None => None end).
  assert (f = setShieldsUp (New [] None (Some locals) logs sh w).1 /\ w' = (New [] None (Some locals) logs sh w).2) as [Ef Ew].
  { unfold f, w', NewShieldsUpFilter. fold sh. by destruct (New _ _ _ _ _ _). }
  assert (compiled_from [] locals f /\ IngressAllowHooks f = []) as [C Eh].
  { rewrite Ef. unfold New. destruct sh; by destruct (familyFuncs logs). }
  split.
  - destruct (RunIn_spec [] locals (Forall_nil_2 _) Hl f q st C (decoded_familied q D) I) as (A & [B|B] & _); [|done].
    apply A in B as [B|(_ & [B|[(_ & B)|B]])]; [done|done| |].
    + unfold permitted in B. destruct (Z.eqb_spec (IPProto q) (icmpProto q)); [done|].
      destruct (no_rules (srcIPHasCap f) q) as [N1 N2].
      destruct (Z.eqb_spec (IPProto q) ipproto.TCP) as [T|T]; [destruct B as [B|B]; [|done]; rewrite HT in B; done|].
      destruct (isFlow q); [destruct B as [B|B]; [by destruct HF|done]|].
      destruct (Z.eqb_spec (IPProto q) ipproto.TSMP); done.
    + rewrite Eh in B. destruct B as (h & Hh%not_elem_of_nil & _). done.
  - assert (sh = None -> cacheKeys (stateOf f w') = []) as N.
    { intros E. rewrite Ef, Ew, E.
      exact (proj2 (New_state [] None (Some locals) logs w [] [])). }
    destruct share as [g|]; [|by apply N]. destruct (shieldsUp g) eqn:Eg; [|by apply N].
    assert (sh = Some g) as Es by done. rewrite Ef, Ew, Es.
    unfold New. by destruct (familyFuncs (Some locals)), (familyFuncs logs).
Qed.

(** ** Capabilities *)
(** The values the grants of [ms] give for the capability [c], in the order of the rules *)
Definition grants (ms : list Match) (src dst : Addr) (c : string) : list (list string) :=
  mt ← ms;
  if existsb (fun p => Contains p src) (Srcs mt)
  then cm_Values <$> List.filter (fun cm => bool_decide (cm_Cap cm = c) && Contains (cm_Dst cm) dst) (Caps mt)
  else [].
Lemma addCaps_lookup dst caps out c :
  c <> EmptyString ->
  foldl (addCap dst) out caps !! c =
  (let vs := cm_Values <$> List.filter (fun cm => bool_decide (cm_Cap cm = c) && Contains (cm_Dst cm) dst) caps in
   match out !! c, vs with
   | None, [] => None
   | None, _ => Some (concat vs)
   | Some prev, _ => Some (prev ++ concat vs)
   end).
Proof.
  intros Hc. revert out. induction caps as [|cm caps IH]; intros out.
  { simpl. destruct (out !! c); [by rewrite app_nil_r|done]. }
  simpl. rewrite IH. cbv zeta. unfold addCap. destruct (Contains (cm_Dst cm) dst); [|by rewrite !andb_false_r].
  rewrite !andb_true_r. case_bool_decide as E; simpl.
  { rewrite bool_decide_eq_false_2 by congruence. done. }
  destruct (out !! cm_Cap cm) as [prev|] eqn:Eo; case_bool_decide as Ec.
  - rewrite <- Ec in *. rewrite Eo, lookup_insert_eq. simpl. by rewrite app_assoc.
  - by rewrite lookup_insert_ne.
  - rewrite <- Ec in *. rewrite Eo, lookup_insert_eq. done.
  - by rewrite lookup_insert_ne.
Qed.

(** The map after the grants in [vs]: a value list is extended, a missing one is created. *)
Definition granted (prev : option (list string)) (vs : list (list string)) : option (list string) :=
  match prev, vs with
  | None, [] => None
  | None, _ => Some (concat vs)
  | Some prev, _ => Some (prev ++ concat vs)
  end.
Lemma granted_app prev vs vs' : granted (granted prev vs) vs' = granted prev (vs ++ vs').
Proof.
  destruct prev as [l|]; simpl; [by rewrite concat_app, app_assoc|].
  destruct vs as [|v vs]; simpl; [done|]. by rewrite concat_app, app_assoc.
Qed.
Lemma granted_nil prev : granted prev [] = prev.
Proof. destruct prev; simpl; [by rewrite app_nil_r|done]. Qed.

Section caps.
Context `{BartTable}.
Variables (keep : Addr -> bool) (src dst : Addr).
Hypothesis src_family : family keep src.

Lemma kept_srcs srcs :
  Forall prefix_ok srcs ->
  NewContainsIPFunc (List.filter (fun s => keep (pfxAddr s)) srcs) src = existsb (fun p => Contains p src) srcs.
Proof.
  intros OK. rewrite NewContainsIPFunc_eq; [| |apply src_family].
  - induction OK as [|p l _ OK IH]; [done|]. simpl. destruct (keep (pfxAddr p)) eqn:K; simpl; rewrite IH; [done|].
    destruct (Contains p src) eqn:C; [|done]. apply src_family in C. congruence.
  - apply Forall_forall. intros p Hp%list_elem_of_In%filter_In. destruct Hp as [Hp%list_elem_of_In _].
    exact (proj1 (Forall_forall _ _) OK p Hp).
Qed.
Definition capStep (out : gmap string (list string)) (mt : Match) : gmap string (list string) :=
  if negb (SrcsContains mt src) then out else foldl (addCap dst) out (Caps mt).
Lemma caps_fold ms out c :
  Forall (fun mt => Forall prefix_ok (Srcs mt)) ms -> c <> EmptyString ->
  foldl capStep out (capMatchesFunc ms keep) !! c = granted (out !! c) (grants ms src dst c).
Proof.
  intros OK Hc. revert out. induction OK as [|mt ms Hm OK IH]; intros out; [by rewrite granted_nil|].
  unfold capMatchesFunc, grants in *. csimpl. rewrite <- granted_app.
  pose proof (kept_srcs (Srcs mt) Hm) as K.
  destruct (Nat.eqb_spec (length (Caps mt)) 0) as [E|E].
  { apply nil_length_inv in E. rewrite E. simpl. destruct (existsb _ _); by rewrite granted_nil, IH. }
  destruct (Nat.ltb_spec 0 (length (List.filter (fun s => keep (pfxAddr s)) (Srcs mt)))) as [L|L].
  - csimpl. rewrite IH. unfold capStep. cbn [SrcsContains Caps]. rewrite K.
    destruct (existsb _ _); simpl; [|by rewrite granted_nil]. by rewrite addCaps_lookup.
  - rewrite IH. assert (List.filter (fun s => keep (pfxAddr s)) (Srcs mt) = []) as N by (apply nil_length_inv; lia).
    rewrite N in K. simpl in K. unfold emptySet in K. rewrite <- K. by rewrite granted_nil.
Qed.
End caps.

(** The capabilities of a source towards a destination are exactly the grants of the rules
    whose sources contain it: for each capability, the values of its grants that cover the
    destination, in the order of the rules, and no entry where there is no grant. *)
Theorem caps_exact `{BartTable} {FC : FlowCache lruMax} ms cap locals logs share w src dst c :
  Forall (fun mt => Forall prefix_ok (Srcs mt)) ms -> hasZone src = false -> c <> EmptyString ->
  CapsWithValues (New ms cap locals logs share w).1 src dst !! c
  = match src with AddrZero => None | _ => granted None (grants ms src dst c) end.
Proof.
  intros OK Zn Hc. unfold New. destruct share; destruct (familyFuncs locals), (familyFuncs logs);
    (destruct src as [|a|a z]; unfold CapsWithValues; cbn [Is4 Is6 cap4 cap6 fst]; [done|..]).
  1,3: exact (caps_fold Is4 (Addr4 a) dst (family4 a) ms ∅ c OK Hc).
  all: unfold hasZone in Zn; bool_props; subst z.
  all: exact (caps_fold Is6 (Addr6 a EmptyString) dst (family6 a) ms ∅ c OK Hc).
Qed.

(** ** [CheckTCP] *)
(** What lets a TCP connection from [src] to [dst] in *)
Definition admits_tcp (ms : list Match) (cap : option CapTestFunc) (locals : list Prefix) (src dst : Addr) (dport : Z) : Prop :=
  IsMulticast dst = false /\ (IsLinkLocalUnicast dst = true -> dst = gcpDNSAddr)
  /\ (exists p, p ∈ locals /\ Contains p dst = true)
  /\ exists mt, mt ∈ ms /\ ipproto.TCP ∈ m_IPProto mt /\ (by_prefix mt src \/ by_cap cap mt src)
       /\ to_port mt (MkAddrPort dst dport).
(** The packet [CheckTCP] makes up *)
Definition syn_pkt (v : Z) (src dst : Addr) (dport : Z) : Parsed :=
  MkParsed dummyPacket 0 0 0 v ipproto.TCP (MkAddrPort src 0) (MkAddrPort dst dport) TCPSyn zeroCaptureMeta.

Section check.
Context `{BartTable} {FC : FlowCache lruMax}.
Variables (ms : list Match) (locals : list Prefix) (f : t) (st : store).
Hypothesis ms_ok : Forall (fun mt => Forall prefix_ok (Srcs mt)) ms.
Hypothesis locals_ok : Forall prefix_ok locals.
Hypothesis f_compiled : compiled_from ms locals f.
Hypothesis no_ingress : IngressAllowHooks f = [].
Hypothesis no_linklocal : LinkLocalAllowHooks f = [].
Hypothesis st_inv : cacheInv (stateOf f st).

Lemma not_hooked q : ~ hooked [] q.
Proof. intros (h & Hh%not_elem_of_nil & _). done. Qed.
Lemma syn_admits known v src dst dport :
  admits f ms locals known (syn_pkt v src dst dport) <-> admits_tcp ms (srcIPHasCap f) locals src dst dport.
Proof.
  unfold admits, passable, admits_tcp. rewrite no_ingress, no_linklocal. cbn [Dst ip syn_pkt IPProto b].
  assert (permitted ms (srcIPHasCap f) known (syn_pkt v src dst dport)
    <-> port_rule ms (srcIPHasCap f) (syn_pkt v src dst dport)) as EP.
  { unfold permitted, icmpProto. destruct (IPVersion _ =? 4); simpl; naive_solver. }
  rewrite EP. unfold port_rule. cbn [Dst Src ip syn_pkt IPProto]. split.
  - intros [?|((_ & _ & M & L) & [?|[(A & B)|N]])]; [done|done| |by apply not_hooked in N].
    split; [done|]. split; [|done]. intros X. destruct (L X) as [?|N]; [done|by apply not_hooked in N].
  - intros (M & L & A & B). right. split; [|by right; left].
    split; [unfold dummyPacket; simpl; lia|]. split; [done|]. split; [done|]. auto.
Qed.
Lemma syn_same v src dst dport :
  familied (syn_pkt v src dst dport) ->
  exists r, RunIn f (syn_pkt v src dst dport) st = (r, st) /\ (r = Accept \/ r = Drop)
  /\ (r = Accept <-> admits_tcp ms (srcIPHasCap f) locals src dst dport).
Proof.
  intros Fa. destruct (RunIn_spec ms locals ms_ok locals_ok f _ st f_compiled Fa st_inv) as (A & B & [W|(_ & W & _)]);
    [|done].
  destruct (RunIn f (syn_pkt v src dst dport) st) as [r w']. simpl in *. subst w'. exists r.
  rewrite <- (syn_admits (cacheKeys (stateOf f st)) v). done.
Qed.
(** An IPv6 source and an IPv4 destination get past the family test of [Check]; the filter drops
    them because no IPv6 prefix contains the destination. *)
Lemma syn_mixed s d dport : RunIn f (syn_pkt 6 s (Addr4 d) dport) st = (Drop, st).
Proof.
  assert (local6 f (Addr4 d) = false) as L.
  { destruct f_compiled as ([= _ ->] & _). rewrite NewContainsIPFunc_eq; [| |done].
    - apply not_true_is_false. rewrite existsb_exists. intros (p & [Hp Np]%filter_In & C).
      apply (proj2 (family4 d)) in C. by rewrite C in Np.
    - apply Forall_forall. intros p Hp%list_elem_of_In%filter_In. destruct Hp as [Hp%list_elem_of_In _].
      exact (proj1 (Forall_forall _ _) locals_ok p Hp). }
  set (q := syn_pkt 6 s (Addr4 d) dport). destruct (pre_spec f q) as (_ & P1 & P2). unfold RunIn.
  destruct (decide (passable f q)) as [Pa|NP].
  - specialize (P2 Pa). destruct (pre f q) as [r x]. simpl in P2. subst r. simpl.
    unfold runIn6. cbn [Dst ip q syn_pkt]. rewrite L. simpl. by rewrite no_ingress.
  - specialize (P1 ltac:(done) NP). destruct (pre f q) as [r x]. simpl in P1. by subst r.
Qed.
End check.

(** [CheckTCP] answers whether a TCP connection from one valid address to another would be
    let in: both are of one family, the destination is local, not multicast and not link-local
    (but for the metadata address), and a rule for TCP admits the source and the port. *)
Theorem check_tcp_exact `{BartTable} {FC : FlowCache lruMax} ms cap locals logs share w src dst dport st :
  Forall (fun mt => Forall prefix_ok (Srcs mt)) ms -> Forall prefix_ok locals ->
  hasZone src = false -> hasZone dst = false -> AddrIsValid src = true -> AddrIsValid dst = true ->
  let f := (New ms cap (Some locals) logs share w).1 in
  cacheInv (stateOf f st) ->
  exists r, CheckTCP f src dst dport st = Some (r, st) /\ (r = Accept \/ r = Drop)
  /\ (r = Accept <-> Is4 src = Is4 dst /\ admits_tcp ms cap locals src dst dport).
Proof.
  intros Hm Hl Zs Zd Vs Vd f I.
  assert (compiled_from ms locals f /\ IngressAllowHooks f = [] /\ LinkLocalAllowHooks f = [] /\ srcIPHasCap f = cap)
    as (C & Hi & Hk & Hc) by (unfold f, New; destruct share; by destruct (familyFuncs logs)).
  clearbody f. clear share w.
  assert (forall v, familied (syn_pkt v src dst dport) -> Is4 src = Is4 dst -> exists r,
    RunIn f (syn_pkt v src dst dport) st = (r, st) /\ (r = Accept \/ r = Drop)
    /\ (r = Accept <-> Is4 src = Is4 dst /\ admits_tcp ms cap locals src dst dport)) as Same.
  { intros v Fa E. destruct (syn_same ms locals f st Hm Hl C Hi Hk I v src dst dport Fa) as (r & R & V & A).
    exists r. rewrite A, Hc. naive_solver. }
  destruct src as [|s|s zs], dst as [|d|d zd]; try done.
  - destruct (Same 4) as (r & R & V); [split; simpl; [lia|done|eauto|done]|done|]. exists r. by rewrite <- R.
  - exists Drop. split; [done|]. split; [by right|]. split; [done|]. by intros [? _].
  - exists Drop. rewrite <- (syn_mixed ms locals f st Hl C Hi (Addr6 s zs) d dport). split; [done|].
    split; [by right|]. split; [done|]. by intros [? _].
  - unfold hasZone in Zs, Zd. bool_props. subst.
    destruct (Same 6) as (r & R & V); [split; simpl; [lia|done|done|eauto]|done|]. exists r. by rewrite <- R.
Qed.

(** ** A node 100.64.0.1 with one rule, talking to 100.64.0.2 *)
#[local] Existing Instance list_bart.
#[local] Instance ex_cache : FlowCache lruMax := flowtrack_cache 511.
Definition ex_self : Addr := Addr4 0x64400001.
Definition ex_peer : Addr := Addr4 0x64400002.
Definition ex_locals : list Prefix := [PrefixFrom ex_self 32].
Definition ex_rule : Match :=
  MkMatch [ipproto.TCP; ipproto.UDP] [PrefixFrom (Addr4 0x64400000) 10] emptySet ["cap"]
    [MkNetPortRange (PrefixFrom ex_self 32) (MkPortRange 22 22)] [].
Definition ex_udp (s d : Addr) (sp dp : Z) : bytes :=
  match Generate (MkUDP4 (MkIP4 0 0 s d) sp dp) [x01] with inr p => p | inl _ => [] end.
Definition ex_filter : t := withHooks (New [ex_rule] None (Some ex_locals) None None []).1 [] [].
Definition ex_store : store := (New [ex_rule] None (Some ex_locals) None None []).2.
Lemma ex_ms_ok : Forall (fun mt => Forall prefix_ok (Srcs mt)) [ex_rule].
Proof. repeat constructor; cbn; lia. Qed.
Lemma ex_locals_ok : Forall prefix_ok ex_locals.
Proof. repeat constructor; cbn; lia. Qed.
Lemma parse_decoded p : decoded (parse p).
Proof. unfold parse. by destruct (Decode_decoded zeroParsed p) as (r & -> & _ & D). Qed.

Lemma filter_admits_exactly_witness :
  ((RunIn ex_filter (parse (ex_udp ex_peer ex_self 999 22)) ex_store).1 = Accept
   <-> admits ex_filter [ex_rule] ex_locals [] (parse (ex_udp ex_peer ex_self 999 22)))
  /\ (RunIn ex_filter (parse (ex_udp ex_peer ex_self 999 23)) ex_store).1 = Drop.
Proof.
  destruct (New_state [ex_rule] None (Some ex_locals) None [] [] []) as [(_ & I & _) K].
  split; [|vm_compute; reflexivity].
  refine (proj1 (filter_admits_exactly [ex_rule] None ex_locals None None [] [] []
    (parse (ex_udp ex_peer ex_self 999 22)) ex_store ex_ms_ok ex_locals_ok (parse_decoded _) I)).
Defined.

Lemma agree_passable f q q' :
  agree q q' -> IPProto q' <> ipproto.Unknown -> IsLinkLocalUnicast (ip (Dst q')) = false ->
  passable f q' -> passable f q.
Proof.
  intros A U LL (L & _ & M & _). rewrite <- (a_proto _ _ A) in U. destruct (a_addrs q q' A U) as (_ & Ed & _).
  unfold passable. rewrite (a_buf _ _ A), Ed, LL, M. done.
Qed.
Lemma replies_admitted_witness :
  (handle ex_filter (after ex_filter (zeroParsed, ex_store)
     [EvIn (ex_udp ex_peer ex_self 7 8); EvOut (ex_udp ex_self ex_peer 5000 53); EvIn (ex_udp ex_peer ex_self 1 2)])
     (EvIn (ex_udp ex_peer ex_self 53 5000))).1 = Accept.
Proof.
  refine (replies_admitted [ex_rule] None ex_locals None [] [] [] zeroParsed
    [EvIn (ex_udp ex_peer ex_self 7 8)] (ex_udp ex_self ex_peer 5000 53) [EvIn (ex_udp ex_peer ex_self 1 2)]
    (ex_udp ex_peer ex_self 53 5000) ex_ms_ok ex_locals_ok _ _ _ _ _ _ _).
  - intros q A. refine (agree_passable _ _ _ A _ _ _); [vm_compute; discriminate|vm_compute; reflexivity|].
    apply (bool_decide_eq_true _). vm_compute. reflexivity.
  - vm_compute. reflexivity.
  - intros q A. refine (agree_passable _ _ _ A _ _ _); [vm_compute; discriminate|vm_compute; reflexivity|].
    apply (bool_decide_eq_true _). vm_compute. reflexivity.
  - vm_compute. reflexivity.
  - vm_compute. reflexivity.
  - exists (PrefixFrom ex_self 32). split; [by left|vm_compute; reflexivity].
  - apply Nat.ltb_lt. vm_compute. reflexivity.
Defined.
Lemma unsolicited_flow_dropped_witness :
  exists p', EvOut p' ∈ [EvOut (ex_udp ex_self ex_peer 5000 53)]
    /\ isFlow (parse p') = true /\ outTuple (parse p') = inTuple (parse (ex_udp ex_peer ex_self 53 5000)).
Proof.
  refine (unsolicited_flow_dropped [ex_rule] None ex_locals None [] [] [] zeroParsed
    [EvOut (ex_udp ex_self ex_peer 5000 53)] (ex_udp ex_peer ex_self 53 5000) ex_ms_ok ex_locals_ok _ _ _ _).
  - vm_compute. reflexivity.
  - intros (mt & Hm%list_elem_of_singleton & _ & _ & (d & Hd & _ & P)). subst mt.
    apply list_elem_of_singleton in Hd. subst d. destruct P as [_ P]. vm_compute in P. by apply P.
  - intros q _ (h & Hh%not_elem_of_nil & _). exact Hh.
  - vm_compute. reflexivity.
Defined.
Definition ex_shields : t := (NewShieldsUpFilter (Some ex_locals) None (Some ex_filter) ex_store).1.
Definition ex_shields_store : store := (NewShieldsUpFilter (Some ex_locals) None (Some ex_filter) ex_store).2.
Lemma shields_up_closed_witness :
  (RunIn ex_shields (parse (ex_udp ex_peer ex_self 999 22)) ex_shields_store).1 = Drop
  /\ cacheKeys (stateOf ex_shields ex_shields_store) = [].
Proof.
  refine (shields_up_closed ex_locals None (Some ex_filter) ex_store (parse (ex_udp ex_peer ex_self 999 22))
    ex_shields_store ex_locals_ok (parse_decoded _) _ _ _ _ _ _ _).
  - exact (proj1 (proj2 (proj1 (New_state [] None (Some ex_locals) None ex_store [] [])))).
  - vm_compute. discriminate.
  - vm_compute. discriminate.
  - vm_compute. discriminate.
  - vm_compute. discriminate.
  - vm_compute. discriminate.
  - intros _. vm_compute. intros Hx. inversion Hx.
Defined.
Definition ex_grant : Match :=
  MkMatch [] [PrefixFrom ex_peer 32] emptySet [] []
    [MkCapMatch (PrefixFrom ex_self 32) "file" ["r"]; MkCapMatch (PrefixFrom ex_self 32) "file" ["w"]].
Lemma caps_exact_witness :
  CapsWithValues (New [ex_grant] None (Some ex_locals) None None []).1 ex_peer ex_self !! "file" = Some ["r"; "w"].
Proof.
  refine (eq_trans (caps_exact [ex_grant] None (Some ex_locals) None None [] ex_peer ex_self "file" _ _ _) _).
  - repeat constructor; cbn; lia.
  - reflexivity.
  - discriminate.
  - vm_compute. reflexivity.
Defined.
Lemma check_tcp_exact_witness :
  exists r, CheckTCP ex_filter ex_peer ex_self 22 ex_store = Some (r, ex_store) /\ r = Accept.
Proof.
  destruct (check_tcp_exact [ex_rule] None ex_locals None None [] ex_peer ex_self 22 ex_store
    ex_ms_ok ex_locals_ok eq_refl eq_refl eq_refl eq_refl) as (r & E & _ & A).
  - exact (proj1 (proj2 (proj1 (New_state [ex_rule] None (Some ex_locals) None [] [] [])))).
  - exists r. split; [exact E|]. apply A. split; [reflexivity|]. split; [vm_compute; reflexivity|].
    split; [vm_compute; discriminate|]. split; [exists (PrefixFrom ex_self 32); split; [by left|vm_compute; reflexivity]|].
    exists ex_rule. split; [by left|]. split; [by left|]. split.
    + left. exists (PrefixFrom (Addr4 0x64400000) 10). split; [by left|vm_compute; reflexivity].
    + exists (MkNetPortRange (PrefixFrom ex_self 32) (MkPortRange 22 22)). split; [by left|].
      split; [vm_compute; reflexivity|vm_compute; split; discriminate].
Defined.
