(* ===== verification/Checksum.v ===== *)
(** * Checksum updates (net/packet/checksum)

    Rewriting an address of a decoded packet in place, with the incremental update of the IP
    header's and the transport's checksum. The buffer of a [Parsed] is its field [b]; [None] is a
    panic, the library's own or that of a slice out of range. *)
From S2P Require Import Prelude Netip Bytes Slices IPPacket.
Import IPPacket.

Module Checksum.

Definition as4 (a : Addr) : option bytes := match As4 a with inr x => Some x | inl _ => None end.
(** [copy(b[lo:hi], v)] *)
Definition copyInto (b : bytes) (lo hi : nat) (v : bytes) : option bytes :=
  _ ← slice b lo hi; Some (copyAt lo v b).

(** ** RFC 1624, on whole fields *)
(** The loop of [updateV4Checksum]; [cPrime] is a [uint32]. *)
Fixpoint addDiffs (cPrime : Z) (old new : bytes) : Z :=
  match old, new with
  | o1 :: o2 :: old, n1 :: n2 :: new =>
      let mNot := uw 16 (Z.lnot (be_get [o1; o2])) in
      let mPrime := be_get [n1; n2] in
      addDiffs (uw 32 (cPrime + uw 32 (mPrime + mNot))) old new
  | _, _ => cPrime
  end.
(** The new contents of the checksum field [oldSum]; two passes add the carries back. *)
Definition updateV4Checksum (oldSum old new : bytes) : option bytes :=
  if negb (length old =? length new)%nat then None
  else if negb (length old mod 2 =? 0)%nat then None
  else
    o ← u16 oldSum 0;
    let c := uw 16 (Z.lnot o) in
    let cPrime := foldCarry 2 (addDiffs c old new) in
    Some (be_put 2 (uw 16 (Z.lnot (uw 16 cPrime)))).

(** ** gVisor's update, word by word *)
Definition checksumCombine (a b : Z) : Z := let v := uw 32 (a + b) in uw 16 (uw 32 (v + Z.shiftr v 16)).
Definition checksumUpdate2ByteAlignedUint16 (xsum old new : Z) : Z :=
  if old =? new then xsum else checksumCombine xsum (checksumCombine new (uw 16 (Z.lnot old))).
Fixpoint checksumUpdate2ByteAlignedAddress (xsum : Z) (oldAddr newAddr : bytes) : Z :=
  match oldAddr, newAddr with
  | o1 :: o2 :: oldAddr, n1 :: n2 :: newAddr =>
      checksumUpdate2ByteAlignedAddress
        (checksumUpdate2ByteAlignedUint16 xsum
           (uw 16 (uw 16 (Z.shiftl (b2z o1) 8) + b2z o2)) (uw 16 (uw 16 (Z.shiftl (b2z n1) 8) + b2z n2)))
        oldAddr newAddr
  | _, _ => xsum
  end.

(** ** A packet *)
Definition minUDPSize : nat := 8.
Definition minTCPSize : nat := 20.
Definition minICMPv6Size : nat := 8.
Definition minIPv6Header : nat := 40.
Definition offsetICMPv6Checksum : nat := 2.
Definition offsetUDPChecksum : nat := 6.
Definition offsetTCPChecksum : nat := 16.

(** [updateV4Checksum(b[at:at+2], old, new)] *)
Definition updateFieldV4 (p : Parsed) (at_ : nat) (o4 n4 : bytes) : option Parsed :=
  field ← slice (b p) at_ (at_ + 2);
  field ← updateV4Checksum field o4 n4;
  Some (set_buf p (copyAt at_ field (b p))).
Definition updateV4PacketChecksums (p : Parsed) (old new : Addr) : option Parsed :=
  if (length (b p) <? 12)%nat then Some p else
  o4 ← as4 old;
  n4 ← as4 new;
  p ← updateFieldV4 p 10 o4 n4;
  tr ← Transport p;
  let proto := IPProto p in
  if (proto =? ipproto.UDP) || (proto =? ipproto.DCCP) then
    if (length tr <? minUDPSize)%nat then Some p else updateFieldV4 p (subofs p + 6) o4 n4
  else if proto =? ipproto.TCP then
    if (length tr <? minTCPSize)%nat then Some p else updateFieldV4 p (subofs p + 16) o4 n4
  else if proto =? ipproto.GRE then
    if (length tr <? 6)%nat then Some p
    else
      t0 ← idx tr 0;
      if t0 =? 1 then updateFieldV4 p (subofs p + 4) o4 n4 else Some p
  else Some p.

(** [ss := tr[at:]] with the checksum at its start *)
Definition updateFieldV6 (p : Parsed) (at_ : nat) (o6 n6 : bytes) : option Parsed :=
  xsum ← u16 (b p) at_;
  let xsum := uw 16 (Z.lnot xsum) in
  let xsum := checksumUpdate2ByteAlignedAddress xsum o6 n6 in
  let xsum := uw 16 (Z.lnot xsum) in
  Some (set_buf p (copyAt at_ (be_put 2 xsum) (b p))).
Definition updateV6PacketChecksums (p : Parsed) (old new : Addr) : option Parsed :=
  if (length (b p) <? minIPv6Header)%nat then Some p else
  let o6 := As16 old in
  let n6 := As16 new in
  tr ← Transport p;
  let proto := IPProto p in
  if proto =? ipproto.ICMPv6 then
    if (length tr <? minICMPv6Size)%nat then Some p
    else updateFieldV6 p (subofs p + offsetICMPv6Checksum) o6 n6
  else if (proto =? ipproto.UDP) || (proto =? ipproto.DCCP) then
    if (length tr <? minUDPSize)%nat then Some p
    else updateFieldV6 p (subofs p + offsetUDPChecksum) o6 n6
  else if proto =? ipproto.TCP then
    if (length tr <? minTCPSize)%nat then Some p
    else updateFieldV6 p (subofs p + offsetTCPChecksum) o6 n6
  else Some p.

Definition UpdateSrcAddr (q : Parsed) (src : Addr) : option Parsed :=
  if Is6 src && negb (IPVersion q =? 6) then None
  else if Is4 src && negb (IPVersion q =? 4) then None
  else
    let m := captureMeta q in
    let q := set_captureMeta q (MkCaptureMeta true (Src q) (DidDNAT m) (OriginalDst m)) in
    let old := ip (Src q) in
    let q := set_Src q (MkAddrPort src (port (Src q))) in
    if Is6 src then
      buf ← copyInto (b q) 8 24 (As16 src);
      updateV6PacketChecksums (set_buf q buf) old src
    else
      v4 ← as4 src;
      buf ← copyInto (b q) 12 16 v4;
      updateV4PacketChecksums (set_buf q buf) old src.
Definition UpdateDstAddr (q : Parsed) (dst : Addr) : option Parsed :=
  if Is6 dst && negb (IPVersion q =? 6) then None
  else if Is4 dst && negb (IPVersion q =? 4) then None
  else
    let m := captureMeta q in
    let q := set_captureMeta q (MkCaptureMeta (DidSNAT m) (OriginalSrc m) true (Dst q)) in
    let old := ip (Dst q) in
    let q := set_Dst q (MkAddrPort dst (port (Dst q))) in
    if Is6 dst then
      buf ← copyInto (b q) 24 40 (As16 dst);
      updateV6PacketChecksums (set_buf q buf) old dst
    else
      v4 ← as4 dst;
      buf ← copyInto (b q) 16 20 v4;
      updateV4PacketChecksums (set_buf q buf) old dst.

End Checksum.
