(* ===== verification/ChecksumProps.v ===== *)
(** * Theorems on checksum updates

    Rewriting an address keeps a packet's checksums right when they were right and changes
    nothing else of what a decoder sees. *)
From S2P Require Import Prelude Netip Bytes Slices IPPacket IPPacketProps PacketHeaders Checksum.
Import IPPacket Checksum.

#[local] Arguments be_put : simpl never.
#[local] Arguments be_get : simpl never.
#[local] Arguments As16 : simpl never.
#[local] Arguments copyAt : simpl never.
#[local] Arguments Z.of_nat : simpl never.
#[local] Arguments Nat.ltb : simpl never.
#[local] Arguments wordSum : simpl never.
#[local] Hint Rewrite length_copyAt : len.

(** ** The header fields of a packet *)
Definition byteAt (p : bytes) (i : nat) : Z := default 0 (idx p i).
Definition wordAt (p : bytes) (i : nat) : Z := be_get (take 2 (drop i p)).
Definition verOf (p : bytes) : Z := Z.shiftr (byteAt p 0) 4.
Definition ihl (p : bytes) : nat := Z.to_nat (uw 8 (Z.shiftl (Z.land (byteAt p 0) 0x0F) 2)).
Definition totalLen4 (p : bytes) : nat := Z.to_nat (wordAt p 2).
Definition totalLen6 (p : bytes) : nat := (Z.to_nat (wordAt p 4) + 40)%nat.
(** The packet has all of its fixed header and of the length in it. *)
Definition whole4 (p : bytes) : Prop := (20 <= length p)%nat /\ verOf p = 4 /\ (totalLen4 p <= length p)%nat.
Definition whole6 (p : bytes) : Prop := (40 <= length p)%nat /\ verOf p = 6 /\ (totalLen6 p <= length p)%nat.

(** The protocol a packet is taken to have, as a function of the fields that decide it *)
Definition proto4 (n : nat) (proto : Z) (tl so : nat) (frag : Z) : Z :=
  let room k := if (n - so <? k)%nat then ipproto.Unknown else proto in
  if (tl <? so)%nat then ipproto.Unknown
  else if Z.land frag 0x1FFF =? 0 then
    if proto =? ipproto.ICMPv4 then room icmp4HeaderLength
    else if proto =? ipproto.IGMP then room igmpHeaderLength
    else if proto =? ipproto.TCP then room tcpHeaderLength
    else if proto =? ipproto.UDP then room udpHeaderLength
    else if proto =? ipproto.SCTP then room sctpHeaderLength
    else if proto =? ipproto.TSMP then
      if negb (Z.land frag 0x2000 =? 0) then ipproto.Unknown else room minTSMPSize
    else if proto =? ipproto.Fragment then ipproto.Unknown
    else proto
  else if Z.land frag 0x1FFF <? minFragBlks then ipproto.Unknown
  else ipproto.Fragment.
Definition proto6 (n : nat) (proto : Z) : Z :=
  let room k := if (n - 40 <? k)%nat then ipproto.Unknown else proto in
  if proto =? ipproto.ICMPv6 then room icmp6HeaderLength
  else if proto =? ipproto.TCP then room tcpHeaderLength
  else if proto =? ipproto.UDP then room udpHeaderLength
  else if proto =? ipproto.SCTP then room sctpHeaderLength
  else if proto =? ipproto.TSMP then room minTSMPSize
  else if proto =? ipproto.Fragment then ipproto.Unknown
  else proto.

(** What a packet with a whole header is decoded to, ports and flags apart *)
Record read4 (p : bytes) (r : Parsed) : Prop := MkRead4 {
  r4_buf : b r = p;
  r4_version : IPVersion r = 4;
  r4_src : ip (Src r) = Addr4 (be_get (take 4 (drop 12 p)));
  r4_dst : ip (Dst r) = Addr4 (be_get (take 4 (drop 16 p)));
  r4_subofs : subofs r = ihl p;
  r4_length : length_ r = totalLen4 p;
  r4_proto : IPProto r = proto4 (length p) (byteAt p 9) (totalLen4 p) (ihl p) (wordAt p 6) }.
Record read6 (p : bytes) (r : Parsed) : Prop := MkRead6 {
  r6_buf : b r = p;
  r6_version : IPVersion r = 6;
  r6_src : ip (Src r) = AddrFrom16 (take 16 (drop 8 p));
  r6_dst : ip (Dst r) = AddrFrom16 (take 16 (drop 24 p));
  r6_subofs : subofs r = 40%nat;
  r6_length : length_ r = totalLen6 p;
  r6_proto : IPProto r = proto6 (length p) (byteAt p 6) }.

Lemma byteAt_idx p i : (i < length p)%nat -> idx p i = Some (byteAt p i).
Proof. intros H. unfold byteAt. destruct (idx_lt p i H) as (z & -> & _). done. Qed.
Lemma readPorts_keeps q sub : (4 <= length sub)%nat ->
  exists r, readPorts q sub = Some r /\ b r = b q /\ IPVersion r = IPVersion q /\ IPProto r = IPProto q
    /\ ip (Src r) = ip (Src q) /\ ip (Dst r) = ip (Dst q) /\ subofs r = subofs q /\ length_ r = length_ q.
Proof. intros L. rewrite readPorts_eq by done. eexists. split; [done|]. by destruct q. Qed.
Lemma readTCP_keeps q sub : (20 <= length sub)%nat ->
  exists r, readTCP q sub = Some r /\ b r = b q /\ IPVersion r = IPVersion q /\ IPProto r = IPProto q
    /\ ip (Src r) = ip (Src q) /\ ip (Dst r) = ip (Dst q) /\ subofs r = subofs q /\ length_ r = length_ q.
Proof.
  intros L. destruct (readTCP_eq q sub L) as (f & d & _ & ->). eexists. split; [done|]. by destruct q.
Qed.

(** The fields that only the fixed header decides *)
Definition fixed (p : bytes) (v : Z) (src dst : Addr) (so tl : nat) (r : Parsed) : Prop :=
  b r = p /\ IPVersion r = v /\ ip (Src r) = src /\ ip (Dst r) = dst /\ subofs r = so /\ length_ r = tl.
Ltac whole_case :=
  match goal with
  | |- exists r, (if (?x <? ?y)%nat then _ else _) = Some r /\ _ => destruct (Nat.ltb_spec x y)
  | |- exists r, (if ?x =? ?y then _ else _) = Some r /\ _ => destruct (Z.eqb_spec x y)
  | |- exists r, (if ?x then _ else _) = Some r /\ _ => destruct x eqn:?
  end.
(** A branch of a decoder that has read the fixed header *)
Ltac whole_leaf :=
  unfold tcpHeaderLength, udpHeaderLength, sctpHeaderLength in *;
  match goal with
  | |- context [readTCP ?q ?s] =>
      destruct (readTCP_keeps q s) as (r & -> & ? & ? & Ep & ? & ? & ? & ?); [len|];
      exists r; split; [done|]; split; [by repeat split|by rewrite Ep]
  | |- context [readPorts ?q ?s ≫= _] =>
      destruct (readPorts_keeps q s) as (r & -> & ? & ? & Ep & ? & ? & ? & ?); [len|];
      eexists; split; [reflexivity|]; destruct r; split; [by repeat split|exact Ep]
  | |- context [readPorts ?q ?s] =>
      destruct (readPorts_keeps q s) as (r & -> & ? & ? & Ep & ? & ? & ? & ?); [len|];
      exists r; split; [done|]; split; [by repeat split|by rewrite Ep]
  | _ => eexists; split; [reflexivity|]; split; [by repeat split|reflexivity]
  end.

Lemma decode4_whole q p :
  b q = p -> IPVersion q = 4 -> (20 <= length p)%nat -> (totalLen4 p <= length p)%nat ->
  exists r, decode4 q p = Some r
    /\ fixed p 4 (Addr4 (be_get (take 4 (drop 12 p)))) (Addr4 (be_get (take 4 (drop 16 p)))) (ihl p) (totalLen4 p) r
    /\ IPProto r = proto4 (length p) (byteAt p 9) (totalLen4 p) (ihl p) (wordAt p 6).
Proof.
  intros Hb Hv L T. destruct q as [bu so d l ve pr s t f m]. simpl in Hb, Hv. subst bu ve. unfold decode4.
  rewrite (proj2 (Nat.ltb_ge _ _)) by exact L. rewrite !byteAt_idx, !u16_lt, !(slice_lt p) by lia.
  cbn [mbind option_bind]. change (be_get (take 2 (drop 6 p))) with (wordAt p 6).
  change (Z.to_nat (be_get (take 2 (drop 2 p)))) with (totalLen4 p).
  change (Z.to_nat (uw 8 (Z.shiftl (Z.land (byteAt p 0) 15) 2))) with (ihl p).
  cbn -[readTCP readPorts slice]. rewrite (proj2 (Nat.ltb_ge _ _)) by exact T.
  unfold proto4. destruct (Nat.ltb_spec (totalLen4 p) (ihl p)); [whole_leaf|].
  rewrite slice_lt by lia. cbn [mbind option_bind]. rewrite (take_ge (drop (ihl p) p)), length_drop by len.
  generalize (byteAt p 9). intros pr'. repeat whole_case; subst; whole_leaf.
Qed.
Lemma decode6_whole q p :
  b q = p -> IPVersion q = 6 -> (40 <= length p)%nat -> (totalLen6 p <= length p)%nat ->
  exists r, decode6 q p = Some r
    /\ fixed p 6 (AddrFrom16 (take 16 (drop 8 p))) (AddrFrom16 (take 16 (drop 24 p))) 40 (totalLen6 p) r
    /\ IPProto r = proto6 (length p) (byteAt p 6).
Proof.
  intros Hb Hv L T. destruct q as [bu so d l ve pr s t f m]. simpl in Hb, Hv. subst bu ve. unfold decode6.
  rewrite (proj2 (Nat.ltb_ge _ _)) by exact L. rewrite !byteAt_idx, !u16_lt, !(slice_lt p) by lia.
  cbn [mbind option_bind].
  change (Z.to_nat (be_get (take 2 (drop 4 p))) + ip6HeaderLength)%nat with (totalLen6 p).
  cbn -[readTCP readPorts slice]. rewrite (proj2 (Nat.ltb_ge _ _)) by exact T. unfold proto6.
  rewrite slice_lt by lia. cbn [mbind option_bind]. rewrite (take_ge (drop 40 p)), length_drop by len.
  generalize (byteAt p 6). intros pr'. repeat whole_case; subst; whole_leaf.
Qed.

Lemma Decode_ver q p :
  (1 <= length p)%nat ->
  let q0 := set_IPVersion (set_captureMeta (set_buf q p) zeroCaptureMeta) (verOf p) in
  Decode q p = if verOf p =? 4 then decode4 q0 p else if verOf p =? 6 then decode6 q0 p
               else Some (unknown (set_IPVersion q0 0)).
Proof.
  intros L. unfold Decode. rewrite (proj2 (Nat.ltb_ge _ _)), byteAt_idx by lia. by destruct q.
Qed.
Lemma Decode_whole4 q p : whole4 p -> exists r, Decode q p = Some r /\ read4 p r.
Proof.
  intros (L & V & T). rewrite Decode_ver, V by lia. simpl. destruct (decode4_whole (set_IPVersion (set_captureMeta (set_buf q p) zeroCaptureMeta) 4) p)
    as (r & E & (? & ? & ? & ? & ? & ?) & ?); [by destruct q|by destruct q|done|done|]. exists r. by repeat split.
Qed.
Lemma Decode_whole6 q p : whole6 p -> exists r, Decode q p = Some r /\ read6 p r.
Proof.
  intros (L & V & T). rewrite Decode_ver, V by lia. simpl. destruct (decode6_whole (set_IPVersion (set_captureMeta (set_buf q p) zeroCaptureMeta) 6) p)
    as (r & E & (? & ? & ? & ? & ? & ?) & ?); [by destruct q|by destruct q|done|done|]. exists r. by repeat split.
Qed.
(** A packet of known protocol is whole. *)
Lemma known_whole q p r :
  Decode q p = Some r -> IPProto r <> ipproto.Unknown -> whole4 p /\ read4 p r \/ whole6 p /\ read6 p r.
Proof.
  intros E U. destruct (decide (1 <= length p)%nat) as [L|L].
  2: { exfalso. apply U. unfold Decode in E. rewrite (proj2 (Nat.ltb_lt _ _)) in E by lia. injection E as <-. by destruct q. }
  pose proof E as E'. rewrite Decode_ver in E by done. destruct (Z.eqb_spec (verOf p) 4) as [V|V4].
  { left. assert (whole4 p) as W.
    { unfold decode4 in E. destruct (Nat.ltb_spec (length p) ip4HeaderLength); [injection E as <-; by destruct q|].
      unfold ip4HeaderLength in *. split; [done|]. split; [done|].
      rewrite (byteAt_idx p 9), (u16_lt p 2) in E by lia. destruct q; cbn -[slice] in E.
      match type of E with (if ?c then _ else _) = _ => destruct c eqn:C end; [injection E as <-; done|].
      by apply Nat.ltb_ge in C. }
    split; [done|]. destruct (Decode_whole4 q p W) as (? & [= <-]%(eq_trans (eq_sym E')) & R). done. }
  destruct (Z.eqb_spec (verOf p) 6) as [V|V6]; [|injection E as <-; by destruct q].
  right. assert (whole6 p) as W.
  { unfold decode6 in E. destruct (Nat.ltb_spec (length p) ip6HeaderLength); [injection E as <-; by destruct q|].
    unfold ip6HeaderLength in *. split; [done|]. split; [done|].
    rewrite (byteAt_idx p 6), (u16_lt p 4) in E by lia. destruct q; cbn -[slice] in E.
    match type of E with (if ?c then _ else _) = _ => destruct c eqn:C end; [injection E as <-; done|].
    by apply Nat.ltb_ge in C. }
  split; [done|]. destruct (Decode_whole6 q p W) as (? & [= <-]%(eq_trans (eq_sym E')) & R). done.
Qed.

(** ** Writing into a buffer *)
Lemma lookup_copyAt off v x i :
  (off + length v <= length x)%nat ->
  copyAt off v x !! i = if (off <=? i)%nat && (i <? off + length v)%nat then v !! (i - off)%nat else x !! i.
Proof.
  intros L. rewrite copyAt_fit by done.
  destruct (Nat.leb_spec off i); simpl; [|rewrite lookup_app_l by len; by rewrite lookup_take_lt by lia].
  rewrite lookup_app_r, length_take_le by len. destruct (Nat.ltb_spec i (off + length v)).
  - by rewrite lookup_app_l by lia.
  - rewrite lookup_app_r, lookup_drop by lia. f_equal. lia.
Qed.
Lemma take_copyAt n off v x :
  (off + length v <= n)%nat -> (n <= length x)%nat -> take n (copyAt off v x) = copyAt off v (take n x).
Proof.
  intros H1 H2. apply list_eq. intros i. rewrite lookup_copyAt by len.
  destruct (decide (i < n)%nat).
  - rewrite !lookup_take_lt, lookup_copyAt by (done || len). done.
  - rewrite !lookup_take_ge by lia. destruct (_ && _) eqn:E; [|done]. apply andb_prop in E as [?%Nat.leb_le ?%Nat.ltb_lt]. lia.
Qed.
Lemma take_copyAt_id n off v x :
  (n <= off)%nat -> (off + length v <= length x)%nat -> take n (copyAt off v x) = take n x.
Proof.
  intros H1 H2. apply list_eq. intros i. destruct (decide (i < n)%nat).
  - rewrite !lookup_take_lt, lookup_copyAt by done. destruct (Nat.leb_spec off i); [lia|done].
  - by rewrite !lookup_take_ge by lia.
Qed.
Lemma drop_copyAt n off v x :
  (n <= off)%nat -> (off + length v <= length x)%nat -> drop n (copyAt off v x) = copyAt (off - n) v (drop n x).
Proof.
  intros H1 H2. apply list_eq. intros i. rewrite lookup_drop, !lookup_copyAt by len. rewrite lookup_drop.
  replace (off - n <=? i)%nat with (off <=? n + i)%nat
    by (destruct (Nat.leb_spec off (n + i)), (Nat.leb_spec (off - n) i); lia || done).
  replace (i <? off - n + length v)%nat with (n + i <? off + length v)%nat
    by (destruct (Nat.ltb_spec (n + i) (off + length v)), (Nat.ltb_spec i (off - n + length v)); lia || done).
  destruct (_ && _) eqn:E; [|done]. apply andb_prop in E as [?%Nat.leb_le _]. f_equal. lia.
Qed.
Lemma drop_copyAt_id n off v x :
  (off + length v <= n)%nat -> (off + length v <= length x)%nat -> drop n (copyAt off v x) = drop n x.
Proof.
  intros H1 H2. apply list_eq. intros i. rewrite !lookup_drop, lookup_copyAt by done.
  destruct (Nat.ltb_spec (n + i) (off + length v)); [lia|]. by rewrite andb_false_r.
Qed.
Lemma wordSum_copyAt off v x :
  Nat.Even off -> Nat.Even (length v) -> (off + length v <= length x)%nat ->
  wordSum (copyAt off v x) + wordSum (take (length v) (drop off x)) = wordSum x + wordSum v.
Proof.
  intros Eo Ev L. rewrite copyAt_fit by done.
  rewrite <- (take_drop off x) at 4. rewrite <- (take_drop (length v) (drop off x)) at 2. rewrite drop_drop.
  rewrite !wordSum_app; [lia|..]; len; by rewrite ?Nat.min_l by lia.
Qed.

(** ** The incremental updates, modulo 65535 *)
Notation "x ≡₁ y" := (x mod 65535 = y mod 65535) (at level 70) : Z_scope.

Lemma cong_iff x y : x ≡₁ y <-> exists k, x = y + k * 65535.
Proof.
  split; [|by intros (k & ->); rewrite Z.mod_add by lia].
  intros E. exists (x / 65535 - y / 65535). rewrite (Z.div_mod x 65535), (Z.div_mod y 65535), E at 1 by lia. lia.
Qed.
Lemma wordSum_cons2 x y l : wordSum (x :: y :: l) = 256 * b2z x + b2z y + wordSum l.
Proof. done. Qed.
Lemma wordSum2 f : length f = 2%nat -> wordSum f = be_get f /\ 0 <= be_get f < 65536.
Proof.
  intros L. destruct f as [|x [|y [|]]]; try done. rewrite be_get_pair. unfold wordSum.
  pose proof (b2z_range x). pose proof (b2z_range y). lia.
Qed.
(** Complementing a word negates it. *)
Lemma lnot_word f : 0 <= f < 65536 -> uw 16 (Z.lnot f) = 65535 - f.
Proof. apply uw_lnot. Qed.
Lemma addDiffs_eq c old new :
  length old = length new -> Nat.Even (length old) -> 0 <= c -> c + 131070 * Z.of_nat (length old) < 2 ^ 32 ->
  addDiffs c old new = c + wordSum new + 65535 * Z.of_nat (length old / 2) - wordSum old.
Proof.
  revert c new. induction old as [|x|x y l IH] using pair_ind; intros c new L [k E] H0 H1;
    destruct new as [|x' [|y' new]]; cbn [length] in *; try lia; [unfold wordSum; simpl; lia|].
  cbn [addDiffs]. rewrite !be_get_pair. rewrite !wordSum_cons2.
  pose proof (b2z_range x). pose proof (b2z_range y). pose proof (b2z_range x'). pose proof (b2z_range y').
  rewrite lnot_word by lia. rewrite (uw_small 32 (_ + (65535 - _))), uw_small by lia.
  rewrite IH; [|lia|exists (k - 1)%nat; lia|lia|lia].
  replace (S (S (length l)) / 2)%nat with (S (length l / 2)); [lia|].
  change (S (S (length l))) with (2 + length l)%nat. by rewrite (Nat.div_add_l 1 2) by lia.
Qed.
Lemma wordSum_half l : Nat.Even (length l) -> wordSum l <= 65535 * Z.of_nat (length l / 2).
Proof.
  induction l as [|x|x y l IH] using pair_ind; intros [k E]; cbn [length] in *; [unfold wordSum; simpl; lia|lia|].
  rewrite wordSum_cons2. change (S (S (length l))) with (1 * 2 + length l)%nat. rewrite Nat.div_add_l by lia.
  pose proof (b2z_range x). pose proof (b2z_range y). specialize (IH ltac:(exists (k - 1)%nat; lia)). lia.
Qed.
Lemma updateV4Checksum_spec f old new :
  length f = 2%nat -> length old = length new -> Nat.Even (length old) -> (length old <= 100)%nat ->
  exists f', updateV4Checksum f old new = Some f' /\ length f' = 2%nat
    /\ wordSum f' + wordSum new ≡₁ wordSum f + wordSum old.
Proof.
  intros Lf L Ev B. destruct (wordSum2 f Lf) as [-> R]. unfold updateV4Checksum.
  rewrite (proj2 (Nat.eqb_eq _ _) L). cbn [negb].
  assert (length old mod 2 = 0)%nat as -> by (destruct Ev as [k ->]; rewrite Nat.mul_comm; apply Nat.Div0.mod_mul).
  cbn [negb Nat.eqb]. rewrite u16_lt, drop_0, take_ge by lia. cbn [mbind option_bind]. rewrite (lnot_word (be_get f)) by done.
  rewrite addDiffs_eq by (done || lia).
  pose proof (wordSum_half old Ev). pose proof (wordSum_bounds new).
  pose proof (Nat.div_le_upper_bound (length old) 2 100 ltac:(lia) ltac:(lia)).
  pose proof (wordSum_bounds old).
  set (c := 65535 - be_get f + _ + _ - _) in *.
  destruct (foldCarry_spec c) as (R' & (k & M)%cong_iff & _); [unfold c; lia|]. eexists. split; [done|].
  split; [by rewrite length_be_put|]. rewrite (uw_small 16 (foldCarry 2 c)) by lia. rewrite lnot_word by done.
  rewrite wordSum_be_put2 by lia. apply cong_iff. exists (- Z.of_nat (length old / 2) - k). lia.
Qed.

Lemma checksumCombine_spec x y :
  0 <= x < 65536 -> 0 <= y < 65536 ->
  0 <= Checksum.checksumCombine x y < 65536 /\ Checksum.checksumCombine x y ≡₁ x + y.
Proof.
  intros Hx Hy. unfold Checksum.checksumCombine. rewrite (uw_small 32 (x + y)), Z.shiftr_div_pow2 by lia.
  change (2 ^ 16) with 65536. pose proof (Z.div_mod (x + y) 65536 ltac:(lia)) as D.
  pose proof (Z.mod_pos_bound (x + y) 65536 ltac:(lia)). set (h := (x + y) / 65536) in *.
  assert (h = 0 \/ h = 1) as [->| ->] by lia; rewrite (uw_small 32) by lia; split; try (apply uw_range; lia).
  - rewrite uw_small by lia. f_equal. lia.
  - rewrite cong_iff. exists (-1). unfold uw. rewrite <- (Z.mod_add _ (-1)) by lia. change (2 ^ 16) with 65536. rewrite Z.mod_small; lia.
Qed.
Lemma update16_spec x o n :
  0 <= x < 65536 -> 0 <= o < 65536 -> 0 <= n < 65536 ->
  0 <= checksumUpdate2ByteAlignedUint16 x o n < 65536 /\ checksumUpdate2ByteAlignedUint16 x o n ≡₁ x + n - o.
Proof.
  intros Hx Ho Hn. unfold checksumUpdate2ByteAlignedUint16. destruct (Z.eqb_spec o n); [subst; split; [done|f_equal; lia]|].
  rewrite lnot_word by done. destruct (checksumCombine_spec n (65535 - o)) as (R1 & (k1 & E1)%cong_iff); [lia..|].
  destruct (checksumCombine_spec x _ Hx R1) as (R2 & (k2 & E2)%cong_iff). split; [done|]. apply cong_iff.
  exists (k1 + k2 + 1). lia.
Qed.
Lemma update6_spec x old new :
  length old = length new -> Nat.Even (length old) -> 0 <= x < 65536 ->
  0 <= checksumUpdate2ByteAlignedAddress x old new < 65536
  /\ checksumUpdate2ByteAlignedAddress x old new ≡₁ x + wordSum new - wordSum old.
Proof.
  revert x new. induction old as [|o1|o1 o2 l IH] using pair_ind; intros x new L [k E] Hx;
    destruct new as [|n1 [|n2 new]]; cbn [length] in *; try lia.
  { split; [done|]. f_equal. unfold wordSum. simpl. lia. }
  cbn [checksumUpdate2ByteAlignedAddress]. rewrite !wordSum_cons2.
  assert (forall u v, uw 16 (uw 16 (Z.shiftl (b2z u) 8) + b2z v) = 256 * b2z u + b2z v /\ 0 <= 256 * b2z u + b2z v < 65536) as W.
  { intros u v. pose proof (b2z_range u). pose proof (b2z_range v). rewrite Z.shiftl_mul_pow2 by lia.
    rewrite (uw_small 16 (_ * _)), uw_small by lia. lia. }
  destruct (W o1 o2) as [-> Ro], (W n1 n2) as [-> Rn].
  destruct (update16_spec x _ _ Hx Ro Rn) as (R1 & (k1 & E1)%cong_iff).
  destruct (IH _ new ltac:(lia) ltac:(exists (k - 1)%nat; lia) R1) as (R2 & (k2 & E2)%cong_iff).
  split; [done|]. apply cong_iff. exists (k1 + k2). lia.
Qed.

(** ** A checksum field of a buffer *)
Lemma length_sub n k (x : bytes) : (n + k <= length x)%nat -> length (take k (drop n x)) = k.
Proof. intros. rewrite length_take_le; [done|]. rewrite length_drop. lia. Qed.
Lemma sub_take n k m (x : bytes) : (n + k <= m)%nat -> take k (drop n (take m x)) = take k (drop n x).
Proof.
  intros H. apply list_eq. intros i. destruct (decide (i < k)%nat).
  - rewrite !lookup_take_lt, !lookup_drop, lookup_take_lt by lia. done.
  - by rewrite !lookup_take_ge by lia.
Qed.
Lemma sub_ext lo k (x y : bytes) :
  (forall i, (lo <= i < lo + k)%nat -> y !! i = x !! i) -> take k (drop lo y) = take k (drop lo x).
Proof.
  intros H. apply list_eq. intros i. destruct (decide (i < k)%nat).
  - rewrite !lookup_take_lt, !lookup_drop by done. apply H. lia.
  - by rewrite !lookup_take_ge by lia.
Qed.

(** [y] is [x] with the field at [at_] adjusted for [o] being replaced by [n]. *)
Definition adjusts (at_ : nat) (o n x y : bytes) : Prop :=
  exists f, length f = 2%nat /\ y = copyAt at_ f x
    /\ wordSum f + wordSum n ≡₁ wordSum (take 2 (drop at_ x)) + wordSum o.
Lemma adjusts_length at_ o n x y : adjusts at_ o n x y -> length y = length x.
Proof. intros (f & _ & -> & _). by rewrite length_copyAt. Qed.
Lemma adjusts_lookup at_ o n x y i :
  adjusts at_ o n x y -> (at_ + 2 <= length x)%nat -> (i < at_ \/ at_ + 2 <= i)%nat -> y !! i = x !! i.
Proof.
  intros (f & Lf & -> & _) L H. rewrite lookup_copyAt, Lf by lia.
  destruct (Nat.leb_spec at_ i), (Nat.ltb_spec i (at_ + 2)); done || lia.
Qed.
(** A sum that covers the field moves by the difference of the replaced bytes. *)
Lemma adjusts_sum at_ o n x y lo m :
  adjusts at_ o n x y -> (at_ + 2 <= length x)%nat -> (lo <= at_)%nat -> Nat.Even (at_ - lo) ->
  (at_ + 2 <= lo + m <= length x)%nat ->
  wordSum (take m (drop lo y)) + wordSum n ≡₁ wordSum (take m (drop lo x)) + wordSum o.
Proof.
  intros (f & Lf & -> & (k & E)%cong_iff) L H1 Ev H2. rewrite drop_copyAt, take_copyAt by len.
  pose proof (wordSum_copyAt (at_ - lo) f (take m (drop lo x)) Ev) as W. rewrite Lf in W.
  rewrite sub_take, drop_drop in W by lia. replace (lo + (at_ - lo))%nat with at_ in W by lia.
  specialize (W ltac:(by exists 1%nat) ltac:(len)). apply cong_iff. exists k. lia.
Qed.
Lemma adjusts_off at_ o n x y lo m :
  adjusts at_ o n x y -> (at_ + 2 <= length x)%nat -> (lo + m <= at_ \/ at_ + 2 <= lo)%nat ->
  take m (drop lo y) = take m (drop lo x).
Proof. intros A L H. apply sub_ext. intros i Hi. eapply adjusts_lookup; [done|done|lia]. Qed.

Lemma updateFieldV4_spec p at_ o n :
  (at_ + 2 <= length (b p))%nat -> length o = 4%nat -> length n = 4%nat ->
  exists y, updateFieldV4 p at_ o n = Some (set_buf p y) /\ adjusts at_ o n (b p) y.
Proof.
  intros L Lo Ln. unfold updateFieldV4. rewrite slice_lt by lia. replace (at_ + 2 - at_)%nat with 2%nat by lia.
  cbn [mbind option_bind].
  destruct (updateV4Checksum_spec (take 2 (drop at_ (b p))) o n) as (f & -> & Lf & E);
    [by apply length_sub|congruence|rewrite Lo; by exists 2%nat|lia|].
  cbn [mbind option_bind]. eexists. split; [done|]. by exists f.
Qed.
Lemma updateFieldV6_spec p at_ o n :
  (at_ + 2 <= length (b p))%nat -> length o = 16%nat -> length n = 16%nat ->
  exists y, updateFieldV6 p at_ o n = Some (set_buf p y) /\ adjusts at_ o n (b p) y.
Proof.
  intros L Lo Ln. unfold updateFieldV6. rewrite u16_lt by lia. cbn [mbind option_bind].
  assert (length (take 2 (drop at_ (b p))) = 2%nat) as L2 by by apply length_sub. destruct (wordSum2 _ L2) as [E R].
  set (x := be_get _) in *. rewrite (lnot_word x) by done.
  destruct (update6_spec (65535 - x) o n) as (Ru & (k & Eu)%cong_iff);
    [congruence|rewrite Lo; by exists 8%nat|lia|].
  rewrite lnot_word by done. eexists. split; [done|]. eexists. split; [apply length_be_put|]. split; [done|].
  rewrite wordSum_be_put2 by lia. rewrite E. apply cong_iff. exists (- k). lia.
Qed.

(** The place of the transport checksum that is adjusted *)
Definition field4 (proto : Z) (tr : bytes) : option nat :=
  if (proto =? ipproto.UDP) || (proto =? ipproto.DCCP) then if (length tr <? 8)%nat then None else Some 6%nat
  else if proto =? ipproto.TCP then if (length tr <? 20)%nat then None else Some 16%nat
  else if proto =? ipproto.GRE then
    if (length tr <? 6)%nat then None else if byteAt tr 0 =? 1 then Some 4%nat else None
  else None.
Definition field6 (proto : Z) (tr : bytes) : option nat :=
  if proto =? ipproto.ICMPv6 then if (length tr <? 8)%nat then None else Some 2%nat
  else if (proto =? ipproto.UDP) || (proto =? ipproto.DCCP) then if (length tr <? 8)%nat then None else Some 6%nat
  else if proto =? ipproto.TCP then if (length tr <? 20)%nat then None else Some 16%nat
  else None.
Definition adjustsAt (k : option nat) (so : nat) (o n x y : bytes) : Prop :=
  match k with Some k => adjusts (so + k) o n x y | None => y = x end.
Lemma field4_room proto tr k : field4 proto tr = Some k -> (k + 2 <= length tr)%nat /\ Nat.Even k.
Proof.
  unfold field4. repeat pkt_case; intros; simplify_eq; (split; [lia|]); solve [by exists 3%nat|by exists 8%nat|by exists 2%nat].
Qed.
Lemma field6_room proto tr k : field6 proto tr = Some k -> (k + 2 <= length tr)%nat /\ Nat.Even k.
Proof.
  unfold field6. repeat pkt_case; intros; simplify_eq; (split; [lia|]); solve [by exists 3%nat|by exists 8%nat|by exists 1%nat].
Qed.

(** ** A packet *)
Lemma Transport_eq q : (subofs q <= length (b q))%nat -> Transport q = Some (drop (subofs q) (b q)).
Proof. intros L. unfold Transport. rewrite slice_lt by lia. by rewrite take_ge by len. Qed.
Lemma update4_spec q o n :
  (20 <= length (b q))%nat -> (subofs q <= length (b q))%nat ->
  exists x2 x3, updateV4PacketChecksums q (Addr4 o) (Addr4 n) = Some (set_buf q x3)
    /\ adjusts 10 (be_put 4 o) (be_put 4 n) (b q) x2
    /\ adjustsAt (field4 (IPProto q) (drop (subofs q) x2)) (subofs q) (be_put 4 o) (be_put 4 n) x2 x3.
Proof.
  intros L S. unfold updateV4PacketChecksums. rewrite (proj2 (Nat.ltb_ge _ _)) by lia. cbn [as4 As4 mbind option_bind].
  destruct (updateFieldV4_spec q 10 (be_put 4 o) (be_put 4 n)) as (x2 & -> & A); [lia|apply length_be_put..|].
  cbn [mbind option_bind]. exists x2. pose proof (adjusts_length _ _ _ _ _ A) as L2.
  set (q2 := set_buf q x2). assert (b q2 = x2 /\ subofs q2 = subofs q /\ IPProto q2 = IPProto q) as (B & So & Pr) by by destruct q.
  assert (forall y, set_buf q2 y = set_buf q y) as SB by by destruct q.
  clearbody q2. rewrite Transport_eq, So, B, Pr by (rewrite So, B; lia). cbn [mbind option_bind].
  assert (forall k, (subofs q + k + 2 <= length x2)%nat ->
    exists x3, updateFieldV4 q2 (subofs q + k) (be_put 4 o) (be_put 4 n) = Some (set_buf q x3)
      /\ adjusts (subofs q + k) (be_put 4 o) (be_put 4 n) x2 x3) as U.
  { intros k Hk. destruct (updateFieldV4_spec q2 (subofs q + k) (be_put 4 o) (be_put 4 n)) as (y & -> & Ay);
      [rewrite B; lia|apply length_be_put..|]. rewrite B in Ay. exists y. by rewrite SB. }
  assert (Some q2 = Some (set_buf q x2)) as Same by (f_equal; rewrite <- SB, <- B; by destruct q2).
  unfold field4, minUDPSize, minTCPSize. rewrite !length_drop.
  destruct ((IPProto q =? ipproto.UDP) || (IPProto q =? ipproto.DCCP)).
  { destruct (Nat.ltb_spec (length x2 - subofs q) 8); [by exists x2|]. destruct (U 6%nat) as (x3 & E & A3); [lia|]. by exists x3. }
  destruct (IPProto q =? ipproto.TCP).
  { destruct (Nat.ltb_spec (length x2 - subofs q) 20); [by exists x2|]. destruct (U 16%nat) as (x3 & E & A3); [lia|]. by exists x3. }
  destruct (IPProto q =? ipproto.GRE); [|by exists x2].
  destruct (Nat.ltb_spec (length x2 - subofs q) 6); [by exists x2|]. rewrite byteAt_idx by len. cbn [mbind option_bind].
  destruct (byteAt _ 0 =? 1); [|by exists x2]. destruct (U 4%nat) as (x3 & E & A3); [lia|]. by exists x3.
Qed.
Lemma updateV6_spec q o n :
  (40 <= length (b q))%nat -> (subofs q <= length (b q))%nat ->
  exists x3, updateV6PacketChecksums q o n = Some (set_buf q x3)
    /\ adjustsAt (field6 (IPProto q) (drop (subofs q) (b q))) (subofs q) (As16 o) (As16 n) (b q) x3.
Proof.
  intros L S. unfold updateV6PacketChecksums. rewrite (proj2 (Nat.ltb_ge _ _)) by exact L.
  rewrite Transport_eq by done. cbn [mbind option_bind].
  assert (forall k, (subofs q + k + 2 <= length (b q))%nat ->
    exists x3, updateFieldV6 q (subofs q + k) (As16 o) (As16 n) = Some (set_buf q x3)
      /\ adjusts (subofs q + k) (As16 o) (As16 n) (b q) x3) as U.
  { intros k Hk. apply updateFieldV6_spec; [lia|apply length_As16..]. }
  assert (Some q = Some (set_buf q (b q))) as Same by by destruct q.
  unfold field6, minUDPSize, minTCPSize, minICMPv6Size, offsetICMPv6Checksum, offsetUDPChecksum, offsetTCPChecksum.
  rewrite !length_drop. destruct (IPProto q =? ipproto.ICMPv6).
  { destruct (Nat.ltb_spec (length (b q) - subofs q) 8); [by exists (b q)|apply U; lia]. }
  destruct ((IPProto q =? ipproto.UDP) || (IPProto q =? ipproto.DCCP)).
  { destruct (Nat.ltb_spec (length (b q) - subofs q) 8); [by exists (b q)|apply U; lia]. }
  destruct (IPProto q =? ipproto.TCP); [|by exists (b q)].
  destruct (Nat.ltb_spec (length (b q) - subofs q) 20); [by exists (b q)|apply U; lia].
Qed.

(** Both families and both directions at once: [v] is the version, [src] tells which address. *)
Definition headLen (v : Z) : nat := if v =? 4 then 20%nat else 40%nat.
Definition addrPos (v : Z) (src : bool) : nat :=
  if v =? 4 then (if src then 12 else 16)%nat else (if src then 8 else 24)%nat.
Definition addrLen (v : Z) : nat := if v =? 4 then 4%nat else 16%nat.
Definition addrBytes (x : Addr) : bytes := match x with Addr4 x => be_put 4 x | _ => As16 x end.
Definition ofVersion (v : Z) (x : Addr) : Prop :=
  v = 4 /\ (exists a, x = Addr4 a /\ 0 <= a < 2 ^ 32)
  \/ v = 6 /\ (exists a, x = Addr6 a EmptyString /\ 0 <= a < 2 ^ 128).
Definition fieldOf (v : Z) : Z -> bytes -> option nat := if v =? 4 then field4 else field6.
Definition UpdateAddr (src : bool) : Parsed -> Addr -> option Parsed := if src then UpdateSrcAddr else UpdateDstAddr.
Definition addrOf (src : bool) (q : Parsed) : AddrPort := if src then Src q else Dst q.
(** The assignments to the fields of the [Parsed] *)
Definition withAddr (src : bool) (q : Parsed) (x : Addr) : Parsed :=
  let m := captureMeta q in
  if src then set_Src (set_captureMeta q (MkCaptureMeta true (Src q) (DidDNAT m) (OriginalDst m))) (MkAddrPort x (port (Src q)))
  else set_Dst (set_captureMeta q (MkCaptureMeta (DidSNAT m) (OriginalSrc m) true (Dst q))) (MkAddrPort x (port (Dst q))).
Definition rewritten (v : Z) (so : nat) (proto : Z) (src : bool) (o n x0 x3 : bytes) : Prop :=
  exists x2, (if v =? 4 then adjusts 10 o n (copyAt (addrPos v src) n x0) x2 else x2 = copyAt (addrPos v src) n x0)
    /\ adjustsAt (fieldOf v proto (drop so x2)) so o n x2 x3.

Lemma length_addrBytes v x : ofVersion v x -> length (addrBytes x) = addrLen v.
Proof. intros [(-> & a & -> & _)|(-> & a & -> & _)]; [apply length_be_put|apply length_As16]. Qed.
Lemma UpdateAddr_eq4 src q n :
  IPVersion q = 4 -> (20 <= length (b q))%nat ->
  UpdateAddr src q (Addr4 n)
  = updateV4PacketChecksums (set_buf (withAddr src q (Addr4 n)) (copyAt (addrPos 4 src) (be_put 4 n) (b q)))
      (ip (addrOf src q)) (Addr4 n).
Proof.
  intros V L. destruct q, src; simpl in *; subst; unfold UpdateSrcAddr, UpdateDstAddr, copyInto, as4;
    cbn -[slice updateV4PacketChecksums copyAt be_put]; rewrite slice_lt by lia; done.
Qed.
Lemma UpdateAddr_eq6 src q n :
  IPVersion q = 6 -> (40 <= length (b q))%nat ->
  let x := Addr6 n EmptyString in
  UpdateAddr src q x
  = updateV6PacketChecksums (set_buf (withAddr src q x) (copyAt (addrPos 6 src) (As16 x) (b q))) (ip (addrOf src q)) x.
Proof.
  intros V L. destruct q, src; simpl in *; subst; unfold UpdateSrcAddr, UpdateDstAddr, copyInto;
    cbn -[slice updateV6PacketChecksums copyAt As16]; rewrite slice_lt by lia; done.
Qed.
Lemma UpdateAddr_spec src q x :
  ofVersion (IPVersion q) (ip (addrOf src q)) -> ofVersion (IPVersion q) x ->
  (headLen (IPVersion q) <= length (b q))%nat -> (subofs q <= length (b q))%nat ->
  exists x3, UpdateAddr src q x = Some (set_buf (withAddr src q x) x3)
    /\ rewritten (IPVersion q) (subofs q) (IPProto q) src (addrBytes (ip (addrOf src q))) (addrBytes x) (b q) x3.
Proof.
  intros Ho [(V & n & -> & _)|(V & n & -> & _)] L S; destruct Ho as [(V' & o & Eo & _)|(V' & o & Eo & _)]; try lia;
    rewrite V in L; cbn in L.
  - rewrite (UpdateAddr_eq4 _ _ _ V L), Eo, V. set (q1 := set_buf _ _).
    assert (b q1 = copyAt (addrPos 4 src) (be_put 4 n) (b q) /\ subofs q1 = subofs q /\ IPProto q1 = IPProto q
      /\ forall y, set_buf q1 y = set_buf (withAddr src q (Addr4 n)) y) as (B & So & Pr & SB) by by destruct q, src.
    clearbody q1. destruct (update4_spec q1 o n) as (x2 & x3 & -> & R2 & R3); [rewrite B; len..|].
    rewrite So, Pr in R3. rewrite B in R2. exists x3. split; [by rewrite SB|by exists x2].
  - rewrite (UpdateAddr_eq6 _ _ _ V L), Eo, V. set (q1 := set_buf _ _).
    assert (b q1 = copyAt (addrPos 6 src) (As16 (Addr6 n EmptyString)) (b q) /\ subofs q1 = subofs q /\ IPProto q1 = IPProto q
      /\ forall y, set_buf q1 y = set_buf (withAddr src q (Addr6 n EmptyString)) y) as (B & So & Pr & SB) by by destruct q, src.
    clearbody q1. destruct (updateV6_spec q1 (Addr6 o EmptyString) (Addr6 n EmptyString)) as (x3 & -> & R); [rewrite B; len..|].
    rewrite So, Pr, B in R. exists x3. split; [by rewrite SB|]. eexists. split; [reflexivity|exact R].
Qed.

Lemma fieldOf_room v proto tr k : fieldOf v proto tr = Some k -> (k + 2 <= length tr)%nat /\ Nat.Even k.
Proof. unfold fieldOf. destruct (v =? 4); [apply field4_room|apply field6_room]. Qed.

Section rewritten_facts.
Variables (v : Z) (so : nat) (proto : Z) (src : bool) (o n x0 x3 : bytes).
Hypothesis R : rewritten v so proto src o n x0 x3.
Hypothesis Ln : length n = addrLen v.
Hypothesis L : (headLen v <= length x0)%nat.
Hypothesis S : (so <= length x0)%nat.
Let a : nat := addrPos v src.

Lemma pos_bounds : (8 <= a)%nat /\ (a + addrLen v <= headLen v)%nat /\ ((v =? 4)%Z = true -> 12 <= a)%nat /\ Nat.Even a
  /\ (20 <= headLen v)%nat.
Proof.
  unfold a, addrPos, headLen, addrLen. destruct (v =? 4), src; repeat split; try lia; try done;
    solve [by exists 6%nat|by exists 8%nat|by exists 4%nat|by exists 12%nat].
Qed.
Lemma rewritten_length : length x3 = length x0.
Proof.
  destruct R as (x2 & R2 & R3). assert (length x2 = length x0) as L2.
  { destruct (v =? 4); [rewrite (adjusts_length _ _ _ _ _ R2)|rewrite R2]; apply length_copyAt. }
  unfold adjustsAt in R3. destruct (fieldOf _ _ _); [rewrite (adjusts_length _ _ _ _ _ R3)|rewrite R3]; done.
Qed.

(** The transport header lies behind the IP header. *)
Hypothesis Hso : (headLen v <= so)%nat.
Lemma rewritten_tail x2 :
  (if v =? 4 then adjusts 10 o n (copyAt a n x0) x2 else x2 = copyAt a n x0) ->
  length x2 = length x0 /\ drop so x2 = drop so x0.
Proof.
  intros R2. pose proof pos_bounds as (Pa & Pb & _ & _ & Ph).
  assert (drop so (copyAt a n x0) = drop so x0) as E1 by (apply drop_copyAt_id; lia).
  destruct (v =? 4); [|subst x2; by rewrite length_copyAt].
  split; [by rewrite (adjusts_length _ _ _ _ _ R2), length_copyAt|]. rewrite <- E1.
  destruct R2 as (f & Lf & -> & _). apply drop_copyAt_id; len.
Qed.
Lemma rewritten_head lo m : (lo + m <= so)%nat -> exists x2,
  (if v =? 4 then adjusts 10 o n (copyAt a n x0) x2 else x2 = copyAt a n x0)
  /\ take m (drop lo x3) = take m (drop lo x2).
Proof.
  intros H. destruct R as (x2 & R2 & R3). exists x2. split; [done|]. destruct (rewritten_tail x2 R2) as [L2 _].
  unfold adjustsAt in R3. destruct (fieldOf _ _ _) as [k|] eqn:F; [|by rewrite R3].
  destruct (fieldOf_room _ _ _ _ F) as [Hk _]. rewrite length_drop in Hk. apply (adjusts_off _ _ _ _ _ _ _ R3); lia.
Qed.
Lemma rewritten_addr : take (addrLen v) (drop a x3) = n.
Proof.
  pose proof pos_bounds as (Pa & Pb & P4 & _ & Ph).
  destruct (rewritten_head a (addrLen v)) as (x2 & R2 & ->); [lia|].
  assert (take (addrLen v) (drop a (copyAt a n x0)) = n) as E.
  { rewrite copyAt_fit, drop_app_length' by (len || (rewrite length_take_le; lia)). by rewrite take_app_length'. }
  destruct (v =? 4) eqn:Ev; [|by subst x2]. rewrite <- E. specialize (P4 eq_refl).
  apply (adjusts_off _ _ _ _ _ _ _ R2); len.
Qed.
Lemma rewritten_headSum :
  v = 4 -> take 4 (drop a x0) = o -> wordSum (take so x3) ≡₁ wordSum (take so x0).
Proof.
  intros Ev Eo. pose proof pos_bounds as (Pa & Pb & P4 & Pe & Ph). specialize (P4 ltac:(by rewrite Ev)).
  destruct (rewritten_head 0 so) as (x2 & R2 & E); [lia|]. rewrite !drop_0 in E. rewrite E. rewrite (proj2 (Z.eqb_eq v 4) Ev) in R2.
  assert (addrLen v = 4%nat) as Al by by rewrite Ev. rewrite Al in *.
  pose proof (adjusts_sum _ _ _ _ _ 0 so R2 ltac:(len) ltac:(lia) ltac:(by exists 5%nat) ltac:(len)) as (k & Ea)%cong_iff.
  rewrite !drop_0, take_copyAt in Ea by len.
  pose proof (wordSum_copyAt a n (take so x0) Pe ltac:(rewrite Ln; by exists 2%nat) ltac:(len)) as W.
  rewrite Ln, sub_take, Eo in W by lia. apply cong_iff. exists k. lia.
Qed.
Lemma rewritten_segSum k m :
  fieldOf v proto (drop so x0) = Some k -> (k + 2 <= m)%nat -> (so + m <= length x0)%nat ->
  wordSum (take m (drop so x3)) + wordSum n ≡₁ wordSum (take m (drop so x0)) + wordSum o.
Proof.
  intros F Hk Hm. destruct R as (x2 & R2 & R3). destruct (rewritten_tail x2 R2) as [L2 T2].
  rewrite T2 in R3. rewrite F in R3. rewrite <- T2. destruct (fieldOf_room _ _ _ _ F) as [_ Ev].
  apply (adjusts_sum _ _ _ _ _ _ _ R3); try lia. by replace (so + k - so)%nat with k by lia.
Qed.
(** Bytes that are neither the address nor a checksum *)
Lemma rewritten_lookup i :
  (i < a \/ a + addrLen v <= i)%nat -> (v = 4%Z -> i < 10 \/ 12 <= i)%nat ->
  (forall k, fieldOf v proto (drop so x0) = Some k -> i < so + k \/ so + k + 2 <= i)%nat ->
  x3 !! i = x0 !! i.
Proof.
  intros Ha Hc Hf. pose proof pos_bounds as (Pa & Pb & _ & _ & Ph). destruct R as (x2 & R2 & R3).
  destruct (rewritten_tail x2 R2) as [L2 T2]. rewrite T2 in R3.
  assert (copyAt a n x0 !! i = x0 !! i) as E1.
  { rewrite lookup_copyAt, Ln by lia. destruct (Nat.leb_spec a i), (Nat.ltb_spec i (a + addrLen v)); done || lia. }
  assert (x2 !! i = x0 !! i) as E2.
  { rewrite <- E1. destruct (v =? 4) eqn:Ev; [|by rewrite R2].
    apply Z.eqb_eq in Ev. apply (adjusts_lookup _ _ _ _ _ _ R2); [len|by apply Hc]. }
  rewrite <- E2. unfold adjustsAt in R3. destruct (fieldOf v proto (drop so x0)) as [k|] eqn:F; [|by rewrite R3].
  destruct (fieldOf_room _ _ _ _ F) as [Hk _]. rewrite length_drop in Hk.
  apply (adjusts_lookup _ _ _ _ _ _ R3); [lia|by apply Hf].
Qed.
End rewritten_facts.

(** ** What a receiver checks *)
Definition headerVerifies (q : Parsed) : Prop := rfc1071_ok (take (subofs q) (b q)).
Definition segment (q : Parsed) : bytes := take (length_ q - subofs q) (drop (subofs q) (b q)).
Definition pseudoOf (q : Parsed) : bytes :=
  match ip (Src q), ip (Dst q) with
  | Addr4 s, Addr4 d => pseudo4 s d (IPProto q) (length (segment q))
  | s, d => pseudo6 s d (IPProto q) (length (segment q))
  end.
Definition transportVerifies (q : Parsed) : Prop := rfc1071_ok (pseudoOf q ++ segment q).
(** The transports whose checksum covers the addresses, with all of their header in the packet *)
Definition checksummed (q : Parsed) : Prop :=
  (IPProto q = ipproto.UDP \/ IPProto q = ipproto.DCCP) /\ (8 <= length (segment q))%nat
  \/ IPProto q = ipproto.TCP /\ (20 <= length (segment q))%nat
  \/ IPVersion q = 6 /\ IPProto q = ipproto.ICMPv6 /\ (8 <= length (segment q))%nat.

Lemma rfc1071_cong x y : 0 < wordSum x -> 0 < wordSum y -> wordSum x ≡₁ wordSum y -> rfc1071_ok x <-> rfc1071_ok y.
Proof. intros Px Py E. unfold rfc1071_ok. rewrite E. tauto. Qed.
Lemma checksummed_field q :
  checksummed q -> exists k, fieldOf (IPVersion q) (IPProto q) (drop (subofs q) (b q)) = Some k
    /\ (k + 2 <= length (segment q))%nat.
Proof.
  assert (length (segment q) <= length (drop (subofs q) (b q)))%nat as L by (unfold segment; rewrite length_take; lia).
  unfold fieldOf, field4, field6.
  intros [([-> | ->] & H)|[(-> & H)|(-> & -> & H)]]; cbn [Z.eqb Pos.eqb orb];
    (destruct (IPVersion q =? 4) || idtac); simpl; pkt_case; try lia; eexists; (split; [reflexivity|lia]).
Qed.
Lemma field_ports v proto tr k :
  fieldOf v proto tr = Some k -> hasPorts proto = true -> (6 <= k)%nat /\ (proto = ipproto.TCP -> k = 16%nat).
Proof.
  unfold hasPorts. intros F [[H|H]%orb_prop|H]%orb_prop; apply Z.eqb_eq in H; subst proto; revert F;
    unfold fieldOf, field4, field6; repeat pkt_case; intros; simplify_eq; (split; [lia|done]).
Qed.
Lemma pseudo4_head s d proto m :
  wordSum (pseudo4 s d proto m) = wordSum (be_put 4 s) + wordSum (be_put 4 d) + wordSum ([x00; z2b proto] ++ be_put 2 (Z.of_nat m)).
Proof.
  unfold pseudo4, ip4_addrs. rewrite <- app_assoc, !(wordSum_app (be_put 4 _)); [lia|..]; rewrite length_be_put; by exists 2%nat.
Qed.
Lemma pseudo6_head s d proto m :
  wordSum (pseudo6 s d proto m) = wordSum (As16 s) + wordSum (As16 d) + wordSum (be_put 4 (Z.of_nat m) ++ [x00; x00; x00; z2b proto]).
Proof. unfold pseudo6. rewrite !(wordSum_app (As16 _)); [lia|..]; rewrite length_As16; by exists 8%nat. Qed.
(** The sum over the pseudo header moves with the address, opposite to the segment's. *)
Lemma pseudoOf_moves src q x y3 :
  let q' := set_buf (withAddr src q x) y3 in
  ofVersion (IPVersion q) (ip (Src q)) -> ofVersion (IPVersion q) (ip (Dst q)) -> ofVersion (IPVersion q) x ->
  length (segment q') = length (segment q) ->
  wordSum (pseudoOf q') + wordSum (addrBytes (ip (addrOf src q))) = wordSum (pseudoOf q) + wordSum (addrBytes x)
  /\ Nat.Even (length (pseudoOf q)) /\ Nat.Even (length (pseudoOf q'))
  /\ (0 < IPProto q < 256 -> 0 < wordSum (pseudoOf q) /\ 0 < wordSum (pseudoOf q')).
Proof.
  intros q' Hs Hd Hx Ls. unfold pseudoOf. rewrite Ls. replace (IPProto q') with (IPProto q) by by destruct q, src.
  assert (ip (Src q') = (if src then x else ip (Src q)) /\ ip (Dst q') = (if src then ip (Dst q) else x)) as [-> ->]
    by by destruct q, src.
  assert (forall pr m, 0 < pr < 256 -> 0 < wordSum ([x00; z2b pr] ++ be_put 2 (Z.of_nat m))) as P4.
  { intros pr m Hp. rewrite wordSum_app by by exists 1%nat. pose proof (wordSum_bounds (be_put 2 (Z.of_nat m))).
    rewrite wordSum_cons2, b2z_z2b, Z.mod_small by lia. change (b2z x00) with 0. unfold wordSum at 1. lia. }
  destruct Hs as [(V & s & Es & Rs)|(V & s & Es & Rs)], Hd as [(V' & d & Ed & Rd)|(V' & d & Ed & Rd)], Hx as [(V'' & n & -> & Rn)|(V'' & n & -> & Rn)]; try lia;
    unfold addrOf; rewrite Es, Ed; destruct src; rewrite ?Es, ?Ed; cbn [addrBytes]; cbv iota;
    rewrite ?length_pseudo4, ?length_pseudo6, ?pseudo4_head, ?pseudo6_head; (split; [lia|]); (split; [solve [by exists 6%nat|by exists 20%nat]|]);
    (split; [solve [by exists 6%nat|by exists 20%nat]|]); intros Hp.
  all: rewrite <- ?pseudo6_head; try (split; apply pseudo6_pos; lia).
  all: pose proof (P4 (IPProto q) (length (segment q)) Hp).
  all: repeat match goal with |- context [wordSum (be_put 4 ?z)] => lazymatch goal with H : 0 <= wordSum (be_put 4 z) <= _ |- _ => fail | _ => pose proof (wordSum_bounds (be_put 4 z)) end end; lia.
Qed.

(** ** Decoding the rewritten packet *)
Lemma known_fields q0 p q :
  Decode q0 p = Some q -> IPProto q <> ipproto.Unknown ->
  (IPVersion q = 4 \/ IPVersion q = 6) /\ b q = p /\ (headLen (IPVersion q) <= length p)%nat
  /\ (subofs q <= length_ q <= length p)%nat
  /\ forall src, ofVersion (IPVersion q) (ip (addrOf src q))
       /\ addrBytes (ip (addrOf src q)) = take (addrLen (IPVersion q)) (drop (addrPos (IPVersion q) src) p).
Proof.
  intros E U. destruct (Decode_decoded q0 p) as (? & [= <-]%(eq_trans (eq_sym E)) & B & D).
  pose proof (d_bounds q D U) as Bo. rewrite B in Bo.
  pose proof (fun n => be_get_slice p n 4) as X4. pose proof (fun n => be_get_slice p n 16) as X16.
  destruct (known_whole q0 p q E U) as [[(L & _) [_ V Rs Rd _ _ _]]|[(L & _) [_ V Rs Rd _ _ _]]]; rewrite V;
    (split; [lia|]); (split; [done|]); (split; [done|]); (split; [done|]); intros src;
    unfold addrOf; destruct src; rewrite ?Rs, ?Rd; cbn [addrPos addrLen addrBytes Z.eqb Pos.eqb].
  1,2: split; [left; split; [done|]; eexists; split; [done|]; apply X4; lia|apply be_put_get, length_sub; lia].
  all: split; [right; split; [done|]; eexists; split; [done|]; apply X16; lia|apply be_put_get, length_sub; lia].
Qed.

Lemma byteAt_ext (x y : bytes) i : y !! i = x !! i -> byteAt y i = byteAt x i.
Proof. intros E. unfold byteAt, idx. by rewrite E. Qed.
Lemma addr_of_bytes v x : ofVersion v x ->
  (v = 4 -> Addr4 (be_get (addrBytes x)) = x) /\ (v = 6 -> AddrFrom16 (addrBytes x) = x).
Proof.
  intros [(-> & a & -> & R)|(-> & a & -> & R)]; (split; intros; [|]); try lia; cbn [addrBytes];
    [by rewrite be_get_put_small|by apply addr16_id].
Qed.

Lemma withAddr_fields src q x y :
  let q' := set_buf (withAddr src q x) y in
  b q' = y /\ IPVersion q' = IPVersion q /\ IPProto q' = IPProto q /\ subofs q' = subofs q /\ length_ q' = length_ q
  /\ TCPFlags q' = TCPFlags q /\ port (Src q') = port (Src q) /\ port (Dst q') = port (Dst q)
  /\ ip (Src q') = ip (addrOf true (withAddr src q x)) /\ ip (Dst q') = ip (addrOf false (withAddr src q x)).
Proof. by destruct q, src. Qed.

Section redecode.
Variables (src : bool) (q0 q : Parsed) (p y : bytes) (x : Addr).
Hypothesis E : Decode q0 p = Some q.
Hypothesis U : IPProto q <> ipproto.Unknown.
Hypothesis Hso : (headLen (IPVersion q) <= subofs q)%nat.
Hypothesis Hx : ofVersion (IPVersion q) x.
Hypothesis R : rewritten (IPVersion q) (subofs q) (IPProto q) src (addrBytes (ip (addrOf src q))) (addrBytes x) p y.

Lemma redecode_head i : (i < if (IPVersion q =? 4)%Z then 10 else 8)%nat -> y !! i = p !! i.
Proof using All.
  destruct (known_fields q0 p q E U) as (V & B & L & S & A). intros Hi.
  apply (rewritten_lookup _ _ _ _ _ _ _ _ R); try done; [by apply length_addrBytes|lia|..].
  - unfold addrPos. destruct (IPVersion q =? 4), src; lia.
  - intros V4. rewrite V4 in Hi. simpl in Hi. lia.
  - intros k F. unfold headLen in Hso. destruct (IPVersion q =? 4); lia.
Qed.
Lemma redecode_addr s :
  take (addrLen (IPVersion q)) (drop (addrPos (IPVersion q) s) y)
  = addrBytes (ip (addrOf s (withAddr src q x))).
Proof using All.
  destruct (known_fields q0 p q E U) as (V & B & L & S & A).
  destruct (decide (s = src)) as [->|N].
  { rewrite (rewritten_addr _ _ _ _ _ _ _ _ R); [by destruct src, q|by apply length_addrBytes|lia..|done]. }
  destruct (A s) as [_ As]. replace (ip (addrOf s (withAddr src q x))) with (ip (addrOf s q)) by (destruct q, s, src; done).
  rewrite As. apply sub_ext. intros i Hi.
  apply (rewritten_lookup _ _ _ _ _ _ _ _ R); try done; [by apply length_addrBytes|lia|..].
  - unfold addrPos, addrLen in *. destruct (IPVersion q =? 4), s, src; done || lia.
  - intros V4. rewrite V4 in Hi. unfold addrPos, addrLen in Hi. simpl in Hi. destruct s; lia.
  - intros k F. unfold addrPos, addrLen, headLen in *. destruct (IPVersion q =? 4), s; lia.
Qed.
(** The ports and the flags lie before the checksum. *)
Lemma redecode_ports : hasPorts (IPProto q) = true ->
  (forall i, (subofs q <= i < subofs q + 4)%nat -> y !! i = p !! i)
  /\ (IPProto q = ipproto.TCP -> y !! (subofs q + 13)%nat = p !! (subofs q + 13)%nat).
Proof using All.
  destruct (known_fields q0 p q E U) as (V & B & L & S & A). intros Hp.
  assert (forall i, (subofs q <= i)%nat -> (forall k, (6 <= k)%nat /\ (IPProto q = ipproto.TCP -> k = 16%nat) -> i < subofs q + k \/ subofs q + k + 2 <= i)%nat ->
    y !! i = p !! i) as X.
  { intros i Hi Hf. apply (rewritten_lookup _ _ _ _ _ _ _ _ R); try done; [by apply length_addrBytes|lia|..].
    - unfold addrPos, addrLen, headLen in *. destruct (IPVersion q =? 4), src; lia.
    - intros V4. rewrite V4 in Hso. change (headLen 4) with 20%nat in Hso. lia.
    - intros k F. apply Hf, (field_ports _ _ _ _ F Hp). }
  split; [intros i Hi; apply X; [lia|intros k []; lia]|]. intros T. apply X; [lia|]. intros k [_ Hk]. specialize (Hk T). lia.
Qed.
(** What the fixed header decides is as before, but for the address. *)
Lemma redecode_fields q1 r :
  Decode q1 y = Some r ->
  IPVersion r = IPVersion q /\ IPProto r = IPProto q /\ subofs r = subofs q /\ length_ r = length_ q
  /\ ip (Src r) = ip (addrOf true (withAddr src q x)) /\ ip (Dst r) = ip (addrOf false (withAddr src q x)).
Proof using All.
  intros Er. destruct (known_fields q0 p q E U) as (_ & B & L & S & A).
  pose proof (rewritten_length _ _ _ _ _ _ _ _ R) as Ly.
  assert (forall s, ofVersion (IPVersion q) (ip (addrOf s (withAddr src q x)))) as HA.
  { intros s. destruct (decide (s = src)) as [->|]; [by destruct q, src|].
    replace (ip (addrOf s (withAddr src q x))) with (ip (addrOf s q)) by (destruct q, s, src; done). apply A. }
  assert (forall i, (i + 2 <= if (IPVersion q =? 4)%Z then 10 else 8)%nat -> wordAt y i = wordAt p i) as HW.
  { intros i Hi. unfold wordAt. f_equal. apply sub_ext. intros j Hj. apply redecode_head. lia. }
  assert (forall i, (i < if (IPVersion q =? 4)%Z then 10 else 8)%nat -> byteAt y i = byteAt p i) as HB
    by (intros i Hi; by apply byteAt_ext, redecode_head).
  pose proof (redecode_addr true) as Hs. pose proof (redecode_addr false) as Hd.
  pose proof (addr_of_bytes _ _ (HA true)) as [T4 T6]. pose proof (addr_of_bytes _ _ (HA false)) as [F4 F6].
  destruct (known_whole q0 p q E U) as [[W Q]|[W Q]].
  - pose proof (r4_version _ _ Q) as V. rewrite V in *. cbn in HW, HB. cbn [addrLen addrPos Z.eqb Pos.eqb] in Hs, Hd.
    assert (whole4 y) as Wy by (revert W; unfold whole4, totalLen4, verOf; by rewrite Ly, HB, HW by lia).
    destruct (Decode_whole4 q1 y Wy) as (? & [= <-]%(eq_trans (eq_sym Er)) & Ry).
    rewrite (r4_version _ _ Ry), (r4_proto _ _ Ry), (r4_proto _ _ Q), (r4_src _ _ Ry), (r4_dst _ _ Ry),
      (r4_subofs _ _ Ry), (r4_subofs _ _ Q), (r4_length _ _ Ry), (r4_length _ _ Q).
    unfold totalLen4, ihl. rewrite Ly, !HB, !HW, Hs, Hd, T4, F4 by (done || lia). done.
  - pose proof (r6_version _ _ Q) as V. rewrite V in *. cbn in HW, HB. cbn [addrLen addrPos Z.eqb Pos.eqb] in Hs, Hd.
    assert (whole6 y) as Wy by (revert W; unfold whole6, totalLen6, verOf; by rewrite Ly, HB, HW by lia).
    destruct (Decode_whole6 q1 y Wy) as (? & [= <-]%(eq_trans (eq_sym Er)) & Ry).
    rewrite (r6_version _ _ Ry), (r6_proto _ _ Ry), (r6_proto _ _ Q), (r6_src _ _ Ry), (r6_dst _ _ Ry),
      (r6_subofs _ _ Ry), (r6_subofs _ _ Q), (r6_length _ _ Ry), (r6_length _ _ Q).
    unfold totalLen6. rewrite Ly, !HB, !HW, Hs, Hd, T6, F6 by (done || lia). done.
Qed.
Lemma redecode_agree q1 r : Decode q1 y = Some r -> agree r (set_buf (withAddr src q x) y).
Proof using All.
  intros Er. destruct (known_fields q0 p q E U) as (_ & B & _).
  destruct (Decode_decoded q0 p) as (? & [= <-]%(eq_trans (eq_sym E)) & _ & D).
  destruct (Decode_decoded q1 y) as (? & [= <-]%(eq_trans (eq_sym Er)) & Br & Dr).
  destruct (withAddr_fields src q x y) as (B' & V' & P' & S' & L' & T' & Ps' & Pd' & Is' & Id').
  destruct (redecode_fields q1 r Er) as (Vr & Pr & Sor & Lr & Sr & Dr').
  split; try congruence.
  - intros _. repeat split; congruence.
  - intros H. rewrite Ps', Pd'. destruct (d_ports r Dr H) as (_ & -> & -> & _). rewrite Pr in H.
    destruct (d_ports q D H) as (_ & -> & -> & _). destruct (redecode_ports H) as [Hp4 _]. rewrite Sor, Br, B.
    split; f_equal; apply sub_ext; intros i Hi; apply Hp4; lia.
  - intros T. pose proof (d_flags r Dr T) as F. rewrite Pr in T. pose proof (d_flags q D T) as F'.
    destruct (redecode_ports ltac:(by rewrite T)) as [_ H13]. specialize (H13 T). rewrite T'.
    rewrite Sor, Br in F. rewrite B in F'. unfold idx in *. rewrite H13 in F. congruence.
Qed.
End redecode.

(** ** The rewritten packet *)
Lemma segment_length q : (length_ q <= length (b q))%nat -> length (segment q) = (length_ q - subofs q)%nat.
Proof. intros H. unfold segment. rewrite length_take_le; [done|]. rewrite length_drop. lia. Qed.
Lemma proto4_cases n pr tl so frag :
  proto4 n pr tl so frag = ipproto.Unknown \/ proto4 n pr tl so frag = pr \/ proto4 n pr tl so frag = ipproto.Fragment.
Proof.
  unfold proto4. repeat (match goal with |- (if ?c then _ else _) = _ \/ _ => destruct c end; auto).
Qed.
Lemma proto6_cases n pr : proto6 n pr = ipproto.Unknown \/ proto6 n pr = pr.
Proof. unfold proto6. repeat (match goal with |- (if ?c then _ else _) = _ \/ _ => destruct c end; auto). Qed.
Lemma proto_byte q0 p q : Decode q0 p = Some q -> IPProto q <> ipproto.Unknown -> 0 < IPProto q < 256.
Proof.
  intros E U. assert (forall i, 0 <= byteAt p i < 256) as Hb.
  { intros i. unfold byteAt, idx. destruct (p !! i) as [c|]; simpl; [apply b2z_range|lia]. }
  unfold ipproto.Unknown in U. destruct (known_whole q0 p q E U) as [[_ Q]|[_ Q]].
  - pose proof (r4_proto _ _ Q) as P.
    destruct (proto4_cases (length p) (byteAt p 9) (totalLen4 p) (ihl p) (wordAt p 6)) as [X|[X|X]]; rewrite X in P;
      [done|specialize (Hb 9%nat); lia|by rewrite P].
  - pose proof (r6_proto _ _ Q) as P. destruct (proto6_cases (length p) (byteAt p 6)) as [X|X]; rewrite X in P;
      [done|specialize (Hb 6%nat); lia].
Qed.
Lemma first_byte_pos (x : bytes) m : (2 <= m)%nat -> 0 < byteAt x 0 -> 0 < wordSum (take m x).
Proof.
  intros Hm Hb. destruct x as [|c [|d x]], m as [|[|m]]; try lia; try (unfold byteAt in Hb; simpl in Hb; lia).
  - unfold byteAt in Hb. simpl in Hb. simpl. unfold wordSum. simpl. destruct m; lia.
  - cbn [take]. rewrite wordSum_cons2. unfold byteAt in Hb. simpl in Hb. pose proof (b2z_range d).
    pose proof (wordSum_bounds (take m x)). lia.
Qed.

(** [q'] is [q] with one address replaced by [x], and otherwise the same packet. *)
Record natted (src : bool) (q : Parsed) (x : Addr) (q' : Parsed) : Prop := MkNatted {
  n_fields : q' = set_buf (withAddr src q x) (b q');
  n_length : length (b q') = length (b q);
  n_fresh : forall q1 r, Decode q1 (b q') = Some r -> agree r q';
  n_header : IPVersion q = 4 -> headerVerifies q' <-> headerVerifies q;
  n_transport : checksummed q -> transportVerifies q' <-> transportVerifies q;
  n_frame : forall i,
    ~ (addrPos (IPVersion q) src <= i < addrPos (IPVersion q) src + addrLen (IPVersion q))%nat ->
    ~ (IPVersion q = 4 /\ (10 <= i < 12)%nat) ->
    (forall k, fieldOf (IPVersion q) (IPProto q) (drop (subofs q) (b q)) = Some k -> ~ (subofs q + k <= i < subofs q + k + 2)%nat) ->
    b q' !! i = b q !! i }.

Lemma UpdateAddr_natted src q0 p q x :
  Decode q0 p = Some q -> IPProto q <> ipproto.Unknown -> (headLen (IPVersion q) <= subofs q)%nat ->
  ofVersion (IPVersion q) x -> exists q', UpdateAddr src q x = Some q' /\ natted src q x q'.
Proof.
  intros E U Hso Hx. destruct (known_fields q0 p q E U) as (V & B & L & S & A). pose proof (proto_byte q0 p q E U) as Pb.
  destruct (A src) as [Ho Eo]. rewrite <- B in L, S.
  destruct (UpdateAddr_spec src q x Ho Hx L ltac:(lia)) as (y & Eu & R). exists (set_buf (withAddr src q x) y). split; [done|].
  pose proof (length_addrBytes _ _ Hx) as Ln. pose proof (rewritten_length _ _ _ _ _ _ _ _ R) as Ly.
  destruct (withAddr_fields src q x y) as (B' & V' & P' & S' & L' & _).
  assert (segment (set_buf (withAddr src q x) y) = take (length_ q - subofs q) (drop (subofs q) y)) as Sg
    by (unfold segment; by rewrite L', S', B').
  split; rewrite ?B'; [done|done|..].
  - intros q1 r Er. rewrite B in R. by apply (redecode_agree src q0 q p y x E U Hso Hx R q1).
  - intros V4. unfold headerVerifies. rewrite S', B'. change (headLen 4) with 20%nat in *. rewrite V4 in L, Hso. cbn in L, Hso.
    assert (0 < byteAt (b q) 0) as P0.
    { destruct (known_whole q0 p q E U) as [[(_ & Hv & _) _]|[_ Q]]; [|pose proof (r6_version _ _ Q); lia].
      rewrite B. unfold verOf in Hv. destruct (Z.lt_trichotomy 0 (byteAt p 0)) as [|[Z0|Z0]]; [done|..].
      - by rewrite <- Z0 in Hv.
      - assert (Z.shiftr (byteAt p 0) 4 < 0) by by apply Z.shiftr_neg. lia. }
    apply rfc1071_cong.
    + apply first_byte_pos; [lia|]. rewrite (byteAt_ext (b q)); [done|]. rewrite B in *.
      apply (redecode_head src q0 q p y x E U ltac:(rewrite V4; exact Hso) Hx R). rewrite V4. cbn. lia.
    + apply first_byte_pos; [lia|done].
    + apply (rewritten_headSum _ _ _ _ _ _ _ _ R Ln); [by rewrite V4|lia|by rewrite V4|done|].
      rewrite Eo, B. by rewrite V4.
  - intros C. unfold transportVerifies. destruct (checksummed_field q C) as (k & F & Hk). rewrite segment_length in Hk by lia.
    destruct (pseudoOf_moves src q x y (proj1 (A true)) (proj1 (A false)) Hx) as (M & Ev & Ev' & Pos).
    { rewrite Sg, segment_length by lia. rewrite length_take_le; [done|]. rewrite length_drop. lia. }
    destruct (Pos Pb) as [Pq Pq']. pose proof (wordSum_bounds (segment q)). pose proof (wordSum_bounds (segment (set_buf (withAddr src q x) y))).
    apply rfc1071_cong; rewrite ?wordSum_app by done; [lia..|].
    pose proof (rewritten_segSum _ _ _ _ _ _ _ _ R Ln L ltac:(lia) Hso k (length_ q - subofs q)%nat F Hk ltac:(lia)) as (j & W)%cong_iff.
    rewrite Sg. unfold segment at 1. apply cong_iff. exists j. lia.
  - intros i H1 H2 H3. apply (rewritten_lookup _ _ _ _ _ _ _ _ R); try done; [lia|lia|..].
    + intros V4. destruct (decide (i < 10 \/ 12 <= i)%nat); [done|]. exfalso. apply H2. split; [done|lia].
    + intros k F. specialize (H3 k F). lia.
Qed.

(** A UDP packet from 100.64.0.1 to 100.64.0.2 without a checksum *)
Definition unchecked_udp : bytes :=
  [x45; x00; x00; x1c; x00; x00; x00; x00; x40; x11; x00; x00; x64; x40; x00; x01; x64; x40; x00; x02;
   x04; xd2; x00; x35; x00; x08; x00; x00].
(** [C25] Rewriting the source or the destination address of a packet that was decoded to a known
    protocol, and whose header length field is at least that of the fixed header, to an address of
    its family, does not panic; the result is the same [Parsed] with the new address, decoding its
    buffer again gives the same packet, the IPv4 header checksum and the checksum of UDP, TCP,
    DCCP and ICMPv6 over the pseudo header verify exactly when they did before, and no byte
    changes but the address and these checksums. There is a UDP packet without a checksum, though,
    that leaves with one that does not verify. *)
Theorem address_rewrite_sound (src : bool) q0 p q x :
  Decode q0 p = Some q -> IPProto q <> ipproto.Unknown -> (headLen (IPVersion q) <= subofs q)%nat ->
  ofVersion (IPVersion q) x ->
  (exists q', (if src then UpdateSrcAddr q x else UpdateDstAddr q x) = Some q' /\ natted src q x q')
  /\ exists r r', Decode zeroParsed unchecked_udp = Some r /\ wordAt (b r) 26 = 0
       /\ UpdateSrcAddr r (Addr4 0x64400003) = Some r' /\ wordAt (b r') 26 <> 0 /\ ~ transportVerifies r'.
Proof.
  intros E U H Hx. split; [destruct (UpdateAddr_natted src q0 p q x E U H Hx) as (q' & Eq & N); exists q'; by destruct src|].
  do 2 eexists. split; [vm_compute; reflexivity|]. split; [done|]. split; [vm_compute; reflexivity|].
  split; [done|]. intros [_ V]. by vm_compute in V.
Qed.
Lemma address_rewrite_sound_witness :
  exists q', UpdateDstAddr (default zeroParsed (Decode zeroParsed unchecked_udp)) (Addr4 0x64400003) = Some q'
    /\ ip (Dst q') = Addr4 0x64400003.
Proof.
  destruct (address_rewrite_sound false zeroParsed unchecked_udp (default zeroParsed (Decode zeroParsed unchecked_udp)) (Addr4 0x64400003))
    as [(q' & E & N) _]; [reflexivity|done|vm_compute; lia|left; split; [done|]; eexists; split; [done|lia]|].
  exists q'. split; [exact E|]. rewrite (n_fields _ _ _ _ N). vm_compute. reflexivity.
Defined.
