(* ===== verification/TSMP.v ===== *)
(** * Tailscale messages between nodes (net/packet/tsmp.go)

    Rejections, pings, pongs and disco key advertisements inside IP packets of protocol 99: the
    marshallers as headers, the parsers on decoded packets, and that each parser reads back what
    its marshaller wrote. [None] of a parser is the panic of [Payload]; [Some None] is "not one".
    The IP header of a pong, an interface in the code, is one of the two headers that implement
    it there. *)
From S2P Require Import Prelude Netip Bytes Slices IPPacket IPPacketProps PacketHeaders ChecksumProps.
Import IPPacket.

Module TSMP.

Definition TSMPTypeRejectedConn : Z := 33. (* '!' *)
Definition TSMPTypePing : Z := 112. (* 'p' *)
Definition TSMPTypePong : Z := 111. (* 'o' *)
Definition TSMPTypeDiscoAdvertisement : Z := 97. (* 'a' *)
Definition RejectedDueToACLs : Z := 65. (* 'A' *)
Definition RejectedDueToShieldsUp : Z := 83. (* 'S' *)
Definition rejectFlagBitMaybeBroken : Z := 0x1.

(** A write into [buf[off:]] that panics when it does not fit *)
Definition put (off : nat) (v buf : bytes) : hdrErr + bytes :=
  if (off + length v <=? length buf)%nat then inr (copyAt off v buf) else inl panic.

(** ** Rejections *)
Record TailscaleRejectedHeader := MkRejected {
  IPSrc : Addr;
  IPDst : Addr;
  rj_Src : AddrPort;
  rj_Dst : AddrPort;
  rj_Proto : Z;
  rj_Reason : Z;
  MaybeBroken : bool }.
Definition hasFlags (h : TailscaleRejectedHeader) : bool := MaybeBroken h.
Definition Rejected_Len (h : TailscaleRejectedHeader) : nat :=
  let v := (1 + 1 + 1 + 2 * 2)%nat in
  let v := if Is4 (IPSrc h) then (v + ip4HeaderLength)%nat
           else if Is6 (IPSrc h) then (v + ip6HeaderLength)%nat else v in
  if hasFlags h then S v else v.
(** The IP header of [Marshal], with the number of bytes it takes up *)
Definition rejectedIP (h : TailscaleRejectedHeader) (buf : bytes) : hdrErr + bytes * nat :=
  if Is4 (ip (rj_Src h)) then
    buf ← ignoreErr (IP4_Marshal (MkIP4 ipproto.TSMP 0 (IPSrc h) (IPDst h)) buf) buf;
    mret (buf, ip4HeaderLength)
  else if Is6 (ip (rj_Src h)) then
    buf ← ignoreErr (IP6_Marshal (MkIP6 ipproto.TSMP 0 (IPSrc h) (IPDst h)) buf) buf;
    mret (buf, ip6HeaderLength)
  else inl errBogusSrc.
Definition Rejected_Marshal (h : TailscaleRejectedHeader) (buf : bytes) : hdrErr + bytes :=
  checkLen (Rejected_Len h) buf (
  '(buf, o) ← rejectedIP h buf;
  buf ← put o [z2b TSMPTypeRejectedConn] buf;
  buf ← put (o + 1) [z2b (rj_Proto h)] buf;
  buf ← put (o + 2) [z2b (rj_Reason h)] buf;
  buf ← put (o + 3) (be_put 2 (port (rj_Src h))) buf;
  buf ← put (o + 5) (be_put 2 (port (rj_Dst h))) buf;
  if hasFlags h then
    let flags := if MaybeBroken h then Z.lor 0 rejectFlagBitMaybeBroken else 0 in
    put (o + 7) [z2b flags] buf
  else mret buf).
#[export] Instance Rejected_Header : Header TailscaleRejectedHeader :=
  { Len := Rejected_Len; Marshal := Rejected_Marshal; WriteChecksum := None }.

Definition AsTailscaleRejectedHeader (pp : Parsed) : option (option TailscaleRejectedHeader) :=
  p ← Payload pp;
  if (length p <? 7)%nat || negb (default 0 (idx p 0) =? TSMPTypeRejectedConn) then Some None
  else
    Some (Some (MkRejected (ip (Src pp)) (ip (Dst pp))
      (MkAddrPort (ip (Dst pp)) (be_get (take 2 (drop 3 p))))
      (MkAddrPort (ip (Src pp)) (be_get (take 2 (drop 5 p))))
      (default 0 (idx p 1)) (default 0 (idx p 2))
      (if (7 <? length p)%nat then negb (Z.land (default 0 (idx p 7)) rejectFlagBitMaybeBroken =? 0) else false))).

(** ** Pings and pongs *)
(** The 8 bytes of a ping *)
Definition AsTSMPPing (pp : Parsed) : option (option bytes) :=
  if negb (IPProto pp =? ipproto.TSMP) then Some None else
  p ← Payload pp;
  if (length p <? 9)%nat || negb (default 0 (idx p 0) =? TSMPTypePing) then Some None
  else Some (Some (take 8 (drop 1 p))).

Record TSMPPongReply := MkPong { pong_IPHeader : IP4Header + IP6Header; pong_Data : bytes; PeerAPIPort : Z }.
(** The data and the port; the parser leaves the header alone. *)
Definition AsTSMPPong (pp : Parsed) : option (option (bytes * Z)) :=
  if negb (IPProto pp =? ipproto.TSMP) then Some None else
  p ← Payload pp;
  if (length p <? 9)%nat || negb (default 0 (idx p 0) =? TSMPTypePong) then Some None
  else Some (Some (take 8 (drop 1 p), if (11 <=? length p)%nat then be_get (take 2 (drop 9 p)) else 0)).
Definition pongIPLen (h : TSMPPongReply) : nat :=
  match pong_IPHeader h with inl h4 => Len h4 | inr h6 => Len h6 end.
Definition Pong_Len (h : TSMPPongReply) : nat := (pongIPLen h + 11)%nat.
Definition Pong_Marshal (h : TSMPPongReply) (buf : bytes) : hdrErr + bytes :=
  if (length buf <? Pong_Len h)%nat then inl errSmallBuffer else
  buf ← (match pong_IPHeader h with inl h4 => Marshal h4 buf | inr h6 => Marshal h6 buf end);
  let o := pongIPLen h in
  buf ← put o [z2b TSMPTypePong] buf;
  let buf := copyAt (o + 1) (pong_Data h) buf in
  put (o + 9) (be_put 2 (PeerAPIPort h)) buf.
#[export] Instance Pong_Header : Header TSMPPongReply :=
  { Len := Pong_Len; Marshal := Pong_Marshal; WriteChecksum := None }.

(** ** Disco key advertisements *)
Record TSMPDiscoKeyAdvertisement := MkAdvert { ka_Src : Addr; ka_Dst : Addr; ka_Key : bytes }.
(** The error is the payload length that is not 33. *)
Definition Advert_Marshal (ka : TSMPDiscoKeyAdvertisement) : option (hdrErr + bytes) :=
  let payload := z2b TSMPTypeDiscoAdvertisement :: ka_Key ka in
  if negb (length payload =? 33)%nat then None
  else if Is4 (ka_Src ka) then Some (Generate (MkIP4 ipproto.TSMP 0 (ka_Src ka) (ka_Dst ka)) payload)
  else Some (Generate (MkIP6 ipproto.TSMP 0 (ka_Src ka) (ka_Dst ka)) payload).
Definition AsTSMPDiscoAdvertisement (pp : Parsed) : option (option TSMPDiscoKeyAdvertisement) :=
  if negb (IPProto pp =? ipproto.TSMP) then Some None else
  p ← Payload pp;
  if (length p <? 33)%nat || negb (default 0 (idx p 0) =? TSMPTypeDiscoAdvertisement) then Some None
  else Some (Some (MkAdvert (ip (Src pp)) (ip (Dst pp)) (take 32 (drop 1 p)))).

(** ** Round trips *)
#[local] Arguments be_put : simpl never.
#[local] Arguments be_get : simpl never.
#[local] Arguments As16 : simpl never.
#[local] Arguments copyAt : simpl never.
#[local] Arguments zeros : simpl never.
#[local] Arguments ip4_wire : simpl never.
#[local] Arguments ip6_wire : simpl never.
#[local] Hint Rewrite length_copyAt length_ip4_wire length_ip6_wire : len.

(** A TSMP packet on the wire *)
Definition wire (id : Z) (s d : Addr) (seg : bytes) : bytes :=
  match s, d with
  | Addr4 s, Addr4 d => ip4_wire ipproto.TSMP id (20 + length seg) s d ++ seg
  | s, d => ip6_wire ipproto.TSMP id (length seg) s d ++ seg
  end.
Lemma wire_decodes v q id s d seg :
  ofVersion v s -> ofVersion v d -> (v = 4 -> 0 <= id < 2 ^ 16) -> (7 <= length seg)%nat -> Z.of_nat (40 + length seg) <= 65535 ->
  exists r, Decode q (wire id s d seg) = Some r /\ IPProto r = ipproto.TSMP /\ IPVersion r = v
    /\ ip (Src r) = s /\ ip (Dst r) = d /\ subofs r = headLen v /\ Payload r = Some seg.
Proof.
  intros [(-> & s' & -> & Rs)|(-> & s' & -> & Rs)] [(V & d' & -> & Rd)|(V & d' & -> & Rd)] Hi L1 L2; try lia; cbn [wire].
  - specialize (Hi eq_refl). destruct (Decode_ip4_wire q ipproto.TSMP id s' d' seg) as [E _]; [done|lia..|]. rewrite E.
    rewrite (proj2 (Nat.ltb_ge (length seg) minTSMPSize) L1). eexists. split; [reflexivity|]. repeat (split; [done|]).
    apply (Payload_eq _ (ip4_wire ipproto.TSMP id (20 + length seg) s' d')); simpl; rewrite ?length_ip4_wire; done.
  - destruct (Decode_ip6_wire q ipproto.TSMP id (Addr6 s' EmptyString) (Addr6 d' EmptyString) seg) as [E _]; [done|done|done|lia|].
    rewrite E. rewrite (proj2 (Nat.ltb_ge (length seg) minTSMPSize) L1). eexists. split; [reflexivity|].
    split; [done|]. split; [done|]. split; [by apply addr16_id|]. split; [by apply addr16_id|]. split; [done|].
    apply (Payload_eq _ (ip6_wire ipproto.TSMP id (length seg) (Addr6 s' EmptyString) (Addr6 d' EmptyString)));
      simpl; rewrite ?length_ip6_wire; done.
Qed.

Lemma put_fit off v buf :
  (off + length v <= length buf)%nat -> put off v buf = inr (take off buf ++ v ++ drop (off + length v) buf).
Proof. intros L. unfold put. rewrite (proj2 (Nat.leb_le _ _) L). by rewrite copyAt_fit. Qed.

Definition rejection (h : TailscaleRejectedHeader) : bytes :=
  [z2b TSMPTypeRejectedConn; z2b (rj_Proto h); z2b (rj_Reason h)]
  ++ be_put 2 (port (rj_Src h)) ++ be_put 2 (port (rj_Dst h)) ++ (if MaybeBroken h then [x01] else []).
Lemma Rejected_Generate v h :
  ofVersion v (IPSrc h) -> ofVersion v (IPDst h) -> ofVersion v (ip (rj_Src h)) ->
  Generate h [] = inr (wire 0 (IPSrc h) (IPDst h) (rejection h)).
Proof.
  destruct h as [s d [sa sp] [da dp] pr re mb]. cbn [IPSrc IPDst rj_Src ip].
  intros [(-> & s' & -> & Rs)|(-> & s' & -> & Rs)] [(V & d' & -> & Rd)|(V & d' & -> & Rd)]
    [(V' & a & -> & Ra)|(V' & a & -> & Ra)]; try lia; unfold Generate; cbn [Len Rejected_Header WriteChecksum Marshal];
    rewrite generate_buf, app_nil_r; unfold Rejected_Marshal, Rejected_Len, rejectedIP, hasFlags;
    cbn [Is4 Is6 IPSrc IPDst rj_Src ip MaybeBroken rj_Proto rj_Reason rj_Dst port].
  - destruct mb; rewrite checkLen_ok, (IP4_Marshal_eq _ _ s' d') by (done || vm_compute; lia); reflexivity.
  - destruct mb; rewrite checkLen_ok, IP6_Marshal_eq by (done || vm_compute; lia); reflexivity.
Qed.

(** The IP header a pong is given *)
Definition pongAddrs (h : TSMPPongReply) : Z * Z * Addr * Addr :=
  match pong_IPHeader h with
  | inl h4 => (ip4_IPProto h4, ip4_IPID h4, ip4_Src h4, ip4_Dst h4)
  | inr h6 => (ip6_IPProto h6, ip6_IPID h6, ip6_Src h6, ip6_Dst h6)
  end.
Definition pong_ok (v : Z) (h : TSMPPongReply) : Prop :=
  let '(proto, id, s, d) := pongAddrs h in
  (v = 4 <-> exists h4, pong_IPHeader h = inl h4) /\ proto = ipproto.TSMP /\ ofVersion v s /\ ofVersion v d
  /\ (v = 4 -> 0 <= id < 2 ^ 16) /\ length (pong_Data h) = 8%nat /\ 0 <= PeerAPIPort h < 2 ^ 16.
Definition pongBody (h : TSMPPongReply) : bytes :=
  [z2b TSMPTypePong] ++ pong_Data h ++ be_put 2 (PeerAPIPort h).
Lemma Pong_Generate v h :
  pong_ok v h -> let '(_, id, s, d) := pongAddrs h in Generate h [] = inr (wire id s d (pongBody h)).
Proof.
  destruct h as [[[pr id s d]|[pr id s d]] data pt]; unfold pong_ok; cbn [pongAddrs pong_IPHeader pong_Data PeerAPIPort
    ip4_IPProto ip4_IPID ip4_Src ip4_Dst ip6_IPProto ip6_IPID ip6_Src ip6_Dst];
    intros (Hv & -> & [(V & s' & -> & Rs)|(V & s' & -> & Rs)] & [(V' & d' & -> & Rd)|(V' & d' & -> & Rd)] & _ & Ld & _); try lia;
    try (pose proof (proj2 Hv (ex_intro _ _ eq_refl)); lia); try (destruct (proj1 Hv V) as [? ?]; done).
  all: destruct data as [|d1 [|d2 [|d3 [|d4 [|d5 [|d6 [|d7 [|d8 [|]]]]]]]]]; try done.
Qed.

Lemma Advert_Generate v ka :
  ofVersion v (ka_Src ka) -> ofVersion v (ka_Dst ka) -> length (ka_Key ka) = 32%nat ->
  Advert_Marshal ka = Some (inr (wire 0 (ka_Src ka) (ka_Dst ka) (z2b TSMPTypeDiscoAdvertisement :: ka_Key ka))).
Proof.
  destruct ka as [s d k]. cbn [ka_Src ka_Dst ka_Key]. intros Hs Hd Lk. unfold Advert_Marshal. cbn [ka_Src ka_Dst ka_Key length].
  rewrite Lk. cbn [Nat.eqb negb]. set (payload := _ :: k). assert (length payload = 33%nat) as Lp by (unfold payload; simpl; lia).
  destruct Hs as [(-> & s' & -> & Rs)|(-> & s' & -> & Rs)], Hd as [(V & d' & -> & Rd)|(V & d' & -> & Rd)]; try lia; cbn [Is4]; do 2 f_equal;
    unfold Generate; cbn [Len IP4_Header IP6_Header WriteChecksum Marshal]; rewrite generate_buf, Lp || rewrite generate_buf.
  - rewrite (IP4_Marshal_eq _ _ s' d') by (done || (unfold zeros; autorewrite with len; unfold ip4HeaderLength; rewrite ?Lp; lia)). reflexivity.
  - rewrite IP6_Marshal_eq by (done || (unfold zeros; autorewrite with len; unfold ip6HeaderLength; rewrite ?Lp; lia)). reflexivity.
Qed.

Lemma parse_rejection r h v :
  IPProto r = ipproto.TSMP -> ip (Src r) = IPSrc h -> ip (Dst r) = IPDst h -> Payload r = Some (rejection h) ->
  ip (rj_Src h) = IPDst h -> ip (rj_Dst h) = IPSrc h -> ofVersion v (IPSrc h) ->
  port_ok (port (rj_Src h)) -> port_ok (port (rj_Dst h)) -> byte_ok (rj_Proto h) -> byte_ok (rj_Reason h) ->
  AsTailscaleRejectedHeader r = Some (Some h).
Proof.
  destruct h as [s d [sa sp] [da dp] pr re mb]. unfold port_ok, byte_ok. cbn [IPSrc IPDst rj_Src rj_Dst ip port rj_Proto rj_Reason].
  intros P Es Ed Pl -> -> _ Hsp Hdp Hpr Hre. unfold AsTailscaleRejectedHeader. rewrite Pl, Es, Ed. cbn [mbind option_bind].
  unfold rejection. cbn [rj_Proto rj_Reason rj_Src rj_Dst port MaybeBroken].
  pose proof (be_get_put_small 2 sp Hsp) as Gs. pose proof (be_get_put_small 2 dp Hdp) as Gd.
  pose proof (length_be_put 2 sp) as Ls. pose proof (length_be_put 2 dp) as Ld.
  destruct (be_put 2 sp) as [|s1 [|s2 [|]]], (be_put 2 dp) as [|d1 [|d2 [|]]]; try done.
  assert (b2z (z2b pr) = pr /\ b2z (z2b re) = re) as [Bp Br] by (split; rewrite b2z_z2b; apply Z.mod_small; lia).
  unfold idx. destruct mb; cbn; rewrite ?Bp, ?Br, Gs, Gd; done.
Qed.

Lemma AsTSMPPong_body q h :
  IPProto q = ipproto.TSMP -> Payload q = Some (pongBody h) -> length (pong_Data h) = 8%nat -> 0 <= PeerAPIPort h < 2 ^ 16 ->
  AsTSMPPong q = Some (Some (pong_Data h, PeerAPIPort h)).
Proof.
  intros P Pl Ld Hp. unfold AsTSMPPong. rewrite P, Pl.
  pose proof (be_get_put_small 2 (PeerAPIPort h) Hp) as Gp. pose proof (length_be_put 2 (PeerAPIPort h)) as Lp.
  unfold pongBody. destruct (be_put 2 (PeerAPIPort h)) as [|p1 [|p2 [|]]]; try done.
  destruct (pong_Data h) as [|d1 [|d2 [|d3 [|d4 [|d5 [|d6 [|d7 [|d8 [|]]]]]]]]]; try done. cbn. by rewrite Gp.
Qed.
Lemma length_wire id s d seg : (0 < length (wire id s d seg) <= 40 + length seg)%nat.
Proof. unfold wire. destruct s, d; rewrite length_app, ?length_ip4_wire, ?length_ip6_wire; lia. Qed.
(** What a node sends as a TSMP message another reads as the same message: a rejection comes
    back with its addresses, ports, protocol, reason and flag, a pong with the data of the ping
    and the port, a disco key advertisement with its addresses and key; each over IPv4 and IPv6,
    into any [Parsed], and none is taken for one of another kind. *)
Theorem tsmp_roundtrip q v :
  (forall h, ofVersion v (IPSrc h) -> ofVersion v (IPDst h) -> ip (rj_Src h) = IPDst h -> ip (rj_Dst h) = IPSrc h ->
     port_ok (port (rj_Src h)) -> port_ok (port (rj_Dst h)) -> byte_ok (rj_Proto h) -> byte_ok (rj_Reason h) ->
     exists p r, Generate h [] = inr p /\ Decode q p = Some r /\ AsTailscaleRejectedHeader r = Some (Some h)
       /\ AsTSMPPing r = Some None /\ AsTSMPPong r = Some None /\ AsTSMPDiscoAdvertisement r = Some None)
  /\ (forall h, pong_ok v h ->
     exists p r, Generate h [] = inr p /\ Decode q p = Some r /\ AsTSMPPong r = Some (Some (pong_Data h, PeerAPIPort h))
       /\ AsTSMPPing r = Some None /\ AsTailscaleRejectedHeader r = Some None /\ AsTSMPDiscoAdvertisement r = Some None)
  /\ (forall ka, ofVersion v (ka_Src ka) -> ofVersion v (ka_Dst ka) -> length (ka_Key ka) = 32%nat ->
     exists p r, Advert_Marshal ka = Some (inr p) /\ Decode q p = Some r /\ AsTSMPDiscoAdvertisement r = Some (Some ka)
       /\ AsTSMPPing r = Some None /\ AsTailscaleRejectedHeader r = Some None /\ AsTSMPPong r = Some None).
Proof.
  split; [|split].
  - intros h Hs Hd Es Ed Hsp Hdp Hpr Hre. rewrite (Rejected_Generate v) by (done || by rewrite Es). eexists.
    destruct (wire_decodes v q 0 (IPSrc h) (IPDst h) (rejection h)) as (r & Er & P & V & Sr & Dr & _ & Pl);
      [done|done|lia|unfold rejection; len|unfold rejection; destruct (MaybeBroken h); len|].
    exists r. split; [done|]. split; [done|]. split; [by apply (parse_rejection r h v)|].
    unfold AsTSMPPing, AsTSMPPong, AsTSMPDiscoAdvertisement. rewrite P, Pl. cbn. rewrite !orb_true_r. done.
  - intros h Hh. pose proof (Pong_Generate v h Hh) as G. unfold pong_ok in Hh.
    destruct (pongAddrs h) as [[[pr id] s] d]. destruct Hh as (_ & -> & Hs & Hd & Hi & Ld & Hp). rewrite G. eexists.
    destruct (wire_decodes v q id s d (pongBody h)) as (r & Er & P & V & Sr & Dr & _ & Pl);
      [done|done|done|unfold pongBody; len|unfold pongBody; len|].
    exists r. split; [done|]. split; [done|].
    split; [by apply AsTSMPPong_body|]. unfold AsTSMPPing, AsTSMPDiscoAdvertisement, AsTailscaleRejectedHeader. rewrite P, Pl.
    unfold pongBody. destruct (pong_Data h) as [|d1 [|d2 [|d3 [|d4 [|d5 [|d6 [|d7 [|d8 [|]]]]]]]]]; done.
  - intros ka Hs Hd Lk. rewrite (Advert_Generate v) by done. eexists.
    destruct (wire_decodes v q 0 (ka_Src ka) (ka_Dst ka) (z2b TSMPTypeDiscoAdvertisement :: ka_Key ka))
      as (r & Er & P & V & Sr & Dr & _ & Pl); [done|done|lia|cbn [length]; lia|cbn [length]; lia|].
    exists r. split; [done|]. split; [done|].
    unfold AsTSMPPing, AsTSMPPong, AsTSMPDiscoAdvertisement, AsTailscaleRejectedHeader. rewrite P, Pl, Sr, Dr. cbn.
    rewrite Lk. cbn. rewrite drop_0, (take_ge (ka_Key ka)) by lia. by destruct ka.
Qed.
Definition ex_rejected : TailscaleRejectedHeader :=
  MkRejected (Addr4 0x64400001) (Addr4 0x64400002) (MkAddrPort (Addr4 0x64400002) 40000)
    (MkAddrPort (Addr4 0x64400001) 22) ipproto.TCP RejectedDueToShieldsUp true.
Lemma tsmp_roundtrip_witness :
  exists p r, Generate ex_rejected [] = inr p /\ Decode zeroParsed p = Some r
    /\ AsTailscaleRejectedHeader r = Some (Some ex_rejected).
Proof.
  assert (forall a, 0 <= a < 2 ^ 32 -> ofVersion 4 (Addr4 a)) as O by (intros a Ha; left; split; [done|by exists a]).
  destruct (proj1 (tsmp_roundtrip zeroParsed 4) ex_rejected) as (p & r & G & D & R & _);
    [apply O; vm_compute; done|apply O; vm_compute; done|done|done|vm_compute; done..|].
  exists p, r. exact (conj G (conj D R)).
Defined.

End TSMP.
