(* ===== verification/Tstun.v ===== *)
(** * The TUN wrapper (net/tstun/wrap.go; net/tsaddr)

    Packets between the host and WireGuard: the per-peer masquerading table built from the
    WireGuard configuration, address translation, the two packet pipelines around the filter, the
    batch loops of [Read] and [Write], and packets injected on either side. The hooks other
    components install are arguments that answer for a packet; a nil hook is [None]. What the
    wrapper does outside of its results (packets put on the outbound queue, packets written to the
    device past the loop, published advertisements, callbacks) is a list of actions. [None] is a
    panic. Left out: the TAP device, generic segmentation offload, packet capture, metrics,
    logs, and the time of the last activity. *)
From S2P Require Import Prelude Netip Bytes Slices Disco IPPacket IPSet FlowTrack Filter Checksum TSMP.
Import IPPacket TSMP Checksum FlowTrack Filter.

(** ** The routing table of [bart] with values *)
(** The value of the longest prefix that contains [a]; of two insertions of one prefix, the last. *)
Definition lpmStep {V} (a : Addr) (best : option (Z * V)) (e : Prefix * V) : option (Z * V) :=
  if Contains e.1 a && (match best with Some (n, _) => n <=? pfxBits e.1 | None => true end)
  then Some (pfxBits e.1, e.2) else best.
Definition lpm {V} (es : list (Prefix * V)) (a : Addr) : option V := snd <$> foldl (lpmStep a) None es.
Class BartMap := {
  bartMap : Type -> Type;
  bartEmpty {V} : bartMap V;
  bartInsert {V} : Prefix -> V -> bartMap V -> bartMap V;
  bartLookup {V} : bartMap V -> Addr -> option V;
  bartLookup_spec {V} (es : list (Prefix * V)) a :
    hasZone a = false -> bartLookup (foldl (fun m e => bartInsert e.1 e.2 m) bartEmpty es) a = lpm es a }.

Module Tstun.

(** ** net/tsaddr *)
Definition ChromeOSVMRange : Prefix := MkPrefix (Addr4 0x64735c00) 23.
Definition CGNATRange : Prefix := MkPrefix (Addr4 0x64400000) 10.
Definition TailscaleULARange : Prefix := MkPrefix (Addr6 0xfd7a115ca1e000000000000000000000 EmptyString) 48.
Definition AllIPv4 : Prefix := MkPrefix (Addr4 0) 0.
Definition AllIPv6 : Prefix := MkPrefix (Addr6 0 EmptyString) 0.
Definition TailscaleServiceIP : Addr := Addr4 0x64646464.
Definition TailscaleServiceIPv6 : Addr := Addr6 0xfd7a115ca1e000000000000000000053 EmptyString.
Definition IsTailscaleIPv4 (a : Addr) : bool := Contains CGNATRange a && negb (Contains ChromeOSVMRange a).
Definition IsTailscaleIP (a : Addr) : bool := if Is4 a then IsTailscaleIPv4 a else Contains TailscaleULARange a.

(** ** The WireGuard configuration, as far as it is used *)
Record Peer := MkPeer {
  AllowedIPs : list Prefix;
  V4MasqAddr : option Addr;
  V6MasqAddr : option Addr;
  IsJailed : bool }.
Record Config := MkConfig { Addresses : list Prefix; Peers : list Peer }.

Fixpoint findV4 (addrs : list Prefix) : Addr :=
  match addrs with
  | [] => AddrZero
  | ap :: addrs => let a := pfxAddr ap in if Is4 a && IsTailscaleIP a then a else findV4 addrs
  end.
Fixpoint findV6 (addrs : list Prefix) : Addr :=
  match addrs with
  | [] => AddrZero
  | ap :: addrs => let a := pfxAddr ap in if Is6 a && IsTailscaleIP a then a else findV6 addrs
  end.

Record peerConfig := MkPeerConfig { dstMasqAddr4 : Addr; dstMasqAddr6 : Addr; jailed : bool }.

Section tstun.
Context `{BartTable} {FC : FlowCache lruMax} `{BM : BartMap}.

Record peerConfigTable := MkPeerConfigTable {
  nativeAddr4 : Addr;
  nativeAddr6 : Addr;
  byIP : bartMap peerConfig;
  masqAddrCounts : gmap Addr Z }.

(** *** Address translation; a nil table is [None]. *)
Definition mapDstIP (pc : option peerConfigTable) (src oldDst : Addr) : Addr :=
  match pc with
  | None => oldDst
  | Some pc =>
      match bartLookup (byIP pc) src with
      | None => oldDst
      | Some c =>
          if Is4 oldDst && AddrIsValid (nativeAddr4 pc) && bool_decide (dstMasqAddr4 c = oldDst) then nativeAddr4 pc
          else if Is6 oldDst && AddrIsValid (nativeAddr6 pc) && bool_decide (dstMasqAddr6 c = oldDst) then nativeAddr6 pc
          else oldDst
      end
  end.
Definition selectSrcIP (pc : option peerConfigTable) (oldSrc dst : Addr) : Addr :=
  match pc with
  | None => oldSrc
  | Some pc =>
      if Is4 oldSrc && negb (bool_decide (oldSrc = nativeAddr4 pc)) then oldSrc
      else if Is6 oldSrc && negb (bool_decide (oldSrc = nativeAddr6 pc)) then oldSrc
      else
        match bartLookup (byIP pc) dst with
        | None => oldSrc
        | Some c =>
            if Is4 oldSrc && AddrIsValid (dstMasqAddr4 c) then dstMasqAddr4 c
            else if Is6 oldSrc && AddrIsValid (dstMasqAddr6 c) then dstMasqAddr6 c
            else oldSrc
        end
  end.
Definition snat (pc : option peerConfigTable) (p : Parsed) : option Parsed :=
  let oldSrc := ip (Src p) in
  let newSrc := selectSrcIP pc oldSrc (ip (Dst p)) in
  if negb (bool_decide (oldSrc = newSrc)) then UpdateSrcAddr p newSrc else Some p.
Definition dnat (pc : option peerConfigTable) (p : Parsed) : option Parsed :=
  let oldDst := ip (Dst p) in
  let newDst := mapDstIP pc (ip (Src p)) oldDst in
  if negb (bool_decide (newDst = oldDst)) then UpdateDstAddr p newDst else Some p.

(** *** Building the table *)
Definition isValidPtr (a : option Addr) : bool := match a with Some a => AddrIsValid a | None => false end.
Definition isExitNode (p : Peer) : bool :=
  bool_decide (AllIPv4 ∈ AllowedIPs p) || bool_decide (AllIPv6 ∈ AllowedIPs p).
(** The first loop: only the first exit node is looked at. *)
Fixpoint exitNodeRequiresMasq (peers : list Peer) : bool :=
  match peers with
  | [] => false
  | p :: peers =>
      if isExitNode p then isValidPtr (V4MasqAddr p) || isValidPtr (V6MasqAddr p)
      else exitNodeRequiresMasq peers
  end.
Definition count (m : gmap Addr Z) (a : Addr) : gmap Addr Z := <[a := default 0 (m !! a) + 1]> m.
(** The addresses to masquerade as towards a peer *)
Definition addrsToUse (n4 n6 : Addr) (exitMasq : bool) (p : Peer) : Addr * Addr :=
  let a4 := match V4MasqAddr p with Some a => if AddrIsValid a then a else AddrZero | None => AddrZero end in
  let a6 := match V6MasqAddr p with Some a => if AddrIsValid a then a else AddrZero | None => AddrZero end in
  if exitMasq then
    (if negb (AddrIsValid a4) && AddrIsValid n4 then n4 else a4,
     if negb (AddrIsValid a6) && AddrIsValid n6 then n6 else a6)
  else (a4, a6).
Definition countMasq (m : gmap Addr Z) (p : Peer) : gmap Addr Z :=
  let m := match V4MasqAddr p with Some a => if AddrIsValid a then count m a else m | None => m end in
  match V6MasqAddr p with Some a => if AddrIsValid a then count m a else m | None => m end.
(** The body of the second loop, on the table, the counts and the size *)
Definition addPeer (n4 n6 : Addr) (exitMasq : bool) (acc : bartMap peerConfig * gmap Addr Z * nat) (p : Peer)
  : bartMap peerConfig * gmap Addr Z * nat :=
  let '(t, m, size) := acc in
  let m := countMasq m p in
  let '(a4, a6) := addrsToUse n4 n6 exitMasq p in
  if negb (AddrIsValid a4) && negb (AddrIsValid a6) && negb (IsJailed p) then (t, m, size)
  else
    let pc := MkPeerConfig a4 a6 (IsJailed p) in
    (foldl (fun t ap => bartInsert ap pc t) t (AllowedIPs p), m, (size + length (AllowedIPs p))%nat).
Definition peerConfigTableFromWGConfig (wcfg : option Config) : option peerConfigTable :=
  match wcfg with
  | None => None
  | Some wcfg =>
      let n4 := findV4 (Addresses wcfg) in
      let n6 := findV6 (Addresses wcfg) in
      if negb (AddrIsValid n4) && negb (AddrIsValid n6) then None
      else
        let exitMasq := exitNodeRequiresMasq (Peers wcfg) in
        let '(t, m, size) := foldl (addPeer n4 n6 exitMasq) (bartEmpty, ∅, O) (Peers wcfg) in
        if (size =? 0)%nat && bool_decide (m = ∅) then None else Some (MkPeerConfigTable n4 n6 t m)
  end.

Definition inboundPacketIsJailed (pc : option peerConfigTable) (p : Parsed) : bool :=
  match pc with
  | None => false
  | Some pc => match bartLookup (byIP pc) (ip (Src p)) with Some c => jailed c | None => false end
  end.
Definition outboundPacketIsJailed (pc : option peerConfigTable) (p : Parsed) : bool :=
  match pc with
  | None => false
  | Some pc => match bartLookup (byIP pc) (ip (Dst p)) with Some c => jailed c | None => false end
  end.

(** ** The wrapper *)
Definition Hook : Type := Parsed -> Response.
Record Wrapper := MkWrapper {
  (** Constants of wireguard-go: the room for a transport header, the largest packet *)
  PacketStartOffset : nat;
  MaxPacketSize : nat;
  destIPActivity : gset Addr;
  discoKey : bytes;
  peerConfig_ : option peerConfigTable;
  filter_ : option Filter.t;
  jailedFilter : option Filter.t;
  PreFilterPacketInboundFromWireGuard : option Hook;
  PostFilterPacketInboundFromWireGuardAppConnector : option Hook;
  PostFilterPacketInboundFromWireGuard : option Hook;
  PreFilterPacketOutboundToWireGuardNetstackIntercept : option Hook;
  PreFilterPacketOutboundToWireGuardEngineIntercept : option Hook;
  PreFilterPacketOutboundToWireGuardAppConnectorIntercept : option Hook;
  PostFilterPacketOutboundToWireGuard : option Hook;
  OnTSMPPongReceived : bool;
  OnICMPEchoResponseReceived : option (Parsed -> bool);
  PeerAPIPort : option (Addr -> Z * bool);
  disableFilter : bool;
  disableTSMPRejected : bool;
  (** [buildfeatures.HasCacheNetMap] and the environment variable *)
  useCachedNetmap : bool }.

Inductive action :=
  | InjectedOutbound (pkt : bytes)
  | WroteDevice (buf : bytes)
  | PublishedDiscoKey (src : Addr) (key : bytes)
  | PongReceived (data : bytes) (peerAPIPort : Z)
  | NotedActivity (dst : Addr).

(** The flow caches of the filters, and what was done so far *)
Definition St : Type := store * list action.
Definition act (a : action) (s : St) : St := (s.1, s.2 ++ [a]).

(** A hook that drops ends the pipeline with its verdict. *)
Definition runHook (h : option Hook) (p : Parsed) : option Response :=
  match h with Some f => if IsDrop (f p) then Some (f p) else None | None => None end.

Section wrapper.
Variable t : Wrapper.

(** [InjectOutbound]; the error result is not used by the callers here. *)
Definition InjectOutbound (pkt : bytes) (s : St) : St :=
  if (MaxPacketSize t <? length pkt)%nat then s
  else if (length pkt =? 0)%nat then s
  else act (InjectedOutbound pkt) s.
Definition InjectInboundDirect (buf : bytes) (offset : nat) (s : St) : St :=
  if (MaxPacketSize t <? length buf)%nat then s
  else if (length buf <? offset)%nat then s
  else if (offset <? PacketStartOffset t)%nat then s
  else act (WroteDevice buf) s.
Definition InjectInboundCopy (pkt : bytes) (s : St) : St :=
  if (MaxPacketSize t <? length pkt)%nat then s
  else if (length pkt =? 0)%nat then s
  else
    let buf := zeros (PacketStartOffset t + length pkt) in
    let buf := copyAt (PacketStartOffset t) pkt buf in
    InjectInboundDirect buf (PacketStartOffset t) s.
(** The packet of [packet.Generate]; a panic of it is one of the caller. *)
Definition generated (r : hdrErr + bytes) : option bytes := match r with inr p => Some p | inl _ => None end.

Definition isSelfDisco (p : Parsed) : option bool :=
  if negb (IPProto p =? ipproto.UDP) then Some false else
  pkt ← Payload p;
  match Source pkt with
  | None => Some false
  | Some discobs => Some (bool_decide (discoKey t = discobs))
  end.

Definition injectOutboundPong (pp : Parsed) (req : bytes) (s : St) : option St :=
  let port := match PeerAPIPort t with Some f => (f (ip (Dst pp))).1 | None => 0 end in
  if IPVersion pp =? 4 then
    h4 ← toIP4Header pp;
    pkt ← generated (Generate (TSMP.MkPong (inl (IP4_ToResponse h4)) req port) []);
    Some (InjectOutbound pkt s)
  else if IPVersion pp =? 6 then
    h6 ← toIP6Header pp;
    pkt ← generated (Generate (TSMP.MkPong (inr (IP6_ToResponse h6)) req port) []);
    Some (InjectOutbound pkt s)
  else Some s.

(** *** Outbound: from the host to WireGuard *)
Definition magicDNSIPPort : AddrPort := MkAddrPort TailscaleServiceIP 0.
Definition magicDNSIPPortv6 : AddrPort := MkAddrPort TailscaleServiceIPv6 0.
(** The fake echo response; [Some None] when the packet is not such a request *)
Definition answerMagicDNS (p : Parsed) (s : St) : option (option St) :=
  if negb (IsEchoRequest p) then Some None
  else if bool_decide (Dst p = magicDNSIPPort) then
    h ← toICMP4Header p;
    payload ← Payload p;
    outp ← generated (Generate (ICMP4_ToResponse h) payload);
    Some (Some (InjectInboundCopy outp s))
  else if bool_decide (Dst p = magicDNSIPPortv6) then
    h ← toICMP6Header p;
    payload ← Payload p;
    outp ← generated (Generate (ICMP6_ToResponse h) payload);
    Some (Some (InjectInboundCopy outp s))
  else Some None.
Definition selectFilter (isJailed : bool) : option Filter.t := if isJailed then jailedFilter t else filter_ t.

Definition filterPacketOutboundToWireGuard (p : Parsed) (pc : option peerConfigTable) (s : St) : option (Response * St) :=
  ans ← answerMagicDNS p s;
  match ans with
  | Some s => Some (DropSilently, s)
  | None =>
      self ← (if IPProto p =? ipproto.UDP then isSelfDisco p else Some false);
      if self : bool then Some (DropSilently, s) else
      match runHook (PreFilterPacketOutboundToWireGuardNetstackIntercept t) p with Some r => Some (r, s) | None =>
      match runHook (PreFilterPacketOutboundToWireGuardEngineIntercept t) p with Some r => Some (r, s) | None =>
      match runHook (PreFilterPacketOutboundToWireGuardAppConnectorIntercept t) p with Some r => Some (r, s) | None =>
      match selectFilter (outboundPacketIsJailed pc p) with
      | None => Some (Drop, s)
      | Some filt =>
          let '(resp, _, w) := RunOut filt p s.1 in
          let s := (w, s.2) in
          if negb (bool_decide (resp = Accept)) then Some (Drop, s) else
          match runHook (PostFilterPacketOutboundToWireGuard t) p with Some r => Some (r, s) | None => Some (Accept, s) end
      end end end end
  end.

(** [Read] of a vector from the device: [data] are the packets at their offset, [room] the space
    of each buffer of the caller at its offset. The result is what the buffers hold. *)
Fixpoint readLoop (pc : option peerConfigTable) (p : Parsed) (data : list bytes) (room : list nat) (s : St)
  : option (list bytes * Parsed * St) :=
  match data with
  | [] => Some ([], p, s)
  | d :: data =>
      p ← Decode p d;
      let s := if bool_decide (ip (Dst p) ∈ destIPActivity t) then act (NotedActivity (ip (Dst p))) s else s in
      '(resp, s) ← (if negb (disableFilter t) then filterPacketOutboundToWireGuard p pc s else Some (Accept, s));
      if negb (bool_decide (resp = Accept)) then readLoop pc p data room s
      else
        p ← snat pc p;
        match room with
        | [] => None
        | n :: room =>
            if (n <? length (b p))%nat then None
            else
              '(out, p', s) ← readLoop pc p data room s;
              Some (b p :: out, p', s)
        end
  end.
Definition Read (p : Parsed) (data : list bytes) (room : list nat) (s : St) : option (list bytes * Parsed * St) :=
  readLoop (peerConfig_ t) p data room s.
(** [injectedRead] of bytes, which bypass the filter *)
Definition injectedRead (p : Parsed) (data : bytes) (room : nat) (s : St) : option (bytes * Parsed * St) :=
  p ← Decode p (take room data);
  p ← snat (peerConfig_ t) p;
  let s := if bool_decide (ip (Dst p) ∈ destIPActivity t) then act (NotedActivity (ip (Dst p))) s else s in
  Some (b p, p, s).

(** *** Inbound: from WireGuard to the host *)
(** The TSMP messages the wrapper handles itself; [Some (Some s)] ends the pipeline. *)
Definition handleTSMP (p : Parsed) (s : St) : option (option St * St) :=
  if negb (IPProto p =? ipproto.TSMP) then Some (None, s) else
  ping ← AsTSMPPing p;
  match ping with
  | Some req => s' ← injectOutboundPong p req s; Some (Some s', s)
  | None =>
      adv ← AsTSMPDiscoAdvertisement p;
      match adv with
      | Some ka =>
          Some (Some (if useCachedNetmap t then act (PublishedDiscoKey (ka_Src ka) (ka_Key ka)) s else s), s)
      | None =>
          pong ← AsTSMPPong p;
          match pong with
          | Some (data, port) => Some (None, if OnTSMPPongReceived t then act (PongReceived data port) s else s)
          | None => Some (None, s)
          end
      end
  end.
(** Tells the sender of a rejected connection attempt. *)
Definition sendRejection (filt : Filter.t) (p : Parsed) (s : St) : option St :=
  if (IPVersion p =? 4) && (IPProto p =? ipproto.TCP) && negb (Z.land (TCPFlags p) TCPSyn =? 0)
     && negb (disableTSMPRejected t) then
    let reason := if shieldsUp filt then RejectedDueToShieldsUp else RejectedDueToACLs in
    pkt ← generated (Generate (MkRejected (ip (Dst p)) (ip (Src p)) (Src p) (Dst p) (IPProto p) reason false) []);
    Some (InjectOutbound pkt s)
  else Some s.
Definition peerAPIAllowed (p : Parsed) : bool :=
  if (IPProto p =? ipproto.TCP) && negb (Z.land (TCPFlags p) TCPSyn =? 0) then
    match PeerAPIPort t with
    | Some f => let '(pt, ok) := f (ip (Dst p)) in ok && (pt =? port (Dst p))
    | None => false
    end
  else false.

Definition filterPacketInboundFromWireGuard (p : Parsed) (pc : option peerConfigTable) (s : St) : option (Response * St) :=
  '(done_, s) ← handleTSMP p s;
  match done_ with
  | Some s => Some (DropSilently, s)
  | None =>
      let handled := IsEchoResponse p && match OnICMPEchoResponseReceived t with Some f => f p | None => false end in
      if handled then Some (DropSilently, s) else
      self ← (if IPProto p =? ipproto.UDP then isSelfDisco p else Some false);
      if self : bool then Some (DropSilently, s) else
      match runHook (PreFilterPacketInboundFromWireGuard t) p with Some r => Some (r, s) | None =>
      match selectFilter (inboundPacketIsJailed pc p) with
      | None => Some (Drop, s)
      | Some filt =>
          let '(outcome, w) := RunIn filt p s.1 in
          let s := (w, s.2) in
          let outcome := if negb (bool_decide (outcome = Accept)) && peerAPIAllowed p then Accept else outcome in
          if negb (bool_decide (outcome = Accept)) then s ← sendRejection filt p s; Some (Drop, s) else
          match runHook (PostFilterPacketInboundFromWireGuardAppConnector t) p with Some r => Some (r, s) | None =>
          match runHook (PostFilterPacketInboundFromWireGuard t) p with Some r => Some (r, s) | None => Some (Accept, s) end end
      end end
  end.

(** [Write]: the buffers are changed in place by the translation and those accepted are handed to
    the device, all of them when filtering is off. The result is what the device is given. *)
Fixpoint writeLoop (pc : option peerConfigTable) (offset : nat) (p : Parsed) (buffs : list bytes) (s : St)
  : option (list bytes * Parsed * St) :=
  match buffs with
  | [] => Some ([], p, s)
  | buff :: buffs =>
      d ← slice buff offset (length buff);
      p ← Decode p d;
      p ← dnat pc p;
      let buff := take offset buff ++ b p in
      '(keep, s) ←
        (if negb (disableFilter t) then
           '(res, s) ← filterPacketInboundFromWireGuard p pc s; Some (bool_decide (res = Accept), s)
         else Some (true, s));
      '(out, p', s) ← writeLoop pc offset p buffs s;
      Some (if keep : bool then buff :: out else out, p', s)
  end.
Definition Write_ (p : Parsed) (buffs : list bytes) (offset : nat) (s : St) : option (list bytes * Parsed * St) :=
  writeLoop (peerConfig_ t) offset p buffs s.

End wrapper.

Definition SetWGConfig (t : Wrapper) (wcfg : option Config) : Wrapper :=
  MkWrapper (PacketStartOffset t) (MaxPacketSize t) (destIPActivity t) (discoKey t)
    (peerConfigTableFromWGConfig wcfg) (filter_ t) (jailedFilter t)
    (PreFilterPacketInboundFromWireGuard t) (PostFilterPacketInboundFromWireGuardAppConnector t)
    (PostFilterPacketInboundFromWireGuard t) (PreFilterPacketOutboundToWireGuardNetstackIntercept t)
    (PreFilterPacketOutboundToWireGuardEngineIntercept t) (PreFilterPacketOutboundToWireGuardAppConnectorIntercept t)
    (PostFilterPacketOutboundToWireGuard t) (OnTSMPPongReceived t) (OnICMPEchoResponseReceived t) (PeerAPIPort t)
    (disableFilter t) (disableTSMPRejected t) (useCachedNetmap t).

End tstun.
End Tstun.
