(* ===== verification/TstunProps.v ===== *)
(** * Theorems on the TUN wrapper

    What translation does to a packet; which packets make [Write] panic; what is delivered to the
    host was admitted by the filter of its sender; what a jailed peer can do; the table built from
    the configuration. *)
From S2P Require Import Prelude Netip Bytes Slices Disco IPPacket IPPacketProps PacketHeaders IPSet.
From S2P Require Import FlowTrack Filter FilterProps Checksum ChecksumProps TSMP Tstun.
Import IPPacket TSMP Checksum FlowTrack Filter Tstun.

#[local] Arguments be_put : simpl never.
#[local] Arguments be_get : simpl never.
#[local] Arguments As16 : simpl never.
#[local] Arguments copyAt : simpl never.
#[local] Arguments zeros : simpl never.
#[local] Arguments Z.of_nat : simpl never.
#[local] Arguments Nat.ltb : simpl never.

(** The list of insertions is a table. *)
Definition listInsert {V} (p : Prefix) (v : V) (m : list (Prefix * V)) : list (Prefix * V) := m ++ [(p, v)].
Lemma listInsert_all {V} (es m : list (Prefix * V)) : foldl (fun m e => listInsert e.1 e.2 m) m es = m ++ es.
Proof.
  revert m. induction es as [|[p v] es IH]; intros m; simpl; [by rewrite app_nil_r|].
  rewrite IH. unfold listInsert. by rewrite <- app_assoc.
Qed.
Definition list_bart_map : BartMap :=
  {| bartMap V := list (Prefix * V);
     bartEmpty V := [];
     bartInsert V := listInsert;
     bartLookup V m a := lpm m a;
     bartLookup_spec V es a _ := f_equal (fun l => lpm l a) (listInsert_all es []) |}.

Section props.
Context `{BartTable} {FC : FlowCache lruMax} {BM : BartMap}.

(** ** Tables *)
Definition addr_fits (v : Z) (a : Addr) : Prop := a = AddrZero \/ ofVersion v a.
Definition table_ok (pc : option peerConfigTable) : Prop :=
  match pc with
  | None => True
  | Some pc => addr_fits 4 (nativeAddr4 pc) /\ addr_fits 6 (nativeAddr6 pc)
      /\ forall a c, hasZone a = false -> bartLookup (byIP pc) a = Some c ->
           addr_fits 4 (dstMasqAddr4 c) /\ addr_fits 6 (dstMasqAddr6 c)
  end.

Lemma ofVersion_zone v a : ofVersion v a -> hasZone a = false.
Proof. by intros [(_ & x & -> & _)|(_ & x & -> & _)]. Qed.
Lemma mapDstIP_fits pc v src dst :
  table_ok pc -> ofVersion v dst -> ofVersion v (mapDstIP pc src dst).
Proof.
  intros T D. unfold mapDstIP. destruct pc as [pc|]; [|done]. destruct T as (T4 & T6 & _).
  destruct (bartLookup (byIP pc) src) as [c|]; [|done].
  destruct D as [(-> & d & -> & R)|(-> & d & -> & R)]; cbn [Is4 Is6 andb].
  - destruct (AddrIsValid (nativeAddr4 pc) && _) eqn:E; [|left; eauto].
    destruct T4 as [T4|T4]; [by rewrite T4 in E|done].
  - destruct (AddrIsValid (nativeAddr6 pc) && _) eqn:E; [|right; eauto].
    destruct T6 as [T6|T6]; [by rewrite T6 in E|done].
Qed.
Lemma selectSrcIP_fits pc v src dst :
  table_ok pc -> ofVersion v src -> hasZone dst = false -> ofVersion v (selectSrcIP pc src dst).
Proof.
  intros T D Z. unfold selectSrcIP. destruct pc as [pc|]; [|done]. destruct T as (_ & _ & T).
  destruct (_ && _); [done|]. destruct (_ && _); [done|].
  destruct (bartLookup (byIP pc) dst) as [c|] eqn:E; [|done]. destruct (T dst c Z E) as [T4 T6].
  destruct D as [(-> & d & -> & R)|(-> & d & -> & R)]; cbn [Is4 Is6 andb].
  - destruct (AddrIsValid (dstMasqAddr4 c)) eqn:V; [|left; eauto]. destruct T4 as [T4|T4]; [by rewrite T4 in V|done].
  - destruct (AddrIsValid (dstMasqAddr6 c)) eqn:V; [|right; eauto]. destruct T6 as [T6|T6]; [by rewrite T6 in V|done].
Qed.

(** ** Translating a packet *)
(** The addresses are read and the transport starts in the packet. *)
Record framed (q : Parsed) : Prop := MkFramed {
  fr_addr : forall src, ofVersion (IPVersion q) (ip (addrOf src q));
  fr_head : (headLen (IPVersion q) <= length (b q))%nat;
  fr_sub : (subofs q <= length (b q))%nat }.
(** [q'] is [q] with one address replaced, as far as the [Parsed] goes. *)
Record moved (src : bool) (q : Parsed) (x : Addr) (q' : Parsed) : Prop := MkMoved {
  mv_addr : addrOf src q' = MkAddrPort x (port (addrOf src q));
  mv_other : addrOf (negb src) q' = addrOf (negb src) q;
  mv_version : IPVersion q' = IPVersion q;
  mv_proto : IPProto q' = IPProto q;
  mv_offsets : subofs q' = subofs q /\ dataofs q' = dataofs q /\ length_ q' = length_ q;
  mv_flags : TCPFlags q' = TCPFlags q;
  mv_length : length (b q') = length (b q) }.
Definition translate (src : bool) (pc : option peerConfigTable) : Parsed -> option Parsed :=
  if src then snat pc else dnat pc.
Definition target (src : bool) (pc : option peerConfigTable) (q : Parsed) : Addr :=
  if src then selectSrcIP pc (ip (Src q)) (ip (Dst q)) else mapDstIP pc (ip (Src q)) (ip (Dst q)).

Lemma target_fits src pc q :
  table_ok pc -> framed q -> ofVersion (IPVersion q) (target src pc q).
Proof.
  intros T F. pose proof (fr_addr q F true) as S. pose proof (fr_addr q F false) as D. unfold target.
  destruct src; [apply selectSrcIP_fits; try done; exact (ofVersion_zone _ _ D)|by apply mapDstIP_fits].
Qed.
Lemma translate_eq src pc q :
  translate src pc q = if decide (ip (addrOf src q) = target src pc q) then Some q else UpdateAddr src q (target src pc q).
Proof.
  unfold translate, target. destruct src; unfold snat, dnat; cbn [addrOf].
  - destruct (decide (ip (Src q) = _)) as [E|E]; [by rewrite bool_decide_eq_true_2|by rewrite bool_decide_eq_false_2].
  - destruct (decide (ip (Dst q) = _)) as [E|E]; [by rewrite bool_decide_eq_true_2|].
    rewrite bool_decide_eq_false_2; [done|]. congruence.
Qed.
Lemma translate_spec src pc q :
  table_ok pc -> framed q ->
  exists q', translate src pc q = Some q' /\ moved src q (target src pc q) q' /\ framed q'
    /\ (ip (addrOf src q) = target src pc q -> q' = q).
Proof.
  intros T F. pose proof (target_fits src pc q T F) as X. rewrite translate_eq.
  destruct (decide (ip (addrOf src q) = target src pc q)) as [E|E].
  { exists q. split; [done|]. split; [|done]. split; try done. destruct src; cbn [addrOf] in *; rewrite <- E; by destruct (Src q), (Dst q). }
  destruct (UpdateAddr_spec src q (target src pc q) (fr_addr q F src) X (fr_head q F) (fr_sub q F)) as (y & -> & R).
  pose proof (rewritten_length _ _ _ _ _ _ _ _ R) as Ly.
  exists (set_buf (withAddr src q (target src pc q)) y). split; [done|]. split; [|split; [|done]].
  - split; destruct q, src; done.
  - destruct (withAddr_fields src q (target src pc q) y) as (B' & V' & _ & S' & _).
    split; rewrite ?V', ?B', ?S', ?Ly; [|apply F|apply F]. intros s. pose proof (fr_addr q F s) as Fs.
    clear -Fs X. generalize dependent (target src pc q). intros x X. destruct q, src, s; done.
Qed.

Lemma slice_suffix (pre d : bytes) : slice (pre ++ d) (length pre) (length (pre ++ d)) = Some d.
Proof.
  rewrite slice_lt by (rewrite length_app; lia). by rewrite drop_app_length, length_app, Nat.add_comm, Nat.add_sub, firstn_all.
Qed.

(** ** TSMP packets *)
(** Takes a decoder that returned through its next test or read. *)
Ltac dec_step E :=
  lazymatch type of E with
  | (if ?c then _ else _) = Some _ => destruct c eqn:?
  | mbind _ ?m = Some _ => destruct m eqn:?; [cbn [mbind option_bind] in E|done]
  | Some _ = Some _ => injection E as <-
  end.
Lemma readPorts_proto q sub r : readPorts q sub = Some r -> IPProto r = IPProto q.
Proof. intros E. unfold readPorts in E. repeat dec_step E. by destruct q. Qed.
Lemma readTCP_proto q sub r : readTCP q sub = Some r -> IPProto r = IPProto q.
Proof.
  intros E. unfold readTCP in E. repeat dec_step E. rewrite <- (readPorts_proto q sub _ ltac:(eassumption)).
  by match goal with |- IPProto (set_dataofs (set_TCPFlags ?x _) _) = _ => destruct x end.
Qed.
Lemma set_dataofs_proto q n : IPProto (set_dataofs q n) = IPProto q.
Proof. by destruct q. Qed.
Lemma tsmp_dataofs q0 p q : Decode q0 p = Some q -> IPProto q = ipproto.TSMP -> dataofs q = subofs q.
Proof.
  intros E P. unfold Decode, decode4, decode6 in E. cbv zeta in E.
  repeat dec_step E; try (by destruct q0);
    repeat match goal with
    | H : readPorts _ _ = Some _ |- _ => apply readPorts_proto in H
    | H : readTCP _ _ = Some _ |- _ => apply readTCP_proto in H
    | H : (_ =? ipproto.TSMP) = false |- _ => apply Z.eqb_neq in H
    | H : (_ =? _) = true |- _ => apply Z.eqb_eq in H
    end; rewrite ?set_dataofs_proto in P; destruct q0; cbn in *; first [congruence|(subst; done)|exfalso; unfold ipproto.TCP, ipproto.UDP, ipproto.SCTP, ipproto.TSMP in *; lia].
Qed.

(** ** Packets as WireGuard hands them up: whole, and cut to the length in the header *)
Definition checked (p : bytes) : Prop :=
  whole4 p /\ totalLen4 p = length p \/ whole6 p /\ totalLen6 p = length p.
(** The IPv4 header length field does not point past the packet. *)
Definition header_in (p : bytes) : Prop := verOf p = 4 -> (ihl p <= length p)%nat.

Lemma read4_framed p q : whole4 p -> read4 p q -> (ihl p <= length p)%nat -> framed q.
Proof.
  intros (L & _) [B V Rs Rd S _ _] I. split; rewrite ?V, ?B, ?S; [|exact L|done].
  intros [|]; unfold addrOf; rewrite ?Rs, ?Rd; left; (split; [done|]); eexists; (split; [done|]).
  - exact (be_get_slice p 12 4 ltac:(lia)).
  - exact (be_get_slice p 16 4 ltac:(lia)).
Qed.
Lemma read6_framed p q : whole6 p -> read6 p q -> framed q.
Proof.
  intros (L & _) [B V Rs Rd S _ _]. split; rewrite ?V, ?B, ?S; [|exact L|exact L].
  intros [|]; unfold addrOf; rewrite ?Rs, ?Rd; right; (split; [done|]); eexists; (split; [done|]).
  - exact (be_get_slice p 8 16 ltac:(lia)).
  - exact (be_get_slice p 24 16 ltac:(lia)).
Qed.
Lemma checked_framed q0 p : checked p -> header_in p ->
  exists q, Decode q0 p = Some q /\ decoded q /\ framed q /\ b q = p /\ length_ q = length (b q).
Proof.
  intros C I. destruct (Decode_decoded q0 p) as (q & E & B & D). exists q. split; [done|]. split; [done|].
  destruct C as [[W T]|[W T]].
  - destruct (Decode_whole4 q0 p W) as (? & [= <-]%(eq_trans (eq_sym E)) & R).
    split; [apply (read4_framed p q W R), I, W|]. split; [done|]. rewrite B. rewrite (r4_length _ _ R). done.
  - destruct (Decode_whole6 q0 p W) as (? & [= <-]%(eq_trans (eq_sym E)) & R).
    split; [by apply (read6_framed p)|]. split; [done|]. rewrite B. rewrite (r6_length _ _ R). done.
Qed.
Lemma known_framed q0 p q : Decode q0 p = Some q -> IPProto q <> ipproto.Unknown -> framed q.
Proof.
  intros E U. destruct (known_fields q0 p q E U) as (_ & B & L & S & A). split; rewrite ?B; [|done|lia].
  intros src. apply A.
Qed.
(** A translated packet, decoded again, is itself; nothing but the address and the checksums changes. *)
Lemma translate_fresh src pc q0 p q :
  table_ok pc -> Decode q0 p = Some q -> IPProto q <> ipproto.Unknown -> (headLen (IPVersion q) <= subofs q)%nat ->
  exists q', translate src pc q = Some q' /\ moved src q (target src pc q) q' /\ framed q'
    /\ (forall q1 r, Decode q1 (b q') = Some r -> agree r q')
    /\ forall i, (subofs q <= i)%nat ->
         (forall k, fieldOf (IPVersion q) (IPProto q) (drop (subofs q) (b q)) = Some k -> ~ (subofs q + k <= i < subofs q + k + 2)%nat) ->
         b q' !! i = b q !! i.
Proof.
  intros T E U Hs. pose proof (known_framed q0 p q E U) as F.
  destruct (translate_spec src pc q T F) as (q' & Et & M & F' & Same). exists q'. split; [done|]. split; [done|]. split; [done|].
  destruct (decide (ip (addrOf src q) = target src pc q)) as [Eq|N].
  - rewrite (Same Eq). split; [|done]. intros q1 r Er. destruct (Decode_decoded q0 p) as (? & [= <-]%(eq_trans (eq_sym E)) & B & _).
    rewrite B in Er. by apply (Decode_agree q1 q0 p).
  - rewrite translate_eq, decide_False in Et by done.
    destruct (UpdateAddr_natted src q0 p q (target src pc q) E U Hs) as (q2 & E2 & N2); [by apply target_fits|].
    rewrite Et in E2. injection E2 as <-. split; [apply N2|]. intros i Hi Hk. apply (n_frame _ _ _ _ N2); [| |done].
    + revert Hs. unfold headLen, addrPos, addrLen. destruct (_ =? 4), src; lia.
    + intros [V4 ?]. rewrite V4 in Hs. cbn in Hs. lia.
Qed.
Lemma moved_familied src q x q' :
  familied q -> moved src q x q' -> ofVersion (IPVersion q) x -> familied q'.
Proof.
  intros [V Z F4 F6] M X. destruct M as [Ma Mo Mv Mp _ _ _].
  split; rewrite ?Mv, ?Mp; [done|done|..]; intros U Hv.
  - destruct (F4 U Hv) as (s & d & Es & Ed). rewrite Hv in X. destruct X as [(_ & a & -> & _)|(? & _)]; [|done].
    destruct src; cbn [addrOf negb] in *; rewrite ?Ma, ?Mo, ?Es, ?Ed; eauto.
  - destruct (F6 U Hv) as (s & d & Es & Ed). rewrite Hv in X. destruct X as [(? & _)|(_ & a & -> & _)]; [done|].
    destruct src; cbn [addrOf negb] in *; rewrite ?Ma, ?Mo, ?Es, ?Ed; eauto.
Qed.

(** ** The inbound pipeline does not panic *)
Definition api_ok (t : Wrapper) : Prop :=
  match PeerAPIPort t with Some f => forall a, 0 <= (f a).1 < 2 ^ 16 | None => True end.

Section total.
Variable t : Wrapper.
Hypothesis T_api : api_ok t.

Lemma isSelfDisco_total q : length_ q = length (b q) -> exists x, isSelfDisco t q = Some x.
Proof using.
  intros L. unfold isSelfDisco. destruct (negb _); [eauto|]. destruct (Payload_total q L) as (x & ->). cbn [mbind option_bind].
  destruct (Source x); eauto.
Qed.
(** The pong a node sends *)
Lemma pong_sent q req s :
  framed q -> IPProto q = ipproto.TSMP -> length req = 8%nat ->
  exists pong, injectOutboundPong t q req s
    = Some (InjectOutbound t (TSMP.wire (let '(_, id, _, _) := pongAddrs pong in id) (ip (Dst q)) (ip (Src q)) (pongBody pong)) s)
    /\ pong_ok (IPVersion q) pong /\ pong_Data pong = req
    /\ TSMP.PeerAPIPort pong = match PeerAPIPort t with Some f => (f (ip (Dst q))).1 | None => 0 end.
Proof using T_api.
  intros F P L. pose proof (fr_addr q F true) as S. pose proof (fr_addr q F false) as D. cbn [addrOf] in S, D.
  pose proof (fr_head q F) as Hh. unfold injectOutboundPong.
  set (pt := match PeerAPIPort t with Some f => _ | None => 0 end).
  assert (0 <= pt < 2 ^ 16) as Hp by (unfold pt, api_ok in *; destruct (PeerAPIPort t); [apply T_api|lia]). clearbody pt.
  destruct S as [(V & s' & Es & Rs)|(V & s' & Es & Rs)], D as [(V' & d' & Ed & Rd)|(V' & d' & Ed & Rd)]; try lia;
    rewrite V in *; cbn [Z.eqb Pos.eqb]; cbn in Hh.
  - unfold toIP4Header. rewrite V, u16_lt by lia. cbn [mbind option_bind Z.eqb Pos.eqb negb IP4_ToResponse ip4_IPProto ip4_IPID ip4_Dst ip4_Src].
    rewrite P. set (pong := MkPong _ req pt). assert (pong_ok 4 pong) as Ok.
    { split; [split; [by eexists|done]|]. rewrite Es, Ed. split; [done|]. split; [by left; eauto|]. split; [by left; eauto|].
      split; [|done]. intros _. apply uw_range. lia. }
    exists pong. pose proof (Pong_Generate 4 pong Ok) as G. cbn in G |- *. rewrite G. done.
  - unfold toIP6Header. rewrite V, slice_lt by lia. cbn [mbind option_bind Z.eqb Pos.eqb negb IP6_ToResponse ip6_IPProto ip6_IPID ip6_Dst ip6_Src].
    rewrite P. set (pong := MkPong _ req pt). assert (pong_ok 6 pong) as Ok.
    { split; [split; [done|intros [? ?]; done]|]. rewrite Es, Ed. split; [done|]. split; [by right; eauto|]. split; [by right; eauto|]. done. }
    exists pong. pose proof (Pong_Generate 6 pong Ok) as G. cbn in G |- *. rewrite G. exact (conj eq_refl (conj Ok (conj eq_refl eq_refl))).
Qed.

Lemma AsTSMPPing_total q : length_ q = length (b q) ->
  AsTSMPPing q = Some None \/ exists req, AsTSMPPing q = Some (Some req) /\ length req = 8%nat /\ IPProto q = ipproto.TSMP.
Proof using.
  intros L. unfold AsTSMPPing. destruct (Z.eqb_spec (IPProto q) ipproto.TSMP) as [P|P]; cbn [negb]; [|by left].
  destruct (Payload_total q L) as (x & ->). cbn [mbind option_bind].
  destruct (Nat.ltb_spec (length x) 9); cbn [orb]; [by left|]. destruct (negb _); [by left|]. right. eexists. split; [done|].
  split; [|done]. rewrite length_take_le; [done|]. rewrite length_drop. lia.
Qed.
Lemma AsTSMPPong_total q : length_ q = length (b q) -> exists x, AsTSMPPong q = Some x.
Proof using.
  intros L. unfold AsTSMPPong. destruct (negb _); [eauto|]. destruct (Payload_total q L) as (x & ->). cbn [mbind option_bind].
  destruct (_ || _); eauto.
Qed.
Lemma AsTSMPDisco_total q : length_ q = length (b q) -> exists x, AsTSMPDiscoAdvertisement q = Some x.
Proof using.
  intros L. unfold AsTSMPDiscoAdvertisement. destruct (negb _); [eauto|]. destruct (Payload_total q L) as (x & ->).
  cbn [mbind option_bind]. destruct (_ || _); eauto.
Qed.
Lemma handleTSMP_total q s : framed q -> length_ q = length (b q) -> exists r, handleTSMP t q s = Some r.
Proof using T_api.
  intros F L. unfold handleTSMP. destruct (negb _); [eauto|].
  destruct (AsTSMPPing_total q L) as [->|(req & -> & Lr & P)]; cbn [mbind option_bind].
  - destruct (AsTSMPDisco_total q L) as (a & ->). cbn [mbind option_bind]. destruct a; [eauto|].
    destruct (AsTSMPPong_total q L) as (o & ->). cbn [mbind option_bind]. destruct o as [[? ?]|]; eauto.
  - destruct (pong_sent q req s F P Lr) as (pong & -> & _). cbn [mbind option_bind]. eauto.
Qed.
Lemma sendRejection_total f q s : framed q -> exists s', sendRejection t f q s = Some s'.
Proof using.
  intros F. unfold sendRejection. destruct (_ && _) eqn:C; [|eauto].
  repeat (apply andb_prop in C as [C ?]). apply Z.eqb_eq in C.
  pose proof (fr_addr q F true) as S. pose proof (fr_addr q F false) as D. cbn [addrOf] in S, D. rewrite C in S, D.
  rewrite (Rejected_Generate 4) by done. cbn [generated mbind option_bind]. eauto.
Qed.
Lemma filterIn_total q pc s : framed q -> length_ q = length (b q) ->
  exists r, filterPacketInboundFromWireGuard t q pc s = Some r.
Proof using T_api.
  intros F L. unfold filterPacketInboundFromWireGuard. destruct (handleTSMP_total q s F L) as ([d s'] & ->). cbn [mbind option_bind].
  destruct d; [eauto|]. destruct (_ && _); [eauto|].
  assert (exists x, (if IPProto q =? ipproto.UDP then isSelfDisco t q else Some false) = Some x) as (x & ->).
  { destruct (_ =? _); [by apply isSelfDisco_total|eauto]. }
  cbn [mbind option_bind]. destruct x; [eauto|]. destruct (runHook _ _); [eauto|].
  destruct (selectFilter _ _) as [f|]; [|eauto]. destruct (RunIn f q s'.1) as [o w].
  destruct (negb _).
  - destruct (sendRejection_total f q (w, s'.2) F) as (s2 & ->). cbn [mbind option_bind]. eauto.
  - repeat destruct (runHook _ _); eauto.
Qed.

Lemma filterIn_unknown q pc s : IPProto q = ipproto.Unknown ->
  exists r, filterPacketInboundFromWireGuard t q pc s = Some r.
Proof using.
  intros U. unfold filterPacketInboundFromWireGuard, handleTSMP, sendRejection, peerAPIAllowed, IsEchoResponse. rewrite U.
  cbn [Z.eqb ipproto.Unknown ipproto.TSMP ipproto.UDP ipproto.TCP ipproto.ICMPv4 ipproto.ICMPv6 Pos.eqb negb andb mbind option_bind].
  destruct (runHook _ _); [eauto|]. destruct (selectFilter _ _) as [f|]; [|eauto]. destruct (RunIn f q s.1) as [o w].
  rewrite !andb_false_r. destruct (negb _); [cbn; eauto|]. repeat destruct (runHook _ _); eauto.
Qed.

(** An IPv4 packet whose header length points past its end, sent to an address to be translated *)
Definition bad_header (pc : option peerConfigTable) (p : bytes) : Prop :=
  let src := Addr4 (be_get (take 4 (drop 12 p))) in
  let dst := Addr4 (be_get (take 4 (drop 16 p))) in
  verOf p = 4 /\ (length p < ihl p)%nat /\ mapDstIP pc src dst <> dst.
Lemma bad_dnat pc p q : table_ok pc -> whole4 p -> read4 p q -> bad_header pc p -> dnat pc q = None.
Proof using.
  intros T (L & _) [B V Rs Rd S _ _] (_ & I & N). change (dnat pc q) with (translate false pc q). rewrite translate_eq.
  cbn [addrOf target]. rewrite Rs, Rd. rewrite decide_False by congruence.
  assert (ofVersion 4 (mapDstIP pc (Addr4 (be_get (take 4 (drop 12 p)))) (Addr4 (be_get (take 4 (drop 16 p)))))) as X.
  { apply mapDstIP_fits; [done|]. left. split; [done|]. eexists. split; [done|]. exact (be_get_slice p 16 4 ltac:(lia)). }
  destruct X as [(_ & n & -> & _)|(? & _)]; [|done].
  rewrite (UpdateAddr_eq4 false q n V) by (rewrite B; lia). cbn [addrOf]. rewrite Rd.
  unfold updateV4PacketChecksums. set (q1 := set_buf _ _).
  assert (length (b q1) = length p /\ subofs q1 = ihl p) as (B1 & S1)
    by (split; [destruct q; cbn in *; subst; by rewrite length_copyAt|destruct q; cbn in *; by subst]).
  clearbody q1. rewrite (proj2 (Nat.ltb_ge _ _)) by lia. cbn [as4 As4 mbind option_bind].
  destruct (updateFieldV4_spec q1 10 (be_put 4 (be_get (take 4 (drop 16 p)))) (be_put 4 n)) as (y & -> & A);
    [lia|apply length_be_put..|]. cbn [mbind option_bind].
  assert (Transport (set_buf q1 y) = None) as ->; [|done]. unfold Transport, slice.
  assert (b (set_buf q1 y) = y /\ subofs (set_buf q1 y) = subofs q1) as [-> ->] by by destruct q1.
  rewrite (adjusts_length _ _ _ _ _ A), B1, S1. destruct (Nat.leb_spec (ihl p) (length p)); [lia|done].
Qed.
(** Any other packet gets through. *)
Lemma good_packet pc p p0 s :
  table_ok pc -> checked p -> ~ bad_header pc p ->
  exists q q' r, Decode p0 p = Some q /\ dnat pc q = Some q' /\ filterPacketInboundFromWireGuard t q' pc s = Some r.
Proof using T_api.
  intros T C N. destruct (decide (header_in p)) as [I|I].
  { destruct (checked_framed p0 p C I) as (q & -> & D & F & B & L). exists q.
    destruct (translate_spec false pc q T F) as (q' & E & M & F' & _). cbn [translate] in E.
    destruct (filterIn_total q' pc s F') as (r & Er).
    { rewrite (mv_length _ _ _ _ M). by destruct (mv_offsets _ _ _ _ M) as (_ & _ & ->). }
    by exists q', r. }
  assert (verOf p = 4 /\ (length p < ihl p)%nat) as [V4 I4].
  { unfold header_in in I. destruct (Z.eq_dec (verOf p) 4); [|exfalso; apply I; lia]. split; [done|].
    apply Nat.nle_gt. intros Hle. by apply I. }
  destruct C as [[W Tl]|[(_ & V & _) _]]; [|lia]. destruct (Decode_whole4 p0 p W) as (q & -> & R). exists q, q.
  assert (IPProto q = ipproto.Unknown) as U.
  { rewrite (r4_proto _ _ R). unfold proto4. by rewrite (proj2 (Nat.ltb_lt _ _)) by lia. }
  destruct (filterIn_unknown q pc s U) as (r & Er). exists r. split; [done|]. split; [|done].
  change (dnat pc q) with (translate false pc q). rewrite translate_eq. cbn [addrOf target].
  rewrite (r4_src _ _ R), (r4_dst _ _ R). rewrite decide_True; [done|].
  destruct (decide (mapDstIP pc (Addr4 (be_get (take 4 (drop 12 p)))) (Addr4 (be_get (take 4 (drop 16 p)))) = Addr4 (be_get (take 4 (drop 16 p))))); [done|].
  exfalso. by apply N.
Qed.
#[export] Instance bad_header_dec pc p : Decision (bad_header pc p).
Proof. unfold bad_header. cbv zeta. apply _. Defined.
Lemma writeLoop_none pc offset buffs p s :
  table_ok pc -> Forall (fun buff => (offset <= length buff)%nat /\ checked (drop offset buff)) buffs ->
  writeLoop t pc offset p buffs s = None <-> Exists (fun buff => bad_header pc (drop offset buff)) buffs.
Proof using T_api.
  intros T. revert p s. induction buffs as [|buff buffs IH]; intros p s HF; [by rewrite Exists_nil|].
  apply Forall_cons in HF as [(L & C) HF]. cbn [writeLoop]. rewrite slice_lt by lia. cbn [mbind option_bind].
  rewrite (take_ge (drop offset buff)) by (rewrite length_drop; lia). rewrite Exists_cons.
  destruct (decide (bad_header pc (drop offset buff))) as [Bh|G].
  - split; [by left|intros _]. pose proof Bh as (V & _ & _). destruct C as [[W _]|[(_ & V6 & _) _]]; [|lia].
    destruct (Decode_whole4 p _ W) as (q & -> & R). cbn [mbind option_bind]. by rewrite (bad_dnat pc _ q T W R Bh).
  - destruct (good_packet pc _ p s T C G) as (q & q' & [r s'] & -> & Dn & Fi). cbn [mbind option_bind]. rewrite Dn. cbn [mbind option_bind].
    assert (exists k s2, (if negb (disableFilter t) then
      '(res, s0) ← filterPacketInboundFromWireGuard t q' pc s; Some (bool_decide (res = Accept), s0) else Some (true, s)) = Some (k, s2)) as (k & s2 & ->).
    { destruct (negb _); [rewrite Fi; cbn [mbind option_bind]|]; eauto. }
    cbn [mbind option_bind]. rewrite <- (or_comm (Exists _ buffs)). rewrite <- (IH q' s2 HF).
    destruct (writeLoop t pc offset q' buffs s2) as [[[o p'] s3]|]; cbn [mbind option_bind]; clear - G; naive_solver.
Qed.
End total.

(** [C27] Packets that WireGuard has checked (whole, of a known version, cut to the length their
    header gives) make [Write] panic in exactly one case: an IPv4 header length field points past
    the end of the packet, and the packet is for an address to be translated. So it never panics
    where no address is masqueraded; a peer that this node masquerades towards can crash it. *)
Theorem write_panics_exactly t p buffs offset s :
  api_ok t -> table_ok (peerConfig_ t) ->
  Forall (fun buff => (offset <= length buff)%nat /\ checked (drop offset buff)) buffs ->
  Write_ t p buffs offset s = None <-> Exists (fun buff => bad_header (peerConfig_ t) (drop offset buff)) buffs.
Proof. intros A T F. by apply writeLoop_none. Qed.
End props.

(** ** What is delivered *)
Section delivery.
Context `{BT : BartTable} {FC : FlowCache lruMax} {BM : BartMap}.

(** Inbound packets change the order of the flows that are known, not which they are. *)
Definition stores_ok (w : store) : Prop := forall i c, w !! i = Some c -> cacheInv c.
Definition same_flows (w w' : store) : Prop :=
  length w' = length w
  /\ forall i c', w' !! i = Some c' -> exists c, w !! i = Some c /\ forall k, k ∈ cacheKeys c' <-> k ∈ cacheKeys c.
Lemma same_flows_refl w : same_flows w w.
Proof. split; [done|]. intros i c Hc. by exists c. Qed.
Lemma same_flows_trans w1 w2 w3 : same_flows w1 w2 -> same_flows w2 w3 -> same_flows w1 w3.
Proof.
  intros [L1 H1] [L2 H2]. split; [congruence|]. intros i c3 Hc. destruct (H2 i c3 Hc) as (c2 & Hc2 & K2).
  destruct (H1 i c2 Hc2) as (c1 & Hc1 & K1). exists c1. split; [done|]. intros k. by rewrite K2.
Qed.
Lemma stateOf_lookup f w c : w !! state f = Some c -> stateOf f w = c.
Proof. intros E. exact (f_equal (default cacheNew) E). Qed.
Lemma stateOf_same f w w' k :
  same_flows w w' -> (state f < length w)%nat -> k ∈ cacheKeys (stateOf f w') <-> k ∈ cacheKeys (stateOf f w).
Proof.
  intros [L S] Hf. destruct (lookup_lt_is_Some_2 w' (state f) ltac:(lia)) as (c' & E').
  destruct (S _ _ E') as (c & E & K). rewrite (stateOf_lookup _ _ _ E), (stateOf_lookup _ _ _ E'). apply K.
Qed.
Lemma afterGet_same f q w :
  stores_ok w -> (state f < length w)%nat -> same_flows w (afterGet f q w) /\ stores_ok (afterGet f q w).
Proof.
  intros W L. unfold afterGet, setState. destruct (lookup_lt_is_Some_2 w (state f) L) as (c & E).
  rewrite (stateOf_lookup _ _ _ E).
  destruct (cacheGet_spec c (inTuple q) (W _ _ E)) as (I & _ & K).
  assert (forall k, k ∈ cacheKeys (cacheGet c (inTuple q)).2 <-> k ∈ cacheKeys c) as KK.
  { intros k. rewrite K. destruct (decide (inTuple q ∈ cacheKeys c)); [|done]. unfold touch.
    rewrite elem_of_cons, list_elem_of_filter. split; [by intros [->|[_ ?]]|]. intros Hk. destruct (decide (k = inTuple q)); auto. }
  split; [split; [apply length_insert|]|].
  - intros i c' Hi. apply list_lookup_insert_Some in Hi as [(Ei & Ec & _)|(_ & Hi)]; [subst i c'; by exists c|by exists c'].
  - intros i c' Hi. apply list_lookup_insert_Some in Hi as [(_ & Ec & _)|(_ & Hi)]; [by subst c'|by apply (W i)].
Qed.
Lemma admits_ext f ms locals known known' q :
  (forall k, k ∈ known <-> k ∈ known') -> admits f ms locals known q -> admits f ms locals known' q.
Proof.
  intros K. unfold admits, permitted. intros [E|(P & [F|[(L & Pm)|Hh]])]; [by left|..]; right; (split; [done|]); [by left| |by auto].
  right. left. split; [done|]. revert Pm. destruct (_ =? icmpProto q); [done|]. destruct (_ =? ipproto.TCP); [done|].
  destruct (isFlow q); [|done]. intros [?%K|?]; auto.
Qed.

Section filters.
Variables (t : Wrapper) (ms : bool -> list Match) (locals : bool -> list Prefix).
Hypothesis rules_ok : forall j, Forall (fun mt => Forall prefix_ok (Srcs mt)) (ms j) /\ Forall prefix_ok (locals j).
Hypothesis filters_ok : forall j f, selectFilter t j = Some f -> compiled_from (ms j) (locals j) f.

Lemma RunIn_facts j f q w :
  selectFilter t j = Some f -> familied q -> stores_ok w -> (state f < length w)%nat ->
  ((RunIn f q w).1 = Accept <-> admits f (ms j) (locals j) (cacheKeys (stateOf f w)) q)
  /\ same_flows w (RunIn f q w).2 /\ stores_ok (RunIn f q w).2.
Proof using rules_ok filters_ok.
  intros Ef Fa W L. destruct (rules_ok j) as [R1 R2]. destruct (lookup_lt_is_Some_2 w (state f) L) as (c & E).
  assert (cacheInv (stateOf f w)) as I by (rewrite (stateOf_lookup _ _ _ E); by apply (W _ _ E)).
  destruct (RunIn_spec (ms j) (locals j) R1 R2 f q w (filters_ok j f Ef) Fa I) as (A & _ & S). split; [done|].
  destruct S as [->|(_ & _ & ->)]; [split; [apply same_flows_refl|done]|by apply afterGet_same].
Qed.
(** The TSMP messages that the wrapper keeps to itself *)
Definition forNode (q : Parsed) : Prop :=
  IPProto q = ipproto.TSMP /\ ((exists d, AsTSMPPing q = Some (Some d)) \/ exists ka, AsTSMPDiscoAdvertisement q = Some (Some ka)).
Lemma InjectOutbound_flows pkt s : (InjectOutbound t pkt s).1 = s.1.
Proof. unfold InjectOutbound. by repeat destruct (_ <? _)%nat || destruct (_ =? _)%nat. Qed.
Lemma pong_flows q req s s' : injectOutboundPong t q req s = Some s' -> s'.1 = s.1.
Proof.
  unfold injectOutboundPong. intros E. destruct (_ =? 4).
  - destruct (toIP4Header q); [|done]. cbn [mbind option_bind] in E. destruct (generated _); [|done]. injection E as <-. apply InjectOutbound_flows.
  - destruct (_ =? 6); [|by injection E as <-]. destruct (toIP6Header q); [|done]. cbn [mbind option_bind] in E.
    destruct (generated _); [|done]. injection E as <-. apply InjectOutbound_flows.
Qed.
Lemma handleTSMP_flows q s d s' :
  handleTSMP t q s = Some (d, s') -> s'.1 = s.1 /\ (forall s2, d = Some s2 -> s2.1 = s.1) /\ (d = None -> ~ forNode q).
Proof.
  unfold handleTSMP, forNode. intros E. destruct (Z.eqb_spec (IPProto q) ipproto.TSMP) as [P|P]; cbn [negb] in E.
  2: { injection E as <- <-. split; [done|]. split; [done|]. by intros _ [? _]. }
  destruct (AsTSMPPing q) as [[req|]|] eqn:Ep; [| |done]; cbn [mbind option_bind] in E.
  - destruct (injectOutboundPong t q req s) as [s2|] eqn:Eo; [|done]. injection E as <- <-. split; [done|].
    split; [|done]. intros ? [= <-]. by apply (pong_flows q req).
  - destruct (AsTSMPDiscoAdvertisement q) as [[ka|]|] eqn:Ea; [| |done]; cbn [mbind option_bind] in E.
    + injection E as <- <-. split; [done|]. split; [|done]. intros ? [= <-]. by destruct (useCachedNetmap t).
    + assert (~ (IPProto q = ipproto.TSMP /\ ((exists d0, Some None = Some (Some d0) :> option (option bytes)) \/ exists ka, Some None = Some (Some ka) :> option (option TSMPDiscoKeyAdvertisement)))) as N
        by (intros (_ & [(? & ?)|(? & ?)]); done).
      destruct (AsTSMPPong q) as [[[data pt]|]|]; [| |done]; cbn [mbind option_bind] in E; injection E as <- <-.
      * split; [by destruct (OnTSMPPongReceived t)|done].
      * done.
Qed.
Lemma sendRejection_flows f q s s' : sendRejection t f q s = Some s' -> s'.1 = s.1.
Proof.
  unfold sendRejection. intros E. destruct (_ && _); [|by injection E as <-].
  destruct (generated _); [|done]. injection E as <-. apply InjectOutbound_flows.
Qed.
(** Whether a packet may be delivered, as the rules of its sender's filter say *)
Definition deliverable (pc : option peerConfigTable) (w : store) (q : Parsed) : Prop :=
  ~ forNode q
  /\ exists f, let j := inboundPacketIsJailed pc q in
       (if j then jailedFilter t else filter_ t) = Some f
       /\ (admits f (ms j) (locals j) (cacheKeys (stateOf f w)) q \/ peerAPIAllowed t q = true).
Lemma filterIn_facts q pc s r s' :
  filterPacketInboundFromWireGuard t q pc s = Some (r, s') -> familied q -> stores_ok s.1 ->
  (forall j f, selectFilter t j = Some f -> (state f < length s.1)%nat) ->
  same_flows s.1 s'.1 /\ stores_ok s'.1 /\ (r = Accept -> deliverable pc s.1 q).
Proof using rules_ok filters_ok.
  intros E Fa W Hl. unfold filterPacketInboundFromWireGuard in E.
  destruct (handleTSMP t q s) as [[d s1]|] eqn:Et; [|done]. cbn [mbind option_bind] in E.
  destruct (handleTSMP_flows q s d s1 Et) as (E1 & E2 & E3).
  destruct d as [s2|]. { injection E as <- <-. rewrite (E2 s2 eq_refl). split; [apply same_flows_refl|done]. }
  assert (same_flows s.1 s1.1 /\ stores_ok s1.1) as Same by (rewrite E1; split; [apply same_flows_refl|done]).
  destruct (_ && _) in E; [injection E as <- <-; naive_solver|].
  destruct (if _ =? ipproto.UDP then _ else _) as [[|]|] in E; [injection E as <- <-; naive_solver| |done].
  cbn [mbind option_bind] in E. destruct (runHook _ _) as [h|] eqn:Eh in E.
  { injection E as <- <-. split; [apply Same|]. split; [apply Same|]. intros ->. unfold runHook in Eh.
    destruct (PreFilterPacketInboundFromWireGuard t); [|done]. destruct (IsDrop _) eqn:Ed; [|done]. by injection Eh as Eh; rewrite Eh in Ed. }
  destruct (selectFilter t (inboundPacketIsJailed pc q)) as [f|] eqn:Ef; [|injection E as <- <-; naive_solver].
  rewrite E1 in E. destruct (RunIn_facts _ f q s.1 Ef Fa W (Hl _ f Ef)) as (A & S & W'). 
  destruct (RunIn f q s.1) as [o w]. cbn [fst snd] in A, S, W'.
  destruct (negb (bool_decide (o = Accept)) && peerAPIAllowed t q) eqn:Ea.
  - cbn in E. apply andb_prop in Ea as [_ Ea]. assert (same_flows s.1 s'.1 /\ stores_ok s'.1) as [? ?]
      by (repeat destruct (runHook _ _) in E; injection E as <- <-; done).
    split; [done|]. split; [done|]. intros _. split; [by apply E3|]. exists f. cbn. split; [exact Ef|auto].
  - destruct (negb (bool_decide (o = Accept))) eqn:Eo.
    + destruct (sendRejection t f q (w, s1.2)) as [s3|] eqn:Er; [|done]. cbn [mbind option_bind] in E. injection E as <- <-.
      rewrite (sendRejection_flows _ _ _ _ Er). done.
    + apply negb_false_iff, bool_decide_eq_true in Eo. apply A in Eo.
      assert (same_flows s.1 s'.1 /\ stores_ok s'.1) as [? ?] by (repeat destruct (runHook _ _) in E; injection E as <- <-; done).
      split; [done|]. split; [done|]. intros _. split; [by apply E3|]. exists f. cbn. split; [exact Ef|auto].
Qed.
Lemma dnat_checked pc p p0 q q' :
  table_ok pc -> checked p -> Decode p0 p = Some q -> dnat pc q = Some q' ->
  familied q' /\ moved false q (target false pc q) q'.
Proof.
  intros T C E Dn. destruct (Decode_decoded p0 p) as (? & [= <-]%(eq_trans (eq_sym E)) & B & D).
  destruct (decide (header_in p)) as [I|I].
  - destruct (checked_framed p0 p C I) as (? & [= <-]%(eq_trans (eq_sym E)) & _ & F & _).
    destruct (translate_spec false pc q T F) as (q2 & E2 & M & _). cbn [translate] in E2. rewrite Dn in E2. injection E2 as <-.
    split; [|done]. apply (moved_familied false q _ q' (decoded_familied q D) M). by apply target_fits.
  - assert (verOf p = 4 /\ (length p < ihl p)%nat) as [V4 I4].
    { unfold header_in in I. destruct (Z.eq_dec (verOf p) 4); [|exfalso; apply I; lia]. split; [done|].
      apply Nat.nle_gt. intros Hle. by apply I. }
    destruct C as [[W _]|[(_ & V & _) _]]; [|lia]. destruct (Decode_whole4 p0 p W) as (? & [= <-]%(eq_trans (eq_sym E)) & R).
    destruct (decide (bad_header pc p)) as [Bh|G]; [by rewrite (bad_dnat pc p q T W R Bh) in Dn|].
    change (dnat pc q) with (translate false pc q) in Dn. rewrite translate_eq in Dn. 
    assert (ip (addrOf false q) = target false pc q) as Et.
    { cbn [addrOf target]. rewrite (r4_src _ _ R), (r4_dst _ _ R). apply dec_stable. intros N. apply G. split; [done|]. split; [done|]. congruence. }
    rewrite decide_True in Dn by done. injection Dn as <-. split; [by apply decoded_familied|].
    split; try done. cbn [addrOf] in *. rewrite <- Et. by destruct (Dst q).
Qed.
Lemma deliverable_same pc w w' q :
  same_flows w w' -> (forall j f, selectFilter t j = Some f -> (state f < length w)%nat) ->
  deliverable pc w' q -> deliverable pc w q.
Proof.
  intros S Hl (N & f & Ef & A). split; [done|]. exists f. split; [done|]. destruct A as [A|A]; [left|by right].
  revert A. apply admits_ext. intros k. apply stateOf_same; [done|by apply (Hl _ f Ef)].
Qed.
Lemma writeLoop_facts pc offset buffs p s out p' s' :
  table_ok pc -> disableFilter t = false ->
  Forall (fun buff => checked (drop offset buff)) buffs ->
  writeLoop t pc offset p buffs s = Some (out, p', s') -> stores_ok s.1 ->
  (forall j f, selectFilter t j = Some f -> (state f < length s.1)%nat) ->
  same_flows s.1 s'.1
  /\ Forall (fun d => exists buff q0 q q', buff ∈ buffs /\ Decode q0 (drop offset buff) = Some q /\ dnat pc q = Some q'
       /\ d = take offset buff ++ b q' /\ deliverable pc s.1 q') out.
Proof using rules_ok filters_ok.
  intros T Hd. revert p s out p' s'. induction buffs as [|buff buffs IH]; intros p s out p' s' HF E W Hl.
  { injection E as <- <- <-. split; [apply same_flows_refl|constructor]. }
  apply Forall_cons in HF as [C HF]. cbn [writeLoop] in E.
  destruct (slice buff offset (length buff)) as [dd|] eqn:Es; [|done]. cbn [mbind option_bind] in E.
  assert (dd = drop offset buff) as ->.
  { unfold slice in Es. destruct (_ && _); [|done]. injection Es as <-. apply take_ge. by rewrite length_drop. }
  destruct (Decode p (drop offset buff)) as [q|] eqn:Eq; [|done]. cbn [mbind option_bind] in E.
  destruct (dnat pc q) as [q'|] eqn:Edn; [|done]. cbn [mbind option_bind] in E.
  rewrite Hd in E. cbn [negb] in E.
  destruct (filterPacketInboundFromWireGuard t q' pc s) as [[r s1]|] eqn:Ef; [|done]. cbn [mbind option_bind] in E.
  destruct (writeLoop t pc offset q' buffs s1) as [[[o pp] s2]|] eqn:Ew; [|done]. cbn [mbind option_bind] in E.
  destruct (dnat_checked pc _ p q q' T C Eq Edn) as [Fa _].
  destruct (filterIn_facts q' pc s r s1 Ef Fa W Hl) as (S1 & W1 & A1).
  destruct (IH q' s1 o pp s2 HF Ew W1) as [S2 F2].
  { intros j f Hf. rewrite (proj1 S1). by apply (Hl j). }
  assert (Forall (fun d => exists buff0 q0 q1 q'0, buff0 ∈ buff :: buffs /\ Decode q0 (drop offset buff0) = Some q1 /\ dnat pc q1 = Some q'0
    /\ d = take offset buff0 ++ b q'0 /\ deliverable pc s.1 q'0) o) as F2'.
  { apply (Forall_impl _ _ _ F2). intros d (b0 & q0 & q1 & q2 & Hb & H1 & H2 & H3 & H4). exists b0, q0, q1, q2.
    split; [by right|]. split; [done|]. split; [done|]. split; [done|]. by apply (deliverable_same pc s.1 s1.1). }
  injection E as <- <- <-. split; [by apply (same_flows_trans _ s1.1)|].
  destruct (bool_decide (r = Accept)) eqn:Er; [|done]. apply bool_decide_eq_true in Er.
  constructor; [|done]. exists buff, p, q, q'. split; [by left|]. split; [done|]. split; [done|]. split; [done|by apply A1].
Qed.
End filters.

(** [C8] Every packet that [Write] gives to the device is one of the packets it was handed, with
    its destination translated, and is admitted by the rules of the filter of its sender (the
    jailed filter for a jailed peer, none being left when that filter is nil), the known flows
    being those of before the call, or is a connection attempt to the peer API port; TSMP pings
    and disco key advertisements are never delivered. *)
Theorem write_delivers_admitted t ms locals p buffs offset s out p' s' :
  (forall j, Forall (fun mt => Forall prefix_ok (Srcs mt)) (ms j) /\ Forall prefix_ok (locals j)) ->
  (forall j f, selectFilter t j = Some f -> compiled_from (ms j) (locals j) f /\ (state f < length s.1)%nat) ->
  table_ok (peerConfig_ t) -> disableFilter t = false -> stores_ok s.1 ->
  Forall (fun buff => checked (drop offset buff)) buffs ->
  Write_ t p buffs offset s = Some (out, p', s') ->
  Forall (fun d => exists buff q0 q q', buff ∈ buffs /\ Decode q0 (drop offset buff) = Some q
    /\ dnat (peerConfig_ t) q = Some q' /\ d = take offset buff ++ b q'
    /\ deliverable t ms locals (peerConfig_ t) s.1 q') out.
Proof.
  intros R F T D W C E.
  exact (proj2 (writeLoop_facts t ms locals R (fun j f Hf => proj1 (F j f Hf)) _ _ _ _ _ _ _ _ T D C E W (fun j f Hf => proj2 (F j f Hf)))).
Qed.

(** What answers or continues something this node started *)
Definition responds (locals : list Prefix) (known : list Tuple) (q : Parsed) : Prop :=
  IPProto q = ipproto.Fragment
  \/ (exists p, p ∈ locals /\ Contains p (ip (Dst q)) = true)
     /\ (IPProto q = icmpProto q /\ (IsEchoResponse q = true \/ IsError q = true)
         \/ IPProto q = ipproto.TCP /\ IsTCPSyn q = false
         \/ isFlow q = true /\ inTuple q ∈ known
         \/ IPProto q = ipproto.TSMP).
Lemma no_rules_responds f locals known q :
  IngressAllowHooks f = [] -> srcIPHasCap f = None -> b q <> [] -> admits f [] locals known q -> responds locals known q.
Proof.
  intros Hi Hc Nb [?|(_ & [?|[(L & P)|N]])]; [done|by left|..].
  2: { rewrite Hi in N. by apply not_hooked in N. }
  right. split; [done|]. rewrite Hc in P. unfold permitted in P.
  destruct (Z.eqb_spec (IPProto q) (icmpProto q)).
  { left. split; [done|]. destruct P as [?|[?|(mt & Hm & _)]]; [by left|by right|by apply not_elem_of_nil in Hm]. }
  destruct (Z.eqb_spec (IPProto q) ipproto.TCP).
  { right. left. split; [done|]. destruct P as [?|(mt & Hm & _)]; [done|by apply not_elem_of_nil in Hm]. }
  destruct (isFlow q) eqn:F.
  { right. right. left. split; [done|]. destruct P as [?|(mt & Hm & _)]; [done|by apply not_elem_of_nil in Hm]. }
  destruct (Z.eqb_spec (IPProto q) ipproto.TSMP); [by auto 6|]. destruct P as (mt & Hm & _). by apply not_elem_of_nil in Hm.
Qed.
(** [C22] With the jailed filter that the backend installs, one with its shields up, a jailed peer
    starts nothing: what is delivered of its packets is a reply in a flow this node opened, a TCP
    segment that opens no connection, an ICMP echo response or error, a TSMP message, a later
    fragment, or a connection attempt to the peer API port. *)
Theorem jailed_peer_contained t locals jlocals ms logs share w0 p buffs offset s out p' s' :
  let jf := (NewShieldsUpFilter (Some jlocals) logs share w0).1 in
  jailedFilter t = Some jf -> (state jf < length s.1)%nat -> Forall prefix_ok jlocals ->
  (forall f, filter_ t = Some f -> compiled_from ms locals f /\ (state f < length s.1)%nat) ->
  Forall (fun mt => Forall prefix_ok (Srcs mt)) ms -> Forall prefix_ok locals ->
  table_ok (peerConfig_ t) -> disableFilter t = false -> stores_ok s.1 ->
  Forall (fun buff => checked (drop offset buff)) buffs ->
  Write_ t p buffs offset s = Some (out, p', s') ->
  Forall (fun d => exists buff q0 q q', buff ∈ buffs /\ Decode q0 (drop offset buff) = Some q
    /\ dnat (peerConfig_ t) q = Some q' /\ d = take offset buff ++ b q'
    /\ forall pc c, peerConfig_ t = Some pc -> bartLookup (byIP pc) (ip (Src q')) = Some c -> jailed c = true ->
         responds jlocals (cacheKeys (stateOf jf s.1)) q' \/ peerAPIAllowed t q' = true) out.
Proof.
  intros jf Ej Lj Pj F Pm Pl T D W C E.
  assert (compiled_from [] jlocals jf /\ IngressAllowHooks jf = [] /\ srcIPHasCap jf = None) as (Cj & Hi & Hc).
  { unfold jf, NewShieldsUpFilter, New. destruct (match share with Some f => _ | None => _ end); destruct (familyFuncs logs); done. }
  pose proof (writeLoop_facts t (fun j => if j : bool then [] else ms) (fun j => if j : bool then jlocals else locals)) as X.
  specialize (X ltac:(intros [|]; done)).
  specialize (X ltac:(intros [|] f Hf; [cbn [selectFilter] in Hf; rewrite Ej in Hf; by injection Hf as <-|by apply F])).
  specialize (X _ _ _ _ _ _ _ _ T D C E W ltac:(intros [|] f Hf; [cbn [selectFilter] in Hf; rewrite Ej in Hf; by injection Hf as <-|by apply F])).
  apply (Forall_impl _ _ _ (proj2 X)). intros d (buff & q0 & q & q' & Hb & Dq & Nq & Ed & _ & f & Ef & A).
  exists buff, q0, q, q'. split; [done|]. split; [done|]. split; [done|]. split; [done|]. intros pc c Epc Ec Jc.
  assert (inboundPacketIsJailed (peerConfig_ t) q' = true) as J by (unfold inboundPacketIsJailed; by rewrite Epc, Ec). rewrite J in *.
  cbn [selectFilter] in Ef. rewrite Ej in Ef. injection Ef as <-. destruct A as [A|A]; [left|by right].
  apply (no_rules_responds jf); try done.
  pose proof (proj1 (Forall_forall _ _) C buff Hb) as Cb. destruct (dnat_checked _ _ _ _ _ T Cb Dq Nq) as [_ M].
  destruct (Decode_decoded q0 (drop offset buff)) as (? & [= <-]%(eq_trans (eq_sym Dq)) & Bq & _).
  intros E0. pose proof (mv_length _ _ _ _ M) as Ml. rewrite E0, Bq in Ml. cbn in Ml.
  destruct Cb as [[(L & _) _]|[(L & _) _]]; lia.
Qed.
End delivery.

(** ** The table of a configuration *)
Section lpm.
Context {V : Type}.
Implicit Types es : list (Prefix * V).
(** [p] is the longest match of [a]; an equally long one comes before it. *)
Definition longest es (a : Addr) (p : Prefix) (v : V) : Prop :=
  exists l1 l2, es = l1 ++ (p, v) :: l2 /\ Contains p a = true
    /\ (forall e, e ∈ l1 -> Contains e.1 a = true -> pfxBits e.1 <= pfxBits p)
    /\ (forall e, e ∈ l2 -> Contains e.1 a = true -> pfxBits e.1 < pfxBits p).
Lemma lpm_fold es a :
  match foldl (lpmStep a) None es with
  | Some (n, v) => exists p, n = pfxBits p /\ longest es a p v
  | None => forall e, e ∈ es -> Contains e.1 a = false
  end.
Proof.
  induction es as [|[p v] es IH] using rev_ind; [by intros e ?%not_elem_of_nil|]. rewrite foldl_app. cbn [foldl].
  destruct (foldl (lpmStep a) None es) as [[n w]|]; unfold lpmStep; cbn [fst snd].
  - destruct IH as (p' & -> & l1 & l2 & -> & C & H1 & H2). destruct (Contains p a) eqn:Cp; cbn [andb].
    + destruct (Z.leb_spec (pfxBits p') (pfxBits p)).
      * exists p. split; [done|]. exists (l1 ++ (p', w) :: l2), []. split; [done|]. split; [done|]. split; [|by intros e ?%not_elem_of_nil].
        intros e [He|[->|He]%elem_of_cons]%elem_of_app Ce; [specialize (H1 e He Ce); lia|done|specialize (H2 e He Ce); lia].
      * exists p'. split; [done|]. exists l1, (l2 ++ [(p, v)]). rewrite <- app_assoc. split; [done|]. split; [done|]. split; [done|].
        intros e [He|He]%elem_of_app Ce; [by apply H2|apply list_elem_of_singleton in He; by subst].
    + exists p'. split; [done|]. exists l1, (l2 ++ [(p, v)]). rewrite <- app_assoc. split; [done|]. split; [done|]. split; [done|].
      intros e [He|He]%elem_of_app Ce; [by apply H2|apply list_elem_of_singleton in He; subst; cbn in Ce; congruence].
  - destruct (Contains p a) eqn:Cp; cbn [andb].
    + exists p. split; [done|]. exists es, []. split; [done|]. split; [done|]. split; [|by intros e ?%not_elem_of_nil].
      intros e He Ce. rewrite IH in Ce; done.
    + intros e [He|He]%elem_of_app; [by apply IH|apply list_elem_of_singleton in He; by subst].
Qed.
Lemma lpm_longest es a v : lpm es a = Some v -> exists p, longest es a p v.
Proof.
  unfold lpm. pose proof (lpm_fold es a) as F. destruct (foldl _ None es) as [[n w]|]; [|done]. intros [= <-].
  destruct F as (p & _ & L). by exists p.
Qed.
Lemma longest_lpm es a p v : longest es a p v -> lpm es a = Some v.
Proof.
  intros (l1 & l2 & -> & C & H1 & H2). unfold lpm. rewrite foldl_app. cbn [foldl].
  assert (foldl (lpmStep a) (lpmStep a (foldl (lpmStep a) None l1) (p, v)) l2 = Some (pfxBits p, v)) as ->; [|done].
  assert (lpmStep a (foldl (lpmStep a) None l1) (p, v) = Some (pfxBits p, v)) as ->.
  { unfold lpmStep. cbn [fst snd]. rewrite C. pose proof (lpm_fold l1 a) as F. destruct (foldl _ None l1) as [[n w]|]; [|done].
    destruct F as (p' & -> & m1 & m2 & -> & C' & _). rewrite (proj2 (Z.leb_le _ _)); [done|].
    apply (H1 (p', w)); [set_solver|done]. }
  clear H1. induction l2 as [|[p' v'] l2 IH]; [done|]. cbn [foldl]. unfold lpmStep at 2. cbn [fst snd].
  destruct (Contains p' a) eqn:C'; cbn [andb].
  - pose proof (H2 (p', v') ltac:(set_solver) C') as Lt. cbn in Lt. rewrite (proj2 (Z.leb_gt _ _)) by lia. apply IH. set_solver.
  - apply IH. set_solver.
Qed.
End lpm.
(** Leaving out entries does not matter as long as the best one stays. *)
Lemma lpm_omap {V W} (f : V -> option W) (es : list (Prefix * V)) a v w :
  lpm es a = Some v -> f v = Some w -> lpm (omap (fun e => (e.1,.) <$> f e.2) es) a = Some w.
Proof.
  intros (p & l1 & l2 & -> & C & H1 & H2)%lpm_longest Fv. apply (longest_lpm _ _ p).
  exists (omap (fun e => (e.1,.) <$> f e.2) l1), (omap (fun e => (e.1,.) <$> f e.2) l2).
  split; [rewrite omap_app; csimpl; by rewrite Fv|]. split; [done|].
  assert (forall (l : list (Prefix * V)) e, e ∈ omap (fun e => (e.1,.) <$> f e.2) l -> exists e', e' ∈ l /\ e'.1 = e.1) as X.
  { intros l e (e' & He & Eq)%list_elem_of_omap. exists e'. split; [done|]. destruct (f e'.2); [|done]. by injection Eq as <-. }
  split; intros e (e' & He & E)%X Ce; rewrite <- E in *; [by apply H1|by apply H2].
Qed.

Lemma lpm_fmap {V W} (f : V -> W) (es : list (Prefix * V)) a : lpm ((fun e => (e.1, f e.2)) <$> es) a = f <$> lpm es a.
Proof.
  unfold lpm. assert (forall o, foldl (lpmStep a) (prod_map id f <$> o) ((fun e => (e.1, f e.2)) <$> es)
    = prod_map id f <$> foldl (lpmStep a) o es) as X.
  { induction es as [|[p v] es IH]; intros o; [done|]. csimpl. rewrite <- IH. f_equal. unfold lpmStep. cbn [fst snd].
    destruct o as [[n w]|]; cbn [fmap option_fmap option_map prod_map fst snd]; by destruct (_ && _). }
  specialize (X None). cbn in X. rewrite X. by destruct (foldl (lpmStep a) None es) as [[? ?]|].
Qed.
Lemma lpm_found {V} (es : list (Prefix * V)) a e : e ∈ es -> Contains e.1 a = true -> exists v, lpm es a = Some v /\ v ∈ es.*2.
Proof.
  intros He Ce. unfold lpm. pose proof (lpm_fold es a) as F. destruct (foldl _ None es) as [[n w]|].
  - exists w. split; [done|]. destruct F as (p & _ & l1 & l2 & -> & _). rewrite fmap_app. set_solver.
  - rewrite (F e He) in Ce. done.
Qed.

Section config.
Context {BM : BartMap}.
(** Every prefix with the peer it routes to, and the peer an address belongs to *)
Definition routes (peers : list Peer) : list (Prefix * Peer) :=
  peers ≫= (fun p => (., p) <$> AllowedIPs p).
Definition owner (peers : list Peer) (a : Addr) : option Peer := lpm (routes peers) a.
(** What a peer asks for *)
Definition configOf (n4 n6 : Addr) (exitMasq : bool) (p : Peer) : peerConfig :=
  let '(a4, a6) := addrsToUse n4 n6 exitMasq p in MkPeerConfig a4 a6 (IsJailed p).
Definition needs (c : peerConfig) : bool := AddrIsValid (dstMasqAddr4 c) || AddrIsValid (dstMasqAddr6 c) || jailed c.
Definition keepConfig (n4 n6 : Addr) (exitMasq : bool) (p : Peer) : option peerConfig :=
  let c := configOf n4 n6 exitMasq p in if needs c then Some c else None.

Lemma omap_const {A B} (c : option B) (l : list A) :
  omap (fun e => (e,.) <$> c) l = match c with Some c => (., c) <$> l | None => [] end.
Proof.
  destruct c as [c|]; induction l as [|x l IH]; [done| |done|exact IH].
  change (omap (fun e => (e,.) <$> Some c) (x :: l)) with ((x, c) :: omap (fun e => (e,.) <$> Some c) l). by rewrite IH.
Qed.
Lemma omap_of_fmap {A B C} (f : B -> option C) (g : A -> B) (l : list A) : omap f (g <$> l) = omap (fun x => f (g x)) l.
Proof. induction l as [|x l IH]; [done|]. csimpl. by rewrite IH. Qed.
Lemma addPeer_eq n4 n6 ex t m n p :
  addPeer n4 n6 ex (t, m, n) p
  = (foldl (fun t e => bartInsert e.1 e.2 t) t (omap (fun e => (e.1,.) <$> keepConfig n4 n6 ex e.2) ((., p) <$> AllowedIPs p)),
     countMasq m p, (n + length (omap (fun e => (e.1,.) <$> keepConfig n4 n6 ex e.2) ((., p) <$> AllowedIPs p)))%nat).
Proof.
  rewrite omap_of_fmap. cbn [fst snd]. rewrite omap_const. unfold addPeer, keepConfig, needs, configOf.
  destruct (addrsToUse n4 n6 ex p) as [a4 a6]. cbn [dstMasqAddr4 dstMasqAddr6 jailed].
  destruct (AddrIsValid a4), (AddrIsValid a6), (IsJailed p); cbn [negb andb orb];
    rewrite ?length_fmap, ?foldl_fmap; cbn [foldl length]; try done; by rewrite Nat.add_0_r.
Qed.
Lemma addPeers_eq n4 n6 ex peers t m n :
  foldl (addPeer n4 n6 ex) (t, m, n) peers
  = (foldl (fun t e => bartInsert e.1 e.2 t) t (omap (fun e => (e.1,.) <$> keepConfig n4 n6 ex e.2) (routes peers)),
     foldl countMasq m peers, (n + length (omap (fun e => (e.1,.) <$> keepConfig n4 n6 ex e.2) (routes peers)))%nat).
Proof.
  revert t m n. induction peers as [|p peers IH]; intros t m n; [cbn; by rewrite Nat.add_0_r|].
  cbn [foldl]. rewrite addPeer_eq, IH. unfold routes. csimpl. rewrite omap_app, foldl_app, length_app.
  f_equal. lia.
Qed.
Lemma lookup_spec wcfg pc a :
  peerConfigTableFromWGConfig (Some wcfg) = Some pc -> hasZone a = false ->
  let n4 := findV4 (Addresses wcfg) in
  let n6 := findV6 (Addresses wcfg) in
  nativeAddr4 pc = n4 /\ nativeAddr6 pc = n6 /\ (AddrIsValid n4 = true \/ AddrIsValid n6 = true)
  /\ bartLookup (byIP pc) a
     = lpm (omap (fun e => (e.1,.) <$> keepConfig n4 n6 (exitNodeRequiresMasq (Peers wcfg)) e.2) (routes (Peers wcfg))) a.
Proof.
  intros E Z n4 n6. unfold peerConfigTableFromWGConfig in E. fold n4 n6 in E.
  destruct (negb (AddrIsValid n4) && negb (AddrIsValid n6)) eqn:V; [done|]. rewrite addPeers_eq in E.
  destruct (_ && _) in E; [done|]. injection E as <-. cbn. split; [done|]. split; [done|].
  split; [destruct (AddrIsValid n4), (AddrIsValid n6); auto|]. by apply bartLookup_spec.
Qed.

(** A configuration with addresses of their families *)
Definition config_ok (wcfg : Config) : Prop :=
  Forall (fun p => hasZone (pfxAddr p) = false /\ addr_ok (pfxAddr p)) (Addresses wcfg)
  /\ Forall (fun p => (forall a, V4MasqAddr p = Some a -> addr_fits 4 a) /\ (forall a, V6MasqAddr p = Some a -> addr_fits 6 a)) (Peers wcfg).
Lemma native_fits addrs :
  Forall (fun p => hasZone (pfxAddr p) = false /\ addr_ok (pfxAddr p)) addrs ->
  addr_fits 4 (findV4 addrs) /\ addr_fits 6 (findV6 addrs).
Proof.
  induction addrs as [|p l IH]; intros HF; [split; by left|]. apply Forall_cons in HF as [(Z & O) HF].
  destruct (IH HF) as [I4 I6]. cbn [findV4 findV6].
  destruct (pfxAddr p) as [|a|a z]; cbn [Is4 Is6 andb]; [done|..].
  - split; [|done]. destruct (IsTailscaleIP _); [|done]. right. left. eauto.
  - split; [done|]. destruct (IsTailscaleIP _); [|done]. right. right. split; [done|]. exists a.
    unfold hasZone in Z. apply negb_false_iff, bool_decide_eq_true in Z. by subst.
Qed.
Lemma table_of_config_ok wcfg : config_ok wcfg -> table_ok (peerConfigTableFromWGConfig (Some wcfg)).
Proof.
  intros [CA CP]. destruct (peerConfigTableFromWGConfig (Some wcfg)) as [pc|] eqn:E; [|done].
  destruct (native_fits _ CA) as [N4 N6]. destruct (lookup_spec wcfg pc AddrZero E eq_refl) as (E4 & E6 & _).
  split; [by rewrite E4|]. split; [by rewrite E6|]. intros a c Z L. destruct (lookup_spec wcfg pc a E Z) as (_ & _ & _ & L').
  rewrite L in L'. symmetry in L'. destruct (lpm_longest _ _ _ L') as (p & l1 & l2 & El & _).
  assert ((p, c) ∈ omap (fun e => (e.1,.) <$> keepConfig (findV4 (Addresses wcfg)) (findV6 (Addresses wcfg)) (exitNodeRequiresMasq (Peers wcfg)) e.2) (routes (Peers wcfg))) as Hin
    by (rewrite El; set_solver).
  apply list_elem_of_omap in Hin as ([ap peer] & Hin & Ec). cbn [fst snd] in Ec. unfold routes in Hin.
  apply list_elem_of_bind in Hin as (peer' & Hin & Hp). apply list_elem_of_fmap in Hin as (? & [= <- <-] & _).
  pose proof (proj1 (Forall_forall _ _) CP peer Hp) as [M4 M6].
  unfold keepConfig in Ec. destruct (needs _); [|done]. injection Ec as _ <-. unfold configOf, addrsToUse.
  assert (forall v o, (forall a, o = Some a -> addr_fits v a) ->
    addr_fits v (match o with Some a => if AddrIsValid a then a else AddrZero | None => AddrZero end)) as X.
  { intros v [o|] Ho; [|by left]. destruct (AddrIsValid o); [by apply Ho|by left]. }
  specialize (X 4 _ M4) as X4. specialize (X 6 _ M6) as X6.
  set (a4 := match V4MasqAddr peer with Some a => _ | None => _ end) in *. set (a6 := match V6MasqAddr peer with Some a => _ | None => _ end) in *.
  destruct (exitNodeRequiresMasq _); cbn; [|done]. split; destruct (_ && _); done.
Qed.

(** Looking an address up is looking for its owner among the peers that ask for something. *)
Lemma keepConfig_routes n4 n6 ex peers :
  omap (fun e => (e.1,.) <$> keepConfig n4 n6 ex e.2) (routes peers)
  = (fun e => (e.1, configOf n4 n6 ex e.2)) <$> routes (filter (fun p => needs (configOf n4 n6 ex p) = true) peers).
Proof.
  induction peers as [|p peers IH]; [done|]. unfold routes in *. csimpl. rewrite omap_app, IH, omap_of_fmap. cbn [fst snd]. rewrite omap_const.
  unfold keepConfig. destruct (needs (configOf n4 n6 ex p)) eqn:N.
  - rewrite filter_cons_True by done. csimpl. rewrite fmap_app. f_equal. by rewrite <- list_fmap_compose.
  - by rewrite filter_cons_False by (by rewrite N).
Qed.
(** No peer is masqueraded towards. *)
Definition unmasqueraded (peers : list Peer) : Prop :=
  forall p, p ∈ peers -> isValidPtr (V4MasqAddr p) = false /\ isValidPtr (V6MasqAddr p) = false.
Lemma unmasqueraded_config n4 n6 peers p :
  unmasqueraded peers -> p ∈ peers -> configOf n4 n6 (exitNodeRequiresMasq peers) p = MkPeerConfig AddrZero AddrZero (IsJailed p).
Proof.
  intros U Hp. assert (exitNodeRequiresMasq peers = false) as ->.
  { clear Hp. induction peers as [|x peers IH]; [done|]. cbn. destruct (U x ltac:(by left)) as [-> ->]. destruct (isExitNode x); [done|].
    apply IH. intros y Hy. apply U. by right. }
  destruct (U p Hp) as [V4 V6]. unfold configOf, addrsToUse, isValidPtr in *.
  destruct (V4MasqAddr p); [rewrite V4|]; (destruct (V6MasqAddr p); [rewrite V6|]); done.
Qed.

(** [C28] What the table of a configuration says of an address, exactly: the settings of the peer
    whose allowed prefix is the longest to contain it among the peers that are jailed or
    masqueraded towards, and nothing if there is none. So the addresses of such a peer get its own
    settings, and when the exit node requires masquerading every peer is one. The addresses of a
    peer that asks for nothing, however, fall to a shorter prefix of another: if a peer with the
    IPv4 default route is jailed and no peer is masqueraded towards, every IPv4 address is looked
    up as jailed, whichever peer it belongs to. *)
Theorem peer_config_exact wcfg pc a :
  peerConfigTableFromWGConfig (Some wcfg) = Some pc -> hasZone a = false ->
  let exitMasq := exitNodeRequiresMasq (Peers wcfg) in
  let config := configOf (findV4 (Addresses wcfg)) (findV6 (Addresses wcfg)) exitMasq in
  bartLookup (byIP pc) a = config <$> owner (filter (fun p => needs (config p) = true) (Peers wcfg)) a
  /\ (forall peer, owner (Peers wcfg) a = Some peer -> needs (config peer) = true -> bartLookup (byIP pc) a = Some (config peer))
  /\ (exitMasq = true -> forall peer, needs (config peer) = true)
  /\ (forall exit_, exit_ ∈ Peers wcfg -> AllIPv4 ∈ AllowedIPs exit_ -> IsJailed exit_ = true -> unmasqueraded (Peers wcfg) ->
      Is4 a = true -> addr_ok a -> jailed <$> bartLookup (byIP pc) a = Some true).
Proof.
  intros E Z exitMasq config. destruct (lookup_spec wcfg pc a E Z) as (_ & _ & V & L).
  assert (bartLookup (byIP pc) a = config <$> owner (filter (fun p => needs (config p) = true) (Peers wcfg)) a) as Lk
    by (rewrite L, keepConfig_routes; apply lpm_fmap).
  split; [done|]. split; [|split].
  - intros peer O N. rewrite L. apply (lpm_omap _ _ _ peer); [done|]. unfold keepConfig. fold exitMasq config.
    by replace (needs _) with true.
  - intros Ex peer. unfold config, configOf, needs, addrsToUse. rewrite Ex.
    set (a4 := match V4MasqAddr peer with Some a => _ | None => _ end). set (a6 := match V6MasqAddr peer with Some a => _ | None => _ end).
    cbn [dstMasqAddr4 dstMasqAddr6]. destruct V as [V|V]; rewrite V, ?andb_true_r.
    + destruct (AddrIsValid a4) eqn:A4; cbn [negb]; [by rewrite A4|by rewrite V].
    + destruct (AddrIsValid a6) eqn:A6; cbn [negb]; [rewrite A6|rewrite V]; by rewrite ?orb_true_r.
  - intros ex Hx Hr Hj U H4 Ha. assert (forall p, p ∈ Peers wcfg -> config p = MkPeerConfig AddrZero AddrZero (IsJailed p)) as Cf
      by (intros; by apply unmasqueraded_config).
    destruct (lpm_found (routes (filter (fun p => needs (config p) = true) (Peers wcfg))) a (AllIPv4, ex)) as (p & Lp & Hp).
    + apply list_elem_of_bind. exists ex. split; [apply list_elem_of_fmap; by exists AllIPv4|]. apply list_elem_of_filter.
      rewrite (Cf ex Hx), Hj. done.
    + destruct a as [|y|]; [done| |done]. cbn in *. rewrite Z.lxor_0_r, Z.shiftr_div_pow2, Z.div_small by lia. done.
    + rewrite Lk. unfold owner. rewrite Lp. cbn. f_equal. apply list_elem_of_fmap in Hp as ([q p'] & -> & Hp).
      apply list_elem_of_bind in Hp as (p2 & Hp & [Np Hin]%list_elem_of_filter). apply list_elem_of_fmap in Hp as (? & [= _ ->] & _).
      cbn [snd]. rewrite (Cf p2 Hin) in *. exact Np.
Qed.
End config.
(** A node 100.64.0.1 that masquerades as 100.64.9.9 towards 100.64.0.2 *)
Definition ex_config : Config :=
  MkConfig [MkPrefix (Addr4 0x64400001) 32]
    [MkPeer [MkPrefix (Addr4 0x64400002) 32] (Some (Addr4 0x64400909)) None false].
#[local] Existing Instance list_bart_map.
#[local] Existing Instance list_bart.
Definition ex_tun (f jf : option Filter.t) : Wrapper :=
  MkWrapper 16 65503 ∅ [] (peerConfigTableFromWGConfig (Some ex_config)) f jf
    None None None None None None None false None None false false true.
Lemma ex_tun_ok f jf : api_ok (ex_tun f jf) /\ table_ok (peerConfig_ (ex_tun f jf)).
Proof.
  split; [done|]. apply table_of_config_ok. split; apply Forall_singleton; [split; [done|cbn; lia]|].
  split; [|done]. intros a [= <-]. right. left. split; [done|]. by eexists.
Qed.
(** 20 bytes that claim a header of 60 *)
Definition ex_long_header : bytes :=
  [x4f; x00; x00; x14; x00; x00; x00; x00; x40; x11; x00; x00; x64; x40; x00; x02; x64; x40; x09; x09].
Lemma write_panics_exactly_witness : Write_ (ex_tun None None) zeroParsed [zeros 16 ++ ex_long_header] 16 ([], []) = None.
Proof.
  destruct (ex_tun_ok None None) as [A T].
  apply (write_panics_exactly (ex_tun None None) zeroParsed [zeros 16 ++ ex_long_header] 16 ([], []) A T).
  - constructor; [|done]. split; [vm_compute; lia|]. left. split; [|reflexivity]. split; [vm_compute; lia|]. split; [done|vm_compute; lia].
  - constructor. split; [done|]. split; [vm_compute; lia|]. vm_compute. discriminate.
Defined.
(** The same node with a jailed exit node 100.64.0.3 instead *)
Definition ex_jailConfig : Config :=
  MkConfig [MkPrefix (Addr4 0x64400001) 32]
    [MkPeer [MkPrefix (Addr4 0x64400002) 32] None None false; MkPeer [MkPrefix (Addr4 0x64400003) 32; AllIPv4] None None true].
Lemma peer_config_exact_witness :
  exists pc, peerConfigTableFromWGConfig (Some ex_jailConfig) = Some pc
    /\ owner (Peers ex_jailConfig) (Addr4 0x64400002) = Some (MkPeer [MkPrefix (Addr4 0x64400002) 32] None None false)
    /\ jailed <$> bartLookup (byIP pc) (Addr4 0x64400002) = Some true.
Proof.
  destruct (peerConfigTableFromWGConfig (Some ex_jailConfig)) as [pc|] eqn:E; [|vm_compute in E; discriminate].
  exists pc. split; [reflexivity|]. split; [vm_compute; reflexivity|].
  apply (proj2 (proj2 (proj2 (peer_config_exact ex_jailConfig pc (Addr4 0x64400002) E eq_refl)))
    (MkPeer [MkPrefix (Addr4 0x64400003) 32; AllIPv4] None None true)); try reflexivity; [set_solver..| |cbn; lia].
  intros p Hp. repeat (apply elem_of_cons in Hp as [->|Hp]; [done|]). by apply not_elem_of_nil in Hp.
Defined.

(** The node with its filters, and a datagram the rules allow *)
Definition ex_node : Wrapper := ex_tun (Some ex_filter) (Some ex_shields).
Definition ex_dgram : bytes := ex_udp ex_peer (Addr4 0x64400909) 999 22.
Lemma ex_filters_ok j f : selectFilter ex_node j = Some f ->
  compiled_from (if j then [] else [ex_rule]) ex_locals f /\ (state f < length ex_shields_store)%nat.
Proof. destruct j; intros [= <-]; (split; [split; [reflexivity|split; reflexivity]|vm_compute; lia]). Qed.
Lemma ex_stores_ok : stores_ok ex_shields_store.
Proof. intros [|[|i]] c E; [injection E as <-; exact (proj1 (@cacheInv_new _ ex_cache))..|by destruct i]. Qed.
Lemma ex_checked p : whole4 p -> totalLen4 p = length p -> Forall (fun buff => checked (drop 16 buff)) [zeros 16 ++ p].
Proof. intros W L. constructor; [|done]. left. done. Qed.
Lemma ex_dgram_checked : Forall (fun buff => checked (drop 16 buff)) [zeros 16 ++ ex_dgram].
Proof. apply ex_checked; [|reflexivity]. split; [vm_compute; lia|]. split; [reflexivity|vm_compute; lia]. Qed.
Lemma write_delivers_admitted_witness :
  exists d p' s', Write_ ex_node zeroParsed [zeros 16 ++ ex_dgram] 16 (ex_shields_store, []) = Some ([d], p', s')
    /\ exists buff q0 q q', buff ∈ [zeros 16 ++ ex_dgram] /\ Decode q0 (drop 16 buff) = Some q
      /\ dnat (peerConfig_ ex_node) q = Some q' /\ d = take 16 buff ++ b q'
      /\ deliverable ex_node (fun j => if j then [] else [ex_rule]) (fun _ => ex_locals) (peerConfig_ ex_node) ex_shields_store q'.
Proof.
  destruct (Write_ ex_node zeroParsed [zeros 16 ++ ex_dgram] 16 (ex_shields_store, [])) as [[[[|d [|]] p'] s']|] eqn:E;
    [vm_compute in E; discriminate| |vm_compute in E; discriminate..].
  exists d, p', s'. split; [reflexivity|].
  apply (Forall_inv (write_delivers_admitted ex_node (fun j => if j then [] else [ex_rule]) (fun _ => ex_locals)
    zeroParsed [zeros 16 ++ ex_dgram] 16 (ex_shields_store, []) [d] p' s'
    ltac:(intros [|]; split; first [exact ex_ms_ok|exact ex_locals_ok|constructor]) ex_filters_ok (proj2 (ex_tun_ok _ _)) eq_refl ex_stores_ok ex_dgram_checked E)).
Defined.
(** The same node with the peer jailed, which sends a datagram and an echo response *)
Definition ex_jail : Wrapper :=
  SetWGConfig ex_node (Some (MkConfig [MkPrefix ex_self 32] [MkPeer [MkPrefix ex_peer 32] None None true])).
Definition ex_echo : bytes :=
  match Generate (MkICMP4 (MkIP4 0 0 ex_peer ex_self) ICMP4EchoReply 0) [x00; x00; x00; x00] with inr p => p | inl _ => [] end.
Definition ex_jailed_traffic : list bytes := [zeros 16 ++ ex_udp ex_peer ex_self 999 22; zeros 16 ++ ex_echo].
Lemma ex_jailed_checked : Forall (fun buff => checked (drop 16 buff)) ex_jailed_traffic.
Proof.
  unfold ex_jailed_traffic. apply Forall_cons. split; [|apply Forall_singleton]; left;
    (split; [split; [vm_compute; lia|split; [vm_compute; reflexivity|vm_compute; lia]]|vm_compute; reflexivity]).
Qed.
Lemma jailed_peer_contained_witness :
  exists d p' s', Write_ ex_jail zeroParsed ex_jailed_traffic 16 (ex_shields_store, []) = Some ([d], p', s')
    /\ exists buff q0 q q', buff ∈ ex_jailed_traffic /\ Decode q0 (drop 16 buff) = Some q
      /\ dnat (peerConfig_ ex_jail) q = Some q' /\ d = take 16 buff ++ b q'
      /\ forall pc c, peerConfig_ ex_jail = Some pc -> bartLookup (byIP pc) (ip (Src q')) = Some c -> jailed c = true ->
          responds ex_locals (cacheKeys (stateOf ex_shields ex_shields_store)) q' \/ peerAPIAllowed ex_jail q' = true.
Proof.
  destruct (Write_ ex_jail zeroParsed ex_jailed_traffic 16 (ex_shields_store, [])) as [[[[|d [|]] p'] s']|] eqn:E;
    [vm_compute in E; discriminate| |vm_compute in E; discriminate..].
  exists d, p', s'. split; [reflexivity|].
  refine (Forall_inv (jailed_peer_contained ex_jail ex_locals ex_locals [ex_rule] None (Some ex_filter) ex_store
    zeroParsed ex_jailed_traffic 16 (ex_shields_store, []) [d] p' s'
    eq_refl ltac:(vm_compute; lia) ex_locals_ok (ex_filters_ok false) ex_ms_ok ex_locals_ok _ eq_refl ex_stores_ok _ E)).
  - apply table_of_config_ok. split; apply Forall_singleton; [split; [done|cbn; lia]|]. split; intros; discriminate.
  - exact ex_jailed_checked.
Defined.
