(* ===== verification/TstunFlows.v ===== *)
(** * Traffic through the TUN wrapper and back

    A flow towards a peer that the node masquerades towards, out through [Read] and back through
    [Write]; a TSMP ping, in through [Write], and the pong, out through [injectedRead]. *)
From S2P Require Import Prelude Netip Bytes Slices Disco IPPacket IPPacketProps PacketHeaders IPSet.
From S2P Require Import FlowTrack Filter FilterProps Checksum ChecksumProps TSMP Tstun TstunProps.
Import IPPacket TSMP Checksum FlowTrack Filter Tstun.

#[local] Arguments be_put : simpl never.
#[local] Arguments be_get : simpl never.
#[local] Arguments As16 : simpl never.
#[local] Arguments copyAt : simpl never.
#[local] Arguments zeros : simpl never.
#[local] Arguments Z.of_nat : simpl never.
#[local] Arguments Nat.ltb : simpl never.

(** ** A masqueraded flow *)
Section flow.
Context `{BT : BartTable} {FC : FlowCache lruMax} {BM : BartMap}.
Variables (t : Wrapper) (pc : peerConfigTable) (c : peerConfig) (f : Filter.t) (ms : list Match) (locals : list Prefix).
Hypothesis ms_ok : Forall (fun mt => Forall prefix_ok (Srcs mt)) ms.
Hypothesis locals_ok : Forall prefix_ok locals.
Hypothesis f_compiled : compiled_from ms locals f.
Hypothesis T_pc : peerConfig_ t = Some pc.
Hypothesis T_filter : filter_ t = Some f.
Hypothesis T_on : disableFilter t = false.
Hypothesis T_ok : table_ok (Some pc).

(** No hook takes the packet, and it is not a disco packet of this node. *)
Definition unhookedOut (q : Parsed) : Prop :=
  runHook (PreFilterPacketOutboundToWireGuardNetstackIntercept t) q = None
  /\ runHook (PreFilterPacketOutboundToWireGuardEngineIntercept t) q = None
  /\ runHook (PreFilterPacketOutboundToWireGuardAppConnectorIntercept t) q = None
  /\ runHook (PostFilterPacketOutboundToWireGuard t) q = None /\ isSelfDisco t q = Some false.
Definition unhookedIn (q : Parsed) : Prop :=
  runHook (PreFilterPacketInboundFromWireGuard t) q = None
  /\ runHook (PostFilterPacketInboundFromWireGuardAppConnector t) q = None
  /\ runHook (PostFilterPacketInboundFromWireGuard t) q = None /\ isSelfDisco t q = Some false.
Lemma flow_cases q : isFlow q = true -> IsEchoRequest q = false /\ IsEchoResponse q = false /\ (IPProto q =? ipproto.TSMP) = false
  /\ IPProto q <> ipproto.Unknown /\ IPProto q <> ipproto.Fragment /\ hasPorts (IPProto q) = true.
Proof. intros Fl. unfold IsEchoRequest, IsEchoResponse. destruct (flow_proto q Fl) as [->| ->]; done. Qed.

Lemma flow_out q s :
  isFlow q = true -> passable f q -> unhookedOut q -> outboundPacketIsJailed (Some pc) q = false ->
  filterPacketOutboundToWireGuard t q (Some pc) s
  = Some (Accept, (setState f s.1 (cacheAdd (stateOf f s.1) (outTuple q)), s.2)).
Proof using T_filter.
  intros Fl Pa (H1 & H2 & H3 & H4 & Sd) J. destruct (flow_cases q Fl) as (Er & _).
  unfold filterPacketOutboundToWireGuard, answerMagicDNS. rewrite Er. cbn [negb mbind option_bind].
  assert ((if IPProto q =? ipproto.UDP then isSelfDisco t q else Some false) = Some false) as -> by (destruct (IPProto q =? ipproto.UDP); [exact Sd|done]).
  cbn [mbind option_bind]. rewrite H1, H2, H3, J. cbn [selectFilter]. rewrite T_filter. rewrite (RunOut_flow f q s.1 Pa Fl). cbn. by rewrite H4.
Qed.
Lemma flow_in q s :
  isFlow q = true -> passable f q -> unhookedIn q -> inboundPacketIsJailed (Some pc) q = false -> familied q ->
  cacheInv (stateOf f s.1) -> inTuple q ∈ cacheKeys (stateOf f s.1) ->
  (exists l, l ∈ locals /\ Contains l (ip (Dst q)) = true) ->
  exists w, filterPacketInboundFromWireGuard t q (Some pc) s = Some (Accept, (w, s.2)).
Proof using T_filter ms_ok locals_ok f_compiled.
  intros Fl Pa (H1 & H2 & H3 & Sd) J Fa I K L. destruct (flow_cases q Fl) as (_ & Er & Ts & U & Nf & _).
  unfold filterPacketInboundFromWireGuard, handleTSMP. rewrite Ts, Er. cbn [negb andb mbind option_bind].
  assert ((if IPProto q =? ipproto.UDP then isSelfDisco t q else Some false) = Some false) as -> by (destruct (IPProto q =? ipproto.UDP); [exact Sd|done]).
  cbn [mbind option_bind]. rewrite H1, J. cbn [selectFilter]. rewrite T_filter.
  destruct (RunIn_spec ms locals ms_ok locals_ok f q s.1 f_compiled Fa I) as (A & _ & _).
  destruct (RunIn f q s.1) as [o w]. cbn [fst snd] in A. exists w.
  assert (o = Accept) as ->. { apply A. right. split; [done|]. right. left. split; [done|]. apply flow_permitted; [done|by left]. }
  cbn. by rewrite H2, H3.
Qed.

Definition native (v : Z) : Addr := if v =? 4 then nativeAddr4 pc else nativeAddr6 pc.
Definition masq (v : Z) : Addr := if v =? 4 then dstMasqAddr4 c else dstMasqAddr6 c.
Lemma masq_src q :
  framed q -> ip (Src q) = native (IPVersion q) -> bartLookup (byIP pc) (ip (Dst q)) = Some c ->
  AddrIsValid (masq (IPVersion q)) = true -> target true (Some pc) q = masq (IPVersion q).
Proof.
  intros F N L V. pose proof (fr_addr q F true) as S. cbn [addrOf target] in *. unfold selectSrcIP, native, masq in *.
  destruct S as [(Ev & a & Es & _)|(Ev & a & Es & _)]; rewrite Ev in *; cbn [Z.eqb Pos.eqb] in *; rewrite Es in *; cbn [Is4 Is6 andb].
  - rewrite bool_decide_eq_true_2 by done. cbn [negb]. by rewrite L, V.
  - rewrite bool_decide_eq_true_2 by done. cbn [negb]. by rewrite L, V.
Qed.
Lemma masq_dst q :
  framed q -> ip (Dst q) = masq (IPVersion q) -> bartLookup (byIP pc) (ip (Src q)) = Some c ->
  AddrIsValid (native (IPVersion q)) = true -> target false (Some pc) q = native (IPVersion q).
Proof.
  intros F N L V. pose proof (fr_addr q F false) as D. cbn [addrOf target] in *. unfold mapDstIP, native, masq in *. rewrite L.
  destruct D as [(Ev & a & Ed & _)|(Ev & a & Ed & _)]; rewrite Ev in *; cbn [Z.eqb Pos.eqb] in *; rewrite Ed in *; cbn [Is4 Is6 andb];
    by rewrite V, bool_decide_eq_true_2.
Qed.

(** The flow that [q] opened is remembered. *)
Definition remembers (q : Parsed) (s : St) : Prop := cacheInv (stateOf f s.1) /\ outTuple q ∈ cacheKeys (stateOf f s.1).
Lemma addrPort_eq (a a' : AddrPort) : ip a = ip a' -> port a = port a' -> a = a'.
Proof. destruct a, a'; cbn; congruence. Qed.
Lemma agree_moved src q x q' r :
  moved src q x q' -> hasPorts (IPProto q) = true -> IPProto q <> ipproto.Unknown -> agree r q' ->
  addrOf src r = MkAddrPort x (port (addrOf src q)) /\ addrOf (negb src) r = addrOf (negb src) q /\ IPProto r = IPProto q.
Proof.
  intros M Hp U [_ _ P A Po _]. rewrite P, (mv_proto _ _ _ _ M) in *.
  destruct (A U) as (As & Ad & _), (Po Hp) as (Ps & Pd). pose proof (mv_addr _ _ _ _ M) as Ma. pose proof (mv_other _ _ _ _ M) as Mo.
  rewrite <- Ma, <- Mo. destruct src; cbn [addrOf negb]; (split; [|split; [|done]]); apply addrPort_eq; done.
Qed.
Lemma read_flow q0 p q room s :
  Decode q0 p = Some q -> (headLen (IPVersion q) <= subofs q)%nat -> isFlow q = true -> passable f q -> unhookedOut q ->
  ip (Src q) = native (IPVersion q) -> bartLookup (byIP pc) (ip (Dst q)) = Some c -> jailed c = false ->
  AddrIsValid (masq (IPVersion q)) = true -> (length p <= room)%nat -> (state f < length s.1)%nat -> cacheInv (stateOf f s.1) ->
  exists q' s1, Read t q0 [p] [room] s = Some ([b q'], q', s1) /\ moved true q (masq (IPVersion q)) q'
    /\ (forall q1 r, Decode q1 (b q') = Some r -> agree r q') /\ remembers q s1.
Proof using T_pc T_filter T_on T_ok.
  intros E Hs Fl Pa Un Hn L J V Hr Hl I. destruct (flow_cases q Fl) as (_ & _ & _ & U & _ & _).
  destruct (translate_fresh true (Some pc) q0 p q T_ok E U Hs) as (q' & Et & M & _ & Ag & _).
  rewrite (masq_src q (known_framed q0 p q E U) Hn L V) in M.
  destruct (Decode_decoded q0 p) as (? & [= <-]%(eq_trans (eq_sym E)) & B & _).
  set (s0 := if bool_decide (ip (Dst q) ∈ destIPActivity t) then act (NotedActivity (ip (Dst q))) s else s).
  assert (s0.1 = s.1) as E0 by (unfold s0; by destruct (bool_decide _)).
  exists q', (setState f s0.1 (cacheAdd (stateOf f s0.1) (outTuple q)), s0.2).
  split; [|split; [exact M|]; split; [exact Ag|]].
  - unfold Read. rewrite T_pc. cbn [readLoop]. rewrite E. cbn [mbind option_bind]. fold s0. rewrite T_on. cbn [negb].
    rewrite flow_out; [|done..|by unfold outboundPacketIsJailed; rewrite L]. cbn [mbind option_bind].
    rewrite bool_decide_eq_true_2 by done. cbn [negb]. cbn [translate] in Et. rewrite Et. cbn [mbind option_bind].
    rewrite (mv_length _ _ _ _ M), B. destruct (Nat.ltb_spec room (length p)); [lia|]. reflexivity.
  - unfold remembers. cbn [fst]. rewrite E0.
    rewrite stateOf_setState by done. destruct (cacheAdd_spec (stateOf f s.1) (outTuple q) I) as [? ->].
    split; [done|]. by left.
Qed.
Lemma ofVersion_same v v' a : ofVersion v a -> ofVersion v' a -> v = v'.
Proof. intros [(-> & ? & -> & _)|(-> & ? & -> & _)] [(-> & ? & ? & _)|(-> & ? & ? & _)]; done. Qed.
(** What [q] has to be for a reply to it to come back to this node *)
Definition reply_to (q r : Parsed) : Prop :=
  IPProto r = IPProto q /\ Src r = Dst q /\ Dst r = MkAddrPort (masq (IPVersion q)) (port (Src q)).
Definition reachable_here (a : Addr) : Prop :=
  IsMulticast a = false /\ IsLinkLocalUnicast a = false /\ exists l, l ∈ locals /\ Contains l a = true.
Lemma write_reply q0 p q q1 pre d r s :
  Decode q0 p = Some q -> isFlow q = true -> ip (Src q) = native (IPVersion q) -> reachable_here (native (IPVersion q)) ->
  bartLookup (byIP pc) (ip (Dst q)) = Some c -> jailed c = false ->
  Decode q1 d = Some r -> (headLen (IPVersion r) <= subofs r)%nat -> reply_to q r -> remembers q s ->
  (forall r', dnat (Some pc) r = Some r' -> unhookedIn r') ->
  exists r' s', Write_ t q1 [pre ++ d] (length pre) s = Some ([pre ++ b r'], r', s')
    /\ moved false r (native (IPVersion q)) r' /\ (forall q2 r2, Decode q2 (b r') = Some r2 -> agree r2 r').
Proof using T_pc T_filter T_on T_ok ms_ok locals_ok f_compiled.
  intros E Fl Hn (Mc & Ll & Lo) L J Er Hs (Ep & Es & Ed) (I & K) Un.
  assert (isFlow r = true) as Flr by (unfold isFlow; by rewrite Ep).
  destruct (flow_cases q Fl) as (_ & _ & _ & U & _ & _), (flow_cases r Flr) as (_ & _ & _ & Ur & _ & _).
  pose proof (known_framed q0 p q E U) as F. pose proof (known_framed q1 d r Er Ur) as Fr.
  assert (IPVersion r = IPVersion q) as Ev.
  { apply (ofVersion_same _ _ (ip (Dst q))); [|exact (fr_addr q F false)]. rewrite <- Es. exact (fr_addr r Fr true). }
  assert (AddrIsValid (native (IPVersion r)) = true) as Vn.
  { rewrite Ev, <- Hn. by destruct (fr_addr q F true) as [(_ & ? & Hx & _)|(_ & ? & Hx & _)]; cbn [addrOf] in Hx; rewrite Hx. }
  destruct (translate_fresh false (Some pc) q1 d r T_ok Er Ur Hs) as (r' & Et & M & _ & Ag & _). pose proof (target_fits false (Some pc) r T_ok Fr) as Tf.
  assert (target false (Some pc) r = native (IPVersion q)) as Ta.
  { rewrite <- Ev. apply masq_dst; [done|by rewrite Ed, Ev|by rewrite Es|done]. }
  rewrite Ta in M, Tf. 
  destruct (Decode_decoded q1 d) as (? & [= <-]%(eq_trans (eq_sym Er)) & B & D).
  pose proof (moved_familied false r _ r' (decoded_familied r D) M Tf) as Fa.
  destruct M as [Ma Mo Mv Mp Mf Mt Ml] eqn:EM. cbn [addrOf negb] in Ma, Mo. 
  assert (exists w, filterPacketInboundFromWireGuard t r' (Some pc) s = Some (Accept, (w, s.2))) as [w Ew].
  { apply flow_in; try done.
    - unfold isFlow. rewrite Mp. exact Flr.
    - split; [|split; [by rewrite Mp|]]; rewrite ?Ma; [|split; [done|cbn [ip]; by rewrite Ll]].
      rewrite Ml. pose proof (fr_head r Fr) as Hh. revert Hh. unfold headLen. destruct (IPVersion r =? 4); lia.
    - by apply Un.
    - unfold inboundPacketIsJailed. by rewrite Mo, Es, L.
    - replace (inTuple r') with (outTuple q); [done|]. unfold inTuple, outTuple. rewrite Mp, Ep, Mo, Es, Ma, Ed. cbn [port].
      f_equal. apply addrPort_eq; [by rewrite Hn|done].
    - by rewrite Ma. }
  exists r', (w, s.2). split; [|split; [exact M|exact Ag]].
  unfold Write_. rewrite T_pc. cbn [writeLoop]. rewrite slice_suffix. cbn [mbind option_bind]. rewrite Er. cbn [mbind option_bind].
  cbn [translate] in Et. rewrite Et. cbn [mbind option_bind]. rewrite T_on. cbn [negb]. rewrite Ew. cbn [mbind option_bind].
  rewrite bool_decide_eq_true_2 by done. by rewrite take_app_length.
Qed.

(** [C9] Masquerading towards a peer is undone on the way back: a UDP or SCTP packet from this
    node's own address leaves from the address the peer knows it by, with the same port, and a
    reply of the peer to that address, for as long as the flow is remembered, is accepted whatever
    the rules say and delivered to the address and port the flow started from. *)
Theorem masqueraded_flow_returns q0 p q room s :
  Decode q0 p = Some q -> (headLen (IPVersion q) <= subofs q)%nat -> isFlow q = true -> passable f q -> unhookedOut q ->
  ip (Src q) = native (IPVersion q) -> reachable_here (native (IPVersion q)) ->
  bartLookup (byIP pc) (ip (Dst q)) = Some c -> jailed c = false -> AddrIsValid (masq (IPVersion q)) = true ->
  (length p <= room)%nat -> (state f < length s.1)%nat -> cacheInv (stateOf f s.1) ->
  exists d q' s1, Read t q0 [p] [room] s = Some ([d], q', s1) /\ remembers q s1
    /\ (forall q1 r, Decode q1 d = Some r ->
          Src r = MkAddrPort (masq (IPVersion q)) (port (Src q)) /\ Dst r = Dst q /\ IPProto r = IPProto q)
    /\ forall q1 pre d1 r s2,
         Decode q1 d1 = Some r -> (headLen (IPVersion r) <= subofs r)%nat -> reply_to q r -> remembers q s2 ->
         (forall r', dnat (Some pc) r = Some r' -> unhookedIn r') ->
         exists d2 r' s3, Write_ t q1 [pre ++ d1] (length pre) s2 = Some ([pre ++ d2], r', s3)
           /\ forall q2 r2, Decode q2 d2 = Some r2 -> Src r2 = Dst q /\ Dst r2 = Src q /\ IPProto r2 = IPProto q.
Proof using T_pc T_filter T_on T_ok ms_ok locals_ok f_compiled.
  intros E Hs Fl Pa Un Hn Rh L J V Hr Hl I. destruct (flow_cases q Fl) as (_ & _ & _ & U & _ & Hp).
  destruct (read_flow q0 p q room s E Hs Fl Pa Un Hn L J V Hr Hl I) as (q' & s1 & Er & M & Ag & Rm).
  exists (b q'), q', s1. split; [done|]. split; [done|]. split.
  { intros q1 r Dr. by apply (agree_moved true q _ q' r M Hp U), (Ag q1). }
  intros q1 pre d1 r s2 Dr Hsr Re Rm2 Un2.
  destruct (write_reply q0 p q q1 pre d1 r s2 E Fl Hn Rh L J Dr Hsr Re Rm2 Un2) as (r' & s3 & Ew & M2 & Ag2).
  exists (b r'), r', s3. split; [done|]. intros q2 r2 D2. destruct Re as (Ep & Es & Ed). rewrite <- Ep in Hp, U.
  destruct (agree_moved false r _ r' r2 M2 Hp U (Ag2 q2 r2 D2)) as (A1 & A2 & A3). cbn [addrOf negb] in A1, A2.
  split; [by rewrite A2|]. split; [|by rewrite A3]. rewrite A1, Ed. cbn [port]. by apply addrPort_eq.
Qed.
End flow.

(** ** Pings answered *)
Section ping.
Context `{BT : BartTable} {FC : FlowCache lruMax} {BM : BartMap}.
Variable t : Wrapper.
Hypothesis T_api : api_ok t.
Hypothesis T_ok : table_ok (peerConfig_ t).
Hypothesis T_on : disableFilter t = false.

Lemma translate_tsmp src q0 p q :
  Decode q0 p = Some q -> IPProto q = ipproto.TSMP -> (headLen (IPVersion q) <= subofs q)%nat ->
  exists q', translate src (peerConfig_ t) q = Some q' /\ framed q'
    /\ moved src q (target src (peerConfig_ t) q) q' /\ Payload q' = Payload q
    /\ forall q1 r, Decode q1 (b q') = Some r -> agree r q' /\ Payload r = Payload q.
Proof using T_ok.
  intros E P Hs. assert (IPProto q <> ipproto.Unknown) as U by by rewrite P.
  destruct (translate_fresh src _ q0 p q T_ok E U Hs) as (q' & Et & M & F & Ag & Fr).
  exists q'. split; [done|]. split; [done|]. split; [done|].
  assert (drop (dataofs q) (b q') = drop (dataofs q) (b q)) as Ed.
  { apply list_eq. intros i. rewrite !lookup_drop, (tsmp_dataofs q0 p q E P). apply Fr; [lia|].
    rewrite P. unfold fieldOf. by destruct (_ =? 4). }
  destruct (mv_offsets _ _ _ _ M) as (So & Do & Lo). pose proof (mv_length _ _ _ _ M) as Lb. pose proof (mv_proto _ _ _ _ M) as Mp.
  assert (forall r, b r = b q' -> dataofs r = dataofs q -> length_ r = length_ q -> Payload r = Payload q) as Pl.
  { intros r B D L. unfold Payload, slice. rewrite B, D, L, Lb, Ed. done. }
  split; [by apply Pl|]. intros q1 r Er. pose proof (Ag q1 r Er) as A. split; [done|].
  pose proof (a_proto _ _ A) as Pr. rewrite Mp, P in Pr.
  destruct (a_addrs _ _ A) as (_ & _ & Sr & Lr); [by rewrite Pr|]. apply Pl; [apply A| |congruence].
  rewrite (tsmp_dataofs q1 _ r Er Pr), Sr, So. symmetry. by apply (tsmp_dataofs q0 p).
Qed.
Lemma AsTSMPPing_payload q r : IPProto r = IPProto q -> Payload r = Payload q -> AsTSMPPing r = AsTSMPPing q.
Proof. intros P L. unfold AsTSMPPing. by rewrite P, L. Qed.
Lemma AsTSMPPing_data q req : AsTSMPPing q = Some (Some req) -> IPProto q = ipproto.TSMP /\ length req = 8%nat.
Proof.
  unfold AsTSMPPing. destruct (Z.eqb_spec (IPProto q) ipproto.TSMP); [|done]. cbn [negb]. destruct (Payload q) as [x|]; [|done].
  cbn [mbind option_bind]. destruct (Nat.ltb_spec (length x) 9); [done|]. cbn [orb]. destruct (negb _); [done|]. intros [= <-].
  split; [done|]. rewrite length_take_le; [done|]. rewrite length_drop. lia.
Qed.

(** The address a pong is sent from: that of the ping, translated in and out *)
Definition pongSource (q : Parsed) : Addr :=
  selectSrcIP (peerConfig_ t) (target false (peerConfig_ t) q) (ip (Src q)).
Lemma pongSource_back q :
  framed q -> target false (peerConfig_ t) q <> ip (Dst q) -> pongSource q = ip (Dst q).
Proof using T_ok.
  intros F N. pose proof (fr_addr q F false) as D. unfold pongSource. cbn [target addrOf] in *.
  destruct (peerConfig_ t) as [pc|]; [|done]. destruct T_ok as (N4 & N6 & _). cbn [mapDstIP selectSrcIP] in *.
  destruct (bartLookup (byIP pc) (ip (Src q))) as [c|] eqn:L; [|done].
  destruct D as [(_ & d & Ed & _)|(_ & d & Ed & _)]; rewrite Ed in *; cbn [Is4 Is6 andb] in *; (destruct (andb _ _) eqn:C; [|done]);
    apply andb_prop in C as [V Em]; apply bool_decide_eq_true in Em.
  - destruct N4 as [Nz|[(_ & x & Ex & _)|(? & _)]]; [by rewrite Nz in V| |done]. rewrite Ex. cbn [Is4 Is6 andb].
    rewrite bool_decide_eq_true_2 by done. cbn [negb]. by rewrite Em.
  - destruct N6 as [Nz|[(? & _)|(_ & x & Ex & _)]]; [by rewrite Nz in V|done|]. rewrite Ex. cbn [Is4 Is6 andb].
    rewrite bool_decide_eq_true_2 by done. cbn [negb]. by rewrite Em.
Qed.
Lemma ping_pong q req s :
  framed q -> IPProto q = ipproto.TSMP -> AsTSMPPing q = Some (Some req) -> (51 <= MaxPacketSize t)%nat ->
  exists pkt, filterPacketInboundFromWireGuard t q (peerConfig_ t) s = Some (DropSilently, act (InjectedOutbound pkt) s)
    /\ forall q1, exists r, Decode q1 pkt = Some r /\ ip (Src r) = ip (Dst q) /\ ip (Dst r) = ip (Src q)
        /\ IPProto r = ipproto.TSMP /\ (headLen (IPVersion r) <= subofs r)%nat
        /\ forall r', IPProto r' = ipproto.TSMP -> Payload r' = Payload r -> 
           AsTSMPPong r' = Some (Some (req, match PeerAPIPort t with Some f => (f (ip (Dst q))).1 | None => 0 end)).
Proof using T_api.
  intros F P A Sz. destruct (AsTSMPPing_data q req A) as [_ Lr].
  destruct (pong_sent t T_api q req s F P Lr) as (pong & Ei & Ok & Ed & Ep).
  destruct (pongAddrs pong) as [[[pr id] s0] d0] eqn:Ea. set (pkt := TSMP.wire id _ _ _) in Ei. exists pkt.
  unfold pong_ok in Ok. rewrite Ea in Ok. destruct Ok as (_ & _ & _ & _ & Hi & Ld & Hp).
  assert (length (pongBody pong) = 11%nat) as Lb by (unfold pongBody; len). 
  pose proof (length_wire id (ip (Dst q)) (ip (Src q)) (pongBody pong)) as Lw. fold pkt in Lw. rewrite Lb in Lw. split.
  - unfold filterPacketInboundFromWireGuard, handleTSMP. rewrite P, A. cbn [Z.eqb Pos.eqb ipproto.TSMP negb mbind option_bind].
    rewrite Ei. cbn [mbind option_bind]. unfold InjectOutbound.
    destruct (Nat.ltb_spec (MaxPacketSize t) (length pkt)); [lia|]. destruct (Nat.eqb_spec (length pkt) 0); [lia|done].
  - intros q1. destruct (wire_decodes (IPVersion q) q1 id (ip (Dst q)) (ip (Src q)) (pongBody pong)) as (r & Er & Pr & Vr & Sr & Dr & Hs & Pl);
      [exact (fr_addr q F false)|exact (fr_addr q F true)|done|lia|lia|].
    exists r. split; [done|]. split; [done|]. split; [done|]. split; [done|]. split.
    + rewrite Vr, Hs. done.
    + intros r' P' Pl'. rewrite <- Ed, <- Ep. apply AsTSMPPong_body; [done|by rewrite Pl'|done|done].
Qed.

(** A TSMP ping is answered by the node and never reaches the host: [Write] delivers nothing
    and queues one packet, whatever the filter says. What [injectedRead] then makes of that packet
    goes back to the sender of the ping, from the address the ping was sent to when the node
    masquerades towards the sender, and parses as a pong with the data of the ping and the port of
    the peer API. *)
Theorem tsmp_ping_answered q0 pre p q req s :
  (51 <= MaxPacketSize t)%nat ->
  Decode q0 p = Some q -> (headLen (IPVersion q) <= subofs q)%nat -> AsTSMPPing q = Some (Some req) ->
  exists pkt q', Write_ t q0 [pre ++ p] (length pre) s = Some ([], q', act (InjectedOutbound pkt) s)
    /\ forall q1 room s1, (length pkt <= room)%nat ->
         exists d r s2, injectedRead t q1 pkt room s1 = Some (d, r, s2)
           /\ forall q2 r2, Decode q2 d = Some r2 ->
                ip (Dst r2) = ip (Src q) /\ ip (Src r2) = pongSource q
                /\ (target false (peerConfig_ t) q <> ip (Dst q) -> pongSource q = ip (Dst q))
                /\ AsTSMPPong r2 = Some (Some (req,
                     match PeerAPIPort t with Some f => (f (target false (peerConfig_ t) q)).1 | None => 0 end)).
Proof using T_api T_ok T_on.
  intros Sz E Hs A. destruct (AsTSMPPing_data q req A) as [P _].
  assert (IPProto q <> ipproto.Unknown) as U by by rewrite P. pose proof (known_framed q0 p q E U) as F.
  destruct (translate_tsmp false q0 p q E P Hs) as (q' & Et & F' & M & Pl & _).
  pose proof (mv_proto _ _ _ _ M) as Mp. rewrite P in Mp.
  destruct (ping_pong q' req s F' Mp ltac:(rewrite (AsTSMPPing_payload q q') by congruence; done) Sz) as (pkt & Ef & Dp).
  exists pkt, q'. split.
  { unfold Write_. cbn [writeLoop]. rewrite slice_suffix. cbn [mbind option_bind]. rewrite E. cbn [mbind option_bind].
    cbn [translate] in Et. rewrite Et. cbn [mbind option_bind]. rewrite T_on. cbn [negb]. rewrite Ef. done. }
  intros q1 room s1 Hr. destruct (Dp q1) as (r & Er & Sr & Dr & Pr & Hsr & Po).
  destruct (translate_tsmp true q1 pkt r Er Pr Hsr) as (r' & Etr & _ & Mr & _ & Ag).
  unfold injectedRead. rewrite take_ge by done. rewrite Er. cbn [mbind option_bind]. cbn [translate] in Etr. rewrite Etr.
  eexists _, r', _. split; [reflexivity|]. intros q2 r2 E2. destruct (Ag q2 r2 E2) as [Ar Plr].
  pose proof (a_proto _ _ Ar) as P2. rewrite (mv_proto _ _ _ _ Mr), Pr in P2.
  destruct (a_addrs _ _ Ar) as (S2 & D2 & _); [by rewrite P2|].
  pose proof (mv_addr _ _ _ _ Mr) as Ma. pose proof (mv_other _ _ _ _ Mr) as Mo. cbn [addrOf negb target] in Ma, Mo.
  pose proof (mv_addr _ _ _ _ M) as Na. pose proof (mv_other _ _ _ _ M) as No. cbn [addrOf negb] in Na, No.
  split; [by rewrite D2, Mo, Dr, No|]. split; [by rewrite S2, Ma, Sr, Dr, Na, No|]. split; [by apply pongSource_back|].
  rewrite (Po r2 P2 Plr), Na. done.
Qed.
End ping.

#[local] Existing Instance list_bart_map.
#[local] Existing Instance list_bart.
(** A datagram to the peer the node masquerades towards, and the reply *)
Definition ex_out : bytes := ex_udp ex_self ex_peer 5000 53.
Definition ex_reply : bytes := ex_udp ex_peer (Addr4 0x64400909) 53 5000.
Definition ex_masq : peerConfig := MkPeerConfig (Addr4 0x64400909) AddrZero false.
Definition ex_table : peerConfigTable :=
  match peerConfig_ ex_node with Some pc => pc | None => MkPeerConfigTable AddrZero AddrZero bartEmpty ∅ end.
Lemma ex_table_eq : peerConfig_ ex_node = Some ex_table.
Proof. vm_compute. reflexivity. Qed.
Lemma ex_lookup : bartLookup (byIP ex_table) ex_peer = Some ex_masq.
Proof. vm_compute. reflexivity. Qed.
Definition ex_read : option (list bytes * Parsed * St) := Read ex_node zeroParsed [ex_out] [100%nat] (ex_shields_store, []).
Lemma masqueraded_flow_returns_witness :
  exists d q' s1 d2 r' s3, ex_read = Some ([d], q', s1)
    /\ Write_ ex_node zeroParsed [zeros 16 ++ ex_reply] 16 s1 = Some ([zeros 16 ++ d2], r', s3)
    /\ (forall q1 r, Decode q1 d = Some r -> ip (Src r) = Addr4 0x64400909)
    /\ (forall q2 r2, Decode q2 d2 = Some r2 -> Dst r2 = MkAddrPort ex_self 5000).
Proof.
  assert (exists q, Decode zeroParsed ex_out = Some q /\ Src q = MkAddrPort ex_self 5000 /\ Dst q = MkAddrPort ex_peer 53
    /\ IPVersion q = 4 /\ IPProto q = ipproto.UDP /\ subofs q = 20%nat /\ length (b q) = 29%nat /\ isSelfDisco ex_node q = Some false) as (q & E & Sq & Dq & Vq & Pq & Oq & Lq & Iq).
  { eexists. split; [vm_compute; reflexivity|]. vm_compute. repeat split. }
  assert (exists r, Decode zeroParsed ex_reply = Some r /\ Src r = MkAddrPort ex_peer 53 /\ Dst r = MkAddrPort (Addr4 0x64400909) 5000
    /\ IPVersion r = 4 /\ IPProto r = ipproto.UDP /\ subofs r = 20%nat
    /\ exists r', dnat (Some ex_table) r = Some r' /\ isSelfDisco ex_node r' = Some false) as (r & Er & Sr & Dr & Vr & Pr & Or & r' & Nr & Ir).
  { eexists. split; [vm_compute; reflexivity|]. repeat (split; [reflexivity|]). eexists. split; vm_compute; reflexivity. }
  destruct (masqueraded_flow_returns ex_node ex_table ex_masq ex_filter [ex_rule] ex_locals ex_ms_ok ex_locals_ok
    (proj1 (ex_filters_ok false ex_filter eq_refl)) ex_table_eq eq_refl eq_refl
    ltac:(rewrite <- ex_table_eq; apply ex_tun_ok) zeroParsed ex_out q 100 (ex_shields_store, []) E) as (d & q' & s1 & Ed & Rm & Rd & Re).
  - rewrite Vq, Oq. reflexivity.
  - unfold isFlow. by rewrite Pq.
  - split; [rewrite Lq; lia|]. rewrite Pq, Dq. split; [discriminate|]. split; [vm_compute; reflexivity|vm_compute; discriminate].
  - repeat (split; [reflexivity|]). exact Iq.
  - rewrite Sq, Vq. vm_compute. reflexivity.
  - rewrite Vq. split; [vm_compute; reflexivity|]. split; [vm_compute; reflexivity|].
    exists (PrefixFrom ex_self 32). split; [by left|vm_compute; reflexivity].
  - rewrite Dq. exact ex_lookup.
  - reflexivity.
  - rewrite Vq. reflexivity.
  - vm_compute. lia.
  - vm_compute. lia.
  - exact (proj1 (@cacheInv_new _ ex_cache)).
  - destruct (Re zeroParsed (zeros 16) ex_reply r s1 Er) as (d2 & r2 & s3 & Ew & D2).
    + rewrite Vr, Or. reflexivity.
    + split; [congruence|]. split; [congruence|]. rewrite Dr, Vq, Sq. reflexivity.
    + exact Rm.
    + intros r0 N0. rewrite Nr in N0. injection N0 as <-. repeat (split; [reflexivity|]). exact Ir.
    + exists d, q', s1, d2, r2, s3. split; [exact Ed|]. split; [exact Ew|]. split.
      * intros q1 r0 E0. destruct (Rd q1 r0 E0) as (S0 & _). rewrite S0, Vq. reflexivity.
      * intros q2 r0 E0. destruct (D2 q2 r0 E0) as (_ & S0 & _). rewrite S0. exact Sq.
Defined.
Definition ex_ping : bytes :=
  [x45; x00; x00; x1d; x00; x00; x00; x00; x40; x63; x00; x00; x64; x40; x00; x02; x64; x40; x09; x09;
   x70; x01; x02; x03; x04; x05; x06; x07; x08].
Lemma ex_size : (51 <= MaxPacketSize ex_node)%nat.
Proof. apply Nat.leb_le. vm_compute. reflexivity. Qed.
Lemma tsmp_ping_answered_witness :
  exists pkt q', Write_ ex_node zeroParsed [zeros 16 ++ ex_ping] 16 (ex_shields_store, [])
    = Some ([], q', (ex_shields_store, [InjectedOutbound pkt])).
Proof.
  assert (exists q, Decode zeroParsed ex_ping = Some q /\ IPVersion q = 4 /\ subofs q = 20%nat
    /\ AsTSMPPing q = Some (Some [x01; x02; x03; x04; x05; x06; x07; x08])) as (q & E & V & O & A).
  { eexists. split; [vm_compute; reflexivity|]. split; [reflexivity|]. split; [reflexivity|vm_compute; reflexivity]. }
  destruct (tsmp_ping_answered ex_node (proj1 (ex_tun_ok _ _)) (proj2 (ex_tun_ok _ _)) eq_refl zeroParsed (zeros 16) ex_ping q
    _ (ex_shields_store, []) ex_size E ltac:(rewrite V, O; reflexivity) A) as (pkt & q' & W & _).
  exists pkt, q'. exact W.
Defined.
